(* ===== verification/_CoqProject ===== *)
-Q . S2P
Prelude.v
BanMath.v
BanUTF8.v
BanTime.v
BanSort.v
BanHashSet.v
BanHashMap.v
Bitmap.v
PhysicalRange.v
KHeap.v
Kmalloc.v
RingBuffer.v
Pipe.v
EventFD.v
Tty.v
PseudoTerminal.v
StatefulLogic.v
RecordLocks.v
FileDescriptors.v
FileDescriptorsCorrect.v
FileDescriptorsOps.v
FileDescriptorsSystem.v
FileDescriptorsPipe.v
FileDescriptorsChecks.v
LockSpec.v
Mutex.v
PriorityMutex.v
SpinLock.v
RecursiveSpinLock.v
RWLock.v
Futex.v
PthreadMutex.v
Semaphore.v
Monitor.v
PthreadRwlock.v
PthreadBarrier.v
BitStream.v
Huffman.v
Inflate.v
InflateCorrect.v
InflateChecks.v
Deflate.v
DeflateTree.v
DeflateMatch.v
DeflateLengths.v
DeflateCorrect.v
DiskCache.v
DiskCacheCorrect.v
DiskCacheSystem.v
DiskCacheChecks.v
StorageDevice.v
StorageCorrect.v
Gpt.v
SchedulerNode.v
SchedulerHeapNode.v
SchedulerNodeCorrect.v
SchedulerHeapLinks.v
SchedulerHeapCorrect.v
SchedulerHeapWalk.v
Scheduler.v
SchedulerChains.v
SchedulerInv.v
SchedulerCorrect.v
SchedulerSteps.v
SchedulerBalance.v
SchedulerSystem.v
SchedulerChecks.v
