(* ===== verification/Prelude.v ===== *)
(** * A verified model of banan-os

    banan-os is an operating system in C++: a kernel (src/kernel), a base
    library shared by kernel and userspace (src/BAN), and a userspace of
    libraries and programs (src/userspace).  This library translates parts of
    it into executable Rocq definitions and proves what makes them correct.

    ** How the code is embedded

    A [w]-bit integer is a [Z] with its wrap-around written out ([u8], [u16],
    [u32], [u64]); a pointer into an array is an index; a [Vector] or span is a
    list.  [BAN::ErrorOr] is [outcome]: [Ok], [Err] with an errno, or [Panic]
    for [ASSERT], [MUST] and an access outside an array.  Code that mutates an
    object is a function of type [stateful S A], from the old state to the
    result and the new state, so that the state after a failure is part of
    every statement.  A loop whose bound is not structural carries fuel and
    ends in [Panic] (or [None]) when it runs out; the theorems that say that an
    operation returns are proved for the fuel its caller passes, so running out
    is excluded.  The fuel is always a quantity of the source: the size of the
    range, the capacity of the table, the number of bits or bytes left.

    ** The parts and their files

    - Base library.  [BanMath] (BAN/Math.h), [BanUTF8] (BAN/UTF8.h), [BanTime]
      (BAN/Time.cpp), [BanSort] (BAN/Heap.h, BAN/Sort.h, BAN/PriorityQueue.h;
      Modules [Sort] and [PriorityQueue]), [BanHashSet] (BAN/Hash.h,
      BAN/HashSet.h) and [BanHashMap] (BAN/HashMap.h, on top of the set).
    - Physical memory.  [Bitmap] gives the bit accesses that the allocators
      share; [PhysicalRange] (kernel/Memory/PhysicalRange.cpp) manages one run
      of pages, [KHeap] (kernel/Memory/Heap.cpp) the vector of ranges built
      from the boot memory map, [Kmalloc] (kernel/Memory/kmalloc.cpp) objects
      and large blocks on top of it.  Page tables are the interface
      [AddressSpace], which [Kmalloc] and [RingBuffer] are proved against.
    - Byte queues.  [RingBuffer] (kernel/Memory/ByteRingBuffer.cpp, .h), [Pipe]
      (kernel/FS/Pipe.cpp) on top of it, [EventFD] (kernel/FS/EventFD.cpp).  An
      operation is one attempt under the mutex; waiting is a status and waking
      is part of the result.
    - Terminals.  [Tty] (kernel/Terminal/TTY.cpp) is the line discipline on the
      ring buffer; the screen behind it is the class [Terminal], of which
      [PseudoTerminal] (kernel/Terminal/PseudoTerminal.cpp) is an instance.
    - Locks.  [LockSpec] is the abstract recursive lock and the class
      [RecursiveLock] that an implementation instantiates; [Mutex],
      [PriorityMutex] (kernel/Lock/Mutex.cpp), [SpinLock],
      [RecursiveSpinLock] (kernel/Lock/SpinLock.cpp) and [RWLock]
      (kernel/Lock/RWLock.cpp) are step relations at the grain of their atomic
      accesses, for any number of threads.
    - File descriptors.  [FileDescriptors] (kernel/OpenFileDescriptorSet.cpp) is
      every operation of a process on its descriptors; the world is the tables
      of all processes, the open file descriptions they share and the inodes,
      which are the class [Inodes].  [RecordLocks] are the locks of fcntl on
      ranges of a file.  [StatefulLogic] has the rules for reasoning about
      stateful code; [FileDescriptorsCorrect] and [FileDescriptorsOps] treat the
      operations, [FileDescriptorsSystem] processes that fork, execute and exit,
      [FileDescriptorsPipe] instantiates the inodes with the pipes of [Pipe], and
      [FileDescriptorsChecks] runs examples.
    - Synchronisation of user programs.  [Futex] (sys_futex in
      kernel/Process.cpp and LibC/sys/futex.cpp) is the kernel's part, at the
      grain at which calls interleave; [PthreadMutex] (LibC/pthread.cpp)
      instantiates [RecursiveLock] with the mutexes, [Semaphore]
      (LibC/semaphore.cpp) has the semaphores.  [Monitor] is a mutex with a
      condition variable and the class [MonitorClient] of the code that runs
      under it, with its contract [MonitorLaws]; [PthreadRwlock] and
      [PthreadBarrier] are its clients.
    - LibDEFLATE.  [BitStream] (BitStream.h, Utils.h), [Huffman]
      (HuffmanTree.cpp), [Inflate] (Decompressor.cpp) and [Deflate]
      (Compressor.cpp) are definitions; [InflateCorrect], [InflateChecks],
      [DeflateTree], [DeflateMatch], [DeflateLengths] and [DeflateCorrect] are
      their theory.
    - Storage.  [DiskCache] (kernel/Storage/DiskCache.cpp) caches sectors in
      pages, with the write-back split where the code drops its lock;
      [StorageDevice] (kernel/Storage/StorageDevice.cpp, Partition.cpp) reads
      and writes through it; [Gpt] reads a partition table.  The pages come
      from the class [PageSource] and the hardware is the class [StorageDriver].
      [DiskCacheCorrect] treats the operations one at a time,
      [DiskCacheSystem] any number of threads that use the cache, section by
      section of its lock, and the loops of sync among them; [DiskCacheChecks]
      runs examples and [StorageCorrect] treats whole calls of a device.
    - Scheduler.  [SchedulerNode] and [SchedulerHeapNode]
      (kernel/SchedulerThreadNode.cpp) are the intrusive queue and heap on
      shared link words; [Scheduler] (kernel/Scheduler.cpp, ThreadBlocker.cpp
      and what they use of Processor.cpp and Thread.cpp) is the machine: the
      nodes and threads, a scheduler and a message list per processor, the
      chains of the blockers.  Every operation of a processor is a function on
      the machine.  [SchedulerNodeCorrect], [SchedulerHeapLinks],
      [SchedulerHeapCorrect] and [SchedulerHeapWalk] treat the two structures,
      [SchedulerChains] the blockers, [SchedulerInv] the lists of all
      processors, [SchedulerCorrect], [SchedulerSteps] and [SchedulerBalance]
      the operations, and [SchedulerSystem] and [SchedulerChecks] the whole.

    ** What the theorems show

    - Data structures refine their abstract counterparts: the hash set a finite
      set, the map a function, the ring buffer a queue, the sorts a sorted
      permutation (for a comparison that is a [StrictWeakOrder]).
    - Allocators never give out memory twice, find memory when there is some,
      and give back what they gave out; initialisation gives the heap only
      available memory outside the reserved regions.
    - Locks exclude each other in every interleaving, no assertion of theirs
      fails, and nobody who could proceed is left asleep.
    - Pipes are first in first out, count their descriptors, and wake whoever
      an operation unblocks.
    - A line typed at a terminal is read as it was edited, and the output of a
      pseudoterminal goes through the output modes into a queue; the erase
      character stops the kernel exactly when the buffer holds stray bytes only.
    - The decompressor follows RFC 1951 ([inflates], a relation on lists of
      bits) for every cutting of input and output, and terminates with the
      whole data; the compressor's codes are complete prefix codes of at most
      fifteen bits; what it compresses decompresses to the same data.
    - The cached disk behaves like a plain disk for every interleaving of
      reads (lookup, device, fill), writes, releases and write-back, whichever
      of them fail, as long as no sector is written between the miss and the
      fill of a reader, where the write would be lost; after a sync the disk
      holds what readers saw, other threads running or not, unless pages come
      or go meanwhile; a partition confines its requests.
    - From the start, no operation of the scheduler fails an assertion and no
      thread is in two places, if its callers keep their obligations (spelled
      out in [allowed]: among them, a thread that is woken has been added
      before, and the code has a caller that does not see to it); a blocked
      thread can run once its blocker is unblocked and the messages are
      handled; the timer wakes exactly the
      threads that are due and is set before the next one is; a yield is a
      round-robin switch, so that a queued thread gets its turn.
    - Whatever processes do with their descriptors, no assertion fails, each
      inode counts exactly the references there are, and a close-on-exec mark
      belongs to an open descriptor; a fork inherits all descriptors and an
      execution those without the mark; duplicates share one offset; a reader of
      a pipe sees its end when the last writer in any process is gone.
    - User mutexes refine the abstract lock and reader-writer locks an abstract
      reader-writer lock; semaphores count; a barrier holds its threads back.
      No wakeup is lost: while a thread sleeps that could proceed, a few steps
      of threads already inside the library wake it.
    - Calendar time, UTF-8 and bit streams round trip.
    - Where the code departs from what it means to do, a theorem shows it on
      an input: the bounds under which the positive theorems hold are the
      exact places.

    ** Bounds

    The round trip of the compressor is for inputs of 1 to 16384 bytes (one
    block: the second block of a longer input fails an assertion of the code)
    whose blocks use no distance symbol alone ([encodable], a boolean that can
    be evaluated).  The calendar theorems are for Unix times below 2^55
    and years 1970 to 2^24, within which the code's 32-bit arithmetic does not
    wrap.  Allocation of
    vectors is taken to succeed unless an argument named [allocated] says
    otherwise; the nodes of the Huffman tree are allocated by an oracle.
    Reads of a device are for at most 63 sectors and writes through the cache
    for at most 255, beyond which the code shifts by the width of a type or
    counts around; sectors divide a page into at most eight.  In the scheduler
    the fuel of a walk is any number at least as large as the number of threads
    there are, which bounds every list by the invariant; the readings of the
    clock are below 2^63 nanoseconds, 292 years.
    Thread ids are positive and below 2^32; a mutex nests less than 2^32 deep;
    the sequence number of a condition variable and the generation of a barrier
    do not wrap around, and a reader-writer lock has less than 2^31 readers.
    That no wakeup of a mutex is lost holds for locks without a deadline.
    A line that is typed at a terminal in the mode of a new pseudoterminal fits
    into the buffer of the terminal, and its characters are in UTF-8 and not
    control characters of the terminal; the output of a pseudoterminal is
    that of a slave whose master is open.  An open file description may fail to
    be allocated, except for the two of a new pipe, whose failure leaves a
    descriptor behind.

    ** Not modelled

    Hardware drivers (ACPI, APIC, PCI, USB, audio, graphics, network cards,
    disk controllers), page table formats and start-up code act on registers
    and are left out.  File systems, networking, the screens of
    terminals, most of processes and system calls, most of LibC and the
    programs are candidates for further files; what the modelled parts use of
    them is an argument of the model.
    Futexes are modelled one at a time: the table that finds the futex of an
    address and its move with a copied page are left out, as are cancellation
    of threads and named semaphores.  In the
    scheduler, interrupts are disabled and the spin locks are held for the whole
    of a step, so a step is atomic; the memory of a thread that has been deleted
    is not modelled, so a message for it is not a fault; the storage of messages,
    TLB shootdown, the
    contents of the SSE state, the load statistics and the tracing are left out.
    A write for which the disk cache has no memory goes to the device; this is
    part of a whole call in [StorageDevice], not of the interleavings.
    Floating point (BAN/Math.h), radix sort, iterators, and copy and move
    constructors are not modelled. *)
From stdpp Require Export base tactics numbers relations list option.
From Stdlib Require Export ZArith Lia Bool.

#[export] Set Default Goal Selector "!".
#[global] Open Scope Z_scope.

(** ** Outcomes of kernel and library code

    [BAN::ErrorOr<T>] is [Ok]/[Err]; [ASSERT], [MUST], [panic] and
    [ASSERT_NOT_REACHED] stop the machine, which is the third outcome. *)
Inductive errno : Type :=
| ENOMEM | EINVAL | ENXIO | EPIPE | EINTR | ENODEV | EAGAIN | EBADF | EMFILE
| ENOENT | ENOTDIR | EISDIR | EACCES | EPERM | EEXIST | ENOSPC | EFBIG | ERANGE
| ENOTEMPTY | ENAMETOOLONG | ELOOP | EOVERFLOW | ENOTSUP | EIO | ESPIPE | EROFS
| ENOBUFS | EFAULT | ENOTSOCK | ENOTTY | EPROTOTYPE | EPROTONOSUPPORT | ENOLCK
| EWOULDBLOCK | ENODATA | EBUSY | EDEADLK | ETIMEDOUT | ENOSYS.

#[export] Instance errno_eq_dec : EqDecision errno.
Proof. solve_decision. Defined.

Inductive outcome (A : Type) : Type :=
| Ok (a : A)
| Err (e : errno)
| Panic.
Arguments Ok {A} _.
Arguments Err {A} _.
Arguments Panic {A}.

Definition is_Ok {A} (o : outcome A) : Prop := match o with Ok _ => True | _ => False end.

Declare Scope ban_scope.
Delimit Scope ban_scope with ban.

Notation "'let*' p := c 'in' k" :=
  (match c with Ok p => k | Err e => Err e | Panic => Panic end)
  (at level 10, p pattern, c at level 200, k at level 200) : ban_scope.
Notation "'ASSERT' b 'in' k" := (if b then k else Panic)
  (at level 10, b at level 200, k at level 200) : ban_scope.
Open Scope ban_scope.

(** Code that also changes a state keeps the changes it made before it failed. *)
Definition stateful (S A : Type) : Type := S -> outcome A * S.

Definition sret {S A} (a : A) : stateful S A := fun s => (Ok a, s).
Definition sfail {S A} (e : errno) : stateful S A := fun s => (Err e, s).
Definition sassert {S} (b : bool) : stateful S unit := fun s => (if b then Ok tt else Panic, s).
Definition sget {S} : stateful S S := fun s => (Ok s, s).
Definition sput {S} (s' : S) : stateful S unit := fun _ => (Ok tt, s').
Definition slift {S A} (o : outcome A) : stateful S A := fun s => (o, s).

Definition sbind {S A B} (m : stateful S A) (k : A -> stateful S B) : stateful S B :=
  fun s =>
    match m s with
    | (Ok a, s') => k a s'
    | (Err e, s') => (Err e, s')
    | (Panic, s') => (Panic, s')
    end.

Notation "'let!' p := c 'in' k" := (sbind c (fun p => k))
  (at level 10, p pattern, c at level 200, k at level 200) : ban_scope.

(** [MUST] stops the machine on an error. *)
Definition smust {S A} (m : stateful S A) : stateful S A :=
  fun s => match m s with (Ok a, s') => (Ok a, s') | (_, s') => (Panic, s') end.

(** ** Fixed-width unsigned integers

    A [w]-bit unsigned integer is a [Z] in [0, 2^w); the operators below are
    C++'s, which wrap around. *)
Definition wrap (w z : Z) : Z := z `mod` 2 ^ w.
Abbreviation u8 := (wrap 8).
Abbreviation u16 := (wrap 16).
Abbreviation u32 := (wrap 32).
Abbreviation u64 := (wrap 64).

Definition UINT64_MAX : Z := 2 ^ 64 - 1.
Definition SIZE_MAX : Z := 2 ^ 64 - 1.

Abbreviation PAGE_SIZE := 4096 (only parsing).

(** [~x] on a [w]-bit unsigned integer. *)
Definition bnot (w x : Z) : Z := 2 ^ w - 1 - x.

(** ** Automation

    [zify_bool] turns the boolean tests of the code into propositions,
    [case_if] splits on the tests that are left in the goal, and [unwrap]
    drops a wrap-around whose argument is in range. *)
Ltac zify_bool :=
  repeat match goal with
  | H : context [andb _ _ = true] |- _ => rewrite andb_true_iff in H
  | H : context [orb _ _ = true] |- _ => rewrite orb_true_iff in H
  | H : context [andb _ _ = false] |- _ => rewrite andb_false_iff in H
  | H : context [orb _ _ = false] |- _ => rewrite orb_false_iff in H
  | H : context [negb _ = true] |- _ => rewrite negb_true_iff in H
  | H : context [negb _ = false] |- _ => rewrite negb_false_iff in H
  | H : context [Z.eqb _ _ = true] |- _ => rewrite Z.eqb_eq in H
  | H : context [Z.eqb _ _ = false] |- _ => rewrite Z.eqb_neq in H
  | H : context [Z.ltb _ _ = true] |- _ => rewrite Z.ltb_lt in H
  | H : context [Z.ltb _ _ = false] |- _ => rewrite Z.ltb_ge in H
  | H : context [Z.leb _ _ = true] |- _ => rewrite Z.leb_le in H
  | H : context [Z.leb _ _ = false] |- _ => rewrite Z.leb_gt in H
  | H : context [Nat.eqb _ _ = true] |- _ => rewrite Nat.eqb_eq in H
  | H : context [Nat.eqb _ _ = false] |- _ => rewrite Nat.eqb_neq in H
  | H : context [Nat.ltb _ _ = true] |- _ => rewrite Nat.ltb_lt in H
  | H : context [Nat.ltb _ _ = false] |- _ => rewrite Nat.ltb_ge in H
  | H : context [Nat.leb _ _ = true] |- _ => rewrite Nat.leb_le in H
  | H : context [Nat.leb _ _ = false] |- _ => rewrite Nat.leb_gt in H
  end.

Ltac case_if :=
  match goal with
  | |- context [if ?b then _ else _] =>
      lazymatch type of b with
      | bool => let E := fresh "E" in destruct b eqn:E
      | _ => let E := fresh "E" in destruct b as [E|E]
      end
  end.

Ltac case_if_in H :=
  match type of H with
  | context [if ?b then _ else _] =>
      lazymatch type of b with
      | bool => let E := fresh "E" in destruct b eqn:E
      | _ => let E := fresh "E" in destruct b as [E|E]
      end
  end.

(** [case_bind] splits on the outcome of the first step of a sequence. *)
Ltac case_bind :=
  match goal with
  | |- context [match ?c with Ok _ => _ | Err _ => _ | Panic => _ end] => let E := fresh "E" in destruct c eqn:E
  end.

Ltac case_bind_in H :=
  match type of H with
  | context [match ?c with Ok _ => _ | Err _ => _ | Panic => _ end] => let E := fresh "E" in destruct c eqn:E
  end.

(** Membership in a list written out. *)
Ltac solve_elem := repeat first [by apply elem_of_cons; left | apply elem_of_cons; right].

Create HintDb ban.
#[export] Hint Resolve list_elem_of_here list_elem_of_further : ban.

(** The first index with a decidable property. *)
Lemma least_index (P : nat -> Prop) `{forall n, Decision (P n)} (m0 : nat) :
  P m0 -> exists m, (m <= m0)%nat /\ P m /\ forall j, (j < m)%nat -> ~ P j.
Proof.
  induction m0 as [m0 IH] using lt_wf_ind. intros Hm0.
  destruct (decide (Exists P (seq 0 m0))) as [HE|HE].
  - apply list.Exists_exists in HE as (j & Hj%elem_of_seq & HPj).
    destruct (IH j ltac:(lia) HPj) as (m & ? & ? & ?). exists m. split_and!; [lia|done|done].
  - exists m0. split_and!; [lia|done|]. intros j Hj HPj. apply HE, list.Exists_exists.
    exists j. split; [apply elem_of_seq; lia|done].
Qed.

(** ** Invariants of transition systems *)
Lemma rtc_invariant {A} (R : A -> A -> Prop) (P : A -> Prop) (x y : A) :
  (forall a b, P a -> R a b -> P b) -> P x -> rtc R x y -> P y.
Proof. intros HP Hx Hxy. induction Hxy as [|a b c Hab _ IH]; [done|]. by apply IH, (HP a). Qed.

(** ** Arithmetic *)
Lemma wrap_range w z : 0 <= w -> 0 <= wrap w z < 2 ^ w.
Proof. intros. apply Z.mod_pos_bound. apply Z.pow_pos_nonneg; lia. Qed.

Lemma wrap_id w z : 0 <= z < 2 ^ w -> wrap w z = z.
Proof. intros. by apply Z.mod_small. Qed.

(** Innermost first, so that the bounds of outer operations are visible. *)
Ltac unwrap :=
  repeat match goal with
  | |- context [wrap ?w ?z] =>
      lazymatch z with
      | context [wrap _ _] => fail
      | _ => rewrite (wrap_id w z) by lia
      end
  end.

Lemma testbit_small (w z i : Z) :
  0 <= z < 2 ^ w -> w <= i -> Z.testbit z i = false.
Proof.
  intros Hz Hi. destruct (decide (0 <= w)).
  - rewrite <- (Z.mod_small z (2 ^ w)) by done. apply Z.mod_pow2_bits_high. lia.
  - rewrite Z.pow_neg_r in Hz by lia. lia.
Qed.

Lemma bnot_testbit (w x i : Z) :
  0 <= x < 2 ^ w -> 0 <= i < w -> Z.testbit (bnot w x) i = negb (Z.testbit x i).
Proof.
  intros Hx Hi. unfold bnot.
  replace (2 ^ w - 1 - x) with (Z.ldiff (Z.ones w) x).
  - rewrite Z.ldiff_spec, Z.ones_spec_low by lia. done.
  - rewrite Z.ones_equiv. rewrite <- Z.sub_nocarry_ldiff; [lia|].
    apply Z.bits_inj'. intros j Hj. rewrite Z.ldiff_spec, Z.bits_0.
    destruct (decide (j < w)).
    + rewrite <- Z.ones_equiv, Z.ones_spec_low by lia. by rewrite andb_false_r.
    + by rewrite (testbit_small w x j) by lia.
Qed.

Lemma bnot_range (w x : Z) : 0 <= x < 2 ^ w -> 0 <= bnot w x < 2 ^ w.
Proof. unfold bnot. lia. Qed.

Lemma testbit_range_lt (w z : Z) :
  0 <= w -> 0 <= z -> (forall i, w <= i -> Z.testbit z i = false) -> z < 2 ^ w.
Proof.
  intros Hw Hz Hbits. destruct (decide (z = 0)) as [->|]; [lia|].
  destruct (decide (z < 2 ^ w)) as [|Hge]; [done|].
  assert (w <= Z.log2 z) by (apply Z.log2_le_pow2; lia).
  pose proof (Hbits (Z.log2 z) ltac:(lia)) as Hb.
  rewrite Z.bit_log2 in Hb by lia. done.
Qed.

(** [(a << n) | b] for a [b] that fits below bit [n]. *)
Lemma lor_shiftl_add a b n :
  0 <= n -> 0 <= b < 2 ^ n -> Z.lor (Z.shiftl a n) b = a * 2 ^ n + b.
Proof.
  intros Hn Hb. rewrite <- Z.shiftl_mul_pow2 by lia. symmetry.
  rewrite <- Z.lxor_lor; [apply Z.add_nocarry_lxor|];
  apply Z.bits_inj'; intros i Hi; rewrite Z.land_spec, Z.bits_0;
  (destruct (decide (i < n));
   [rewrite Z.shiftl_spec_low by lia; done
   |rewrite (testbit_small n b i) by lia; by rewrite andb_false_r]).
Qed.

(** [(x >> n) & (2^m - 1)] as a field extraction. *)
Lemma field_extract x n m :
  0 <= n -> 0 <= m -> Z.land (Z.shiftr x n) (Z.ones m) = (x / 2 ^ n) `mod` 2 ^ m.
Proof. intros. by rewrite Z.land_ones, Z.shiftr_div_pow2 by lia. Qed.

(** Deciding a property of every integer of a finite range. *)
Lemma forallb_seqZ (f : Z -> bool) (lo len : Z) :
  forallb f (seqZ lo len) = true -> forall x, lo <= x < lo + len -> f x = true.
Proof.
  rewrite forallb_forall. intros H x Hx. apply H. apply list_elem_of_In, elem_of_seqZ. lia.
Qed.

(** ** Single bits: [q & (1 << k)], [q |= 1 << k], [q &= ~(1 << k)] *)
Lemma testbit_1_shiftl k i : 0 <= k -> Z.testbit (Z.shiftl 1 k) i = (i =? k).
Proof.
  intros Hk. rewrite Z.shiftl_1_l. destruct (Z.eqb_spec i k) as [->|Hne].
  - by apply Z.pow2_bits_true.
  - by apply Z.pow2_bits_false.
Qed.

Lemma land_bit_testbit q k :
  0 <= k -> negb (Z.land q (Z.shiftl 1 k) =? 0) = Z.testbit q k.
Proof.
  intros Hk. destruct (Z.testbit q k) eqn:E.
  - apply negb_true_iff, Z.eqb_neq. intros H.
    assert (Hb : Z.testbit (Z.land q (Z.shiftl 1 k)) k = true)
      by (rewrite Z.land_spec, E, testbit_1_shiftl, Z.eqb_refl by done; done).
    by rewrite H, Z.bits_0 in Hb.
  - apply negb_false_iff, Z.eqb_eq, Z.bits_inj'. intros i Hi.
    rewrite Z.land_spec, testbit_1_shiftl, Z.bits_0 by done.
    destruct (Z.eqb_spec i k) as [->|]; [by rewrite E|by rewrite andb_false_r].
Qed.

Lemma shiftl_1_range w k : 0 <= k < w -> 0 <= Z.shiftl 1 k < 2 ^ w.
Proof.
  intros. rewrite Z.shiftl_1_l. split; [apply Z.pow_nonneg; lia|].
  apply Z.pow_lt_mono_r; lia.
Qed.

Lemma setbit_spec w q k :
  0 <= q < 2 ^ w -> 0 <= k < w ->
  0 <= Z.lor q (Z.shiftl 1 k) < 2 ^ w /\
  (forall i, 0 <= i -> Z.testbit (Z.lor q (Z.shiftl 1 k)) i = (i =? k) || Z.testbit q i).
Proof.
  intros Hq Hk. pose proof (shiftl_1_range w k Hk).
  assert (H0 : 0 <= Z.lor q (Z.shiftl 1 k)) by (apply Z.lor_nonneg; lia).
  split.
  - split; [done|]. apply testbit_range_lt; [lia|done|]. intros i Hi.
    rewrite Z.lor_spec, !(testbit_small w) by lia. done.
  - intros i Hi. by rewrite Z.lor_spec, testbit_1_shiftl, orb_comm by lia.
Qed.

Lemma clearbit_spec w q k :
  0 <= q < 2 ^ w -> 0 <= k < w ->
  0 <= Z.land q (bnot w (Z.shiftl 1 k)) < 2 ^ w /\
  (forall i, 0 <= i -> Z.testbit (Z.land q (bnot w (Z.shiftl 1 k))) i = negb (i =? k) && Z.testbit q i).
Proof.
  intros Hq Hk. pose proof (shiftl_1_range w k Hk).
  assert (H0 : 0 <= Z.land q (bnot w (Z.shiftl 1 k))) by (apply Z.land_nonneg; lia).
  split.
  - split; [done|]. apply testbit_range_lt; [lia|done|]. intros i Hi.
    by rewrite Z.land_spec, (testbit_small w q) by lia.
  - intros i Hi. rewrite Z.land_spec, andb_comm. destruct (decide (i < w)).
    + by rewrite bnot_testbit, testbit_1_shiftl by lia.
    + by rewrite (testbit_small w q i), !andb_false_r by lia.
Qed.
