(* ===== verification/BanMath.v ===== *)
(** * BAN/Math.h: the integer routines of the base library

    Every routine of src/BAN/include/BAN/Math.h over integers, instantiated
    at [w]-bit unsigned integers as the kernel does.  The compiler builtins
    [__builtin_clzg], [__builtin_ctzg] and [__builtin_popcountg] are part of
    the language and are written out as bit scans. *)
From S2P Require Import Prelude.

Module Math.

(** ** Definitions *)
Definition min (a b : Z) : Z := if a <? b then a else b.
Definition max (a b : Z) : Z := if b <? a then a else b.
Definition clamp (x lo hi : Z) : Z := if x <? lo then lo else if hi <? x then hi else x.

(** The [while (b)] loop of [gcd]; [fuel] bounds the iterations. *)
Fixpoint gcd_loop (fuel : nat) (a b : Z) : Z :=
  match fuel with
  | O => a
  | S fuel' => if b =? 0 then a else gcd_loop fuel' b (a `mod` b)
  end.

(** Two iterations at least halve [b]. *)
Definition gcd_fuel (b : Z) : nat := S (S (2 * Z.to_nat (Z.log2 b))).
Definition gcd (a b : Z) : Z := gcd_loop (S (gcd_fuel b)) a b.
Definition lcm (w a b : Z) : Z := wrap w (a / gcd a b * b).

Definition div_round_up (w a b : Z) : Z := wrap w (wrap w (a + b) - 1) / b.

Definition is_power_of_two (w x : Z) : bool :=
  if x =? 0 then false else Z.land x (wrap w (x - 1)) =? 0.

(** The [sizeof(T) == 8] instance. *)
Definition round_up_to_power_of_two (x : Z) : Z :=
  let x := u64 (x - 1) in
  let x := Z.lor x (Z.shiftr x 1) in
  let x := Z.lor x (Z.shiftr x 2) in
  let x := Z.lor x (Z.shiftr x 4) in
  let x := Z.lor x (Z.shiftr x 8) in
  let x := Z.lor x (Z.shiftr x 16) in
  let x := Z.lor x (Z.shiftr x 32) in
  u64 (x + 1).

(** First set bit at or above [i], looking at [n] bits. *)
Fixpoint scan_up (n : nat) (x i : Z) : Z :=
  match n with
  | O => i
  | S n' => if Z.testbit x i then i else scan_up n' x (i + 1)
  end.

Definition ctz (w x : Z) : Z := scan_up (Z.to_nat w) x 0.

(** Number of zero bits from bit [n - 1] downwards. *)
Fixpoint scan_down (n : nat) (x : Z) : Z :=
  match n with
  | O => 0
  | S n' => if Z.testbit x (Z.of_nat n') then 0 else 1 + scan_down n' x
  end.

Definition clz (w x : Z) : Z := scan_down (Z.to_nat w) x.

Fixpoint popcount_loop (n : nat) (x : Z) : Z :=
  match n with
  | O => 0
  | S n' => Z.b2z (Z.testbit x (Z.of_nat n')) + popcount_loop n' x
  end.

Definition popcount (w x : Z) : Z := popcount_loop (Z.to_nat w) x.

Definition will_multiplication_overflow (w a b : Z) : bool := negb (a * b =? wrap w (a * b)).
Definition will_addition_overflow (w a b : Z) : bool := negb (a + b =? wrap w (a + b)).

Definition ilog2 (w x : Z) : Z := w - clz w x - 1.

(** ** min, max and clamp *)
Lemma min_spec a b : min a b = Z.min a b.
Proof. unfold min. case_if; zify_bool; lia. Qed.

Lemma max_spec a b : max a b = Z.max a b.
Proof. unfold max. case_if; zify_bool; lia. Qed.

Lemma clamp_range x lo hi : lo <= hi -> lo <= clamp x lo hi <= hi.
Proof. intros. unfold clamp. repeat case_if; zify_bool; lia. Qed.

(** ** gcd *)
Lemma mod_halves (a b : Z) : 0 < a `mod` b -> 0 < b -> 2 * (b `mod` (a `mod` b)) < b.
Proof.
  intros Hc Hb. pose proof (Z.mod_pos_bound a b Hb) as Hr.
  set (c := a `mod` b) in *. pose proof (Z.mod_pos_bound b c Hc).
  destruct (decide (2 * c <= b)); [lia|].
  rewrite (Z.mod_eq b c) by lia.
  assert (b / c = 1) as -> by (symmetry; apply Z.div_unique with (b - c); lia). lia.
Qed.

Lemma gcd_loop_spec (k : nat) : forall (n : nat) (a b : Z),
  0 <= a -> 0 <= b -> b < 2 ^ Z.of_nat k -> (2 * k < n)%nat ->
  gcd_loop n a b = Z.gcd a b.
Proof.
  assert (Hgcd : forall a b, b <> 0 -> Z.gcd b (a `mod` b) = Z.gcd a b).
  { intros. by rewrite Z.gcd_comm, Z.gcd_mod, Z.gcd_comm by lia. }
  induction k as [|k IH]; intros n a b Ha Hb Hlt Hn.
  - destruct n as [|n]; [lia|]. cbn. assert (b = 0) as -> by (cbn in *; lia).
    by rewrite Z.gcd_0_r, Z.abs_eq.
  - destruct n as [|[|n]]; [lia..|]. cbn [gcd_loop].
    case_if; zify_bool; [subst; by rewrite Z.gcd_0_r, Z.abs_eq|].
    pose proof (Z.mod_pos_bound a b ltac:(lia)).
    case_if; zify_bool.
    { rewrite <- Hgcd by lia. by rewrite E0, Z.gcd_0_r, Z.abs_eq by lia. }
    pose proof (mod_halves a b ltac:(lia) ltac:(lia)).
    rewrite Nat2Z.inj_succ, Z.pow_succ_r in Hlt by lia.
    rewrite IH by (try lia; apply Z.mod_pos_bound; lia).
    by rewrite !Hgcd by lia.
Qed.

Lemma gcd_spec a b : 0 <= a -> 0 <= b -> gcd a b = Z.gcd a b.
Proof.
  intros. unfold gcd, gcd_fuel.
  apply gcd_loop_spec with (k := S (Z.to_nat (Z.log2 b))); [lia..| |lia].
  destruct (decide (b = 0)) as [->|]; [apply Z.pow_pos_nonneg; lia|].
  rewrite Nat2Z.inj_succ, Z2Nat.id by apply Z.log2_nonneg.
  apply Z.log2_spec. lia.
Qed.

(** ** Rounding division *)
Lemma div_round_up_spec w a b :
  0 <= a -> 0 < b -> a + b <= 2 ^ w - 1 ->
  div_round_up w a b * b - b < a <= div_round_up w a b * b.
Proof.
  intros Ha Hb Hw. unfold div_round_up. rewrite !wrap_id by (rewrite ?wrap_id; lia).
  pose proof (Z.div_mod (a + b - 1) b ltac:(lia)).
  pose proof (Z.mod_pos_bound (a + b - 1) b ltac:(lia)). lia.
Qed.

(** ** Bit scans *)
Lemma scan_up_spec n : forall x i,
  (exists j, i <= j < i + Z.of_nat n /\ Z.testbit x j = true) ->
  i <= scan_up n x i < i + Z.of_nat n /\
  Z.testbit x (scan_up n x i) = true /\
  (forall j, i <= j < scan_up n x i -> Z.testbit x j = false).
Proof.
  induction n as [|n IH]; intros x i (j & Hj & Hbit); [lia|]. cbn [scan_up].
  case_if.
  - split_and!; [lia|lia|done|lia].
  - destruct (decide (j = i)) as [->|]; [congruence|].
    destruct (IH x (i + 1)) as (H1 & H2 & H3); [exists j; split; [lia|done]|].
    split_and!; [lia|lia|done|]. intros k Hk.
    destruct (decide (k = i)) as [->|]; [done|apply H3; lia].
Qed.

(** A nonzero [w]-bit word: [ctz] is its lowest set bit. *)
Lemma ctz_spec w x :
  0 < x < 2 ^ w ->
  0 <= ctz w x < w /\ Z.testbit x (ctz w x) = true /\
  (forall j, 0 <= j < ctz w x -> Z.testbit x j = false).
Proof.
  intros Hx. unfold ctz.
  destruct (decide (0 <= w)); [|rewrite Z.pow_neg_r in Hx by lia; lia].
  destruct (scan_up_spec (Z.to_nat w) x 0) as (H1 & H2 & H3).
  - exists (Z.log2 x). split; [|apply Z.bit_log2; lia].
    pose proof (Z.log2_nonneg x). assert (Z.log2 x < w) by (apply Z.log2_lt_pow2; lia). lia.
  - split_and!; [lia|lia|done|done].
Qed.

Lemma scan_down_spec n : forall x,
  0 < x < 2 ^ Z.of_nat n -> scan_down n x = Z.of_nat n - 1 - Z.log2 x.
Proof.
  induction n as [|n IH]; intros x Hx; [cbn in *; lia|]. cbn [scan_down].
  rewrite Nat2Z.inj_succ, Z.pow_succ_r in Hx by lia. case_if.
  - assert (2 ^ Z.of_nat n <= x).
    { destruct (decide (2 ^ Z.of_nat n <= x)); [done|].
      rewrite (testbit_small (Z.of_nat n)) in E by lia. done. }
    rewrite (Z.log2_unique x (Z.of_nat n)) by (rewrite ?Z.pow_succ_r; lia). lia.
  - assert (x < 2 ^ Z.of_nat n).
    { destruct (decide (x < 2 ^ Z.of_nat n)); [done|].
      assert (Z.log2 x = Z.of_nat n) as Hl
        by (apply Z.log2_unique; rewrite ?Z.pow_succ_r; lia).
      rewrite <- Hl, Z.bit_log2 in E by lia. done. }
    rewrite IH by lia. lia.
Qed.

Lemma ilog2_spec w x : 0 < x < 2 ^ w -> ilog2 w x = Z.log2 x.
Proof.
  intros Hx. destruct (decide (0 <= w)); [|rewrite Z.pow_neg_r in Hx by lia; lia].
  unfold ilog2, clz. rewrite scan_down_spec by (rewrite Z2Nat.id; lia). lia.
Qed.

(** ** Powers of two *)

(** [smeared k y z]: bit [i] of [z] is the disjunction of the bits
    [i .. i+k-1] of [y], which is what each [x |= x >> k] line doubles. *)
Definition smeared (k y z : Z) : Prop :=
  0 <= z /\
  forall i, 0 <= i ->
    Z.testbit z i = true <-> exists j, i <= j < i + k /\ Z.testbit y j = true.

Lemma smeared_1 y : 0 <= y -> smeared 1 y y.
Proof.
  intros Hy. split; [done|]. intros i Hi. split.
  - intros Hb. exists i. split; [lia|done].
  - intros (j & Hj & Hb). by replace i with j by lia.
Qed.

Lemma smeared_step k y z :
  0 < k -> smeared k y z -> smeared (2 * k) y (Z.lor z (Z.shiftr z k)).
Proof.
  intros Hk [Hz Hs]. split; [apply Z.lor_nonneg; split; [|apply Z.shiftr_nonneg]; lia|].
  intros i Hi. rewrite Z.lor_spec, Z.shiftr_spec, orb_true_iff, !Hs by lia. split.
  - intros [(j & ? & ?)|(j & ? & ?)]; exists j; (split; [lia|done]).
  - intros (j & Hj & Hb). destruct (decide (j < i + k)); [left|right];
      exists j; (split; [lia|done]).
Qed.

Lemma smeared_full k y z :
  0 < y -> Z.log2 y < k -> smeared k y z -> z = Z.ones (Z.log2 y + 1).
Proof.
  intros Hy Hk [Hz Hs]. pose proof (Z.log2_nonneg y). apply Z.bits_inj'. intros i Hi.
  destruct (decide (i <= Z.log2 y)).
  - rewrite Z.ones_spec_low by lia. apply Hs; [done|].
    exists (Z.log2 y). split; [lia|apply Z.bit_log2; lia].
  - rewrite Z.ones_spec_high by lia. apply not_true_iff_false. rewrite Hs by done.
    intros (j & Hj & Hb). rewrite Z.bits_above_log2 in Hb by lia. done.
Qed.

Lemma round_up_to_power_of_two_log2 x :
  2 <= x < 2 ^ 64 -> round_up_to_power_of_two x = u64 (2 ^ (Z.log2 (x - 1) + 1)).
Proof.
  intros Hx. unfold round_up_to_power_of_two. rewrite (wrap_id 64 (x - 1)) by lia.
  set (y := x - 1). assert (Hy : 0 < y < 2 ^ 64) by lia.
  assert (Hl : Z.log2 y < 64) by (apply Z.log2_lt_pow2; lia).
  pose proof (Z.log2_nonneg y).
  pose proof (smeared_1 y ltac:(lia)) as S1.
  do 6 (apply smeared_step in S1; [|lia];
        match type of S1 with context [2 * Zpos ?p] =>
          let v := eval compute in (2 * Zpos p) in change (2 * Zpos p) with v in S1 end).
  apply smeared_full in S1; [|lia|lia]. cbv zeta. rewrite S1.
  by rewrite Z.ones_equiv, <- Z.sub_1_r, Z.sub_add.
Qed.

(** C36: The bit-smearing [round_up_to_power_of_two] on 64-bit words: from 1 to 2^63 it
    returns the least power of two that is at least its argument; for 0, and above
    2^63, where that power does not fit into the word, it returns 0. *)
Theorem round_up_to_power_of_two_correct (x : Z) (Hx : 0 <= x < 2 ^ 64) :
  if decide (1 <= x <= 2 ^ 63) then
    exists k, 0 <= k <= 63 /\ round_up_to_power_of_two x = 2 ^ k /\ x <= 2 ^ k /\ (forall j, 0 <= j -> x <= 2 ^ j -> k <= j)
  else round_up_to_power_of_two x = 0.
Proof.
  destruct (decide (x = 0)) as [->|]; [by rewrite decide_False by lia|]. destruct (decide (x = 1)) as [->|].
  { rewrite decide_True by lia. exists 0. split_and!; [lia|lia|reflexivity|lia|intros; lia]. }
  rewrite round_up_to_power_of_two_log2 by lia. pose proof (Z.log2_nonneg (x - 1)). pose proof (Z.log2_spec (x - 1) ltac:(lia)) as [Hlo Hhi].
  rewrite <- Z.add_1_r in Hhi. case_decide.
  - assert (Z.log2 (x - 1) < 63) by (apply Z.log2_lt_pow2; lia).
    assert (2 ^ (Z.log2 (x - 1) + 1) <= 2 ^ 63) by (apply Z.pow_le_mono_r; lia).
    rewrite wrap_id by lia. exists (Z.log2 (x - 1) + 1). split_and!; [lia..|]. intros j Hj Hxj.
    assert (Z.log2 (x - 1) < j) by (apply Z.log2_lt_pow2; lia). lia.
  - assert (Z.log2 (x - 1) = 63) as -> by (apply Z.log2_unique; lia). reflexivity.
Qed.

Lemma round_up_to_power_of_two_correct_witness : round_up_to_power_of_two (2 ^ 63 + 1) = 0.
Proof. apply (round_up_to_power_of_two_correct (2 ^ 63 + 1)). lia. Defined.

Lemma land_pred_pow2 k : 0 <= k -> Z.land (2 ^ k) (2 ^ k - 1) = 0.
Proof.
  intros. replace (2 ^ k - 1) with (Z.ones k) by (rewrite Z.ones_equiv; lia).
  rewrite Z.land_ones by lia. by rewrite Z.mod_same by (apply Z.pow_nonzero; lia).
Qed.

Lemma land_pred_zero x : 0 < x -> Z.land x (x - 1) = 0 -> x = 2 ^ Z.log2 x.
Proof.
  intros Hx Hl. pose proof (Z.log2_spec x Hx) as [Hlo Hhi]. pose proof (Z.log2_nonneg x).
  destruct (decide (x = 2 ^ Z.log2 x)); [done|]. exfalso.
  assert (Z.log2 (x - 1) = Z.log2 x) as He by (apply Z.log2_unique; lia).
  pose proof (Z.land_spec x (x - 1) (Z.log2 x)) as Hb.
  rewrite Hl, Z.bits_0, Z.bit_log2 in Hb by lia. rewrite <- He, Z.bit_log2 in Hb by lia. done.
Qed.

(** [is_power_of_two] decides exactly the powers of two of its width. *)
Theorem is_power_of_two_correct (w x : Z) (Hx : 0 <= x < 2 ^ w) :
  is_power_of_two w x = true <-> exists k, 0 <= k /\ x = 2 ^ k.
Proof.
  unfold is_power_of_two. case_if; zify_bool.
  { split; [done|]. intros (k & Hk & ?). pose proof (Z.pow_pos_nonneg 2 k). lia. }
  rewrite wrap_id, Z.eqb_eq by lia. split.
  - intros Hl. exists (Z.log2 x). split; [apply Z.log2_nonneg|apply land_pred_zero; lia].
  - intros (k & Hk & ->). by apply land_pred_pow2.
Qed.

Lemma is_power_of_two_correct_witness :
  is_power_of_two 64 4096 = true <-> exists k, 0 <= k /\ 4096 = 2 ^ k.
Proof. apply (is_power_of_two_correct 64 4096). lia. Defined.

End Math.
