(* ===== verification/BanUTF8.v ===== *)
(** * BAN/UTF8.h: encoding and decoding code points

    A byte is a [Z] in [0, 256).  The decoder reads through a pointer; a read
    past the bytes the caller provides is [None]. *)
From S2P Require Import Prelude.

Module UTF8.

(** ** Definitions *)
Definition invalid : Z := 0xFFFFFFFF.

Definition byte_length (first_byte : Z) : Z :=
  if Z.land first_byte 0x80 =? 0x00 then 1
  else if Z.land first_byte 0xE0 =? 0xC0 then 2
  else if Z.land first_byte 0xF0 =? 0xE0 then 3
  else if Z.land first_byte 0xF8 =? 0xF0 then 4
  else invalid.

(** The loop over [bytes[1 .. length-1]]: [Some false] at the first byte that
    is not a continuation byte, [None] when it reads past the buffer. *)
Fixpoint check_continuation (rest : list Z) (n : Z) : option bool :=
  if n <=? 0 then Some true
  else match rest with
       | [] => None
       | b :: rest' =>
           if negb (Z.land b 0xC0 =? 0x80) then Some false
           else check_continuation rest' (n - 1)
       end.

Definition to_codepoint (bytes : list Z) : option Z :=
  match bytes with
  | [] => None
  | b0 :: rest =>
      let length := byte_length b0 in
      match check_continuation rest (length - 1) with
      | None => None
      | Some false => Some invalid
      | Some true =>
          if length =? 1 then
            Some (if negb (Z.land b0 0x80 =? 0x00) then invalid else b0)
          else if length =? 2 then
            match rest with
            | b1 :: _ =>
                Some (if negb (Z.land b0 0xE0 =? 0xC0) then invalid
                      else Z.lor (Z.shiftl (Z.land b0 0x1F) 6) (Z.land b1 0x3F))
            | _ => None
            end
          else if length =? 3 then
            match rest with
            | b1 :: b2 :: _ =>
                Some (if negb (Z.land b0 0xF0 =? 0xE0) then invalid
                      else Z.lor (Z.lor (Z.shiftl (Z.land b0 0x0F) 12)
                                        (Z.shiftl (Z.land b1 0x3F) 6)) (Z.land b2 0x3F))
            | _ => None
            end
          else if length =? 4 then
            match rest with
            | b1 :: b2 :: b3 :: _ =>
                Some (if negb (Z.land b0 0xF8 =? 0xF0) then invalid
                      else Z.lor (Z.lor (Z.lor (Z.shiftl (Z.land b0 0x07) 18)
                                               (Z.shiftl (Z.land b1 0x3F) 12))
                                        (Z.shiftl (Z.land b2 0x3F) 6)) (Z.land b3 0x3F))
            | _ => None
            end
          else Some invalid
      end
  end.

(** The body of the loop over the code points, for one unsigned code point:
    the bytes stored through [ptr], or [None] for [return false]. *)
Definition encode (cp : Z) : option (list Z) :=
  if cp <? 0x80 then Some [u8 cp]
  else if cp <? 0x800 then
    Some [Z.lor 0xC0 (Z.land (Z.shiftr cp 6) 0x1F);
          Z.lor 0x80 (Z.land (Z.shiftr cp 0) 0x3F)]
  else if cp <? 0x10000 then
    Some [Z.lor 0xE0 (Z.land (Z.shiftr cp 12) 0x0F);
          Z.lor 0x80 (Z.land (Z.shiftr cp 6) 0x3F);
          Z.lor 0x80 (Z.land (Z.shiftr cp 0) 0x3F)]
  else if cp <? 0x110000 then
    Some [Z.lor 0xF0 (Z.land (Z.shiftr cp 18) 0x07);
          Z.lor 0x80 (Z.land (Z.shiftr cp 12) 0x3F);
          Z.lor 0x80 (Z.land (Z.shiftr cp 6) 0x3F);
          Z.lor 0x80 (Z.land (Z.shiftr cp 0) 0x3F)]
  else None.

(** Bytes written to [out] and the value returned.  The terminating NUL is
    written only on success. *)
Fixpoint from_codepoints (codepoints : list Z) : list Z * bool :=
  match codepoints with
  | [] => ([0], true)
  | cp :: cps =>
      match encode cp with
      | None => ([], false)
      | Some bs => let '(out, ok) := from_codepoints cps in (bs ++ out, ok)
      end
  end.

(** A reader that walks a NUL-terminated string as the callers do: decode at
    the pointer, advance by [byte_length], stop at NUL. *)
Fixpoint decode_all (fuel : nat) (bytes : list Z) : option (list Z) :=
  match fuel with
  | O => None
  | S fuel' =>
      match bytes with
      | [] => None
      | b0 :: _ =>
          if b0 =? 0 then Some []
          else
            match to_codepoint bytes with
            | None => None
            | Some cp =>
                match decode_all fuel' (drop (Z.to_nat (byte_length b0)) bytes) with
                | None => None
                | Some cps => Some (cp :: cps)
                end
            end
      end
  end.

(** ** Lead and continuation bytes *)
Definition lead_ok (len tag mask bits : Z) : bool :=
  forallb (fun x =>
    (byte_length (Z.lor tag x) =? len) && (Z.land (Z.lor tag x) bits =? x)
    && (Z.land (Z.lor tag x) mask =? tag) && negb (Z.lor tag x =? 0)) (seqZ 0 (bits + 1)).

Lemma lead_spec len tag mask bits x :
  lead_ok len tag mask bits = true -> 0 <= x < bits + 1 ->
  byte_length (Z.lor tag x) = len /\ Z.land (Z.lor tag x) bits = x /\
  Z.land (Z.lor tag x) mask = tag /\ Z.lor tag x <> 0.
Proof.
  intros H Hx. apply forallb_seqZ with (x := x) in H; [|lia]. zify_bool. tauto.
Qed.

Lemma lead1_spec x : 0 <= x < 0x80 -> byte_length x = 1 /\ Z.land x 0x80 = 0.
Proof.
  intros Hx.
  assert (H : forallb (fun x => (byte_length x =? 1) && (Z.land x 0x80 =? 0)) (seqZ 0 0x80) = true)
    by reflexivity.
  apply forallb_seqZ with (x := x) in H; [|lia]. zify_bool. tauto.
Qed.

Lemma cont_spec y :
  0 <= y < 64 -> Z.land (Z.lor 0x80 y) 0xC0 = 0x80 /\ Z.land (Z.lor 0x80 y) 0x3F = y.
Proof.
  intros Hy.
  assert (H : forallb (fun y => (Z.land (Z.lor 0x80 y) 0xC0 =? 0x80)
                             && (Z.land (Z.lor 0x80 y) 0x3F =? y)) (seqZ 0 64) = true)
    by reflexivity.
  apply forallb_seqZ with (x := y) in H; [|lia]. zify_bool. tauto.
Qed.

Lemma field6 cp n : 0 <= n -> 0 <= Z.land (Z.shiftr cp n) 0x3F < 64.
Proof.
  intros. change 0x3F with (Z.ones 6). rewrite field_extract by lia.
  apply Z.mod_pos_bound. lia.
Qed.

(** Splitting a number into 6-bit groups and putting it back together. *)
Lemma join6 a b : 0 <= b < 64 -> Z.lor (Z.shiftl a 6) b = a * 64 + b.
Proof. intros. by rewrite lor_shiftl_add by lia. Qed.

Lemma join12 a b c :
  0 <= b < 64 -> 0 <= c < 64 ->
  Z.lor (Z.lor (Z.shiftl a 12) (Z.shiftl b 6)) c = (a * 64 + b) * 64 + c.
Proof.
  intros. rewrite <- (join6 (a * 64 + b)) by lia. f_equal.
  rewrite <- (join6 a b) by lia. rewrite Z.shiftl_lor, Z.shiftl_shiftl by lia. done.
Qed.

Lemma join18 a b c d :
  0 <= b < 64 -> 0 <= c < 64 -> 0 <= d < 64 ->
  Z.lor (Z.lor (Z.lor (Z.shiftl a 18) (Z.shiftl b 12)) (Z.shiftl c 6)) d
  = ((a * 64 + b) * 64 + c) * 64 + d.
Proof.
  intros. rewrite <- (join6 ((a * 64 + b) * 64 + c)) by lia. f_equal.
  rewrite <- (join12 a b c) by lia. rewrite !Z.shiftl_lor, !Z.shiftl_shiftl by lia. done.
Qed.

Lemma field_small cp n bits :
  0 <= n -> 0 <= bits -> 0 <= cp < 2 ^ (n + bits) ->
  Z.land (Z.shiftr cp n) (Z.ones bits) = cp / 2 ^ n.
Proof.
  intros Hn Hb Hcp. rewrite field_extract by lia. apply Z.mod_small.
  rewrite Z.pow_add_r in Hcp by lia. split; [apply Z.div_pos; lia|].
  apply Z.div_lt_upper_bound; lia.
Qed.

Lemma land_cont_field cp n : 0 <= n -> Z.land (Z.shiftr cp n) 0x3F = (cp / 2 ^ n) `mod` 64.
Proof. intros. change 0x3F with (Z.ones 6). by rewrite field_extract by lia. Qed.

(** ** One code point *)
Lemma check_cons y rest n :
  0 < n -> 0 <= y < 64 ->
  check_continuation (Z.lor 0x80 y :: rest) n = check_continuation rest (n - 1).
Proof.
  intros Hn Hy. cbn [check_continuation]. destruct (cont_spec y Hy) as [-> _].
  by rewrite (proj2 (Z.leb_gt _ _)) by lia.
Qed.

Lemma check_zero rest n : n <= 0 -> check_continuation rest n = Some true.
Proof. intros. destruct rest; cbn; by rewrite (proj2 (Z.leb_le _ _)) by lia. Qed.

Lemma to_codepoint_1 x rest :
  0 <= x < 0x80 -> to_codepoint (x :: rest) = Some x.
Proof.
  intros Hx. unfold to_codepoint. destruct (lead1_spec x Hx) as [-> ->].
  by rewrite check_zero by lia.
Qed.

Lemma to_codepoint_2 x y rest :
  0 <= x < 0x20 -> 0 <= y < 64 ->
  to_codepoint (Z.lor 0xC0 x :: Z.lor 0x80 y :: rest) = Some (x * 64 + y).
Proof.
  intros Hx Hy. unfold to_codepoint.
  destruct (lead_spec 2 0xC0 0xE0 0x1F x eq_refl) as (-> & Hbits & Hmask & _); [lia|].
  rewrite check_cons, check_zero by lia. cbv beta iota. cbn [Z.eqb Pos.eqb].
  rewrite Hmask, Hbits. destruct (cont_spec y Hy) as [_ ->]. cbn [Z.eqb Pos.eqb negb].
  by rewrite join6.
Qed.

Lemma to_codepoint_3 x y z rest :
  0 <= x < 0x10 -> 0 <= y < 64 -> 0 <= z < 64 ->
  to_codepoint (Z.lor 0xE0 x :: Z.lor 0x80 y :: Z.lor 0x80 z :: rest)
  = Some ((x * 64 + y) * 64 + z).
Proof.
  intros Hx Hy Hz. unfold to_codepoint.
  destruct (lead_spec 3 0xE0 0xF0 0x0F x eq_refl) as (-> & Hbits & Hmask & _); [lia|].
  rewrite !check_cons, check_zero by lia. cbv beta iota. cbn [Z.eqb Pos.eqb].
  rewrite Hmask, Hbits. destruct (cont_spec y Hy) as [_ ->], (cont_spec z Hz) as [_ ->].
  cbn [Z.eqb Pos.eqb negb]. by rewrite join12.
Qed.

Lemma to_codepoint_4 x y z t rest :
  0 <= x < 0x08 -> 0 <= y < 64 -> 0 <= z < 64 -> 0 <= t < 64 ->
  to_codepoint (Z.lor 0xF0 x :: Z.lor 0x80 y :: Z.lor 0x80 z :: Z.lor 0x80 t :: rest)
  = Some (((x * 64 + y) * 64 + z) * 64 + t).
Proof.
  intros Hx Hy Hz Ht. unfold to_codepoint.
  destruct (lead_spec 4 0xF0 0xF8 0x07 x eq_refl) as (-> & Hbits & Hmask & _); [lia|].
  rewrite !check_cons, check_zero by lia. cbv beta iota. cbn [Z.eqb Pos.eqb].
  rewrite Hmask, Hbits.
  destruct (cont_spec y Hy) as [_ ->], (cont_spec z Hz) as [_ ->], (cont_spec t Ht) as [_ ->].
  cbn [Z.eqb Pos.eqb negb]. by rewrite join18.
Qed.

(** What [encode] stores for a valid code point decodes back to it, and its
    first byte announces exactly the bytes stored. *)
Lemma encode_decode cp rest :
  0 <= cp < 0x110000 ->
  exists b0 bs, encode cp = Some (b0 :: bs) /\
    byte_length b0 = Z.of_nat (length (b0 :: bs)) /\
    (b0 = 0 <-> cp = 0) /\
    to_codepoint ((b0 :: bs) ++ rest) = Some cp.
Proof.
  intros Hcp. unfold encode. rewrite Z.shiftr_0_r.
  pose proof (field6 cp 0) as F0. rewrite Z.shiftr_0_r in F0.
  pose proof (field6 cp 6) as F6. pose proof (field6 cp 12) as F12.
  repeat case_if; zify_bool.
  - eexists _, []. split; [done|]. rewrite wrap_id by lia.
    destruct (lead1_spec cp) as [-> _]; [lia|].
    split_and!; [done|lia|]. cbn [app]. by rewrite to_codepoint_1 by lia.
  - eexists _, [_]. split; [done|].
    change 0x1F with (Z.ones 5). rewrite (field_small cp 6 5) by (cbn; lia).
    assert (0 <= cp / 2 ^ 6 < 32) by (split; [apply Z.div_pos|apply Z.div_lt_upper_bound]; lia).
    destruct (lead_spec 2 0xC0 0xE0 0x1F (cp / 2 ^ 6) eq_refl) as (-> & _ & _ & ?); [lia|].
    split_and!; [done|split; [tauto|lia]|]. cbn [app]. rewrite to_codepoint_2 by lia.
    f_equal. rewrite <- (Z.shiftr_0_r cp) at 2. rewrite land_cont_field by lia.
    rewrite Z.div_1_r. change (2 ^ 6) with 64. pose proof (Z.div_mod cp 64). lia.
  - eexists _, [_; _]. split; [done|].
    change 0x0F with (Z.ones 4). rewrite (field_small cp 12 4) by (cbn; lia).
    assert (0 <= cp / 2 ^ 12 < 16) by (split; [apply Z.div_pos|apply Z.div_lt_upper_bound]; lia).
    destruct (lead_spec 3 0xE0 0xF0 0x0F (cp / 2 ^ 12) eq_refl) as (-> & _ & _ & ?); [lia|].
    split_and!; [done|split; [tauto|lia]|]. cbn [app]. rewrite to_codepoint_3 by lia.
    f_equal. rewrite <- (Z.shiftr_0_r cp) at 3. rewrite !land_cont_field by lia.
    rewrite Z.div_1_r. change (2 ^ 12) with (64 * 64). change (2 ^ 6) with 64.
    rewrite <- !Z.div_div by lia.
    pose proof (Z.div_mod cp 64). pose proof (Z.div_mod (cp / 64) 64). lia.
  - eexists _, [_; _; _]. split; [done|].
    change 0x07 with (Z.ones 3). rewrite (field_small cp 18 3) by (cbn; lia).
    assert (0 <= cp / 2 ^ 18 < 8) by (split; [apply Z.div_pos|apply Z.div_lt_upper_bound]; lia).
    destruct (lead_spec 4 0xF0 0xF8 0x07 (cp / 2 ^ 18) eq_refl) as (-> & _ & _ & ?); [lia|].
    split_and!; [done|split; [tauto|lia]|]. cbn [app]. rewrite to_codepoint_4 by lia.
    f_equal. rewrite <- (Z.shiftr_0_r cp) at 4. rewrite !land_cont_field by lia.
    rewrite Z.div_1_r. change (2 ^ 18) with (64 * 64 * 64).
    change (2 ^ 12) with (64 * 64). change (2 ^ 6) with 64.
    rewrite <- !Z.div_div by lia.
    pose proof (Z.div_mod cp 64). pose proof (Z.div_mod (cp / 64) 64).
    pose proof (Z.div_mod (cp / 64 / 64) 64). lia.
  - lia.
Qed.

(** ** Whole strings *)

(** every string of valid non-NUL code points that [from_codepoints]
    writes is accepted, NUL-terminated, and read back unchanged by a reader
    that decodes with [to_codepoint] and advances by [byte_length]. *)
Theorem from_codepoints_roundtrip (cps : list Z)
  (Hcps : Forall (fun cp => 0 < cp < 0x110000) cps) :
  exists out, from_codepoints cps = (out, true) /\
    decode_all (S (length cps)) out = Some cps.
Proof.
  induction Hcps as [|cp cps Hcp Hcps (out & Hout & Hdec)]; [by exists [0]|].
  destruct (encode_decode cp out) as (b0 & bs & Henc & Hlen & Hz & Hcpt); [lia|].
  cbn [from_codepoints]. rewrite Henc, Hout. eexists; split; [done|].
  remember (S (length cps)) as fuel. cbn [length]. rewrite <- Heqfuel. cbn [decode_all app].
  rewrite (proj2 (Z.eqb_neq b0 0)) by (rewrite Hz; lia).
  change (b0 :: bs ++ out) with ((b0 :: bs) ++ out). rewrite Hcpt, Hlen.
  rewrite Nat2Z.id, drop_app_length. by rewrite Hdec.
Qed.

Lemma from_codepoints_roundtrip_witness :
  exists out, from_codepoints [0x41; 0xE4; 0x20AC; 0x1F34C] = (out, true) /\
    decode_all 5 out = Some [0x41; 0xE4; 0x20AC; 0x1F34C].
Proof.
  apply (from_codepoints_roundtrip [0x41; 0xE4; 0x20AC; 0x1F34C]).
  repeat constructor; lia.
Defined.

(** [from_codepoints] fails exactly when some code point is above
    0x10FFFF, and then it has written the encodings of the code points before
    the first such one and no terminator. *)
Theorem from_codepoints_rejects (pre post : list Z) (cp : Z)
  (Hpre : Forall (fun c => 0 <= c < 0x110000) pre) (Hcp : 0x110000 <= cp) :
  from_codepoints (pre ++ cp :: post) =
  (concat (omap encode pre), false).
Proof.
  induction Hpre as [|c pre Hc Hpre IH].
  - cbn. unfold encode. repeat (case_if; zify_bool; try lia). done.
  - destruct (encode_decode c []) as (b0 & bs & Henc & _); [lia|].
    cbn [app from_codepoints]. rewrite Henc, IH. cbn. by rewrite Henc.
Qed.

Lemma from_codepoints_rejects_witness :
  from_codepoints ([0x20AC] ++ 0x110000 :: [0x41]) = (concat (omap encode [0x20AC]), false).
Proof. apply from_codepoints_rejects; [repeat constructor|]; lia. Defined.

End UTF8.
