(* ===== verification/BanTime.v ===== *)
(** * BAN/Time: calendar time and Unix time

    Models src/BAN/BAN/Time.cpp.  [year] is a [uint32_t], the other fields are
    [uint8_t], Unix time is a [uint64_t]; every arithmetic operation wraps at
    the width C++ gives it. *)
From S2P Require Import Prelude.

Module Time.

(** ** Definitions *)
Record time : Type := mk_time {
  year : Z; month : Z; day : Z; hour : Z; minute : Z; second : Z; week_day : Z
}.

Definition is_leap_year (year : Z) : bool :=
  if year `mod` 400 =? 0 then true
  else if year `mod` 100 =? 0 then false
  else if year `mod` 4 =? 0 then true
  else false.

(** [for (year = from; ...; year++)] over [n] years. *)
Fixpoint count_leap_years (n : nat) (from leap_years : Z) : Z :=
  match n with
  | O => leap_years
  | S n' =>
      count_leap_years n' (u32 (from + 1))
        (if is_leap_year from then u64 (leap_years + 1) else leap_years)
  end.

Definition leap_days_since_epoch (t : time) : Z :=
  let leap_years := count_leap_years (Z.to_nat (year t - 1970)) 1970 0 in
  if is_leap_year (year t) && (3 <=? month t) then u64 (leap_years + 1) else leap_years.

Definition month_days : list Z := [0; 31; 59; 90; 120; 151; 181; 212; 243; 273; 304; 334].

(** [month_days[i]]; [None] is an out-of-bounds read. *)
Definition month_days_at (i : Z) : option Z :=
  if i <? 0 then None else month_days !! Z.to_nat i.

Definition to_unix_time (t : time) : option Z :=
  md ← month_days_at (month t - 1);
  let years := u32 (year t - 1970) in
  let days := u64 (u64 (u64 (u64 (years * 365) + md) + leap_days_since_epoch t)
                   + u64 (day t - 1)) in
  let hours := u64 (u64 (days * 24) + hour t) in
  let minutes := u64 (u64 (hours * 60) + minute t) in
  let seconds := u64 (u64 (minutes * 60) + second t) in
  Some seconds.

(** Length of a year in days, [365U + is_leap_year(year)]. *)
Definition year_length (y : Z) : Z := 365 + Z.b2z (is_leap_year y).

(** The [while] loop that peels whole years off [total_days]. *)
Fixpoint year_loop (fuel : nat) (total_days year : Z) : Z * Z :=
  match fuel with
  | O => (total_days, year)
  | S fuel' =>
      if total_days <? year_length year then (total_days, year)
      else year_loop fuel' (total_days - year_length year) (u32 (year + 1))
  end.

(** Every iteration consumes at least 365 days. *)
Definition year_fuel (total_days : Z) : nat := S (Z.to_nat (total_days / 365)).

(** The [for] loop over the months, started at [m] with [n] iterations left. *)
Fixpoint month_loop (n : nat) (total_days leap m : Z) : Z :=
  match n with
  | O => m
  | S n' =>
      match month_days_at m with
      | Some md => if total_days <? md + leap then m else month_loop n' total_days leap (m + 1)
      | None => m
      end
  end.

Definition from_unix_time (unix_time : Z) : time :=
  let second := unix_time `mod` 60 in let unix_time := unix_time / 60 in
  let minute := unix_time `mod` 60 in let unix_time := unix_time / 60 in
  let hour := unix_time `mod` 24 in let unix_time := unix_time / 24 in
  let total_days := unix_time in
  let week_day := u64 (total_days + 4) `mod` 7 + 1 in
  let '(total_days, year) := year_loop (year_fuel total_days) total_days 1970 in
  let is_leap_day := is_leap_year year && (total_days =? 59) in
  let had_leap_day := is_leap_year year && (59 <? total_days) in
  let month := month_loop 11 total_days (Z.b2z (is_leap_day || had_leap_day)) 1 in
  let day := u8 (total_days - default 0 (month_days_at (month - 1))
                 + Z.b2z (negb had_leap_day)) in
  mk_time year month day hour minute second week_day.

(** ** The day of the year *)

(** Days from the start of a year (leap or not) to a month and a day of it. *)
Definition day_of_year (leap : bool) (m d : Z) : Z :=
  default 0 (month_days_at (m - 1)) + Z.b2z (leap && (3 <=? m)) + (d - 1).

(** Days in month [m]. *)
Definition month_length (leap : bool) (m : Z) : Z :=
  default 0 ([31; 28; 31; 30; 31; 30; 31; 31; 30; 31; 30; 31] !! Z.to_nat (m - 1))
  + Z.b2z (leap && (m =? 2)).

(** The part of [from_unix_time] below the year. *)
Definition split_day (leap : bool) (d : Z) : Z * Z :=
  let is_leap_day := leap && (d =? 59) in
  let had_leap_day := leap && (59 <? d) in
  let m := month_loop 11 d (Z.b2z (is_leap_day || had_leap_day)) 1 in
  (m, u8 (d - default 0 (month_days_at (m - 1)) + Z.b2z (negb had_leap_day))).

Lemma split_day_spec leap d :
  0 <= d < 365 + Z.b2z leap ->
  let '(m, dd) := split_day leap d in
  1 <= m <= 12 /\ 1 <= dd <= month_length leap m /\ day_of_year leap m dd = d.
Proof.
  intros Hd.
  assert (H : forallb (fun leap => forallb (fun d => let '(m, dd) := split_day leap d in
    (1 <=? m) && (m <=? 12) && (1 <=? dd) && (dd <=? month_length leap m)
    && (day_of_year leap m dd =? d)) (seqZ 0 (365 + Z.b2z leap))) [true; false] = true)
    by (vm_compute; reflexivity).
  rewrite forallb_forall in H.
  assert (Hl : In leap [true; false]) by (destruct leap; cbn; tauto).
  specialize (H leap Hl). apply forallb_seqZ with (x := d) in H; [|lia].
  destruct (split_day leap d). zify_bool. lia.
Qed.

Lemma split_day_of_year leap m dd :
  1 <= m <= 12 -> 1 <= dd <= month_length leap m ->
  0 <= day_of_year leap m dd < 365 + Z.b2z leap /\
  split_day leap (day_of_year leap m dd) = (m, dd).
Proof.
  intros Hm Hd.
  assert (H : forallb (fun leap => forallb (fun m => forallb (fun dd =>
    let d := day_of_year leap m dd in let '(m', d') := split_day leap d in
    (0 <=? d) && (d <? 365 + Z.b2z leap) && (m' =? m) && (d' =? dd))
    (seqZ 1 (month_length leap m))) (seqZ 1 12)) [true; false] = true)
    by (vm_compute; reflexivity).
  rewrite forallb_forall in H.
  assert (Hl : In leap [true; false]) by (destruct leap; cbn; tauto).
  specialize (H leap Hl). apply forallb_seqZ with (x := m) in H; [|lia].
  apply forallb_seqZ with (x := dd) in H; [|lia]. cbv beta zeta in H.
  destruct (split_day leap (day_of_year leap m dd)). zify_bool. split; [lia|f_equal; lia].
Qed.

(** ** Whole years *)

(** Days in the [n] years from [y] on. *)
Fixpoint years_span (y : Z) (n : nat) : Z :=
  match n with O => 0 | S n' => year_length y + years_span (y + 1) n' end.

Lemma year_length_bounds y : 365 <= year_length y <= 366.
Proof. unfold year_length. destruct (is_leap_year y); cbn; lia. Qed.

Lemma years_span_bounds n : forall y, 365 * Z.of_nat n <= years_span y n <= 366 * Z.of_nat n.
Proof.
  induction n as [|n IH]; intros y; [cbn; lia|]. cbn [years_span].
  pose proof (year_length_bounds y). specialize (IH (y + 1)). lia.
Qed.

(** The loop of [leap_days_since_epoch] counts the leap days in those years. *)
Lemma count_leap_years_spec n : forall y acc,
  0 <= y -> y + Z.of_nat n < 2 ^ 32 -> 0 <= acc -> acc + Z.of_nat n < 2 ^ 64 ->
  count_leap_years n y acc = acc + years_span y n - 365 * Z.of_nat n.
Proof.
  induction n as [|n IH]; intros y acc Hy Hyn Ha Han; [cbn; lia|].
  cbn [count_leap_years years_span]. rewrite (wrap_id 32) by lia.
  unfold year_length. destruct (is_leap_year y); cbn [Z.b2z];
    rewrite ?(wrap_id 64) by lia; rewrite IH by lia; lia.
Qed.

(** Peeling whole years: the loop stops inside the year it returns, having
    subtracted exactly the years before it. *)
Lemma year_loop_spec fuel : forall total y,
  0 <= total -> 0 <= y -> total / 365 < Z.of_nat fuel -> y + total / 365 < 2 ^ 32 ->
  exists n rem, year_loop fuel total y = (rem, y + Z.of_nat n) /\
    total = years_span y n + rem /\ 0 <= rem < year_length (y + Z.of_nat n) /\
    Z.of_nat n <= total / 365.
Proof.
  induction fuel as [|fuel IH]; intros total y Ht Hy Hf Hb.
  { pose proof (Z.div_pos total 365). lia. }
  cbn [year_loop]. pose proof (year_length_bounds y). case_if; zify_bool.
  - exists 0%nat, total. rewrite Z.add_0_r. pose proof (Z.div_pos total 365).
    split_and!; [done|cbn; lia|lia|lia|cbn; lia].
  - assert (Hdiv : (total - year_length y) / 365 <= total / 365 - 1).
    { replace (total / 365 - 1) with ((total + (-1) * 365) / 365)
        by (rewrite Z.div_add by lia; lia).
      apply Z.div_le_mono; lia. }
    destruct (IH (total - year_length y) (u32 (y + 1))) as (n & rem & Hl & Ht' & Hr & Hn);
      rewrite ?(wrap_id 32) in * by (split; [lia|]; pose proof (Z.div_pos (total - year_length y) 365); lia);
      try lia.
    exists (S n), rem. cbn [years_span].
    replace (y + Z.of_nat (S n)) with (y + 1 + Z.of_nat n) by lia.
    split_and!; [done|lia..].
Qed.

Lemma year_loop_exact n : forall fuel y rem,
  0 <= y -> y + Z.of_nat n < 2 ^ 32 -> 0 <= rem < year_length (y + Z.of_nat n) ->
  (n < fuel)%nat -> year_loop fuel (years_span y n + rem) y = (rem, y + Z.of_nat n).
Proof.
  induction n as [|n IH]; intros fuel y rem Hy Hb Hr Hf; (destruct fuel as [|fuel]; [lia|]);
    cbn [years_span year_loop].
  - rewrite Z.add_0_r in *. by rewrite (proj2 (Z.ltb_lt _ _)) by lia.
  - pose proof (years_span_bounds n (y + 1)).
    rewrite (proj2 (Z.ltb_ge _ _)) by lia. rewrite wrap_id by lia.
    replace (y + Z.of_nat (S n)) with (y + 1 + Z.of_nat n) in * by lia.
    rewrite <- (IH fuel (y + 1) rem) by lia. f_equal. lia.
Qed.

(** ** Round trips *)

(** The year bound keeps [uint32_t year] and the 64-bit second count from
    wrapping. *)
Lemma to_unix_time_spec t :
  1970 <= year t < 2 ^ 31 -> 1 <= month t <= 12 -> 1 <= day t <= 31 ->
  0 <= hour t < 24 -> 0 <= minute t < 60 -> 0 <= second t < 60 ->
  to_unix_time t =
  Some ((((years_span 1970 (Z.to_nat (year t - 1970))
           + day_of_year (is_leap_year (year t)) (month t) (day t)) * 24 + hour t) * 60
         + minute t) * 60 + second t).
Proof.
  intros Hy Hm Hd Hh Hmi Hs. unfold to_unix_time, leap_days_since_epoch.
  set (n := Z.to_nat (year t - 1970)).
  assert (Hn : Z.of_nat n = year t - 1970) by lia.
  pose proof (years_span_bounds n 1970).
  rewrite count_leap_years_spec by lia. unfold day_of_year.
  assert (Hmd : exists md, month_days_at (month t - 1) = Some md /\ 0 <= md <= 334).
  { assert (H' : forallb (fun m => match month_days_at (m - 1) with
        Some md => (0 <=? md) && (md <=? 334) | None => false end) (seqZ 1 12) = true)
      by reflexivity.
    apply forallb_seqZ with (x := month t) in H'; [|lia].
    destruct (month_days_at (month t - 1)); [|done]. zify_bool. eauto. }
  destruct Hmd as (md & Hmd & Hmdb). rewrite Hmd. cbn [mbind option_bind default].
  destruct (is_leap_year (year t) && (3 <=? month t)); cbn [Z.b2z];
    unwrap; f_equal; unfold id; lia.
Qed.

Lemma from_unix_time_spec t :
  0 <= t < 2 ^ 55 ->
  exists n rem, from_unix_time t =
      (let '(m, dd) := split_day (is_leap_year (1970 + Z.of_nat n)) rem in
       mk_time (1970 + Z.of_nat n) m dd ((t / 60 / 60) `mod` 24) ((t / 60) `mod` 60) (t `mod` 60)
         ((t / 60 / 60 / 24 + 4) `mod` 7 + 1)) /\
    t / 60 / 60 / 24 = years_span 1970 n + rem /\
    0 <= rem < year_length (1970 + Z.of_nat n) /\ 1970 + Z.of_nat n < 2 ^ 31.
Proof.
  intros Ht. unfold from_unix_time. set (d := t / 60 / 60 / 24).
  assert (Hd : 0 <= d < 2 ^ 55 / 86400 + 1).
  { unfold d. rewrite !Z.div_div by lia. split; [apply Z.div_pos; lia|].
    apply Z.lt_succ_r, Z.div_le_mono; lia. }
  assert (Hq : 0 <= d / 365 < 2 ^ 31 - 1970).
  { split; [apply Z.div_pos; lia|apply Z.div_lt_upper_bound; [lia|]].
    vm_compute (2 ^ 55 / 86400 + 1) in Hd. lia. }
  destruct (year_loop_spec (year_fuel d) d 1970) as (n & rem & Hl & Hspan & Hr & Hn);
    [lia|lia|unfold year_fuel; lia|lia|].
  exists n, rem. rewrite Hl, (wrap_id 64) by (vm_compute (2 ^ 55 / 86400 + 1) in Hd; lia).
  split_and!; [reflexivity|done|lia|lia|lia].
Qed.

(** C30: converting a Unix time to calendar time and back is the identity, for
    every time up to the year 2^31 (about 1.1 billion years, 2^55 seconds). *)
Theorem unix_time_roundtrip (t : Z) (Ht : 0 <= t < 2 ^ 55) :
  to_unix_time (from_unix_time t) = Some t.
Proof.
  destruct (from_unix_time_spec t Ht) as (n & rem & -> & Hspan & Hr & Hn).
  pose proof (split_day_spec (is_leap_year (1970 + Z.of_nat n)) rem Hr) as Hs.
  destruct (split_day _ rem) as [m dd]. destruct Hs as (Hm & Hdd & Hdoy).
  assert (Hml : month_length (is_leap_year (1970 + Z.of_nat n)) m <= 31).
  { assert (H : forallb (fun l => forallb (fun m => month_length l m <=? 31) (seqZ 1 12))
      [true; false] = true) by reflexivity.
    rewrite forallb_forall in H. apply Z.leb_le.
    apply forallb_seqZ with (f := fun m => month_length _ m <=? 31) (lo := 1) (len := 12);
      [|lia]. apply H. destruct (is_leap_year _); cbn; tauto. }
  pose proof (Z.mod_pos_bound t 60). pose proof (Z.mod_pos_bound (t / 60) 60).
  pose proof (Z.mod_pos_bound (t / 60 / 60) 24).
  rewrite to_unix_time_spec; cbn [year month day hour minute second]; [|lia..].
  replace (Z.to_nat (1970 + Z.of_nat n - 1970)) with n by lia.
  rewrite Hdoy, <- Hspan. f_equal.
  pose proof (Z.div_mod t 60). pose proof (Z.div_mod (t / 60) 60).
  pose proof (Z.div_mod (t / 60 / 60) 24). lia.
Qed.

Lemma unix_time_roundtrip_witness :
  0 <= 1709210096 < 2 ^ 55 /\ from_unix_time 1709210096 = mk_time 2024 2 29 12 34 56 5 /\
  to_unix_time (from_unix_time 1709210096) = Some 1709210096.
Proof.
  split; [lia|]. split; [vm_compute; reflexivity|].
  apply (unix_time_roundtrip 1709210096). lia.
Defined.

(** converting a valid calendar date to Unix time and back gives the same
    date and time of day, leap days included. *)
Theorem calendar_roundtrip (t : time)
  (Hy : 1970 <= year t < 2 ^ 24) (Hm : 1 <= month t <= 12)
  (Hd : 1 <= day t <= month_length (is_leap_year (year t)) (month t))
  (Hh : 0 <= hour t < 24) (Hmi : 0 <= minute t < 60) (Hs : 0 <= second t < 60) :
  exists s wd, to_unix_time t = Some s /\
    from_unix_time s =
      mk_time (year t) (month t) (day t) (hour t) (minute t) (second t) wd.
Proof.
  set (leap := is_leap_year (year t)) in *.
  destruct (split_day_of_year leap (month t) (day t) Hm Hd) as [Hdoy Hsplit].
  assert (Hml : month_length leap (month t) <= 31).
  { assert (H : forallb (fun m => month_length leap m <=? 31) (seqZ 1 12) = true)
      by (destruct leap; reflexivity).
    apply forallb_seqZ with (x := month t) in H; [lia|lia]. }
  rewrite to_unix_time_spec by lia. fold leap.
  set (n := Z.to_nat (year t - 1970)). set (doy := day_of_year leap (month t) (day t)) in *.
  eexists _, _. split; [done|]. unfold from_unix_time.
  set (D := years_span 1970 n + doy). pose proof (years_span_bounds n 1970).
  assert (Hn : Z.of_nat n = year t - 1970) by lia.
  assert (Hmod : forall q r k, 0 <= r < k -> (q * k + r) `mod` k = r /\ (q * k + r) / k = q).
  { intros q r k Hr. rewrite Z.add_comm, Z_mod_plus_full, Z.mod_small by lia.
    split; [done|]. rewrite Z.div_add, Z.div_small by lia. lia. }
  destruct (Hmod ((D * 24 + hour t) * 60 + minute t) (second t) 60 Hs) as [-> ->].
  destruct (Hmod (D * 24 + hour t) (minute t) 60 Hmi) as [-> ->].
  destruct (Hmod D (hour t) 24 Hh) as [-> ->].
  assert (HD : D / 365 >= Z.of_nat n).
  { apply Z.le_ge, Z.div_le_lower_bound; lia. }
  assert (HL : year_loop (year_fuel D) D 1970 = (doy, 1970 + Z.of_nat n)).
  { apply year_loop_exact; [lia|lia| |unfold year_fuel; lia].
    replace (1970 + Z.of_nat n) with (year t) by lia. unfold year_length. fold leap. lia. }
  rewrite HL, Hn. replace (1970 + (year t - 1970)) with (year t) by lia. fold leap.
  pose proof (f_equal fst Hsplit) as Hm'. pose proof (f_equal snd Hsplit) as Hd'.
  cbv [split_day fst snd] in Hm', Hd'. cbv zeta beta iota. by rewrite Hd', Hm'.
Qed.

Lemma calendar_roundtrip_witness :
  exists s wd, to_unix_time (mk_time 2000 2 29 23 59 59 0) = Some s /\
    from_unix_time s = mk_time 2000 2 29 23 59 59 wd.
Proof.
  apply (calendar_roundtrip (mk_time 2000 2 29 23 59 59 0));
    cbn [year month day hour minute second]; try lia.
  vm_compute. split; discriminate.
Defined.

End Time.
