(* ===== verification/BanSort.v ===== *)
(** * BAN/Heap.h and BAN/Sort.h: heaps and sorting in place

    An iterator range [begin, end) over a vector is a pair of indices into a
    list; dereferencing an iterator outside the vector is [None].  [comp] is
    the [Comp] argument.  Indices are [nat]: they are bounded by the length of
    a vector in memory, far below the point where the [size_t] index
    computations [2 * index + 2] could wrap; the one wrap the code relies on,
    [(0 - 1) / 2] in [heapify_up], gives a huge [parent] in C++ and [0] here,
    and both leave the loop at once. *)
From S2P Require Import Prelude BanMath.

#[local] Open Scope nat_scope.

(** What [Comp] must be for the routines to sort. *)
Class StrictWeakOrder {A : Type} (comp : A -> A -> bool) : Prop := {
  swo_irrefl : forall x, comp x x = false;
  swo_trans : forall x y z, comp x y = true -> comp y z = true -> comp x z = true;
  swo_negtrans : forall x y z, comp x y = false -> comp y z = false -> comp x z = false
}.

Module Sort.
Section defs.
Context {A : Type} (comp : A -> A -> bool).
Implicit Types l : list A.

(** ** Definitions *)
Definition swap (l : list A) (i j : nat) : option (list A) :=
  x ← l !! i; y ← l !! j; Some (<[j := x]> (<[i := y]> l)).

Fixpoint heapify_up (fuel : nat) (b index : nat) (l : list A) : option (list A) :=
  match fuel with
  | O => None
  | S fuel' =>
      let parent := (index - 1) / 2 in
      if parent <? index then
        x ← l !! (b + index); p ← l !! (b + parent);
        if comp x p then Some l
        else l' ← swap l (b + parent) (b + index); heapify_up fuel' b parent l'
      else Some l
  end.

(** [lchild < len && !comp( *(begin + lchild), *(begin + index))] *)
Definition child_wins (l : list A) (b len child index : nat) : option bool :=
  if child <? len then
    x ← l !! (b + child); y ← l !! (b + index); Some (negb (comp x y))
  else Some false.

Fixpoint heapify_down (fuel : nat) (b index len : nat) (l : list A) : option (list A) :=
  match fuel with
  | O => None
  | S fuel' =>
      let lchild := 2 * index + 1 in
      let rchild := 2 * index + 2 in
      left_wins ← child_wins l b len lchild index;
      if (left_wins : bool) then
        right_wins ← child_wins l b len rchild lchild;
        let child := if (right_wins : bool) then rchild else lchild in
        l' ← swap l (b + child) (b + index); heapify_down fuel' b child len l'
      else
        right_wins ← child_wins l b len rchild index;
        if (right_wins : bool) then
          l' ← swap l (b + rchild) (b + index); heapify_down fuel' b rchild len l'
        else Some l
  end.

(** [while (index < len) heapify_down(begin, index--, len)], from
    [index = n - 1]: the loop ends when [index] wraps below zero. *)
Fixpoint make_heap_loop (n : nat) (b len : nat) (l : list A) : option (list A) :=
  match n with
  | O => Some l
  | S index => l' ← heapify_down (S len) b index len l; make_heap_loop index b len l'
  end.

Definition make_heap (b e : nat) (l : list A) : option (list A) :=
  let len := e - b in
  if len <=? 1 then Some l else make_heap_loop (S ((len - 2) / 2)) b len l.

Definition push_heap (b e : nat) (l : list A) : option (list A) :=
  let len := e - b in heapify_up (S len) b (len - 1) l.

Definition pop_heap (b e : nat) (l : list A) : option (list A) :=
  let len := e - b in
  l' ← swap l b (b + len - 1); heapify_down (S len) b 0 (len - 1) l'.

(** [while (begin != end) pop_heap(begin, end--)], [n] elements left. *)
Fixpoint sort_heap_loop (n : nat) (b : nat) (l : list A) : option (list A) :=
  match n with
  | O => Some l
  | S n' => l' ← pop_heap b (b + n) l; sort_heap_loop n' b l'
  end.

Definition sort_heap (b e : nat) (l : list A) : option (list A) := sort_heap_loop (e - b) b l.

Definition heap_sort (b e : nat) (l : list A) : option (list A) :=
  l' ← make_heap b e l; sort_heap b e l'.

(** The three-way partition: (lt, gt, array). *)
Fixpoint partition_loop (fuel : nat) (pivot lt eq gt : nat) (l : list A) : option (nat * nat * list A) :=
  match fuel with
  | O => if eq =? gt then Some (lt, gt, l) else None
  | S fuel' =>
      if eq =? gt then Some (lt, gt, l)
      else
        x ← l !! eq; pv ← l !! pivot;
        if comp x pv then
          l' ← swap l eq lt;
          partition_loop fuel' (if pivot =? lt then eq else pivot) (S lt) (S eq) gt l'
        else if comp pv x then
          let gt := gt - 1 in
          l' ← swap l eq gt;
          partition_loop fuel' (if pivot =? gt then eq else pivot) lt eq gt l'
        else partition_loop fuel' pivot lt (S eq) gt l
  end.

Definition partition (b e : nat) (l : list A) : option (nat * nat * list A) :=
  let pivot := b + (e - b) / 2 in
  partition_loop (e - b) pivot b b e l.

(** The inner loop of [insertion_sort], [it2 = b + k], and the final store. *)
Fixpoint shift_right (k b : nat) (x : A) (l : list A) : option (list A) :=
  match k with
  | O => Some (<[b := x]> l)
  | S k' =>
      y ← l !! (b + k');
      if comp x y then shift_right k' b x (<[b + k := y]> l)
      else Some (<[b + k := x]> l)
  end.

Fixpoint insertion_loop (n it1 b : nat) (l : list A) : option (list A) :=
  match n with
  | O => Some l
  | S n' => x ← l !! it1; l' ← shift_right (it1 - b) b x l; insertion_loop n' (S it1) b l'
  end.

Definition insertion_sort (b e : nat) (l : list A) : option (list A) :=
  if e - b <=? 1 then Some l else insertion_loop (e - b - 1) (b + 1) b l.

(** The [for] loop of [intro_sort_impl], [n] iterations left; [rec] is the
    recursive call with [max_depth - 1]. *)
Fixpoint intro_sort_loop (rec : nat -> nat -> list A -> option (list A))
    (n b e : nat) (l : list A) : option (list A) :=
  match n with
  | O => heap_sort b e l
  | S n' =>
      let len := e - b in
      if len <=? 1 then Some l
      else if len <=? 16 then insertion_sort b e l
      else
        '(lt, gt, l) ← partition b e l;
        if lt - b <? e - gt then
          l ← rec b lt l; intro_sort_loop rec n' gt e l
        else
          l ← rec gt e l; intro_sort_loop rec n' b lt l
  end.

Fixpoint intro_sort_impl (max_depth : nat) (b e : nat) (l : list A) : option (list A) :=
  match max_depth with
  | O => heap_sort b e l
  | S d => intro_sort_loop (intro_sort_impl d) max_depth b e l
  end.

Definition intro_sort (b e : nat) (l : list A) : option (list A) :=
  let len := e - b in
  if len <=? 1 then Some l
  else intro_sort_impl (2 * Z.to_nat (Math.ilog2 64 (Z.of_nat len))) b e l.

(** [BAN::sort::sort]. *)
Definition sort (b e : nat) (l : list A) : option (list A) := intro_sort b e l.

(** [exchange_sort]: the inner loop over [rhs] and the outer over [lhs]. *)
Fixpoint exchange_inner (n lhs rhs : nat) (l : list A) : option (list A) :=
  match n with
  | O => Some l
  | S n' =>
      x ← l !! lhs; y ← l !! rhs;
      if negb (comp x y) then l' ← swap l lhs rhs; exchange_inner n' lhs (S rhs) l'
      else exchange_inner n' lhs (S rhs) l
  end.

Fixpoint exchange_outer (n lhs : nat) (l : list A) : option (list A) :=
  match n with
  | O => Some l
  | S n' => l' ← exchange_inner n' lhs (S lhs) l; exchange_outer n' (S lhs) l'
  end.

Definition exchange_sort (b e : nat) (l : list A) : option (list A) := exchange_outer (e - b) b l.
End defs.

(** [quick_sort] passes [comp] to [partition] but calls itself without it, so
    its recursive calls compare with the default [less]. *)
Fixpoint quick_sort {A : Type} (less comp : A -> A -> bool) (fuel : nat) (b e : nat) (l : list A) : option (list A) :=
  match fuel with
  | O => None
  | S fuel' =>
      if 1 <? e - b then
        '(lt, gt, l) ← partition comp b e l;
        if lt - b <? e - gt then
          l ← quick_sort less less fuel' b lt l; quick_sort less comp fuel' gt e l
        else
          l ← quick_sort less less fuel' gt e l; quick_sort less comp fuel' b lt l
      else Some l
  end.

(** ** Segments of the array *)
Section segments.
Context {A : Type}.
Implicit Types (l : list A) (P : A -> Prop).

(** [l'] differs from [l] by a rearrangement of [b, e). *)
Definition upd (b e : nat) (l l' : list A) : Prop :=
  l ≡ₚ l' /\ forall i, i < b \/ e <= i -> l' !! i = l !! i.

Definition seg_all (P : A -> Prop) (b e : nat) (l : list A) : Prop :=
  forall i x, b <= i < e -> l !! i = Some x -> P x.

Lemma upd_refl b e l : upd b e l l.
Proof. done. Qed.

Lemma upd_trans b e l1 l2 l3 : upd b e l1 l2 -> upd b e l2 l3 -> upd b e l1 l3.
Proof.
  intros [P1 O1] [P2 O2]. split; [by trans l2|]. intros i Hi. by rewrite O2, O1.
Qed.

Lemma upd_weaken b e b' e' l l' : b' <= b -> e <= e' -> upd b e l l' -> upd b' e' l l'.
Proof. intros ?? [HP HO]. split; [done|]. intros i Hi. apply HO. lia. Qed.

Lemma upd_length b e l l' : upd b e l l' -> length l' = length l.
Proof. intros [HP _]. symmetry. by apply Permutation_length. Qed.

Lemma seg_decompose b e l :
  b <= e -> l = take b l ++ take (e - b) (drop b l) ++ drop e l.
Proof.
  intros H. rewrite <- (take_drop b l) at 1. f_equal.
  rewrite <- (take_drop (e - b) (drop b l)) at 1. f_equal. rewrite drop_drop. f_equal. lia.
Qed.

Lemma upd_seg b e l l' :
  b <= e <= length l -> upd b e l l' -> take (e - b) (drop b l) ≡ₚ take (e - b) (drop b l').
Proof.
  intros Hb [HP HO]. pose proof (Permutation_length HP) as Hlen.
  assert (Ht : take b l' = take b l).
  { apply list_eq. intros i. destruct (decide (i < b)).
    - rewrite !lookup_take_lt by done. apply HO. lia.
    - rewrite !lookup_take_ge by lia. done. }
  assert (Hd : drop e l' = drop e l).
  { apply list_eq. intros i. rewrite !lookup_drop. apply HO. lia. }
  rewrite (seg_decompose b e l), (seg_decompose b e l') in HP by lia.
  rewrite Ht, Hd in HP. apply Permutation_app_inv_l, Permutation_app_inv_r in HP. done.
Qed.

Lemma upd_seg_all P b e l l' :
  e <= length l -> upd b e l l' -> seg_all P b e l -> seg_all P b e l'.
Proof.
  intros He Hu Hall i x Hi Hx. pose proof (upd_seg b e l l' ltac:(lia) Hu) as HP.
  assert (Hin : x ∈ take (e - b) (drop b l')).
  { apply list_elem_of_lookup. exists (i - b).
    rewrite lookup_take_lt, lookup_drop by lia. rewrite <- Hx. f_equal. lia. }
  rewrite <- HP in Hin. apply list_elem_of_lookup in Hin as [j Hj].
  apply lookup_take_Some in Hj as [Hj Hlt]. rewrite lookup_drop in Hj.
  apply (Hall (b + j) x); [lia|done].
Qed.

(** A predicate on a larger or disjoint range survives too. *)
Lemma upd_seg_all_outside P b e b' e' l l' :
  upd b e l l' -> e' <= b \/ e <= b' -> seg_all P b' e' l -> seg_all P b' e' l'.
Proof.
  intros [_ HO] Hd Hall i x Hi Hx. apply (Hall i x Hi). rewrite <- HO by lia. done.
Qed.

Lemma swap_spec l i j x y :
  l !! i = Some x -> l !! j = Some y ->
  exists l', swap l i j = Some l' /\ l ≡ₚ l' /\ length l' = length l /\
    l' !! i = Some y /\ l' !! j = Some x /\
    (forall k, k <> i -> k <> j -> l' !! k = l !! k).
Proof.
  intros Hi Hj. unfold swap. rewrite Hi, Hj. cbn [mbind option_bind].
  pose proof (lookup_lt_Some _ _ _ Hi). pose proof (lookup_lt_Some _ _ _ Hj).
  eexists. split_and!; [done|symmetry; by apply Permutation_insert_swap|by rewrite !length_insert| | |].
  - destruct (decide (i = j)) as [->|].
    + rewrite list_lookup_insert_eq by (by rewrite length_insert). congruence.
    + rewrite list_lookup_insert_ne, list_lookup_insert_eq by done. done.
  - by rewrite list_lookup_insert_eq by (by rewrite length_insert).
  - intros k ??. by rewrite !list_lookup_insert_ne.
Qed.

Lemma swap_upd l i j l' b e :
  swap l i j = Some l' -> b <= i < e -> b <= j < e -> upd b e l l'.
Proof.
  intros Hs Hi Hj. unfold swap in Hs.
  destruct (l !! i) as [x|] eqn:Ex; [|done]. destruct (l !! j) as [y|] eqn:Ey; [|done].
  cbn in Hs. simplify_eq. split; [symmetry; by apply Permutation_insert_swap|].
  intros k Hk. rewrite !list_lookup_insert_ne by lia. done.
Qed.

Lemma lookup_exists l i : i < length l -> exists x, l !! i = Some x.
Proof. apply lookup_lt_is_Some_2. Qed.
End segments.

(** ** Sortedness *)
Section sorted.
Context {A : Type} (comp : A -> A -> bool) {Hswo : StrictWeakOrder comp}.
Implicit Types l : list A.

Lemma swo_asym x y : comp x y = true -> comp y x = false.
Proof.
  intros H. apply not_true_iff_false. intros H'.
  pose proof (swo_trans _ _ _ H H') as Hxx. by rewrite swo_irrefl in Hxx.
Qed.

(** No element of [b, e) is less than an earlier one. *)
Definition sorted_range (b e : nat) (l : list A) : Prop :=
  forall i j x y, b <= i < j -> j < e -> l !! i = Some x -> l !! j = Some y -> comp y x = false.

Lemma sorted_short b e l : e - b <= 1 -> sorted_range b e l.
Proof. intros H i j x y Hi Hj. lia. Qed.

(** Gluing two sorted pieces around a block equivalent to the pivot. *)
Lemma sorted_glue pv b lt gt e l :
  b <= lt -> lt <= gt -> gt <= e ->
  seg_all (fun x => comp x pv = true) b lt l ->
  seg_all (fun x => comp x pv = false /\ comp pv x = false) lt gt l ->
  seg_all (fun x => comp pv x = true) gt e l ->
  sorted_range b lt l -> sorted_range gt e l -> sorted_range b e l.
Proof.
  intros H1 H2 H3 Hlt Heq Hgt Sl Sg i j x y Hi Hj Hx Hy.
  assert (Hle : forall k z, b <= k < gt -> l !! k = Some z -> comp pv z = false).
  { intros k z Hk Hz. destruct (decide (k < lt)).
    - apply swo_asym, (Hlt k z); [lia|done].
    - apply (Heq k z); [lia|done]. }
  assert (Hge : forall k z, lt <= k < e -> l !! k = Some z -> comp z pv = false).
  { intros k z Hk Hz. destruct (decide (k < gt)).
    - apply (Heq k z); [lia|done].
    - apply swo_asym, (Hgt k z); [lia|done]. }
  destruct (decide (j < lt)); [by apply (Sl i j)|].
  destruct (decide (gt <= i)); [by apply (Sg i j); [lia|..]|].
  apply swo_negtrans with pv; [apply (Hge j); [lia|done]|apply (Hle i); [lia|done]].
Qed.

(** ** Partition *)
Lemma partition_loop_spec fuel : forall pivot lt eq gt l pv,
  lt <= eq -> eq <= gt -> gt - eq <= fuel -> gt <= length l ->
  lt <= pivot < gt -> l !! pivot = Some pv ->
  exists lt' gt' l', partition_loop comp fuel pivot lt eq gt l = Some (lt', gt', l') /\
    lt <= lt' < gt' /\ gt' <= gt /\ upd lt gt l l' /\
    (seg_all (fun x => comp x pv = false /\ comp pv x = false) lt eq l ->
     seg_all (fun x => comp x pv = true) lt lt' l' /\
     seg_all (fun x => comp x pv = false /\ comp pv x = false) lt' gt' l' /\
     seg_all (fun x => comp pv x = true) gt' gt l').
Proof.
  induction fuel as [|fuel IH]; intros pivot lt eq gt l pv H1 H2 H3 H4 Hp Hpv; cbn [partition_loop].
  { rewrite (proj2 (Nat.eqb_eq _ _)) by lia. assert (eq = gt) as -> by lia.
    exists lt, gt, l. split_and!; [done|lia..|apply upd_refl|].
    intros Heq. split_and!; [intros ???; lia|done|intros ???; lia]. }
  case_if; zify_bool.
  { subst. exists lt, gt, l. split_and!; [done|lia..|apply upd_refl|].
    intros Heq. split_and!; [intros ???; lia|done|intros ???; lia]. }
  destruct (lookup_exists l eq ltac:(lia)) as [x Hx].
  rewrite Hx, Hpv. cbn [mbind option_bind]. case_if.
  - (* less than the pivot: move it in front *)
    destruct (lookup_exists l lt ltac:(lia)) as [z Hz].
    destruct (swap_spec l eq lt x z Hx Hz) as (l1 & Hs & HP & Hl1 & He1 & Ht1 & Ho1).
    rewrite Hs. cbn [mbind option_bind].
    assert (pivot <> eq) by (intros ->; rewrite Hx in Hpv; simplify_eq; by rewrite swo_irrefl in E0).
    destruct (IH (if pivot =? lt then eq else pivot) (S lt) (S eq) gt l1 pv)
      as (lt' & gt' & l2 & -> & Hlt & Hgt & Hu & Hspec); [lia..| | |].
    { case_if; zify_bool; lia. }
    { case_if; zify_bool; [subst; congruence|by rewrite Ho1]. }
    assert (Hu1 : upd lt gt l l1) by (apply (swap_upd _ _ _ _ _ _ Hs); lia).
    exists lt', gt', l2. split_and!; [done|lia..| |].
    { apply upd_trans with l1; [done|]. apply (upd_weaken (S lt) gt); [lia|lia|done]. }
    intros Heq. destruct Hspec as (A1 & A2 & A3).
    { intros i y Hi Hy. destruct (decide (i = eq)) as [->|].
      - rewrite He1 in Hy. simplify_eq. apply (Heq lt y); [lia|done].
      - rewrite Ho1 in Hy by lia. apply (Heq i y); [lia|done]. }
    split_and!; [|done..]. intros i y Hi Hy. destruct (decide (i = lt)) as [->|].
    + destruct Hu as [_ HO]. rewrite HO, Ht1 in Hy by lia. by simplify_eq.
    + apply (A1 i y); [lia|done].
  - case_if.
    + (* greater than the pivot: move it to the back *)
      destruct (lookup_exists l (gt - 1) ltac:(lia)) as [z Hz].
      destruct (swap_spec l eq (gt - 1) x z Hx Hz) as (l1 & Hs & HP & Hl1 & He1 & Ht1 & Ho1).
      rewrite Hs. cbn [mbind option_bind].
      assert (pivot <> eq) by (intros ->; rewrite Hx in Hpv; simplify_eq; by rewrite swo_irrefl in E1).
      destruct (IH (if pivot =? gt - 1 then eq else pivot) lt eq (gt - 1) l1 pv)
        as (lt' & gt' & l2 & -> & Hlt & Hgt & Hu & Hspec); [lia..| | |].
      { case_if; zify_bool; lia. }
      { case_if; zify_bool; [subst; congruence|by rewrite Ho1]. }
      assert (Hu1 : upd lt gt l l1) by (apply (swap_upd _ _ _ _ _ _ Hs); lia).
      exists lt', gt', l2. split_and!; [done|lia..| |].
      { apply upd_trans with l1; [done|]. apply (upd_weaken lt (gt - 1)); [lia|lia|done]. }
      intros Heq. destruct Hspec as (A1 & A2 & A3).
      { intros i y Hi Hy. rewrite Ho1 in Hy by lia. apply (Heq i y); [lia|done]. }
      split_and!; [done..|]. intros i y Hi Hy. destruct (decide (i = gt - 1)) as [->|].
      * destruct Hu as [_ HO]. rewrite HO, Ht1 in Hy by lia. by simplify_eq.
      * apply (A3 i y); [lia|done].
    + (* equivalent to the pivot *)
      destruct (IH pivot lt (S eq) gt l pv) as (lt' & gt' & l2 & -> & Hlt & Hgt & Hu & Hspec);
        [lia..|done|].
      exists lt', gt', l2. split_and!; [done|lia..|done|]. intros Heq. apply Hspec.
      intros i y Hi Hy. destruct (decide (i = eq)) as [->|]; [by simplify_eq|].
      apply (Heq i y); [lia|done].
Qed.

(** Everything the callers need from a partition step. *)
Lemma partition_spec b e l :
  1 < e - b -> e <= length l ->
  exists lt gt l' pv, partition comp b e l = Some (lt, gt, l') /\
    b <= lt < gt /\ gt <= e /\ upd b e l l' /\
    seg_all (fun x => comp x pv = true) b lt l' /\
    seg_all (fun x => comp x pv = false /\ comp pv x = false) lt gt l' /\
    seg_all (fun x => comp pv x = true) gt e l'.
Proof.
  intros Hlen He. unfold partition.
  assert (Hd : (e - b) / 2 < e - b) by (apply Nat.div_lt; lia).
  destruct (lookup_exists l (b + (e - b) / 2) ltac:(lia)) as [pv Hpv].
  destruct (partition_loop_spec (e - b) (b + (e - b) / 2) b b e l pv)
    as (lt & gt & l' & -> & Hlt & Hgt & Hu & Hspec); [lia..|done|].
  exists lt, gt, l', pv. destruct Hspec as (?&?&?); [intros ???; lia|].
  split_and!; [done|lia..|done|done|done|done].
Qed.

(** ** Insertion sort *)

(** The array with a hole at [b + k]: sorted around the hole, and [x] is
    less than everything between the hole and [top]. *)
Definition around_hole (k b top : nat) (x : A) (l : list A) : Prop :=
  (forall i j y z, b <= i < j -> j < top -> i <> b + k -> j <> b + k ->
     l !! i = Some y -> l !! j = Some z -> comp z y = false) /\
  (forall i y, b + k < i < top -> l !! i = Some y -> comp x y = true).

Lemma shift_right_spec k : forall b top x l,
  b + k < top -> top <= length l -> around_hole k b top x l ->
  exists l', shift_right comp k b x l = Some l' /\
    upd b top (<[b + k := x]> l) l' /\ sorted_range b top l'.
Proof.
  induction k as [|k IH]; intros b top x l Hk Hl [H1 H2]; cbn [shift_right].
  { rewrite Nat.add_0_r in *. eexists. split_and!; [done|apply upd_refl|].
    intros i j y z Hi Hj Hy Hz. rewrite list_lookup_insert_ne in Hz by lia.
    destruct (decide (i = b)) as [->|].
    - rewrite list_lookup_insert_eq in Hy by lia. simplify_eq.
      apply swo_asym, (H2 j z); [lia|done].
    - rewrite list_lookup_insert_ne in Hy by lia. apply (H1 i j); [lia..|done|done]. }
  destruct (lookup_exists l (b + k) ltac:(lia)) as [y Hy]. rewrite Hy. cbn [mbind option_bind].
  case_if.
  - destruct (IH b top x (<[b + S k := y]> l)) as (l' & -> & Hu & Hs);
      [lia|by rewrite length_insert| |].
    { split.
      - intros i j u v Hi Hj Hni Hnj Hu Hv. destruct (decide (i = b + S k)) as [->|].
        + rewrite list_lookup_insert_eq in Hu by lia. simplify_eq.
          rewrite list_lookup_insert_ne in Hv by lia.
          apply (H1 (b + k) j); [lia..|done|done].
        + rewrite list_lookup_insert_ne in Hu by lia. destruct (decide (j = b + S k)) as [->|].
          * rewrite list_lookup_insert_eq in Hv by lia. simplify_eq.
            apply (H1 i (b + k)); [lia..|done|done].
          * rewrite list_lookup_insert_ne in Hv by lia. apply (H1 i j); [lia..|done|done].
      - intros i u Hi Hu. destruct (decide (i = b + S k)) as [->|].
        + rewrite list_lookup_insert_eq in Hu by lia. by simplify_eq.
        + rewrite list_lookup_insert_ne in Hu by lia. apply (H2 i u); [lia|done]. }
    exists l'. split_and!; [done| |done]. apply upd_trans with (2 := Hu).
    assert (Hsw : swap (<[b + S k := x]> l) (b + S k) (b + k) = Some (<[b + k := x]> (<[b + S k := y]> l))).
    { unfold swap. rewrite list_lookup_insert_eq, list_lookup_insert_ne, Hy by lia.
      cbn [mbind option_bind]. by rewrite list_insert_insert_eq. }
    apply (swap_upd _ _ _ _ _ _ Hsw); lia.
  - eexists. split_and!; [done|apply upd_refl|].
    intros i j u v Hi Hj Hu Hv. destruct (decide (j = b + S k)) as [->|].
    + rewrite list_lookup_insert_eq in Hv by lia. rewrite list_lookup_insert_ne in Hu by lia.
      simplify_eq. destruct (decide (i = b + k)) as [->|]; [by simplify_eq|].
      apply swo_negtrans with y; [done|]. apply (H1 i (b + k)); [lia..|done|done].
    + rewrite list_lookup_insert_ne in Hv by lia. destruct (decide (i = b + S k)) as [->|].
      * rewrite list_lookup_insert_eq in Hu by lia. simplify_eq.
        apply swo_asym, (H2 j v); [lia|done].
      * rewrite list_lookup_insert_ne in Hu by lia. apply (H1 i j); [lia..|done|done].
Qed.

Lemma insertion_loop_spec n : forall b it1 l,
  b <= it1 -> it1 + n <= length l -> sorted_range b it1 l ->
  exists l', insertion_loop comp n it1 b l = Some l' /\
    upd b (it1 + n) l l' /\ sorted_range b (it1 + n) l'.
Proof.
  induction n as [|n IH]; intros b it1 l Hb Hl Hs; cbn [insertion_loop].
  { rewrite Nat.add_0_r. exists l. split_and!; [done|apply upd_refl|done]. }
  destruct (lookup_exists l it1 ltac:(lia)) as [x Hx]. rewrite Hx. cbn [mbind option_bind].
  destruct (shift_right_spec (it1 - b) b (S it1) x l) as (l1 & -> & Hu1 & Hs1); [lia|lia| |].
  { split; [|intros; lia]. intros i j y z Hi Hj Hni Hnj. apply Hs; lia. }
  replace (b + (it1 - b)) with it1 in Hu1 by lia. rewrite list_insert_id in Hu1 by done.
  pose proof (upd_length _ _ _ _ Hu1) as Hl1. cbn [mbind option_bind].
  destruct (IH b (S it1) l1) as (l2 & -> & Hu2 & Hs2); [lia|lia|done|].
  replace (S it1 + n) with (it1 + S n) in * by lia.
  exists l2. split_and!; [done| |done]. apply upd_trans with l1; [|done].
  apply (upd_weaken b (S it1)); [lia|lia|done].
Qed.

(** A sorting routine: it terminates without leaving the array, rearranges
    only the range, and leaves it sorted. *)
Definition sorts (f : nat -> nat -> list A -> option (list A)) : Prop :=
  forall b e l, b <= e -> e <= length l ->
    exists l', f b e l = Some l' /\ upd b e l l' /\ sorted_range b e l'.

Lemma insertion_sort_sorts : sorts (insertion_sort comp).
Proof.
  intros b e l Hb He. unfold insertion_sort. case_if; zify_bool.
  { exists l. split_and!; [done|apply upd_refl|by apply sorted_short]. }
  destruct (insertion_loop_spec (e - b - 1) b (b + 1) l) as (l' & -> & Hu & Hs); [lia|lia| |].
  { apply sorted_short. lia. }
  replace (b + 1 + (e - b - 1)) with e in * by lia. by exists l'.
Qed.

(** ** Heaps

    [heap_from k]: the heap order holds between every node of [b, b + len)
    and its parent, for the parents at or above index [k]. *)
Definition parent (i : nat) : nat := (i - 1) / 2.

Definition heap_from (k b len : nat) (l : list A) : Prop :=
  forall i x p, 0 < i < len -> k <= parent i ->
    l !! (b + i) = Some x -> l !! (b + parent i) = Some p -> comp p x = false.

(** The order holds except between [idx] and its children, and those are
    in order with the parent of [idx]. *)
Definition heap_except (k idx b len : nat) (l : list A) : Prop :=
  (forall i x p, 0 < i < len -> k <= parent i -> parent i <> idx ->
     l !! (b + i) = Some x -> l !! (b + parent i) = Some p -> comp p x = false) /\
  (forall i x p, 0 < i < len -> parent i = idx -> 0 < idx -> k <= parent idx ->
     l !! (b + i) = Some x -> l !! (b + parent idx) = Some p -> comp p x = false).

Lemma parent_lt i : 0 < i -> parent i < i.
Proof. intros. unfold parent. apply Nat.Div0.div_lt_upper_bound. lia. Qed.

Lemma parent_child i idx : 0 < i -> parent i = idx <-> i = 2 * idx + 1 \/ i = 2 * idx + 2.
Proof.
  intros Hi. unfold parent. pose proof (Nat.div_mod_eq (i - 1) 2).
  pose proof (Nat.mod_upper_bound (i - 1) 2). lia.
Qed.

(** One step of [heapify_down] towards a child that wins. *)
Lemma heap_except_step k idx c b len l l' x y :
  k <= idx -> idx < len -> c < len -> 0 < c -> parent c = idx ->
  l !! (b + idx) = Some x -> l !! (b + c) = Some y -> comp y x = false ->
  (forall d z, 0 < d < len -> parent d = idx -> l !! (b + d) = Some z -> comp y z = false) ->
  l' !! (b + idx) = Some y -> l' !! (b + c) = Some x ->
  (forall i, i <> b + idx -> i <> b + c -> l' !! i = l !! i) ->
  heap_except k idx b len l -> heap_except k c b len l'.
Proof.
  intros Hk Hidx Hc Hc0 Hpc Hx Hy Hyx Hbest Hx' Hy' Ho [H1 H2].
  pose proof (parent_lt c Hc0) as Hlt. split.
  - intros i u p Hi Hki Hpi Hu Hp. pose proof (parent_lt i ltac:(lia)) as Hpl.
    destruct (decide (parent i = idx)) as [He|Hne].
    + rewrite He, Hx' in Hp. simplify_eq. destruct (decide (i = c)) as [->|].
      * rewrite Hy' in Hu. by simplify_eq.
      * rewrite Ho in Hu by lia. by apply (Hbest i u); [lia|..].
    + rewrite (Ho (b + parent i)) in Hp by lia. destruct (decide (i = idx)) as [->|].
      * rewrite Hx' in Hu. simplify_eq. apply (H2 c u p); [lia|done|lia|done|done|done].
      * destruct (decide (i = c)) as [->|]; [lia|]. rewrite Ho in Hu by lia.
        by apply (H1 i u p); [lia|..].
  - intros i u p Hi Hpi _ _ Hu Hp. pose proof (parent_lt i ltac:(lia)) as Hpl.
    rewrite Hpc, Hx' in Hp. simplify_eq. rewrite Ho in Hu by lia.
    apply (H1 i u p); [lia|lia|lia|done|done].
Qed.

Lemma child_wins_spec b len c idx l :
  b + len <= length l -> idx < len ->
  exists w, child_wins comp l b len c idx = Some w /\
    (w = true -> c < len /\ exists y x, l !! (b + c) = Some y /\ l !! (b + idx) = Some x /\ comp y x = false) /\
    (w = false -> c < len -> exists y x, l !! (b + c) = Some y /\ l !! (b + idx) = Some x /\ comp y x = true).
Proof.
  intros Hl Hi. unfold child_wins. case_if; zify_bool.
  - destruct (lookup_exists l (b + c) ltac:(lia)) as [y Hy].
    destruct (lookup_exists l (b + idx) ltac:(lia)) as [x Hx].
    rewrite Hy, Hx. cbn [mbind option_bind]. eexists. split; [done|].
    split; intros Hw; zify_bool; [split; [done|]|intros _]; by exists y, x.
  - exists false. split; [done|]. split; [done|lia].
Qed.

Lemma heapify_down_spec fuel : forall k idx b len l,
  k <= idx -> idx < len -> len - idx < fuel -> b + len <= length l ->
  heap_except k idx b len l ->
  exists l', heapify_down comp fuel b idx len l = Some l' /\
    upd b (b + len) l l' /\ heap_from k b len l'.
Proof.
  induction fuel as [|fuel IH]; intros k idx b len l Hk Hidx Hf Hl Hh; [lia|].
  cbn [heapify_down].
  (* one recursive step, for a child that wins against [idx] and its sibling *)
  assert (Step : forall c x y, c < len -> 0 < c -> parent c = idx ->
    l !! (b + idx) = Some x -> l !! (b + c) = Some y -> comp y x = false ->
    (forall d z, 0 < d < len -> parent d = idx -> l !! (b + d) = Some z -> comp y z = false) ->
    exists l', (l1 ← swap l (b + c) (b + idx); heapify_down comp fuel b c len l1) = Some l' /\
      upd b (b + len) l l' /\ heap_from k b len l').
  { intros c x y Hc Hc0 Hpc Hx Hy Hyx Hbest. pose proof (parent_lt c Hc0).
    destruct (swap_spec l (b + c) (b + idx) y x Hy Hx) as (l1 & Hs & _ & Hl1 & Hc1 & Hi1 & Ho1).
    rewrite Hs. cbn [mbind option_bind].
    destruct (IH k c b len l1) as (l2 & -> & Hu & Hheap); [lia..| |].
    { apply (heap_except_step k idx c b len l l1 x y); try done. intros. apply Ho1; lia. }
    exists l2. split_and!; [done| |done]. apply upd_trans with l1; [|done].
    apply (swap_upd _ _ _ _ _ _ Hs); lia. }
  destruct (child_wins_spec b len (2 * idx + 1) idx l Hl Hidx) as (wl & -> & Hwl & Hwl').
  cbn [mbind option_bind]. destruct wl.
  - destruct (Hwl eq_refl) as (Hlt & y & x & Hy & Hx & Hyx).
    destruct (child_wins_spec b len (2 * idx + 2) (2 * idx + 1) l Hl Hlt) as (wr & -> & Hwr & Hwr').
    cbn [mbind option_bind]. destruct wr.
    + destruct (Hwr eq_refl) as (Hrt & z & y' & Hz & Hy' & Hzy). simplify_eq.
      apply (Step (2 * idx + 2) x z); [lia|lia|apply parent_child; lia|done|done| |].
      * by apply swo_negtrans with y.
      * intros d u Hd Hpd Hu. apply parent_child in Hpd as [->| ->]; [| |lia];
          simplify_eq; [done|apply swo_irrefl].
    + apply (Step (2 * idx + 1) x y); [lia|lia|apply parent_child; lia|done|done|done|].
      intros d u Hd Hpd Hu. apply parent_child in Hpd as [->| ->]; [| |lia].
      * simplify_eq. apply swo_irrefl.
      * destruct (Hwr' eq_refl ltac:(lia)) as (z & y' & Hz & Hy' & Hzy). simplify_eq.
        by apply swo_asym.
  - destruct (child_wins_spec b len (2 * idx + 2) idx l Hl Hidx) as (wr & -> & Hwr & Hwr').
    cbn [mbind option_bind]. destruct wr.
    + destruct (Hwr eq_refl) as (Hrt & z & x & Hz & Hx & Hzx).
      destruct (Hwl' eq_refl ltac:(lia)) as (y & x' & Hy & Hx' & Hyx). simplify_eq.
      apply (Step (2 * idx + 2) x z); [lia|lia|apply parent_child; lia|done|done|done|].
      intros d u Hd Hpd Hu. apply parent_child in Hpd as [->| ->]; [| |lia]; simplify_eq.
      * apply swo_negtrans with x; [done|by apply swo_asym].
      * apply swo_irrefl.
    + exists l. split_and!; [done|apply upd_refl|]. destruct Hh as [H1 _].
      intros i u p Hi Hki Hu Hp. destruct (decide (parent i = idx)) as [He|Hne]; [|by apply (H1 i u p)].
      pose proof He as He'. apply parent_child in He' as [->| ->]; [| |lia].
      * destruct (Hwl' eq_refl ltac:(lia)) as (y & x & Hy & Hx & Hyx).
        rewrite He in Hp. simplify_eq. by apply swo_asym.
      * destruct (Hwr' eq_refl ltac:(lia)) as (y & x & Hy & Hx & Hyx).
        rewrite He in Hp. simplify_eq. by apply swo_asym.
Qed.

(** Re-establishing the heap at [k] from the heap below it. *)
Lemma heap_from_except k b len l : heap_from (S k) b len l -> heap_except k k b len l.
Proof.
  intros H. split.
  - intros i x p Hi Hk Hne. apply H; lia.
  - intros i x p Hi Hpi Hk0 Hkk. pose proof (parent_lt k Hk0). lia.
Qed.

Lemma make_heap_loop_spec n : forall b len l,
  n < len -> b + len <= length l -> heap_from n b len l ->
  exists l', make_heap_loop comp n b len l = Some l' /\
    upd b (b + len) l l' /\ heap_from 0 b len l'.
Proof.
  induction n as [|k IH]; intros b len l Hn Hl Hh; cbn [make_heap_loop].
  { exists l. split_and!; [done|apply upd_refl|done]. }
  destruct (heapify_down_spec (S len) k k b len l) as (l1 & -> & Hu1 & Hh1);
    [lia..|by apply heap_from_except|].
  pose proof (upd_length _ _ _ _ Hu1). cbn [mbind option_bind].
  destruct (IH b len l1) as (l2 & -> & Hu2 & Hh2); [lia..|done|].
  exists l2. split_and!; [done|by apply upd_trans with l1|done].
Qed.

Lemma make_heap_spec b e l :
  b <= e -> e <= length l ->
  exists l', make_heap comp b e l = Some l' /\ upd b e l l' /\ heap_from 0 b (e - b) l'.
Proof.
  intros Hb He. unfold make_heap. case_if; zify_bool.
  { exists l. split_and!; [done|apply upd_refl|]. intros i x p Hi. lia. }
  pose proof (Nat.div_mod_eq (e - b - 2) 2). pose proof (Nat.mod_upper_bound (e - b - 2) 2).
  destruct (make_heap_loop_spec (S ((e - b - 2) / 2)) b (e - b) l) as (l' & -> & Hu & Hh);
    [lia|lia| |].
  { intros i x p Hi Hk. unfold parent in Hk. pose proof (Nat.div_mod_eq (i - 1) 2). lia. }
  replace (b + (e - b)) with e in Hu by lia. by exists l'.
Qed.

(** The root of a heap is a maximum. *)
Lemma heap_root_max b len l r :
  heap_from 0 b len l -> b + len <= length l -> l !! b = Some r ->
  forall i x, i < len -> l !! (b + i) = Some x -> comp r x = false.
Proof.
  intros Hh Hl Hr. induction i as [i IH] using lt_wf_ind. intros x Hi Hx.
  destruct (decide (i = 0)) as [->|].
  { rewrite Nat.add_0_r in Hx. simplify_eq. apply swo_irrefl. }
  pose proof (parent_lt i ltac:(lia)).
  destruct (lookup_exists l (b + parent i) ltac:(lia)) as [p Hp].
  apply swo_negtrans with p; [by apply (IH (parent i)); [lia|lia|]|].
  by apply (Hh i x p); [lia|lia|..].
Qed.

Lemma pop_heap_spec b n l :
  b + S n <= length l -> heap_from 0 b (S n) l ->
  exists l' r, pop_heap comp b (b + S n) l = Some l' /\ upd b (b + S n) l l' /\
    heap_from 0 b n l' /\ l !! b = Some r /\ l' !! (b + n) = Some r /\
    seg_all (fun x => comp r x = false) b (b + S n) l'.
Proof.
  intros Hl Hh. unfold pop_heap.
  replace (b + S n - b) with (S n) by lia. replace (b + S n - 1) with (b + n) by lia.
  rewrite Nat.sub_1_r, Nat.pred_succ.
  destruct (lookup_exists l b ltac:(lia)) as [r Hr].
  destruct (lookup_exists l (b + n) ltac:(lia)) as [y Hy].
  destruct (swap_spec l b (b + n) r y Hr Hy) as (l1 & Hs & _ & Hl1 & Hb1 & Hn1 & Ho1).
  rewrite Hs. cbn [mbind option_bind].
  assert (Hu1 : upd b (b + S n) l l1) by (apply (swap_upd _ _ _ _ _ _ Hs); lia).
  assert (Hmax : seg_all (fun x => comp r x = false) b (b + S n) l).
  { intros i x Hi Hx. replace i with (b + (i - b)) in Hx by lia.
    apply (heap_root_max b (S n) l r Hh ltac:(lia) Hr (i - b)); [lia|done]. }
  destruct (decide (n = 0)) as [->|Hn0].
  { (* the loop body finds no child *)
    assert (Hd : heapify_down comp 2 b 0 0 l1 = Some l1) by done.
    rewrite Hd. exists l1, r. split_and!; [done|done| |done|done|].
    - intros i x p Hi. lia.
    - by apply (upd_seg_all _ b (b + 1) l l1). }
  destruct (heapify_down_spec (S (S n)) 0 0 b n l1) as (l2 & -> & Hu2 & Hh2); [lia..| |].
  { split; [|intros; lia]. intros i x p Hi _ Hpi Hx Hp. pose proof (parent_lt i ltac:(lia)).
    rewrite Ho1 in Hx, Hp by lia. apply (Hh i x p); [lia|lia|done|done]. }
  exists l2, r. assert (Hu : upd b (b + S n) l l2).
  { apply upd_trans with l1; [done|]. apply (upd_weaken b (b + n)); [lia|lia|done]. }
  split_and!; [done|done|done|done| |by apply (upd_seg_all _ b (b + S n) l l2)].
  destruct Hu2 as [_ HO]. rewrite HO by lia. done.
Qed.

Lemma sort_heap_loop_spec n : forall b e l,
  b + n <= e -> e <= length l -> heap_from 0 b n l -> sorted_range (b + n) e l ->
  (forall i j x y, b <= i < b + n -> b + n <= j < e -> l !! i = Some x -> l !! j = Some y -> comp y x = false) ->
  exists l', sort_heap_loop comp n b l = Some l' /\ upd b e l l' /\ sorted_range b e l'.
Proof.
  induction n as [|n IH]; intros b e l Hb He Hh Hs Hsep; cbn [sort_heap_loop].
  { rewrite Nat.add_0_r in Hs. exists l. split_and!; [done|apply upd_refl|done]. }
  destruct (pop_heap_spec b n l) as (l1 & r & -> & Hu1 & Hh1 & _ & Hr1 & Hm1); [lia|done|].
  cbn [mbind option_bind]. pose proof (upd_length _ _ _ _ Hu1) as Hl1.
  assert (Hsep1 : forall j y, b + S n <= j < e -> l1 !! j = Some y ->
    seg_all (fun x => comp y x = false) b (b + S n) l1).
  { intros j y Hj Hy. destruct Hu1 as [HP HO]. rewrite HO in Hy by lia.
    apply (upd_seg_all _ b (b + S n) l l1); [lia|done|].
    intros i x Hi Hx. by apply (Hsep i j). }
  destruct (IH b e l1) as (l2 & -> & Hu2 & Hs2); [lia|lia|done| | |].
  - intros i j x y Hi Hj Hx Hy. destruct (decide (i = b + n)) as [->|].
    + apply (Hsep1 j y ltac:(lia) Hy (b + n)); [lia|done].
    + destruct Hu1 as [_ HO]. rewrite HO in Hx, Hy by lia. apply (Hs i j); [lia|lia|done|done].
  - intros i j x y Hi Hj Hx Hy. destruct (decide (j = b + n)) as [->|].
    + rewrite Hr1 in Hy. simplify_eq. apply (Hm1 i x); [lia|done].
    + apply (Hsep1 j y ltac:(lia) Hy i); [lia|done].
  - exists l2. split_and!; [done| |done]. apply upd_trans with l1; [|done].
    apply (upd_weaken b (b + S n)); [lia|lia|done].
Qed.

Lemma heap_sort_sorts : sorts (heap_sort comp).
Proof.
  intros b e l Hb He. unfold heap_sort, sort_heap.
  destruct (make_heap_spec b e l Hb He) as (l1 & -> & Hu1 & Hh1). cbn [mbind option_bind].
  pose proof (upd_length _ _ _ _ Hu1).
  destruct (sort_heap_loop_spec (e - b) b e l1) as (l2 & -> & Hu2 & Hs2);
    [lia|lia|done|intros ??????; lia|intros; lia|].
  exists l2. split_and!; [done|by apply upd_trans with l1|done].
Qed.

(** ** Introsort *)

(** Both orders in which the two halves of a partition are sorted. *)
Lemma sort_halves (f g : nat -> nat -> list A -> option (list A)) b e l :
  sorts f -> sorts g -> 1 < e - b -> e <= length l ->
  exists l', ('(lt, gt, l) ← partition comp b e l;
    if lt - b <? e - gt then l ← f b lt l; g gt e l else l ← f gt e l; g b lt l) = Some l' /\
    upd b e l l' /\ sorted_range b e l'.
Proof.
  intros Hf Hg Hlen He.
  destruct (partition_spec b e l Hlen He) as (lt & gt & l1 & pv & -> & Hlt & Hgt & Hu1 & A1 & A2 & A3).
  cbn [mbind option_bind]. pose proof (upd_length _ _ _ _ Hu1) as Hl1. case_if.
  - destruct (Hf b lt l1) as (l2 & -> & Hu2 & Hs2); [lia|lia|]. cbn [mbind option_bind].
    pose proof (upd_length _ _ _ _ Hu2) as Hl2.
    destruct (Hg gt e l2) as (l3 & -> & Hu3 & Hs3); [lia|lia|].
    exists l3. split_and!; [done| |].
    + apply upd_trans with l1; [done|]. apply upd_trans with l2;
        [apply (upd_weaken b lt)|apply (upd_weaken gt e)]; lia || done.
    + apply (sorted_glue pv b lt gt e); [lia..| | | | |done].
      * apply (upd_seg_all_outside _ gt e _ _ l2); [done|lia|].
        by apply (upd_seg_all _ b lt l1); [lia|..].
      * apply (upd_seg_all_outside _ gt e _ _ l2); [done|lia|].
        by apply (upd_seg_all_outside _ b lt _ _ l1); [|lia|].
      * apply (upd_seg_all _ gt e l2); [lia|done|].
        by apply (upd_seg_all_outside _ b lt _ _ l1); [|lia|].
      * intros i j x y Hi Hj Hx Hy. destruct Hu3 as [_ HO]. rewrite HO in Hx, Hy by lia.
        apply (Hs2 i j); [lia|lia|done|done].
  - destruct (Hf gt e l1) as (l2 & -> & Hu2 & Hs2); [lia|lia|]. cbn [mbind option_bind].
    pose proof (upd_length _ _ _ _ Hu2) as Hl2.
    destruct (Hg b lt l2) as (l3 & -> & Hu3 & Hs3); [lia|lia|].
    exists l3. split_and!; [done| |].
    + apply upd_trans with l1; [done|]. apply upd_trans with l2;
        [apply (upd_weaken gt e)|apply (upd_weaken b lt)]; lia || done.
    + apply (sorted_glue pv b lt gt e); [lia..| | | |done|].
      * apply (upd_seg_all _ b lt l2); [lia|done|].
        by apply (upd_seg_all_outside _ gt e _ _ l1); [|lia|].
      * apply (upd_seg_all_outside _ b lt _ _ l2); [done|lia|].
        by apply (upd_seg_all_outside _ gt e _ _ l1); [|lia|].
      * apply (upd_seg_all_outside _ b lt _ _ l2); [done|lia|].
        by apply (upd_seg_all _ gt e l1); [lia|..].
      * intros i j x y Hi Hj Hx Hy. destruct Hu3 as [_ HO]. rewrite HO in Hx, Hy by lia.
        apply (Hs2 i j); [lia|lia|done|done].
Qed.

Lemma intro_sort_loop_sorts rec n : sorts rec -> sorts (intro_sort_loop comp rec n).
Proof.
  intros Hrec. induction n as [|n IHn]; intros b e l Hb He; cbn [intro_sort_loop].
  { by apply heap_sort_sorts. }
  case_if; zify_bool.
  { exists l. split_and!; [done|apply upd_refl|by apply sorted_short]. }
  case_if; [by apply insertion_sort_sorts|].
  apply (sort_halves _ _ b e l Hrec IHn); [lia|done].
Qed.

Lemma intro_sort_impl_sorts d : sorts (intro_sort_impl comp d).
Proof.
  induction d as [|d IH]; [apply heap_sort_sorts|].
  intros b e l. apply (intro_sort_loop_sorts _ (S d) IH).
Qed.

Lemma intro_sort_sorts : sorts (intro_sort comp).
Proof.
  intros b e l Hb He. unfold intro_sort. case_if; zify_bool.
  - exists l. split_and!; [done|apply upd_refl|by apply sorted_short].
  - by apply intro_sort_impl_sorts.
Qed.

(** ** Pushing onto a heap *)

(** The order holds except between [idx] and its parent, and the children
    of [idx] are in order with that parent. *)
Definition heap_except_up (idx b len : nat) (l : list A) : Prop :=
  (forall i x p, 0 < i < len -> i <> idx ->
     l !! (b + i) = Some x -> l !! (b + parent i) = Some p -> comp p x = false) /\
  (forall i x p, 0 < i < len -> parent i = idx -> 0 < idx ->
     l !! (b + i) = Some x -> l !! (b + parent idx) = Some p -> comp p x = false).

Lemma heap_except_up_step idx b len l l' x p :
  0 < idx < len -> l !! (b + idx) = Some x -> l !! (b + parent idx) = Some p ->
  comp x p = false ->
  l' !! (b + idx) = Some p -> l' !! (b + parent idx) = Some x ->
  (forall i, i <> b + idx -> i <> b + parent idx -> l' !! i = l !! i) ->
  heap_except_up idx b len l -> heap_except_up (parent idx) b len l'.
Proof.
  intros Hidx Hx Hp Hxp Hi' Hp' Ho [H1 H2]. pose proof (parent_lt idx ltac:(lia)). split.
  - intros i u q Hi Hne Hu Hq. pose proof (parent_lt i ltac:(lia)).
    destruct (decide (i = idx)) as [->|].
    { rewrite Hi' in Hu. rewrite Hp' in Hq. by simplify_eq. }
    rewrite (Ho (b + i)) in Hu by lia. destruct (decide (parent i = idx)) as [He|].
    { rewrite He, Hi' in Hq. simplify_eq. by apply (H2 i u q); [lia|lia|lia|..]. }
    destruct (decide (parent i = parent idx)) as [He|].
    { rewrite He, Hp' in Hq. simplify_eq. apply swo_negtrans with p; [done|].
      apply (H1 i u p); [lia|done|done|by rewrite He]. }
    rewrite Ho in Hq by lia. by apply (H1 i u q).
  - intros i u q Hi Hpi Hpos Hu Hq. pose proof (parent_lt (parent idx) Hpos).
    pose proof (parent_lt i ltac:(lia)). rewrite (Ho (b + parent (parent idx))) in Hq by lia.
    assert (Hpq : comp q p = false) by (apply (H1 (parent idx) p q); [lia|lia|done|done]).
    destruct (decide (i = idx)) as [->|].
    { rewrite Hi' in Hu. by simplify_eq. }
    rewrite Ho in Hu by lia. apply swo_negtrans with p; [done|].
    apply (H1 i u p); [lia|done|done|by rewrite Hpi].
Qed.

Lemma heapify_up_spec fuel : forall idx b len l,
  idx < fuel -> idx < len -> b + len <= length l -> heap_except_up idx b len l ->
  exists l', heapify_up comp fuel b idx l = Some l' /\
    upd b (b + len) l l' /\ heap_from 0 b len l'.
Proof.
  induction fuel as [|fuel IH]; intros idx b len l Hf Hidx Hl Hh; [lia|].
  cbn [heapify_up]. fold (parent idx). case_if; zify_bool.
  - destruct (lookup_exists l (b + idx) ltac:(lia)) as [x Hx].
    destruct (lookup_exists l (b + parent idx) ltac:(lia)) as [p Hp].
    rewrite Hx, Hp. cbn [mbind option_bind]. case_if.
    + exists l. split_and!; [done|apply upd_refl|]. destruct Hh as [H1 _].
      intros i u q Hi _ Hu Hq. destruct (decide (i = idx)) as [->|].
      * simplify_eq. by apply swo_asym.
      * by apply (H1 i u q).
    + destruct (swap_spec l (b + parent idx) (b + idx) p x Hp Hx)
        as (l1 & Hs & _ & Hl1 & Hp1 & Hx1 & Ho1).
      rewrite Hs. cbn [mbind option_bind].
      destruct (IH (parent idx) b len l1) as (l2 & -> & Hu & Hheap); [lia..| |].
      { apply (heap_except_up_step idx b len l l1 x p); try done; [lia|].
        intros. apply Ho1; lia. }
      exists l2. split_and!; [done| |done]. apply upd_trans with l1; [|done].
      apply (swap_upd _ _ _ _ _ _ Hs); lia.
  - assert (idx = 0) as -> by (destruct idx; [done|pose proof (parent_lt (S idx)); lia]).
    exists l. split_and!; [done|apply upd_refl|]. destruct Hh as [H1 _].
    intros i u q Hi _. apply H1; lia.
Qed.

(** Appending an element to a heap and pushing it up. *)
Lemma push_heap_spec l x :
  heap_from 0 0 (length l) l ->
  exists l', push_heap comp 0 (length (l ++ [x])) (l ++ [x]) = Some l' /\
    l' ≡ₚ x :: l /\ heap_from 0 0 (length l') l'.
Proof.
  intros Hh. unfold push_heap. rewrite Nat.sub_0_r, length_app. cbn [length]. rewrite Nat.add_sub.
  destruct (heapify_up_spec (S (length l + 1)) (length l) 0 (length l + 1) (l ++ [x]))
    as (l' & -> & Hu & Hheap); [lia|lia|by rewrite length_app| |].
  { split.
    - intros i u q Hi Hne Hu Hq. pose proof (parent_lt i ltac:(lia)).
      rewrite lookup_app_l in Hu, Hq by lia. by apply (Hh i u q); [lia|lia|..].
    - intros i u q Hi Hpi. pose proof (parent_lt i ltac:(lia)). lia. }
  pose proof (upd_length _ _ _ _ Hu) as Hlen. rewrite length_app in Hlen. cbn in Hlen.
  exists l'. split_and!; [done| |by rewrite Hlen].
  destruct Hu as [HP _]. rewrite <- HP. symmetry. apply Permutation_cons_append.
Qed.

(** ** Exchange sort *)
Lemma exchange_inner_spec n : forall lhs rhs l,
  lhs < rhs -> rhs + n <= length l ->
  exists l', exchange_inner comp n lhs rhs l = Some l' /\ upd lhs (rhs + n) l l' /\
    ((forall x, l !! lhs = Some x -> seg_all (fun y => comp y x = false) lhs rhs l) ->
     forall x, l' !! lhs = Some x -> seg_all (fun y => comp y x = false) lhs (rhs + n) l').
Proof.
  induction n as [|n IH]; intros lhs rhs l Hlr Hl; cbn [exchange_inner].
  { rewrite Nat.add_0_r. exists l. split_and!; [done|apply upd_refl|done]. }
  destruct (lookup_exists l lhs ltac:(lia)) as [x Hx].
  destruct (lookup_exists l rhs ltac:(lia)) as [y Hy].
  rewrite Hx, Hy. cbn [mbind option_bind]. case_if; zify_bool.
  - destruct (swap_spec l lhs rhs x y Hx Hy) as (l1 & Hs & _ & Hl1 & Hx1 & Hy1 & Ho1).
    rewrite Hs. cbn [mbind option_bind].
    destruct (IH lhs (S rhs) l1) as (l2 & -> & Hu & Hmin); [lia|lia|].
    replace (S rhs + n) with (rhs + S n) in * by lia.
    exists l2. split_and!; [done| |].
    { apply upd_trans with l1; [|done]. apply (swap_upd _ _ _ _ _ _ Hs); lia. }
    intros Hpre. apply Hmin. intros x' Hx'. rewrite Hx1 in Hx'. simplify_eq.
    intros k z Hk Hz. destruct (decide (k = lhs)) as [->|].
    { rewrite Hx1 in Hz. simplify_eq. apply swo_irrefl. }
    destruct (decide (k = rhs)) as [->|]; [rewrite Hy1 in Hz; by simplify_eq|].
    rewrite Ho1 in Hz by done. apply swo_negtrans with x; [|done].
    apply (Hpre x ltac:(congruence) k z); [lia|done].
  - destruct (IH lhs (S rhs) l) as (l2 & -> & Hu & Hmin); [lia|lia|].
    replace (S rhs + n) with (rhs + S n) in * by lia.
    exists l2. split_and!; [done|done|]. intros Hpre. apply Hmin. intros x' Hx'. simplify_eq.
    intros k z Hk Hz. destruct (decide (k = rhs)) as [->|].
    + simplify_eq. by apply swo_asym.
    + apply (Hpre x ltac:(congruence) k z); [lia|done].
Qed.

Lemma exchange_sort_sorts : sorts (exchange_sort comp).
Proof.
  intros b e l Hb He. unfold exchange_sort. remember (e - b) as n eqn:Hn.
  revert b l Hb He Hn. induction n as [|n IH]; intros b l Hb He Hn; cbn [exchange_outer].
  { exists l. split_and!; [done|apply upd_refl|]. apply sorted_short. lia. }
  destruct (exchange_inner_spec n b (S b) l) as (l1 & -> & Hu1 & Hmin); [lia|lia|].
  cbn [mbind option_bind]. pose proof (upd_length _ _ _ _ Hu1).
  replace (S b + n) with e in * by lia.
  destruct (lookup_exists l1 b ltac:(lia)) as [m Hm].
  assert (Hall : seg_all (fun y => comp y m = false) b e l1).
  { apply Hmin; [|done]. intros x Hx k z Hk Hz. replace k with b in Hz by lia.
    simplify_eq. apply swo_irrefl. }
  destruct (IH (S b) l1) as (l2 & -> & Hu2 & Hs2); [lia..|].
  exists l2. split_and!; [done| |].
  { apply upd_trans with l1; [done|]. apply (upd_weaken (S b) e); [lia|lia|done]. }
  intros i j x y Hi Hj Hx Hy. destruct (decide (i = b)) as [->|]; [|by apply (Hs2 i j); [lia|..]].
  assert (Hx' : l2 !! b = l1 !! b) by (destruct Hu2 as [_ HO]; apply HO; lia).
  rewrite Hx', Hm in Hx. simplify_eq.
  assert (Hu2' : upd b e l1 l2) by (apply (upd_weaken (S b) e); [lia|lia|done]).
  apply (upd_seg_all _ b e l1 l2 ltac:(lia) Hu2' Hall j y); [lia|done].
Qed.

(** ** Quicksort with the default comparator *)
Lemma quick_sort_less_spec fuel : forall b e l,
  b <= e -> e <= length l -> e - b < fuel ->
  exists l', quick_sort comp comp fuel b e l = Some l' /\ upd b e l l' /\ sorted_range b e l'.
Proof.
  induction fuel as [|fuel IH]; intros b e l Hb He Hf; [lia|]. cbn [quick_sort].
  case_if; zify_bool; [|exists l; split_and!; [done|apply upd_refl|by apply sorted_short; lia]].
  set (f := fun b' e' l' => if (b <=? b') && (e' <=? e) && (b' <=? e') && (e' - b' <? e - b)
    then quick_sort comp comp fuel b' e' l' else insertion_sort comp b' e' l').
  assert (Hsf : sorts f).
  { intros b' e' l' Hb' He'. unfold f. case_if; zify_bool; [apply IH; lia|].
    by apply insertion_sort_sorts. }
  destruct (sort_halves f f b e l Hsf Hsf) as (l' & Hrun & Hu & Hs); [lia|done|].
  exists l'. split_and!; [|done..]. rewrite <- Hrun.
  destruct (partition_spec b e l) as (lt & gt & l1 & pv & -> & Hlt & Hgt & _); [lia|done|].
  cbn [mbind option_bind].
  assert (Hf1 : forall k, f b lt k = quick_sort comp comp fuel b lt k).
  { intros k. unfold f. rewrite !(proj2 (Nat.leb_le _ _)) by lia.
    by rewrite (proj2 (Nat.ltb_lt _ _)) by lia. }
  assert (Hf2 : forall k, f gt e k = quick_sort comp comp fuel gt e k).
  { intros k. unfold f. rewrite !(proj2 (Nat.leb_le _ _)) by lia.
    by rewrite (proj2 (Nat.ltb_lt _ _)) by lia. }
  rewrite Hf1, Hf2. case_if.
  - destruct (quick_sort comp comp fuel b lt l1); [cbn; by rewrite Hf2|done].
  - destruct (quick_sort comp comp fuel gt e l1); [cbn; by rewrite Hf1|done].
Qed.
End sorted.

(** ** The library's promise *)

(** C28: for every strict weak order and every range inside the vector, the
    library sort terminates without touching anything outside the range,
    permutes the elements, and leaves the range in ascending order. *)
Theorem sort_correct {A : Type} (comp : A -> A -> bool) (b e : nat) (l : list A)
  (Hswo : StrictWeakOrder comp) (Hb : b <= e) (He : e <= length l) :
  exists l', sort comp b e l = Some l' /\ l ≡ₚ l' /\
    (forall i, i < b \/ e <= i -> l' !! i = l !! i) /\ sorted_range comp b e l'.
Proof.
  destruct (intro_sort_sorts comp b e l Hb He) as (l' & Hs & [HP HO] & Hsorted).
  exists l'. done.
Qed.

#[export] Instance Zltb_swo : StrictWeakOrder Z.ltb.
Proof. split; intros; zify_bool; rewrite ?Z.ltb_lt, ?Z.ltb_ge; lia. Qed.

Lemma sort_correct_witness :
  sort Z.ltb 0 5 [5; 1; 4; 1; 3]%Z = Some [1; 1; 3; 4; 5]%Z /\
  exists l', sort Z.ltb 0 5 [5; 1; 4; 1; 3]%Z = Some l' /\ [5; 1; 4; 1; 3]%Z ≡ₚ l' /\
    (forall i, i < 0 \/ 5 <= i -> l' !! i = [5; 1; 4; 1; 3]%Z !! i) /\ sorted_range Z.ltb 0 5 l'.
Proof.
  split; [vm_compute; reflexivity|].
  apply (sort_correct Z.ltb 0 5 [5; 1; 4; 1; 3]%Z); [apply Zltb_swo|lia|cbn; lia].
Defined.

(** a [quick_sort] call whose comparator is not the default [less] is not
    a sort: the recursive calls drop the comparator, so sorting with
    [greater] leaves a range that is not in descending order. *)
Theorem quick_sort_drops_comparator :
  quick_sort Z.ltb Z.gtb 8 0 5 [1; 2; 3; 4; 5]%Z = Some [5; 4; 3; 1; 2]%Z /\
  ~ sorted_range Z.gtb 0 5 [5; 4; 3; 1; 2]%Z /\
  (forall (l : list Z), exists l', quick_sort Z.ltb Z.ltb (S (length l)) 0 (length l) l = Some l' /\
     l ≡ₚ l' /\ sorted_range Z.ltb 0 (length l) l').
Proof.
  split; [vm_compute; reflexivity|]. split.
  - intros H. specialize (H 3 4 1%Z 2%Z ltac:(lia) ltac:(lia) eq_refl eq_refl). done.
  - intros l. destruct (quick_sort_less_spec Z.ltb (S (length l)) 0 (length l) l)
      as (l' & Hq & [HP _] & Hs); [lia..|]. by exists l'.
Qed.

End Sort.

(** * BAN/PriorityQueue.h *)
Module PriorityQueue.

(** [m_comp] is stored and never used: every heap call takes the default
    [less]. *)
Record t (A : Type) : Type := mk { m_comp : A -> A -> bool; m_data : list A }.
Arguments mk {A} _ _.
Arguments m_comp {A} _.
Arguments m_data {A} _.

Section defs.
Context {A : Type} (less : A -> A -> bool).

(** [alloc] is the answer of the allocator to [push_back]. *)
Definition push (alloc : bool) (q : t A) (value : A) : outcome (t A) :=
  if alloc then
    let data := m_data q ++ [value] in
    match Sort.push_heap less 0 (length data) data with
    | Some data => Ok (mk (m_comp q) data)
    | None => Panic
    end
  else Err ENOMEM.

Definition pop (q : t A) : outcome (t A) :=
  match Sort.pop_heap less 0 (length (m_data q)) (m_data q) with
  | Some data =>
      ASSERT (0 <? length data) in Ok (mk (m_comp q) (take (length data - 1) data))
  | None => Panic
  end.

Definition top (q : t A) : outcome A :=
  match m_data q !! 0 with Some x => Ok x | None => Panic end.

Definition size (q : t A) : nat := length (m_data q).
Definition empty (q : t A) : bool := size q =? 0.

(** The heap invariant, with respect to the comparator in use. *)
Definition heap_ok (q : t A) : Prop :=
  Sort.heap_from less 0 0 (length (m_data q)) (m_data q).
End defs.

Section laws.
Context {A : Type} (less : A -> A -> bool) {Hswo : StrictWeakOrder less}.
Implicit Types q : t A.

Lemma push_ok q x :
  heap_ok less q ->
  exists q', push less true q x = Ok q' /\ heap_ok less q' /\ m_data q' ≡ₚ x :: m_data q.
Proof.
  intros Hh. unfold push.
  destruct (Sort.push_heap_spec less (m_data q) x Hh) as (l' & -> & HP & Hh').
  eexists. split_and!; done.
Qed.

Lemma pop_ok q x :
  heap_ok less q -> top q = Ok x ->
  exists q', pop less q = Ok q' /\ heap_ok less q' /\ m_data q ≡ₚ x :: m_data q' /\
    (forall y, y ∈ m_data q -> less x y = false).
Proof.
  unfold heap_ok, top, pop. intros Hh Htop.
  destruct (m_data q !! 0) as [x0|] eqn:Hx0; [|done]. simplify_eq.
  destruct (length (m_data q)) as [|n] eqn:Hlen; [by apply nil_length_inv in Hlen; rewrite Hlen in Hx0|].
  destruct (Sort.pop_heap_spec less 0 n (m_data q)) as (l' & r & Hpop & Hu & Hh' & Hr0 & Hr & _);
    [by rewrite Hlen|done|]. change (0 + S n) with (S n) in Hpop. rewrite Hpop.
  pose proof (Sort.upd_length _ _ _ _ Hu) as Hl'. rewrite Hlen in Hl'. rewrite Hl'.
  cbn [Nat.ltb Nat.leb]. rewrite Nat.sub_1_r, Nat.pred_succ.
  assert (r = x) as -> by congruence. cbn [Nat.add] in *. eexists (mk _ _). split_and!; [done| | |]; cbn [m_data].
  - rewrite length_take, Hl', Nat.min_l by lia. intros i u p Hi Hk Hu' Hp.
    pose proof (Sort.parent_lt i ltac:(lia)). cbn [Nat.add] in *.
    rewrite lookup_take_lt in Hu', Hp by lia. by apply (Hh' i u p).
  - destruct Hu as [HP _]. rewrite HP.
    rewrite <- (take_drop n l') at 1. rewrite (drop_S l' x n Hr).
    rewrite (drop_ge l' (S n)) by lia. symmetry. apply Permutation_cons_append.
  - intros y Hy. apply list_elem_of_lookup in Hy as [i Hi].
    apply (Sort.heap_root_max less 0 (S n) (m_data q) x Hh ltac:(by rewrite Hlen) Hr0 i); [|done].
    apply lookup_lt_Some in Hi. lia.
Qed.
End laws.

(** A sequence of pushes, as a client builds a queue. *)
Fixpoint push_all {A} (less : A -> A -> bool) (q : t A) (xs : list A) : outcome (t A) :=
  match xs with
  | [] => Ok q
  | x :: xs' => let* q := push less true q x in push_all less q xs'
  end.

Lemma push_all_ok {A} (less : A -> A -> bool) {Hswo : StrictWeakOrder less} xs : forall q,
  heap_ok less q ->
  exists q', push_all less q xs = Ok q' /\ heap_ok less q' /\ m_data q' ≡ₚ xs ++ m_data q.
Proof.
  induction xs as [|x xs IH]; intros q Hh; cbn [push_all app]; [by exists q|].
  destruct (push_ok less q x Hh) as (q1 & -> & Hh1 & HP1).
  destruct (IH q1 Hh1) as (q2 & -> & Hh2 & HP2). exists q2. split_and!; [done|done|].
  rewrite HP2, HP1. by rewrite Permutation_middle.
Qed.

(** whatever is pushed, [top] is a maximum of the queue under [less] and
    [pop] removes exactly that element, leaving a queue that again satisfies
    the heap invariant. *)
Theorem priority_queue_correct {A : Type} (less comp : A -> A -> bool) (x : A) (xs : list A)
  (Hswo : StrictWeakOrder less) :
  exists q m q', push_all less (mk comp []) (x :: xs) = Ok q /\ top q = Ok m /\
    m ∈ x :: xs /\ (forall y, y ∈ x :: xs -> less m y = false) /\
    pop less q = Ok q' /\ heap_ok less q' /\ x :: xs ≡ₚ m :: m_data q'.
Proof.
  destruct (push_all_ok less (x :: xs) (mk comp [])) as (q & Hq & Hh & HP).
  { intros i u p Hi. cbn in Hi. lia. }
  cbn [m_data] in HP. rewrite app_nil_r in HP.
  destruct (m_data q !! 0) as [m|] eqn:Hm.
  2:{ apply lookup_ge_None in Hm. apply Permutation_length in HP. cbn in HP. lia. }
  assert (Htop : top q = Ok m) by (unfold top; by rewrite Hm).
  destruct (pop_ok less q m Hh Htop) as (q' & Hpop & Hh' & HP' & Hmax).
  exists q, m, q'. split_and!; [done|done| | |done|done|by rewrite <- HP', <- HP].
  - rewrite <- HP. apply list_elem_of_lookup. eauto.
  - intros y Hy. apply Hmax. by rewrite HP.
Qed.

Lemma priority_queue_correct_witness :
  exists q m q', push_all Z.ltb (mk Z.gtb []) [3; 9; 4]%Z = Ok q /\ top q = Ok m /\
    m ∈ [3; 9; 4]%Z /\ (forall y, y ∈ [3; 9; 4]%Z -> Z.ltb m y = false) /\
    pop Z.ltb q = Ok q' /\ heap_ok Z.ltb q' /\ [3; 9; 4]%Z ≡ₚ m :: m_data q'.
Proof. apply (priority_queue_correct Z.ltb Z.gtb 3%Z [9; 4]%Z). apply Sort.Zltb_swo. Defined.

(** a queue built with a custom comparator still orders by [less]: with
    [greater] as [Comp] the queue of 3, 9, 4 has 9 on top, where the
    comparator asks for 3. *)
Theorem priority_queue_ignores_comparator :
  exists q, push_all Z.ltb (mk Z.gtb []) [3; 9; 4]%Z = Ok q /\
    m_comp q = Z.gtb /\ top q = Ok 9%Z /\ m_comp q 9%Z 3%Z = true.
Proof. eexists. split; [vm_compute; reflexivity|]. done. Qed.

End PriorityQueue.
