(* ===== verification/BanHashSet.v ===== *)
(** * BAN/Hash and BAN/HashSet: open addressing with removal marks

    A table of [2^k] buckets is probed with a linear congruential sequence
    that starts at the hash.  A removed element leaves a mark, and the flag
    [chain_start] lets a search stop early.  The bucket after the last one,
    which only ends iterations, is not part of the list [m_buckets].  The
    search loops have no bound in the code; here they are given one step per
    bucket and fail past it, and the theorems show that they never do. *)
From S2P Require Import Prelude BanMath.

(** ** Hash functions *)
Module Hash.
Definition u32_hash (val : Z) : Z :=
  let val := u32 (Z.lxor (Z.shiftr val 16) val * 0x119de1f3) in
  let val := u32 (Z.lxor (Z.shiftr val 16) val * 0x119de1f3) in
  Z.lxor (Z.shiftr val 16) val.

Definition u64_hash (val : Z) : Z :=
  let low := u32_hash (u32 val) in
  let high := u32_hash (u32 (Z.shiftr val 32)) in
  Z.lxor low high.
End Hash.

(** ** The probe sequence *)
Definition get_next_hash_in_chain (prev_hash orig_hash : Z) : Z :=
  u32 (u32 (prev_hash * 1103515245) + Z.lor orig_hash 1).

Fixpoint probe (n : nat) (orig : Z) : Z :=
  match n with O => orig | S n' => get_next_hash_in_chain (probe n' orig) orig end.

(** [hash & (m_capacity - 1)] *)
Definition slot (capacity hash : Z) : nat := Z.to_nat (Z.land hash (capacity - 1)).

(** *** It visits every bucket

    The sequence is [x -> a * x + c] modulo [2^k] with [a] one modulo 4 and
    [c] odd, so its first [2^k] members differ. *)
Section lcg.
Context (a c : Z) (Ha : a `mod` 4 = 1) (Hc : c `mod` 2 = 1).

(** [1 + a + ... + a^(n-1)] *)
Fixpoint geometric (n : nat) : Z := match n with O => 0 | S n' => geometric n' + a ^ Z.of_nat n' end.

Lemma pow_mod4 n : (a ^ Z.of_nat n) `mod` 4 = 1.
Proof.
  induction n as [|n IH]; [done|].
  rewrite Nat2Z.inj_succ, Z.pow_succ_r, Z.mul_mod, Ha, IH by lia. done.
Qed.

Lemma geometric_double n : geometric (n + n) = geometric n * (1 + a ^ Z.of_nat n).
Proof.
  assert (H : forall m, geometric (n + m) = geometric n + a ^ Z.of_nat n * geometric m).
  { induction m as [|m IH]; [rewrite Nat.add_0_r; cbn; lia|].
    replace (n + S m)%nat with (S (n + m)) by lia. cbn [geometric]. rewrite IH, Nat2Z.inj_add, Z.pow_add_r by lia. lia. }
  rewrite H. lia.
Qed.

Lemma odd_cancel (k : nat) : forall g q, (2 ^ Z.of_nat k | g * (1 + 2 * q)) -> (2 ^ Z.of_nat k | g).
Proof.
  induction k as [|k IH]; intros g q Hd; [apply Z.divide_1_l|].
  rewrite Nat2Z.inj_succ, Z.pow_succ_r in * by lia. destruct Hd as [z Hz].
  assert (Hg : g = 2 * (z * 2 ^ Z.of_nat k - g * q)) by lia.
  set (g' := z * 2 ^ Z.of_nat k - g * q) in *. rewrite Hg. apply Z.mul_divide_mono_l, (IH g' q).
  exists z. rewrite Hg in Hz. lia.
Qed.

(** A power of two that divides the sum divides the number of its terms. *)
Lemma geometric_divide n : forall k : nat, (2 ^ Z.of_nat k | geometric n) -> (2 ^ Z.of_nat k | Z.of_nat n).
Proof.
  induction n as [n IH] using lt_wf_ind. intros [|k] Hd; [apply Z.divide_1_l|].
  rewrite Nat2Z.inj_succ, Z.pow_succ_r in * by lia.
  destruct (Nat.Even_or_Odd n) as [[m ->]|[m ->]].
  - destruct (decide (m = 0%nat)) as [->|Hm]; [cbn; apply Z.divide_0_r|].
    replace (2 * m)%nat with (m + m)%nat in * by lia. rewrite geometric_double in Hd.
    pose proof (pow_mod4 m) as Hp. pose proof (Z.div_mod (a ^ Z.of_nat m) 4 ltac:(lia)) as Hdm. rewrite Hp in Hdm.
    set (q := a ^ Z.of_nat m / 4) in *.
    replace (geometric m * (1 + a ^ Z.of_nat m)) with (2 * (geometric m * (1 + 2 * q))) in Hd by lia.
    apply Z.mul_divide_cancel_l in Hd; [|lia]. apply odd_cancel in Hd.
    rewrite Nat2Z.inj_add. replace (Z.of_nat m + Z.of_nat m) with (2 * Z.of_nat m) by lia.
    apply Z.mul_divide_mono_l, IH; [lia|done].
  - exfalso. pose proof (pow_mod4 m) as Hp. pose proof (Z.div_mod (a ^ Z.of_nat m) 4 ltac:(lia)) as Hdm.
    pose proof (pow_mod4 (m + m)) as Hp2. pose proof (Z.div_mod (a ^ Z.of_nat (m + m)) 4 ltac:(lia)) as Hdm2.
    rewrite Hp in Hdm. rewrite Hp2 in Hdm2. replace (2 * m + 1)%nat with (S (m + m)) in Hd by lia.
    cbn [geometric] in Hd. rewrite geometric_double, Hdm, Hdm2 in Hd. destruct Hd as [z Hz]. lia.
Qed.

Fixpoint lcg (n : nat) (x : Z) : Z := match n with O => x | S n' => lcg n' x * a + c end.

Lemma lcg_closed n x : lcg n x - x = geometric n * ((a - 1) * x + c).
Proof.
  assert (Hg : forall m, (a - 1) * geometric m = a ^ Z.of_nat m - 1).
  { induction m as [|m IH]; [cbn [geometric Z.of_nat]; rewrite Z.pow_0_r; lia|]. cbn [geometric]. rewrite Nat2Z.inj_succ, Z.pow_succ_r by lia. lia. }
  assert (H : lcg n x = a ^ Z.of_nat n * x + c * geometric n).
  { induction n as [|n IH]; [cbn; lia|]. cbn [lcg geometric]. rewrite IH, Nat2Z.inj_succ, Z.pow_succ_r by lia.
    pose proof (Hg n). lia. }
  rewrite H. pose proof (Hg n). nia.
Qed.

Lemma lcg_add n m x : lcg (n + m) x = lcg n (lcg m x).
Proof. induction n as [|n IH]; cbn; [done|]. by rewrite IH. Qed.

Lemma lcg_injective (k : nat) n m x :
  (n < 2 ^ k)%nat -> (m < 2 ^ k)%nat ->
  (lcg n x) `mod` 2 ^ Z.of_nat k = (lcg m x) `mod` 2 ^ Z.of_nat k -> n = m.
Proof.
  assert (Hgen : forall n m, (n <= m)%nat -> (m < 2 ^ k)%nat ->
    (lcg n x) `mod` 2 ^ Z.of_nat k = (lcg m x) `mod` 2 ^ Z.of_nat k -> n = m).
  2:{ intros Hn Hm He. destruct (Nat.le_gt_cases n m); [by apply Hgen|]. symmetry. apply Hgen; [lia|done|done]. }
  clear n m. intros n m Hnm Hm He.
  replace m with ((m - n) + n)%nat in He by lia. rewrite lcg_add in He.
  set (y := lcg n x) in *. pose proof (lcg_closed (m - n) y) as Hcl.
  assert (Hd : (2 ^ Z.of_nat k | lcg (m - n) y - y)).
  { apply Z.mod_divide; [lia|]. rewrite Zminus_mod, <- He, Z.sub_diag. done. }
  rewrite Hcl in Hd.
  assert (Ho : exists q, (a - 1) * y + c = 1 + 2 * q).
  { exists (((a - 1) * y + (c - 1)) / 2). pose proof (Z.div_mod a 4 ltac:(lia)). pose proof (Z.div_mod c 2 ltac:(lia)).
    replace ((a - 1) * y + (c - 1)) with ((2 * (a / 4) * y + c / 2) * 2) by nia. rewrite Z.div_mul by lia. nia. }
  destruct Ho as [q Hq]. rewrite Hq in Hd. apply odd_cancel, geometric_divide in Hd.
  destruct (decide (m = n)) as [|Hne]; [done|]. exfalso.
  apply Z.divide_pos_le in Hd; [|lia]. assert (Z.of_nat (m - n) < 2 ^ Z.of_nat k); [|lia].
  replace (2 ^ Z.of_nat k) with (Z.of_nat (2 ^ k)) by (rewrite Nat2Z.inj_pow; done). lia.
Qed.
End lcg.

Lemma lor_1_odd x : (Z.lor x 1) `mod` 2 = 1.
Proof.
  pose proof (Z.bit0_mod (Z.lor x 1)) as H. rewrite Z.lor_spec in H. cbn in H.
  rewrite orb_true_r in H. cbn in H. lia.
Qed.

Lemma mod_mod_pow2 x k w : 0 <= k <= w -> (x `mod` 2 ^ w) `mod` 2 ^ k = x `mod` 2 ^ k.
Proof.
  intros Hk. apply Z.mod_mod_divide.
  exists (2 ^ (w - k)). rewrite <- Z.pow_add_r by lia. f_equal. lia.
Qed.

Lemma probe_lcg n orig k :
  0 <= k <= 32 -> (probe n orig) `mod` 2 ^ k = (lcg 1103515245 (Z.lor orig 1) n orig) `mod` 2 ^ k.
Proof.
  intros Hk. induction n as [|n IH]; [done|]. cbn [probe lcg]. unfold get_next_hash_in_chain, wrap.
  rewrite Zplus_mod_idemp_l, mod_mod_pow2 by done.
  rewrite (Z.add_mod (probe n orig * _)), (Z.mul_mod (probe n orig)), IH by lia.
  rewrite <- Z.mul_mod, <- Z.add_mod by lia. done.
Qed.

Section coverage.
Context (k : nat) (Hk : (k <= 32)%nat).
Abbreviation cap := (2 ^ Z.of_nat k).

Lemma slot_mod h : slot cap h = Z.to_nat (h `mod` cap).
Proof.
  unfold slot. replace (cap - 1) with (Z.ones (Z.of_nat k)) by (rewrite Z.ones_equiv; lia).
  by rewrite Z.land_ones by lia.
Qed.

Lemma slot_lt h : (slot cap h < 2 ^ k)%nat.
Proof.
  rewrite slot_mod. pose proof (Z.mod_pos_bound h cap ltac:(lia)).
  assert (cap = Z.of_nat (2 ^ k)) by (rewrite Nat2Z.inj_pow; done). lia.
Qed.

Lemma slot_injective orig n m :
  (n < 2 ^ k)%nat -> (m < 2 ^ k)%nat -> slot cap (probe n orig) = slot cap (probe m orig) -> n = m.
Proof.
  intros Hn Hm He. rewrite !slot_mod, !probe_lcg in He by lia.
  apply (lcg_injective 1103515245 (Z.lor orig 1) eq_refl (lor_1_odd orig) k n m orig Hn Hm).
  pose proof (Z.mod_pos_bound (lcg 1103515245 (Z.lor orig 1) n orig) cap ltac:(lia)).
  pose proof (Z.mod_pos_bound (lcg 1103515245 (Z.lor orig 1) m orig) cap ltac:(lia)). lia.
Qed.

(** Every bucket is reached within as many probes as there are buckets. *)
Lemma slot_covers orig i : (i < 2 ^ k)%nat -> exists n, (n < 2 ^ k)%nat /\ slot cap (probe n orig) = i.
Proof.
  intros Hi. set (f := fun n => slot cap (probe n orig)).
  assert (Hnd : List.NoDup (map f (seq 0 (2 ^ k)))).
  { apply NoDup_ListNoDup, NoDup_fmap_2_strong; [|apply NoDup_seq].
    intros n m Hn Hm He. rewrite elem_of_seq in *. apply (slot_injective orig); [lia|lia|done]. }
  assert (Hincl : incl (seq 0 (2 ^ k)) (map f (seq 0 (2 ^ k)))).
  { apply NoDup_length_incl; [done|by rewrite length_map|].
    intros x (n & <- & _)%in_map_iff. apply in_seq. pose proof (slot_lt (probe n orig)). unfold f. lia. }
  specialize (Hincl i ltac:(apply in_seq; lia)). apply in_map_iff in Hincl as (n & Hn & Hin).
  apply in_seq in Hin. exists n. split; [lia|done].
Qed.
End coverage.

Module HashSet.

Inductive bstate : Type := UNUSED | USED | REMOVED.

#[export] Instance bstate_eq_dec : EqDecision bstate.
Proof. solve_decision. Defined.

Section defs.
Context {T : Type} (HASH : T -> Z) (COMP : T -> T -> bool).

(** ** Definitions *)

(** [element] is meaningful in used buckets only. *)
Record bucket : Type := mk_bucket {
  element : option T;
  b_hash : Z;
  b_state : bstate;
  chain_start : bool
}.

Definition zero_bucket : bucket := mk_bucket None 0 UNUSED false.

Record t : Type := mk { m_buckets : list bucket; m_capacity : Z; m_size : Z; m_removed : Z }.

Definition empty_set : t := mk [] 0 0 0.

Definition should_rehash_with_size (s : t) (size : Z) : bool :=
  if m_capacity s <? 16 then true else m_capacity s / 4 * 3 <? size + m_removed s.

(** Whether the used bucket [b] holds [value]. *)
Definition bucket_holds {U} (COMP : T -> U -> bool) (b : bucket) (value : U) (orig_hash : Z) : bool :=
  match b_state b, element b with
  | USED, Some x => (b_hash b =? orig_hash) && COMP x value
  | _, _ => false
  end.

(** The loop of [find_impl]: the index of the bucket, [None] for [end()]. *)
Fixpoint find_loop {U} (COMP : T -> U -> bool) (fuel : nat) (s : t) (value : U) (orig_hash hash : Z) (first : bool) : outcome (option nat) :=
  match fuel with
  | O => Panic
  | S fuel' =>
      let i := slot (m_capacity s) hash in
      match m_buckets s !! i with
      | None => Panic
      | Some b =>
          if bucket_holds COMP b value orig_hash then Ok (Some i)
          else if decide (b_state b = UNUSED) then Ok None
          else if negb first && chain_start b then Ok None
          else find_loop COMP fuel' s value orig_hash (get_next_hash_in_chain hash orig_hash) false
      end
  end.

(** The functions that look a value up take any type [U] that hashes and
    compares with the elements. *)
Definition find {U} (HASH : U -> Z) (COMP : T -> U -> bool) (s : t) (value : U) : outcome (option nat) :=
  if m_capacity s =? 0 then Ok None
  else find_loop COMP (Z.to_nat (m_capacity s)) s value (HASH value) (HASH value) true.

Definition contains {U} (HASH : U -> Z) (COMP : T -> U -> bool) (s : t) (value : U) : outcome bool :=
  let* r := find HASH COMP s value in Ok (match r with Some _ => true | None => false end).

Definition clear_chain_start (b : bucket) : bucket := mk_bucket (element b) (b_hash b) (b_state b) false.

(** The loop of [insert_impl]: the buckets with their flags updated, the
    target, and the value of [first]. *)
Fixpoint insert_loop (fuel : nat) (capacity : Z) (bs : list bucket) (value : T) (orig_hash hash : Z)
  (first : bool) (target : option nat) : outcome (list bucket * nat * bool) :=
  match fuel with
  | O => Panic
  | S fuel' =>
      let i := slot capacity hash in
      match bs !! i with
      | None => Panic
      | Some b =>
          let bs := if first then bs else <[i := clear_chain_start b]> bs in
          let continue target :=
            insert_loop fuel' capacity bs value orig_hash (get_next_hash_in_chain hash orig_hash) false target in
          match b_state b with
          | USED => if bucket_holds COMP b value orig_hash then Ok (bs, i, first) else continue target
          | UNUSED => Ok (bs, match target with None => i | Some j => j end, first)
          | REMOVED => continue (match target with None => Some i | Some j => Some j end)
          end
      end
  end.

(** The new set and the index of the element. *)
Definition insert_impl (s : t) (value : T) (orig_hash : Z) : outcome (t * nat) :=
  ASSERT (negb (should_rehash_with_size s (m_size s + 1))) in
  let* (bs, target, first) :=
    insert_loop (Z.to_nat (m_capacity s)) (m_capacity s) (m_buckets s) value orig_hash orig_hash true None in
  match bs !! target with
  | None => Panic
  | Some b =>
      let '(size, removed) :=
        match b_state b with
        | USED => (m_size s, m_removed s)
        | REMOVED => (m_size s + 1, m_removed s - 1)
        | UNUSED => (m_size s + 1, m_removed s)
        end in
      let b' := mk_bucket (Some value) orig_hash USED (first && bool_decide (b_state b = UNUSED)) in
      Ok (mk (<[target := b']> bs) (m_capacity s) size removed, target)
  end.

(** The loop of [rehash] over the old buckets. *)
Fixpoint reinsert (old : list bucket) (s : t) : outcome t :=
  match old with
  | [] => Ok s
  | b :: old' =>
      match b_state b, element b with
      | USED, Some x => let* (s, _) := insert_impl s x (b_hash b) in reinsert old' s
      | USED, None => Panic
      | _, _ => reinsert old' s
      end
  end.

(** [allocated] is whether the allocator found memory. *)
Definition rehash (allocated : bool) (s : t) (new_capacity : Z) : outcome t :=
  let new_capacity := Math.max 16 (Math.max new_capacity (u64 (m_size s + 1))) in
  let new_capacity := Math.round_up_to_power_of_two new_capacity in
  if negb allocated then Err ENOMEM
  else reinsert (m_buckets s) (mk (replicate (Z.to_nat new_capacity) zero_bucket) new_capacity 0 0).

Definition reserve (allocated : bool) (s : t) (size : Z) : outcome t :=
  if should_rehash_with_size s size then rehash allocated s (u64 (size * 2)) else Ok s.

Definition insert (allocated : bool) (s : t) (value : T) : outcome (t * nat) :=
  let* s := if should_rehash_with_size s (m_size s + 1) then rehash allocated s (u64 (m_size s * 2)) else Ok s in
  insert_impl s value (HASH value).

(** [remove(iterator)] *)
Definition remove_at (s : t) (i : nat) : outcome t :=
  match m_buckets s !! i with
  | None => Panic
  | Some b =>
      Ok (mk (<[i := mk_bucket None (b_hash b) REMOVED (chain_start b)]> (m_buckets s)) (m_capacity s)
             (m_size s - 1) (m_removed s + 1))
  end.

Definition remove {U} (HASH : U -> Z) (COMP : T -> U -> bool) (s : t) (value : U) : outcome t :=
  let* r := find HASH COMP s value in
  match r with Some i => remove_at s i | None => Ok s end.

Definition clear (s : t) : t := empty_set.

Definition size (s : t) : Z := m_size s.
Definition capacity (s : t) : Z := m_capacity s.
Definition empty (s : t) : bool := m_size s =? 0.

(** The elements in the order of iteration. *)
Definition elements (s : t) : list T := omap (fun b => if decide (b_state b = USED) then element b else None) (m_buckets s).

(** The copy assignment: [MUST] stops the kernel when memory is short. *)
Fixpoint insert_all (l : list T) (s : t) : outcome t :=
  match l with [] => Ok s | x :: l' => let* (s, _) := insert true s x in insert_all l' s end.

Definition assign (other : t) : outcome t :=
  let* s := reserve true empty_set (m_size other) in insert_all (elements other) s.
End defs.
Arguments bucket : clear implicits.
Arguments t : clear implicits.

(** ** Counting buckets *)
Section count.
Context {T : Type}.
Implicit Types bs : list (bucket T).

Fixpoint count (st : bstate) bs : Z :=
  match bs with [] => 0 | b :: bs' => Z.b2z (bool_decide (b_state b = st)) + count st bs' end.

Lemma count_nonneg st bs : 0 <= count st bs.
Proof. induction bs as [|b bs IH]; cbn; [lia|]. destruct (bool_decide _); cbn; lia. Qed.

Lemma count_total bs : count USED bs + count REMOVED bs + count UNUSED bs = Z.of_nat (length bs).
Proof.
  induction bs as [|b bs IH]; [done|]. cbn [count length]. rewrite Nat2Z.inj_succ.
  destruct (b_state b); repeat case_bool_decide; try congruence; unfold Z.b2z; lia.
Qed.

Lemma count_insert st bs i b b' :
  bs !! i = Some b ->
  count st (<[i := b']> bs) = count st bs - Z.b2z (bool_decide (b_state b = st)) + Z.b2z (bool_decide (b_state b' = st)).
Proof.
  revert i. induction bs as [|x bs IH]; intros [|i] Hi; [done|done| |].
  - injection Hi as ->. change (<[0%nat := b']> (b :: bs)) with (b' :: bs). cbn [count]. lia.
  - change (<[S i := b']> (x :: bs)) with (x :: <[i := b']> bs). cbn [count]. rewrite (IH i) by done. lia.
Qed.

Lemma count_pos st bs : 0 < count st bs -> exists i b, bs !! i = Some b /\ b_state b = st.
Proof.
  induction bs as [|b bs IH]; cbn; [lia|]. intros H. destruct (decide (b_state b = st)) as [|Hne].
  - exists O, b. done.
  - rewrite bool_decide_false in H by done. destruct IH as (i & b' & Hi & ?); [cbn in H; lia|].
    exists (S i), b'. done.
Qed.

Lemma count_replicate st n : st <> UNUSED -> count st (replicate n zero_bucket) = 0.
Proof. intros Hst. induction n as [|n IH]; [done|]. cbn. rewrite bool_decide_false by done. cbn. lia. Qed.
End count.

Lemma count_ext {T} st (l l' : list (bucket T)) :
  b_state <$> l = b_state <$> l' -> count st l = count st l'.
Proof.
  revert l'. induction l as [|b l IH]; intros [|b' l'] He; try done.
  rewrite !fmap_cons in He. injection He as Hb Hl. cbn [count]. rewrite Hb. by rewrite (IH l').
Qed.

(** ** Invariant *)

(** What the table asks of its hash and comparison. *)
Class Hashable {T : Type} (HASH : T -> Z) (COMP : T -> T -> bool) : Prop := {
  hash_range : forall x, 0 <= HASH x < 2 ^ 32;
  comp_refl : forall x, COMP x x = true;
  comp_sym : forall x y, COMP x y = COMP y x;
  comp_trans : forall x y z, COMP x y = true -> COMP y z = true -> COMP x z = true;
  hash_comp : forall x y, COMP x y = true -> HASH x = HASH y
}.

Section proofs.
Context {T : Type} (HASH : T -> Z) (COMP : T -> T -> bool) `{Hashable T HASH COMP}.
Implicit Types s : t T.

(** The probes 0 to [n] of a stored element never meet an unused bucket, nor,
    past the first, a bucket marked as the start of a chain. *)
Definition chain_ok (cap : Z) (bs : list (bucket T)) (orig : Z) (n : nat) : Prop :=
  forall i, (i <= n)%nat -> exists b, bs !! slot cap (probe i orig) = Some b /\
    b_state b <> UNUSED /\ ((0 < i)%nat -> chain_start b = false).

Record table (k : nat) s : Prop := {
  tbl_k : (4 <= k <= 32)%nat;
  tbl_cap : m_capacity s = 2 ^ Z.of_nat k;
  tbl_len : length (m_buckets s) = (2 ^ k)%nat;
  tbl_size : m_size s = count USED (m_buckets s);
  tbl_removed : m_removed s = count REMOVED (m_buckets s);
  tbl_load : m_size s + m_removed s <= m_capacity s / 4 * 3;
  tbl_elem : forall i b, m_buckets s !! i = Some b -> b_state b = USED ->
    exists x n, element b = Some x /\ b_hash b = HASH x /\ (n < 2 ^ k)%nat /\
      slot (m_capacity s) (probe n (HASH x)) = i /\ chain_ok (m_capacity s) (m_buckets s) (HASH x) n;
  tbl_unique : forall i j bi bj x y, m_buckets s !! i = Some bi -> m_buckets s !! j = Some bj ->
    b_state bi = USED -> b_state bj = USED -> element bi = Some x -> element bj = Some y ->
    COMP x y = true -> i = j
}.

(** [x] is an element of the set. *)
Definition holds s (x : T) : Prop :=
  exists i b, m_buckets s !! i = Some b /\ b_state b = USED /\ element b = Some x.

Lemma bucket_holds_spec b v orig :
  bucket_holds COMP b v orig = true <->
  exists x, b_state b = USED /\ element b = Some x /\ b_hash b = orig /\ COMP x v = true.
Proof.
  unfold bucket_holds. destruct (b_state b), (element b) as [x|]; try (split; [done|]; intros (y & ? & ? & _); done).
  rewrite andb_true_iff, Z.eqb_eq. split; [|intros (y & _ & [= <-] & ?); done].
  intros [? ?]. by exists x.
Qed.

Section one_table.
Context (k : nat) s (Htbl : table k s).
Abbreviation cap := (m_capacity s).

Lemma bucket_lookup h : exists b, m_buckets s !! slot cap h = Some b.
Proof.
  apply lookup_lt_is_Some_2. rewrite (tbl_len k s Htbl), (tbl_cap k s Htbl).
  apply slot_lt, (tbl_k k s Htbl).
Qed.

Lemma cap_half : cap / 4 * 3 < cap /\ 16 <= cap.
Proof.
  rewrite (tbl_cap k s Htbl). destruct (tbl_k k s Htbl).
  assert (2 ^ 4 <= 2 ^ Z.of_nat k) by (apply Z.pow_le_mono_r; lia).
  pose proof (Z.div_mod (2 ^ Z.of_nat k) 4 ltac:(lia)). pose proof (Z.mod_pos_bound (2 ^ Z.of_nat k) 4 ltac:(lia)). lia.
Qed.

(** Every probe sequence meets an unused bucket. *)
Lemma unused_probe orig :
  exists n b, (n < 2 ^ k)%nat /\ m_buckets s !! slot cap (probe n orig) = Some b /\ b_state b = UNUSED.
Proof.
  pose proof (count_total (m_buckets s)) as Ht. pose proof (tbl_load k s Htbl). pose proof cap_half as [Hc _].
  rewrite (tbl_len k s Htbl), <- (tbl_size k s Htbl), <- (tbl_removed k s Htbl) in Ht.
  assert (Hcap : Z.of_nat (2 ^ k) = cap) by (rewrite Nat2Z.inj_pow, (tbl_cap k s Htbl); done).
  destruct (count_pos UNUSED (m_buckets s)) as (i & b & Hi & Hb); [lia|].
  assert (Hlt : (i < 2 ^ k)%nat) by (rewrite <- (tbl_len k s Htbl); by eapply lookup_lt_Some).
  destruct (slot_covers k (proj2 (tbl_k k s Htbl)) orig i Hlt) as (n & Hn & Hs).
  exists n, b. rewrite (tbl_cap k s Htbl), Hs. done.
Qed.

(** *** Searching *)
Definition stop (v : T) (orig : Z) (j : nat) : Prop :=
  match m_buckets s !! slot cap (probe j orig) with
  | Some b => bucket_holds COMP b v orig = true \/ b_state b = UNUSED \/ ((0 < j)%nat /\ chain_start b = true)
  | None => False
  end.

#[local] Instance stop_dec v orig j : Decision (stop v orig j).
Proof. unfold stop. destruct (m_buckets s !! _); solve_decision. Defined.

Lemma find_loop_spec v orig m fuel : forall n b,
  (n <= m < n + fuel)%nat -> m_buckets s !! slot cap (probe m orig) = Some b -> stop v orig m ->
  (forall j, (n <= j < m)%nat -> ~ stop v orig j) ->
  find_loop COMP fuel s v orig (probe n orig) (Nat.eqb n 0) =
    Ok (if bucket_holds COMP b v orig then Some (slot cap (probe m orig)) else None).
Proof.
  induction fuel as [|fuel IH]; intros n b Hn Hb Hstop Hno; [lia|]. cbn [find_loop].
  destruct (decide (n = m)) as [->|Hne].
  - rewrite Hb. unfold stop in Hstop. rewrite Hb in Hstop.
    destruct (bucket_holds COMP b v orig); [done|]. case_decide; [done|].
    destruct Hstop as [?|[?|[Hj ->]]]; [done|done|]. destruct m; [lia|done].
  - destruct (bucket_lookup (probe n orig)) as [b' Hb']. rewrite Hb'.
    assert (Hns : ~ stop v orig n) by (apply Hno; lia). unfold stop in Hns. rewrite Hb' in Hns.
    destruct (bucket_holds COMP b' v orig); [destruct Hns; by left|].
    case_decide; [destruct Hns; tauto|].
    destruct (negb (Nat.eqb n 0) && chain_start b') eqn:E.
    + apply andb_true_iff in E as [E1 E2]. zify_bool. destruct Hns. right. right. split; [lia|done].
    + apply (IH (S n)); [lia|done|done|]. intros j Hj. apply Hno. lia.
Qed.

Lemma find_table v :
  exists r, find HASH COMP s v = Ok r /\
  match r with
  | Some i => exists b x, m_buckets s !! i = Some b /\ b_state b = USED /\ element b = Some x /\ COMP x v = true
  | None => forall x, holds s x -> COMP x v = false
  end.
Proof.
  pose proof cap_half as [_ Hc]. unfold find. rewrite (proj2 (Z.eqb_neq _ _)) by lia.
  destruct (unused_probe (HASH v)) as (n0 & b0 & Hn0 & Hb0 & Hu0).
  destruct (least_index (stop v (HASH v)) n0) as (m & Hm & Hstop & Hno).
  { unfold stop. rewrite Hb0. tauto. }
  destruct (bucket_lookup (probe m (HASH v))) as [b Hb].
  assert (Hcn : Z.to_nat cap = (2 ^ k)%nat).
  { rewrite (tbl_cap k s Htbl). rewrite <- (Nat2Z.id (2 ^ k)), Nat2Z.inj_pow. done. }
  pose proof (find_loop_spec v (HASH v) m (Z.to_nat cap) 0 b ltac:(lia) Hb Hstop ltac:(intros; apply Hno; lia)) as Hf.
  cbn [probe Nat.eqb] in Hf. rewrite Hf. eexists. split; [done|].
  destruct (bucket_holds COMP b v (HASH v)) eqn:E.
  - apply bucket_holds_spec in E as (x & ? & ? & _ & ?). by exists b, x.
  - intros x (i & bx & Hi & Hux & Hex). apply not_true_iff_false. intros Hcomp.
    destruct (tbl_elem k s Htbl i bx Hi Hux) as (x' & n & Hx' & Hh & Hn & <- & Hch). simplify_eq.
    assert (Hhv : HASH x = HASH v) by (by apply hash_comp). rewrite Hhv in Hh, Hch.
    rewrite Hhv in Hi. assert (Hsn : stop v (HASH v) n).
    { unfold stop. rewrite Hi. left. apply bucket_holds_spec. by exists x. }
    assert (Hmn : (m <= n)%nat).
    { destruct (Nat.le_gt_cases m n); [done|]. by destruct (Hno n). }
    destruct (Hch m Hmn) as (b' & Hb' & Hnu & Hcs). unfold stop in Hstop. rewrite Hb in Hstop, Hb'. simplify_eq.
    destruct Hstop as [?|[?|[Hp Hcs']]]; [congruence|done|]. by rewrite Hcs in Hcs'.
Qed.

(** *** Inserting *)

(** Whether the insertion of a value stops at probe [j], on the old buckets. *)
Definition istop (v : T) (orig : Z) (j : nat) : Prop :=
  match m_buckets s !! slot cap (probe j orig) with
  | Some b => bucket_holds COMP b v orig = true \/ b_state b = UNUSED
  | None => False
  end.

#[local] Instance istop_dec v orig j : Decision (istop v orig j).
Proof. unfold istop. destruct (m_buckets s !! _); solve_decision. Defined.

(** Bucket [i] is probed at one of the steps 1 to [n]. *)
Definition visited (orig : Z) (n i : nat) : bool := existsb (fun j => Nat.eqb (slot cap (probe j orig)) i) (seq 1 n).

Lemma visited_spec orig n i :
  visited orig n i = true <-> exists j, (1 <= j <= n)%nat /\ slot cap (probe j orig) = i.
Proof.
  unfold visited. rewrite existsb_exists. split.
  - intros (j & Hj%in_seq & He). zify_bool. exists j. split; [lia|done].
  - intros (j & Hj & He). exists j. rewrite in_seq, Nat.eqb_eq. split; [lia|done].
Qed.

(** [bs] is the old table with the flags of the visited buckets cleared. *)
Definition flags (orig : Z) (n : nat) (bs : list (bucket T)) : Prop :=
  forall i, bs !! i = (fun b => if visited orig n i then clear_chain_start b else b) <$> m_buckets s !! i.

Lemma flags_step orig n bs b :
  flags orig n bs -> bs !! slot cap (probe (S n) orig) = Some b ->
  flags orig (S n) (<[slot cap (probe (S n) orig) := clear_chain_start b]> bs).
Proof.
  intros Hf Hb i. remember (slot cap (probe (S n) orig)) as i0 eqn:Hi0.
  assert (Hv : visited orig (S n) i = visited orig n i || Nat.eqb i0 i).
  { unfold visited. rewrite seq_S, existsb_app. cbn [existsb Nat.add]. by rewrite orb_false_r, Hi0. }
  rewrite Hv. clear Hv. destruct (decide (i = i0)) as [->|Hne].
  - rewrite Nat.eqb_refl, list_lookup_insert_eq by (by eapply lookup_lt_Some). rewrite orb_true_r.
    specialize (Hf i0). rewrite Hb in Hf. destruct (m_buckets s !! i0) as [b0|]; [|done]. cbn in *.
    simplify_eq. by destruct (visited _ _ _).
  - rewrite list_lookup_insert_ne, (proj2 (Nat.eqb_neq i0 i)), orb_false_r by done. apply Hf.
Qed.

(** The pending target at probe [n]. *)
Definition pending (orig : Z) (n : nat) (tgt : option nat) : Prop :=
  let used j := exists b, m_buckets s !! slot cap (probe j orig) = Some b /\ b_state b = USED in
  match tgt with
  | None => forall j, (j < n)%nat -> used j
  | Some i => exists j b, (j < n)%nat /\ slot cap (probe j orig) = i /\ m_buckets s !! i = Some b /\
      b_state b = REMOVED /\ forall j', (j' < j)%nat -> used j'
  end.

(** Where the insertion of [v], which stops at probe [m], puts it. *)
Definition lands (v : T) (orig : Z) (m tgt : nat) : Prop :=
  (tgt <= m)%nat /\ exists bm bt,
    m_buckets s !! slot cap (probe m orig) = Some bm /\ m_buckets s !! slot cap (probe tgt orig) = Some bt /\
    if bucket_holds COMP bm v orig then tgt = m
    else b_state bm = UNUSED /\ b_state bt <> USED /\
         forall j, (j < tgt)%nat -> exists b, m_buckets s !! slot cap (probe j orig) = Some b /\ b_state b = USED.

Lemma insert_loop_spec v orig m fuel : forall n bs tgt,
  (n <= m < n + fuel)%nat -> istop v orig m -> (forall j, (n <= j < m)%nat -> ~ istop v orig j) ->
  flags orig (n - 1) bs -> pending orig n tgt ->
  exists bs' t, insert_loop COMP fuel cap bs v orig (probe n orig) (Nat.eqb n 0) tgt =
      Ok (bs', slot cap (probe t orig), Nat.eqb m 0) /\ flags orig m bs' /\ lands v orig m t.
Proof.
  induction fuel as [|fuel IH]; intros n bs tgt Hn Hstop Hno Hfl Hpend; [lia|]. cbn [insert_loop].
  destruct (bucket_lookup (probe n orig)) as [b Hb].
  assert (Hbs : exists b', bs !! slot cap (probe n orig) = Some b' /\ b_state b' = b_state b /\
    element b' = element b /\ b_hash b' = b_hash b).
  { rewrite Hfl, Hb. cbn. eexists. split; [done|]. by destruct (visited _ _ _). }
  destruct Hbs as (b' & Hb' & Hst & Hel & Hh). rewrite Hb', Hst.
  assert (Hbh : bucket_holds COMP b' v orig = bucket_holds COMP b v orig)
    by (unfold bucket_holds; by rewrite Hst, Hel, Hh). rewrite Hbh.
  set (bs1 := if Nat.eqb n 0 then bs else <[slot cap (probe n orig) := clear_chain_start b']> bs).
  assert (Hf1 : flags orig n bs1).
  { subst bs1. destruct n as [|n]; [done|]. cbn [Nat.eqb]. apply flags_step; [|done].
    by replace (S n - 1)%nat with n in Hfl by lia. }
  assert (Hgo : n <> m -> forall tgt', pending orig (S n) tgt' ->
    exists bs' t, insert_loop COMP fuel cap bs1 v orig (get_next_hash_in_chain (probe n orig) orig) false tgt' =
      Ok (bs', slot cap (probe t orig), Nat.eqb m 0) /\ flags orig m bs' /\ lands v orig m t).
  { intros Hne tgt' Hp. apply (IH (S n)); [lia|done| | |done].
    - intros j Hj. apply Hno. lia.
    - by replace (S n - 1)%nat with n by lia. }
  assert (Hm : n = m <-> istop v orig n).
  { split; [by intros ->|]. intros Hi. destruct (decide (n = m)); [done|]. by destruct (Hno n ltac:(lia)). }
  unfold istop in Hm at 1. rewrite Hb in Hm. destruct (b_state b) eqn:Est.
  - (* UNUSED *)
    assert (Hnh : bucket_holds COMP b v orig = false) by (unfold bucket_holds; by rewrite Est).
    assert (n = m) as -> by tauto. destruct tgt as [i|].
    + destruct Hpend as (j & bj & Hj & <- & Hbj & Hrj & Hused). exists bs1, j. split_and!; [done|done|].
      split; [lia|]. exists b, bj. rewrite Hnh. split_and!; [done|done|done|congruence|done].
    + exists bs1, m. split_and!; [done|done|]. split; [lia|]. exists b, b. rewrite Hnh.
      split_and!; [done|done|done|congruence|done].
  - (* USED *)
    destruct (bucket_holds COMP b v orig) eqn:Ebh.
    + assert (n = m) as -> by tauto. exists bs1, m. split_and!; [done|done|]. split; [lia|].
      exists b, b. rewrite Ebh. done.
    + apply Hgo; [intros Hx; apply Hm in Hx as [?|?]; done|].
      destruct tgt as [i|]; cbn in *.
      * destruct Hpend as (j & bj & Hj & ?). exists j, bj. split; [lia|done].
      * intros j Hj. destruct (decide (j = n)) as [->|]; [by exists b|apply Hpend; lia].
  - (* REMOVED *)
    assert (Hnh : bucket_holds COMP b v orig = false) by (unfold bucket_holds; by rewrite Est).
    apply Hgo; [intros Hx; apply Hm in Hx as [?|?]; congruence|].
    destruct tgt as [i|]; cbn in *.
    + destruct Hpend as (j & bj & Hj & ?). exists j, bj. split; [lia|done].
    + exists n, b. split_and!; [lia|done|done|done|done].
Qed.

Lemma flags_states orig n bs : flags orig n bs -> b_state <$> bs = b_state <$> m_buckets s.
Proof.
  intros Hf. apply list_eq. intros i. rewrite !list_lookup_fmap, Hf.
  destruct (m_buckets s !! i) as [b|]; [|done]. cbn. by destruct (visited _ _ _).
Qed.

(** The table after the value landed. *)
Section insertion.
Context (v : T) (m t : nat) (bs' : list (bucket T)).
Context (Hroom : m_size s + 1 + m_removed s <= cap / 4 * 3).
Context (Hm : (m < 2 ^ k)%nat) (Hstop : istop v (HASH v) m).
Context (Hno : forall j, (j < m)%nat -> ~ istop v (HASH v) j).
Context (Hflags : flags (HASH v) m bs') (Hlands : lands v (HASH v) m t).
Abbreviation orig := (HASH v).
Abbreviation target := (slot cap (probe t orig)).
Context (bt : bucket T) (Hbt : m_buckets s !! target = Some bt).

Definition landed : bucket T := mk_bucket (Some v) orig USED (Nat.eqb m 0 && bool_decide (b_state bt = UNUSED)).
Definition after : list (bucket T) := <[target := landed]> bs'.

Lemma after_target : after !! target = Some landed.
Proof.
  apply list_lookup_insert_eq. apply lookup_lt_is_Some_1. rewrite Hflags, Hbt. by eexists.
Qed.

Lemma after_ne i b :
  i <> target -> after !! i = Some b <->
  exists b0, m_buckets s !! i = Some b0 /\ b = if visited orig m i then clear_chain_start b0 else b0.
Proof.
  intros Hi. unfold after. rewrite list_lookup_insert_ne, Hflags by done.
  destruct (m_buckets s !! i) as [b0|]; cbn; split.
  - intros [= <-]. by exists b0.
  - intros (b1 & [= <-] & ->). done.
  - done.
  - intros (b1 & ? & _). done.
Qed.

Lemma after_used i b x :
  after !! i = Some b -> b_state b = USED -> element b = Some x ->
  (i = target /\ x = v) \/
  (i <> target /\ exists b0, m_buckets s !! i = Some b0 /\ b_state b0 = USED /\ element b0 = Some x /\ b_hash b0 = b_hash b).
Proof.
  intros Hb Hu Hx. destruct (decide (i = target)) as [->|Hi].
  - left. rewrite after_target in Hb. injection Hb as <-. cbn in Hx. by simplify_eq.
  - right. split; [done|]. apply after_ne in Hb as (b0 & Hb0 & ->); [|done].
    exists b0. by destruct (visited _ _ _).
Qed.

(** The chains of the other elements are intact. *)
Lemma chain_after h n : chain_ok cap (m_buckets s) h n -> chain_ok cap after h n.
Proof.
  intros Hch i Hi. destruct (Hch i Hi) as (b & Hb & Hnu & Hcs).
  destruct (decide (slot cap (probe i h) = target)) as [He|Hne].
  - rewrite He in *. exists landed. rewrite after_target. split_and!; [done|done|].
    intros _. cbn. simplify_eq. rewrite bool_decide_false by done. apply andb_false_r.
  - eexists. rewrite after_ne by done. split; [by exists b|]. destruct (visited _ _ _); [by split_and!|done].
Qed.

(** The chain of the new element. *)
Lemma chain_landed : chain_ok cap after orig t.
Proof.
  destruct Hlands as [Htm _]. intros i Hi.
  destruct (decide (slot cap (probe i orig) = target)) as [He|Hne].
  - rewrite He. exists landed. rewrite after_target. split_and!; [done|done|]. intros Hp. cbn.
    by rewrite (proj2 (Nat.eqb_neq m 0)) by lia.
  - assert (Hlt : (i < t)%nat) by (destruct (decide (i = t)) as [->|]; [done|lia]).
    destruct (bucket_lookup (probe i orig)) as [b Hb].
    eexists. rewrite after_ne by done. split; [by exists b|].
    assert (Hns : ~ istop v orig i) by (apply Hno; lia). unfold istop in Hns. rewrite Hb in Hns. split.
    + destruct (visited _ _ _); cbn; tauto.
    + intros Hp. rewrite (proj2 (visited_spec _ _ _)); [done|]. exists i. split; [lia|done].
Qed.

(** An equal element can only be the one that is replaced. *)
Lemma replaced i b x :
  m_buckets s !! i = Some b -> b_state b = USED -> element b = Some x -> COMP x v = true -> i = target.
Proof.
  intros Hb Hu Hx Hc. destruct Hlands as (Htm & bm & bt' & Hbm & Hbt' & Hland).
  destruct (tbl_elem k s Htbl i b Hb Hu) as (x' & n & Hx' & Hh & Hn & Hsl & Hch). simplify_eq.
  assert (Hhv : HASH x = orig) by (by apply hash_comp). rewrite Hhv in *.
  assert (Hin : istop v orig n).
  { unfold istop. rewrite Hb. left. apply bucket_holds_spec. by exists x. }
  assert (Hmn : (m <= n)%nat) by (destruct (Nat.le_gt_cases m n); [done|by destruct (Hno n)]).
  destruct (Hch m Hmn) as (b' & Hb' & Hnu & _). simplify_eq.
  destruct (bucket_holds COMP bm v orig) eqn:E; [|tauto]. subst t.
  apply bucket_holds_spec in E as (y & Hy & Hey & _ & Hcy).
  eapply (tbl_unique k s Htbl); try done. apply (comp_trans _ v); [done|]. by rewrite comp_sym.
Qed.

Definition landed_size : Z * Z :=
  match b_state bt with
  | USED => (m_size s, m_removed s)
  | REMOVED => (m_size s + 1, m_removed s - 1)
  | UNUSED => (m_size s + 1, m_removed s)
  end.

Lemma after_table : table k (mk after cap (landed_size.1) (landed_size.2)).
Proof.
  assert (Hcnt : forall st, count st after =
    count st (m_buckets s) - Z.b2z (bool_decide (b_state bt = st)) + Z.b2z (bool_decide (USED = st))).
  { intros st. pose proof (Hflags target) as Hl. rewrite Hbt in Hl. unfold after. erewrite count_insert by exact Hl.
    rewrite (count_ext st bs' (m_buckets s)) by (by eapply flags_states). by destruct (visited _ _ _). }
  split; cbn [m_buckets m_capacity m_size m_removed].
  - apply (tbl_k k s Htbl).
  - apply (tbl_cap k s Htbl).
  - unfold after. rewrite length_insert, <- (length_fmap b_state), (flags_states _ _ _ Hflags), length_fmap.
    apply (tbl_len k s Htbl).
  - rewrite Hcnt. pose proof (tbl_size k s Htbl). unfold landed_size.
    destruct (b_state bt); repeat case_bool_decide; try congruence; cbn [fst snd Z.b2z]; lia.
  - rewrite Hcnt. pose proof (tbl_removed k s Htbl). unfold landed_size.
    destruct (b_state bt); repeat case_bool_decide; try congruence; cbn [fst snd Z.b2z]; lia.
  - unfold landed_size. destruct (b_state bt); cbn; lia.
  - intros i b Hb Hu. destruct (decide (i = target)) as [->|Hi].
    + rewrite after_target in Hb. simplify_eq. exists v, t. destruct Hlands as [Htm _].
      split_and!; [done|done|lia|done|apply chain_landed].
    + apply after_ne in Hb as (b0 & Hb0 & Hb); [|done].
      assert (Hu0 : b_state b0 = USED) by (destruct (visited _ _ _); by subst b).
      destruct (tbl_elem k s Htbl i b0 Hb0 Hu0) as (x & n & Hx & Hh & Hn & Hsl & Hch). exists x, n.
      split_and!; [by destruct (visited _ _ _); subst b|by destruct (visited _ _ _); subst b|done|done|by apply chain_after].
  - intros i j bi bj x y Hi Hj Hui Huj Hx Hy Hc.
    destruct (after_used i bi x Hi Hui Hx) as [[-> ->]|(Hni & b0 & Hb0 & Hu0 & He0 & _)],
      (after_used j bj y Hj Huj Hy) as [[-> ->]|(Hnj & b1 & Hb1 & Hu1 & He1 & _)].
    + done.
    + rewrite comp_sym in Hc. symmetry. by eapply replaced.
    + by eapply replaced.
    + by eapply (tbl_unique k s Htbl).
Qed.

Lemma after_holds y :
  holds (mk after cap (landed_size.1) (landed_size.2)) y <-> y = v \/ (holds s y /\ COMP y v = false).
Proof.
  split.
  - intros (i & b & Hb & Hu & Hx). destruct (after_used i b y Hb Hu Hx) as [[_ ->]|(Hi & b0 & Hb0 & Hu0 & He0 & _)];
      [by left|]. right. split; [by exists i, b0|].
    apply not_true_iff_false. intros Hc. apply Hi. by eapply replaced.
  - intros [->|[(i & b & Hb & Hu & Hx) Hc]]; [exists target, landed; split; [apply after_target|done]|].
    assert (Hi : i <> target).
    { intros ->. simplify_eq. destruct Hlands as (_ & bm & bt' & Hbm & Hbt' & Hland). simplify_eq.
      destruct (bucket_holds COMP bm v orig) eqn:E; [|tauto]. subst t. simplify_eq.
      apply bucket_holds_spec in E as (z & _ & Hz & _ & Hcz). simplify_eq. congruence. }
    exists i. eexists. cbn [m_buckets]. rewrite after_ne by done. split; [by exists b|]. by destruct (visited _ _ _).
Qed.
End insertion.

Lemma cap_nat : Z.to_nat cap = (2 ^ k)%nat.
Proof. rewrite (tbl_cap k s Htbl), <- (Nat2Z.id (2 ^ k)), Nat2Z.inj_pow. done. Qed.

Lemma insert_impl_table v :
  m_size s + 1 + m_removed s <= cap / 4 * 3 ->
  exists s' i b, insert_impl COMP s v (HASH v) = Ok (s', i) /\ table k s' /\ m_capacity s' = cap /\
    m_size s' + m_removed s' <= m_size s + m_removed s + 1 /\
    m_buckets s' !! i = Some b /\ b_state b = USED /\ element b = Some v /\
    forall y, holds s' y <-> y = v \/ (holds s y /\ COMP y v = false).
Proof.
  intros Hroom. pose proof cap_half as [_ Hc].
  destruct (unused_probe (HASH v)) as (n0 & b0 & Hn0 & Hb0 & Hu0).
  destruct (least_index (istop v (HASH v)) n0) as (m & Hm & Hstop & Hno).
  { unfold istop. rewrite Hb0. tauto. }
  destruct (insert_loop_spec v (HASH v) m (Z.to_nat cap) 0 (m_buckets s) None) as (bs' & t & Hloop & Hfl & Hland).
  { rewrite cap_nat. lia. }
  { done. }
  { intros j Hj. apply Hno. lia. }
  { intros i. cbn. by destruct (m_buckets s !! i). }
  { intros j Hj. lia. }
  destruct (bucket_lookup (probe t (HASH v))) as [bt Hbt]. pose proof (Hfl (slot cap (probe t (HASH v)))) as Hbt'.
  rewrite Hbt in Hbt'. cbn in Hbt'.
  exists (mk (after v m t bs' bt) cap (landed_size bt).1 (landed_size bt).2), (slot cap (probe t (HASH v))), (landed v m bt).
  split.
  { unfold insert_impl, should_rehash_with_size. rewrite (proj2 (Z.ltb_ge _ _)), (proj2 (Z.ltb_ge _ _)) by lia.
    cbn [probe Nat.eqb] in Hloop. cbn [negb]. rewrite Hloop. cbn. rewrite Hbt'.
    assert (Hst : b_state (if visited (HASH v) m (slot cap (probe t (HASH v))) then clear_chain_start bt else bt) =
      b_state bt) by (by destruct (visited _ _ _)).
    rewrite Hst. unfold after, landed, landed_size. by destruct (b_state bt). }
  split; [by apply after_table; try done; lia|]. split; [done|]. split.
  { unfold landed_size. destruct (b_state bt); cbn; lia. }
  split; [by apply after_target|]. split_and!; [done|done|]. by apply after_holds.
Qed.

(** *** Removing *)
Lemma remove_at_table i b v :
  m_buckets s !! i = Some b -> b_state b = USED -> element b = Some v ->
  exists s', remove_at s i = Ok s' /\ table k s' /\ forall y, holds s' y <-> holds s y /\ COMP y v = false.
Proof.
  intros Hb Hu Hv. unfold remove_at. rewrite Hb. eexists. split; [done|].
  set (r := mk_bucket None (b_hash b) REMOVED (chain_start b)).
  assert (Hlen : (i < length (m_buckets s))%nat) by (by eapply lookup_lt_Some).
  assert (Hch : forall h n, chain_ok cap (m_buckets s) h n -> chain_ok cap (<[i := r]> (m_buckets s)) h n).
  { intros h n Hch j Hj. destruct (Hch j Hj) as (bj & Hbj & Hnu & Hcs).
    destruct (decide (slot cap (probe j h) = i)) as [He|Hne].
    - rewrite He in *. simplify_eq. exists r. by rewrite list_lookup_insert_eq.
    - exists bj. by rewrite list_lookup_insert_ne. }
  assert (Hcases : forall j bj, <[i := r]> (m_buckets s) !! j = Some bj -> b_state bj = USED ->
    j <> i /\ m_buckets s !! j = Some bj).
  { intros j bj Hbj Huj. destruct (decide (j = i)) as [->|Hne].
    - rewrite list_lookup_insert_eq in Hbj by done. by simplify_eq.
    - by rewrite list_lookup_insert_ne in Hbj by done. }
  split.
  - destruct Htbl as [Hk Hcap Hl Hsz Hrm Hload Helem Huniq].
    split; cbn [m_buckets m_capacity m_size m_removed]; [done|done|by rewrite length_insert| | |lia| |].
    + rewrite (count_insert _ _ _ b), Hu by done. subst r. repeat case_bool_decide; try done; cbn [Z.b2z]; lia.
    + rewrite (count_insert _ _ _ b), Hu by done. subst r. repeat case_bool_decide; try done; cbn [Z.b2z]; lia.
    + intros j bj Hbj Huj. destruct (Hcases j bj Hbj Huj) as [_ Hj].
      destruct (Helem j bj Hj Huj) as (x & n & ? & ? & ? & ? & ?). exists x, n. by split_and!; try apply Hch.
    + intros j1 j2 b1 b2 x y Hj1 Hj2 Hu1 Hu2. destruct (Hcases _ _ Hj1 Hu1), (Hcases _ _ Hj2 Hu2). by eapply Huniq.
  - intros y. split.
    + intros (j & bj & Hbj & Huj & Hy). destruct (Hcases j bj Hbj Huj) as [Hne Hj].
      split; [by exists j, bj|]. apply not_true_iff_false. intros Hc. apply Hne. by eapply (tbl_unique k s Htbl).
    + intros [(j & bj & Hbj & Huj & Hy) Hc]. exists j, bj. cbn [m_buckets].
      rewrite list_lookup_insert_ne; [done|]. intros ->. simplify_eq. by rewrite comp_refl in Hc.
Qed.

Lemma remove_table v :
  exists s', remove HASH COMP s v = Ok s' /\ table k s' /\ forall y, holds s' y <-> holds s y /\ COMP y v = false.
Proof.
  unfold remove. destruct (find_table v) as (r & Hf & Hr). rewrite Hf. cbn. destruct r as [i|].
  - destruct Hr as (b & x & Hb & Hu & Hx & Hc).
    destruct (remove_at_table i b x Hb Hu Hx) as (s' & Hrm & Ht & Hh). exists s'. split_and!; [done|done|].
    intros y. rewrite Hh. split; intros [Hy Hyc]; (split; [done|]); apply not_true_iff_false; intros Hcc;
      apply not_true_iff_false in Hyc; apply Hyc; eapply comp_trans; try done; by rewrite comp_sym.
  - exists s. split_and!; [done|done|]. intros y. split; [|tauto]. intros Hy. split; [done|by apply Hr].
Qed.
End one_table.

(** *** Growing *)
Definition used_elements (bs : list (bucket T)) : list T :=
  omap (fun b => if decide (b_state b = USED) then element b else None) bs.

Lemma elem_of_used bs x :
  x ∈ used_elements bs <-> exists i b, bs !! i = Some b /\ b_state b = USED /\ element b = Some x.
Proof.
  unfold used_elements. rewrite list_elem_of_omap. split.
  - intros (b & (i & Hi)%list_elem_of_lookup & Hx). case_decide; [|done]. by exists i, b.
  - intros (i & b & Hi & Hu & Hx). exists b. split; [by eapply list_elem_of_lookup_2|]. by rewrite decide_True.
Qed.

Lemma elements_holds s x : x ∈ elements s <-> holds s x.
Proof. apply elem_of_used. Qed.

(** No two elements of a list are equal for [COMP]. *)
Fixpoint distinct (l : list T) : Prop :=
  match l with [] => True | x :: l' => (forall y, y ∈ l' -> COMP x y = false) /\ distinct l' end.

Lemma distinct_NoDup l : distinct l -> NoDup l.
Proof.
  induction l as [|x l IH]; [constructor|]. intros [Hx Hl]. constructor; [|auto].
  intros Hin. specialize (Hx x Hin). by rewrite comp_refl in Hx.
Qed.

Lemma used_distinct bs :
  (forall i j bi bj x y, bs !! i = Some bi -> bs !! j = Some bj -> b_state bi = USED -> b_state bj = USED ->
    element bi = Some x -> element bj = Some y -> COMP x y = true -> i = j) ->
  distinct (used_elements bs).
Proof.
  induction bs as [|b bs IH]; intros Hu; [done|].
  assert (Htl : distinct (used_elements bs)).
  { apply IH. intros i j bi bj x y Hi Hj U1 U2 E1 E2 Hc. by injection (Hu (S i) (S j) bi bj x y Hi Hj U1 U2 E1 E2 Hc). }
  unfold used_elements. cbn [omap list_omap]. case_decide as Hb; [|done]. destruct (element b) as [x|] eqn:Hx; [|done].
  split; [|done]. intros y (j & bj & Hj & Huj & Hy)%elem_of_used. apply not_true_iff_false. intros Hc.
  by specialize (Hu 0%nat (S j) b bj x y eq_refl Hj Hb Huj Hx Hy Hc).
Qed.

Lemma table_distinct k s : table k s -> distinct (elements s).
Proof. intros Ht. apply used_distinct. apply (tbl_unique k s Ht). Qed.

Lemma length_used bs : (forall i b, bs !! i = Some b -> b_state b = USED -> is_Some (element b)) ->
  Z.of_nat (length (used_elements bs)) = count USED bs.
Proof.
  induction bs as [|b bs IH]; intros He; [done|]. unfold used_elements. cbn [omap list_omap count].
  rewrite <- IH by (intros i b'; apply (He (S i))). case_decide as Hb.
  - destruct (He 0%nat b eq_refl Hb) as [x ->]. rewrite bool_decide_true by done. cbn [length Z.b2z].
    unfold used_elements. lia.
  - rewrite bool_decide_false by done. done.
Qed.

Lemma table_size k s : table k s -> m_size s = Z.of_nat (length (elements s)).
Proof.
  intros Ht. rewrite (tbl_size k s Ht). symmetry. apply length_used. intros i b Hb Hu.
  destruct (tbl_elem k s Ht i b Hb Hu) as (x & ? & -> & _). by eexists.
Qed.

Definition fresh (k : nat) : t T := mk (replicate (2 ^ k) zero_bucket) (2 ^ Z.of_nat k) 0 0.

Lemma fresh_lookup k i b : m_buckets (fresh k) !! i = Some b -> b = zero_bucket.
Proof. intros Hb. by apply lookup_replicate in Hb as [-> _]. Qed.

Lemma fresh_table k : (4 <= k <= 32)%nat -> table k (fresh k).
Proof.
  intros Hk. split; cbn [fresh m_buckets m_capacity m_size m_removed].
  - done.
  - done.
  - apply length_replicate.
  - by rewrite count_replicate.
  - by rewrite count_replicate.
  - pose proof (Z.div_pos (2 ^ Z.of_nat k) 4). lia.
  - intros i b Hb. apply (fresh_lookup k) in Hb. by subst b.
  - intros i j bi bj x y Hb. apply (fresh_lookup k) in Hb. by subst bi.
Qed.

Lemma reinsert_table k bs : forall s,
  table k s -> m_size s + m_removed s + count USED bs <= m_capacity s / 4 * 3 ->
  (forall i b, bs !! i = Some b -> b_state b = USED -> exists x, element b = Some x /\ b_hash b = HASH x) ->
  distinct (used_elements bs) -> (forall x y, x ∈ used_elements bs -> holds s y -> COMP y x = false) ->
  exists s', reinsert COMP bs s = Ok s' /\ table k s' /\ m_capacity s' = m_capacity s /\
    m_size s' + m_removed s' <= m_size s + m_removed s + count USED bs /\
    forall y, holds s' y <-> y ∈ used_elements bs \/ holds s y.
Proof.
  induction bs as [|b bs IH]; intros s Ht Hroom Helem Hdis Hnew.
  { exists s. split_and!; [done|done|done|cbn; lia|]. intros y. cbn. rewrite elem_of_nil. tauto. }
  assert (Helem' : forall i b', bs !! i = Some b' -> b_state b' = USED -> exists x, element b' = Some x /\ b_hash b' = HASH x)
    by (intros i; apply (Helem (S i))).
  unfold used_elements in Hdis, Hnew |- *. cbn [count omap list_omap reinsert] in *. pose proof (count_nonneg USED bs).
  case_decide as Hb.
  2:{ rewrite bool_decide_false in * by done. cbn [Z.b2z] in *.
      destruct (IH s Ht) as (s' & Hr & ? & ? & ? & ?); [lia|done|done|done|]. exists s'.
      split_and!; [by destruct (b_state b)|done|done|lia|done]. }
  rewrite bool_decide_true in * by done. cbn [Z.b2z] in *.
  destruct (Helem 0%nat b eq_refl Hb) as (x & Hx & Hh). rewrite Hb, Hx, Hh in *. destruct Hdis as [Hdx Hdis].
  destruct (insert_impl_table k s Ht x) as (s1 & i & b1 & Hi & Ht1 & Hc1 & Hs1 & _ & _ & _ & Hh1); [lia|].
  rewrite Hi. destruct (IH s1 Ht1) as (s' & Hr & Ht' & Hc' & Hs' & Hh').
  { rewrite Hc1. lia. }
  { done. }
  { done. }
  { intros z y Hz [->|[Hy _]]%Hh1; [by apply Hdx|]. apply Hnew; [by right|done]. }
  exists s'. split_and!; [done|done|congruence|lia|]. intros y. rewrite Hh', Hh1, elem_of_cons. split; [tauto|].
  intros [[->|Hy]|Hy]; [tauto|tauto|]. right. right. split; [done|]. apply Hnew; [by left|done].
Qed.

(** *** The whole set *)
Definition wf s : Prop := s = empty_set \/ exists k, table k s.

Lemma round_up_table_size x :
  16 <= x <= 2 ^ 32 -> exists k, (4 <= k <= 32)%nat /\ Math.round_up_to_power_of_two x = 2 ^ Z.of_nat k /\ x <= 2 ^ Z.of_nat k.
Proof.
  intros Hx. exists (Z.to_nat (Z.log2 (x - 1) + 1)). pose proof (Z.log2_spec (x - 1) ltac:(lia)) as [_ Hl].
  assert (3 <= Z.log2 (x - 1)) by (change 3 with (Z.log2 15); apply Z.log2_le_mono; lia).
  assert (Z.log2 (x - 1) < 32) by (apply Z.log2_lt_pow2; lia).
  assert (2 ^ (Z.log2 (x - 1) + 1) <= 2 ^ 32) by (apply Z.pow_le_mono_r; lia). pose proof (Z.pow_pos_nonneg 2 (Z.log2 (x - 1) + 1)).
  rewrite Z2Nat.id, Math.round_up_to_power_of_two_log2, wrap_id by lia. split_and!; [lia|lia|done|].
  unfold Z.succ in Hl. lia.
Qed.

Lemma wf_size s : wf s -> m_size s = Z.of_nat (length (elements s)) /\ 0 <= m_removed s /\ distinct (elements s).
Proof.
  intros [->|[k Ht]]; [done|]. split; [by eapply table_size|]. split; [|by eapply table_distinct].
  rewrite (tbl_removed k s Ht). apply count_nonneg.
Qed.

Lemma rehash_wf s n :
  wf s -> 2 * m_size s <= n <= 2 ^ 31 ->
  exists s' k, rehash COMP true s n = Ok s' /\ table k s' /\ n <= m_capacity s' /\
    m_size s' + m_removed s' <= m_size s /\ forall y, holds s' y <-> holds s y.
Proof.
  intros Hwf Hn. destruct (wf_size s Hwf) as (Hsz & _ & Hdis).
  set (c := Z.max 16 (Z.max n (m_size s + 1))).
  destruct (round_up_table_size c) as (k & Hk & Hrk & Hck); [subst c; lia|].
  assert (Hcap : (2 ^ Z.of_nat k) / 4 * 3 >= m_size s).
  { pose proof (Z.div_mod (2 ^ Z.of_nat k) 4 ltac:(lia)). pose proof (Z.mod_pos_bound (2 ^ Z.of_nat k) 4 ltac:(lia)). lia. }
  assert (Hb : m_size s = count USED (m_buckets s) /\ forall i b, m_buckets s !! i = Some b -> b_state b = USED ->
    exists x, element b = Some x /\ b_hash b = HASH x).
  { destruct Hwf as [->|[k' Ht]]; [done|]. split; [apply (tbl_size k' s Ht)|]. intros i b Hi Hu.
    destruct (tbl_elem k' s Ht i b Hi Hu) as (x & _ & ? & ? & _). by exists x. }
  destruct Hb as [Hcnt Hel].
  destruct (reinsert_table k (m_buckets s) (fresh k) (fresh_table k Hk)) as (s' & Hr & Ht' & Hc' & Hs' & Hh').
  { cbn [fresh m_size m_removed m_capacity]. lia. }
  { done. }
  { done. }
  { intros x y _ (i & b & Hi & Hu & _). apply (fresh_lookup k) in Hi. by subst b. }
  exists s', k. split_and!; [|done|rewrite Hc'; cbn; lia|cbn in Hs'; lia|].
  - unfold rehash. cbn [negb]. rewrite <- Hr. unfold fresh.
    replace (Math.max 16 (Math.max n (u64 (m_size s + 1)))) with c.
    + rewrite Hrk. replace (Z.to_nat (2 ^ Z.of_nat k)) with (2 ^ k)%nat; [done|].
      by rewrite <- (Nat2Z.id (2 ^ k)), Nat2Z.inj_pow.
    + rewrite !Math.max_spec. unfold c, wrap. by rewrite Z.mod_small by lia.
  - intros y. rewrite Hh', elem_of_used. split; [|by left]. intros [?|(i & b & Hi & Hu & _)]; [done|].
    apply (fresh_lookup k) in Hi. by subst b.
Qed.

Lemma should_rehash_false s n : wf s -> should_rehash_with_size s n = false ->
  exists k, table k s /\ n + m_removed s <= m_capacity s / 4 * 3.
Proof.
  unfold should_rehash_with_size. intros [->|[k Ht]] Hs; [done|]. exists k. split; [done|].
  destruct (m_capacity s <? 16); [done|]. zify_bool. lia.
Qed.

Lemma should_rehash_true s n : wf s -> should_rehash_with_size s n = true -> 0 <= n -> m_size s <= n.
Proof.
  unfold should_rehash_with_size. intros [->|[k Ht]] Hs Hn; [done|].
  pose proof (cap_half k s Ht). pose proof (tbl_load k s Ht).
  rewrite (proj2 (Z.ltb_ge _ _)) in Hs by lia. zify_bool. lia.
Qed.

Lemma insert_wf s v :
  wf s -> m_size s < 2 ^ 30 ->
  exists s' i b, insert HASH COMP true s v = Ok (s', i) /\ wf s' /\
    m_buckets s' !! i = Some b /\ b_state b = USED /\ element b = Some v /\
    forall y, holds s' y <-> y = v \/ (holds s y /\ COMP y v = false).
Proof.
  intros Hwf Hsz. destruct (wf_size s Hwf) as (Hlen & _ & _).
  assert (Hgo : forall s1 k, table k s1 -> m_size s1 + 1 + m_removed s1 <= m_capacity s1 / 4 * 3 ->
    (forall y, holds s1 y <-> holds s y) -> exists s' i b, insert_impl COMP s1 v (HASH v) = Ok (s', i) /\ wf s' /\
    m_buckets s' !! i = Some b /\ b_state b = USED /\ element b = Some v /\
    forall y, holds s' y <-> y = v \/ (holds s y /\ COMP y v = false)).
  { intros s1 k Ht Hroom Hh. destruct (insert_impl_table k s1 Ht v Hroom) as (s' & i & b & Hi & Ht' & _ & _ & Hb & Hu & He & Hh').
    exists s', i, b. split_and!; [done|by right; exists k|done|done|done|]. intros y. rewrite Hh'. by rewrite Hh. }
  unfold insert. destruct (should_rehash_with_size s (m_size s + 1)) eqn:E.
  - destruct (rehash_wf s (m_size s * 2) Hwf ltac:(lia)) as (s1 & k & Hr & Ht & Hc & Hs1 & Hh).
    unfold wrap. rewrite Z.mod_small, Hr by lia. apply (Hgo s1 k Ht); [|done].
    pose proof (cap_half k s1 Ht). rewrite (tbl_cap k s1 Ht) in *. destruct (tbl_k k s1 Ht) as [Hk _].
    assert (Hd : (2 ^ Z.of_nat k) `mod` 4 = 0).
    { apply Z.mod_divide; [lia|]. exists (2 ^ (Z.of_nat k - 2)). change 4 with (2 ^ 2). rewrite <- Z.pow_add_r by lia. f_equal. lia. }
    pose proof (Z.div_mod (2 ^ Z.of_nat k) 4 ltac:(lia)). lia.
  - destruct (should_rehash_false _ _ Hwf E) as (k & Ht & Hroom). apply (Hgo s k Ht); [lia|done].
Qed.

Lemma remove_wf s v :
  wf s -> exists s', remove HASH COMP s v = Ok s' /\ wf s' /\ forall y, holds s' y <-> holds s y /\ COMP y v = false.
Proof.
  intros [->|[k Ht]].
  - exists empty_set. split; [done|]. split; [by left|]. intros y. split; [|tauto]. intros (i & b & Hi & _). done.
  - destruct (remove_table k s Ht v) as (s' & Hr & Ht' & Hh). exists s'. split_and!; [done|by right; exists k|done].
Qed.

Lemma reserve_wf s n :
  wf s -> 0 <= n < 2 ^ 30 -> exists s', reserve COMP true s n = Ok s' /\ wf s' /\ forall y, holds s' y <-> holds s y.
Proof.
  intros Hwf Hn. unfold reserve. destruct (should_rehash_with_size s n) eqn:E; [|by exists s].
  pose proof (should_rehash_true s n Hwf E ltac:(lia)).
  destruct (rehash_wf s (n * 2) Hwf ltac:(lia)) as (s1 & k & Hr & Ht & _ & _ & Hh). exists s1.
  unfold wrap. rewrite Z.mod_small by lia. split_and!; [done|by right; exists k|done].
Qed.

Lemma find_wf s v :
  wf s -> exists r, find HASH COMP s v = Ok r /\
  match r with
  | Some i => exists b x, m_buckets s !! i = Some b /\ b_state b = USED /\ element b = Some x /\ COMP x v = true
  | None => forall x, holds s x -> COMP x v = false
  end.
Proof.
  intros [->|[k Ht]]; [|by apply (find_table k)]. exists None. split; [done|]. intros x (i & b & Hi & _). done.
Qed.

(** Replacing an element by an equal one, in place. *)
Lemma replace_at_wf s i b x x' :
  wf s -> m_buckets s !! i = Some b -> b_state b = USED -> element b = Some x -> COMP x x' = true ->
  let s' := mk (<[i := mk_bucket (Some x') (b_hash b) (b_state b) (chain_start b)]> (m_buckets s)) (m_capacity s) (m_size s) (m_removed s) in
  wf s' /\ forall y, holds s' y <-> y = x' \/ (holds s y /\ COMP y x = false).
Proof.
  intros [->|[k Ht]] Hb Hu Hx Hc; [done|]. set (r := mk_bucket (Some x') (b_hash b) (b_state b) (chain_start b)).
  assert (Hlen : (i < length (m_buckets s))%nat) by (by eapply lookup_lt_Some).
  assert (Hcases : forall j bj, <[i := r]> (m_buckets s) !! j = Some bj -> (j = i /\ bj = r) \/ (j <> i /\ m_buckets s !! j = Some bj)).
  { intros j bj Hbj. destruct (decide (j = i)) as [->|Hne].
    - rewrite list_lookup_insert_eq in Hbj by done. simplify_eq. by left.
    - rewrite list_lookup_insert_ne in Hbj by done. by right. }
  assert (Hch : forall h n, chain_ok (m_capacity s) (m_buckets s) h n -> chain_ok (m_capacity s) (<[i := r]> (m_buckets s)) h n).
  { intros h n Hch j Hj. destruct (Hch j Hj) as (bj & Hbj & Hnu & Hcs).
    destruct (decide (slot (m_capacity s) (probe j h) = i)) as [He|Hne].
    - rewrite He in *. simplify_eq. exists r. by rewrite list_lookup_insert_eq.
    - exists bj. by rewrite list_lookup_insert_ne. }
  assert (Hxx : forall z, COMP x' z = COMP x z).
  { intros z. apply eq_true_iff_eq. split; intros Hz; eapply comp_trans; try done. by rewrite comp_sym. }
  split.
  - right. exists k. destruct Ht as [Hk Hcap Hl Hsz Hrm Hload Helem Huniq].
    split; cbn [m_buckets m_capacity m_size m_removed]; [done|done|by rewrite length_insert| | |done| |].
    + rewrite (count_insert _ _ _ b) by done. cbn [r b_state]. lia.
    + rewrite (count_insert _ _ _ b) by done. cbn [r b_state]. lia.
    + intros j bj Hbj Huj. destruct (Hcases j bj Hbj) as [[-> ->]|[_ Hj]].
      * destruct (Helem i b Hb Hu) as (y & n & ? & Hh & ? & ? & ?). simplify_eq.
        assert (HASH x = HASH x') as Hhh by (by apply hash_comp). exists x', n. rewrite <- Hhh. by split_and!; try apply Hch.
      * destruct (Helem j bj Hj Huj) as (y & n & ? & ? & ? & ? & ?). exists y, n. by split_and!; try apply Hch.
    + intros j1 j2 b1 b2 y z Hj1 Hj2 Hu1 Hu2 Hy Hz Hyz.
      destruct (Hcases _ _ Hj1) as [[-> ->]|[? ?]], (Hcases _ _ Hj2) as [[-> ->]|[? ?]]; [done| | |by eapply Huniq].
      * cbn in Hy. simplify_eq. rewrite Hxx in Hyz. by eapply Huniq.
      * cbn in Hz. simplify_eq. rewrite comp_sym, Hxx in Hyz. symmetry. by eapply Huniq.
  - intros y. split.
    + intros (j & bj & Hbj & Huj & Hy). destruct (Hcases j bj Hbj) as [[-> ->]|[Hne Hj]]; [left; cbn in Hy; congruence|].
      right. split; [by exists j, bj|]. apply not_true_iff_false. intros Hyx. apply Hne. by eapply (tbl_unique k s Ht).
    + intros [->|[(j & bj & Hbj & Huj & Hy) Hyx]].
      * exists i, r. cbn [m_buckets]. by rewrite list_lookup_insert_eq.
      * exists j, bj. cbn [m_buckets]. rewrite list_lookup_insert_ne; [done|]. intros ->. simplify_eq. by rewrite comp_refl in Hyx.
Qed.

(** Looking up with a key that compares like the element [v]. *)
Lemma find_like {U} (HASHU : U -> Z) (COMPU : T -> U -> bool) s v u :
  HASHU u = HASH v -> (forall x, COMPU x u = COMP x v) -> find HASHU COMPU s u = find HASH COMP s v.
Proof.
  intros Hh Hc. unfold find. rewrite Hh. destruct (m_capacity s =? 0); [done|].
  assert (Hb : forall b o, bucket_holds COMPU b u o = bucket_holds COMP b v o).
  { intros b o. unfold bucket_holds. destruct (b_state b), (element b); try done. by rewrite Hc. }
  enough (H' : forall fuel h first, find_loop COMPU fuel s u (HASH v) h first = find_loop COMP fuel s v (HASH v) h first) by apply H'.
  induction fuel as [|fuel IH]; intros h first; [done|]. cbn [find_loop].
  destruct (m_buckets s !! _) as [b|]; [|done]. rewrite Hb. repeat case_if; try done; apply IH.
Qed.

(** *** Refinement of a mathematical set *)
Inductive op : Type := Insert (v : T) | Remove (v : T) | Reserve (n : Z) | Clear.

Definition exec s (o : op) : outcome (t T) :=
  match o with
  | Insert v => let* (s, _) := insert HASH COMP true s v in Ok s
  | Remove v => remove HASH COMP s v
  | Reserve n => reserve COMP true s n
  | Clear => Ok (clear s)
  end.

Fixpoint exec_all s (ops : list op) : outcome (t T) :=
  match ops with [] => Ok s | o :: ops' => let* r := exec s o in exec_all r ops' end.

(** What the operations do to the elements. *)
Definition model (m : list T) (o : op) : list T :=
  match o with
  | Insert v => v :: filter (fun y => COMP y v = false) m
  | Remove v => filter (fun y => COMP y v = false) m
  | Reserve _ => m
  | Clear => []
  end.

Definition reserves_small (o : op) : Prop := match o with Reserve n => 0 <= n < 2 ^ 30 | _ => True end.

Definition represents s (m : list T) : Prop := wf s /\ NoDup m /\ forall y, holds s y <-> y ∈ m.

Lemma represents_perm s m : represents s m -> elements s ≡ₚ m /\ m_size s = Z.of_nat (length m).
Proof.
  intros (Hwf & Hnd & Hh). destruct (wf_size s Hwf) as (Hsz & _ & Hdis).
  assert (Hp : elements s ≡ₚ m).
  { apply NoDup_Permutation; [by apply distinct_NoDup|done|]. intros y. by rewrite elements_holds, Hh. }
  split; [done|]. by rewrite Hsz, Hp.
Qed.

Lemma exec_represents s m o :
  represents s m -> Z.of_nat (length m) < 2 ^ 30 -> reserves_small o ->
  exists s', exec s o = Ok s' /\ represents s' (model m o).
Proof.
  intros Hr Hlen Hres. destruct (represents_perm s m Hr) as [_ Hsz]. destruct Hr as (Hwf & Hnd & Hh).
  destruct o as [v|v|n|]; cbn [exec model].
  - destruct (insert_wf s v Hwf ltac:(lia)) as (s' & i & b & Hi & Hwf' & _ & _ & _ & Hh'). rewrite Hi. exists s'.
    split; [done|]. split_and!; [done| |].
    + constructor; [|by apply list.NoDup_filter]. rewrite list_elem_of_filter, comp_refl. intros [? _]. done.
    + intros y. rewrite Hh', elem_of_cons, list_elem_of_filter, Hh. tauto.
  - destruct (remove_wf s v Hwf) as (s' & Hi & Hwf' & Hh'). exists s'. split; [done|].
    split_and!; [done|by apply list.NoDup_filter|]. intros y. rewrite Hh', list_elem_of_filter, Hh. tauto.
  - destruct (reserve_wf s n Hwf Hres) as (s' & Hi & Hwf' & Hh'). exists s'. split; [done|].
    split_and!; [done|done|]. intros y. by rewrite Hh'.
  - exists empty_set. split; [done|]. split_and!; [by left|constructor|]. intros y. rewrite elem_of_nil.
    split; [|done]. intros (i & b & Hi & _). done.
Qed.

Lemma length_model m o : (length (model m o) <= S (length m))%nat.
Proof.
  destruct o as [v|v|n|]; cbn [model length]; [| |lia|lia].
  - pose proof (length_filter (fun y => COMP y v = false) m). lia.
  - pose proof (length_filter (fun y => COMP y v = false) m). lia.
Qed.

Lemma exec_all_represents ops : forall s m,
  represents s m -> Z.of_nat (length m + length ops) < 2 ^ 30 -> Forall reserves_small ops ->
  exists s', exec_all s ops = Ok s' /\ represents s' (foldl model m ops).
Proof.
  induction ops as [|o ops IH]; intros s m Hr Hlen Hres; [by exists s|]. inversion_clear Hres as [|? ? Ho Hres'].
  cbn [length] in Hlen. destruct (exec_represents s m o Hr ltac:(lia) Ho) as (s1 & Hs1 & Hr1).
  cbn [exec_all foldl]. rewrite Hs1. apply IH; [done| |done]. pose proof (length_model m o). lia.
Qed.

Lemma represents_contains s m v :
  represents s m -> contains HASH COMP s v = Ok (existsb (fun x => COMP x v) m).
Proof.
  intros (Hwf & _ & Hh). unfold contains. destruct (find_wf s v Hwf) as (r & -> & Hr). f_equal. symmetry.
  destruct r as [i|].
  - destruct Hr as (b & x & Hb & Hu & Hx & Hc). apply existsb_exists. exists x. split; [|done].
    apply list_elem_of_In, Hh. by exists i, b.
  - apply not_true_iff_false. intros (x & Hx & Hc)%existsb_exists. apply list_elem_of_In, Hh, Hr in Hx. congruence.
Qed.

Lemma represents_empty : represents empty_set [].
Proof. split; [by left|]. split; [constructor|]. intros y. rewrite elem_of_nil. split; [|done]. by intros (? & ? & ? & _). Qed.

(** C15: a hash set is a set.  Whatever sequence of insertions, removals,
    reservations and clears is run on an empty [HashSet], no assertion fails
    and no probe loop runs on for ever; afterwards iteration yields exactly the
    elements of the mathematical set, once each, [size] is their number and
    [contains] answers for every value whether an equal one is in the set. *)
Theorem hash_set_refines (ops : list op) (Hlen : Z.of_nat (length ops) < 2 ^ 30) (Hres : Forall reserves_small ops) :
  exists s, exec_all empty_set ops = Ok s /\ elements s ≡ₚ foldl model [] ops /\
    size s = Z.of_nat (length (foldl model [] ops)) /\
    forall v, contains HASH COMP s v = Ok (existsb (fun x => COMP x v) (foldl model [] ops)).
Proof.
  destruct (exec_all_represents ops empty_set [] represents_empty Hlen Hres) as (s & He & Hr).
  destruct (represents_perm s _ Hr). exists s. split_and!; [done|done|done|]. intros v. by apply represents_contains.
Qed.
End proofs.
Arguments op : clear implicits.

(** Integers with their equality. *)
#[global] Instance hashable_Z : Hashable (fun x => u32 x) Z.eqb.
Proof.
  split.
  - intros x. apply Z.mod_pos_bound. lia.
  - apply Z.eqb_refl.
  - apply Z.eqb_sym.
  - intros x y z ->%Z.eqb_eq. done.
  - by intros x y ->%Z.eqb_eq.
Qed.

Lemma hash_set_refines_witness :
  let ops := [Insert 5; Insert 21; Remove 5; Insert 37; Reserve 40; Insert 21] in
  exists s, exec_all (fun x => u32 x) Z.eqb empty_set ops = Ok s /\ elements s ≡ₚ [21; 37] /\ size s = 2 /\
    forall v, contains (fun x => u32 x) Z.eqb s v = Ok (existsb (fun x => Z.eqb x v) [21; 37]).
Proof.
  apply (hash_set_refines (fun x => u32 x) Z.eqb [Insert 5; Insert 21; Remove 5; Insert 37; Reserve 40; Insert 21]).
  - done.
  - repeat (apply list.Forall_cons; split); try apply list.Forall_nil; done.
Defined.
End HashSet.
