(* ===== verification/BanHashMap.v ===== *)
(** * BAN/HashMap: a hash set of entries compared by key

    The map is the set of [BanHashSet] at entries; its theorems are proved
    from those of the set for every hash and comparison of keys. *)
From S2P Require Import Prelude BanMath BanHashSet.

Module HashMap.
Section defs.
Context {K V : Type} (HASH : K -> Z) (COMP : K -> K -> bool).

Record Entry : Type := mk_entry { key : K; value : V }.

(** [EntryHash::operator()] returns [bool], so the hash of the key is
    converted to 0 or 1. *)
Definition key_hash (a : K) : Z := Z.b2z (negb (HASH a =? 0)).
Definition EntryHash (a : Entry) : Z := key_hash (key a).

Definition key_comp (a : Entry) (b : K) : bool := COMP (key a) b.
Definition EntryComp (a b : Entry) : bool := COMP (key a) (key b).

Abbreviation map := (HashSet.t Entry).

Definition find (m : map) (k : K) : outcome (option nat) := HashSet.find key_hash key_comp m k.

Definition contains (m : map) (k : K) : outcome bool := let* r := find m k in Ok (match r with Some _ => true | None => false end).

Definition emplace (allocated : bool) (m : map) (k : K) (v : V) : outcome (map * nat) :=
  let* c := contains m k in
  ASSERT (negb c) in
  HashSet.insert EntryHash EntryComp allocated m (mk_entry k v).

(** [it->value = v] *)
Definition set_value (m : map) (i : nat) (v : V) : outcome map :=
  match HashSet.m_buckets m !! i with
  | Some b =>
      match HashSet.element b with
      | Some e =>
          let b' := HashSet.mk_bucket (Some (mk_entry (key e) v)) (HashSet.b_hash b) (HashSet.b_state b) (HashSet.chain_start b) in
          Ok (HashSet.mk (<[i := b']> (HashSet.m_buckets m)) (HashSet.m_capacity m) (HashSet.m_size m) (HashSet.m_removed m))
      | None => Panic
      end
  | None => Panic
  end.

Definition emplace_or_assign (allocated : bool) (m : map) (k : K) (v : V) : outcome (map * nat) :=
  let* r := find m k in
  match r with
  | Some i => let* m := set_value m i v in Ok (m, i)
  | None => HashSet.insert EntryHash EntryComp allocated m (mk_entry k v)
  end.

Definition remove (m : map) (k : K) : outcome map :=
  let* r := find m k in
  match r with Some i => HashSet.remove_at m i | None => Ok m end.

(** The value under a key, if there is one. *)
Definition get (m : map) (k : K) : outcome (option V) :=
  let* r := find m k in
  match r with
  | None => Ok None
  | Some i => match HashSet.m_buckets m !! i ≫= HashSet.element with Some e => Ok (Some (value e)) | None => Panic end
  end.

(** [operator[]]: dereferencing the end of the map fails an assertion. *)
Definition at_key (m : map) (k : K) : outcome V :=
  let* r := get m k in match r with Some v => Ok v | None => Panic end.
End defs.
Arguments Entry : clear implicits.

Section proofs.
Context {K V : Type} (HASH : K -> Z) (COMP : K -> K -> bool) `{!HashSet.Hashable HASH COMP} `{!Inhabited V}.
Abbreviation map := (HashSet.t (Entry K V)).
Implicit Types m : map.

#[export] Instance entry_hashable : HashSet.Hashable (T:=Entry K V) (EntryHash HASH) (EntryComp COMP).
Proof.
  split.
  - intros x. unfold EntryHash, key_hash. destruct (negb _); cbn; lia.
  - intros x. unfold EntryComp. apply HashSet.comp_refl.
  - intros x y. unfold EntryComp. apply HashSet.comp_sym.
  - intros x y z. unfold EntryComp. apply HashSet.comp_trans.
  - intros x y Hc. unfold EntryHash, key_hash. by rewrite (HashSet.hash_comp (key x) (key y)).
Qed.

Abbreviation wf := (HashSet.wf (EntryHash HASH) (EntryComp COMP)).

Lemma find_entry m k v : find HASH COMP m k = HashSet.find (EntryHash HASH) (EntryComp COMP) m (mk_entry k v).
Proof. by apply HashSet.find_like. Qed.

(** Entry [e] is the one under [k]. *)
Lemma get_spec m k :
  wf m -> exists r, get HASH COMP m k = Ok r /\
  match r with
  | Some v => exists e, HashSet.holds m e /\ COMP (key e) k = true /\ value e = v
  | None => forall e, HashSet.holds m e -> COMP (key e) k = false
  end.
Proof.
  intros Hwf. unfold get. rewrite (find_entry m k inhabitant).
  destruct (HashSet.find_wf _ _ m (mk_entry k inhabitant) Hwf) as (r & -> & Hr). destruct r as [i|].
  - destruct Hr as (b & x & Hb & Hu & Hx & Hc). rewrite Hb. cbn. rewrite Hx. eexists. split; [done|].
    exists x. split_and!; [by exists i, b|done|done].
  - by exists None.
Qed.

Lemma holds_unique m e e' : wf m -> HashSet.holds m e -> HashSet.holds m e' -> COMP (key e) (key e') = true -> e = e'.
Proof.
  intros [->|[n Ht]] (i & b & Hi & Hu & He) (i' & b' & Hi' & Hu' & He') Hc; [done|].
  assert (i = i') as <- by (by eapply (HashSet.tbl_unique _ _ n m Ht)). congruence.
Qed.

(** The lookups of a map are determined by its entries. *)
Lemma get_eq m k r :
  wf m -> match r with
          | Some v => exists e, HashSet.holds m e /\ COMP (key e) k = true /\ value e = v
          | None => forall e, HashSet.holds m e -> COMP (key e) k = false
          end -> get HASH COMP m k = Ok r.
Proof.
  intros Hwf Hr. destruct (get_spec m k Hwf) as (r' & -> & Hr'). f_equal. destruct r as [v|], r' as [v'|]; [| | |done].
  - destruct Hr as (e & He & Hk & <-), Hr' as (e' & He' & Hk' & <-). do 2 f_equal. symmetry. apply (holds_unique m); [done|done|done|].
    apply (HashSet.comp_trans _ k); [done|]. by rewrite HashSet.comp_sym.
  - destruct Hr as (e & He & Hk & _). rewrite Hr' in Hk; done.
  - destruct Hr' as (e & He & Hk & _). rewrite Hr in Hk; done.
Qed.

(** The entries after the value of [k] became [v]. *)
Lemma get_updated m m' k v :
  wf m -> wf m' -> (forall y, HashSet.holds m' y -> COMP (key y) k = true -> value y = v) ->
  (exists e, HashSet.holds m' e /\ COMP (key e) k = true) ->
  (forall y, COMP (key y) k = false -> HashSet.holds m' y <-> HashSet.holds m y) ->
  forall k', get HASH COMP m' k' = if COMP k k' then Ok (Some v) else get HASH COMP m k'.
Proof.
  intros Hwf Hwf' Hv (e & He & Hek) Hrest k'. destruct (COMP k k') eqn:E.
  - apply get_eq; [done|]. exists e. split_and!; [done|by apply (HashSet.comp_trans _ k)|by apply Hv].
  - destruct (get_spec m k' Hwf) as (r & -> & Hr). apply get_eq; [done|].
    assert (Hne : forall y : Entry K V, COMP (key y) k' = true -> COMP (key y) k = false).
    { intros y Hy. apply not_true_iff_false. intros Hyk. apply not_true_iff_false in E. apply E.
      apply (HashSet.comp_trans _ (key y)); [by rewrite HashSet.comp_sym|done]. }
    destruct r as [w|].
    + destruct Hr as (e' & He' & Hk' & <-). exists e'. split_and!; [|done|done]. apply Hrest; [by apply Hne|done].
    + intros y Hy. apply not_true_iff_false. intros Hc. pose proof (Hne y Hc) as Hn.
      apply (Hrest y Hn), Hr in Hy. congruence.
Qed.

Lemma insert_entry m k v :
  wf m -> HashSet.m_size m < 2 ^ 30 ->
  exists m' i, HashSet.insert (EntryHash HASH) (EntryComp COMP) true m (mk_entry k v) = Ok (m', i) /\ wf m' /\
    forall k', get HASH COMP m' k' = if COMP k k' then Ok (Some v) else get HASH COMP m k'.
Proof.
  intros Hwf Hsz. destruct (HashSet.insert_wf _ _ m (mk_entry k v) Hwf Hsz) as (m' & i & b & Hi & Hwf' & _ & _ & _ & Hh).
  exists m', i. split_and!; [done|done|]. apply get_updated; [done|done| | |].
  - intros y Hy Hc. apply Hh in Hy as [->|[_ Hn]]; [done|]. unfold EntryComp in Hn. cbn in Hn. congruence.
  - exists (mk_entry k v). split; [apply Hh; by left|apply HashSet.comp_refl].
  - intros y Hy. rewrite Hh. split; [|by right]. intros [->|[? _]]; [|done]. cbn in Hy. by rewrite HashSet.comp_refl in Hy.
Qed.

Lemma set_value_entry m k v i :
  wf m -> find HASH COMP m k = Ok (Some i) ->
  exists m', set_value m i v = Ok m' /\ wf m' /\
    forall k', get HASH COMP m' k' = if COMP k k' then Ok (Some v) else get HASH COMP m k'.
Proof.
  intros Hwf Hf. rewrite (find_entry m k v) in Hf.
  destruct (HashSet.find_wf _ _ m (mk_entry k v) Hwf) as (r & Hf' & Hr). rewrite Hf in Hf'. injection Hf' as <-.
  destruct Hr as (b & x & Hb & Hu & Hx & Hc). unfold set_value. rewrite Hb, Hx. eexists. split; [done|].
  unfold EntryComp in Hc. cbn [key] in Hc.
  destruct (HashSet.replace_at_wf _ _ m i b x (mk_entry (key x) v) Hwf Hb Hu Hx) as [Hwf' Hh].
  { unfold EntryComp. cbn [key]. apply HashSet.comp_refl. }
  split; [done|]. apply get_updated; [done|done| | |].
  - intros y Hy Hyk. apply Hh in Hy as [->|[_ Hn]]; [done|]. unfold EntryComp in Hn.
    rewrite (HashSet.comp_trans _ k) in Hn; [done|done|by rewrite HashSet.comp_sym].
  - exists (mk_entry (key x) v). split; [apply Hh; by left|done].
  - intros y Hy. rewrite Hh. split.
    + intros [->|[? _]]; [|done]. cbn in Hy. congruence.
    + intros Hm. right. split; [done|]. unfold EntryComp. apply not_true_iff_false. intros Hyx.
      rewrite (HashSet.comp_trans _ (key x)) in Hy; done.
Qed.

Lemma remove_entry m k :
  wf m -> exists m', remove HASH COMP m k = Ok m' /\ wf m' /\
    forall k', get HASH COMP m' k' = if COMP k k' then Ok None else get HASH COMP m k'.
Proof.
  intros Hwf. destruct (HashSet.remove_wf _ _ m (mk_entry k inhabitant) Hwf) as (m' & Hr & Hwf' & Hh).
  unfold HashSet.remove in Hr. rewrite <- find_entry in Hr. exists m'. split_and!; [done|done|]. intros k'.
  unfold EntryComp in Hh. cbn [key] in Hh. destruct (COMP k k') eqn:E.
  - apply get_eq; [done|]. intros e [_ He]%Hh. apply not_true_iff_false. intros Hc.
    rewrite (HashSet.comp_trans _ k') in He; [done|done|by rewrite HashSet.comp_sym].
  - destruct (get_spec m k' Hwf) as (r & -> & Hg). apply get_eq; [done|]. destruct r as [w|].
    + destruct Hg as (e & He & Hek & <-). exists e. split_and!; [|done|done]. apply Hh. split; [done|].
      apply not_true_iff_false. intros Hc. rewrite (HashSet.comp_trans _ (key e)) in E; [done|by rewrite HashSet.comp_sym|done].
    + intros e [He _]%Hh. by apply Hg.
Qed.

(** a hash map maps.  On every well-formed map, [emplace_or_assign] gives
    the key its value and leaves the value of every other key as it was,
    [emplace] does the same when the key is not in the map and fails its
    assertion when it is, and [remove] takes the key out and nothing else;
    the results are well-formed again. *)
Theorem hash_map_laws (m : map) (k : K) (v : V) (Hwf : wf m) (Hsz : HashSet.size m < 2 ^ 30) :
  (exists m' i, emplace_or_assign HASH COMP true m k v = Ok (m', i) /\ wf m' /\
     forall k', get HASH COMP m' k' = if COMP k k' then Ok (Some v) else get HASH COMP m k') /\
  (match get HASH COMP m k with
   | Ok None => exists m' i, emplace HASH COMP true m k v = Ok (m', i) /\ wf m' /\
       forall k', get HASH COMP m' k' = if COMP k k' then Ok (Some v) else get HASH COMP m k'
   | _ => emplace HASH COMP true m k v = Panic
   end) /\
  (exists m', remove HASH COMP m k = Ok m' /\ wf m' /\
     forall k', get HASH COMP m' k' = if COMP k k' then Ok None else get HASH COMP m k').
Proof.
  destruct (insert_entry m k v Hwf Hsz) as (mi & ii & Hi & Hwfi & Hgi).
  assert (Hf : exists r, find HASH COMP m k = Ok r) by (rewrite (find_entry m k v);
    destruct (HashSet.find_wf _ _ m (mk_entry k v) Hwf) as (r & ? & _); by exists r).
  destruct Hf as [r Hf]. split; [|split; [|by apply remove_entry]].
  - unfold emplace_or_assign. rewrite Hf. destruct r as [i|]; [|by exists mi, ii].
    destruct (set_value_entry m k v i Hwf Hf) as (m' & -> & ? & ?). by exists m', i.
  - destruct (get_spec m k Hwf) as (g & Hg & _). unfold emplace, contains. rewrite Hg, Hf. unfold get in Hg. rewrite Hf in Hg.
    destruct r as [i|]; [|injection Hg as <-; by exists mi, ii].
    destruct g; [done|]. destruct (HashSet.m_buckets m !! i ≫= HashSet.element); discriminate.
Qed.
End proofs.

Definition sample : HashSet.t (Entry Z Z) :=
  match emplace_or_assign (fun x => u32 x) Z.eqb true HashSet.empty_set 7 70 with Ok (m, _) => m | _ => HashSet.empty_set end.

Lemma sample_wf : HashSet.wf (EntryHash (fun x => u32 x)) (EntryComp (V:=Z) Z.eqb) sample.
Proof.
  destruct (insert_entry (V:=Z) (fun x => u32 x) Z.eqb HashSet.empty_set 7 70) as (m & i & He & Hwf & _); [by left|done|].
  unfold sample, emplace_or_assign. cbn [find HashSet.find HashSet.empty_set HashSet.m_capacity Z.eqb]. by rewrite He.
Qed.

Lemma hash_map_laws_witness :
  (exists m' i, emplace_or_assign (fun x => u32 x) Z.eqb true sample 7 71 = Ok (m', i) /\
     HashSet.wf (EntryHash (fun x => u32 x)) (EntryComp Z.eqb) m' /\
     forall k', get (fun x => u32 x) Z.eqb m' k' = if Z.eqb 7 k' then Ok (Some 71) else get (fun x => u32 x) Z.eqb sample k') /\
  emplace (fun x => u32 x) Z.eqb true sample 7 71 = Panic.
Proof.
  destruct (hash_map_laws (fun x => u32 x) Z.eqb sample 7 71 sample_wf ltac:(vm_compute; reflexivity)) as (H1 & H2 & _).
  split; [exact H1|]. revert H2. vm_compute. trivial.
Defined.
End HashMap.
