(* ===== verification/Bitmap.v ===== *)
(** * Bitmaps stored in arrays of machine words

    The two page and chunk allocators of the kernel keep a bitmap in memory
    and address it as [words[j / w] & (1 << (j % w))].  This file gives these
    three accesses, with an access outside the array as [Panic], and the
    view of the array as a function from indices to bits, on which the
    allocators' theorems are stated. *)
From S2P Require Import Prelude.

(** ** Definitions *)
Definition bm_get (w : Z) (ws : list Z) (j : Z) : outcome bool :=
  match ws !! Z.to_nat (j / w) with
  | Some q => Ok (negb (Z.land q (Z.shiftl 1 (j `mod` w)) =? 0))
  | None => Panic
  end.

Definition bm_set (w : Z) (ws : list Z) (j : Z) : outcome (list Z) :=
  match ws !! Z.to_nat (j / w) with
  | Some q => Ok (<[Z.to_nat (j / w) := Z.lor q (Z.shiftl 1 (j `mod` w))]> ws)
  | None => Panic
  end.

Definition bm_clear (w : Z) (ws : list Z) (j : Z) : outcome (list Z) :=
  match ws !! Z.to_nat (j / w) with
  | Some q => Ok (<[Z.to_nat (j / w) := Z.land q (bnot w (Z.shiftl 1 (j `mod` w)))]> ws)
  | None => Panic
  end.

(** [for (j = j0; j < j0 + n; j++)] setting or clearing every bit. *)
Fixpoint bm_set_run (w : Z) (n : nat) (ws : list Z) (j : Z) : outcome (list Z) :=
  match n with
  | O => Ok ws
  | S n' => let* ws := bm_set w ws j in bm_set_run w n' ws (j + 1)
  end.

(** ** The bits of a bitmap *)
Definition bit (w : Z) (ws : list Z) (j : Z) : bool :=
  match ws !! Z.to_nat (j / w) with
  | Some q => Z.testbit q (j `mod` w)
  | None => false
  end.

(** Every word of the array fits its width. *)
Definition words_ok (w : Z) (ws : list Z) : Prop := Forall (fun q => 0 <= q < 2 ^ w) ws.

Section bits.
Context (w : Z) (Hw : 0 < w).
Implicit Types ws : list Z.

Lemma index_lookup ws j :
  0 <= j < w * Z.of_nat (length ws) -> exists q, ws !! Z.to_nat (j / w) = Some q.
Proof.
  intros Hj. apply lookup_lt_is_Some_2.
  assert (j / w < Z.of_nat (length ws)) by (apply Z.div_lt_upper_bound; lia).
  pose proof (Z.div_pos j w). lia.
Qed.

Lemma bm_get_ok ws j :
  0 <= j < w * Z.of_nat (length ws) -> bm_get w ws j = Ok (bit w ws j).
Proof.
  intros Hj. unfold bm_get, bit. destruct (index_lookup ws j Hj) as [q ->].
  by rewrite land_bit_testbit by (apply Z.mod_pos_bound; lia).
Qed.

(** Two indices share a word and a bit only if they are equal. *)
Lemma index_split j k :
  0 <= j -> 0 <= k -> Z.to_nat (j / w) = Z.to_nat (k / w) ->
  (j `mod` w =? k `mod` w) = (j =? k).
Proof.
  intros Hj Hk Hd. pose proof (Z.div_pos j w). pose proof (Z.div_pos k w).
  assert (Hq : j / w = k / w) by lia.
  destruct (Z.eqb_spec j k) as [->|Hne]; [apply Z.eqb_refl|].
  apply Z.eqb_neq. intros Hm. apply Hne.
  rewrite (Z.div_mod j w), (Z.div_mod k w), Hq, Hm by lia. done.
Qed.

Lemma bit_update ws j k q q' (f : bool -> bool) :
  ws !! Z.to_nat (j / w) = Some q -> 0 <= j -> 0 <= k ->
  (forall i, 0 <= i -> Z.testbit q' i = if i =? j `mod` w then f (Z.testbit q i) else Z.testbit q i) ->
  bit w (<[Z.to_nat (j / w) := q']> ws) k = if k =? j then f (bit w ws k) else bit w ws k.
Proof.
  intros Hq Hj Hk Hbits. unfold bit.
  destruct (decide (Z.to_nat (j / w) = Z.to_nat (k / w))) as [He|Hne].
  - rewrite <- He, list_lookup_insert_eq, Hq by (by apply lookup_lt_Some in Hq).
    rewrite Hbits by (apply Z.mod_pos_bound; lia). by rewrite index_split by congruence.
  - rewrite list_lookup_insert_ne by done.
    destruct (Z.eqb_spec k j) as [->|]; [done|]. done.
Qed.

Lemma bm_set_ok ws j :
  words_ok w ws -> 0 <= j < w * Z.of_nat (length ws) ->
  exists ws', bm_set w ws j = Ok ws' /\ words_ok w ws' /\ length ws' = length ws /\
    (forall k, 0 <= k -> bit w ws' k = (k =? j) || bit w ws k).
Proof.
  intros Hok Hj. unfold bm_set. destruct (index_lookup ws j Hj) as [q Hq]. rewrite Hq.
  pose proof (Z.mod_pos_bound j w Hw) as Hm.
  assert (Hr : 0 <= q < 2 ^ w) by (by eapply Forall_lookup_1 in Hok).
  destruct (setbit_spec w q (j `mod` w) Hr Hm) as [Hr' Hb].
  eexists. split_and!; [done|by apply Forall_insert|apply length_insert|].
  intros k Hk. rewrite (bit_update ws j k q _ (fun _ => true)); [|done|lia|done|].
  - by destruct (k =? j).
  - intros i Hi. rewrite Hb by done. by destruct (i =? j `mod` w).
Qed.

Lemma bm_clear_ok ws j :
  words_ok w ws -> 0 <= j < w * Z.of_nat (length ws) ->
  exists ws', bm_clear w ws j = Ok ws' /\ words_ok w ws' /\ length ws' = length ws /\
    (forall k, 0 <= k -> bit w ws' k = negb (k =? j) && bit w ws k).
Proof.
  intros Hok Hj. unfold bm_clear. destruct (index_lookup ws j Hj) as [q Hq]. rewrite Hq.
  pose proof (Z.mod_pos_bound j w Hw) as Hm.
  assert (Hr : 0 <= q < 2 ^ w) by (by eapply Forall_lookup_1 in Hok).
  destruct (clearbit_spec w q (j `mod` w) Hr Hm) as [Hr' Hb].
  eexists. split_and!; [done|by apply Forall_insert|apply length_insert|].
  intros k Hk. rewrite (bit_update ws j k q _ (fun _ => false)); [|done|lia|done|].
  - by destruct (k =? j).
  - intros i Hi. rewrite Hb by done. by destruct (i =? j `mod` w).
Qed.

(** [j] lies in the run of [n] indices from [lo]. *)
Definition in_run (lo n j : Z) : bool := (lo <=? j) && (j <? lo + n).

Lemma in_run_spec lo n j : in_run lo n j = true <-> lo <= j < lo + n.
Proof. unfold in_run. rewrite andb_true_iff, Z.leb_le, Z.ltb_lt. done. Qed.

Lemma in_run_S lo (n : nat) j :
  in_run lo (Z.of_nat (S n)) j = (j =? lo) || in_run (lo + 1) (Z.of_nat n) j.
Proof.
  apply eq_true_iff_eq. rewrite orb_true_iff, !in_run_spec, Z.eqb_eq. lia.
Qed.

Lemma bm_set_run_ok n : forall ws j,
  words_ok w ws -> 0 <= j -> j + Z.of_nat n <= w * Z.of_nat (length ws) ->
  exists ws', bm_set_run w n ws j = Ok ws' /\ words_ok w ws' /\ length ws' = length ws /\
    (forall k, 0 <= k -> bit w ws' k = in_run j (Z.of_nat n) k || bit w ws k).
Proof.
  induction n as [|n IH]; intros ws j Hok Hj Hn; cbn [bm_set_run].
  { exists ws. split_and!; [done..|]. intros k Hk.
    destruct (in_run j (Z.of_nat 0) k) eqn:E; [|done]. apply in_run_spec in E. lia. }
  destruct (bm_set_ok ws j Hok ltac:(lia)) as (ws1 & -> & Hok1 & Hl1 & Hb1).
  destruct (IH ws1 (j + 1) Hok1 ltac:(lia) ltac:(lia)) as (ws2 & -> & Hok2 & Hl2 & Hb2).
  exists ws2. split_and!; [done|done|congruence|]. intros k Hk.
  rewrite Hb2, Hb1, in_run_S by done. by destruct (k =? j), (in_run _ _ k).
Qed.

(** ** Counting the clear bits below a bound *)
Fixpoint count_clear (n : nat) (f : Z -> bool) : Z :=
  match n with
  | O => 0
  | S n' => Z.b2z (negb (f (Z.of_nat n'))) + count_clear n' f
  end.

Lemma count_clear_range n f : 0 <= count_clear n f <= Z.of_nat n.
Proof. induction n as [|n IH]; cbn; [lia|]. destruct (f (Z.of_nat n)); cbn; lia. Qed.

Lemma count_clear_ext n f g :
  (forall k, 0 <= k < Z.of_nat n -> f k = g k) -> count_clear n f = count_clear n g.
Proof.
  induction n as [|n IH]; intros H; [done|]. cbn [count_clear].
  rewrite (H (Z.of_nat n)), IH by (try intros; try apply H; lia). done.
Qed.

Lemma count_clear_pos n f :
  0 < count_clear n f -> exists k, 0 <= k < Z.of_nat n /\ f k = false.
Proof.
  induction n as [|n IH]; cbn [count_clear]; [lia|]. intros H.
  destruct (f (Z.of_nat n)) eqn:E.
  - destruct IH as (k & Hk & ?); [cbn in H; lia|]. exists k. split; [lia|done].
  - exists (Z.of_nat n). split; [lia|done].
Qed.

Lemma count_clear_some n f k :
  0 <= k < Z.of_nat n -> f k = false -> 0 < count_clear n f.
Proof.
  induction n as [|n IH]; [lia|]. cbn [count_clear]. intros Hk Hf.
  pose proof (count_clear_range n f). destruct (decide (k = Z.of_nat n)) as [->|].
  - rewrite Hf. cbn. lia.
  - destruct (f (Z.of_nat n)); cbn; specialize (IH ltac:(lia) Hf); lia.
Qed.

(** Changing the bit [i] from clear to set. *)
Lemma count_clear_set n f g i :
  0 <= i < Z.of_nat n -> f i = false -> g i = true ->
  (forall k, 0 <= k -> k <> i -> g k = f k) ->
  count_clear n g = count_clear n f - 1.
Proof.
  intros Hi Hf Hg Hfg. induction n as [|n IH]; [lia|]. cbn [count_clear].
  destruct (decide (i = Z.of_nat n)) as [->|].
  - rewrite Hf, Hg, (count_clear_ext n g f) by (intros; apply Hfg; lia). cbn. lia.
  - rewrite (Hfg (Z.of_nat n)), IH by lia. lia.
Qed.

(** Setting a whole run of [m] clear bits below [n]. *)
Lemma count_clear_run m : forall n f lo,
  0 <= lo -> lo + Z.of_nat m <= Z.of_nat n ->
  (forall k, lo <= k < lo + Z.of_nat m -> f k = false) ->
  count_clear n (fun k => in_run lo (Z.of_nat m) k || f k) = count_clear n f - Z.of_nat m.
Proof.
  induction m as [|m IH]; intros n f lo Hlo Hn Hf.
  { rewrite Z.sub_0_r. apply count_clear_ext. intros k Hk.
    destruct (in_run lo (Z.of_nat 0) k) eqn:E; [apply in_run_spec in E; lia|done]. }
  set (g := fun k => (k =? lo) || f k).
  assert (Hg : count_clear n g = count_clear n f - 1).
  { apply (count_clear_set n f g lo); [lia|apply Hf; lia|unfold g; by rewrite Z.eqb_refl|].
    intros k _ Hk. unfold g. by rewrite (proj2 (Z.eqb_neq k lo)). }
  transitivity (count_clear n (fun k => in_run (lo + 1) (Z.of_nat m) k || g k)).
  { apply count_clear_ext. intros k _. unfold g. rewrite in_run_S.
    by destruct (k =? lo), (in_run _ _ k). }
  rewrite IH; [lia|lia|lia|]. intros k Hk. unfold g.
  rewrite (proj2 (Z.eqb_neq k lo)) by lia. apply Hf. lia.
Qed.
End bits.
