(* ===== verification/PhysicalRange.v ===== *)
(** * kernel/Memory/PhysicalRange: the bitmap page allocator

    A range of physical memory whose first page holds the bitmap of the whole
    range.  The bitmap page is the 512 64-bit words [qwords] of the state:
    [PageTable::with_per_cpu_fast_page(m_paddr, f)] runs [f] on that page and
    nothing else writes it.  An access outside the page is [Panic]. *)
From S2P Require Import Prelude BanMath Bitmap.

Module PhysicalRange.

(** ** Definitions *)
Record t : Type := mk {
  m_paddr : Z;
  m_page_count : Z;
  m_free_pages : Z;
  qwords : list Z
}.

(** Each physical range holds at most one page of bitmap. *)
Definition max_bytes : Z := (PAGE_SIZE * 8) * PAGE_SIZE.

Definition start (r : t) : Z := m_paddr r.
Definition end_ (r : t) : Z := u64 (m_paddr r + u64 (m_page_count r * PAGE_SIZE)).
Definition contains (r : t) (addr : Z) : bool := (start r <=? addr) && (addr <? end_ r).
Definition usable_memory (r : t) : Z := u64 (m_page_count r * PAGE_SIZE).
Definition used_pages (r : t) : Z := u64 (m_page_count r - m_free_pages r).
Definition free_pages (r : t) : Z := m_free_pages r.

(** The scan of [reserve_page]: the index of the first clear bit and the
    bitmap with that bit set, [None] for [ASSERT_NOT_REACHED]. *)
Fixpoint scan_qwords (qs : list Z) (i : Z) : option (Z * list Z) :=
  match qs with
  | [] => None
  | q :: qs' =>
      if q =? UINT64_MAX then
        match scan_qwords qs' (i + 1) with
        | Some (matched, qs'') => Some (matched, q :: qs'')
        | None => None
        end
      else
        let b := Math.ctz 64 (bnot 64 q) in
        Some (i * 64 + b, Z.lor q (Z.shiftl 1 b) :: qs')
  end.

Definition reserve_page (r : t) : outcome (t * Z) :=
  ASSERT (0 <? free_pages r) in
  match scan_qwords (qwords r) 0 with
  | None => Panic
  | Some (matched, qs) =>
      ASSERT (matched <? m_page_count r) in
      Ok (mk (m_paddr r) (m_page_count r) (u64 (m_free_pages r - 1)) qs,
          u64 (m_paddr r + u64 (matched * PAGE_SIZE)))
  end.

(** The constructor: clears the bitmap page and reserves it. *)
Definition construct (paddr size : Z) : outcome t :=
  let page_count := size / PAGE_SIZE in
  ASSERT (paddr `mod` PAGE_SIZE =? 0) in
  ASSERT (size `mod` PAGE_SIZE =? 0) in
  ASSERT (negb (page_count =? 0)) in
  ASSERT (page_count <=? PAGE_SIZE * 8) in
  let* (r, reserved) := reserve_page (mk paddr page_count page_count (replicate 512 0)) in
  ASSERT (reserved =? paddr) in
  Ok r.

Definition release_page (r : t) (paddr : Z) : outcome t :=
  ASSERT (paddr `mod` PAGE_SIZE =? 0) in
  ASSERT (negb (paddr =? m_paddr r)) in
  ASSERT (contains r paddr) in
  let index := u64 (paddr - m_paddr r) / PAGE_SIZE in
  let* b := bm_get 64 (qwords r) index in
  ASSERT b in
  let* qs := bm_clear 64 (qwords r) index in
  Ok (mk (m_paddr r) (m_page_count r) (u64 (m_free_pages r + 1)) qs).

(** The inner loop of [reserve_contiguous_pages] that tests [n] bits from [j]. *)
Fixpoint run_usable (n : nat) (qs : list Z) (j : Z) : outcome bool :=
  match n with
  | O => Ok true
  | S n' =>
      let* b := bm_get 64 qs j in
      if b then Ok false else run_usable n' qs (j + 1)
  end.

(** The outer loop, with [n] candidates left from [i] on. *)
Fixpoint search_run (n : nat) (qs : list Z) (i pages : Z) : outcome (option (Z * list Z)) :=
  match n with
  | O => Ok None
  | S n' =>
      let* usable := run_usable (Z.to_nat pages) qs i in
      if negb usable then search_run n' qs (i + 1) pages
      else
        let* qs' := bm_set_run 64 (Z.to_nat pages) qs i in
        Ok (Some (i, qs'))
  end.

Definition reserve_contiguous_pages (r : t) (pages : Z) : outcome (t * Z) :=
  ASSERT (0 <? pages) in
  ASSERT (pages <=? free_pages r) in
  let* found := search_run (Z.to_nat (u64 (m_page_count r - pages))) (qwords r) 0 pages in
  match found with
  | None => Ok (r, 0)
  | Some (matched, qs) =>
      Ok (mk (m_paddr r) (m_page_count r) (u64 (m_free_pages r - pages)) qs,
          u64 (m_paddr r + u64 (matched * PAGE_SIZE)))
  end.

(** The loop of [release_contiguous_pages], with its assertion. *)
Fixpoint release_run (n : nat) (qs : list Z) (i : Z) : outcome (list Z) :=
  match n with
  | O => Ok qs
  | S n' =>
      let* b := bm_get 64 qs i in
      ASSERT b in
      let* qs := bm_clear 64 qs i in
      release_run n' qs (i + 1)
  end.

Definition release_contiguous_pages (r : t) (paddr pages : Z) : outcome t :=
  ASSERT (0 <? pages) in
  ASSERT (negb (paddr =? m_paddr r)) in
  ASSERT (contains r paddr) in
  ASSERT (contains r (u64 (paddr + u64 ((pages - 1) * PAGE_SIZE)))) in
  let index := u64 (paddr - m_paddr r) / PAGE_SIZE in
  let* qs := release_run (Z.to_nat pages) (qwords r) index in
  Ok (mk (m_paddr r) (m_page_count r) (u64 (m_free_pages r + pages)) qs).

(** ** Invariant

    The abstract state of a range is its set of used page indices. *)
Definition used (r : t) (i : Z) : bool := bit 64 (qwords r) i.

(** Address of page [i]. *)
Definition page_addr (r : t) (i : Z) : Z := m_paddr r + i * PAGE_SIZE.

Record wf (r : t) : Prop := {
  wf_words : words_ok 64 (qwords r);
  wf_len : length (qwords r) = 512%nat;
  wf_aligned : (m_paddr r) `mod` PAGE_SIZE = 0;
  wf_paddr : 0 <= m_paddr r;
  wf_count : 0 < m_page_count r <= PAGE_SIZE * 8;
  wf_top : m_paddr r + m_page_count r * PAGE_SIZE < 2 ^ 64;
  (** the bitmap page itself is never free *)
  wf_first : used r 0 = true;
  (** no page past the end of the range is marked *)
  wf_tail : forall i, m_page_count r <= i -> used r i = false;
  wf_free : m_free_pages r = count_clear (Z.to_nat (m_page_count r)) (used r)
}.

Lemma bit_cons q qs j :
  0 <= j -> bit 64 (q :: qs) j = if j <? 64 then Z.testbit q j else bit 64 qs (j - 64).
Proof.
  intros Hj. unfold bit. case_if; zify_bool.
  - rewrite Z.div_small, Z.mod_small by lia. done.
  - pose proof (Z.div_le_lower_bound j 64 1 ltac:(lia) ltac:(lia)) as H1.
    replace (Z.to_nat (j / 64)) with (S (Z.to_nat ((j - 64) / 64))).
    + cbn [lookup list_lookup]. replace ((j - 64) `mod` 64) with (j `mod` 64); [done|].
      replace j with ((j - 64) + 1 * 64) at 1 by lia. by rewrite Z_mod_plus_full.
    + replace j with ((j - 64) + 1 * 64) at 2 by lia. rewrite Z.div_add by lia.
      pose proof (Z.div_pos (j - 64) 64). lia.
Qed.

(** The scan finds the least clear bit of the bitmap and sets it. *)
Lemma scan_qwords_spec qs : forall i,
  words_ok 64 qs ->
  (exists j, 0 <= j < 64 * Z.of_nat (length qs) /\ bit 64 qs j = false) ->
  exists m qs', scan_qwords qs i = Some (i * 64 + m, qs') /\
    0 <= m < 64 * Z.of_nat (length qs) /\ bit 64 qs m = false /\
    (forall k, 0 <= k < m -> bit 64 qs k = true) /\
    words_ok 64 qs' /\ length qs' = length qs /\
    (forall k, 0 <= k -> bit 64 qs' k = (k =? m) || bit 64 qs k).
Proof.
  induction qs as [|q qs IH]; intros i Hok (j & Hj & Hbj); [cbn in Hj; lia|].
  apply Forall_cons_1 in Hok as [Hq Hok]. cbn [scan_qwords length].
  case_if; zify_bool.
  - assert (Hones : forall k, 0 <= k < 64 -> Z.testbit q k = true).
    { intros k Hk. rewrite E. change UINT64_MAX with (Z.ones 64). apply Z.ones_spec_low. lia. }
    rewrite bit_cons in Hbj by lia. case_if_in Hbj; zify_bool.
    { rewrite Hones in Hbj by lia. done. }
    destruct (IH (i + 1) Hok) as (m & qs' & -> & Hm & Hbm & Hlo & Hok' & Hl & Hb).
    { exists (j - 64). cbn [length] in Hj. split; [lia|done]. }
    exists (m + 64), (q :: qs'). split_and!; [do 2 f_equal; lia|lia|lia| | |by constructor|cbn; lia|].
    + rewrite bit_cons, (proj2 (Z.ltb_ge _ _)) by lia. by rewrite Z.add_simpl_r.
    + intros k Hk. rewrite bit_cons by lia. case_if; zify_bool; [apply Hones|apply Hlo]; lia.
    + intros k Hk. rewrite !bit_cons by lia. case_if; zify_bool.
      * by rewrite (proj2 (Z.eqb_neq k (m + 64))) by lia.
      * rewrite Hb by lia. f_equal. apply eq_true_iff_eq. rewrite !Z.eqb_eq. lia.
  - assert (Hn : 0 < bnot 64 q < 2 ^ 64) by (unfold bnot, UINT64_MAX in *; lia).
    destruct (Math.ctz_spec 64 (bnot 64 q) Hn) as (Hc & Hcb & Hclo).
    set (b := Math.ctz 64 (bnot 64 q)) in *.
    rewrite bnot_testbit in Hcb by lia. apply negb_true_iff in Hcb.
    destruct (setbit_spec 64 q b Hq Hc) as [Hr Hs].
    exists b, (Z.lor q (Z.shiftl 1 b) :: qs).
    split_and!; [done|lia|lia| | |by constructor|done|].
    + rewrite bit_cons, (proj2 (Z.ltb_lt _ _)) by lia. done.
    + intros k Hk. rewrite bit_cons, (proj2 (Z.ltb_lt _ _)) by lia.
      specialize (Hclo k Hk). rewrite bnot_testbit in Hclo by lia. by apply negb_false_iff in Hclo.
    + intros k Hk. rewrite !bit_cons by lia. case_if; zify_bool; [by apply Hs|].
      by rewrite (proj2 (Z.eqb_neq k b)) by lia.
Qed.

Section with_range.
Context (r : t) (Hwf : wf r).

Lemma capacity : 64 * Z.of_nat (length (qwords r)) = PAGE_SIZE * 8.
Proof. rewrite (wf_len r Hwf). done. Qed.

Lemma free_pages_bounds : 0 <= m_free_pages r < m_page_count r.
Proof.
  rewrite (wf_free r Hwf). pose proof (wf_count r Hwf).
  pose proof (count_clear_range (Z.to_nat (m_page_count r)) (used r)).
  enough (count_clear (Z.to_nat (m_page_count r)) (used r) <> m_page_count r) by lia.
  intros He. assert (Hall : forall n, count_clear n (used r) = Z.of_nat n -> n <> O -> used r 0 = false).
  { clear. induction n as [|n IH]; [done|]. cbn [count_clear]. intros H _.
    pose proof (count_clear_range n (used r)).
    destruct (used r (Z.of_nat n)) eqn:E; cbn in H; [lia|].
    destruct n; [done|apply IH; lia]. }
  pose proof (Hall (Z.to_nat (m_page_count r)) ltac:(lia) ltac:(lia)) as Hz.
  rewrite (wf_first r Hwf) in Hz. done.
Qed.

Lemma page_addr_bounds i :
  0 <= i < m_page_count r -> 0 <= page_addr r i < 2 ^ 64.
Proof.
  intros. pose proof (wf_top r Hwf). pose proof (wf_paddr r Hwf). unfold page_addr in *. lia.
Qed.

(** Index arithmetic on the addresses of the range. *)
Lemma page_addr_wrap i :
  0 <= i < m_page_count r -> u64 (m_paddr r + u64 (i * PAGE_SIZE)) = page_addr r i.
Proof.
  intros Hi. pose proof (page_addr_bounds i Hi). pose proof (wf_paddr r Hwf).
  unfold page_addr in *. unwrap. done.
Qed.

Lemma page_addr_index i :
  0 <= i < m_page_count r -> u64 (page_addr r i - m_paddr r) / PAGE_SIZE = i.
Proof.
  intros Hi. pose proof (page_addr_bounds i Hi). pose proof (wf_paddr r Hwf).
  unfold page_addr in *. unwrap.
  replace (m_paddr r + i * 4096 - m_paddr r) with (i * 4096) by lia. apply Z.div_mul. lia.
Qed.

Lemma contains_spec a :
  contains r a = true <-> m_paddr r <= a < m_paddr r + m_page_count r * PAGE_SIZE.
Proof.
  unfold contains, start, end_. pose proof (wf_top r Hwf). pose proof (wf_count r Hwf).
  pose proof (wf_paddr r Hwf). unwrap.
  rewrite andb_true_iff, Z.leb_le, Z.ltb_lt. done.
Qed.

Lemma contains_page i : 0 <= i < m_page_count r -> contains r (page_addr r i) = true.
Proof. intros. rewrite contains_spec. unfold page_addr. lia. Qed.

Lemma page_addr_aligned i : page_addr r i `mod` PAGE_SIZE = 0.
Proof. unfold page_addr. rewrite Z_mod_plus_full. apply (wf_aligned r Hwf). Qed.

(** Rebuilding the invariant after the bitmap changed below [m_page_count]. *)
Lemma wf_update qs free :
  words_ok 64 qs -> length qs = 512%nat -> bit 64 qs 0 = true ->
  (forall i, m_page_count r <= i -> bit 64 qs i = false) ->
  free = count_clear (Z.to_nat (m_page_count r)) (bit 64 qs) ->
  wf (mk (m_paddr r) (m_page_count r) free qs).
Proof. destruct Hwf. intros. constructor; cbn; done. Qed.

Lemma some_free_index :
  0 < m_free_pages r -> exists i, 0 <= i < m_page_count r /\ used r i = false.
Proof.
  rewrite (wf_free r Hwf). intros H. apply count_clear_pos in H as (k & Hk & Hb).
  exists k. split; [lia|done].
Qed.

(** What a successful reservation of the run [i, i + n) does. *)
Definition reserved (i n : Z) (r' : t) : Prop :=
  wf r' /\ m_paddr r' = m_paddr r /\ m_page_count r' = m_page_count r /\
  m_free_pages r' = m_free_pages r - n /\
  (forall k, i <= k < i + n -> used r k = false) /\
  (forall k, 0 <= k -> used r' k = in_run i n k || used r k).

Lemma reserve_page_ok :
  0 < m_free_pages r ->
  exists r' i, reserve_page r = Ok (r', page_addr r i) /\
    0 < i < m_page_count r /\ reserved i 1 r' /\
    (forall k, 0 <= k < i -> used r k = true).
Proof.
  intros Hf. destruct (some_free_index Hf) as (j & Hj & Hbj).
  pose proof free_pages_bounds. pose proof (wf_count r Hwf) as Hc.
  unfold reserve_page, free_pages. rewrite (proj2 (Z.ltb_lt _ _)) by lia.
  destruct (scan_qwords_spec (qwords r) 0 (wf_words r Hwf)) as (m & qs' & -> & Hm & Hbm & Hlo & Hok & Hl & Hb).
  { exists j. rewrite capacity. split; [lia|done]. }
  assert (Hmj : m <= j).
  { destruct (decide (m <= j)); [done|]. unfold used in Hbj. rewrite Hlo in Hbj by lia. done. }
  assert (m <> 0) by (intros ->; pose proof (wf_first r Hwf) as H0; unfold used in H0; congruence).
  rewrite Z.mul_0_l, Z.add_0_l, (proj2 (Z.ltb_lt _ _)) by lia.
  rewrite page_addr_wrap, wrap_id by lia. eexists _, m.
  assert (Hin : forall k, in_run m 1 k = (k =? m)).
  { intros k. apply eq_true_iff_eq. rewrite in_run_spec, Z.eqb_eq. lia. }
  split_and!; [done|lia|lia| |done]. unfold reserved, used. cbn [m_paddr m_page_count m_free_pages qwords].
  split_and!; [|done..| |intros k Hk; by rewrite Hb, Hin].
  - apply wf_update; [done|by rewrite Hl; apply (wf_len r Hwf)| | |].
    + rewrite Hb by lia. fold (used r 0). rewrite (wf_first r Hwf). apply orb_true_r.
    + intros i Hi. rewrite Hb, (proj2 (Z.eqb_neq i m)) by lia. by apply (wf_tail r Hwf).
    + rewrite (wf_free r Hwf). symmetry.
      apply (count_clear_set _ _ _ m); [lia|done|by rewrite Hb, Z.eqb_refl by lia|].
      intros k Hk Hne. rewrite Hb by done. by rewrite (proj2 (Z.eqb_neq k m)).
  - intros k Hk. replace k with m by lia. done.
Qed.

(** What a release of the run [i, i + n) does. *)
Definition released (i n : Z) (r' : t) : Prop :=
  wf r' /\ m_paddr r' = m_paddr r /\ m_page_count r' = m_page_count r /\
  m_free_pages r' = m_free_pages r + n /\
  (forall k, 0 <= k -> used r' k = negb (in_run i n k) && used r k).

Lemma release_page_ok i :
  0 < i < m_page_count r -> used r i = true ->
  exists r', release_page r (page_addr r i) = Ok r' /\ released i 1 r'.
Proof.
  intros Hi Hu. pose proof (wf_count r Hwf) as Hc. pose proof free_pages_bounds.
  unfold release_page.
  rewrite page_addr_aligned, contains_page, page_addr_index by lia. cbn [Z.eqb].
  rewrite (proj2 (Z.eqb_neq _ _)) by (unfold page_addr; lia). cbn [negb].
  rewrite bm_get_ok by (rewrite ?capacity; lia). fold (used r i). rewrite Hu.
  destruct (bm_clear_ok 64 ltac:(lia) (qwords r) i (wf_words r Hwf)) as (qs & -> & Hok & Hl & Hb);
    [rewrite capacity; lia|].
  assert (Hin : forall k, in_run i 1 k = (k =? i)).
  { intros k. apply eq_true_iff_eq. rewrite in_run_spec, Z.eqb_eq. lia. }
  eexists. split; [done|]. unfold released, used. cbn [m_paddr m_page_count m_free_pages qwords].
  rewrite wrap_id by lia.
  split_and!; [|done..|intros k Hk; by rewrite Hb, Hin].
  apply wf_update; [done|by rewrite Hl; apply (wf_len r Hwf)| | |].
  - rewrite Hb, (proj2 (Z.eqb_neq 0 i)) by lia. apply (wf_first r Hwf).
  - intros k Hk. rewrite Hb by lia. fold (used r k). rewrite (wf_tail r Hwf) by done. apply andb_false_r.
  - rewrite (wf_free r Hwf).
    rewrite (count_clear_set _ (bit 64 qs) (used r) i); [lia|lia| |done|].
    + by rewrite Hb, Z.eqb_refl by lia.
    + intros k Hk Hne. rewrite Hb by done. by rewrite (proj2 (Z.eqb_neq k i)).
Qed.

(** A page that is not allocated, the bitmap page, a foreign or unaligned
    address: the release is refused. *)
Lemma release_page_refused paddr :
  0 <= paddr < 2 ^ 64 ->
  (forall i, 0 < i < m_page_count r -> used r i = true -> paddr <> page_addr r i) ->
  release_page r paddr = Panic.
Proof.
  intros Hp Hno. unfold release_page. pose proof (wf_paddr r Hwf). pose proof (wf_count r Hwf).
  case_if; [|done]. case_if; [|done]. case_if; [|done]. zify_bool.
  apply contains_spec in E1. set (i := (paddr - m_paddr r) / PAGE_SIZE).
  assert (Hpi : paddr = page_addr r i).
  { unfold page_addr, i. pose proof (wf_aligned r Hwf) as Ha.
    assert (Hd : (paddr - m_paddr r) `mod` PAGE_SIZE = 0)
      by (rewrite Zminus_mod, E, Ha; reflexivity).
    pose proof (Z.div_mod (paddr - m_paddr r) PAGE_SIZE ltac:(done)). lia. }
  assert (Hi : 0 < i < m_page_count r).
  { unfold page_addr in *. lia. }
  rewrite (wrap_id 64) by lia. fold i. rewrite bm_get_ok by (rewrite ?capacity; lia).
  fold (used r i). destruct (used r i) eqn:Hu; [|done]. by destruct (Hno i Hi Hu).
Qed.

(** ** Runs of pages *)
Lemma run_usable_ok n : forall j,
  0 <= j -> j + Z.of_nat n <= PAGE_SIZE * 8 ->
  exists b, run_usable n (qwords r) j = Ok b /\
    (b = true <-> forall k, j <= k < j + Z.of_nat n -> used r k = false).
Proof.
  induction n as [|n IH]; intros j Hj Hn; cbn [run_usable].
  { exists true. split; [done|]. split; [lia|done]. }
  rewrite bm_get_ok by (rewrite ?capacity; lia). fold (used r j).
  destruct (used r j) eqn:Hu.
  - exists false. split; [done|]. split; [done|]. intros H.
    rewrite (H j) in Hu by lia. done.
  - destruct (IH (j + 1)) as (b & -> & Hb); [lia..|]. exists b. split; [done|].
    rewrite Hb. split; intros H k Hk.
    + destruct (decide (k = j)) as [->|]; [done|]. apply H. lia.
    + apply H. lia.
Qed.

Lemma search_run_ok n pages : forall i,
  0 <= i -> 0 < pages -> i + Z.of_nat n + pages <= PAGE_SIZE * 8 ->
  exists res, search_run n (qwords r) i pages = Ok res /\
    match res with
    | None => forall c, i <= c < i + Z.of_nat n ->
                exists k, c <= k < c + pages /\ used r k = true
    | Some (c, qs) => i <= c < i + Z.of_nat n /\
        (forall k, c <= k < c + pages -> used r k = false) /\
        words_ok 64 qs /\ length qs = length (qwords r) /\
        (forall k, 0 <= k -> bit 64 qs k = in_run c pages k || used r k)
    end.
Proof.
  induction n as [|n IH]; intros i Hi Hp Hn; cbn [search_run].
  { eexists. split; [done|]. cbn. lia. }
  destruct (run_usable_ok (Z.to_nat pages) i) as (b & -> & Hb); [lia..|].
  rewrite Z2Nat.id in Hb by lia. destruct b; cbn [negb].
  - destruct (bm_set_run_ok 64 ltac:(lia) (Z.to_nat pages) (qwords r) i (wf_words r Hwf))
      as (qs & -> & Hok & Hl & Hbits); [lia|rewrite capacity; lia|].
    rewrite Z2Nat.id in Hbits by lia.
    eexists. split; [done|]. cbn. split_and!; [lia|lia|by apply Hb|done|done|done].
  - destruct (IH (i + 1)) as (res & -> & Hres); [lia..|].
    exists res. split; [done|]. destruct res as [[c qs]|].
    + destruct Hres as (? & ?). split; [lia|done].
    + intros c Hc. destruct (decide (c = i)) as [->|]; [|apply Hres; lia].
      destruct (run_usable_ok (Z.to_nat pages) i) as (b' & _ & _); [lia..|].
      assert (Hex : ~ forall k, i <= k < i + pages -> used r k = false)
        by (intros H; by apply Hb in H).
      clear -Hex Hp.
      assert (Hdec : forall m : nat, (forall k, i <= k < i + Z.of_nat m -> used r k = false)
        \/ exists k, i <= k < i + Z.of_nat m /\ used r k = true).
      { induction m as [|m IHm]; [left; lia|]. destruct IHm as [IHm|(k & ? & ?)].
        - destruct (used r (i + Z.of_nat m)) eqn:E.
          + right. exists (i + Z.of_nat m). split; [lia|done].
          + left. intros k Hk. destruct (decide (k = i + Z.of_nat m)) as [->|]; [done|apply IHm; lia].
        - right. exists k. split; [lia|done]. }
      destruct (Hdec (Z.to_nat pages)) as [H|(k & ? & ?)].
      * destruct Hex. intros k Hk. apply H. lia.
      * exists k. split; [lia|done].
Qed.

Lemma reserve_contiguous_pages_ok pages :
  0 < pages <= m_free_pages r ->
  (exists r' i, reserve_contiguous_pages r pages = Ok (r', page_addr r i) /\
     0 < i /\ i + pages < m_page_count r /\ reserved i pages r') \/
  (reserve_contiguous_pages r pages = Ok (r, 0) /\
     forall i, 0 <= i < m_page_count r - pages -> exists k, i <= k < i + pages /\ used r k = true).
Proof.
  intros Hp. pose proof free_pages_bounds. pose proof (wf_count r Hwf) as Hc.
  unfold reserve_contiguous_pages, free_pages.
  rewrite (proj2 (Z.ltb_lt _ _)), (proj2 (Z.leb_le _ _)) by lia.
  rewrite (wrap_id 64 (m_page_count r - pages)) by lia.
  destruct (search_run_ok (Z.to_nat (m_page_count r - pages)) pages 0) as (res & -> & Hres);
    [lia|lia|lia|].
  destruct res as [[c qs]|].
  - destruct Hres as (Hc1 & Hfree & Hok & Hl & Hb). left.
    assert (c <> 0).
    { intros ->. pose proof (wf_first r Hwf) as Hf. rewrite Hfree in Hf by lia. done. }
    rewrite page_addr_wrap, wrap_id by lia. eexists _, c.
    split_and!; [done|lia|lia|]. unfold reserved, used. cbn [m_paddr m_page_count m_free_pages qwords].
    split_and!; [|done..]. apply wf_update; [done|by rewrite Hl; apply (wf_len r Hwf)| | |].
    + rewrite Hb, (wf_first r Hwf) by lia. apply orb_true_r.
    + intros i Hi. rewrite Hb by lia. rewrite (wf_tail r Hwf) by done.
      destruct (in_run c pages i) eqn:E; [apply in_run_spec in E; lia|done].
    + rewrite (wf_free r Hwf), <- (Z2Nat.id pages) at 1 by lia.
      rewrite <- (count_clear_run (Z.to_nat pages) _ (used r) c) by (try intros; try apply Hfree; lia).
      apply count_clear_ext. intros k Hk. rewrite Hb by lia. by rewrite Z2Nat.id by lia.
  - right. split; [done|]. intros i Hi. apply Hres. lia.
Qed.

Lemma release_run_ok n : forall qs i,
  words_ok 64 qs -> length qs = 512%nat -> 0 <= i -> i + Z.of_nat n <= PAGE_SIZE * 8 ->
  (forall k, i <= k < i + Z.of_nat n -> bit 64 qs k = true) ->
  exists qs', release_run n qs i = Ok qs' /\ words_ok 64 qs' /\ length qs' = 512%nat /\
    (forall k, 0 <= k -> bit 64 qs' k = negb (in_run i (Z.of_nat n) k) && bit 64 qs k).
Proof.
  induction n as [|n IH]; intros qs i Hok Hl Hi Hn Hset; cbn [release_run].
  { exists qs. split_and!; [done..|]. intros k Hk.
    destruct (in_run i (Z.of_nat 0) k) eqn:E; [apply in_run_spec in E; lia|done]. }
  assert (Hcap : 64 * Z.of_nat (length qs) = PAGE_SIZE * 8) by (by rewrite Hl).
  rewrite bm_get_ok by lia. rewrite Hset by lia.
  destruct (bm_clear_ok 64 ltac:(lia) qs i Hok) as (q1 & -> & Hok1 & Hl1 & Hb1); [lia|].
  destruct (IH q1 (i + 1)) as (q2 & -> & Hok2 & Hl2 & Hb2); [done|lia|lia|lia| |].
  - intros k Hk. rewrite Hb1, (proj2 (Z.eqb_neq k i)) by lia. apply Hset. lia.
  - exists q2. split_and!; [done..|]. intros k Hk. rewrite Hb2, Hb1, in_run_S by done.
    by destruct (k =? i), (in_run _ _ k).
Qed.

Lemma release_contiguous_pages_ok i pages :
  0 < i -> 0 < pages -> i + pages <= m_page_count r ->
  (forall k, i <= k < i + pages -> used r k = true) ->
  exists r', release_contiguous_pages r (page_addr r i) pages = Ok r' /\ released i pages r'.
Proof.
  intros Hi Hp Hip Hset. pose proof (wf_count r Hwf) as Hc. pose proof free_pages_bounds.
  pose proof (page_addr_bounds (i + pages - 1) ltac:(lia)) as Hlast.
  pose proof (wf_paddr r Hwf) as Hpa.
  unfold release_contiguous_pages. rewrite (proj2 (Z.ltb_lt _ _)) by lia.
  rewrite (proj2 (Z.eqb_neq _ _)) by (unfold page_addr; lia). cbn [negb].
  rewrite contains_page, page_addr_index by lia.
  assert (Ha : u64 (page_addr r i + u64 ((pages - 1) * PAGE_SIZE)) = page_addr r (i + pages - 1)).
  { unfold page_addr in *. unwrap. lia. }
  rewrite Ha, contains_page by lia.
  destruct (release_run_ok (Z.to_nat pages) (qwords r) i) as (qs & -> & Hok & Hl & Hb);
    [apply (wf_words r Hwf)|apply (wf_len r Hwf)|lia|lia|intros; apply Hset; lia|].
  rewrite Z2Nat.id in Hb by lia.
  eexists. split; [done|]. unfold released, used. cbn [m_paddr m_page_count m_free_pages qwords].
  assert (Hcount : count_clear (Z.to_nat (m_page_count r)) (bit 64 qs) = m_free_pages r + pages).
  { rewrite (wf_free r Hwf).
    rewrite (count_clear_ext _ (used r) (fun k => in_run i (Z.of_nat (Z.to_nat pages)) k || bit 64 qs k)).
    - rewrite (count_clear_run (Z.to_nat pages) _ (bit 64 qs) i); [lia|lia|lia|].
      intros k Hk. rewrite Hb by lia.
      rewrite (proj2 (in_run_spec i pages k)) by lia. done.
    - intros k Hk. rewrite Hb, Z2Nat.id by lia. fold (used r k).
      destruct (in_run i pages k) eqn:E; [|done]. apply in_run_spec in E. by apply Hset. }
  pose proof (count_clear_range (Z.to_nat (m_page_count r)) (bit 64 qs)).
  rewrite wrap_id by lia.
  split_and!; [|done..]. apply wf_update; [done|done| | |done].
  - rewrite Hb by lia. fold (used r 0). rewrite (wf_first r Hwf), andb_true_r.
    apply negb_true_iff. destruct (in_run i pages 0) eqn:E; [apply in_run_spec in E; lia|done].
  - intros k Hk. rewrite Hb by lia. fold (used r k). rewrite (wf_tail r Hwf) by done. apply andb_false_r.
Qed.
End with_range.

(** ** Construction *)
Lemma bit_zeros n j : bit 64 (replicate n 0) j = false.
Proof.
  unfold bit. destruct (replicate n 0 !! Z.to_nat (j / 64)) eqn:E; [|done].
  apply lookup_replicate in E as [-> _]. apply Z.bits_0.
Qed.

Lemma construct_ok paddr size :
  0 <= paddr -> paddr `mod` PAGE_SIZE = 0 -> size `mod` PAGE_SIZE = 0 ->
  PAGE_SIZE <= size <= max_bytes -> paddr + size < 2 ^ 64 ->
  exists r, construct paddr size = Ok r /\ wf r /\
    m_paddr r = paddr /\ m_page_count r = size / PAGE_SIZE /\
    m_free_pages r = size / PAGE_SIZE - 1 /\
    (forall k, 0 <= k -> used r k = (k =? 0)).
Proof.
  intros Hp Hpa Hsa Hs Htop. unfold construct. rewrite Hpa, Hsa. cbn [Z.eqb].
  pose proof (Z.div_mod size PAGE_SIZE ltac:(done)) as Hdm.
  set (n := size / PAGE_SIZE) in *.
  assert (Hn : 1 <= n <= PAGE_SIZE * 8) by (unfold max_bytes in *; lia).
  rewrite (proj2 (Z.eqb_neq n 0)), (proj2 (Z.leb_le _ _)) by lia. cbn [negb].
  unfold reserve_page, free_pages. cbn [m_paddr m_page_count m_free_pages qwords].
  rewrite (proj2 (Z.ltb_lt 0 n)) by lia.
  destruct (scan_qwords_spec (replicate 512 0) 0) as (m & qs & -> & Hm & Hbm & Hlo & Hok & Hl & Hb).
  { apply Forall_replicate. lia. }
  { exists 0. split; [by rewrite length_replicate|apply bit_zeros]. }
  assert (m = 0) as ->.
  { destruct (decide (m = 0)); [done|]. pose proof (Hlo 0 ltac:(lia)) as H0.
    by rewrite bit_zeros in H0. }
  replace (0 * 64 + 0) with 0 by lia. rewrite (proj2 (Z.ltb_lt 0 n)), Z.mul_0_l by lia.
  rewrite (wrap_id 64 0), Z.add_0_r, (wrap_id 64 paddr), Z.eqb_refl by lia.
  rewrite (wrap_id 64) by lia.
  assert (Hbits : forall k, 0 <= k -> bit 64 qs k = (k =? 0)).
  { intros k Hk. rewrite Hb, bit_zeros by done. apply orb_false_r. }
  eexists. split; [done|]. cbn [m_paddr m_page_count m_free_pages qwords].
  split_and!; [|done..]. constructor; cbn [m_paddr m_page_count m_free_pages qwords].
  - done.
  - by rewrite Hl, length_replicate.
  - done.
  - done.
  - lia.
  - lia.
  - unfold used. cbn. by rewrite Hbits.
  - intros i Hi. unfold used. cbn. rewrite Hbits by lia. apply Z.eqb_neq. lia.
  - unfold used. cbn [qwords].
    rewrite (count_clear_set _ (fun _ => false) (bit 64 qs) 0);
      [|lia|done|by rewrite Hbits|intros k Hk Hne; rewrite Hbits by done; by apply Z.eqb_neq].
    assert (Hall : forall m, count_clear m (fun _ => false) = Z.of_nat m)
      by (induction m as [|m IH]; [done|cbn [count_clear]; rewrite IH; cbn; lia]).
    rewrite Hall. lia.
Qed.

(** ** Properties *)

(** on a well-formed range, [reserve_contiguous_pages] either marks a run
    of [pages] free pages that excludes the bitmap page, keeps the range well
    formed and leaves every other page as it was, or returns 0 with the range
    unchanged, and then every run of that length which ends before the last
    page has a used page. *)
Theorem reserve_contiguous_pages_correct (r : t) (pages : Z)
  (Hwf : wf r) (Hp : 0 < pages <= m_free_pages r) :
  (exists r' i, reserve_contiguous_pages r pages = Ok (r', page_addr r i) /\
     0 < i /\ i + pages < m_page_count r /\ wf r' /\
     m_free_pages r' = m_free_pages r - pages /\
     (forall k, i <= k < i + pages -> used r k = false) /\
     (forall k, 0 <= k -> used r' k = in_run i pages k || used r k)) \/
  (reserve_contiguous_pages r pages = Ok (r, 0) /\
     forall i, 0 <= i < m_page_count r - pages -> exists k, i <= k < i + pages /\ used r k = true).
Proof.
  destruct (reserve_contiguous_pages_ok r Hwf pages Hp)
    as [(r' & i & He & Hi & Hip & Hw & _ & _ & Hf & Hfree & Hbits)|[He Hno]]; [left|by right].
  by exists r', i.
Qed.

Lemma reserve_contiguous_pages_witness :
  exists r, construct 0x200000 0x10000 = Ok r /\ exists r' i,
    reserve_contiguous_pages r 4 = Ok (r', page_addr r i) /\ m_free_pages r' = 11.
Proof.
  destruct (construct_ok 0x200000 0x10000) as (r & He & Hwf & Hp & Hc & Hf & Hu); [done..|].
  exists r. split; [done|]. change (0x10000 / PAGE_SIZE) with 16 in *.
  destruct (reserve_contiguous_pages_correct r 4 Hwf ltac:(lia))
    as [(r' & i & Hr & _ & _ & _ & Hf' & _)|[_ Hno]].
  - exists r', i. split; [done|lia].
  - destruct (Hno 1 ltac:(lia)) as (k & Hk & Huk). rewrite Hu in Huk by lia. zify_bool. lia.
Defined.

(** the last position is never tried: a fresh range cannot serve a request
    for all of its free pages, although they are contiguous. *)
Theorem reserve_contiguous_pages_misses_last (paddr size : Z) (r : t)
  (Hp : 0 <= paddr /\ paddr `mod` PAGE_SIZE = 0 /\ paddr + size < 2 ^ 64)
  (Hs : 2 * PAGE_SIZE <= size <= max_bytes /\ size `mod` PAGE_SIZE = 0)
  (Hr : construct paddr size = Ok r) :
  reserve_contiguous_pages r (free_pages r) = Ok (r, 0) /\ 0 < free_pages r /\
  (forall k, 1 <= k < 1 + free_pages r -> used r k = false).
Proof.
  destruct Hp as (Hp & Ha & Ht). destruct Hs as (Hs & Hsa).
  destruct (construct_ok paddr size Hp Ha Hsa ltac:(lia) Ht) as (r' & He & Hwf & _ & Hc & Hf & Hu).
  rewrite Hr in He. injection He as <-. unfold free_pages.
  assert (2 <= size / PAGE_SIZE) by (apply Z.div_le_lower_bound; lia).
  split_and!; [|lia|].
  - destruct (reserve_contiguous_pages_ok r Hwf (m_free_pages r) ltac:(lia))
      as [(r' & i & _ & Hi & Hip & _)|[-> _]]; [lia|done].
  - intros k Hk. rewrite Hu by lia. apply Z.eqb_neq. lia.
Qed.

Lemma reserve_contiguous_pages_misses_last_witness :
  exists r, construct 0x200000 0x3000 = Ok r /\ reserve_contiguous_pages r 2 = Ok (r, 0).
Proof.
  destruct (construct_ok 0x200000 0x3000) as (r & He & Hwf & Hp & Hc & Hf & Hu); [done..|].
  exists r. split; [done|].
  destruct (reserve_contiguous_pages_misses_last 0x200000 0x3000 r) as [H _]; [done|done|done|].
  unfold free_pages in H. rewrite Hf in H. done.
Defined.

End PhysicalRange.
