(* ===== verification/KHeap.v ===== *)
(** * kernel/Memory/Heap: the physical memory of the machine

    The heap is a vector of [PhysicalRange]s.  Its spin lock makes every
    operation atomic, so an operation is a function on the vector.  Boot
    information (memory map, kernel image, modules) is an argument of
    [initialize_impl]. *)
From S2P Require Import Prelude BanMath Bitmap BanSort PhysicalRange.

Module Heap.
Import PhysicalRange.

(** ** Definitions *)
Abbreviation heap := (list PhysicalRange.t).

Record region : Type := mk_region { r_paddr : Z; r_size : Z }.

Inductive map_type : Type := Available | Reserved | ACPIReclaim | ACPINVS.
#[export] Instance map_type_eq_dec : EqDecision map_type.
Proof. solve_decision. Defined.

Record map_entry : Type := mk_entry { e_address : Z; e_length : Z; e_type : map_type }.

(** [get_reserved_regions]: page alignment of one region, *)
Definition page_align_region (r : region) : region :=
  let rem := r_paddr r `mod` PAGE_SIZE in
  let paddr := u64 (r_paddr r - rem) in
  let size := u64 (r_size r + rem) in
  let rem := size `mod` PAGE_SIZE in
  mk_region paddr (if negb (rem =? 0) then u64 (size + u64 (PAGE_SIZE - rem)) else size).

(** the comparator of the sort, *)
Definition region_less (lhs rhs : region) : bool :=
  if r_paddr lhs =? r_paddr rhs then r_size lhs <? r_size rhs
  else r_paddr lhs <? r_paddr rhs.

Definition region_end (r : region) : Z := u64 (r_paddr r + r_size r).

(** and the loop that merges overlapping or touching neighbours: [prev] is
    [reserved_regions[i - 1]]. *)
Fixpoint combine_regions (prev : region) (rest : list region) : list region :=
  match rest with
  | [] => [prev]
  | curr :: rest' =>
      if (region_end curr <? r_paddr prev) || (region_end prev <? r_paddr curr)
      then prev :: combine_regions curr rest'
      else
        let size := Math.max (r_size prev) (u64 (region_end curr - r_paddr prev)) in
        combine_regions (mk_region (r_paddr prev) size) rest'
  end.

Definition get_reserved_regions (kernel : region) (modules : list region) : outcome (list region) :=
  let regions := map page_align_region (mk_region 0 0x100000 :: kernel :: modules) in
  match Sort.sort region_less 0%nat (length regions) regions with
  | Some (first :: rest) => Ok (combine_regions first rest)
  | _ => Panic
  end.

(** The loop of [append_region_nolock]; the vector may fail to grow only by
    [MUST], which the model takes to succeed. *)
Fixpoint append_loop (fuel : nat) (h : heap) (start bytes : Z) : outcome heap :=
  if 2 * PAGE_SIZE <=? bytes then
    match fuel with
    | O => Panic
    | S fuel' =>
        let region_bytes := Math.min bytes PhysicalRange.max_bytes in
        let* r := PhysicalRange.construct start region_bytes in
        append_loop fuel' (h ++ [r]) (u64 (start + region_bytes)) (u64 (bytes - region_bytes))
    end
  else Ok h.

(** Every iteration but the last takes [max_bytes]. *)
Definition append_region_nolock (h : heap) (start bytes : Z) : outcome heap :=
  append_loop (S (Z.to_nat (bytes / PhysicalRange.max_bytes))) h start bytes.

(** The loop over the reserved regions for one available entry: the heap and
    the value of [e_start] after it. *)
Fixpoint carve_entry (reserved : list region) (h : heap) (e_start e_end : Z) : outcome (heap * Z) :=
  match reserved with
  | [] => Ok (h, e_start)
  | r :: reserved' =>
      let r_start := r_paddr r in
      let r_end := region_end r in
      if r_end <? e_start then carve_entry reserved' h e_start e_end
      else if e_end <? r_start then Ok (h, e_start)
      else
        let* h := append_region_nolock h e_start (u64 (Math.max e_start r_start - e_start)) in
        carve_entry reserved' h (Math.max e_start (Math.min e_end r_end)) e_end
  end.

(** One iteration of the loop over the memory map. *)
Definition initialize_entry (reserved : list region) (h : heap) (entry : map_entry) : outcome heap :=
  match e_type entry with
  | Available =>
      let e_start := e_address entry in
      let rem := e_start `mod` PAGE_SIZE in
      let e_start := if negb (rem =? 0) then u64 (PAGE_SIZE - rem) else e_start in
      let e_end := u64 (e_address entry + e_length entry) in
      let rem := e_end `mod` PAGE_SIZE in
      let e_end := if negb (rem =? 0) then u64 (e_end - rem) else e_end in
      let* (h, e_start) := carve_entry reserved h e_start e_end in
      append_region_nolock h e_start (u64 (e_end - e_start))
  | _ => Ok h
  end.

Fixpoint initialize_entries (reserved : list region) (h : heap) (entries : list map_entry) : outcome heap :=
  match entries with
  | [] => Ok h
  | entry :: entries' =>
      let* h := initialize_entry reserved h entry in initialize_entries reserved h entries'
  end.

Definition initialize_impl (kernel : region) (modules : list region) (entries : list map_entry) : outcome heap :=
  match entries with
  | [] => Panic
  | _ =>
      let* reserved := get_reserved_regions kernel modules in
      initialize_entries reserved [] entries
  end.

(** Appending the whole pages of one boot module. *)
Definition release_boot_module (h : heap) (m : region) : outcome heap :=
  let start := r_paddr m in
  let rem := start `mod` PAGE_SIZE in
  let start := if negb (rem =? 0) then u64 (start + u64 (PAGE_SIZE - rem)) else start in
  let end_ := u64 (r_paddr m + r_size m) in
  let rem := end_ `mod` PAGE_SIZE in
  let end_ := if negb (rem =? 0) then u64 (end_ - rem) else end_ in
  let* h := append_region_nolock h start (u64 (end_ - start)) in
  (* m_physical_ranges.back() *)
  ASSERT (negb (Nat.eqb (length h) 0)) in Ok h.

Fixpoint release_boot_modules (h : heap) (modules : list region) : outcome heap :=
  match modules with
  | [] => Ok h
  | m :: modules' => let* h := release_boot_module h m in release_boot_modules h modules'
  end.

Fixpoint take_free_page (h : heap) : outcome (heap * Z) :=
  match h with
  | [] => Ok ([], 0)
  | r :: rs =>
      if 1 <=? free_pages r then
        let* (r, paddr) := reserve_page r in Ok (r :: rs, paddr)
      else let* (rs, paddr) := take_free_page rs in Ok (r :: rs, paddr)
  end.

Fixpoint release_page (h : heap) (paddr : Z) : outcome heap :=
  match h with
  | [] => Panic
  | r :: rs =>
      if contains r paddr then
        let* r := PhysicalRange.release_page r paddr in Ok (r :: rs)
      else let* rs := release_page rs paddr in Ok (r :: rs)
  end.

Fixpoint take_free_contiguous_pages (h : heap) (pages : Z) : outcome (heap * Z) :=
  match h with
  | [] => Ok ([], 0)
  | r :: rs =>
      if pages <=? free_pages r then
        let* (r, paddr) := reserve_contiguous_pages r pages in
        if negb (paddr =? 0) then Ok (r :: rs, paddr)
        else let* (rs, paddr) := take_free_contiguous_pages rs pages in Ok (r :: rs, paddr)
      else let* (rs, paddr) := take_free_contiguous_pages rs pages in Ok (r :: rs, paddr)
  end.

Fixpoint release_contiguous_pages (h : heap) (paddr pages : Z) : outcome heap :=
  match h with
  | [] => Panic
  | r :: rs =>
      if contains r paddr then
        let* r := PhysicalRange.release_contiguous_pages r paddr pages in Ok (r :: rs)
      else let* rs := release_contiguous_pages rs paddr pages in Ok (r :: rs)
  end.

Fixpoint used_pages (h : heap) : Z :=
  match h with [] => 0 | r :: rs => u64 (PhysicalRange.used_pages r + used_pages rs) end.

Fixpoint free_pages (h : heap) : Z :=
  match h with [] => 0 | r :: rs => u64 (PhysicalRange.free_pages r + free_pages rs) end.

(** ** Invariant *)
Definition range_top (r : PhysicalRange.t) : Z := m_paddr r + m_page_count r * PAGE_SIZE.

Definition ranges_disjoint (r1 r2 : PhysicalRange.t) : Prop :=
  range_top r1 <= m_paddr r2 \/ range_top r2 <= m_paddr r1.

(** Every range is well formed, lies above page 0 (so that address 0 can mean
    failure), and no two ranges share memory. *)
Definition heap_wf (h : heap) : Prop :=
  Forall (fun r => wf r /\ 0 < m_paddr r) h /\
  (forall i j r1 r2, i <> j -> h !! i = Some r1 -> h !! j = Some r2 -> ranges_disjoint r1 r2).

(** The page at address [a] is handed out (or holds a bitmap). *)
Definition owned (h : heap) (a : Z) : Prop :=
  exists k r i, h !! k = Some r /\ 0 <= i < m_page_count r /\ a = page_addr r i /\ used r i = true.

Lemma heap_wf_cons r h :
  heap_wf (r :: h) <->
  wf r /\ 0 < m_paddr r /\ heap_wf h /\ (forall r', r' ∈ h -> ranges_disjoint r r').
Proof.
  split.
  - intros [Hall Hd]. apply Forall_cons_1 in Hall as [[Hr Hp] Hall].
    split_and!; [done|done| |].
    + split; [done|]. intros i j r1 r2 Hij H1 H2. apply (Hd (S i) (S j)); [lia|done|done].
    + intros r' Hr'. apply list_elem_of_lookup in Hr' as [i Hi].
      by apply (Hd O (S i)).
  - intros (Hr & Hp & [Hall Hd] & Hdis). split; [by constructor|].
    intros [|i] [|j] r1 r2 Hij H1 H2; cbn in H1, H2; simplify_eq; [| |].
    + apply Hdis, list_elem_of_lookup. eauto.
    + assert (ranges_disjoint r2 r1) as Hx by (apply Hdis, list_elem_of_lookup; eauto).
      unfold ranges_disjoint in *. lia.
    + apply (Hd i j); [congruence|done|done].
Qed.

Lemma heap_wf_lookup h k r : heap_wf h -> h !! k = Some r -> wf r /\ 0 < m_paddr r.
Proof. intros [Hall _] Hk. by eapply Forall_lookup_1 in Hall. Qed.

(** An address lies in at most one range. *)
Lemma same_range h k k' r r' a :
  heap_wf h -> h !! k = Some r -> h !! k' = Some r' ->
  m_paddr r <= a < range_top r -> m_paddr r' <= a < range_top r' -> k = k'.
Proof.
  intros [_ Hd] H1 H2 Ha Ha'. destruct (decide (k = k')); [done|].
  destruct (Hd k k' r r') as [H|H]; [done|done|done|lia|lia].
Qed.

Lemma page_in_range r i : 0 <= i < m_page_count r -> m_paddr r <= page_addr r i < range_top r.
Proof. unfold page_addr, range_top. lia. Qed.

(** Replacing one range by another over the same memory. *)
Lemma heap_wf_insert h k r r' :
  heap_wf h -> h !! k = Some r -> wf r' -> m_paddr r' = m_paddr r ->
  m_page_count r' = m_page_count r -> heap_wf (<[k := r']> h).
Proof.
  intros Hwf Hk Hr' Hp Hc. pose proof (heap_wf_lookup h k r Hwf Hk) as [_ Hpos].
  destruct Hwf as [Hall Hd]. pose proof (lookup_lt_Some _ _ _ Hk).
  split; [apply Forall_insert; [done|split; [done|lia]]|].
  assert (Hget : forall i x, <[k := r']> h !! i = Some x ->
    exists y, h !! i = Some y /\ m_paddr x = m_paddr y /\ range_top x = range_top y).
  { intros i x Hx. destruct (decide (i = k)) as [->|].
    - rewrite list_lookup_insert_eq in Hx by done. simplify_eq. exists r.
      unfold range_top. rewrite Hp, Hc. done.
    - rewrite list_lookup_insert_ne in Hx by done. eauto. }
  intros i j r1 r2 Hij H1 H2.
  apply Hget in H1 as (y1 & H1 & E1 & T1). apply Hget in H2 as (y2 & H2 & E2 & T2).
  unfold ranges_disjoint. rewrite E1, E2, T1, T2. by apply (Hd i j).
Qed.

(** ** The effect of an operation on one range of the heap *)
Lemma owned_insert h k r r' a :
  heap_wf h -> h !! k = Some r -> m_paddr r' = m_paddr r -> m_page_count r' = m_page_count r ->
  owned (<[k := r']> h) a <->
  (exists i, 0 <= i < m_page_count r /\ a = page_addr r i /\ used r' i = true) \/
  (owned h a /\ forall i, 0 <= i < m_page_count r -> a <> page_addr r i).
Proof.
  intros Hwf Hk Hp Hc. pose proof (lookup_lt_Some _ _ _ Hk). split.
  - intros (k' & x & i & Hx & Hi & -> & Hu). destruct (decide (k' = k)) as [->|Hne].
    + rewrite list_lookup_insert_eq in Hx by done. simplify_eq. left. exists i.
      rewrite <- Hc. unfold page_addr. rewrite Hp. done.
    + rewrite list_lookup_insert_ne in Hx by done. right. split; [exists k', x, i; done|].
      intros j Hj He. apply Hne. apply (same_range h k' k x r (page_addr x i)); [done..|by apply page_in_range|].
      rewrite He. by apply page_in_range.
  - intros [(i & Hi & -> & Hu)|[(k' & x & i & Hx & Hi & -> & Hu) Hno]].
    + exists k, r', i. rewrite list_lookup_insert_eq by done.
      unfold page_addr. rewrite Hp, Hc. done.
    + assert (k' <> k) by (intros ->; simplify_eq; by apply (Hno i)).
      exists k', x, i. rewrite list_lookup_insert_ne by done. done.
Qed.

(** [h'] is [h] with the run of [n] pages at [a] handed out. *)
Definition run_page (a n p : Z) : Prop := exists j, 0 <= j < n /\ p = a + j * PAGE_SIZE.

Lemma reserve_effect h k r r' i n :
  heap_wf h -> h !! k = Some r -> reserved r i n r' -> 0 < i -> 0 < n -> i + n <= m_page_count r ->
  heap_wf (<[k := r']> h) /\
  (forall p, run_page (page_addr r i) n p -> ~ owned h p) /\
  (forall p, owned (<[k := r']> h) p <-> owned h p \/ run_page (page_addr r i) n p).
Proof.
  intros Hwf Hk (Hr' & Hp & Hc & Hf & Hfree & Hbits) Hi Hn Hin.
  assert (Hrun : forall p, run_page (page_addr r i) n p <->
    exists j, i <= j < i + n /\ p = page_addr r j).
  { intros p. unfold run_page, page_addr. split; intros (j & Hj & ->).
    - exists (i + j). split; lia.
    - exists (j - i). split; lia. }
  split_and!; [by apply (heap_wf_insert h k r)| |].
  - intros p Hp'. rewrite Hrun in Hp'. destruct Hp' as (j & Hj & ->).
    intros (k' & x & m & Hx & Hm & He & Hu).
    assert (k = k') as <-.
    { apply (same_range h k k' r x (page_addr r j)); [done..|apply page_in_range; lia|].
      rewrite He. by apply page_in_range. }
    simplify_eq. assert (j = m) as <- by (unfold page_addr in He; lia).
    rewrite Hfree in Hu by lia. done.
  - intros p. rewrite (owned_insert h k r r' p Hwf Hk Hp Hc), Hrun. split.
    + intros [(m & Hm & -> & Hu)|[Ho _]]; [|by left]. rewrite Hbits in Hu by lia.
      apply orb_true_iff in Hu as [Hu|Hu].
      * right. exists m. split; [by apply in_run_spec|done].
      * left. exists k, r, m. done.
    + intros [Ho|(j & Hj & ->)].
      * destruct Ho as (k' & x & m & Hx & Hm & -> & Hu). destruct (decide (k' = k)) as [->|Hne].
        -- left. simplify_eq. exists m. split_and!; [lia|lia|done|].
           rewrite Hbits, Hu by lia. apply orb_true_r.
        -- right. split; [exists k', x, m; done|]. intros m' Hm' He. apply Hne.
           apply (same_range h k' k x r (page_addr x m)); [done..|by apply page_in_range|].
           rewrite He. by apply page_in_range.
      * left. exists j. split_and!; [lia|lia|done|].
        rewrite Hbits, (proj2 (in_run_spec i n j)) by lia. done.
Qed.

Lemma release_effect h k r r' i n :
  heap_wf h -> h !! k = Some r -> released r i n r' -> 0 < i -> 0 < n -> i + n <= m_page_count r ->
  heap_wf (<[k := r']> h) /\
  (forall p, owned (<[k := r']> h) p <-> owned h p /\ ~ run_page (page_addr r i) n p).
Proof.
  intros Hwf Hk (Hr' & Hp & Hc & Hf & Hbits) Hi Hn Hin.
  assert (Hrun : forall p, run_page (page_addr r i) n p <->
    exists j, i <= j < i + n /\ p = page_addr r j).
  { intros p. unfold run_page, page_addr. split; intros (j & Hj & ->).
    - exists (i + j). split; lia.
    - exists (j - i). split; lia. }
  split; [by apply (heap_wf_insert h k r)|].
  intros p. rewrite (owned_insert h k r r' p Hwf Hk Hp Hc), Hrun. split.
  - intros [(m & Hm & -> & Hu)|[Ho Hno]].
    + rewrite Hbits in Hu by lia. apply andb_true_iff in Hu as [Hm' Hu].
      split; [exists k, r, m; done|]. intros (j & Hj & He).
      assert (m = j) as -> by (unfold page_addr in He; lia).
      rewrite (proj2 (in_run_spec i n j)) in Hm' by lia. done.
    + split; [done|]. intros (j & Hj & ->). by apply (Hno j); [lia|].
  - intros [(k' & x & m & Hx & Hm & -> & Hu) Hno]. destruct (decide (k' = k)) as [->|Hne].
    + left. simplify_eq. exists m. split_and!; [lia|lia|done|].
      rewrite Hbits, Hu, andb_true_r by lia. apply negb_true_iff.
      destruct (in_run i n m) eqn:E; [|done]. apply in_run_spec in E.
      destruct Hno. exists m. split; [lia|done].
    + right. split; [exists k', x, m; done|]. intros m' Hm' He. apply Hne.
      apply (same_range h k' k x r (page_addr x m)); [done..|by apply page_in_range|].
      rewrite He. by apply page_in_range.
Qed.

(** ** The four operations *)
Lemma take_free_page_cases h :
  heap_wf h ->
  (exists k r r' i, h !! k = Some r /\ take_free_page h = Ok (<[k := r']> h, page_addr r i) /\
     0 < i < m_page_count r /\ reserved r i 1 r') \/
  (take_free_page h = Ok (h, 0) /\ Forall (fun r => m_free_pages r = 0) h).
Proof.
  induction h as [|r h IH]; intros Hwf; cbn [take_free_page]; [by right|].
  apply heap_wf_cons in Hwf as (Hr & Hp & Hwf & _). unfold PhysicalRange.free_pages.
  case_if; zify_bool.
  - left. destruct (reserve_page_ok r Hr ltac:(lia)) as (r' & i & -> & Hi & Hres & _).
    exists O, r, r', i. done.
  - pose proof (free_pages_bounds r Hr).
    destruct (IH Hwf) as [(k & r1 & r' & i & Hk & -> & Hi & Hres)|[-> Hall]].
    + left. exists (S k), r1, r', i. done.
    + right. split; [done|]. constructor; [lia|done].
Qed.

(** Finding the range of a page. *)
Lemma release_page_find h k r i :
  heap_wf h -> h !! k = Some r -> 0 <= i < m_page_count r ->
  release_page h (page_addr r i) =
  (let* r' := PhysicalRange.release_page r (page_addr r i) in Ok (<[k := r']> h)).
Proof.
  revert k. induction h as [|x h IH]; intros k Hwf Hk Hi; [done|]. cbn [release_page].
  pose proof Hwf as Hwf0. apply heap_wf_cons in Hwf as (Hx & Hp & Hwf & Hd).
  pose proof (page_in_range r i Hi) as Hpr. destruct k as [|k]; cbn in Hk.
  - simplify_eq. rewrite (contains_page r Hx i Hi). cbn.
    by destruct (PhysicalRange.release_page r (page_addr r i)).
  - assert (Hc : contains x (page_addr r i) = false).
    { apply not_true_iff_false. rewrite (contains_spec x Hx). intros Hc.
      assert (ranges_disjoint x r) as Hdis by (apply Hd, list_elem_of_lookup; eauto).
      unfold ranges_disjoint, range_top in *. lia. }
    rewrite Hc, (IH k Hwf Hk Hi).
    by destruct (PhysicalRange.release_page r (page_addr r i)).
Qed.

Lemma release_contiguous_find h k r i n :
  heap_wf h -> h !! k = Some r -> 0 <= i < m_page_count r ->
  release_contiguous_pages h (page_addr r i) n =
  (let* r' := PhysicalRange.release_contiguous_pages r (page_addr r i) n in Ok (<[k := r']> h)).
Proof.
  revert k. induction h as [|x h IH]; intros k Hwf Hk Hi; [done|]. cbn [release_contiguous_pages].
  apply heap_wf_cons in Hwf as (Hx & Hp & Hwf & Hd).
  pose proof (page_in_range r i Hi) as Hpr. destruct k as [|k]; cbn in Hk.
  - simplify_eq. rewrite (contains_page r Hx i Hi). cbn.
    by destruct (PhysicalRange.release_contiguous_pages r (page_addr r i) n).
  - assert (Hc : contains x (page_addr r i) = false).
    { apply not_true_iff_false. rewrite (contains_spec x Hx). intros Hc.
      assert (ranges_disjoint x r) as Hdis by (apply Hd, list_elem_of_lookup; eauto).
      unfold ranges_disjoint, range_top in *. lia. }
    rewrite Hc, (IH k Hwf Hk Hi).
    by destruct (PhysicalRange.release_contiguous_pages r (page_addr r i) n).
Qed.

Lemma take_contiguous_cases h n :
  heap_wf h -> 0 < n ->
  (exists k r r' i, h !! k = Some r /\ take_free_contiguous_pages h n = Ok (<[k := r']> h, page_addr r i) /\
     0 < i /\ i + n < m_page_count r /\ reserved r i n r') \/
  take_free_contiguous_pages h n = Ok (h, 0).
Proof.
  intros Hwf Hn. induction h as [|r h IH]; cbn [take_free_contiguous_pages]; [by right|].
  apply heap_wf_cons in Hwf as (Hr & Hp & Hwf & _). unfold PhysicalRange.free_pages.
  case_if; zify_bool.
  - destruct (reserve_contiguous_pages_ok r Hr n ltac:(lia))
      as [(r' & i & -> & Hi & Hin & Hres)|[-> _]].
    + assert (page_addr r i <> 0) by (unfold page_addr; lia).
      rewrite (proj2 (Z.eqb_neq _ _)) by done. left. exists O, r, r', i. done.
    + cbn [Z.eqb negb]. destruct (IH Hwf) as [(k & r1 & r' & i & Hk & -> & ? & ? & ?)| ->].
      * left. exists (S k), r1, r', i. done.
      * by right.
  - destruct (IH Hwf) as [(k & r1 & r' & i & Hk & -> & ? & ? & ?)| ->].
    + left. exists (S k), r1, r', i. done.
    + by right.
Qed.

(** ** Building the heap: what [append_region_nolock] adds *)

(** [l] is an ascending chain of well-formed ranges inside [[lo, hi)]. *)
Fixpoint chain (lo hi : Z) (l : heap) : Prop :=
  match l with
  | [] => lo <= hi
  | r :: l' => wf r /\ lo <= m_paddr r /\ chain (range_top r) hi l'
  end.

Lemma chain_le lo hi l : chain lo hi l -> lo <= hi.
Proof.
  revert lo. induction l as [|r l IH]; cbn; intros lo; [done|].
  intros (Hr & Hlo & Hc). apply IH in Hc. unfold range_top in Hc.
  pose proof (wf_count r Hr). lia.
Qed.

Lemma chain_weaken lo lo' hi l : lo' <= lo -> chain lo hi l -> chain lo' hi l.
Proof. destruct l; cbn; intros; [lia|]. destruct_and!; split_and!; [done|lia|done]. Qed.

Lemma chain_app lo mid hi l1 l2 : chain lo mid l1 -> chain mid hi l2 -> chain lo hi (l1 ++ l2).
Proof.
  revert lo. induction l1 as [|r l1 IH]; cbn; intros lo H1 H2.
  - by apply (chain_weaken mid).
  - destruct_and!; split_and!; [done|done|]. by apply IH.
Qed.

Lemma chain_elem lo hi l r : chain lo hi l -> r ∈ l -> wf r /\ lo <= m_paddr r /\ range_top r <= hi.
Proof.
  revert lo. induction l as [|x l IH]; cbn; intros lo Hc; [by inversion 1|].
  destruct Hc as (Hx & Hlo & Hc). pose proof (chain_le _ _ _ Hc).
  intros [->|Hr]%elem_of_cons; [done|].
  destruct (IH _ Hc Hr) as (? & ? & ?). pose proof (wf_count x Hx).
  unfold range_top in *. split_and!; [done|lia|lia].
Qed.

Lemma chain_heap_wf lo hi l : 0 < lo -> chain lo hi l -> heap_wf l.
Proof.
  revert lo. induction l as [|r l IH]; cbn; intros lo Hpos Hc.
  - split; [constructor|]. intros i j r1 r2 _ H. by rewrite lookup_nil in H.
  - destruct Hc as (Hr & Hlo & Hc). pose proof (wf_count r Hr). apply heap_wf_cons.
    split_and!; [done|lia| |].
    + apply (IH (range_top r)); [unfold range_top; lia|done].
    + intros r' Hr'. apply (chain_elem _ _ _ r' Hc) in Hr' as (_ & ? & _). by left.
Qed.

Lemma heap_wf_app h1 h2 :
  heap_wf h1 -> heap_wf h2 -> (forall r1 r2, r1 ∈ h1 -> r2 ∈ h2 -> ranges_disjoint r1 r2) ->
  heap_wf (h1 ++ h2).
Proof.
  induction h1 as [|r h1 IH]; cbn [app]; intros H1 H2 Hd; [done|].
  apply heap_wf_cons in H1 as (Hr & Hp & H1 & Hd1). apply heap_wf_cons.
  split_and!; [done|done| |].
  - apply IH; [done|done|]. intros r1 r2 Hr1. apply Hd. by apply elem_of_cons; right.
  - intros r' [?|?]%elem_of_app; [by apply Hd1|]. apply Hd; [|done].
    by apply elem_of_cons; left.
Qed.

(** The ranges of [l] hold every address of [[lo, hi)] except at most the last
    page, which alone is too small for a range. *)
Definition covers (l : heap) (a : Z) : Prop := exists r, r ∈ l /\ m_paddr r <= a < range_top r.

(** All pages but the bitmap of each range are free. *)
Definition fresh (r : PhysicalRange.t) : Prop := forall k, 0 <= k -> used r k = (k =? 0).

Lemma append_loop_ok fuel : forall h start bytes,
  0 <= start -> 0 <= bytes -> start `mod` PAGE_SIZE = 0 -> bytes `mod` PAGE_SIZE = 0 ->
  start + bytes < 2 ^ 64 -> bytes <= max_bytes * Z.of_nat fuel ->
  exists new, append_loop fuel h start bytes = Ok (h ++ new) /\
    chain start (start + bytes) new /\ Forall fresh new /\
    (forall a, start <= a < start + bytes - PAGE_SIZE -> covers new a).
Proof.
  induction fuel as [|fuel IH]; intros h start bytes Hs Hb Hsa Hba Htop Hfuel.
  { exists []. rewrite app_nil_r. cbn [append_loop]. rewrite (proj2 (Z.leb_gt _ _)) by lia. split_and!; [done|cbn; lia|by constructor|lia]. }
  cbn [append_loop]. case_if; zify_bool.
  2:{ exists []. rewrite app_nil_r. pose proof (Z.div_mod bytes PAGE_SIZE ltac:(done)).
      split_and!; [done|cbn; lia|by constructor|intros; lia]. }
  unfold Math.min.
  set (n := if bytes <? max_bytes then bytes else max_bytes).
  assert (Hn : 2 * PAGE_SIZE <= n <= bytes /\ n <= max_bytes /\ n `mod` PAGE_SIZE = 0 /\
               (n = bytes \/ n = max_bytes)).
  { subst n. unfold max_bytes. case_if; zify_bool; split_and!; try lia; done. }
  destruct Hn as (Hn & Hnm & Hna & Hcase).
  destruct (construct_ok start n Hs Hsa Hna) as (r & -> & Hr & Hp & Hc & _ & Hfresh); [lia|lia|].
  assert (Htr : range_top r = start + n).
  { unfold range_top. rewrite Hp, Hc. pose proof (Z.div_mod n PAGE_SIZE ltac:(done)). lia. }
  rewrite !wrap_id by lia.
  destruct (IH (h ++ [r]) (start + n) (bytes - n)) as (new & -> & Hch & Hfr & Hcov).
  - lia.
  - lia.
  - rewrite Z.add_mod, Hsa, Hna by done. done.
  - rewrite Zminus_mod, Hba, Hna. done.
  - lia.
  - destruct Hcase as [->| ->]; unfold max_bytes in *; lia.
  - exists (r :: new). rewrite <- app_assoc. cbn [app chain].
    rewrite Hp, Htr. replace (start + bytes) with (start + n + (bytes - n)) by lia.
    split_and!; [done|done|lia|done|by constructor|].
    intros a Ha. destruct (decide (a < start + n)).
    + exists r. split; [by apply elem_of_cons; left|lia].
    + destruct (Hcov a ltac:(lia)) as (x & Hx & ?). exists x.
      split; [by apply elem_of_cons; right|done].
Qed.

Lemma append_region_ok h start bytes :
  0 <= start -> 0 <= bytes -> start `mod` PAGE_SIZE = 0 -> bytes `mod` PAGE_SIZE = 0 ->
  start + bytes < 2 ^ 64 ->
  exists new, append_region_nolock h start bytes = Ok (h ++ new) /\
    chain start (start + bytes) new /\ Forall fresh new /\
    (forall a, start <= a < start + bytes - PAGE_SIZE -> covers new a).
Proof.
  intros. apply append_loop_ok; try done.
  pose proof (Z.div_mod bytes max_bytes ltac:(done)).
  pose proof (Z.mod_pos_bound bytes max_bytes ltac:(done)).
  pose proof (Z.div_pos bytes max_bytes ltac:(done) ltac:(done)).
  rewrite Nat2Z.inj_succ, Z2Nat.id by done. lia.
Qed.

(** ** Reserved regions *)
Definition region_top (r : region) : Z := r_paddr r + r_size r.

(** Aligned and inside the address space. *)
Definition region_ok (r : region) : Prop :=
  0 <= r_paddr r /\ 0 <= r_size r /\ region_top r < 2 ^ 64 /\
  r_paddr r `mod` PAGE_SIZE = 0 /\ r_size r `mod` PAGE_SIZE = 0.

Fixpoint regions_sorted (rs : list region) : Prop :=
  match rs with
  | [] => True
  | r :: rs' => (forall x, x ∈ rs' -> r_paddr r <= r_paddr x) /\ regions_sorted rs'
  end.

Lemma region_end_ok r : region_ok r -> region_end r = region_top r.
Proof. unfold region_ok, region_end, region_top. intros. apply wrap_id. lia. Qed.

Lemma carve_entry_ok rs : forall h e_start e_end,
  Forall region_ok rs -> regions_sorted rs ->
  0 <= e_start -> e_start <= e_end -> e_end < 2 ^ 64 ->
  e_start `mod` PAGE_SIZE = 0 -> e_end `mod` PAGE_SIZE = 0 ->
  exists new e', carve_entry rs h e_start e_end = Ok (h ++ new, e') /\
    e_start <= e' <= e_end /\ e' `mod` PAGE_SIZE = 0 /\
    chain e_start e' new /\ Forall fresh new /\
    (forall r x, r ∈ rs -> x ∈ new -> range_top x <= r_paddr r \/ region_top r <= m_paddr x) /\
    (forall r, r ∈ rs -> e_end <= r_paddr r \/ region_top r <= e' \/ e' = e_end) /\
    (forall a, e_start <= a -> a + PAGE_SIZE < e_end ->
       (forall r, r ∈ rs -> a + PAGE_SIZE < r_paddr r \/ region_top r <= a) -> covers new a \/ e' <= a).
Proof.
  induction rs as [|r rs IH]; intros h s e Hok Hsort Hs Hse He Hsa Hea; cbn [carve_entry].
  { exists [], s. rewrite app_nil_r. split_and!; try (done || (cbn; lia)).
    - by intros r x ?%not_elem_of_nil.
    - by intros r ?%not_elem_of_nil. }
  apply Forall_cons_1 in Hok as [Hr Hok]. destruct Hsort as [Hrle Hsort].
  rewrite (region_end_ok r Hr). pose proof Hr as (Hr0 & Hr1 & Hr2 & Hr3 & Hr4).
  assert (Hra : region_top r `mod` PAGE_SIZE = 0).
  { unfold region_top. rewrite Z.add_mod, Hr3, Hr4 by done. done. }
  case_if; zify_bool.
  { destruct (IH h s e Hok Hsort Hs Hse He Hsa Hea)
      as (new & e' & -> & He' & He'a & Hch & Hfr & Hdis & Hrest & Hcov).
    exists new, e'. split_and!; try (done || lia); [| |].
    - intros r0 x [->|Hr0']%elem_of_cons Hx; [|by apply Hdis].
      apply (chain_elem _ _ _ x Hch) in Hx as (_ & Hx & _). right. lia.
    - intros r0 [->|Hr0']%elem_of_cons; [right; left; lia|by apply Hrest].
    - intros a Ha Ha' Hno. apply Hcov; [done|done|]. intros r0 Hr0'. apply Hno.
      by apply elem_of_cons; right. }
  case_if; zify_bool.
  { exists [], s. rewrite app_nil_r. split_and!; try (done || (cbn; lia)); [|].
    - by intros r0 x _ ?%not_elem_of_nil.
    - intros r0 [->|Hr0']%elem_of_cons; [left; lia|left]. specialize (Hrle r0 Hr0'). lia. }
  assert (Hm : Math.max s (r_paddr r) = Z.max s (r_paddr r)) by apply Math.max_spec.
  set (m := Z.max s (r_paddr r)) in *.
  assert (Hma : m `mod` PAGE_SIZE = 0) by (subst m; destruct (Z.max_spec s (r_paddr r)) as [[_ ->]|[_ ->]]; done).
  rewrite Hm, wrap_id by lia.
  destruct (append_region_ok h s (m - s)) as (n1 & -> & Hc1 & Hf1 & Hcov1);
    [lia|lia|done|rewrite Zminus_mod, Hma, Hsa; done|lia|].
  replace (s + (m - s)) with m in * by lia.
  rewrite Math.max_spec, Math.min_spec.
  set (s' := Z.max s (Z.min e (region_top r))).
  assert (Hs'a : s' `mod` PAGE_SIZE = 0).
  { subst s'. destruct (Z.max_spec s (Z.min e (region_top r))) as [[_ ->]|[_ ->]]; [|done].
    destruct (Z.min_spec e (region_top r)) as [[_ ->]|[_ ->]]; done. }
  destruct (IH (h ++ n1) s' e Hok Hsort ltac:(lia) ltac:(lia) He Hs'a Hea)
    as (new & e' & -> & He' & He'a & Hch & Hfr & Hdis & Hrest & Hcov).
  exists (n1 ++ new), e'. rewrite app_assoc.
  assert (Hms : m <= s') by (unfold region_top in *; lia).
  split_and!; try (done || lia); [|by apply Forall_app| | |].
  - apply (chain_app s m); [done|]. by apply (chain_weaken s').
  - intros r0 x Hr0' [Hx|Hx]%elem_of_app.
    + apply (chain_elem _ _ _ x Hc1) in Hx as (Hx0 & Hx1 & Hx2).
      pose proof (wf_count x Hx0). unfold range_top in *.
      apply elem_of_cons in Hr0' as [->|Hr0']; [left; lia|]. specialize (Hrle r0 Hr0'). left. lia.
    + apply elem_of_cons in Hr0' as [->|Hr0']; [|by apply Hdis].
      apply (chain_elem _ _ _ x Hch) in Hx as (Hx0 & Hx1 & Hx2).
      pose proof (wf_count x Hx0). unfold range_top in *. right. lia.
  - intros r0 [->|Hr0']%elem_of_cons; [|by apply Hrest]. lia.
  - intros a Ha Ha' Hno.
    assert (Hn : a + PAGE_SIZE < r_paddr r \/ region_top r <= a)
      by (apply Hno, elem_of_cons; by left).
    destruct Hn as [Hn|Hn].
    + destruct (Hcov1 a ltac:(lia)) as (x & Hx & Hxa). left. exists x.
      split; [by apply elem_of_app; left|done].
    + destruct (Hcov a ltac:(lia) Ha') as [(x & Hx & Hxa)|Hle'].
      * intros r0 Hr0'. apply Hno. by apply elem_of_cons; right.
      * left. exists x. split; [by apply elem_of_app; right|done].
      * by right.
Qed.

(** ** One memory map entry *)
Definition entry_ok (e : map_entry) : Prop :=
  0 <= e_address e /\ 0 <= e_length e /\ e_address e + e_length e < 2 ^ 64 /\
  e_address e `mod` PAGE_SIZE = 0.

Definition avoids (rs : list region) (x : PhysicalRange.t) : Prop :=
  forall r, r ∈ rs -> range_top x <= r_paddr r \/ region_top r <= m_paddr x.

(** Memory that the heap has to offer: the page at [a] and its successor lie
    in the entry and meet no reserved region. *)
Definition usable_in (rs : list region) (e : map_entry) (a : Z) : Prop :=
  e_address e <= a /\ a + 2 * PAGE_SIZE <= e_address e + e_length e /\
  (forall r, r ∈ rs -> a + PAGE_SIZE < r_paddr r \/ region_top r <= a).

Lemma initialize_entry_ok rs h e :
  Forall region_ok rs -> regions_sorted rs -> e_type e = Available -> entry_ok e ->
  exists new, initialize_entry rs h e = Ok (h ++ new) /\
    chain (e_address e) (e_address e + e_length e) new /\ Forall fresh new /\
    Forall (avoids rs) new /\ (forall a, usable_in rs e a -> covers new a).
Proof.
  intros Hok Hsort Ht (Ha & Hl & Htop & Hal). unfold initialize_entry.
  rewrite Ht, Hal. cbn [Z.eqb negb]. rewrite (wrap_id 64 (_ + _)) by lia.
  set (top := e_address e + e_length e) in *.
  pose proof (Z.div_mod top PAGE_SIZE ltac:(done)) as Hdm.
  pose proof (Z.mod_pos_bound top PAGE_SIZE ltac:(done)) as Hmb.
  pose proof (Z.div_mod (e_address e) PAGE_SIZE ltac:(done)) as Hdma.
  assert (He : (if negb (top `mod` PAGE_SIZE =? 0) then u64 (top - top `mod` PAGE_SIZE) else top)
    = PAGE_SIZE * (top / PAGE_SIZE)).
  { case_if; zify_bool; [rewrite wrap_id|]; lia. }
  rewrite He. set (e_end := PAGE_SIZE * (top / PAGE_SIZE)) in *.
  assert (Hea : e_end `mod` PAGE_SIZE = 0) by (subst e_end; rewrite Z.mul_comm; apply Z_mod_mult).
  assert (Hle : e_address e <= e_end).
  { subst e_end. assert (e_address e / PAGE_SIZE <= top / PAGE_SIZE); [|lia].
    apply Z.div_le_mono; lia. }
  destruct (carve_entry_ok rs h (e_address e) e_end Hok Hsort)
    as (n1 & e' & -> & He' & Hea' & Hc1 & Hf1 & Hd1 & Hr1 & Hv1); [lia..|done|done|].
  rewrite wrap_id by lia.
  destruct (append_region_ok (h ++ n1) e' (e_end - e')) as (n2 & -> & Hc2 & Hf2 & Hv2);
    [lia|lia|done|rewrite Zminus_mod, Hea, Hea'; done|lia|].
  replace (e' + (e_end - e')) with e_end in * by lia.
  exists (n1 ++ n2). rewrite app_assoc. split_and!; [done| |by apply Forall_app| |].
  - apply (chain_app _ e'); [done|]. rewrite <- (app_nil_r n2). apply (chain_app _ e_end); [done|].
    cbn. lia.
  - apply list.Forall_forall. intros x [Hx|Hx]%elem_of_app r Hr; [by apply Hd1|].
    apply (chain_elem _ _ _ x Hc2) in Hx as (Hx0 & Hx1 & Hx2). pose proof (wf_count x Hx0).
    unfold range_top in *. specialize (Hr1 r Hr). lia.
  - intros a (Hu1 & Hu2 & Hu3). destruct (Hv1 a Hu1) as [(x & Hx & Hxa)|Hge]; [lia|done| |].
    + exists x. split; [by apply elem_of_app; left|done].
    + destruct (Hv2 a ltac:(lia)) as (x & Hx & Hxa). exists x.
      split; [by apply elem_of_app; right|done].
Qed.

(** ** The whole memory map *)
Definition entries_disjoint (e1 e2 : map_entry) : Prop :=
  e_address e1 + e_length e1 <= e_address e2 \/ e_address e2 + e_length e2 <= e_address e1.

Fixpoint map_ok (entries : list map_entry) : Prop :=
  match entries with
  | [] => True
  | e :: entries' =>
      (e_type e = Available ->
         entry_ok e /\ forall e', e' ∈ entries' -> e_type e' = Available -> entries_disjoint e e') /\
      map_ok entries'
  end.

Definition in_entry (e : map_entry) (x : PhysicalRange.t) : Prop :=
  e_address e <= m_paddr x /\ range_top x <= e_address e + e_length e.

Lemma initialize_entries_ok rs entries : forall h,
  Forall region_ok rs -> regions_sorted rs ->
  (exists r, r ∈ rs /\ r_paddr r = 0 /\ 0 < region_top r) -> map_ok entries -> heap_wf h ->
  (forall x e, x ∈ h -> e ∈ entries -> e_type e = Available ->
     range_top x <= e_address e \/ e_address e + e_length e <= m_paddr x) ->
  exists new, initialize_entries rs h entries = Ok (h ++ new) /\ heap_wf (h ++ new) /\
    Forall fresh new /\ Forall (avoids rs) new /\
    (forall x, x ∈ new -> exists e, e ∈ entries /\ e_type e = Available /\ in_entry e x) /\
    (forall e a, e ∈ entries -> e_type e = Available -> usable_in rs e a -> covers new a).
Proof.
  induction entries as [|e entries IH]; intros h Hok Hsort Hlow Hmap Hwf Hsep; cbn [initialize_entries].
  { exists []. rewrite app_nil_r. split_and!; try done.
    - by intros x ?%not_elem_of_nil.
    - by intros e a ?%not_elem_of_nil. }
  destruct Hmap as [He Hmap]. destruct (decide (e_type e = Available)) as [Ht|Ht].
  2:{ assert (Hskip : initialize_entry rs h e = Ok h) by (unfold initialize_entry; by destruct (e_type e)).
      rewrite Hskip. destruct (IH h Hok Hsort Hlow Hmap Hwf) as (new & -> & Hwf' & Hf & Hav & Hin & Hcov).
      { intros x e' Hx He'. apply Hsep; [done|by apply elem_of_cons; right]. }
      exists new. split_and!; [done|done|done|done| |].
      - intros x Hx. destruct (Hin x Hx) as (e' & He' & ?). exists e'.
        split; [by apply elem_of_cons; right|done].
      - intros e' a [->|He']%elem_of_cons; [done|]. by apply Hcov. }
  destruct (He Ht) as [Heok Hdis].
  destruct (initialize_entry_ok rs h e Hok Hsort Ht Heok) as (n1 & -> & Hc1 & Hf1 & Hav1 & Hcov1).
  assert (Hpos : forall x, x ∈ n1 -> 0 < m_paddr x).
  { intros x Hx. destruct Hlow as (r & Hr & Hr0 & Hrt).
    apply (chain_elem _ _ _ x Hc1) in Hx as Hx'. destruct Hx' as (Hx0 & Hx1 & _).
    eapply list.Forall_forall in Hav1; [|done]. specialize (Hav1 r Hr).
    pose proof (wf_count x Hx0). destruct Heok. unfold range_top in *. lia. }
  assert (Hwf1 : heap_wf (h ++ n1)).
  { apply heap_wf_app; [done| |].
    - destruct n1 as [|x n1]; [split; [constructor|by intros i j ? ? _ ?]|].
      apply (chain_heap_wf (m_paddr x) (e_address e + e_length e)).
      + apply Hpos, elem_of_cons. by left.
      + cbn in Hc1 |- *. destruct_and!. split_and!; [done|lia|done].
    - intros r1 r2 Hr1 Hr2. apply (chain_elem _ _ _ r2 Hc1) in Hr2 as (Hx0 & Hx1 & Hx2).
      destruct (Hsep r1 e Hr1) as [?|?]; [by apply elem_of_cons; left|done|left; lia|right; lia]. }
  destruct (IH (h ++ n1) Hok Hsort Hlow Hmap Hwf1) as (n2 & -> & Hwf' & Hf & Hav & Hin & Hcov).
  { intros x e' [Hx|Hx]%elem_of_app He' Ht'.
    - apply Hsep; [done|by apply elem_of_cons; right|done].
    - apply (chain_elem _ _ _ x Hc1) in Hx as (_ & Hx1 & Hx2).
      destruct (Hdis e' He' Ht') as [?|?]; [left; lia|right; lia]. }
  exists (n1 ++ n2). rewrite <- app_assoc in *.
  split_and!; [done|done|by apply Forall_app|by apply Forall_app| |].
  - intros x [Hx|Hx]%elem_of_app.
    + exists e. split_and!; [by apply elem_of_cons; left|done|].
      apply (chain_elem _ _ _ x Hc1) in Hx as (_ & ? & ?). done.
    + destruct (Hin x Hx) as (e' & He' & ?). exists e'. split; [by apply elem_of_cons; right|done].
  - intros e' a [->|He']%elem_of_cons Ht' Hu.
    + destruct (Hcov1 a Hu) as (x & Hx & ?). exists x. split; [by apply elem_of_app; left|done].
    + destruct (Hcov e' a He' Ht' Hu) as (x & Hx & ?). exists x.
      split; [by apply elem_of_app; right|done].
Qed.

(** ** The list of reserved regions *)
#[export] Instance region_less_swo : StrictWeakOrder region_less.
Proof.
  split; unfold region_less.
  - intros [p z]; cbn. rewrite Z.eqb_refl. apply Z.ltb_irrefl.
  - intros [p1 z1] [p2 z2] [p3 z3]; cbn. repeat case_if; intros; zify_bool; lia.
  - intros [p1 z1] [p2 z2] [p3 z3]; cbn. repeat case_if; intros; zify_bool; lia.
Qed.

Definition region_bounded (r : region) : Prop :=
  0 <= r_paddr r /\ 0 <= r_size r /\ region_top r + 2 * PAGE_SIZE < 2 ^ 64.

(** [r] lies inside [R]. *)
Definition inside (r R : region) : Prop := r_paddr R <= r_paddr r /\ region_top r <= region_top R.

(** The pages at [a] and after it do not meet [r]. *)
Definition clear_of (a : Z) (r : region) : Prop := a + PAGE_SIZE < r_paddr r \/ region_top r <= a.

Lemma page_align_region_ok r :
  region_bounded r ->
  region_ok (page_align_region r) /\ inside r (page_align_region r) /\
  r_paddr r - PAGE_SIZE < r_paddr (page_align_region r) /\
  region_top (page_align_region r) < region_top r + PAGE_SIZE.
Proof.
  intros (Hp & Hs & Ht). unfold region_top in Ht. unfold page_align_region.
  pose proof (Z.div_mod (r_paddr r) PAGE_SIZE ltac:(done)).
  pose proof (Z.mod_pos_bound (r_paddr r) PAGE_SIZE ltac:(done)).
  pose proof (Z.div_pos (r_paddr r) PAGE_SIZE Hp ltac:(done)).
  set (rem := r_paddr r `mod` PAGE_SIZE) in *. set (q := r_paddr r / PAGE_SIZE) in *.
  rewrite (wrap_id 64 (r_paddr r - rem)), (wrap_id 64 (r_size r + rem)) by lia.
  set (z := r_size r + rem).
  pose proof (Z.div_mod z PAGE_SIZE ltac:(done)). pose proof (Z.mod_pos_bound z PAGE_SIZE ltac:(done)).
  pose proof (Z.div_pos z PAGE_SIZE ltac:(lia) ltac:(done)).
  set (zr := z `mod` PAGE_SIZE) in *. set (zq := z / PAGE_SIZE) in *.
  assert (Hz : exists zq', (if negb (zr =? 0) then u64 (z + u64 (PAGE_SIZE - zr)) else z) = zq' * PAGE_SIZE /\
                 z <= zq' * PAGE_SIZE < z + PAGE_SIZE).
  { case_if; zify_bool.
    - exists (zq + 1). rewrite (wrap_id 64 (PAGE_SIZE - zr)), wrap_id by lia. lia.
    - exists zq. lia. }
  destruct Hz as (zq' & -> & Hz). unfold region_ok, inside, region_top. cbn.
  assert ((r_paddr r - rem) `mod` PAGE_SIZE = 0)
    by (replace (r_paddr r - rem) with (q * PAGE_SIZE) by lia; apply Z_mod_mult).
  rewrite Z_mod_mult. split_and!; lia.
Qed.

Lemma combine_regions_ok rest : forall prev,
  Forall region_ok (prev :: rest) -> regions_sorted (prev :: rest) ->
  Forall region_ok (combine_regions prev rest) /\ regions_sorted (combine_regions prev rest) /\
  (forall R, R ∈ combine_regions prev rest -> exists r, r ∈ prev :: rest /\ r_paddr R = r_paddr r) /\
  (forall r, r ∈ prev :: rest -> exists R, R ∈ combine_regions prev rest /\ inside r R) /\
  (forall a, (forall r, r ∈ prev :: rest -> clear_of a r) ->
     forall R, R ∈ combine_regions prev rest -> clear_of a R).
Proof.
  induction rest as [|curr rest IH]; intros prev Hok Hsort; cbn [combine_regions].
  { split_and!; [done|done| | |done].
    - intros R HR. exists R. done.
    - intros r Hr. exists r. unfold inside. split; [done|lia]. }
  apply Forall_cons_1 in Hok as [Hprev Hok]. pose proof Hok as Hok0.
  apply Forall_cons_1 in Hok0 as [Hcurr Hrest].
  destruct Hsort as [Hle Hsort]. pose proof Hsort as [Hle' Hsort'].
  assert (Hpc : r_paddr prev <= r_paddr curr) by (apply Hle, elem_of_cons; by left).
  rewrite (region_end_ok prev Hprev), (region_end_ok curr Hcurr).
  destruct Hprev as (Hp0 & Hp1 & Hp2 & Hp3 & Hp4). destruct Hcurr as (Hc0 & Hc1 & Hc2 & Hc3 & Hc4).
  case_if; zify_bool.
  - destruct (IH curr Hok Hsort) as (H1 & H2 & H3 & H4 & H5). split_and!.
    + constructor; [done|done].
    + split; [|done]. intros R HR. apply H3 in HR as (r & Hr & ->). by apply Hle.
    + intros R [->|HR]%elem_of_cons; [exists prev; split; [by apply elem_of_cons; left|done]|].
      apply H3 in HR as (r & Hr & ->). exists r. split; [by apply elem_of_cons; right|done].
    + intros r [->|Hr]%elem_of_cons.
      * exists prev. split; [by apply elem_of_cons; left|unfold inside; lia].
      * apply H4 in Hr as (R & HR & ?). exists R. split; [by apply elem_of_cons; right|done].
    + intros a Ha R [->|HR]%elem_of_cons; [apply Ha, elem_of_cons; by left|].
      apply (H5 a); [|done]. intros r Hr. apply Ha, elem_of_cons. by right.
  - assert (Hov : r_paddr curr <= region_top prev) by (unfold region_top in *; lia).
    rewrite Math.max_spec, wrap_id by (unfold region_top in *; lia).
    set (m := mk_region (r_paddr prev) (Z.max (r_size prev) (region_top curr - r_paddr prev))).
    assert (Hmt : region_top m = Z.max (region_top prev) (region_top curr))
      by (unfold m, region_top; cbn; lia).
    assert (Hm : region_ok m).
    { unfold region_ok. rewrite Hmt. subst m; cbn [r_paddr r_size]. split_and!; [lia|lia|lia|done|].
      destruct (Z.max_spec (r_size prev) (region_top curr - r_paddr prev)) as [[_ ->]|[_ ->]]; [|done].
      unfold region_top. rewrite Zminus_mod, Z.add_mod, Hc3, Hc4, Hp3 by done. done. }
    destruct (IH m) as (H1 & H2 & H3 & H4 & H5).
    { by constructor. }
    { split; [|done]. intros x Hx. apply Hle, elem_of_cons. by right. }
    split_and!; [done|done| | |].
    + intros R HR. apply H3 in HR as (r & [->|Hr]%elem_of_cons & ->).
      * exists prev. split; [by apply elem_of_cons; left|done].
      * exists r. split; [|done]. do 2 (apply elem_of_cons; right). done.
    + assert (Hmin : exists R, R ∈ combine_regions m rest /\ inside m R)
        by (apply H4, elem_of_cons; by left).
      destruct Hmin as (R & HR & HR1 & HR2). subst m; cbn [r_paddr] in *.
      intros r [->|[->|Hr]%elem_of_cons]%elem_of_cons.
      * exists R. unfold inside. split; [done|lia].
      * exists R. unfold inside. split; [done|lia].
      * apply H4, elem_of_cons. by right.
    + intros a Ha. apply H5. intros r [->|Hr]%elem_of_cons.
      * assert (clear_of a prev) as [?|?] by (apply Ha, elem_of_cons; by left); [by left|].
        assert (clear_of a curr) as [?|?]
          by (apply Ha, elem_of_cons; right; apply elem_of_cons; by left); [lia|right; lia].
      * apply Ha. do 2 (apply elem_of_cons; right). done.
Qed.

Lemma regions_sorted_index rs :
  (forall i j x y, (i < j)%nat -> rs !! i = Some x -> rs !! j = Some y -> r_paddr x <= r_paddr y) ->
  regions_sorted rs.
Proof.
  induction rs as [|r rs IH]; [done|]. intros H. split.
  - intros x [j Hj]%list_elem_of_lookup. by apply (H O (S j)); [lia| |].
  - apply IH. intros i j x y Hij Hx Hy. by apply (H (S i) (S j)); [lia| |].
Qed.

Definition all_reserved (kernel : region) (modules : list region) : list region :=
  mk_region 0 0x100000 :: kernel :: modules.

Lemma get_reserved_regions_ok kernel modules :
  Forall region_bounded (all_reserved kernel modules) ->
  exists rs, get_reserved_regions kernel modules = Ok rs /\
    Forall region_ok rs /\ regions_sorted rs /\
    (forall r, r ∈ all_reserved kernel modules -> exists R, R ∈ rs /\ inside r R) /\
    (forall a, (forall r, r ∈ all_reserved kernel modules ->
         a + 2 * PAGE_SIZE <= r_paddr r \/ region_top r + PAGE_SIZE <= a) ->
       forall R, R ∈ rs -> clear_of a R).
Proof.
  intros Hb. unfold get_reserved_regions. fold (all_reserved kernel modules).
  set (l := map page_align_region (all_reserved kernel modules)).
  assert (Hal : forall r, r ∈ all_reserved kernel modules -> region_bounded r)
    by (intros r Hr; by eapply list.Forall_forall in Hb).
  assert (Hl : forall r', r' ∈ l <-> exists r, r' = page_align_region r /\ r ∈ all_reserved kernel modules)
    by (intros r'; apply list_elem_of_fmap).
  destruct (Sort.intro_sort_sorts region_less 0%nat (length l) l) as (l' & Hs & [HP _] & Hsorted); [lia|lia|].
  unfold Sort.sort. rewrite Hs.
  destruct l' as [|first rest]; [by apply Permutation_length in HP|].
  assert (Hin : forall r', r' ∈ first :: rest <-> r' ∈ l) by (intros; by rewrite HP).
  destruct (combine_regions_ok rest first) as (H1 & H2 & _ & H4 & H5).
  - apply list.Forall_forall. intros r' (r & -> & Hr)%Hin%Hl. by apply page_align_region_ok, Hal.
  - apply regions_sorted_index. intros i j x y Hij Hx Hy.
    assert (Hlen : length l = length (first :: rest)) by by rewrite HP.
    assert (region_less y x = false) as Hlt.
    { apply (Hsorted i j); [lia| |done|done]. apply lookup_lt_Some in Hy. lia. }
    unfold region_less in Hlt. repeat case_if_in Hlt; zify_bool; lia.
  - exists (combine_regions first rest). split_and!; [done|done|done| |].
    + intros r Hr. destruct (page_align_region_ok r (Hal r Hr)) as (_ & [Ha Hb'] & _).
      destruct (H4 (page_align_region r)) as (R & HR & [Hc Hd]); [apply Hin, Hl; eauto|].
      exists R. unfold inside. split; [done|lia].
    + intros a Ha. apply H5. intros r' (r & -> & Hr)%Hin%Hl. specialize (Ha r Hr).
      destruct (page_align_region_ok r (Hal r Hr)) as (_ & _ & Hc & Hd).
      unfold clear_of. lia.
Qed.

(** ** Clients of the heap *)

(** The pages of a run. *)
Definition pages_of (run : Z * Z) : list Z := map (fun j => fst run + j * PAGE_SIZE) (seqZ 0 (snd run)).

Lemma elem_of_pages a n p : p ∈ pages_of (a, n) <-> run_page a n p.
Proof.
  unfold pages_of, run_page; cbn. rewrite list_elem_of_fmap.
  split; intros (j & H1 & H2); exists j; rewrite elem_of_seqZ in *; split; (done || lia).
Qed.

Lemma NoDup_pages run : NoDup (pages_of run).
Proof. apply NoDup_fmap_2; [intros i j ?; lia|apply NoDup_seqZ]. Qed.

(** Kernel code that owns runs of pages: it may take pages, and give back runs
    it holds.  [held] lists what it holds now. *)
Inductive client_step : heap * list (Z * Z) -> heap * list (Z * Z) -> Prop :=
| step_take h held h' a :
    take_free_page h = Ok (h', a) -> a <> 0 -> client_step (h, held) (h', (a, 1) :: held)
| step_take_fail h held h' :
    take_free_page h = Ok (h', 0) -> client_step (h, held) (h', held)
| step_release h held held' h' a :
    held ≡ₚ (a, 1) :: held' -> release_page h a = Ok h' -> client_step (h, held) (h', held')
| step_take_contiguous h held h' a n :
    0 < n -> take_free_contiguous_pages h n = Ok (h', a) -> a <> 0 ->
    client_step (h, held) (h', (a, n) :: held)
| step_take_contiguous_fail h held h' n :
    0 < n -> take_free_contiguous_pages h n = Ok (h', 0) -> client_step (h, held) (h', held)
| step_release_contiguous h held held' h' a n :
    held ≡ₚ (a, n) :: held' -> release_contiguous_pages h a n = Ok h' ->
    client_step (h, held) (h', held').

(** The run [(a, n)] lies in one range, above its bitmap page. *)
Definition located (h : heap) (run : Z * Z) : Prop :=
  exists k r i, h !! k = Some r /\ 0 < i /\ 0 < snd run /\ i + snd run <= m_page_count r /\
    fst run = page_addr r i.

Record ledger (s : heap * list (Z * Z)) : Prop := {
  ledger_wf : heap_wf (fst s);
  ledger_nodup : NoDup (snd s ≫= pages_of);
  ledger_owned : forall p, p ∈ snd s ≫= pages_of -> owned (fst s) p;
  ledger_located : Forall (located (fst s)) (snd s)
}.

Lemma located_insert h k r r' run :
  h !! k = Some r -> m_paddr r' = m_paddr r -> m_page_count r' = m_page_count r ->
  located h run -> located (<[k := r']> h) run.
Proof.
  intros Hk Hp Hc (k' & x & i & Hx & H). destruct (decide (k' = k)) as [->|].
  - simplify_eq. exists k, r', i. rewrite list_lookup_insert_eq by (by eapply lookup_lt_Some).
    unfold page_addr in *. rewrite Hp, Hc. done.
  - exists k', x, i. rewrite list_lookup_insert_ne by done. done.
Qed.

Lemma owned_used h k r i :
  heap_wf h -> h !! k = Some r -> 0 <= i < m_page_count r -> owned h (page_addr r i) -> used r i = true.
Proof.
  intros Hwf Hk Hi (k' & x & j & Hx & Hj & He & Hu).
  assert (k = k') as <-.
  { apply (same_range h k k' r x (page_addr r i)); [done..|by apply page_in_range|].
    rewrite He. by apply page_in_range. }
  simplify_eq. assert (i = j) as -> by (unfold page_addr in He; lia). done.
Qed.

(** Handing out a run keeps the ledger. *)
Lemma ledger_reserve h held k r r' i n :
  ledger (h, held) -> h !! k = Some r -> reserved r i n r' -> 0 < i -> 0 < n ->
  i + n <= m_page_count r -> ledger (<[k := r']> h, (page_addr r i, n) :: held).
Proof.
  intros [Hwf Hnd Ho Hl] Hk Hres Hi Hn Hin. cbn in *. pose proof Hres as (_ & Hp & Hc & _).
  destruct (reserve_effect h k r r' i n Hwf Hk Hres Hi Hn Hin) as (Hwf' & Hfree & Hown).
  constructor; cbn.
  - done.
  - apply list.NoDup_app. split_and!; [apply NoDup_pages| |done].
    intros p Hp1 Hp2. apply elem_of_pages in Hp1. by apply (Hfree p), Ho.
  - intros p [Hp1|Hp1]%elem_of_app; apply Hown.
    + right. by apply elem_of_pages.
    + left. by apply Ho.
  - constructor.
    + exists k, r', i. rewrite list_lookup_insert_eq by (by eapply lookup_lt_Some).
      unfold page_addr. rewrite Hp, Hc. done.
    + eapply list.Forall_impl; [apply Hl|]. intros run. by apply (located_insert h k r r').
Qed.

(** Giving a run back keeps the ledger. *)
Lemma ledger_release h held held' k r r' i n :
  ledger (h, held) -> held ≡ₚ (page_addr r i, n) :: held' -> h !! k = Some r -> released r i n r' ->
  0 < i -> 0 < n -> i + n <= m_page_count r -> ledger (<[k := r']> h, held').
Proof.
  intros [Hwf Hnd Ho Hl] HP Hk Hres Hi Hn Hin. cbn in *. pose proof Hres as (_ & Hp & Hc & _).
  destruct (release_effect h k r r' i n Hwf Hk Hres Hi Hn Hin) as (Hwf' & Hown).
  rewrite HP in Hnd, Hl. cbn in Hnd. apply list.NoDup_app in Hnd as (_ & Hsep & Hnd).
  constructor; cbn; [done|done| |].
  - intros p Hp1. apply Hown. split.
    + apply Ho. rewrite HP. cbn. by apply elem_of_app; right.
    + intros Hr. by apply (Hsep p); [apply elem_of_pages|].
  - apply Forall_cons_1 in Hl as [_ Hl]. eapply list.Forall_impl; [apply Hl|].
    intros run. by apply (located_insert h k r r').
Qed.

(** A held run can be given back. *)
Lemma held_run h held held' a n :
  ledger (h, held) -> held ≡ₚ (a, n) :: held' ->
  exists k r i, h !! k = Some r /\ wf r /\ a = page_addr r i /\ 0 < i /\ 0 < n /\
    i + n <= m_page_count r /\ (forall j, i <= j < i + n -> used r j = true).
Proof.
  intros [Hwf Hnd Ho Hl] HP. cbn in *. rewrite HP in Hl. apply Forall_cons_1 in Hl as [Hrun _].
  destruct Hrun as (k & r & i & Hk & Hi & Hn & Hin & Ha). cbn in *.
  pose proof (heap_wf_lookup h k r Hwf Hk) as [Hr _].
  exists k, r, i. split_and!; try done. intros j Hj. apply (owned_used h k); [done|done|lia|].
  apply Ho. rewrite HP. cbn. apply elem_of_app. left. apply elem_of_pages.
  exists (j - i). unfold page_addr in *. split; lia.
Qed.

Lemma release_page_held h held held' a :
  ledger (h, held) -> held ≡ₚ (a, 1) :: held' ->
  exists h', release_page h a = Ok h' /\ ledger (h', held').
Proof.
  intros HL HP. destruct (held_run _ _ _ _ _ HL HP) as (k & r & i & Hk & Hr & -> & Hi & _ & Hin & Hu).
  destruct (release_page_ok r Hr i ltac:(lia) (Hu i ltac:(lia))) as (r' & Hrel & Hres).
  exists (<[k := r']> h). rewrite (release_page_find h k r i), Hrel by (done || apply HL || lia).
  split; [done|]. by apply (ledger_release h held held' k r r' i 1).
Qed.

Lemma release_contiguous_held h held held' a n :
  ledger (h, held) -> held ≡ₚ (a, n) :: held' ->
  exists h', release_contiguous_pages h a n = Ok h' /\ ledger (h', held').
Proof.
  intros HL HP. destruct (held_run _ _ _ _ _ HL HP) as (k & r & i & Hk & Hr & -> & Hi & Hn & Hin & Hu).
  destruct (release_contiguous_pages_ok r Hr i n Hi Hn Hin Hu) as (r' & Hrel & Hres).
  exists (<[k := r']> h). rewrite (release_contiguous_find h k r i), Hrel by (done || apply HL || lia).
  split; [done|]. by apply (ledger_release h held held' k r r' i n).
Qed.

Lemma client_step_ledger s s' : ledger s -> client_step s s' -> ledger s'.
Proof.
  intros HL Hs. destruct Hs as [h held h' a Ht Ha|h held h' Ht|h held held' h' a HP Hr
    |h held h' a n Hn Ht Ha|h held h' n Hn Ht|h held held' h' a n HP Hr].
  - destruct (take_free_page_cases h (ledger_wf _ HL)) as [(k & r & r' & i & Hk & He & Hi & Hres)|[He _]];
      rewrite He in Ht; simplify_eq; [].
    apply (ledger_reserve h held k r r' i 1); [done|done|done|lia..].
  - destruct (take_free_page_cases h (ledger_wf _ HL)) as [(k & r & r' & i & Hk & He & Hi & Hres)|[He _]];
      rewrite He in Ht; simplify_eq; [|done].
    pose proof (heap_wf_lookup h k r (ledger_wf _ HL) Hk). unfold page_addr in *. lia.
  - destruct (release_page_held h held held' a HL HP) as (h2 & Hr2 & ?).
    rewrite Hr in Hr2. by simplify_eq.
  - destruct (take_contiguous_cases h n (ledger_wf _ HL) Hn) as [(k & r & r' & i & Hk & He & Hi & Hin & Hres)|He];
      rewrite He in Ht; simplify_eq; [].
    apply (ledger_reserve h held k r r' i n); [done|done|done|lia..].
  - destruct (take_contiguous_cases h n (ledger_wf _ HL) Hn) as [(k & r & r' & i & Hk & He & Hi & Hin & Hres)|He];
      rewrite He in Ht; simplify_eq; [|done].
    pose proof (heap_wf_lookup h k r (ledger_wf _ HL) Hk). unfold page_addr in *. lia.
  - destruct (release_contiguous_held h held held' a n HL HP) as (h2 & Hr2 & ?).
    rewrite Hr in Hr2. by simplify_eq.
Qed.

Lemma ledger_reachable s s' : ledger s -> rtc client_step s s' -> ledger s'.
Proof. apply rtc_invariant, client_step_ledger. Qed.

(** A heap that works: a 1 MiB region at 2 MiB, as one range. *)
Definition sample_heap : heap :=
  match append_region_nolock [] 0x200000 0x100000 with Ok h => h | _ => [] end.

Lemma sample_heap_ok : heap_wf sample_heap.
Proof.
  destruct (append_region_ok [] 0x200000 0x100000) as (new & He & Hc & _); [done..|].
  unfold sample_heap. rewrite He. by apply (chain_heap_wf 0x200000 (0x200000 + 0x100000)).
Qed.

Lemma sample_heap_free : map m_free_pages sample_heap = [255].
Proof. vm_compute. reflexivity. Qed.

Lemma sample_heap_has_pages : ~ Forall (fun r => m_free_pages r = 0) sample_heap.
Proof.
  intros H. apply (List.Forall_map m_free_pages (fun z => z = 0)) in H.
  rewrite sample_heap_free in H. by apply Forall_cons_1 in H as [? _].
Qed.

(** ** Properties *)

(** C27: given a memory map whose available entries are page aligned and
    pairwise disjoint, initialisation succeeds; the heap it builds is well
    formed with every page free, each of its ranges lies inside one available
    entry and meets neither the first MiB, nor the kernel image, nor a boot
    module; and no usable page is lost: an available page that together with
    its successor stays a page clear of all reserved memory is in a range. *)
Theorem initialize_impl_correct (kernel : region) (modules : list region) (entries : list map_entry)
  (Hreserved : Forall region_bounded (all_reserved kernel modules))
  (Hmap : map_ok entries) (Hne : entries <> []) :
  exists h, initialize_impl kernel modules entries = Ok h /\ heap_wf h /\ Forall fresh h /\
    (forall x, x ∈ h -> exists e, e ∈ entries /\ e_type e = Available /\ in_entry e x) /\
    Forall (avoids (all_reserved kernel modules)) h /\
    (forall e a, e ∈ entries -> e_type e = Available -> e_address e <= a ->
       a + 2 * PAGE_SIZE <= e_address e + e_length e ->
       (forall r, r ∈ all_reserved kernel modules ->
          a + 2 * PAGE_SIZE <= r_paddr r \/ region_top r + PAGE_SIZE <= a) -> covers h a).
Proof.
  destruct (get_reserved_regions_ok kernel modules Hreserved) as (rs & Hrs & Hok & Hsort & Hin & Hclear).
  assert (Hlow : exists r, r ∈ rs /\ r_paddr r = 0 /\ 0 < region_top r).
  { destruct (Hin (mk_region 0 0x100000)) as (R & HR & [H1 H2]); [by apply elem_of_cons; left|].
    exists R. eapply list.Forall_forall in Hok; [|done]. destruct Hok.
    cbn in *. unfold region_top in *. cbn in *. split_and!; [done|lia|lia]. }
  destruct (initialize_entries_ok rs entries [] Hok Hsort Hlow Hmap)
    as (h & He & Hwf & Hfr & Hav & Hfrom & Hcov).
  { split; [constructor|]. by intros i j r1 r2 _ ?. }
  { by intros x e ?%not_elem_of_nil. }
  exists h. unfold initialize_impl. rewrite Hrs. destruct entries as [|e0 entries]; [done|].
  split_and!; [done|done|done|done| |].
  - apply list.Forall_forall. intros x Hx r Hr. destruct (Hin r Hr) as (R & HR & [H1 H2]).
    eapply list.Forall_forall in Hav; [|done]. destruct (Hav R HR); [left; lia|right; lia].
  - intros e a Hea Ht Ha1 Ha2 Hno. apply (Hcov e a Hea Ht). split_and!; [done|done|].
    by apply Hclear.
Qed.

Lemma initialize_impl_witness :
  exists h, initialize_impl (mk_region 0x100000 0x180000) [mk_region 0x400000 0x1234]
    [mk_entry 0 0x9fc00 Available; mk_entry 0xf0000 0x10000 Reserved;
     mk_entry 0x100000 0x7ee0000 Available] = Ok h /\ heap_wf h.
Proof.
  destruct (initialize_impl_correct (mk_region 0x100000 0x180000) [mk_region 0x400000 0x1234]
    [mk_entry 0 0x9fc00 Available; mk_entry 0xf0000 0x10000 Reserved;
     mk_entry 0x100000 0x7ee0000 Available]) as (h & He & Hwf & _).
  - repeat constructor; done.
  - cbn [map_ok e_type]. split; [intros _|split; [done|split; [intros _|done]]].
    + split; [done|]. intros e [->|[->|?%not_elem_of_nil]%elem_of_cons]%elem_of_cons Ht; [done| |done].
      left. done.
    + split; [done|]. by intros e ?%not_elem_of_nil.
  - done.
  - exists h. exact (conj He Hwf).
Defined.

(** C9: starting from a fresh heap, whatever the interleaving of takes and
    releases by code that only gives back what it holds, the pages handed out
    are pairwise distinct, every page handed out is marked used, the heap stays
    well formed, taking a page or a run never panics, and every release of a
    held run succeeds. *)
Theorem heap_never_double_allocates (h0 h : heap) (held : list (Z * Z))
  (Hwf : heap_wf h0) (Hreach : rtc client_step (h0, []) (h, held)) :
  heap_wf h /\ NoDup (held ≫= pages_of) /\ (forall p, p ∈ held ≫= pages_of -> owned h p) /\
  (exists h' a, take_free_page h = Ok (h', a)) /\
  (forall n, 0 < n -> exists h' a, take_free_contiguous_pages h n = Ok (h', a)) /\
  (forall a n held', held ≡ₚ (a, n) :: held' -> is_Ok (release_contiguous_pages h a n)) /\
  (forall a held', held ≡ₚ (a, 1) :: held' -> is_Ok (release_page h a)).
Proof.
  assert (HL : ledger (h, held)).
  { apply (ledger_reachable (h0, [])); [|done]. constructor; cbn; [done|constructor| |constructor].
    by intros p ?%not_elem_of_nil. }
  pose proof HL as [Hwf' Hnd Ho Hl]. cbn in *. split_and!; [done|done|done| | | |].
  - destruct (take_free_page_cases h Hwf') as [(k & r & r' & i & _ & -> & _)|[-> _]]; eauto.
  - intros n Hn. destruct (take_contiguous_cases h n Hwf' Hn) as [(k & r & r' & i & _ & -> & _)| ->]; eauto.
  - intros a n held' HP. destruct (release_contiguous_held h held held' a n HL HP) as (h' & -> & _). done.
  - intros a held' HP. destruct (release_page_held h held held' a HL HP) as (h' & -> & _). done.
Qed.

Lemma heap_never_double_allocates_witness :
  exists h a, rtc client_step (sample_heap, []) (h, [(a, 1)]) /\ heap_wf h /\ is_Ok (release_page h a).
Proof.
  destruct (take_free_page_cases sample_heap sample_heap_ok)
    as [(k & r & r' & i & Hk & He & Hi & _)|[_ Hall]]; [|by apply sample_heap_has_pages in Hall].
  destruct (heap_wf_lookup _ _ _ sample_heap_ok Hk) as [_ Hpos].
  assert (Hs : rtc client_step (sample_heap, []) (<[k := r']> sample_heap, [(page_addr r i, 1)])).
  { eapply rtc_l; [apply step_take; [done|]|apply rtc_refl]. unfold page_addr. lia. }
  exists (<[k := r']> sample_heap), (page_addr r i).
  destruct (heap_never_double_allocates sample_heap _ _ sample_heap_ok Hs) as (Hwf & _ & _ & _ & _ & _ & Hrel).
  split_and!; [done|done|]. by apply (Hrel _ []).
Defined.

(** taking a page from a well-formed heap either yields the address of a
    page that was free, changing the ownership of that page only, or reports
    failure with 0, and then every range of the heap is exhausted. *)
Theorem take_free_page_complete (h : heap) (Hwf : heap_wf h) :
  (exists h' a, take_free_page h = Ok (h', a) /\ a <> 0 /\ a `mod` PAGE_SIZE = 0 /\
     ~ owned h a /\ (forall p, owned h' p <-> owned h p \/ p = a)) \/
  (take_free_page h = Ok (h, 0) /\
     forall k r i, h !! k = Some r -> 0 <= i < m_page_count r -> owned h (page_addr r i)).
Proof.
  destruct (take_free_page_cases h Hwf) as [(k & r & r' & i & Hk & -> & Hi & Hres)|[-> Hall]].
  - left. exists (<[k := r']> h), (page_addr r i).
    destruct (heap_wf_lookup h k r Hwf Hk) as [Hr Hpos].
    destruct (reserve_effect h k r r' i 1 Hwf Hk Hres) as (_ & Hfree & Hown); [lia..|].
    assert (Hone : forall p, run_page (page_addr r i) 1 p <-> p = page_addr r i).
    { intros p. unfold run_page. split; [intros (j & Hj & ->); lia|intros ->; exists 0; lia]. }
    split_and!; [done|unfold page_addr; lia|by apply page_addr_aligned| |].
    + apply Hfree, Hone. done.
    + intros p. rewrite Hown, Hone. done.
  - right. split; [done|]. intros k r i Hk Hi. exists k, r, i. split_and!; [done|lia|lia|done|].
    destruct (heap_wf_lookup h k r Hwf Hk) as [Hr _].
    eapply Forall_lookup_1 in Hall; [|done]. cbn in Hall.
    destruct (used r i) eqn:E; [done|].
    pose proof (count_clear_some (Z.to_nat (m_page_count r)) (used r) i ltac:(lia) E).
    rewrite (wf_free r Hr) in Hall. lia.
Qed.

Lemma take_free_page_complete_witness : heap_wf sample_heap /\
  exists h' a, take_free_page sample_heap = Ok (h', a) /\ a <> 0 /\ ~ owned sample_heap a.
Proof.
  split; [apply sample_heap_ok|].
  destruct (take_free_page_complete sample_heap sample_heap_ok) as [(h' & a & H1 & H2 & _ & H3 & _)|[H _]].
  - exists h', a. done.
  - exfalso. destruct (take_free_page_cases sample_heap sample_heap_ok)
      as [(k & r & r' & i & Hk & He & Hi & _)|[_ Hall]]; [|by apply sample_heap_has_pages in Hall].
    destruct (heap_wf_lookup _ _ _ sample_heap_ok Hk) as [_ Hpos].
    rewrite He in H. apply (f_equal (fun o => match o with Ok x => snd x | _ => 0 end)) in H.
    cbn in H. unfold page_addr in H. lia.
Defined.

Lemma unaligned_tops :
  match initialize_impl (mk_region 0x100000 0x100000) [mk_region 0x280000 0x1000]
          [mk_entry 0x300800 0x10000 Available] with
  | Ok h => map range_top h
  | _ => []
  end = [0x280000; 0x310000].
Proof. vm_compute. reflexivity. Qed.

(** an available entry that does not start on a page boundary is not
    trimmed but moved to the bottom of memory: the heap takes over memory
    below the entry, which the memory map does not list as available. *)
Theorem initialize_unaligned_entry_escapes :
  exists kernel modules e h x,
    initialize_impl kernel modules [e] = Ok h /\ x ∈ h /\ range_top x <= e_address e.
Proof.
  exists (mk_region 0x100000 0x100000), [mk_region 0x280000 0x1000], (mk_entry 0x300800 0x10000 Available).
  pose proof unaligned_tops as E. destruct (initialize_impl _ _ _) as [[|x h]| |]; try done.
  exists (x :: h), x. split_and!; [done|by apply elem_of_cons; left|].
  injection E as -> _. done.
Qed.
End Heap.
