(* ===== verification/Kmalloc.v ===== *)
(** * kernel/Memory/kmalloc: the kernel's object allocator

    [BitmapAllocator] hands out runs of 64-byte chunks of a fixed buffer; the
    bitmap of used chunks is at the start of the buffer, and every run starts
    with a [Header] that records its length.  [kmalloc] keeps a table of such
    allocators and serves large requests with whole pages. *)
From stdpp Require Import gmap.
From S2P Require Import Prelude BanMath Bitmap PhysicalRange KHeap.

Module BitmapAllocator.

(** ** Definitions *)
Definition s_allocator_chunk_size : Z := 64.
Definition s_allocator_default_size : Z := 128 * 1024.
Definition s_allocator_dynamic_size : Z := 2 * 1024 * 1024.
(** [sizeof(Header)]: the count and padding up to [alignof(max_align_t)]. *)
Definition sizeof_Header : Z := 16.

(** [bitmap] is the memory from [base] to [data_start()], byte by byte;
    [headers] is what the [Header]s in the data area hold, by address. *)
Record t : Type := mk {
  bitmap_chunks : Z;
  total_chunks : Z;
  free_chunks : Z;
  allocations : Z;
  base : Z;
  bitmap : list Z;
  headers : gmap Z Z
}.

Definition set_bitmap (a : t) (bs : list Z) : t :=
  mk (bitmap_chunks a) (total_chunks a) (free_chunks a) (allocations a) (base a) bs (headers a).

Definition needed_chunks (size : Z) : Z :=
  Math.div_round_up 64 (u64 (sizeof_Header + size)) s_allocator_chunk_size.

(** The constants of [initialize_default] and [initialize_dynamic] for a
    buffer of [size] bytes at [addr]. *)
Definition initialize_buffer (size addr : Z) : t :=
  let bitmap_bytes := Math.div_round_up 64 size (s_allocator_chunk_size * 8) in
  let bitmap_chunks := Math.div_round_up 64 bitmap_bytes s_allocator_chunk_size in
  let usable_chunks := size / s_allocator_chunk_size - bitmap_chunks in
  mk bitmap_chunks usable_chunks usable_chunks 0 addr
     (replicate (Z.to_nat (bitmap_chunks * s_allocator_chunk_size)) 0) ∅.

Definition initialize_default (s_default_allocator_memory : Z) : t :=
  initialize_buffer s_allocator_default_size s_default_allocator_memory.

Definition data_start (a : t) : Z := base a + bitmap_chunks a * s_allocator_chunk_size.

Definition get_first_chunk (a : t) (ptr : Z) : Z :=
  u64 (ptr - sizeof_Header - data_start a) / s_allocator_chunk_size.

Definition contains (a : t) (ptr : Z) : bool :=
  if ptr <? data_start a + sizeof_Header then false
  else get_first_chunk a ptr <? total_chunks a.

Definition get_bit (a : t) (index : Z) : outcome bool :=
  ASSERT (index <? total_chunks a) in
  match bitmap a !! Z.to_nat (index / 8) with
  | Some byte => Ok (negb (Z.land (Z.shiftr byte (index `mod` 8)) 1 =? 0))
  | None => Panic
  end.

Definition set_bit (a : t) (index : Z) (value : bool) : outcome t :=
  ASSERT (index <? total_chunks a) in
  let* bs := if value then bm_set 8 (bitmap a) index else bm_clear 8 (bitmap a) index in
  Ok (set_bitmap a bs).

(** [*reinterpret_cast<const uint64_t*>(base + off)], little endian. *)
Fixpoint le_combine (bs : list Z) : Z :=
  match bs with [] => 0 | b :: bs' => Z.lor b (Z.shiftl (le_combine bs') 8) end.

Definition read_qword (bs : list Z) (off : Z) : outcome Z :=
  let q := take 8 (drop (Z.to_nat off) bs) in
  if Nat.eqb (length q) 8 then Ok (le_combine q) else Panic.

Fixpoint find_loop (fuel : nat) (a : t) (index : Z) : outcome Z :=
  match fuel with
  | O => Ok index
  | S fuel' =>
      if index <? total_chunks a then
        let* qword := read_qword (bitmap a) (index / 8) in
        if negb (qword =? UINT64_MAX) then Ok (index + Math.ctz 64 (bnot 64 qword))
        else find_loop fuel' a (index + 64)
      else Ok index
  end.

Definition find_unset_bit (a : t) (index : Z) : outcome Z :=
  if total_chunks a <=? index then Ok index
  else
    let fuel := S (Z.to_nat (total_chunks a / 64)) in
    let rem := index `mod` 64 in
    if negb (rem =? 0) then
      let* q := read_qword (bitmap a) ((index - rem) / 8) in
      let qword := Z.shiftr q rem in
      if negb (qword =? u64 (Z.shiftl 1 (64 - rem)) - 1) then Ok (index + Math.ctz 64 (bnot 64 qword))
      else find_loop fuel a (index + (64 - rem))
    else find_loop fuel a index.

Fixpoint count_loop (n : nat) (a : t) (index count : Z) : outcome Z :=
  match n with
  | O => Ok count
  | S n' =>
      if index + count <? total_chunks a then
        let* b := get_bit a (index + count) in
        if b then Ok count else count_loop n' a index (count + 1)
      else Ok count
  end.

Definition count_unset_bits (a : t) (index wanted : Z) : outcome Z :=
  count_loop (Z.to_nat wanted) a index 0.

Fixpoint set_bits (n : nat) (a : t) (i : Z) (value : bool) : outcome t :=
  match n with
  | O => Ok a
  | S n' => let* a := set_bit a i value in set_bits n' a (i + 1) value
  end.

Definition header_from_chunk (a : t) (index : Z) : Z := data_start a + index * s_allocator_chunk_size.
Definition header_from_ptr (ptr : Z) : Z := ptr - sizeof_Header.

(** The body of the search once a run of [needed] chunks at [i] is found. *)
Definition take_run (a : t) (i needed : Z) : outcome (t * Z) :=
  let* a := set_bits (Z.to_nat needed) a i true in
  let header := header_from_chunk a i in
  Ok (mk (bitmap_chunks a) (total_chunks a) (u32 (free_chunks a - needed)) (u32 (allocations a + 1))
         (base a) (bitmap a) (<[header := needed]> (headers a)),
      header + sizeof_Header).

(** The result is the new allocator and the pointer, 0 for [nullptr]. *)
Fixpoint allocate_loop (fuel : nat) (a : t) (i needed : Z) : outcome (t * Z) :=
  match fuel with
  | O => Ok (a, 0)
  | S fuel' =>
      if i <=? u64 (total_chunks a - needed) then
        let* count := count_unset_bits a i needed in
        if count <? needed then
          let* i := find_unset_bit a (i + (count + 1)) in allocate_loop fuel' a i needed
        else take_run a i needed
      else Ok (a, 0)
  end.

Definition allocate (a : t) (needed : Z) : outcome (t * Z) :=
  ASSERT (0 <? needed) in
  if free_chunks a <? needed then Ok (a, 0)
  else
    let* i := find_unset_bit a 0 in
    allocate_loop (S (Z.to_nat (total_chunks a))) a i needed.

Definition free (a : t) (ptr : Z) : outcome t :=
  ASSERT (contains a ptr) in
  let first_chunk := get_first_chunk a ptr in
  match headers a !! header_from_ptr ptr with
  | None => Panic
  | Some chunks =>
      let* a := set_bits (Z.to_nat chunks) a first_chunk false in
      Ok (mk (bitmap_chunks a) (total_chunks a) (u32 (free_chunks a + chunks)) (u32 (allocations a - 1))
             (base a) (bitmap a) (headers a))
  end.

(** ** The bitmap *)
Abbreviation used a := (bit 8 (bitmap a)).

(** The bitmap has a bit for each chunk and consists of whole qwords. *)
Record geometry (a : t) : Prop := {
  geo_words : words_ok 8 (bitmap a);
  geo_total : 0 < total_chunks a < 2 ^ 32;
  geo_len : total_chunks a <= 8 * Z.of_nat (length (bitmap a));
  geo_qwords : Z.of_nat (length (bitmap a)) `mod` 8 = 0;
  geo_base : 0 < base a;
  geo_chunks : 0 <= bitmap_chunks a;
  geo_top : data_start a + total_chunks a * 64 < 2 ^ 64
}.

Lemma bit8_cons b bs j : 0 <= j ->
  bit 8 (b :: bs) j = if j <? 8 then Z.testbit b j else bit 8 bs (j - 8).
Proof.
  intros Hj. unfold bit. case_if; zify_bool.
  - rewrite Z.div_small, Z.mod_small by lia. done.
  - replace j with ((j - 8) + 1 * 8) by lia. rewrite Z.div_add, Z_mod_plus_full by lia.
    replace (j - 8 + 1 * 8 - 8) with (j - 8) by lia.
    pose proof (Z.div_pos (j - 8) 8). rewrite Z2Nat.inj_add by lia.
    rewrite Nat.add_comm. done.
Qed.

Lemma le_combine_testbit bs : words_ok 8 bs -> forall j, 0 <= j -> Z.testbit (le_combine bs) j = bit 8 bs j.
Proof.
  induction bs as [|b bs IH]; intros Hok j Hj.
  { cbn. rewrite Z.bits_0. unfold bit. by rewrite lookup_nil. }
  apply Forall_cons_1 in Hok as [Hb Hok]. rewrite bit8_cons by done. cbn [le_combine].
  rewrite Z.lor_spec. case_if; zify_bool.
  - rewrite Z.shiftl_spec_low by lia. apply orb_false_r.
  - rewrite (testbit_small 8 b j), Z.shiftl_spec, IH by (done || lia). done.
Qed.

Lemma le_combine_range bs : words_ok 8 bs -> 0 <= le_combine bs < 2 ^ (8 * Z.of_nat (length bs)).
Proof.
  intros Hok. assert (0 <= le_combine bs).
  { induction Hok as [|b bs Hb Hok IH]; cbn; [done|].
    apply Z.lor_nonneg. split; [lia|]. by apply Z.shiftl_nonneg. }
  split; [done|]. apply testbit_range_lt; [lia|done|]. intros i Hi.
  rewrite le_combine_testbit by (done || lia). unfold bit.
  rewrite lookup_ge_None_2; [done|].
  assert (Z.of_nat (length bs) <= i / 8) by (apply Z.div_le_lower_bound; lia). lia.
Qed.

Lemma read_qword_ok bs off :
  words_ok 8 bs -> 0 <= off -> off + 8 <= Z.of_nat (length bs) ->
  exists q, read_qword bs off = Ok q /\ 0 <= q < 2 ^ 64 /\
    (forall j, 0 <= j < 64 -> Z.testbit q j = bit 8 bs (8 * off + j)).
Proof.
  intros Hok Ho Hlen. unfold read_qword. set (q := take 8 (drop (Z.to_nat off) bs)).
  assert (Hl : length q = 8%nat) by (unfold q; rewrite length_take, length_drop; lia).
  assert (Hq : words_ok 8 q) by (unfold q, words_ok; by apply Forall_take, Forall_drop).
  rewrite Hl. cbn [Nat.eqb]. exists (le_combine q). pose proof (le_combine_range q Hq) as Hr.
  rewrite Hl in Hr. split_and!; [done|apply Hr|apply Hr|].
  intros j Hj. rewrite le_combine_testbit by (done || lia). unfold bit, q.
  assert (Hd : (8 * off + j) / 8 = off + j / 8)
    by (replace (8 * off + j) with (j + off * 8) by lia; rewrite Z.div_add by lia; lia).
  assert (Hm : (8 * off + j) `mod` 8 = j `mod` 8)
    by (replace (8 * off + j) with (j + off * 8) by lia; apply Z_mod_plus_full).
  rewrite Hd, Hm. pose proof (Z.div_pos j 8). assert (j / 8 < 8) by (apply Z.div_lt_upper_bound; lia).
  rewrite lookup_take_lt, lookup_drop by lia. by rewrite Z2Nat.inj_add by lia.
Qed.

(** The first zero bit of a word that has one. *)
Lemma ctz_bnot q n :
  0 <= q < 2 ^ 64 -> 0 < n <= 64 -> q < 2 ^ n -> q <> 2 ^ n - 1 ->
  0 <= Math.ctz 64 (bnot 64 q) < n /\ Z.testbit q (Math.ctz 64 (bnot 64 q)) = false /\
  (forall j, 0 <= j < Math.ctz 64 (bnot 64 q) -> Z.testbit q j = true).
Proof.
  intros Hq Hn Hlt Hne.
  assert (2 ^ n <= 2 ^ 64) by (apply Z.pow_le_mono_r; lia).
  destruct (Math.ctz_spec 64 (bnot 64 q)) as (H1 & H2 & H3); [unfold bnot; lia|].
  rewrite bnot_testbit in H2 by (done || lia). apply negb_true_iff in H2.
  assert (Hall : forall j, 0 <= j < Math.ctz 64 (bnot 64 q) -> Z.testbit q j = true).
  { intros j Hj. specialize (H3 j Hj). rewrite bnot_testbit in H3 by (done || lia).
    by apply negb_false_iff in H3. }
  split_and!; [lia| |done|done].
  destruct (decide (Math.ctz 64 (bnot 64 q) < n)) as [|Hge]; [done|]. exfalso. apply Hne.
  replace (2 ^ n - 1) with (Z.ones n) by (rewrite Z.ones_equiv; lia).
  apply Z.bits_inj'. intros i Hi. destruct (decide (i < n)).
  - rewrite Hall, Z.ones_spec_low by lia. done.
  - rewrite (testbit_small n q i), Z.ones_spec_high by lia. done.
Qed.

Section search.
Context (a : t) (Hg : geometry a).

Lemma get_bit_ok j : 0 <= j < total_chunks a -> get_bit a j = Ok (used a j).
Proof.
  intros Hj. unfold get_bit. rewrite (proj2 (Z.ltb_lt _ _)) by lia. pose proof (geo_len a Hg).
  destruct (index_lookup 8 ltac:(lia) (bitmap a) j) as [q Hq]; [lia|]. unfold bit. rewrite Hq.
  pose proof (Z.mod_pos_bound j 8 ltac:(lia)).
  rewrite (land_bit_testbit _ 0) by lia. rewrite Z.shiftr_spec by lia. done.
Qed.

(** [r] is the first clear bit from [index], or lies past the last chunk. *)
Definition first_clear (index r : Z) : Prop :=
  index <= r /\ (forall j, index <= j < r -> j < total_chunks a -> used a j = true) /\
  (r < total_chunks a -> used a r = false).

Lemma qword_at index :
  0 <= index < total_chunks a -> index `mod` 64 = 0 ->
  exists q, read_qword (bitmap a) (index / 8) = Ok q /\ 0 <= q < 2 ^ 64 /\
    (forall j, 0 <= j < 64 -> Z.testbit q j = used a (index + j)).
Proof.
  intros Hi Hm. pose proof (geo_len a Hg). pose proof (geo_qwords a Hg) as Hq8.
  pose proof (Z.div_mod index 64 ltac:(lia)). pose proof (Z.div_mod (Z.of_nat (length (bitmap a))) 8 ltac:(lia)).
  set (k := index / 64) in *. assert (Hd : index / 8 = 8 * k).
  { replace index with (8 * k * 8) by lia. apply Z.div_mul. lia. }
  rewrite Hd. destruct (read_qword_ok (bitmap a) (8 * k) (geo_words a Hg)) as (q & Hq & Hr & Hb); [lia|lia|].
  exists q. split_and!; [done|lia|lia|]. intros j Hj. rewrite Hb by done. f_equal. lia.
Qed.

Lemma find_loop_ok fuel : forall index,
  0 <= index -> index `mod` 64 = 0 -> total_chunks a <= index + 64 * Z.of_nat fuel ->
  exists r, find_loop fuel a index = Ok r /\ first_clear index r.
Proof.
  induction fuel as [|fuel IH]; intros index Hi Hm Hf; cbn [find_loop].
  { exists index. split; [done|]. split_and!; [lia|lia|lia]. }
  case_if; zify_bool.
  2:{ exists index. split; [done|]. split_and!; [lia|lia|lia]. }
  destruct (qword_at index ltac:(lia) Hm) as (q & -> & Hr & Hb). case_if; zify_bool.
  - destruct (ctz_bnot q 64 Hr) as (H1 & H2 & H3); [lia|lia|by unfold UINT64_MAX in *|].
    eexists. split; [done|]. split_and!; [lia| |].
    + intros j Hj _. replace j with (index + (j - index)) by lia. rewrite <- Hb by lia. apply H3. lia.
    + intros _. rewrite <- Hb by lia. done.
  - destruct (IH (index + 64)) as (r & -> & H1 & H2 & H3); [lia| |lia|].
    { rewrite Z.add_mod, Hm by lia. done. }
    exists r. split; [done|]. split_and!; [lia| |done]. intros j Hj Hjt.
    destruct (decide (j < index + 64)); [|apply H2; lia].
    replace j with (index + (j - index)) by lia. rewrite <- Hb by lia.
    replace q with (Z.ones 64) by (rewrite E0; done). apply Z.ones_spec_low. lia.
Qed.

Lemma find_unset_bit_ok index :
  0 <= index -> exists r, find_unset_bit a index = Ok r /\ first_clear index r.
Proof.
  intros Hi. unfold find_unset_bit. case_if; zify_bool.
  { exists index. split; [done|]. split_and!; [lia|lia|lia]. }
  pose proof (Z.div_mod (total_chunks a) 64 ltac:(lia)) as Ht1.
  pose proof (Z.mod_pos_bound (total_chunks a) 64 ltac:(lia)) as Ht2.
  pose proof (Z.div_pos (total_chunks a) 64 ltac:(lia) ltac:(lia)) as Ht3.
  case_if; zify_bool.
  2:{ apply find_loop_ok; lia. }
  pose proof (Z.mod_pos_bound index 64 ltac:(lia)) as Hrem.
  pose proof (Z.div_mod index 64 ltac:(lia)) as Hdm.
  set (rem := index `mod` 64) in *.
  assert (Hbase : (index - rem) `mod` 64 = 0).
  { replace (index - rem) with (index / 64 * 64) by lia. apply Z_mod_mult. }
  destruct (qword_at (index - rem) ltac:(pose proof (Z.div_pos index 64); lia) Hbase) as (q & -> & Hr & Hb).
  set (qw := Z.shiftr q rem).
  assert (Hqb : forall j, 0 <= j < 64 - rem -> Z.testbit qw j = used a (index + j)).
  { intros j Hj. unfold qw. rewrite Z.shiftr_spec, Hb by lia. f_equal. lia. }
  assert (Hqr : 0 <= qw < 2 ^ (64 - rem)).
  { unfold qw. rewrite Z.shiftr_div_pow2 by lia. split; [apply Z.div_pos; lia|].
    apply Z.div_lt_upper_bound; [lia|]. rewrite <- Z.pow_add_r by lia.
    replace (rem + (64 - rem)) with 64 by lia. lia. }
  assert (Hp : 2 ^ (64 - rem) < 2 ^ 64) by (apply Z.pow_lt_mono_r; lia).
  rewrite Z.shiftl_1_l, wrap_id by lia. case_if; zify_bool.
  - destruct (ctz_bnot qw (64 - rem)) as (H1 & H2 & H3); [lia|lia|lia|done|].
    eexists. split; [done|]. split_and!; [lia| |].
    + intros j Hj _. replace j with (index + (j - index)) by lia. rewrite <- Hqb by lia. apply H3. lia.
    + intros _. rewrite <- Hqb by lia. done.
  - destruct (find_loop_ok (S (Z.to_nat (total_chunks a / 64))) (index + (64 - rem)))
      as (r & -> & H1 & H2 & H3); [lia| |lia|].
    { replace (index + (64 - rem)) with (index - rem + 1 * 64) by lia. by rewrite Z_mod_plus_full. }
    exists r. split; [done|]. split_and!; [lia| |done]. intros j Hj Hjt.
    destruct (decide (j < index + (64 - rem))); [|apply H2; lia].
    replace j with (index + (j - index)) by lia. rewrite <- Hqb by lia.
    replace qw with (Z.ones (64 - rem)) by (rewrite Z.ones_equiv; lia). apply Z.ones_spec_low. lia.
Qed.

Lemma count_loop_ok n : forall index count,
  0 <= index -> 0 <= count ->
  exists c, count_loop n a index count = Ok c /\ count <= c <= count + Z.of_nat n /\
    (forall j, count <= j < c -> index + j < total_chunks a /\ used a (index + j) = false) /\
    (c < count + Z.of_nat n -> index + c < total_chunks a -> used a (index + c) = true).
Proof.
  induction n as [|n IH]; intros index count Hi Hc; cbn [count_loop].
  { exists count. split_and!; [done|lia|lia|lia|lia]. }
  case_if; zify_bool.
  2:{ exists count. split_and!; [done|lia|lia|lia|lia]. }
  rewrite get_bit_ok by lia. destruct (used a (index + count)) eqn:E1.
  { exists count. split_and!; [done|lia|lia|lia|done]. }
  destruct (IH index (count + 1) Hi ltac:(lia)) as (c & -> & H1 & H2 & H3).
  exists c. split_and!; [done|lia|lia| |].
  - intros j Hj. destruct (decide (j = count)) as [->|]; [done|apply H2; lia].
  - intros. apply H3; lia.
Qed.

(** The run of [n] chunks from [i] is free. *)
Definition free_run (i n : Z) : Prop :=
  0 <= i /\ i + n <= total_chunks a /\ forall j, i <= j < i + n -> used a j = false.

Lemma count_unset_bits_ok i n :
  0 <= i -> 0 < n -> i + n <= total_chunks a ->
  exists c, count_unset_bits a i n = Ok c /\
    ((c = n /\ free_run i n) \/ (0 <= c < n /\ used a (i + c) = true)).
Proof.
  intros Hi Hn Hin. unfold count_unset_bits.
  destruct (count_loop_ok (Z.to_nat n) i 0) as (c & -> & H1 & H2 & H3); [lia|lia|].
  exists c. split; [done|]. destruct (decide (c = n)) as [->|].
  - left. split; [done|]. split_and!; [done|done|]. intros j Hj.
    replace j with (i + (j - i)) by lia. apply H2. lia.
  - right. split; [lia|]. apply H3; lia.
Qed.
End search.

(** ** Setting and clearing runs *)
Lemma set_bit_ok a i v :
  geometry a -> 0 <= i < total_chunks a ->
  exists bs, set_bit a i v = Ok (set_bitmap a bs) /\ words_ok 8 bs /\ length bs = length (bitmap a) /\
    (forall k, 0 <= k -> bit 8 bs k = if k =? i then v else used a k).
Proof.
  intros Hg Hi. unfold set_bit. rewrite (proj2 (Z.ltb_lt _ _)) by lia. pose proof (geo_len a Hg).
  destruct v.
  - destruct (bm_set_ok 8 ltac:(lia) (bitmap a) i (geo_words a Hg)) as (bs & -> & H1 & H2 & H3); [lia|].
    exists bs. split_and!; [done|done|done|]. intros k Hk. rewrite H3 by done. by destruct (k =? i).
  - destruct (bm_clear_ok 8 ltac:(lia) (bitmap a) i (geo_words a Hg)) as (bs & -> & H1 & H2 & H3); [lia|].
    exists bs. split_and!; [done|done|done|]. intros k Hk. rewrite H3 by done. by destruct (k =? i).
Qed.

Lemma geometry_set_bitmap a bs :
  geometry a -> words_ok 8 bs -> length bs = length (bitmap a) -> geometry (set_bitmap a bs).
Proof. intros [] Hok Hl. split; cbn; rewrite ?Hl; done. Qed.

Lemma set_bits_ok v n : forall a i,
  geometry a -> 0 <= i -> i + Z.of_nat n <= total_chunks a ->
  exists bs, set_bits n a i v = Ok (set_bitmap a bs) /\ words_ok 8 bs /\ length bs = length (bitmap a) /\
    (forall k, 0 <= k -> bit 8 bs k = if in_run i (Z.of_nat n) k then v else used a k).
Proof.
  induction n as [|n IH]; intros a i Hg Hi Hn; cbn [set_bits].
  { exists (bitmap a). split_and!; [by destruct a|apply Hg|done|]. intros k Hk.
    destruct (in_run i (Z.of_nat 0) k) eqn:E; [|done]. apply in_run_spec in E. lia. }
  destruct (set_bit_ok a i v Hg ltac:(lia)) as (b1 & -> & Hw1 & Hl1 & Hb1).
  destruct (IH (set_bitmap a b1) (i + 1)) as (b2 & -> & Hw2 & Hl2 & Hb2).
  { by apply geometry_set_bitmap. }
  { lia. }
  { cbn. lia. }
  exists b2. split_and!; [done|done|cbn in Hl2; congruence|]. intros k Hk.
  rewrite Hb2, in_run_S by done. cbn [bitmap set_bitmap]. rewrite Hb1 by done.
  by destruct (k =? i), (in_run (i + 1) _ k).
Qed.

(** ** The search of [allocate] is a complete first fit *)
Lemma first_clear_run a index r needed i0 :
  first_clear a index r -> 0 < needed -> free_run a i0 needed -> index <= i0 -> r <= i0.
Proof.
  intros (H1 & H2 & _) Hn (Hi & Hin & Hfree) Hle. destruct (decide (r <= i0)); [done|].
  pose proof (H2 i0 ltac:(lia) ltac:(lia)) as Hu. rewrite Hfree in Hu by lia. done.
Qed.

Lemma allocate_loop_ok a needed fuel : forall i,
  geometry a -> 0 < needed <= total_chunks a -> 0 <= i ->
  total_chunks a < i + Z.of_nat fuel ->
  (forall i0, free_run a i0 needed -> i <= i0) ->
  (exists i', free_run a i' needed /\ (forall i0, free_run a i0 needed -> i' <= i0) /\
     allocate_loop fuel a i needed = take_run a i' needed) \/
  (allocate_loop fuel a i needed = Ok (a, 0) /\ forall i0, ~ free_run a i0 needed).
Proof.
  induction fuel as [|fuel IH]; intros i Hg Hn Hi Hf Hmin; cbn [allocate_loop].
  { right. split; [done|]. intros i0 Hrun. specialize (Hmin i0 Hrun). destruct Hrun. lia. }
  pose proof (geo_total a Hg). rewrite wrap_id by lia. case_if; zify_bool.
  2:{ right. split; [done|]. intros i0 Hrun. specialize (Hmin i0 Hrun). destruct Hrun. lia. }
  destruct (count_unset_bits_ok a Hg i needed) as (c & -> & Hc); [lia..|].
  destruct Hc as [[-> Hrun]|[Hc Hu]].
  { rewrite Z.ltb_irrefl. left. by exists i. }
  rewrite (proj2 (Z.ltb_lt _ _)) by lia.
  destruct (find_unset_bit_ok a Hg (i + (c + 1))) as (r & -> & Hr); [lia|].
  pose proof Hr as (Hr1 & _ & _). apply IH; [done|done|lia|lia|].
  intros i0 Hrun. apply (first_clear_run a (i + (c + 1)) r needed); [done|lia|done|].
  specialize (Hmin i0 Hrun). destruct Hrun as (_ & _ & Hfree).
  destruct (decide (i + (c + 1) <= i0)); [done|]. rewrite Hfree in Hu by lia. done.
Qed.

(** ** Live allocations *)
Definition chunks_of (run : Z * Z) : list Z := seqZ (fst run) (snd run).

(** The pointer of the run that starts at chunk [i]. *)
Definition ptr_of (a : t) (i : Z) : Z := header_from_chunk a i + sizeof_Header.

(** [run] is an allocation of [a] that is still in use. *)
Definition run_ok (a : t) (run : Z * Z) : Prop :=
  0 <= fst run /\ 0 < snd run /\ fst run + snd run <= total_chunks a /\
  headers a !! header_from_chunk a (fst run) = Some (snd run).

(** The allocator state against the list of live allocations: runs do not
    overlap, the bitmap marks their chunks and no others, their headers are
    intact, and the counters agree. *)
Record live_ok (a : t) (live : list (Z * Z)) : Prop := {
  live_geometry : geometry a;
  live_nodup : NoDup (live ≫= chunks_of);
  live_bits : forall j, 0 <= j < total_chunks a -> used a j = true <-> j ∈ live ≫= chunks_of;
  live_runs : Forall (run_ok a) live;
  live_free : free_chunks a = count_clear (Z.to_nat (total_chunks a)) (used a);
  live_count : allocations a = u32 (Z.of_nat (length live))
}.

Lemma live_disjoint_heads a live i n : live_ok a live -> 0 < n ->
  NoDup (chunks_of (i, n) ++ (live ≫= chunks_of)) -> Forall (fun run => fst run <> i) live.
Proof.
  intros HL Hn Hnd. apply list.NoDup_app in Hnd as (_ & Hd & _). apply list.Forall_forall.
  intros [i' n'] Hrun He. cbn in He. subst i'.
  pose proof (live_runs a live HL) as Hr. eapply list.Forall_forall in Hr as (H1 & H2 & _); [|done].
  cbn in *. apply (Hd i); [apply elem_of_seqZ; cbn; lia|].
  apply list_elem_of_bind. exists (i, n'). split; [apply elem_of_seqZ; cbn; lia|done].
Qed.

Lemma take_run_ok a live i needed :
  live_ok a live -> 0 < needed -> free_run a i needed ->
  exists a', take_run a i needed = Ok (a', ptr_of a i) /\ live_ok a' ((i, needed) :: live) /\
    base a' = base a /\ total_chunks a' = total_chunks a /\ bitmap_chunks a' = bitmap_chunks a /\
    free_chunks a' = free_chunks a - needed.
Proof.
  intros HL Hn (Hi & Hin & Hfree). destruct HL as [Hg Hnd Hbits Hruns Hf Hc]. unfold take_run.
  destruct (set_bits_ok true (Z.to_nat needed) a i Hg Hi ltac:(lia)) as (bs & -> & Hw & Hl & Hb).
  rewrite Z2Nat.id in Hb by lia.
  assert (Hcc : count_clear (Z.to_nat (total_chunks a)) (bit 8 bs) = free_chunks a - needed).
  { rewrite Hf. replace needed with (Z.of_nat (Z.to_nat needed)) by lia.
    rewrite <- (count_clear_run (Z.to_nat needed) _ (used a) i Hi); [|lia|intros; apply Hfree; lia].
    apply count_clear_ext. intros k Hk. rewrite Hb, Z2Nat.id by lia. by destruct (in_run i needed k). }
  pose proof (count_clear_range (Z.to_nat (total_chunks a)) (bit 8 bs)) as Hcr.
  pose proof (count_clear_range (Z.to_nat (total_chunks a)) (used a)) as Hcr'.
  pose proof (geo_total a Hg) as Ht.
  eexists. split; [done|]. cbn [free_chunks base total_chunks bitmap_chunks bitmap headers set_bitmap allocations].
  rewrite (wrap_id 32 (free_chunks a - needed)) by lia. split_and!; [|done..].
  assert (Hnd' : NoDup (chunks_of (i, needed) ++ (live ≫= chunks_of))).
  { apply list.NoDup_app. split_and!; [apply NoDup_seqZ| |done].
    intros j [H1 H2]%elem_of_seqZ Hj. cbn in *. apply Hbits in Hj; [|lia]. by rewrite Hfree in Hj. }
  split; cbn.
  - apply (geometry_set_bitmap a bs) in Hg as [? ? ? ? ? ? ?]; [|done|done]. by split.
  - done.
  - intros j Hj. rewrite elem_of_app, <- Hbits, Hb by lia. unfold chunks_of; cbn. rewrite elem_of_seqZ.
    destruct (in_run i needed j) eqn:E.
    + apply in_run_spec in E. split; [intros _; left; lia|done].
    + split; [by right|]. intros [Hx|Hx]; [|done]. by rewrite (proj2 (in_run_spec i needed j)) in E by lia.
  - constructor.
    + split_and!; [done|done|done|]. cbn. unfold header_from_chunk, data_start. cbn. apply lookup_insert_eq.
    + assert (Hh : Forall (fun run => fst run <> i) live)
        by (apply (live_disjoint_heads a live i needed); [by split|done|done]).
      apply list.Forall_forall. intros run Hrun.
      eapply list.Forall_forall in Hh; [|done]. eapply list.Forall_forall in Hruns; [|done].
      destruct Hruns as (H1 & H2 & H3 & H4). split_and!; [done|done|done|].
      unfold header_from_chunk, data_start in *. cbn. unfold s_allocator_chunk_size in *.
      rewrite lookup_insert_ne by lia. done.
  - done.
  - rewrite Hc. unfold wrap. rewrite Zplus_mod_idemp_l. f_equal. lia.
Qed.

Lemma allocate_ok a live needed :
  live_ok a live -> 0 < needed ->
  (exists i a', allocate a needed = Ok (a', ptr_of a i) /\ live_ok a' ((i, needed) :: live) /\
     free_run a i needed /\ (forall i0, free_run a i0 needed -> i <= i0) /\
     base a' = base a /\ total_chunks a' = total_chunks a /\ bitmap_chunks a' = bitmap_chunks a) \/
  (allocate a needed = Ok (a, 0) /\ forall i0, ~ free_run a i0 needed).
Proof.
  intros HL Hn. pose proof (live_geometry a live HL) as Hg. unfold allocate.
  rewrite (proj2 (Z.ltb_lt _ _)) by lia. pose proof (live_free a live HL) as Hf.
  pose proof (count_clear_range (Z.to_nat (total_chunks a)) (used a)) as Hcr.
  pose proof (geo_total a Hg). case_if; zify_bool.
  { right. split; [done|]. intros i0 (Hi & Hin & Hfree).
    pose proof (count_clear_run (Z.to_nat needed) (Z.to_nat (total_chunks a)) (used a) i0) as Hrun.
    rewrite Z2Nat.id in Hrun by lia. specialize (Hrun Hi ltac:(lia) Hfree).
    pose proof (count_clear_range (Z.to_nat (total_chunks a)) (fun k => in_run i0 needed k || used a k)). lia. }
  destruct (find_unset_bit_ok a Hg 0) as (r & -> & Hr); [lia|]. pose proof Hr as (Hr0 & _ & _).
  destruct (allocate_loop_ok a needed (S (Z.to_nat (total_chunks a))) r) as [(i & Hrun & Hmin & ->)|[-> Hno]];
    [done|lia|lia|lia| | |by right].
  { intros i0 Hrun. apply (first_clear_run a 0 r needed); [done|lia|done|]. by destruct Hrun. }
  left. destruct (take_run_ok a live i needed HL Hn Hrun) as (a' & -> & HL' & ? & ? & ? & _).
  exists i, a'. done.
Qed.

Lemma ptr_of_chunk a i :
  geometry a -> 0 <= i < total_chunks a ->
  contains a (ptr_of a i) = true /\ get_first_chunk a (ptr_of a i) = i /\
  header_from_ptr (ptr_of a i) = header_from_chunk a i.
Proof.
  intros Hg Hi. pose proof (geo_top a Hg). pose proof (geo_base a Hg). pose proof (geo_chunks a Hg).
  assert (Hf : get_first_chunk a (ptr_of a i) = i).
  { unfold get_first_chunk, ptr_of, header_from_chunk, s_allocator_chunk_size.
    replace (data_start a + i * 64 + sizeof_Header - sizeof_Header - data_start a) with (i * 64) by lia.
    unfold data_start, s_allocator_chunk_size in *.
    rewrite wrap_id by lia. apply Z.div_mul. lia. }
  split_and!; [|done|unfold header_from_ptr, ptr_of; lia].
  unfold contains. rewrite Hf. case_if; zify_bool; [|apply Z.ltb_lt; lia].
  unfold ptr_of, header_from_chunk, s_allocator_chunk_size in *. lia.
Qed.

Lemma free_ok a live i n live' :
  live_ok a live -> live ≡ₚ (i, n) :: live' ->
  exists a', free a (ptr_of a i) = Ok a' /\ live_ok a' live' /\
    base a' = base a /\ total_chunks a' = total_chunks a /\ bitmap_chunks a' = bitmap_chunks a.
Proof.
  intros [Hg Hnd Hbits Hruns Hf Hc] HP. pose proof Hruns as Hr0. rewrite HP in Hr0.
  apply Forall_cons_1 in Hr0 as [(Hi & Hn & Hin & Hh) Hruns']. cbn in *.
  destruct (ptr_of_chunk a i Hg ltac:(lia)) as (Hcon & Hfc & Hhp).
  unfold free. rewrite Hcon, Hfc, Hhp, Hh.
  destruct (set_bits_ok false (Z.to_nat n) a i Hg Hi ltac:(lia)) as (bs & -> & Hw & Hl & Hb).
  rewrite Z2Nat.id in Hb by lia.
  assert (Hnd' : NoDup (chunks_of (i, n) ++ (live' ≫= chunks_of))).
  { change (NoDup (((i, n) :: live') ≫= chunks_of)). by rewrite <- HP. }
  assert (Hset : forall k, i <= k < i + n -> used a k = true).
  { intros k Hk. apply Hbits; [lia|]. rewrite HP. apply elem_of_app. left. apply elem_of_seqZ. cbn. lia. }
  assert (Hcc : count_clear (Z.to_nat (total_chunks a)) (bit 8 bs) = free_chunks a + n).
  { pose proof (count_clear_run (Z.to_nat n) (Z.to_nat (total_chunks a)) (bit 8 bs) i Hi) as Hrun.
    rewrite Z2Nat.id in Hrun by lia. rewrite Hf.
    rewrite (count_clear_ext _ (used a) (fun k => in_run i n k || bit 8 bs k)).
    - rewrite Hrun; [lia|lia|]. intros k Hk. by rewrite Hb, (proj2 (in_run_spec i n k)) by lia.
    - intros k Hk. rewrite Hb by lia. destruct (in_run i n k) eqn:E; [|done].
      apply in_run_spec in E. by apply Hset. }
  pose proof (count_clear_range (Z.to_nat (total_chunks a)) (bit 8 bs)) as Hcr.
  pose proof (count_clear_range (Z.to_nat (total_chunks a)) (used a)) as Hcr'.
  pose proof (geo_total a Hg) as Ht.
  eexists. split; [done|]. cbn [free_chunks base total_chunks bitmap_chunks bitmap headers set_bitmap allocations].
  rewrite (wrap_id 32 (free_chunks a + n)) by lia. split_and!; [|done..].
  split; cbn.
  - apply (geometry_set_bitmap a bs) in Hg as [? ? ? ? ? ? ?]; [|done|done]. by split.
  - by apply list.NoDup_app in Hnd' as (_ & _ & ?).
  - intros j Hj. rewrite Hb by lia. apply list.NoDup_app in Hnd' as (_ & Hd & _).
    destruct (in_run i n j) eqn:E.
    + split; [done|]. intros Hx. apply in_run_spec in E. destruct (Hd j); [|done].
      apply elem_of_seqZ. cbn. lia.
    + rewrite Hbits, HP by lia. cbn. rewrite elem_of_app. split; [|by right].
      intros [Hx%elem_of_seqZ|Hx]; [|done]. by rewrite (proj2 (in_run_spec i n j)) in E by (cbn in Hx; lia).
  - done.
  - done.
  - rewrite Hc, HP. cbn [length]. unfold wrap. rewrite Zminus_mod_idemp_l. f_equal. lia.
Qed.

(** A fresh buffer. *)
Lemma count_clear_all n f : (forall k, 0 <= k < Z.of_nat n -> f k = false) -> count_clear n f = Z.of_nat n.
Proof.
  induction n as [|n IH]; intros H; [done|]. cbn [count_clear].
  rewrite H, IH by (try intros; try apply H; lia). cbn. lia.
Qed.

Lemma initialize_buffer_ok size addr :
  size = s_allocator_default_size \/ size = s_allocator_dynamic_size ->
  0 < addr -> addr + size < 2 ^ 64 -> live_ok (initialize_buffer size addr) [].
Proof.
  intros Hs Ha Ht.
  assert (Hz : forall n j, bit 8 (replicate n 0) j = false).
  { intros n j. unfold bit. destruct (replicate n 0 !! _) eqn:E; [|done].
    apply lookup_replicate in E as [-> _]. apply Z.bits_0. }
  assert (exists bc tc len, initialize_buffer size addr = mk bc tc tc 0 addr (replicate len 0) ∅ /\
    0 < tc < 2 ^ 32 /\ tc <= 8 * Z.of_nat len /\ Z.of_nat len `mod` 8 = 0 /\ 0 <= bc /\ (bc + tc) * 64 <= size)
    as (bc & tc & len & -> & Htc & Htl & Hl8 & Hbc & Hsz).
  { destruct Hs as [->| ->].
    - exists 4, 2044, 256%nat. split; [reflexivity|]. unfold s_allocator_default_size. split_and!; (done || lia).
    - exists 64, 32704, 4096%nat. split; [reflexivity|]. unfold s_allocator_dynamic_size. split_and!; (done || lia). }
  split; cbn.
  - split; cbn; try lia.
    + unfold words_ok. by apply Forall_replicate.
    + by rewrite length_replicate.
    + by rewrite length_replicate.
    + unfold data_start, s_allocator_chunk_size. cbn. lia.
  - constructor.
  - intros j Hj. rewrite Hz. by split; [|intros ?%not_elem_of_nil].
  - constructor.
  - rewrite count_clear_all by (intros; apply Hz). lia.
  - done.
Qed.

(** ** Properties *)

(** [allocate] is a first fit and never misses: on an allocator with the
    live runs [live] it either returns the lowest run of [needed] free chunks,
    which overlaps no live run and joins them, or returns [nullptr], changes
    nothing, and then no run of [needed] free chunks exists. *)
Theorem allocate_first_fit (a : t) (live : list (Z * Z)) (needed : Z)
  (HL : live_ok a live) (Hn : 0 < needed) :
  (exists i a', allocate a needed = Ok (a', ptr_of a i) /\ live_ok a' ((i, needed) :: live) /\
     free_run a i needed /\ (forall i0, free_run a i0 needed -> i <= i0)) \/
  (allocate a needed = Ok (a, 0) /\ forall i0, ~ free_run a i0 needed).
Proof.
  destruct (allocate_ok a live needed HL Hn) as [(i & a' & H1 & H2 & H3 & H4 & _)|H]; [left|by right].
  by exists i, a'.
Qed.

Lemma allocate_first_fit_witness :
  exists a', allocate (initialize_default 0x10000) 3 = Ok (a', 0x10000 + 256 + 16) /\
    live_ok (initialize_default 0x10000) [].
Proof.
  assert (HL : live_ok (initialize_default 0x10000) []) by (by apply initialize_buffer_ok; [left| |]).
  destruct (allocate_first_fit (initialize_default 0x10000) [] 3 HL) as [(i & a' & H1 & _ & Hrun & Hmin)|[_ Hno]];
    [done| |].
  - assert (Hi : i <= 0); [|destruct Hrun as (Hi0 & _); assert (i = 0) as -> by lia; by exists a'].
    apply Hmin. split_and!; [done|done|]. intros j Hj.
    assert (Hc : j = 0 \/ j = 1 \/ j = 2) by lia. by destruct Hc as [->|[->| ->]].
  - destruct (Hno 0). split_and!; [done|done|]. intros j Hj.
    assert (Hc : j = 0 \/ j = 1 \/ j = 2) by lia. by destruct Hc as [->|[->| ->]].
Defined.

(** freeing the pointer of a live run succeeds, and the allocator then has
    exactly the other runs live: its chunks are free again, every other run
    keeps its chunks and its header, and the counters are back. *)
Theorem free_releases_run (a : t) (live live' : list (Z * Z)) (i n : Z)
  (HL : live_ok a live) (HP : live ≡ₚ (i, n) :: live') :
  exists a', free a (ptr_of a i) = Ok a' /\ live_ok a' live' /\ free_run a' i n.
Proof.
  destruct (free_ok a live i n live' HL HP) as (a' & He & HL' & Hb & Ht & Hbc).
  exists a'. split_and!; [done|done|].
  pose proof (live_runs a live HL) as Hr. rewrite HP in Hr. apply Forall_cons_1 in Hr as [(Hi & Hn & Hin & _) _].
  cbn in *. split_and!; [done|lia|]. intros j Hj. apply not_true_iff_false. intros Hu.
  apply (live_bits a' live' HL') in Hu; [|lia].
  pose proof (live_nodup a live HL) as Hnd. rewrite HP in Hnd. cbn in Hnd.
  apply list.NoDup_app in Hnd as (_ & Hd & _). apply (Hd j); [|done]. apply elem_of_seqZ. cbn. lia.
Qed.

Lemma free_releases_run_witness :
  exists a a' i, live_ok a [(i, 3)] /\ free a (ptr_of a i) = Ok a' /\ live_ok a' [].
Proof.
  assert (HL : live_ok (initialize_default 0x10000) []) by (by apply initialize_buffer_ok; [left| |]).
  destruct (allocate_ok (initialize_default 0x10000) [] 3 HL) as [(i & a & _ & Ha & _)|[_ Hno]]; [done| |].
  - destruct (free_releases_run a [(i, 3)] [] i 3 Ha) as (a' & H1 & H2 & _); [done|].
    exists a, a', i. done.
  - destruct (Hno 0). split_and!; [done|done|]. intros j Hj.
    assert (Hc : j = 0 \/ j = 1 \/ j = 2) by lia. by destruct Hc as [->|[->| ->]].
Defined.

End BitmapAllocator.

(** ** Page-granular virtual memory as [kmalloc] uses it

    [PageTable::kernel()] is a finite map from virtual to physical pages.  How
    a free virtual range is found is left to [reserve_free_contiguous_pages],
    of which only the contract is used. *)
Abbreviation page_table := (gmap Z Z).

Class AddressSpace : Type := {
  reserve_free_contiguous_pages : page_table -> Z -> Z;
  (** 0, or a page-aligned address of [n] unmapped pages inside the address space. *)
  reserve_ok : forall table n v, reserve_free_contiguous_pages table n = v -> v <> 0 ->
    0 < v /\ v `mod` PAGE_SIZE = 0 /\ v + n * PAGE_SIZE < 2 ^ 64 /\
    forall j, 0 <= j < n -> table !! (v + j * PAGE_SIZE) = None
}.

Module Kmalloc.
Section kmalloc.
Context `{AS : AddressSpace}.

(** ** Definitions *)
Definition s_big_allocation_threshold : Z := 16 * 1024.
Definition s_max_allocator_count : nat := 512.
Definition sizeof_BigAllocationHeader : Z := 16.

(** The kernel heap, the kernel's page table, the allocator table up to its
    first null entry, and the [page_count] of the big allocations by address. *)
Record state : Type := mk_state {
  heap : Heap.heap;
  table : page_table;
  s_allocators : list BitmapAllocator.t;
  big_headers : gmap Z Z
}.

Definition physical_address_of (table : page_table) (vaddr : Z) : Z := default 0 (table !! vaddr).

Fixpoint release_mapped (n : nat) (h : Heap.heap) (table : page_table) (vaddr : Z) : outcome Heap.heap :=
  match n with
  | O => Ok h
  | S n' =>
      let* h := Heap.release_page h (physical_address_of table vaddr) in
      release_mapped n' h table (vaddr + PAGE_SIZE)
  end.

Fixpoint unmap_range (n : nat) (table : page_table) (vaddr : Z) : page_table :=
  match n with
  | O => table
  | S n' => unmap_range n' (delete vaddr table) (vaddr + PAGE_SIZE)
  end.

(** The loop that backs [page_count] pages at [vaddr], [n] of them left and
    [i] done; it gives everything back when the heap is exhausted. *)
Fixpoint map_loop (n i : nat) (page_count : nat) (vaddr : Z) (h : Heap.heap) (table : page_table)
  : outcome (Heap.heap * page_table * bool) :=
  match n with
  | O => Ok (h, table, true)
  | S n' =>
      let* (h, paddr) := Heap.take_free_page h in
      if paddr =? 0 then
        let* h := release_mapped i h table vaddr in
        Ok (h, unmap_range page_count table vaddr, false)
      else map_loop n' (S i) page_count vaddr h (<[vaddr + Z.of_nat i * PAGE_SIZE := paddr]> table)
  end.

(** Backing a fresh virtual range: the address, or 0. *)
Definition map_fresh_range (page_count : Z) (h : Heap.heap) (table : page_table)
  : outcome (Heap.heap * page_table * Z) :=
  let vaddr := reserve_free_contiguous_pages table page_count in
  if vaddr =? 0 then Ok (h, table, 0)
  else
    let n := Z.to_nat page_count in
    let* (h, table, ok) := map_loop n 0 n vaddr h table in
    Ok (h, table, if ok : bool then vaddr else 0).

Definition initialize_dynamic (h : Heap.heap) (table : page_table)
  : outcome (Heap.heap * page_table * option BitmapAllocator.t) :=
  let size := BitmapAllocator.s_allocator_dynamic_size in
  let* (h, table, vaddr) := map_fresh_range (size / PAGE_SIZE) h table in
  Ok (h, table, if vaddr =? 0 then None else Some (BitmapAllocator.initialize_buffer size vaddr)).

Definition kmalloc_big (k : state) (size : Z) : outcome (state * Z) :=
  let page_count := u64 (u64 (size + sizeof_BigAllocationHeader) + PAGE_SIZE - 1) / PAGE_SIZE in
  let* (h, table, vaddr) := map_fresh_range page_count (heap k) (table k) in
  if vaddr =? 0 then Ok (mk_state h table (s_allocators k) (big_headers k), 0)
  else Ok (mk_state h table (s_allocators k) (<[vaddr := page_count]> (big_headers k)),
           vaddr + sizeof_BigAllocationHeader).

(** The loop over the existing allocators. *)
Fixpoint allocate_from (l : list BitmapAllocator.t) (needed : Z) : outcome (list BitmapAllocator.t * Z) :=
  match l with
  | [] => Ok ([], 0)
  | a :: l' =>
      let* (a, ptr) := BitmapAllocator.allocate a needed in
      if negb (ptr =? 0) then Ok (a :: l', ptr)
      else let* (l', ptr) := allocate_from l' needed in Ok (a :: l', ptr)
  end.

Definition kmalloc_small (k : state) (needed : Z) : outcome (state * Z) :=
  let* (l, ptr) := allocate_from (s_allocators k) needed in
  let k := mk_state (heap k) (table k) l (big_headers k) in
  if negb (ptr =? 0) then Ok (k, ptr)
  else if Nat.leb s_max_allocator_count (length l) then Ok (k, 0)
  else
    let* (h, table, new_allocator) := initialize_dynamic (heap k) (table k) in
    match new_allocator with
    | None => Ok (mk_state h table l (big_headers k), 0)
    | Some a =>
        let* (a, ptr) := BitmapAllocator.allocate a needed in
        Ok (mk_state h table (l ++ [a]) (big_headers k), ptr)
    end.

Definition kmalloc (k : state) (size : Z) : outcome (state * Z) :=
  if s_big_allocation_threshold <=? u64 (size + sizeof_BigAllocationHeader) then kmalloc_big k size
  else if BitmapAllocator.s_allocator_dynamic_size <=? size then Ok (k, 0)
  else kmalloc_small k (BitmapAllocator.needed_chunks size).

(** The allocator that holds [ptr], if one does. *)
Fixpoint free_from (l : list BitmapAllocator.t) (ptr : Z) : outcome (option (list BitmapAllocator.t)) :=
  match l with
  | [] => Ok None
  | a :: l' =>
      if BitmapAllocator.contains a ptr then
        let* a := BitmapAllocator.free a ptr in Ok (Some (a :: l'))
      else
        let* r := free_from l' ptr in
        Ok (match r with Some l' => Some (a :: l') | None => None end)
  end.

Definition kfree (k : state) (ptr : Z) : outcome state :=
  if ptr =? 0 then Ok k
  else
    let* r := free_from (s_allocators k) ptr in
    match r with
    | Some l => Ok (mk_state (heap k) (table k) l (big_headers k))
    | None =>
        let vaddr := ptr - sizeof_BigAllocationHeader in
        match big_headers k !! vaddr with
        | None => Panic
        | Some page_count =>
            let* h := release_mapped (Z.to_nat page_count) (heap k) (table k) vaddr in
            Ok (mk_state h (unmap_range (Z.to_nat page_count) (table k) vaddr) (s_allocators k) (big_headers k))
        end
    end.

(** ** Backing pages with the heap *)

(** [ps] are pages of the heap [h] taken since it was [h0]. *)
Record taken (h0 h : Heap.heap) (ps : list Z) : Prop := {
  taken_wf : Heap.heap_wf h;
  taken_nodup : NoDup ps;
  taken_fresh : forall p, p ∈ ps -> ~ Heap.owned h0 p;
  taken_owned : forall p, Heap.owned h p <-> Heap.owned h0 p \/ p ∈ ps;
  taken_located : forall p, p ∈ ps -> Heap.located h (p, 1)
}.

Lemma run_page_1 a p : Heap.run_page a 1 p <-> p = a.
Proof. unfold Heap.run_page. split; [intros (j & Hj & ->); lia|intros ->; exists 0; lia]. Qed.

Lemma taken_take h0 h ps :
  taken h0 h ps ->
  (exists h' p, Heap.take_free_page h = Ok (h', p) /\ p <> 0 /\ taken h0 h' (ps ++ [p])) \/
  Heap.take_free_page h = Ok (h, 0).
Proof.
  intros [Hwf Hnd Hfr Ho Hloc].
  destruct (Heap.take_free_page_cases h Hwf) as [(k & r & r' & i & Hk & -> & Hi & Hres)|[-> _]]; [left|by right].
  pose proof Hres as (_ & Hp & Hc & _).
  destruct (Heap.heap_wf_lookup h k r Hwf Hk) as [Hr Hpos].
  destruct (Heap.reserve_effect h k r r' i 1 Hwf Hk Hres) as (Hwf' & Hfree & Hown); [lia..|].
  set (p := PhysicalRange.page_addr r i) in *.
  assert (Hfp : ~ Heap.owned h p) by (by apply Hfree, run_page_1).
  eexists _, p. split_and!; [done|unfold p, PhysicalRange.page_addr; lia|]. split.
  - done.
  - apply list.NoDup_app. split_and!; [done| |by apply NoDup_singleton].
    intros q Hq ->%list_elem_of_singleton. apply Hfp, Ho. by right.
  - intros q [Hq| ->%list_elem_of_singleton]%elem_of_app; [by apply Hfr|].
    intros Hq. apply Hfp, Ho. by left.
  - intros q. rewrite Hown, Ho, run_page_1, elem_of_app, list_elem_of_singleton. tauto.
  - intros q [Hq| ->%list_elem_of_singleton]%elem_of_app.
    + apply (Heap.located_insert h k r r'); [done..|by apply Hloc].
    + exists k, r', i. rewrite list_lookup_insert_eq by (by eapply lookup_lt_Some).
      unfold p, PhysicalRange.page_addr. cbn. rewrite Hp, Hc. split_and!; (done || lia).
Qed.

Lemma taken_release h0 h p ps :
  taken h0 h (p :: ps) -> exists h', Heap.release_page h p = Ok h' /\ taken h0 h' ps.
Proof.
  intros [Hwf Hnd Hfr Ho Hloc].
  destruct (Hloc p) as (k & r & i & Hk & Hi & _ & Hin & Hp); [by apply elem_of_cons; left|]. cbn in *. subst p.
  destruct (Heap.heap_wf_lookup h k r Hwf Hk) as [Hr _].
  apply list.NoDup_cons in Hnd as [Hni Hnd].
  assert (Hu : PhysicalRange.used r i = true).
  { apply (Heap.owned_used h k); [done|done|lia|]. apply Ho. right. by apply elem_of_cons; left. }
  destruct (PhysicalRange.release_page_ok r Hr i ltac:(lia) Hu) as (r' & Hrel & Hres).
  pose proof Hres as (_ & Hp & Hc & _).
  destruct (Heap.release_effect h k r r' i 1 Hwf Hk Hres) as (Hwf' & Hown); [lia..|].
  exists (<[k := r']> h). rewrite (Heap.release_page_find h k r i Hwf Hk), Hrel by lia.
  split; [done|]. split.
  - done.
  - done.
  - intros q Hq. apply Hfr. by apply elem_of_cons; right.
  - intros q. rewrite Hown, Ho, run_page_1, elem_of_cons. split; [tauto|].
    intros [Hq|Hq]; (split; [tauto|]); intros ->; [|done].
    by apply (Hfr (PhysicalRange.page_addr r i)); [apply elem_of_cons; left|].
  - intros q Hq. apply (Heap.located_insert h k r r'); [done..|]. apply Hloc. by apply elem_of_cons; right.
Qed.

(** The pages [ps] are mapped from [vaddr] on. *)
Fixpoint mapped (table : page_table) (vaddr : Z) (ps : list Z) : Prop :=
  match ps with
  | [] => True
  | p :: ps' => table !! vaddr = Some p /\ mapped table (vaddr + PAGE_SIZE) ps'
  end.

Lemma mapped_snoc table vaddr ps p :
  mapped table vaddr ps ->
  mapped (<[vaddr + Z.of_nat (length ps) * PAGE_SIZE := p]> table) vaddr (ps ++ [p]).
Proof.
  revert vaddr. induction ps as [|x ps IH]; intros v; cbn [mapped app length].
  - intros _. cbn. rewrite Z.add_0_r, lookup_insert_eq. done.
  - intros [Hx Hps]. split.
    + rewrite lookup_insert_ne by lia. done.
    + apply IH in Hps. replace (v + Z.of_nat (S (length ps)) * PAGE_SIZE)
        with (v + PAGE_SIZE + Z.of_nat (length ps) * PAGE_SIZE) by lia. done.
Qed.

Lemma release_mapped_ok h0 table ps : forall h vaddr,
  taken h0 h ps -> mapped table vaddr ps ->
  exists h', release_mapped (length ps) h table vaddr = Ok h' /\ taken h0 h' [].
Proof.
  induction ps as [|p ps IH]; intros h vaddr Ht Hm; cbn [release_mapped length]; [by exists h|].
  destruct Hm as [Hp Hm]. unfold physical_address_of. rewrite Hp. cbn.
  destruct (taken_release h0 h p ps Ht) as (h1 & -> & Ht1). by apply IH.
Qed.

Lemma map_loop_ok h0 n : forall ps pc vaddr h table,
  taken h0 h ps -> mapped table vaddr ps ->
  (exists h' table' ps', map_loop n (length ps) pc vaddr h table = Ok (h', table', true) /\
     length ps' = n /\ taken h0 h' (ps ++ ps') /\ mapped table' vaddr (ps ++ ps') /\
     forall v, (v < vaddr + Z.of_nat (length ps) * PAGE_SIZE \/
                vaddr + Z.of_nat (length ps + n) * PAGE_SIZE <= v) -> table' !! v = table !! v) \/
  (exists h' table', map_loop n (length ps) pc vaddr h table = Ok (h', table', false) /\ taken h0 h' []).
Proof.
  induction n as [|n IH]; intros ps pc vaddr h table Ht Hm; cbn [map_loop].
  { left. exists h, table, []. rewrite app_nil_r. done. }
  destruct (taken_take h0 h ps Ht) as [(h1 & p & -> & Hp & Ht1)| ->].
  - rewrite (proj2 (Z.eqb_neq _ _)) by done.
    assert (Hm1 := mapped_snoc table vaddr ps p Hm).
    destruct (IH (ps ++ [p]) pc vaddr h1 _ Ht1 Hm1)
      as [(h' & t' & ps' & He & Hl & Ht' & Hm' & Hf)|(h' & t' & He & Ht')];
      rewrite length_app, Nat.add_1_r in He; rewrite He.
    + left. exists h', t', (p :: ps'). rewrite <- app_assoc in Ht', Hm'. cbn in *.
      split_and!; [done|lia|done|done|]. intros v Hv. rewrite length_app in Hf. cbn in Hf.
      rewrite Hf by lia. apply lookup_insert_ne. lia.
    + right. by exists h', t'.
  - rewrite Z.eqb_refl. destruct (release_mapped_ok h0 table ps h vaddr Ht Hm) as (h' & -> & Ht').
    right. eauto.
Qed.

Lemma taken_nil h : Heap.heap_wf h -> taken h h [].
Proof. split; [done|constructor| |intros p; split; [by left|intros [?|?%not_elem_of_nil]; done]|]; by intros p ?%not_elem_of_nil. Qed.

Lemma map_fresh_range_ok n h tbl :
  Heap.heap_wf h -> 0 < n ->
  (exists h' tbl' v ps, map_fresh_range n h tbl = Ok (h', tbl', v) /\ v <> 0 /\
     reserve_free_contiguous_pages tbl n = v /\ Z.of_nat (length ps) = n /\
     taken h h' ps /\ mapped tbl' v ps) \/
  (exists h' tbl', map_fresh_range n h tbl = Ok (h', tbl', 0) /\ taken h h' []).
Proof.
  intros Hwf Hn. unfold map_fresh_range. pose proof (taken_nil h Hwf) as Ht. case_if; zify_bool.
  { right. eauto. }
  destruct (map_loop_ok h (Z.to_nat n) [] (Z.to_nat n) (reserve_free_contiguous_pages tbl n) h tbl Ht)
    as [(h' & t' & ps & He & Hl & Ht' & Hm & _)|(h' & t' & He & Ht')]; [done| |];
    cbn [length] in He; rewrite He.
  - left. exists h', t', (reserve_free_contiguous_pages tbl n), ps. split_and!; [done|done|done|lia|done|done].
  - right. eauto.
Qed.

Lemma free_from_none l ptr :
  (forall a, a ∈ l -> BitmapAllocator.contains a ptr = false) -> free_from l ptr = Ok None.
Proof.
  induction l as [|a l IH]; intros H; cbn [free_from]; [done|].
  rewrite (H a) by (by apply elem_of_cons; left).
  rewrite IH; [done|]. intros x Hx. apply H. by apply elem_of_cons; right.
Qed.

(** Allocation from the existing allocators. *)
Lemma allocate_from_ok needed l : forall lives,
  Forall2 BitmapAllocator.live_ok l lives -> 0 < needed ->
  exists l' ptr, allocate_from l needed = Ok (l', ptr) /\
    ((ptr <> 0 /\ exists j a a' i live, l !! j = Some a /\ lives !! j = Some live /\
        l' = <[j := a']> l /\ ptr = BitmapAllocator.ptr_of a' i /\
        BitmapAllocator.live_ok a' ((i, needed) :: live)) \/
     (ptr = 0 /\ l' = l /\ Forall (fun a => forall i, ~ BitmapAllocator.free_run a i needed) l)).
Proof.
  induction l as [|a l IH]; intros lives HF Hn; cbn [allocate_from].
  { exists [], 0. split; [done|]. right. done. }
  apply Forall2_cons_inv_l in HF as (live & lives' & Ha & HF & ->).
  destruct (BitmapAllocator.allocate_ok a live needed Ha Hn)
    as [(i & a' & -> & HL & Hrun & _ & Hb & Ht & Hbc)|[-> Hno]].
  - assert (Hp : BitmapAllocator.ptr_of a i = BitmapAllocator.ptr_of a' i).
    { unfold BitmapAllocator.ptr_of, BitmapAllocator.header_from_chunk, BitmapAllocator.data_start. congruence. }
    assert (Hnz : BitmapAllocator.ptr_of a i <> 0).
    { pose proof (BitmapAllocator.geo_base a (BitmapAllocator.live_geometry a live Ha)).
      pose proof (BitmapAllocator.geo_chunks a (BitmapAllocator.live_geometry a live Ha)).
      destruct Hrun. unfold BitmapAllocator.ptr_of, BitmapAllocator.header_from_chunk, BitmapAllocator.data_start,
        BitmapAllocator.s_allocator_chunk_size, BitmapAllocator.sizeof_Header. lia. }
    rewrite (proj2 (Z.eqb_neq _ _)) by done. cbn [negb]. eexists _, _. split; [done|]. left. split; [done|].
    exists O, a, a', i, live. done.
  - cbn [Z.eqb negb]. destruct (IH lives' HF Hn) as (l' & ptr & -> & [(Hp & j & x & x' & i & lv & H1 & H2 & -> & H3)|(-> & -> & Hall)]).
    + eexists _, _. split; [done|]. left. split; [done|]. exists (S j), x, x', i, lv. done.
    + eexists _, _. split; [done|]. right. split_and!; [done|done|by constructor].
Qed.

(** Room for the payload. *)
Lemma needed_chunks_spec size :
  0 <= size < s_big_allocation_threshold ->
  0 < BitmapAllocator.needed_chunks size <= 257 /\
  size + BitmapAllocator.sizeof_Header <= BitmapAllocator.needed_chunks size * BitmapAllocator.s_allocator_chunk_size.
Proof.
  unfold s_big_allocation_threshold, BitmapAllocator.needed_chunks, BitmapAllocator.sizeof_Header,
    BitmapAllocator.s_allocator_chunk_size, Math.div_round_up. intros Hs. unwrap.
  pose proof (Z.div_mod (16 + size + 64 - 1) 64 ltac:(lia)).
  pose proof (Z.mod_pos_bound (16 + size + 64 - 1) 64 ltac:(lia)). lia.
Qed.

(** A new dynamic allocator always serves a small request. *)
Lemma dynamic_allocate v needed :
  0 < v -> v + BitmapAllocator.s_allocator_dynamic_size < 2 ^ 64 -> 0 < needed <= 257 ->
  let a := BitmapAllocator.initialize_buffer BitmapAllocator.s_allocator_dynamic_size v in
  exists a' i, BitmapAllocator.allocate a needed = Ok (a', BitmapAllocator.ptr_of a' i) /\
    BitmapAllocator.live_ok a' [(i, needed)] /\ BitmapAllocator.ptr_of a' i <> 0.
Proof.
  intros Hv Ht Hn a.
  assert (HL : BitmapAllocator.live_ok a []) by (by apply BitmapAllocator.initialize_buffer_ok; [right| |]).
  assert (Htc : BitmapAllocator.total_chunks a = 32704) by reflexivity.
  assert (Hfree : BitmapAllocator.free_run a 0 needed).
  { split_and!; [done|rewrite Htc; lia|]. intros j Hj. apply not_true_iff_false. intros Hu.
    apply (BitmapAllocator.live_bits a [] HL) in Hu; [|rewrite Htc; lia]. by apply not_elem_of_nil in Hu. }
  destruct (BitmapAllocator.allocate_ok a [] needed HL ltac:(lia))
    as [(i & a' & -> & HL' & (Hi & _) & _ & Hb & _ & Hbc)|[_ Hno]]; [|by destruct (Hno 0)].
  assert (Hp : BitmapAllocator.ptr_of a i = BitmapAllocator.ptr_of a' i).
  { unfold BitmapAllocator.ptr_of, BitmapAllocator.header_from_chunk, BitmapAllocator.data_start. congruence. }
  exists a', i. rewrite Hp. split_and!; [done|done|]. rewrite <- Hp.
  unfold BitmapAllocator.ptr_of, BitmapAllocator.header_from_chunk, BitmapAllocator.data_start,
    BitmapAllocator.s_allocator_chunk_size, BitmapAllocator.sizeof_Header.
  change (BitmapAllocator.base a) with v. change (BitmapAllocator.bitmap_chunks a) with 64. lia.
Qed.

(** ** Properties *)

(** a big [kmalloc] either fails and leaves the ownership of physical
    memory as it was, all pages taken on the way given back; or it maps enough
    pages for the payload and the header to distinct physical pages that
    nobody owned, and [kfree] of the pointer then succeeds and restores the
    ownership exactly. *)
Theorem kmalloc_big_roundtrip (k : state) (size : Z)
  (Hwf : Heap.heap_wf (heap k))
  (Hsize : s_big_allocation_threshold <= size + sizeof_BigAllocationHeader /\
           size + sizeof_BigAllocationHeader + PAGE_SIZE < 2 ^ 64)
  (Hbuffers : forall a v, a ∈ s_allocators k -> BitmapAllocator.contains a (v + 16) = true ->
     v `mod` PAGE_SIZE = 0 -> is_Some (table k !! v)) :
  (exists k', kmalloc k size = Ok (k', 0) /\
     forall p, Heap.owned (heap k') p <-> Heap.owned (heap k) p) \/
  (exists k' v ps k'', kmalloc k size = Ok (k', v + sizeof_BigAllocationHeader) /\
     size + sizeof_BigAllocationHeader <= Z.of_nat (length ps) * PAGE_SIZE /\
     mapped (table k') v ps /\ NoDup ps /\ (forall p, p ∈ ps -> ~ Heap.owned (heap k) p) /\
     (forall p, Heap.owned (heap k') p <-> Heap.owned (heap k) p \/ p ∈ ps) /\
     kfree k' (v + sizeof_BigAllocationHeader) = Ok k'' /\
     forall p, Heap.owned (heap k'') p <-> Heap.owned (heap k) p).
Proof.
  unfold s_big_allocation_threshold, sizeof_BigAllocationHeader in *. unfold kmalloc, s_big_allocation_threshold.
  rewrite (wrap_id 64 (size + sizeof_BigAllocationHeader)) by (unfold sizeof_BigAllocationHeader; lia).
  unfold sizeof_BigAllocationHeader. rewrite (proj2 (Z.leb_le _ _)) by lia.
  unfold kmalloc_big, sizeof_BigAllocationHeader. rewrite (wrap_id 64 (size + 16)), wrap_id by lia.
  pose proof (Z.div_mod (size + 16 + PAGE_SIZE - 1) PAGE_SIZE ltac:(lia)) as Hdm.
  pose proof (Z.mod_pos_bound (size + 16 + PAGE_SIZE - 1) PAGE_SIZE ltac:(lia)) as Hmb.
  set (pc := (size + 16 + PAGE_SIZE - 1) / PAGE_SIZE) in *.
  destruct (map_fresh_range_ok pc (heap k) (table k) Hwf ltac:(lia))
    as [(h' & t' & v & ps & -> & Hv & Hres & Hlen & Ht & Hm)|(h' & t' & -> & Ht)].
  2:{ left. cbn. eexists. split; [done|]. intros p. cbn. rewrite (taken_owned _ _ _ Ht).
      split; [intros [?|?%not_elem_of_nil]; done|by left]. }
  right. destruct (reserve_ok _ _ _ Hres Hv) as (Hvp & Hva & Hvt & Hfree).
  rewrite (proj2 (Z.eqb_neq _ _)) by done.
  destruct (release_mapped_ok (heap k) t' ps h' v Ht Hm) as (h'' & Hrel & Ht'').
  eexists _, v, ps, _. cbn [table heap]. split_and!; [done|lia|done|apply Ht|apply Ht|apply Ht| |].
  - unfold kfree. rewrite (proj2 (Z.eqb_neq _ _)) by lia. cbn [s_allocators].
    rewrite free_from_none.
    + unfold sizeof_BigAllocationHeader. replace (v + 16 - 16) with v by lia. cbn [big_headers heap table].
      rewrite lookup_insert_eq. replace (Z.to_nat pc) with (length ps) by lia. rewrite Hrel. done.
    + intros a Ha. apply not_true_iff_false. intros Hc. specialize (Hbuffers a v Ha Hc Hva).
      specialize (Hfree 0 ltac:(lia)). rewrite Z.mul_0_l, Z.add_0_r in Hfree.
      rewrite Hfree in Hbuffers. by destruct Hbuffers.
  - cbn [heap]. intros p. rewrite (taken_owned _ _ _ Ht''). split; [intros [?|?%not_elem_of_nil]; done|by left].
Qed.

(** a small [kmalloc] never panics; it returns a pointer into one bitmap
    allocator, to a run that overlaps no live run and has room for the
    request behind its header, all other allocators untouched or one new
    allocator added; or it returns [nullptr], and then no allocator had a
    large enough run of free chunks. *)
Theorem kmalloc_small_correct (k : state) (lives : list (list (Z * Z))) (size : Z)
  (Hlive : Forall2 BitmapAllocator.live_ok (s_allocators k) lives) (Hwf : Heap.heap_wf (heap k))
  (Hsize : 0 <= size /\ size + sizeof_BigAllocationHeader < s_big_allocation_threshold) :
  exists k' ptr, kmalloc k size = Ok (k', ptr) /\
    let needed := BitmapAllocator.needed_chunks size in
    size + BitmapAllocator.sizeof_Header <= needed * BitmapAllocator.s_allocator_chunk_size /\
    ((ptr <> 0 /\ exists j a i live,
        ptr = BitmapAllocator.ptr_of a i /\ BitmapAllocator.live_ok a ((i, needed) :: live) /\
        ((lives !! j = Some live /\ s_allocators k' = <[j := a]> (s_allocators k)) \/
         (live = [] /\ s_allocators k' = s_allocators k ++ [a]))) \/
     (ptr = 0 /\ s_allocators k' = s_allocators k /\
        Forall (fun a => forall i, ~ BitmapAllocator.free_run a i needed) (s_allocators k))).
Proof.
  unfold kmalloc. destruct Hsize as [H0 Hs]. unfold sizeof_BigAllocationHeader in *.
  destruct (needed_chunks_spec size) as [Hn Hroom]; [lia|].
  rewrite wrap_id by (unfold s_big_allocation_threshold in *; lia).
  rewrite (proj2 (Z.leb_gt _ _)) by lia.
  rewrite (proj2 (Z.leb_gt _ _)) by (unfold s_big_allocation_threshold, BitmapAllocator.s_allocator_dynamic_size in *; lia).
  unfold kmalloc_small. set (needed := BitmapAllocator.needed_chunks size) in *.
  destruct (allocate_from_ok needed (s_allocators k) lives Hlive ltac:(lia))
    as (l & ptr & -> & [(Hp & j & a & a' & i & live & H1 & H2 & -> & H3 & H4)|(-> & -> & Hall)]).
  { rewrite (proj2 (Z.eqb_neq _ _)) by done. cbn [negb]. eexists _, _. split; [done|]. split; [done|].
    left. split; [done|]. exists j, a', i, live. split_and!; [done|done|]. left. done. }
  cbn [Z.eqb negb]. case_if.
  { eexists _, _. split; [done|]. split; [done|]. right. done. }
  cbn [heap table]. unfold initialize_dynamic.
  destruct (map_fresh_range_ok (BitmapAllocator.s_allocator_dynamic_size / PAGE_SIZE) (heap k) (table k) Hwf)
    as [(h' & t' & v & ps & -> & Hv & Hres & _)|(h' & t' & -> & Ht)]; [done| |].
  - rewrite (proj2 (Z.eqb_neq _ _)) by done. destruct (reserve_ok _ _ _ Hres Hv) as (Hvp & _ & Hvt & _).
    destruct (dynamic_allocate v needed Hvp) as (a' & i & -> & HL & Hnz); [done|lia|].
    eexists _, _. split; [done|]. split; [done|]. left. split; [done|].
    exists O, a', i, []. split_and!; [done|done|]. by right.
  - cbn. eexists _, _. split; [done|]. split; [done|]. right. done.
Qed.
End kmalloc.

(** An address space with one range to give away, for an empty table. *)
#[program] Definition one_range : AddressSpace := {|
  reserve_free_contiguous_pages table n :=
    if decide (table = ∅) then if (n <? 2 ^ 40) then 2 ^ 40 else 0 else 0
|}.
Next Obligation.
  intros table n v Hv Hnz. cbn in Hv. destruct (decide (table = ∅)) as [->|]; [|lia].
  case_if_in Hv; zify_bool; [|lia]. subst v. split_and!; [done|done|lia|].
  intros j _. apply lookup_empty.
Qed.

Definition sample_state : state := mk_state Heap.sample_heap ∅ [] ∅.

Lemma kmalloc_big_roundtrip_witness :
  Heap.heap_wf (heap sample_state) /\ exists k' ptr, kmalloc (AS := one_range) sample_state 20000 = Ok (k', ptr).
Proof.
  split; [apply Heap.sample_heap_ok|].
  destruct (kmalloc_big_roundtrip (AS := one_range) sample_state 20000) as [(k' & He & _)|(k' & v & ps & k'' & He & _)].
  - apply Heap.sample_heap_ok.
  - split; reflexivity || done.
  - by intros a v ?%not_elem_of_nil.
  - exists k', 0. exact He.
  - eexists k', _. exact He.
Defined.

Lemma kmalloc_small_correct_witness :
  exists k' ptr, kmalloc (AS := one_range) sample_state 100 = Ok (k', ptr).
Proof.
  destruct (kmalloc_small_correct (AS := one_range) sample_state [] 100) as (k' & ptr & He & _).
  - constructor.
  - apply Heap.sample_heap_ok.
  - split; done.
  - exists k', ptr. exact He.
Defined.
End Kmalloc.
