(* ===== verification/RingBuffer.v ===== *)
(** * kernel/Memory/ByteRingBuffer: a byte queue in doubly mapped memory

    The buffer maps the same [m_capacity] bytes twice, one copy after the
    other, so that a run of bytes that wraps around is contiguous in virtual
    memory.  [phys] is the physical memory, and a virtual offset [v] below
    [2 * m_capacity] denotes byte [v mod m_capacity] of it.  [BufferMemory]
    is the life cycle of that memory: [create] and the destructor. *)
From stdpp Require Import gmap.
From S2P Require Import Prelude BanMath PhysicalRange KHeap Kmalloc.

Module ByteRingBuffer.

(** ** Definitions *)
Record t : Type := mk { m_size : Z; m_tail : Z; m_capacity : Z; phys : list Z }.

(** One byte stored through the double mapping; past it nothing is mapped. *)
Definition store (b : t) (v x : Z) : outcome t :=
  ASSERT (v <? 2 * m_capacity b) in
  Ok (mk (m_size b) (m_tail b) (m_capacity b) (<[Z.to_nat (v `mod` m_capacity b) := x]> (phys b))).

Definition load (b : t) (v : Z) : outcome Z :=
  ASSERT (v <? 2 * m_capacity b) in
  match phys b !! Z.to_nat (v `mod` m_capacity b) with Some x => Ok x | None => Panic end.

(** [memcpy] into and out of the mapping. *)
Fixpoint copy_in (b : t) (v : Z) (data : list Z) : outcome t :=
  match data with
  | [] => Ok b
  | x :: data' => let* b := store b v x in copy_in b (v + 1) data'
  end.

Fixpoint copy_out (n : nat) (b : t) (v : Z) : outcome (list Z) :=
  match n with
  | O => Ok []
  | S n' => let* x := load b v in let* xs := copy_out n' b (v + 1) in Ok (x :: xs)
  end.

Definition push (b : t) (data : list Z) : outcome t :=
  let n := Z.of_nat (length data) in
  ASSERT (n + m_size b <=? m_capacity b) in
  let* b := copy_in b ((m_tail b + m_size b) `mod` m_capacity b) data in
  Ok (mk (m_size b + n) (m_tail b) (m_capacity b) (phys b)).

Definition pop (b : t) (size : Z) : outcome t :=
  ASSERT (size <=? m_size b) in
  Ok (mk (m_size b - size) ((m_tail b + size) `mod` m_capacity b) (m_capacity b) (phys b)).

Definition pop_back (b : t) (size : Z) : outcome t :=
  ASSERT (size <=? m_size b) in
  Ok (mk (m_size b - size) (m_tail b) (m_capacity b) (phys b)).

Definition empty (b : t) : bool := m_size b =? 0.
Definition full (b : t) : bool := m_size b =? m_capacity b.
Definition free (b : t) : Z := m_capacity b - m_size b.
Definition size (b : t) : Z := m_size b.
Definition capacity (b : t) : Z := m_capacity b.

(** The bytes of the span [get_data()], and its first [n]. *)
Definition get_data_prefix (b : t) (n : Z) : outcome (list Z) := copy_out (Z.to_nat n) b (m_tail b).
Definition get_data (b : t) : outcome (list Z) := get_data_prefix b (m_size b).

Definition front (b : t) : outcome Z := ASSERT (negb (empty b)) in load b (m_tail b).
Definition back (b : t) : outcome Z := ASSERT (negb (empty b)) in load b (m_tail b + m_size b - 1).

(** ** The queue that a buffer holds *)
Record wf (b : t) : Prop := {
  wf_capacity : 0 < m_capacity b;
  wf_size : 0 <= m_size b <= m_capacity b;
  wf_tail : 0 <= m_tail b < m_capacity b;
  wf_phys : Z.of_nat (length (phys b)) = m_capacity b
}.

Definition byte_at (b : t) (v : Z) : Z := default 0 (phys b !! Z.to_nat (v `mod` m_capacity b)).

(** [n] bytes from virtual offset [v]. *)
Definition window (b : t) (v : Z) (n : nat) : list Z := map (fun i => byte_at b (v + Z.of_nat i)) (seq 0 n).

Definition contents (b : t) : list Z := window b (m_tail b) (Z.to_nat (m_size b)).

Lemma window_S b v n : window b v (S n) = byte_at b v :: window b (v + 1) n.
Proof.
  unfold window. cbn [seq map]. f_equal; [f_equal; lia|].
  rewrite <- seq_shift, map_map. apply map_ext. intros i. f_equal. lia.
Qed.

Lemma window_app b v n m : window b v (n + m) = window b v n ++ window b (v + Z.of_nat n) m.
Proof.
  revert v. induction n as [|n IH]; intros v.
  - cbn [Nat.add]. by rewrite Z.add_0_r.
  - cbn [Nat.add]. rewrite !window_S, IH. cbn. do 3 f_equal. lia.
Qed.

Lemma length_window b v n : length (window b v n) = n.
Proof. unfold window. by rewrite length_map, length_seq. Qed.

(** The window depends on the offset modulo the capacity only. *)
Lemma window_mod b v n : 0 < m_capacity b -> window b (v `mod` m_capacity b) n = window b v n.
Proof.
  intros Hc. unfold window. apply map_ext. intros i. unfold byte_at.
  by rewrite Zplus_mod_idemp_l.
Qed.

Lemma load_ok b v : wf b -> 0 <= v < 2 * m_capacity b -> load b v = Ok (byte_at b v).
Proof.
  intros Hwf Hv. unfold load, byte_at. rewrite (proj2 (Z.ltb_lt _ _)) by lia.
  pose proof (wf_phys b Hwf). pose proof (wf_capacity b Hwf).
  pose proof (Z.mod_pos_bound v (m_capacity b) ltac:(lia)).
  destruct (lookup_lt_is_Some_2 (phys b) (Z.to_nat (v `mod` m_capacity b))) as [x ->]; [lia|done].
Qed.

Lemma copy_out_ok n : forall b v,
  wf b -> 0 <= v -> v + Z.of_nat n <= 2 * m_capacity b -> copy_out n b v = Ok (window b v n).
Proof.
  induction n as [|n IH]; intros b v Hwf Hv Hn; cbn [copy_out]; [done|].
  rewrite load_ok, IH, window_S by (done || lia). done.
Qed.

Lemma store_ok b v x :
  wf b -> 0 <= v < 2 * m_capacity b ->
  exists b', store b v x = Ok b' /\ wf b' /\ m_size b' = m_size b /\ m_tail b' = m_tail b /\
    m_capacity b' = m_capacity b /\
    (forall u, 0 <= u -> byte_at b' u = if u `mod` m_capacity b =? v `mod` m_capacity b then x else byte_at b u).
Proof.
  intros Hwf Hv. unfold store. rewrite (proj2 (Z.ltb_lt _ _)) by lia.
  pose proof (wf_phys b Hwf) as Hp. pose proof (wf_capacity b Hwf) as Hc.
  pose proof (Z.mod_pos_bound v (m_capacity b) Hc) as Hm.
  eexists. split; [done|]. split_and!; [|done|done|done|].
  - destruct Hwf. split; cbn; [done..|]. by rewrite length_insert.
  - intros u Hu. unfold byte_at. cbn. pose proof (Z.mod_pos_bound u (m_capacity b) Hc).
    destruct (Z.eqb_spec (u `mod` m_capacity b) (v `mod` m_capacity b)) as [->|Hne].
    + by rewrite list_lookup_insert_eq by lia.
    + by rewrite list_lookup_insert_ne by lia.
Qed.

(** Offsets closer than the capacity denote different bytes. *)
Lemma mod_distinct c u v : 0 < c -> u < v < u + c -> u `mod` c <> v `mod` c.
Proof.
  intros Hc Huv He.
  pose proof (Z.div_mod u c ltac:(lia)). pose proof (Z.div_mod v c ltac:(lia)).
  assert (Hk : v - u = c * (v / c - u / c)) by (rewrite Z.mul_sub_distr_l; lia).
  assert (v / c - u / c <= 0 \/ 1 <= v / c - u / c) as [?|?] by lia; nia.
Qed.

Lemma copy_in_ok data : forall b v,
  wf b -> 0 <= v -> v + Z.of_nat (length data) <= 2 * m_capacity b -> Z.of_nat (length data) <= m_capacity b ->
  exists b', copy_in b v data = Ok b' /\ wf b' /\ m_size b' = m_size b /\ m_tail b' = m_tail b /\
    m_capacity b' = m_capacity b /\ window b' v (length data) = data /\
    (forall u, 0 <= u -> (forall j, 0 <= j < Z.of_nat (length data) -> u `mod` m_capacity b <> (v + j) `mod` m_capacity b) ->
       byte_at b' u = byte_at b u).
Proof.
  induction data as [|x data IH]; intros b v Hwf Hv Hlen Hcap; cbn [copy_in].
  { exists b. split_and!; done. }
  cbn [length] in Hlen, Hcap. pose proof (wf_capacity b Hwf) as Hc.
  destruct (store_ok b v x Hwf ltac:(lia)) as (b1 & -> & Hwf1 & Hs1 & Ht1 & Hc1 & Hb1).
  destruct (IH b1 (v + 1)) as (b2 & -> & Hwf2 & Hs2 & Ht2 & Hc2 & Hw2 & Hb2); [done|lia|lia|lia|].
  exists b2. split_and!; [done|done|lia|lia|lia| |].
  - cbn [length]. rewrite window_S, Hw2. f_equal. rewrite Hb2.
    + rewrite Hb1, Z.eqb_refl by done. done.
    + done.
    + intros j Hj. rewrite Hc1. apply mod_distinct; lia.
  - intros u Hu Hne. rewrite Hb2; [|done|].
    + rewrite Hb1 by done. rewrite (proj2 (Z.eqb_neq _ _)); [done|].
      specialize (Hne 0 ltac:(cbn; lia)). by rewrite Z.add_0_r in Hne.
    + intros j Hj. rewrite Hc1. replace (v + 1 + j) with (v + (j + 1)) by lia. apply Hne. cbn [length]. lia.
Qed.

Lemma window_ext b b' v n :
  (forall i, 0 <= i < Z.of_nat n -> byte_at b' (v + i) = byte_at b (v + i)) -> window b' v n = window b v n.
Proof.
  revert v. induction n as [|n IH]; intros v H; [done|]. rewrite !window_S. f_equal.
  - specialize (H 0 ltac:(lia)). by rewrite Z.add_0_r in H.
  - apply IH. intros i Hi. rewrite <- Z.add_assoc. apply H. lia.
Qed.

(** [push] appends. *)
Lemma ring_push_ok b data :
  wf b -> Z.of_nat (length data) <= free b ->
  exists b', push b data = Ok b' /\ wf b' /\ contents b' = contents b ++ data /\
    m_capacity b' = m_capacity b /\ m_size b' = m_size b + Z.of_nat (length data).
Proof.
  intros Hwf Hfree. unfold free in Hfree. unfold push. rewrite (proj2 (Z.leb_le _ _)) by lia.
  pose proof (wf_capacity b Hwf) as Hc. pose proof (wf_size b Hwf) as Hs. pose proof (wf_tail b Hwf) as Ht.
  set (v := (m_tail b + m_size b) `mod` m_capacity b).
  pose proof (Z.mod_pos_bound (m_tail b + m_size b) (m_capacity b) Hc) as Hv. fold v in Hv.
  destruct (copy_in_ok data b v Hwf) as (b1 & -> & Hwf1 & Hs1 & Ht1 & Hc1 & Hw1 & Hb1); [lia|lia|lia|].
  eexists. split; [done|]. cbn [m_size m_capacity].
  split_and!; [|..|lia|lia].
  { destruct Hwf1. split; cbn; lia. }
  assert (Hw : forall u n, window (mk (m_size b1 + Z.of_nat (length data)) (m_tail b1) (m_capacity b1) (phys b1)) u n
                 = window b1 u n) by done.
  unfold contents at 1. cbn [m_tail m_size]. rewrite Hw, Hs1, Ht1.
  replace (Z.to_nat (m_size b + Z.of_nat (length data))) with (Z.to_nat (m_size b) + length data)%nat by lia.
  rewrite window_app, Z2Nat.id by lia. f_equal.
  - apply window_ext. intros i Hi. apply Hb1; [lia|]. intros j Hj. unfold v. rewrite Zplus_mod_idemp_l.
    apply mod_distinct; lia.
  - rewrite <- Hw1 at 2. unfold v. rewrite <- Hc1, window_mod by lia. done.
Qed.

Lemma ring_pop_ok b n :
  wf b -> 0 <= n <= m_size b ->
  exists b', pop b n = Ok b' /\ wf b' /\ contents b' = drop (Z.to_nat n) (contents b) /\
    m_capacity b' = m_capacity b /\ m_size b' = m_size b - n.
Proof.
  intros Hwf Hn. unfold pop. rewrite (proj2 (Z.leb_le _ _)) by lia.
  pose proof (wf_capacity b Hwf) as Hc. pose proof (wf_size b Hwf).
  eexists. split; [done|]. split_and!; [| |done|done].
  { destruct Hwf. split; cbn; try lia. apply Z.mod_pos_bound. lia. }
  unfold contents. cbn [m_tail m_size].
  replace (Z.to_nat (m_size b)) with (Z.to_nat n + Z.to_nat (m_size b - n))%nat by lia.
  rewrite window_app, drop_app_length' by (by rewrite length_window). rewrite Z2Nat.id by lia.
  symmetry. rewrite <- window_mod by done. done.
Qed.

Lemma pop_back_ok b n :
  wf b -> 0 <= n <= m_size b ->
  exists b', pop_back b n = Ok b' /\ wf b' /\ contents b' = take (Z.to_nat (m_size b - n)) (contents b) /\
    m_capacity b' = m_capacity b /\ m_size b' = m_size b - n.
Proof.
  intros Hwf Hn. unfold pop_back. rewrite (proj2 (Z.leb_le _ _)) by lia.
  pose proof (wf_size b Hwf). eexists. split; [done|]. split_and!; [| |done|done].
  { destruct Hwf. split; cbn; lia. }
  unfold contents. cbn [m_tail m_size].
  replace (Z.to_nat (m_size b)) with (Z.to_nat (m_size b - n) + Z.to_nat n)%nat by lia.
  rewrite window_app, take_app_length' by (by rewrite length_window). done.
Qed.

Lemma get_data_prefix_ok b n :
  wf b -> 0 <= n <= m_size b -> get_data_prefix b n = Ok (take (Z.to_nat n) (contents b)).
Proof.
  intros Hwf Hn. unfold get_data_prefix. pose proof (wf_tail b Hwf). pose proof (wf_size b Hwf).
  rewrite copy_out_ok by (done || lia). f_equal. unfold contents.
  replace (Z.to_nat (m_size b)) with (Z.to_nat n + Z.to_nat (m_size b - n))%nat by lia.
  by rewrite window_app, take_app_length' by (by rewrite length_window).
Qed.

Lemma length_contents b : wf b -> Z.of_nat (length (contents b)) = m_size b.
Proof. intros Hwf. pose proof (wf_size b Hwf). unfold contents. rewrite length_window. lia. Qed.

(** ** Properties *)

(** the ring buffer implements a bounded byte queue: through the double
    mapping, [push] appends at the end wherever the data wraps, [pop] removes
    from the front, [pop_back] from the end, [get_data] is the whole queue,
    [front] and [back] its ends, and the operations that would under- or
    overflow are refused. *)
Theorem ring_buffer_is_queue (b : t) (Hwf : wf b) :
  (forall data, Z.of_nat (length data) <= free b ->
     exists b', push b data = Ok b' /\ wf b' /\ contents b' = contents b ++ data) /\
  (forall data, free b < Z.of_nat (length data) -> push b data = Panic) /\
  (forall n, 0 <= n <= m_size b ->
     exists b', pop b n = Ok b' /\ wf b' /\ contents b' = drop (Z.to_nat n) (contents b)) /\
  (forall n, 0 <= n <= m_size b ->
     exists b', pop_back b n = Ok b' /\ wf b' /\ contents b' = take (Z.to_nat (m_size b - n)) (contents b)) /\
  (forall n, m_size b < n -> pop b n = Panic /\ pop_back b n = Panic) /\
  get_data b = Ok (contents b) /\ Z.of_nat (length (contents b)) = m_size b /\
  (forall x xs, contents b = x :: xs -> front b = Ok x) /\
  (forall x xs, contents b = xs ++ [x] -> back b = Ok x).
Proof.
  pose proof (wf_size b Hwf) as Hs. pose proof (wf_tail b Hwf) as Ht. pose proof (length_contents b Hwf) as Hl.
  split_and!; [..|done| |].
  - intros data Hd. destruct (ring_push_ok b data Hwf Hd) as (b' & H1 & H2 & H3 & _). by exists b'.
  - intros data Hd. unfold push, free in *. by rewrite (proj2 (Z.leb_gt _ _)) by lia.
  - intros n Hn. destruct (ring_pop_ok b n Hwf Hn) as (b' & H1 & H2 & H3 & _). by exists b'.
  - intros n Hn. destruct (pop_back_ok b n Hwf Hn) as (b' & H1 & H2 & H3 & _). by exists b'.
  - intros n Hn. unfold pop, pop_back. by rewrite (proj2 (Z.leb_gt _ _)) by lia.
  - unfold get_data. rewrite get_data_prefix_ok by (done || lia). rewrite firstn_all2 by lia. done.
  - intros x xs Hx. unfold front, empty. rewrite Hx in Hl. cbn in Hl.
    rewrite (proj2 (Z.eqb_neq _ _)) by lia. cbn [negb]. rewrite load_ok by (done || lia).
    unfold contents in Hx. destruct (Z.to_nat (m_size b)) as [|n]; [done|]. rewrite window_S in Hx. by injection Hx as ->.
  - intros x xs Hx. unfold back, empty. rewrite Hx, length_app in Hl. cbn in Hl.
    rewrite (proj2 (Z.eqb_neq _ _)) by lia. cbn [negb]. rewrite load_ok by (done || lia).
    unfold contents in Hx. replace (Z.to_nat (m_size b)) with (length xs + 1)%nat in Hx by lia.
    rewrite window_app in Hx. apply app_inj_2 in Hx as [_ Hx]; [|done]. injection Hx as <-.
    do 2 f_equal. lia.
Qed.

(** Capacity 8, holding the bytes 1, 2, 3 across the wrap. *)
Definition sample : t := mk 3 6 8 [3; 0; 0; 0; 0; 0; 1; 2].

Lemma ring_buffer_is_queue_witness :
  wf sample /\ exists b', push sample [4; 5] = Ok b' /\ contents b' = [1; 2; 3; 4; 5].
Proof.
  assert (Hwf : wf sample) by (split; cbn; lia).
  split; [done|].
  destruct (ring_buffer_is_queue sample Hwf) as (Hpush & _).
  destruct (Hpush [4; 5]) as (b' & H1 & _ & H2); [done|]. exists b'. split; [done|]. rewrite H2. reflexivity.
Defined.

End ByteRingBuffer.

Module BufferMemory.
Import Kmalloc.
Section memory.
Context `{AS : AddressSpace}.

(** ** Definitions *)

(** The destructor's loop over the pages of the first mapping, *)
Fixpoint destroy_loop (n : nat) (h : Heap.heap) (table : page_table) (vaddr : Z) : outcome Heap.heap :=
  match n with
  | O => Ok h
  | S n' =>
      let paddr := physical_address_of table vaddr in
      let* h := if negb (paddr =? 0) then Heap.release_page h paddr else Ok h in
      destroy_loop n' h table (vaddr + PAGE_SIZE)
  end.

(** and [~ByteRingBuffer]. *)
Definition destroy (h : Heap.heap) (table : page_table) (m_vaddr m_capacity : Z)
  : outcome (Heap.heap * page_table) :=
  if m_vaddr =? 0 then Ok (h, table)
  else
    let n := Z.to_nat (m_capacity / PAGE_SIZE) in
    let* h := destroy_loop n h table m_vaddr in
    Ok (h, unmap_range (2 * n) table m_vaddr).

(** The loop of [create] that maps each page twice; [false] when the heap has
    no page left. *)
Fixpoint create_loop (n i : nat) (size vaddr : Z) (h : Heap.heap) (table : page_table)
  : outcome (Heap.heap * page_table * bool) :=
  match n with
  | O => Ok (h, table, true)
  | S n' =>
      let* (h, paddr) := Heap.take_free_page h in
      if paddr =? 0 then Ok (h, table, false)
      else
        create_loop n' (S i) size vaddr h
          (<[vaddr + size + Z.of_nat i * PAGE_SIZE := paddr]>
            (<[vaddr + Z.of_nat i * PAGE_SIZE := paddr]> table))
  end.

(** [create]: the state, and the address of the mapping, 0 when it returns
    ENOMEM; the half-built buffer is then destroyed. [allocated] is whether
    [new ByteRingBuffer] found memory. *)
Definition create (allocated : bool) (h : Heap.heap) (table : page_table) (size : Z)
  : outcome (Heap.heap * page_table * Z) :=
  ASSERT (size `mod` PAGE_SIZE =? 0) in
  let page_count := size / PAGE_SIZE in
  if negb allocated then Ok (h, table, 0)
  else
    let m_vaddr := reserve_free_contiguous_pages table (page_count * 2) in
    if m_vaddr =? 0 then Ok (h, table, 0)
    else
      let* (h, table, ok) := create_loop (Z.to_nat page_count) 0 size m_vaddr h table in
      if ok : bool then Ok (h, table, m_vaddr)
      else let* (h, table) := destroy h table m_vaddr size in Ok (h, table, 0).

(** ** Ownership *)
Lemma taken_nonzero h0 h ps p : taken h0 h ps -> p ∈ ps -> p <> 0.
Proof.
  intros [Hwf _ _ _ Hloc] Hp. destruct (Hloc p Hp) as (k & r & i & Hk & Hi & _ & _ & Ha). cbn in Ha.
  destruct (Heap.heap_wf_lookup h k r Hwf Hk) as [_ Hpos]. unfold PhysicalRange.page_addr in Ha. lia.
Qed.

(** The pages [ps] back the first of [n] pages from [v]; the others are not mapped. *)
Definition backed (table : page_table) (v : Z) (n : nat) (ps : list Z) : Prop :=
  forall j, (j < n)%nat -> table !! (v + Z.of_nat j * PAGE_SIZE) = ps !! j.

Lemma backed_tail table v n p ps : backed table v (S n) (p :: ps) -> backed table (v + PAGE_SIZE) n ps.
Proof.
  intros H j Hj. specialize (H (S j) ltac:(lia)).
  change ((p :: ps) !! S j) with (ps !! j) in H. rewrite <- H. f_equal. lia.
Qed.

Lemma destroy_loop_ok h0 table n : forall ps h v,
  taken h0 h ps -> backed table v n ps -> (length ps <= n)%nat ->
  exists h', destroy_loop n h table v = Ok h' /\ taken h0 h' [].
Proof.
  induction n as [|n IH]; intros ps h v Ht Hb Hl; cbn [destroy_loop].
  { destruct ps; [by exists h|cbn in Hl; lia]. }
  pose proof (Hb O ltac:(lia)) as H0. rewrite Z.mul_0_l, Z.add_0_r in H0.
  unfold physical_address_of. rewrite H0. destruct ps as [|p ps]; cbn.
  - apply (IH []); [done| |cbn; lia]. intros j Hj. specialize (Hb (S j) ltac:(lia)).
    rewrite lookup_nil in *. rewrite <- Hb. f_equal. lia.
  - unfold id. rewrite (proj2 (Z.eqb_neq _ _)) by (apply (taken_nonzero h0 h (p :: ps)); [done|by apply elem_of_cons; left]).
    cbn [negb]. destruct (taken_release h0 h p ps Ht) as (h1 & -> & Ht1).
    apply (IH ps); [done|by apply (backed_tail table v n p)|cbn in Hl; lia].
Qed.

Lemma backed_snoc table v n ps p size :
  backed table v n ps -> (length ps < n)%nat -> size = Z.of_nat n * PAGE_SIZE ->
  backed (<[v + size + Z.of_nat (length ps) * PAGE_SIZE := p]>
    (<[v + Z.of_nat (length ps) * PAGE_SIZE := p]> table)) v n (ps ++ [p]).
Proof.
  intros Hb Hl Hs j Hj. rewrite lookup_insert_ne by lia.
  destruct (decide (j = length ps)) as [->|Hne].
  - rewrite lookup_insert_eq, lookup_app_r, Nat.sub_diag by lia. done.
  - rewrite lookup_insert_ne by lia. rewrite Hb by done.
    destruct (decide (j < length ps)%nat); [by rewrite lookup_app_l by lia|].
    rewrite (lookup_ge_None_2 ps j), (lookup_ge_None_2 (ps ++ [p]) j); rewrite ?length_app; cbn; (done || lia).
Qed.

Lemma create_loop_ok h0 n total size v : forall ps h table,
  taken h0 h ps -> backed table v total ps -> (length ps + n = total)%nat -> size = Z.of_nat total * PAGE_SIZE ->
  exists h' table' ps' ok, create_loop n (length ps) size v h table = Ok (h', table', ok) /\
    taken h0 h' ps' /\ backed table' v total ps' /\ (length ps' <= total)%nat /\ (ok = true -> length ps' = total).
Proof.
  induction n as [|n IH]; intros ps h table Ht Hb Hl Hs; cbn [create_loop].
  { exists h, table, ps, true. split_and!; [done|done|done|lia|lia]. }
  destruct (taken_take h0 h ps Ht) as [(h1 & p & -> & Hp & Ht1)| ->].
  - rewrite (proj2 (Z.eqb_neq _ _)) by done.
    pose proof (backed_snoc table v total ps p size Hb ltac:(lia) Hs) as Hb1.
    destruct (IH (ps ++ [p]) h1 _ Ht1 Hb1) as (h' & t' & ps' & ok & He & H1); [rewrite length_app; cbn; lia|done|].
    rewrite length_app, Nat.add_1_r in He. exists h', t', ps', ok. done.
  - rewrite Z.eqb_refl. exists h, table, ps, false. split_and!; [done|done|done|lia|done].
Qed.

(** ** Properties *)

(** creating a ring buffer never panics; when it fails, the pages it took
    on the way are given back and the ownership of physical memory is as
    before; when it succeeds, the whole buffer is backed by distinct pages
    that nobody owned, and its destructor restores the ownership exactly. *)
Theorem ring_buffer_memory_roundtrip (allocated : bool) (h : Heap.heap) (tbl : page_table) (n : nat)
  (Hwf : Heap.heap_wf h) (Hn : (0 < n)%nat) :
  let size := Z.of_nat n * PAGE_SIZE in
  (exists h' tbl', create allocated h tbl size = Ok (h', tbl', 0) /\
     forall p, Heap.owned h' p <-> Heap.owned h p) \/
  (exists h' tbl' v ps h'' tbl'', create allocated h tbl size = Ok (h', tbl', v) /\ v <> 0 /\
     length ps = n /\ NoDup ps /\ backed tbl' v n ps /\
     (forall p, Heap.owned h' p <-> Heap.owned h p \/ p ∈ ps) /\ (forall p, p ∈ ps -> ~ Heap.owned h p) /\
     destroy h' tbl' v size = Ok (h'', tbl'') /\ forall p, Heap.owned h'' p <-> Heap.owned h p).
Proof.
  intros size. unfold create. assert (Hm : size `mod` PAGE_SIZE = 0) by (subst size; apply Z_mod_mult).
  assert (Hd : size / PAGE_SIZE = Z.of_nat n) by (subst size; apply Z.div_mul; lia).
  rewrite Hm, Hd. cbn [Z.eqb]. pose proof (taken_nil h Hwf) as Ht0.
  assert (Hnil : forall h', taken h h' [] -> forall p, Heap.owned h' p <-> Heap.owned h p).
  { intros h' Ht p. rewrite (taken_owned _ _ _ Ht). split; [intros [?|?%not_elem_of_nil]; done|by left]. }
  destruct allocated; cbn [negb]; [|left; eauto].
  case_if; zify_bool; [left; eauto|].
  set (v := reserve_free_contiguous_pages tbl (Z.of_nat n * 2)) in *.
  destruct (reserve_ok tbl (Z.of_nat n * 2) v eq_refl E) as (_ & _ & _ & Hfree).
  destruct (create_loop_ok h n n size v [] h tbl Ht0) as (h' & t' & ps & ok & He & Ht & Hb & Hl & Hok); [|done|done|].
  { intros j Hj. rewrite Hfree by lia. by rewrite lookup_nil. }
  cbn [length] in He. rewrite Nat2Z.id, He. unfold destroy. rewrite (proj2 (Z.eqb_neq v 0)), Hd, Nat2Z.id by done.
  destruct (destroy_loop_ok h t' n ps h' v Ht Hb Hl) as (h'' & Hdes & Ht'').
  destruct ok.
  - right. exists h', t', v, ps, h''. eexists. split_and!; [done|done|by apply Hok|apply Ht|done|apply Ht|apply Ht| |].
    + rewrite Hdes, (proj2 (Z.eqb_neq v 0)) by done. reflexivity.
    + by apply Hnil.
  - left. rewrite Hdes. eexists _, _. split; [done|]. by apply Hnil.
Qed.
End memory.

Lemma ring_buffer_memory_roundtrip_witness :
  Heap.heap_wf Heap.sample_heap /\
  exists h' tbl' v, create (AS := one_range) true Heap.sample_heap ∅ 0x10000 = Ok (h', tbl', v).
Proof.
  split; [apply Heap.sample_heap_ok|].
  destruct (ring_buffer_memory_roundtrip (AS := one_range) true Heap.sample_heap ∅ 16)
    as [(h' & t' & He & _)|(h' & t' & v & ps & h'' & t'' & He & _)].
  - apply Heap.sample_heap_ok.
  - lia.
  - exists h', t', 0. exact He.
  - exists h', t', v. exact He.
Defined.
End BufferMemory.
