(* ===== verification/Pipe.v ===== *)
(** * kernel/FS/Pipe

    Every operation runs under the object's mutex.  A thread that has to wait
    releases the mutex, sleeps on [m_thread_blocker] and tries again, so an
    operation is modelled as one attempt: it is [Done] with a result, or
    [Blocked].  What the code tells others (epoll notifications, signals,
    waking the blocked threads) is the list of events of an attempt. *)
From S2P Require Import Prelude BanMath RingBuffer.

Inductive attempt (A : Type) : Type := Done (a : A) | Blocked.
Arguments Done {A} _.
Arguments Blocked {A}.

Inductive event : Type := EPOLLIN | EPOLLOUT | EPOLLHUP | EPOLLERR | SIGPIPE | Unblock.

#[export] Instance event_eq_dec : EqDecision event.
Proof. solve_decision. Defined.

Definition O_RDONLY : Z := 1.
Definition O_WRONLY : Z := 2.
Definition O_NONBLOCK : Z := 0x4000.
Definition has_flag (flags f : Z) : bool := negb (Z.land flags f =? 0).

Module Pipe.

(** ** Definitions *)
Record t : Type := mk {
  m_buffer : ByteRingBuffer.t;
  m_writing_count : Z;
  m_reading_count : Z;
  m_atime : Z;
  m_mtime : Z;
  m_ctime : Z
}.

Definition s_pipe_buffer_size : Z := 0x10000.

(** [create], given the outcome of the two allocations. *)
Definition create (current_time : Z) (allocated : bool) (buffer : outcome ByteRingBuffer.t) : outcome t :=
  if negb allocated then Err ENOMEM
  else let* m_buffer := buffer in Ok (mk m_buffer 1 1 current_time current_time current_time).

(** [open] of a named pipe: the part before the loop.  [Done] when the call
    returns at once.  The counts stay incremented when it fails. *)
Definition open_begin (p : t) (flags : Z) : t * outcome (attempt unit) :=
  let reading := if has_flag flags O_RDONLY then u32 (m_reading_count p + 1) else m_reading_count p in
  let writing := if has_flag flags O_WRONLY then u32 (m_writing_count p + 1) else m_writing_count p in
  let p := mk (m_buffer p) writing reading (m_atime p) (m_mtime p) (m_ctime p) in
  if has_flag flags O_NONBLOCK then
    if has_flag flags O_WRONLY && (m_writing_count p =? 0) then (p, Err ENXIO)
    else (p, Ok (Done tt))
  else (p, Ok Blocked).

(** One iteration of the loop of [open]. *)
Definition open_wait (p : t) (flags : Z) : attempt unit :=
  let block_value := if has_flag flags O_WRONLY then m_reading_count p else m_writing_count p in
  if block_value =? 0 then Blocked else Done tt.

Definition on_clone (p : t) (flags : Z) : outcome t :=
  let old_writing_count := m_writing_count p in
  let* p :=
    if has_flag flags O_WRONLY then
      ASSERT (0 <? old_writing_count) in
      Ok (mk (m_buffer p) (u32 (old_writing_count + 1)) (m_reading_count p) (m_atime p) (m_mtime p) (m_ctime p))
    else Ok p in
  let old_reading_count := m_reading_count p in
  if has_flag flags O_RDONLY then
    ASSERT (0 <? old_reading_count) in
    Ok (mk (m_buffer p) (m_writing_count p) (u32 (old_reading_count + 1)) (m_atime p) (m_mtime p) (m_ctime p))
  else Ok p.

Definition set_counts (p : t) (writing reading : Z) : t :=
  mk (m_buffer p) writing reading (m_atime p) (m_mtime p) (m_ctime p).

(** The second half of [on_close], after the writing end. *)
Definition close_reading (p : t) (flags : Z) (events : list event) : outcome (t * list event) :=
  if has_flag flags O_RDONLY then
    let old_reading_count := m_reading_count p in
    let p := set_counts p (m_writing_count p) (u32 (old_reading_count - 1)) in
    ASSERT (0 <? old_reading_count) in
    if negb (old_reading_count =? 1) then Ok (p, events)
    else Ok (p, events ++ [EPOLLERR; Unblock])
  else Ok (p, events ++ [Unblock]).

Definition on_close (p : t) (flags : Z) : outcome (t * list event) :=
  if has_flag flags O_WRONLY then
    let old_writing_count := m_writing_count p in
    let p := set_counts p (u32 (old_writing_count - 1)) (m_reading_count p) in
    ASSERT (0 <? old_writing_count) in
    if negb (old_writing_count =? 1) then Ok (p, [])
    else close_reading p flags [EPOLLHUP]
  else close_reading p flags [].

Definition read_impl (p : t) (buffer_size now : Z) : outcome (attempt (t * list Z * list event)) :=
  if ByteRingBuffer.empty (m_buffer p) then
    if m_writing_count p =? 0 then Ok (Done (p, [], [])) else Ok Blocked
  else
    let to_copy := Math.min buffer_size (ByteRingBuffer.size (m_buffer p)) in
    let* data := ByteRingBuffer.get_data_prefix (m_buffer p) to_copy in
    let* b := ByteRingBuffer.pop (m_buffer p) to_copy in
    Ok (Done (mk b (m_writing_count p) (m_reading_count p) now (m_mtime p) (m_ctime p), data, [EPOLLOUT; Unblock])).

(** The result of [write_impl]: the number of bytes, or EPIPE. *)
Definition write_impl (p : t) (buffer : list Z) (now : Z)
  : outcome (attempt (t * (Z + errno) * list event)) :=
  if ByteRingBuffer.full (m_buffer p) then
    if m_reading_count p =? 0 then Ok (Done (p, inr EPIPE, [SIGPIPE])) else Ok Blocked
  else
    let to_copy := Math.min (Z.of_nat (length buffer)) (ByteRingBuffer.free (m_buffer p)) in
    let* b := ByteRingBuffer.push (m_buffer p) (take (Z.to_nat to_copy) buffer) in
    Ok (Done (mk b (m_writing_count p) (m_reading_count p) (m_atime p) now now, inl to_copy, [EPOLLIN; Unblock])).

Definition can_read_impl (p : t) : bool := negb (ByteRingBuffer.empty (m_buffer p)).
Definition has_error_impl (p : t) : bool := m_reading_count p =? 0.
Definition has_hungup_impl (p : t) : bool := m_writing_count p =? 0.

(** ** Reading and writing *)
Definition wf (p : t) : Prop := ByteRingBuffer.wf (m_buffer p).
Definition contents (p : t) : list Z := ByteRingBuffer.contents (m_buffer p).

Lemma contents_empty p : wf p -> ByteRingBuffer.empty (m_buffer p) = true <-> contents p = [].
Proof.
  intros Hwf. pose proof (ByteRingBuffer.length_contents _ Hwf) as Hl. unfold ByteRingBuffer.empty, contents.
  rewrite Z.eqb_eq, <- Hl. split; [|by intros ->]. intros H. apply length_zero_iff_nil. lia.
Qed.

Lemma read_impl_ok p n now :
  wf p -> 0 <= n -> contents p <> [] ->
  exists p', read_impl p n now = Ok (Done (p', take (Z.to_nat n) (contents p), [EPOLLOUT; Unblock])) /\
    wf p' /\ contents p' = drop (Z.to_nat n) (contents p) /\
    m_writing_count p' = m_writing_count p /\ m_reading_count p' = m_reading_count p.
Proof.
  intros Hwf Hn Hne. unfold read_impl.
  destruct (ByteRingBuffer.empty (m_buffer p)) eqn:E; [by apply contents_empty in E|].
  pose proof (ByteRingBuffer.length_contents _ Hwf) as Hl. pose proof (ByteRingBuffer.wf_size _ Hwf).
  fold (contents p) in Hl.
  unfold ByteRingBuffer.size. rewrite Math.min_spec.
  set (k := Z.min n (ByteRingBuffer.m_size (m_buffer p))).
  rewrite ByteRingBuffer.get_data_prefix_ok by (done || lia).
  destruct (ByteRingBuffer.ring_pop_ok (m_buffer p) k Hwf ltac:(lia)) as (b & -> & Hb & Hc & _ & _).
  fold (contents p) in *.
  assert (Hk : take (Z.to_nat k) (contents p) = take (Z.to_nat n) (contents p) /\
               drop (Z.to_nat k) (contents p) = drop (Z.to_nat n) (contents p)).
  { destruct (decide (n <= ByteRingBuffer.m_size (m_buffer p))).
    - replace k with n by lia. done.
    - rewrite !firstn_all2, !skipn_all2 by lia. done. }
  destruct Hk as [<- Hd]. eexists. split; [done|]. split_and!; [done| |done|done].
  unfold contents at 1. cbn. by rewrite Hc.
Qed.

Lemma write_impl_ok p data now :
  wf p -> ByteRingBuffer.full (m_buffer p) = false ->
  exists p' k, write_impl p data now = Ok (Done (p', inl (Z.of_nat k), [EPOLLIN; Unblock])) /\
    (k = length data \/ (k < length data)%nat /\ ByteRingBuffer.full (m_buffer p') = true) /\
    (k <= length data)%nat /\
    wf p' /\ contents p' = contents p ++ take k data /\
    m_writing_count p' = m_writing_count p /\ m_reading_count p' = m_reading_count p.
Proof.
  intros Hwf Hf. unfold write_impl. rewrite Hf. rewrite Math.min_spec.
  unfold ByteRingBuffer.full in Hf. zify_bool. pose proof (ByteRingBuffer.wf_size _ Hwf) as Hs.
  set (k := Z.min (Z.of_nat (length data)) (ByteRingBuffer.free (m_buffer p))).
  assert (Hk : 0 <= k <= Z.of_nat (length data)) by (unfold ByteRingBuffer.free in *; lia).
  assert (Hlt : length (take (Z.to_nat k) data) = Z.to_nat k) by (rewrite length_take; lia).
  destruct (ByteRingBuffer.ring_push_ok (m_buffer p) (take (Z.to_nat k) data) Hwf) as (b & -> & Hb & Hc & Hcap & Hsz).
  { rewrite Hlt. lia. }
  eexists _, (Z.to_nat k). rewrite Z2Nat.id by lia. split; [done|]. cbn [m_buffer].
  split_and!; [|lia|done|done|done|done].
  destruct (decide (k = Z.of_nat (length data))); [left; lia|right].
  split; [lia|]. unfold ByteRingBuffer.full. apply Z.eqb_eq. rewrite Hsz, Hlt, Hcap.
  unfold ByteRingBuffer.free in *. lia.
Qed.

(** ** Histories

    What has been written into and read out of a pipe, and the descriptors
    that are open on it, by their status flags. *)
Record history : Type := mk_history {
  h_pipe : t; h_written : list Z; h_read : list Z; h_open : list Z
}.

Inductive step : history -> history -> Prop :=
| step_read p w r fds n now p' data ev :
    0 <= n -> read_impl p n now = Ok (Done (p', data, ev)) ->
    step (mk_history p w r fds) (mk_history p' w (r ++ data) fds)
| step_write p w r fds data now p' k ev :
    write_impl p data now = Ok (Done (p', inl k, ev)) ->
    step (mk_history p w r fds) (mk_history p' (w ++ take (Z.to_nat k) data) r fds)
| step_write_error p w r fds data now p' e ev :
    write_impl p data now = Ok (Done (p', inr e, ev)) ->
    step (mk_history p w r fds) (mk_history p' w r fds)
| step_clone p w r fds flags p' :
    flags ∈ fds -> on_clone p flags = Ok p' ->
    step (mk_history p w r fds) (mk_history p' w r (flags :: fds))
| step_close p w r fds fds' flags p' ev :
    fds ≡ₚ flags :: fds' -> on_close p flags = Ok (p', ev) ->
    step (mk_history p w r fds) (mk_history p' w r fds').

Definition fifo (h : history) : Prop :=
  wf (h_pipe h) /\ h_written h = h_read h ++ contents (h_pipe h).

Lemma on_clone_buffer p flags p' : on_clone p flags = Ok p' -> m_buffer p' = m_buffer p.
Proof. unfold on_clone. repeat case_if; intros; simplify_eq/=; done. Qed.

Lemma on_close_buffer p flags p' ev : on_close p flags = Ok (p', ev) -> m_buffer p' = m_buffer p.
Proof. unfold on_close, close_reading. repeat case_if; intros; simplify_eq/=; done. Qed.

Lemma step_fifo h h' : fifo h -> step h h' -> fifo h'.
Proof.
  intros [Hwf Hw] Hs. unfold fifo. destruct Hs as [p w r fds n now p' data ev Hn Hr|p w r fds data now p' k ev Hr
    |p w r fds data now p' e ev Hr|p w r fds flags p' Hin Hr|p w r fds fds' flags p' ev HP Hr]; cbn in *.
  - destruct (decide (contents p = [])) as [He|Hne].
    + unfold read_impl in Hr. rewrite (proj2 (contents_empty p Hwf)) in Hr by done.
      case_if_in Hr; simplify_eq. by rewrite app_nil_r.
    + destruct (read_impl_ok p n now Hwf Hn Hne) as (p2 & He & Hwf2 & Hc & _). rewrite He in Hr. simplify_eq.
      split; [done|]. rewrite Hc, <- app_assoc, take_drop. done.
  - destruct (ByteRingBuffer.full (m_buffer p)) eqn:Ef.
    + unfold write_impl in Hr. rewrite Ef in Hr. case_if_in Hr; simplify_eq.
    + destruct (write_impl_ok p data now Hwf Ef) as (p2 & j & He & _ & _ & Hwf2 & Hc & _).
      rewrite He in Hr. simplify_eq. split; [done|]. by rewrite Nat2Z.id, Hc, app_assoc.
  - unfold write_impl in Hr. case_if_in Hr; [case_if_in Hr; by simplify_eq|].
    by destruct (ByteRingBuffer.push _ _).
  - unfold wf, contents. by rewrite (on_clone_buffer p flags p').
  - unfold wf, contents. by rewrite (on_close_buffer p flags p' ev).
Qed.

(** ** The two ends *)
Fixpoint count_flag (f : Z) (fds : list Z) : Z :=
  match fds with [] => 0 | fl :: fds' => Z.b2z (has_flag fl f) + count_flag f fds' end.

#[export] Instance count_flag_proper f : Proper (Permutation ==> eq) (count_flag f).
Proof. induction 1; cbn; lia. Qed.

Lemma count_flag_bounds f fds : 0 <= count_flag f fds <= Z.of_nat (length fds).
Proof. induction fds as [|fl fds IH]; cbn -[Z.of_nat]; [lia|]. destruct (has_flag fl f); cbn -[Z.of_nat]; lia. Qed.

Lemma count_flag_in f fl fds : fl ∈ fds -> has_flag fl f = true -> 0 < count_flag f fds.
Proof.
  intros Hin Hf. induction fds as [|x fds IH]; [by apply not_elem_of_nil in Hin|]. cbn.
  pose proof (count_flag_bounds f fds). apply elem_of_cons in Hin as [<-|Hin].
  - rewrite Hf. cbn. lia.
  - specialize (IH Hin). destruct (has_flag x f); cbn; lia.
Qed.

(** No descriptor is open for both reading and writing. *)
Definition one_way (fds : list Z) : Prop :=
  Forall (fun fl => has_flag fl O_RDONLY && has_flag fl O_WRONLY = false) fds.

#[export] Instance one_way_proper : Proper (Permutation ==> iff) one_way.
Proof. intros fds fds' HP. unfold one_way. by rewrite HP. Qed.

(** The counters are the numbers of open descriptors. *)
Definition counted (h : history) : Prop :=
  m_writing_count (h_pipe h) = count_flag O_WRONLY (h_open h) /\
  m_reading_count (h_pipe h) = count_flag O_RDONLY (h_open h).

Lemma read_counts p n now p' data ev :
  read_impl p n now = Ok (Done (p', data, ev)) ->
  m_writing_count p' = m_writing_count p /\ m_reading_count p' = m_reading_count p.
Proof.
  unfold read_impl. case_if; [case_if; intros; by simplify_eq|].
  repeat case_bind; intros; by simplify_eq.
Qed.

Lemma write_counts p data now p' res ev :
  write_impl p data now = Ok (Done (p', res, ev)) ->
  m_writing_count p' = m_writing_count p /\ m_reading_count p' = m_reading_count p.
Proof.
  unfold write_impl. case_if; [case_if; intros; by simplify_eq|].
  destruct (ByteRingBuffer.push _ _); intros; by simplify_eq.
Qed.

Lemma step_counted h h' :
  Z.of_nat (length (h_open h)) + 1 < 2 ^ 32 -> one_way (h_open h) -> counted h -> step h h' ->
  counted h' /\ one_way (h_open h').
Proof.
  intros Hlen Hone [Hcw Hcr] Hs. unfold counted.
  destruct Hs as [p w r fds n now p' data ev Hn Hr|p w r fds data now p' k ev Hr
    |p w r fds data now p' e ev Hr|p w r fds flags p' Hin Hr|p w r fds fds' flags p' ev HP Hr]; cbn -[Z.of_nat] in *.
  - apply read_counts in Hr as [-> ->]. done.
  - apply write_counts in Hr as [-> ->]. done.
  - apply write_counts in Hr as [-> ->]. done.
  - pose proof (count_flag_bounds O_WRONLY fds). pose proof (count_flag_bounds O_RDONLY fds).
    split; [|constructor; [by eapply list.Forall_forall in Hone|done]].
    unfold on_clone in Hr.
    destruct (has_flag flags O_WRONLY), (has_flag flags O_RDONLY); repeat case_if_in Hr; simplify_eq/=;
      rewrite ?wrap_id by lia; lia.
  - pose proof (count_flag_bounds O_WRONLY fds). pose proof (count_flag_bounds O_RDONLY fds).
    rewrite HP in Hone. apply Forall_cons_1 in Hone as [Hfl Hone]. split; [|done].
    rewrite HP in Hcw, Hcr, H, H0. cbn -[Z.of_nat] in Hcw, Hcr, H, H0.
    rewrite HP in Hlen. cbn [length] in Hlen.
    unfold on_close, close_reading, set_counts in Hr.
    destruct (has_flag flags O_WRONLY), (has_flag flags O_RDONLY); try done;
      repeat case_if_in Hr; simplify_eq/=; zify_bool; rewrite ?wrap_id by lia; lia.
Qed.

(** ** Waiting threads *)
Definition reader_blocked (p : t) : Prop := forall n now, 0 <= n -> read_impl p n now = Ok Blocked.
Definition writer_blocked (p : t) : Prop := forall data now, write_impl p data now = Ok Blocked.

Lemma reader_blocked_spec p : wf p -> reader_blocked p <-> contents p = [] /\ m_writing_count p <> 0.
Proof.
  intros Hwf. split.
  - intros H. specialize (H 0 0 ltac:(lia)). unfold read_impl in H.
    destruct (ByteRingBuffer.empty (m_buffer p)) eqn:E.
    + apply contents_empty in E; [|done]. case_if_in H; zify_bool; done.
    + repeat case_bind_in H; by simplify_eq.
  - intros [He Hw] n now Hn. unfold read_impl. rewrite (proj2 (contents_empty p Hwf)) by done.
    by rewrite (proj2 (Z.eqb_neq _ _)) by done.
Qed.

Lemma writer_blocked_spec p :
  writer_blocked p <-> ByteRingBuffer.full (m_buffer p) = true /\ m_reading_count p <> 0.
Proof.
  split.
  - intros H. specialize (H [] 0). unfold write_impl in H.
    destruct (ByteRingBuffer.full (m_buffer p)); [case_if_in H; zify_bool; done|].
    by destruct (ByteRingBuffer.push _ _).
  - intros [Hf Hr] data now. unfold write_impl. rewrite Hf. by rewrite (proj2 (Z.eqb_neq _ _)) by done.
Qed.

(** ** Properties *)

(** C33: a pipe is a reliable byte stream: after any sequence of reads, writes,
    failed writes, duplications and closes, the bytes read so far followed by
    the bytes in the buffer are exactly the bytes accepted by the writes, in
    order; nothing is lost, duplicated or reordered. *)
Theorem pipe_is_fifo (p : t) (fds : list Z) (h : history)
  (Hwf : wf p) (Hempty : contents p = []) (Hsteps : rtc step (mk_history p [] [] fds) h) :
  wf (h_pipe h) /\ h_written h = h_read h ++ contents (h_pipe h).
Proof.
  apply (rtc_invariant step fifo (mk_history p [] [] fds)); [apply step_fifo| |done].
  split; cbn; [done|by rewrite Hempty].
Qed.

Definition sample : t := mk (ByteRingBuffer.mk 0 6 8 [0; 0; 0; 0; 0; 0; 0; 0]) 1 1 0 0 0.

Lemma pipe_is_fifo_witness :
  exists h, rtc step (mk_history sample [] [] [1; 2]) h /\ h_read h = [10; 20] /\ h_written h = [10; 20; 30].
Proof.
  assert (Hs : rtc step (mk_history sample [] [] [1; 2])
    (mk_history (mk (ByteRingBuffer.mk 1 0 8 [30; 0; 0; 0; 0; 0; 10; 20]) 1 1 7 5 5) [10; 20; 30] [10; 20] [1; 2])).
  { eapply rtc_l; [eapply (step_write _ _ _ _ [10; 20; 30] 5 _ 3); reflexivity|].
    eapply rtc_l; [eapply (step_read _ _ _ _ 2 7); [done|reflexivity]|]. apply rtc_refl. }
  pose proof (pipe_is_fifo sample [1; 2] _ ltac:(split; cbn; lia) eq_refl Hs) as [_ Hw].
  eexists. split; [exact Hs|]. split; [done|]. rewrite Hw. reflexivity.
Defined.

(** the blocking rules.  A read blocks exactly when the buffer is empty and
    a writer is left, returns end of file when it is empty and no writer is
    left, and otherwise the longest prefix that fits; a write blocks exactly
    when the buffer is full and a reader is left, fails with EPIPE and SIGPIPE
    when it is full and no reader is left, and otherwise accepts as many bytes
    as fit and stops short only with the buffer full. *)
Theorem pipe_blocking_rules (p : t) (n now : Z) (data : list Z) (Hwf : wf p) (Hn : 0 <= n) :
  (contents p = [] -> m_writing_count p = 0 -> read_impl p n now = Ok (Done (p, [], []))) /\
  (contents p = [] -> m_writing_count p <> 0 -> read_impl p n now = Ok Blocked) /\
  (contents p <> [] -> exists p', read_impl p n now =
     Ok (Done (p', take (Z.to_nat n) (contents p), [EPOLLOUT; Unblock])) /\
     contents p' = drop (Z.to_nat n) (contents p)) /\
  (ByteRingBuffer.full (m_buffer p) = true -> m_reading_count p = 0 ->
     write_impl p data now = Ok (Done (p, inr EPIPE, [SIGPIPE]))) /\
  (ByteRingBuffer.full (m_buffer p) = true -> m_reading_count p <> 0 -> write_impl p data now = Ok Blocked) /\
  (ByteRingBuffer.full (m_buffer p) = false -> exists p' k,
     write_impl p data now = Ok (Done (p', inl (Z.of_nat k), [EPOLLIN; Unblock])) /\
     contents p' = contents p ++ take k data /\
     (k = length data \/ (k < length data)%nat /\ ByteRingBuffer.full (m_buffer p') = true)).
Proof.
  split_and!.
  - intros He Hw. unfold read_impl. rewrite (proj2 (contents_empty p Hwf)), Hw by done. done.
  - intros He Hw. apply (proj2 (reader_blocked_spec p Hwf)); done.
  - intros Hne. destruct (read_impl_ok p n now Hwf Hn Hne) as (p' & H1 & _ & H2 & _). by exists p'.
  - intros Hf Hr. unfold write_impl. by rewrite Hf, Hr.
  - intros Hf Hr. by apply (proj2 (writer_blocked_spec p)).
  - intros Hf. destruct (write_impl_ok p data now Hwf Hf) as (p' & k & H1 & H2 & _ & _ & H3 & _). by exists p', k.
Qed.

Lemma pipe_blocking_rules_witness :
  read_impl sample 4 0 = Ok Blocked /\ exists p' k, write_impl sample [1; 2] 0 = Ok (Done (p', inl (Z.of_nat k), [EPOLLIN; Unblock])).
Proof.
  destruct (pipe_blocking_rules sample 4 0 [1; 2]) as (_ & H2 & _ & _ & _ & H6); [split; cbn; lia|done|].
  split; [by apply H2|]. destruct H6 as (p' & k & H & _); [done|]. by exists p', k.
Defined.

(** as long as no descriptor is open for both reading and writing, the
    counters are the numbers of open writing and reading descriptors after any
    sequence of operations, so that end of file and EPIPE mean what they say;
    no duplication or close of an open descriptor fails an assertion. *)
Theorem pipe_counts_descriptors (h h' : history)
  (Hsteps : rtc (fun a b => step a b /\ Z.of_nat (length (h_open a)) + 1 < 2 ^ 32) h h')
  (Hone : one_way (h_open h)) (Hcount : counted h) :
  m_writing_count (h_pipe h') = count_flag O_WRONLY (h_open h') /\
  m_reading_count (h_pipe h') = count_flag O_RDONLY (h_open h') /\
  (forall fl, fl ∈ h_open h' -> is_Ok (on_clone (h_pipe h') fl) /\ is_Ok (on_close (h_pipe h') fl)).
Proof.
  assert (H : counted h' /\ one_way (h_open h')).
  { induction Hsteps as [|a b c [Hs Hlen] _ IH]; [done|].
    destruct (step_counted a b Hlen Hone Hcount Hs) as [H1 H2]. by apply IH. }
  destruct H as [[Hw Hr] _]. split_and!; [done|done|]. intros fl Hin.
  assert (Hw' : has_flag fl O_WRONLY = true -> 0 < m_writing_count (h_pipe h'))
    by (intros; rewrite Hw; by eapply count_flag_in).
  assert (Hr' : has_flag fl O_RDONLY = true -> 0 < m_reading_count (h_pipe h'))
    by (intros; rewrite Hr; by eapply count_flag_in).
  unfold on_clone, on_close, close_reading.
  destruct (has_flag fl O_WRONLY), (has_flag fl O_RDONLY); cbn;
    rewrite ?(proj2 (Z.ltb_lt _ _)) by auto; split; repeat case_if; done.
Qed.

Lemma pipe_counts_descriptors_witness :
  exists h', m_writing_count (h_pipe h') = 2 /\ h_open h' = [2; 1; 2].
Proof.
  assert (Hs : rtc (fun a b => step a b /\ Z.of_nat (length (h_open a)) + 1 < 2 ^ 32)
    (mk_history sample [] [] [1; 2]) (mk_history (set_counts sample 2 1) [] [] [2; 1; 2])).
  { eapply rtc_l; [split; [apply (step_clone _ _ _ _ 2)|]|apply rtc_refl]; [|done|done].
    by apply elem_of_cons; right; apply elem_of_cons; left. }
  destruct (pipe_counts_descriptors _ _ Hs) as (Hw & _); [repeat constructor|done|].
  eexists. split; [exact Hw|done].
Defined.

(** no reader or writer sleeps past its chance: whenever a read, a write,
    or the close of a descriptor that is not open both ways lets a blocked
    read or write proceed, it wakes the sleeping threads. *)
Theorem pipe_wakes_waiters (p p' : t) (ev : list event) (Hwf : wf p) (Hwf' : wf p')
  (Hact : (exists n now data, 0 <= n /\ read_impl p n now = Ok (Done (p', data, ev))) \/
          (exists data now res, write_impl p data now = Ok (Done (p', res, ev))) \/
          (exists flags, has_flag flags O_RDONLY && has_flag flags O_WRONLY = false /\
             0 < m_writing_count p < 2 ^ 32 /\ 0 < m_reading_count p < 2 ^ 32 /\
             on_close p flags = Ok (p', ev))) :
  (reader_blocked p -> ~ reader_blocked p' -> Unblock ∈ ev) /\
  (writer_blocked p -> ~ writer_blocked p' -> Unblock ∈ ev).
Proof.
  rewrite !reader_blocked_spec, !writer_blocked_spec by done.
  assert (Hd : Unblock ∈ ev \/ (contents p' = contents p /\ ByteRingBuffer.full (m_buffer p') = ByteRingBuffer.full (m_buffer p) /\
    (m_writing_count p <> 0 -> m_writing_count p' <> 0) /\ (m_reading_count p <> 0 -> m_reading_count p' <> 0))).
  2:{ destruct Hd as [?|(-> & -> & ? & ?)]; [done|]. split; intros [? ?] Hn; destruct Hn; auto. }
  destruct Hact as [(n & now & data & Hn & H)|[(data & now & res & H)|(flags & Hone & Hcw & Hcr & H)]].
  - unfold read_impl in H. case_if_in H; [case_if_in H; simplify_eq; by right|].
    repeat case_bind_in H; simplify_eq. left. solve_elem.
  - unfold write_impl in H. case_if_in H; [case_if_in H; simplify_eq; by right|].
    destruct (ByteRingBuffer.push _ _); simplify_eq. left. solve_elem.
  - unfold on_close, close_reading, set_counts in H.
    destruct (has_flag flags O_WRONLY), (has_flag flags O_RDONLY); try done;
      repeat case_if_in H; simplify_eq/=; zify_bool;
      try (left; solve_elem; fail); right; unfold contents; cbn; rewrite ?wrap_id by lia; split_and!; done || lia.
Qed.

Lemma pipe_wakes_waiters_witness :
  reader_blocked sample /\ exists p', write_impl sample [1] 3 = Ok (Done (p', inl 1, [EPOLLIN; Unblock])) /\ ~ reader_blocked p'.
Proof.
  assert (Hwf : wf sample) by (split; cbn; lia).
  split; [by apply (reader_blocked_spec sample Hwf)|].
  exists (mk (ByteRingBuffer.mk 1 6 8 [0; 0; 0; 0; 0; 0; 1; 0]) 1 1 0 3 3). split; [reflexivity|].
  destruct (pipe_wakes_waiters sample (mk (ByteRingBuffer.mk 1 6 8 [0; 0; 0; 0; 0; 0; 1; 0]) 1 1 0 3 3) [EPOLLIN; Unblock] Hwf)
    as [_ _]; [split; cbn; lia|right; left; by exists [1], 3, (inl 1)|].
  rewrite reader_blocked_spec by (split; cbn; lia). by intros [? _].
Defined.

(** closing a descriptor that is open both ways, as the last writer of a
    pipe that has another reader, leaves a blocked reader asleep although it
    would now see end of file; and if another writer is left, the close
    forgets to release its reading end. *)
Theorem close_read_write_end_loses_track :
  (exists p p' ev, wf p /\ m_writing_count p = 1 /\ m_reading_count p = 2 /\
     on_close p 3 = Ok (p', ev) /\ reader_blocked p /\ ~ reader_blocked p' /\ ~ Unblock ∈ ev) /\
  (exists p p' ev, wf p /\ m_writing_count p = 2 /\ m_reading_count p = 1 /\
     on_close p 3 = Ok (p', ev) /\ m_reading_count p' = 1).
Proof.
  split.
  - exists (set_counts sample 1 2), (set_counts sample 0 1), [EPOLLHUP].
    assert (Hwf : wf (set_counts sample 1 2)) by (split; cbn; lia).
    assert (Hwf' : wf (set_counts sample 0 1)) by (split; cbn; lia).
    rewrite !reader_blocked_spec by done. split_and!; [done..| |].
    + by intros [_ ?].
    + intros H. apply elem_of_cons in H as [?|?%not_elem_of_nil]; done.
  - exists (set_counts sample 2 1), (set_counts sample 1 1), []. split_and!; [split; cbn; lia|done..].
Qed.

(** opening a named pipe for writing without blocking never reports ENXIO,
    even when no process has it open for reading. *)
Theorem open_nonblock_never_enxio (p : t) (flags : Z)
  (Hnb : has_flag flags O_NONBLOCK = true) (Hw : 0 <= m_writing_count p < 2 ^ 32 - 1) :
  exists p', open_begin p flags = (p', Ok (Done tt)).
Proof.
  unfold open_begin. rewrite Hnb. cbn [m_writing_count].
  destruct (has_flag flags O_WRONLY); cbn [andb]; [|eauto].
  rewrite wrap_id, (proj2 (Z.eqb_neq _ _)) by lia. eauto.
Qed.

Lemma open_nonblock_never_enxio_witness :
  exists p', open_begin (set_counts sample 0 0) (O_NONBLOCK + O_WRONLY) = (p', Ok (Done tt)).
Proof. apply (open_nonblock_never_enxio (set_counts sample 0 0)); [done|cbn; lia]. Defined.

End Pipe.
