(* ===== verification/EventFD.v ===== *)
(** * kernel/FS/EventFD

    A counter with blocking reads and writes, modelled like the pipes of
    [Pipe]: an operation is one attempt under the mutex. *)
From S2P Require Import Prelude BanMath Pipe.

Module EventFD.

(** ** Definitions *)
Record t : Type := mk { m_is_semaphore : bool; m_value : Z }.

Definition create (allocated : bool) (initval : Z) (semaphore : bool) : outcome t :=
  if negb allocated then Err ENOMEM else Ok (mk semaphore initval).

(** The value read; the result of the call is its size. *)
Definition read_impl (e : t) (buffer_size : Z) : outcome (attempt (t * Z * list event)) :=
  if buffer_size <? 8 then Err EINVAL
  else if m_value e =? 0 then Ok Blocked
  else
    let read_value := if m_is_semaphore e then 1 else m_value e in
    Ok (Done (mk (m_is_semaphore e) (u64 (m_value e - read_value)), read_value, [EPOLLOUT; Unblock])).

Definition write_impl (e : t) (buffer_size write_value : Z) : outcome (attempt (t * list event)) :=
  if buffer_size <? 8 then Err EINVAL
  else if write_value =? UINT64_MAX then Err EINVAL
  else if u64 (m_value e + write_value) <? m_value e then Ok Blocked
  else
    let value := u64 (m_value e + write_value) in
    Ok (Done (mk (m_is_semaphore e) value, (if 0 <? value then [EPOLLIN] else []) ++ [Unblock])).

Definition can_read_impl (e : t) : bool := 0 <? m_value e.
Definition can_write_impl (e : t) : bool := m_value e <? UINT64_MAX - 1.

(** ** Histories: the sums written and read so far. *)
Inductive step : t * Z * Z -> t * Z * Z -> Prop :=
| step_read e w r n e' v ev :
    read_impl e n = Ok (Done (e', v, ev)) -> step (e, w, r) (e', w, r + v)
| step_write e w r n v e' ev :
    0 <= v < 2 ^ 64 -> write_impl e n v = Ok (Done (e', ev)) -> step (e, w, r) (e', w + v, r).

Definition wf (e : t) : Prop := 0 <= m_value e < 2 ^ 64.

Lemma read_ok e n e' v ev :
  wf e -> read_impl e n = Ok (Done (e', v, ev)) ->
  0 < v <= m_value e /\ m_value e' = m_value e - v /\ m_is_semaphore e' = m_is_semaphore e /\
  v = (if m_is_semaphore e then 1 else m_value e).
Proof.
  unfold wf, read_impl. intros Hwf H. repeat case_if_in H; simplify_eq; cbn [m_value m_is_semaphore]; zify_bool;
    (rewrite wrap_id by lia); split_and!; lia || done.
Qed.

Lemma write_ok e n v e' ev :
  wf e -> 0 <= v < 2 ^ 64 -> write_impl e n v = Ok (Done (e', ev)) ->
  m_value e' = m_value e + v /\ m_value e' < 2 ^ 64 /\ m_is_semaphore e' = m_is_semaphore e.
Proof.
  unfold wf, write_impl. intros Hwf Hv H. do 3 (case_if_in H; [done|]). injection H as <- _. zify_bool.
  cbn [m_value m_is_semaphore].
  assert (m_value e + v < 2 ^ 64); [|rewrite wrap_id in * by lia; done].
  destruct (decide (m_value e + v < 2 ^ 64)); [done|].
  unfold wrap in *. rewrite <- (Z.mod_unique (m_value e + v) (2 ^ 64) 1 (m_value e + v - 2 ^ 64)) in E1 by lia. lia.
Qed.

Definition conserved (e0 : t) (s : t * Z * Z) : Prop :=
  let '(e, w, r) := s in
  m_value e = m_value e0 + w - r /\ wf e /\ m_is_semaphore e = m_is_semaphore e0.

Lemma step_conserved e0 s s' : conserved e0 s -> step s s' -> conserved e0 s'.
Proof.
  intros Hc Hs. unfold conserved in *.
  destruct Hs as [e w r n e' v ev Hr|e w r n v e' ev Hv Hr]; destruct Hc as (H1 & H2 & H3).
  - apply read_ok in Hr as (? & ? & ? & _); [|done]. unfold wf in *. split_and!; [lia|lia|lia|congruence].
  - apply write_ok in Hr as (? & ? & ?); [|done|done]. unfold wf in *. split_and!; [lia|lia|lia|congruence].
Qed.

(** ** Properties *)

(** the counter conserves what is written to it: after any sequence of
    completed reads and writes, value = initial value + written - read, within
    64 bits and without wrapping; a semaphore read takes one, another read
    takes everything, and no read returns zero. *)
Theorem eventfd_conserves (e0 e : t) (w r : Z)
  (Hwf : wf e0) (Hsteps : rtc step (e0, 0, 0) (e, w, r)) :
  m_value e = m_value e0 + w - r /\ 0 <= m_value e < 2 ^ 64 /\
  (forall n e' v ev, read_impl e n = Ok (Done (e', v, ev)) ->
     0 < v /\ v = if m_is_semaphore e0 then 1 else m_value e).
Proof.
  assert (H : conserved e0 (e, w, r)).
  { apply (rtc_invariant step (conserved e0) (e0, 0, 0)); [apply step_conserved|unfold conserved; cbn|done].
    split_and!; done || lia. }
  destruct H as (H1 & H2 & H3). split_and!; [done|apply H2|apply H2|].
  intros n e' v ev Hr. apply read_ok in Hr as (? & _ & _ & ->); [|done]. rewrite H3 in *. split; [lia|done].
Qed.

Lemma eventfd_conserves_witness :
  exists e, rtc step (mk true 2, 0, 0) (e, 5, 1) /\ m_value e = 6.
Proof.
  assert (Hs : rtc step (mk true 2, 0, 0) (mk true 6, 5, 1)).
  { eapply rtc_l; [by eapply (step_write _ _ _ 8 5)|]. eapply rtc_l; [by eapply (step_read _ _ _ 8)|]. apply rtc_refl. }
  destruct (eventfd_conserves (mk true 2) _ 5 1 ltac:(split; cbn; lia) Hs) as (H & _).
  eexists. split; [exact Hs|]. rewrite H. done.
Defined.

(** a write can raise the counter to its maximum 2^64 - 1 in spite of the
    limit of 2^64 - 2 that [can_write_impl] announces: the counter is then
    reported as not writable by one more than a write would accept. *)
Theorem eventfd_write_accepts_unwritable :
  exists e e' ev, wf e /\ can_write_impl e = false /\ write_impl e 8 1 = Ok (Done (e', ev)) /\
    m_value e' = UINT64_MAX.
Proof. exists (mk false (UINT64_MAX - 1)). eexists _, _. split_and!; [done|done|reflexivity..]. Qed.

End EventFD.
