(* ===== verification/Tty.v ===== *)
(** * kernel/Terminal/TTY: the line discipline

    Bytes typed at a terminal go through [handle_input_byte] into a ring buffer, from
    which programs read.  In canonical mode the user edits the line with control
    characters before it is read.  The screen behind the terminal is the class
    [Terminal].  An operation is one attempt under its lock; waking, signals and
    notifications are recorded events. *)
From S2P Require Import Prelude RingBuffer Pipe.

(** ** Definitions *)
Definition VEOF : nat := 0.
Definition VEOL : nat := 1.
Definition VERASE : nat := 2.
Definition VINTR : nat := 3.
Definition VKILL : nat := 4.
Definition VQUIT : nat := 6.
Definition VSUSP : nat := 9.

Definition ICRNL : Z := 0x002.
Definition IGNCR : Z := 0x008.
Definition INLCR : Z := 0x020.
Definition ISTRIP : Z := 0x080.
Definition OPOST : Z := 0x0001.
Definition ONLCR : Z := 0x0002.
Definition OCRNL : Z := 0x0004.
Definition ECHO : Z := 0x001.
Definition ECHOE : Z := 0x002.
Definition ECHOK : Z := 0x004.
Definition ECHONL : Z := 0x008.
Definition ICANON : Z := 0x010.
Definition ISIG : Z := 0x040.

Definition SIGINT : Z := 9.
Definition SIGQUIT : Z := 12.
Definition SIGTSTP : Z := 16.

Definition NL : Z := 10.
Definition CR : Z := 13.
Definition _POSIX_VDISABLE : Z := 0.

Record termios : Type := mk_termios { c_iflag : Z; c_oflag : Z; c_lflag : Z; c_cc : list Z }.

Definition cc (t : termios) (i : nat) : Z := default 0 (c_cc t !! i).

(** What a kind of terminal implements; [D] is its state. *)
Class Terminal (D : Type) : Type := {
  putchar_impl : Z -> D -> bool * D;
  can_write_impl : D -> bool;
  master_has_closed : D -> bool
}.

Inductive tty_event : Type :=
| Signalled (pgrp sig : Z)
| InputReady
| OutputReady
| ReadersUnblocked
| WritersUnblocked
| AfterWrite.

Record tty (D : Type) : Type := mk_tty {
  m_termios : termios;
  draw_graphics : bool;
  receive_input : bool;
  m_foreground_pgrp : Z;
  buffer : ByteRingBuffer.t;
  flush : bool;
  driver : D;
  tty_events : list tty_event
}.
Arguments mk_tty {D} _ _ _ _ _ _ _ _.
Arguments m_termios {D} _.
Arguments draw_graphics {D} _.
Arguments receive_input {D} _.
Arguments m_foreground_pgrp {D} _.
Arguments buffer {D} _.
Arguments flush {D} _.
Arguments driver {D} _.
Arguments tty_events {D} _.

Section tty.
Context {D : Type} `{!Terminal D}.
Abbreviation T := (tty D).

Definition set_buffer (b : ByteRingBuffer.t) (s : T) : T := mk_tty (m_termios s) (draw_graphics s) (receive_input s) (m_foreground_pgrp s) b (flush s) (driver s) (tty_events s).
Definition set_flush (f : bool) (s : T) : T := mk_tty (m_termios s) (draw_graphics s) (receive_input s) (m_foreground_pgrp s) (buffer s) f (driver s) (tty_events s).
Definition set_driver (d : D) (s : T) : T := mk_tty (m_termios s) (draw_graphics s) (receive_input s) (m_foreground_pgrp s) (buffer s) (flush s) d (tty_events s).
Definition set_ctrl (draw input : bool) (s : T) : T := mk_tty (m_termios s) draw input (m_foreground_pgrp s) (buffer s) (flush s) (driver s) (tty_events s).
Definition add_event (e : tty_event) (s : T) : T := mk_tty (m_termios s) (draw_graphics s) (receive_input s) (m_foreground_pgrp s) (buffer s) (flush s) (driver s) (e :: tty_events s).

Definition modify (f : T -> T) : stateful T unit := fun s => (Ok tt, f s).
Definition emit (e : tty_event) : stateful T unit := modify (add_event e).

(** The buffer's operations *)
Definition buffer_back : stateful T Z := let! s := sget in slift (ByteRingBuffer.back (buffer s)).
Definition on_buffer (f : ByteRingBuffer.t -> outcome ByteRingBuffer.t) : stateful T unit :=
  let! s := sget in let! b := slift (f (buffer s)) in modify (set_buffer b).

Definition TTY_CMD_SET : Z := 1.
Definition TTY_CMD_UNSET : Z := 2.
Definition TTY_FLAG_ENABLE_OUTPUT : Z := 1.
Definition TTY_FLAG_ENABLE_INPUT : Z := 2.

Definition tty_ctrl (command flags : Z) : stateful T unit :=
  let! s := sget in
  if has_flag flags (Z.lnot (Z.lor TTY_FLAG_ENABLE_INPUT TTY_FLAG_ENABLE_OUTPUT)) then sfail EINVAL
  else if command =? TTY_CMD_SET then
    modify (set_ctrl (draw_graphics s || has_flag flags TTY_FLAG_ENABLE_OUTPUT) (receive_input s || has_flag flags TTY_FLAG_ENABLE_INPUT))
  else if command =? TTY_CMD_UNSET then
    modify (set_ctrl (draw_graphics s && negb (has_flag flags TTY_FLAG_ENABLE_OUTPUT)) (receive_input s && negb (has_flag flags TTY_FLAG_ENABLE_INPUT)))
  else sfail EINVAL.

Definition output (ch : Z) : stateful T bool := fun s => let '(r, d) := putchar_impl ch (driver s) in (Ok r, set_driver d s).

Definition putchar (ch : Z) : stateful T bool :=
  let! s := sget in
  let oflag := c_oflag (m_termios s) in
  if negb (draw_graphics s) then sret true
  else if has_flag oflag OPOST && (has_flag oflag ONLCR && (ch =? NL)) then
    let! ok := output CR in if ok then output NL else sret false
  else if has_flag oflag OPOST && (has_flag oflag OCRNL && (ch =? CR)) then output NL
  else output ch.

Fixpoint put_all (l : list Z) : stateful T unit :=
  match l with [] => sret tt | ch :: l => let! _ := putchar ch in put_all l end.

(** The loop of [do_backspace] over the tail of a character in UTF-8. *)
Fixpoint pop_continuation (fuel : nat) : stateful T unit :=
  match fuel with
  | O => slift Panic
  | S fuel =>
      let! b := buffer_back in
      if Z.land b 0xC0 =? 0x80 then let! _ := on_buffer (fun b => ByteRingBuffer.pop_back b 1) in pop_continuation fuel
      else sret tt
  end.

Definition BS : Z := 8.
Definition SPACE : Z := 32.

Definition do_backspace : stateful T unit :=
  let! s := sget in
  if ByteRingBuffer.empty (buffer s) then sret tt
  else
    let! b := buffer_back in
    let is_caret_notation := (b <? 32) || (b =? 127) in
    let! _ := pop_continuation (S (Z.to_nat (ByteRingBuffer.size (buffer s)))) in
    let! s := sget in
    let! _ := sassert (negb (ByteRingBuffer.empty (buffer s))) in
    let! _ := on_buffer (fun b => ByteRingBuffer.pop_back b 1) in
    put_all (if is_caret_notation then [BS; BS; SPACE; SPACE; BS; BS] else [BS; SPACE; BS]).

(** The loop for VKILL *)
Fixpoint kill_loop (fuel : nat) : stateful T unit :=
  match fuel with
  | O => slift Panic
  | S fuel =>
      let! s := sget in
      if ByteRingBuffer.empty (buffer s) then sret tt
      else
        let! b := buffer_back in
        if negb (b =? NL) then let! _ := do_backspace in kill_loop fuel else sret tt
  end.

(** How a character is echoed. *)
Definition echo (ch : Z) : list Z :=
  if ((ch <=? 31) || (ch =? 127)) && negb (ch =? 10) then
    94 ::
    (if (ch <=? 26) && negb (ch =? 10) then [65 + ch - 1]
     else if ch =? 27 then [91]
     else if ch =? 28 then [92]
     else if ch =? 29 then [93]
     else if ch =? 30 then [94]
     else if ch =? 31 then [95]
     else if ch =? 127 then [63]
     else [])
  else [ch].

(** The input modes; [None] if the character is dropped. *)
Definition translate_input (t : termios) (ch : Z) : option Z :=
  let ch := if has_flag (c_iflag t) ISTRIP then Z.land ch 0x7F else ch in
  if has_flag (c_iflag t) IGNCR && (ch =? CR) then None
  else if has_flag (c_iflag t) ICRNL && (ch =? CR) then Some NL
  else if has_flag (c_iflag t) INLCR && (ch =? NL) then Some CR
  else Some ch.

Definition input_signal (t : termios) (ch : Z) : option Z :=
  if ch =? cc t VSUSP then Some SIGTSTP
  else if ch =? cc t VQUIT then Some SIGQUIT
  else if ch =? cc t VINTR then Some SIGINT
  else None.

(** The end of [handle_input_byte]: the character is appended, echoed and made
    available. *)
Definition deliver (t : termios) (ch : Z) (should_append should_flush force_echo : bool) : stateful T unit :=
  let! s := sget in
  let! _ := if should_append && negb (ByteRingBuffer.full (buffer s)) then on_buffer (fun b => ByteRingBuffer.push b [ch]) else sret tt in
  let! _ := if should_append && (force_echo || has_flag (c_lflag t) ECHO) then put_all (echo ch) else sret tt in
  if should_flush then
    let! _ := modify (set_flush true) in
    let! _ := emit InputReady in
    emit ReadersUnblocked
  else sret tt.

Definition handle_input_byte (ch : Z) : stateful T unit :=
  if ch =? _POSIX_VDISABLE then sret tt
  else
    let! s := sget in
    let t := m_termios s in
    match translate_input t ch with
    | None => sret tt
    | Some ch =>
        match (if has_flag (c_lflag t) ISIG then input_signal t ch else None) with
        | Some sig => emit (Signalled (m_foreground_pgrp s) sig)
        | None =>
            if negb (has_flag (c_lflag t) ICANON) then deliver t ch true true false
            else if (ch =? cc t VERASE) && has_flag (c_lflag t) ECHOE then do_backspace
            else if (ch =? cc t VKILL) && has_flag (c_lflag t) ECHOK then kill_loop (S (Z.to_nat (ByteRingBuffer.size (buffer s))))
            else
              let line_end := (ch =? NL) || (ch =? CR) || (ch =? cc t VEOL) in
              deliver t ch (negb (ch =? cc t VEOF)) ((ch =? cc t VEOF) || line_end) (line_end && has_flag (c_lflag t) ECHONL)
        end
    end.

Fixpoint handle_input (l : list Z) : stateful T unit :=
  match l with [] => sret tt | ch :: l => let! _ := handle_input_byte ch in handle_input l end.

(** [on_key_event]; [ansi] is what the key is in UTF-8. *)
Definition on_key_event (released : bool) (ansi : option (list Z)) : stateful T unit :=
  if released then sret tt
  else match ansi with None => sret tt | Some l => let! _ := handle_input l in emit AfterWrite end.

(** How much of [data] a read takes: in canonical mode up to the end of a line. *)
Fixpoint line_length (fuel : nat) (data : list Z) (to_copy max_to_copy : Z) : Z :=
  match fuel with
  | O => to_copy
  | S fuel =>
      if to_copy <? max_to_copy then
        if default 0 (data !! Z.to_nat (to_copy - 1)) =? NL then to_copy else line_length fuel data (to_copy + 1) max_to_copy
      else to_copy
  end.

(** A read into a buffer of [size] bytes; copying past its end is a failure (a system
    call for no bytes at all does not get here). *)
Definition read_impl (size : Z) : stateful T (attempt (list Z)) :=
  let! s := sget in
  if negb (flush s) then sret Blocked
  else if ByteRingBuffer.empty (buffer s) then
    if master_has_closed (driver s) then sret (Done [])
    else let! _ := modify (set_flush false) in sret (Done [])
  else
    let! data := slift (ByteRingBuffer.get_data (buffer s)) in
    let max_to_copy := Z.min size (Z.of_nat (length data)) in
    let to_copy := if has_flag (c_lflag (m_termios s)) ICANON then line_length (Z.to_nat max_to_copy) data 1 max_to_copy else max_to_copy in
    let! _ := sassert (to_copy <=? size) in
    let! _ := on_buffer (fun b => ByteRingBuffer.pop b to_copy) in
    let! s := sget in
    let! _ := if ByteRingBuffer.empty (buffer s) then modify (set_flush false) else sret tt in
    let! _ := emit ReadersUnblocked in
    sret (Done (take (Z.to_nat to_copy) data)).

Fixpoint write_loop (l : list Z) (written : Z) : stateful T Z :=
  match l with
  | [] => sret written
  | ch :: l => let! ok := putchar ch in if ok then write_loop l (written + 1) else sret written
  end.

Definition write_impl (l : list Z) : stateful T (attempt Z) :=
  let! s := sget in
  if negb (can_write_impl (driver s)) then
    if master_has_closed (driver s) then sfail EIO else sret Blocked
  else
    let! written := write_loop l 0 in
    let! _ := emit AfterWrite in
    let! s := sget in
    let! _ := if can_write_impl (driver s) then emit OutputReady else sret tt in
    sret (Done written).

(** ** What operations do to the input *)

(** The buffer, of [cap] bytes, holds [l], and [f] is the flag that it can be read. *)
Record input_is (t : termios) (cap : Z) (l : list Z) (f : bool) (s : T) : Prop := {
  in_termios : m_termios s = t;
  in_wf : ByteRingBuffer.wf (buffer s);
  in_capacity : ByteRingBuffer.m_capacity (buffer s) = cap;
  in_contents : ByteRingBuffer.contents (buffer s) = l;
  in_flush : flush s = f
}.

(** An operation that succeeds and turns the input [(l, f)] into [(l', f')]. *)
Definition edits {A} (t : termios) (cap : Z) (l : list Z) (f : bool) (m : stateful T A) (a : A) (l' : list Z) (f' : bool) : Prop :=
  forall s, input_is t cap l f s -> exists s', m s = (Ok a, s') /\ input_is t cap l' f' s'.

Lemma edits_ret {A} t cap l f (a : A) : edits t cap l f (sret a) a l f.
Proof. intros s Hs. by exists s. Qed.

Lemma edits_bind {A B} t cap l f (m : stateful T A) a l1 f1 (k : A -> stateful T B) b l2 f2 :
  edits t cap l f m a l1 f1 -> edits t cap l1 f1 (k a) b l2 f2 -> edits t cap l f (sbind m k) b l2 f2.
Proof. intros Hm Hk s Hs. destruct (Hm s Hs) as (s1 & E1 & H1). destruct (Hk s1 H1) as (s2 & E2 & H2). exists s2. unfold sbind. by rewrite E1. Qed.

Lemma edits_get {B} t cap l f (k : T -> stateful T B) b l2 f2 :
  (forall s0, input_is t cap l f s0 -> edits t cap l f (k s0) b l2 f2) -> edits t cap l f (sbind sget k) b l2 f2.
Proof. intros Hk s Hs. unfold sbind. cbn. by apply Hk. Qed.

Lemma edits_emit t cap l f e : edits t cap l f (emit e) tt l f.
Proof. intros s [H1 H2 H3 H4 H5]. eexists. split; [done|]. by split. Qed.

Lemma edits_set_flush t cap l f f' : edits t cap l f (modify (set_flush f')) tt l f'.
Proof. intros s [H1 H2 H3 H4 H5]. eexists. split; [done|]. by split. Qed.

Lemma edits_output t cap l f ch : forall s, input_is t cap l f s -> exists r s', output ch s = (Ok r, s') /\ input_is t cap l f s'.
Proof. intros s [H1 H2 H3 H4 H5]. unfold output. destruct (putchar_impl ch (driver s)) as [r d]. eexists _, _. split; [done|]. by split. Qed.

(** What is shown on the screen does not change the input. *)
Lemma edits_putchar t cap l f ch : forall s, input_is t cap l f s -> exists r s', putchar ch s = (Ok r, s') /\ input_is t cap l f s'.
Proof.
  intros s Hs. unfold putchar. unfold sbind at 1. cbn [sget]. destruct (negb (draw_graphics s)); [by exists true, s|].
  destruct (has_flag _ OPOST && (has_flag _ ONLCR && _)).
  - destruct (edits_output t cap l f CR s Hs) as (r & s1 & E & Hs1). unfold sbind. rewrite E. destruct r; [by apply edits_output|by exists false, s1].
  - destruct (has_flag _ OPOST && _); by apply edits_output.
Qed.

Lemma edits_put_all t cap l f chs : edits t cap l f (put_all chs) tt l f.
Proof.
  induction chs as [|ch chs IH]; [apply edits_ret|]. intros s Hs. destruct (edits_putchar t cap l f ch s Hs) as (r & s1 & E & Hs1). cbn [put_all]. unfold sbind. rewrite E. by apply IH.
Qed.

Lemma input_size t cap l f s : input_is t cap l f s -> ByteRingBuffer.size (buffer s) = Z.of_nat (length l).
Proof. intros [H1 H2 H3 H4 H5]. rewrite <- H4. symmetry. by apply ByteRingBuffer.length_contents. Qed.

Lemma edits_on_buffer t cap l f l' op : (forall b, ByteRingBuffer.wf b -> ByteRingBuffer.m_capacity b = cap -> ByteRingBuffer.contents b = l ->
    exists b', op b = Ok b' /\ ByteRingBuffer.wf b' /\ ByteRingBuffer.m_capacity b' = cap /\ ByteRingBuffer.contents b' = l') ->
  edits t cap l f (on_buffer op) tt l' f.
Proof.
  intros Hop s [H1 H2 H3 H4 H5]. destruct (Hop (buffer s) H2 H3 H4) as (b' & E & Hb1 & Hb2 & Hb3). eexists. unfold on_buffer, sbind. cbn. rewrite E. cbn. split; [done|]. by split.
Qed.

Lemma edits_push t cap l f ch : Z.of_nat (length l) + 1 <= cap -> edits t cap l f (on_buffer (fun b => ByteRingBuffer.push b [ch])) tt (l ++ [ch]) f.
Proof.
  intros Hlen. apply edits_on_buffer. intros b Hwf Hcap Hc. pose proof (ByteRingBuffer.length_contents b Hwf) as Hl. rewrite Hc in Hl.
  destruct (ByteRingBuffer.ring_push_ok b [ch] Hwf) as (b' & E & Hb & Hb' & Hb'' & _); [unfold ByteRingBuffer.free; cbn; lia|]. exists b'. split_and!; [done|done|lia|by rewrite Hb', Hc].
Qed.

Lemma edits_pop_back t cap l f ch : edits t cap (l ++ [ch]) f (on_buffer (fun b => ByteRingBuffer.pop_back b 1)) tt l f.
Proof.
  apply edits_on_buffer. intros b Hwf Hcap Hc. pose proof (ByteRingBuffer.length_contents b Hwf) as Hl. rewrite Hc, length_app in Hl. cbn in Hl.
  destruct (ByteRingBuffer.pop_back_ok b 1 Hwf) as (b' & E & Hb & Hb' & Hb'' & _); [lia|]. exists b'. split_and!; [done|done|lia|]. rewrite Hb', Hc. apply take_app_length'. lia.
Qed.

Lemma edits_back t cap l f ch : edits t cap (l ++ [ch]) f buffer_back ch (l ++ [ch]) f.
Proof.
  intros s Hs. exists s. split; [|done]. destruct Hs as [H1 H2 H3 H4 H5]. unfold buffer_back, sbind. cbn. destruct (ByteRingBuffer.ring_buffer_is_queue (buffer s) H2) as (_ & _ & _ & _ & _ & _ & _ & _ & Hb).
  by rewrite (Hb ch l H4).
Qed.

(** ** Editing *)
Definition continuation (b : Z) : bool := Z.land b 0xC0 =? 0x80.

(** The encoding of one character. *)
Definition utf8_char (c : list Z) : Prop :=
  exists lead conts, c = lead :: conts /\ continuation lead = false /\ Forall (fun b => continuation b = true) conts.

Lemma edits_pop_continuation t cap l f lead conts fuel : continuation lead = false -> Forall (fun b => continuation b = true) conts -> (length conts < fuel)%nat ->
  edits t cap (l ++ lead :: conts) f (pop_continuation fuel) tt (l ++ [lead]) f.
Proof.
  intros Hlead. revert fuel. induction conts as [|b conts IH] using rev_ind; intros fuel Hc Hf; (destruct fuel as [|fuel]; [lia|]); cbn [pop_continuation].
  - eapply edits_bind; [apply edits_back|]. unfold continuation in Hlead. rewrite Hlead. apply edits_ret.
  - apply Forall_app in Hc as [Hc Hb]. apply Forall_cons_1 in Hb as [Hb _]. rewrite length_app in Hf. cbn in Hf. rewrite app_comm_cons, app_assoc.
    eapply edits_bind; [apply edits_back|]. unfold continuation in Hb. rewrite Hb. eapply edits_bind; [apply edits_pop_back|]. apply IH; [done|lia].
Qed.

Lemma edits_backspace t cap l f c : utf8_char c -> edits t cap (l ++ c) f do_backspace tt l f.
Proof.
  intros (lead & conts & -> & Hl & Hc). unfold do_backspace. apply edits_get. intros s0 Hs0. pose proof (input_size _ _ _ _ _ Hs0) as Hsz. rewrite length_app in Hsz. cbn [length] in Hsz.
  unfold ByteRingBuffer.empty. unfold ByteRingBuffer.size in *. rewrite (proj2 (Z.eqb_neq _ _)) by lia.
  destruct (exists_last (l := lead :: conts)) as (front & b & Eb); [done|]. eapply edits_bind; [rewrite Eb, app_assoc; apply edits_back|]. rewrite <- app_assoc, <- Eb.
  eapply edits_bind; [apply edits_pop_continuation; [done|done|lia]|]. apply edits_get. intros s1 Hs1. pose proof (input_size _ _ _ _ _ Hs1) as Hsz1. rewrite length_app in Hsz1. cbn [length] in Hsz1.
  unfold ByteRingBuffer.size in Hsz1. rewrite (proj2 (Z.eqb_neq _ _)) by lia. eapply edits_bind; [apply edits_ret|]. eapply edits_bind; [apply edits_pop_back|]. apply edits_put_all.
Qed.

Lemma edits_backspace_nothing t cap f : edits t cap [] f do_backspace tt [] f.
Proof.
  unfold do_backspace. apply edits_get. intros s0 Hs0. pose proof (input_size _ _ _ _ _ Hs0) as Hsz. unfold ByteRingBuffer.empty. unfold ByteRingBuffer.size in Hsz. rewrite Hsz. apply edits_ret.
Qed.

(** If the buffer holds nothing but continuation bytes, the loop empties it and
    then asks for its last byte. *)
Lemma pop_continuation_panics t cap l f : Forall (fun b => continuation b = true) l -> forall fuel s, input_is t cap l f s -> fst (pop_continuation fuel s) = Panic.
Proof.
  induction l as [|b l IH] using rev_ind; intros Hl fuel s Hs; (destruct fuel as [|fuel]; [done|]); cbn [pop_continuation]; unfold sbind at 1.
  - pose proof (input_size _ _ _ _ _ Hs) as Hsz. unfold ByteRingBuffer.size in Hsz. unfold buffer_back, sbind, slift. cbn [sget]. unfold ByteRingBuffer.back, ByteRingBuffer.empty. by rewrite Hsz.
  - apply Forall_app in Hl as [Hl Hb]. apply Forall_cons_1 in Hb as [Hb _]. destruct (edits_back t cap l f b s Hs) as (s1 & -> & Hs1). unfold continuation in Hb. rewrite Hb.
    unfold sbind. destruct (edits_pop_back t cap l f b s1 Hs1) as (s2 & -> & Hs2). by apply IH.
Qed.

Lemma last_character l : Forall (fun b => continuation b = true) l \/ exists l' c, l = l' ++ c /\ utf8_char c.
Proof.
  induction l as [|b l [IH|(l' & c & -> & lead & conts & -> & H1 & H2)]] using rev_ind; [by left| |].
  - destruct (continuation b) eqn:Eb; [left; apply Forall_app; by repeat constructor|]. right. exists l, [b]. split; [done|]. by exists b, [].
  - right. destruct (continuation b) eqn:Eb.
    + exists l', (lead :: conts ++ [b]). rewrite <- app_assoc. split; [done|]. exists lead, (conts ++ [b]). split_and!; [done|done|]. apply Forall_app. by repeat constructor.
    + exists (l' ++ lead :: conts), [b]. split; [done|]. by exists b, [].
Qed.

Lemma backspace_result t cap l f s : input_is t cap l f s ->
  (l <> [] /\ Forall (fun b => continuation b = true) l -> fst (do_backspace s) = Panic) /\
  (~ (l <> [] /\ Forall (fun b => continuation b = true) l) -> fst (do_backspace s) = Ok tt).
Proof.
  intros Hs. split.
  - intros [Hne Hl]. destruct (exists_last Hne) as (l' & b & ->). pose proof (input_size _ _ _ _ _ Hs) as Hsz. rewrite length_app in Hsz. cbn [length] in Hsz.
    unfold do_backspace, sbind at 1. cbn [sget]. unfold ByteRingBuffer.empty. unfold ByteRingBuffer.size in *. rewrite (proj2 (Z.eqb_neq _ _)) by lia.
    unfold sbind at 1. destruct (edits_back t cap l' f b s Hs) as (s1 & -> & Hs1). unfold sbind at 1.
    pose proof (pop_continuation_panics t cap _ f Hl (S (Z.to_nat (ByteRingBuffer.m_size (buffer s)))) s1 Hs1) as Hp.
    destruct (pop_continuation _ s1) as [r s2]. cbn in Hp. by subst r.
  - intros Hno. destruct l as [|b l]; [by destruct (edits_backspace_nothing t cap f s Hs) as (s' & -> & _)|].
    destruct (last_character (b :: l)) as [Hl|(l' & c & E & Hc)]; [by destruct Hno|]. rewrite E in Hs. by destruct (edits_backspace t cap l' f c Hc s Hs) as (s' & -> & _).
Qed.

(** A line is deleted back to the newline before it. *)
Fixpoint strip (cs : list (list Z)) : list (list Z) :=
  match cs with [] => [] | c :: cs' => if decide (c = [NL]) then cs else strip cs' end.
Definition kill (cs : list (list Z)) : list (list Z) := rev (strip (rev cs)).

Lemma kill_snoc cs c : kill (cs ++ [c]) = if decide (c = [NL]) then cs ++ [c] else kill cs.
Proof. unfold kill. rewrite rev_app_distr. cbn. case_decide; [|done]. cbn. by rewrite rev_involutive. Qed.

Lemma last_byte c : utf8_char c -> exists front b, c = front ++ [b] /\ (b = NL -> c = [NL]).
Proof.
  intros (lead & conts & -> & Hl & Hc). destruct conts as [|b conts _] using rev_ind; [exists [], lead; split; [done|by intros ->]|].
  apply Forall_app in Hc as [_ Hb]. apply Forall_cons_1 in Hb as [Hb _]. exists (lead :: conts), b. split; [done|]. by intros ->.
Qed.

Lemma edits_kill t cap f cs fuel : Forall utf8_char cs -> (length cs < fuel)%nat -> edits t cap (concat cs) f (kill_loop fuel) tt (concat (kill cs)) f.
Proof.
  revert fuel. induction cs as [|c cs IH] using rev_ind; intros fuel Hcs Hf; (destruct fuel as [|fuel]; [lia|]); cbn [kill_loop].
  - apply edits_get. intros s0 Hs0. pose proof (input_size _ _ _ _ _ Hs0) as Hsz. unfold ByteRingBuffer.empty. unfold ByteRingBuffer.size in Hsz. rewrite Hsz. apply edits_ret.
  - apply Forall_app in Hcs as [Hcs Hc]. apply Forall_cons_1 in Hc as [Hc _]. rewrite length_app in Hf. cbn in Hf. rewrite kill_snoc, concat_app. cbn [concat]. rewrite app_nil_r.
    destruct (last_byte c Hc) as (front & b & Eb & Hnl). apply edits_get. intros s0 Hs0. pose proof (input_size _ _ _ _ _ Hs0) as Hsz. rewrite Eb, !length_app in Hsz. cbn [length] in Hsz.
    unfold ByteRingBuffer.empty. unfold ByteRingBuffer.size in Hsz. rewrite (proj2 (Z.eqb_neq _ _)) by lia.
    eapply edits_bind; [rewrite Eb, app_assoc; apply edits_back|]. rewrite <- app_assoc, <- Eb. destruct (Z.eqb_spec b NL) as [E|E]; cbn [negb].
    + rewrite decide_True by auto. rewrite concat_app. cbn [concat]. rewrite app_nil_r. apply edits_ret.
    + rewrite decide_False by (intros ->; destruct front as [|? []]; by simplify_eq/=). eapply edits_bind; [by apply edits_backspace|]. apply IH; [done|lia].
Qed.

(** ** Typing at a terminal in its initial mode *)

(** The mode of a new terminal: canonical, with echo and signals. *)
Definition TTY_DEFAULT_TERMIOS_CC : list Z := [0x04; 0; 0x08; 0x03; 0x15; 0; 0x1c; 0x11; 0x13; 0x1a; 0].
Definition pts_termios : termios := mk_termios ICRNL 0 (ECHO + ECHOE + ECHOK + ICANON + ISIG) TTY_DEFAULT_TERMIOS_CC.

(** A byte without a special meaning. *)
Definition ordinary (b : Z) : Prop :=
  0 < b < 256 /\ b <> 0x04 /\ b <> 0x08 /\ b <> 0x03 /\ b <> 0x15 /\ b <> 0x1c /\ b <> 0x1a /\ b <> NL /\ b <> CR.

Inductive key : Type := Char (c : list Z) | Erase | Kill | Enter.

Definition bytes_of (k : key) : list Z := match k with Char c => c | Erase => [0x08] | Kill => [0x15] | Enter => [CR] end.
Definition key_ok (k : key) : Prop := match k with Char c => utf8_char c /\ Forall ordinary c | _ => True end.
Definition edit (cs : list (list Z)) (k : key) : list (list Z) :=
  match k with Char c => cs ++ [c] | Erase => removelast cs | Kill => kill cs | Enter => cs ++ [[NL]] end.
Definition is_enter (k : key) : bool := match k with Enter => true | _ => false end.

Lemma translate_ordinary ch : ordinary ch -> translate_input pts_termios ch = Some ch /\ input_signal pts_termios ch = None.
Proof.
  unfold ordinary. intros Hch. split.
  - unfold translate_input. change (has_flag (c_iflag pts_termios) ISTRIP) with false. change (has_flag (c_iflag pts_termios) IGNCR) with false.
    change (has_flag (c_iflag pts_termios) ICRNL) with true. change (has_flag (c_iflag pts_termios) INLCR) with false. cbn. by rewrite (proj2 (Z.eqb_neq ch CR)) by lia.
  - unfold input_signal. cbn. by rewrite !(proj2 (Z.eqb_neq ch _)) by lia.
Qed.

Lemma handle_ordinary ch : ordinary ch -> forall s : T, m_termios s = pts_termios -> handle_input_byte ch s = deliver pts_termios ch true false false s.
Proof.
  intros Hch s Ht. destruct (translate_ordinary ch Hch) as [E1 E2]. unfold ordinary in Hch. unfold handle_input_byte, sbind, _POSIX_VDISABLE. rewrite (proj2 (Z.eqb_neq ch 0)) by lia.
  cbn [sget]. rewrite Ht, E1, E2. change (has_flag (c_lflag pts_termios) ISIG) with true. change (has_flag (c_lflag pts_termios) ICANON) with true. cbn [negb].
  change (cc pts_termios VERASE) with 8. change (cc pts_termios VKILL) with 21. change (cc pts_termios VEOF) with 4. change (cc pts_termios VEOL) with 0.
  by rewrite !(proj2 (Z.eqb_neq ch _)) by lia.
Qed.

Lemma edits_deliver cap l f ch sf : Z.of_nat (length l) + 1 <= cap -> edits pts_termios cap l f (deliver pts_termios ch true sf false) tt (l ++ [ch]) (f || sf).
Proof.
  intros Hlen. unfold deliver. apply edits_get. intros s0 Hs0. pose proof (input_size _ _ _ _ _ Hs0) as Hsz. destruct Hs0 as [H1 H2 H3 H4 H5]. unfold ByteRingBuffer.full. unfold ByteRingBuffer.size in Hsz.
  rewrite (proj2 (Z.eqb_neq _ _)) by lia. cbn [andb negb]. eapply edits_bind; [by apply edits_push|]. cbn. eapply edits_bind; [apply edits_put_all|]. destruct sf.
  - eapply edits_bind; [apply edits_set_flush|]. rewrite orb_true_r. eapply edits_bind; [apply edits_emit|]. apply edits_emit.
  - rewrite orb_false_r. apply edits_ret.
Qed.

Lemma edits_ext {A} t cap l f (m m' : stateful T A) a l' f' : (forall s, m_termios s = t -> m s = m' s) -> edits t cap l f m' a l' f' -> edits t cap l f m a l' f'.
Proof. intros Hm He s Hs. rewrite Hm by apply Hs. by apply He. Qed.

Lemma edits_ordinary cap l f c : Forall ordinary c -> Z.of_nat (length l) + Z.of_nat (length c) <= cap -> edits pts_termios cap l f (handle_input c) tt (l ++ c) f.
Proof.
  revert l. induction c as [|b c IH]; intros l Hc Hlen; cbn [handle_input]; [rewrite app_nil_r; apply edits_ret|]. apply Forall_cons_1 in Hc as [Hb Hc]. cbn [length] in Hlen.
  eapply edits_bind; [eapply edits_ext; [by apply handle_ordinary|apply edits_deliver; lia]|]. rewrite orb_false_r, (app_assoc l [b] c : l ++ b :: c = _). apply IH; [done|rewrite length_app; cbn; lia].
Qed.

Lemma handle_input_app l1 l2 (s : T) : handle_input (l1 ++ l2) s = sbind (handle_input l1) (fun _ => handle_input l2) s.
Proof.
  revert s. induction l1 as [|ch l1 IH]; intros s; [done|]. cbn [app handle_input]. unfold sbind in *. destruct (handle_input_byte ch s) as [[[]| |] s1]; [apply IH|done|done].
Qed.

Lemma utf8_bytes cs : Forall utf8_char cs -> (length cs <= length (concat cs))%nat.
Proof. induction 1 as [|c cs (lead & conts & -> & _) Hcs IH]; cbn; [lia|]. rewrite length_app. lia. Qed.

Lemma edits_key cap cs f k : Forall utf8_char cs -> key_ok k -> Z.of_nat (length (concat cs)) + Z.of_nat (length (bytes_of k)) <= cap ->
  edits pts_termios cap (concat cs) f (handle_input (bytes_of k)) tt (concat (edit cs k)) (f || is_enter k).
Proof.
  intros Hcs Hk Hcap. destruct k as [c| | |]; cbn [bytes_of edit is_enter] in *; rewrite ?orb_false_r.
  - destruct Hk as [_ Hc]. rewrite concat_app. cbn [concat]. rewrite app_nil_r. by apply edits_ordinary.
  - cbn [handle_input]. eapply edits_bind; [|apply edits_ret]. eapply (edits_ext _ _ _ _ _ do_backspace); [intros s Hs; unfold handle_input_byte; rewrite (proj2 (Z.eqb_neq _ _)) by done; unfold sbind; cbn [sget]; by rewrite Hs|]. destruct cs as [|c cs _] using rev_ind; [apply edits_backspace_nothing|].
    apply Forall_app in Hcs as [_ Hc]. apply Forall_cons_1 in Hc as [Hc _]. rewrite removelast_last, concat_app. cbn [concat]. rewrite app_nil_r. by apply edits_backspace.
  - cbn [handle_input]. eapply edits_bind; [|apply edits_ret]. intros s Hs. pose proof (input_size _ _ _ _ _ Hs) as Hsz. pose proof (utf8_bytes cs Hcs) as Hlen.
    destruct (edits_kill pts_termios cap f cs (S (Z.to_nat (ByteRingBuffer.size (buffer s)))) Hcs ltac:(lia) s Hs) as (s' & E & Hs'). exists s'. split; [|done]. rewrite <- E. unfold handle_input_byte. rewrite (proj2 (Z.eqb_neq _ _)) by done. unfold sbind at 1. cbn [sget]. by rewrite (in_termios _ _ _ _ _ Hs).
  - cbn [handle_input]. eapply edits_bind; [|apply edits_ret]. rewrite concat_app. cbn [concat]. rewrite app_nil_r. eapply (edits_ext _ _ _ _ _ (deliver pts_termios NL true true false)); [intros s Hs; unfold handle_input_byte; rewrite (proj2 (Z.eqb_neq _ _)) by done; unfold sbind; cbn [sget]; by rewrite Hs|]. apply edits_deliver. cbn in Hcap. lia.
Qed.

Lemma utf8_edit cs k : Forall utf8_char cs -> key_ok k -> Forall utf8_char (edit cs k).
Proof.
  intros Hcs Hk. destruct k as [c| | |]; cbn.
  - apply Forall_app. split; [done|]. by constructor; [apply Hk|].
  - destruct cs as [|c cs _] using rev_ind; [done|]. rewrite removelast_last. by apply Forall_app in Hcs as [? _].
  - unfold kill. apply Forall_rev. assert (Hr : Forall utf8_char (rev cs)) by (by apply Forall_rev). induction Hr as [|c r Hc Hr IH]; cbn; [done|]. case_decide; [by constructor|done].
  - apply Forall_app. split; [done|]. constructor; [|done]. by exists NL, [].
Qed.

Lemma strip_bytes cs : (length (concat (strip cs)) <= length (concat cs))%nat.
Proof. induction cs as [|c cs IH]; cbn; [lia|]. case_decide; cbn; rewrite !length_app; lia. Qed.

Lemma concat_rev_length (cs : list (list Z)) : length (concat (rev cs)) = length (concat cs).
Proof. induction cs as [|c cs IH]; [done|]. cbn. rewrite concat_app, !length_app. cbn. rewrite app_nil_r. lia. Qed.

Lemma edit_bytes cs k : (length (concat (edit cs k)) <= length (concat cs) + length (bytes_of k))%nat.
Proof.
  destruct k as [c| | |]; cbn.
  - rewrite concat_app, length_app. cbn. rewrite app_nil_r. lia.
  - destruct cs as [|c cs _] using rev_ind; [cbn; lia|]. rewrite removelast_last, concat_app, length_app. lia.
  - unfold kill. rewrite concat_rev_length. pose proof (strip_bytes (rev cs)). rewrite concat_rev_length in *. lia.
  - rewrite concat_app, length_app. cbn. lia.
Qed.

Lemma edits_keys cap ks : forall cs f, Forall utf8_char cs -> Forall key_ok ks -> Z.of_nat (length (concat cs)) + Z.of_nat (length (concat (map bytes_of ks))) <= cap ->
  edits pts_termios cap (concat cs) f (handle_input (concat (map bytes_of ks))) tt (concat (foldl edit cs ks)) (f || existsb is_enter ks).
Proof.
  induction ks as [|k ks IH]; intros cs f Hcs Hks Hcap; cbn [map concat foldl existsb handle_input]; [rewrite orb_false_r; apply edits_ret|].
  apply Forall_cons_1 in Hks as [Hk Hks]. cbn [map concat] in Hcap. rewrite length_app in Hcap. pose proof (edit_bytes cs k) as Hb.
  eapply edits_ext; [intros s _; apply handle_input_app|]. eapply edits_bind; [apply edits_key; [done|done|lia]|]. rewrite orb_assoc. apply IH; [by apply utf8_edit|done|lia].
Qed.

(** A read takes the first line. *)
Lemma line_length_spec line rest fuel : NL ∉ line -> forall k max, 1 <= k <= Z.of_nat (length line) + 1 -> Z.of_nat (length line) + 1 <= max -> max - k <= Z.of_nat fuel ->
  line_length fuel (line ++ NL :: rest) k max = Z.of_nat (length line) + 1.
Proof.
  intros Hnl. induction fuel as [|fuel IH]; intros k max Hk Hmax Hf; cbn [line_length]; [lia|]. destruct (Z.ltb_spec k max); [|lia].
  destruct (decide (k = Z.of_nat (length line) + 1)) as [E|E].
  - replace (Z.to_nat (k - 1)) with (length line + 0)%nat by lia. rewrite lookup_app_r by lia. replace (length line + 0 - length line)%nat with 0%nat by lia. cbn. lia.
  - rewrite lookup_app_l by lia. destruct (lookup_lt_is_Some_2 line (Z.to_nat (k - 1))) as [b Hb]; [lia|]. rewrite Hb. cbn.
    rewrite (proj2 (Z.eqb_neq b NL)) by (intros ->; by apply list_elem_of_lookup_2 in Hb). apply IH; lia.
Qed.

Lemma edits_read cap line size : NL ∉ line -> Z.of_nat (length line) + 1 <= size ->
  edits pts_termios cap (line ++ [NL]) true (read_impl size) (Done (line ++ [NL])) [] false.
Proof.
  intros Hnl Hsz. unfold read_impl. apply edits_get. intros s0 Hs0. pose proof (input_size _ _ _ _ _ Hs0) as Hl. rewrite length_app in Hl. cbn [length] in Hl. destruct Hs0 as [H1 H2 H3 H4 H5]. rewrite H5, H1. cbn [negb].
  unfold ByteRingBuffer.empty at 1. unfold ByteRingBuffer.size in Hl. rewrite (proj2 (Z.eqb_neq _ _)) by lia.
  destruct (ByteRingBuffer.ring_buffer_is_queue (buffer s0) H2) as (_ & _ & _ & _ & _ & Hg & _). rewrite Hg, H4. eapply edits_bind; [apply edits_ret|]. cbn beta.
  change (has_flag (c_lflag pts_termios) ICANON) with true. cbv iota. rewrite length_app. cbn [length]. rewrite Z.min_r by lia. rewrite line_length_spec by (done || lia). rewrite (proj2 (Z.leb_le _ _)) by lia.
  eapply edits_bind; [apply edits_ret|]. eapply edits_bind.
  - apply (edits_on_buffer _ _ _ _ []). intros b Hwf Hcap Hc. pose proof (ByteRingBuffer.length_contents b Hwf) as Hlen. rewrite Hc, length_app in Hlen. cbn in Hlen.
    destruct (ByteRingBuffer.ring_pop_ok b (Z.of_nat (length line) + 1) Hwf) as (b' & E & Hb & Hb' & Hb'' & _); [lia|]. exists b'. split_and!; [done|done|lia|]. rewrite Hb', Hc. apply drop_ge. rewrite length_app. cbn. lia.
  - apply edits_get. intros s1 Hs1. pose proof (input_size _ _ _ _ _ Hs1) as Hl1. unfold ByteRingBuffer.empty. unfold ByteRingBuffer.size in Hl1. rewrite Hl1. cbn [length Z.of_nat Z.eqb].
    eapply edits_bind; [apply edits_set_flush|]. eapply edits_bind; [apply edits_emit|]. rewrite take_ge by (rewrite length_app; cbn; lia). apply edits_ret.
Qed.

(** The characters of a line that is being typed are not newlines. *)
Lemma line_has_no_newline ks : Forall key_ok ks -> existsb is_enter ks = false -> NL ∉ concat (foldl edit [] ks).
Proof.
  intros Hks He. assert (Hgen : forall cs, Forall (Forall (fun b => b <> NL)) cs -> Forall (Forall (fun b => b <> NL)) (foldl edit cs ks)).
  { revert Hks He. induction ks as [|k ks IH]; intros Hks He cs Hcs; [done|]. cbn in He. apply orb_false_iff in He as [Hk He]. apply Forall_cons_1 in Hks as [Hok Hks]. cbn. apply IH; [done|done|].
    destruct k as [c| | |]; cbn in *; try done.
    - apply Forall_app. split; [done|]. constructor; [|done]. eapply Forall_impl; [|exact (proj2 Hok)]. by intros b (? & ? & ? & ? & ? & ? & ? & ? & ?).
    - destruct cs as [|c cs _] using rev_ind; [done|]. rewrite removelast_last. by apply Forall_app in Hcs as [? _].
    - unfold kill. apply Forall_rev. assert (Hr : Forall (Forall (fun b => b <> NL)) (rev cs)) by (by apply Forall_rev). induction Hr as [|c r Hc Hr IHr]; cbn; [done|]. case_decide; [by constructor|done]. }
  specialize (Hgen [] ltac:(done)). rewrite list.Forall_forall in Hgen. intros Hx. apply list_elem_of_In, in_concat in Hx as (c & Hc & Hx). apply list_elem_of_In in Hc, Hx.
  apply Hgen in Hc. rewrite list.Forall_forall in Hc. by apply (Hc NL).
Qed.
End tty.

(** ** Theorems *)

(** C29: A line typed at a terminal in the mode of a new pseudoterminal
    (canonical, echo, signals, carriage return to newline) with nothing in its input
    buffer is read as it was edited: if the keys before Enter are characters in
    UTF-8 without bytes that have a special meaning, erases and kills, and the
    input buffer has room for all the bytes typed and the reader's for the line,
    the reader gets exactly the characters that are left, and the newline. *)
Theorem typed_line_is_read {D : Type} `{!Terminal D} (s : tty D) (cap : Z) (f : bool) (ks : list key) (size : Z)
  (Hs : input_is pts_termios cap [] f s) (Hks : Forall key_ok ks) (Hline : existsb is_enter ks = false)
  (Hcap : Z.of_nat (length (concat (map bytes_of (ks ++ [Enter])))) <= cap) (Hsize : Z.of_nat (length (concat (foldl edit [] ks))) + 1 <= size) :
  exists s1 s2, handle_input (concat (map bytes_of (ks ++ [Enter]))) s = (Ok tt, s1) /\
    read_impl size s1 = (Ok (Done (concat (foldl edit [] ks) ++ [NL])), s2) /\ input_is pts_termios cap [] false s2.
Proof.
  destruct (edits_keys cap (ks ++ [Enter]) [] f ltac:(done) ltac:(apply Forall_app; split; [done|by constructor]) ltac:(done) s Hs) as (s1 & E1 & H1).
  rewrite foldl_app, existsb_app, orb_true_r in H1 by done. cbn [foldl edit] in H1. rewrite concat_app in H1. cbn [concat] in H1. rewrite app_nil_r, orb_true_r in H1.
  pose proof (line_has_no_newline ks Hks Hline) as Hnl. destruct (edits_read cap (concat (foldl edit [] ks)) size Hnl Hsize s1 H1) as (s2 & E2 & H2). by exists s1, s2.
Qed.
