(* ===== verification/PseudoTerminal.v ===== *)
(** * kernel/Terminal/PseudoTerminal: a terminal with a program behind it

    What is written to the slave, a terminal of [Tty], goes into a ring of bytes that
    the master reads; what is written to the master is typed at the slave.  The slave
    has its master while that is open: its state as a [Terminal] is [option master]. *)
From S2P Require Import Prelude RingBuffer Pipe Tty.

(** ** Definitions *)
Inductive master_event : Type := MasterUnblocked | MasterReadable | MasterWritable | SlaveUnblocked.

Record master : Type := mk_master { m_buffer : list Z; m_buffer_tail : Z; m_buffer_size : Z; master_events : list master_event }.

Definition buffer_capacity (m : master) : Z := Z.of_nat (length (m_buffer m)).

Definition master_putchar (ch : Z) (m : master) : bool * master :=
  if buffer_capacity m <=? m_buffer_size m then (false, m)
  else (true, mk_master (<[Z.to_nat ((m_buffer_tail m + m_buffer_size m) `mod` buffer_capacity m) := ch]> (m_buffer m))
    (m_buffer_tail m) (m_buffer_size m + 1) (MasterReadable :: MasterUnblocked :: master_events m)).

(** [n] bytes from [offset], as [memcpy] takes them. *)
Definition bytes_from (m : master) (offset n : Z) : list Z := take (Z.to_nat n) (drop (Z.to_nat offset) (m_buffer m)).

(** A read into a buffer of [size] bytes; [slave] is whether the slave still exists. *)
Definition master_read_impl (slave : bool) (size : Z) (m : master) : attempt (list Z) * master :=
  if m_buffer_size m =? 0 then (Blocked, m)
  else
    let to_copy := Z.min size (m_buffer_size m) in
    let data :=
      if m_buffer_tail m + to_copy <=? buffer_capacity m then bytes_from m (m_buffer_tail m) to_copy
      else
        let before_wrap := buffer_capacity m - m_buffer_tail m in
        bytes_from m (m_buffer_tail m) before_wrap ++ bytes_from m 0 (to_copy - before_wrap) in
    (Done data, mk_master (m_buffer m) ((m_buffer_tail m + to_copy) `mod` buffer_capacity m) (m_buffer_size m - to_copy)
      (MasterWritable :: (if slave then [SlaveUnblocked] else []) ++ master_events m)).

(** The slave as a terminal *)
Definition slave_putchar_impl (ch : Z) (d : option master) : bool * option master :=
  match d with Some m => let '(ok, m) := master_putchar ch m in (ok, Some m) | None => (false, None) end.

Definition slave_can_write_impl (d : option master) : bool :=
  match d with Some m => m_buffer_size m <? buffer_capacity m | None => false end.

#[export] Instance pseudo_terminal_slave : Terminal (option master) := {
  putchar_impl := slave_putchar_impl;
  can_write_impl := slave_can_write_impl;
  master_has_closed d := negb (bool_decide (is_Some d))
}.

Abbreviation slave := (tty (option master)).

Definition master_write_impl (alive : bool) (l : list Z) : stateful slave Z :=
  if negb alive then sfail EIO
  else let! _ := handle_input l in sret (Z.of_nat (length l)).

Definition master_on_close (alive : bool) : stateful slave unit := if alive then emit WritersUnblocked else sret tt.

(** The numbers of the slaves: a bit of a 64-bit word for each *)
Fixpoint free_slave_number (fuel : nat) (bitmap i : Z) : option Z :=
  match fuel with
  | O => None
  | S fuel => if negb (Z.land bitmap (Z.shiftl 1 i) =? 0) then free_slave_number fuel bitmap (i + 1) else Some i
  end.

Definition take_slave_number (bitmap : Z) : outcome (Z * Z) :=
  match free_slave_number 64 bitmap 0 with
  | Some i => Ok (i, Z.lor bitmap (Z.shiftl 1 i))
  | None => Err ENODEV
  end.

Definition release_slave_number (bitmap i : Z) : Z := Z.land bitmap (Z.lxor (Z.ones 64) (Z.shiftl 1 i)).

(** ** The ring of the master *)

(** The ring as a [ByteRingBuffer]: the same bytes, read without the double mapping. *)
Definition view (m : master) : ByteRingBuffer.t := ByteRingBuffer.mk (m_buffer_size m) (m_buffer_tail m) (buffer_capacity m) (m_buffer m).
Definition master_wf (m : master) : Prop := ByteRingBuffer.wf (view m).
Definition pending (m : master) : list Z := ByteRingBuffer.contents (view m).

Lemma length_pending m : master_wf m -> Z.of_nat (length (pending m)) = m_buffer_size m.
Proof. apply (ByteRingBuffer.length_contents (view m)). Qed.

Lemma master_putchar_ok ch m : master_wf m -> m_buffer_size m < buffer_capacity m ->
  exists m', master_putchar ch m = (true, m') /\ master_wf m' /\ pending m' = pending m ++ [ch] /\ buffer_capacity m' = buffer_capacity m /\ m_buffer_size m' = m_buffer_size m + 1.
Proof.
  intros Hwf Hfree. unfold master_putchar. rewrite (proj2 (Z.leb_gt _ _)) by lia. eexists. split; [done|].
  destruct (ByteRingBuffer.ring_push_ok (view m) [ch] Hwf) as (b & E & Hb & Hc & Hcap & Hsz); [unfold ByteRingBuffer.free; cbn; lia|].
  unfold ByteRingBuffer.push in E. cbn in E. rewrite (proj2 (Z.leb_le _ _)) in E by lia. cbn in E. unfold ByteRingBuffer.store in E. cbn in E.
  pose proof (ByteRingBuffer.wf_capacity _ Hwf) as Hpos. cbn in Hpos. pose proof (Z.mod_pos_bound (m_buffer_tail m + m_buffer_size m) (buffer_capacity m) Hpos).
  rewrite (proj2 (Z.ltb_lt _ _)) in E by lia. cbn in E. rewrite Z.mod_mod in E by lia.
  assert (Hview : forall ev, view (mk_master (<[Z.to_nat ((m_buffer_tail m + m_buffer_size m) `mod` buffer_capacity m):=ch]> (m_buffer m)) (m_buffer_tail m) (m_buffer_size m + 1) ev) = b).
  { intros ev. unfold view, buffer_capacity. cbn. rewrite length_insert. injection E as <-. done. }
  unfold master_wf, pending. rewrite !Hview. split_and!; [done|done| |done]. unfold buffer_capacity. cbn. by rewrite length_insert.
Qed.

(** Bytes that do not wrap around. *)
Lemma bytes_from_window m offset n : 0 <= offset -> 0 <= n -> offset + n <= buffer_capacity m -> bytes_from m offset n = ByteRingBuffer.window (view m) offset (Z.to_nat n).
Proof.
  intros Ho Hn Hb. unfold bytes_from, buffer_capacity in *. apply list_eq. intros i. unfold ByteRingBuffer.window. rewrite list_lookup_fmap.
  destruct (decide (i < Z.to_nat n)%nat) as [Hi|Hi].
  - rewrite lookup_take_lt, lookup_drop, lookup_seq_lt by lia. cbn. unfold ByteRingBuffer.byte_at. cbn. unfold buffer_capacity. rewrite Z.mod_small by lia.
    replace (Z.to_nat (offset + Z.of_nat i)) with (Z.to_nat offset + i)%nat by lia. destruct (lookup_lt_is_Some_2 (m_buffer m) (Z.to_nat offset + i)) as [x ->]; [lia|done].
  - rewrite lookup_take_ge, lookup_seq_ge by lia. done.
Qed.

Lemma master_read_ok alive size m : master_wf m -> 0 <= size -> 0 < m_buffer_size m ->
  exists m', master_read_impl alive size m = (Done (take (Z.to_nat size) (pending m)), m') /\ master_wf m' /\ pending m' = drop (Z.to_nat size) (pending m) /\ buffer_capacity m' = buffer_capacity m.
Proof.
  intros Hwf Hsz Hpos. unfold master_read_impl. rewrite (proj2 (Z.eqb_neq _ _)) by lia. set (n := Z.min size (m_buffer_size m)).
  pose proof (length_pending m Hwf) as Hl. pose proof Hwf as [Hc Hs Ht _]. cbn in Hc, Hs, Ht.
  assert (Hn : 0 <= n <= m_buffer_size m) by (unfold n; lia).
  destruct (ByteRingBuffer.ring_pop_ok (view m) n Hwf Hn) as (b & E & Hb & Hd & _ & _). unfold ByteRingBuffer.pop in E. cbn in E. rewrite (proj2 (Z.leb_le _ _)) in E by lia. injection E as E.
  assert (Etake : take (Z.to_nat size) (pending m) = ByteRingBuffer.window (view m) (m_buffer_tail m) (Z.to_nat n)).
  { transitivity (take (Z.to_nat n) (pending m)).
    - unfold n. destruct (Z.min_spec size (m_buffer_size m)) as [[_ ->]|[? ->]]; [done|]. rewrite !take_ge by lia. done.
    - unfold pending, ByteRingBuffer.contents. cbn. replace (Z.to_nat (m_buffer_size m)) with (Z.to_nat n + Z.to_nat (m_buffer_size m - n))%nat by lia.
      rewrite ByteRingBuffer.window_app, take_app_length' by (by rewrite ByteRingBuffer.length_window). done. }
  assert (Edrop : drop (Z.to_nat size) (pending m) = drop (Z.to_nat n) (pending m)).
  { unfold n. destruct (Z.min_spec size (m_buffer_size m)) as [[_ ->]|[? ->]]; [done|]. by rewrite !drop_ge by lia. }
  eexists. split; [|split_and!].
  - f_equal. f_equal. rewrite Etake. destruct (Z.leb_spec (m_buffer_tail m + n) (buffer_capacity m)); [apply bytes_from_window; lia|].
    rewrite !bytes_from_window by lia. replace (Z.to_nat n) with (Z.to_nat (buffer_capacity m - m_buffer_tail m) + Z.to_nat (n - (buffer_capacity m - m_buffer_tail m)))%nat by lia.
    rewrite ByteRingBuffer.window_app. f_equal. rewrite Z2Nat.id by lia. replace (m_buffer_tail m + (buffer_capacity m - m_buffer_tail m)) with (buffer_capacity m) by lia.
    rewrite <- (ByteRingBuffer.window_mod (view m) (buffer_capacity m)) by (cbn; lia). cbn [view ByteRingBuffer.m_capacity]. by rewrite Z.mod_same by lia.
  - unfold master_wf, view, buffer_capacity in *. cbn. rewrite E. done.
  - rewrite Edrop. unfold pending at 1. unfold view, buffer_capacity in *. cbn. by rewrite E, Hd.
  - done.
Qed.

(** ** Output of the slave *)

(** What a byte becomes on its way to the master. *)
Definition post (oflag : Z) (draw : bool) (ch : Z) : list Z :=
  if negb draw then []
  else if has_flag oflag OPOST && (has_flag oflag ONLCR && (ch =? NL)) then [CR; NL]
  else if has_flag oflag OPOST && (has_flag oflag OCRNL && (ch =? CR)) then [NL]
  else [ch].

(** The slave's modes, with its master open and the ring of [cap] bytes holding
    [l]. *)
Record pty_state (oflag : Z) (draw : bool) (cap : Z) (l : list Z) (s : slave) : Prop := {
  pty_oflag : c_oflag (m_termios s) = oflag;
  pty_draw : draw_graphics s = draw;
  pty_master : exists m, driver s = Some m /\ master_wf m /\ pending m = l /\ buffer_capacity m = cap
}.

Lemma pty_fits oflag draw cap l s : pty_state oflag draw cap l s -> Z.of_nat (length l) <= cap.
Proof.
  intros [_ _ (m & _ & Hwf & <- & <-)]. rewrite length_pending by done. pose proof (ByteRingBuffer.wf_size _ Hwf) as Hz. cbn in Hz. lia.
Qed.

Lemma output_ok oflag draw cap l s ch : pty_state oflag draw cap l s ->
  exists s', output ch s = (Ok (Z.of_nat (length l) <? cap), s') /\ pty_state oflag draw cap (if Z.of_nat (length l) <? cap then l ++ [ch] else l) s'.
Proof.
  intros [Hof Hdraw (m & Hd & Hwf & Hp & Hc)]. pose proof (length_pending m Hwf) as Hl. rewrite Hp in Hl. unfold output. rewrite Hd.
  cbn [putchar_impl pseudo_terminal_slave slave_putchar_impl]. destruct (Z.ltb_spec (Z.of_nat (length l)) cap) as [Hfree|Hfull].
  - destruct (master_putchar_ok ch m Hwf) as (m1 & -> & Hwf1 & Hp1 & Hc1 & _); [lia|]. eexists. split; [done|]. split; [done|done|]. exists m1.
    split_and!; [done|done|congruence|lia].
  - unfold master_putchar. rewrite (proj2 (Z.leb_le _ _)) by lia. eexists. split; [done|]. split; [done|done|]. by exists m.
Qed.

(** A byte that is not accepted leaves nothing in the ring, or, if it is a newline
    that becomes two bytes of which one still fits, the first of them. *)
Lemma putchar_ok oflag draw cap l s ch : pty_state oflag draw cap l s ->
  exists ok l' s', putchar ch s = (Ok ok, s') /\ pty_state oflag draw cap l' s' /\
    if ok then l' = l ++ post oflag draw ch
    else Z.of_nat (length l') = cap /\ (l' = l \/ post oflag draw ch = [CR; NL] /\ l' = l ++ [CR]).
Proof.
  intros Hs. pose proof (pty_fits _ _ _ _ _ Hs) as Hfit. unfold putchar, post, sbind at 1. cbn [sget]. rewrite (pty_oflag _ _ _ _ _ Hs), (pty_draw _ _ _ _ _ Hs).
  assert (Hone : forall c, exists ok l' s', output c s = (Ok ok, s') /\ pty_state oflag draw cap l' s' /\ if ok then l' = l ++ [c] else Z.of_nat (length l') = cap /\ l' = l).
  { intros c. destruct (output_ok _ _ _ _ _ c Hs) as (s' & E & Hs'). eexists _, _, s'. split; [done|]. split; [done|].
    destruct (Z.ltb_spec (Z.of_nat (length l)) cap); [done|]. split; [lia|done]. }
  destruct draw; cbn [negb]; [|exists true, l, s; by rewrite app_nil_r].
  destruct (has_flag oflag OPOST && (has_flag oflag ONLCR && (ch =? NL))).
  - unfold sbind. destruct (Hone CR) as ([|] & l1 & s1 & -> & Hs1 & Hl1); [|exists false, l1, s1; destruct Hl1; by auto]. subst l1. pose proof (pty_fits _ _ _ _ _ Hs1) as Hfit1.
    destruct (output_ok _ _ _ _ _ NL Hs1) as (s2 & E2 & Hs2). rewrite E2. eexists _, _, s2. split; [done|]. split; [done|].
    destruct (Z.ltb_spec (Z.of_nat (length (l ++ [CR]))) cap); [by rewrite <- app_assoc|]. split; [lia|by right].
  - destruct (has_flag oflag OPOST && (has_flag oflag OCRNL && (ch =? CR))).
    + destruct (Hone NL) as (ok & l1 & s1 & E & Hs1 & Hl1). exists ok, l1, s1. destruct ok; [done|]. destruct Hl1. by auto.
    + destruct (Hone ch) as (ok & l1 & s1 & E & Hs1 & Hl1). exists ok, l1, s1. destruct ok; [done|]. destruct Hl1. by auto.
Qed.

(** The bytes [out] that the first [n] bytes of [l] add to the ring: each one
    translated, and possibly the first half of a newline that was not accepted. *)
Definition emits (oflag : Z) (draw : bool) (l : list Z) (n : Z) (out : list Z) : Prop :=
  let accepted := concat (map (post oflag draw) (take (Z.to_nat n) l)) in
  0 <= n <= Z.of_nat (length l) /\
  (out = accepted \/ out = accepted ++ [CR] /\ exists ch, l !! Z.to_nat n = Some ch /\ post oflag draw ch = [CR; NL]).

Lemma write_loop_ok oflag draw cap data : forall l s written, pty_state oflag draw cap l s ->
  exists n out s', write_loop data written s = (Ok (written + n), s') /\ pty_state oflag draw cap (l ++ out) s' /\ emits oflag draw data n out /\
    (n < Z.of_nat (length data) -> Z.of_nat (length (l ++ out)) = cap).
Proof.
  induction data as [|ch data IH]; intros l s written Hs; cbn [write_loop].
  { exists 0, [], s. rewrite app_nil_r, Z.add_0_r. split_and!; [done|done|split; [cbn; lia|by left]|cbn; lia]. }
  destruct (putchar_ok _ _ _ _ _ ch Hs) as (ok & l1 & s1 & E & Hs1 & Hl1). unfold sbind. rewrite E. destruct ok.
  - subst l1. destruct (IH _ s1 (written + 1) Hs1) as (n & out & s' & E' & Hs' & [Hn Hout] & Hfull). exists (1 + n), (post oflag draw ch ++ out), s'.
    rewrite E', app_assoc. rewrite length_cons. split_and!; [do 2 f_equal; lia|done| |intros ?; apply Hfull; lia].
    split; [rewrite length_cons; lia|]. replace (Z.to_nat (1 + n)) with (S (Z.to_nat n)) by lia. cbn [take map concat lookup list_lookup]. rewrite <- app_assoc.
    destruct Hout as [->|[-> Hch]]; [by left|by right].
  - destruct Hl1 as [Hlen Hl1]. exists 0, (drop (length l) l1), s1. rewrite Z.add_0_r.
    assert (El : l ++ drop (length l) l1 = l1) by (destruct Hl1 as [->|[_ ->]]; [by rewrite drop_all, app_nil_r|by rewrite drop_app_length]).
    rewrite El. split_and!; [done|done| |done]. split; [cbn; lia|]. cbn. destruct Hl1 as [->|[Hp ->]]; [left; by rewrite drop_all|right]. rewrite drop_app_length.
    split; [done|]. by exists ch.
Qed.

(** Programs at both ends: one writes to the slave, the other reads the master. *)
Inductive pty_op : Type := SlaveWrite (l : list Z) | MasterRead (size : Z).

Definition pty_op_ok (o : pty_op) : Prop := match o with SlaveWrite _ => True | MasterRead size => 0 <= size end.

(** What the operations report: how many bytes of a write were accepted, and what
    was read. *)
Inductive pty_report : Type := Written (l : list Z) (n : Z) | WriteBlocked | Read (size : Z) (data : list Z) | ReadBlocked.

Definition perform_pty (o : pty_op) : stateful slave pty_report :=
  match o with
  | SlaveWrite l => let! r := write_impl l in sret (match r with Done n => Written l n | Blocked => WriteBlocked end)
  | MasterRead size =>
      let! s := sget in
      match driver s with
      | Some m => let '(r, m) := master_read_impl true size m in let! _ := modify (set_driver (Some m)) in sret (match r with Done l => Read size l | Blocked => ReadBlocked end)
      | None => sret ReadBlocked
      end
  end.

Fixpoint run_pty (ops : list pty_op) : stateful slave (list pty_report) :=
  match ops with
  | [] => sret []
  | o :: ops => let! first := perform_pty o in let! rest := run_pty ops in sret (first :: rest)
  end.

(** A queue of [cap] bytes behind the translation. *)
Inductive queue_step (oflag : Z) (draw : bool) (cap : Z) : list Z -> pty_report -> list Z -> Prop :=
| queue_write q l n out : Z.of_nat (length q) < cap -> emits oflag draw l n out -> (n < Z.of_nat (length l) -> Z.of_nat (length (q ++ out)) = cap) ->
    queue_step oflag draw cap q (Written l n) (q ++ out)
| queue_full q : Z.of_nat (length q) = cap -> queue_step oflag draw cap q WriteBlocked q
| queue_read q size : q <> [] -> queue_step oflag draw cap q (Read size (take (Z.to_nat size) q)) (drop (Z.to_nat size) q)
| queue_empty : queue_step oflag draw cap [] ReadBlocked [].

Inductive queue_run (oflag : Z) (draw : bool) (cap : Z) : list Z -> list pty_report -> list Z -> Prop :=
| queue_nil q : queue_run oflag draw cap q [] q
| queue_cons q r q' rs q'' : queue_step oflag draw cap q r q' -> queue_run oflag draw cap q' rs q'' -> queue_run oflag draw cap q (r :: rs) q''.

Lemma slave_write_ok oflag draw cap l s data : pty_state oflag draw cap l s ->
  exists r l' s', perform_pty (SlaveWrite data) s = (Ok r, s') /\ pty_state oflag draw cap l' s' /\ queue_step oflag draw cap l r l' /\
    (r = WriteBlocked \/ exists n, r = Written data n).
Proof.
  intros Hs. pose proof (pty_fits _ _ _ _ _ Hs) as Hfit. pose proof Hs as [_ _ (m & Hd & Hwf & Hp & Hc)]. pose proof (length_pending m Hwf) as Hl. rewrite Hp in Hl.
  cbn [perform_pty]. unfold write_impl, sbind. cbn [sget]. rewrite Hd. cbn [can_write_impl pseudo_terminal_slave slave_can_write_impl].
  destruct (Z.ltb_spec (m_buffer_size m) (buffer_capacity m)) as [Hfree|Hfull]; cbn [negb].
  - destruct (write_loop_ok _ _ _ data _ s 0 Hs) as (n & out & s' & -> & Hs' & Hem & Hn). cbn [emit modify sget Z.add].
    pose proof Hs' as [H1 H2 (m' & Hd' & Hm')]. cbn [driver add_event]. rewrite Hd'. destruct (slave_can_write_impl (Some m')).
    all: eexists _, (l ++ out), _; split; [done|]; split; [|split; [by constructor; [lia|done|done]|right; by eexists]]; split; [done|done|]; by exists m'.
  - cbn. eexists _, l, s. split; [done|]. split; [done|]. split; [constructor; lia|by left].
Qed.

Lemma master_read_step oflag draw cap l s size : pty_state oflag draw cap l s -> 0 <= size ->
  exists r l' s', perform_pty (MasterRead size) s = (Ok r, s') /\ pty_state oflag draw cap l' s' /\ queue_step oflag draw cap l r l'.
Proof.
  intros [Hof Hdraw (m & Hd & Hwf & Hp & Hc)] Hsz. pose proof (length_pending m Hwf) as Hl. pose proof (ByteRingBuffer.wf_size _ Hwf) as Hz. cbn in Hz.
  cbn [perform_pty]. unfold sbind. cbn [sget]. rewrite Hd. destruct (decide (m_buffer_size m = 0)) as [E0|E0].
  - assert (l = []) as -> by (rewrite <- Hp; apply length_zero_iff_nil; lia). unfold master_read_impl. rewrite (proj2 (Z.eqb_eq _ _)) by done. cbn.
    eexists _, [], _. split; [done|]. split; [|by constructor]. split; [done|done|]. by exists m.
  - destruct (master_read_ok true size m Hwf Hsz ltac:(lia)) as (m' & -> & H1 & H2 & H3). cbn. rewrite Hp in *. eexists _, (drop (Z.to_nat size) l), _. split; [done|].
    split; [split; [done|done|]; exists m'; split_and!; [done|done|done|lia]|]. constructor. intros ->. cbn in Hl. lia.
Qed.

Lemma run_pty_ok oflag draw cap ops : Forall pty_op_ok ops -> forall l s, pty_state oflag draw cap l s ->
  exists rs l' s', run_pty ops s = (Ok rs, s') /\ pty_state oflag draw cap l' s' /\ queue_run oflag draw cap l rs l'.
Proof.
  induction 1 as [|o ops Ho Hops IH]; intros l s Hs; cbn [run_pty].
  { exists [], l, s. split_and!; [done|done|constructor]. }
  assert (exists r l1 s1, perform_pty o s = (Ok r, s1) /\ pty_state oflag draw cap l1 s1 /\ queue_step oflag draw cap l r l1) as (r & l1 & s1 & E1 & Hs1 & Hq1)
    by (destruct o as [data|size]; [destruct (slave_write_ok _ _ _ _ _ data Hs) as (r & l1 & s1 & H1 & H2 & H3 & _); by exists r, l1, s1|by apply master_read_step]).
  destruct (IH l1 s1 Hs1) as (rs & l2 & s2 & E2 & Hs2 & Hq2). unfold sbind. rewrite E1, E2. exists (r :: rs), l2, s2. split_and!; [done|done|by econstructor].
Qed.

(** The bytes read, and bytes that the accepted writes may have emitted. *)
Definition read_of (r : pty_report) : list Z := match r with Read _ data => data | _ => [] end.

Definition emitted (oflag : Z) (draw : bool) (r : pty_report) (out : list Z) : Prop :=
  match r with Written l n => emits oflag draw l n out | _ => out = [] end.

Lemma queue_run_stream oflag draw cap q rs q' : queue_run oflag draw cap q rs q' ->
  exists outs, Forall2 (emitted oflag draw) rs outs /\ q ++ concat outs = concat (map read_of rs) ++ q'.
Proof.
  induction 1 as [q|q r q1 rs q2 Hstep Hrun (outs & Houts & Hq)]; [exists []; split; [constructor|by rewrite app_nil_r]|].
  destruct Hstep as [q l n out Hlen Hem Hfull|q Hlen|q size Hne|].
  - exists (out :: outs). split; [by constructor|]. cbn. by rewrite app_assoc.
  - exists ([] :: outs). split; [by constructor|]. cbn. done.
  - exists ([] :: outs). split; [by constructor|]. cbn. rewrite <- app_assoc, <- Hq, app_assoc. by rewrite take_drop.
  - exists ([] :: outs). split; [by constructor|]. cbn. done.
Qed.

(** ** Slave numbers *)
Lemma slave_bit bitmap i : 0 <= i -> (Z.land bitmap (Z.shiftl 1 i) =? 0) = negb (Z.testbit bitmap i).
Proof.
  intros Hi. destruct (Z.testbit bitmap i) eqn:E; cbn.
  - apply Z.eqb_neq. intros H. apply (f_equal (fun z => Z.testbit z i)) in H. rewrite Z.land_spec, E, Z.bits_0, Z.shiftl_spec, Z.sub_diag in H by lia. done.
  - apply Z.eqb_eq. apply Z.bits_inj'. intros j Hj. rewrite Z.land_spec, Z.bits_0, Z.shiftl_spec by lia. destruct (decide (j = i)) as [->|Hne]; [by rewrite E|].
    apply andb_false_iff. right. destruct (decide (j < i)); [by apply Z.testbit_neg_r; lia|]. change 1 with (2 ^ 0). by rewrite Z.pow2_bits_false by lia.
Qed.

Lemma free_slave_number_spec fuel bitmap : forall i, 0 <= i ->
  match free_slave_number fuel bitmap i with
  | Some j => i <= j < i + Z.of_nat fuel /\ Z.testbit bitmap j = false /\ (forall k, i <= k < j -> Z.testbit bitmap k = true)
  | None => forall k, i <= k < i + Z.of_nat fuel -> Z.testbit bitmap k = true
  end.
Proof.
  induction fuel as [|fuel IH]; intros i Hi; cbn [free_slave_number]; [lia|]. rewrite slave_bit by done. destruct (Z.testbit bitmap i) eqn:E; cbn [negb].
  - specialize (IH (i + 1) ltac:(lia)). destruct (free_slave_number fuel bitmap (i + 1)) as [j|].
    + destruct IH as (H1 & H2 & H3). split_and!; [lia|lia|done|]. intros k Hk. destruct (decide (k = i)) as [->|]; [done|]. apply H3. lia.
    + intros k Hk. destruct (decide (k = i)) as [->|]; [done|]. apply IH. lia.
  - split_and!; [lia|lia|done|lia].
Qed.

(** ** Theorems *)

(** C34: While the master is open, the output of a slave is a reliable stream.
    However writes to the slave and reads of the master follow each other,
    whatever the output modes, and wherever the ring wraps around, no operation
    fails and the ring behaves like a queue of [cap] bytes: a write puts its bytes,
    each translated by the output modes (newline to carriage return and newline,
    carriage return to newline, nothing while output is disabled), accepts fewer
    than all only when the ring is full then, and blocks only when it is full
    before; a read takes the oldest bytes.  So what is read, followed by what is
    still in the ring, is what was there at first followed by what was emitted,
    in order: the translated bytes of the accepted part of every write, with one
    exception, a carriage return that was put for a newline whose own byte did not
    fit any more and which is not accepted. *)
Theorem pty_output_is_fifo (oflag : Z) (draw : bool) (cap : Z) (l : list Z) (s : slave) (ops : list pty_op)
  (Hs : pty_state oflag draw cap l s) (Hops : Forall pty_op_ok ops) :
  exists rs s' m', run_pty ops s = (Ok rs, s') /\ driver s' = Some m' /\ Z.of_nat (length (pending m')) <= cap /\
    queue_run oflag draw cap l rs (pending m') /\
    exists outs, Forall2 (emitted oflag draw) rs outs /\ l ++ concat outs = concat (map read_of rs) ++ pending m'.
Proof.
  destruct (run_pty_ok oflag draw cap ops Hops l s Hs) as (rs & l' & s' & E & Hs' & Hq). pose proof (pty_fits _ _ _ _ _ Hs').
  destruct Hs' as [_ _ (m' & Hd & Hwf & Hp & Hc)]. exists rs, s', m'. rewrite Hp. split_and!; [done|done|done|done|]. by apply (queue_run_stream oflag draw cap).
Qed.

(** The exception: with one byte left in the ring, a newline is not accepted but its
    carriage return is in the ring, and is there twice when the write is repeated. *)
Theorem carriage_return_repeated (oflag cap : Z) (l : list Z) (s : slave) (Hs : pty_state oflag true cap l s)
  (Hpost : post oflag true NL = [CR; NL]) (Hlen : Z.of_nat (length l) = cap - 1) :
  exists s', perform_pty (SlaveWrite [NL]) s = (Ok (Written [NL] 0), s') /\ pty_state oflag true cap (l ++ [CR]) s'.
Proof.
  destruct (slave_write_ok oflag true cap l s [NL] Hs) as (r & l' & s' & E & Hs' & Hq & Hr). exists s'. rewrite E. pose proof (pty_fits _ _ _ _ _ Hs') as Hfit.
  destruct Hr as [->|[n ->]]; inversion Hq as [? ? ? out H1 [Hn Hout] H3|? H1|? ? H1|]; subst; [lia|]. rewrite length_app in *. cbn [length] in *.
  assert (n = 0 \/ n = 1) as [->| ->] by lia; [change (Z.to_nat 0) with 0%nat in Hout|change (Z.to_nat 1) with 1%nat in Hout]; cbn [take map concat] in Hout; rewrite ?Hpost in Hout.
  - destruct Hout as [->|[-> _]]; [|done]. cbn in H3. specialize (H3 ltac:(lia)). lia.
  - destruct Hout as [E1|[E1 _]]; apply (f_equal length) in E1; rewrite ?length_app in E1; cbn [length] in E1; lia.
Qed.

(** A slave gets the least number that is free, which is given back when it is
    destroyed; ENODEV means that all 64 are in use. *)
Theorem slave_numbers_unique (bitmap : Z) (Hb : 0 <= bitmap < 2 ^ 64) :
  match take_slave_number bitmap with
  | Ok (i, bitmap') => 0 <= i < 64 /\ Z.testbit bitmap i = false /\ (forall k, 0 <= k < i -> Z.testbit bitmap k = true) /\
      (forall k, 0 <= k -> Z.testbit bitmap' k = Z.testbit bitmap k || (k =? i)) /\ release_slave_number bitmap' i = bitmap
  | Err e => e = ENODEV /\ forall k, 0 <= k < 64 -> Z.testbit bitmap k = true
  | Panic => False
  end.
Proof.
  pose proof (free_slave_number_spec 64 bitmap 0 ltac:(lia)) as Hf. unfold take_slave_number. destruct (free_slave_number 64 bitmap 0) as [i|]; [|by split].
  destruct Hf as (Hi & Hfree & Hless). cbn in Hi.
  assert (Hone : forall k, 0 <= k -> Z.testbit (Z.shiftl 1 i) k = (k =? i)).
  { intros k Hk. rewrite Z.shiftl_1_l, Z.pow2_bits_eqb by lia. apply Z.eqb_sym. }
  split_and!; [lia|lia|done|done| |].
  - intros k Hk. by rewrite Z.lor_spec, Hone.
  - unfold release_slave_number. apply Z.bits_inj'. intros k Hk. rewrite Z.land_spec, Z.lor_spec, Z.lxor_spec, Hone, Z.testbit_ones_nonneg by lia.
    destruct (Z.eqb_spec k i) as [->|Hne]; [rewrite Hfree, (proj2 (Z.ltb_lt _ _)) by lia; done|]. rewrite orb_false_r, xorb_false_r. destruct (Z.ltb_spec k 64); [by rewrite andb_true_r|].
    rewrite andb_false_r. symmetry. rewrite <- (Z.mod_small bitmap (2 ^ 64)) by done. apply Z.mod_pow2_bits_high. lia.
Qed.

(** ** Examples *)

(** A new pseudoterminal, with small buffers that are about to wrap around. *)
Definition sample_slave : slave :=
  mk_tty pts_termios true true 5 (ByteRingBuffer.mk 0 6 8 (replicate 8 0)) false (Some (mk_master (replicate 4 0) 3 0 [])) [].

Lemma sample_input : input_is pts_termios 8 [] false sample_slave.
Proof. by repeat split. Qed.

(** The letter a, an e with an accent that is erased, another letter, Enter. *)
Lemma typed_line_is_read_witness :
  exists s1 s2, handle_input [97; 195; 169; 8; 98; 13] sample_slave = (Ok tt, s1) /\
    read_impl 3 s1 = (Ok (Done [97; 98; 10]), s2) /\ input_is pts_termios 8 [] false s2.
Proof.
  assert (Hkeys : Forall key_ok [Char [97]; Char [195; 169]; Erase; Char [98]]).
  { constructor; [split; [by exists 97, []|by repeat constructor]|]. constructor; [split; [exists 195, [169]; by repeat constructor|by repeat constructor]|].
    constructor; [done|]. constructor; [|done]. split; [by exists 98, []|by repeat constructor]. }
  apply (typed_line_is_read sample_slave 8 false [Char [97]; Char [195; 169]; Erase; Char [98]] 3 sample_input Hkeys); [done|vm_compute; discriminate|vm_compute; discriminate].
Defined.

(** A slave that translates newlines, with one byte left in the ring of the
    master. *)
Definition onlcr_slave : slave :=
  mk_tty (mk_termios ICRNL (OPOST + ONLCR) (ECHO + ICANON) TTY_DEFAULT_TERMIOS_CC) true true 5 (ByteRingBuffer.mk 0 6 8 (replicate 8 0)) false
    (Some (mk_master [65; 66; 0; 67] 3 3 [])) [].

Lemma onlcr_state : pty_state (OPOST + ONLCR) true 4 [67; 65; 66] onlcr_slave.
Proof. split; [done|done|]. exists (mk_master [65; 66; 0; 67] 3 3 []). by repeat split. Qed.

Lemma pty_output_is_fifo_witness :
  exists rs s' m', run_pty [SlaveWrite [NL]; MasterRead 2; SlaveWrite [NL; 68]; MasterRead 3] onlcr_slave = (Ok rs, s') /\
    driver s' = Some m' /\ Z.of_nat (length (pending m')) <= 4 /\ queue_run (OPOST + ONLCR) true 4 [67; 65; 66] rs (pending m') /\
    exists outs, Forall2 (emitted (OPOST + ONLCR) true) rs outs /\ [67; 65; 66] ++ concat outs = concat (map read_of rs) ++ pending m'.
Proof.
  apply (pty_output_is_fifo (OPOST + ONLCR) true 4 [67; 65; 66] onlcr_slave); [apply onlcr_state|repeat constructor; cbn; lia].
Defined.

Lemma carriage_return_repeated_witness :
  exists s', perform_pty (SlaveWrite [NL]) onlcr_slave = (Ok (Written [NL] 0), s') /\ pty_state (OPOST + ONLCR) true 4 [67; 65; 66; CR] s'.
Proof. apply (carriage_return_repeated (OPOST + ONLCR) 4 [67; 65; 66] onlcr_slave onlcr_state); done. Defined.

Lemma slave_numbers_unique_witness : release_slave_number 7 2 = 3.
Proof. destruct (slave_numbers_unique 3 ltac:(lia)) as (_ & _ & _ & _ & H). exact H. Defined.

(** C40: The erase character at a slave in canonical mode with ECHOE, as the
    master types it (a character, not the one that disables, that the input modes
    turn into VERASE and that is not a signal character as well): if the input buffer is not empty and holds nothing but bytes
    that continue a character in UTF-8, the kernel stops, because [do_backspace]
    removes such bytes until the buffer is empty and then asks for the last byte;
    otherwise the write succeeds.  Any program that may open a pseudoterminal can
    write the bytes to it. *)
Theorem stray_byte_panics (t : termios) (cap : Z) (l : list Z) (f : bool) (s : slave) (ch : Z)
  (Hs : input_is t cap l f s) (Hch : ch <> _POSIX_VDISABLE) (Herase : translate_input t ch = Some (cc t VERASE))
  (Hsig : has_flag (c_lflag t) ISIG = true -> input_signal t (cc t VERASE) = None)
  (Hcanon : has_flag (c_lflag t) ICANON = true) (Hechoe : has_flag (c_lflag t) ECHOE = true) :
  (l <> [] /\ Forall (fun b => continuation b = true) l -> fst (master_write_impl true [ch] s) = Panic) /\
  (~ (l <> [] /\ Forall (fun b => continuation b = true) l) -> fst (master_write_impl true [ch] s) = Ok 1).
Proof.
  assert (Ebyte : handle_input_byte ch s = do_backspace s).
  { unfold handle_input_byte, sbind. rewrite (proj2 (Z.eqb_neq ch _)) by done. cbn [sget]. rewrite (in_termios _ _ _ _ _ Hs), Herase, Hcanon, Hechoe, Z.eqb_refl.
    destruct (has_flag (c_lflag t) ISIG); [by rewrite Hsig|done]. }
  assert (Ewrite : fst (master_write_impl true [ch] s) = match fst (do_backspace s) with Ok _ => Ok 1 | Err e => Err e | Panic => Panic end).
  { unfold master_write_impl. cbn [negb handle_input]. unfold sbind. rewrite Ebyte. by destruct (do_backspace s) as [[[]|e|] s']. }
  destruct (backspace_result t cap l f s Hs) as [Hp Ho]. rewrite Ewrite. split; intros Hl; [by rewrite Hp|by rewrite Ho].
Qed.

(** The slave after the byte 0x80. *)
Lemma stray_byte_panics_witness :
  fst (master_write_impl true [8] (snd (master_write_impl true [0x80] sample_slave))) = Panic /\ fst (master_write_impl true [8] sample_slave) = Ok 1.
Proof.
  split.
  - apply (stray_byte_panics pts_termios 8 [0x80] false); [split; (vm_compute; reflexivity) || (split; vm_compute; (split; discriminate) || done)|done..|by repeat constructor].
  - apply (stray_byte_panics pts_termios 8 [] false); [apply sample_input|done..|by intros [? _]].
Defined.

(** A line that has been entered can still be edited: the erase character removes its
    newline if it comes before the line is read, and the next line is joined to it. *)
Theorem erase_joins_lines :
  exists s1 s2, master_write_impl true [97; 13; 8; 98; 13] sample_slave = (Ok 5, s1) /\ read_impl 8 s1 = (Ok (Done [97; 98; 10]), s2).
Proof. eexists _, _. split; vm_compute; reflexivity. Qed.

(** A line that has not been entered can be read: reading the line before it leaves
    the terminal readable, because the buffer is not empty. *)
Theorem partial_line_is_read :
  exists s1 s2 s3, master_write_impl true [97; 13; 98] sample_slave = (Ok 3, s1) /\
    read_impl 8 s1 = (Ok (Done [97; 10]), s2) /\ read_impl 8 s2 = (Ok (Done [98]), s3).
Proof. eexists _, _, _. split_and!; vm_compute; reflexivity. Qed.

(** What does not fit into the buffer is lost, although the master is told that all of
    it was written. *)
Theorem typed_bytes_lost :
  exists s1 s2, master_write_impl true [49; 50; 51; 52; 53; 54; 55; 56; 57; 13] sample_slave = (Ok 10, s1) /\
    read_impl 16 s1 = (Ok (Done [49; 50; 51; 52; 53; 54; 55; 56]), s2).
Proof. eexists _, _. split; vm_compute; reflexivity. Qed.
