(* ===== verification/StatefulLogic.v ===== *)
(** * A total program logic for stateful code

    [wp m Q s] says that [m], started in [s], stops with an outcome and a state
    that satisfy [Q].  [sound I m] says that [m] preserves [I] and fails no
    assertion, on success and on errors. *)
From S2P Require Import Prelude.

Definition wp {S A} (m : stateful S A) (Q : outcome A -> S -> Prop) (s : S) : Prop := Q (m s).1 (m s).2.

(** The postcondition of a call that may fail with an error, not with a panic. *)
Definition without_panic {S A} (I : S -> Prop) (r : outcome A) (s : S) : Prop := r <> Panic /\ I s.

Definition sound {S A} (I : S -> Prop) (m : stateful S A) : Prop := forall s, I s -> wp m (without_panic I) s.

Section rules.
Context {S : Type}.
Implicit Types s : S.

Lemma wp_run {A} (m : stateful S A) Q s r s' : m s = (r, s') -> Q r s' -> wp m Q s.
Proof. unfold wp. by intros ->. Qed.

Lemma wp_conseq {A} (m : stateful S A) (P Q : outcome A -> S -> Prop) s : wp m P s -> (forall r s', P r s' -> Q r s') -> wp m Q s.
Proof. unfold wp. eauto. Qed.

Lemma wp_sbind {A B} (m : stateful S A) (k : A -> stateful S B) Q s :
  wp m (fun r s' => match r with Ok a => wp (k a) Q s' | Err e => Q (Err e) s' | Panic => Q Panic s' end) s -> wp (sbind m k) Q s.
Proof. unfold wp, sbind. destruct (m s) as [[a|e|] s']; done. Qed.

Lemma wp_sret {A} (a : A) Q s : Q (Ok a) s -> wp (sret a) Q s.
Proof. done. Qed.

Lemma wp_fail {A} e (Q : outcome A -> S -> Prop) s : Q (Err e) s -> wp (sfail e) Q s.
Proof. done. Qed.

Lemma sound_ret {A} I (a : A) : sound (S:=S) I (sret a).
Proof. by intros s Hs. Qed.

Lemma sound_fail {A} I e : sound (S:=S) I (sfail (A:=A) e).
Proof. by intros s Hs. Qed.

Lemma sound_lift {A} I (o : outcome A) : o <> Panic -> sound (S:=S) I (slift o).
Proof. by intros Ho s Hs. Qed.

Lemma sound_bind {A B} I (m : stateful S A) (k : A -> stateful S B) : sound I m -> (forall a, sound I (k a)) -> sound I (sbind m k).
Proof. intros Hm Hk s Hs. apply wp_sbind. eapply wp_conseq; [by apply Hm|]. intros [a|e|] s' [Hr Hs']; [by apply Hk|done|done]. Qed.

Lemma sound_get {A} I (k : S -> stateful S A) : (forall s0, I s0 -> wp (k s0) (without_panic I) s0) -> sound I (let! s0 := sget in k s0).
Proof. intros Hk s Hs. apply wp_sbind. by apply Hk. Qed.

Lemma sound_wp {A} I (m : stateful S A) s : sound I m -> I s -> wp m (without_panic I) s.
Proof. intros Hm. apply Hm. Qed.
End rules.

Create HintDb sound.
#[export] Hint Resolve sound_ret sound_fail sound_bind : sound.
