(* ===== verification/RecordLocks.v ===== *)
(** * kernel/OpenFileDescriptorSet: record locks

    [fcntl] locks ranges of a file for a process.  The locks of all files are in
    one table under one mutex; an operation that has to wait releases the mutex
    and tries again, so it is one attempt.  A range of length 0 extends to the
    end of the file, however far it grows. *)
From stdpp Require Import functions.
From S2P Require Import Prelude BanMath RingBuffer Pipe.

(** ** Definitions *)
Record flock : Type := mk_flock { l_type : Z; l_whence : Z; l_start : Z; l_len : Z; l_pid : Z }.

#[export] Instance flock_eq_dec : EqDecision flock.
Proof. solve_decision. Defined.

Definition with_range (start len : Z) (l : flock) : flock := mk_flock (l_type l) (l_whence l) start len (l_pid l).
Definition with_type (type : Z) (l : flock) : flock := mk_flock type (l_whence l) (l_start l) (l_len l) (l_pid l).

Definition F_GETLK : Z := 7.
Definition F_SETLK : Z := 8.
Definition F_SETLKW : Z := 9.
Definition F_RDLCK : Z := 1.
Definition F_UNLCK : Z := 2.
Definition F_WRLCK : Z := 3.

(** The table, and how often the threads that wait for a lock were woken. *)
Record lock_table : Type := mk_locks { s_fcntl_locks : Z -> option (list flock); wakeups : nat }.

Definition set_locks (inode : Z) (v : option (list flock)) (t : lock_table) : lock_table := mk_locks (<[inode := v]> (s_fcntl_locks t)) (wakeups t).
Definition wake (t : lock_table) : lock_table := mk_locks (s_fcntl_locks t) (S (wakeups t)).

Definition locks_overlap (a b : flock) : bool :=
  if (l_len a =? 0) && (l_len b =? 0) then true
  else if (l_len a =? 0) && (l_start a <? l_start b + l_len b) then true
  else if (l_len b =? 0) && (l_start b <? l_start a + l_len a) then true
  else if l_start a + l_len a <=? l_start b then false
  else if l_start b + l_len b <=? l_start a then false
  else true.

Definition prevents (f lock : flock) : bool :=
  negb (l_pid lock =? l_pid f) && locks_overlap lock f && negb ((l_type lock =? F_RDLCK) && (l_type f =? F_RDLCK)).

Definition lock_preventer (f : flock) (locks : list flock) : option flock := List.find (prevents f) locks.

(** What is put in the place of the lock [l] when [f] is unlocked. *)
Definition new_flocks (size : Z) (f l : flock) : list flock :=
  let first :=
    if l_start l <? l_start f then
      let flock_len := if l_len l =? 0 then size else l_len l in
      [with_range (l_start f) (l_start l + flock_len - l_start f) f]
    else [] in
  let second :=
    if l_len f =? 0 then []
    else if l_len l =? 0 then [with_range (l_start f + l_len f) 0 f]
    else if l_start f + l_len f <? l_start l + l_len l then [with_range (l_start f + l_len f) (l_start l + l_len l - (l_start f + l_len f)) f]
    else [] in
  first ++ second.

(** The loop over the locks from the index [i]; [inserted] tells whether the
    vector could grow there.  The result is false if it could not. *)
Fixpoint unlock_loop (inserted : nat -> bool) (size : Z) (f : flock) (flocks : list flock) (i : nat) : list flock * bool :=
  match flocks with
  | [] => ([], true)
  | l :: rest =>
      let skip (new : list flock) := let '(rest', ok) := unlock_loop inserted size f rest (i + length new) in (new ++ rest', ok) in
      if negb (l_pid l =? l_pid f) then skip [l]
      else if negb (locks_overlap l f) then skip [l]
      else match new_flocks size f l with
           | [n1; n2] => if inserted i then skip [n1; n2] else (l :: rest, false)
           | new => skip new
           end
  end.

Section lock.
Context (inserted : nat -> bool) (emplaced pushed : bool) (is_reg : bool) (size : Z).

Definition unlock_range (inode : Z) (f : flock) : stateful lock_table unit := fun t =>
  match s_fcntl_locks t inode with
  | None => (Ok tt, t)
  | Some flocks =>
      let '(flocks, ok) := unlock_loop inserted size f flocks 0 in
      let t := set_locks inode (Some flocks) t in
      if negb ok then (Err ENOMEM, t)
      else (Ok tt, wake (if bool_decide (flocks = []) then set_locks inode None t else t))
  end.

(** One turn of the loop that takes a lock. *)
Definition lock_range (inode cmd : Z) (f : flock) : stateful lock_table (attempt unit) :=
  let! t := sget in
  let! flocks := match s_fcntl_locks t inode with
                 | Some flocks => sret flocks
                 | None => if emplaced then let! _ := sput (set_locks inode (Some []) t) in sret [] else sfail ENOMEM
                 end in
  match lock_preventer f flocks with
  | None =>
      if pushed then let! t := sget in let! _ := sput (set_locks inode (Some (flocks ++ [f])) t) in sret (Done tt)
      else sfail ENOMEM
  | Some _ => if cmd =? F_SETLK then sfail EAGAIN else sret Blocked
  end.

(** [fcntl_lock]; the result is the lock as the caller gets it back. *)
Definition fcntl_lock (inode cmd : Z) (f : flock) : stateful lock_table (attempt flock) :=
  if negb is_reg then sfail EINVAL
  else if cmd =? F_GETLK then
    let! t := sget in
    sret (Done (match s_fcntl_locks t inode with
                | None => with_type F_UNLCK f
                | Some flocks => match lock_preventer f flocks with Some preventer => preventer | None => with_type F_UNLCK f end
                end))
  else if (cmd =? F_SETLK) || (cmd =? F_SETLKW) then
    if l_type f =? F_UNLCK then let! _ := unlock_range inode f in sret (Done f)
    else let! r := lock_range inode cmd f in sret (match r with Done _ => Done f | Blocked => Blocked end)
  else slift Panic.
End lock.

(** What [close] does to the locks of a process on a file. *)
Definition close_locks (inode pid : Z) (t : lock_table) : lock_table :=
  match s_fcntl_locks t inode with
  | None => t
  | Some flocks => wake (set_locks inode (Some (filter (fun l => l_pid l <> pid) flocks)) t)
  end.

(** ** Ranges as sets of bytes *)
Definition covers (l : flock) (x : Z) : Prop := l_start l <= x /\ (l_len l = 0 \/ x < l_start l + l_len l).

Lemma locks_overlap_spec a b : 0 <= l_len a -> 0 <= l_len b -> locks_overlap a b = true <-> exists x, covers a x /\ covers b x.
Proof.
  intros Ha Hb. unfold locks_overlap, covers. split.
  - intros H. exists (Z.max (l_start a) (l_start b)). repeat case_match; zify_bool; lia.
  - intros (x & Hx). repeat case_match; zify_bool; lia.
Qed.

(** Locks of different processes share a byte only if both are for reading. *)
Definition compatible (ls : list flock) : Prop :=
  forall l1 l2 x, l1 ∈ ls -> l2 ∈ ls -> l_pid l1 <> l_pid l2 -> covers l1 x -> covers l2 x -> l_type l1 = F_RDLCK /\ l_type l2 = F_RDLCK.

Definition ranges_ok (ls : list flock) : Prop := forall l, l ∈ ls -> 0 <= l_len l.

Definition locks_of (t : lock_table) (inode : Z) : list flock := default [] (s_fcntl_locks t inode).

Lemma lock_preventer_none f ls : ranges_ok ls -> 0 <= l_len f -> lock_preventer f ls = None <->
  (forall l x, l ∈ ls -> l_pid l <> l_pid f -> covers l x -> covers f x -> l_type l = F_RDLCK /\ l_type f = F_RDLCK).
Proof.
  intros Hr Hf. unfold lock_preventer. split.
  - intros Hn l x Hl Hp Hx Hfx. pose proof (List.find_none _ _ Hn l (proj1 (list_elem_of_In _ _) Hl)) as Hno. unfold prevents in Hno.
    rewrite (proj2 (locks_overlap_spec l f (Hr l ltac:(done)) Hf)) in Hno by (by exists x). zify_bool. lia.
  - intros Hall. destruct (List.find (prevents f) ls) as [l|] eqn:E; [|done]. apply List.find_some in E as [Hl%list_elem_of_In Hp]. unfold prevents in Hp. zify_bool.
    destruct Hp as [[Hp Ho] Ht]. apply locks_overlap_spec in Ho as (x & Hx & Hfx); [|by apply Hr|done]. destruct (Hall l x Hl Hp Hx Hfx). lia.
Qed.

(** ** What the operations do *)

(** Unlocking [f] takes no part of a lock of its process away. *)
Definition whole (f : flock) (ls : list flock) : Prop :=
  forall l, l ∈ ls -> l_pid l = l_pid f -> locks_overlap l f = true -> l_start f <= l_start l /\ (l_len f = 0 \/ l_len l <> 0 /\ l_start l + l_len l <= l_start f + l_len f).

Lemma whole_new_flocks size f l : l_start f <= l_start l -> l_len f = 0 \/ l_len l <> 0 /\ l_start l + l_len l <= l_start f + l_len f -> new_flocks size f l = [].
Proof. intros H1 H2. unfold new_flocks. repeat case_match; zify_bool; try done; lia. Qed.

Lemma unlock_loop_whole inserted size f ls : whole f ls -> forall i,
  unlock_loop inserted size f ls i = (filter (fun l => ~ (l_pid l = l_pid f /\ locks_overlap l f = true)) ls, true).
Proof.
  intros Hw. induction ls as [|l ls IH]; intros i; cbn [unlock_loop]; [done|]. specialize (IH (fun l' Hl' => Hw l' (list_elem_of_further _ _ _ Hl'))). rewrite filter_cons.
  destruct (Z.eqb_spec (l_pid l) (l_pid f)) as [Hp|Hp]; cbn [negb]; [|rewrite decide_True by tauto; by rewrite IH].
  destruct (locks_overlap l f) eqn:Ho; cbn [negb]; [|rewrite decide_True by (intros [_ ?]; done); by rewrite IH].
  destruct (Hw l (list_elem_of_here _ _) Hp Ho) as [H1 H2]. rewrite (whole_new_flocks size f l H1 H2), decide_False by tauto. by rewrite IH.
Qed.

Lemma locks_of_set inode v t i : locks_of (set_locks inode v t) i = if decide (inode = i) then default [] v else locks_of t i.
Proof. unfold locks_of, set_locks. cbn. case_decide as E; [subst; by rewrite fn_lookup_insert|by rewrite fn_lookup_insert_ne]. Qed.

Lemma compatible_subset ls ls' : (forall l, l ∈ ls' -> l ∈ ls) -> compatible ls -> compatible ls'.
Proof. intros Hs Hc l1 l2 x H1 H2. by apply Hc; apply Hs. Qed.

Lemma compatible_push f ls : ranges_ok ls -> 0 <= l_len f -> compatible ls -> lock_preventer f ls = None -> compatible (ls ++ [f]).
Proof.
  intros Hr Hf Hc Hn. rewrite (lock_preventer_none f ls Hr Hf) in Hn.
  intros l1 l2 x [H1|E1%list_elem_of_singleton]%elem_of_app [H2|E2%list_elem_of_singleton]%elem_of_app Hp Hx1 Hx2; subst; [by apply (Hc l1 l2 x)|by apply (Hn l1 x)| |done].
  destruct (Hn l2 x H2 ltac:(done) Hx2 Hx1). done.
Qed.

(** A step of a process, whatever allocations fail. *)
Inductive lock_step : lock_table -> lock_table -> Prop :=
| step_fcntl inserted emplaced pushed is_reg size inode cmd f t : 0 <= l_len f -> (l_type f = F_UNLCK -> whole f (locks_of t inode)) ->
    lock_step t (snd (fcntl_lock inserted emplaced pushed is_reg size inode cmd f t))
| step_close inode pid t : lock_step t (close_locks inode pid t).

Definition locks_ok (t : lock_table) : Prop := forall i, compatible (locks_of t i) /\ ranges_ok (locks_of t i).

Lemma locks_ok_set inode v t : locks_ok t -> compatible (default [] v) -> ranges_ok (default [] v) -> locks_ok (set_locks inode v t).
Proof. intros Hok H1 H2 i. rewrite locks_of_set. by case_decide; [|apply Hok]. Qed.

Lemma locks_ok_filter inode P `{!forall l : flock, Decision (P l)} t : locks_ok t -> locks_ok (set_locks inode (Some (filter P (locks_of t inode))) t).
Proof.
  intros Hok. destruct (Hok inode) as [Hc Hr]. apply locks_ok_set; [done|..]; cbn [default from_option id].
  - apply (compatible_subset (locks_of t inode)); [|done]. by intros l [_ ?]%list_elem_of_filter.
  - intros l [_ Hl]%list_elem_of_filter. by apply Hr.
Qed.

Lemma lock_range_ok emplaced pushed inode cmd f t : locks_ok t -> 0 <= l_len f -> locks_ok (snd (lock_range emplaced pushed inode cmd f t)).
Proof.
  intros Hok Hf. destruct (Hok inode) as [Hc Hr]. unfold lock_range, sbind, sget, sput, sret, sfail, locks_of in *.
  assert (Hempty : locks_ok (set_locks inode (Some []) t)) by (apply locks_ok_set; [done|..]; intros ? * Hin; by apply elem_of_nil in Hin).
  destruct (s_fcntl_locks t inode) as [flocks|] eqn:E; cbn [default from_option id] in *.
  - destruct (lock_preventer f flocks) eqn:Ep; [by destruct (cmd =? F_SETLK)|]. destruct pushed; [|done]. apply locks_ok_set; [done|by apply compatible_push|].
    intros l [Hl|El%list_elem_of_singleton]%elem_of_app; [by apply Hr|by subst].
  - destruct emplaced; [|done]. cbn. destruct pushed; [|done]. apply locks_ok_set; [done|by apply (compatible_push f [])|]. intros l El%list_elem_of_singleton. by subst.
Qed.

Lemma lock_step_ok t t' : locks_ok t -> lock_step t t' -> locks_ok t'.
Proof.
  intros Hok Hs. revert Hok. destruct Hs as [inserted emplaced pushed is_reg size inode cmd f t0 Hf Hw|inode pid t0]; intros Hok.
  - unfold fcntl_lock. destruct is_reg; cbn [negb]; [|done]. destruct (cmd =? F_GETLK); [done|]. destruct ((cmd =? F_SETLK) || (cmd =? F_SETLKW)); [|done].
    destruct (Z.eqb_spec (l_type f) F_UNLCK) as [Hu|Hu].
    + specialize (Hw Hu). unfold unlock_range, sbind, sret, locks_of in *. destruct (s_fcntl_locks t0 inode) as [flocks|] eqn:E; [|done]. cbn [default from_option id] in Hw.
      rewrite (unlock_loop_whole inserted size f flocks Hw 0%nat). cbn [negb].
      pose proof (locks_ok_filter inode (fun l => ~ (l_pid l = l_pid f /\ locks_overlap l f = true)) t0 Hok) as Hflt. unfold locks_of in Hflt. rewrite E in Hflt. cbn [default from_option id] in Hflt.
      case_bool_decide; cbn [snd]; [|exact Hflt]. apply (locks_ok_set inode None); [exact Hflt|..]; intros ? * Hin; by apply elem_of_nil in Hin.
    + pose proof (lock_range_ok emplaced pushed inode cmd f t0 Hok Hf) as Hl. unfold sbind, sret. destruct (lock_range emplaced pushed inode cmd f t0) as [[[a|]|e|] t1]; done.
  - unfold close_locks. pose proof (locks_ok_filter inode (fun l => l_pid l <> pid) t0 Hok) as Hflt. unfold locks_of in Hflt. destruct (s_fcntl_locks t0 inode) as [flocks|] eqn:E; [|done]. exact Hflt.
Qed.

(** ** Properties *)

(** C25: Record locks exclude: as long as nobody unlocks a part of a lock, locks of
    different processes on a file share a byte only if both are for reading, in
    every interleaving and whatever allocations fail; a request that conflicts
    with a lock is refused or waits, and one that does not is granted. *)
Theorem record_locks_exclude (t : lock_table) (Hreach : rtc lock_step (mk_locks (fun _ => None) 0) t) inserted size inode cmd f
  (Hf : 0 <= l_len f) (Htype : l_type f <> F_UNLCK) (Hcmd : cmd = F_SETLK \/ cmd = F_SETLKW) :
  locks_ok t /\
  (fst (fcntl_lock inserted true true true size inode cmd f t) = Ok (Done f) <->
    forall l x, l ∈ locks_of t inode -> l_pid l <> l_pid f -> covers l x -> covers f x -> l_type l = F_RDLCK /\ l_type f = F_RDLCK) /\
  (fst (fcntl_lock inserted true true true size inode cmd f t) <> Ok (Done f) ->
    fst (fcntl_lock inserted true true true size inode cmd f t) = if cmd =? F_SETLK then Err EAGAIN else Ok Blocked).
Proof.
  assert (Hok : locks_ok t).
  { eapply rtc_invariant; [apply lock_step_ok| |exact Hreach]. intros i. split; intros ? * Hin; by apply elem_of_nil in Hin. }
  destruct (Hok inode) as [_ Hr]. rewrite <- (lock_preventer_none f _ Hr Hf). split; [done|].
  unfold fcntl_lock, lock_range, sbind, sget, sput, sret, sfail, locks_of in *. cbn [negb].
  replace (cmd =? F_GETLK) with false by (destruct Hcmd; by subst). replace ((cmd =? F_SETLK) || (cmd =? F_SETLKW)) with true by (destruct Hcmd; by subst). rewrite (proj2 (Z.eqb_neq _ _) Htype).
  destruct (s_fcntl_locks t inode) as [flocks|]; cbn [default from_option id] in *; [|done]. destruct (lock_preventer f flocks); [|done]. destruct (cmd =? F_SETLK); done.
Qed.

Lemma record_locks_exclude_witness :
  let f := mk_flock F_WRLCK 0 0 10 1 in
  let g := mk_flock F_RDLCK 0 5 0 2 in
  let t := snd (fcntl_lock (fun _ => true) true true true 100 7 F_SETLK f (mk_locks (fun _ => None) 0)) in
  locks_of t 7 = [f] /\ fst (fcntl_lock (fun _ => true) true true true 100 7 F_SETLK g t) = Err EAGAIN.
Proof.
  intros f g t. split; [done|].
  assert (Hreach : rtc lock_step (mk_locks (fun _ => None) 0) t) by (apply rtc_once; apply (step_fcntl (fun _ => true) true true true 100 7 F_SETLK f); done).
  destruct (record_locks_exclude t Hreach (fun _ => true) 100 7 F_SETLK g) as (_ & _ & H); [done|done|by left|]. by apply H.
Defined.

(** Unlocking the end of a range gives up its beginning and keeps the end: the
    process that wrote bytes 0 to 9 unlocks 5 to 9, and now another one gets
    bytes 0 to 4, which are still locked, and does not get 5 to 9. *)
Theorem unlock_end_frees_beginning :
  let f := mk_flock F_WRLCK 0 0 10 1 in
  let u := mk_flock F_UNLCK 0 5 5 1 in
  let run f t := fcntl_lock (fun _ => true) true true true 100 7 F_SETLK f t in
  let t := snd (run u (snd (run f (mk_locks (fun _ => None) 0)))) in
  locks_of t 7 = [u] /\
  fst (run (mk_flock F_WRLCK 0 0 5 2) t) = Ok (Done (mk_flock F_WRLCK 0 0 5 2)) /\
  fst (run (mk_flock F_WRLCK 0 5 5 2) t) = Err EAGAIN.
Proof. done. Qed.
