(* ===== verification/FileDescriptors.v ===== *)
(** * kernel/OpenFileDescriptorSet

    A process has a table of descriptors; a descriptor refers to an open file
    description, which descriptors of several processes may share.  The
    descriptions are in a store, and a reference is an index into it.  Inodes are
    the class [Inodes], whose [on_clone] and [on_close] are told about every
    reference.  Every operation runs under the mutexes of the code; one that has to
    wait is one attempt.  What is copied from and to the user is an argument. *)
From stdpp Require Import functions strings gmap.
From S2P Require Import Prelude BanMath RingBuffer Pipe RecordLocks.

(** ** Definitions *)
Inductive file_mode : Type := IFREG | IFDIR | IFIFO | IFSOCK | IFOTHER.

#[export] Instance file_mode_eq_dec : EqDecision file_mode.
Proof. solve_decision. Defined.

Inductive Domain : Type := INET | INET6 | UNIX.
Inductive SocketType : Type := STREAM | DGRAM | SEQPACKET.

#[export] Instance Domain_eq_dec : EqDecision Domain.
Proof. solve_decision. Defined.
#[export] Instance SocketType_eq_dec : EqDecision SocketType.
Proof. solve_decision. Defined.

(** What descriptors need of inodes; [N] is the state of all of them.  A buffer
    that is read into is its size, and a message is the list of its buffers.  The
    transfers of data may have to wait inside the inode. *)
Class Inodes (N : Type) : Type := {
  i_mode : N -> Z -> file_mode;
  i_size : N -> Z -> Z;
  i_is_tty : N -> Z -> bool;
  i_can_read : N -> Z -> bool;
  i_can_write : N -> Z -> bool;
  i_has_hungup : N -> Z -> bool;
  i_has_error : N -> Z -> bool;
  i_truncate : Z -> Z -> stateful N unit;
  i_on_clone : Z -> Z -> stateful N unit;
  i_on_close : Z -> Z -> stateful N unit;
  i_ioctl : Z -> Z -> Z -> stateful N Z;
  i_read : Z -> Z -> Z -> stateful N (attempt (list Z));
  i_write : Z -> Z -> list Z -> stateful N (attempt Z);
  i_list_next : Z -> Z -> Z -> stateful N Z;
  i_recvmsg : Z -> list Z -> Z -> stateful N (attempt (list Z));
  i_sendmsg : Z -> list (list Z) -> Z -> stateful N (attempt Z);
  pipe_create : stateful N Z;
  pipe_open : Z -> Z -> stateful N Z;
  create_socket : Domain -> SocketType -> Z -> stateful N Z;
  connect_sockets : Domain -> Z -> Z -> stateful N unit
}.

Definition OPEN_MAX : nat := 128.

Definition O_RDWR : Z := 0x00003.
Definition O_ACCMODE : Z := 0x0000F.
Definition O_CLOEXEC : Z := 0x00010.
Definition O_CREAT : Z := 0x00020.
Definition O_DIRECTORY : Z := 0x00040.
Definition O_EXCL : Z := 0x00080.
Definition O_NOCTTY : Z := 0x00100.
Definition O_NOFOLLOW : Z := 0x00200.
Definition O_TRUNC : Z := 0x00400.
Definition O_TTY_INIT : Z := 0x00800.
Definition O_APPEND : Z := 0x01000.
Definition O_DSYNC : Z := 0x02000.
Definition O_RSYNC : Z := 0x08000.
Definition O_SYNC : Z := 0x10000.
Definition FD_CLOEXEC : Z := O_CLOEXEC.
Definition any_of (fs : list Z) : Z := foldr Z.lor 0 fs.

Record OpenFileDescription : Type := mk_description {
  f_inode : Z;
  f_path : string;
  f_offset : Z;
  status_flags : Z;
  fl_locked : bool;
  fl_shared : bool;
  fl_lockers : gset Z
}.

Definition with_offset (v : Z) (d : OpenFileDescription) : OpenFileDescription :=
  mk_description (f_inode d) (f_path d) v (status_flags d) (fl_locked d) (fl_shared d) (fl_lockers d).
Definition with_flags (v : Z) (d : OpenFileDescription) : OpenFileDescription :=
  mk_description (f_inode d) (f_path d) (f_offset d) v (fl_locked d) (fl_shared d) (fl_lockers d).
Definition with_flock (locked shared : bool) (lockers : gset Z) (d : OpenFileDescription) : OpenFileDescription :=
  mk_description (f_inode d) (f_path d) (f_offset d) (status_flags d) locked shared lockers.

Record fd_set : Type := mk_set { m_open_files : list (option nat); m_cloexec_files : list Z }.

Inductive fd_event : Type := UnblockFlock (d : nat) | SignalPipe.

Record world (N : Type) : Type := mk_world {
  sets : Z -> fd_set;
  descriptions : nat -> OpenFileDescription;
  next_description : nat;
  inodes : N;
  locks : lock_table;
  events : list fd_event
}.
Arguments mk_world {N} _ _ _ _ _ _.
Arguments sets {N} _ _.
Arguments descriptions {N} _ _.
Arguments next_description {N} _.
Arguments inodes {N} _.
Arguments locks {N} _.
Arguments events {N} _.

Section fds.
Context {N : Type} `{!Inodes N}.
(** Which of the allocations of descriptions succeed. *)
Context (created : nat -> bool).

Abbreviation W := (world N).

Definition set_table (me : Z) (f : fd_set -> fd_set) (w : W) : W := mk_world (<[me := f (sets w me)]> (sets w)) (descriptions w) (next_description w) (inodes w) (locks w) (events w).
Definition set_description (d : nat) (f : OpenFileDescription -> OpenFileDescription) (w : W) : W :=
  mk_world (sets w) (<[d := f (descriptions w d)]> (descriptions w)) (next_description w) (inodes w) (locks w) (events w).
Definition set_inodes (n : N) (w : W) : W := mk_world (sets w) (descriptions w) (next_description w) n (locks w) (events w).
Definition set_lock_table (t : lock_table) (w : W) : W := mk_world (sets w) (descriptions w) (next_description w) (inodes w) t (events w).
Definition add_event (e : fd_event) (w : W) : W := mk_world (sets w) (descriptions w) (next_description w) (inodes w) (locks w) (e :: events w).

Definition modify (f : W -> W) : stateful W unit := fun w => (Ok tt, f w).
Definition on_inodes {A} (m : stateful N A) : stateful W A := fun w => let '(r, n) := m (inodes w) in (r, set_inodes n w).
Definition on_locks {A} (m : stateful lock_table A) : stateful W A := fun w => let '(r, t) := m (locks w) in (r, set_lock_table t w).

(** A call whose error is ignored. *)
Definition ignore (m : stateful W unit) : stateful W unit := fun w => match m w with (Err _, w') => (Ok tt, w') | r => r end.

(** [RefPtr<OpenFileDescription>::create] *)
Definition create_description (inode : Z) (path : string) (offset flags : Z) : stateful W nat := fun w =>
  let d := next_description w in
  let w := mk_world (sets w) (descriptions w) (S d) (inodes w) (locks w) (events w) in
  if created d then (Ok d, set_description d (fun _ => mk_description inode path offset flags false false ∅) w) else (Err ENOMEM, w).

Definition in_table (fd : Z) : bool := (0 <=? fd) && (fd <? Z.of_nat OPEN_MAX).

(** [m_open_files[fd]] and its description *)
Definition file_at (me fd : Z) : stateful W (option nat) := fun w =>
  if in_table fd then match m_open_files (sets w me) !! Z.to_nat fd with Some o => (Ok o, w) | None => (Panic, w) end else (Panic, w).
Definition reference (me fd : Z) : stateful W nat := let! o := file_at me fd in match o with Some d => sret d | None => slift Panic end.
Definition description (me fd : Z) : stateful W OpenFileDescription := let! d := reference me fd in let! w := sget in sret (descriptions w d).
Definition put_file (me fd : Z) (o : option nat) : stateful W unit :=
  let! _ := sassert (in_table fd) in
  modify (set_table me (fun s => mk_set (<[Z.to_nat fd := o]> (m_open_files s)) (m_cloexec_files s))).

Definition validate_fd (me fd : Z) : stateful W unit :=
  if (fd <? 0) || (Z.of_nat OPEN_MAX <=? fd) then sfail EBADF
  else let! o := file_at me fd in match o with None => sfail EBADF | Some _ => sret tt end.

(** The free descriptors, lowest first. *)
Definition free_fds (w : W) (me : Z) : list Z :=
  filter (fun fd => m_open_files (sets w me) !! Z.to_nat fd = Some None) (seqZ 0 (Z.of_nat OPEN_MAX)).

Definition get_free_fd (me : Z) : stateful W Z :=
  let! w := sget in match free_fds w me with fd :: _ => sret fd | [] => sfail EMFILE end.
Definition get_free_fd_pair (me : Z) : stateful W (Z * Z) :=
  let! w := sget in match free_fds w me with fd1 :: fd2 :: _ => sret (fd1, fd2) | _ => sfail EMFILE end.

Definition cloexec_word (me fd : Z) : stateful W Z := fun w =>
  match m_cloexec_files (sets w me) !! Z.to_nat (fd / 32) with Some word => (Ok word, w) | None => (Panic, w) end.
Definition put_cloexec (me fd word : Z) : stateful W unit :=
  modify (set_table me (fun s => mk_set (m_open_files s) (<[Z.to_nat (fd / 32) := word]> (m_cloexec_files s)))).

Definition is_cloexec (me fd : Z) : stateful W bool :=
  let! word := cloexec_word me fd in sret (negb (Z.land word (Z.shiftl 1 (fd `mod` 32)) =? 0)).
Definition add_cloexec (me fd : Z) : stateful W unit :=
  let! word := cloexec_word me fd in put_cloexec me fd (Z.lor word (Z.shiftl 1 (fd `mod` 32))).
Definition remove_cloexec (me fd : Z) : stateful W unit :=
  let! word := cloexec_word me fd in put_cloexec me fd (Z.land word (bnot 32 (Z.shiftl 1 (fd `mod` 32)))).

(** [on_clone] and [on_close] of the file of a description *)
Definition notify_clone (d : nat) : stateful W unit :=
  let! w := sget in on_inodes (i_on_clone (f_inode (descriptions w d)) (status_flags (descriptions w d))).
Definition notify_close (d : nat) : stateful W unit :=
  let! w := sget in on_inodes (i_on_close (f_inode (descriptions w d)) (status_flags (descriptions w d))).

Definition release_flock (me : Z) (d : nat) : stateful W unit :=
  let! w := sget in
  let f := descriptions w d in
  if negb (bool_decide (me ∈ fl_lockers f)) then sret tt
  else
    let lockers := fl_lockers f ∖ {[me]} in
    if bool_decide (lockers = ∅) then
      let! _ := modify (set_description d (with_flock false (fl_shared f) lockers)) in modify (add_event (UnblockFlock d))
    else modify (set_description d (with_flock (fl_locked f) (fl_shared f) lockers)).

Definition close (me fd : Z) : stateful W unit :=
  let! _ := validate_fd me fd in
  let! open_file := reference me fd in
  let! _ := notify_close open_file in
  let! _ := put_file me fd None in
  let! _ := remove_cloexec me fd in
  let! _ := release_flock me open_file in
  let! w := sget in
  modify (set_lock_table (close_locks (f_inode (descriptions w open_file)) me (locks w))).

Definition all_fds : list Z := seqZ 0 (Z.of_nat OPEN_MAX).

Fixpoint each_fd (f : Z -> stateful W unit) (fds : list Z) : stateful W unit :=
  match fds with [] => sret tt | fd :: fds => let! _ := f fd in each_fd f fds end.

Definition close_all (me : Z) : stateful W unit := each_fd (fun fd => ignore (close me fd)) all_fds.
Definition close_cloexec (me : Z) : stateful W unit :=
  each_fd (fun fd => let! c := is_cloexec me fd in if c then ignore (close me fd) else sret tt) all_fds.

(** Whether a call fails, for a call that changes nothing. *)
Definition is_error {A} (m : stateful W A) : stateful W bool := fun w =>
  match m w with (Ok _, w') => (Ok false, w') | (Err _, w') => (Ok true, w') | (Panic, w') => (Panic, w') end.

Definition clone_from (me other : Z) : stateful W unit :=
  let! _ := close_all me in
  let! _ := each_fd (fun fd =>
    let! bad := is_error (validate_fd other fd) in
    if bad then sret tt
    else
      let! d := reference other fd in
      let! _ := put_file me fd (Some d) in
      notify_clone d) all_fds in
  let! w := sget in
  modify (set_table me (fun s => mk_set (m_open_files s) (m_cloexec_files (sets w other)))).

Definition status_mask : Z := any_of [O_APPEND; O_DSYNC; O_NONBLOCK; O_RSYNC; O_SYNC; O_ACCMODE].
Definition open_mask : Z :=
  any_of [O_ACCMODE; O_NOFOLLOW; O_APPEND; O_TRUNC; O_CLOEXEC; O_TTY_INIT; O_NOCTTY; O_DIRECTORY; O_CREAT; O_EXCL; O_NONBLOCK].

Definition open (me inode : Z) (path : string) (flags : Z) : stateful W Z :=
  let! _ := sassert (negb (inode =? 0)) in
  if has_flag flags (Z.lnot open_mask) then sfail ENOTSUP
  else if negb (Z.land flags O_ACCMODE =? O_RDWR) && negb (Math.popcount 32 (Z.land flags O_ACCMODE) =? 1) then sfail EINVAL
  else
    let! w := sget in
    let mode := i_mode (inodes w) inode in
    if has_flag flags O_DIRECTORY && negb (bool_decide (mode = IFDIR)) then sfail ENOTDIR
    else
      let! _ := if has_flag flags O_TRUNC && has_flag flags O_WRONLY && bool_decide (mode = IFREG) then on_inodes (i_truncate inode 0) else sret tt in
      let! inode := if bool_decide (mode = IFIFO) then on_inodes (pipe_open inode (Z.land flags status_mask)) else sret inode in
      let! fd := get_free_fd me in
      let! d := create_description inode path 0 (Z.land flags status_mask) in
      let! _ := put_file me fd (Some d) in
      let! _ := if has_flag flags O_CLOEXEC then add_cloexec me fd else sret tt in
      sret fd.

(** [open] of a path; the lookup is that of the file system. *)
Definition open_path (file_from_absolute_path : stateful N (Z * string)) (me flags : Z) : stateful W Z :=
  let! file := on_inodes file_from_absolute_path in open me file.1 file.2 flags.

Definition AF_INET : Z := 1.
Definition AF_INET6 : Z := 2.
Definition AF_UNIX : Z := 3.
Definition SOCK_DGRAM : Z := 1.
Definition SOCK_SEQPACKET : Z := 3.
Definition SOCK_STREAM : Z := 4.
Definition SOCK_CLOEXEC : Z := 0x10.
Definition SOCK_NONBLOCK : Z := 0x20.
Definition IPPROTO_TCP : Z := 6.
Definition IPPROTO_UDP : Z := 7.

Record SocketInfo : Type := mk_info { si_domain : Domain; si_type : SocketType; si_status_flags : Z; si_cloexec : bool }.

Definition parse_socket_info (domain type protocol : Z) : outcome SocketInfo :=
  let* dv :=
    if domain =? AF_INET then Ok (INET, true)
    else if domain =? AF_INET6 then Ok (INET6, true)
    else if domain =? AF_UNIX then Ok (UNIX, false)
    else Err EPROTOTYPE in
  let flags := if has_flag type SOCK_NONBLOCK then O_NONBLOCK else 0 in
  let cloexec := has_flag type SOCK_CLOEXEC in
  let type := Z.land type (Z.lnot (Z.lor SOCK_NONBLOCK SOCK_CLOEXEC)) in
  let* tv :=
    if type =? SOCK_STREAM then Ok (STREAM, dv.2 && (protocol =? IPPROTO_TCP))
    else if type =? SOCK_DGRAM then Ok (DGRAM, dv.2 && (protocol =? IPPROTO_UDP))
    else if type =? SOCK_SEQPACKET then Ok (SEQPACKET, false)
    else Err EPROTOTYPE in
  if negb (protocol =? 0) && negb tv.2 then Err EPROTONOSUPPORT
  else Ok (mk_info dv.1 tv.1 flags cloexec).

Definition socket (me domain type protocol : Z) : stateful W Z :=
  let! info := slift (parse_socket_info domain type protocol) in
  let! socket := on_inodes (create_socket (si_domain info) (si_type info) 0x1FF) in
  let socket_sv :=
    if bool_decide (si_domain info = UNIX) then "<unix socket>"
    else match si_type info with STREAM => "<tcp socket>" | DGRAM => "<udp socket>" | SEQPACKET => "<socket>" end in
  let! fd := get_free_fd me in
  let! d := create_description socket socket_sv 0 (Z.lor O_RDWR (si_status_flags info)) in
  let! _ := put_file me fd (Some d) in
  let! _ := if si_cloexec info then add_cloexec me fd else sret tt in
  sret fd.

Definition socketpair (me domain type protocol : Z) : stateful W (Z * Z) :=
  let! info := slift (parse_socket_info domain type protocol) in
  let! socket1 := on_inodes (create_socket (si_domain info) (si_type info) 0x180) in
  let! socket2 := on_inodes (create_socket (si_domain info) (si_type info) 0x180) in
  let! _ := on_inodes (connect_sockets (si_domain info) socket1 socket2) in
  let! fds := get_free_fd_pair me in
  let! d1 := create_description socket1 "<socketpair>" 0 (Z.lor O_RDWR (si_status_flags info)) in
  let! _ := put_file me fds.1 (Some d1) in
  let! d2 := create_description socket2 "<socketpair>" 0 (Z.lor O_RDWR (si_status_flags info)) in
  let! _ := put_file me fds.2 (Some d2) in
  let! _ := if si_cloexec info then let! _ := add_cloexec me fds.1 in add_cloexec me fds.2 else sret tt in
  sret fds.

Definition pipe (me : Z) : stateful W (Z * Z) :=
  let! fds := get_free_fd_pair me in
  let! pipe := on_inodes pipe_create in
  let! d1 := create_description pipe "<pipe rd>" 0 O_RDONLY in
  let! _ := put_file me fds.1 (Some d1) in
  let! d2 := create_description pipe "<pipe wr>" 0 O_WRONLY in
  let! _ := put_file me fds.2 (Some d2) in
  let! c1 := is_cloexec me fds.1 in
  let! _ := sassert (negb c1) in
  let! c2 := is_cloexec me fds.2 in
  let! _ := sassert (negb c2) in
  sret fds.

Definition dup2 (me fildes fildes2 : Z) : stateful W Z :=
  if (fildes2 <? 0) || (Z.of_nat OPEN_MAX <=? fildes2) then sfail EBADF
  else
    let! _ := validate_fd me fildes in
    if fildes =? fildes2 then sret fildes
    else
      let! _ := ignore (close me fildes2) in
      let! d := reference me fildes in
      let! _ := put_file me fildes2 (Some d) in
      let! _ := notify_clone d in
      let! c := is_cloexec me fildes2 in
      let! _ := sassert (negb c) in
      sret fildes2.

Definition SEEK_SET : Z := 0.
Definition SEEK_CUR : Z := 1.
Definition SEEK_END : Z := 2.
Definition F_DUPFD : Z := 1.
Definition F_DUPFD_CLOEXEC : Z := 2.
Definition F_GETFD : Z := 3.
Definition F_SETFD : Z := 4.
Definition F_GETFL : Z := 5.
Definition F_SETFL : Z := 6.

(** [will_addition_overflow] for the signed 64-bit [off_t] *)
Definition will_addition_overflow (a b : Z) : bool := negb ((- 2 ^ 63 <=? a + b) && (a + b <? 2 ^ 63)).

(** The range of a lock, from the beginning of the file. *)
Definition resolve_flock (offset size : Z) (f : flock) : outcome flock :=
  let* start :=
    if l_whence f =? SEEK_SET then Ok (l_start f)
    else if l_whence f =? SEEK_CUR then if will_addition_overflow (l_start f) offset then Err EOVERFLOW else Ok (l_start f + offset)
    else if l_whence f =? SEEK_END then if will_addition_overflow (l_start f) size then Err EOVERFLOW else Ok (l_start f + size)
    else Err EINVAL in
  let len := l_len f in
  if will_addition_overflow start len then Err EOVERFLOW
  else if len <? 0 then
    if len =? - 2 ^ 63 then Err EOVERFLOW
    else Ok (mk_flock (l_type f) SEEK_SET (start + len) (- len) (l_pid f))
  else Ok (mk_flock (l_type f) SEEK_SET start len (l_pid f)).

(** What a call of [fcntl] for a lock gets from its environment: the caller's
    lock, whether it can be stored back, and which allocations succeed. *)
Record lock_env : Type := mk_env {
  le_read : outcome flock;
  le_write : outcome unit;
  le_inserted : nat -> bool;
  le_emplaced : bool;
  le_pushed : bool
}.

Definition fcntl_flock (env : lock_env) (me fd cmd : Z) : stateful W (attempt (Z * flock)) :=
  let! f := slift (le_read env) in
  let f := mk_flock (l_type f) (l_whence f) (l_start f) (l_len f) me in
  let! _ := validate_fd me fd in
  let! open_file := description me fd in
  let! w := sget in
  let inode := f_inode open_file in
  let size := i_size (inodes w) inode in
  let! f := slift (resolve_flock (f_offset open_file) size f) in
  let is_reg := bool_decide (i_mode (inodes w) inode = IFREG) in
  let! r := fun w => match on_locks (fcntl_lock (le_inserted env) (le_emplaced env) (le_pushed env) is_reg size inode cmd f) w with
                     | (Err ENOMEM, w') => (Err ENOLCK, w')
                     | r => r
                     end in
  match r with
  | Blocked => sret Blocked
  | Done f => let! _ := if cmd =? F_GETLK then slift (le_write env) else sret tt in sret (Done (0, f))
  end.

Definition is_lock_cmd (cmd : Z) : bool := (cmd =? F_SETLK) || (cmd =? F_SETLKW) || (cmd =? F_GETLK).

(** [fcntl] for the commands that are not about locks *)
Definition fcntl (me fd cmd extra : Z) : stateful W Z :=
  let! _ := validate_fd me fd in
  if (cmd =? F_DUPFD) || (cmd =? F_DUPFD_CLOEXEC) then
    let! new_fd := get_free_fd me in
    let! d := reference me fd in
    let! _ := put_file me new_fd (Some d) in
    let! _ := notify_clone d in
    let! _ := if cmd =? F_DUPFD_CLOEXEC then add_cloexec me new_fd else sret tt in
    sret new_fd
  else if cmd =? F_GETFD then let! c := is_cloexec me fd in sret (if c then FD_CLOEXEC else 0)
  else if cmd =? F_SETFD then
    let! _ := if has_flag extra FD_CLOEXEC then add_cloexec me fd else remove_cloexec me fd in sret 0
  else if cmd =? F_GETFL then let! f := description me fd in sret (status_flags f)
  else if cmd =? F_SETFL then
    let extra := Z.land extra (any_of [O_APPEND; O_DSYNC; O_NONBLOCK; O_RSYNC; O_SYNC]) in
    let! d := reference me fd in
    let! _ := modify (set_description d (fun f => with_flags (Z.lor (Z.land (status_flags f) O_ACCMODE) extra) f)) in
    sret 0
  else sfail ENOTSUP.

Definition FIONBIO : Z := 41.
Definition tty_requests : list Z := [50; 51; 52; 53; 54; 55; 56; 57].

(** [ioctl]; [enabled] is the integer that [arg] points to. *)
Definition ioctl (me fd request arg : Z) (enabled : outcome Z) : stateful W Z :=
  let! _ := validate_fd me fd in
  let! d := reference me fd in
  if request =? FIONBIO then
    let! enabled := slift enabled in
    let! _ := modify (set_description d (fun f => with_flags (if negb (enabled =? 0) then Z.lor (status_flags f) O_NONBLOCK else Z.land (status_flags f) (Z.lnot O_NONBLOCK)) f)) in
    sret 0
  else
    let! f := description me fd in
    let inode := f_inode f in
    fun w => match on_inodes (i_ioctl inode request arg) w with
             | (Err ENOTSUP, w') =>
                 if bool_decide (request ∈ tty_requests) && negb (i_is_tty (inodes w') inode) then (Err ENOTTY, w') else (Err ENOTSUP, w')
             | r => r
             end.

Definition seek (me fd offset whence : Z) : stateful W Z :=
  let! _ := validate_fd me fd in
  let! d := reference me fd in
  let! f := description me fd in
  let! w := sget in
  let! base_offset :=
    if whence =? SEEK_SET then sret 0
    else if whence =? SEEK_CUR then sret (f_offset f)
    else if whence =? SEEK_END then sret (i_size (inodes w) (f_inode f))
    else sfail EINVAL in
  if will_addition_overflow base_offset offset then sfail EOVERFLOW
  else
    let new_offset := base_offset + offset in
    if new_offset <? 0 then sfail EINVAL
    else let! _ := modify (set_description d (with_offset new_offset)) in sret new_offset.

Definition tell (me fd : Z) : stateful W Z := let! _ := validate_fd me fd in let! f := description me fd in sret (f_offset f).

Definition truncate (me fd length : Z) : stateful W unit :=
  let! _ := validate_fd me fd in let! f := description me fd in on_inodes (i_truncate (f_inode f) length).

Definition LOCK_UN : Z := 0.
Definition LOCK_SH : Z := 1.
Definition LOCK_EX : Z := 2.
Definition LOCK_NB : Z := 4.

(** One turn of the loop of [flock]; [inserted] tells whether the set of the
    lockers could grow. *)
Definition flock_turn (inserted : bool) (me fd op : Z) : stateful W (attempt unit) :=
  let! _ := validate_fd me fd in
  let! d := reference me fd in
  let! f := description me fd in
  let insert (locked shared : bool) :=
    if inserted then let! _ := modify (set_description d (with_flock locked shared ({[me]} ∪ fl_lockers f))) in sret (Done tt)
    else sfail ENOMEM in
  let wait := if has_flag op LOCK_NB then sfail EWOULDBLOCK else sret Blocked in
  let kind := Z.land op (Z.lnot LOCK_NB) in
  if kind =? LOCK_UN then
    let lockers := fl_lockers f ∖ {[me]} in
    if bool_decide (lockers = ∅) then
      let! _ := modify (set_description d (with_flock false (fl_shared f) lockers)) in
      let! _ := modify (add_event (UnblockFlock d)) in
      sret (Done tt)
    else let! _ := modify (set_description d (with_flock (fl_locked f) (fl_shared f) lockers)) in sret (Done tt)
  else if kind =? LOCK_SH then
    if negb (fl_locked f) then insert true true
    else if fl_shared f then insert (fl_locked f) (fl_shared f)
    else wait
  else if kind =? LOCK_EX then
    if negb (fl_locked f) then insert true false
    else if bool_decide (me ∈ fl_lockers f) then sret (Done tt)
    else wait
  else sfail EINVAL.

(** The end of a transfer: the offset is stored if the descriptor is still open. *)
Definition store_offset (me fd offset : Z) : stateful W unit :=
  let! bad := is_error (validate_fd me fd) in
  if bad then sret tt else let! d := reference me fd in modify (set_description d (with_offset offset)).

Definition MSG_NOSIGNAL : Z := 0x010.
Definition MSG_DONTWAIT : Z := 0x100.

Definition recvmsg (me fd : Z) (message : list Z) (flags : Z) : stateful W (attempt (list Z)) :=
  let! _ := validate_fd me fd in
  let! f := description me fd in
  let! w := sget in
  let inode := f_inode f in
  if negb (bool_decide (i_mode (inodes w) inode = IFSOCK)) then sfail ENOTSOCK
  else if has_flag (status_flags f) O_NONBLOCK && negb (i_can_read (inodes w) inode) then sfail EAGAIN
  else on_inodes (i_recvmsg inode message flags).

Definition sendmsg (me fd : Z) (message : list (list Z)) (flags : Z) : stateful W (attempt Z) :=
  let! _ := validate_fd me fd in
  let! f := description me fd in
  let! w := sget in
  let inode := f_inode f in
  let is_nonblock := has_flag (status_flags f) O_NONBLOCK in
  if negb (bool_decide (i_mode (inodes w) inode = IFSOCK)) then sfail ENOTSOCK
  else if i_has_hungup (inodes w) inode then
    let! _ := if negb (has_flag flags MSG_NOSIGNAL) then modify (add_event SignalPipe) else sret tt in sfail EPIPE
  else if is_nonblock && negb (i_can_write (inodes w) inode) then sfail EAGAIN
  else on_inodes (i_sendmsg inode message (Z.lor flags (if is_nonblock then MSG_DONTWAIT else 0))).

Definition read (me fd size : Z) : stateful W (attempt (list Z)) :=
  let! _ := validate_fd me fd in
  let! f := description me fd in
  if negb (has_flag (status_flags f) O_RDONLY) then sfail EBADF
  else
    let! w := sget in
    let inode := f_inode f in
    if bool_decide (i_mode (inodes w) inode = IFSOCK) then recvmsg me fd [size] 0
    else if negb (i_can_read (inodes w) inode) && i_has_hungup (inodes w) inode then sret (Done [])
    else if has_flag (status_flags f) O_NONBLOCK && negb (i_can_read (inodes w) inode) then sfail EAGAIN
    else
      let! r := on_inodes (i_read inode (f_offset f) size) in
      match r with
      | Blocked => sret Blocked
      | Done data => let! _ := store_offset me fd (f_offset f + Z.of_nat (length data)) in sret (Done data)
      end.

Definition write (me fd : Z) (buffer : list Z) : stateful W (attempt Z) :=
  let! _ := validate_fd me fd in
  let! f := description me fd in
  if negb (has_flag (status_flags f) O_WRONLY) then sfail EBADF
  else
    let! w := sget in
    let inode := f_inode f in
    let offset := if has_flag (status_flags f) O_APPEND then i_size (inodes w) inode else f_offset f in
    if bool_decide (i_mode (inodes w) inode = IFSOCK) then sendmsg me fd [buffer] 0
    else if i_has_error (inodes w) inode then let! _ := modify (add_event SignalPipe) in sfail EPIPE
    else if has_flag (status_flags f) O_NONBLOCK && negb (i_can_write (inodes w) inode) then sfail EAGAIN
    else
      let! r := on_inodes (i_write inode offset buffer) in
      match r with
      | Blocked => sret Blocked
      | Done nwrite => let! _ := store_offset me fd (offset + nwrite) in sret (Done nwrite)
      end.

(** The loop of [read_dir_entries]; offsets without an entry are skipped. *)
Fixpoint list_loop (fuel : nat) (me fd inode offset list_len : Z) : stateful W Z :=
  match fuel with
  | O => slift Panic
  | S fuel => fun w =>
      match on_inodes (i_list_next inode offset list_len) w with
      | (Err ENODATA, w') => list_loop fuel me fd inode (offset + 1) list_len w'
      | (Ok n, w') => (let! _ := store_offset me fd (offset + 1) in sret n) w'
      | r => r
      end
  end.

Definition read_dir_entries (fuel : nat) (me fd list_len : Z) : stateful W Z :=
  let! _ := validate_fd me fd in
  let! f := description me fd in
  if negb (has_flag (status_flags f) O_RDONLY) then sfail EACCES
  else list_loop fuel me fd (f_inode f) (f_offset f) list_len.

Definition get_max_open_fd (me : Z) (w : W) : Z :=
  default (-1) (List.find (fun fd => bool_decide (is_Some (mjoin (m_open_files (sets w me) !! Z.to_nat fd)))) (reverse (seqZ 1 (Z.of_nat OPEN_MAX - 1)))).

(** What a descriptor refers to; [cloned] tells whether the path could be copied. *)
Definition file_of (cloned : bool) (me fd : Z) : stateful W (Z * string) :=
  let! _ := validate_fd me fd in
  let! f := description me fd in
  if cloned then sret (f_inode f, f_path f) else sfail ENOMEM.
Definition path_of (cloned : bool) (me fd : Z) : stateful W string :=
  let! _ := validate_fd me fd in
  let! f := description me fd in
  if cloned then sret (f_path f) else sfail ENOMEM.
Definition inode_of (me fd : Z) : stateful W Z := let! _ := validate_fd me fd in let! f := description me fd in sret (f_inode f).
Definition status_flags_of (me fd : Z) : stateful W Z := let! _ := validate_fd me fd in let! f := description me fd in sret (status_flags f).

(** A descriptor that is sent through a socket *)
Record FDWrapper : Type := mk_wrapper { m_description : option nat; m_fd : Z }.

Definition wrapper_clone (o : option nat) : stateful W unit := match o with Some d => notify_clone d | None => sret tt end.
Definition wrapper_clear (x : FDWrapper) : stateful W unit := match m_description x with Some d => notify_close d | None => sret tt end.
Definition wrapper_of (o : option nat) : stateful W FDWrapper := let! _ := wrapper_clone o in sret (mk_wrapper o (-1)).
Definition wrapper_assign (x other : FDWrapper) : stateful W FDWrapper :=
  let! _ := wrapper_clear x in
  let! _ := wrapper_clone (m_description other) in
  sret (mk_wrapper (m_description other) (m_fd x)).
Definition wrapper_move (x other : FDWrapper) : stateful W (FDWrapper * FDWrapper) :=
  let! _ := wrapper_clear x in
  sret (mk_wrapper (m_description other) (m_fd x), mk_wrapper None (m_fd other)).

Definition get_fd_wrapper (me fd : Z) : stateful W FDWrapper :=
  let! _ := validate_fd me fd in let! d := reference me fd in wrapper_of (Some d).

(** The wrappers afterwards, and how many of them were opened. *)
Fixpoint open_all_fd_wrappers (me : Z) (ws : list FDWrapper) : stateful W (list FDWrapper * nat) :=
  match ws with
  | [] => sret ([], 0%nat)
  | x :: ws' => fun w =>
      match get_free_fd me w with
      | (Err _, w') => (Ok (ws, 0%nat), w')
      | (Panic, w') => (Panic, w')
      | (Ok fd, w') =>
          (let! _ := put_file me fd (m_description x) in
           let! r := open_all_fd_wrappers me ws' in
           sret (mk_wrapper None fd :: r.1, S r.2)) w'
      end
  end.
End fds.
