(* ===== verification/FileDescriptorsCorrect.v ===== *)
(** * kernel/OpenFileDescriptorSet: the references are counted

    Inodes count the descriptors that refer to them: they are told about every new
    reference with [on_clone] and about every one that goes with [on_close].  The
    class [CountedInodes] states what inodes promise when they are told the truth,
    and the invariant [inv] says that they are: the flags an inode has counted are
    the flags of the descriptors of all processes, and of the descriptors that are
    in flight. *)
From stdpp Require Import functions strings gmap.
From S2P Require Import Prelude BanMath RingBuffer Pipe StatefulLogic RecordLocks FileDescriptors.

(** ** What inodes promise *)
Definition access (fl : Z) : Z := Z.land fl O_ACCMODE.

(** An operation that is not about references, in a state where every inode has
    counted something. *)
Definition quiet {N A} `{!Inodes N} (counts : N -> Z -> list Z -> Prop) (m : stateful N A) : Prop :=
  forall n, (forall i, exists fls, counts n i fls) -> (m n).1 <> Panic /\ (forall i fls, counts n i fls -> counts (m n).2 i fls) /\ (forall i, i_mode n i <> IFIFO -> i_mode (m n).2 i <> IFIFO).

(** [counts n i fls]: the inode [i] has counted descriptors with the flags [fls]. *)
Class CountedInodes (N : Type) `{!Inodes N} : Type := {
  counts : N -> Z -> list Z -> Prop;
  counts_access n i fls fls' : access <$> fls ≡ₚ access <$> fls' -> counts n i fls -> counts n i fls';
  on_clone_counts n i fl fls : counts n i fls -> fl ∈ fls -> Z.of_nat (length fls) + 1 < 2 ^ 32 ->
    exists n', i_on_clone i fl n = (Ok tt, n') /\ counts n' i (fl :: fls) /\ forall j fls', j <> i -> counts n j fls' -> counts n' j fls';
  on_close_counts n i fl fls : counts n i (fl :: fls) -> Z.of_nat (length fls) + 2 < 2 ^ 32 ->
    exists n', i_on_close i fl n = (Ok tt, n') /\ counts n' i fls /\ forall j fls', j <> i -> counts n j fls' -> counts n' j fls';
  unopened_counts n i fl fls : i_mode n i <> IFIFO -> counts n i fls -> counts n i (fl :: fls);
  pipe_create_counts n : match pipe_create n with
    | (Ok i, n') => (forall fls, counts n i fls -> fls = []) /\ counts n' i [O_RDONLY; O_WRONLY] /\ (forall j fls, j <> i -> counts n j fls -> counts n' j fls)
    | (Err _, n') => forall j fls, counts n j fls -> counts n' j fls
    | (Panic, _) => False
    end;
  create_socket_mode d t m n i : (create_socket d t m n).1 = Ok i -> i_mode (create_socket d t m n).2 i <> IFIFO;
  truncate_quiet i len : quiet counts (i_truncate i len);
  ioctl_quiet i r a : quiet counts (i_ioctl i r a);
  read_quiet i o s : 0 <= s -> quiet counts (i_read i o s);
  write_quiet i o b : quiet counts (i_write i o b);
  list_next_quiet i o l : quiet counts (i_list_next i o l);
  recvmsg_quiet i m f : quiet counts (i_recvmsg i m f);
  sendmsg_quiet i m f : quiet counts (i_sendmsg i m f);
  create_socket_quiet d t m : quiet counts (create_socket d t m);
  connect_sockets_quiet d i j : quiet counts (connect_sockets d i j)
}.

(** ** The state of the tables *)
Definition open_at {N} (w : world N) (p fd : Z) : option nat := if in_table fd then mjoin (m_open_files (sets w p) !! Z.to_nat fd) else None.
Definition cloexec_bit (s : fd_set) (fd : Z) : bool :=
  match m_cloexec_files s !! Z.to_nat (fd / 32) with Some word => Z.testbit word (fd `mod` 32) | None => false end.
Definition cloexec_at {N} (w : world N) (p fd : Z) : bool := cloexec_bit (sets w p) fd.

Record table_ok (s : fd_set) : Prop := {
  ok_files : length (m_open_files s) = OPEN_MAX;
  ok_words : length (m_cloexec_files s) = 4%nat;
  ok_range : Forall (fun x => 0 <= x < 2 ^ 32) (m_cloexec_files s);
  ok_cloexec fd : in_table fd = true -> cloexec_bit s fd = true -> m_open_files s !! Z.to_nat fd <> Some None
}.

Lemma in_table_spec fd : in_table fd = true <-> 0 <= fd < 128.
Proof. unfold in_table. change (Z.of_nat OPEN_MAX) with 128. rewrite andb_true_iff, Z.leb_le, Z.ltb_lt. done. Qed.

Lemma ok_lookup s fd : table_ok s -> in_table fd = true -> is_Some (m_open_files s !! Z.to_nat fd).
Proof. intros [Hl _ _ _] Hfd%in_table_spec. apply lookup_lt_is_Some. rewrite Hl. unfold OPEN_MAX. lia. Qed.

Lemma ok_word s fd : table_ok s -> in_table fd = true -> exists x, m_cloexec_files s !! Z.to_nat (fd / 32) = Some x /\ 0 <= x < 2 ^ 32.
Proof.
  intros [_ Hl Hr _] Hfd%in_table_spec. destruct (lookup_lt_is_Some_2 (m_cloexec_files s) (Z.to_nat (fd / 32))) as [x Hx].
  - rewrite Hl. assert (fd / 32 < 4) by (apply Z.div_lt_upper_bound; lia). assert (0 <= fd / 32) by (apply Z.div_pos; lia). lia.
  - exists x. split; [done|]. by eapply Forall_lookup_1 in Hr.
Qed.

(** ** Bits *)
Definition store_bit (fd : Z) (b : bool) (s : fd_set) : fd_set :=
  mk_set (m_open_files s) (alter (fun x => if b then Z.lor x (Z.shiftl 1 (fd `mod` 32)) else Z.land x (bnot 32 (Z.shiftl 1 (fd `mod` 32)))) (Z.to_nat (fd / 32)) (m_cloexec_files s)).

Lemma fd_mod fd : 0 <= fd `mod` 32 < 32.
Proof. by apply Z.mod_pos_bound. Qed.

Lemma cloexec_bit_store s fd b fd' : table_ok s -> in_table fd = true -> in_table fd' = true ->
  cloexec_bit (store_bit fd b s) fd' = if decide (fd = fd') then b else cloexec_bit s fd'.
Proof.
  intros Hs Hfd Hfd'. unfold cloexec_bit, store_bit. cbn. destruct (ok_word s fd Hs Hfd) as (x & Hx & Hxr). apply in_table_spec in Hfd, Hfd'.
  pose proof (fd_mod fd). pose proof (fd_mod fd').
  assert (Hfd2 : fd = 32 * (fd / 32) + fd `mod` 32) by (apply Z.div_mod; lia). assert (Hfd3 : fd' = 32 * (fd' / 32) + fd' `mod` 32) by (apply Z.div_mod; lia).
  assert (0 <= fd / 32) by (apply Z.div_pos; lia). assert (0 <= fd' / 32) by (apply Z.div_pos; lia).
  destruct (decide (fd / 32 = fd' / 32)) as [Eq|Ne].
  - rewrite <- Eq, list_lookup_alter_eq, Hx. cbn. destruct b.
    + rewrite (proj2 (setbit_spec 32 x (fd `mod` 32) Hxr ltac:(lia))) by lia. destruct (Z.eqb_spec (fd' `mod` 32) (fd `mod` 32)); case_decide; cbn; (done || lia).
    + rewrite (proj2 (clearbit_spec 32 x (fd `mod` 32) Hxr ltac:(lia))) by lia. destruct (Z.eqb_spec (fd' `mod` 32) (fd `mod` 32)); case_decide; cbn; (done || lia).
  - rewrite list_lookup_alter_ne by lia. rewrite decide_False by (intros ->; done). done.
Qed.

Lemma store_bit_ok s fd b : table_ok s -> in_table fd = true -> (b = true -> m_open_files s !! Z.to_nat fd <> Some None) -> table_ok (store_bit fd b s).
Proof.
  intros Hs Hfd Hb. pose proof Hs as [H1 H2 H3 H4]. split; cbn; [done|by rewrite length_alter| |].
  - apply Forall_alter; [done|]. intros x Hx Hr. cbn in Hr. pose proof (fd_mod fd). destruct b; [by apply setbit_spec|by apply clearbit_spec].
  - intros fd' Hfd' Hbit. rewrite cloexec_bit_store in Hbit by done. case_decide; [subst; by apply Hb|by apply H4].
Qed.

(** ** References *)
Definition table_refs (s : fd_set) : list nat := omap id (m_open_files s).
Definition refs {N} (pids : list Z) (w : world N) : list nat := pids ≫= (fun p => table_refs (sets w p)).
Definition flags_of {N} (w : world N) (i : Z) (R : list nat) : list Z :=
  (fun d => status_flags (descriptions w d)) <$> filter (fun d => f_inode (descriptions w d) = i) R.

Lemma omap_id_insert (l : list (option nat)) k o o' : l !! k = Some o -> omap id (<[k := o']> l) ++ option_list o ≡ₚ omap id l ++ option_list o'.
Proof.
  intros Hk. rewrite insert_take_drop by (by eapply lookup_lt_Some). rewrite <- (take_drop_middle l k o Hk) at 3.
  rewrite !omap_app. destruct o, o'; cbn; solve_Permutation || (rewrite ?app_nil_r; solve_Permutation).
Qed.

Lemma length_omap_id (l : list (option nat)) : (length (omap id l) <= length l)%nat.
Proof. induction l as [|[d|] l IH]; cbn; lia. Qed.

Lemma bind_one {A} (pids : list A) `{!EqDecision A} {B} (f g : A -> list B) (me : A) : NoDup pids -> me ∈ pids -> (forall p, p <> me -> f p = g p) ->
  exists rest, pids ≫= f ≡ₚ f me ++ rest /\ pids ≫= g ≡ₚ g me ++ rest.
Proof.
  intros Hnd Hin Heq. apply list_elem_of_split in Hin as (l1 & l2 & ->).
  apply list.NoDup_app in Hnd as (_ & Hd & Hnd2). apply list.NoDup_cons in Hnd2 as [Hn2 _].
  assert (Hext : forall l, me ∉ l -> l ≫= f = l ≫= g).
  { intros l Hl. apply Forall_bind_ext, list.Forall_forall. intros p Hp. apply Heq. by intros ->. }
  exists ((l1 ≫= f) ++ (l2 ≫= f)). rewrite !bind_app. cbn. rewrite (Hext l1), (Hext l2) by (try done; intros Hm; by apply (Hd me Hm), list_elem_of_here).
  split; solve_Permutation.
Qed.

Definition put_slot (fd : Z) (o : option nat) (s : fd_set) : fd_set := mk_set (<[Z.to_nat fd := o]> (m_open_files s)) (m_cloexec_files s).

Lemma put_slot_ok s fd o : table_ok s -> (o = None -> cloexec_bit s fd = false) -> in_table fd = true -> table_ok (put_slot fd o s).
Proof.
  intros [H1 H2 H3 H4] Ho Hfd. split; cbn; [by rewrite length_insert|done|done|]. intros fd' Hfd' Hbit.
  change (cloexec_bit s fd' = true) in Hbit. destruct (decide (Z.to_nat fd = Z.to_nat fd')) as [Eq|Ne].
  - assert (fd = fd') as <- by (apply in_table_spec in Hfd, Hfd'; lia). rewrite list_lookup_insert_eq by (apply in_table_spec in Hfd; rewrite H1; unfold OPEN_MAX; lia).
    intros [= ->]. rewrite Ho in Hbit by done. done.
  - rewrite list_lookup_insert_ne by done. by apply H4.
Qed.

Section counted.
Context {N : Type} `{!Inodes N} `{!CountedInodes N}.
Context (pids : list Z) (Hpids : NoDup pids).

Abbreviation W := (world N).
Implicit Types w : W.

Definition accounted (w : W) (R : list nat) : Prop := forall i, counts (inodes w) i (flags_of w i R).

#[global] Instance accounted_proper w : Proper (Permutation ==> iff) (accounted w).
Proof.
  assert (H : forall R R', R ≡ₚ R' -> accounted w R -> accounted w R').
  { intros R R' HR Ha i. eapply counts_access; [|apply Ha]. unfold flags_of. by rewrite HR. }
  intros R R' HR. split; apply H; [done|by symmetry].
Qed.

(** The invariant, with the descriptors [ds] in flight. *)
Record inv (ds : list nat) (w : W) : Prop := {
  inv_room : Z.of_nat (OPEN_MAX * length pids + length ds) + 1 < 2 ^ 32;
  inv_tables p : table_ok (sets w p);
  inv_others p : p ∉ pids -> table_refs (sets w p) = [];
  inv_refs d : d ∈ refs pids w ++ ds -> (d < next_description w)%nat;
  inv_counts : accounted w (refs pids w ++ ds)
}.

Lemma length_refs w : (forall p, table_ok (sets w p)) -> (length (refs pids w) <= OPEN_MAX * length pids)%nat.
Proof.
  intros Hok. unfold refs. clear Hpids. induction pids as [|p ps IH]; cbn [mbind list_bind length]; [lia|]. rewrite length_app.
  assert (length (table_refs (sets w p)) <= OPEN_MAX)%nat; [|lia]. rewrite <- (ok_files _ (Hok p)). apply length_omap_id.
Qed.

Lemma flags_of_cons w i d R : flags_of w i (d :: R) = (if decide (f_inode (descriptions w d) = i) then [status_flags (descriptions w d)] else []) ++ flags_of w i R.
Proof. unfold flags_of. rewrite filter_cons. by case_decide. Qed.

Lemma length_flags_of w i R : (length (flags_of w i R) <= length R)%nat.
Proof. unfold flags_of. rewrite length_fmap. apply length_filter. Qed.

Lemma notify_clone_ok w d R : accounted w R -> d ∈ R -> Z.of_nat (length R) + 1 < 2 ^ 32 ->
  exists n', notify_clone d w = (Ok tt, set_inodes n' w) /\ accounted (set_inodes n' w) (d :: R).
Proof.
  intros Ha Hd Hlen. set (f := descriptions w d).
  pose proof (length_flags_of w (f_inode f) R).
  destruct (on_clone_counts (inodes w) (f_inode f) (status_flags f) (flags_of w (f_inode f) R)) as (n' & E & Hc & Ho); [apply Ha| |lia|].
  { unfold flags_of. apply (list_elem_of_fmap_2 (fun d => status_flags (descriptions w d))), list_elem_of_filter. done. }
  exists n'. split.
  - unfold notify_clone, sbind, sget, on_inodes. subst f. by rewrite E.
  - intros j. change (flags_of (set_inodes n' w) j) with (flags_of w j). rewrite flags_of_cons. fold f. cbn [inodes set_inodes]. case_decide; [by subst|]. by apply Ho, Ha.
Qed.

Lemma notify_close_ok w d R : accounted w (d :: R) -> Z.of_nat (length R) + 2 < 2 ^ 32 ->
  exists n', notify_close d w = (Ok tt, set_inodes n' w) /\ accounted (set_inodes n' w) R.
Proof.
  intros Ha Hlen. set (f := descriptions w d).
  pose proof (length_flags_of w (f_inode f) R).
  destruct (on_close_counts (inodes w) (f_inode f) (status_flags f) (flags_of w (f_inode f) R)) as (n' & E & Hc & Ho); [|lia|].
  { specialize (Ha (f_inode f)). rewrite flags_of_cons in Ha. fold f in Ha. by rewrite decide_True in Ha. }
  exists n'. split.
  - unfold notify_close, sbind, sget, on_inodes. subst f. by rewrite E.
  - intros j. change (flags_of (set_inodes n' w) j) with (flags_of w j). cbn [inodes set_inodes]. destruct (decide (f_inode f = j)) as [<-|Ne]; [done|].
    apply Ho; [done|]. specialize (Ha j). rewrite flags_of_cons in Ha. fold f in Ha. by rewrite decide_False in Ha.
Qed.

Lemma refs_put w me fd o o' : me ∈ pids -> m_open_files (sets w me) !! Z.to_nat fd = Some o ->
  refs pids (set_table me (put_slot fd o') w) ++ option_list o ≡ₚ refs pids w ++ option_list o'.
Proof.
  intros Hme Ho. unfold refs.
  destruct (bind_one pids (fun p => table_refs (sets (set_table me (put_slot fd o') w) p)) (fun p => table_refs (sets w p)) me Hpids Hme) as (rest & -> & ->).
  { intros p Hp. cbn. by rewrite fn_lookup_insert_ne. }
  cbn. rewrite fn_lookup_insert. unfold table_refs. cbn. pose proof (omap_id_insert _ _ _ o' Ho) as HP.
  rewrite <- !app_assoc, (Permutation_app_comm rest (option_list o)), (Permutation_app_comm rest (option_list o')), !app_assoc, HP. done.
Qed.

Lemma refs_bits w me g : (forall s, m_open_files (g s) = m_open_files s) -> refs pids (set_table me g w) = refs pids w.
Proof.
  intros Hg. unfold refs. apply Forall_bind_ext, list.Forall_forall. intros p _. cbn. destruct (decide (p = me)) as [->|Ne]; [|by rewrite fn_lookup_insert_ne].
  rewrite fn_lookup_insert. unfold table_refs. by rewrite Hg.
Qed.

(** ** Steps that preserve the invariant *)
Lemma inv_length ds w : inv ds w -> Z.of_nat (length (refs pids w ++ ds)) + 1 < 2 ^ 32.
Proof. intros Hi. pose proof (length_refs w (inv_tables _ _ Hi)). pose proof (inv_room _ _ Hi). rewrite length_app. lia. Qed.

Lemma inv_live ds w : inv ds w -> forall i, exists fls, counts (inodes w) i fls.
Proof. intros Hi i. exists (flags_of w i (refs pids w ++ ds)). apply Hi. Qed.

Lemma inv_set_inodes ds w n' : inv ds w -> (forall i fls, counts (inodes w) i fls -> counts n' i fls) -> inv ds (set_inodes n' w).
Proof. intros [H1 H2 H3 H4 H5] Hn. split; [done|done|done|done|]. intros i. apply Hn, H5. Qed.

Lemma inv_set_lock_table ds w t : inv ds w -> inv ds (set_lock_table t w).
Proof. intros [H1 H2 H3 H4 H5]. by split. Qed.

Lemma inv_add_event ds w e : inv ds w -> inv ds (add_event e w).
Proof. intros [H1 H2 H3 H4 H5]. by split. Qed.

Lemma inv_set_description ds w d g : inv ds w -> (forall f, f_inode (g f) = f_inode f /\ access (status_flags (g f)) = access (status_flags f)) -> inv ds (set_description d g w).
Proof.
  intros [H1 H2 H3 H4 H5] Hg. split; [done|done|done|done|]. intros i. eapply counts_access; [|apply H5].
  change (refs pids (set_description d g w)) with (refs pids w). generalize (refs pids w ++ ds). intros R.
  assert (Hsame : forall x, f_inode (descriptions (set_description d g w) x) = f_inode (descriptions w x) /\
    access (status_flags (descriptions (set_description d g w) x)) = access (status_flags (descriptions w x))).
  { intros x. cbn. destruct (decide (x = d)) as [->|Ne]; [rewrite fn_lookup_insert; apply Hg|by rewrite fn_lookup_insert_ne]. }
  induction R as [|x R IH]; [done|]. rewrite !flags_of_cons, !fmap_app, IH. destruct (Hsame x) as [-> Ha]. case_decide; [cbn [fmap list_fmap app]; by rewrite Ha|done].
Qed.

Lemma inv_store_bit ds w me fd b : inv ds w -> in_table fd = true -> (b = true -> m_open_files (sets w me) !! Z.to_nat fd <> Some None) -> inv ds (set_table me (store_bit fd b) w).
Proof.
  intros [H1 H2 H3 H4 H5] Hfd Hb. assert (Hr : refs pids (set_table me (store_bit fd b) w) = refs pids w) by (by apply refs_bits).
  split; [done| | |by rewrite Hr|].
  - intros p. cbn. destruct (decide (p = me)) as [->|Ne]; [rewrite fn_lookup_insert; by apply store_bit_ok|by rewrite fn_lookup_insert_ne].
  - intros p Hp. cbn. destruct (decide (p = me)) as [->|Ne]; [rewrite fn_lookup_insert; by apply H3|rewrite fn_lookup_insert_ne by done; by apply H3].
  - rewrite Hr. exact H5.
Qed.

Lemma in_own_table w me g p : me ∈ pids -> (forall q, q ∉ pids -> table_refs (sets w q) = []) -> p ∉ pids -> table_refs (sets (set_table me g w) p) = [].
Proof. intros Hme Ho Hp. cbn. rewrite fn_lookup_insert_ne by (by intros ->). by apply Ho. Qed.

Lemma tables_set w me g : (forall p, table_ok (sets w p)) -> table_ok (g (sets w me)) -> forall p, table_ok (sets (set_table me g w) p).
Proof. intros Hw Hg p. cbn. destruct (decide (p = me)) as [->|Ne]; [by rewrite fn_lookup_insert|by rewrite fn_lookup_insert_ne]. Qed.

(** A free slot gets a reference to an open description. *)
Lemma acquire_inv ds w me fd d : inv ds w -> me ∈ pids -> in_table fd = true -> m_open_files (sets w me) !! Z.to_nat fd = Some None -> d ∈ refs pids w ++ ds ->
  exists n', notify_clone d (set_table me (put_slot fd (Some d)) w) = (Ok tt, set_inodes n' (set_table me (put_slot fd (Some d)) w)) /\
    inv ds (set_inodes n' (set_table me (put_slot fd (Some d)) w)).
Proof.
  intros Hi Hme Hfd Hs Hd. pose proof (inv_length ds w Hi). pose proof Hi as [H1 H2 H3 H4 H5]. set (w1 := set_table me (put_slot fd (Some d)) w).
  destruct (notify_clone_ok w1 d (refs pids w ++ ds)) as (n' & E & Ha); [exact H5|done|done|].
  assert (HP : refs pids w1 ++ ds ≡ₚ d :: refs pids w ++ ds).
  { pose proof (refs_put w me fd None (Some d) Hme Hs) as HP. cbn in HP. rewrite app_nil_r in HP. fold w1 in HP. rewrite HP. solve_Permutation. }
  exists n'. split; [done|]. split; [done| | | |].
  - apply tables_set; [done|]. by apply put_slot_ok.
  - intros p Hp. by apply (in_own_table w me).
  - intros x Hx. change (x ∈ refs pids w1 ++ ds) in Hx. rewrite HP in Hx. apply H4. by apply elem_of_cons in Hx as [->|Hx].
  - change (accounted (set_inodes n' w1) (refs pids w1 ++ ds)). by rewrite HP.
Qed.

(** A reference goes away. *)
Lemma release_inv ds w me fd d : inv ds w -> me ∈ pids -> in_table fd = true -> m_open_files (sets w me) !! Z.to_nat fd = Some (Some d) ->
  exists n', notify_close d w = (Ok tt, set_inodes n' w) /\ inv ds (set_table me (store_bit fd false) (set_table me (put_slot fd None) (set_inodes n' w))).
Proof.
  intros Hi Hme Hfd Hs. pose proof (inv_length ds w Hi) as Hl. pose proof Hi as [H1 H2 H3 H4 H5].
  set (w1 := set_table me (put_slot fd None) w). pose proof (refs_put w me fd (Some d) None Hme Hs) as HP. fold w1 in HP. cbn in HP. rewrite app_nil_r in HP.
  assert (HP2 : refs pids w ++ ds ≡ₚ d :: refs pids w1 ++ ds) by (rewrite <- HP; solve_Permutation).
  destruct (notify_close_ok w d (refs pids w1 ++ ds)) as (n' & E & Ha); [by rewrite <- HP2|rewrite HP2 in Hl; cbn in Hl; lia|].
  exists n'. split; [done|].
  set (w2 := set_table me (store_bit fd false) _). assert (Hr : refs pids w2 = refs pids w1) by (unfold w2; by rewrite refs_bits).
  split; [done| | |rewrite Hr|rewrite Hr].
  - intros p. unfold w2. cbn. destruct (decide (p = me)) as [->|Ne]; [|by rewrite !fn_lookup_insert_ne]. rewrite !fn_lookup_insert.
    apply (put_slot_ok (store_bit fd false (sets w me)) fd None); [by apply store_bit_ok| |done]. intros _. rewrite cloexec_bit_store by done. by rewrite decide_True.
  - intros p Hp. unfold w2. cbn. rewrite !fn_lookup_insert_ne by (by intros ->). by apply H3.
  - intros x Hx. apply H4. rewrite HP2. by right.
  - exact Ha.
Qed.

(** The invariant without the counts, for the states inside an operation. *)
Record shape (ds : list nat) (w : W) : Prop := {
  shape_room : Z.of_nat (OPEN_MAX * length pids + length ds) + 1 < 2 ^ 32;
  shape_tables p : table_ok (sets w p);
  shape_others p : p ∉ pids -> table_refs (sets w p) = [];
  shape_refs d : d ∈ refs pids w ++ ds -> (d < next_description w)%nat
}.

Lemma inv_split ds w : inv ds w <-> shape ds w /\ accounted w (refs pids w ++ ds).
Proof. split; [intros [H1 H2 H3 H4 H5]; split; [by constructor|done]|intros [[H1 H2 H3 H4] H5]; by constructor]. Qed.

Definition bump (w : W) : W := mk_world (sets w) (descriptions w) (S (next_description w)) (inodes w) (locks w) (events w).

(** A free slot gets a new description. *)
Definition install (me fd : Z) (f : OpenFileDescription) (w : W) : W :=
  set_table me (put_slot fd (Some (next_description w))) (set_description (next_description w) (fun _ => f) (bump w)).

Lemma refs_install w me fd f : me ∈ pids -> m_open_files (sets w me) !! Z.to_nat fd = Some None ->
  refs pids (install me fd f w) ≡ₚ next_description w :: refs pids w.
Proof.
  intros Hme Hs. unfold install. set (w1 := set_description _ _ _). pose proof (refs_put w1 me fd None (Some (next_description w)) Hme Hs) as HP.
  cbn in HP. rewrite app_nil_r in HP. rewrite HP. change (refs pids w1) with (refs pids w). solve_Permutation.
Qed.

Lemma install_shape ds w me fd f : shape ds w -> me ∈ pids -> in_table fd = true -> m_open_files (sets w me) !! Z.to_nat fd = Some None -> shape ds (install me fd f w).
Proof.
  intros [H1 H2 H3 H4] Hme Hfd Hs. split; [done| | |].
  - apply tables_set; [done|]. apply put_slot_ok; [apply H2|done|done].
  - intros p Hp. by apply (in_own_table w me).
  - intros x Hx. rewrite (refs_install w me fd f Hme Hs) in Hx. cbn. apply elem_of_cons in Hx as [->|Hx]; [lia|]. apply H4 in Hx. lia.
Qed.

Lemma flags_of_install ds w me fd f i : shape ds w -> flags_of (install me fd f w) i (next_description w :: refs pids w ++ ds) =
  (if decide (f_inode f = i) then [status_flags f] else []) ++ flags_of w i (refs pids w ++ ds).
Proof.
  intros [_ _ _ H4]. rewrite flags_of_cons. f_equal; [unfold install; cbn; by rewrite fn_lookup_insert|].
  revert H4. generalize (refs pids w ++ ds). induction l as [|x l IH]; intros H4; [done|]. rewrite !flags_of_cons, IH by (intros y Hy; apply H4; by right).
  assert (x < next_description w)%nat by (apply H4; left). unfold install. cbn. by rewrite fn_lookup_insert_ne by lia.
Qed.

Lemma install_inv ds w me fd f : inv ds w -> me ∈ pids -> in_table fd = true -> m_open_files (sets w me) !! Z.to_nat fd = Some None ->
  i_mode (inodes w) (f_inode f) <> IFIFO -> inv ds (install me fd f w).
Proof.
  rewrite !inv_split. intros [Hw Ha] Hme Hfd Hs Hm. split; [by apply install_shape|]. rewrite (refs_install w me fd f Hme Hs). intros i. cbn [app].
  rewrite (flags_of_install ds w me fd f i Hw). case_decide as Ei; [subst i; by apply unopened_counts|apply Ha].
Qed.

(** ** Running the code *)
Lemma sbind_ok {A B} (m : stateful W A) (k : A -> stateful W B) w a w' : m w = (Ok a, w') -> sbind m k w = k a w'.
Proof. unfold sbind. by intros ->. Qed.

Lemma sbind_err {A B} (m : stateful W A) (k : A -> stateful W B) w e w' : m w = (Err e, w') -> sbind m k w = (Err e, w').
Proof. unfold sbind. by intros ->. Qed.

Lemma file_at_run w me fd : table_ok (sets w me) -> in_table fd = true -> file_at me fd w = (Ok (open_at w me fd), w).
Proof. intros Hok Hfd. unfold file_at, open_at. rewrite Hfd. destruct (ok_lookup _ fd Hok Hfd) as [o ->]. done. Qed.

Lemma validate_fd_run w me fd : table_ok (sets w me) -> validate_fd me fd w = (match open_at w me fd with Some _ => Ok tt | None => Err EBADF end, w).
Proof.
  intros Hok. unfold validate_fd. destruct (in_table fd) eqn:Hfd.
  - pose proof Hfd as Hr%in_table_spec. change (Z.of_nat OPEN_MAX) with 128. rewrite (proj2 (Z.ltb_ge _ _)), (proj2 (Z.leb_gt _ _)) by lia. cbn [orb].
    rewrite (sbind_ok _ _ _ _ _ (file_at_run w me fd Hok Hfd)). by destruct (open_at w me fd).
  - assert ((fd <? 0) || (Z.of_nat OPEN_MAX <=? fd) = true) as ->; [|unfold open_at; by rewrite Hfd].
    unfold in_table in Hfd. change (Z.of_nat OPEN_MAX) with 128 in *. rewrite andb_false_iff, Z.leb_gt, Z.ltb_ge in Hfd. rewrite orb_true_iff, Z.ltb_lt, Z.leb_le. lia.
Qed.

Lemma open_at_slot w me fd d : open_at w me fd = Some d -> in_table fd = true /\ m_open_files (sets w me) !! Z.to_nat fd = Some (Some d).
Proof. unfold open_at. case_match; [|done]. destruct (m_open_files (sets w me) !! Z.to_nat fd) as [[x|]|]; naive_solver. Qed.

Lemma open_at_free w me fd : table_ok (sets w me) -> in_table fd = true -> open_at w me fd = None -> m_open_files (sets w me) !! Z.to_nat fd = Some None.
Proof. intros Hok Hfd. unfold open_at. rewrite Hfd. destruct (ok_lookup _ fd Hok Hfd) as [o ->]. cbn. by intros ->. Qed.

Lemma reference_run w me fd d : open_at w me fd = Some d -> reference me fd w = (Ok d, w).
Proof. intros [Hfd Hs]%open_at_slot. unfold reference, sbind, file_at. by rewrite Hfd, Hs. Qed.

Lemma description_run w me fd d : open_at w me fd = Some d -> description me fd w = (Ok (descriptions w d), w).
Proof. intros Hd. unfold description. by rewrite (sbind_ok _ _ _ _ _ (reference_run w me fd d Hd)). Qed.

Lemma put_file_run w me fd o : in_table fd = true -> put_file me fd o w = (Ok tt, set_table me (put_slot fd o) w).
Proof. intros Hfd. unfold put_file, sbind, sassert. by rewrite Hfd. Qed.

Lemma open_at_refs ds w me fd d : me ∈ pids -> open_at w me fd = Some d -> d ∈ refs pids w ++ ds.
Proof.
  intros Hme [Hfd Hs]%open_at_slot. apply elem_of_app. left. unfold refs. apply list_elem_of_bind. exists me. split; [|done].
  unfold table_refs. apply list_elem_of_omap. exists (Some d). split; [by eapply list_elem_of_lookup_2|done].
Qed.

(** The descriptions are those of before, up to their locks. *)
Definition same_files (w w' : W) : Prop := next_description w' = next_description w /\ forall d,
  f_inode (descriptions w' d) = f_inode (descriptions w d) /\ f_path (descriptions w' d) = f_path (descriptions w d) /\
  f_offset (descriptions w' d) = f_offset (descriptions w d) /\ status_flags (descriptions w' d) = status_flags (descriptions w d).

#[global] Instance same_files_refl : Reflexive same_files.
Proof. by intros w. Qed.
#[global] Instance same_files_trans : Transitive same_files.
Proof. intros w1 w2 w3 [E1 H1] [E2 H2]. split; [congruence|]. intros d. specialize (H1 d). specialize (H2 d). intuition congruence. Qed.

Lemma same_files_flock w d l sh ls : same_files w (set_description d (with_flock l sh ls) w).
Proof. split; [done|]. intros x. cbn. destruct (decide (x = d)) as [->|Ne]; [by rewrite fn_lookup_insert|by rewrite fn_lookup_insert_ne]. Qed.

Lemma open_at_put w me fd o p fd' : table_ok (sets w me) -> in_table fd = true ->
  open_at (set_table me (put_slot fd o) w) p fd' = if decide (p = me /\ fd' = fd) then o else open_at w p fd'.
Proof.
  intros Hok Hfd. unfold open_at. cbn. destruct (decide (p = me)) as [->|Np]; [|rewrite fn_lookup_insert_ne by done; by rewrite decide_False by tauto].
  rewrite fn_lookup_insert. cbn. destruct (decide (fd' = fd)) as [->|Nf].
  - rewrite decide_True by done. rewrite Hfd, list_lookup_insert_eq; [done|]. apply in_table_spec in Hfd. rewrite (ok_files _ Hok). unfold OPEN_MAX. lia.
  - rewrite decide_False by tauto. destruct (in_table fd') eqn:Hfd'; [|done]. rewrite list_lookup_insert_ne; [done|]. apply in_table_spec in Hfd, Hfd'. lia.
Qed.

Lemma cloexec_at_bit w me fd b p fd' : table_ok (sets w me) -> in_table fd = true -> in_table fd' = true ->
  cloexec_at (set_table me (store_bit fd b) w) p fd' = if decide (p = me /\ fd' = fd) then b else cloexec_at w p fd'.
Proof.
  intros Hok Hfd Hfd'. unfold cloexec_at. cbn. destruct (decide (p = me)) as [->|Np]; [|rewrite fn_lookup_insert_ne by done; by rewrite decide_False by tauto].
  rewrite fn_lookup_insert, cloexec_bit_store by done. destruct (decide (fd = fd')) as [->|Ne]; [by rewrite decide_True|by rewrite decide_False by (intros [_ ?]; done)].
Qed.

Lemma alter_insert {A} (f : A -> A) (l : list A) k x : l !! k = Some x -> <[k := f x]> l = alter f k l.
Proof. revert k. induction l as [|y l IH]; intros [|k] Hk; cbn in *; [done|done|congruence|]. f_equal. by apply IH. Qed.

Lemma remove_cloexec_run w me fd x : m_cloexec_files (sets w me) !! Z.to_nat (fd / 32) = Some x -> remove_cloexec me fd w = (Ok tt, set_table me (store_bit fd false) w).
Proof.
  intros Hx. unfold remove_cloexec, sbind, cloexec_word. rewrite Hx. unfold put_cloexec, modify, set_table, store_bit. rewrite (alter_insert (fun x => Z.land x (bnot 32 (Z.shiftl 1 (fd `mod` 32)))) _ _ _ Hx). done.
Qed.

Lemma add_cloexec_run w me fd x : m_cloexec_files (sets w me) !! Z.to_nat (fd / 32) = Some x -> add_cloexec me fd w = (Ok tt, set_table me (store_bit fd true) w).
Proof.
  intros Hx. unfold add_cloexec, sbind, cloexec_word. rewrite Hx. unfold put_cloexec, modify, set_table, store_bit. rewrite (alter_insert (fun x => Z.lor x (Z.shiftl 1 (fd `mod` 32))) _ _ _ Hx). done.
Qed.

Lemma is_cloexec_run w me fd : table_ok (sets w me) -> in_table fd = true -> is_cloexec me fd w = (Ok (cloexec_at w me fd), w).
Proof.
  intros Hok Hfd. destruct (ok_word _ fd Hok Hfd) as (x & Hx & Hr). unfold is_cloexec, sbind, cloexec_word, cloexec_at, cloexec_bit. rewrite Hx. cbn. do 2 f_equal.
  pose proof (fd_mod fd). by rewrite land_bit_testbit by lia.
Qed.

Lemma release_flock_run ds w me d : inv ds w -> exists w', release_flock me d w = (Ok tt, w') /\ inv ds w' /\ sets w' = sets w /\ same_files w w' /\ inodes w' = inodes w.
Proof.
  intros Hi. unfold release_flock, sbind, sget. case_match; [by exists w|]. case_match.
  - eexists. split; [done|]. split_and!; [|done|apply same_files_flock|done]. by apply inv_add_event, inv_set_description.
  - eexists. split; [done|]. split_and!; [|done|apply same_files_flock|done]. by apply inv_set_description.
Qed.

(** The descriptors of [me] that satisfy [P] are gone, and nothing else. *)
Record closed (me : Z) (P : Z -> bool) (w w' : W) : Prop := {
  closed_open p fd : open_at w' p fd = if bool_decide (p = me) && P fd then None else open_at w p fd;
  closed_bits p fd : in_table fd = true -> cloexec_at w' p fd = if bool_decide (p = me) && P fd then false else cloexec_at w p fd;
  closed_files : same_files w w'
}.

Lemma closed_refl me P w : (forall p, table_ok (sets w p)) -> (forall fd, P fd = true -> open_at w me fd = None) -> closed me P w w.
Proof.
  intros Hok HP. split; [| |done].
  - intros p fd. destruct (bool_decide_reflect (p = me)) as [->|]; [|done]. cbn. destruct (P fd) eqn:E; [by apply HP|done].
  - intros p fd Hfd. destruct (bool_decide_reflect (p = me)) as [->|]; [|done]. cbn. destruct (P fd) eqn:E; [|done].
    destruct (cloexec_at w me fd) eqn:Eb; [|done]. exfalso. eapply (ok_cloexec _ (Hok me)); [done|exact Eb|]. apply open_at_free; [apply Hok|done|by apply HP].
Qed.

Lemma closed_compose me P Q w1 w2 w3 : closed me P w1 w2 -> closed me Q w2 w3 -> closed me (fun fd => P fd || Q fd) w1 w3.
Proof.
  intros [O1 B1 F1] [O2 B2 F2]. split; [| |by etrans].
  - intros p fd. rewrite O2, O1. by destruct (bool_decide (p = me)), (P fd), (Q fd).
  - intros p fd Hfd. rewrite B2, B1 by done. by destruct (bool_decide (p = me)), (P fd), (Q fd).
Qed.

Lemma closed_ext me P Q w w' : (forall fd, in_table fd = true -> P fd = Q fd) -> closed me P w w' -> closed me Q w w'.
Proof.
  intros HPQ [O B F]. split; [| |done].
  - intros p fd. rewrite O. destruct (in_table fd) eqn:E; [by rewrite HPQ|]. assert (open_at w p fd = None) as -> by (unfold open_at; by rewrite E). by destruct (_ && P fd), (_ && Q fd).
  - intros p fd Hfd. rewrite B by done. by rewrite HPQ.
Qed.

Lemma close_run ds w me fd : inv ds w -> me ∈ pids ->
  exists w', close me fd w = (match open_at w me fd with Some _ => Ok tt | None => Err EBADF end, w') /\ inv ds w' /\ closed me (Z.eqb fd) w w'.
Proof.
  intros Hi Hme. pose proof (inv_tables _ _ Hi) as Hok. unfold close. destruct (open_at w me fd) as [d|] eqn:Ed.
  2: { rewrite (sbind_err _ _ _ EBADF w) by (by rewrite validate_fd_run, Ed). exists w. split_and!; [done|done|]. apply closed_refl; [done|]. intros fd' ->%Z.eqb_eq. done. }
  rewrite (sbind_ok _ _ _ tt w) by (by rewrite validate_fd_run, Ed). rewrite (sbind_ok _ _ _ _ _ (reference_run w me fd d Ed)).
  destruct (open_at_slot w me fd d Ed) as [Hfd Hs]. destruct (release_inv ds w me fd d Hi Hme Hfd Hs) as (n' & En & Hi2).
  rewrite (sbind_ok _ _ _ _ _ En). rewrite (sbind_ok _ _ _ _ _ (put_file_run _ me fd None Hfd)).
  set (w1 := set_inodes n' w) in *. destruct (ok_word _ fd (Hok me) Hfd) as (x & Hx & _).
  rewrite (sbind_ok _ _ _ tt (set_table me (store_bit fd false) (set_table me (put_slot fd None) w1))) by (apply (remove_cloexec_run _ _ _ x); cbn; by rewrite fn_lookup_insert).
  set (w2 := set_table me (store_bit fd false) _) in *.
  destruct (release_flock_run ds w2 me d Hi2) as (w3 & E3 & Hi3 & Hs3 & Hf3 & _). rewrite (sbind_ok _ _ _ _ _ E3).
  eexists. split; [done|]. split; [by apply inv_set_lock_table|].
  assert (Ho3 : forall p fd', open_at w3 p fd' = open_at w2 p fd') by (intros; unfold open_at; by rewrite Hs3).
  assert (Hb3 : forall p fd', cloexec_at w3 p fd' = cloexec_at w2 p fd') by (intros; unfold cloexec_at; by rewrite Hs3).
  split; [| |exact Hf3].
  - intros p fd'. etrans; [apply Ho3|]. etrans; [|etrans; [apply (open_at_put w1 me fd None p fd' (Hok me) Hfd)|]].
    + unfold open_at, w2. cbn. destruct (decide (p = me)) as [->|Np]; [by rewrite !fn_lookup_insert|by rewrite !fn_lookup_insert_ne].
    + destruct (bool_decide_reflect (p = me)), (Z.eqb_spec fd fd'); case_decide; cbn; naive_solver.
  - intros p fd' Hfd'. etrans; [apply Hb3|]. unfold cloexec_at, w2. cbn. destruct (bool_decide_reflect (p = me)) as [->|Np]; [|by rewrite !fn_lookup_insert_ne].
    rewrite !fn_lookup_insert. etrans; [apply (cloexec_bit_store (sets w me) fd false fd' (Hok me) Hfd Hfd')|]. destruct (Z.eqb_spec fd fd'); case_decide; cbn; naive_solver.
Qed.

Lemma ignore_close_run ds w me fd : inv ds w -> me ∈ pids -> exists w', ignore (close me fd) w = (Ok tt, w') /\ inv ds w' /\ closed me (Z.eqb fd) w w'.
Proof. intros Hi Hme. destruct (close_run ds w me fd Hi Hme) as (w' & E & H). exists w'. split; [|done]. unfold ignore. rewrite E. by case_match. Qed.

Lemma close_each_run ds me fds : me ∈ pids -> forall w, inv ds w ->
  exists w', each_fd (fun fd => ignore (close me fd)) fds w = (Ok tt, w') /\ inv ds w' /\ closed me (fun fd => bool_decide (fd ∈ fds)) w w'.
Proof.
  intros Hme. induction fds as [|fd fds IH]; intros w Hi; cbn [each_fd].
  - exists w. split_and!; [done|done|]. apply closed_refl; [apply Hi|]. intros fd Hfd. by apply bool_decide_eq_true, not_elem_of_nil in Hfd.
  - destruct (ignore_close_run ds w me fd Hi Hme) as (w1 & E1 & Hi1 & Hc1). rewrite (sbind_ok _ _ _ _ _ E1).
    destruct (IH w1 Hi1) as (w2 & E2 & Hi2 & Hc2). exists w2. split_and!; [done|done|].
    eapply closed_ext; [|by eapply closed_compose]. intros x _. cbn. destruct (Z.eqb_spec fd x) as [->|Ne]; cbn; [|apply bool_decide_ext; set_solver].
    symmetry. apply bool_decide_eq_true. left.
Qed.

Lemma close_cloexec_each_run ds me fds : me ∈ pids -> Forall (fun fd => in_table fd = true) fds -> forall w, inv ds w ->
  exists w', each_fd (fun fd => let! c := is_cloexec me fd in if c then ignore (close me fd) else sret tt) fds w = (Ok tt, w') /\ inv ds w' /\
    closed me (fun fd => bool_decide (fd ∈ fds) && cloexec_at w me fd) w w'.
Proof.
  intros Hme Hfds. induction fds as [|fd fds IH]; intros w Hi; cbn [each_fd].
  - exists w. split_and!; [done|done|]. apply closed_refl; [apply Hi|]. intros fd [Hfd _]%andb_true_iff. by apply bool_decide_eq_true, not_elem_of_nil in Hfd.
  - apply Forall_cons_1 in Hfds as [Hfd Hfds].
    assert (exists w1, (let! c := is_cloexec me fd in if c then ignore (close me fd) else sret tt) w = (Ok tt, w1) /\ inv ds w1 /\ closed me (fun x => (fd =? x) && cloexec_at w me fd) w w1)
      as (w1 & E1 & Hi1 & Hc1).
    { rewrite (sbind_ok _ _ _ _ _ (is_cloexec_run w me fd (inv_tables _ _ Hi me) Hfd)). destruct (cloexec_at w me fd).
      - destruct (ignore_close_run ds w me fd Hi Hme) as (w1 & E1 & Hi1 & Hc1). exists w1. split_and!; [done|done|]. eapply closed_ext; [|exact Hc1]. intros x _. cbn. by rewrite andb_true_r.
      - exists w. split_and!; [done|done|]. apply closed_refl; [apply Hi|]. intros x Hx. by rewrite andb_false_r in Hx. }
    rewrite (sbind_ok _ _ _ _ _ E1). destruct (IH Hfds w1 Hi1) as (w2 & E2 & Hi2 & Hc2). exists w2. split_and!; [done|done|].
    eapply closed_ext; [|by eapply closed_compose]. intros x Hx. cbn. rewrite (closed_bits _ _ _ _ Hc1) by done. rewrite (bool_decide_eq_true_2 (me = me)) by done. cbn [andb].
    destruct (Z.eqb_spec fd x) as [->|Ne]; cbn.
    + rewrite (bool_decide_eq_true_2 (x ∈ x :: fds)) by left. destruct (cloexec_at w me x); by rewrite ?andb_false_r.
    + rewrite (bool_decide_ext (x ∈ fd :: fds) (x ∈ fds)) by set_solver. done.
Qed.

Lemma all_fds_spec fd : fd ∈ all_fds <-> in_table fd = true.
Proof. unfold all_fds. rewrite elem_of_seqZ, in_table_spec. change (Z.of_nat OPEN_MAX) with 128. lia. Qed.

Lemma all_fds_ok : Forall (fun fd => in_table fd = true) all_fds.
Proof. apply list.Forall_forall. intros fd. by apply all_fds_spec. Qed.

Lemma close_all_run ds w me : inv ds w -> me ∈ pids -> exists w', close_all me w = (Ok tt, w') /\ inv ds w' /\ closed me (fun _ => true) w w'.
Proof.
  intros Hi Hme. destruct (close_each_run ds me all_fds Hme w Hi) as (w' & E & Hi' & Hc). exists w'. split_and!; [done|done|].
  eapply closed_ext; [|exact Hc]. intros fd Hfd. by apply bool_decide_eq_true, all_fds_spec.
Qed.

Lemma close_cloexec_run ds w me : inv ds w -> me ∈ pids -> exists w', close_cloexec me w = (Ok tt, w') /\ inv ds w' /\ closed me (cloexec_at w me) w w'.
Proof.
  intros Hi Hme. destruct (close_cloexec_each_run ds me all_fds Hme all_fds_ok w Hi) as (w' & E & Hi' & Hc). exists w'. split_and!; [done|done|].
  eapply closed_ext; [|exact Hc]. intros fd Hfd. cbn. by rewrite bool_decide_eq_true_2 by (by apply all_fds_spec).
Qed.

(** A free descriptor of [me] now refers to [d], and nothing else changed. *)
Record opened (me fd : Z) (d : nat) (w w' : W) : Prop := {
  opened_open p x : open_at w' p x = if decide (p = me /\ x = fd) then Some d else open_at w p x;
  opened_bits p x : cloexec_at w' p x = cloexec_at w p x;
  opened_files : same_files w w'
}.

Lemma cloexec_at_put w me fd o p x : cloexec_at (set_table me (put_slot fd o) w) p x = cloexec_at w p x.
Proof. unfold cloexec_at. cbn. destruct (decide (p = me)) as [->|Np]; [by rewrite fn_lookup_insert|by rewrite fn_lookup_insert_ne]. Qed.

Lemma acquire_run ds w me fd d : inv ds w -> me ∈ pids -> in_table fd = true -> open_at w me fd = None -> d ∈ refs pids w ++ ds ->
  exists w1 w', put_file me fd (Some d) w = (Ok tt, w1) /\ notify_clone d w1 = (Ok tt, w') /\ inv ds w' /\ opened me fd d w w'.
Proof.
  intros Hi Hme Hfd Ho Hd. pose proof (inv_tables _ _ Hi me) as Hok.
  destruct (acquire_inv ds w me fd d Hi Hme Hfd (open_at_free w me fd Hok Hfd Ho) Hd) as (n' & E & Hi').
  eexists _, _. split; [by apply put_file_run|]. split; [exact E|]. split; [done|].
  split; [intros p x; by apply (open_at_put w)|intros p x; apply (cloexec_at_put w)|done].
Qed.

Lemma free_not_cloexec ds w me fd : inv ds w -> in_table fd = true -> open_at w me fd = None -> cloexec_at w me fd = false.
Proof.
  intros Hi Hfd Ho. destruct (cloexec_at w me fd) eqn:E; [|done]. exfalso. eapply (ok_cloexec _ (inv_tables _ _ Hi me)); [done|exact E|].
  apply open_at_free; [apply Hi|done|done].
Qed.
End counted.
