(* ===== verification/FileDescriptorsOps.v ===== *)
(** * kernel/OpenFileDescriptorSet: every operation keeps the references counted

    What each operation does to the tables, and that it preserves the invariant of
    FileDescriptorsCorrect and fails no assertion. *)
From stdpp Require Import functions strings gmap.
From S2P Require Import Prelude BanMath RingBuffer Pipe StatefulLogic RecordLocks FileDescriptors FileDescriptorsCorrect.

Lemma filter_seqZ_head (P : Z -> Prop) `{!forall x, Decision (P x)} k m fd rest : filter P (seqZ m (Z.of_nat k)) = fd :: rest ->
  P fd /\ m <= fd < m + Z.of_nat k /\ forall x, m <= x < fd -> ~ P x.
Proof.
  revert m. induction k as [|k IH]; intros m; [done|]. rewrite seqZ_cons by lia. replace (Z.pred (Z.of_nat (S k))) with (Z.of_nat k) by lia. rewrite filter_cons. case_decide as Hm.
  - intros [= <- _]. split_and!; [done|lia|lia|]. intros x Hx. lia.
  - intros (Hp & Hr & Hb)%IH. split_and!; [done|lia|lia|]. intros x Hx. destruct (decide (x = m)) as [->|]; [done|]. apply Hb. lia.
Qed.

Section ops.
Context {N : Type} `{!Inodes N} `{!CountedInodes N}.
Context (pids : list Z) (Hpids : NoDup pids).

Abbreviation W := (world N).
Abbreviation inv := (inv pids).
Implicit Types w : W.

(** ** Free descriptors *)
Definition lowest_free (w : W) (me fd : Z) : Prop := in_table fd = true /\ open_at w me fd = None /\ forall x, 0 <= x < fd -> open_at w me x <> None.

Lemma elem_of_free_fds w me fd : table_ok (sets w me) -> fd ∈ free_fds w me <-> in_table fd = true /\ open_at w me fd = None.
Proof.
  intros Hok. unfold free_fds. rewrite list_elem_of_filter. change (seqZ 0 (Z.of_nat OPEN_MAX)) with all_fds. rewrite all_fds_spec. unfold open_at.
  split; [intros [Hs ->]; by rewrite Hs|]. intros [Hfd Ho]. rewrite Hfd in Ho. destruct (ok_lookup _ fd Hok Hfd) as [o Eo]. rewrite Eo in Ho |- *. cbn in Ho. by subst.
Qed.

Lemma free_fds_head w me fd fds : table_ok (sets w me) -> free_fds w me = fd :: fds -> lowest_free w me fd.
Proof.
  intros Hok E. assert (Hin : fd ∈ free_fds w me) by (rewrite E; left). apply elem_of_free_fds in Hin as [Hfd Ho]; [|done]. split_and!; [done|done|].
  intros x Hx Hn. apply in_table_spec in Hfd. assert (Hs : m_open_files (sets w me) !! Z.to_nat x = Some None).
  { apply open_at_free; [done| |done]. apply in_table_spec. lia. }
  unfold free_fds in E. apply filter_seqZ_head in E as (_ & _ & Hb). by apply (Hb x).
Qed.

Lemma get_free_fd_run ds w me : inv ds w ->
  (exists fd, get_free_fd me w = (Ok fd, w) /\ lowest_free w me fd) \/ (get_free_fd me w = (Err EMFILE, w) /\ forall fd, in_table fd = true -> open_at w me fd <> None).
Proof.
  intros Hi. pose proof (inv_tables _ _ _ Hi me) as Hok. unfold get_free_fd, sbind, sget. destruct (free_fds w me) as [|fd fds] eqn:E.
  - right. split; [done|]. intros fd Hfd Ho. assert (Hin : fd ∈ free_fds w me) by (by apply elem_of_free_fds). rewrite E in Hin. by apply not_elem_of_nil in Hin.
  - left. exists fd. split; [done|]. by eapply free_fds_head.
Qed.

Lemma get_free_fd_pair_run ds w me : inv ds w ->
  (exists fd1 fd2, get_free_fd_pair me w = (Ok (fd1, fd2), w) /\ lowest_free w me fd1 /\ fd1 <> fd2 /\ in_table fd2 = true /\ open_at w me fd2 = None) \/
  get_free_fd_pair me w = (Err EMFILE, w).
Proof.
  intros Hi. pose proof (inv_tables _ _ _ Hi me) as Hok. unfold get_free_fd_pair, sbind, sget. destruct (free_fds w me) as [|fd1 [|fd2 fds]] eqn:E; [by right|by right|].
  left. exists fd1, fd2. split; [done|]. split; [by eapply free_fds_head|].
  assert (Hnd : NoDup (free_fds w me)) by (apply list.NoDup_filter, NoDup_seqZ). rewrite E in Hnd. apply list.NoDup_cons in Hnd as [Hn _].
  assert (Hin : fd2 ∈ free_fds w me) by (rewrite E; right; left). apply elem_of_free_fds in Hin as [Hfd Ho]; [|done]. split_and!; [|done|done]. intros ->. apply Hn. left.
Qed.

(** ** Duplication *)

(** [fd] of [me] refers to [d] and is not closed by [exec]; nothing else changed. *)
Record points (me fd : Z) (d : nat) (w w' : W) : Prop := {
  points_open p x : open_at w' p x = if decide (p = me /\ x = fd) then Some d else open_at w p x;
  points_bits p x : in_table x = true -> cloexec_at w' p x = if decide (p = me /\ x = fd) then false else cloexec_at w p x;
  points_files : same_files w w'
}.

Lemma dup2_run ds w me fd fd2 d : inv ds w -> me ∈ pids -> open_at w me fd = Some d -> in_table fd2 = true -> fd <> fd2 ->
  exists w', dup2 me fd fd2 w = (Ok fd2, w') /\ inv ds w' /\ points me fd2 d w w'.
Proof.
  intros Hi Hme Hd Hfd2 Hne. pose proof Hfd2 as Hr%in_table_spec. unfold dup2. change (Z.of_nat OPEN_MAX) with 128.
  rewrite (proj2 (Z.ltb_ge _ _)), (proj2 (Z.leb_gt _ _)) by lia. cbn [orb].
  rewrite (sbind_ok _ _ _ tt w) by (rewrite validate_fd_run by apply Hi; by rewrite Hd). rewrite (proj2 (Z.eqb_neq _ _)) by done.
  destruct (ignore_close_run pids Hpids ds w me fd2 Hi Hme) as (w1 & E1 & Hi1 & Hc1). rewrite (sbind_ok _ _ _ _ _ E1).
  assert (Hd1 : open_at w1 me fd = Some d) by (rewrite (closed_open _ _ _ _ Hc1), (proj2 (Z.eqb_neq _ _)), andb_false_r by done; done).
  assert (Ho1 : open_at w1 me fd2 = None) by (by rewrite (closed_open _ _ _ _ Hc1), Z.eqb_refl, bool_decide_eq_true_2).
  rewrite (sbind_ok _ _ _ _ _ (reference_run w1 me fd d Hd1)).
  destruct (acquire_run pids Hpids ds w1 me fd2 d Hi1 Hme Hfd2 Ho1 (open_at_refs pids ds w1 me fd d Hme Hd1)) as (w0 & w2 & E0 & E2 & Hi2 & Hp2).
  rewrite (sbind_ok _ _ _ _ _ E0), (sbind_ok _ _ _ _ _ E2).
  rewrite (sbind_ok _ _ _ _ _ (is_cloexec_run w2 me fd2 (inv_tables _ _ _ Hi2 me) Hfd2)). rewrite (opened_bits _ _ _ _ _ Hp2), (free_not_cloexec pids ds w1 me fd2 Hi1 Hfd2 Ho1).
  exists w2. split; [done|]. split; [done|]. split.
  - intros p x. rewrite (opened_open _ _ _ _ _ Hp2), (closed_open _ _ _ _ Hc1). destruct (bool_decide_reflect (p = me)), (Z.eqb_spec fd2 x); repeat case_decide; cbn; naive_solver.
  - intros p x Hx. rewrite (opened_bits _ _ _ _ _ Hp2), (closed_bits _ _ _ _ Hc1) by done. destruct (bool_decide_reflect (p = me)), (Z.eqb_spec fd2 x); repeat case_decide; cbn; naive_solver.
  - etrans; [apply Hc1|apply Hp2].
Qed.

(** ** fork *)
Lemma clone_each_run ds me other fds : me ∈ pids -> other ∈ pids -> me <> other -> NoDup fds -> Forall (fun fd => in_table fd = true) fds -> forall w, inv ds w ->
  (forall fd, fd ∈ fds -> open_at w me fd = None) ->
  exists w', each_fd (fun fd =>
    let! bad := is_error (validate_fd other fd) in
    if bad then sret tt else let! d := reference other fd in let! _ := put_file me fd (Some d) in notify_clone d) fds w = (Ok tt, w') /\ inv ds w' /\
    (forall p fd, open_at w' p fd = if decide (p = me /\ fd ∈ fds) then open_at w other fd else open_at w p fd) /\
    (forall p fd, cloexec_at w' p fd = cloexec_at w p fd) /\ same_files w w'.
Proof.
  intros Hme Hother Hne. induction fds as [|fd fds IH]; intros Hnd Hfds w Hi Hfree; cbn [each_fd].
  { exists w. split_and!; [done|done| |done|done]. intros p fd. rewrite decide_False; [done|]. intros [_ Hn]. by apply not_elem_of_nil in Hn. }
  apply Forall_cons_1 in Hfds as [Hfd Hfds]. apply list.NoDup_cons in Hnd as [Hnin Hnd].
  assert (exists w1, (let! bad := is_error (validate_fd other fd) in if bad then sret tt else let! d := reference other fd in let! _ := put_file me fd (Some d) in notify_clone d) w = (Ok tt, w1) /\
    inv ds w1 /\ (forall p x, open_at w1 p x = if decide (p = me /\ x = fd) then open_at w other fd else open_at w p x) /\ (forall p x, cloexec_at w1 p x = cloexec_at w p x) /\ same_files w w1)
    as (w1 & E1 & Hi1 & Ho1 & Hb1 & Hf1).
  { unfold is_error. unfold sbind at 1. rewrite validate_fd_run by apply Hi. destruct (open_at w other fd) as [d|] eqn:Ed.
    - rewrite (sbind_ok _ _ _ _ _ (reference_run w other fd d Ed)).
      destruct (acquire_run pids Hpids ds w me fd d Hi Hme Hfd (Hfree fd ltac:(left)) (open_at_refs pids ds w other fd d Hother Ed)) as (w0 & w1 & E0 & E1 & Hi1 & [Ho Hb Hf]).
      exists w1. split_and!; [|done|exact Ho|exact Hb|exact Hf]. by rewrite (sbind_ok _ _ _ _ _ E0).
    - exists w. split_and!; [done|done| |done|done]. intros p x. case_decide as E; [|done]. destruct E as [-> ->]. apply Hfree. left. }
  rewrite (sbind_ok _ _ _ _ _ E1). destruct (IH Hnd Hfds w1 Hi1) as (w2 & E2 & Hi2 & Ho2 & Hb2 & Hf2).
  { intros x Hx. rewrite Ho1, decide_False by (intros [_ ->]; done). apply Hfree. by right. }
  exists w2. split_and!; [done|done| |intros; by rewrite Hb2|].
  - intros p x. rewrite Ho2, !Ho1. rewrite (decide_False (P := other = me /\ x = fd)) by naive_solver.
    destruct (decide (p = me)) as [->|]; [|rewrite !decide_False by tauto; done]. destruct (decide (x = fd)) as [->|].
    + rewrite (decide_False (P := me = me /\ fd ∈ fds)) by tauto. rewrite !decide_True by (try split; try left; done). done.
    + rewrite (decide_False (P := me = me /\ x = fd)) by tauto. apply decide_ext. set_solver.
  - by etrans.
Qed.

(** The table of [me] is a copy of that of [other]. *)
Record cloned (me other : Z) (w w' : W) : Prop := {
  cloned_open p fd : open_at w' p fd = open_at w (if decide (p = me) then other else p) fd;
  cloned_bits p fd : in_table fd = true -> cloexec_at w' p fd = cloexec_at w (if decide (p = me) then other else p) fd;
  cloned_files : same_files w w'
}.

Lemma clone_from_run ds w me other : inv ds w -> me ∈ pids -> other ∈ pids -> me <> other ->
  exists w', clone_from me other w = (Ok tt, w') /\ inv ds w' /\ cloned me other w w'.
Proof.
  intros Hi Hme Hother Hne. unfold clone_from. destruct (close_all_run pids Hpids ds w me Hi Hme) as (w1 & E1 & Hi1 & Hc1). rewrite (sbind_ok _ _ _ _ _ E1).
  assert (Ho1 : forall p fd, open_at w1 p fd = if decide (p = me) then None else open_at w p fd).
  { intros p fd. rewrite (closed_open _ _ _ _ Hc1). destruct (bool_decide_reflect (p = me)); cbn; by case_decide. }
  destruct (clone_each_run ds me other all_fds Hme Hother Hne (NoDup_seqZ _ _) all_fds_ok w1 Hi1) as (w2 & E2 & Hi2 & Ho2 & Hb2 & Hf2).
  { intros fd _. by rewrite Ho1, decide_True. }
  rewrite (sbind_ok _ _ _ _ _ E2). set (g := fun s => mk_set (m_open_files s) (m_cloexec_files (sets w2 other))). set (w3 := set_table me g w2).
  assert (Ho3 : forall p fd, open_at w3 p fd = open_at w2 p fd).
  { intros p fd. unfold open_at, w3. cbn. destruct (decide (p = me)) as [->|]; [by rewrite fn_lookup_insert|by rewrite fn_lookup_insert_ne]. }
  assert (Ho4 : forall p fd, open_at w3 p fd = open_at w (if decide (p = me) then other else p) fd).
  { intros p fd. rewrite Ho3, Ho2, !Ho1. rewrite (decide_False (P := other = me)) by done. destruct (decide (p = me)) as [->|]; [|by rewrite decide_False by tauto].
    destruct (decide (fd ∈ all_fds)) as [Hin|Hn]; [by rewrite decide_True|rewrite decide_False by tauto]. rewrite all_fds_spec in Hn. unfold open_at. by destruct (in_table fd). }
  exists w3. split; [done|]. split; [|split; [exact Ho4| |]].
  - apply inv_split in Hi2 as [[H1 H2 H3 H4] H5]. assert (Hr : refs pids w3 = refs pids w2) by (by apply refs_bits). apply inv_split. rewrite Hr. split; [|exact H5].
    split; [done| | |by rewrite Hr].
    + apply tables_set; [done|]. split; [apply H2|apply (H2 other)|apply (H2 other)|]. intros fd Hfd Hbit Hn. cbn in Hn.
      assert (Ho : open_at w3 me fd = None) by (rewrite Ho3; unfold open_at; by rewrite Hfd, Hn). rewrite Ho4, decide_True in Ho by done.
      apply (ok_cloexec _ (H2 other) fd Hfd Hbit). apply open_at_free; [apply H2|done|]. rewrite Ho2, decide_False by naive_solver. by rewrite Ho1, decide_False.
    + intros p Hp. by apply (in_own_table pids w2 me).
  - intros p fd Hfd. unfold cloexec_at at 1, w3. cbn. destruct (decide (p = me)) as [->|Np].
    + rewrite fn_lookup_insert. change (cloexec_at w2 other fd = cloexec_at w other fd). rewrite Hb2, (closed_bits _ _ _ _ Hc1) by done. by rewrite bool_decide_eq_false_2.
    + rewrite fn_lookup_insert_ne by done. change (cloexec_at w2 p fd = cloexec_at w p fd). rewrite Hb2, (closed_bits _ _ _ _ Hc1) by done. by rewrite bool_decide_eq_false_2.
  - etrans; [apply Hc1|exact Hf2].
Qed.

(** ** Every operation *)
Abbreviation safe ds := (without_panic (inv ds)).

Lemma sound_validated {A} ds me fd (k : unit -> stateful W A) :
  (forall w d, inv ds w -> open_at w me fd = Some d -> wp (k tt) (safe ds) w) -> sound (inv ds) (let! u := validate_fd me fd in k u).
Proof.
  intros Hk w Hi. destruct (open_at w me fd) as [d|] eqn:Ed.
  - unfold wp. rewrite (sbind_ok _ _ _ tt w) by (rewrite validate_fd_run by apply Hi; by rewrite Ed). by apply (Hk w d).
  - unfold wp. rewrite (sbind_err _ _ _ EBADF w) by (rewrite validate_fd_run by apply Hi; by rewrite Ed). done.
Qed.

Lemma wp_reference {A} me fd d (k : nat -> stateful W A) Q w : open_at w me fd = Some d -> wp (k d) Q w -> wp (let! x := reference me fd in k x) Q w.
Proof. intros Hd Hk. unfold wp. by rewrite (sbind_ok _ _ _ _ _ (reference_run w me fd d Hd)). Qed.

Lemma wp_description {A} me fd d (k : OpenFileDescription -> stateful W A) Q w : open_at w me fd = Some d -> wp (k (descriptions w d)) Q w -> wp (let! x := description me fd in k x) Q w.
Proof. intros Hd Hk. unfold wp. by rewrite (sbind_ok _ _ _ _ _ (description_run w me fd d Hd)). Qed.

Lemma wp_sget {A} (k : W -> stateful W A) Q w : wp (k w) Q w -> wp (let! x := sget in k x) Q w.
Proof. done. Qed.

Lemma sound_on_inodes {A} ds (m : stateful N A) : quiet counts m -> sound (inv ds) (on_inodes m).
Proof.
  intros Hq w Hi. destruct (Hq (inodes w) (inv_live pids ds w Hi)) as (H1 & H2 & _). unfold wp, on_inodes. destruct (m (inodes w)) as [r n]. split; [done|]. by apply inv_set_inodes.
Qed.

Lemma sound_store_offset ds me fd v : sound (inv ds) (store_offset me fd v).
Proof.
  intros w Hi. unfold store_offset, is_error, wp. unfold sbind at 1 3. rewrite validate_fd_run by apply Hi. destruct (open_at w me fd) as [d|] eqn:Ed; [|done].
  rewrite (sbind_ok _ _ _ _ _ (reference_run w me fd d Ed)). split; [done|]. by apply inv_set_description.
Qed.

Lemma wp_bind_safe {A B} ds (m : stateful W A) (k : A -> stateful W B) w : wp m (safe ds) w -> (forall a w', inv ds w' -> wp (k a) (safe ds) w') -> wp (sbind m k) (safe ds) w.
Proof. intros Hm Hk. apply wp_sbind. eapply wp_conseq; [exact Hm|]. intros [a|e|] w' [Hr Hw']; [by apply Hk|done|done]. Qed.

Lemma access_lor a b : Z.land b O_ACCMODE = 0 -> access (Z.lor a b) = access a.
Proof. intros Hb. unfold access. by rewrite Z.land_lor_distr_l, Hb, Z.lor_0_r. Qed.

Lemma access_land a b : Z.land b O_ACCMODE = O_ACCMODE -> access (Z.land a b) = access a.
Proof. intros Hb. unfold access. by rewrite <- Z.land_assoc, Hb. Qed.

Lemma land_access a b : Z.land b O_ACCMODE = 0 -> Z.land (Z.land a b) O_ACCMODE = 0.
Proof. intros Hb. by rewrite <- Z.land_assoc, Hb, Z.land_0_r. Qed.

Lemma sound_close ds me fd : me ∈ pids -> sound (inv ds) (close me fd).
Proof. intros Hme w Hi. destruct (close_run pids Hpids ds w me fd Hi Hme) as (w' & E & Hi' & _). eapply wp_run; [exact E|]. split; [by case_match|done]. Qed.

Lemma sound_add_cloexec ds me fd w : inv ds w -> in_table fd = true -> open_at w me fd <> None -> wp (add_cloexec me fd) (safe ds) w.
Proof.
  intros Hi Hfd Ho. destruct (ok_word _ fd (inv_tables _ _ _ Hi me) Hfd) as (x & Hx & _). eapply wp_run; [by eapply add_cloexec_run|]. split; [done|].
  apply inv_store_bit; [done|done|]. intros _ Hs. apply Ho. unfold open_at. by rewrite Hfd, Hs.
Qed.

Lemma sound_remove_cloexec ds me fd w : inv ds w -> in_table fd = true -> wp (remove_cloexec me fd) (safe ds) w.
Proof.
  intros Hi Hfd. destruct (ok_word _ fd (inv_tables _ _ _ Hi me) Hfd) as (x & Hx & _). eapply wp_run; [by eapply remove_cloexec_run|]. split; [done|]. by apply inv_store_bit.
Qed.

(** [F_DUPFD] gives the lowest free descriptor. *)
Lemma dupfd_run ds w me fd d extra : inv ds w -> me ∈ pids -> open_at w me fd = Some d ->
  (exists fd' w', fcntl me fd F_DUPFD extra w = (Ok fd', w') /\ lowest_free w me fd' /\ inv ds w' /\ points me fd' d w w') \/
  (fcntl me fd F_DUPFD extra w = (Err EMFILE, w) /\ forall x, in_table x = true -> open_at w me x <> None).
Proof.
  intros Hi Hme Hd. unfold fcntl. rewrite (sbind_ok _ _ _ tt w) by (rewrite validate_fd_run by apply Hi; by rewrite Hd). cbn [Z.eqb F_DUPFD Pos.eqb orb].
  destruct (get_free_fd_run ds w me Hi) as [(fd' & E & Hlow)|[E Hfull]]; [|right; split; [by rewrite (sbind_err _ _ _ _ _ E)|done]].
  left. pose proof Hlow as (Hfd' & Ho & _). rewrite (sbind_ok _ _ _ _ _ E), (sbind_ok _ _ _ _ _ (reference_run w me fd d Hd)).
  destruct (acquire_run pids Hpids ds w me fd' d Hi Hme Hfd' Ho (open_at_refs pids ds w me fd d Hme Hd)) as (w0 & w' & E0 & E1 & Hi' & [P1 P2 P3]).
  rewrite (sbind_ok _ _ _ _ _ E0), (sbind_ok _ _ _ _ _ E1). exists fd', w'. split_and!; [done|done|done|]. split; [exact P1| |done].
  intros p x Hx. rewrite P2. case_decide as Ex; [|done]. destruct Ex as [-> ->]. by apply (free_not_cloexec pids ds).
Qed.

Lemma sound_fcntl ds me fd cmd extra : me ∈ pids -> sound (inv ds) (fcntl me fd cmd extra).
Proof.
  intros Hme. apply sound_validated. intros w d Hi Hd. destruct (open_at_slot w me fd d Hd) as [Hfd _]. cbn beta.
  destruct (_ || _); [|destruct (cmd =? F_GETFD); [|destruct (cmd =? F_SETFD); [|destruct (cmd =? F_GETFL); [|destruct (cmd =? F_SETFL)]]]].
  - destruct (get_free_fd_run ds w me Hi) as [(fd' & Ef & Hfd' & Ho & _)|[Ef _]]; [|unfold wp; by rewrite (sbind_err _ _ _ _ _ Ef)].
    unfold wp. rewrite (sbind_ok _ _ _ _ _ Ef), (sbind_ok _ _ _ _ _ (reference_run w me fd d Hd)).
    destruct (acquire_run pids Hpids ds w me fd' d Hi Hme Hfd' Ho (open_at_refs pids ds w me fd d Hme Hd)) as (w0 & w' & Ep & Ec & Hi' & [P1 P2 P3]).
    rewrite (sbind_ok _ _ _ _ _ Ep), (sbind_ok _ _ _ _ _ Ec). apply wp_bind_safe; [|done]. destruct (cmd =? _); [|done].
    apply sound_add_cloexec; [done|done|]. by rewrite P1, decide_True.
  - unfold wp. rewrite (sbind_ok _ _ _ _ _ (is_cloexec_run w me fd (inv_tables _ _ _ Hi me) Hfd)). done.
  - apply wp_bind_safe; [|done]. destruct (has_flag _ _); [apply sound_add_cloexec; [done|done|by rewrite Hd]|by apply sound_remove_cloexec].
  - by apply (wp_description me fd d).
  - apply (wp_reference me fd d); [done|]. split; [done|]. apply inv_set_description; [done|]. intros f. split; [done|]. cbn [status_flags with_flags].
    rewrite access_lor by (by apply land_access). by apply access_land.
  - done.
Qed.

Lemma fcntl_lock_total ins emp push reg size inode cmd f t : is_lock_cmd cmd = true -> (fcntl_lock ins emp push reg size inode cmd f t).1 <> Panic.
Proof.
  intros Hc. unfold fcntl_lock. destruct (negb reg); [done|]. destruct (cmd =? F_GETLK) eqn:E1; [cbn; discriminate|]. destruct (_ || _) eqn:E2; [|unfold is_lock_cmd in Hc; by rewrite E1, E2 in Hc].
  destruct (l_type f =? F_UNLCK).
  - unfold sbind, unlock_range. destruct (s_fcntl_locks t inode); [|done]. destruct (unlock_loop _ _ _ _ _) as [ls ok]. by destruct ok.
  - unfold lock_range, sbind, sget, sput, sret, sfail. destruct (s_fcntl_locks t inode); [|destruct emp]; cbn -[lock_preventer]; try discriminate; destruct (lock_preventer f _), push, (cmd =? F_SETLK); discriminate.
Qed.

Lemma sound_fcntl_flock ds env me fd cmd : is_lock_cmd cmd = true -> le_read env <> Panic -> le_write env <> Panic -> sound (inv ds) (fcntl_flock env me fd cmd).
Proof.
  intros Hc Hr Hw. apply sound_bind; [by apply sound_lift|]. intros f. apply sound_validated. intros w d Hi Hd. apply (wp_description me fd d); [done|]. apply wp_sget.
  apply wp_bind_safe; [split; [|done]|].
  { unfold resolve_flock. repeat case_match; naive_solver. }
  intros f' w' Hi'. apply wp_bind_safe.
  - unfold wp, on_locks. pose proof (fcntl_lock_total (le_inserted env) (le_emplaced env) (le_pushed env)
      (bool_decide (i_mode (inodes w) (f_inode (descriptions w d)) = IFREG)) (i_size (inodes w) (f_inode (descriptions w d))) (f_inode (descriptions w d)) cmd f' (locks w') Hc) as Ht.
    destruct (fcntl_lock _ _ _ _ _ _ _ _ _) as [r t]. cbn in Ht. destruct r as [a|[]|]; (split; [done|]; by apply inv_set_lock_table).
  - intros [f2|] w2 Hi2; [|done]. apply wp_bind_safe; [|done]. by destruct (cmd =? F_GETLK).
Qed.

Lemma sound_ioctl ds me fd request arg enabled : enabled <> Panic -> sound (inv ds) (ioctl me fd request arg enabled).
Proof.
  intros He. apply sound_validated. intros w d Hi Hd. apply (wp_reference me fd d); [done|]. destruct (request =? FIONBIO).
  - apply wp_bind_safe; [by apply sound_lift|]. intros v w' Hi'. split; [done|]. apply inv_set_description; [done|]. intros f. split; [done|]. cbn [status_flags with_flags].
    destruct (negb _); [by apply access_lor|by apply access_land].
  - apply (wp_description me fd d); [done|]. pose proof (sound_on_inodes ds _ (ioctl_quiet (f_inode (descriptions w d)) request arg) w Hi) as H. unfold wp in *.
    destruct (on_inodes _ w) as [r w']. destruct r as [a|[]|]; try exact H. destruct H as [_ Hi']. by destruct (_ && _).
Qed.

Lemma sound_seek ds me fd offset whence : sound (inv ds) (seek me fd offset whence).
Proof.
  apply sound_validated. intros w d Hi Hd. apply (wp_reference me fd d); [done|]. apply (wp_description me fd d); [done|]. apply wp_sget.
  apply wp_bind_safe; [by repeat case_match|]. intros base w' Hi'. destruct (will_addition_overflow _ _); [done|]. cbv zeta. destruct (_ <? 0); [done|].
  split; [done|]. by apply inv_set_description.
Qed.

Lemma sound_truncate ds me fd len : sound (inv ds) (truncate me fd len).
Proof. apply sound_validated. intros w d Hi Hd. apply (wp_description me fd d); [done|]. by apply sound_on_inodes; [apply truncate_quiet|]. Qed.

Lemma sound_flock_turn ds inserted me fd op : sound (inv ds) (flock_turn inserted me fd op).
Proof.
  apply sound_validated. intros w d Hi Hd. apply (wp_reference me fd d); [done|]. apply (wp_description me fd d); [done|]. cbv zeta.
  assert (Hins : forall l sh, wp (if inserted then let! _ := modify (set_description d (with_flock l sh ({[me]} ∪ fl_lockers (descriptions w d)))) in sret (Done tt) else sfail ENOMEM) (safe ds) w).
  { intros l sh. destruct inserted; [|done]. split; [done|]. by apply inv_set_description. }
  assert (Hwait : wp (if has_flag op LOCK_NB then sfail EWOULDBLOCK else sret Blocked) (without_panic (A:=attempt unit) (inv ds)) w) by (by destruct (has_flag _ _)).
  destruct (_ =? LOCK_UN); [|destruct (_ =? LOCK_SH); [|destruct (_ =? LOCK_EX)]]; [| | |done].
  - destruct (bool_decide _); split; try done; [by apply inv_add_event, inv_set_description|by apply inv_set_description].
  - destruct (negb _); [done|]. by destruct (fl_shared _).
  - destruct (negb _); [done|]. by destruct (bool_decide _).
Qed.

Lemma sound_recvmsg ds me fd message flags : sound (inv ds) (recvmsg me fd message flags).
Proof.
  apply sound_validated. intros w d Hi Hd. apply (wp_description me fd d); [done|]. apply wp_sget. destruct (negb _); [done|]. destruct (_ && _); [done|].
  by apply sound_on_inodes; [apply recvmsg_quiet|].
Qed.

Lemma sound_sendmsg ds me fd message flags : sound (inv ds) (sendmsg me fd message flags).
Proof.
  apply sound_validated. intros w d Hi Hd. apply (wp_description me fd d); [done|]. apply wp_sget. destruct (negb (bool_decide _)); [done|]. destruct (i_has_hungup _ _).
  - apply wp_bind_safe; [|done]. destruct (negb _); [split; [done|by apply inv_add_event]|done].
  - destruct (_ && _); [done|]. by apply sound_on_inodes; [apply sendmsg_quiet|].
Qed.

Lemma sound_read ds me fd size : 0 <= size -> sound (inv ds) (read me fd size).
Proof.
  intros Hsize. apply sound_validated. intros w d Hi Hd. apply (wp_description me fd d); [done|]. destruct (negb _); [done|]. apply wp_sget. destruct (bool_decide _); [by apply sound_recvmsg|].
  destruct (_ && _); [done|]. destruct (_ && _); [done|]. apply wp_bind_safe; [by apply sound_on_inodes; [by apply read_quiet|]|].
  intros [data|] w' Hi'; [|done]. apply wp_bind_safe; [by apply sound_store_offset|done].
Qed.

Lemma sound_write ds me fd buffer : sound (inv ds) (write me fd buffer).
Proof.
  apply sound_validated. intros w d Hi Hd. apply (wp_description me fd d); [done|]. destruct (negb _); [done|]. apply wp_sget. cbv zeta. destruct (bool_decide _); [by apply sound_sendmsg|].
  destruct (i_has_error _ _); [split; [done|by apply inv_add_event]|]. destruct (_ && _); [done|]. apply wp_bind_safe; [by apply sound_on_inodes; [apply write_quiet|]|].
  intros [n|] w' Hi'; [|done]. apply wp_bind_safe; [by apply sound_store_offset|done].
Qed.

(** Directories: as long as the fuel lasts. *)
Lemma list_loop_inv ds fuel me fd inode offset len w : inv ds w -> inv ds (list_loop fuel me fd inode offset len w).2.
Proof.
  revert offset w. induction fuel as [|fuel IH]; intros offset w Hi; [done|]. cbn [list_loop]. pose proof (sound_on_inodes ds _ (list_next_quiet inode offset len) w Hi) as [_ H].
  destruct (on_inodes _ w) as [[n|e|] w']; cbn in H; [|destruct e; try exact H; by apply IH|exact H].
  eapply (wp_bind_safe ds _ (fun _ => sret n)); [by apply sound_store_offset|done].
Qed.

(** ** New descriptions *)
Context (created : nat -> bool).

Definition new_file (inode : Z) (path : string) (flags : Z) : OpenFileDescription := mk_description inode path 0 flags false false ∅.

Lemma wp_created {A} me fd inode path flags (k : nat -> stateful W A) Q w : created (next_description w) = true -> in_table fd = true ->
  wp (k (next_description w)) Q (install me fd (new_file inode path flags) w) ->
  wp (let! d := create_description created inode path 0 flags in let! _ := put_file me fd (Some d) in k d) Q w.
Proof.
  intros Hc Hfd Hk. unfold wp. rewrite (sbind_ok _ _ _ (next_description w) (set_description (next_description w) (fun _ => new_file inode path flags) (bump w)))
    by (unfold create_description; by rewrite Hc). rewrite (sbind_ok _ _ _ _ _ (put_file_run _ me fd _ Hfd)). exact Hk.
Qed.

(** A number for a description that was not allocated is not used again. *)
Lemma bump_inv ds w : inv ds w -> inv ds (bump w).
Proof.
  intros [[H1 H2 H3 H4] Ha]%inv_split. apply inv_split. split; [split|]; try done. intros d Hd. apply H4 in Hd. cbn. lia.
Qed.

Lemma wp_install {A} ds me fd inode path flags (k : nat -> stateful W A) w : inv ds w -> in_table fd = true ->
  wp (k (next_description w)) (safe ds) (install me fd (new_file inode path flags) w) ->
  wp (let! d := create_description created inode path 0 flags in let! _ := put_file me fd (Some d) in k d) (safe ds) w.
Proof.
  intros Hi Hfd Hk. destruct (created (next_description w)) eqn:Hc; [by apply wp_created|]. unfold wp.
  rewrite (sbind_err _ _ _ ENOMEM (bump w)) by (unfold create_description; by rewrite Hc). split; [done|]. by apply bump_inv.
Qed.

Lemma open_at_install w me fd f p x : table_ok (sets w me) -> in_table fd = true ->
  open_at (install me fd f w) p x = if decide (p = me /\ x = fd) then Some (next_description w) else open_at w p x.
Proof. intros Hok Hfd. by apply (open_at_put (set_description (next_description w) (fun _ => f) (bump w))). Qed.

Lemma cloexec_at_install w me fd f p x : cloexec_at (install me fd f w) p x = cloexec_at w p x.
Proof. apply (cloexec_at_put (set_description (next_description w) (fun _ => f) (bump w))). Qed.

Lemma wp_inode_step {A B} ds (m : stateful N A) (k : A -> stateful W B) w i : quiet counts m -> inv ds w -> i_mode (inodes w) i <> IFIFO ->
  (forall a w', (m (inodes w)).1 = Ok a -> inodes w' = (m (inodes w)).2 -> inv ds w' -> i_mode (inodes w') i <> IFIFO -> wp (k a) (safe ds) w') ->
  wp (let! a := on_inodes m in k a) (safe ds) w.
Proof.
  intros Hq Hi Hm Hk. destruct (Hq (inodes w) (inv_live pids ds w Hi)) as (H1 & H2 & H3). apply wp_sbind. unfold wp at 1, on_inodes. destruct (m (inodes w)) as [r n] eqn:E. cbn in *.
  assert (Hi' : inv ds (set_inodes n w)) by (by apply inv_set_inodes). destruct r as [a|e|]; [|done|done]. apply Hk; [done|done|done|]. by apply H3.
Qed.

Lemma wp_add_cloexec {A} ds me fd (b : bool) w (a : A) : inv ds w -> in_table fd = true -> open_at w me fd <> None ->
  wp (let! _ := if b then add_cloexec me fd else sret tt in sret a) (safe ds) w.
Proof. intros Hi Hfd Ho. apply wp_bind_safe; [|done]. destruct b; [by apply sound_add_cloexec|done]. Qed.

Lemma open_safe ds me inode path flags w : inv ds w -> me ∈ pids -> inode <> 0 -> i_mode (inodes w) inode <> IFIFO -> wp (open created me inode path flags) (safe ds) w.
Proof.
  intros Hi Hme H0 Hm. unfold open, wp. rewrite (sbind_ok _ _ _ tt w) by (unfold sassert; by rewrite (proj2 (Z.eqb_neq _ _))). cbn beta.
  destruct (has_flag _ _); [done|]. destruct (_ && _); [done|]. apply wp_sget. destruct (_ && _); [done|]. rewrite (bool_decide_eq_false_2 _ Hm).
  assert (Hrest : forall w', inv ds w' -> i_mode (inodes w') inode <> IFIFO ->
    wp (let! inode0 := sret inode in let! fd := get_free_fd me in let! d := create_description created inode0 path 0 (Z.land flags status_mask) in
        let! _ := put_file me fd (Some d) in let! _ := (if has_flag flags O_CLOEXEC then add_cloexec me fd else sret tt : stateful W unit) in sret fd) (safe ds) w').
  { intros w' Hi' Hm'. unfold wp. rewrite (sbind_ok _ _ _ inode w') by done.
    destruct (get_free_fd_run ds w' me Hi') as [(fd & E & Hfd & Ho & _)|[E _]]; [|by rewrite (sbind_err _ _ _ _ _ E)]. rewrite (sbind_ok _ _ _ _ _ E).
    pose proof (inv_tables _ _ _ Hi' me) as Hok. apply wp_install; [done|done|].
    apply wp_add_cloexec; [|done|by rewrite open_at_install, decide_True]. apply install_inv; try done; by apply open_at_free. }
  destruct (_ && _); [|by apply Hrest]. apply (wp_inode_step _ _ _ _ inode); [apply truncate_quiet|done|done|]. intros [] w' _ _ Hi' Hm'. by apply Hrest.
Qed.

Lemma wp_create_socket {B} ds domain type mode (k : Z -> stateful W B) w : inv ds w ->
  (forall i w', inv ds w' -> i_mode (inodes w') i <> IFIFO -> (forall j, i_mode (inodes w) j <> IFIFO -> i_mode (inodes w') j <> IFIFO) -> wp (k i) (safe ds) w') ->
  wp (let! i := on_inodes (create_socket domain type mode) in k i) (safe ds) w.
Proof.
  intros Hi Hk. apply wp_sbind. pose proof (create_socket_quiet domain type mode (inodes w) (inv_live pids ds w Hi)) as (H1 & H2 & H3). pose proof (create_socket_mode domain type mode (inodes w)) as H4.
  unfold wp at 1, on_inodes. destruct (create_socket _ _ _ _) as [r n]. cbn in *. assert (Hi1 : inv ds (set_inodes n w)) by (by apply inv_set_inodes).
  destruct r as [i|e|]; [|done|done]. apply Hk; [done|by apply H4|done].
Qed.

Lemma sound_parse_socket_info ds domain type protocol w : inv ds w -> wp (slift (parse_socket_info domain type protocol)) (safe ds) w.
Proof. intros Hi. split; [|done]. unfold parse_socket_info. repeat case_match; naive_solver. Qed.

Lemma socket_safe ds me domain type protocol w : inv ds w -> me ∈ pids -> wp (socket created me domain type protocol) (safe ds) w.
Proof.
  intros Hi Hme. apply wp_bind_safe; [by apply sound_parse_socket_info|]. clear w Hi. intros info w Hi. apply wp_create_socket; [done|]. intros i w1 Hi1 Hm _. cbv zeta.
  unfold wp. destruct (get_free_fd_run ds w1 me Hi1) as [(fd & E & Hfd & Ho & _)|[E _]]; [|by rewrite (sbind_err _ _ _ _ _ E)]. rewrite (sbind_ok _ _ _ _ _ E).
  pose proof (inv_tables _ _ _ Hi1 me) as Hok. apply wp_install; [done|done|].
  apply wp_add_cloexec; [|done|by rewrite open_at_install, decide_True]. apply install_inv; try done; by apply open_at_free.
Qed.

Lemma socketpair_safe ds me domain type protocol w : inv ds w -> me ∈ pids -> wp (socketpair created me domain type protocol) (safe ds) w.
Proof.
  intros Hi Hme. apply wp_bind_safe; [by apply sound_parse_socket_info|]. clear w Hi. intros info w Hi. apply wp_create_socket; [done|]. intros i1 w1 Hi1 Hm1 _.
  apply wp_create_socket; [done|]. intros i2 w2 Hi2 Hm2 Hk2. apply Hk2 in Hm1. clear Hk2.
  apply wp_sbind. destruct (connect_sockets_quiet (si_domain info) i1 i2 (inodes w2) (inv_live pids ds w2 Hi2)) as (H1 & H2 & H3). unfold wp at 1, on_inodes.
  destruct (connect_sockets _ _ _ _) as [r n]. cbn in *. assert (Hi3 : inv ds (set_inodes n w2)) by (by apply inv_set_inodes). destruct r as [[]|e|]; [|done|done].
  set (w3 := set_inodes n w2) in *. assert (Hm3 : i_mode (inodes w3) i1 <> IFIFO) by (by apply H3). assert (Hm4 : i_mode (inodes w3) i2 <> IFIFO) by (by apply H3).
  unfold wp. destruct (get_free_fd_pair_run ds w3 me Hi3) as [(fd1 & fd2 & E & (Hfd1 & Ho1 & _) & Hne & Hfd2 & Ho2)|E]; [|by rewrite (sbind_err _ _ _ _ _ E)].
  rewrite (sbind_ok _ _ _ _ _ E). cbn [fst snd]. pose proof (inv_tables _ _ _ Hi3 me) as Hok. apply wp_install; [done|done|]. set (w4 := install me fd1 _ w3).
  assert (Hi4 : inv ds w4) by (apply install_inv; try done; by apply open_at_free). pose proof (inv_tables _ _ _ Hi4 me) as Hok4.
  assert (Ho4 : open_at w4 me fd2 = None) by (unfold w4; rewrite open_at_install, decide_False by naive_solver; done).
  apply wp_install; [done|done|]. set (w5 := install me fd2 _ w4). assert (Hi5 : inv ds w5) by (apply install_inv; try done; by apply open_at_free).
  assert (Ho5 : forall x, x = fd1 \/ x = fd2 -> open_at w5 me x <> None).
  { intros x Hx. unfold w5. rewrite open_at_install by done. case_decide; [done|]. unfold w4. rewrite open_at_install by done. rewrite decide_True; naive_solver. }
  apply wp_bind_safe; [|done]. destruct (si_cloexec info); [|done]. apply wp_sbind. destruct (ok_word _ fd1 (inv_tables _ _ _ Hi5 me) Hfd1) as (x & Hx & _).
  eapply wp_run; [by eapply add_cloexec_run|]. apply sound_add_cloexec; [|done|].
  - apply inv_store_bit; [done|done|]. intros _ Hs. apply (Ho5 fd1); [by left|]. unfold open_at. by rewrite Hfd1, Hs.
  - unfold open_at. cbn. rewrite fn_lookup_insert. cbn. apply (Ho5 fd2). by right.
Qed.

(** ** Pipes *)
Lemma pipe_counted ds w n i me fd1 fd2 : inv ds w -> me ∈ pids -> (forall fls, counts (inodes w) i fls -> fls = []) -> counts n i [O_RDONLY; O_WRONLY] ->
  (forall j fls, j <> i -> counts (inodes w) j fls -> counts n j fls) -> in_table fd1 = true -> in_table fd2 = true -> fd1 <> fd2 ->
  open_at w me fd1 = None -> open_at w me fd2 = None ->
  inv ds (install me fd2 (new_file i "<pipe wr>" O_WRONLY) (install me fd1 (new_file i "<pipe rd>" O_RDONLY) (set_inodes n w))).
Proof.
  intros Hi Hme Hfresh Hn Hk Hfd1 Hfd2 Hne Ho1 Ho2. apply inv_split in Hi as [[S1 S2 S3 S4] Ha]. set (w1 := set_inodes n w).
  assert (Hs1 : shape pids ds w1) by (by split). pose proof (open_at_free w1 me fd1 (S2 me) Hfd1 Ho1) as Hf1.
  set (w2 := install me fd1 _ w1). assert (Hs2 : shape pids ds w2) by (by apply install_shape).
  assert (Hf2 : m_open_files (sets w2 me) !! Z.to_nat fd2 = Some None).
  { apply open_at_free; [apply Hs2|done|]. unfold w2. rewrite open_at_install by (done || apply S2). rewrite decide_False by naive_solver. exact Ho2. }
  apply inv_split. split; [by apply install_shape|]. rewrite (refs_install pids Hpids w2 me fd2 _ Hme Hf2). intros j. cbn [app].
  rewrite (flags_of_install pids ds w2 me fd2 _ j Hs2). cbn [f_inode status_flags new_file].
  assert (HP : flags_of w2 j (refs pids w2 ++ ds) ≡ₚ (if decide (i = j) then [O_RDONLY] else []) ++ flags_of w1 j (refs pids w1 ++ ds)).
  { etrans; [|pose proof (flags_of_install pids ds w1 me fd1 (new_file i "<pipe rd>" O_RDONLY) j Hs1) as Hfl; cbn [f_inode status_flags new_file] in Hfl; by rewrite <- Hfl].
    pose proof (refs_install pids Hpids w1 me fd1 (new_file i "<pipe rd>" O_RDONLY) Hme Hf1) as Hr. fold w2 in Hr |- *. unfold flags_of. by rewrite Hr. }
  change (flags_of w1 j (refs pids w1 ++ ds)) with (flags_of w j (refs pids w ++ ds)) in HP. change (inodes _) with n.
  eapply counts_access; [by rewrite HP|]. case_decide as Ej; [subst j|apply Hk; [done|apply Ha]]. rewrite (Hfresh _ (Ha i)).
  eapply counts_access; [|exact Hn]. apply fmap_Permutation, Permutation_swap.
Qed.

Lemma pipe_safe ds me w : inv ds w -> me ∈ pids -> created (next_description w) = true -> created (S (next_description w)) = true -> wp (pipe created me) (safe ds) w.
Proof.
  intros Hi Hme Hc1 Hc2. unfold pipe, wp. destruct (get_free_fd_pair_run ds w me Hi) as [(fd1 & fd2 & E & (Hfd1 & Ho1 & _) & Hne & Hfd2 & Ho2)|E]; [|by rewrite (sbind_err _ _ _ _ _ E)].
  rewrite (sbind_ok _ _ _ _ _ E). cbn [fst snd]. apply wp_sbind. pose proof (pipe_create_counts (inodes w)) as Hp. unfold wp at 1, on_inodes.
  destruct (pipe_create (inodes w)) as [[i|e|] n]; [|split; [done|by apply inv_set_inodes]|done]. destruct Hp as (Hf & Hn & Hk).
  pose proof (pipe_counted ds w n i me fd1 fd2 Hi Hme Hf Hn Hk Hfd1 Hfd2 Hne Ho1 Ho2) as Hi'. apply wp_created; [done|done|]. apply wp_created; [done|done|].
  set (w' := install me fd2 _ _) in *. unfold wp.
  assert (Hc : forall fd, open_at w me fd = None -> in_table fd = true -> is_cloexec me fd w' = (Ok false, w')).
  { intros fd Ho Hfd. rewrite (is_cloexec_run w' me fd (inv_tables _ _ _ Hi' me) Hfd). unfold w'. rewrite !cloexec_at_install.
    change (cloexec_at (set_inodes n w) me fd) with (cloexec_at w me fd). by rewrite (free_not_cloexec pids ds). }
  rewrite (sbind_ok _ _ _ _ _ (Hc fd1 Ho1 Hfd1)), (sbind_ok _ _ _ tt w') by done. rewrite (sbind_ok _ _ _ _ _ (Hc fd2 Ho2 Hfd2)). done.
Qed.

(** ** Descriptors in flight *)
Lemma inv_fewer ds ds' w : inv ds w -> (length ds' <= length ds)%nat -> (forall d, d ∈ ds' -> d ∈ ds) -> accounted w (refs pids w ++ ds') -> inv ds' w.
Proof.
  intros [[H1 H2 H3 H4] _]%inv_split Hl Hd Ha. apply inv_split. split; [|done]. split; [lia|done|done|]. intros d [Hr|Hx]%elem_of_app; apply H4, elem_of_app; auto.
Qed.

Lemma inv_perm ds ds' w : ds ≡ₚ ds' -> inv ds w -> inv ds' w.
Proof.
  intros HP Hi. eapply inv_fewer; [exact Hi|by rewrite HP|intros d; by rewrite HP|]. rewrite <- HP. apply Hi.
Qed.

Lemma get_fd_wrapper_run ds w me fd d : inv ds w -> me ∈ pids -> open_at w me fd = Some d -> Z.of_nat (OPEN_MAX * length pids + S (length ds)) + 1 < 2 ^ 32 ->
  exists n', get_fd_wrapper me fd w = (Ok (mk_wrapper (Some d) (-1)), set_inodes n' w) /\ inv (d :: ds) (set_inodes n' w).
Proof.
  intros Hi Hme Hd Hroom. pose proof (open_at_refs pids ds w me fd d Hme Hd) as Hin.
  destruct (notify_clone_ok w d (refs pids w ++ ds) (inv_counts _ _ _ Hi) Hin (inv_length pids ds w Hi)) as (n' & E & Ha). exists n'. split.
  - unfold get_fd_wrapper. rewrite (sbind_ok _ _ _ tt w) by (rewrite validate_fd_run by apply Hi; by rewrite Hd). rewrite (sbind_ok _ _ _ _ _ (reference_run w me fd d Hd)).
    unfold wrapper_of, wrapper_clone. by rewrite (sbind_ok _ _ _ _ _ E).
  - apply inv_split in Hi as [[H1 H2 H3 H4] _]. apply inv_split. split; [|by rewrite <- Permutation_middle]. split; [done|done|done|].
    intros x Hx. change (x ∈ refs pids w ++ d :: ds) in Hx. rewrite <- Permutation_middle in Hx. apply elem_of_cons in Hx as [->|Hx]; by apply H4.
Qed.

Lemma wrapper_clear_run ds w x : inv (option_list (m_description x) ++ ds) w -> exists w', wrapper_clear x w = (Ok tt, w') /\ inv ds w'.
Proof.
  intros Hi. unfold wrapper_clear. destruct (m_description x) as [d|]; [|by exists w]. cbn in Hi.
  pose proof (inv_counts _ _ _ Hi) as Ha. rewrite <- Permutation_middle in Ha. pose proof (inv_length pids _ w Hi) as Hl. rewrite length_app in Hl. cbn in Hl.
  destruct (notify_close_ok w d (refs pids w ++ ds) Ha) as (n' & E & Ha'); [rewrite length_app; lia|]. exists (set_inodes n' w). split; [done|].
  apply inv_split in Hi as [[H1 H2 H3 H4] _]. cbn [option_list app length] in H1. apply inv_split. split; [|done]. split; [lia|done|done|]. intros y Hy. apply H4. cbn. rewrite <- Permutation_middle. by right.
Qed.

(** A reference that was in flight arrives in a free slot. *)
Lemma land_inv ds w me fd o : inv (option_list o ++ ds) w -> me ∈ pids -> in_table fd = true -> open_at w me fd = None -> inv ds (set_table me (put_slot fd o) w).
Proof.
  intros Hi Hme Hfd Ho. pose proof (free_not_cloexec pids _ w me fd Hi Hfd Ho) as Hb. apply inv_split in Hi as [[H1 H2 H3 H4] Ha].
  pose proof (refs_put pids Hpids w me fd None o Hme (open_at_free w me fd (H2 me) Hfd Ho)) as HP. cbn in HP. rewrite app_nil_r in HP.
  assert (HP2 : refs pids (set_table me (put_slot fd o) w) ++ ds ≡ₚ refs pids w ++ option_list o ++ ds) by (rewrite HP; by rewrite app_assoc).
  apply inv_split. split; [split|].
  - rewrite length_app in H1. lia.
  - apply tables_set; [done|]. by apply put_slot_ok.
  - intros p Hp. by apply (in_own_table pids w me).
  - intros d Hd. rewrite HP2 in Hd. by apply H4.
  - rewrite HP2. exact Ha.
Qed.

Lemma open_all_run me ws : me ∈ pids -> forall ds w, inv (omap m_description ws ++ ds) w ->
  exists ws' k w', open_all_fd_wrappers me ws w = (Ok (ws', k), w') /\ inv (omap m_description ws' ++ ds) w'.
Proof.
  intros Hme. induction ws as [|x ws IH]; intros ds w Hi; cbn [open_all_fd_wrappers]; [by exists [], 0%nat, w|].
  destruct (get_free_fd_run _ w me Hi) as [(fd & E & Hfd & Ho & _)|[E _]]; rewrite E; [|by exists (x :: ws), 0%nat, w].
  assert (Hi1 : inv (option_list (m_description x) ++ omap m_description ws ++ ds) w) by (cbn in Hi; by destruct (m_description x)).
  pose proof (land_inv _ w me fd _ Hi1 Hme Hfd Ho) as Hi2. rewrite (sbind_ok _ _ _ _ _ (put_file_run w me fd _ Hfd)).
  destruct (IH ds _ Hi2) as (ws' & k & w' & E' & Hi'). rewrite (sbind_ok _ _ _ _ _ E'). by exists (mk_wrapper None fd :: ws'), (S k), w'.
Qed.
End ops.
