(* ===== verification/FileDescriptorsSystem.v ===== *)
(** * kernel/OpenFileDescriptorSet: all processes together

    The processes run any sequence of operations on their descriptors, send
    descriptors to each other, [fork] and [exec].  No assertion fails, and at every
    point each inode has counted exactly the descriptors that refer to it. *)
From stdpp Require Import functions strings gmap.
From S2P Require Import Prelude BanMath RingBuffer Pipe StatefulLogic RecordLocks FileDescriptors FileDescriptorsCorrect FileDescriptorsOps.

(** ** Processes *)
Inductive action : Type :=
| Open (inode : Z) (path : string) (flags : Z)
| Socket (domain type protocol : Z)
| Socketpair (domain type protocol : Z)
| MakePipe
| Dup2 (fd fd2 : Z)
| Fcntl (fd cmd extra : Z)
| FcntlLock (env : lock_env) (fd cmd : Z)
| Ioctl (fd request arg : Z) (enabled : outcome Z)
| Seek (fd offset whence : Z)
| Truncate (fd length : Z)
| Close (fd : Z)
| CloseAll
| CloseCloexec
| Flock (inserted : bool) (fd op : Z)
| Read (fd size : Z)
| WriteTo (fd : Z) (buffer : list Z)
| ReadDir (fuel : nat) (fd list_len : Z)
| Recvmsg (fd : Z) (message : list Z) (flags : Z)
| Sendmsg (fd : Z) (message : list (list Z)) (flags : Z)
| CloneFrom (other : Z)
| Send (fd : Z)
| Discard (k : nat)
| Receive (n : nat).

Record system (N : Type) : Type := mk_system { kernel : world N; in_flight : list FDWrapper }.
Arguments mk_system {N} _ _.
Arguments kernel {N} _.
Arguments in_flight {N} _.

Section system.
Context {N : Type} `{!Inodes N}.
Context (created : nat -> bool) (pids : list Z).

Abbreviation W := (world N).

Definition on_kernel {A} (m : stateful W A) : stateful (system N) unit := fun s =>
  let '(r, w) := m (kernel s) in (match r with Ok _ => Ok tt | Err e => Err e | Panic => Panic end, mk_system w (in_flight s)).

(** A descriptor becomes a wrapper in flight. *)
Definition send (me fd : Z) : stateful (system N) unit := fun s =>
  match get_fd_wrapper me fd (kernel s) with
  | (Ok x, w) => (Ok tt, mk_system w (in_flight s ++ [x]))
  | (Err e, w) => (Err e, mk_system w (in_flight s))
  | (Panic, w) => (Panic, mk_system w (in_flight s))
  end.

(** A wrapper in flight is destroyed. *)
Definition drop_wrapper (k : nat) : stateful (system N) unit := fun s =>
  match in_flight s !! k with
  | None => (Ok tt, s)
  | Some x => let '(r, w) := wrapper_clear x (kernel s) in (r, mk_system w (delete k (in_flight s)))
  end.

(** The first [n] wrappers in flight are opened. *)
Definition receive (me : Z) (n : nat) : stateful (system N) unit := fun s =>
  match open_all_fd_wrappers me (take n (in_flight s)) (kernel s) with
  | (Ok (ws, _), w) => (Ok tt, mk_system w (ws ++ drop n (in_flight s)))
  | (Err e, w) => (Err e, mk_system w (in_flight s))
  | (Panic, w) => (Panic, mk_system w (in_flight s))
  end.

Definition exec (me : Z) (a : action) : stateful (system N) unit :=
  match a with
  | Open inode path flags => on_kernel (open created me inode path flags)
  | Socket domain type protocol => on_kernel (socket created me domain type protocol)
  | Socketpair domain type protocol => on_kernel (socketpair created me domain type protocol)
  | MakePipe => on_kernel (pipe created me)
  | Dup2 fd fd2 => on_kernel (dup2 me fd fd2)
  | Fcntl fd cmd extra => on_kernel (fcntl me fd cmd extra)
  | FcntlLock env fd cmd => on_kernel (fcntl_flock env me fd cmd)
  | Ioctl fd request arg enabled => on_kernel (ioctl me fd request arg enabled)
  | Seek fd offset whence => on_kernel (seek me fd offset whence)
  | Truncate fd length => on_kernel (truncate me fd length)
  | Close fd => on_kernel (close me fd)
  | CloseAll => on_kernel (close_all me)
  | CloseCloexec => on_kernel (close_cloexec me)
  | Flock inserted fd op => on_kernel (flock_turn inserted me fd op)
  | Read fd size => on_kernel (read me fd size)
  | WriteTo fd buffer => on_kernel (write me fd buffer)
  | ReadDir fuel fd list_len => on_kernel (read_dir_entries fuel me fd list_len)
  | Recvmsg fd message flags => on_kernel (recvmsg me fd message flags)
  | Sendmsg fd message flags => on_kernel (sendmsg me fd message flags)
  | CloneFrom other => on_kernel (clone_from me other)
  | Send fd => send me fd
  | Discard k => drop_wrapper k
  | Receive n => receive me n
  end.

(** What the callers of the operations guarantee.  A named pipe is not opened
    here: its open waits for the other end (Pipe).  The two descriptions of a new
    pipe can be allocated.  The fuel of a directory listing is enough, and there is
    room to count one more descriptor. *)
Definition allowed (me : Z) (a : action) (s : system N) : Prop :=
  me ∈ pids /\
  match a with
  | MakePipe => created (next_description (kernel s)) = true /\ created (S (next_description (kernel s))) = true
  | Open inode _ _ => inode <> 0 /\ i_mode (inodes (kernel s)) inode <> IFIFO
  | FcntlLock env _ cmd => is_lock_cmd cmd = true /\ le_read env <> Panic /\ le_write env <> Panic
  | Ioctl _ _ _ enabled => enabled <> Panic
  | Read _ size => 0 <= size
  | ReadDir fuel fd list_len => (read_dir_entries fuel me fd list_len (kernel s)).1 <> Panic
  | CloneFrom other => other ∈ pids /\ me <> other
  | Send _ => Z.of_nat (OPEN_MAX * length pids + S (length (in_flight s))) + 1 < 2 ^ 32
  | _ => True
  end.

Fixpoint exec_all (acts : list (Z * action)) (s : system N) : list (outcome unit) * system N :=
  match acts with
  | [] => ([], s)
  | (me, a) :: acts => let '(r, s1) := exec me a s in let '(rs, s2) := exec_all acts s1 in (r :: rs, s2)
  end.

Fixpoint all_allowed (acts : list (Z * action)) (s : system N) : Prop :=
  match acts with [] => True | (me, a) :: acts => allowed me a s /\ all_allowed acts (exec me a s).2 end.

(** No descriptor is open. *)
Definition empty_set : fd_set := mk_set (replicate OPEN_MAX None) (replicate 4 0).
Definition boot (n : N) : system N :=
  mk_system (mk_world (fun _ => empty_set) (fun _ => new_file 0 EmptyString 0) 0 n (mk_locks (fun _ => None) 0) []) [].

(** All references to descriptions. *)
Definition references (s : system N) : list nat := refs pids (kernel s) ++ omap m_description (in_flight s).
End system.

(** ** Every step keeps the invariant *)
Section safety.
Context {N : Type} `{!Inodes N} `{!CountedInodes N}.
Context (created : nat -> bool) (pids : list Z).
Context (Hpids : NoDup pids).

Definition sound_system (s : system N) : Prop := inv pids (omap m_description (in_flight s)) (kernel s).

Lemma on_kernel_safe {A} (m : stateful (world N) A) s : wp m (without_panic (inv pids (omap m_description (in_flight s)))) (kernel s) -> wp (on_kernel m) (without_panic sound_system) s.
Proof. unfold wp, on_kernel. intros [H1 H2]. destruct (m (kernel s)) as [r w]. cbn in *. split; [by destruct r|done]. Qed.

Lemma system_run_safe {A} (m : stateful (world N) A) ds w (r : outcome A) w' : m w = (r, w') -> r <> Panic -> inv pids ds w' -> wp m (without_panic (inv pids ds)) w.
Proof. intros E Hr Hi. by eapply wp_run. Qed.

Lemma dup2_safe ds me fd fd2 w : inv pids ds w -> me ∈ pids -> wp (dup2 me fd fd2) (without_panic (inv pids ds)) w.
Proof.
  intros Hi Hme. destruct (in_table fd2) eqn:Hfd2.
  - destruct (open_at w me fd) as [d|] eqn:Hd.
    + destruct (decide (fd = fd2)) as [->|Hne].
      * unfold dup2, wp. pose proof Hfd2 as Hr%in_table_spec. change (Z.of_nat OPEN_MAX) with 128. rewrite (proj2 (Z.ltb_ge _ _)), (proj2 (Z.leb_gt _ _)) by lia. cbn [orb].
        rewrite (sbind_ok _ _ _ tt w) by (rewrite validate_fd_run by apply Hi; by rewrite Hd). by rewrite Z.eqb_refl.
      * destruct (dup2_run pids Hpids ds w me fd fd2 d Hi Hme Hd Hfd2 Hne) as (w' & E & Hi' & _). by eapply system_run_safe.
    + unfold dup2. case_if; [done|]. unfold wp. by rewrite (sbind_err _ _ _ EBADF w) by (rewrite validate_fd_run by apply Hi; by rewrite Hd).
  - assert (E : (fd2 <? 0) || (Z.of_nat OPEN_MAX <=? fd2) = true); [|unfold dup2; by rewrite E].
    destruct ((fd2 <? 0) || (Z.of_nat OPEN_MAX <=? fd2)) eqn:E; [done|]. apply orb_false_iff in E as [E1%Z.ltb_ge E2%Z.leb_gt]. change (Z.of_nat OPEN_MAX) with 128 in E2.
    assert (in_table fd2 = true) by (apply in_table_spec; lia). congruence.
Qed.

Lemma read_dir_safe ds fuel me fd len w : inv pids ds w -> (read_dir_entries fuel me fd len w).1 <> Panic -> wp (read_dir_entries fuel me fd len) (without_panic (inv pids ds)) w.
Proof.
  intros Hi Hr. split; [done|]. unfold read_dir_entries. destruct (open_at w me fd) as [d|] eqn:Hd.
  - rewrite (sbind_ok _ _ _ tt w) by (rewrite validate_fd_run by apply Hi; by rewrite Hd). rewrite (sbind_ok _ _ _ _ _ (description_run w me fd d Hd)).
    destruct (negb _); [done|]. by apply list_loop_inv.
  - by rewrite (sbind_err _ _ _ EBADF w) by (rewrite validate_fd_run by apply Hi; by rewrite Hd).
Qed.

Lemma omap_delete (ws : list FDWrapper) k x : ws !! k = Some x -> omap m_description ws ≡ₚ option_list (m_description x) ++ omap m_description (delete k ws).
Proof.
  intros Hk. rewrite delete_take_drop. rewrite <- (take_drop_middle ws k x Hk) at 1. rewrite !omap_app. cbn. destruct (m_description x); cbn; [|done]. by rewrite <- Permutation_middle.
Qed.

Lemma length_descriptions (ws : list FDWrapper) : (length (omap m_description ws) <= length ws)%nat.
Proof. induction ws as [|x ws IH]; cbn; [lia|]. destruct (m_description x); cbn; lia. Qed.

Lemma send_safe me fd s : sound_system s -> me ∈ pids -> Z.of_nat (OPEN_MAX * length pids + S (length (in_flight s))) + 1 < 2 ^ 32 -> wp (send me fd) (without_panic sound_system) s.
Proof.
  intros Hi Hme Hroom. unfold wp, send. destruct (open_at (kernel s) me fd) as [d|] eqn:Hd.
  - pose proof (length_descriptions (in_flight s)).
    destruct (get_fd_wrapper_run pids (omap m_description (in_flight s)) (kernel s) me fd d Hi Hme Hd ltac:(lia)) as (n' & -> & Hi'). split; [done|].
    unfold sound_system. cbn [in_flight kernel fst snd]. rewrite omap_app. cbn. eapply inv_perm; [|exact Hi']. apply Permutation_cons_append.
  - unfold get_fd_wrapper. rewrite (sbind_err _ _ _ EBADF (kernel s)) by (rewrite validate_fd_run by apply Hi; by rewrite Hd). done.
Qed.

Lemma drop_safe k s : sound_system s -> wp (drop_wrapper k) (without_panic sound_system) s.
Proof.
  intros Hi. unfold wp, drop_wrapper. destruct (in_flight s !! k) as [x|] eqn:Ex; [|done]. unfold sound_system in Hi.
  destruct (wrapper_clear_run pids (omap m_description (delete k (in_flight s))) (kernel s) x) as (w' & -> & Hi'); [|done].
  eapply inv_perm; [by apply omap_delete|exact Hi].
Qed.

Lemma receive_safe me n s : sound_system s -> me ∈ pids -> wp (receive me n) (without_panic sound_system) s.
Proof.
  intros Hi Hme. unfold wp, receive, sound_system in *. rewrite <- (take_drop n (in_flight s)), omap_app in Hi.
  destruct (open_all_run pids Hpids me (take n (in_flight s)) Hme _ _ Hi) as (ws & k & w' & -> & Hi'). split; [done|]. cbn [in_flight kernel fst snd]. by rewrite omap_app.
Qed.

Lemma exec_safe me a s : sound_system s -> allowed created pids me a s -> wp (exec created me a) (without_panic sound_system) s.
Proof.
  intros Hi [Hme Ha]. destruct a; cbn [exec]; try (apply on_kernel_safe).
  - destruct Ha. by apply open_safe.
  - by apply socket_safe.
  - by apply socketpair_safe.
  - destruct Ha. by apply pipe_safe.
  - by apply dup2_safe.
  - by apply sound_fcntl.
  - destruct Ha as (? & ? & ?). by apply sound_fcntl_flock.
  - by apply sound_ioctl.
  - by apply sound_seek.
  - by apply sound_truncate.
  - by apply sound_close.
  - destruct (close_all_run pids Hpids _ _ me Hi Hme) as (w' & E & Hi' & _). by eapply system_run_safe.
  - destruct (close_cloexec_run pids Hpids _ _ me Hi Hme) as (w' & E & Hi' & _). by eapply system_run_safe.
  - by apply sound_flock_turn.
  - by apply sound_read.
  - by apply sound_write.
  - by apply read_dir_safe.
  - by apply sound_recvmsg.
  - by apply sound_sendmsg.
  - destruct Ha as [Ho Hne]. destruct (clone_from_run pids Hpids _ _ me other Hi Hme Ho Hne) as (w' & E & Hi' & _). by eapply system_run_safe.
  - by apply send_safe.
  - by apply drop_safe.
  - by apply receive_safe.
Qed.

Lemma exec_all_safe acts : forall s, sound_system s -> all_allowed created pids acts s ->
  (Panic ∉ (exec_all created acts s).1) /\ sound_system (exec_all created acts s).2.
Proof.
  induction acts as [|[me a] acts IH]; intros s Hi Ha; cbn [exec_all]; [split; [apply not_elem_of_nil|done]|].
  destruct Ha as [Ha Has]. destruct (exec_safe me a s Hi Ha) as [Hr Hi1]. destruct (exec created me a s) as [r s1]. cbn in *.
  destruct (IH s1 Hi1 Has) as [Hrs Hi2]. destruct (exec_all created acts s1) as [rs s2]. cbn in *. split; [|done]. intros [Hx|Hx]%elem_of_cons; [by subst|done].
Qed.

Lemma empty_set_ok : table_ok empty_set.
Proof.
  split; [done|done|by repeat constructor|]. intros fd Hfd Hb. exfalso. unfold cloexec_bit in Hb. change (m_cloexec_files empty_set) with (replicate 4 0) in Hb.
  destruct (replicate 4 0 !! Z.to_nat (fd / 32)) as [x|] eqn:E; [|done]. apply lookup_replicate in E as [-> _]. by rewrite Z.testbit_0_l in Hb.
Qed.

Lemma boot_sound n : (forall i, counts n i []) -> Z.of_nat (OPEN_MAX * length pids) + 1 < 2 ^ 32 -> sound_system (boot n).
Proof.
  intros Hn Hroom. assert (Hr : refs pids (kernel (boot n)) = []).
  { unfold refs. clear. induction pids as [|p ps IH]; [done|]. cbn -[OPEN_MAX]. exact IH. }
  apply inv_split. unfold sound_system. rewrite Hr. split; [split|].
  - cbn [in_flight boot omap list_omap length]. lia.
  - intros p. apply empty_set_ok.
  - done.
  - rewrite Hr. intros d Hd. by apply not_elem_of_nil in Hd.
  - intros i. apply Hn.
Qed.

(** ** Properties *)


(** C21: a process that is forked and then executes a program has exactly the
    descriptors of its parent that are not marked to be closed by exec, for the
    same open file descriptions; no table of another process and no description
    changes, and no inode loses count. *)
Theorem fork_exec_inherits (ds : list nat) (w : world N) (child parent : Z)
  (Hinv : inv pids ds w) (Hchild : child ∈ pids) (Hparent : parent ∈ pids) (Hne : child <> parent) :
  exists w', (let! _ := clone_from child parent in close_cloexec child) w = (Ok tt, w') /\ inv pids ds w' /\
    (forall fd, open_at w' child fd = if cloexec_at w parent fd then None else open_at w parent fd) /\
    (forall p fd, p <> child -> open_at w' p fd = open_at w p fd) /\ same_files w w'.
Proof.
  destruct (clone_from_run pids Hpids ds w child parent Hinv Hchild Hparent Hne) as (w1 & E1 & Hi1 & [O1 B1 F1]).
  destruct (close_cloexec_run pids Hpids ds w1 child Hi1 Hchild) as (w2 & E2 & Hi2 & [O2 B2 F2]).
  exists w2. split; [by rewrite (sbind_ok _ _ _ _ _ E1)|]. split; [done|]. split_and!; [| |by etrans].
  - intros fd. rewrite O2, O1, !decide_True, bool_decide_eq_true_2 by done. cbn [andb]. destruct (in_table fd) eqn:Hfd; [by rewrite B1, decide_True|].
    assert (open_at w parent fd = None) as -> by (unfold open_at; by rewrite Hfd). by destruct (cloexec_at w1 child fd), (cloexec_at w parent fd).
  - intros p fd Hp. by rewrite O2, O1, decide_False, bool_decide_eq_false_2.
Qed.

(** duplication: F_DUPFD gives the lowest descriptor that is free and fails
    exactly when none is; dup2 gives the one that is asked for and closes what
    it was.  The new descriptor refers to the same open file description, is not
    closed by exec, and nothing else changes. *)
Theorem duplicates_share (ds : list nat) (w : world N) (me fd fd2 extra : Z) (d : nat)
  (Hinv : inv pids ds w) (Hme : me ∈ pids) (Hd : open_at w me fd = Some d) (Hfd2 : in_table fd2 = true) (Hne : fd <> fd2) :
  ((exists fd' w', fcntl me fd F_DUPFD extra w = (Ok fd', w') /\ lowest_free w me fd' /\ inv pids ds w' /\ points me fd' d w w') \/
   (fcntl me fd F_DUPFD extra w = (Err EMFILE, w) /\ forall x, in_table x = true -> open_at w me x <> None)) /\
  (exists w', dup2 me fd fd2 w = (Ok fd2, w') /\ inv pids ds w' /\ points me fd2 d w w').
Proof. split; [by apply dupfd_run|by apply dup2_run]. Qed.
End safety.
