(* ===== verification/FileDescriptorsPipe.v ===== *)
(** * Pipes behind descriptors

    The pipes of Pipe as inodes of the descriptors of FileDescriptors, beside
    ordinary inodes: files and sockets, which do not count their descriptors.
    Pipes are told the truth about their descriptors, so that a reader gets end of
    file, and a writer EPIPE, exactly when no process can reach the other end. *)
From stdpp Require Import functions strings gmap.
From S2P Require Import Prelude BanMath RingBuffer Pipe StatefulLogic RecordLocks FileDescriptors FileDescriptorsCorrect FileDescriptorsOps FileDescriptorsSystem.

#[local] Existing Instances Pipe.count_flag_proper Pipe.one_way_proper.

(** ** Ordinary inodes *)
Definition calm {M A} `{!Inodes M} (m : stateful M A) : Prop := forall s, (m s).1 <> Panic /\ forall i, i_mode s i <> IFIFO -> i_mode (m s).2 i <> IFIFO.

Class OrdinaryInodes (M : Type) `{!Inodes M} : Prop := {
  ordinary_clone i fl m : (i_on_clone i fl m).1 = Ok tt;
  ordinary_close i fl m : (i_on_close i fl m).1 = Ok tt;
  ordinary_socket d t md m i : (create_socket d t md m).1 = Ok i -> 0 < i /\ i_mode (create_socket d t md m).2 i <> IFIFO;
  ordinary_truncate i len : calm (i_truncate i len);
  ordinary_ioctl i r a : calm (i_ioctl i r a);
  ordinary_read i o s : calm (i_read i o s);
  ordinary_write i o b : calm (i_write i o b);
  ordinary_list i o l : calm (i_list_next i o l);
  ordinary_recvmsg i m f : calm (i_recvmsg i m f);
  ordinary_sendmsg i m f : calm (i_sendmsg i m f);
  ordinary_create d t m : calm (create_socket d t m);
  ordinary_connect d i j : calm (connect_sockets d i j)
}.

(** ** Pipes and ordinary inodes

    The negative inodes are the pipes that have been made. *)
Record pipes (M : Type) : Type := mk_pipes { p_pipes : list Pipe.t; p_rest : M }.
Arguments mk_pipes {M} _ _.
Arguments p_pipes {M} _.
Arguments p_rest {M} _.

Definition slot_of (i : Z) : nat := Z.to_nat (- i - 1).

Section pipes.
Context {M : Type} `{!Inodes M}.
(** The time, and the outcomes of the allocations of a new pipe. *)
Context (now : Z) (allocated : nat -> bool) (buffer : nat -> outcome ByteRingBuffer.t).

Definition pipe_at (n : pipes M) (i : Z) : option Pipe.t := if i <? 0 then p_pipes n !! slot_of i else None.

Definition on_rest {A} (m : stateful M A) : stateful (pipes M) A := fun n => let '(r, m') := m (p_rest n) in (r, mk_pipes (p_pipes n) m').

(** A virtual call: of the pipe [i], or of an ordinary inode. *)
Definition dispatch {A} (i : Z) (m : Pipe.t -> outcome A * Pipe.t) (r : stateful M A) : stateful (pipes M) A := fun n =>
  match pipe_at n i with
  | Some p => let '(a, p') := m p in (a, mk_pipes (<[slot_of i := p']> (p_pipes n)) (p_rest n))
  | None => on_rest r n
  end.

Definition pipe_query {A} (n : pipes M) (i : Z) (f : Pipe.t -> A) (r : M -> A) : A := match pipe_at n i with Some p => f p | None => r (p_rest n) end.

#[global] Instance pipes_inodes : Inodes (pipes M) := {
  i_mode n i := if i <? 0 then IFIFO else i_mode (p_rest n) i;
  i_size n i := pipe_query n i (fun _ => 0) (fun m => i_size m i);
  i_is_tty n i := pipe_query n i (fun _ => false) (fun m => i_is_tty m i);
  i_can_read n i := pipe_query n i Pipe.can_read_impl (fun m => i_can_read m i);
  i_can_write n i := pipe_query n i (fun _ => true) (fun m => i_can_write m i);
  i_has_hungup n i := pipe_query n i Pipe.has_hungup_impl (fun m => i_has_hungup m i);
  i_has_error n i := pipe_query n i Pipe.has_error_impl (fun m => i_has_error m i);
  i_truncate i len := dispatch i (fun p => (Err ENODEV, p)) (i_truncate i len);
  i_on_clone i fl := dispatch i (fun p => match Pipe.on_clone p fl with Ok p' => (Ok tt, p') | Err e => (Err e, p) | Panic => (Panic, p) end) (i_on_clone i fl);
  i_on_close i fl := dispatch i (fun p => match Pipe.on_close p fl with Ok (p', _) => (Ok tt, p') | Err e => (Err e, p) | Panic => (Panic, p) end) (i_on_close i fl);
  i_ioctl i r a := dispatch i (fun p => (Err ENOTSUP, p)) (i_ioctl i r a);
  i_read i o s := dispatch i (fun p => match Pipe.read_impl p s now with
                                       | Ok (Done (p', data, _)) => (Ok (Done data), p')
                                       | Ok Blocked => (Ok Blocked, p)
                                       | Err e => (Err e, p)
                                       | Panic => (Panic, p)
                                       end) (i_read i o s);
  i_write i o b := dispatch i (fun p => match Pipe.write_impl p b now with
                                        | Ok (Done (p', inl k, _)) => (Ok (Done k), p')
                                        | Ok (Done (p', inr e, _)) => (Err e, p')
                                        | Ok Blocked => (Ok Blocked, p)
                                        | Err e => (Err e, p)
                                        | Panic => (Panic, p)
                                        end) (i_write i o b);
  i_list_next i o l := dispatch i (fun p => (Err ENOTDIR, p)) (i_list_next i o l);
  i_recvmsg i m f := dispatch i (fun p => (Err ENOTSOCK, p)) (i_recvmsg i m f);
  i_sendmsg i m f := dispatch i (fun p => (Err ENOTSOCK, p)) (i_sendmsg i m f);
  pipe_create := fun n =>
    let k := length (p_pipes n) in
    match Pipe.create now (allocated k) (buffer k) with
    | Ok p => (Ok (- Z.of_nat k - 1), mk_pipes (p_pipes n ++ [p]) (p_rest n))
    | Err e => (Err e, n)
    | Panic => (Panic, n)
    end;
  pipe_open i fl := on_rest (pipe_open i fl);
  create_socket d t m := on_rest (create_socket d t m);
  connect_sockets d i j := on_rest (connect_sockets d i j)
}.

(** ** Pipes count their descriptors *)
Definition pipe_counts (n : pipes M) (i : Z) (fls : list Z) : Prop :=
  match pipe_at n i with
  | Some p => Pipe.wf p /\ Pipe.counted (Pipe.mk_history p [] [] fls) /\ Pipe.one_way fls
  | None => i < 0 -> fls = []
  end.

Lemma has_flag_access fl f : Z.land f O_ACCMODE = f -> has_flag (access fl) f = has_flag fl f.
Proof. intros Hf. unfold has_flag, access. rewrite <- Z.land_assoc, (Z.land_comm O_ACCMODE f), Hf. done. Qed.

Lemma count_flag_access f fls : Z.land f O_ACCMODE = f -> Pipe.count_flag f fls = Pipe.count_flag f (access <$> fls).
Proof. intros Hf. induction fls as [|fl fls IH]; [done|]. cbn [Pipe.count_flag fmap list_fmap]. by rewrite IH, has_flag_access. Qed.

Lemma one_way_access fls : Pipe.one_way fls <-> Pipe.one_way (access <$> fls).
Proof. unfold Pipe.one_way. rewrite Forall_fmap. apply Forall_iff. intros fl. cbn. by rewrite !has_flag_access. Qed.

Lemma pipe_counts_access n i fls fls' : access <$> fls ≡ₚ access <$> fls' -> pipe_counts n i fls -> pipe_counts n i fls'.
Proof.
  intros HP. unfold pipe_counts. case_match.
  - intros (Hwf & [Hw Hr] & Ho). split; [done|]. unfold Pipe.counted in *. cbn in *. rewrite one_way_access in *. rewrite (count_flag_access O_WRONLY fls'), (count_flag_access O_RDONLY fls') by done.
    rewrite (count_flag_access O_WRONLY fls) in Hw by done. rewrite (count_flag_access O_RDONLY fls) in Hr by done. by rewrite <- HP.
  - intros Hn Hi. rewrite (Hn Hi) in HP. cbn in HP. apply Permutation_nil in HP. by apply fmap_nil_inv in HP.
Qed.

Lemma on_clone_total p fls fl : Pipe.counted (Pipe.mk_history p [] [] fls) -> fl ∈ fls -> exists p', Pipe.on_clone p fl = Ok p'.
Proof.
  intros [Hw Hr] Hin. cbn in *. unfold Pipe.on_clone.
  assert (has_flag fl O_WRONLY = true -> 0 < Pipe.m_writing_count p) by (intros; rewrite Hw; by eapply Pipe.count_flag_in).
  assert (has_flag fl O_RDONLY = true -> 0 < Pipe.m_reading_count p) by (intros; rewrite Hr; by eapply Pipe.count_flag_in).
  destruct (has_flag fl O_WRONLY), (has_flag fl O_RDONLY); rewrite ?(proj2 (Z.ltb_lt _ _)) by auto; cbn; rewrite ?(proj2 (Z.ltb_lt _ _)) by auto; eauto.
Qed.

Lemma on_close_total p fls fl : Pipe.counted (Pipe.mk_history p [] [] (fl :: fls)) -> exists p' ev, Pipe.on_close p fl = Ok (p', ev).
Proof.
  intros [Hw Hr]. cbn in *. unfold Pipe.on_close, Pipe.close_reading, Pipe.set_counts.
  pose proof (Pipe.count_flag_bounds O_WRONLY fls). pose proof (Pipe.count_flag_bounds O_RDONLY fls).
  destruct (has_flag fl O_WRONLY), (has_flag fl O_RDONLY); cbn in *; rewrite ?(proj2 (Z.ltb_lt _ _)) by lia; repeat case_match; eauto; zify_bool; lia.
Qed.

Lemma pipe_at_insert n i p j : is_Some (pipe_at n i) -> pipe_at (mk_pipes (<[slot_of i := p]> (p_pipes n)) (p_rest n)) j = if decide (i = j) then Some p else pipe_at n j.
Proof.
  unfold pipe_at. cbn. destruct (Z.ltb_spec i 0) as [Hi|]; [|intros [? ?]; done]. intros [q Hq]. destruct (decide (i = j)) as [<-|Ne].
  - rewrite (proj2 (Z.ltb_lt _ _)) by done. apply list_lookup_insert_eq. by eapply lookup_lt_Some.
  - destruct (Z.ltb_spec j 0); [|done]. apply list_lookup_insert_ne. unfold slot_of. lia.
Qed.

Lemma counts_insert n i p p' j fls : pipe_at n i = Some p -> j <> i -> pipe_counts n j fls -> pipe_counts (mk_pipes (<[slot_of i := p']> (p_pipes n)) (p_rest n)) j fls.
Proof. intros Hp Hj. unfold pipe_counts. rewrite pipe_at_insert by done. by rewrite decide_False. Qed.

Lemma counts_rest n m' j fls : pipe_counts n j fls -> pipe_counts (mk_pipes (p_pipes n) m') j fls.
Proof. done. Qed.

Lemma dispatch_quiet {A} i (m : Pipe.t -> outcome A * Pipe.t) (r : stateful M A) : calm r ->
  (forall p, Pipe.wf p -> (m p).1 <> Panic /\ Pipe.wf (m p).2 /\ Pipe.m_writing_count (m p).2 = Pipe.m_writing_count p /\ Pipe.m_reading_count (m p).2 = Pipe.m_reading_count p) ->
  quiet pipe_counts (dispatch i m r).
Proof.
  intros Hr Hm n Hlive. unfold dispatch. destruct (pipe_at n i) as [p|] eqn:Ep.
  - destruct (Hlive i) as [fls0 H0]. unfold pipe_counts in H0. rewrite Ep in H0. destruct H0 as [Hwf _]. destruct (Hm p Hwf) as (H1 & H2 & H3 & H4).
    destruct (m p) as [a p']. cbn in *. split_and!; [done| |done]. intros j fls Hc. destruct (decide (j = i)) as [->|Ne]; [|by eapply counts_insert].
    unfold pipe_counts in *. rewrite pipe_at_insert, decide_True by done. rewrite Ep in Hc. destruct Hc as (_ & [Hw Hrd] & Ho). split_and!; [done| |done]. split; cbn in *; congruence.
  - unfold on_rest. destruct (Hr (p_rest n)) as [H1 H2]. destruct (r (p_rest n)) as [a m']. cbn in *. split_and!; [done|done|]. intros j Hj. case_match; [done|by apply H2].
Qed.

Lemma rest_quiet {A} (r : stateful M A) : calm r -> quiet pipe_counts (on_rest r).
Proof.
  intros Hr n _. unfold on_rest. destruct (Hr (p_rest n)) as [H1 H2]. destruct (r (p_rest n)) as [a m']. cbn in *. split_and!; [done|done|]. intros j Hj. case_match; [done|by apply H2].
Qed.

Context `{!OrdinaryInodes M}.
Context (Hbuffer : forall k b, buffer k = Ok b -> ByteRingBuffer.wf b) (Hbuffer' : forall k, buffer k <> Panic).

Lemma clone_counts n i fl fls : pipe_counts n i fls -> fl ∈ fls -> Z.of_nat (length fls) + 1 < 2 ^ 32 ->
  exists n', i_on_clone i fl n = (Ok tt, n') /\ pipe_counts n' i (fl :: fls) /\ forall j fls', j <> i -> pipe_counts n j fls' -> pipe_counts n' j fls'.
Proof.
  intros Hc Hin Hlen. cbn [i_on_clone pipes_inodes]. unfold dispatch. unfold pipe_counts in Hc. destruct (pipe_at n i) as [p|] eqn:Ep.
  - destruct Hc as (Hwf & Hc & Ho). destruct (on_clone_total p fls fl Hc Hin) as [p' Ec]. rewrite Ec. eexists. split; [done|]. split; [|intros; by eapply counts_insert].
    unfold pipe_counts. rewrite pipe_at_insert, decide_True by done. split; [unfold Pipe.wf; by rewrite (Pipe.on_clone_buffer p fl p' Ec)|].
    by eapply (Pipe.step_counted (Pipe.mk_history p [] [] fls)); [done|done|done|constructor].
  - unfold on_rest. pose proof (ordinary_clone i fl (p_rest n)) as Hr. destruct (i_on_clone i fl (p_rest n)) as [r m']. cbn in Hr. subst r. eexists. split; [done|]. split; [|done].
    unfold pipe_counts. change (pipe_at (mk_pipes (p_pipes n) m') i) with (pipe_at n i). rewrite Ep. intros Hi. rewrite (Hc Hi) in Hin. by apply not_elem_of_nil in Hin.
Qed.

Lemma close_counts n i fl fls : pipe_counts n i (fl :: fls) -> Z.of_nat (length fls) + 2 < 2 ^ 32 ->
  exists n', i_on_close i fl n = (Ok tt, n') /\ pipe_counts n' i fls /\ forall j fls', j <> i -> pipe_counts n j fls' -> pipe_counts n' j fls'.
Proof.
  intros Hc Hlen. cbn [i_on_close pipes_inodes]. unfold dispatch. unfold pipe_counts in Hc. destruct (pipe_at n i) as [p|] eqn:Ep.
  - destruct Hc as (Hwf & Hc & Ho). destruct (on_close_total p fls fl Hc) as (p' & ev & Ec). rewrite Ec. eexists. split; [done|]. split; [|intros; by eapply counts_insert].
    unfold pipe_counts. rewrite pipe_at_insert, decide_True by done. split; [unfold Pipe.wf; by rewrite (Pipe.on_close_buffer p fl p' ev Ec)|].
    eapply (Pipe.step_counted (Pipe.mk_history p [] [] (fl :: fls))); [|done|done|by eapply Pipe.step_close]. cbn [Pipe.h_open length]. lia.
  - unfold on_rest. pose proof (ordinary_close i fl (p_rest n)) as Hr. destruct (i_on_close i fl (p_rest n)) as [r m']. cbn in Hr. subst r. eexists. split; [done|]. split; [|done].
    unfold pipe_counts. change (pipe_at (mk_pipes (p_pipes n) m') i) with (pipe_at n i). rewrite Ep. intros Hi. by specialize (Hc Hi).
Qed.

Lemma create_counts n : match pipe_create n with
  | (Ok i, n') => (forall fls, pipe_counts n i fls -> fls = []) /\ pipe_counts n' i [O_RDONLY; O_WRONLY] /\ (forall j fls, j <> i -> pipe_counts n j fls -> pipe_counts n' j fls)
  | (Err _, n') => forall j fls, pipe_counts n j fls -> pipe_counts n' j fls
  | (Panic, _) => False
  end.
Proof.
  cbn [pipe_create pipes_inodes]. unfold Pipe.create. set (k := length (p_pipes n)). destruct (allocated k); [|cbn; auto]. cbn [negb].
  pose proof (Hbuffer k) as Hb. pose proof (Hbuffer' k) as Hb'. destruct (buffer k) as [b|e|]; [|cbn; auto|done]. cbn iota beta.
  set (i := - Z.of_nat k - 1). assert (Hs : slot_of i = k) by (unfold slot_of, i; lia). assert (Hi : i < 0) by (unfold i; lia).
  split_and!.
  - intros fls Hc. unfold pipe_counts, pipe_at in Hc. rewrite (proj2 (Z.ltb_lt _ _) Hi), Hs, lookup_ge_None_2 in Hc by (unfold k; lia). by apply Hc.
  - unfold pipe_counts, pipe_at. rewrite (proj2 (Z.ltb_lt _ _) Hi), Hs. cbn [p_pipes]. rewrite lookup_app_r by (unfold k; lia). unfold k. rewrite Nat.sub_diag. cbn.
    split; [by apply Hb|]. split; [done|]. by repeat constructor.
  - intros j fls Hj Hc. unfold pipe_counts, pipe_at in *. cbn [p_pipes]. destruct (Z.ltb_spec j 0); [|done]. assert (slot_of j <> k) by (unfold slot_of, i in *; lia).
    destruct (decide (slot_of j < k)%nat); [by rewrite lookup_app_l|]. rewrite lookup_app_r by (unfold k in *; lia).
    rewrite lookup_ge_None_2 in Hc by (unfold k in *; lia). rewrite lookup_ge_None_2; [done|]. cbn. unfold k in *. lia.
Qed.

Lemma read_pipe_quiet p size : 0 <= size -> Pipe.wf p -> let r := match Pipe.read_impl p size now with
    | Ok (Done (p', data, _)) => (Ok (Done data), p') | Ok Blocked => (Ok Blocked, p) | Err e => (Err e, p) | Panic => (Panic, p) end in
  r.1 <> Panic /\ Pipe.wf r.2 /\ Pipe.m_writing_count r.2 = Pipe.m_writing_count p /\ Pipe.m_reading_count r.2 = Pipe.m_reading_count p.
Proof.
  intros Hs Hwf. destruct (decide (Pipe.contents p = [])) as [He|Hne].
  - unfold Pipe.read_impl. rewrite (proj2 (Pipe.contents_empty p Hwf) He). by destruct (_ =? 0).
  - destruct (Pipe.read_impl_ok p size now Hwf Hs Hne) as (p' & -> & Hwf' & _ & Hc). done.
Qed.

Lemma write_pipe_quiet p data : Pipe.wf p -> let r := match Pipe.write_impl p data now with
    | Ok (Done (p', inl k, _)) => (Ok (Done k), p') | Ok (Done (p', inr e, _)) => (Err e, p') | Ok Blocked => (Ok Blocked, p) | Err e => (Err e, p) | Panic => (Panic, p) end in
  r.1 <> Panic /\ Pipe.wf r.2 /\ Pipe.m_writing_count r.2 = Pipe.m_writing_count p /\ Pipe.m_reading_count r.2 = Pipe.m_reading_count p.
Proof.
  intros Hwf. destruct (ByteRingBuffer.full (Pipe.m_buffer p)) eqn:Ef.
  - unfold Pipe.write_impl. rewrite Ef. by destruct (_ =? 0).
  - destruct (Pipe.write_impl_ok p data now Hwf Ef) as (p' & k & -> & _ & _ & Hwf' & _ & Hc). done.
Qed.

#[global] Instance pipes_counted : CountedInodes (pipes M).
Proof.
  refine {| counts := pipe_counts |}.
  - apply pipe_counts_access.
  - apply clone_counts.
  - apply close_counts.
  - intros n i fl fls Hm. cbn in Hm. unfold pipe_counts, pipe_at. case_match; [done|]. zify_bool. intros _ Hi. lia.
  - apply create_counts.
  - intros d t md n i. cbn. unfold on_rest. pose proof (ordinary_socket d t md (p_rest n)) as Hs. destruct (create_socket d t md (p_rest n)) as [r m']. cbn in *. intros ->.
    destruct (Hs i eq_refl) as [Hi Hm]. by rewrite (proj2 (Z.ltb_ge _ _)) by lia.
  - intros i len. apply dispatch_quiet; [apply ordinary_truncate|done].
  - intros i r a. apply dispatch_quiet; [apply ordinary_ioctl|done].
  - intros i o s Hs. apply dispatch_quiet; [apply ordinary_read|]. intros p Hp. by apply read_pipe_quiet.
  - intros i o b. apply dispatch_quiet; [apply ordinary_write|]. intros p Hp. by apply write_pipe_quiet.
  - intros i o l. apply dispatch_quiet; [apply ordinary_list|done].
  - intros i m f. apply dispatch_quiet; [apply ordinary_recvmsg|done].
  - intros i m f. apply dispatch_quiet; [apply ordinary_sendmsg|done].
  - intros d t m. apply rest_quiet, ordinary_create.
  - intros d i j. apply rest_quiet, ordinary_connect.
Defined.

(** ** End to end *)

(** Some process, or a descriptor in flight, has the inode [i] open with [f]. *)
Definition reachable (pids : list Z) (s : system (pipes M)) (i f : Z) : Prop :=
  exists d, d ∈ references pids s /\ f_inode (descriptions (kernel s) d) = i /\ has_flag (status_flags (descriptions (kernel s) d)) f = true.

Lemma count_flag_zero f fls : Pipe.count_flag f fls = 0 <-> forall fl, fl ∈ fls -> has_flag fl f = false.
Proof.
  split.
  - intros H0 fl Hin. destruct (has_flag fl f) eqn:E; [|done]. pose proof (Pipe.count_flag_in f fl fls Hin E). lia.
  - induction fls as [|fl fls IH]; intros H; [done|]. cbn. rewrite (H fl) by left. rewrite IH; [done|]. intros x Hx. apply H. by right.
Qed.

Lemma unreachable_zero pids s i f : ~ reachable pids s i f <-> Pipe.count_flag f (flags_of (kernel s) i (references pids s)) = 0.
Proof.
  rewrite count_flag_zero. unfold flags_of, reachable. split.
  - intros Hn fl (d & -> & Hd)%list_elem_of_fmap. apply list_elem_of_filter in Hd as [Hi Hd]. destruct (has_flag _ f) eqn:E; [|done]. exfalso. apply Hn. by exists d.
  - intros H (d & Hd & Hi & Hf). rewrite H in Hf; [done|]. apply (list_elem_of_fmap_2 (fun d => status_flags (descriptions (kernel s) d))). by apply list_elem_of_filter.
Qed.

Lemma pipe_counts_ends pids s i p : sound_system pids s -> pipe_at (inodes (kernel s)) i = Some p ->
  Pipe.wf p /\ (Pipe.m_writing_count p = 0 <-> ~ reachable pids s i O_WRONLY) /\ (Pipe.m_reading_count p = 0 <-> ~ reachable pids s i O_RDONLY).
Proof.
  intros Hi Hp. pose proof (inv_counts _ _ _ Hi i) as Hc. cbn in Hc. unfold pipe_counts in Hc. rewrite Hp in Hc. destruct Hc as (Hwf & [Hw Hr] & _). cbn in Hw, Hr.
  split_and!; [done|by rewrite unreachable_zero, Hw|by rewrite unreachable_zero, Hr].
Qed.

Lemma read_empty_pipe w me fd d p size : table_ok (sets w me) -> open_at w me fd = Some d -> pipe_at (inodes w) (f_inode (descriptions w d)) = Some p ->
  has_flag (status_flags (descriptions w d)) O_RDONLY = true -> Pipe.wf p -> Pipe.contents p = [] ->
  (read me fd size w).1 = if Pipe.m_writing_count p =? 0 then Ok (Done []) else if has_flag (status_flags (descriptions w d)) O_NONBLOCK then Err EAGAIN else Ok Blocked.
Proof.
  intros Hok Hd Hp Hf Hwf He. unfold read. rewrite (sbind_ok _ _ _ tt w) by (rewrite validate_fd_run by done; by rewrite Hd). rewrite (sbind_ok _ _ _ _ _ (description_run w me fd d Hd)), Hf.
  cbn [negb]. rewrite (sbind_ok _ _ _ w w) by done. set (i := f_inode (descriptions w d)) in *.
  assert (Hi : (i <? 0) = true) by (unfold pipe_at in Hp; by destruct (i <? 0)). cbn [i_mode i_can_read i_has_hungup i_read pipes_inodes]. unfold pipe_query. rewrite Hi, Hp.
  rewrite bool_decide_eq_false_2 by done. pose proof (proj2 (Pipe.contents_empty p Hwf) He) as Hemp. unfold Pipe.can_read_impl, Pipe.has_hungup_impl. rewrite Hemp. cbn [negb andb].
  destruct (Pipe.m_writing_count p =? 0) eqn:Ew; [done|]. rewrite andb_true_r. destruct (has_flag _ O_NONBLOCK); [done|].
  unfold sbind, on_inodes, dispatch. rewrite Hp. unfold Pipe.read_impl. by rewrite Hemp, Ew.
Qed.

Lemma write_pipe w me fd d p buf : table_ok (sets w me) -> open_at w me fd = Some d -> pipe_at (inodes w) (f_inode (descriptions w d)) = Some p ->
  has_flag (status_flags (descriptions w d)) O_WRONLY = true -> Pipe.wf p ->
  (Pipe.m_reading_count p = 0 -> write me fd buf w = (Err EPIPE, add_event SignalPipe w)) /\ (Pipe.m_reading_count p <> 0 -> (write me fd buf w).1 <> Err EPIPE).
Proof.
  intros Hok Hd Hp Hf Hwf. unfold write. rewrite (sbind_ok _ _ _ tt w) by (rewrite validate_fd_run by done; by rewrite Hd). rewrite (sbind_ok _ _ _ _ _ (description_run w me fd d Hd)), Hf.
  cbn [negb]. rewrite (sbind_ok _ _ _ w w) by done. set (i := f_inode (descriptions w d)) in *.
  assert (Hi : (i <? 0) = true) by (unfold pipe_at in Hp; by destruct (i <? 0)). cbn [i_mode i_can_write i_has_error i_write pipes_inodes]. unfold pipe_query. rewrite Hi, Hp.
  rewrite bool_decide_eq_false_2 by done. unfold Pipe.has_error_impl. split; intros Hr; [by rewrite Hr|]. rewrite (proj2 (Z.eqb_neq _ _) Hr), andb_false_r.
  unfold sbind at 1, on_inodes, dispatch. rewrite Hp. destruct (ByteRingBuffer.full (Pipe.m_buffer p)) eqn:Ef.
  - unfold Pipe.write_impl. rewrite Ef, (proj2 (Z.eqb_neq _ _) Hr). done.
  - destruct (Pipe.write_impl_ok p buf now Hwf Ef) as (p' & k & -> & _). set (w1 := set_inodes _ w). set (off := _ + Z.of_nat k). unfold store_offset, is_error. unfold sbind at 1 2.
    rewrite validate_fd_run by done. change (open_at w1 me fd) with (open_at w me fd). rewrite Hd. unfold sbind at 1. by rewrite (reference_run w1 me fd d Hd).
Qed.
End pipes.

(** ** Properties *)

(** C11: End of file and EPIPE are right across processes.  Take any sequence of system
    calls on descriptors from an empty system in which both descriptions of every
    new pipe could be allocated and no named pipe was opened, and then a descriptor
    that is open on a pipe.  A read from the empty pipe returns end of file if no descriptor, in any
    process or in flight, is open for writing to it, and otherwise waits, or fails
    with EAGAIN if the descriptor does not block.  A write fails with EPIPE and
    SIGPIPE if and only if no descriptor is open for reading from it. *)
Theorem pipe_ends_across_processes {M : Type} `{!Inodes M} `{!OrdinaryInodes M} (now : Z) (allocated : nat -> bool) (buffer : nat -> outcome ByteRingBuffer.t)
  (Hbuffer : forall k b, buffer k = Ok b -> ByteRingBuffer.wf b) (Hbuffer' : forall k, buffer k <> Panic)
  (created : nat -> bool) (pids : list Z) (Hpids : NoDup pids) (Hroom : Z.of_nat (OPEN_MAX * length pids) + 1 < 2 ^ 32)
  (m : M) (acts : list (Z * action)) (s : system (pipes M))
  (Hacts : all_allowed (Inodes0 := pipes_inodes now allocated buffer) created pids acts (boot (mk_pipes [] m)))
  (Hs : s = (exec_all (Inodes0 := pipes_inodes now allocated buffer) created acts (boot (mk_pipes [] m))).2)
  (me fd size : Z) (d : nat) (p : Pipe.t) (buf : list Z)
  (Hd : open_at (kernel s) me fd = Some d) (Hp : pipe_at (inodes (kernel s)) (f_inode (descriptions (kernel s) d)) = Some p) :
  let i := f_inode (descriptions (kernel s) d) in
  let fl := status_flags (descriptions (kernel s) d) in
  let result := (read (Inodes0 := pipes_inodes now allocated buffer) me fd size (kernel s)).1 in
  let written := write (Inodes0 := pipes_inodes now allocated buffer) me fd buf (kernel s) in
  (has_flag fl O_RDONLY = true -> Pipe.contents p = [] -> ~ reachable pids s i O_WRONLY -> result = Ok (Done [])) /\
  (has_flag fl O_RDONLY = true -> Pipe.contents p = [] -> reachable pids s i O_WRONLY -> result = if has_flag fl O_NONBLOCK then Err EAGAIN else Ok Blocked) /\
  (has_flag fl O_WRONLY = true -> ~ reachable pids s i O_RDONLY -> written = (Err EPIPE, add_event SignalPipe (kernel s))) /\
  (has_flag fl O_WRONLY = true -> reachable pids s i O_RDONLY -> written.1 <> Err EPIPE).
Proof.
  pose (Hcount := pipes_counted now allocated buffer Hbuffer Hbuffer').
  destruct (exec_all_safe (Inodes0 := pipes_inodes now allocated buffer) (CountedInodes0 := Hcount) created pids Hpids acts (boot (mk_pipes [] m))) as [_ Hi];
    [apply boot_sound; [|done]|done|].
  { intros i. change (pipe_counts (mk_pipes [] m) i []). unfold pipe_counts, pipe_at. cbn [p_pipes]. rewrite lookup_nil. by destruct (i <? 0). }
  rewrite <- Hs in Hi. set (i := f_inode (descriptions (kernel s) d)) in *. pose proof (inv_tables _ _ _ Hi me) as Hok.
  destruct (pipe_counts_ends now allocated buffer Hbuffer Hbuffer' pids s i p Hi Hp) as (Hwf & Hw & Hr). cbv zeta.
  split_and!; intros Hf.
  - intros He Hn. rewrite (read_empty_pipe now allocated buffer (kernel s) me fd d p size Hok Hd Hp Hf Hwf He). by rewrite (proj2 Hw Hn).
  - intros He Hn. rewrite (read_empty_pipe now allocated buffer (kernel s) me fd d p size Hok Hd Hp Hf Hwf He). rewrite (proj2 (Z.eqb_neq _ _)); [done|]. intros Hz. by apply Hw in Hz.
  - intros Hn. apply (write_pipe now allocated buffer (kernel s) me fd d p buf Hok Hd Hp Hf Hwf). by apply Hr.
  - intros Hn. apply (write_pipe now allocated buffer (kernel s) me fd d p buf Hok Hd Hp Hf Hwf). intros Hz. by apply Hr in Hz.
Qed.
