(* ===== verification/FileDescriptorsChecks.v ===== *)
(** * kernel/OpenFileDescriptorSet: examples

    Concrete processes, files and pipes, on which the theorems about descriptors
    are applied, and what goes wrong when an allocation fails. *)
From stdpp Require Import functions strings gmap.
From S2P Require Import Prelude BanMath RingBuffer Pipe StatefulLogic RecordLocks FileDescriptors FileDescriptorsCorrect FileDescriptorsOps FileDescriptorsSystem FileDescriptorsPipe.

(** ** Examples *)

(** Regular files of size 100 that accept everything, and no sockets. *)
#[export] Instance plain_inodes : Inodes unit := {
  i_mode _ _ := IFREG;
  i_size _ _ := 100;
  i_is_tty _ _ := false;
  i_can_read _ _ := true;
  i_can_write _ _ := true;
  i_has_hungup _ _ := false;
  i_has_error _ _ := false;
  i_truncate _ _ := sret tt;
  i_on_clone _ _ := sret tt;
  i_on_close _ _ := sret tt;
  i_ioctl _ _ _ := sfail ENOTSUP;
  i_read _ _ _ := sret (Done []);
  i_write _ _ b := sret (Done (Z.of_nat (length b)));
  i_list_next _ _ _ := sfail ENOTDIR;
  i_recvmsg _ _ _ := sfail ENOTSOCK;
  i_sendmsg _ _ _ := sfail ENOTSOCK;
  pipe_create := sfail ENOMEM;
  pipe_open _ _ := sfail ENOTSUP;
  create_socket _ _ _ := sfail ENOTSUP;
  connect_sockets _ _ _ := sfail ENOTSUP
}.

#[export] Instance plain_ordinary : OrdinaryInodes unit.
Proof. by split; try (intros; by split). Qed.

Definition demo_buffer (_ : nat) : outcome ByteRingBuffer.t := Ok (ByteRingBuffer.mk 0 6 8 (replicate 8 0)).

Lemma demo_buffer_wf k b : demo_buffer k = Ok b -> ByteRingBuffer.wf b.
Proof. intros [= <-]. split; cbn; lia. Qed.

Lemma demo_buffer_ok k : demo_buffer k <> Panic.
Proof. done. Qed.

#[local] Hint Extern 0 (Inodes (pipes unit)) => exact (pipes_inodes 0 (fun _ => true) demo_buffer) : typeclass_instances.
#[local] Hint Extern 0 (CountedInodes (pipes unit)) => exact (pipes_counted 0 (fun _ => true) demo_buffer demo_buffer_wf demo_buffer_ok) : typeclass_instances.

Definition demo_pids : list Z := [1; 2].

Lemma demo_pids_nodup : NoDup demo_pids.
Proof. refine (bool_decide_unpack _ _). vm_compute. exact I. Qed.

(** Process 1 makes a pipe and forks process 2, which keeps the reading end; the
    writing end of process 1 is in flight for a while. *)
Definition demo_acts : list (Z * action) :=
  [(1, MakePipe); (1, Fcntl 1 F_SETFD FD_CLOEXEC); (2, CloneFrom 1); (1, Close 0); (2, Close 1); (1, Send 1); (1, Close 1)].

Abbreviation demo_start := (boot (mk_pipes [] tt)).
Definition demo_end : system (pipes unit) := (exec_all (fun _ => true) demo_acts demo_start).2.

Ltac run_allowed := repeat match goal with
  | |- _ /\ _ => split
  | |- True => exact I
  | |- _ ∈ _ => refine (bool_decide_unpack _ _); vm_compute; exact I
  | |- all_allowed _ _ _ _ => cbn [all_allowed]
  | |- allowed _ _ _ _ _ => unfold allowed
  | |- _ => vm_compute; done
  end.

Lemma demo_allowed : all_allowed (fun _ => true) demo_pids demo_acts demo_start.
Proof. unfold demo_acts. run_allowed. Qed.

Lemma sound_after acts : all_allowed (fun _ => true) demo_pids acts demo_start -> sound_system demo_pids (exec_all (fun _ => true) acts demo_start).2.
Proof.
  intros Ha. apply (exec_all_safe (fun _ => true) demo_pids); [apply demo_pids_nodup| |exact Ha]. apply boot_sound; [|done].
  intros i. change (pipe_counts (mk_pipes [] tt) i []). unfold pipe_counts, pipe_at. cbn [p_pipes]. rewrite lookup_nil. by destruct (i <? 0).
Qed.

Definition fork_acts : list (Z * action) := [(1, MakePipe); (1, Fcntl 1 F_SETFD FD_CLOEXEC)].
Definition fork_world : world (pipes unit) := kernel (exec_all (fun _ => true) fork_acts demo_start).2.

Lemma fork_world_inv : inv demo_pids [] fork_world.
Proof. apply (sound_after fork_acts). unfold fork_acts. run_allowed. Qed.


Lemma fork_exec_inherits_witness : exists w', (let! _ := clone_from 2 1 in close_cloexec 2) fork_world = (Ok tt, w') /\ open_at w' 2 0 = Some 0%nat /\ open_at w' 2 1 = None.
Proof.
  destruct (fork_exec_inherits demo_pids demo_pids_nodup [] fork_world 2 1 fork_world_inv) as (w' & E & _ & Ho & _);
    [refine (bool_decide_unpack _ _); vm_compute; exact I|refine (bool_decide_unpack _ _); vm_compute; exact I|done|].
  exists w'. split; [exact E|]. split; rewrite Ho; vm_compute; reflexivity.
Defined.

Lemma duplicates_share_witness : exists w', dup2 1 0 5 fork_world = (Ok 5, w') /\ open_at w' 1 5 = Some 0%nat.
Proof.
  destruct (duplicates_share demo_pids demo_pids_nodup [] fork_world 1 0 5 0 0 fork_world_inv) as [_ (w' & E & _ & Hp)];
    [refine (bool_decide_unpack _ _); vm_compute; exact I|vm_compute; reflexivity|reflexivity|done|].
  exists w'. split; [exact E|]. rewrite (points_open _ _ _ _ _ Hp). by rewrite decide_True.
Defined.

Definition dropped_acts : list (Z * action) := demo_acts ++ [(1, Discard 0)].
Definition dropped_end : system (pipes unit) := (exec_all (fun _ => true) dropped_acts demo_start).2.

Lemma dropped_allowed : all_allowed (fun _ => true) demo_pids dropped_acts demo_start.
Proof. unfold dropped_acts, demo_acts. cbn [app]. run_allowed. Qed.

Lemma demo_end_eq : demo_end = (exec_all (fun _ => true) demo_acts demo_start).2.
Proof. unfold demo_end. reflexivity. Qed.

Lemma dropped_end_eq : dropped_end = (exec_all (fun _ => true) dropped_acts demo_start).2.
Proof. unfold dropped_end. reflexivity. Qed.

Lemma demo_room : Z.of_nat (OPEN_MAX * length demo_pids) + 1 < 2 ^ 32.
Proof. done. Qed.

Definition demo_pipe (writers : Z) : Pipe.t := Pipe.mk (ByteRingBuffer.mk 0 6 8 (replicate 8 0)) writers 1 0 0 0.

Lemma pipe_ends_across_processes_witness : (read 2 0 4 (kernel demo_end)).1 = Ok Blocked /\ (read 2 0 4 (kernel dropped_end)).1 = Ok (Done []).
Proof.
  assert (H1 : open_at (kernel demo_end) 2 0 = Some 0%nat) by (vm_compute; reflexivity).
  assert (H2 : pipe_at (inodes (kernel demo_end)) (f_inode (descriptions (kernel demo_end) 0)) = Some (demo_pipe 1)) by (vm_compute; reflexivity).
  assert (H3 : open_at (kernel dropped_end) 2 0 = Some 0%nat) by (vm_compute; reflexivity).
  assert (H4 : pipe_at (inodes (kernel dropped_end)) (f_inode (descriptions (kernel dropped_end) 0)) = Some (demo_pipe 0)) by (vm_compute; reflexivity).
  split.
  - pose proof (pipe_ends_across_processes (M := unit) (Inodes0 := plain_inodes) (OrdinaryInodes0 := plain_ordinary) 0 (fun _ => true) demo_buffer demo_buffer_wf demo_buffer_ok (fun _ => true) demo_pids demo_pids_nodup demo_room
      tt demo_acts demo_end demo_allowed demo_end_eq 2 0 4 0 (demo_pipe 1) [] H1 H2) as H. cbv zeta in H. destruct H as (_ & H & _).
    rewrite H; [vm_compute; reflexivity|vm_compute; reflexivity|vm_compute; reflexivity|].
    exists 1%nat. split; [refine (bool_decide_unpack _ _); vm_compute; exact I|]. split; vm_compute; reflexivity.
  - pose proof (pipe_ends_across_processes (M := unit) (Inodes0 := plain_inodes) (OrdinaryInodes0 := plain_ordinary) 0 (fun _ => true) demo_buffer demo_buffer_wf demo_buffer_ok (fun _ => true) demo_pids demo_pids_nodup demo_room
      tt dropped_acts dropped_end dropped_allowed dropped_end_eq 2 0 4 0 (demo_pipe 0) [] H3 H4) as H. cbv zeta in H. destruct H as (H & _).
    rewrite H; [reflexivity|vm_compute; reflexivity|vm_compute; reflexivity|]. intros (d & Hd & Hi & Hf).
    assert (Er : references demo_pids dropped_end = [0%nat]) by (vm_compute; reflexivity). rewrite Er in Hd. apply list_elem_of_singleton in Hd. subst d. vm_compute in Hf. discriminate Hf.
Defined.

(** ** What goes wrong *)

(** a pipe whose second description cannot be allocated leaves its reading end
    open: the call fails, but the first descriptor stays in the table, and as the
    pipe has counted a writer that does not exist, a read from it waits although
    no descriptor in the system is open for writing. *)
Theorem failed_pipe_waits_forever :
  let s := (exec_all (fun d => negb (d =? 1)%nat) [(1, MakePipe)] demo_start).2 in
  (exec_all (fun d => negb (d =? 1)%nat) [(1, MakePipe)] demo_start).1 = [Err ENOMEM] /\
  references demo_pids s = [0%nat] /\ status_flags (descriptions (kernel s) 0) = O_RDONLY /\ (read 1 0 4 (kernel s)).1 = Ok Blocked.
Proof. cbv zeta. split_and!; vm_compute; reflexivity. Qed.

(** flock does not exclude.  The lock is a part of the open file description, so
    two processes that open the same file both get the exclusive lock at once;
    and where they share a description, a process that holds a shared lock is told
    that it has the exclusive lock while another one still holds the shared lock. *)
Theorem flock_is_not_exclusive :
  let own := kernel (exec_all (fun _ => true) [(1, Open 5 "f" O_RDWR); (2, Open 5 "f" O_RDWR); (1, Flock true 0 LOCK_EX)] demo_start).2 in
  let shared := kernel (exec_all (fun _ => true) [(1, Open 5 "f" O_RDWR); (2, CloneFrom 1); (1, Flock true 0 LOCK_SH); (2, Flock true 0 LOCK_SH)] demo_start).2 in
  (inode_of 1 0 own).1 = (inode_of 2 0 own).1 /\ fl_locked (descriptions own 0) = true /\ fl_shared (descriptions own 0) = false /\
  (flock_turn true 2 0 LOCK_EX own).1 = Ok (Done tt) /\
  fl_lockers (descriptions shared 0) = {[1; 2]} /\ (flock_turn true 1 0 LOCK_EX shared).1 = Ok (Done tt) /\
  fl_lockers (descriptions (flock_turn true 1 0 LOCK_EX shared).2 0) = {[1; 2]}.
Proof. cbv zeta. split_and!; vm_compute; reflexivity. Qed.
