(* ===== verification/LockSpec.v ===== *)
(** * kernel/Lock: mutexes, spin locks and the reader-writer lock

    The locks are modelled at the grain of their atomic accesses.  A thread (or
    processor) is at a program point between two such accesses, and [exec]
    performs the code up to the next one.  [exec] is [None] when the thread is
    not at that point, and [Panic] when an assertion of the code fails.  The
    abstract lock below is what each of them promises; the refinement theorems
    show that every interleaving of the concrete steps is one of the abstract
    lock's histories and that no assertion fails. *)
From S2P Require Import Prelude.

(** ** The abstract recursive lock *)
Module LockSpec.

(** The holder and its nesting depth. *)
Abbreviation spec := (option (Z * Z)).

Inductive lock_event : Type := Acquire (id : Z) | Release (id : Z).

Inductive step : spec -> option lock_event -> spec -> Prop :=
| step_none s : step s None s
| step_acquire id : step None (Some (Acquire id)) (Some (id, 1))
| step_reenter id n : step (Some (id, n)) (Some (Acquire id)) (Some (id, n + 1))
| step_leave id n : 1 < n -> step (Some (id, n)) (Some (Release id)) (Some (id, n - 1))
| step_release id : step (Some (id, 1)) (Some (Release id)) None.

(** How often [id] holds the lock after the events [evs]. *)
Fixpoint holds (id : Z) (evs : list lock_event) : Z :=
  match evs with
  | [] => 0
  | Acquire id' :: evs' => Z.b2z (id' =? id) + holds id evs'
  | Release id' :: evs' => - Z.b2z (id' =? id) + holds id evs'
  end.

Lemma holds_app id evs evs' : holds id (evs ++ evs') = holds id evs + holds id evs'.
Proof. induction evs as [|[id'|id'] evs IH]; cbn; lia. Qed.

(** A history that leads to [s]. *)
Definition explains (evs : list lock_event) (s : spec) : Prop :=
  forall id, holds id evs = match s with Some (id', n) => if id =? id' then n else 0 | None => 0 end.

Definition spec_ok (s : spec) : Prop := match s with Some (_, n) => 0 < n | None => True end.

Definition events_of (ev : option lock_event) : list lock_event :=
  match ev with Some e => [e] | None => [] end.

Lemma step_explains evs s ev s' :
  spec_ok s -> explains evs s -> step s ev s' -> explains (evs ++ events_of ev) s' /\ spec_ok s'.
Proof.
  intros Hok He Hs. split; [|destruct Hs; cbn in *; lia || done].
  intros id. rewrite holds_app, He.
  destruct Hs as [s|id'|id' n|id' n Hn|id']; cbn; try lia;
    destruct (Z.eqb_spec id' id), (Z.eqb_spec id id'); subst; cbn; lia || done.
Qed.

(** Mutual exclusion of the abstract lock. *)
Lemma explains_exclusive evs s id1 id2 :
  explains evs s -> 0 < holds id1 evs -> 0 < holds id2 evs -> id1 = id2.
Proof.
  intros He. rewrite !He. destruct s as [[id n]|]; [|lia].
  destruct (Z.eqb_spec id1 id), (Z.eqb_spec id2 id); subst; lia || done.
Qed.
End LockSpec.

(** A concrete lock: its states, the actions of a participant, when a client
    may take an action, and the relation to the abstract lock. *)
Class RecursiveLock : Type := {
  lock_state : Type;
  lock_action : Type;
  lock_exec : lock_state -> Z -> lock_action -> option (outcome (lock_state * option LockSpec.lock_event));
  lock_allowed : lock_state -> Z -> lock_action -> LockSpec.spec -> Prop;
  lock_init : lock_state -> Prop;
  lock_rel : lock_state -> LockSpec.spec -> Prop;
  lock_rel_init : forall s, lock_init s -> lock_rel s None;
  lock_rel_ok : forall s a, lock_rel s a -> LockSpec.spec_ok a;
  lock_simulates : forall s a id act o,
    lock_rel s a -> lock_allowed s id act a -> lock_exec s id act = Some o ->
    exists s' ev a', o = Ok (s', ev) /\ LockSpec.step a ev a' /\ lock_rel s' a'
}.

Section clients.
Context `{L : RecursiveLock}.

(** A run of well-behaved participants, with the events so far. *)
Inductive run : lock_state -> list LockSpec.lock_event -> Prop :=
| run_init s : lock_init s -> run s []
| run_step s evs id act s' ev a :
    run s evs -> lock_rel s a -> LockSpec.explains evs a -> lock_allowed s id act a ->
    lock_exec s id act = Some (Ok (s', ev)) ->
    run s' (evs ++ LockSpec.events_of ev).

Lemma run_explained s evs : run s evs -> exists a, lock_rel s a /\ LockSpec.explains evs a.
Proof.
  induction 1 as [s Hi|s evs id act s' ev a Hrun _ Hrel Hex Hal He].
  - exists None. split; [by apply lock_rel_init|]. by intros id.
  - destruct (lock_simulates s a id act _ Hrel Hal He) as (s2 & ev2 & a' & E & Hs & Hrel').
    simplify_eq. exists a'. split; [done|].
    by apply (LockSpec.step_explains evs a ev2 a' (lock_rel_ok s a Hrel) Hex Hs).
Qed.

(** No two participants hold the lock, and no allowed action fails. *)
Lemma run_safe s evs :
  run s evs ->
  (forall id1 id2, 0 < LockSpec.holds id1 evs -> 0 < LockSpec.holds id2 evs -> id1 = id2) /\
  (forall id act a o, lock_rel s a -> lock_allowed s id act a -> lock_exec s id act = Some o -> is_Ok o).
Proof.
  intros Hrun. destruct (run_explained s evs Hrun) as (a & Hrel & Hex). split.
  - intros id1 id2. by apply (LockSpec.explains_exclusive evs a).
  - intros id act a' o Hrel' Hal He.
    by destruct (lock_simulates s a' id act o Hrel' Hal He) as (s' & ev & a2 & -> & _).
Qed.
End clients.

(** What a thread knows about itself. *)
Record thread_info : Type := mk_info {
  has_spinlock : bool;
  interrupts_enabled : bool;
  is_userspace : bool
}.

(** The program point of a thread, and its count of held mutexes. *)
Inductive pc : Type := Idle | Spinning | Acquired | Releasing.
Record thread : Type := mk_thread { t_pc : pc; t_mutex_count : Z }.

Definition update {A} (f : Z -> A) (id : Z) (x : A) : Z -> A := fun id' => if id' =? id then x else f id'.

Lemma update_eq {A} (f : Z -> A) id x : update f id x id = x.
Proof. unfold update. by rewrite Z.eqb_refl. Qed.

Lemma update_ne {A} (f : Z -> A) id id' x : id' <> id -> update f id x id' = f id'.
Proof. intros. unfold update. by rewrite (proj2 (Z.eqb_neq _ _)). Qed.

(** How a class of threads changes when [id] goes to [p]. *)
Lemma class_update {P B} (f : P -> B) (ps : Z -> P) id p x : f (update ps id p x) = if decide (x = id) then f p else f (ps x).
Proof. case_decide; [subst; by rewrite update_eq|by rewrite update_ne]. Qed.

Lemma exists_update {P} (f : P -> bool) (ps : Z -> P) id p : f p = true \/ (f (ps id) = false /\ exists u, f (ps u) = true) -> exists u, f (update ps id p u) = true.
Proof.
  intros [Hp|[Hid [u Hu]]]; [exists id; by rewrite update_eq|]. exists u. rewrite update_ne; [done|]. intros ->. congruence.
Qed.
