(* ===== verification/Mutex.v ===== *)
(** * kernel/Lock/Mutex: the recursive sleeping lock *)
From S2P Require Import Prelude LockSpec.

Module Mutex.

(** ** Definitions *)
Record t : Type := mk { m_locker : Z; m_lock_depth : Z; threads : Z -> thread }.

Inductive action : Type :=
| TryLock
| Lock (info : thread_info)
| Retry (info : thread_info)
| Enter
| Unlock
| Store.

(** Thread 0 is the early kernel, which has no [Thread] object to count in. *)
Definition add_mutex (tid : Z) (th : thread) (p : pc) : thread :=
  mk_thread p (if tid =? 0 then t_mutex_count th else t_mutex_count th + 1).
Definition remove_mutex (tid : Z) (th : thread) (p : pc) : thread :=
  mk_thread p (if tid =? 0 then t_mutex_count th else t_mutex_count th - 1).

Definition set_thread (m : t) (tid : Z) (th : thread) : t :=
  mk (m_locker m) (m_lock_depth m) (update (threads m) tid th).

(** [m_locker.compare_exchange(expected = -1, tid)], and what follows success. *)
Definition compare_exchange (m : t) (tid : Z) : option t :=
  if m_locker m =? -1 then
    Some (mk tid (m_lock_depth m) (update (threads m) tid (mk_thread Acquired (t_mutex_count (threads m tid)))))
  else None.

(** The code after a successful exchange: [ASSERT(m_lock_depth == 0)],
    [add_mutex], [m_lock_depth++]. *)
Definition enter (m : t) (tid : Z) : outcome t :=
  ASSERT (m_lock_depth m =? 0) in
  Ok (mk (m_locker m) (u32 (m_lock_depth m + 1))
         (update (threads m) tid (add_mutex tid (threads m tid) Idle))).

Definition reenter (m : t) : outcome t :=
  ASSERT (0 <? m_lock_depth m) in
  Ok (mk (m_locker m) (u32 (m_lock_depth m + 1)) (threads m)).

Definition try_lock (m : t) (tid : Z) : outcome (t * option LockSpec.lock_event) :=
  if tid =? m_locker m then let* m := reenter m in Ok (m, Some (LockSpec.Acquire tid))
  else
    match compare_exchange m tid with
    | None => Ok (m, None)
    | Some m => Ok (m, None)
    end.

(** [lock] up to its first exchange. *)
Definition lock (m : t) (tid : Z) (info : thread_info) : outcome (t * option LockSpec.lock_event) :=
  if tid =? m_locker m then let* m := reenter m in Ok (m, Some (LockSpec.Acquire tid))
  else
    ASSERT ((tid =? 0) || negb (has_spinlock info)) in
    match compare_exchange m tid with
    | None => Ok (set_thread m tid (mk_thread Spinning (t_mutex_count (threads m tid))), None)
    | Some m => Ok (m, None)
    end.

(** One iteration of the loop of [lock]. *)
Definition retry (m : t) (tid : Z) (info : thread_info) : outcome (t * option LockSpec.lock_event) :=
  ASSERT (interrupts_enabled info) in
  match compare_exchange m tid with None => Ok (m, None) | Some m => Ok (m, None) end.

(** [unlock] up to the store that frees the lock. *)
Definition unlock (m : t) (tid : Z) : outcome (t * option LockSpec.lock_event) :=
  ASSERT (m_locker m =? tid) in
  ASSERT (0 <? m_lock_depth m) in
  let depth := u32 (m_lock_depth m - 1) in
  let p := if depth =? 0 then Releasing else Idle in
  Ok (mk (m_locker m) depth (update (threads m) tid (mk_thread p (t_mutex_count (threads m tid)))),
      Some (LockSpec.Release tid)).

Definition store (m : t) (tid : Z) : t :=
  mk (-1) (m_lock_depth m) (update (threads m) tid (remove_mutex tid (threads m tid) Idle)).

Definition is_locked_by_current_thread (m : t) (tid : Z) : bool := m_locker m =? tid.

Definition exec (m : t) (tid : Z) (a : action) : option (outcome (t * option LockSpec.lock_event)) :=
  match t_pc (threads m tid), a with
  | Idle, TryLock => Some (try_lock m tid)
  | Idle, Lock info => Some (lock m tid info)
  | Spinning, Retry info => Some (retry m tid info)
  | Acquired, Enter => Some (let* m := enter m tid in Ok (m, Some (LockSpec.Acquire tid)))
  | Idle, Unlock => Some (unlock m tid)
  | Releasing, Store => Some (Ok (store m tid, None))
  | _, _ => None
  end.

(** ** Refinement *)

(** The environment: threads lock without holding a spin lock and with
    interrupts on, unlock only what they hold, and nest less than 2^32 deep. *)
Definition allowed (m : t) (tid : Z) (a : action) (s : LockSpec.spec) : Prop :=
  0 <= tid /\ m_lock_depth m < 2 ^ 32 - 1 /\
  match a with
  | Lock info => has_spinlock info = false
  | Retry info => interrupts_enabled info = true
  | Unlock => exists n, s = Some (tid, n)
  | _ => True
  end.

Definition passive (p : pc) : Prop := p = Idle \/ p = Spinning.

Definition rel (m : t) (s : LockSpec.spec) : Prop :=
  (forall id, 0 <= id -> id <> m_locker m -> passive (t_pc (threads m id))) /\
  match s with
  | Some (id, n) => m_locker m = id /\ 0 <= id /\ 0 < n /\ m_lock_depth m = n /\ t_pc (threads m id) = Idle
  | None => m_lock_depth m = 0 /\
      (m_locker m = -1 \/
       0 <= m_locker m /\ (t_pc (threads m (m_locker m)) = Acquired \/ t_pc (threads m (m_locker m)) = Releasing))
  end.

Definition init (m : t) : Prop :=
  m_locker m = -1 /\ m_lock_depth m = 0 /\ forall id, t_pc (threads m id) = Idle.

Lemma passive_update f id id' th : id' <> id -> passive (t_pc (f id')) -> passive (t_pc (update f id th id')).
Proof. intros. by rewrite update_ne. Qed.

Lemma compare_exchange_rel m s tid :
  rel m s -> 0 <= tid -> passive (t_pc (threads m tid)) ->
  match compare_exchange m tid with
  | Some m' => s = None /\ rel m' None
  | None => m_locker m <> -1
  end.
Proof.
  intros [Hp Hs] Ht Hpt. unfold compare_exchange. case_if; zify_bool; [|done].
  destruct s as [[id n]|]; [lia|]. destruct Hs as [Hd _]. split; [done|]. split; cbn.
  - intros id Hid Hne. apply passive_update; [done|]. apply Hp; lia.
  - rewrite update_eq. cbn. split; [done|]. right. split; [done|by left].
Qed.

(** A step that changes only the program point of a passive thread. *)
Lemma rel_set_passive m s tid th :
  rel m s -> passive (t_pc (threads m tid)) -> tid <> m_locker m -> passive (t_pc th) -> rel (set_thread m tid th) s.
Proof.
  intros [Hp Hs] Hpt Hne Hth. split; cbn.
  - intros id Hid Hidl. destruct (decide (id = tid)) as [->|]; [by rewrite update_eq|].
    rewrite update_ne by done. by apply Hp.
  - destruct s as [[id n]|]; [destruct Hs as (<- & ? & ? & ? & ?)|destruct Hs as (? & ?)];
      rewrite ?update_ne by done; done.
Qed.

Lemma reenter_rel m s tid :
  rel m s -> 0 <= tid -> tid = m_locker m -> t_pc (threads m tid) = Idle -> m_lock_depth m < 2 ^ 32 - 1 ->
  exists m' n, s = Some (tid, n) /\ reenter m = Ok m' /\ rel m' (Some (tid, n + 1)).
Proof.
  intros [Hp Hs] Ht -> Hpc Hd. destruct s as [[id n]|].
  - destruct Hs as (<- & ? & ? & ? & ?). exists (mk (m_locker m) (n + 1) (threads m)), n.
    unfold reenter. rewrite (proj2 (Z.ltb_lt _ _)), wrap_id by lia. split_and!; [done|congruence|].
    split; [done|]. cbn. split_and!; done || lia.
  - destruct Hs as [_ [?|[_ [?|?]]]]; [lia|congruence|congruence].
Qed.

(** The fragments of the lock code, each as a step of the abstract lock. *)
Definition simulated (o : outcome (t * option LockSpec.lock_event)) (s : LockSpec.spec) : Prop :=
  exists m' ev s', o = Ok (m', ev) /\ LockSpec.step s ev s' /\ rel m' s'.

Lemma sim_reenter m s tid :
  rel m s -> 0 <= tid -> tid = m_locker m -> t_pc (threads m tid) = Idle -> m_lock_depth m < 2 ^ 32 - 1 ->
  simulated (let* m := reenter m in Ok (m, Some (LockSpec.Acquire tid))) s.
Proof.
  intros Hrel Ht Hl Hpc Hd. destruct (reenter_rel m s tid Hrel Ht Hl Hpc Hd) as (m' & n & -> & -> & ?).
  exists m', (Some (LockSpec.Acquire tid)), (Some (tid, n + 1)). split_and!; [done|constructor|done].
Qed.

Lemma sim_skip m s : rel m s -> simulated (Ok (m, None)) s.
Proof. exists m, None, s. split_and!; [done|apply LockSpec.step_none|done]. Qed.

Lemma sim_cas m s tid :
  rel m s -> 0 <= tid -> passive (t_pc (threads m tid)) ->
  match compare_exchange m tid with Some m' => simulated (Ok (m', None)) s | None => m_locker m <> -1 end.
Proof.
  intros Hrel Ht Hp. pose proof (compare_exchange_rel m s tid Hrel Ht Hp) as Hc.
  destruct (compare_exchange m tid) as [m'|]; [|done]. destruct Hc as [-> Hc]. by apply sim_skip.
Qed.

Lemma sim_unlock m s tid n :
  rel m s -> s = Some (tid, n) -> m_lock_depth m < 2 ^ 32 - 1 -> simulated (unlock m tid) s.
Proof.
  intros [Hp Hs] -> Hdep. destruct Hs as (Hl & Hn0 & Hn & Hd & Hpc). unfold unlock, simulated.
  rewrite Hl, Z.eqb_refl, (proj2 (Z.ltb_lt _ _)), wrap_id by lia.
  assert (Hpas : forall th id, 0 <= id -> id <> tid -> passive (t_pc (update (threads m) tid th id))).
  { intros th id Hid Hne. apply passive_update; [done|]. by apply Hp; [|rewrite Hl]. }
  destruct (decide (n = 1)) as [->|].
  - eexists _, _, None. split_and!; [done|constructor|]. rewrite Hd. cbn. split; cbn; [by apply Hpas|].
    rewrite update_eq. cbn. split; [done|]. right. split; [done|by right].
  - eexists _, _, (Some (tid, n - 1)). split_and!; [done|constructor; lia|].
    rewrite (proj2 (Z.eqb_neq _ _)) by lia. split; cbn; [by apply Hpas|].
    rewrite update_eq. cbn. split_and!; done || lia.
Qed.

(** A thread past its exchange or before its final store owns the lock word. *)
Lemma rel_owner m s tid :
  rel m s -> 0 <= tid -> t_pc (threads m tid) = Acquired \/ t_pc (threads m tid) = Releasing ->
  m_locker m = tid /\ s = None /\ m_lock_depth m = 0.
Proof.
  intros [Hp Hs] Ht Hpc.
  assert (Hl : m_locker m = tid).
  { destruct (decide (tid = m_locker m)) as [|Hne]; [done|].
    destruct (Hp tid Ht Hne), Hpc; congruence. }
  destruct s as [[id n]|]; [|by destruct Hs]. destruct Hs as (He & _ & _ & _ & Hi).
  subst id. rewrite Hl in Hi. destruct Hpc; congruence.
Qed.

Lemma sim_enter m s tid :
  rel m s -> 0 <= tid -> t_pc (threads m tid) = Acquired ->
  simulated (let* m := enter m tid in Ok (m, Some (LockSpec.Acquire tid))) s.
Proof.
  intros Hrel Ht Hpc. destruct (rel_owner m s tid Hrel Ht ltac:(by left)) as (Hl & -> & Hd).
  destruct Hrel as [Hp _]. unfold enter. rewrite Hd. cbn [Z.eqb]. rewrite wrap_id by lia.
  eexists _, _, (Some (tid, 1)). split_and!; [done|constructor|]. split; cbn.
  - intros id Hid Hne. apply passive_update; [congruence|]. by apply Hp.
  - rewrite Hl, update_eq. cbn. split_and!; done || lia.
Qed.

Lemma sim_store m s tid :
  rel m s -> 0 <= tid -> t_pc (threads m tid) = Releasing -> simulated (Ok (store m tid, None)) s.
Proof.
  intros Hrel Ht Hpc. destruct (rel_owner m s tid Hrel Ht ltac:(by right)) as (Hl & -> & Hd).
  destruct Hrel as [Hp _]. apply sim_skip. split; cbn.
  - intros id Hid Hne. destruct (decide (id = tid)) as [->|]; [rewrite update_eq; by left|].
    apply passive_update; [done|]. apply Hp; congruence.
  - split; [done|by left].
Qed.

Lemma simulates m s tid act o :
  rel m s -> allowed m tid act s -> exec m tid act = Some o -> simulated o s.
Proof.
  intros Hrel (Ht & Hdep & Hal) He. unfold exec in He.
  destruct (t_pc (threads m tid)) eqn:Epc, act; simplify_eq.
  - unfold try_lock. case_if; zify_bool; [by apply sim_reenter|].
    pose proof (sim_cas m s tid Hrel Ht ltac:(by left)) as Hc.
    destruct (compare_exchange m tid); [done|by apply sim_skip].
  - unfold lock. case_if; zify_bool; [by apply sim_reenter|].
    rewrite Hal, orb_true_r. pose proof (sim_cas m s tid Hrel Ht ltac:(by left)) as Hc.
    destruct (compare_exchange m tid); [done|].
    apply sim_skip, rel_set_passive; [done|by left|done|by right].
  - destruct Hal as [n Hs]. by apply (sim_unlock m s tid n).
  - unfold retry. rewrite Hal. pose proof (sim_cas m s tid Hrel Ht ltac:(by right)) as Hc.
    destruct (compare_exchange m tid); [done|by apply sim_skip].
  - by apply sim_enter.
  - by apply sim_store.
Qed.

Lemma rel_init m : init m -> rel m None.
Proof. intros (Hl & Hd & Hpc). split; [intros id _ _; left; apply Hpc|]. split; [done|by left]. Qed.

Lemma rel_spec_ok m s : rel m s -> LockSpec.spec_ok s.
Proof. intros [_ H]. destruct s as [[id n]|]; [|done]. by destruct H as (_ & _ & ? & _). Qed.

#[export] Instance mutex_lock : RecursiveLock := {
  lock_state := t;
  lock_action := action;
  lock_exec := exec;
  lock_allowed := allowed;
  lock_init := init;
  lock_rel := rel;
  lock_rel_init := rel_init;
  lock_rel_ok := rel_spec_ok;
  lock_simulates := simulates
}.

(** ** Properties *)

(** C31: in every interleaving of threads that use the mutex as intended, at
    most one thread holds it, the lock word and the depth name that thread and
    its nesting, and none of the assertions in [lock], [try_lock] and [unlock]
    fails. *)
Theorem mutex_excludes (m : t) (evs : list LockSpec.lock_event) (Hrun : run (L := mutex_lock) m evs) :
  (forall id1 id2, 0 < LockSpec.holds id1 evs -> 0 < LockSpec.holds id2 evs -> id1 = id2) /\
  (forall id, 0 < LockSpec.holds id evs -> m_locker m = id /\ m_lock_depth m = LockSpec.holds id evs) /\
  (forall tid act s o, rel m s -> allowed m tid act s -> exec m tid act = Some o -> is_Ok o).
Proof.
  destruct (run_safe (L := mutex_lock) m evs Hrun) as [H1 H2]. split_and!; [done| |exact H2]. intros id Hid.
  destruct (run_explained (L := mutex_lock) m evs Hrun) as (a & [_ Hrel] & Hex). rewrite Hex in Hid |- *.
  destruct a as [[id' n]|]; [|lia]. destruct (Z.eqb_spec id id') as [->|]; [|lia].
  destruct Hrel as (? & _ & _ & ? & _). done.
Qed.

Definition unlocked : t := mk (-1) 0 (fun _ => mk_thread Idle 0).
Definition quiet : thread_info := mk_info false true false.

(** Thread 7 locks twice while thread 8 spins. *)
Lemma mutex_excludes_witness :
  exists m, run (L := mutex_lock) m [LockSpec.Acquire 7; LockSpec.Acquire 7] /\ m_locker m = 7 /\ m_lock_depth m = 2.
Proof.
  assert (R0 : run (L := mutex_lock) unlocked []) by (by constructor).
  assert (E0 : LockSpec.explains [] None) by (by intros id).
  assert (A0 : rel unlocked None) by (by apply rel_init).
  pose proof (run_step (L := mutex_lock) unlocked [] 7 (Lock quiet) _ None None R0 A0 E0 ltac:(done) eq_refl) as R1.
  cbn in R1.
  match type of R1 with run ?m _ => pose (m1 := m); change m with m1 in R1 end.
  assert (A1 : rel m1 None).
  { unfold m1. split; cbn; [intros id ? ?; rewrite update_ne by done; by left|]. split; [done|]. right. split; [done|]. by left. }
  pose proof (run_step (L := mutex_lock) m1 [] 7 Enter _ _ None R1 A1 E0 ltac:(done) eq_refl) as R2. cbn in R2.
  match type of R2 with run ?m _ => pose (m2 := m); change m with m2 in R2 end.
  assert (E2 : LockSpec.explains [LockSpec.Acquire 7] (Some (7, 1)))
    by (intros id; cbn [LockSpec.holds]; destruct (Z.eqb_spec 7 id), (Z.eqb_spec id 7); cbn; lia).
  assert (A2 : rel m2 (Some (7, 1))).
  { unfold m2, m1. split; cbn; [intros id ? ?; rewrite !update_ne by done; by left|]. split_and!; done. }
  pose proof (run_step (L := mutex_lock) m2 [LockSpec.Acquire 7] 7 (Lock quiet) _ _ (Some (7, 1)) R2 A2 E2
    ltac:(done) eq_refl) as R3. cbn in R3.
  match type of R3 with run ?m _ => pose (m3 := m); change m with m3 in R3 end.
  destruct (mutex_excludes m3 _ R3) as (_ & H & _). exists m3.
  destruct (H 7 ltac:(done)) as [H1 H2]. done.
Defined.
End Mutex.
