(* ===== verification/PriorityMutex.v ===== *)
(** * kernel/Lock/Mutex: the mutex that lets kernel threads go first *)
From S2P Require Import Prelude LockSpec Mutex.

Module PriorityMutex.
Import Mutex.

(** ** Definitions: the same lock word and depth, and the queue of kernel
    threads, which go before user threads. *)
Record t : Type := mk { base : Mutex.t; m_queue_length : Z }.

Definition has_priority (tid : Z) (info : thread_info) : bool :=
  if tid =? 0 then true else negb (is_userspace info).

Definition set_base (m : t) (b : Mutex.t) : t := mk b (m_queue_length m).

Inductive action : Type :=
| TryLock (info : thread_info)
| Lock (info : thread_info)
| Retry (info : thread_info)
| Enter
| Unlock (info : thread_info)
| Store.

(** The condition of [try_lock] and of the loop of [lock]. *)
Definition may_try (m : t) (tid : Z) (info : thread_info) : bool :=
  has_priority tid info || (m_queue_length m =? 0).

Definition try_lock (m : t) (tid : Z) (info : thread_info) : outcome (t * option LockSpec.lock_event) :=
  if tid =? m_locker (base m) then
    let* b := reenter (base m) in Ok (set_base m b, Some (LockSpec.Acquire tid))
  else if negb (may_try m tid info) then Ok (m, None)
  else
    match compare_exchange (base m) tid with
    | None => Ok (m, None)
    | Some b => Ok (mk b (if has_priority tid info then u32 (m_queue_length m + 1) else m_queue_length m), None)
    end.

(** [lock] up to its loop. *)
Definition lock (m : t) (tid : Z) (info : thread_info) : outcome (t * option LockSpec.lock_event) :=
  if tid =? m_locker (base m) then
    let* b := reenter (base m) in Ok (set_base m b, Some (LockSpec.Acquire tid))
  else
    ASSERT ((tid =? 0) || negb (has_spinlock info)) in
    let q := if has_priority tid info then u32 (m_queue_length m + 1) else m_queue_length m in
    Ok (mk (set_thread (base m) tid (mk_thread Spinning (t_mutex_count (threads (base m) tid)))) q, None).

(** The loop condition once, and the assertion of the loop body if it fails. *)
Definition retry (m : t) (tid : Z) (info : thread_info) : outcome (t * option LockSpec.lock_event) :=
  if negb (may_try m tid info) then ASSERT (interrupts_enabled info) in Ok (m, None)
  else
    match compare_exchange (base m) tid with
    | None => ASSERT (interrupts_enabled info) in Ok (m, None)
    | Some b => Ok (set_base m b, None)
    end.

(** [unlock] up to the store: the last level also leaves the queue. *)
Definition unlock (m : t) (tid : Z) (info : thread_info) : outcome (t * option LockSpec.lock_event) :=
  let* (b, ev) := Mutex.unlock (base m) tid in
  let leaves := (m_lock_depth b =? 0) && has_priority tid info in
  Ok (mk b (if leaves then u32 (m_queue_length m - 1) else m_queue_length m), ev).

Definition exec (m : t) (tid : Z) (a : action) : option (outcome (t * option LockSpec.lock_event)) :=
  match t_pc (threads (base m) tid), a with
  | Idle, TryLock info => Some (try_lock m tid info)
  | Idle, Lock info => Some (lock m tid info)
  | Spinning, Retry info => Some (retry m tid info)
  | Acquired, Enter =>
      Some (let* b := enter (base m) tid in Ok (set_base m b, Some (LockSpec.Acquire tid)))
  | Idle, Unlock info => Some (unlock m tid info)
  | Releasing, Store => Some (Ok (set_base m (store (base m) tid), None))
  | _, _ => None
  end.

(** ** Refinement, through the plain mutex *)
Definition allowed (m : t) (tid : Z) (a : action) (s : LockSpec.spec) : Prop :=
  0 <= tid /\ m_lock_depth (base m) < 2 ^ 32 - 1 /\
  match a with
  | Lock info => has_spinlock info = false
  | Retry info => interrupts_enabled info = true
  | Unlock _ => exists n, s = Some (tid, n)
  | _ => True
  end.

Definition prel (m : t) (s : LockSpec.spec) : Prop := rel (base m) s.
Definition pinit (m : t) : Prop := init (base m) /\ m_queue_length m = 0.

Lemma priority_simulates m s tid act o :
  prel m s -> allowed m tid act s -> exec m tid act = Some o ->
  exists m' ev s', o = Ok (m', ev) /\ LockSpec.step s ev s' /\ prel m' s'.
Proof.
  intros Hrel (Ht & Hdep & Hal) He. unfold exec in He. unfold prel in *.
  assert (Hlift : forall ob f, Mutex.simulated ob s ->
    exists m' ev s', (let* (b, ev) := ob in Ok (mk b (f b), ev)) = Ok (m', ev) /\
      LockSpec.step s ev s' /\ rel (base m') s').
  { intros ob f (b & ev & s' & -> & ? & ?). eexists (mk b (f b)), ev, s'. done. }
  assert (Hskip : forall q, exists m' ev s', Ok (mk (base m) q, None) = Ok (m', ev) /\
      LockSpec.step s ev s' /\ rel (base m') s').
  { intros q. by apply (Hlift (Ok (base m, None)) (fun _ => q)), sim_skip. }
  destruct m as [b q]. cbn [base m_queue_length] in *.
  destruct (t_pc (threads b tid)) eqn:Epc, act; simplify_eq; cbn [base].
  - unfold try_lock. cbn [base m_queue_length]. case_if; zify_bool.
    { destruct (Hlift _ (fun _ => q) (sim_reenter b s tid Hrel Ht E Epc Hdep)) as (m' & ev & s' & H & ?).
      destruct (reenter b); cbn in H |- *; eauto. }
    case_if; [apply Hskip|]. pose proof (sim_cas b s tid Hrel Ht ltac:(by left)) as Hc.
    destruct (compare_exchange b tid) as [b'|]; [|apply Hskip]. by apply (Hlift (Ok (b', None)) (fun _ => _)).
  - unfold lock. cbn [base m_queue_length]. case_if; zify_bool.
    { destruct (Hlift _ (fun _ => q) (sim_reenter b s tid Hrel Ht E Epc Hdep)) as (m' & ev & s' & H & ?).
      destruct (reenter b); cbn in H |- *; eauto. }
    rewrite Hal, orb_true_r. apply (Hlift (Ok (set_thread b tid _, None)) (fun _ => _)).
    apply sim_skip, rel_set_passive; [done|by left|done|by right].
  - destruct Hal as [n Hs]. unfold unlock. cbn [base m_queue_length].
    apply (Hlift (Mutex.unlock b tid) (fun b' => if (m_lock_depth b' =? 0) && has_priority tid info then _ else _)).
    by apply (sim_unlock b s tid n).
  - unfold retry. cbn [base m_queue_length]. rewrite Hal. case_if; [apply Hskip|].
    pose proof (sim_cas b s tid Hrel Ht ltac:(by right)) as Hc.
    destruct (compare_exchange b tid) as [b'|]; [|apply Hskip]. by apply (Hlift (Ok (b', None)) (fun _ => q)).
  - destruct (Hlift _ (fun _ => q) (sim_enter b s tid Hrel Ht Epc)) as (m' & ev & s' & H & ?).
    destruct (enter b tid); cbn in H |- *; eauto.
  - by apply (Hlift (Ok (store b tid, None)) (fun _ => q)), sim_store.
Qed.

#[export] Instance priority_mutex_lock : RecursiveLock := {
  lock_state := t;
  lock_action := action;
  lock_exec := exec;
  lock_allowed := allowed;
  lock_init := pinit;
  lock_rel := prel;
  lock_rel_init m H := rel_init (base m) (proj1 H);
  lock_rel_ok m s := rel_spec_ok (base m) s;
  lock_simulates := priority_simulates
}.

(** Mutual exclusion and no failed assertion, as for the plain mutex. *)
Lemma priority_mutex_excludes (m : t) (evs : list LockSpec.lock_event) :
  run (L := priority_mutex_lock) m evs ->
  (forall id1 id2, 0 < LockSpec.holds id1 evs -> 0 < LockSpec.holds id2 evs -> id1 = id2) /\
  (forall tid act s o, prel m s -> allowed m tid act s -> exec m tid act = Some o -> is_Ok o).
Proof. apply (run_safe (L := priority_mutex_lock)). Qed.
End PriorityMutex.
