(* ===== verification/SpinLock.v ===== *)
(** * kernel/Lock/SpinLock: the spin lock *)
From S2P Require Import Prelude LockSpec.

(** ** Spin locks

    A processor spins with its interrupts off; [lock] returns the previous
    interrupt state, which the caller hands to [unlock]. *)
Record cpu : Type := mk_cpu {
  c_pc : pc;
  c_interrupts : bool;
  (** whether a thread runs on it, and that thread's spin lock count *)
  c_thread : bool;
  c_spinlock_count : Z
}.

Definition PROCESSOR_NONE : Z := 2 ^ 32 - 1.

Definition add_spinlock (c : cpu) (p : pc) : cpu :=
  mk_cpu p (c_interrupts c) (c_thread c) (if c_thread c then c_spinlock_count c + 1 else c_spinlock_count c).
Definition remove_spinlock (c : cpu) (interrupts : bool) : cpu :=
  mk_cpu Idle interrupts (c_thread c) (if c_thread c then c_spinlock_count c - 1 else c_spinlock_count c).
Definition set_interrupts (c : cpu) (interrupts : bool) : cpu :=
  mk_cpu (c_pc c) interrupts (c_thread c) (c_spinlock_count c).
Definition set_pc (c : cpu) (p : pc) : cpu := mk_cpu p (c_interrupts c) (c_thread c) (c_spinlock_count c).

Inductive spin_action : Type :=
| SpinLockCall
| SpinRetry
| SpinTryLock
| SpinEnter
| SpinUnlock (state : bool).

Module SpinLock.

(** ** Definitions *)
Record t : Type := mk { m_locker : Z; cpus : Z -> cpu }.

Definition compare_exchange (m : t) (id : Z) : option t :=
  if m_locker m =? PROCESSOR_NONE then
    Some (mk id (update (cpus m) id (add_spinlock (cpus m id) Idle)))
  else None.

Definition current_processor_has_lock (m : t) (id : Z) : bool := m_locker m =? id.
Definition lock_depth (m : t) (id : Z) : Z := if current_processor_has_lock m id then 1 else 0.

(** [lock] with its first exchange; [state] is the interrupt state before. *)
Definition lock (m : t) (id : Z) : outcome (t * option LockSpec.lock_event) :=
  let m := mk (m_locker m) (update (cpus m) id (set_interrupts (cpus m id) false)) in
  ASSERT (negb (m_locker m =? id)) in
  match compare_exchange m id with
  | Some m => Ok (m, Some (LockSpec.Acquire id))
  | None => Ok (mk (m_locker m) (update (cpus m) id (set_pc (cpus m id) Spinning)), None)
  end.

Definition retry (m : t) (id : Z) : outcome (t * option LockSpec.lock_event) :=
  match compare_exchange m id with
  | Some m => Ok (m, Some (LockSpec.Acquire id))
  | None => Ok (m, None)
  end.

Definition try_lock_interrupts_disabled (m : t) (id : Z) : outcome (t * option LockSpec.lock_event) :=
  ASSERT (negb (c_interrupts (cpus m id))) in
  ASSERT (negb (m_locker m =? id)) in
  match compare_exchange m id with
  | Some m => Ok (m, Some (LockSpec.Acquire id))
  | None => Ok (m, None)
  end.

Definition unlock (m : t) (id : Z) (state : bool) : outcome (t * option LockSpec.lock_event) :=
  ASSERT (negb (c_interrupts (cpus m id))) in
  ASSERT (current_processor_has_lock m id) in
  let interrupts := if state then state else c_interrupts (cpus m id) in
  Ok (mk PROCESSOR_NONE (update (cpus m) id (remove_spinlock (cpus m id) interrupts)),
      Some (LockSpec.Release id)).

Definition exec (m : t) (id : Z) (a : spin_action) : option (outcome (t * option LockSpec.lock_event)) :=
  match c_pc (cpus m id), a with
  | Idle, SpinLockCall => Some (lock m id)
  | Spinning, SpinRetry => Some (retry m id)
  | Idle, SpinTryLock => Some (try_lock_interrupts_disabled m id)
  | Idle, SpinUnlock state => Some (unlock m id state)
  | _, _ => None
  end.

(** ** Refinement *)
Definition allowed (m : t) (id : Z) (a : spin_action) (s : LockSpec.spec) : Prop :=
  0 <= id < PROCESSOR_NONE /\
  match a with
  | SpinLockCall => forall n, s <> Some (id, n)
  | SpinTryLock => (forall n, s <> Some (id, n)) /\ c_interrupts (cpus m id) = false
  | SpinUnlock _ => exists n, s = Some (id, n)
  | _ => True
  end.

(** The holder runs with interrupts off and spins on nothing. *)
Definition rel (m : t) (s : LockSpec.spec) : Prop :=
  match s with
  | Some (id, n) => m_locker m = id /\ n = 1 /\ 0 <= id < PROCESSOR_NONE /\
      c_interrupts (cpus m id) = false /\ c_pc (cpus m id) = Idle
  | None => m_locker m = PROCESSOR_NONE
  end /\
  (forall id, c_pc (cpus m id) = Spinning -> c_interrupts (cpus m id) = false).

Definition init (m : t) : Prop := m_locker m = PROCESSOR_NONE /\ forall id, c_pc (cpus m id) = Idle.

Definition simulated (o : outcome (t * option LockSpec.lock_event)) (s : LockSpec.spec) : Prop :=
  exists m' ev s', o = Ok (m', ev) /\ LockSpec.step s ev s' /\ rel m' s'.

Lemma spin_sim_cas m s id :
  rel m s -> 0 <= id < PROCESSOR_NONE -> c_interrupts (cpus m id) = false ->
  match compare_exchange m id with
  | Some m' => simulated (Ok (m', Some (LockSpec.Acquire id))) s
  | None => True
  end.
Proof.
  intros [Hs Hspin] Hid Hint. unfold compare_exchange. case_if; zify_bool; [|done].
  destruct s as [[id' n]|]; [lia|]. eexists _, _, _. split_and!; [done|constructor|]. split; cbn.
  - rewrite update_eq. cbn. done.
  - intros id'. destruct (decide (id' = id)) as [->|]; [by rewrite update_eq|rewrite update_ne by done; apply Hspin].
Qed.

Lemma spin_rel_update m s id c :
  rel m s -> m_locker m <> id -> (c_pc c = Spinning -> c_interrupts c = false) ->
  rel (mk (m_locker m) (update (cpus m) id c)) s.
Proof.
  intros [Hs Hspin] Hne Hc. split; cbn.
  - destruct s as [[id' n]|]; [|done]. destruct Hs as (<- & ? & ? & ? & ?). rewrite update_ne by done. done.
  - intros id'. destruct (decide (id' = id)) as [->|]; [by rewrite update_eq|rewrite update_ne by done; apply Hspin].
Qed.

Lemma spin_sim_skip m s : rel m s -> simulated (Ok (m, None)) s.
Proof. exists m, None, s. split_and!; [done|apply LockSpec.step_none|done]. Qed.

Lemma spin_not_holder m s id : rel m s -> 0 <= id < PROCESSOR_NONE -> (forall n, s <> Some (id, n)) -> m_locker m <> id.
Proof.
  intros [Hs _] Hid Hn Hl. destruct s as [[id' n]|]; [|lia]. destruct Hs as (? & _).
  apply (Hn n). congruence.
Qed.

Lemma spin_simulates m s id act o :
  rel m s -> allowed m id act s -> exec m id act = Some o -> simulated o s.
Proof.
  intros Hrel (Hid & Hal) He. unfold exec in He.
  destruct (c_pc (cpus m id)) eqn:Epc, act; simplify_eq.
  - pose proof (spin_not_holder m s id Hrel Hid Hal) as Hne. unfold lock. cbn [m_locker].
    rewrite (proj2 (Z.eqb_neq _ _)) by done. cbn [negb].
    set (m1 := mk (m_locker m) (update (cpus m) id (set_interrupts (cpus m id) false))).
    assert (Hrel1 : rel m1 s) by (by apply spin_rel_update).
    assert (Hint : c_interrupts (cpus m1 id) = false) by (cbn; by rewrite update_eq).
    pose proof (spin_sim_cas m1 s id Hrel1 Hid Hint) as Hc. destruct (compare_exchange m1 id); [done|].
    by apply spin_sim_skip, (spin_rel_update m1).
  - destruct Hal as [Hal Hint]. pose proof (spin_not_holder m s id Hrel Hid Hal) as Hne.
    unfold try_lock_interrupts_disabled. rewrite Hint, (proj2 (Z.eqb_neq _ _)) by done. cbn [negb].
    pose proof (spin_sim_cas m s id Hrel Hid Hint) as Hc. destruct (compare_exchange m id); [done|by apply spin_sim_skip].
  - destruct Hal as [n ->]. destruct Hrel as [(Hl & -> & _ & Hint & _) Hspin]. unfold unlock, current_processor_has_lock.
    rewrite Hint, Hl, Z.eqb_refl. cbn [negb]. eexists _, _, None. split_and!; [done|constructor|]. split; [done|].
    cbn. intros id'. destruct (decide (id' = id)) as [->|]; [by rewrite update_eq|rewrite update_ne by done; apply Hspin].
  - unfold retry. pose proof (spin_sim_cas m s id Hrel Hid (proj2 Hrel id Epc)) as Hc.
    destruct (compare_exchange m id); [done|by apply spin_sim_skip].
Qed.

Lemma spin_rel_init m : init m -> rel m None.
Proof. intros (Hl & Hpc). split; [done|]. intros id. by rewrite Hpc. Qed.

Lemma spin_rel_spec_ok m s : rel m s -> LockSpec.spec_ok s.
Proof. intros [H _]. destruct s as [[id n]|]; [|done]. destruct H as (_ & -> & _). cbn. lia. Qed.

#[export] Instance spin_lock : RecursiveLock := {
  lock_state := t;
  lock_action := spin_action;
  lock_exec := exec;
  lock_allowed := allowed;
  lock_init := init;
  lock_rel := rel;
  lock_rel_init := spin_rel_init;
  lock_rel_ok := spin_rel_spec_ok;
  lock_simulates := spin_simulates
}.

(** ** Properties *)

(** in every interleaving of processors that use the spin lock as
    intended, at most one processor holds it, the lock word names it, it runs
    with interrupts off, and no assertion of [lock], [try_lock] and [unlock]
    fails. *)
Theorem spin_lock_excludes (m : t) (evs : list LockSpec.lock_event) (Hrun : run (L := spin_lock) m evs) :
  (forall id1 id2, 0 < LockSpec.holds id1 evs -> 0 < LockSpec.holds id2 evs -> id1 = id2) /\
  (forall id, 0 < LockSpec.holds id evs ->
     m_locker m = id /\ lock_depth m id = LockSpec.holds id evs /\ c_interrupts (cpus m id) = false) /\
  (forall id act s o, rel m s -> allowed m id act s -> exec m id act = Some o -> is_Ok o).
Proof.
  destruct (run_safe (L := spin_lock) m evs Hrun) as [H1 H2]. split_and!; [done| |exact H2]. intros id Hid.
  destruct (run_explained (L := spin_lock) m evs Hrun) as (a & [Hrel _] & Hex). rewrite Hex in Hid |- *.
  destruct a as [[id' n]|]; [|lia]. destruct (Z.eqb_spec id id') as [->|]; [|lia].
  destruct Hrel as (Hl & -> & _ & Hi & _). split_and!; [done| |done].
  unfold lock_depth, current_processor_has_lock. by rewrite Hl, Z.eqb_refl.
Qed.

Definition unlocked : t := mk PROCESSOR_NONE (fun _ => mk_cpu Idle true true 0).

Lemma spin_lock_excludes_witness :
  exists m, run (L := spin_lock) m [LockSpec.Acquire 3] /\ m_locker m = 3 /\ c_interrupts (cpus m 3) = false.
Proof.
  assert (R0 : run (L := spin_lock) unlocked []) by (by constructor).
  assert (E0 : LockSpec.explains [] None) by (by intros id).
  assert (A0 : rel unlocked None) by (by apply spin_rel_init).
  pose proof (run_step (L := spin_lock) unlocked [] 3 SpinLockCall _ _ None R0 A0 E0 ltac:(done) eq_refl) as R1.
  cbn in R1.
  match type of R1 with run ?m _ => pose (m1 := m); change m with m1 in R1 end.
  destruct (spin_lock_excludes m1 _ R1) as (_ & H & _). exists m1.
  destruct (H 3 ltac:(done)) as (H1 & _ & H2). done.
Defined.
End SpinLock.
