(* ===== verification/RecursiveSpinLock.v ===== *)
(** * kernel/Lock/SpinLock: the recursive spin lock *)
From S2P Require Import Prelude LockSpec SpinLock.

Module RecursiveSpinLock.

(** ** Definitions *)
Record t : Type := mk { m_locker : Z; m_lock_depth : Z; cpus : Z -> cpu }.

Definition compare_exchange (m : t) (id : Z) : option t :=
  if m_locker m =? PROCESSOR_NONE then
    Some (mk id (m_lock_depth m) (update (cpus m) id (set_pc (cpus m id) Acquired)))
  else None.

Definition current_processor_has_lock (m : t) (id : Z) : bool := m_locker m =? id.
Definition lock_depth (m : t) : Z := m_lock_depth m.

Definition reenter (m : t) (id : Z) : outcome (t * option LockSpec.lock_event) :=
  ASSERT (0 <? m_lock_depth m) in
  Ok (mk (m_locker m) (u32 (m_lock_depth m + 1)) (cpus m), Some (LockSpec.Acquire id)).

Definition lock (m : t) (id : Z) : outcome (t * option LockSpec.lock_event) :=
  let m := mk (m_locker m) (m_lock_depth m) (update (cpus m) id (set_interrupts (cpus m id) false)) in
  if m_locker m =? id then reenter m id
  else
    match compare_exchange m id with
    | Some m => Ok (m, None)
    | None => Ok (mk (m_locker m) (m_lock_depth m) (update (cpus m) id (set_pc (cpus m id) Spinning)), None)
    end.

Definition retry (m : t) (id : Z) : outcome (t * option LockSpec.lock_event) :=
  match compare_exchange m id with Some m => Ok (m, None) | None => Ok (m, None) end.

Definition try_lock_interrupts_disabled (m : t) (id : Z) : outcome (t * option LockSpec.lock_event) :=
  ASSERT (negb (c_interrupts (cpus m id))) in
  if m_locker m =? id then reenter m id
  else match compare_exchange m id with Some m => Ok (m, None) | None => Ok (m, None) end.

(** After the exchange: [ASSERT(m_lock_depth == 0)], [m_lock_depth = 1]. *)
Definition enter (m : t) (id : Z) : outcome (t * option LockSpec.lock_event) :=
  ASSERT (m_lock_depth m =? 0) in
  Ok (mk (m_locker m) 1 (update (cpus m) id (add_spinlock (cpus m id) Idle)), Some (LockSpec.Acquire id)).

(** The depth is only read by the holder, so [unlock] is one step. *)
Definition unlock (m : t) (id : Z) (state : bool) : outcome (t * option LockSpec.lock_event) :=
  ASSERT (negb (c_interrupts (cpus m id))) in
  ASSERT (current_processor_has_lock m id) in
  ASSERT (0 <? m_lock_depth m) in
  let depth := u32 (m_lock_depth m - 1) in
  if 0 <? depth then Ok (mk (m_locker m) depth (cpus m), Some (LockSpec.Release id))
  else
    let interrupts := if state then state else c_interrupts (cpus m id) in
    Ok (mk PROCESSOR_NONE depth (update (cpus m) id (remove_spinlock (cpus m id) interrupts)),
        Some (LockSpec.Release id)).

Definition exec (m : t) (id : Z) (a : spin_action) : option (outcome (t * option LockSpec.lock_event)) :=
  match c_pc (cpus m id), a with
  | Idle, SpinLockCall => Some (lock m id)
  | Spinning, SpinRetry => Some (retry m id)
  | Idle, SpinTryLock => Some (try_lock_interrupts_disabled m id)
  | Acquired, SpinEnter => Some (enter m id)
  | Idle, SpinUnlock state => Some (unlock m id state)
  | _, _ => None
  end.

(** ** Refinement *)
Definition allowed (m : t) (id : Z) (a : spin_action) (s : LockSpec.spec) : Prop :=
  0 <= id < PROCESSOR_NONE /\ m_lock_depth m < 2 ^ 32 - 1 /\
  match a with
  | SpinTryLock => c_interrupts (cpus m id) = false
  | SpinUnlock _ => exists n, s = Some (id, n)
  | _ => True
  end.

(** The owner of the lock word runs with interrupts off. *)
Definition rel (m : t) (s : LockSpec.spec) : Prop :=
  match s with
  | Some (id, n) => m_locker m = id /\ 0 < n /\ m_lock_depth m = n /\ 0 <= id < PROCESSOR_NONE /\
      c_interrupts (cpus m id) = false /\ c_pc (cpus m id) = Idle
  | None => m_lock_depth m = 0 /\
      (m_locker m = PROCESSOR_NONE \/ 0 <= m_locker m < PROCESSOR_NONE /\ c_pc (cpus m (m_locker m)) = Acquired)
  end /\
  (forall id, c_pc (cpus m id) <> Idle -> c_interrupts (cpus m id) = false) /\
  (forall id, 0 <= id < PROCESSOR_NONE -> id <> m_locker m -> c_pc (cpus m id) = Idle \/ c_pc (cpus m id) = Spinning).

Definition init (m : t) : Prop :=
  m_locker m = PROCESSOR_NONE /\ m_lock_depth m = 0 /\ forall id, c_pc (cpus m id) = Idle.

Definition simulated (o : outcome (t * option LockSpec.lock_event)) (s : LockSpec.spec) : Prop :=
  exists m' ev s', o = Ok (m', ev) /\ LockSpec.step s ev s' /\ rel m' s'.

Lemma rspin_sim_skip m s : rel m s -> simulated (Ok (m, None)) s.
Proof. exists m, None, s. split_and!; [done|apply LockSpec.step_none|done]. Qed.

(** A processor that does not own the lock word changes its own state. *)
Lemma rspin_rel_update m s id c :
  rel m s -> m_locker m <> id -> (c_pc c = Idle \/ c_pc c = Spinning /\ c_interrupts c = false) ->
  rel (mk (m_locker m) (m_lock_depth m) (update (cpus m) id c)) s.
Proof.
  intros (Hs & Hint & Hpas) Hne Hc. split; [|split]; cbn.
  - destruct s as [[id' n]|].
    + destruct Hs as (<- & ? & ? & ? & ? & ?). rewrite update_ne by done. done.
    + destruct Hs as (? & [?|[? ?]]); [by split; [|left]|]. rewrite update_ne by done. split; [done|by right].
  - intros id'. destruct (decide (id' = id)) as [->|]; [rewrite update_eq|rewrite update_ne by done; apply Hint].
    by destruct Hc as [?|[_ ?]].
  - intros id' H1 H2. destruct (decide (id' = id)) as [->|]; [rewrite update_eq|rewrite update_ne by done; by apply Hpas].
    destruct Hc as [?|[? _]]; [by left|by right].
Qed.

Lemma rspin_sim_cas m s id :
  rel m s -> 0 <= id < PROCESSOR_NONE -> c_interrupts (cpus m id) = false ->
  match compare_exchange m id with Some m' => simulated (Ok (m', None)) s | None => True end.
Proof.
  intros (Hs & Hint & Hpas) Hid Hi. unfold compare_exchange. case_if; zify_bool; [|done].
  destruct s as [[id' n]|]; [lia|]. destruct Hs as [Hd _]. apply rspin_sim_skip. split; [|split]; cbn.
  - rewrite update_eq. cbn. split; [done|]. by right.
  - intros id'. destruct (decide (id' = id)) as [->|]; [by rewrite update_eq|rewrite update_ne by done; apply Hint].
  - intros id' H1 H2. rewrite update_ne by done. apply Hpas; [done|lia].
Qed.

Lemma rspin_sim_reenter m s id :
  rel m s -> 0 <= id < PROCESSOR_NONE -> m_locker m = id -> c_pc (cpus m id) = Idle -> m_lock_depth m < 2 ^ 32 - 1 ->
  simulated (reenter m id) s.
Proof.
  intros (Hs & Hint & Hpas) Hid Hl Hpc Hdep. destruct s as [[id' n]|].
  - destruct Hs as (He & Hn & Hd & Hid' & Hi & _). unfold reenter.
    rewrite (proj2 (Z.ltb_lt _ _)), wrap_id by lia. assert (id' = id) as -> by congruence.
    eexists _, _, _. split_and!; [done|constructor|]. split; [|split]; cbn; try done. split_and!; done || lia.
  - destruct Hs as [_ [?|[_ ?]]]; [lia|congruence].
Qed.

Lemma rspin_simulates m s id act o :
  rel m s -> allowed m id act s -> exec m id act = Some o -> simulated o s.
Proof.
  intros Hrel (Hid & Hdep & Hal) He. unfold exec in He.
  destruct (c_pc (cpus m id)) eqn:Epc, act; simplify_eq.
  - unfold lock. cbn [m_locker]. set (m1 := mk _ _ _).
    assert (Hint : c_interrupts (cpus m1 id) = false) by (cbn; by rewrite update_eq).
    assert (Hpc1 : c_pc (cpus m1 id) = Idle) by (cbn; by rewrite update_eq).
    case_if; zify_bool.
    + apply rspin_sim_reenter; try done. destruct Hrel as (Hs & Hi & Hpas). split; [|split]; cbn.
      * destruct s as [[id' n]|].
        -- destruct Hs as (? & ? & ? & ? & ? & ?). assert (id' = id) as -> by congruence.
           rewrite update_eq. cbn. split_and!; done || lia.
        -- destruct Hs as [? [?|[? ?]]]; [lia|congruence].
      * intros id'. destruct (decide (id' = id)) as [->|]; [by rewrite update_eq|rewrite update_ne by done; apply Hi].
      * intros id' ? ?. rewrite update_ne by congruence. by apply Hpas.
    + assert (Hrel1 : rel m1 s) by (apply rspin_rel_update; [done|done|by left]).
      pose proof (rspin_sim_cas m1 s id Hrel1 Hid Hint) as Hc. destruct (compare_exchange m1 id); [done|].
      apply rspin_sim_skip, (rspin_rel_update m1); [done|done|]. right. done.
  - unfold try_lock_interrupts_disabled. rewrite Hal. cbn [negb]. case_if; zify_bool; [by apply rspin_sim_reenter|].
    pose proof (rspin_sim_cas m s id Hrel Hid Hal) as Hc. destruct (compare_exchange m id); [done|by apply rspin_sim_skip].
  - destruct Hal as [n ->]. destruct Hrel as ((Hl & Hn & Hd & _ & Hi & _) & Hint & Hpas).
    unfold unlock, current_processor_has_lock. rewrite Hi, Hl, Z.eqb_refl, (proj2 (Z.ltb_lt _ _)), wrap_id by lia.
    cbn [negb]. case_if; zify_bool.
    + eexists _, _, (Some (id, n - 1)). split_and!; [done|constructor; lia|]. split; [|split]; cbn; try done.
      * split_and!; done || lia.
      * by rewrite <- Hl.
    + assert (n = 1) as -> by lia. eexists _, _, None. split_and!; [done|constructor|]. split; [|split]; cbn.
      * split; [lia|by left].
      * intros id'. destruct (decide (id' = id)) as [->|]; [by rewrite update_eq|rewrite update_ne by done; apply Hint].
      * intros id' H1 _. destruct (decide (id' = id)) as [->|]; [rewrite update_eq; by left|].
        rewrite update_ne by done. apply Hpas; congruence.
  - unfold retry. destruct Hrel as (Hs & Hint & Hpas).
    pose proof (rspin_sim_cas m s id (conj Hs (conj Hint Hpas)) Hid (Hint id ltac:(congruence))) as Hc.
    destruct (compare_exchange m id); [done|by apply rspin_sim_skip].
  - destruct Hrel as (Hs & Hint & Hpas).
    assert (Hl : m_locker m = id).
    { destruct (decide (id = m_locker m)) as [|Hne]; [done|]. destruct (Hpas id Hid Hne); congruence. }
    destruct s as [[id' n]|]; [destruct Hs as (He & _ & _ & _ & _ & Hx); congruence|]. destruct Hs as [Hd _].
    unfold enter. rewrite Hd. cbn [Z.eqb]. eexists _, _, (Some (id, 1)). split_and!; [done|constructor|].
    assert (Hi : c_interrupts (cpus m id) = false) by (apply Hint; congruence). split; [|split]; cbn.
    + rewrite update_eq. cbn. split_and!; done || lia.
    + intros id'. destruct (decide (id' = id)) as [->|]; [by rewrite update_eq|rewrite update_ne by done; apply Hint].
    + intros id' H1 H2. rewrite update_ne by congruence. apply Hpas; congruence.
Qed.

Lemma rspin_rel_init m : init m -> rel m None.
Proof.
  intros (Hl & Hd & Hpc). split; [split; [done|by left]|split]; intros id; rewrite Hpc; [done|by left].
Qed.

Lemma rspin_rel_spec_ok m s : rel m s -> LockSpec.spec_ok s.
Proof. intros [H _]. destruct s as [[id n]|]; [|done]. by destruct H as (_ & ? & _). Qed.

#[export] Instance recursive_spin_lock : RecursiveLock := {
  lock_state := t;
  lock_action := spin_action;
  lock_exec := exec;
  lock_allowed := allowed;
  lock_init := init;
  lock_rel := rel;
  lock_rel_init := rspin_rel_init;
  lock_rel_ok := rspin_rel_spec_ok;
  lock_simulates := rspin_simulates
}.

(** Mutual exclusion, no failed assertion, and the owner runs with interrupts
    off, in every interleaving. *)
Lemma recursive_spin_lock_excludes (m : t) (evs : list LockSpec.lock_event) :
  run (L := recursive_spin_lock) m evs ->
  (forall id1 id2, 0 < LockSpec.holds id1 evs -> 0 < LockSpec.holds id2 evs -> id1 = id2) /\
  (forall id, 0 < LockSpec.holds id evs ->
     m_locker m = id /\ m_lock_depth m = LockSpec.holds id evs /\ c_interrupts (cpus m id) = false).
Proof.
  intros Hrun. destruct (run_safe (L := recursive_spin_lock) m evs Hrun) as [H1 _]. split; [done|]. intros id Hid.
  destruct (run_explained (L := recursive_spin_lock) m evs Hrun) as (a & [Hrel _] & Hex). rewrite Hex in Hid |- *.
  destruct a as [[id' n]|]; [|lia]. destruct (Z.eqb_spec id id') as [->|]; [|lia].
  destruct Hrel as (? & _ & ? & _ & ? & _). done.
Qed.
End RecursiveSpinLock.
