(* ===== verification/RWLock.v ===== *)
(** * kernel/Lock/RWLock: the reader-writer lock

    The lock's fields are guarded by a spin lock, except that [wr_lock] first
    reads [m_writer] and [wr_unlock] first decrements [m_writer_depth] without
    it; each guarded section and each of these accesses is a step.  A thread
    that has to wait sleeps on [m_thread_blocker] and evaluates the condition
    again when it is woken. *)
From S2P Require Import Prelude LockSpec.

Module RWLock.

(** ** Definitions *)
Record t : Type := mk {
  m_readers_active : Z;
  m_writers_waiting : Z;
  m_writer : Z;
  m_writer_depth : Z
}.

(** The condition of the loop in [rd_lock], and the loop's exit. *)
Definition rd_must_wait (l : t) : bool := (0 <? m_writers_waiting l) || negb (m_writer l =? -1).

Definition rd_lock (l : t) : option t :=
  if rd_must_wait l then None
  else Some (mk (u32 (m_readers_active l + 1)) (m_writers_waiting l) (m_writer l) (m_writer_depth l)).

(** The new lock, and whether the sleeping threads are woken. *)
Definition rd_unlock (l : t) : t * bool :=
  let readers := u32 (m_readers_active l - 1) in
  (mk readers (m_writers_waiting l) (m_writer l) (m_writer_depth l), readers =? 0).

(** [wr_lock]: the fast path of the holder, or the registration as waiting. *)
Definition wr_lock_begin (l : t) (tid : Z) : t * bool :=
  if m_writer l =? tid then
    (mk (m_readers_active l) (m_writers_waiting l) (m_writer l) (u32 (m_writer_depth l + 1)), true)
  else (mk (m_readers_active l) (u32 (m_writers_waiting l + 1)) (m_writer l) (m_writer_depth l), false).

Definition wr_must_wait (l : t) : bool := (0 <? m_readers_active l) || negb (m_writer l =? -1).

(** The end of the loop of [wr_lock]. *)
Definition wr_lock (l : t) (tid : Z) : option t :=
  if wr_must_wait l then None
  else Some (mk (m_readers_active l) (u32 (m_writers_waiting l - 1)) tid 1).

(** [wr_unlock] before the guarded section: whether the section follows. *)
Definition wr_unlock_begin (l : t) : t * bool :=
  let depth := u32 (m_writer_depth l - 1) in
  (mk (m_readers_active l) (m_writers_waiting l) (m_writer l) depth, depth =? 0).

(** The guarded section, which wakes the sleeping threads. *)
Definition wr_unlock (l : t) : t := mk (m_readers_active l) (m_writers_waiting l) (-1) (m_writer_depth l).

(** ** The threads that use the lock

    [readers] are the threads between [rd_lock] and [rd_unlock]; [writers] those
    between [wr_lock] and [wr_unlock], a thread as often as it has entered; [waiting]
    those inside the loop of [wr_lock]; [leaving] those between the two parts of
    [wr_unlock].  The steps keep these lists by what each thread has done, not by the
    fields of the lock. *)
Record state : Type := mk_state {
  rw : t;
  readers : list Z;
  writers : list Z;
  waiting : list Z;
  leaving : list Z
}.

(** A step, and whether it wakes the sleeping threads. *)
Inductive step : state -> bool -> state -> Prop :=
| step_rd_lock l l' rs hs ws lv tid :
    rd_lock l = Some l' -> step (mk_state l rs hs ws lv) false (mk_state l' (tid :: rs) hs ws lv)
| step_rd_unlock l l' wake rs rs' hs ws lv tid :
    rs ≡ₚ tid :: rs' -> rd_unlock l = (l', wake) -> step (mk_state l rs hs ws lv) wake (mk_state l' rs' hs ws lv)
| step_wr_reenter l l' rs hs ws lv tid :
    0 <= tid -> tid ∉ lv -> wr_lock_begin l tid = (l', true) -> step (mk_state l rs hs ws lv) false (mk_state l' rs (tid :: hs) ws lv)
| step_wr_wait l l' rs hs ws lv tid :
    0 <= tid -> wr_lock_begin l tid = (l', false) -> step (mk_state l rs hs ws lv) false (mk_state l' rs hs (tid :: ws) lv)
| step_wr_lock l l' rs hs ws ws' lv tid :
    0 <= tid -> ws ≡ₚ tid :: ws' -> wr_lock l tid = Some l' -> step (mk_state l rs hs ws lv) false (mk_state l' rs (tid :: hs) ws' lv)
| step_wr_unlock_begin l l' last rs hs hs' ws lv tid :
    hs ≡ₚ tid :: hs' -> wr_unlock_begin l = (l', last) -> step (mk_state l rs hs ws lv) false (mk_state l' rs hs' ws (if last then tid :: lv else lv))
| step_wr_unlock l rs hs ws lv lv' tid :
    lv ≡ₚ tid :: lv' -> step (mk_state l rs hs ws lv) true (mk_state (wr_unlock l) rs hs ws lv').

(** ** Invariant *)

(** The writer is inside, perhaps several times, or on its way out. *)
Definition occupied (s : state) : Prop :=
  readers s = [] /\ 0 <= m_writer (rw s) /\ ((writers s <> [] /\ leaving s = []) \/ (writers s = [] /\ leaving s = [m_writer (rw s)])).

Record inv (s : state) : Prop := {
  inv_readers : m_readers_active (rw s) = Z.of_nat (length (readers s));
  inv_waiting : m_writers_waiting (rw s) = Z.of_nat (length (waiting s));
  inv_depth : m_writer_depth (rw s) = Z.of_nat (length (writers s));
  inv_mine : Forall (fun tid => tid = m_writer (rw s)) (writers s);
  inv_free : m_writer (rw s) = -1 -> writers s = [] /\ leaving s = [];
  inv_writer : m_writer (rw s) <> -1 -> occupied s
}.

(** Fewer than 2^32 threads and nesting levels. *)
Definition small (s : state) : Prop :=
  Z.of_nat (length (readers s)) + 1 < 2 ^ 32 /\ Z.of_nat (length (waiting s)) + 1 < 2 ^ 32 /\ Z.of_nat (length (writers s)) + 1 < 2 ^ 32.

Ltac fields := cbn [rw readers writers waiting leaving m_readers_active m_writers_waiting m_writer m_writer_depth length wr_unlock] in *.
Ltac fill := constructor; unfold occupied in *; fields; rewrite ?wrap_id by lia; try done; try lia.

Lemma step_inv s wake s' : small s -> inv s -> step s wake s' -> inv s'.
Proof.
  intros (Hs1 & Hs2 & Hs3) [Hr Hw Hd Hm Hf Ho] Hstep. unfold occupied in Ho.
  destruct Hstep as [l l' rs hs ws lv tid Hx|l l' wake rs rs' hs ws lv tid HP Hx|l l' rs hs ws lv tid Ht Hl Hx|l l' rs hs ws lv tid Ht Hx
    |l l' rs hs ws ws' lv tid Ht HP Hx|l l' last rs hs hs' ws lv tid HP Hx|l rs hs ws lv lv' tid HP]; fields.
  - unfold rd_lock, rd_must_wait in Hx. case_if_in Hx; simplify_eq. zify_bool. destruct E as [_ E]. fill.
  - unfold rd_unlock in Hx. simplify_eq. rewrite HP in Hr, Hs1. cbn [length] in Hr, Hs1. fill.
    intros Hne. destruct (Ho Hne) as [-> _]. by apply Permutation_nil_cons in HP.
  - unfold wr_lock_begin in Hx. case_if_in Hx; simplify_eq. zify_bool. destruct Ho as (H1 & H2 & Hc); [lia|]. fields.
    assert (lv = []) as -> by (destruct Hc as [[_ ?]|[_ ->]]; [done|destruct Hl; apply list_elem_of_singleton; congruence]).
    fill; [by constructor|]. intros _. split_and!; [done|done|by left].
  - unfold wr_lock_begin in Hx. case_if_in Hx; simplify_eq. fill.
  - unfold wr_lock, wr_must_wait in Hx. case_if_in Hx; simplify_eq. zify_bool. destruct E as [E1 E2].
    destruct (Hf E2) as [-> ->]. rewrite HP in Hw, Hs2. cbn [length] in Hw, Hs2. fill; [by constructor|].
    intros _. split_and!; [|done|by left]. apply length_zero_iff_nil. lia.
  - unfold wr_unlock_begin in Hx. simplify_eq. rewrite HP in Hd, Hs3, Hm. cbn [length] in Hd, Hs3. apply Forall_cons_1 in Hm as [-> Hm]. rewrite wrap_id by lia.
    assert (Hne : m_writer l <> -1) by (intros He; destruct (Hf He) as [-> _]; by apply Permutation_nil_cons in HP).
    destruct (Ho Hne) as (H1 & H2 & [[_ ->]|[-> _]]); fields; [|by apply Permutation_nil_cons in HP]. fill; intros _. split_and!; [done|done|].
    destruct hs' as [|t0 hs']; [right; split; [done|]; by rewrite (proj2 (Z.eqb_eq _ _)) by (cbn in Hd; lia)|left]. split; [done|]. by rewrite (proj2 (Z.eqb_neq _ _)) by (cbn in Hd; lia).
  - assert (Hne : m_writer l <> -1) by (intros He; destruct (Hf He) as [_ ->]; by apply Permutation_nil_cons in HP).
    destruct (Ho Hne) as (H1 & H2 & [[_ ->]|[-> ->]]); fields; [by apply Permutation_nil_cons in HP|]. apply Permutation_length in HP. destruct lv'; [|cbn in HP; lia]. fill.
Qed.

(** ** Properties *)
Definition idle : state := mk_state (mk 0 0 (-1) 0) [] [] [] [].

Definition sstep (s s' : state) : Prop := small s /\ exists wake, step s wake s'.

Lemma reachable_inv s : rtc sstep idle s -> inv s.
Proof.
  intros Hreach. apply (rtc_invariant sstep inv idle); [|by constructor; cbn|done]. intros a b Ha [Hs [wake Hstep]]. by apply (step_inv a wake b).
Qed.

(** C32: In every interleaving of threads that unlock only what they have locked, a
    thread inside a write lock excludes every reader and every other writer, the
    fields of the lock name it and count how often it has entered, and the counters
    are the numbers of readers and of waiting writers.  There are less than 2^32
    threads and levels of nesting. *)
Theorem rwlock_excludes (s : state) (Hreach : rtc sstep idle s) :
  (writers s <> [] -> readers s = []) /\
  (forall t1 t2, t1 ∈ writers s -> t2 ∈ writers s -> t1 = t2) /\
  (forall tid, tid ∈ writers s -> m_writer (rw s) = tid) /\
  m_writer_depth (rw s) = Z.of_nat (length (writers s)) /\
  m_readers_active (rw s) = Z.of_nat (length (readers s)) /\
  m_writers_waiting (rw s) = Z.of_nat (length (waiting s)).
Proof.
  destruct (reachable_inv s Hreach) as [Hr Hw Hd Hm Hf Ho]. rewrite list.Forall_forall in Hm. split_and!; try done.
  - intros Hne. apply Ho. intros He. by destruct (Hf He).
  - intros t1 t2 ->%Hm ->%Hm. done.
  - intros tid ->%Hm. done.
Qed.

Lemma rwlock_excludes_witness : exists s, rtc sstep idle s /\ 5 ∈ writers s /\ readers s = [].
Proof.
  assert (Hs : rtc sstep idle (mk_state (mk 0 0 5 2) [] [5; 5] [] [])).
  { eapply rtc_l; [split; [done|]; eexists; eapply (step_wr_wait _ _ _ _ _ _ 5); [done|reflexivity]|].
    eapply rtc_l; [split; [done|]; eexists; eapply (step_wr_lock _ _ _ _ _ [] _ 5); [done|done|reflexivity]|].
    eapply rtc_l; [split; [done|]; eexists; eapply (step_wr_reenter _ _ _ _ _ _ 5); [done|apply not_elem_of_nil|reflexivity]|].
    apply rtc_refl. }
  destruct (rwlock_excludes _ Hs) as (H & _). eexists. split; [exact Hs|]. split; [by left|]. by apply H.
Defined.

(** no thread sleeps past its chance: whenever a step ends the waiting
    condition of the readers or of the writers, it wakes the sleeping threads. *)
Theorem rwlock_wakes_waiters (s s' : state) (wake : bool)
  (Hreach : rtc sstep idle s) (Hsmall : small s) (Hstep : step s wake s') :
  (rd_must_wait (rw s) = true -> rd_must_wait (rw s') = false -> wake = true) /\
  (wr_must_wait (rw s) = true -> wr_must_wait (rw s') = false -> wake = true).
Proof.
  destruct (reachable_inv s Hreach) as [Hr Hw Hd Hm Hf Ho]. destruct Hsmall as (Hs1 & Hs2 & Hs3). unfold rd_must_wait, wr_must_wait.
  destruct Hstep as [l l' rs hs ws lv tid Hx|l l' wake rs rs' hs ws lv tid HP Hx|l l' rs hs ws lv tid Ht Hl Hx|l l' rs hs ws lv tid Ht Hx
    |l l' rs hs ws ws' lv tid Ht HP Hx|l l' last rs hs hs' ws lv tid HP Hx|l rs hs ws lv lv' tid HP]; fields; [..|done].
  - unfold rd_lock, rd_must_wait in Hx. case_if_in Hx; simplify_eq. zify_bool. destruct E as [E1 E2].
    fields. rewrite wrap_id by lia. split; intros H1 H2; zify_bool; lia.
  - unfold rd_unlock in Hx. simplify_eq. fields.
    split; intros H1 H2; [congruence|]. rewrite HP in Hr, Hs1. cbn [length] in Hr, Hs1.
    rewrite wrap_id in * by lia. apply Z.eqb_eq. zify_bool. lia.
  - unfold wr_lock_begin in Hx. case_if_in Hx; simplify_eq. fields. split; congruence.
  - unfold wr_lock_begin in Hx. case_if_in Hx; simplify_eq. fields. rewrite wrap_id by lia. split; intros H1 H2; zify_bool; lia.
  - unfold wr_lock, wr_must_wait in Hx. case_if_in Hx; simplify_eq. fields.
    rewrite (proj2 (Z.eqb_neq tid (-1))) by lia. cbn. rewrite !orb_true_r. split; congruence.
  - unfold wr_unlock_begin in Hx. simplify_eq. fields. split; congruence.
Qed.

Lemma rwlock_wakes_waiters_witness :
  wr_must_wait (rw (mk_state (mk 1 0 (-1) 0) [4] [] [] [])) = true /\
  exists s', step (mk_state (mk 1 0 (-1) 0) [4] [] [] []) true s' /\ wr_must_wait (rw s') = false.
Proof.
  split; [done|].
  assert (Hs : rtc sstep idle (mk_state (mk 1 0 (-1) 0) [4] [] [] [])).
  { eapply rtc_l; [split; [done|]; eexists; eapply (step_rd_lock _ _ _ _ _ _ 4); reflexivity|]. apply rtc_refl. }
  assert (Hst : step (mk_state (mk 1 0 (-1) 0) [4] [] [] []) true (mk_state (mk 0 0 (-1) 0) [] [] [] []))
    by (by apply (step_rd_unlock _ _ _ _ [] _ _ _ 4)).
  destruct (rwlock_wakes_waiters _ _ true Hs ltac:(done) Hst) as [_ _].
  eexists. split; [exact Hst|done].
Defined.
End RWLock.
