(* ===== verification/Futex.v ===== *)
(** * kernel/Process: futexes

    A thread sleeps in the kernel until a word of its memory changes.  A call of
    [sys_futex] is modelled at the grain at which calls interleave: under the mutex
    of the futex it compares the word and puts the thread into the block chain, so
    that between the two no other call wakes threads, but the word may change. *)
From S2P Require Import Prelude.

(** ** Definitions *)

(** The futex of a word: who holds its mutex, and the threads that sleep, the one
    that came last first. *)
Record futex_t : Type := mk_futex { fx_mutex : option Z; fx_chain : list Z }.

(** A thread inside [sys_futex]. *)
Inductive futex_call : Type :=
| Wait (val : Z) (timed : bool)
| Block (timed : bool)
| Asleep (timed : bool)
| Awake (timed : bool)
| Wake (count : nat).

(** What happens to a thread: it continues, a signal arrives, its deadline passes,
    or the futex cannot be found or allocated. *)
Inductive kernel_event : Type := Continue | Signal | Deadline | Failure (e : errno).

(** A thread is still in the kernel, or the call returns. *)
Inductive progress : Type := Still (c : futex_call) | Return (r : option errno).

(** One step of the call [c] of the thread [id] whose word has the value [word]; the
    last part of the result are the threads that are woken.  [None] if the thread
    cannot take the step. *)
Definition sys_futex (id : Z) (ev : kernel_event) (word : Z) (f : futex_t) (c : futex_call) : option (futex_t * progress * list Z) :=
  match c, ev with
  | Wait _ _, Failure e => Some (f, Return (Some e), [])
  | Wait val timed, Continue =>
      match fx_mutex f with
      | Some _ => None
      | None =>
          if negb (word =? val) then Some (f, Return (Some EAGAIN), [])
          else Some (mk_futex (Some id) (fx_chain f), Still (Block timed), [])
      end
  | Block true, Deadline => Some (mk_futex None (fx_chain f), Return (Some ETIMEDOUT), [])
  | Block _, Signal => Some (mk_futex None (fx_chain f), Return (Some EINTR), [])
  | Block timed, Continue => Some (mk_futex None (id :: fx_chain f), Still (Asleep timed), [])
  | Asleep timed, Signal => Some (mk_futex (fx_mutex f) (filter (fun x => x <> id) (fx_chain f)), Still (Awake timed), [])
  | Asleep true, Deadline => Some (mk_futex (fx_mutex f) (filter (fun x => x <> id) (fx_chain f)), Still (Awake true), [])
  | Awake timed, _ =>
      match fx_mutex f, ev with
      | None, Signal => Some (f, Return (Some EINTR), [])
      | None, Deadline => if timed then Some (f, Return (Some ETIMEDOUT), []) else None
      | None, Continue => Some (f, Return None, [])
      | _, _ => None
      end
  | Wake _, Failure e => Some (f, Return (Some e), [])
  | Wake count, Continue =>
      match fx_mutex f with
      | Some _ => None
      | None => Some (mk_futex None (drop count (fx_chain f)), Return None, take count (fx_chain f))
      end
  | _, _ => None
  end.

(** The call [op] of the library, which starts again when a signal interrupts it. *)
Definition futex (id : Z) (ev : kernel_event) (word : Z) (f : futex_t) (op c : futex_call) : option (futex_t * progress * list Z) :=
  match sys_futex id ev word f c with
  | Some (f, Return (Some EINTR), woken) => Some (f, Still op, woken)
  | r => r
  end.

(** Unless the futex cannot be found, the only errors are that the word has another
    value and that the deadline has passed. *)
Lemma futex_errors id ev word f op c f' r woken : (forall e, ev <> Failure e) -> futex id ev word f op c = Some (f', Return r, woken) -> r = None \/ r = Some EAGAIN \/ r = Some ETIMEDOUT.
Proof.
  intros Hev. unfold futex, sys_futex. destruct c as [val []|[]|[]|[]|n], ev as [| | |e]; try done; try by destruct (Hev e).
  all: repeat case_match; naive_solver.
Qed.

(** There are less than 2^32 threads. *)
Lemma short_ids (l : list Z) : NoDup l -> Forall (fun id => 0 < id < 2 ^ 32) l -> Z.of_nat (length l) < 2 ^ 32.
Proof.
  intros Hnd Hl. assert (Hs : (length l <= length (seqZ 1 (2 ^ 32 - 1)))%nat).
  { apply submseteq_length, NoDup_submseteq; [done|]. intros x Hx. apply elem_of_seqZ. eapply list.Forall_forall in Hl; [|exact Hx]. lia. }
  rewrite length_seqZ in Hs. lia.
Qed.
