(* ===== verification/PthreadMutex.v ===== *)
(** * LibC/pthread: mutexes on futexes

    The mutexes of user programs at the grain of their atomic accesses, on top of
    the kernel's futexes.  A thread is at a program point between two accesses, and
    [exec] performs the code up to the next one; inside the kernel a thread takes
    the steps of [sys_futex].  The mutex implements the abstract lock of LockSpec,
    and a thread that sleeps is woken when the mutex becomes free. *)
From S2P Require Import Prelude LockSpec Futex.

Module PthreadMutex.

(** ** Definitions *)
Definition PTHREAD_MUTEX_DEFAULT : Z := 0.
Definition PTHREAD_MUTEX_ERRORCHECK : Z := 1.
Definition PTHREAD_MUTEX_NORMAL : Z := 2.
Definition PTHREAD_MUTEX_RECURSIVE : Z := 3.

(** The program point of a thread.  Outside the library it remembers what its last
    call returned; [timed] tells whether the call has a deadline. *)
Inductive pc : Type :=
| Idle (ret : option errno)
| TryCas (lock : option bool)
| LockCas (timed : bool)
| AddWaiter (timed : bool) (expected : Z)
| Waiting (timed : bool) (expected : Z) (c : futex_call)
| SubWaiter (timed : bool) (err : option errno)
| Entered
| StoreFree
| LoadWaiters
| Waking.

Record t : Type := mk { type : Z; futex : Z; waiters : Z; lock_depth : Z; kernel : futex_t; pcs : Z -> pc }.

Inductive action : Type :=
| Trylock
| Timedlock (timed : bool)
| Unlock
| Step (ev : kernel_event).

Definition goto (m : t) (id : Z) (p : pc) : t := mk (type m) (futex m) (waiters m) (lock_depth m) (kernel m) (update (pcs m) id p).
Definition set_futex (m : t) (v : Z) : t := mk (type m) v (waiters m) (lock_depth m) (kernel m) (pcs m).
Definition set_waiters (m : t) (v : Z) : t := mk (type m) (futex m) v (lock_depth m) (kernel m) (pcs m).
Definition set_depth (m : t) (v : Z) : t := mk (type m) (futex m) (waiters m) v (kernel m) (pcs m).
Definition set_kernel (m : t) (k : futex_t) : t := mk (type m) (futex m) (waiters m) (lock_depth m) k (pcs m).

Definition pthread_mutex_init (type : Z) : t := mk type 0 0 0 (mk_futex None []) (fun _ => Idle None).

(** [pthread_mutex_trylock], by itself ([lock] is [None]) or from
    [pthread_mutex_timedlock], up to its exchange. *)
Definition begin_trylock (m : t) (id : Z) (lock : option bool) : t * option LockSpec.lock_event :=
  if (type m =? PTHREAD_MUTEX_RECURSIVE) && (futex m =? id) then
    (goto (set_depth m (u32 (lock_depth m + 1))) id (Idle None), Some (LockSpec.Acquire id))
  else if (type m =? PTHREAD_MUTEX_ERRORCHECK) && (futex m =? id) then (goto m id (Idle (Some EDEADLK)), None)
  else (goto m id (TryCas lock), None).

(** The exchange of [pthread_mutex_trylock], and what its callers do with EBUSY. *)
Definition trylock_exchange (m : t) (id : Z) (lock : option bool) : t :=
  if futex m =? 0 then goto (set_futex m id) id Entered
  else match lock with None => goto m id (Idle (Some EBUSY)) | Some timed => goto m id (LockCas timed) end.

(** The exchange in the loop of [pthread_mutex_timedlock]. *)
Definition timedlock_exchange (m : t) (id : Z) (timed : bool) : t :=
  if futex m =? 0 then goto (set_futex m id) id Entered else goto m id (AddWaiter timed (futex m)).

(** The rest of an iteration of the loop. *)
Definition add_waiter (m : t) (id : Z) (timed : bool) (expected : Z) : t :=
  goto (set_waiters m (u32 (waiters m + 1))) id (Waiting timed expected (Wait expected timed)).
Definition sub_waiter (m : t) (id : Z) (timed : bool) (err : option errno) : t :=
  let m := set_waiters m (u32 (waiters m - 1)) in
  match err with
  | None | Some EINTR | Some EAGAIN => goto m id (LockCas timed)
  | Some e => goto m id (Idle (Some e))
  end.

(** [pthread_mutex_unlock] up to the store that frees the mutex. *)
Definition begin_unlock (m : t) (id : Z) : t * option LockSpec.lock_event :=
  if negb (futex m =? id) then (goto m id (Idle (Some EPERM)), None)
  else
    let depth := u32 (lock_depth m - 1) in
    (goto (set_depth m depth) id (if depth =? 0 then StoreFree else Idle None), Some (LockSpec.Release id)).

Definition load_waiters (m : t) (id : Z) : t := goto m id (if negb (waiters m =? 0) then Waking else Idle None).

(** The threads that a call wakes. *)
Definition wake_threads (ids : list Z) (pcs : Z -> pc) : Z -> pc := fun id =>
  if bool_decide (id ∈ ids) then match pcs id with Waiting timed expected (Asleep k) => Waiting timed expected (Awake k) | p => p end else pcs id.

(** A step of the call [op] inside the kernel, for a thread at [c]; where it goes is
    [still] or [back]. *)
Definition in_kernel (m : t) (id : Z) (ev : kernel_event) (op c : futex_call) (still : futex_call -> pc) (back : option errno -> pc) : option t :=
  match Futex.futex id ev (futex m) (kernel m) op c with
  | None => None
  | Some (k, p, woken) =>
      let m := mk (type m) (futex m) (waiters m) (lock_depth m) k (wake_threads woken (pcs m)) in
      Some (goto m id (match p with Still c => still c | Return r => back r end))
  end.

Definition exec (m : t) (id : Z) (a : action) : option (outcome (t * option LockSpec.lock_event)) :=
  match pcs m id, a with
  | Idle _, Trylock => Some (Ok (begin_trylock m id None))
  | Idle _, Timedlock timed => Some (Ok (begin_trylock m id (Some timed)))
  | Idle _, Unlock => Some (Ok (begin_unlock m id))
  | TryCas lock, Step Continue => Some (Ok (trylock_exchange m id lock, None))
  | LockCas timed, Step Continue => Some (Ok (timedlock_exchange m id timed, None))
  | AddWaiter timed expected, Step Continue => Some (Ok (add_waiter m id timed expected, None))
  | Waiting timed expected c, Step ev => match in_kernel m id ev (Wait expected timed) c (Waiting timed expected) (SubWaiter timed) with Some m => Some (Ok (m, None)) | None => None end
  | SubWaiter timed err, Step Continue => Some (Ok (sub_waiter m id timed err, None))
  | Entered, Step Continue => Some (Ok (goto (set_depth m 1) id (Idle None), Some (LockSpec.Acquire id)))
  | StoreFree, Step Continue => Some (Ok (goto (set_futex m 0) id LoadWaiters, None))
  | LoadWaiters, Step Continue => Some (Ok (load_waiters m id, None))
  | Waking, Step ev => match in_kernel m id ev (Wake 1) (Wake 1) (fun _ => Waking) (fun _ => Idle None) with Some m => Some (Ok (m, None)) | None => None end
  | _, _ => None
  end.

(** ** Refinement of the abstract lock *)

(** Threads have positive 32-bit ids, and nest less than 2^32 deep. *)
Definition allowed (m : t) (id : Z) (a : action) (s : LockSpec.spec) : Prop := 0 < id < 2 ^ 32 /\ lock_depth m < 2 ^ 32 - 1.

Definition active (p : pc) : bool := match p with Entered | StoreFree => true | _ => false end.

Definition rel (m : t) (s : LockSpec.spec) : Prop :=
  (forall id, active (pcs m id) = true -> futex m = id /\ 0 < id) /\
  match s with
  | Some (id, n) => futex m = id /\ 0 < id /\ 0 < n < 2 ^ 32 /\ lock_depth m = n /\ active (pcs m id) = false
  | None => lock_depth m = 0 /\ (futex m = 0 \/ active (pcs m (futex m)) = true)
  end.

Definition init (m : t) : Prop := exists type, m = pthread_mutex_init type.

Lemma wake_threads_active ids ps id : active (wake_threads ids ps id) = active (ps id).
Proof. unfold wake_threads. case_match; [|done]. by destruct (ps id) as [| | | |timed expected []| | | | |]. Qed.

(** A step that changes the program point of a thread that is not active. *)
Lemma rel_goto m s id p : rel m s -> active (pcs m id) = false -> active p = false -> rel (goto m id p) s.
Proof.
  intros [H1 H2] Hid Hp. split; cbn.
  - intros x Hx. destruct (decide (x = id)) as [->|]; [rewrite update_eq in Hx; congruence|]. rewrite update_ne in Hx by done. by apply H1.
  - destruct s as [[x n]|].
    + destruct H2 as (? & ? & ? & ? & Hx). split_and!; try done; try lia. destruct (decide (x = id)) as [->|]; [by rewrite update_eq|by rewrite update_ne].
    + destruct H2 as [Hd [Hz|Ha]]; split; [done|by left|done|right]. destruct (decide (futex m = id)) as [E|]; [rewrite E in Ha; congruence|by rewrite update_ne].
Qed.

Lemma rel_take m s id : rel m s -> 0 < id -> active (pcs m id) = false -> futex m = 0 -> s = None /\ rel (goto (set_futex m id) id Entered) None.
Proof.
  intros [H1 H2] Hid Ha Hz. destruct s as [[x n]|]; [lia|]. split; [done|]. destruct H2 as [Hd _]. split; cbn.
  - intros x Hx. destruct (decide (x = id)) as [->|]; [done|]. rewrite update_ne in Hx by done. apply H1 in Hx as [? ?]. lia.
  - split; [done|]. right. by rewrite update_eq.
Qed.

Lemma rel_kernel m s k ids : rel m s -> rel (mk (type m) (futex m) (waiters m) (lock_depth m) k (wake_threads ids (pcs m))) s.
Proof.
  intros [H1 H2]. split; cbn.
  - intros x. rewrite wake_threads_active. apply H1.
  - destruct s as [[x n]|]; rewrite wake_threads_active; done.
Qed.

Lemma rel_waiters m s v : rel m s -> rel (set_waiters m v) s.
Proof. done. Qed.

Lemma in_kernel_rel m s id ev op c still back m' : rel m s -> active (pcs m id) = false -> (forall c, active (still c) = false) -> (forall r, active (back r) = false) ->
  in_kernel m id ev op c still back = Some m' -> rel m' s.
Proof.
  intros Hr Ha Hs Hb. unfold in_kernel. destruct (Futex.futex _ _ _ _ _ _) as [[[k p] woken]|]; [|done]. intros [= <-]. apply rel_goto; [by apply rel_kernel|cbn; by rewrite wake_threads_active|].
  by destruct p.
Qed.

Lemma begin_trylock_simulates m s id lock : rel m s -> active (pcs m id) = false -> 0 < id < 2 ^ 32 -> lock_depth m < 2 ^ 32 - 1 ->
  exists s', LockSpec.step s (begin_trylock m id lock).2 s' /\ rel (begin_trylock m id lock).1 s'.
Proof.
  intros Hr Ha Hid Hd. unfold begin_trylock.
  assert (Hgo : forall p, active p = false -> exists s', LockSpec.step s None s' /\ rel (goto m id p) s') by (intros p Hp; exists s; split; [constructor|by apply rel_goto]).
  destruct (Z.eqb_spec (futex m) id) as [Ef|Nf]; [|rewrite !andb_false_r; by apply Hgo]. rewrite !andb_true_r.
  destruct (type m =? PTHREAD_MUTEX_RECURSIVE); [|destruct (type m =? PTHREAD_MUTEX_ERRORCHECK); by apply Hgo].
  destruct Hr as [H1 H2]. destruct s as [[x n]|]; [|destruct H2 as [_ [Hz|Hac]]; [lia|rewrite Ef in Hac; congruence]].
  destruct H2 as (Hx & _ & Hn & Hdn & Hax). assert (x = id) as -> by lia. exists (Some (id, n + 1)). split; [constructor|]. cbn [fst snd]. rewrite wrap_id by lia. split; cbn.
  - intros y Hy. destruct (decide (y = id)) as [->|]; [by rewrite update_eq in Hy|]. rewrite update_ne in Hy by done. by apply H1.
  - rewrite update_eq. split_and!; done || lia.
Qed.

Lemma begin_unlock_simulates m s id : rel m s -> active (pcs m id) = false -> 0 < id ->
  exists s', LockSpec.step s (begin_unlock m id).2 s' /\ rel (begin_unlock m id).1 s'.
Proof.
  intros Hr Ha Hid. unfold begin_unlock. destruct (Z.eqb_spec (futex m) id) as [Ef|Ne]; cbn [negb fst snd]; [|exists s; split; [constructor|by apply rel_goto]].
  destruct Hr as [H1 H2]. destruct s as [[x n]|].
  2: { destruct H2 as [_ [Hz|Hac]]; [lia|]. rewrite Ef in Hac. congruence. }
  destruct H2 as (Hx & _ & Hn & Hdn & Hax). assert (x = id) as -> by lia. rewrite wrap_id by lia.
  assert (Hother : forall y p, y <> id -> active (update (pcs m) id p y) = true -> futex m = y /\ 0 < y) by (intros y p Hy; rewrite update_ne by done; apply H1).
  destruct (decide (n = 1)) as [->|].
  - exists None. split; [constructor|]. replace (lock_depth m - 1) with 0 by lia. split; cbn.
    + intros y Hy. destruct (decide (y = id)) as [->|]; [done|by eapply Hother].
    + split; [done|]. right. by rewrite Ef, update_eq.
  - exists (Some (id, n - 1)). split; [constructor; lia|]. rewrite (proj2 (Z.eqb_neq _ _)) by lia. split; cbn.
    + intros y Hy. destruct (decide (y = id)) as [->|]; [by rewrite update_eq in Hy|by eapply Hother].
    + rewrite update_eq. split_and!; done || lia.
Qed.

Lemma pthread_simulates m s id a o : rel m s -> allowed m id a s -> exec m id a = Some o -> exists m' ev s', o = Ok (m', ev) /\ LockSpec.step s ev s' /\ rel m' s'.
Proof.
  intros Hr [Hid Hd] He. unfold exec in He.
  assert (Hquiet : forall m', rel m' s -> exists m2 ev s', Ok (m', None) = Ok (m2, ev) /\ LockSpec.step s ev s' /\ rel m2 s') by (intros m' Hm'; exists m', None, s; split_and!; [done|constructor|done]).
  assert (Htake : forall p, active (pcs m id) = false -> active p = false ->
    exists m2 ev s', Ok (if futex m =? 0 then goto (set_futex m id) id Entered else goto m id p, None) = Ok (m2, ev) /\ LockSpec.step s ev s' /\ rel m2 s').
  { intros p Ha Hp. destruct (Z.eqb_spec (futex m) 0) as [Hz|]; [|by apply Hquiet, rel_goto]. apply Hquiet. destruct (rel_take m s id Hr ltac:(lia) Ha Hz) as [-> ?]. done. }
  destruct (pcs m id) as [ret|lock|timed|timed expected|timed expected c|timed err| | | |] eqn:Ep.
  - destruct a as [|timed'| |ev]; simplify_eq.
    + destruct (begin_trylock_simulates m s id None) as (s' & H1 & H2); [done|by rewrite Ep|done|done|]. destruct (begin_trylock m id None) as [m' e]. by exists m', e, s'.
    + destruct (begin_trylock_simulates m s id (Some timed')) as (s' & H1 & H2); [done|by rewrite Ep|done|done|]. destruct (begin_trylock m id (Some timed')) as [m' e]. by exists m', e, s'.
    + destruct (begin_unlock_simulates m s id) as (s' & H1 & H2); [done|by rewrite Ep|lia|]. destruct (begin_unlock m id) as [m' e]. by exists m', e, s'.
  - destruct a as [| | |[]]; simplify_eq. unfold trylock_exchange. destruct lock as [timed|]; by apply Htake.
  - destruct a as [| | |[]]; simplify_eq. by apply Htake.
  - destruct a as [| | |[]]; simplify_eq. apply Hquiet, rel_goto; [done|by cbn; rewrite Ep|done].
  - destruct a as [| | |ev]; simplify_eq. destruct (in_kernel _ _ _ _ _ _ _) as [m'|] eqn:Ek; simplify_eq. apply Hquiet. eapply in_kernel_rel; [exact Hr| | | |exact Ek]; [by rewrite Ep|done|done].
  - destruct a as [| | |[]]; simplify_eq. apply Hquiet. unfold sub_waiter. repeat case_match; apply rel_goto; first [done|by cbn; rewrite Ep].
  - destruct a as [| | |[]]; simplify_eq. destruct Hr as [H1 H2]. destruct (H1 id) as [Ef _]; [by rewrite Ep|]. destruct s as [[x n]|].
    { destruct H2 as (Hx & _ & _ & _ & Hax). assert (x = id) as -> by lia. by rewrite Ep in Hax. }
    eexists _, _, (Some (id, 1)). split_and!; [done|constructor|]. split; cbn.
    + intros y Hy. destruct (decide (y = id)) as [->|]; [by rewrite update_eq in Hy|]. rewrite update_ne in Hy by done. by apply H1.
    + rewrite update_eq. split_and!; done || lia.
  - destruct a as [| | |[]]; simplify_eq. destruct Hr as [H1 H2]. destruct (H1 id) as [Ef _]; [by rewrite Ep|]. destruct s as [[x n]|].
    { destruct H2 as (Hx & _ & _ & _ & Hax). assert (x = id) as -> by lia. by rewrite Ep in Hax. }
    apply Hquiet. split; cbn; [|destruct H2; split; [done|by left]].
    intros y Hy. destruct (decide (y = id)) as [->|]; [by rewrite update_eq in Hy|]. rewrite update_ne in Hy by done. apply H1 in Hy. lia.
  - destruct a as [| | |[]]; simplify_eq. apply Hquiet. apply rel_goto; [done|by rewrite Ep|]. by destruct (negb _).
  - destruct a as [| | |ev]; simplify_eq. destruct (in_kernel _ _ _ _ _ _ _) as [m'|] eqn:Ek; simplify_eq. apply Hquiet. eapply in_kernel_rel; [exact Hr| | | |exact Ek]; [by rewrite Ep|done|done].
Qed.

Lemma pthread_rel_init m : init m -> rel m None.
Proof. intros [type ->]. split; [done|]. cbn. auto. Qed.

Lemma rel_ok m s : rel m s -> LockSpec.spec_ok s.
Proof. intros [_ Hs]. destruct s as [[x n]|]; [|done]. cbn. lia. Qed.

#[export] Instance pthread_mutex_lock : RecursiveLock := {|
  lock_state := t; lock_action := action; lock_exec := exec; lock_allowed := allowed;
  lock_init := init; lock_rel := rel; lock_rel_init := pthread_rel_init; lock_rel_ok := rel_ok;
  lock_simulates := pthread_simulates
|}.

(** ** No wakeup is lost *)
Definition counted (p : pc) : bool := match p with Waiting _ _ _ | SubWaiter _ _ => true | _ => false end.
Definition sleeps (p : pc) : bool := match p with Waiting _ _ (Asleep _) => true | _ => false end.
Definition blocks (p : pc) : bool := match p with Waiting _ _ (Block _) => true | _ => false end.

(** A thread that is about to wake a sleeper. *)
Definition waker (p : pc) : bool := match p with LoadWaiters | Waking => true | _ => false end.

(** A thread that is about to wake a sleeper or to take the mutex if it is free. *)
Definition contender (p : pc) : bool :=
  match p with
  | LoadWaiters | Waking | LockCas _ | Waiting _ _ (Wait _ _ | Awake _) => true
  | SubWaiter _ err => match err with None | Some EINTR | Some EAGAIN => true | _ => false end
  | _ => false
  end.

(** Nobody waits for the value 0, or with a deadline. *)
Definition pc_ok (p : pc) : Prop :=
  match p with
  | TryCas (Some timed) | LockCas timed | SubWaiter timed _ => timed = false
  | AddWaiter timed expected => timed = false /\ expected <> 0
  | Waiting timed expected c =>
      timed = false /\ expected <> 0 /\
      match c with Wait val k => k = false /\ val = expected | Block k | Asleep k | Awake k => k = false | Wake _ => False end
  | _ => True
  end.

Record live (m : t) : Prop := {
  live_pcs id : pc_ok (pcs m id);
  live_chain id : id ∈ fx_chain (kernel m) <-> sleeps (pcs m id) = true;
  live_nodup : NoDup (fx_chain (kernel m));
  live_mutex id : fx_mutex (kernel m) = Some id <-> blocks (pcs m id) = true;
  live_count : exists l, NoDup l /\ Forall (fun id => 0 < id < 2 ^ 32) l /\ (forall id, id ∈ l <-> counted (pcs m id) = true) /\ waiters m = Z.of_nat (length l);
  live_block : futex m = 0 -> fx_mutex (kernel m) <> None -> exists u, waker (pcs m u) = true;
  live_sleep : futex m = 0 -> fx_chain (kernel m) <> [] -> exists u, contender (pcs m u) = true
}.

(** A step outside the kernel of a thread that is not counted before or after. *)
Lemma mutex_live_goto m id p v depth : live m -> counted (pcs m id) = false -> counted p = false -> pc_ok p ->
  (v = 0 -> waker p = true \/ (futex m = 0 /\ contender (pcs m id) = false) \/ (fx_chain (kernel m) = [] /\ fx_mutex (kernel m) = None)) ->
  live (mk (type m) v (waiters m) depth (kernel m) (update (pcs m) id p)).
Proof.
  intros [H1 H2 H7 H3 H4 H5 H6] Hc Hp Hok Hv.
  assert (Hs : sleeps (pcs m id) = false /\ sleeps p = false) by (split; [destruct (pcs m id)|destruct p]; done).
  assert (Hb : blocks (pcs m id) = false /\ blocks p = false) by (split; [destruct (pcs m id)|destruct p]; done).
  assert (Hw : contender (pcs m id) = false -> waker (pcs m id) = false) by (by destruct (pcs m id)).
  split; cbn.
  - intros x. destruct (decide (x = id)) as [->|]; [by rewrite update_eq|by rewrite update_ne].
  - intros x. rewrite H2, (class_update sleeps). case_decide; [subst; by rewrite (proj1 Hs), (proj2 Hs)|done].
  - done.
  - intros x. rewrite H3, (class_update blocks). case_decide; [subst; by rewrite (proj1 Hb), (proj2 Hb)|done].
  - destruct H4 as (l & Hl1 & Hl2 & Hl3 & Hl4). exists l. split_and!; [done|done| |done]. intros x. rewrite Hl3, (class_update counted). case_decide; [subst; by rewrite Hc, Hp|done].
  - intros Hz Hm. apply exists_update. destruct (Hv Hz) as [?|[[Hz' Hn]|[_ ?]]]; [by left|right|done]. split; [by apply Hw|by apply H5].
  - intros Hz Hm. apply exists_update. destruct (Hv Hz) as [Hwk|[[Hz' Hn]|[? _]]]; [left; by destruct p|right|done]. split; [done|by apply H6].
Qed.

Lemma live_add_waiter m id expected : live m -> 0 < id < 2 ^ 32 -> pcs m id = AddWaiter false expected -> live (add_waiter m id false expected).
Proof.
  intros [H1 H2 H7 H3 H4 H5 H6] Hid Ep. pose proof (H1 id) as Hok. rewrite Ep in Hok. unfold add_waiter. split; cbn.
  - intros x. destruct (decide (x = id)) as [->|]; [rewrite update_eq; cbn; by destruct Hok|by rewrite update_ne].
  - intros x. rewrite H2, (class_update sleeps). case_decide; [subst; by rewrite Ep|done].
  - done.
  - intros x. rewrite H3, (class_update blocks). case_decide; [subst; by rewrite Ep|done].
  - destruct H4 as (l & Hl1 & Hl2 & Hl3 & Hl4). assert (Hn : id ∉ l) by (rewrite Hl3, Ep; done).
    assert (Hnd : NoDup (id :: l)) by (by apply list.NoDup_cons). assert (Hf : Forall (fun id => 0 < id < 2 ^ 32) (id :: l)) by (by constructor).
    exists (id :: l). split_and!; [done|done| |].
    + intros x. rewrite elem_of_cons, Hl3, (class_update counted). case_decide; [subst; split; auto|]. split; [intros [?|?]; done|by right].
    + pose proof (short_ids _ Hnd Hf) as Hs. cbn [length] in *. rewrite Hl4, wrap_id by lia. lia.
  - intros Hz Hm. apply exists_update. right. split; [by rewrite Ep|by apply H5].
  - intros Hz Hm. apply exists_update. right. split; [by rewrite Ep|by apply H6].
Qed.

Lemma live_sub_waiter m id err : live m -> pcs m id = SubWaiter false err -> live (sub_waiter m id false err).
Proof.
  intros [H1 H2 H7 H3 H4 H5 H6] Ep. unfold sub_waiter.
  assert (Hgo : forall p, counted p = false -> pc_ok p -> contender p = contender (SubWaiter false err) -> live (goto (set_waiters m (u32 (waiters m - 1))) id p)).
  2: { destruct err as [[]|]; by apply Hgo. }
  intros p Hc Hok Hcon. assert (Hw : sleeps p = false /\ blocks p = false /\ waker p = false \/ waker p = true) by (destruct p; auto). split; cbn.
  - intros x. destruct (decide (x = id)) as [->|]; [by rewrite update_eq|by rewrite update_ne].
  - intros x. rewrite H2, (class_update sleeps). case_decide; [subst; rewrite Ep; destruct p; done|done].
  - done.
  - intros x. rewrite H3, (class_update blocks). case_decide; [subst; rewrite Ep; destruct p; done|done].
  - destruct H4 as (l & Hl1 & Hl2 & Hl3 & Hl4). assert (Hin : id ∈ l) by (by rewrite Hl3, Ep). pose proof (short_ids l Hl1 Hl2) as Hs.
    destruct (elem_of_Permutation l id) as [Hl _]. destruct (Hl Hin) as [l' HP]. rewrite HP in Hl1, Hl2. apply list.NoDup_cons in Hl1 as [Hn Hl1]. apply Forall_cons_1 in Hl2 as [_ Hl2].
    exists l'. split_and!; [done|done| |].
    + intros x. rewrite (class_update counted). case_decide; [subst; rewrite Hc; done|]. rewrite <- Hl3, HP, elem_of_cons. split; [by right|]. intros [?|?]; done.
    + rewrite HP in Hl4, Hs. cbn [length] in Hl4, Hs. rewrite Hl4, wrap_id by lia. lia.
  - intros Hz Hm. apply exists_update. right. split; [by rewrite Ep|by apply H5].
  - intros Hz Hm. apply exists_update. destruct (contender p) eqn:Ec; [by left|right]. split; [by rewrite Ep|by apply H6].
Qed.

Lemma wake_threads_class (f : pc -> bool) ids ps x : (forall timed expected k, f (Waiting timed expected (Asleep k)) = f (Waiting timed expected (Awake k))) -> f (wake_threads ids ps x) = f (ps x).
Proof. intros Hf. unfold wake_threads. case_match; [|done]. destruct (ps x) as [| | | |timed expected []| | | | |]; done. Qed.

(** A step in the kernel that wakes nobody. *)
Lemma mutex_live_kernel m id p k : live m -> counted (pcs m id) = true -> counted p = true -> pc_ok p ->
  (forall x, x ∈ fx_chain k <-> if decide (x = id) then sleeps p = true else x ∈ fx_chain (kernel m)) ->
  (forall x, fx_mutex k = Some x <-> if decide (x = id) then blocks p = true else fx_mutex (kernel m) = Some x) ->
  NoDup (fx_chain k) ->
  (blocks p = true -> futex m <> 0) ->
  (futex m = 0 -> contender (pcs m id) = true -> contender p = true) ->
  (sleeps p = true -> blocks (pcs m id) = true) ->
  live (goto (mk (type m) (futex m) (waiters m) (lock_depth m) k (wake_threads [] (pcs m))) id p).
Proof.
  intros [H1 H2 H7 H3 H4 H5 H6] Hc Hp Hok Hch Hmx Hnd Hb Hcon Hsl.
  assert (Ew : forall x, wake_threads [] (pcs m) x = pcs m x) by (intros x; unfold wake_threads; by rewrite bool_decide_eq_false_2 by apply not_elem_of_nil).
  assert (Hid : waker (pcs m id) = false) by (by destruct (pcs m id)).
  assert (Hu : forall (f : pc -> bool), f p = true \/ (f (pcs m id) = false /\ exists u, f (pcs m u) = true) -> exists u, f (update (wake_threads [] (pcs m)) id p u) = true).
  { intros f Hf. apply exists_update. destruct Hf as [?|[? [u ?]]]; [by left|right]. split; [by rewrite Ew|exists u; by rewrite Ew]. }
  split; cbn.
  - intros x. destruct (decide (x = id)) as [->|]; [by rewrite update_eq|by rewrite update_ne, Ew].
  - intros x. rewrite Hch, (class_update sleeps), Ew. case_decide; [done|apply H2].
  - done.
  - intros x. rewrite Hmx, (class_update blocks), Ew. case_decide; [done|apply H3].
  - destruct H4 as (l & Hl1 & Hl2 & Hl3 & Hl4). exists l. split_and!; [done|done| |done]. intros x. rewrite Hl3, (class_update counted), Ew. case_decide; [subst; by rewrite Hc, Hp|done].
  - intros Hz Hm. apply Hu. right. split; [done|]. apply H5; [done|]. apply not_eq_None_Some in Hm as [x Hx]. apply Hmx in Hx. case_decide; [by apply Hb in Hx|]. by rewrite Hx.
  - intros Hz Hm. apply Hu. destruct (contender p) eqn:Ec; [by left|right]. split; [apply not_true_is_false; intros Ht; apply Hcon in Ht; [congruence|done]|].
    destruct (sleeps p) eqn:Es.
    + destruct (H5 Hz) as [u Hw]; [by rewrite (proj2 (H3 id) (Hsl eq_refl))|]. exists u. by destruct (pcs m u).
    + apply H6; [done|]. intros E. apply Hm. apply elem_of_nil_inv. intros x Hx. apply Hch in Hx. case_decide; [congruence|].
      rewrite E in Hx. by apply not_elem_of_nil in Hx.
Qed.

(** The steps of a thread that waits in the kernel. *)
Lemma mutex_live_waiting m id ev expected c m' : live m -> pcs m id = Waiting false expected c -> (forall e, ev <> Failure e) ->
  in_kernel m id ev (Wait expected false) c (Waiting false expected) (SubWaiter false) = Some m' -> live m'.
Proof.
  intros HL Ep Hev. pose proof (live_pcs m HL id) as Hok. pose proof (live_chain m HL id) as Hch. pose proof (live_mutex m HL id) as Hmx. pose proof (live_nodup m HL) as Hnd. rewrite Ep in Hok, Hch, Hmx.
  destruct Hok as (_ & Hexp & Hok). unfold in_kernel, Futex.futex.
  assert (Hgo : forall p k, counted p = true -> pc_ok p ->
    (forall x, x ∈ fx_chain k <-> if decide (x = id) then sleeps p = true else x ∈ fx_chain (kernel m)) ->
    (forall x, fx_mutex k = Some x <-> if decide (x = id) then blocks p = true else fx_mutex (kernel m) = Some x) -> NoDup (fx_chain k) ->
    (blocks p = true -> futex m <> 0) -> (futex m = 0 -> contender (Waiting false expected c) = true -> contender p = true) -> (sleeps p = true -> blocks (Waiting false expected c) = true) ->
    live (goto (mk (type m) (futex m) (waiters m) (lock_depth m) k (wake_threads [] (pcs m))) id p)) by (intros; apply mutex_live_kernel; rewrite ?Ep; done).
  assert (Hsame : forall p, counted p = true -> pc_ok p -> contender p = true -> sleeps (Waiting false expected c) = false -> blocks (Waiting false expected c) = false ->
    live (goto (mk (type m) (futex m) (waiters m) (lock_depth m) (kernel m) (wake_threads [] (pcs m))) id p)).
  { intros p Hc Hp Hr Hs Hb. rewrite Hs in Hch. rewrite Hb in Hmx. assert (Hp' : sleeps p = false /\ blocks p = false) by (by destruct p as [| | | |? ? []| | | | |]). destruct Hp' as [Ep1 Ep2].
    apply Hgo; rewrite ?Ep1, ?Ep2; try done; intros x; case_decide; subst; done. }
  destruct c as [val k|k|k|k|n]; cbn in Hok; [destruct Hok as [-> ->]|subst k|subst k|subst k|done].
  - destruct ev as [| | |e]; cbn; try done; [|by destruct (Hev e)].
    destruct (fx_mutex (kernel m)) as [y|] eqn:Em; [done|]. destruct (Z.eqb_spec (futex m) expected) as [Ev|]; cbn; intros [= <-]; [|by apply Hsame].
    apply Hgo; try done; cbn; [intros x; case_decide; subst; done| |lia|lia]. intros x. case_decide; [by subst|]. split; [intros [= ?]; congruence|done].
  - assert (Hm : fx_mutex (kernel m) = Some id) by (by apply Hmx).
    assert (Hnone : forall x, None = Some x <-> if decide (x = id) then false = true else fx_mutex (kernel m) = Some x) by (intros x; rewrite Hm; case_decide; [done|]; split; [done|intros [= ?]; congruence]).
    assert (Hni : id ∉ fx_chain (kernel m)) by (by rewrite Hch).
    destruct ev; cbn; try done; intros [= <-]; apply Hgo; try done; cbn.
    + intros x. rewrite elem_of_cons. case_decide; [subst; split; auto|]. split; [by intros [?|?]|auto].
    + by apply list.NoDup_cons.
    + intros x. case_decide; [subst; done|done].
  - destruct ev; cbn; try done. intros [= <-]. apply Hgo; try done; cbn.
    + intros x. rewrite list_elem_of_filter. case_decide; [subst; split; [by intros []|done]|]. split; [by intros []|done].
    + intros x. case_decide; [subst; done|done].
    + by apply list.NoDup_filter.
  - unfold sys_futex. destruct (fx_mutex (kernel m)) as [y|]; [done|]. destruct ev; try done; intros [= <-]; by apply Hsame.
Qed.

(** A thread that has left the critical section wakes the thread that went to sleep last. *)
Lemma mutex_live_wake m id m' : live m -> pcs m id = Waking -> in_kernel m id Continue (Wake 1) (Wake 1) (fun _ => Waking) (fun _ => Idle None) = Some m' -> live m'.
Proof.
  intros [H1 H2 H7 H3 H4 H5 H6] Ep. unfold in_kernel, Futex.futex, sys_futex. destruct (fx_mutex (kernel m)) as [y|] eqn:Em; [done|]. intros [= <-].
  set (ch := fx_chain (kernel m)) in *. set (ps := wake_threads (take 1 ch) (pcs m)).
  assert (Hclass : forall (f : pc -> bool) x, (forall timed expected k, f (Waiting timed expected (Asleep k)) = f (Waiting timed expected (Awake k))) -> f (ps x) = f (pcs m x)) by (intros; by apply wake_threads_class).
  assert (Hid : ps id = Waking) by (unfold ps, wake_threads; case_match; by rewrite Ep).
  assert (Hsl : forall x, sleeps (ps x) = true <-> x ∈ drop 1 ch).
  { intros x. unfold ps, wake_threads. destruct ch as [|h tl]; cbn; [by rewrite bool_decide_eq_false_2, <- H2 by apply not_elem_of_nil|].
    apply list.NoDup_cons in H7 as [Hh _]. rewrite ?drop_0. case_bool_decide as Hx; rewrite list_elem_of_singleton in Hx.
    - subst. assert (Hs : sleeps (pcs m h) = true) by (apply H2; left). by destruct (pcs m h) as [| | | |timed expected []| | | | |].
    - rewrite <- H2, elem_of_cons. split; [by intros [?|?]|auto]. }
  assert (Hhd : ch <> [] -> exists u, u <> id /\ contender (ps u) = true).
  { intros Hne. destruct ch as [|h tl]; [done|]. assert (Hs : sleeps (pcs m h) = true) by (apply H2; left). exists h. split; [intros ->; by rewrite Ep in Hs|].
    unfold ps, wake_threads. cbn. rewrite bool_decide_eq_true_2 by (by apply list_elem_of_singleton). by destruct (pcs m h) as [| | | |timed expected []| | | | |]. }
  split; cbn.
  - intros x. destruct (decide (x = id)) as [->|]; [by rewrite update_eq|]. rewrite update_ne by done. specialize (H1 x). unfold ps, wake_threads. case_match; [|done].
    by destruct (pcs m x) as [| | | |timed expected []| | | | |].
  - intros x. rewrite (class_update sleeps), <- Hsl. case_decide; [subst; by rewrite Hid|done].
  - destruct ch as [|h tl]; [done|]. cbn. rewrite ?drop_0. apply list.NoDup_cons in H7 as [_ H7]. done.
  - intros x. rewrite (class_update blocks). case_decide; [done|]. by rewrite (Hclass blocks), <- H3.
  - destruct H4 as (l & Hl1 & Hl2 & Hl3 & Hl4). exists l. split_and!; [done|done| |done]. intros x. rewrite Hl3, (class_update counted), (Hclass counted) by done. case_decide; [subst; by rewrite Ep|done].
  - done.
  - intros Hz Hm. destruct Hhd as (u & Hne & Hu); [by intros E; rewrite E in Hm|]. exists u. by rewrite update_ne.
Qed.

(** Nobody has a deadline, and the calls of the kernel find the futex. *)
Definition untimed (m : t) (id : Z) (a : action) : Prop :=
  0 < id < 2 ^ 32 /\
  match a with Timedlock true | Step (Failure _) => False | _ => True end.

Lemma mutex_live_init type : live (pthread_mutex_init type).
Proof.
  split; try done; [|cbn; constructor|].
  - intros id. cbn. split; [intros H; by apply not_elem_of_nil in H|done].
  - exists []. split_and!; [constructor|done| |done]. intros id. cbn. split; [intros H; by apply not_elem_of_nil in H|done].
Qed.

(** Without waiters nobody is in the kernel. *)
Lemma live_no_waiters m : live m -> waiters m = 0 -> fx_chain (kernel m) = [] /\ fx_mutex (kernel m) = None.
Proof.
  intros [H1 H2 H7 H3 H4 H5 H6] Hw. destruct H4 as (l & _ & _ & Hl & Hlen). assert (l = []) as -> by (destruct l; [done|cbn in Hlen; lia]).
  assert (Hno : forall x, counted (pcs m x) = false) by (intros x; apply not_true_is_false; rewrite <- Hl; apply not_elem_of_nil). split.
  - apply elem_of_nil_inv. intros x Hx. apply H2 in Hx. specialize (Hno x). by destruct (pcs m x).
  - destruct (fx_mutex (kernel m)) as [x|]; [|done]. pose proof (proj1 (H3 x) eq_refl) as Hb. specialize (Hno x). by destruct (pcs m x).
Qed.

Lemma mutex_live_exec m id a m' ev : live m -> untimed m id a -> exec m id a = Some (Ok (m', ev)) -> live m'.
Proof.
  intros HL [Hid Ha] He. pose proof (live_pcs m HL id) as Hok. unfold exec in He.
  assert (Hgo : forall v depth p, counted (pcs m id) = false -> counted p = false -> pc_ok p ->
    (v = 0 -> waker p = true \/ (futex m = 0 /\ contender (pcs m id) = false) \/ (fx_chain (kernel m) = [] /\ fx_mutex (kernel m) = None)) ->
    live (mk (type m) v (waiters m) depth (kernel m) (update (pcs m) id p))) by (intros; by apply mutex_live_goto).
  destruct (pcs m id) as [ret|lock|timed|timed expected|timed expected c|timed err| | | |] eqn:Ep.
  - assert (Hlock : forall lock, lock <> Some true -> live (begin_trylock m id lock).1).
    { intros lock Hl. unfold begin_trylock. repeat case_match; cbn [fst]; apply Hgo; try done; try (intros ?; right; left; by split); by destruct lock as [[]|]. }
    destruct a as [|[]| |]; try done; simplify_eq.
    + specialize (Hlock None ltac:(done)). by destruct (begin_trylock m id None); simplify_eq.
    + specialize (Hlock (Some false) ltac:(done)). by destruct (begin_trylock m id (Some false)); simplify_eq.
    + unfold begin_unlock in He. destruct (negb _); simplify_eq; apply Hgo; try done; try (intros ?; right; left; by split); by case_match.
  - destruct a as [| | |[]]; simplify_eq. unfold trylock_exchange. destruct (Z.eqb_spec (futex m) 0); [apply Hgo; try done; cbn; lia|]. destruct lock; apply Hgo; done.
  - destruct a as [| | |[]]; simplify_eq. unfold timedlock_exchange. destruct (Z.eqb_spec (futex m) 0); [apply Hgo; try done; cbn; lia|]. by apply Hgo.
  - destruct a as [| | |[]]; simplify_eq. destruct Hok as [-> _]. by apply live_add_waiter.
  - destruct a as [| | |ev']; simplify_eq. destruct Hok as [-> _]. destruct (in_kernel _ _ _ _ _ _ _) as [m2|] eqn:Ek; simplify_eq. eapply mutex_live_waiting; [exact HL|exact Ep| |exact Ek]. intros e ->. done.
  - destruct a as [| | |[]]; simplify_eq. cbn in Hok. subst timed. by apply live_sub_waiter.
  - destruct a as [| | |[]]; simplify_eq. apply Hgo; try done. intros ?. right; left. by split.
  - destruct a as [| | |[]]; simplify_eq. apply Hgo; try done. by left.
  - destruct a as [| | |[]]; simplify_eq. unfold load_waiters. destruct (Z.eqb_spec (waiters m) 0) as [Hz|]; apply Hgo; try done; [|by left]. intros _. right; right. by apply live_no_waiters.
  - destruct a as [| | |ev']; simplify_eq. destruct ev'; try done; destruct (in_kernel _ _ _ _ _ _ _) as [m2|] eqn:Ek; simplify_eq. by eapply mutex_live_wake.
Qed.

(** What a mutex of the given type can become. *)
Inductive reachable (type : Z) : t -> Prop :=
| reachable_init : reachable type (pthread_mutex_init type)
| reachable_step m id a m' ev : reachable type m -> untimed m id a -> exec m id a = Some (Ok (m', ev)) -> reachable type m'.

Lemma reachable_live type m : reachable type m -> live m.
Proof. induction 1; [apply mutex_live_init|by eapply mutex_live_exec]. Qed.

(** Threads continue in the given order. *)
Fixpoint continue (m : t) (ids : list Z) : option t :=
  match ids with
  | [] => Some m
  | id :: ids => match exec m id (Step Continue) with Some (Ok (m, _)) => continue m ids | _ => None end
  end.

(** The threads [ids] lead [m] to a state where [u] has the mutex. *)
Definition enters (m : t) (u : Z) (ids : list Z) : Prop := exists m', continue m ids = Some m' /\ pcs m' u = Entered.

Lemma enters_step m u id ids m1 ev : exec m id (Step Continue) = Some (Ok (m1, ev)) -> enters m1 u ids -> enters m u (id :: ids).
Proof. intros He (m' & Hc & Hp). exists m'. cbn. by rewrite He. Qed.

Lemma enters_exchange m u timed : futex m = 0 -> pcs m u = LockCas timed -> enters m u [u].
Proof. intros Hz Hp. eexists. cbn. unfold exec, timedlock_exchange. rewrite Hp, Hz. split; [done|]. cbn. by rewrite update_eq. Qed.

Lemma enters_sub_waiter m u timed err : futex m = 0 -> pcs m u = SubWaiter timed err -> contender (SubWaiter timed err) = true -> enters m u [u; u].
Proof.
  intros Hz Hp Hc. eapply enters_step; [unfold exec; by rewrite Hp|]. assert (E : sub_waiter m u timed err = goto (set_waiters m (u32 (waiters m - 1))) u (LockCas timed)) by (by destruct err as [[]|]).
  rewrite E. eapply enters_exchange; [done|]. cbn. by rewrite update_eq.
Qed.

Lemma enters_awake m u timed expected k : futex m = 0 -> fx_mutex (kernel m) = None -> pcs m u = Waiting timed expected (Awake k) -> enters m u [u; u; u].
Proof.
  intros Hz Hm Hp. eapply enters_step; [unfold exec, in_kernel, Futex.futex, sys_futex; by rewrite Hp, Hm|]. eapply enters_sub_waiter; [done| |]; cbn; [by rewrite update_eq|done].
Qed.

Lemma enters_retry m u : live m -> futex m = 0 -> fx_mutex (kernel m) = None -> (exists timed expected val k, pcs m u = Waiting timed expected (Wait val k)) -> enters m u [u; u; u].
Proof.
  intros HL Hz Hm (timed & expected & val & k & Hp). pose proof (live_pcs m HL u) as Hok. rewrite Hp in Hok. destruct Hok as (_ & Hne & _ & ->).
  eapply enters_step; [unfold exec, in_kernel, Futex.futex, sys_futex; rewrite Hp, Hm, Hz; by rewrite (proj2 (Z.eqb_neq 0 expected)) by done|].
  eapply enters_sub_waiter; [done| |]; cbn; [by rewrite update_eq|done].
Qed.

Lemma enters_wake m u h tl : live m -> futex m = 0 -> fx_mutex (kernel m) = None -> fx_chain (kernel m) = h :: tl -> pcs m u = Waking -> enters m h [u; h; h; h].
Proof.
  intros HL Hz Hm Hch Hp. assert (Hs : sleeps (pcs m h) = true) by (apply HL; rewrite Hch; left).
  assert (Hne : h <> u) by (intros ->; by rewrite Hp in Hs).
  eapply enters_step; [unfold exec, in_kernel, Futex.futex, sys_futex; by rewrite Hp, Hm, Hch|]. destruct (pcs m h) as [| | | |timed expected []| | | | |] eqn:Eh; try done.
  eapply enters_awake; [done|done|]. cbn. rewrite update_ne by done. unfold wake_threads. rewrite bool_decide_eq_true_2 by left. by rewrite Eh.
Qed.

(** The thread that holds the mutex of the futex goes to sleep. *)
Lemma mutex_block_continues m b : live m -> fx_mutex (kernel m) = Some b ->
  exists m1, exec m b (Step Continue) = Some (Ok (m1, None)) /\ live m1 /\ futex m1 = futex m /\ fx_mutex (kernel m1) = None /\ fx_chain (kernel m1) <> [] /\ (forall x, x <> b -> pcs m1 x = pcs m x).
Proof.
  intros HL Hb. pose proof (proj1 (live_mutex m HL b) Hb) as Hbl. destruct (pcs m b) as [| | | |timed expected [|k| | |]| | | | |] eqn:Ep; try done.
  assert (He : exec m b (Step Continue) = Some (Ok (goto (mk (type m) (futex m) (waiters m) (lock_depth m) (mk_futex None (b :: fx_chain (kernel m))) (wake_threads [] (pcs m))) b (Waiting timed expected (Asleep k)), None)))
    by (unfold exec, in_kernel, Futex.futex, sys_futex; rewrite Ep; by destruct k).
  eexists. split; [exact He|]. split_and!; try done.
  - eapply mutex_live_exec; [exact HL| |exact He]. destruct (live_count m HL) as (l & _ & Hl & Hin & _). split; [|done]. eapply list.Forall_forall in Hl; [exact Hl|]. apply Hin. by rewrite Ep.
  - intros x Hx. cbn. rewrite update_ne by done. unfold wake_threads. by rewrite bool_decide_eq_false_2 by apply not_elem_of_nil.
Qed.

Lemma contender_enters m u : live m -> futex m = 0 -> fx_mutex (kernel m) = None -> fx_chain (kernel m) <> [] -> contender (pcs m u) = true -> exists v ids, (length ids <= 5)%nat /\ enters m v ids.
Proof.
  intros HL Hz Hm Hch Hu. destruct (fx_chain (kernel m)) as [|h tl] eqn:Ech; [done|].
  destruct (pcs m u) as [| |timed| |timed expected [val k| | |k|]|timed err| | | |] eqn:Ep; try done.
  - exists u, [u]. split; [cbn; lia|by eapply enters_exchange].
  - exists u, [u; u; u]. split; [cbn; lia|]. apply enters_retry; eauto.
  - exists u, [u; u; u]. split; [cbn; lia|by eapply enters_awake].
  - exists u, [u; u]. split; [cbn; lia|by eapply enters_sub_waiter].
  - exists h, [u; u; h; h; h]. split; [cbn; lia|]. assert (Hw : waiters m <> 0) by (intros Hw; apply live_no_waiters in Hw as [? _]; congruence).
    assert (He : exec m u (Step Continue) = Some (Ok (goto m u Waking, None))) by (unfold exec, load_waiters; rewrite Ep; by rewrite (proj2 (Z.eqb_neq _ _) Hw)).
    eapply enters_step; [exact He|]. eapply enters_wake; [|done|done|exact Ech|cbn; by rewrite update_eq]. apply mutex_live_goto; try done; rewrite ?Ep; try done. by left.
  - exists h, [u; h; h; h]. split; [cbn; lia|by eapply enters_wake].
Qed.

(** ** Scripts *)
Fixpoint perform (m : t) (acts : list (Z * action)) : option (t * list LockSpec.lock_event) :=
  match acts with
  | [] => Some (m, [])
  | (id, a) :: acts =>
      match exec m id a with
      | Some (Ok (m, ev)) => match perform m acts with Some (m, evs) => Some (m, LockSpec.events_of ev ++ evs) | None => None end
      | _ => None
      end
  end.

(** Each action of the script satisfies [P] when its turn comes. *)
Fixpoint stepwise (P : t -> Z -> action -> Prop) (m : t) (acts : list (Z * action)) : Prop :=
  match acts with
  | [] => True
  | (id, a) :: acts => P m id a /\ match exec m id a with Some (Ok (m, _)) => stepwise P m acts | _ => True end
  end.

Lemma mutex_perform_run m evs acts m' evs' : run (L := pthread_mutex_lock) m evs -> stepwise (fun m id a => allowed m id a None) m acts -> perform m acts = Some (m', evs') -> run (L := pthread_mutex_lock) m' (evs ++ evs').
Proof.
  revert m evs evs'. induction acts as [|[id a] acts IH]; intros m evs evs' Hr Hs Hp; cbn in *; [simplify_eq; by rewrite app_nil_r|].
  destruct Hs as [Ha Hs]. destruct (exec m id a) as [[[m1 ev]| |]|] eqn:He; try done. destruct (perform m1 acts) as [[m2 evs2]|] eqn:Ep; simplify_eq.
  destruct (run_explained (L := pthread_mutex_lock) m evs Hr) as (s & Hrel & Hex). rewrite app_assoc. eapply IH; [|done|done].
  eapply (run_step (L := pthread_mutex_lock)); [exact Hr|exact Hrel|exact Hex|exact Ha|exact He].
Qed.

Lemma mutex_perform_reachable type m acts m' evs : reachable type m -> stepwise untimed m acts -> perform m acts = Some (m', evs) -> reachable type m'.
Proof.
  revert m evs. induction acts as [|[id a] acts IH]; intros m evs Hr Hs Hp; cbn in *; [by simplify_eq|].
  destruct Hs as [Ha Hs]. destruct (exec m id a) as [[[m1 ev]| |]|] eqn:He; try done. destruct (perform m1 acts) as [[m2 evs2]|] eqn:Ep; simplify_eq.
  eapply IH; [|done|done]. by eapply reachable_step.
Qed.

(** ** Theorems *)

(** C13: A mutex of LibC refines the abstract lock whatever the interleaving of the
    atomic accesses of its callers: at most one thread holds it, the fields of the
    mutex say which one and how often, and another thread's unlock is EPERM. *)
Theorem pthread_mutex_excludes (m : t) (evs : list LockSpec.lock_event) (Hrun : run (L := pthread_mutex_lock) m evs) :
  (forall id1 id2, 0 < LockSpec.holds id1 evs -> 0 < LockSpec.holds id2 evs -> id1 = id2) /\
  (forall id, 0 < LockSpec.holds id evs -> futex m = id /\ lock_depth m = LockSpec.holds id evs) /\
  (forall id r, 0 < id -> LockSpec.holds id evs = 0 -> pcs m id = Idle r -> exec m id Unlock = Some (Ok (goto m id (Idle (Some EPERM)), None))).
Proof.
  destruct (run_safe (L := pthread_mutex_lock) m evs Hrun) as [H1 _]. destruct (run_explained (L := pthread_mutex_lock) m evs Hrun) as (a & [Hact Hrel] & Hex). split_and!; [done| |].
  - intros id Hid. rewrite Hex in Hid |- *. destruct a as [[id' n]|]; [|lia]. destruct (Z.eqb_spec id id') as [E|]; [|lia]. destruct Hrel as (? & _ & _ & ? & _). split; congruence.
  - intros id r Hpos Hid Hp. rewrite Hex in Hid. unfold exec. rewrite Hp. unfold begin_unlock. destruct (Z.eqb_spec (futex m) id) as [Ef|]; [exfalso|done].
    destruct a as [[id' n]|].
    + destruct Hrel as (? & _ & ? & _). destruct (Z.eqb_spec id id'); lia.
    + destruct Hrel as [_ [?|Ha]]; [lia|]. rewrite Ef, Hp in Ha. done.
Qed.

(** C8: No wakeup is lost: whenever the mutex is free while a thread sleeps on it, at
    most six steps of the threads inside the library, with no help from a new
    caller, give the mutex to one of them.  This is for locks without a deadline;
    signals are included, and calls of the kernel find the futex. *)
Theorem pthread_mutex_wakes (type : Z) (m : t) (Hreach : reachable type m) (Hfree : futex m = 0) (Hsleep : fx_chain (kernel m) <> []) :
  exists (u : Z) (ids : list Z) (m' : t), (length ids <= 6)%nat /\ continue m ids = Some m' /\ pcs m' u = Entered.
Proof.
  pose proof (reachable_live type m Hreach) as HL. destruct (fx_mutex (kernel m)) as [b|] eqn:Eb.
  - destruct (mutex_block_continues m b HL Eb) as (m1 & He & HL1 & Ef & Em & Ech & Hp). destruct (live_sleep m1 HL1) as [u Hu]; [by rewrite Ef|done|].
    destruct (contender_enters m1 u) as (v & ids & Hlen & Hent); [done|by rewrite Ef|done|done|done|].
    destruct (enters_step m v b ids m1 None He Hent) as (m' & Hc & Hv). exists v, (b :: ids), m'. split_and!; [cbn; lia|done|done].
  - destruct (live_sleep m HL Hfree Hsleep) as [u Hu]. destruct (contender_enters m u) as (v & ids & Hlen & m' & Hc & Hv); [done..|]. exists v, ids, m'. split_and!; [lia|done|done].
Qed.

(** ** Examples *)
Definition steps (id : Z) (n : nat) : list (Z * action) := repeat (id, Step Continue) n.

(** A thread that finds the mutex free, and one that goes to sleep on it. *)
Definition takes (id : Z) : list (Z * action) := (id, Timedlock false) :: steps id 2.
Definition goes_to_sleep (id : Z) (timed : bool) : list (Z * action) := (id, Timedlock timed) :: steps id 5.

(** The mutex after a script, and the events of the script. *)
Definition after (type : Z) (acts : list (Z * action)) : t :=
  match perform (pthread_mutex_init type) acts with Some (m, _) => m | None => pthread_mutex_init type end.
Definition events (type : Z) (acts : list (Z * action)) : option (list LockSpec.lock_event) := snd <$> perform (pthread_mutex_init type) acts.

Lemma mutex_after_run type acts evs : events type acts = Some evs -> stepwise (fun m id a => allowed m id a None) (pthread_mutex_init type) acts -> run (L := pthread_mutex_lock) (after type acts) evs.
Proof.
  unfold events, after. destruct (perform _ _) as [[m evs']|] eqn:Ep; [|done]. intros [= <-] Hs. apply (mutex_perform_run (pthread_mutex_init type) [] acts m evs'); [|done|done]. constructor. by exists type.
Qed.

Lemma after_reachable type acts : stepwise untimed (pthread_mutex_init type) acts -> reachable type (after type acts).
Proof.
  intros Hs. unfold after. destruct (perform _ _) as [[m evs]|] eqn:Ep; [|constructor]. eapply mutex_perform_reachable; [constructor|exact Hs|exact Ep].
Qed.

(** A script leaves the threads outside the library alone that take no part in it. *)
Lemma exec_others m id a m' ev x r : exec m id a = Some (Ok (m', ev)) -> x <> id -> pcs m x = Idle r -> pcs m' x = Idle r.
Proof.
  intros He Hne Hx. unfold exec, in_kernel, begin_trylock, begin_unlock, trylock_exchange, timedlock_exchange, sub_waiter, load_waiters in He.
  assert (Hw : forall ids, wake_threads ids (pcs m) x = Idle r) by (intros ids; unfold wake_threads; rewrite Hx; by destruct (bool_decide _)).
  repeat (case_match; simplify_eq); cbn; rewrite update_ne by done; done.
Qed.

Lemma after_others type acts x : x ∉ acts.*1 -> pcs (after type acts) x = Idle None.
Proof.
  unfold after. generalize (eq_refl : pcs (pthread_mutex_init type) x = Idle None). generalize (pthread_mutex_init type) at 1 2 3. intros m Hm Hx.
  destruct (perform m acts) as [[m' evs]|] eqn:Ep; [|done]. revert m evs Hm Ep. induction acts as [|[id a] acts IH]; intros m evs Hm Ep; cbn in *; [by simplify_eq|].
  apply not_elem_of_cons in Hx as [Hne Hx]. destruct (exec m id a) as [[[m1 ev]| |]|] eqn:He; try done. destruct (perform m1 acts) as [[m2 evs2]|] eqn:E2; simplify_eq.
  eapply IH; [done| |exact E2]. by eapply exec_others.
Qed.

(** Thread 7 locks a recursive mutex twice. *)
Lemma pthread_mutex_excludes_witness :
  let m := after PTHREAD_MUTEX_RECURSIVE (takes 7 ++ [(7, Timedlock false)]) in
  run (L := pthread_mutex_lock) m [LockSpec.Acquire 7; LockSpec.Acquire 7] /\ futex m = 7 /\ lock_depth m = 2 /\ exec m 8 Unlock = Some (Ok (goto m 8 (Idle (Some EPERM)), None)).
Proof.
  intros m. assert (HR : run (L := pthread_mutex_lock) m [LockSpec.Acquire 7; LockSpec.Acquire 7]) by (apply mutex_after_run; [reflexivity|vm_compute; repeat split]).
  destruct (pthread_mutex_excludes m _ HR) as (_ & H1 & H2). destruct (H1 7 ltac:(done)) as [H3 H4]. split_and!; [exact HR|exact H3|exact H4|].
  apply (H2 8 None); [done|done|]. apply after_others. cbn. rewrite !elem_of_cons, elem_of_nil. lia.
Defined.

(** Thread 2 sleeps, and thread 1 has just freed the mutex. *)
Lemma pthread_mutex_wakes_witness :
  let m := after PTHREAD_MUTEX_DEFAULT (takes 1 ++ goes_to_sleep 2 false ++ [(1, Unlock); (1, Step Continue)]) in
  futex m = 0 /\ fx_chain (kernel m) = [2] /\
  exists (u : Z) (ids : list Z) (m' : t), (length ids <= 6)%nat /\ continue m ids = Some m' /\ pcs m' u = Entered.
Proof.
  intros m. assert (Hf : futex m = 0) by (vm_compute; reflexivity). assert (Hc : fx_chain (kernel m) = [2]) by (vm_compute; reflexivity). split_and!; [done|done|].
  apply (pthread_mutex_wakes PTHREAD_MUTEX_DEFAULT); [|done|by rewrite Hc]. apply after_reachable. vm_compute. repeat split.
Defined.

(** C39: A lock with a deadline can lose the wakeup of another thread.  Thread 3 waits
    for the mutex, and thread 2 waits with a deadline.  The unlock of thread 1 wakes
    thread 2, whose deadline passes before it runs, so that it returns ETIMEDOUT.
    The mutex is free, thread 3 sleeps on it, and no thread is in the library that
    could wake it. *)
Theorem timedlock_loses_wakeup :
  let acts := takes 1 ++ goes_to_sleep 3 false ++ goes_to_sleep 2 true ++ [(1, Unlock)] ++ steps 1 3 ++ [(2, Step Deadline); (2, Step Continue)] in
  let m := after PTHREAD_MUTEX_DEFAULT acts in
  events PTHREAD_MUTEX_DEFAULT acts = Some [LockSpec.Acquire 1; LockSpec.Release 1] /\
  futex m = 0 /\ fx_chain (kernel m) = [3] /\ pcs m 2 = Idle (Some ETIMEDOUT) /\
  forall id, id <> 3 -> exists r, pcs m id = Idle r.
Proof.
  intros acts m. split_and!; [vm_compute; reflexivity..|]. intros id Hid.
  destruct (decide (id = 1)) as [->|H1]; [exists None; vm_compute; reflexivity|]. destruct (decide (id = 2)) as [->|H2]; [exists (Some ETIMEDOUT); vm_compute; reflexivity|].
  exists None. apply after_others. cbn. rewrite !elem_of_cons, elem_of_nil. lia.
Qed.
End PthreadMutex.
