(* ===== verification/Semaphore.v ===== *)
(** * LibC/semaphore: semaphores on futexes

    The semaphores of user programs at the grain of their atomic accesses, on top of
    the kernel's futexes.  The value counts what the posts put in and the waits take
    out, and a thread that sleeps is woken when the value becomes positive. *)
From S2P Require Import Prelude LockSpec Futex.

Module Semaphore.

(** ** Definitions *)
Definition SEM_VALUE_MAX : Z := 32767.

(** The program point of a thread.  Outside the library it remembers what its last
    call set [errno] to; the others are named for the access that comes next. *)
Inductive pc : Type :=
| Idle (ret : option errno)
| PostCas (value : Z)
| Posting
| TryCas (expected : Z)
| WaitLoad (timed : bool)
| WaitCas (timed : bool) (expected : Z)
| Waiting (timed : bool) (c : futex_call)
| LateLoad
| LateCas (expected : Z).

Record t : Type := mk { value : Z; kernel : futex_t; pcs : Z -> pc }.

Inductive sem_event : Type := Posted | Taken.

Inductive action : Type :=
| Post
| Trywait
| Timedwait (timed : bool)
| Step (ev : kernel_event).

Definition goto (s : t) (id : Z) (p : pc) : t := mk (value s) (kernel s) (update (pcs s) id p).
Definition set_value (s : t) (v : Z) : t := mk v (kernel s) (pcs s).

Definition sem_init (value : Z) : outcome t :=
  if value >? SEM_VALUE_MAX then Err EINVAL else Ok (mk value (mk_futex None []) (fun _ => Idle None)).

(** The loop of [sem_post] for the value it has seen last, and its exchange. *)
Definition post_loop (s : t) (id v : Z) : t := goto s id (if v >=? SEM_VALUE_MAX then Idle (Some EOVERFLOW) else PostCas v).
Definition post_exchange (s : t) (id v : Z) : t * option sem_event :=
  if value s =? v then (goto (set_value s (u32 (v + 1))) id Posting, Some Posted) else (post_loop s id (value s), None).

(** The exchange by which a wait takes one; [retry] is what it does when another
    thread was faster. *)
Definition take_exchange (s : t) (id expected : Z) (retry : pc) : t * option sem_event :=
  if value s =? expected then (goto (set_value s (u32 (expected - 1))) id (Idle None), Some Taken) else (goto s id retry, None).

Definition trywait_loop (expected : Z) : pc := if expected =? 0 then Idle (Some EAGAIN) else TryCas expected.
Definition late_loop (expected : Z) : pc := if expected >? 0 then LateCas expected else Idle (Some ETIMEDOUT).

(** The start of an iteration of [sem_timedwait]. *)
Definition timedwait_load (s : t) (id : Z) (timed : bool) : t :=
  goto s id (if value s >? 0 then WaitCas timed (value s) else Waiting timed (Wait (value s) timed)).

(** What [sem_timedwait] does when the kernel returns. *)
Definition timedwait_back (timed : bool) (err : option errno) : pc :=
  match err with
  | None | Some EAGAIN => WaitLoad timed
  | Some ETIMEDOUT => LateLoad
  | Some e => Idle (Some e)
  end.

(** The threads that a call wakes. *)
Definition wake_threads (ids : list Z) (pcs : Z -> pc) : Z -> pc := fun id =>
  if bool_decide (id ∈ ids) then match pcs id with Waiting timed (Asleep k) => Waiting timed (Awake k) | p => p end else pcs id.

(** A step of the call [op] inside the kernel, for a thread at [c]; where it goes is
    [still] or [back]. *)
Definition in_kernel (s : t) (id : Z) (ev : kernel_event) (op c : futex_call) (still : futex_call -> pc) (back : option errno -> pc) : option (t * option sem_event) :=
  match Futex.futex id ev (value s) (kernel s) op c with
  | None => None
  | Some (k, p, woken) => Some (goto (mk (value s) k (wake_threads woken (pcs s))) id (match p with Still c => still c | Return r => back r end), None)
  end.

Definition exec (s : t) (id : Z) (a : action) : option (t * option sem_event) :=
  match pcs s id, a with
  | Idle _, Post => Some (post_loop s id (value s), None)
  | Idle _, Trywait => Some (goto s id (trywait_loop (value s)), None)
  | Idle _, Timedwait timed => Some (goto s id (WaitLoad timed), None)
  | PostCas v, Step Continue => Some (post_exchange s id v)
  | Posting, Step ev => in_kernel s id ev (Wake 1) (Wake 1) (fun _ => Posting) (fun _ => Idle None)
  | TryCas expected, Step Continue => Some (take_exchange s id expected (trywait_loop (value s)))
  | WaitLoad timed, Step Continue => Some (timedwait_load s id timed, None)
  | WaitCas timed expected, Step Continue => Some (take_exchange s id expected (WaitLoad timed))
  | Waiting timed c, Step ev => in_kernel s id ev (Wait 0 timed) c (Waiting timed) (timedwait_back timed)
  | LateLoad, Step Continue => Some (goto s id (late_loop (value s)), None)
  | LateCas expected, Step Continue => Some (take_exchange s id expected (late_loop (value s)))
  | _, _ => None
  end.

Fixpoint perform (s : t) (acts : list (Z * action)) : option (t * list sem_event) :=
  match acts with
  | [] => Some (s, [])
  | (id, a) :: acts =>
      match exec s id a with
      | Some (s, ev) => match perform s acts with Some (s, evs) => Some (s, option_list ev ++ evs) | None => None end
      | None => None
      end
  end.

(** ** Classes of threads *)
Definition sleeps (p : pc) : bool := match p with Waiting _ (Asleep _) => true | _ => false end.
Definition blocks (p : pc) : bool := match p with Waiting _ (Block _) => true | _ => false end.
Definition posting (p : pc) : bool := match p with Posting => true | _ => false end.

(** A thread that is about to wake a sleeper or to take one if there is one. *)
Definition contender (p : pc) : bool :=
  match p with
  | Posting | WaitLoad _ | WaitCas _ _ | Waiting _ (Wait _ _ | Awake _) | LateLoad | LateCas _ => true
  | _ => false
  end.

(** At least [n] threads are in the class [f]. *)
Definition at_least (f : pc -> bool) (ps : Z -> pc) (n : Z) : Prop :=
  exists l : list Z, NoDup l /\ (forall x, x ∈ l -> f (ps x) = true) /\ n <= Z.of_nat (length l).

Lemma at_least_none f ps n : n <= 0 -> at_least f ps n.
Proof. intros. exists []. split_and!; [constructor| |done]. intros x Hx. by apply not_elem_of_nil in Hx. Qed.

Lemma at_least_mono f g ps ps' n n' : (forall x, f (ps x) = true -> g (ps' x) = true) -> n' <= n -> at_least f ps n -> at_least g ps' n'.
Proof. intros Hf Hn (l & Hl & Hin & Hlen). exists l. split_and!; [done| |lia]. auto. Qed.

(** One thread leaves, stays in or joins the class. *)
Lemma at_least_leave f ps id p n : at_least f ps n -> at_least f (update ps id p) (n - 1).
Proof.
  intros (l & Hl & Hin & Hlen). assert (Hne : forall (l' : list Z) x, id ∉ l' -> (forall y, y ∈ l' -> f (ps y) = true) -> x ∈ l' -> f (update ps id p x) = true).
  { intros l' x Hn Hf Hx. rewrite update_ne; [auto|]. by intros ->. }
  destruct (decide (id ∈ l)) as [Hid|Hid]; [|exists l; split_and!; [done|by eauto|lia]].
  apply elem_of_Permutation in Hid as [l' HP]. rewrite HP in Hl, Hlen. apply list.NoDup_cons in Hl as [Hn Hl]. exists l'. split_and!; [done| |cbn in Hlen; lia].
  intros x. apply (Hne l'); [done|]. intros y Hy. apply Hin. rewrite HP. by right.
Qed.

Lemma at_least_stay f ps id p n : (f (ps id) = true -> f p = true) -> at_least f ps n -> at_least f (update ps id p) n.
Proof. intros Hf. apply at_least_mono; [|lia]. intros x Hx. rewrite (class_update f). case_decide; [subst; auto|done]. Qed.

Lemma at_least_join f ps id p n : f (ps id) = false -> f p = true -> at_least f ps n -> at_least f (update ps id p) (n + 1).
Proof.
  intros Hid Hp (l & Hl & Hin & Hlen). assert (Hn : id ∉ l) by (intros Hx; apply Hin in Hx; congruence). exists (id :: l). split_and!; [by apply list.NoDup_cons| |cbn; lia].
  intros x. rewrite elem_of_cons, (class_update f). intros [->|Hx]; [by rewrite decide_True|]. case_decide; auto.
Qed.

Lemma at_least_some f ps n : at_least f ps n -> 0 < n -> exists u, f (ps u) = true.
Proof. intros (l & _ & Hin & Hlen) Hn. destruct l as [|u l]; [cbn in Hlen; lia|]. exists u. apply Hin. left. Qed.

(** ** Invariant *)
Definition pc_ok (p : pc) : Prop :=
  match p with
  | PostCas v => 0 <= v < SEM_VALUE_MAX
  | TryCas expected | WaitCas _ expected | LateCas expected => 0 < expected
  | Waiting timed c => match c with Wait val k => k = timed /\ val = 0 | Block k | Asleep k | Awake k => k = timed | Wake _ => False end
  | _ => True
  end.

Record live (s : t) : Prop := {
  live_value : 0 <= value s <= SEM_VALUE_MAX;
  live_pcs id : pc_ok (pcs s id);
  live_chain id : id ∈ fx_chain (kernel s) <-> sleeps (pcs s id) = true;
  live_nodup : NoDup (fx_chain (kernel s));
  live_mutex id : fx_mutex (kernel s) = Some id <-> blocks (pcs s id) = true;
  live_block : fx_mutex (kernel s) <> None -> at_least posting (pcs s) (value s);
  live_sleep : fx_chain (kernel s) <> [] -> at_least contender (pcs s) (value s)
}.

(** A step outside the kernel. *)
Definition outside (p : pc) : Prop := sleeps p = false /\ blocks p = false.

Lemma sem_live_goto s id p v : live s -> outside (pcs s id) -> outside p -> pc_ok p -> 0 <= v <= SEM_VALUE_MAX ->
  (at_least posting (pcs s) (value s) -> at_least posting (update (pcs s) id p) v) ->
  (at_least contender (pcs s) (value s) -> at_least contender (update (pcs s) id p) v) ->
  live (mk v (kernel s) (update (pcs s) id p)).
Proof.
  intros [H0 H1 H2 H7 H3 H5 H6] [Ho1 Ho2] [Hp1 Hp2] Hok Hv Hpost Hcon. split; cbn; auto.
  - intros x. destruct (decide (x = id)) as [->|]; [by rewrite update_eq|by rewrite update_ne].
  - intros x. rewrite H2, (class_update sleeps). case_decide; [subst; by rewrite Ho1, Hp1|done].
  - intros x. rewrite H3, (class_update blocks). case_decide; [subst; by rewrite Ho2, Hp2|done].
Qed.

(** The value stays, or there is nothing to take. *)
Lemma live_move s id p : live s -> outside (pcs s id) -> outside p -> pc_ok p -> posting (pcs s id) = false ->
  value s <= 0 \/ (contender (pcs s id) = true -> contender p = true) -> live (goto s id p).
Proof.
  intros HL Ho Hp Hok Hpost Hc. apply sem_live_goto; try done; [apply HL|by apply at_least_stay; rewrite Hpost|]. destruct Hc as [Hz|Hc]; [intros _; by apply at_least_none|by apply at_least_stay].
Qed.

Lemma live_take s id expected retry : live s -> outside (pcs s id) -> outside retry -> pc_ok retry -> posting (pcs s id) = false -> 0 < expected ->
  value s <= 0 \/ (contender (pcs s id) = true -> contender retry = true) -> live (take_exchange s id expected retry).1.
Proof.
  intros HL Ho Hr Hok Hpost He Hc. pose proof (live_value s HL) as Hv. unfold SEM_VALUE_MAX in Hv. unfold take_exchange. destruct (Z.eqb_spec (value s) expected) as [Ev|]; cbn [fst]; [|by apply live_move].
  apply (sem_live_goto s); try done; cbn [value set_value]; rewrite wrap_id by lia; [unfold SEM_VALUE_MAX; lia| |rewrite <- Ev; apply at_least_leave].
  intros Ha. eapply at_least_mono; [by intros x Hx|..|apply (at_least_stay posting (pcs s) id); [by rewrite Hpost|exact Ha]]. lia.
Qed.

Lemma live_post s id v : live s -> pcs s id = PostCas v -> live (post_exchange s id v).1.
Proof.
  intros HL Ep. pose proof (live_value s HL) as Hv. pose proof (live_pcs s HL id) as Hok. rewrite Ep in Hok. cbn in Hok. unfold post_exchange, SEM_VALUE_MAX in *. destruct (Z.eqb_spec (value s) v) as [Ev|]; cbn [fst].
  - apply (sem_live_goto s); try done; cbn [value set_value]; [by rewrite Ep|rewrite wrap_id by lia; unfold SEM_VALUE_MAX; lia| |]; rewrite wrap_id by lia; rewrite <- Ev; apply at_least_join; by rewrite ?Ep.
  - unfold post_loop. apply live_move; try done; rewrite ?Ep; try done; [| |by right]; unfold SEM_VALUE_MAX; destruct (Z.geb_spec (value s) 32767); try done. cbn. unfold SEM_VALUE_MAX. lia.
Qed.

Lemma sem_wake_nobody ps x : wake_threads [] ps x = ps x.
Proof. unfold wake_threads. by rewrite bool_decide_eq_false_2 by apply not_elem_of_nil. Qed.

(** A step in the kernel that wakes nobody. *)
Lemma sem_live_kernel s id p k : live s -> pc_ok p -> posting (pcs s id) = false ->
  (forall x, x ∈ fx_chain k <-> if decide (x = id) then sleeps p = true else x ∈ fx_chain (kernel s)) ->
  (forall x, fx_mutex k = Some x <-> if decide (x = id) then blocks p = true else fx_mutex (kernel s) = Some x) ->
  NoDup (fx_chain k) ->
  (blocks p = true -> value s <= 0) ->
  value s <= 0 \/ (contender (pcs s id) = true -> contender p = true) ->
  (sleeps p = true -> blocks (pcs s id) = true) ->
  live (goto (mk (value s) k (wake_threads [] (pcs s))) id p).
Proof.
  intros [H0 H1 H2 H7 H3 H5 H6] Hok Hpost Hch Hmx Hnd Hb Hcon Hsl.
  assert (Hup : forall f n, at_least f (update (pcs s) id p) n -> at_least f (update (wake_threads [] (pcs s)) id p) n).
  { intros f n. apply at_least_mono; [|lia]. intros x. by rewrite !(class_update f), sem_wake_nobody. }
  split; cbn; [done| | |done| | |].
  - intros x. destruct (decide (x = id)) as [->|]; [by rewrite update_eq|by rewrite update_ne, sem_wake_nobody].
  - intros x. rewrite Hch, (class_update sleeps), sem_wake_nobody. case_decide; [done|apply H2].
  - intros x. rewrite Hmx, (class_update blocks), sem_wake_nobody. case_decide; [done|apply H3].
  - intros Hm. apply Hup. apply not_eq_None_Some in Hm as [x Hx]. apply Hmx in Hx. case_decide; [apply at_least_none; auto|].
    apply at_least_stay; [by rewrite Hpost|]. apply H5. by rewrite Hx.
  - intros Hne. apply Hup. destruct (sleeps p) eqn:Es.
    + eapply (at_least_mono posting contender (update (pcs s) id p)); [intros x; by destruct (update _ _ _ x)|reflexivity|]. apply at_least_stay; [by rewrite Hpost|]. apply H5. by rewrite (proj2 (H3 id) (Hsl eq_refl)).
    + destruct Hcon as [Hz|Hcon]; [by apply at_least_none|]. apply at_least_stay; [done|]. apply H6. intros E. apply Hne, elem_of_nil_inv. intros x Hx. apply Hch in Hx.
      case_decide; [done|]. rewrite E in Hx. by apply not_elem_of_nil in Hx.
Qed.

(** The steps of a thread that waits in the kernel. *)
Lemma sem_live_waiting s id ev timed c s' e : live s -> pcs s id = Waiting timed c -> (forall e, ev <> Failure e) ->
  in_kernel s id ev (Wait 0 timed) c (Waiting timed) (timedwait_back timed) = Some (s', e) -> live s'.
Proof.
  intros HL Ep Hev. pose proof (live_pcs s HL id) as Hok. pose proof (live_chain s HL id) as Hch. pose proof (live_mutex s HL id) as Hmx. pose proof (live_nodup s HL) as Hnd. pose proof (live_value s HL) as Hv. rewrite Ep in Hok, Hch, Hmx.
  unfold in_kernel, Futex.futex.
  assert (Hgo : forall p k, pc_ok p ->
    (forall x, x ∈ fx_chain k <-> if decide (x = id) then sleeps p = true else x ∈ fx_chain (kernel s)) ->
    (forall x, fx_mutex k = Some x <-> if decide (x = id) then blocks p = true else fx_mutex (kernel s) = Some x) -> NoDup (fx_chain k) ->
    (blocks p = true -> value s <= 0) -> value s <= 0 \/ (contender (Waiting timed c) = true -> contender p = true) -> (sleeps p = true -> blocks (Waiting timed c) = true) ->
    live (goto (mk (value s) k (wake_threads [] (pcs s))) id p)) by (intros; apply sem_live_kernel; rewrite ?Ep; done).
  assert (Hsame : forall p, outside p -> pc_ok p -> contender p = true -> outside (Waiting timed c) ->
    live (goto (mk (value s) (kernel s) (wake_threads [] (pcs s))) id p)).
  { intros p [Hs Hb] Hp Hr [Hs' Hb']. rewrite Hs' in Hch. rewrite Hb' in Hmx. apply Hgo; rewrite ?Hs, ?Hb; try done; [intros x; case_decide; subst; done..|by right]. }
  destruct c as [val k|k|k|k|n]; cbn in Hok; [destruct Hok as [-> ->]|subst k|subst k|subst k|done].
  - destruct ev as [| | |err]; cbn; try done; [|by destruct (Hev err)].
    destruct (fx_mutex (kernel s)) as [y|] eqn:Em; [done|]. destruct (Z.eqb_spec (value s) 0) as [Ev|]; cbn; intros [= <-]; [|by apply Hsame].
    apply Hgo; try done; cbn; [intros x; case_decide; subst; done| |lia|left; lia]. intros x. case_decide; [by subst|]. split; [intros [= ?]; congruence|done].
  - assert (Hm : fx_mutex (kernel s) = Some id) by (by apply Hmx).
    assert (Hnone : forall x, None = Some x <-> if decide (x = id) then false = true else fx_mutex (kernel s) = Some x) by (intros x; rewrite Hm; case_decide; [done|]; split; [done|intros [= ?]; congruence]).
    assert (Hni : id ∉ fx_chain (kernel s)) by (by rewrite Hch).
    assert (Hback : forall p, outside p -> pc_ok p -> live (goto (mk (value s) (mk_futex None (fx_chain (kernel s))) (wake_threads [] (pcs s))) id p)).
    { intros p [Hs Hb] Hp. apply Hgo; rewrite ?Hs, ?Hb; try done; [|by right]. intros x. cbn. case_decide; [by subst|done]. }
    destruct ev, timed; cbn; try done; intros [= <-]; try by apply Hback.
    all: apply Hgo; try done; cbn; [|by apply list.NoDup_cons|by right]; intros x; rewrite elem_of_cons; case_decide; [subst; split; auto|]; split; [by intros [?|?]|auto].
  - assert (Hmx' : forall x, fx_mutex (kernel s) = Some x <-> if decide (x = id) then false = true else fx_mutex (kernel s) = Some x) by (intros x; case_decide; [by subst|done]).
    destruct ev, timed; cbn; try done; intros [= <-]; apply Hgo; try done; cbn; try (by apply list.NoDup_filter); try (by right).
    all: intros x; rewrite list_elem_of_filter; case_decide; [subst; split; [by intros []|done]|]; split; [by intros []|done].
  - unfold sys_futex. destruct (fx_mutex (kernel s)) as [y|]; [done|]. destruct ev, timed; try done; intros [= <-]; by apply Hsame.
Qed.

(** A post wakes the thread that went to sleep last. *)
Lemma wake_first h ps timed k x : ps h = Waiting timed (Asleep k) -> wake_threads [h] ps x = update ps h (Waiting timed (Awake k)) x.
Proof.
  intros Hh. unfold wake_threads. destruct (decide (x = h)) as [->|Hne]; [rewrite update_eq, bool_decide_eq_true_2 by left; by rewrite Hh|].
  rewrite update_ne by done. by rewrite bool_decide_eq_false_2 by (rewrite list_elem_of_singleton; done).
Qed.

Lemma live_wake_first s id h tl timed k : live s -> pcs s id = Posting -> fx_mutex (kernel s) = None -> fx_chain (kernel s) = h :: tl -> pcs s h = Waiting timed (Asleep k) ->
  live (goto (mk (value s) (mk_futex None tl) (wake_threads [h] (pcs s))) id (Idle None)).
Proof.
  intros [H0 H1 H2 H7 H3 H5 H6] Ep Em Ech Eh. rewrite Ech in H2, H7, H6. assert (Hne : h <> id) by congruence. apply list.NoDup_cons in H7 as [Hh H7].
  assert (Hclass : forall {B} (f : pc -> B) x, f (update (wake_threads [h] (pcs s)) id (Idle None) x) = if decide (x = id) then f (Idle None) else if decide (x = h) then f (Waiting timed (Awake k)) else f (pcs s x)).
  { intros B f x. by rewrite (class_update f), (wake_first h _ timed k x Eh), (class_update f). }
  split; cbn; try done.
  - intros x. pose proof (H1 h) as Hok. rewrite Eh in Hok. specialize (Hclass Prop pc_ok x). rewrite Hclass. repeat case_decide; done.
  - intros x. rewrite Hclass. specialize (H2 x). rewrite elem_of_cons in H2. repeat case_decide; subst.
    + rewrite Ep in H2. split; [intros Hx; apply H2; by right|done].
    + done.
    + rewrite <- H2. split; [by right|by intros [?|?]].
  - intros x. rewrite Hclass, <- Em, H3. repeat case_decide; subst; [by rewrite Ep|by rewrite Eh|done].
  - intros _. specialize (H6 ltac:(done)). apply (at_least_leave _ _ id (Idle None)) in H6. apply (at_least_join _ _ h (Waiting timed (Awake k))) in H6; [|by rewrite update_ne, Eh|done].
    eapply at_least_mono; [|..|exact H6]; [|lia]. intros x. rewrite Hclass, !(class_update contender). repeat case_decide; subst; done.
Qed.

Lemma sem_live_wake s id s' e : live s -> pcs s id = Posting -> in_kernel s id Continue (Wake 1) (Wake 1) (fun _ => Posting) (fun _ => Idle None) = Some (s', e) -> live s'.
Proof.
  intros HL Ep. unfold in_kernel, Futex.futex, sys_futex. destruct (fx_mutex (kernel s)) as [y|] eqn:Em; [done|]. intros [= <- _].
  destruct (fx_chain (kernel s)) as [|h tl] eqn:Ech.
  - pose proof HL as [H0 H1 H2 H7 H3 H5 H6]. rewrite Ech in H2. rewrite Em in H3. split; cbn; try done.
    + intros x. destruct (decide (x = id)) as [->|]; [by rewrite update_eq|by rewrite update_ne, sem_wake_nobody].
    + intros x. rewrite (class_update sleeps), sem_wake_nobody. case_decide; [subst; rewrite elem_of_nil; done|apply H2].
    + constructor.
    + intros x. rewrite (class_update blocks), sem_wake_nobody. case_decide; [done|apply H3].
  - assert (Hs : sleeps (pcs s h) = true) by (apply HL; rewrite Ech; left). destruct (pcs s h) as [| | | | | |timed [| |k| |]| |] eqn:Eh; try done.
    by eapply live_wake_first.
Qed.

(** ** Reachable states *)
Definition no_failure (a : action) : Prop := match a with Step (Failure _) => False | _ => True end.

Lemma sem_live_init v s : 0 <= v -> sem_init v = Ok s -> live s.
Proof.
  unfold sem_init. destruct (Z.gtb_spec v SEM_VALUE_MAX); [done|]. intros ? [= <-]. split; cbn; try done.
  - intros id. split; [intros Hx; by apply not_elem_of_nil in Hx|done].
  - constructor.
Qed.

Lemma sem_live_exec s id a s' ev : live s -> no_failure a -> exec s id a = Some (s', ev) -> live s'.
Proof.
  intros HL Ha He. pose proof (live_value s HL) as Hv. pose proof (live_pcs s HL id) as Hok. unfold exec in He.
  assert (Hmove : forall p, outside (pcs s id) -> outside p -> pc_ok p -> posting (pcs s id) = false -> value s <= 0 \/ (contender (pcs s id) = true -> contender p = true) -> live (goto s id p)) by (intros; by apply live_move).
  assert (Htry : outside (trywait_loop (value s)) /\ pc_ok (trywait_loop (value s))) by (unfold trywait_loop; destruct (Z.eqb_spec (value s) 0); cbn; (split; [done|cbn; lia || done])).
  assert (Hlate : outside (late_loop (value s)) /\ pc_ok (late_loop (value s)) /\ (value s <= 0 \/ contender (late_loop (value s)) = true))
    by (unfold late_loop; destruct (Z.gtb_spec (value s) 0); (split_and!; [done|cbn; lia || done|auto])).
  destruct (pcs s id) as [ret|v| |expected|timed|timed expected|timed c| |expected] eqn:Ep.
  - destruct a as [| | |]; simplify_eq.
    + unfold post_loop. destruct (Z.geb_spec (value s) SEM_VALUE_MAX); apply Hmove; try done; [by right| |by right]. cbn. lia.
    + destruct Htry. apply Hmove; try done. by right.
    + apply Hmove; try done. by right.
  - destruct a as [| | |[]]; simplify_eq. pose proof (live_post s id v HL Ep) as Hp. by destruct (post_exchange s id v); simplify_eq.
  - destruct a as [| | |[]]; try done. by eapply sem_live_wake.
  - destruct a as [| | |[]]; simplify_eq. destruct Htry. pose proof (live_take s id expected (trywait_loop (value s)) HL) as Hp. rewrite Ep in Hp. specialize (Hp ltac:(done) ltac:(done) ltac:(done) ltac:(done) Hok ltac:(by right)).
    by destruct (take_exchange _ _ _ _); simplify_eq.
  - destruct a as [| | |[]]; simplify_eq. unfold timedwait_load. destruct (Z.gtb_spec (value s) 0); apply Hmove; try done; [by right|cbn; split; [done|lia]|by left].
  - destruct a as [| | |[]]; simplify_eq. pose proof (live_take s id expected (WaitLoad timed) HL) as Hp. rewrite Ep in Hp. specialize (Hp ltac:(done) ltac:(done) ltac:(done) ltac:(done) Hok ltac:(by right)).
    by destruct (take_exchange _ _ _ _); simplify_eq.
  - destruct a as [| | |ev']; simplify_eq. eapply sem_live_waiting; [exact HL|exact Ep| |exact He]. intros e ->. done.
  - destruct a as [| | |[]]; simplify_eq. destruct Hlate as (? & ? & Hl). apply Hmove; try done. destruct Hl; auto.
  - destruct a as [| | |[]]; simplify_eq. destruct Hlate as (? & ? & Hl). pose proof (live_take s id expected (late_loop (value s)) HL) as Hp. rewrite Ep in Hp. specialize (Hp ltac:(done) ltac:(done) ltac:(done) ltac:(done) Hok ltac:(destruct Hl; auto)).
    by destruct (take_exchange _ _ _ _); simplify_eq.
Qed.

Lemma live_perform s acts s' evs : live s -> Forall (fun a => no_failure a.2) acts -> perform s acts = Some (s', evs) -> live s'.
Proof.
  revert s evs. induction acts as [|[id a] acts IH]; intros s evs HL Ha Hp; cbn in *; [by simplify_eq|]. apply Forall_cons_1 in Ha as [Ha Has].
  destruct (exec s id a) as [[s1 ev]|] eqn:He; [|done]. destruct (perform s1 acts) as [[s2 evs2]|] eqn:E2; simplify_eq. eapply IH; [|done|exact E2]. by eapply sem_live_exec.
Qed.

(** ** Accounting *)
Fixpoint balance (evs : list sem_event) : Z :=
  match evs with [] => 0 | Posted :: evs => 1 + balance evs | Taken :: evs => - 1 + balance evs end.

Lemma balance_app evs evs' : balance (evs ++ evs') = balance evs + balance evs'.
Proof. induction evs as [|[] evs IH]; cbn; lia. Qed.

(** What every step keeps, also if calls of the kernel fail. *)
Definition range_ok (p : pc) : Prop :=
  match p with PostCas v => 0 <= v < SEM_VALUE_MAX | TryCas e | WaitCas _ e | LateCas e => 0 < e | _ => True end.

Record counted (s : t) : Prop := {
  counted_value : 0 <= value s <= SEM_VALUE_MAX;
  counted_pcs id : range_ok (pcs s id)
}.

Lemma counted_goto s id p v : counted s -> 0 <= v <= SEM_VALUE_MAX -> range_ok p -> counted (goto (set_value s v) id p).
Proof. intros [H1 H2] Hv Hp. split; cbn; [done|]. intros x. destruct (decide (x = id)) as [->|]; [by rewrite update_eq|by rewrite update_ne]. Qed.

Lemma counted_in_kernel s id ev op c still back s' e : counted s -> (forall c, range_ok (still c)) -> (forall r, range_ok (back r)) -> in_kernel s id ev op c still back = Some (s', e) ->
  counted s' /\ value s' = value s /\ e = None.
Proof.
  intros Hc Hs Hb. unfold in_kernel. destruct (Futex.futex _ _ _ _ _ _) as [[[k p] woken]|]; [|done]. intros [= <- <-]. split_and!; [|done|done].
  apply (counted_goto (mk (value s) k (wake_threads woken (pcs s))) id _ (value s)); [|apply Hc|by destruct p]. destruct Hc as [H1 H2]. split; [done|]. intros x. cbn. specialize (H2 x).
  unfold wake_threads. destruct (bool_decide _); [|done]. by destruct (pcs s x) as [| | | | | |timed []| |].
Qed.

Lemma counted_take s id expected retry s' e : counted s -> 0 < expected -> range_ok retry -> take_exchange s id expected retry = (s', e) -> counted s' /\ value s' = value s + balance (option_list e).
Proof.
  intros Hc He Hr. pose proof (counted_value s Hc) as Hv. unfold SEM_VALUE_MAX in Hv. unfold take_exchange. destruct (Z.eqb_spec (value s) expected) as [Ev|]; intros [= <- <-].
  - rewrite wrap_id by lia. split; [apply counted_goto; try done; unfold SEM_VALUE_MAX; lia|cbn; lia].
  - split; [|cbn; lia]. by apply (counted_goto s id retry (value s)).
Qed.

Lemma counted_exec s id a s' e : counted s -> exec s id a = Some (s', e) -> counted s' /\ value s' = value s + balance (option_list e).
Proof.
  intros Hc He. pose proof (counted_value s Hc) as Hv. pose proof (counted_pcs s Hc id) as Hok. unfold exec in He.
  assert (Hgo : forall p, range_ok p -> counted (goto s id p) /\ value (goto s id p) = value s + balance (option_list None)) by (intros p Hp; split; [by apply (counted_goto s id p (value s))|cbn; lia]).
  assert (Htry : range_ok (trywait_loop (value s))) by (unfold trywait_loop; destruct (Z.eqb_spec (value s) 0); cbn; lia || done).
  assert (Hlate : range_ok (late_loop (value s))) by (unfold late_loop; destruct (Z.gtb_spec (value s) 0); cbn; lia || done).
  assert (Hpost : range_ok (if value s >=? SEM_VALUE_MAX then Idle (Some EOVERFLOW) else PostCas (value s))) by (destruct (Z.geb_spec (value s) SEM_VALUE_MAX); cbn; lia || done).
  assert (Hkernel : forall ev op c still back, (forall c, range_ok (still c)) -> (forall r, range_ok (back r)) -> in_kernel s id ev op c still back = Some (s', e) -> counted s' /\ value s' = value s + balance (option_list e)).
  { intros ev op c still back Hs Hb Hk. destruct (counted_in_kernel s id ev op c still back s' e) as (? & ? & ->); try done. split; [done|cbn; lia]. }
  destruct (pcs s id) as [ret|v| |expected|timed|timed expected|timed c| |expected] eqn:Ep, a as [| |timed'|[]]; simplify_eq; try (by apply Hgo); try (by eapply Hkernel; [| |exact He]); try (by eapply counted_take; [exact Hc| | |exact He]).
  all: try (by eapply Hkernel; [| |exact He]; [done|intros [[]|]]).
  - unfold post_exchange, SEM_VALUE_MAX in *. cbn in Hok. unfold SEM_VALUE_MAX in Hok. destruct (Z.eqb_spec (value s) v) as [Ev|]; simplify_eq; [|by apply Hgo].
    rewrite wrap_id by lia. split; [apply counted_goto; try done; unfold SEM_VALUE_MAX; lia|cbn; lia].
  - apply Hgo. destruct (Z.gtb_spec (value s) 0); cbn; lia || done.
Qed.

Lemma counted_perform s acts s' evs : counted s -> perform s acts = Some (s', evs) -> counted s' /\ value s' = value s + balance evs.
Proof.
  revert s evs. induction acts as [|[id a] acts IH]; intros s evs Hc Hp; cbn in Hp; [simplify_eq; cbn; split; [done|lia]|].
  destruct (exec s id a) as [[s1 ev]|] eqn:He; [|done]. destruct (perform s1 acts) as [[s2 evs2]|] eqn:E2; simplify_eq.
  destruct (counted_exec s id a s1 ev Hc He) as [Hc1 E1]. destruct (IH s1 evs2 Hc1 E2) as [Hc2 Ev2]. split; [done|]. rewrite balance_app. lia.
Qed.

Lemma counted_init v s : 0 <= v -> sem_init v = Ok s -> counted s /\ value s = v.
Proof. unfold sem_init. destruct (Z.gtb_spec v SEM_VALUE_MAX); [done|]. intros ? [= <-]. done. Qed.

(** The value at the moment when a call gives up. *)
Definition refusal (e : errno) : Z := match e with EOVERFLOW => SEM_VALUE_MAX | _ => 0 end.

Lemma exec_refuses s id a s' ev e : counted s -> no_failure a -> exec s id a = Some (s', ev) -> pcs s' id = Idle (Some e) -> value s = refusal e.
Proof.
  intros Hc Ha He Hp. pose proof (counted_value s Hc) as Hv. unfold exec in He.
  assert (Hpost : pcs (post_loop s id (value s)) id = Idle (Some e) -> value s = refusal e).
  { unfold post_loop. cbn. rewrite update_eq. destruct (Z.geb_spec (value s) SEM_VALUE_MAX); intros [= <-]. cbn. lia. }
  assert (Htry : trywait_loop (value s) = Idle (Some e) -> value s = refusal e) by (unfold trywait_loop; destruct (Z.eqb_spec (value s) 0); intros [= <-]; done).
  assert (Hlate : late_loop (value s) = Idle (Some e) -> value s = refusal e) by (unfold late_loop; destruct (Z.gtb_spec (value s) 0); intros [= <-]; cbn; lia).
  assert (Htake : forall expected retry, take_exchange s id expected retry = (s', ev) -> retry = Idle (Some e)).
  { intros expected retry. unfold take_exchange. destruct (_ =? _); intros [= <- <-]; cbn in Hp; rewrite update_eq in Hp; by simplify_eq. }
  destruct (pcs s id) as [ret|v| |expected|timed|timed expected|timed c| |expected] eqn:Ep.
  - destruct a as [| |timed'|]; simplify_eq; cbn in Hp; auto; rewrite update_eq in Hp; auto. done.
  - destruct a as [| |timed'|[]]; simplify_eq. unfold post_exchange in He. destruct (_ =? _); simplify_eq; auto. cbn in Hp. by rewrite update_eq in Hp.
  - destruct a as [| |timed'|ev']; simplify_eq. unfold in_kernel in He. repeat case_match; simplify_eq; cbn in Hp; by rewrite update_eq in Hp.
  - destruct a as [| |timed'|[]]; simplify_eq. eauto.
  - destruct a as [| |timed'|[]]; simplify_eq. cbn in Hp. rewrite update_eq in Hp. by destruct (_ >? _).
  - destruct a as [| |timed'|[]]; simplify_eq. by apply Htake in He.
  - destruct a as [| |timed'|ev']; simplify_eq. unfold in_kernel in He. destruct (Futex.futex _ _ _ _ _ _) as [[[k [c'|r]] woken]|] eqn:Ef; simplify_eq; cbn in Hp; rewrite update_eq in Hp; [done|].
    apply futex_errors in Ef as [->|[->| ->]]; [done..|]. intros e' ->. done.
  - destruct a as [| |timed'|[]]; simplify_eq. cbn in Hp. rewrite update_eq in Hp. auto.
  - destruct a as [| |timed'|[]]; simplify_eq. eauto.
Qed.

(** ** Progress *)

(** The threads continue in the given order. *)
Definition continue (ids : list Z) : list (Z * action) := (fun id => (id, Step Continue)) <$> ids.

(** The threads [ids] lead [s] to a state where one of them has taken one. *)
Definition succeeds (s : t) (ids : list Z) : Prop := exists s', perform s (continue ids) = Some (s', [Taken]).

Lemma succeeds_step s id ids s1 : exec s id (Step Continue) = Some (s1, None) -> succeeds s1 ids -> succeeds s (id :: ids).
Proof. intros He [s' Hs]. exists s'. change (continue (id :: ids)) with ((id, Step Continue) :: continue ids). cbn [perform]. by rewrite He, Hs. Qed.

Lemma succeeds_take s u : (exists timed, pcs s u = WaitCas timed (value s)) \/ pcs s u = LateCas (value s) -> succeeds s [u].
Proof. intros Hu. eexists. cbn. unfold exec, take_exchange. destruct Hu as [[timed ->]| ->]; rewrite Z.eqb_refl; reflexivity. Qed.

Lemma succeeds_load s u timed : 0 < value s -> pcs s u = WaitLoad timed -> succeeds s [u; u].
Proof.
  intros Hv Hp. eapply succeeds_step; [unfold exec; by rewrite Hp|]. apply succeeds_take. left. exists timed. cbn. rewrite update_eq. by destruct (Z.gtb_spec (value s) 0); [|lia].
Qed.

Lemma succeeds_late s u : 0 < value s -> pcs s u = LateLoad \/ (exists e, pcs s u = LateCas e /\ e <> value s) -> succeeds s [u; u].
Proof.
  intros Hv Hp. assert (He : exec s u (Step Continue) = Some (goto s u (late_loop (value s)), None)).
  { unfold exec, take_exchange. destruct Hp as [->|(e & -> & Hne)]; [done|]. by rewrite (proj2 (Z.eqb_neq (value s) e)) by auto. }
  eapply succeeds_step; [exact He|]. apply succeeds_take. right. cbn. rewrite update_eq. unfold late_loop. by destruct (Z.gtb_spec (value s) 0); [|lia].
Qed.

Lemma succeeds_waiting s u timed c : live s -> 0 < value s -> fx_mutex (kernel s) = None -> pcs s u = Waiting timed c -> contender (Waiting timed c) = true -> succeeds s [u; u; u].
Proof.
  intros HL Hv Hm Hp Hc. pose proof (live_pcs s HL u) as Hok. rewrite Hp in Hok.
  assert (exists s1, exec s u (Step Continue) = Some (s1, None) /\ value s1 = value s /\ pcs s1 u = WaitLoad timed) as (s1 & He & Hv1 & Hp1).
  { unfold exec, in_kernel, Futex.futex, sys_futex. rewrite Hp, Hm. destruct c as [val k| | |k|]; try done.
    - destruct Hok as [_ ->]. rewrite (proj2 (Z.eqb_neq (value s) 0)) by lia. eexists. split_and!; [reflexivity|done|cbn; by rewrite update_eq].
    - eexists. split_and!; [reflexivity|done|cbn; by rewrite update_eq]. }
  eapply succeeds_step; [exact He|]. eapply succeeds_load; [lia|exact Hp1].
Qed.

Lemma succeeds_wake s u h tl : live s -> 0 < value s -> fx_mutex (kernel s) = None -> fx_chain (kernel s) = h :: tl -> pcs s u = Posting -> succeeds s [u; h; h; h].
Proof.
  intros HL Hv Hm Hch Hp. assert (Hs : sleeps (pcs s h) = true) by (apply HL; rewrite Hch; left). destruct (pcs s h) as [| | | | | |timed [| |k| |]| |] eqn:Eh; try done.
  assert (He : exec s u (Step Continue) = Some (goto (mk (value s) (mk_futex None tl) (wake_threads [h] (pcs s))) u (Idle None), None)).
  { unfold exec, in_kernel, Futex.futex, sys_futex. by rewrite Hp, Hm, Hch. }
  eapply succeeds_step; [exact He|]. eapply (succeeds_waiting _ _ timed (Awake k)); [|done|done| |done]; [by eapply live_wake_first|]. cbn. rewrite update_ne by congruence.
  rewrite (wake_first h _ timed k h Eh). by rewrite update_eq.
Qed.

(** The thread that holds the mutex of the futex goes to sleep. *)
Lemma sem_block_continues s b : live s -> fx_mutex (kernel s) = Some b ->
  exists s1, exec s b (Step Continue) = Some (s1, None) /\ live s1 /\ value s1 = value s /\ fx_mutex (kernel s1) = None /\ fx_chain (kernel s1) <> [].
Proof.
  intros HL Hb. pose proof (proj1 (live_mutex s HL b) Hb) as Hbl. destruct (pcs s b) as [| | | | | |timed [|k| | |]| |] eqn:Ep; try done.
  assert (exists s1, exec s b (Step Continue) = Some (s1, None) /\ value s1 = value s /\ fx_mutex (kernel s1) = None /\ fx_chain (kernel s1) <> []) as (s1 & He & H1 & H2 & H3).
  { unfold exec, in_kernel, Futex.futex, sys_futex. rewrite Ep. destruct k; eexists; by split_and!. }
  exists s1. split_and!; try done. by eapply sem_live_exec; [exact HL| |exact He].
Qed.

Lemma contender_succeeds s u : live s -> 0 < value s -> fx_mutex (kernel s) = None -> fx_chain (kernel s) <> [] -> contender (pcs s u) = true -> exists ids, (length ids <= 4)%nat /\ succeeds s ids.
Proof.
  intros HL Hv Hm Hch Hu. destruct (fx_chain (kernel s)) as [|h tl] eqn:Ech; [done|].
  destruct (pcs s u) as [| | | |timed|timed expected|timed c| |expected] eqn:Ep; try done.
  - exists [u; h; h; h]. split; [cbn; lia|by eapply succeeds_wake].
  - exists [u; u]. split; [cbn; lia|by eapply succeeds_load].
  - destruct (decide (expected = value s)) as [->|Hne]; [exists [u]; split; [cbn; lia|apply succeeds_take; eauto]|].
    exists [u; u; u]. split; [cbn; lia|]. assert (He : exec s u (Step Continue) = Some (goto s u (WaitLoad timed), None)).
    { unfold exec, take_exchange. rewrite Ep. by rewrite (proj2 (Z.eqb_neq (value s) expected)) by auto. }
    eapply succeeds_step; [exact He|]. eapply succeeds_load; [done|]. cbn. by rewrite update_eq.
  - exists [u; u; u]. split; [cbn; lia|]. by eapply succeeds_waiting.
  - exists [u; u]. split; [cbn; lia|]. apply succeeds_late; auto.
  - destruct (decide (expected = value s)) as [->|Hne]; [exists [u]; split; [cbn; lia|apply succeeds_take; eauto]|].
    exists [u; u]. split; [cbn; lia|]. apply succeeds_late; eauto.
Qed.

(** ** Theorems *)

(** C20: The value of a semaphore is its initial value plus the posts minus the waits that
    succeeded, in every interleaving and also when calls of the kernel fail; it stays
    between zero and SEM_VALUE_MAX.  A post is refused only at the maximum, and a wait
    that gives up does so at a moment when the value is zero. *)
Theorem semaphore_counts (v : Z) (s0 s : t) (acts : list (Z * action)) (evs : list sem_event)
  (Hv : 0 <= v) (Hinit : sem_init v = Ok s0) (Hrun : perform s0 acts = Some (s, evs)) :
  value s = v + balance evs /\ 0 <= value s <= SEM_VALUE_MAX /\
  forall id a s' ev e, no_failure a -> exec s id a = Some (s', ev) -> pcs s' id = Idle (Some e) -> value s = refusal e.
Proof.
  destruct (counted_init v s0 Hv Hinit) as [Hc0 <-]. destruct (counted_perform s0 acts s evs Hc0 Hrun) as [Hc Hval].
  split; [done|]. split; [apply Hc|]. intros id a s' ev e. by apply exec_refuses.
Qed.

(** C19: No wakeup is lost: whenever the value is positive while a thread sleeps, at most
    five steps of threads inside the library let one of them take one.  Deadlines
    that pass and signals are included. *)
Theorem semaphore_wakes (v : Z) (s0 s : t) (acts : list (Z * action)) (evs : list sem_event)
  (Hv : 0 <= v) (Hinit : sem_init v = Ok s0) (Hacts : Forall (fun a => no_failure a.2) acts) (Hrun : perform s0 acts = Some (s, evs))
  (Hpos : 0 < value s) (Hsleep : fx_chain (kernel s) <> []) :
  exists ids s', (length ids <= 5)%nat /\ perform s (continue ids) = Some (s', [Taken]).
Proof.
  assert (HL : live s) by (eapply live_perform; [by eapply sem_live_init|done|done]). destruct (fx_mutex (kernel s)) as [b|] eqn:Eb.
  - destruct (sem_block_continues s b HL Eb) as (s1 & He & HL1 & Ev & Em & Ech). destruct (at_least_some contender (pcs s1) (value s1)) as [u Hu]; [by apply HL1|lia|].
    destruct (contender_succeeds s1 u) as (ids & Hlen & Hs); [done|lia|done..|]. destruct (succeeds_step s b ids s1 He Hs) as [s' Hs']. exists (b :: ids), s'. split; [cbn; lia|done].
  - destruct (at_least_some contender (pcs s) (value s)) as [u Hu]; [by apply HL|done|]. destruct (contender_succeeds s u) as (ids & Hlen & s' & Hs); [done..|]. exists ids, s'. split; [lia|done].
Qed.

(** ** Examples *)
Definition steps (id : Z) (n : nat) : list (Z * action) := continue (repeat id n).

(** Thread 1 waits with a deadline and thread 2 without, and then thread 3 posts. *)
Definition demo_start : t := mk 0 (mk_futex None []) (fun _ => Idle None).
Definition demo : list (Z * action) := [(1, Timedwait true)] ++ steps 1 3 ++ [(2, Timedwait false)] ++ steps 2 3 ++ [(3, Post)] ++ steps 3 1.
Definition after (acts : list (Z * action)) : t := match perform demo_start acts with Some (s, _) => s | None => demo_start end.

Lemma sem_after_run acts evs : snd <$> perform demo_start acts = Some evs -> perform demo_start acts = Some (after acts, evs).
Proof. unfold after. destruct (perform demo_start acts) as [[s evs']|]; [|done]. by intros [= <-]. Qed.

(** The post and the wait of thread 2; then thread 1 gives up. *)
Definition demo_end : list (Z * action) := demo ++ steps 3 1 ++ steps 2 3 ++ [(1, Step Deadline); (1, Step Deadline)].

Lemma semaphore_counts_witness :
  value (after demo_end) = 0 + balance [Posted; Taken] /\ value (after demo_end) = refusal ETIMEDOUT.
Proof.
  pose proof (sem_after_run demo_end [Posted; Taken] ltac:(vm_compute; reflexivity)) as Hrun.
  destruct (semaphore_counts 0 demo_start (after demo_end) demo_end [Posted; Taken] ltac:(lia) eq_refl Hrun) as (Hval & _ & Href). split; [exact Hval|].
  eapply (Href 1 (Step Continue)); [done|vm_compute; reflexivity|vm_compute; reflexivity].
Defined.

Lemma semaphore_wakes_witness :
  value (after demo) = 1 /\ fx_chain (kernel (after demo)) = [2; 1] /\
  exists ids s', (length ids <= 5)%nat /\ perform (after demo) (continue ids) = Some (s', [Taken]).
Proof.
  assert (Hv : value (after demo) = 1) by (vm_compute; reflexivity). assert (Hc : fx_chain (kernel (after demo)) = [2; 1]) by (vm_compute; reflexivity). split_and!; [exact Hv|exact Hc|].
  apply (semaphore_wakes 0 demo_start (after demo) demo [Posted]); [lia|reflexivity| | |by rewrite Hv|by rewrite Hc].
  - vm_compute. repeat constructor.
  - apply sem_after_run. vm_compute. reflexivity.
Defined.
End Semaphore.
