(* ===== verification/Monitor.v ===== *)
(** * LibC/pthread: condition variables

    The reader-writer locks and the barriers of user programs keep their fields under
    a mutex and wait on a condition variable.  A monitor is what they share: a client
    runs its sections with the mutex held, and a section leaves, waits for a
    broadcast or broadcasts.  The mutex is the abstract lock that pthread mutexes
    refine; the condition variable is modelled at the grain of its atomic accesses,
    on top of the kernel's futexes, for threads that are not cancelled.  If a section
    that ends what a thread waits for broadcasts, no thread sleeps in vain. *)
From S2P Require Import Prelude LockSpec Futex.

(** ** The clients of a monitor *)

(** How a section ends. *)
Inductive verdict (S L R : Type) : Type :=
| Leave (s : S) (r : R)
| Sleep (s : S) (l : L)
| Broadcast (s : S) (r : R).
Arguments Leave {S L R} s r.
Arguments Sleep {S L R} s l.
Arguments Broadcast {S L R} s r.

(** The fields under the mutex, the requests, what a thread that waits remembers and
    the answers.  A section starts when the mutex has been taken, or when
    [pthread_cond_timedwait] returns. *)
Class MonitorClient : Type := {
  shared : Type;
  request : Type;
  local : Type;
  reply : Type;
  enter : request -> shared -> outcome (verdict shared local reply);
  resume : local -> option errno -> shared -> outcome (verdict shared local reply);
  has_deadline : local -> bool
}.

(** ** The monitor *)
Section monitor.
Context `{C : MonitorClient}.

(** The program point of a thread.  [Entered] to [Releasing], and [Resumed] to
    [Unlocking], hold the mutex. *)
Inductive pc : Type :=
| Idle (ret : option reply)
| Locking (q : request)
| Entered (q : request)
| LoadSeq (l : local)
| Releasing (l : local) (seq : Z)
| Checking (l : local) (seq : Z)
| Waiting (l : local) (seq : Z) (c : futex_call)
| Relocking (l : local) (err : option errno)
| Resumed (l : local) (err : option errno)
| Advancing (r : reply)
| WakingAll (r : reply)
| Unlocking (r : reply).

(** The fields, the holder of the mutex, the futex of the condition variable and
    what the kernel knows about it. *)
Record t : Type := mk { state : shared; lock : option Z; futex : Z; kernel : futex_t; pcs : Z -> pc }.

Inductive action : Type := Call (q : request) | Step (ev : kernel_event).

Definition goto (m : t) (id : Z) (p : pc) : t := mk (state m) (lock m) (futex m) (kernel m) (update (pcs m) id p).
Definition set_state (m : t) (s : shared) : t := mk s (lock m) (futex m) (kernel m) (pcs m).
Definition set_lock (m : t) (o : option Z) : t := mk (state m) o (futex m) (kernel m) (pcs m).
Definition set_futex (m : t) (v : Z) : t := mk (state m) (lock m) v (kernel m) (pcs m).

Definition new_monitor (s : shared) : t := mk s None 0 (mk_futex None []) (fun _ => Idle None).

Definition acquire (m : t) (id : Z) (p : pc) : option (outcome t) :=
  match lock m with None => Some (Ok (goto (set_lock m (Some id)) id p)) | Some _ => None end.

(** Where a thread goes when its section has ended. *)
Definition after_section (m : t) (id : Z) (v : verdict shared local reply) : t :=
  match v with
  | Leave s r => goto (set_state m s) id (Unlocking r)
  | Sleep s l => goto (set_state m s) id (LoadSeq l)
  | Broadcast s r => goto (set_state m s) id (Advancing r)
  end.

Definition run_section (m : t) (id : Z) (o : outcome (verdict shared local reply)) : outcome t :=
  let* v := o in Ok (after_section m id v).

(** The condition of the loop of [pthread_cond_timedwait]. *)
Definition check_seq (m : t) (id : Z) (l : local) (seq : Z) : t :=
  goto m id (if futex m =? seq then Waiting l seq (Wait seq (has_deadline l)) else Relocking l None).

(** What the loop does when the kernel returns. *)
Definition timedwait_back (l : local) (seq : Z) (err : option errno) : pc :=
  match err with None | Some EINTR | Some EAGAIN => Checking l seq | Some e => Relocking l (Some e) end.

(** The threads that a call wakes. *)
Definition wake_threads (ids : list Z) (ps : Z -> pc) : Z -> pc := fun id =>
  if bool_decide (id ∈ ids) then match ps id with Waiting l seq (Asleep k) => Waiting l seq (Awake k) | p => p end else ps id.

Definition in_kernel (m : t) (id : Z) (ev : kernel_event) (op c : futex_call) (still : futex_call -> pc) (back : option errno -> pc) : option (outcome t) :=
  match Futex.futex id ev (futex m) (kernel m) op c with
  | None => None
  | Some (k, p, woken) => Some (Ok (goto (mk (state m) (lock m) (futex m) k (wake_threads woken (pcs m))) id (match p with Still c => still c | Return r => back r end)))
  end.

(** A broadcast wakes up to 2^32 - 1 threads. *)
Definition everyone (m : t) : futex_call := Wake (Z.to_nat (Z.min (2 ^ 32 - 1) (Z.of_nat (length (fx_chain (kernel m)))))).

Definition exec (m : t) (id : Z) (a : action) : option (outcome t) :=
  match pcs m id, a with
  | Idle _, Call q => Some (Ok (goto m id (Locking q)))
  | Locking q, Step Continue => acquire m id (Entered q)
  | Entered q, Step Continue => Some (run_section m id (enter q (state m)))
  | LoadSeq l, Step Continue => Some (Ok (goto m id (Releasing l (futex m))))
  | Releasing l seq, Step Continue => Some (Ok (goto (set_lock m None) id (Checking l seq)))
  | Checking l seq, Step Continue => Some (Ok (check_seq m id l seq))
  | Waiting l seq c, Step ev => in_kernel m id ev (Wait seq (has_deadline l)) c (Waiting l seq) (timedwait_back l seq)
  | Relocking l err, Step Continue => acquire m id (Resumed l err)
  | Resumed l err, Step Continue => Some (run_section m id (resume l err (state m)))
  | Advancing r, Step Continue => Some (Ok (goto (set_futex m (u32 (futex m + 1))) id (WakingAll r)))
  | WakingAll r, Step ev => in_kernel m id ev (everyone m) (everyone m) (fun _ => WakingAll r) (fun _ => Unlocking r)
  | Unlocking r, Step Continue => Some (Ok (goto (set_lock m None) id (Idle (Some r))))
  | _, _ => None
  end.
End monitor.

(** ** What a client promises *)

(** [client_ok W s] is the invariant of the fields [s] while threads with the
    memories [W] wait, and [justified l s] is what such a thread waits for not to
    hold.  A section keeps the invariant, and unless it broadcasts it keeps every
    wait justified. *)
Definition verdict_ok `{C : MonitorClient} (client_ok : list local -> shared -> Prop) (justified : local -> shared -> Prop)
  (W : list local) (s : shared) (v : verdict shared local reply) : Prop :=
  match v with
  | Leave s' _ => client_ok W s' /\ forall l, l ∈ W -> justified l s -> justified l s'
  | Sleep s' l' => client_ok (l' :: W) s' /\ justified l' s' /\ forall l, l ∈ W -> justified l s -> justified l s'
  | Broadcast s' _ => client_ok W s'
  end.

Class MonitorLaws `{C : MonitorClient} : Type := {
  client_ok : list local -> shared -> Prop;
  justified : local -> shared -> Prop;
  may_enter : request -> shared -> Prop;
  may_resume : local -> shared -> Prop;
  client_ok_perm W W' s : W ≡ₚ W' -> client_ok W s -> client_ok W' s;
  enter_ok q W s : client_ok W s -> may_enter q s -> Z.of_nat (length W) + 1 < 2 ^ 32 ->
    exists v, enter q s = Ok v /\ verdict_ok client_ok justified W s v;
  resume_ok l err W s : client_ok (l :: W) s -> may_resume l s -> Z.of_nat (length W) + 1 < 2 ^ 32 ->
    exists v, resume l err s = Ok v /\ verdict_ok client_ok justified W s v
}.

(** ** The invariant of the monitor *)
Section invariant.
Context `{C : MonitorClient} `{!MonitorLaws}.

Definition holds_lock (p : pc) : bool :=
  match p with Entered _ | LoadSeq _ | Releasing _ _ | Resumed _ _ | Advancing _ | WakingAll _ | Unlocking _ => true | _ => false end.
Definition sleeps (p : pc) : bool := match p with Waiting _ _ (Asleep _) => true | _ => false end.
Definition blocks (p : pc) : bool := match p with Waiting _ _ (Block _) => true | _ => false end.
Definition waits (p : pc) : option local :=
  match p with LoadSeq l | Releasing l _ | Checking l _ | Waiting l _ _ | Relocking l _ | Resumed l _ => Some l | _ => None end.

(** The number a thread waits to change, until it has seen the change. *)
Definition expects (p : pc) : option (local * Z) :=
  match p with Releasing l seq | Checking l seq | Waiting l seq _ => Some (l, seq) | _ => None end.

Definition advancing (p : pc) : bool := match p with Advancing _ => true | _ => false end.
Definition waking (p : pc) : bool := match p with WakingAll _ => true | _ => false end.

Definition pc_ok (p : pc) : Prop :=
  match p with
  | Waiting l seq c =>
      match c with Wait val k => val = seq /\ k = has_deadline l | Block k | Asleep k | Awake k => k = has_deadline l | Wake _ => False end
  | _ => True
  end.

(** The threads that wait, with their memories. *)
Definition crowd (ps : Z -> pc) (W : list (Z * local)) : Prop :=
  NoDup W.*1 /\ Forall (fun id => 0 < id < 2 ^ 32) W.*1 /\ forall id l, (id, l) ∈ W <-> waits (ps id) = Some l.

Record monitor_ok (m : t) : Prop := {
  ok_lock id : lock m = Some id <-> holds_lock (pcs m id) = true;
  ok_futex : 0 <= futex m < 2 ^ 32;
  ok_pcs id : pc_ok (pcs m id);
  ok_chain id : id ∈ fx_chain (kernel m) <-> sleeps (pcs m id) = true;
  ok_nodup : NoDup (fx_chain (kernel m));
  ok_mutex id : fx_mutex (kernel m) = Some id <-> blocks (pcs m id) = true;
  ok_client : exists W, crowd (pcs m) W /\ client_ok W.*2 (state m);
  ok_load id l : pcs m id = LoadSeq l -> justified l (state m);
  ok_expects id l seq : expects (pcs m id) = Some (l, seq) ->
    seq <= futex m /\ (seq = futex m -> justified l (state m) \/ exists u, advancing (pcs m u) = true);
  ok_asleep id l seq : expects (pcs m id) = Some (l, seq) -> sleeps (pcs m id) = true \/ blocks (pcs m id) = true ->
    seq = futex m \/ exists u, waking (pcs m u) = true
}.

Lemma crowd_ext ps ps' W : (forall x, waits (ps' x) = waits (ps x)) -> crowd ps W -> crowd ps' W.
Proof. intros He (H1 & H2 & H3). split_and!; [done|done|]. intros id l. by rewrite He. Qed.

Lemma crowd_stay ps id p W : waits p = waits (ps id) -> crowd ps W -> crowd (update ps id p) W.
Proof. intros Hp. apply crowd_ext. intros x. rewrite (class_update waits). case_decide; by subst. Qed.

Lemma crowd_join ps id p l W : waits (ps id) = None -> waits p = Some l -> 0 < id < 2 ^ 32 -> crowd ps W -> crowd (update ps id p) ((id, l) :: W).
Proof.
  intros Hn Hp Hid (H1 & H2 & H3). split_and!; cbn.
  - apply list.NoDup_cons. split; [|done]. intros Hx. apply list_elem_of_fmap in Hx as ([x l'] & -> & Hx). apply H3 in Hx. cbn in *. congruence.
  - by constructor.
  - intros x l'. rewrite elem_of_cons, H3, (class_update waits). case_decide; [subst; rewrite Hn, Hp; split; [by intros [[= ->]|?]|intros [= ->]; by left]|]. split; [intros [?|?]; congruence|auto].
Qed.

Lemma crowd_leave ps id p l W : waits (ps id) = Some l -> waits p = None -> crowd ps W -> exists W', W ≡ₚ (id, l) :: W' /\ crowd (update ps id p) W'.
Proof.
  intros Hid Hp (H1 & H2 & H3). destruct (elem_of_Permutation W (id, l)) as [HW _]. destruct HW as [W' HW]; [by apply H3|]. exists W'. split; [done|].
  rewrite HW in H1, H2. cbn in H1, H2. apply list.NoDup_cons in H1 as [Hn H1]. apply Forall_cons_1 in H2 as [_ H2]. split_and!; [done|done|].
  intros x l'. rewrite (class_update waits). case_decide as Hx.
  - subst x. rewrite Hp. split; [|done]. intros Hin. destruct Hn. apply list_elem_of_fmap. by exists (id, l').
  - rewrite <- H3, HW, elem_of_cons. split; [auto|]. intros [?|?]; [congruence|done].
Qed.

Lemma crowd_short ps W : crowd ps W -> Z.of_nat (length W) < 2 ^ 32.
Proof. intros (H1 & H2 & _). pose proof (short_ids W.*1 H1 H2) as Hs. by rewrite length_fmap in Hs. Qed.

(** The holder of the mutex changes with the program point of [id]. *)
Lemma lock_update m id p o : (forall x, lock m = Some x <-> holds_lock (pcs m x) = true) ->
  (o = lock m /\ holds_lock p = holds_lock (pcs m id)) \/ (o = Some id /\ lock m = None /\ holds_lock p = true) \/ (o = None /\ lock m = Some id /\ holds_lock p = false) ->
  forall x, o = Some x <-> holds_lock (update (pcs m) id p x) = true.
Proof.
  intros Hl Ho x. rewrite (class_update holds_lock). pose proof (Hl x) as Hx. destruct Ho as [[-> Hp]|[(-> & Hn & Hp)|(-> & Hs & Hp)]]; case_decide; subst.
  - by rewrite Hp.
  - done.
  - by rewrite Hp.
  - rewrite Hn in Hx. rewrite <- Hx. split; [intros [= ?]; congruence|done].
  - by rewrite Hp.
  - rewrite Hs in Hx. rewrite <- Hx. split; [done|intros [= ?]; congruence].
Qed.

(** A step outside the kernel and the sections. *)
Lemma ok_move m id p o : monitor_ok m -> waits p = waits (pcs m id) -> sleeps (pcs m id) = false /\ blocks (pcs m id) = false /\ sleeps p = false /\ blocks p = false ->
  advancing (pcs m id) = false /\ waking (pcs m id) = false -> pc_ok p -> (forall l, p <> LoadSeq l) ->
  (o = lock m /\ holds_lock p = holds_lock (pcs m id)) \/ (o = Some id /\ lock m = None /\ holds_lock p = true) \/ (o = None /\ lock m = Some id /\ holds_lock p = false) ->
  (forall l seq, expects p = Some (l, seq) -> seq <= futex m /\ (seq = futex m -> justified l (state m) \/ exists u, advancing (pcs m u) = true)) ->
  monitor_ok (mk (state m) o (futex m) (kernel m) (update (pcs m) id p)).
Proof.
  intros [H1 H2 H3 H4 H5 H6 H7 H8 H9 H10] Hw (Hs & Hb & Hs' & Hb') [Ha Hwk] Hok Hload Ho Hexp.
  assert (Hex : forall f : pc -> bool, f (pcs m id) = false -> (exists u, f (pcs m u) = true) -> exists u, f (update (pcs m) id p u) = true) by (intros f Hf Hu; apply exists_update; auto).
  split; cbn; [by apply lock_update|done| | |done| | | | |].
  - intros x. destruct (decide (x = id)) as [->|]; [by rewrite update_eq|by rewrite update_ne].
  - intros x. rewrite H4, (class_update sleeps). case_decide; [subst; by rewrite Hs, Hs'|done].
  - intros x. rewrite H6, (class_update blocks). case_decide; [subst; by rewrite Hb, Hb'|done].
  - destruct H7 as (W & HW & Hc). exists W. split; [by apply crowd_stay|done].
  - intros x l. destruct (decide (x = id)) as [->|]; [rewrite update_eq; intros ->; by destruct (Hload l)|rewrite update_ne by done; apply H8].
  - intros x l seq. rewrite (class_update expects). intros Hx. assert (Hx' : seq <= futex m /\ (seq = futex m -> justified l (state m) \/ exists u, advancing (pcs m u) = true)) by (case_decide; [by apply Hexp|by eapply H9]).
    destruct Hx' as [? Hj]. split; [done|]. intros Hsq. destruct (Hj Hsq); auto.
  - intros x l seq. rewrite (class_update expects), (class_update sleeps), (class_update blocks). case_decide; [rewrite Hs', Hb'; by intros _ [?|?]|]. intros Hx Hsl. destruct (H10 x l seq Hx Hsl); auto.
Qed.

(** While a thread runs a section nobody else holds the mutex. *)
Lemma holder_alone m id x : monitor_ok m -> holds_lock (pcs m id) = true -> holds_lock (pcs m x) = true -> x = id.
Proof. intros HM Hid Hx. apply (ok_lock m HM) in Hid, Hx. congruence. Qed.

(** A section of a thread that held the mutex before and holds it after. *)
Lemma ok_section m id p s W : monitor_ok m -> holds_lock (pcs m id) = true -> advancing (pcs m id) = false -> waking (pcs m id) = false ->
  holds_lock p = true -> expects p = None -> pc_ok p -> crowd (update (pcs m) id p) W -> client_ok W.*2 s ->
  (forall l, p = LoadSeq l -> justified l s) ->
  advancing p = true \/ (forall x l seq, x <> id -> expects (pcs m x) = Some (l, seq) -> justified l (state m) -> justified l s) ->
  monitor_ok (mk s (lock m) (futex m) (kernel m) (update (pcs m) id p)).
Proof.
  intros HM Hh Ha Hwk Hp Hexp Hok HW Hc Hload Hj. pose proof HM as [H1 H2 H3 H4 H5 H6 H7 H8 H9 H10].
  assert (Hs : forall q, holds_lock q = true -> sleeps q = false /\ blocks q = false) by (by intros []).
  destruct (Hs _ Hh) as [Hs1 Hb1]. destruct (Hs _ Hp) as [Hs2 Hb2].
  assert (Hnadv : ~ exists u, advancing (pcs m u) = true).
  { intros [u Hu]. assert (u = id) as -> by (apply (holder_alone m id u HM Hh); by destruct (pcs m u)). congruence. }
  split; cbn; [|done| | |done| | | | |].
  - apply lock_update; [done|]. left. by rewrite Hh, Hp.
  - intros x. destruct (decide (x = id)) as [->|]; [by rewrite update_eq|by rewrite update_ne].
  - intros x. rewrite H4, (class_update sleeps). case_decide; [subst; by rewrite Hs1, Hs2|done].
  - intros x. rewrite H6, (class_update blocks). case_decide; [subst; by rewrite Hb1, Hb2|done].
  - by exists W.
  - intros x l. destruct (decide (x = id)) as [->|Hne]; [rewrite update_eq; apply Hload|]. rewrite update_ne by done. intros Hx. destruct Hne. apply (holder_alone m id x HM Hh). by rewrite Hx.
  - intros x l seq. rewrite (class_update expects). case_decide as Hx; [by rewrite Hexp|]. intros He. destruct (H9 x l seq He) as [Hle Hju]. split; [done|]. intros Hsq.
    destruct Hj as [Hj|Hj]; [right; apply exists_update; by left|left]. destruct (Hju Hsq); [by eapply Hj|done].
  - intros x l seq. rewrite (class_update expects), (class_update sleeps), (class_update blocks). case_decide; [by rewrite Hexp|]. intros He Hsl. destruct (H10 x l seq He Hsl); [by left|right]. apply exists_update; auto.
Qed.

Lemma ok_after_section m id v W : monitor_ok m -> 0 < id < 2 ^ 32 -> holds_lock (pcs m id) = true -> advancing (pcs m id) = false -> waking (pcs m id) = false ->
  crowd (update (pcs m) id (Idle None)) W -> verdict_ok client_ok justified W.*2 (state m) v -> monitor_ok (after_section m id v).
Proof.
  intros HM Hid Hh Ha Hwk HW Hv.
  assert (Hstay : forall p, waits p = None -> crowd (update (pcs m) id p) W) by (intros p Hp; eapply crowd_ext; [|exact HW]; intros x; rewrite !(class_update waits); by case_decide; [rewrite Hp|]).
  assert (Hin : forall x l seq, x <> id -> expects (pcs m x) = Some (l, seq) -> l ∈ W.*2).
  { intros x l seq Hx He. apply list_elem_of_fmap. exists (x, l). split; [done|]. apply HW. rewrite update_ne by done. destruct (pcs m x); cbn in *; congruence. }
  destruct v as [s r|s l|s r]; cbn in Hv.
  - destruct Hv as [Hc Hj]. apply (ok_section m id (Unlocking r) s W); try done; [by apply Hstay|]. right. eauto.
  - destruct Hv as (Hc & Hl & Hj). apply (ok_section m id (LoadSeq l) s ((id, l) :: W)); try done; [|by intros ? [= <-]|right; eauto].
    eapply crowd_ext; [|apply (crowd_join (update (pcs m) id (Idle None)) id (LoadSeq l) l W); [| | |exact HW]]; [|by rewrite update_eq|done|done].
    intros x. rewrite !(class_update waits). by case_decide.
  - apply (ok_section m id (Advancing r) s W); try done; [by apply Hstay|by left].
Qed.

Lemma crowd_room ps id W : 0 < id < 2 ^ 32 -> waits (ps id) = None -> crowd ps W -> Z.of_nat (length W.*2) + 1 < 2 ^ 32.
Proof.
  intros Hid Hn (H1 & H2 & H3). assert (Hni : id ∉ W.*1). { intros Hx. apply list_elem_of_fmap in Hx as ([x l] & -> & Hx). apply H3 in Hx. cbn in *. congruence. }
  pose proof (short_ids (id :: W.*1) ltac:(by apply list.NoDup_cons) ltac:(by constructor)) as Hs. rewrite length_cons, length_fmap in Hs. rewrite length_fmap. lia.
Qed.

Lemma ok_enter m id q : monitor_ok m -> 0 < id < 2 ^ 32 -> pcs m id = Entered q -> may_enter q (state m) -> exists m', run_section m id (enter q (state m)) = Ok m' /\ monitor_ok m'.
Proof.
  intros HM Hid Ep Hmay. destruct (ok_client m HM) as (W & HW & Hc). destruct (enter_ok q W.*2 (state m) Hc Hmay) as (v & Hv & Hok); [eapply crowd_room; [exact Hid| |exact HW]; by rewrite Ep|].
  exists (after_section m id v). unfold run_section. rewrite Hv. split; [done|]. apply (ok_after_section m id v W); try done; rewrite ?Ep; try done. apply crowd_stay; [by rewrite Ep|done].
Qed.

Lemma ok_resume m id l err : monitor_ok m -> 0 < id < 2 ^ 32 -> pcs m id = Resumed l err -> may_resume l (state m) -> exists m', run_section m id (resume l err (state m)) = Ok m' /\ monitor_ok m'.
Proof.
  intros HM Hid Ep Hmay. destruct (ok_client m HM) as (W & HW & Hc). destruct (crowd_leave (pcs m) id (Idle None) l W) as (W' & HP & HW'); [by rewrite Ep|done|done|].
  apply (client_ok_perm _ (l :: W'.*2)) in Hc; [|by rewrite HP].
  destruct (resume_ok l err W'.*2 (state m) Hc Hmay) as (v & Hv & Hok); [eapply crowd_room; [exact Hid| |exact HW']; by rewrite update_eq|].
  exists (after_section m id v). unfold run_section. rewrite Hv. split; [done|]. by apply (ok_after_section m id v W'); rewrite ?Ep.
Qed.

(** The futex of the condition variable advances: who expects the old number is
    woken by the call that comes next. *)
Lemma ok_advance m id r : monitor_ok m -> pcs m id = Advancing r -> futex m + 1 < 2 ^ 32 -> monitor_ok (goto (set_futex m (u32 (futex m + 1))) id (WakingAll r)).
Proof.
  intros [H1 H2 H3 H4 H5 H6 H7 H8 H9 H10] Ep Hf. rewrite wrap_id by lia. split; cbn.
  - apply lock_update; [done|]. left. by rewrite Ep.
  - lia.
  - intros x. destruct (decide (x = id)) as [->|]; [by rewrite update_eq|by rewrite update_ne].
  - intros x. rewrite H4, (class_update sleeps). case_decide; [subst; by rewrite Ep|done].
  - done.
  - intros x. rewrite H6, (class_update blocks). case_decide; [subst; by rewrite Ep|done].
  - destruct H7 as (W & HW & Hc). exists W. split; [|done]. apply crowd_stay; [by rewrite Ep|done].
  - intros x l. destruct (decide (x = id)) as [->|]; [by rewrite update_eq|rewrite update_ne by done; apply H8].
  - intros x l seq. rewrite (class_update expects). case_decide; [done|]. intros He. apply H9 in He as [He _]. split; lia.
  - intros x l seq _ _. right. apply exists_update. by left.
Qed.

Lemma wake_nobody (ps : Z -> pc) x : wake_threads [] ps x = ps x.
Proof. unfold wake_threads. by rewrite bool_decide_eq_false_2 by apply not_elem_of_nil. Qed.

(** A step in the kernel of a thread that waits. *)
Lemma ok_kernel m id p k l seq c : monitor_ok m -> pcs m id = Waiting l seq c -> waits p = Some l -> holds_lock p = false -> pc_ok p ->
  (forall x, x ∈ fx_chain k <-> if decide (x = id) then sleeps p = true else x ∈ fx_chain (kernel m)) ->
  (forall x, fx_mutex k = Some x <-> if decide (x = id) then blocks p = true else fx_mutex (kernel m) = Some x) -> NoDup (fx_chain k) ->
  (expects p = Some (l, seq) \/ expects p = None) -> (blocks p = true -> seq = futex m) -> (sleeps p = true -> blocks (Waiting l seq c) = true) ->
  monitor_ok (goto (mk (state m) (lock m) (futex m) k (wake_threads [] (pcs m))) id p).
Proof.
  intros [H1 H2 H3 H4 H5 H6 H7 H8 H9 H10] Ep Hw Hh Hok Hch Hmx Hnd Hexp Hb Hs.
  assert (Hex : forall f : pc -> bool, f (pcs m id) = false -> (exists u, f (pcs m u) = true) -> exists u, f (update (wake_threads [] (pcs m)) id p u) = true).
  { intros f Hf [u Hu]. apply exists_update. right. split; [by rewrite wake_nobody|exists u; by rewrite wake_nobody]. }
  assert (Hadv : advancing (pcs m id) = false /\ waking (pcs m id) = false) by (by rewrite Ep). destruct Hadv as [Hadv Hwk].
  split; cbn; [|done| | |done| | | | |].
  - intros x. rewrite (class_update holds_lock), wake_nobody, H1. case_decide; [subst; by rewrite Ep, Hh|done].
  - intros x. destruct (decide (x = id)) as [->|]; [by rewrite update_eq|by rewrite update_ne, wake_nobody].
  - intros x. rewrite Hch, (class_update sleeps), wake_nobody. case_decide; [done|apply H4].
  - intros x. rewrite Hmx, (class_update blocks), wake_nobody. case_decide; [done|apply H6].
  - destruct H7 as (W & HW & Hc). exists W. split; [|done]. eapply crowd_ext; [|exact HW]. intros x. rewrite (class_update waits), wake_nobody. case_decide; [subst; by rewrite Ep|done].
  - intros x l'. destruct (decide (x = id)) as [->|]; [rewrite update_eq; intros ->; done|rewrite update_ne, wake_nobody by done; apply H8].
  - intros x l' seq'. rewrite (class_update expects), wake_nobody. intros He. assert (He' : expects (pcs m x) = Some (l', seq')) by (case_decide; [subst; rewrite Ep; cbn; destruct Hexp; congruence|done]).
    destruct (H9 x l' seq' He') as [? Hj]. split; [done|]. intros Hsq. destruct (Hj Hsq); auto.
  - intros x l' seq'. rewrite (class_update expects), (class_update sleeps), (class_update blocks), wake_nobody. case_decide as Hx.
    + intros He Hsl. assert (seq' = seq) as -> by (destruct Hexp; congruence). destruct Hsl as [Hsl|Hbl]; [|auto]. destruct (H10 id l seq); [by rewrite Ep|right; rewrite Ep; auto|by left|auto].
    + intros He Hsl. destruct (H10 x l' seq' He Hsl); auto.
Qed.

Lemma ok_waiting m id ev l seq c o : monitor_ok m -> pcs m id = Waiting l seq c ->
  in_kernel m id ev (Wait seq (has_deadline l)) c (Waiting l seq) (timedwait_back l seq) = Some o -> exists m', o = Ok m' /\ monitor_ok m'.
Proof.
  intros HM Ep. pose proof (ok_pcs m HM id) as Hok. pose proof (ok_chain m HM id) as Hch. pose proof (ok_mutex m HM id) as Hmx. pose proof (ok_nodup m HM) as Hnd. rewrite Ep in Hok, Hch, Hmx.
  unfold in_kernel, Futex.futex.
  assert (Hgo : forall p k, waits p = Some l -> holds_lock p = false -> pc_ok p ->
    (forall x, x ∈ fx_chain k <-> if decide (x = id) then sleeps p = true else x ∈ fx_chain (kernel m)) ->
    (forall x, fx_mutex k = Some x <-> if decide (x = id) then blocks p = true else fx_mutex (kernel m) = Some x) -> NoDup (fx_chain k) ->
    (expects p = Some (l, seq) \/ expects p = None) -> (blocks p = true -> seq = futex m) -> (sleeps p = true -> blocks (Waiting l seq c) = true) ->
    exists m', Ok (goto (mk (state m) (lock m) (futex m) k (wake_threads [] (pcs m))) id p) = Ok m' /\ monitor_ok m') by (intros; eexists; split; [done|by eapply ok_kernel]).
  assert (Hout : forall p k, waits p = Some l -> holds_lock p = false -> pc_ok p -> sleeps p = false -> blocks p = false -> (expects p = Some (l, seq) \/ expects p = None) ->
    fx_chain k = filter (fun x => x <> id) (fx_chain (kernel m)) \/ fx_chain k = fx_chain (kernel m) /\ sleeps (Waiting l seq c) = false ->
    fx_mutex k = fx_mutex (kernel m) /\ blocks (Waiting l seq c) = false \/ fx_mutex k = None /\ blocks (Waiting l seq c) = true ->
    exists m', Ok (goto (mk (state m) (lock m) (futex m) k (wake_threads [] (pcs m))) id p) = Ok m' /\ monitor_ok m').
  { intros p k Hw Hh Hp Hs Hb He Hc1 Hm1. apply Hgo; rewrite ?Hs, ?Hb; try done.
    - intros x. destruct Hc1 as [->|[-> Hc1]]; [rewrite list_elem_of_filter; case_decide; [subst; by split; [intros []|]|by split; [intros []|]]|]. case_decide; [subst; by rewrite Hch, Hc1|done].
    - intros x. destruct Hm1 as [[-> Hm1]|[-> Hm1]]; [case_decide; [subst; by rewrite Hmx, Hm1|done]|]. assert (Hm : fx_mutex (kernel m) = Some id) by (by apply Hmx).
      rewrite Hm. case_decide; [done|]. split; [done|intros [= ?]; congruence].
    - destruct Hc1 as [->|[-> _]]; [by apply list.NoDup_filter|done]. }
  assert (Hback : forall r, waits (timedwait_back l seq r) = Some l /\ holds_lock (timedwait_back l seq r) = false /\ pc_ok (timedwait_back l seq r) /\ sleeps (timedwait_back l seq r) = false /\ blocks (timedwait_back l seq r) = false /\ (expects (timedwait_back l seq r) = Some (l, seq) \/ expects (timedwait_back l seq r) = None)).
  { intros r. unfold timedwait_back. repeat case_match; cbn; auto 10. }
  assert (Hret : forall r k, fx_chain k = filter (fun x => x <> id) (fx_chain (kernel m)) \/ fx_chain k = fx_chain (kernel m) /\ sleeps (Waiting l seq c) = false ->
    fx_mutex k = fx_mutex (kernel m) /\ blocks (Waiting l seq c) = false \/ fx_mutex k = None /\ blocks (Waiting l seq c) = true ->
    exists m', Ok (goto (mk (state m) (lock m) (futex m) k (wake_threads [] (pcs m))) id (timedwait_back l seq r)) = Ok m' /\ monitor_ok m') by (intros r k; destruct (Hback r) as (? & ? & ? & ? & ? & ?); by apply Hout).
  destruct c as [val k|k|k|k|n]; cbn in Hok; [destruct Hok as [-> ->]|subst k|subst k|subst k|done].
  - destruct ev as [| | |e]; cbn; try done; [|destruct e; intros [= <-]; first [by apply Hret; auto|by apply Hout; cbn; auto]].
    destruct (fx_mutex (kernel m)) as [y|] eqn:Em; [done|]. destruct (Z.eqb_spec (futex m) seq) as [Ev|]; cbn; intros [= <-]; [|by apply (Hret (Some EAGAIN)); auto].
    apply Hgo; try done; cbn; [intros x; case_decide; subst; done| |by left]. intros x. case_decide; [by subst|]. split; [intros [= ?]; congruence|done].
  - assert (Hm : fx_mutex (kernel m) = Some id) by (by apply Hmx). assert (Hni : id ∉ fx_chain (kernel m)) by (by rewrite Hch).
    assert (Hsleep : exists m', Ok (goto (mk (state m) (lock m) (futex m) (mk_futex None (id :: fx_chain (kernel m))) (wake_threads [] (pcs m))) id (Waiting l seq (Asleep (has_deadline l)))) = Ok m' /\ monitor_ok m').
    { apply Hgo; try done; cbn; [| |by apply list.NoDup_cons|by left].
      - intros x. rewrite elem_of_cons. case_decide; [subst; split; auto|]. split; [by intros [?|?]|auto].
      - intros x. rewrite Hm. case_decide; [done|]. split; [done|intros [= ?]; congruence]. }
    destruct ev, (has_deadline l) eqn:Ed; cbn; try done; intros [= <-]; try exact Hsleep; first [by apply (Hret (Some ETIMEDOUT)); auto|by apply Hout; cbn; auto].
  - destruct ev, (has_deadline l) eqn:Ed; cbn; try done; intros [= <-]; by apply Hout; cbn; auto.
  - unfold sys_futex. destruct (fx_mutex (kernel m)) as [y|] eqn:Em; [done|].
    destruct ev, (has_deadline l) eqn:Ed; try done; intros [= <-]; first [by apply Hret; cbn; auto|by apply Hout; cbn; auto].
Qed.

(** A broadcast wakes all that sleep. *)
Lemma everyone_wakes m : monitor_ok m -> everyone m = Wake (length (fx_chain (kernel m))).
Proof.
  intros HM. unfold everyone. f_equal. destruct (ok_client m HM) as (W & HW & _). assert (Hlen : (length (fx_chain (kernel m)) <= length W.*1)%nat).
  { apply submseteq_length, NoDup_submseteq; [apply HM|]. intros x Hx. apply (ok_chain m HM) in Hx. destruct (pcs m x) as [| | | | | |l seq c| | | | |] eqn:Ep; try done.
    apply list_elem_of_fmap. exists (x, l). split; [done|]. apply HW. by rewrite Ep. }
  apply crowd_short in HW. rewrite length_fmap in Hlen. lia.
Qed.

Lemma ok_wake_all m id r o : monitor_ok m -> pcs m id = WakingAll r -> in_kernel m id Continue (everyone m) (everyone m) (fun _ => WakingAll r) (fun _ => Unlocking r) = Some o ->
  exists m', o = Ok m' /\ monitor_ok m' /\ forall x, sleeps (pcs m' x) = false.
Proof.
  intros HM Ep. rewrite everyone_wakes by done. pose proof HM as [H1 H2 H3 H4 H5 H6 H7 H8 H9 H10]. unfold in_kernel, Futex.futex, sys_futex. destruct (fx_mutex (kernel m)) as [y|] eqn:Em; [done|]. intros [= <-].
  rewrite drop_all, firstn_all. set (ps := wake_threads (fx_chain (kernel m)) (pcs m)).
  assert (Hps : forall x, ps x = pcs m x \/ exists l seq k, pcs m x = Waiting l seq (Asleep k) /\ ps x = Waiting l seq (Awake k)).
  { intros x. unfold ps, wake_threads. destruct (bool_decide _); [|by left]. destruct (pcs m x) as [| | | | | |l seq []| | | | |]; eauto 10. }
  assert (Hclass : forall {B} (f : pc -> B) x, (forall l seq k, f (Waiting l seq (Asleep k)) = f (Waiting l seq (Awake k))) -> f (ps x) = f (pcs m x)).
  { intros B f x Hf. destruct (Hps x) as [->|(l & seq & k & -> & ->)]; done. }
  assert (Hns : forall x, sleeps (ps x) = false).
  { intros x. unfold ps, wake_threads. destruct (bool_decide (x ∈ fx_chain (kernel m))) eqn:Hx; [by destruct (pcs m x) as [| | | | | |l seq []| | | | |]|].
    apply bool_decide_eq_false in Hx. rewrite H4 in Hx. by destruct (sleeps (pcs m x)). }
  assert (Hnb : forall x, blocks (ps x) = false) by (intros x; rewrite (Hclass bool blocks) by done; apply not_true_is_false; by rewrite <- H6).
  eexists. split; [done|]. cbn. split; [split; cbn; [|done| | |constructor| | | | |]|].
  - intros x. rewrite (class_update holds_lock), (Hclass bool holds_lock), H1 by done. case_decide; [subst; by rewrite Ep|done].
  - intros x. destruct (decide (x = id)) as [->|]; [by rewrite update_eq|]. rewrite update_ne by done. specialize (H3 x). destruct (Hps x) as [->|(l & seq & k & E & ->)]; [done|by rewrite E in H3].
  - intros x. rewrite (class_update sleeps), Hns. case_decide; (split; [intros Hx; by apply not_elem_of_nil in Hx|done]).
  - intros x. rewrite (class_update blocks), Hnb. by case_decide.
  - destruct H7 as (W & HW & Hc). exists W. split; [|done]. eapply crowd_ext; [|exact HW]. intros x. rewrite (class_update waits), (Hclass _ waits) by done. case_decide; [subst; by rewrite Ep|done].
  - intros x l. destruct (decide (x = id)) as [->|]; [by rewrite update_eq|rewrite update_ne by done]. destruct (Hps x) as [->|(l' & seq & k & E & ->)]; [apply H8|done].
  - intros x l seq. rewrite (class_update expects), (Hclass _ expects) by done. case_decide; [done|]. intros He. destruct (H9 x l seq He) as [? Hj]. split; [done|]. intros Hsq. destruct (Hj Hsq) as [|[u Hu]]; [by left|].
    assert (u = id) as -> by (apply (holder_alone m id u HM); [by rewrite Ep|by destruct (pcs m u)]). by rewrite Ep in Hu.
  - intros x l seq _. rewrite (class_update sleeps), (class_update blocks), Hns, Hnb. case_decide; by intros [?|?].
  - intros x. rewrite (class_update sleeps), Hns. by case_decide.
Qed.

(** ** Reachable states *)

(** Threads have positive 32-bit ids and follow the client's rules; the futex of the
    condition variable does not wrap around, and a broadcast finds it. *)
Definition allowed (m : t) (id : Z) (a : action) : Prop :=
  0 < id < 2 ^ 32 /\
  match pcs m id, a with
  | Entered q, _ => may_enter q (state m)
  | Resumed l _, _ => may_resume l (state m)
  | Advancing _, _ => futex m + 1 < 2 ^ 32
  | WakingAll _, Step (Failure _) => False
  | _, _ => True
  end.

Inductive reachable (s : shared) : t -> Prop :=
| reachable_new : reachable s (new_monitor s)
| reachable_step m id a m' : reachable s m -> allowed m id a -> exec m id a = Some (Ok m') -> reachable s m'.

Lemma ok_new s : client_ok [] s -> monitor_ok (new_monitor s).
Proof.
  intros Hc. split; cbn; try done.
  - intros id. split; [intros Hx; by apply not_elem_of_nil in Hx|done].
  - constructor.
  - exists []. split; [|done]. split_and!; [constructor|constructor|]. intros id l. split; [intros Hx; by apply not_elem_of_nil in Hx|done].
Qed.

Lemma ok_exec m id a o : monitor_ok m -> allowed m id a -> exec m id a = Some o -> exists m', o = Ok m' /\ monitor_ok m'.
Proof.
  intros HM [Hid Ha] He. unfold exec in He. pose proof (ok_expects m HM id) as Hexp. pose proof (ok_lock m HM id) as Hlock.
  assert (Hmove : forall p o', waits p = waits (pcs m id) -> sleeps (pcs m id) = false /\ blocks (pcs m id) = false /\ sleeps p = false /\ blocks p = false ->
    advancing (pcs m id) = false /\ waking (pcs m id) = false -> pc_ok p -> (forall l, p <> LoadSeq l) ->
    (o' = lock m /\ holds_lock p = holds_lock (pcs m id)) \/ (o' = Some id /\ lock m = None /\ holds_lock p = true) \/ (o' = None /\ lock m = Some id /\ holds_lock p = false) ->
    (forall l seq, expects p = Some (l, seq) -> seq <= futex m /\ (seq = futex m -> justified l (state m) \/ exists u, advancing (pcs m u) = true)) ->
    exists m', Ok (goto (set_lock m o') id p) = Ok m' /\ monitor_ok m') by (intros p o' **; eexists; split; [done|by apply (ok_move m id p o')]).
  destruct (pcs m id) as [ret|q|q|l|l seq|l seq|l seq c|l err|l err|r|r|r] eqn:Ep, a as [q'|ev]; try done; try (destruct ev; try done).
  - injection He as <-. by apply (Hmove (Locking q') (lock m)); auto.
  - unfold acquire in He. destruct (lock m) eqn:El; [done|]. injection He as <-. apply (Hmove (Entered q) (Some id)); try done. right. by left.
  - injection He as <-. by apply (ok_enter m id q).
  - injection He as <-. apply (Hmove (Releasing l (futex m)) (lock m)); auto. intros ? ? [= <- <-]. split; [done|]. intros _. left. by apply (ok_load m HM id).
  - injection He as <-. apply (Hmove (Checking l seq) None); auto. right. right. split_and!; [done| |done]. by apply Hlock.
  - injection He as <-. unfold check_seq. destruct (futex m =? seq); [apply (Hmove (Waiting l seq (Wait seq (has_deadline l))) (lock m))|apply (Hmove (Relocking l None) (lock m))]; auto; done.
  - by eapply ok_waiting.
  - by eapply ok_waiting.
  - by eapply ok_waiting.
  - by eapply ok_waiting.
  - unfold acquire in He. destruct (lock m) eqn:El; [done|]. injection He as <-. apply (Hmove (Resumed l err) (Some id)); try done. right. by left.
  - injection He as <-. by apply (ok_resume m id l err).
  - injection He as <-. eexists. split; [done|]. by apply ok_advance.
  - destruct (ok_wake_all m id r o HM Ep He) as (m' & -> & Hm' & _). eauto.
  - injection He as <-. apply (Hmove (Idle (Some r)) None); try done. right. right. split_and!; [done| |done]. by apply Hlock.
Qed.

Lemma reachable_ok s m : client_ok [] s -> reachable s m -> monitor_ok m.
Proof.
  intros Hs. induction 1 as [|m id a m' Hr IH Ha He]; [by apply ok_new|]. destruct (ok_exec m id a _ IH Ha He) as (m2 & [= <-] & ?). done.
Qed.

(** A step that changes the fields is a section. *)
Lemma exec_section m id a m' : exec m id a = Some (Ok m') ->
  (state m' = state m /\ (forall q, pcs m id <> Entered q) /\ forall l err, pcs m id <> Resumed l err) \/
  (exists q v, pcs m id = Entered q /\ enter q (state m) = Ok v /\ m' = after_section m id v) \/
  (exists l err v, pcs m id = Resumed l err /\ resume l err (state m) = Ok v /\ m' = after_section m id v).
Proof.
  intros He. unfold exec, acquire, in_kernel, run_section in He.
  destruct (pcs m id) as [ret|q|q|l|l seq|l seq|l seq c|l err|l err|r|r|r] eqn:Ep, a as [q'|ev]; try done; try (destruct ev; try done); try (repeat case_match; simplify_eq; by left).
  - right. left. destruct (enter q (state m)) as [v| |] eqn:Ev; simplify_eq. by exists q, v.
  - right. right. destruct (resume l err (state m)) as [v| |] eqn:Ev; simplify_eq. by exists l, err, v.
Qed.

(** ** Progress *)
Fixpoint continue (m : t) (ids : list Z) : option t :=
  match ids with
  | [] => Some m
  | id :: ids => match exec m id (Step Continue) with Some (Ok m) => continue m ids | _ => None end
  end.

(** Nobody sleeps in the kernel, so that who waits looks at the fields again. *)
Definition all_awake (m : t) : Prop := forall x, sleeps (pcs m x) = false.

Lemma wake_all_runs m u r : monitor_ok m -> pcs m u = WakingAll r -> fx_mutex (kernel m) = None -> exists m', exec m u (Step Continue) = Some (Ok m') /\ all_awake m'.
Proof.
  intros HM Ep Hm. assert (exists o, in_kernel m u Continue (everyone m) (everyone m) (fun _ => WakingAll r) (fun _ => Unlocking r) = Some o) as [o Ho].
  { rewrite everyone_wakes by done. unfold in_kernel, Futex.futex, sys_futex. rewrite Hm. eauto. }
  destruct (ok_wake_all m u r o HM Ep Ho) as (m' & -> & _ & Hs). exists m'. unfold exec. by rewrite Ep.
Qed.

Lemma block_continues m b : monitor_ok m -> fx_mutex (kernel m) = Some b ->
  exists m1, exec m b (Step Continue) = Some (Ok m1) /\ monitor_ok m1 /\ fx_mutex (kernel m1) = None /\ forall x, x <> b -> pcs m1 x = pcs m x.
Proof.
  intros HM Hb. pose proof (proj1 (ok_mutex m HM b) Hb) as Hbl. destruct (pcs m b) as [| | | | | |l seq [|k| | |]| | | | |] eqn:Ep; try done.
  assert (exists m1, exec m b (Step Continue) = Some (Ok m1) /\ fx_mutex (kernel m1) = None /\ forall x, x <> b -> pcs m1 x = pcs m x) as (m1 & He & H1 & H2).
  { unfold exec, in_kernel, Futex.futex, sys_futex. rewrite Ep. destruct k; (eexists; split_and!; [reflexivity|done|]); intros x Hx; cbn; rewrite update_ne by done; apply wake_nobody. }
  exists m1. split_and!; try done. destruct (ok_exec m b (Step Continue) (Ok m1) HM) as (m' & [= <-] & ?); [|done|done].
  destruct (ok_client m HM) as (W & HW & _). split; [|by rewrite Ep]. destruct HW as (_ & Hr & HW). eapply list.Forall_forall in Hr; [exact Hr|]. apply list_elem_of_fmap. exists (b, l). split; [done|]. apply HW. by rewrite Ep.
Qed.

Lemma waking_awakens m u : monitor_ok m -> waking (pcs m u) = true -> exists ids m', (length ids <= 2)%nat /\ continue m ids = Some m' /\ all_awake m'.
Proof.
  intros HM Hu. destruct (pcs m u) as [| | | | | | | | | |r|] eqn:Ep; try done. destruct (fx_mutex (kernel m)) as [b|] eqn:Eb.
  - destruct (block_continues m b HM Eb) as (m1 & He & HM1 & Hm1 & Hx). assert (u <> b) by (intros ->; apply (ok_mutex m HM) in Eb; by rewrite Ep in Eb).
    destruct (wake_all_runs m1 u r HM1) as (m' & He' & Ha); [by rewrite Hx|done|]. exists [b; u], m'. split_and!; [cbn; lia|cbn; by rewrite He, He'|done].
  - destruct (wake_all_runs m u r HM Ep Eb) as (m' & He & Ha). exists [u], m'. split_and!; [cbn; lia|cbn; by rewrite He|done].
Qed.

(** ** Scripts *)
Definition steps (id : Z) (n : nat) : list (Z * action) := repeat (id, Step Continue) n.

(** The state after a script, and that its actions are allowed and take place. *)
Fixpoint perform (m : t) (acts : list (Z * action)) : t :=
  match acts with
  | [] => m
  | (id, a) :: acts => match exec m id a with Some (Ok m') => perform m' acts | _ => m end
  end.

Fixpoint stepwise (m : t) (acts : list (Z * action)) : Prop :=
  match acts with
  | [] => True
  | (id, a) :: acts => allowed m id a /\ match exec m id a with Some (Ok m') => stepwise m' acts | _ => False end
  end.

Lemma perform_reachable s m acts : reachable s m -> stepwise m acts -> reachable s (perform m acts).
Proof.
  revert m. induction acts as [|[id a] acts IH]; intros m Hr Hs; cbn in *; [done|]. destruct Hs as [Ha Hs]. destruct (exec m id a) as [[m'| |]|] eqn:He; try done.
  apply IH; [|done]. by eapply reachable_step.
Qed.
End invariant.

(** ** Theorems *)

(** C7: Nobody sleeps in vain: if a thread sleeps in [pthread_cond_timedwait] although
    what it waits for has come, then at most three steps of threads inside the
    library, with no help from a new caller, wake all that sleep. *)
Theorem monitor_wakes `{C : MonitorClient} `{!MonitorLaws} (s : shared) (m : t) (id : Z) (l : local) (seq : Z) (k : bool)
  (Hs : client_ok [] s) (Hreach : reachable s m) (Hroom : futex m + 1 < 2 ^ 32)
  (Hsleep : pcs m id = Waiting l seq (Asleep k)) (Hcome : ~ justified l (state m)) :
  exists ids m', (length ids <= 3)%nat /\ continue m ids = Some m' /\ all_awake m'.
Proof.
  pose proof (reachable_ok s m Hs Hreach) as HM. destruct (ok_asleep m HM id l seq) as [Hsq|[u Hu]]; [by rewrite Hsleep|left; by rewrite Hsleep| |].
  - destruct (ok_expects m HM id l seq) as [_ Hj]; [by rewrite Hsleep|]. destruct (Hj Hsq) as [|[u Hu]]; [done|]. destruct (pcs m u) as [| | | | | | | | |r| |] eqn:Ep; try done.
    pose proof (ok_advance m u r HM Ep Hroom) as HM1. destruct (waking_awakens _ u HM1) as (ids & m' & Hlen & Hc & Ha); [cbn; by rewrite update_eq|].
    exists (u :: ids), m'. split_and!; [cbn; lia| |done]. cbn [continue]. unfold exec at 1. by rewrite Ep.
  - destruct (waking_awakens m u HM Hu) as (ids & m' & Hlen & Hc & Ha). exists ids, m'. split_and!; [lia|done|done].
Qed.
