(* ===== verification/PthreadRwlock.v ===== *)
(** * LibC/pthread: reader-writer locks

    The reader-writer locks of user programs as a client of the monitor. *)
From S2P Require Import Prelude LockSpec Futex Monitor.

Module PthreadRwlock.

(** ** Definitions *)

(** The fields under the mutex; [readers_active] has 31 bits. *)
Record rwlock : Type := mk_rwlock { readers_active : Z; writer_active : bool; waiting : Z }.

Inductive rw_request : Type :=
| Tryrdlock
| Timedrdlock (timed : bool)
| Trywrlock
| Timedwrlock (timed : bool)
| Unlock.

(** What a thread waits for. *)
Inductive rw_local : Type := Reader (timed : bool) | Writer (timed : bool).

Abbreviation rw_verdict := (verdict rwlock rw_local (option errno)).

Abbreviation u31 := (wrap 31).
Definition add_reader (s : rwlock) : rwlock := mk_rwlock (u31 (readers_active s + 1)) (writer_active s) (waiting s).
Definition set_writer (b : bool) (s : rwlock) : rwlock := mk_rwlock (readers_active s) b (waiting s).
Definition add_waiting (n : Z) (s : rwlock) : rwlock := mk_rwlock (readers_active s) (writer_active s) (u32 (waiting s + n)).

Definition pthread_rwlock_init : rwlock := mk_rwlock 0 false 0.

Definition pthread_rwlock_tryrdlock (s : rwlock) : rw_verdict :=
  if negb (writer_active s) then Leave (add_reader s) None else Leave s (Some EBUSY).

(** The loop of [pthread_rwlock_timedrdlock] and what follows it. *)
Definition timedrdlock_loop (timed : bool) (ret : option errno) (s : rwlock) : rw_verdict :=
  if bool_decide (ret = None) && writer_active s then Sleep s (Reader timed)
  else
    let s := add_waiting (-1) s in
    Leave (if bool_decide (ret = None) then add_reader s else s) ret.
Definition pthread_rwlock_timedrdlock (timed : bool) (s : rwlock) : rw_verdict := timedrdlock_loop timed None (add_waiting 1 s).

Definition pthread_rwlock_trywrlock (s : rwlock) : rw_verdict :=
  if (readers_active s =? 0) && negb (writer_active s) then Leave (set_writer true s) None else Leave s (Some EBUSY).

Definition timedwrlock_loop (timed : bool) (ret : option errno) (s : rwlock) : rw_verdict :=
  if bool_decide (ret = None) && (negb (readers_active s =? 0) || writer_active s) then Sleep s (Writer timed)
  else
    let s := add_waiting (-1) s in
    Leave (if bool_decide (ret = None) then set_writer true s else s) ret.
Definition pthread_rwlock_timedwrlock (timed : bool) (s : rwlock) : rw_verdict := timedwrlock_loop timed None (add_waiting 1 s).

Definition pthread_rwlock_unlock (s : rwlock) : outcome rw_verdict :=
  if writer_active s then
    let s := set_writer false s in
    Ok (if negb (waiting s =? 0) then Broadcast s None else Leave s None)
  else
    ASSERT (readers_active s >? 0) in
    let s := mk_rwlock (u31 (readers_active s - 1)) (writer_active s) (waiting s) in
    Ok (if negb (waiting s =? 0) && (readers_active s =? 0) then Broadcast s None else Leave s None).

#[export] Instance rwlock_client : MonitorClient := {|
  shared := rwlock; request := rw_request; local := rw_local; reply := option errno;
  enter q s :=
    match q with
    | Tryrdlock => Ok (pthread_rwlock_tryrdlock s)
    | Timedrdlock timed => Ok (pthread_rwlock_timedrdlock timed s)
    | Trywrlock => Ok (pthread_rwlock_trywrlock s)
    | Timedwrlock timed => Ok (pthread_rwlock_timedwrlock timed s)
    | Unlock => pthread_rwlock_unlock s
    end;
  resume l err s := Ok (match l with Reader timed => timedrdlock_loop timed err s | Writer timed => timedwrlock_loop timed err s end);
  has_deadline l := match l with Reader timed | Writer timed => timed end
|}.

(** ** The contract *)
Definition rwlock_ok (W : list rw_local) (s : rwlock) : Prop :=
  waiting s = Z.of_nat (length W) /\ 0 <= readers_active s < 2 ^ 31 /\ (writer_active s = true -> readers_active s = 0).

Definition must_wait (l : rw_local) (s : rwlock) : Prop :=
  match l with Reader _ => writer_active s = true | Writer _ => readers_active s <> 0 \/ writer_active s = true end.

(** There are less than 2^31 - 1 readers, and only who holds the lock unlocks it. *)
Definition few_readers (s : rwlock) : Prop := readers_active s + 1 < 2 ^ 31.
Definition rwlock_may_enter (q : rw_request) (s : rwlock) : Prop :=
  match q with
  | Tryrdlock | Timedrdlock _ => few_readers s
  | Unlock => writer_active s = true \/ 0 < readers_active s
  | _ => True
  end.
Definition rwlock_may_resume (l : rw_local) (s : rwlock) : Prop := match l with Reader _ => few_readers s | _ => True end.

Lemma rdlock_loop_ok timed ret W s : rwlock_ok (Reader timed :: W) s -> few_readers s -> Z.of_nat (length W) + 1 < 2 ^ 32 ->
  verdict_ok (C := rwlock_client) rwlock_ok must_wait W s (timedrdlock_loop timed ret s).
Proof.
  intros (Hw & Hr & Hx) Hf Hl. unfold few_readers in Hf. cbn [length] in Hw. unfold timedrdlock_loop, rwlock_ok. destruct (bool_decide (ret = None)), (writer_active s) eqn:Ew; cbn; rewrite ?Ew.
  - split_and!; done || lia.
  - rewrite !wrap_id by lia. split_and!; try done; try lia. intros [] _; cbn; rewrite ?Ew; [done|]. intros _. left. rewrite ?wrap_id by lia. lia.
  - rewrite wrap_id by lia. split_and!; try done; try lia; auto.
  - rewrite wrap_id by lia. split_and!; try done; try lia; intros []; cbn; by rewrite ?Ew.
Qed.

Lemma wrlock_loop_ok timed ret W s : rwlock_ok (Writer timed :: W) s -> Z.of_nat (length W) + 1 < 2 ^ 32 ->
  verdict_ok (C := rwlock_client) rwlock_ok must_wait W s (timedwrlock_loop timed ret s).
Proof.
  intros (Hw & Hr & Hx) Hl. cbn [length] in Hw. unfold timedwrlock_loop, rwlock_ok.
  destruct (bool_decide (ret = None)), (Z.eqb_spec (readers_active s) 0) as [E|E], (writer_active s) eqn:Ew; cbn; rewrite ?Ew; rewrite ?wrap_id by lia.
  all: try (split_and!; first [done|lia|by auto|by left|by right|by intros []; cbn; rewrite ?Ew; auto]).
Qed.

Lemma unlock_ok W s : rwlock_ok W s -> rwlock_may_enter Unlock s -> exists v, pthread_rwlock_unlock s = Ok v /\ verdict_ok (C := rwlock_client) rwlock_ok must_wait W s v.
Proof.
  intros (Hw & Hr & Hx) Hmay. unfold pthread_rwlock_unlock, rwlock_ok. cbn in Hmay. assert (Hnone : waiting s = 0 -> W = []) by (intros E; destruct W; [done|cbn in Hw; lia]).
  destruct (writer_active s) eqn:Ew; cbn.
  - eexists. split; [done|]. destruct (Z.eqb_spec (waiting s) 0) as [E|E]; cbn; [|split_and!; done || lia]. rewrite (Hnone E) in *. split_and!; try done; try lia. intros l Hx'. by apply not_elem_of_nil in Hx'.
  - destruct Hmay as [?|Hpos]; [done|]. destruct (Z.gtb_spec (readers_active s) 0); [|lia]. eexists. split; [done|]. rewrite wrap_id by lia.
    destruct (Z.eqb_spec (waiting s) 0) as [E|E]; cbn.
    + rewrite (Hnone E) in *. split_and!; try done; try lia. intros l Hx'. by apply not_elem_of_nil in Hx'.
    + destruct (Z.eqb_spec (readers_active s - 1) 0) as [E'|E']; cbn; rewrite ?Ew; split_and!; try done; try lia. intros []; cbn; rewrite ?Ew; [done|]. intros _ _. left. rewrite ?wrap_id by lia. lia.
Qed.

Lemma rwlock_enter_ok (q : rw_request) (W : list rw_local) (s : rwlock) : rwlock_ok W s -> rwlock_may_enter q s -> Z.of_nat (length W) + 1 < 2 ^ 32 ->
  exists v, enter (MonitorClient := rwlock_client) q s = Ok v /\ verdict_ok (C := rwlock_client) rwlock_ok must_wait W s v.
Proof.
  intros Hok Hmay Hl. pose proof Hok as (Hw & Hr & Hx). assert (Hjoin : forall l, rwlock_ok (l :: W) (add_waiting 1 s)).
  { intros l. split; [|done]. cbn [waiting add_waiting]. rewrite length_cons, wrap_id by lia. lia. }
  destruct q as [|timed| |timed|].
  - eexists. split; [done|]. unfold pthread_rwlock_tryrdlock. destruct (writer_active s) eqn:Ew; [by split|]. cbn in Hmay. unfold few_readers in Hmay.
    cbn. unfold rwlock_ok. cbn. rewrite Ew, wrap_id by lia. split_and!; try done; try lia. intros []; cbn; rewrite ?Ew; [done|]. intros _ _. left. rewrite ?wrap_id by lia. lia.
  - eexists. split; [done|]. apply (rdlock_loop_ok timed None W (add_waiting 1 s)); [apply Hjoin|done|done].
  - eexists. split; [done|]. unfold pthread_rwlock_trywrlock. destruct (Z.eqb_spec (readers_active s) 0) as [E|E], (writer_active s) eqn:Ew; cbn; try by split.
    unfold rwlock_ok. cbn. split_and!; try done; try lia. intros []; cbn; auto.
  - eexists. split; [done|]. apply (wrlock_loop_ok timed None W (add_waiting 1 s)); [apply Hjoin|done].
  - by apply unlock_ok.
Qed.

#[export] Instance rwlock_laws : MonitorLaws (C := rwlock_client).
Proof.
  refine (Build_MonitorLaws rwlock_client rwlock_ok must_wait rwlock_may_enter rwlock_may_resume _ rwlock_enter_ok _).
  - intros W W' s HP (H1 & H2). split; [by rewrite <- HP|done].
  - intros [timed|timed] err W s Hc Hmay Hl; (eexists; split; [done|]); [by apply rdlock_loop_ok|by apply wrlock_loop_ok].
Defined.

(** ** The abstract reader-writer lock *)

(** What a step of a thread does for its caller. *)
Inductive rw_label : Type := Quiet | TakeRead | TakeWrite | Release.

Definition label (p p' : pc (C := rwlock_client)) : rw_label :=
  match p, p' with
  | Entered (Tryrdlock | Timedrdlock _), Unlocking None | Resumed (Reader _) _, Unlocking None => TakeRead
  | Entered (Trywrlock | Timedwrlock _), Unlocking None | Resumed (Writer _) _, Unlocking None => TakeWrite
  | Entered Unlock, _ => Release
  | _, _ => Quiet
  end.

(** The number of readers, and whether there is a writer. *)
Inductive rw_step : Z * bool -> rw_label -> Z * bool -> Prop :=
| step_quiet s : rw_step s Quiet s
| step_read n : rw_step (n, false) TakeRead (n + 1, false)
| step_write : rw_step (0, false) TakeWrite (0, true)
| step_release_read n : 0 < n -> rw_step (n, false) Release (n - 1, false)
| step_release_write : rw_step (0, true) Release (0, false).

Definition abs (s : rwlock) : Z * bool := (readers_active s, writer_active s).

(** Each section is a step of the abstract lock. *)
Definition verdict_step (s : rwlock) (p : pc (C := rwlock_client)) (v : rw_verdict) : Prop :=
  match v with
  | Leave s' r => rw_step (abs s) (label p (Unlocking r)) (abs s')
  | Sleep s' l => rw_step (abs s) (label p (LoadSeq l)) (abs s')
  | Broadcast s' r => rw_step (abs s) (label p (Advancing r)) (abs s')
  end.

Lemma rdlock_loop_step timed ret s p : few_readers s -> 0 <= readers_active s -> label p (LoadSeq (Reader timed)) = Quiet -> label p (Unlocking ret) = match ret with None => TakeRead | _ => Quiet end ->
  verdict_step s p (timedrdlock_loop timed ret s).
Proof.
  unfold few_readers, timedrdlock_loop. intros Hf Hr H1 H2. destruct ret as [e|]; cbn; [rewrite H2; constructor|]. destruct (writer_active s) eqn:Ew; cbn; [rewrite H1; constructor|]. rewrite H2. unfold abs. cbn. rewrite Ew, wrap_id by lia. constructor.
Qed.

Lemma wrlock_loop_step timed ret s p : label p (LoadSeq (Writer timed)) = Quiet -> label p (Unlocking ret) = match ret with None => TakeWrite | _ => Quiet end ->
  verdict_step s p (timedwrlock_loop timed ret s).
Proof.
  unfold timedwrlock_loop. intros H1 H2. destruct ret as [e|]; cbn; [rewrite H2; constructor|]. destruct (Z.eqb_spec (readers_active s) 0) as [E|E], (writer_active s) eqn:Ew; cbn; rewrite ?H1, ?H2; try constructor.
  unfold abs. cbn. rewrite E, Ew. constructor.
Qed.

Lemma enter_step q s v : rwlock_ok [] (mk_rwlock (readers_active s) (writer_active s) 0) -> rwlock_may_enter q s -> enter (MonitorClient := rwlock_client) q s = Ok v -> verdict_step s (Entered q) v.
Proof.
  intros (_ & Hr & Hx) Hmay. cbn in Hr, Hx. destruct q as [|timed| |timed|]; cbn.
  - intros [= <-]. unfold pthread_rwlock_tryrdlock, abs. cbn in Hmay. unfold few_readers in Hmay. destruct (writer_active s) eqn:Ew; cbn; [constructor|]. unfold abs. cbn. rewrite Ew, wrap_id by lia. constructor.
  - intros [= <-]. change (verdict_step (add_waiting 1 s) (Entered (Timedrdlock timed)) (timedrdlock_loop timed None (add_waiting 1 s))). apply rdlock_loop_step; try done. cbn. lia.
  - intros [= <-]. unfold pthread_rwlock_trywrlock. destruct (Z.eqb_spec (readers_active s) 0) as [E|E], (writer_active s) eqn:Ew; cbn; try constructor. unfold abs. cbn. rewrite E, Ew. constructor.
  - intros [= <-]. change (verdict_step (add_waiting 1 s) (Entered (Timedwrlock timed)) (timedwrlock_loop timed None (add_waiting 1 s))). by apply wrlock_loop_step.
  - unfold pthread_rwlock_unlock. cbn in Hmay. destruct (writer_active s) eqn:Ew; cbn.
    + intros [= <-]. assert (Hs : rw_step (abs s) Release (abs (set_writer false s))) by (unfold abs; cbn; rewrite Ew, Hx by done; constructor). by destruct (negb _).
    + destruct Hmay as [?|Hpos]; [done|]. destruct (Z.gtb_spec (readers_active s) 0); [|lia]. intros [= <-]. rewrite wrap_id by lia.
      assert (Hs : rw_step (abs s) Release (readers_active s - 1, false)) by (unfold abs; rewrite Ew; by constructor). destruct (negb _ && _); cbn; unfold abs at 2; cbn; by rewrite ?Ew.
Qed.

(** ** Theorems *)

(** C14: A reader-writer lock of LibC refines the abstract one whatever the interleaving:
    each step of a thread adds a reader while there is no writer, installs a writer
    while there is nobody else, releases what is held, or changes nothing.  No
    assertion of the code fails, and readers and a writer never meet. *)
Theorem pthread_rwlock_excludes (m : t (C := rwlock_client)) (Hreach : reachable pthread_rwlock_init m) :
  (writer_active (state m) = true -> readers_active (state m) = 0) /\
  forall id a o, allowed m id a -> exec m id a = Some o ->
    exists m', o = Ok m' /\ rw_step (abs (state m)) (label (pcs m id) (pcs m' id)) (abs (state m')).
Proof.
  assert (Hinit : client_ok (C := rwlock_client) [] pthread_rwlock_init) by (split_and!; done). pose proof (reachable_ok _ m Hinit Hreach) as HM. destruct (ok_client m HM) as (W & _ & Hc).
  pose proof Hc as (_ & Hr & Hx). split; [done|]. intros id a o Ha He. destruct (ok_exec m id a o HM Ha He) as (m' & -> & _). exists m'. split; [done|].
  assert (Hafter : forall v, verdict_step (state m) (pcs m id) v -> rw_step (abs (state m)) (label (pcs m id) (pcs (after_section m id v) id)) (abs (state (after_section m id v)))) by (intros []; cbn; rewrite update_eq; done).
  destruct (exec_section m id a m' He) as [(Es & Hq & Hl)|[(q & v & Ep & Ev & ->)|(l & err & v & Ep & Ev & ->)]].
  - rewrite Es. destruct (pcs m id); try constructor; [by destruct (Hq q)|by destruct (Hl l err)].
  - apply Hafter. rewrite Ep. destruct Ha as [_ Ha]. rewrite Ep in Ha. apply enter_step; [split; [done|by split]|done|done].
  - apply Hafter. rewrite Ep. destruct Ha as [_ Ha]. rewrite Ep in Ha. cbn in Ev. injection Ev as <-. destruct l; [apply rdlock_loop_step|apply wrlock_loop_step]; try done; try lia; by destruct err.
Qed.

(** ** Examples *)
(** Thread 1 writes, thread 2 waits to read and sleeps, and thread 1 has run the
    section of its unlock. *)
Definition demo : list (Z * action (C := rwlock_client)) := [(1, Call (Timedwrlock false))] ++ steps 1 3 ++ [(2, Call (Timedrdlock false))] ++ steps 2 7 ++ [(1, Call Unlock)] ++ steps 1 2.
Definition demo_end : t (C := rwlock_client) := perform (new_monitor pthread_rwlock_init) demo.

Lemma demo_reachable : reachable pthread_rwlock_init demo_end.
Proof. apply perform_reachable; [constructor|]. vm_compute. repeat split; auto. Qed.

Lemma pthread_rwlock_excludes_witness :
  reachable pthread_rwlock_init demo_end /\ (writer_active (state demo_end) = true -> readers_active (state demo_end) = 0).
Proof. split; [exact demo_reachable|]. exact (proj1 (pthread_rwlock_excludes demo_end demo_reachable)). Defined.

Lemma monitor_wakes_witness : exists ids m', (length ids <= 3)%nat /\ continue demo_end ids = Some m' /\ all_awake m'.
Proof.
  apply (monitor_wakes (C := rwlock_client) pthread_rwlock_init demo_end 2 (Reader false) 0 false); [by split_and!|exact demo_reachable|vm_compute; reflexivity|reflexivity|]. vm_compute. discriminate.
Defined.
End PthreadRwlock.
