(* ===== verification/PthreadBarrier.v ===== *)
(** * LibC/pthread: barriers

    The barriers of user programs as a client of the monitor. *)
From S2P Require Import Prelude LockSpec Futex Monitor.

Module PthreadBarrier.

(** ** Definitions *)
Record barrier : Type := mk_barrier { target : Z; waiting : Z; generation : Z }.

Definition PTHREAD_BARRIER_SERIAL_THREAD : Z := 1.

Definition pthread_barrier_init (count : Z) : outcome barrier := if count =? 0 then Err EINVAL else Ok (mk_barrier count 0 0).

Abbreviation barrier_verdict := (verdict barrier Z Z).

(** [pthread_barrier_wait] up to its loop; a thread that waits remembers the generation. *)
Definition barrier_arrive (s : barrier) : barrier_verdict :=
  let gen := generation s in
  let s := mk_barrier (target s) (u32 (waiting s + 1)) (generation s) in
  if waiting s =? target s then Broadcast (mk_barrier (target s) 0 (u32 (generation s + 1))) PTHREAD_BARRIER_SERIAL_THREAD
  else if generation s =? gen then Sleep s gen else Leave s 0.

(** The loop, which ignores what [pthread_cond_wait] returns. *)
Definition barrier_loop (gen : Z) (s : barrier) : barrier_verdict := if generation s =? gen then Sleep s gen else Leave s 0.

#[export] Instance barrier_client : MonitorClient := {|
  shared := barrier; request := unit; local := Z; reply := Z;
  enter _ s := Ok (barrier_arrive s);
  resume gen _ s := Ok (barrier_loop gen s);
  has_deadline _ := false
|}.

(** ** The contract *)

(** How many of the threads that wait belong to the generation [g]. *)
Definition members (g : Z) (W : list Z) : Z := Z.of_nat (length (filter (fun gen => gen = g) W)).

Definition barrier_ok (W : list Z) (s : barrier) : Prop :=
  0 < target s < 2 ^ 32 /\ 0 <= waiting s < target s /\ 0 <= generation s < 2 ^ 32 /\
  waiting s = members (generation s) W /\ Forall (fun gen => 0 <= gen <= generation s) W.

(** The generation does not wrap around. *)
Definition barrier_may_enter (_ : unit) (s : barrier) : Prop := generation s + 1 < 2 ^ 32.

Lemma members_cons g gen W : members g (gen :: W) = (if decide (gen = g) then 1 else 0) + members g W.
Proof. unfold members. rewrite filter_cons. case_decide; cbn [length]; lia. Qed.

Lemma members_none g W : Forall (fun gen => 0 <= gen <= g) W -> members (g + 1) W = 0.
Proof.
  induction 1 as [|gen W Hg HW IH]; [done|]. rewrite members_cons, IH, decide_False by lia. lia.
Qed.

Lemma arrive_ok (q : unit) (W : list Z) (s : barrier) : barrier_ok W s -> barrier_may_enter q s -> Z.of_nat (length W) + 1 < 2 ^ 32 ->
  exists v, enter (MonitorClient := barrier_client) q s = Ok v /\ verdict_ok (C := barrier_client) barrier_ok (fun gen s => gen = generation s) W s v.
Proof.
  intros (Ht & Hw & Hg & Hm & HW) Hmay _. unfold barrier_may_enter in Hmay. eexists. split; [done|]. unfold barrier_arrive. cbn. rewrite Z.eqb_refl, (wrap_id 32 (waiting s + 1)) by lia.
  destruct (Z.eqb_spec (waiting s + 1) (target s)) as [E|E]; unfold barrier_ok; cbn.
  - rewrite wrap_id by lia. rewrite members_none by done. split_and!; try lia. eapply Forall_impl; [|exact HW]. cbn. lia.
  - split_and!; try done; try lia; [|constructor; [lia|done]]. rewrite members_cons, decide_True by done. lia.
Qed.

Lemma loop_ok (gen : Z) (err : option errno) (W : list Z) (s : barrier) : barrier_ok (gen :: W) s -> True -> Z.of_nat (length W) + 1 < 2 ^ 32 ->
  exists v, resume (MonitorClient := barrier_client) gen err s = Ok v /\ verdict_ok (C := barrier_client) barrier_ok (fun gen s => gen = generation s) W s v.
Proof.
  intros Hok _ _. eexists. split; [done|]. unfold barrier_loop. destruct (Z.eqb_spec (generation s) gen) as [E|E]; cbn; [by split_and!|]. split; [|done].
  destruct Hok as (Ht & Hw & Hg & Hm & HW). rewrite members_cons, decide_False in Hm by done. apply Forall_cons_1 in HW as [_ HW]. split_and!; done || lia.
Qed.

#[export] Instance barrier_laws : MonitorLaws (C := barrier_client).
Proof.
  refine (Build_MonitorLaws barrier_client barrier_ok (fun gen s => gen = generation s) barrier_may_enter (fun _ _ => True) _ arrive_ok loop_ok).
  intros W W' s HP (H1 & H2 & H3 & H4 & H5). split_and!; try done; try lia; [|by rewrite <- HP]. unfold members in *. by rewrite <- HP.
Defined.

(** ** Arrivals *)

(** A thread arrives when it runs its first section; [n] threads have arrived. *)
Definition arrives (p : pc (C := barrier_client)) : Z := match p with Entered _ => 1 | _ => 0 end.

Inductive barrier_run (count : Z) : t (C := barrier_client) -> Z -> Prop :=
| barrier_run_new s : pthread_barrier_init count = Ok s -> barrier_run count (new_monitor s) 0
| barrier_run_step m n id a m' : barrier_run count m n -> allowed m id a -> exec m id a = Some (Ok m') -> barrier_run count m' (n + arrives (pcs m id)).

Lemma barrier_run_ok count m n : 0 < count < 2 ^ 32 -> barrier_run count m n -> monitor_ok m /\ target (state m) = count /\ n = count * generation (state m) + waiting (state m).
Proof.
  intros Hc. induction 1 as [s Hs|m n id a m' Hr (HM & Ht & Hn) Ha He].
  - unfold pthread_barrier_init in Hs. destruct (Z.eqb_spec count 0); [done|]. injection Hs as <-. split; [|cbn; lia]. apply ok_new. split_and!; cbn; try done; lia.
  - destruct (ok_exec m id a _ HM Ha He) as (m2 & [= <-] & HM'). split; [done|]. destruct (ok_client m HM) as (W & _ & Hok). destruct Hok as (H1 & H2 & H3 & _).
    destruct (exec_section m id a m' He) as [(Es & Hq & Hl)|[(q & v & Ep & Ev & ->)|(l & err & v & Ep & Ev & ->)]].
    + rewrite Es. destruct (pcs m id); cbn; try (split; [done|lia]). by destruct (Hq q).
    + destruct Ha as [_ Ha]. rewrite Ep in Ha |- *. cbn in Ev, Ha. unfold barrier_may_enter in Ha. injection Ev as <-. unfold barrier_arrive. cbn. rewrite Z.eqb_refl, (wrap_id 32 (waiting (state m) + 1)) by lia.
      destruct (Z.eqb_spec (waiting (state m) + 1) (target (state m))) as [E|E]; cbn; [rewrite wrap_id by lia|]; split; done || nia.
    + rewrite Ep. cbn in Ev. injection Ev as <-. unfold barrier_loop. destruct (_ =? _); cbn; split; done || lia.
Qed.

(** ** Theorems *)

(** C24: A barrier holds its threads back until enough have arrived: the arrivals are
    [count] for each complete generation and those that wait, of which there are
    less than [count]; a thread that leaves belongs to a complete generation; and
    the thread that completes one is the only one that is told so. *)
Theorem barrier_holds (count n : Z) (m : t (C := barrier_client)) (Hcount : 0 < count < 2 ^ 32) (Hrun : barrier_run count m n) :
  n = count * generation (state m) + waiting (state m) /\ 0 <= waiting (state m) < count /\
  (forall id gen, waits (pcs m id) = Some gen -> 0 <= gen <= generation (state m)) /\
  (forall id gen err m' r, pcs m id = Resumed gen err -> exec m id (Step Continue) = Some (Ok m') -> pcs m' id = Unlocking r -> r = 0 /\ count * (gen + 1) <= n) /\
  (forall id q m', pcs m id = Entered q -> exec m id (Step Continue) = Some (Ok m') ->
    (exists r, pcs m' id = Advancing r /\ r = PTHREAD_BARRIER_SERIAL_THREAD) <-> n + 1 = count * (generation (state m) + 1)).
Proof.
  destruct (barrier_run_ok count m n Hcount Hrun) as (HM & Ht & Hn). destruct (ok_client m HM) as (W & HW & Hok). pose proof Hok as (H1 & H2 & H3 & H4 & H5).
  assert (Hgen : forall id gen, waits (pcs m id) = Some gen -> 0 <= gen <= generation (state m)).
  { intros id gen Hw. eapply list.Forall_forall in H5; [exact H5|]. apply list_elem_of_fmap. exists (id, gen). split; [done|]. by apply HW. }
  split_and!; [done|lia|lia|done| |].
  - intros id gen err m' r Ep He Hp. pose proof (Hgen id gen ltac:(by rewrite Ep)) as Hg. unfold exec in He. rewrite Ep in He. cbn in He. injection He as <-. unfold barrier_loop in Hp.
    destruct (Z.eqb_spec (generation (state m)) gen); cbn in Hp; rewrite update_eq in Hp; [done|]. injection Hp as <-. split; [done|]. nia.
  - intros id q m' Ep He. unfold exec in He. rewrite Ep in He. cbn in He. injection He as <-. unfold barrier_arrive. cbn. rewrite Z.eqb_refl, (wrap_id 32 (waiting (state m) + 1)) by lia.
    destruct (Z.eqb_spec (waiting (state m) + 1) (target (state m))) as [E|E]; cbn; rewrite update_eq; split.
    + intros _. lia.
    + intros _. by eexists.
    + by intros (r & ? & _).
    + intros Hx. nia.
Qed.

(** ** Example *)

(** How many threads arrive in the course of a script. *)
Fixpoint arrivals (m : t (C := barrier_client)) (acts : list (Z * action (C := barrier_client))) : Z :=
  match acts with
  | [] => 0
  | (id, a) :: acts => match exec m id a with Some (Ok m') => arrives (pcs m id) + arrivals m' acts | _ => 0 end
  end.

Lemma barrier_perform_run count m n acts : barrier_run count m n -> stepwise m acts -> barrier_run count (perform m acts) (n + arrivals m acts).
Proof.
  revert m n. induction acts as [|[id a] acts IH]; intros m n Hr Hs; cbn in *; [by rewrite Z.add_0_r|]. destruct Hs as [Ha Hs]. destruct (exec m id a) as [[m'| |]|] eqn:He; try done.
  rewrite Z.add_assoc. apply IH; [|done]. by eapply barrier_run_step.
Qed.

(** Thread 1 arrives at a barrier for two and sleeps; thread 2 completes the
    generation and wakes it. *)
Definition demo : list (Z * action (C := barrier_client)) := [(1, Call tt)] ++ steps 1 7 ++ [(2, Call tt)] ++ steps 2 5 ++ steps 1 3.
Definition demo_start : t (C := barrier_client) := new_monitor (mk_barrier 2 0 0).
Definition demo_end : t (C := barrier_client) := perform demo_start demo.

Lemma demo_run : barrier_run 2 demo_end 2.
Proof. apply (barrier_perform_run 2 demo_start 0 demo); [by constructor|]. vm_compute. repeat split. Qed.

Lemma barrier_holds_witness : pcs demo_end 1 = Resumed 0 None /\ 2 = 2 * generation (state demo_end) + waiting (state demo_end).
Proof. split; [reflexivity|]. exact (proj1 (barrier_holds 2 2 demo_end ltac:(lia) demo_run)). Defined.
End PthreadBarrier.
