(* ===== verification/BitStream.v ===== *)
(** * LibDEFLATE/BitStream and LibDEFLATE/Utils

    The bit streams of the DEFLATE library.  [BitInputStream] moves bytes into
    a 32-bit buffer as bits are asked for; the bytes it has moved stay moved
    when it runs out of input.  Both streams refine a list of bits, least
    significant bit of a byte first. *)
From S2P Require Import Prelude BanMath.

(** ** Definitions *)
Record BitInputStream : Type := mk_input {
  m_data : list Z;
  m_bit_buffer : Z;
  m_bit_buffer_len : Z
}.

(** The loop of [peek_bits]. *)
Fixpoint fill (data : list Z) (buffer len count : Z) : outcome unit * BitInputStream :=
  if len <? count then
    match data with
    | [] => (Err ENOBUFS, mk_input [] buffer len)
    | byte :: data' => fill data' (u32 (Z.lor buffer (Z.shiftl byte len))) (u32 (len + 8)) count
    end
  else (Ok tt, mk_input data buffer len).

Definition peek_bits (count : Z) : stateful BitInputStream Z := fun s =>
  if negb (count <=? 16) then (Panic, s)
  else
    match fill (m_data s) (m_bit_buffer s) (m_bit_buffer_len s) count with
    | (Ok _, s') => (Ok (u16 (Z.land (m_bit_buffer s') (Z.shiftl 1 count - 1))), s')
    | (Err e, s') => (Err e, s')
    | (Panic, s') => (Panic, s')
    end.

Definition take_bits (count : Z) : stateful BitInputStream Z :=
  let! result := peek_bits count in
  let! s := sget in
  let! _ := sput (mk_input (m_data s) (Z.shiftr (m_bit_buffer s) count) (u32 (m_bit_buffer_len s - count))) in
  sret result.

(** The loop of [take_byte_aligned] over the bytes of the buffer: [n] bytes of
    output are left. *)
Fixpoint drain (n : nat) (s : BitInputStream) : list Z * nat * BitInputStream :=
  match n with
  | O => ([], O, s)
  | S n' =>
      if m_bit_buffer_len s =? 0 then ([], n, s)
      else
        let '(out, rest, s') :=
          drain n' (mk_input (m_data s) (Z.shiftr (m_bit_buffer s) 8) (u32 (m_bit_buffer_len s - 8))) in
        (u8 (m_bit_buffer s) :: out, rest, s')
  end.

(** The bytes written to an output span of [n] bytes. *)
Definition take_byte_aligned (n : nat) : stateful BitInputStream (list Z) := fun s =>
  if negb (m_bit_buffer_len s `mod` 8 =? 0) then (Panic, s)
  else
    let '(out, rest, s') := drain n s in
    if Z.of_nat (length (m_data s')) <? Z.of_nat rest then (Err ENOBUFS, s')
    else (Ok (out ++ take rest (m_data s')),
          mk_input (drop rest (m_data s')) (m_bit_buffer s') (m_bit_buffer_len s')).

Definition skip_to_byte_boundary (s : BitInputStream) : BitInputStream :=
  let bits_to_remove := m_bit_buffer_len s `mod` 8 in
  mk_input (m_data s) (Z.shiftr (m_bit_buffer s) bits_to_remove) (u32 (m_bit_buffer_len s - bits_to_remove)).

Definition unprocessed_bytes (s : BitInputStream) : Z := Z.of_nat (length (m_data s)).
Definition available_bits (s : BitInputStream) : Z := unprocessed_bytes s * 8 + m_bit_buffer_len s.
Definition available_bytes (s : BitInputStream) : Z := unprocessed_bytes s + m_bit_buffer_len s / 8.

Definition set_data (s : BitInputStream) (data : list Z) : BitInputStream :=
  mk_input data (m_bit_buffer s) (m_bit_buffer_len s).
Definition drop_unprocessed_data (s : BitInputStream) : BitInputStream := set_data s [].

(** *** Writing *)
Record BitOutputStream : Type := mk_output {
  o_data : list Z;
  o_bit_buffer : Z;
  o_bit_buffer_len : Z
}.

(** The loop of [write_bits]: the buffer holds fewer than 24 bits. *)
Fixpoint flush (fuel : nat) (data : list Z) (buffer len : Z) : outcome BitOutputStream :=
  if 8 <=? len then
    match fuel with
    | O => Panic
    | S fuel' => flush fuel' (data ++ [u8 buffer]) (Z.shiftr buffer 8) (u8 (len - 8))
    end
  else Ok (mk_output data buffer len).

(** [push_back] is taken to find memory. *)
Definition write_bits (s : BitOutputStream) (value count : Z) : outcome BitOutputStream :=
  ASSERT (o_bit_buffer_len s <? 8) in
  ASSERT (count <=? 16) in
  let mask := u16 (Z.shiftl 1 count - 1) in
  flush 3 (o_data s) (u32 (Z.lor (o_bit_buffer s) (Z.shiftl (Z.land value mask) (o_bit_buffer_len s))))
    (u8 (o_bit_buffer_len s + count)).

Definition pad_to_byte_boundary (s : BitOutputStream) : outcome BitOutputStream :=
  ASSERT (o_bit_buffer_len s <? 8) in
  if o_bit_buffer_len s =? 0 then Ok s
  else Ok (mk_output (o_data s ++ [u8 (o_bit_buffer s)]) 0 0).

Definition take_buffer (s : BitOutputStream) : outcome (list Z) :=
  ASSERT (o_bit_buffer_len s =? 0) in Ok (o_data s).

(** *** Utilities *)
Definition adler_step '(s1, s2) (byte : Z) : Z * Z :=
  let s1 := u32 (s1 + byte) `mod` 65521 in (s1, u32 (s2 + s1) `mod` 65521).

Definition calculate_adler32 (data : list Z) : Z :=
  let '(s1, s2) := foldl adler_step (1, 0) data in Z.lor (u32 (Z.shiftl s2 16)) s1.

Definition polynomial : Z := 0xEDB88320.

(** One of the eight rounds of [calculate_crc32]. *)
Definition crc_round (crc32 : Z) : Z :=
  if Z.land crc32 1 =? 0 then Z.shiftr crc32 1 else Z.lxor (Z.shiftr crc32 1) polynomial.

Definition crc_byte (crc32 : Z) (byte : Z) : Z := Nat.iter 8 crc_round (Z.lxor crc32 byte).

Definition calculate_crc32 (data : list Z) : Z := bnot 32 (foldl crc_byte 0xFFFFFFFF data).

(** The loop of [reverse_bits], [n] bits before the end. *)
Fixpoint reverse_loop (n : nat) (value count reverse : Z) : Z :=
  match n with
  | O => reverse
  | S n' =>
      let bit := count - Z.of_nat n in
      reverse_loop n' value count
        (u16 (Z.lor reverse (Z.shiftl (Z.land (Z.shiftr value bit) 1) (count - bit - 1))))
  end.

Definition reverse_bits (value count : Z) : Z := reverse_loop (Z.to_nat count) value count 0.

(** ** Bits *)

(** The [n] low bits of [x], the least significant first. *)
Definition bits_of (n : nat) (x : Z) : list bool := (fun i => Z.testbit x (Z.of_nat i)) <$> seq 0 n.

Fixpoint value_of (bs : list bool) : Z :=
  match bs with [] => 0 | b :: bs' => Z.b2z b + 2 * value_of bs' end.

Lemma length_bits_of n x : length (bits_of n x) = n.
Proof. unfold bits_of. by rewrite length_fmap, length_seq. Qed.

Lemma bits_of_lookup n x i : (i < n)%nat -> bits_of n x !! i = Some (Z.testbit x (Z.of_nat i)).
Proof. intros Hi. unfold bits_of. rewrite list_lookup_fmap, lookup_seq_lt by done. done. Qed.

Lemma bits_of_S n x : bits_of (S n) x = Z.odd x :: bits_of n (x / 2).
Proof.
  apply list_eq. intros [|i]; [by rewrite bits_of_lookup by lia; cbn; rewrite Z.bit0_odd|].
  cbn [lookup list_lookup]. destruct (decide (i < n)%nat) as [Hi|Hi].
  - rewrite !bits_of_lookup by lia. f_equal. rewrite Nat2Z.inj_succ, <- Z.div2_div, Z.div2_spec, Z.shiftr_spec by lia.
    by rewrite Z.add_1_r.
  - trans (@None bool); [|symmetry]; apply lookup_ge_None_2; rewrite length_bits_of; lia.
Qed.

Lemma value_bits_of n x : value_of (bits_of n x) = x `mod` 2 ^ Z.of_nat n.
Proof.
  revert x. induction n as [|n IH]; intros x; [cbn; by rewrite Z.mod_1_r|].
  rewrite bits_of_S. cbn [value_of]. rewrite IH, Nat2Z.inj_succ, Z.pow_succ_r by lia.
  rewrite Z.rem_mul_r by lia. pose proof (Z.bit0_mod x) as H0. rewrite Z.bit0_odd in H0. lia.
Qed.

Lemma bits_of_value bs : bits_of (length bs) (value_of bs) = bs.
Proof.
  induction bs as [|b bs IH]; [done|]. cbn [length]. rewrite bits_of_S. cbn [value_of]. f_equal.
  - rewrite Z.odd_add, Z.odd_mul. cbn. rewrite xorb_false_r. by destruct b.
  - trans (bits_of (length bs) (value_of bs)); [|done]. f_equal. rewrite Z.mul_comm, Z.div_add by lia. by destruct b.
Qed.

Lemma value_of_range bs : 0 <= value_of bs < 2 ^ Z.of_nat (length bs).
Proof.
  induction bs as [|b bs IH]; [done|]. cbn [value_of length]. rewrite Nat2Z.inj_succ, Z.pow_succ_r by lia.
  destruct b; cbn [Z.b2z]; lia.
Qed.

Lemma bits_of_app n m x : bits_of (n + m) x = bits_of n x ++ bits_of m (Z.shiftr x (Z.of_nat n)).
Proof.
  revert x. induction n as [|n IH]; intros x; [done|]. cbn [Nat.add]. rewrite !bits_of_S, IH. cbn [app]. do 3 f_equal.
  rewrite Nat2Z.inj_succ, <- Z.add_1_l, <- Z.shiftr_shiftr by lia. f_equal.
  by rewrite Z.shiftr_div_pow2, Z.pow_1_r by lia.
Qed.

Lemma bits_of_ext n x y : (forall i, 0 <= i < Z.of_nat n -> Z.testbit x i = Z.testbit y i) -> bits_of n x = bits_of n y.
Proof.
  intros He. unfold bits_of. apply list_fmap_ext. intros i j Hj. apply lookup_seq in Hj as [-> Hj]. apply He. lia.
Qed.

Lemma bits_of_lor_shiftl n m x y :
  0 <= x < 2 ^ Z.of_nat n -> bits_of (n + m) (Z.lor x (Z.shiftl y (Z.of_nat n))) = bits_of n x ++ bits_of m y.
Proof.
  intros Hx. rewrite bits_of_app. f_equal.
  - apply bits_of_ext. intros i Hi. rewrite Z.lor_spec, Z.shiftl_spec_low, orb_false_r by lia. done.
  - f_equal. rewrite Z.shiftr_lor, Z.shiftr_shiftl_l, Z.sub_diag, Z.shiftl_0_r by lia.
    by rewrite Z.shiftr_div_pow2, Z.div_small, Z.lor_0_l by lia.
Qed.

Lemma lor_shiftl_range n m x y :
  0 <= x < 2 ^ n -> 0 <= y < 2 ^ m -> 0 <= n -> 0 <= m -> 0 <= Z.lor x (Z.shiftl y n) < 2 ^ (n + m).
Proof.
  intros Hx Hy Hn Hm. rewrite Z.lor_comm, lor_shiftl_add, Z.pow_add_r by done. nia.
Qed.

(** ** Reading refines a list of bits *)
Definition byte (b : Z) : Prop := 0 <= b < 2 ^ 8.

Definition bytes_bits (data : list Z) : list bool := data ≫= bits_of 8.

Definition stream_bits (s : BitInputStream) : list bool :=
  bits_of (Z.to_nat (m_bit_buffer_len s)) (m_bit_buffer s) ++ bytes_bits (m_data s).

Lemma length_bytes_bits bs : length (bytes_bits bs) = (8 * length bs)%nat.
Proof.
  induction bs as [|b l IH]; [done|]. unfold bytes_bits in *. cbn [mbind list_bind length]. rewrite length_app, length_bits_of, IH. lia.
Qed.

Record input_wf (s : BitInputStream) : Prop := {
  in_len : 0 <= m_bit_buffer_len s <= 23;
  in_buffer : 0 <= m_bit_buffer s < 2 ^ m_bit_buffer_len s;
  in_data : Forall byte (m_data s)
}.

Lemma length_stream_bits s : 0 <= m_bit_buffer_len s ->
  Z.of_nat (length (stream_bits s)) = available_bits s.
Proof.
  intros Hl. unfold stream_bits, available_bits, unprocessed_bytes. rewrite length_app, length_bits_of, length_bytes_bits. lia.
Qed.

Lemma fill_spec count data : 0 <= count <= 16 -> forall buf len, input_wf (mk_input data buf len) ->
  let '(r, s') := fill data buf len count in
  input_wf s' /\ stream_bits s' = stream_bits (mk_input data buf len) /\
  match r with
  | Ok _ => count <= m_bit_buffer_len s'
  | Err e => e = ENOBUFS /\ m_data s' = [] /\ m_bit_buffer_len s' < count
  | Panic => False
  end.
Proof.
  intros Hc. induction data as [|b data IH]; intros buf len [Hl Hb Hd]; cbn [m_bit_buffer_len m_bit_buffer m_data] in *;
    cbn [fill]; (case_if; zify_bool; [|by split_and!]).
  - by split_and!.
  - inversion_clear Hd as [|? ? Hbyte Hd']. pose proof (lor_shiftl_range len 8 buf b Hb Hbyte ltac:(lia) ltac:(lia)) as Hr.
    assert (2 ^ (len + 8) <= 2 ^ 32) by (apply Z.pow_le_mono_r; lia).
    rewrite !wrap_id by lia.
    specialize (IH (Z.lor buf (Z.shiftl b len)) (len + 8)). destruct (fill _ _ _ _) as [r s'].
    destruct IH as (Hwf & Hbits & Hr'); [split; cbn; [lia|done|done]|]. split_and!; [done| |done]. rewrite Hbits.
    unfold stream_bits, bytes_bits. cbn [m_bit_buffer_len m_bit_buffer m_data mbind list_bind].
    rewrite app_assoc. f_equal. replace (Z.to_nat (len + 8)) with (Z.to_nat len + 8)%nat by lia.
    rewrite <- bits_of_lor_shiftl by (by rewrite Z2Nat.id by lia). by rewrite Z2Nat.id by lia.
Qed.

(** What reading [count] bits gives, for a stream that holds [bits]. *)
Definition reads (count : Z) (bits : list bool) (r : outcome Z) : Prop :=
  if Z.of_nat (length bits) <? count then r = Err ENOBUFS else r = Ok (value_of (take (Z.to_nat count) bits)).

Lemma peek_bits_spec count s : 0 <= count <= 16 -> input_wf s ->
  let '(r, s') := peek_bits count s in
  input_wf s' /\ stream_bits s' = stream_bits s /\ reads count (stream_bits s) r /\
  (is_Ok r -> count <= m_bit_buffer_len s').
Proof.
  intros Hc Hwf. unfold peek_bits. rewrite (proj2 (Z.leb_le _ _)) by lia. cbn [negb]. destruct s as [data buf len].
  pose proof (fill_spec count data Hc buf len Hwf) as Hf. cbn [m_data m_bit_buffer m_bit_buffer_len].
  destruct (fill data buf len count) as [[u|e|] s']; [| |tauto].
  - destruct Hf as (Hwf' & Hbits & Hge). split_and!; [done|done| |done]. unfold reads.
    destruct (in_len s' Hwf') as [Hl0 Hl1]. pose proof (length_stream_bits s' ltac:(lia)) as Hlen. unfold available_bits, unprocessed_bytes in Hlen.
    rewrite <- Hbits. rewrite (proj2 (Z.ltb_ge _ _)) by lia. f_equal. unfold stream_bits.
    rewrite take_app_le by (rewrite length_bits_of; lia).
    replace (Z.to_nat (m_bit_buffer_len s')) with (Z.to_nat count + (Z.to_nat (m_bit_buffer_len s') - Z.to_nat count))%nat by lia.
    rewrite bits_of_app, take_app_length' by (by rewrite length_bits_of). rewrite value_bits_of, Z2Nat.id by lia.
    replace (Z.shiftl 1 count - 1) with (Z.ones count) by (rewrite Z.ones_equiv, Z.shiftl_1_l; lia).
    rewrite Z.land_ones by lia. pose proof (Z.mod_pos_bound (m_bit_buffer s') (2 ^ count) ltac:(lia)).
    assert (2 ^ count <= 2 ^ 16) by (apply Z.pow_le_mono_r; lia). by rewrite wrap_id by lia.
  - destruct Hf as (Hwf' & Hbits & -> & Hnil & Hlt). split_and!; [done|done| |done]. unfold reads.
    destruct (in_len s' Hwf') as [Hl0 Hl1]. pose proof (length_stream_bits s' ltac:(lia)) as Hlen.
    unfold available_bits, unprocessed_bytes in Hlen. rewrite Hnil in Hlen. cbn [length] in Hlen.
    rewrite <- Hbits, (proj2 (Z.ltb_lt _ _)) by lia. done.
Qed.

Lemma take_bits_spec count s : 0 <= count <= 16 -> input_wf s ->
  let '(r, s') := take_bits count s in
  input_wf s' /\ reads count (stream_bits s) r /\
  stream_bits s' = match r with Ok _ => drop (Z.to_nat count) (stream_bits s) | _ => stream_bits s end.
Proof.
  intros Hc Hwf. unfold take_bits, sbind. pose proof (peek_bits_spec count s Hc Hwf) as Hp.
  destruct (peek_bits count s) as [[v|e|] s']; cbn [sget sput sret]; destruct Hp as (Hwf' & Hbits & Hr & Hge); [|by split_and!|by split_and!].
  specialize (Hge I). destruct Hwf' as [Hl Hb Hd]. rewrite wrap_id by lia.
  split_and!; [|done|].
  - split; cbn [m_data m_bit_buffer m_bit_buffer_len]; [lia| |done]. rewrite Z.shiftr_div_pow2 by lia. split.
    + apply Z.div_pos; lia.
    + apply Z.div_lt_upper_bound; [lia|]. rewrite <- Z.pow_add_r by lia. replace (count + (m_bit_buffer_len s' - count)) with (m_bit_buffer_len s') by lia. lia.
  - rewrite <- Hbits. unfold stream_bits. cbn [m_data m_bit_buffer m_bit_buffer_len].
    rewrite drop_app_le by (rewrite length_bits_of; lia). f_equal.
    replace (Z.to_nat (m_bit_buffer_len s')) with (Z.to_nat count + Z.to_nat (m_bit_buffer_len s' - count))%nat by lia.
    rewrite bits_of_app, drop_app_length' by (by rewrite length_bits_of). by rewrite Z2Nat.id by lia.
Qed.

(** *** Reversing bits *)
Lemma testbit_value_of bs i : Z.testbit (value_of bs) (Z.of_nat i) = default false (bs !! i).
Proof.
  destruct (decide (i < length bs)%nat) as [Hi|Hi].
  - pose proof (bits_of_lookup (length bs) (value_of bs) i Hi) as H. rewrite bits_of_value in H. by rewrite H.
  - rewrite lookup_ge_None_2 by lia. pose proof (value_of_range bs) as Hr. cbn.
    apply (testbit_small (Z.of_nat (length bs))); lia.
Qed.

Lemma reverse_loop_spec n value count : forall r,
  Z.of_nat n <= count <= 16 -> 0 <= r < 2 ^ 16 ->
  0 <= reverse_loop n value count r < 2 ^ 16 /\
  forall k, 0 <= k -> Z.testbit (reverse_loop n value count r) k =
    Z.testbit r k || ((k <? Z.of_nat n) && Z.testbit value (count - 1 - k)).
Proof.
  induction n as [|n IH]; intros r Hn Hr; cbn [reverse_loop].
  { split; [done|]. intros k Hk. rewrite (proj2 (Z.ltb_ge k (Z.of_nat 0))) by lia. by rewrite orb_false_r. }
  set (bit := count - Z.of_nat (S n)).
  set (r' := Z.lor r (Z.shiftl (Z.land (Z.shiftr value bit) 1) (count - bit - 1))).
  assert (Hbit : Z.land (Z.shiftr value bit) 1 = Z.b2z (Z.testbit value bit)).
  { change 1 with (Z.ones 1). rewrite Z.land_ones, Z.pow_1_r by lia. by rewrite <- Z.bit0_mod, Z.shiftr_spec, Z.add_0_l by lia. }
  assert (Hr' : 0 <= r' < 2 ^ 16).
  { subst r'. rewrite Hbit. assert (H0 : 0 <= Z.lor r (Z.shiftl (Z.b2z (Z.testbit value bit)) (count - bit - 1))).
    { apply Z.lor_nonneg. split; [lia|]. apply Z.shiftl_nonneg. destruct (Z.testbit _ _); cbn; lia. }
    split; [done|]. apply testbit_range_lt; [lia|done|].
    intros k Hk. rewrite Z.lor_spec, Z.shiftl_spec by lia. rewrite (testbit_small 16 r) by lia. cbn [orb].
    apply (testbit_small 1); [destruct (Z.testbit value bit); cbn; lia|lia]. }
  rewrite wrap_id by done. destruct (IH r' ltac:(lia) Hr') as [Hrange Htest]. split; [done|]. intros k Hk.
  rewrite Htest by done. subst r'. rewrite Z.lor_spec, Hbit, Z.shiftl_spec, <- orb_assoc by lia. f_equal.
  destruct (Z.lt_trichotomy k (Z.of_nat n)) as [Hlt|[->|Hgt]].
  - rewrite (proj2 (Z.ltb_lt k (Z.of_nat n))), (proj2 (Z.ltb_lt k (Z.of_nat (S n)))) by lia.
    by rewrite Z.testbit_neg_r by (subst bit; lia).
  - rewrite (proj2 (Z.ltb_ge _ _)), (proj2 (Z.ltb_lt _ _)) by lia. cbn [andb]. rewrite orb_false_r.
    replace (Z.of_nat n - (count - bit - 1)) with 0 by (subst bit; lia).
    replace (count - 1 - Z.of_nat n) with bit by (subst bit; lia). by rewrite Z.b2z_bit0.
  - rewrite !(proj2 (Z.ltb_ge _ _)) by lia. cbn [andb]. rewrite orb_false_r.
    apply (testbit_small 1); [destruct (Z.testbit value bit); cbn; lia|subst bit; lia].
Qed.

Lemma reverse_bits_value bs : (length bs <= 16)%nat ->
  reverse_bits (value_of bs) (Z.of_nat (length bs)) = value_of (reverse bs).
Proof.
  intros Hl. unfold reverse_bits. rewrite Nat2Z.id.
  destruct (reverse_loop_spec (length bs) (value_of bs) (Z.of_nat (length bs)) 0 ltac:(lia) ltac:(lia)) as [_ Ht].
  apply Z.bits_inj'. intros k Hk. rewrite Ht, Z.testbit_0_l by done. cbn [orb].
  replace k with (Z.of_nat (Z.to_nat k)) by lia. rewrite testbit_value_of. set (i := Z.to_nat k).
  destruct (Z.ltb_spec (Z.of_nat i) (Z.of_nat (length bs))) as [Hlt|Hge]; cbn [andb].
  - replace (Z.of_nat (length bs) - 1 - Z.of_nat i) with (Z.of_nat (length bs - 1 - i)) by lia.
    rewrite testbit_value_of, reverse_lookup by lia. do 2 f_equal. lia.
  - rewrite lookup_ge_None_2; [done|]. rewrite length_reverse. lia.
Qed.

(** *** Whole bytes *)
Lemma bytes_bits_app l1 l2 : bytes_bits (l1 ++ l2) = bytes_bits l1 ++ bytes_bits l2.
Proof. apply bind_app. Qed.

Lemma u8_byte x : byte (u8 x).
Proof. apply wrap_range. lia. Qed.

Lemma bits_of_u8 x : bits_of 8 (u8 x) = bits_of 8 x.
Proof.
  apply bits_of_ext. intros i Hi. unfold wrap. rewrite <- Z.land_ones, Z.land_spec, Z.ones_spec_low by lia.
  by rewrite andb_true_r.
Qed.

Lemma shiftr_range x n m : 0 <= n <= m -> 0 <= x < 2 ^ m -> 0 <= Z.shiftr x n < 2 ^ (m - n).
Proof.
  intros Hn Hx. rewrite Z.shiftr_div_pow2 by lia. split; [apply Z.div_pos; lia|].
  apply Z.div_lt_upper_bound; [lia|]. rewrite <- Z.pow_add_r by lia. replace (n + (m - n)) with m by lia. lia.
Qed.

Lemma skip_spec s : input_wf s ->
  let s' := skip_to_byte_boundary s in
  input_wf s' /\ m_bit_buffer_len s' `mod` 8 = 0 /\ m_data s' = m_data s /\
  stream_bits s' = drop (Z.to_nat (m_bit_buffer_len s `mod` 8)) (stream_bits s).
Proof.
  intros [Hl Hb Hd]. cbn zeta. unfold skip_to_byte_boundary. set (r := m_bit_buffer_len s `mod` 8).
  pose proof (Z.mod_pos_bound (m_bit_buffer_len s) 8 ltac:(lia)) as Hr. pose proof (Z.mod_le (m_bit_buffer_len s) 8 ltac:(lia) ltac:(lia)).
  fold r in Hr. rewrite wrap_id by lia. split; [|split; [|split]].
  - split; cbn [m_data m_bit_buffer m_bit_buffer_len]; [lia|apply shiftr_range; lia|done].
  - cbn [m_bit_buffer_len]. subst r. rewrite Zminus_mod_idemp_r, Z.sub_diag. done.
  - done.
  - unfold stream_bits. cbn [m_data m_bit_buffer m_bit_buffer_len]. rewrite drop_app_le by (rewrite length_bits_of; lia). f_equal.
    replace (Z.to_nat (m_bit_buffer_len s)) with (Z.to_nat r + Z.to_nat (m_bit_buffer_len s - r))%nat by lia.
    rewrite bits_of_app, drop_app_length' by (by rewrite length_bits_of). by rewrite Z2Nat.id by lia.
Qed.

Lemma drain_spec n : forall s, input_wf s -> m_bit_buffer_len s `mod` 8 = 0 ->
  let '(out, rest, s') := drain n s in
  (length out + rest = n)%nat /\ (rest = 0%nat \/ m_bit_buffer_len s' = 0) /\ Forall byte out /\
  stream_bits s = bytes_bits out ++ stream_bits s' /\ input_wf s' /\ m_bit_buffer_len s' `mod` 8 = 0 /\ m_data s' = m_data s.
Proof.
  induction n as [|n IH]; intros s Hwf Hm; cbn [drain]; [by split_and!; [|left| | | | |]|].
  case_if; zify_bool; [by split_and!; [|right| | | | |]|]. destruct Hwf as [Hl Hb Hd].
  pose proof (Z.div_mod (m_bit_buffer_len s) 8 ltac:(lia)) as Hdm. rewrite wrap_id by lia.
  specialize (IH (mk_input (m_data s) (Z.shiftr (m_bit_buffer s) 8) (m_bit_buffer_len s - 8))).
  destruct (drain n _) as [[out rest] s'].
  destruct IH as (Hn & Hr & Ho & Hbits & Hwf' & Hm' & Hd').
  { split; cbn [m_data m_bit_buffer m_bit_buffer_len]; [lia|apply shiftr_range; lia|done]. }
  { cbn [m_bit_buffer_len]. rewrite Zminus_mod, Hm. done. }
  split_and!; [cbn; lia|done|constructor; [apply u8_byte|done]| |done|done|done].
  unfold bytes_bits. cbn [mbind list_bind]. rewrite <- app_assoc. fold (bytes_bits out). rewrite <- Hbits, bits_of_u8.
  unfold stream_bits. cbn [m_data m_bit_buffer m_bit_buffer_len]. rewrite app_assoc. f_equal.
  replace (Z.to_nat (m_bit_buffer_len s)) with (8 + Z.to_nat (m_bit_buffer_len s - 8))%nat by lia. by rewrite bits_of_app.
Qed.

Lemma take_byte_aligned_spec n s : input_wf s -> m_bit_buffer_len s `mod` 8 = 0 ->
  Z.of_nat n <= available_bytes s ->
  exists out s', take_byte_aligned n s = (Ok out, s') /\ length out = n /\ Forall byte out /\
    stream_bits s = bytes_bits out ++ stream_bits s' /\ input_wf s' /\ m_bit_buffer_len s' `mod` 8 = 0.
Proof.
  intros Hwf Hm Hn. unfold take_byte_aligned. rewrite Hm. cbn [Z.eqb negb].
  pose proof (drain_spec n s Hwf Hm) as Hd. destruct (drain n s) as [[out rest] s'].
  destruct Hd as (Hlen & Hr & Ho & Hbits & Hwf' & Hm' & Hdata).
  assert (Hrest : (rest <= length (m_data s'))%nat).
  { destruct Hr as [->|Hz]; [lia|]. apply (f_equal length) in Hbits.
    pose proof (length_stream_bits s ltac:(apply (in_len s Hwf))). pose proof (length_stream_bits s' ltac:(apply (in_len s' Hwf'))).
    rewrite length_app in Hbits. unfold available_bytes, available_bits, unprocessed_bytes in *. rewrite Hdata, Hz in *.
    rewrite length_bytes_bits in Hbits.
    pose proof (Z.div_mod (m_bit_buffer_len s) 8 ltac:(lia)). lia. }
  rewrite (proj2 (Z.ltb_ge _ _)) by lia. do 2 eexists. split; [done|]. destruct Hwf' as [Hl' Hb' Hd'].
  split_and!.
  - rewrite length_app, length_take. lia.
  - apply list.Forall_app. split; [done|by apply Forall_take].
  - rewrite Hbits, bytes_bits_app, <- app_assoc. f_equal. unfold stream_bits. cbn [m_data m_bit_buffer m_bit_buffer_len].
    destruct Hr as [->|Hz]; [by rewrite take_0, drop_0|]. rewrite Hz.
    change (bits_of (Z.to_nat 0) (m_bit_buffer s')) with (@nil bool). rewrite !app_nil_l.
    by rewrite <- bytes_bits_app, take_drop.
  - split; cbn [m_data m_bit_buffer m_bit_buffer_len]; [done|done|by apply Forall_drop].
  - done.
Qed.

(** ** Writing refines a list of bits *)
Definition written_bits (s : BitOutputStream) : list bool :=
  bytes_bits (o_data s) ++ bits_of (Z.to_nat (o_bit_buffer_len s)) (o_bit_buffer s).

Record output_wf (s : BitOutputStream) : Prop := {
  out_len : 0 <= o_bit_buffer_len s < 8;
  out_buffer : 0 <= o_bit_buffer s < 2 ^ o_bit_buffer_len s;
  out_data : Forall byte (o_data s)
}.

Lemma flush_spec fuel : forall data buffer len,
  0 <= len < 8 * (Z.of_nat fuel + 1) -> len < 2 ^ 8 -> 0 <= buffer < 2 ^ len -> Forall byte data ->
  exists s', flush fuel data buffer len = Ok s' /\ output_wf s' /\
    written_bits s' = bytes_bits data ++ bits_of (Z.to_nat len) buffer.
Proof.
  induction fuel as [|fuel IH]; intros data buffer len Hlen Hlen8 Hbuf Hd; cbn [flush].
  { rewrite (proj2 (Z.leb_gt _ _)) by lia. eexists. split; [done|]. split; [|done]. by split. }
  case_if; zify_bool; [|by eexists; split; [done|]; split; [split; cbn; [lia|done|done]|]].
  rewrite (wrap_id 8 (len - 8)) by lia. pose proof (shiftr_range buffer 8 len ltac:(lia) Hbuf) as Hsh.
  destruct (IH (data ++ [u8 buffer]) (Z.shiftr buffer 8) (len - 8)) as (s' & Hs & Hwf & Hbits); [lia|lia|done| |].
  { apply list.Forall_app. split; [done|]. constructor; [apply u8_byte|constructor]. }
  exists s'. split_and!; [done|done|]. rewrite Hbits, bytes_bits_app, <- app_assoc. f_equal.
  unfold bytes_bits. cbn [mbind list_bind]. rewrite app_nil_r, bits_of_u8.
  replace (Z.to_nat len) with (8 + Z.to_nat (len - 8))%nat by lia. by rewrite bits_of_app.
Qed.

Lemma write_bits_spec s value count :
  output_wf s -> 0 <= count <= 16 -> 0 <= value ->
  exists s', write_bits s value count = Ok s' /\ output_wf s' /\
    written_bits s' = written_bits s ++ bits_of (Z.to_nat count) value.
Proof.
  intros [Hl Hb Hd] Hc Hv. unfold write_bits.
  rewrite (proj2 (Z.ltb_lt _ _)), (proj2 (Z.leb_le _ _)) by lia.
  assert (Hp : 2 ^ count <= 2 ^ 16) by (apply Z.pow_le_mono_r; lia).
  rewrite Z.shiftl_1_l, (wrap_id 16 (2 ^ count - 1)) by lia.
  replace (2 ^ count - 1) with (Z.ones count) by (rewrite Z.ones_equiv; lia). rewrite Z.land_ones by lia.
  pose proof (Z.mod_pos_bound value (2 ^ count) ltac:(lia)) as Hm.
  pose proof (lor_shiftl_range (o_bit_buffer_len s) count (o_bit_buffer s) (value `mod` 2 ^ count) Hb Hm ltac:(lia) ltac:(lia)) as Hr.
  assert (2 ^ (o_bit_buffer_len s + count) <= 2 ^ 32) by (apply Z.pow_le_mono_r; lia).
  rewrite !wrap_id by lia.
  destruct (flush_spec 3 (o_data s) (Z.lor (o_bit_buffer s) (Z.shiftl (value `mod` 2 ^ count) (o_bit_buffer_len s)))
    (o_bit_buffer_len s + count)) as (s' & Hs & Hwf & Hbits); [lia|lia|done|done|].
  exists s'. split_and!; [done|done|]. rewrite Hbits. unfold written_bits. rewrite <- app_assoc. f_equal.
  replace (Z.to_nat (o_bit_buffer_len s + count)) with (Z.to_nat (o_bit_buffer_len s) + Z.to_nat count)%nat by lia.
  replace (Z.shiftl (value `mod` 2 ^ count) (o_bit_buffer_len s))
    with (Z.shiftl (value `mod` 2 ^ count) (Z.of_nat (Z.to_nat (o_bit_buffer_len s)))) by (by rewrite Z2Nat.id by lia).
  rewrite bits_of_lor_shiftl by (by rewrite Z2Nat.id by lia). f_equal.
  apply bits_of_ext. intros i Hi. rewrite <- Z.land_ones, Z.land_spec, Z.ones_spec_low by lia. by rewrite andb_true_r.
Qed.

Lemma pad_spec s :
  output_wf s -> exists s' k, pad_to_byte_boundary s = Ok s' /\ o_bit_buffer_len s' = 0 /\ Forall byte (o_data s') /\
    bytes_bits (o_data s') = written_bits s ++ replicate k false.
Proof.
  intros [Hl Hb Hd]. unfold pad_to_byte_boundary. rewrite (proj2 (Z.ltb_lt _ _)) by lia. case_if; zify_bool.
  - exists s, 0%nat. split_and!; [done|done|done|]. unfold written_bits. rewrite E. cbn. by rewrite !app_nil_r.
  - exists (mk_output (o_data s ++ [u8 (o_bit_buffer s)]) 0 0), (8 - Z.to_nat (o_bit_buffer_len s))%nat.
    split_and!; [done|done| |].
    + apply list.Forall_app. split; [done|]. constructor; [apply u8_byte|constructor].
    + cbn [o_data]. rewrite bytes_bits_app. unfold written_bits. rewrite <- app_assoc. f_equal.
      unfold bytes_bits. cbn [mbind list_bind]. rewrite app_nil_r, bits_of_u8.
      replace 8%nat with (Z.to_nat (o_bit_buffer_len s) + (8 - Z.to_nat (o_bit_buffer_len s)))%nat at 1 by lia.
      rewrite bits_of_app. f_equal. rewrite Z.shiftr_div_pow2, Z2Nat.id, Z.div_small by lia.
      set (n := (8 - _)%nat). clearbody n. induction n as [|n IH]; [done|]. rewrite bits_of_S. change (0 / 2) with 0. by rewrite IH.
Qed.

(** Writing and reading fields, a field being a value and its width. *)
Fixpoint write_fields (s : BitOutputStream) (fields : list (Z * Z)) : outcome BitOutputStream :=
  match fields with
  | [] => Ok s
  | (value, count) :: fields' => let* s := write_bits s value count in write_fields s fields'
  end.

Fixpoint read_fields (counts : list Z) : stateful BitInputStream (list Z) :=
  match counts with
  | [] => sret []
  | count :: counts' => let! v := take_bits count in let! vs := read_fields counts' in sret (v :: vs)
  end.

Definition field_ok (f : Z * Z) : Prop := 0 <= f.2 <= 16 /\ 0 <= f.1 < 2 ^ f.2.

Definition fields_bits (fields : list (Z * Z)) : list bool := fields ≫= fun f => bits_of (Z.to_nat f.2) f.1.

Lemma write_fields_spec fields : forall s,
  output_wf s -> Forall field_ok fields ->
  exists s', write_fields s fields = Ok s' /\ output_wf s' /\ written_bits s' = written_bits s ++ fields_bits fields.
Proof.
  induction fields as [|[v c] fields IH]; intros s Hwf Hf; cbn [write_fields].
  { exists s. split_and!; [done|done|]. cbn. by rewrite app_nil_r. }
  inversion_clear Hf as [|? ? [Hc Hv] Hf']. cbn [fst snd] in *.
  destruct (write_bits_spec s v c Hwf Hc ltac:(lia)) as (s1 & -> & Hwf1 & Hb1).
  destruct (IH s1 Hwf1 Hf') as (s' & Hs & Hwf' & Hb'). exists s'. split_and!; [done|done|].
  rewrite Hb', Hb1, <- app_assoc. done.
Qed.

Lemma read_fields_spec fields : forall s rest,
  input_wf s -> Forall field_ok fields -> stream_bits s = fields_bits fields ++ rest ->
  (read_fields fields.*2 s).1 = Ok fields.*1.
Proof.
  induction fields as [|[v c] fields IH]; intros s rest Hwf Hf Hs; cbn [read_fields fmap list_fmap fst snd]; [done|].
  inversion_clear Hf as [|? ? [Hc Hv] Hf']. cbn [fst snd] in *. unfold sbind.
  pose proof (take_bits_spec c s Hc Hwf) as Ht. destruct (take_bits c s) as [r s1]. destruct Ht as (Hwf1 & Hr & Hb1).
  unfold fields_bits in Hs. cbn [mbind list_bind fst snd] in Hs. rewrite <- app_assoc in Hs. unfold reads in Hr. rewrite Hs in Hr, Hb1.
  rewrite length_app, length_bits_of, (proj2 (Z.ltb_ge _ _)) in Hr by lia.
  rewrite take_app_length', value_bits_of, Z2Nat.id, Z.mod_small in Hr by (rewrite ?length_bits_of; lia). subst r.
  rewrite drop_app_length' in Hb1 by (by rewrite length_bits_of).
  specialize (IH s1 rest Hwf1 Hf' Hb1). destruct (read_fields fields.*2 s1) as [r' s']. cbn in IH. by subst r'.
Qed.

(** Writing values of up to sixteen bits, padding to a byte and
    reading the bytes back with the same widths gives the same values. *)
Theorem bit_stream_roundtrip (fields : list (Z * Z)) (Hf : Forall field_ok fields) :
  exists o p data, write_fields (mk_output [] 0 0) fields = Ok o /\ pad_to_byte_boundary o = Ok p /\
    take_buffer p = Ok data /\ (read_fields fields.*2 (mk_input data 0 0)).1 = Ok fields.*1.
Proof.
  destruct (write_fields_spec fields (mk_output [] 0 0)) as (o & Ho & Hwf & Hb); [by split|done|].
  destruct (pad_spec o Hwf) as (p & k & Hp & Hz & Hd & Hpb). exists o, p, (o_data p). split_and!; [done|done| |].
  - unfold take_buffer. by rewrite Hz.
  - apply (read_fields_spec _ _ (replicate k false)); [by split|done|].
    unfold stream_bits. cbn [m_bit_buffer_len m_data]. by rewrite Hpb, Hb.
Qed.

Lemma bit_stream_roundtrip_witness :
  exists o p data, write_fields (mk_output [] 0 0) [(5, 3); (1000, 10); (0, 0); (65535, 16)] = Ok o /\
    pad_to_byte_boundary o = Ok p /\ take_buffer p = Ok data /\
    (read_fields [3; 10; 0; 16] (mk_input data 0 0)).1 = Ok [5; 1000; 0; 65535].
Proof.
  apply (bit_stream_roundtrip [(5, 3); (1000, 10); (0, 0); (65535, 16)]).
  repeat (apply list.Forall_cons; split); try apply list.Forall_nil; done.
Defined.
