(* ===== verification/Huffman.v ===== *)
(** * LibDEFLATE/HuffmanTree: canonical Huffman codes

    A tree is built from the bit lengths of its symbols (RFC 1951, 3.2.2).
    Codes of up to nine bits are found in one table look-up, longer ones one
    bit at a time.  The allocations of the tables are taken to succeed; an
    index that the code does not check against an array is [Panic]. *)
From S2P Require Import Prelude BanMath BitStream.

(** ** Definitions *)
Definition MAX_BITS : Z := 15.

Record Leaf : Type := mk_leaf { leaf_code : Z; leaf_len : Z }.
Record Instant : Type := mk_instant { symbol : Z; instant_len : Z }.

Record HuffmanTree : Type := mk_tree {
  m_instant_bits : Z;
  m_min_bits : Z;
  m_max_bits : Z;
  m_instant : list Instant;
  m_min_code : list Z;
  m_slow_table : list (list Z)
}.

Definition empty_tree : HuffmanTree := mk_tree 0 0 0 [] (replicate 16 0) [].

Definition tree_empty (t : HuffmanTree) : bool := m_min_bits t =? 0.

(** The first loop of [initialize]. *)
Fixpoint count_lengths (sym : Z) (lens : list Z) (max_bits min_bits : Z) (bl_count : list Z) (max_sym : Z)
  : outcome (Z * Z * list Z * Z) :=
  match lens with
  | [] => Ok (max_bits, min_bits, bl_count, max_sym)
  | len :: lens' =>
      if len =? 0 then count_lengths (sym + 1) lens' max_bits min_bits bl_count max_sym
      else
        match bl_count !! Z.to_nat len with
        | None => Panic
        | Some c =>
            count_lengths (sym + 1) lens' (Math.max len max_bits) (Math.min len min_bits)
              (<[Z.to_nat len := u16 (c + 1)]> bl_count) (u16 sym)
        end
  end.

(** The second loop: the first code of every length from 1 on. *)
Fixpoint base_codes (bl_count : list Z) (code : Z) : list Z :=
  match bl_count with
  | [] => []
  | c :: bl_count' => let code := u16 (Z.shiftl (code + c) 1) in code :: base_codes bl_count' code
  end.

(** The third loop: the leaves in the order of the symbols. *)
Fixpoint assign_codes (lens next_code : list Z) : outcome (list Leaf) :=
  match lens with
  | [] => Ok []
  | len :: lens' =>
      if len =? 0 then let* tree := assign_codes lens' next_code in Ok (mk_leaf 0 0 :: tree)
      else
        match next_code !! Z.to_nat len with
        | None => Panic
        | Some c =>
            let* tree := assign_codes lens' (<[Z.to_nat len := u16 (c + 1)]> next_code) in
            Ok (mk_leaf c len :: tree)
        end
  end.

(** The inner loop of [build_instant_table]; the index fails an assertion
    before the fuel is used up. *)
Fixpoint fill_range (fuel : nat) (table : list Instant) (j bound : Z) (e : Instant) : outcome (list Instant) :=
  if j <? bound then
    match fuel with
    | O => Panic
    | S fuel' =>
        ASSERT (j <? Z.of_nat (length table)) in
        fill_range fuel' (<[Z.to_nat j := e]> table) (u16 (j + 1)) bound e
    end
  else Ok table.

Fixpoint instant_loop (sym : Z) (tree : list Leaf) (instant_bits : Z) (table : list Instant) : outcome (list Instant) :=
  match tree with
  | [] => Ok table
  | leaf :: tree' =>
      if (leaf_len leaf =? 0) || (instant_bits <? leaf_len leaf) then instant_loop (sym + 1) tree' instant_bits table
      else
        let shift := instant_bits - leaf_len leaf in
        let* table :=
          fill_range (S (length table)) table (u16 (Z.shiftl (leaf_code leaf) shift))
            (Z.shiftl (leaf_code leaf + 1) shift) (mk_instant sym (leaf_len leaf)) in
        instant_loop (sym + 1) tree' instant_bits table
  end.

Definition build_instant_table (tree : list Leaf) (max_bits : Z) : outcome (Z * list Instant) :=
  let instant_bits := Math.min 9 max_bits in
  let* table := instant_loop 0 tree instant_bits (replicate (Z.to_nat (Z.shiftl 1 instant_bits)) (mk_instant 0 0)) in
  Ok (instant_bits, table).

(** [symbols[offset] = sym] after growing [symbols]; no memory holds a vector
    whose size was negative before its conversion. *)
Definition store_symbol (symbols : list Z) (offset sym : Z) : outcome (list Z) :=
  let* symbols :=
    if Z.of_nat (length symbols) <=? offset then
      if u64 (offset + 1) =? 0 then Ok []
      else if 2 ^ 32 <=? offset then Err ENOMEM
      else Ok (symbols ++ replicate (Z.to_nat (offset + 1) - length symbols) 0)
    else Ok symbols in
  ASSERT (offset <? Z.of_nat (length symbols)) in
  Ok (<[Z.to_nat offset := sym]> symbols).

Fixpoint slow_loop (sym : Z) (tree : list Leaf) (min_code : list Z) (table : list (list Z)) : outcome (list (list Z)) :=
  match tree with
  | [] => Ok table
  | leaf :: tree' =>
      if leaf_len leaf =? 0 then slow_loop (sym + 1) tree' min_code table
      else
        match min_code !! Z.to_nat (leaf_len leaf), table !! Z.to_nat (leaf_len leaf) with
        | Some base, Some symbols =>
            let* symbols := store_symbol symbols (u64 (leaf_code leaf - base)) sym in
            slow_loop (sym + 1) tree' min_code (<[Z.to_nat (leaf_len leaf) := symbols]> table)
        | _, _ => Panic
        end
  end.

Definition build_slow_table (tree : list Leaf) (min_code : list Z) : outcome (list (list Z)) :=
  slow_loop 0 tree min_code (replicate (Z.to_nat (MAX_BITS + 1)) []).

Definition initialize (bit_lengths : list Z) : outcome HuffmanTree :=
  let* (max_bits, min_bits, bl_count, max_sym) :=
    count_lengths 0 bit_lengths 0 MAX_BITS (replicate (Z.to_nat (MAX_BITS + 1)) 0) 0 in
  let min_code := 0 :: base_codes (take (Z.to_nat MAX_BITS) bl_count) 0 in
  ASSERT (max_sym <? Z.of_nat (length bit_lengths)) in
  let* tree := assign_codes (take (Z.to_nat (max_sym + 1)) bit_lengths) min_code in
  let* (instant_bits, instant) := build_instant_table tree max_bits in
  let* slow := build_slow_table tree min_code in
  Ok (mk_tree instant_bits min_bits max_bits instant min_code slow).

Definition create (bit_lengths : list Z) : outcome HuffmanTree := initialize bit_lengths.

Definition fixed_lengths : list Z := replicate 144 8 ++ replicate 112 9 ++ replicate 24 7 ++ replicate 8 8.

Definition fixed_tree : outcome HuffmanTree := create fixed_lengths.

Definition get_symbol_instant (t : HuffmanTree) (code : Z) : outcome (option Instant) :=
  match m_instant t !! Z.to_nat code with
  | None => Panic
  | Some entry => Ok (if instant_len entry =? 0 then None else Some entry)
  end.

Definition get_symbol (t : HuffmanTree) (code len : Z) : outcome (option Z) :=
  ASSERT (len <=? m_max_bits t) in
  match m_slow_table t !! Z.to_nat len, m_min_code t !! Z.to_nat len with
  | Some symbols, Some base =>
      let offset := u64 (code - base) in
      if Z.of_nat (length symbols) <=? offset then Ok None else Ok (symbols !! Z.to_nat offset)
  | _, _ => Panic
  end.

(** *** Reading a symbol

    [Decompressor::read_symbol]; it only uses the bit stream of the
    decompressor. *)
Fixpoint read_slow (fuel : nat) (t : HuffmanTree) (code len : Z) : stateful BitInputStream Z :=
  if len <? m_max_bits t then
    match fuel with
    | O => slift Panic
    | S fuel' =>
        let! bit := take_bits 1 in
        let code := u16 (Z.lor (Z.shiftl code 1) bit) in
        let len := u8 (len + 1) in
        let! r := slift (get_symbol t code len) in
        match r with Some symbol => sret symbol | None => read_slow fuel' t code len end
    end
  else sfail EINVAL.

Definition read_symbol (t : HuffmanTree) : stateful BitInputStream Z :=
  let instant_bits := m_instant_bits t in
  let! bits := peek_bits instant_bits in
  let code := reverse_bits bits instant_bits in
  let! r := slift (get_symbol_instant t code) in
  match r with
  | Some entry => let! _ := smust (take_bits (instant_len entry)) in sret (symbol entry)
  | None =>
      let! _ := smust (take_bits instant_bits) in
      read_slow (Z.to_nat MAX_BITS) t code instant_bits
  end.

(** ** Canonical codes *)
Definition cnt (l : Z) (ls : list Z) : Z := Z.of_nat (length (filter (fun x => x = l) ls)).

Lemma cnt_nil l : cnt l [] = 0.
Proof. done. Qed.

Lemma cnt_app l ls1 ls2 : cnt l (ls1 ++ ls2) = cnt l ls1 + cnt l ls2.
Proof. unfold cnt. rewrite list.filter_app, length_app. lia. Qed.

Lemma cnt_cons l x ls : cnt l (x :: ls) = (if decide (x = l) then 1 else 0) + cnt l ls.
Proof. unfold cnt. rewrite list.filter_cons. case_decide; cbn [length]; lia. Qed.

Lemma cnt_snoc l ls x : cnt l (ls ++ [x]) = cnt l ls + (if decide (x = l) then 1 else 0).
Proof. rewrite cnt_app, cnt_cons, cnt_nil. lia. Qed.

Lemma cnt_range l ls : 0 <= cnt l ls <= Z.of_nat (length ls).
Proof. unfold cnt. pose proof (length_filter (fun x => x = l) ls). lia. Qed.

Lemma cnt_take_le l ls n : cnt l (take n ls) <= cnt l ls.
Proof. rewrite <- (take_drop n ls) at 2. rewrite cnt_app. pose proof (cnt_range l (drop n ls)). lia. Qed.

Lemma cnt_take_S l ls n x : ls !! n = Some x -> cnt l (take (S n) ls) = cnt l (take n ls) + (if decide (x = l) then 1 else 0).
Proof. intros Hx. by rewrite (take_S_r ls n x Hx), cnt_snoc. Qed.

Lemma cnt_take_mono l ls n m : (n <= m)%nat -> cnt l (take n ls) <= cnt l (take m ls).
Proof. intros Hnm. replace (take n ls) with (take n (take m ls)) by (rewrite take_take; f_equal; lia). apply cnt_take_le. Qed.

Section canonical.
Context (lens : list Z).

(** The first code of the length [n]. *)
Fixpoint base (n : nat) : Z :=
  match n with
  | O => 0
  | S n' => 2 * (base n' + match n' with O => 0 | S _ => cnt (Z.of_nat n') lens end)
  end.

Definition code_of (sym : nat) (l : Z) : Z := base (Z.to_nat l) + cnt l (take sym lens).

(** The code lengths fit in a binary tree of depth 15. *)
Definition kraft : Prop := base 15 + cnt 15 lens <= 2 ^ 15.

Record lens_ok : Prop := {
  ok_range : Forall (fun l => 0 <= l <= 15) lens;
  ok_kraft : kraft;
  ok_length : 0 < Z.of_nat (length lens) <= 32768
}.

Lemma base_S n : (0 < n)%nat -> base (S n) = 2 * (base n + cnt (Z.of_nat n) lens).
Proof. by destruct n; [lia|]. Qed.

Lemma base_nonneg n : 0 <= base n.
Proof.
  induction n as [|n IH]; [done|]. cbn [base]. destruct n as [|n]; [lia|].
  pose proof (cnt_range (Z.of_nat (S n)) lens). lia.
Qed.

Lemma base_step n m : (0 < n)%nat -> 2 ^ Z.of_nat (S m) * (base n + cnt (Z.of_nat n) lens) <= base (n + S m).
Proof.
  intros Hn. induction m as [|m IH].
  - replace (n + 1)%nat with (S n) by lia. rewrite base_S by done. change (2 ^ Z.of_nat 1) with 2. lia.
  - replace (n + S (S m))%nat with (S (n + S m)) by lia. rewrite base_S by lia.
    rewrite (Nat2Z.inj_succ (S m)), Z.pow_succ_r by lia. pose proof (cnt_range (Z.of_nat (n + S m)) lens). lia.
Qed.

Context (Hok : lens_ok).

Lemma base_bound l : 1 <= l <= 15 -> base (Z.to_nat l) + cnt l lens <= 2 ^ l.
Proof.
  intros Hl. pose proof (ok_kraft Hok) as Hk. unfold kraft in Hk. destruct (decide (l = 15)) as [->|]; [done|].
  pose proof (base_step (Z.to_nat l) (14 - Z.to_nat l) ltac:(lia)) as Hs.
  replace (Z.to_nat l + S (14 - Z.to_nat l))%nat with 15%nat in Hs by lia. pose proof (cnt_range 15 lens).
  replace (Z.of_nat (S (14 - Z.to_nat l))) with (15 - l) in Hs by lia. rewrite Z2Nat.id in Hs by lia.
  assert (H15 : 2 ^ 15 = 2 ^ (15 - l) * 2 ^ l) by (rewrite <- Z.pow_add_r by lia; f_equal; lia).
  assert (0 < 2 ^ (15 - l)) by lia. nia.
Qed.

Lemma len_range sym l : lens !! sym = Some l -> 0 <= l <= 15.
Proof. intros Hl. exact (proj1 (list.Forall_lookup _ _) (ok_range Hok) sym l Hl). Qed.

Lemma len_range_pos sym l : lens !! sym = Some l -> 1 <= l -> 1 <= l <= 15.
Proof. intros Hl. pose proof (len_range sym l Hl). lia. Qed.

Lemma code_range sym l : lens !! sym = Some l -> l <> 0 ->
  base (Z.to_nat l) <= code_of sym l < base (Z.to_nat l) + cnt l lens.
Proof.
  intros Hl Hn. unfold code_of. pose proof (cnt_range l (take sym lens)).
  pose proof (cnt_take_S l lens sym l Hl) as Hs. rewrite decide_True in Hs by done.
  pose proof (cnt_take_le l lens (S sym)). lia.
Qed.

Lemma code_bound sym l : lens !! sym = Some l -> l <> 0 -> 0 <= code_of sym l < 2 ^ l.
Proof.
  intros Hl Hn. pose proof (code_range sym l Hl Hn). pose proof (len_range sym l Hl).
  pose proof (base_bound l ltac:(lia)). pose proof (base_nonneg (Z.to_nat l)). lia.
Qed.

Lemma code_injective s s' l : lens !! s = Some l -> lens !! s' = Some l -> code_of s l = code_of s' l -> s = s'.
Proof.
  assert (Hlt : forall a b, (a < b)%nat -> lens !! a = Some l -> lens !! b = Some l -> code_of a l < code_of b l).
  { intros a b Hab Ha _. unfold code_of. pose proof (cnt_take_S l lens a l Ha) as Hs. rewrite decide_True in Hs by done.
    pose proof (cnt_take_mono l lens (S a) b ltac:(lia)). lia. }
  intros Hs Hs' He. destruct (Nat.lt_trichotomy s s') as [H|[H|H]]; [|done|].
  - specialize (Hlt s s' H Hs Hs'). lia.
  - specialize (Hlt s' s H Hs' Hs). lia.
Qed.

(** No code is a prefix of another. *)
Lemma prefix_free s s' l l' :
  lens !! s = Some l -> lens !! s' = Some l' -> l <> 0 -> l <= l' ->
  Z.shiftr (code_of s' l') (l' - l) = code_of s l -> s = s' /\ l = l'.
Proof.
  intros Hs Hs' Hl Hll He. pose proof (len_range s l Hs). pose proof (len_range s' l' Hs').
  destruct (decide (l = l')) as [->|Hne].
  - rewrite Z.sub_diag, Z.shiftr_0_r in He. split; [|done]. by apply (code_injective s s' l').
  - exfalso. pose proof (base_step (Z.to_nat l) (Z.to_nat (l' - l) - 1) ltac:(lia)) as Hb.
    replace (Z.to_nat l + S (Z.to_nat (l' - l) - 1))%nat with (Z.to_nat l') in Hb by lia.
    replace (Z.of_nat (S (Z.to_nat (l' - l) - 1))) with (l' - l) in Hb by lia. rewrite Z2Nat.id in Hb by lia.
    pose proof (code_range s l Hs Hl). pose proof (code_range s' l' Hs' ltac:(lia)).
    rewrite Z.shiftr_div_pow2 in He by lia. assert (0 < 2 ^ (l' - l)) by lia.
    pose proof (Z.mul_succ_div_gt (code_of s' l') (2 ^ (l' - l)) ltac:(lia)). rewrite He in *. nia.
Qed.

(** ** Building the tables *)
Definition counts (ls : list Z) : list Z := 0 :: ((fun n => cnt (Z.of_nat n) ls) <$> seq 1 15).

Lemma counts_lookup ls l : 1 <= l <= 15 -> counts ls !! Z.to_nat l = Some (cnt l ls).
Proof.
  intros Hl. replace (Z.to_nat l) with (S (Z.to_nat (l - 1))) by lia.
  change (((fun n => cnt (Z.of_nat n) ls) <$> seq 1 15) !! Z.to_nat (l - 1) = Some (cnt l ls)).
  rewrite list_lookup_fmap, lookup_seq_lt by lia. cbn. do 2 f_equal. lia.
Qed.

Lemma counts_snoc ls l : 0 <= l <= 15 ->
  counts (ls ++ [l]) = if l =? 0 then counts ls else <[Z.to_nat l := cnt l ls + 1]> (counts ls).
Proof.
  intros Hl. apply list_eq. intros i. destruct (decide (i < 16)%nat) as [Hi|Hi].
  2:{ rewrite !lookup_ge_None_2; [done| |]; [case_if; [|rewrite length_insert]|]; cbn; lia. }
  destruct i as [|i]; [case_if; zify_bool; [done|]; by rewrite list_lookup_insert_ne by lia|].
  replace (S i) with (Z.to_nat (Z.of_nat (S i))) by lia. rewrite counts_lookup, cnt_snoc by lia.
  destruct (Z.eqb_spec l 0).
  - rewrite decide_False, counts_lookup, Z.add_0_r by lia. done.
  - case_decide as Hd.
    + subst l. rewrite list_lookup_insert_eq; [done|]. cbn; lia.
    + rewrite list_lookup_insert_ne, counts_lookup, Z.add_0_r by lia. done.
Qed.

Record counted (ls : list Z) (mx ms : Z) : Prop := {
  cd_max : Forall (fun l => l <= mx) ls;
  cd_max_range : 0 <= mx <= 15;
  cd_sym : forall i l, ls !! i = Some l -> l <> 0 -> Z.of_nat i <= ms;
  cd_sym_range : 0 <= ms /\ (ms = 0 \/ ms < Z.of_nat (length ls))
}.

Lemma counted_snoc ls mx ms l :
  counted ls mx ms -> 0 <= l <= 15 ->
  counted (ls ++ [l]) (if l =? 0 then mx else Z.max l mx) (if l =? 0 then ms else Z.of_nat (length ls)).
Proof.
  intros [H1 H2 H3 H4] Hl. split.
  - apply list.Forall_app. split.
    + eapply list.Forall_impl; [exact H1|]. intros x Hx. cbn in *. case_if; lia.
    + constructor; [|constructor]. case_if; zify_bool; lia.
  - case_if; lia.
  - intros i x [Hi|[Hi He]]%lookup_app_Some Hx.
    + specialize (H3 i x Hi Hx). apply lookup_lt_Some in Hi. case_if; lia.
    + apply list_lookup_singleton_Some in He as [? <-]. rewrite (proj2 (Z.eqb_neq _ _)) by done. lia.
  - rewrite length_app. cbn [length]. case_if; lia.
Qed.

Lemma count_lengths_spec rest : forall pre mx mn ms,
  lens = pre ++ rest -> counted pre mx ms -> 1 <= mn ->
  exists mx' mn' ms', count_lengths (Z.of_nat (length pre)) rest mx mn (counts pre) ms = Ok (mx', mn', counts lens, ms') /\
    counted lens mx' ms' /\ 1 <= mn'.
Proof.
  induction rest as [|l rest IH]; intros pre mx mn ms Hl Hc Hmn; cbn [count_lengths].
  { rewrite app_nil_r in Hl. subst pre. by exists mx, mn, ms. }
  assert (Hlr : 0 <= l <= 15) by (apply (len_range (length pre)); by rewrite Hl, lookup_app_r, Nat.sub_diag by lia).
  pose proof (counted_snoc pre mx ms l Hc Hlr) as Hc'. pose proof (counts_snoc pre l Hlr) as Hcs.
  assert (Hll : (length pre < length lens)%nat) by (rewrite Hl, length_app; cbn; lia). pose proof (ok_length Hok).
  assert (Hl' : lens = (pre ++ [l]) ++ rest) by (by rewrite <- app_assoc).
  replace (Z.of_nat (length pre) + 1) with (Z.of_nat (length (pre ++ [l]))) by (rewrite length_app; cbn; lia).
  case_if; zify_bool.
  - rewrite <- Hcs. by apply IH.
  - rewrite counts_lookup by lia. pose proof (cnt_range l pre). rewrite !wrap_id by lia. rewrite <- Hcs, Math.max_spec.
    apply IH; [done|done|]. rewrite Math.min_spec. lia.
Qed.

Lemma counts_0 : counts [] = replicate 16 0.
Proof. done. Qed.

Lemma base_codes_spec k : forall n, (n + k = 15)%nat ->
  base_codes (take k (drop n (counts lens))) (base n) = base <$> seq (S n) k.
Proof.
  induction k as [|k IH]; intros n Hn; [done|].
  assert (Hc : exists c, counts lens !! n = Some c /\ base (S n) = 2 * (base n + c)).
  { destruct n as [|n]; [by exists 0|]. exists (cnt (Z.of_nat (S n)) lens). split; [|done].
    pose proof (counts_lookup lens (Z.of_nat (S n)) ltac:(lia)) as H. by rewrite Nat2Z.id in H. }
  destruct Hc as (c & Hc & Hb). rewrite (drop_S _ c n Hc). cbn [take base_codes seq fmap list_fmap].
  assert (Hr : base (S n) <= 2 ^ 15).
  { pose proof (base_bound (Z.of_nat (S n)) ltac:(lia)) as H. rewrite Nat2Z.id in H. pose proof (cnt_range (Z.of_nat (S n)) lens).
    assert (2 ^ Z.of_nat (S n) <= 2 ^ 15) by (apply Z.pow_le_mono_r; lia). lia. }
  pose proof (base_nonneg (S n)). rewrite Z.shiftl_mul_pow2, Z.pow_1_r by lia.
  replace (u16 ((base n + c) * 2)) with (base (S n)) by (rewrite wrap_id; lia).
  f_equal. apply IH. lia.
Qed.

Lemma min_code_spec : 0 :: base_codes (take (Z.to_nat MAX_BITS) (counts lens)) 0 = base <$> seq 0 16.
Proof. pose proof (base_codes_spec 15 0 eq_refl) as H. rewrite drop_0 in H. cbn [seq fmap list_fmap]. f_equal. exact H. Qed.

Lemma min_code_lookup l : 0 <= l <= 15 -> (base <$> seq 0 16) !! Z.to_nat l = Some (base (Z.to_nat l)).
Proof. intros Hl. rewrite list_lookup_fmap, lookup_seq_lt by lia. done. Qed.

Definition leaf_at (i : nat) : Leaf :=
  match lens !! i with
  | Some l => if l =? 0 then mk_leaf 0 0 else mk_leaf (code_of i l) l
  | None => mk_leaf 0 0
  end.

Lemma assign_codes_spec rest : forall pre tail next,
  lens = pre ++ rest ++ tail -> (forall l, 1 <= l <= 15 -> next !! Z.to_nat l = Some (base (Z.to_nat l) + cnt l pre)) ->
  assign_codes rest next = Ok (leaf_at <$> seq (length pre) (length rest)).
Proof.
  induction rest as [|l rest IH]; intros pre tail next Hl Hnext; [done|]. cbn [assign_codes length seq fmap list_fmap].
  assert (Hlk : lens !! length pre = Some l) by (by rewrite Hl, lookup_app_r, Nat.sub_diag by lia).
  pose proof (len_range _ _ Hlk) as Hlr. assert (Hl' : lens = (pre ++ [l]) ++ rest ++ tail) by (by rewrite <- app_assoc).
  assert (Hld : S (length pre) = length (pre ++ [l])) by (rewrite length_app; cbn; lia). rewrite Hld.
  assert (Htake : take (length pre) lens = pre) by (by rewrite Hl, take_app_length).
  unfold leaf_at at 1. rewrite Hlk. case_if; zify_bool.
  - rewrite (IH (pre ++ [l]) tail); [done|done|]. intros m Hm. rewrite Hnext, cnt_snoc, decide_False by lia. f_equal. lia.
  - rewrite Hnext by lia. pose proof (code_range _ _ Hlk ltac:(done)) as Hcr. unfold code_of in *. rewrite Htake in *.
    pose proof (base_bound l ltac:(lia)). pose proof (base_nonneg (Z.to_nat l)).
    assert (2 ^ l <= 2 ^ 15) by (apply Z.pow_le_mono_r; lia). rewrite wrap_id by lia.
    rewrite (IH (pre ++ [l]) tail); [done|done|]. intros m Hm. rewrite cnt_snoc. case_decide as Hd.
    + subst m. rewrite list_lookup_insert_eq; [f_equal; lia|]. eapply lookup_lt_Some, Hnext. lia.
    + rewrite list_lookup_insert_ne, Hnext by lia. f_equal. lia.
Qed.

(** *** The table of short codes *)
Lemma fill_range_spec fuel bound e : forall table j,
  0 <= j <= bound -> bound <= Z.of_nat (length table) < 2 ^ 16 -> bound - j <= Z.of_nat fuel ->
  exists table', fill_range fuel table j bound e = Ok table' /\ length table' = length table /\
    forall c, table' !! c = if (j <=? Z.of_nat c) && (Z.of_nat c <? bound) then Some e else table !! c.
Proof.
  induction fuel as [|fuel IH]; intros table j Hj Hb Hf; cbn [fill_range].
  { rewrite (proj2 (Z.ltb_ge _ _)) by lia. exists table. split_and!; [done|done|]. intros c.
    destruct ((j <=? Z.of_nat c) && (Z.of_nat c <? bound)) eqn:E; [zify_bool; lia|done]. }
  destruct (Z.ltb_spec j bound) as [Hlt|Hge].
  2:{ exists table. split_and!; [done|done|]. intros c.
      destruct ((j <=? Z.of_nat c) && (Z.of_nat c <? bound)) eqn:E; [zify_bool; lia|done]. }
  rewrite (proj2 (Z.ltb_lt _ _)), wrap_id by lia.
  destruct (IH (<[Z.to_nat j := e]> table) (j + 1)) as (t' & -> & Hlen & Hlk); [lia|rewrite length_insert; lia|lia|].
  rewrite length_insert in Hlen. exists t'. split_and!; [done|done|]. intros c. rewrite Hlk.
  destruct (decide (Z.to_nat j = c)) as [<-|Hne].
  - rewrite list_lookup_insert_eq by lia. rewrite Z2Nat.id, (proj2 (Z.leb_le j j)), (proj2 (Z.ltb_lt j bound)) by lia.
    by rewrite (proj2 (Z.leb_gt (j + 1) j)) by lia.
  - rewrite list_lookup_insert_ne by done.
    replace (j + 1 <=? Z.of_nat c) with (j <=? Z.of_nat c); [done|]. apply eq_true_iff_eq. rewrite !Z.leb_le. lia.
Qed.

(** Symbol [i], of length [l], is what the [n] bits [c] begin with. *)
Definition begins (n c : Z) (i : nat) (l : Z) : Prop :=
  lens !! i = Some l /\ 1 <= l <= n /\ Z.shiftr c (n - l) = code_of i l.

Definition instant_ok (n : Z) (upto : nat) (table : list Instant) : Prop :=
  length table = Z.to_nat (2 ^ n) /\
  forall c e, table !! c = Some e ->
    (instant_len e = 0 /\ forall i l, (i < upto)%nat -> ~ begins n (Z.of_nat c) i l) \/
    (exists i l, (i < upto)%nat /\ begins n (Z.of_nat c) i l /\ e = mk_instant (Z.of_nat i) l).

Lemma instant_skip n i table :
  instant_ok n i table -> (forall c l, ~ begins n c i l) -> instant_ok n (S i) table.
Proof.
  intros [Hlen Ht] Hno. split; [done|]. intros c e Hc. destruct (Ht c e Hc) as [[He Hn]|(i' & l & Hi & Hb & He)].
  - left. split; [done|]. intros i' l Hi. destruct (decide (i' = i)) as [->|]; [apply Hno|apply Hn; lia].
  - right. exists i', l. split; [lia|done].
Qed.

Lemma in_code_range c code s : 0 <= s -> (Z.shiftl code s <= c < Z.shiftl (code + 1) s) <-> Z.shiftr c s = code.
Proof.
  intros Hs. rewrite !Z.shiftl_mul_pow2, Z.shiftr_div_pow2 by done. assert (0 < 2 ^ s) by lia.
  pose proof (Z.div_mod c (2 ^ s) ltac:(lia)). pose proof (Z.mod_pos_bound c (2 ^ s) ltac:(lia)). split; intros Hc; nia.
Qed.

Lemma instant_loop_spec n k : 0 <= n <= 9 -> forall i table,
  instant_ok n i table ->
  exists table', instant_loop (Z.of_nat i) (leaf_at <$> seq i k) n table = Ok table' /\ instant_ok n (i + k) table'.
Proof.
  intros Hn. induction k as [|k IH]; intros i table Hok'; cbn [seq fmap list_fmap instant_loop].
  { exists table. by rewrite Nat.add_0_r. }
  replace (Z.of_nat i + 1) with (Z.of_nat (S i)) by lia. replace (i + S k)%nat with (S i + k)%nat by lia.
  destruct (lens !! i) as [l|] eqn:Hl.
  2:{ assert (leaf_at i = mk_leaf 0 0) as -> by (unfold leaf_at; by rewrite Hl). apply IH, instant_skip; [done|]. intros c l [Hl' _]. congruence. }
  pose proof (len_range i l Hl) as Hlr. destruct (decide (l = 0)) as [Hz|Hnz].
  { assert (leaf_at i = mk_leaf 0 0) as -> by (unfold leaf_at; by rewrite Hl, (proj2 (Z.eqb_eq l 0))). apply IH, instant_skip; [done|]. intros c l' (Hl' & ? & _). simplify_eq. lia. }
  assert (leaf_at i = mk_leaf (code_of i l) l) as -> by (unfold leaf_at; by rewrite Hl, (proj2 (Z.eqb_neq l 0))).
  cbn [leaf_len leaf_code]. rewrite (proj2 (Z.eqb_neq l 0)) by done. cbn [orb]. destruct (Z.ltb_spec n l) as [Hgt|Hle].
  { apply IH, instant_skip; [done|]. intros c l' (Hl' & ? & _). simplify_eq. lia. }
  pose proof (code_bound i l Hl Hnz) as Hcb. destruct Hok' as [Hlen Ht].
  assert (Hpow : 2 ^ n = 2 ^ (n - l) * 2 ^ l) by (rewrite <- Z.pow_add_r by lia; f_equal; lia).
  assert (2 ^ n <= 2 ^ 9) by (apply Z.pow_le_mono_r; lia). assert (0 < 2 ^ (n - l)) by lia.
  assert (Hb : 0 <= Z.shiftl (code_of i l) (n - l) <= Z.shiftl (code_of i l + 1) (n - l) /\
    Z.shiftl (code_of i l + 1) (n - l) <= 2 ^ n) by (rewrite !Z.shiftl_mul_pow2 by lia; nia).
  destruct Hb as [Hb1 Hb2]. rewrite wrap_id by lia.
  destruct (fill_range_spec (S (length table)) (Z.shiftl (code_of i l + 1) (n - l)) (mk_instant (Z.of_nat i) l) table
    (Z.shiftl (code_of i l) (n - l))) as (t' & -> & Hlen' & Hlk); [lia|lia|lia|].
  apply IH. split; [congruence|]. intros c e Hc. rewrite Hlk in Hc.
  destruct ((Z.shiftl (code_of i l) (n - l) <=? Z.of_nat c) && (Z.of_nat c <? Z.shiftl (code_of i l + 1) (n - l))) eqn:E.
  - zify_bool. injection Hc as <-. right. exists i, l. split; [lia|]. split; [|done]. split_and!; [done|lia|lia|].
    apply in_code_range; lia.
  - assert (Hout : Z.shiftr (Z.of_nat c) (n - l) <> code_of i l).
    { rewrite <- in_code_range by lia. zify_bool. lia. }
    destruct (Ht c e Hc) as [[He Hno]|(i' & l' & Hi & Hbg & He)].
    + left. split; [done|]. intros i' l' Hi. destruct (decide (i' = i)) as [->|]; [|apply Hno; lia].
      intros (Hl' & _ & Hs). simplify_eq.
    + right. exists i', l'. split; [lia|done].
Qed.

(** *** The table of long codes *)
Definition symbols_of (l : Z) (n : nat) : list Z := Z.of_nat <$> filter (fun i => lens !! i = Some l) (seq 0 n).

Lemma symbols_of_S l n : symbols_of l (S n) = symbols_of l n ++ (if decide (lens !! n = Some l) then [Z.of_nat n] else []).
Proof.
  unfold symbols_of. rewrite seq_S, list.filter_app, fmap_app. f_equal. cbn [Nat.add]. rewrite list.filter_cons.
  by case_decide.
Qed.

Lemma length_symbols_of l n : Z.of_nat (length (symbols_of l n)) = cnt l (take n lens).
Proof.
  induction n as [|n IH]; [done|]. rewrite symbols_of_S, length_app, Nat2Z.inj_add, IH.
  destruct (lens !! n) as [x|] eqn:Hx.
  - rewrite (cnt_take_S l lens n x Hx). repeat case_decide; simplify_eq; done.
  - rewrite decide_False by done. cbn. rewrite Z.add_0_r. apply lookup_ge_None in Hx. by rewrite !take_ge by lia.
Qed.

Lemma symbols_of_lookup l n o s :
  symbols_of l n !! o = Some s <-> exists i, (i < n)%nat /\ lens !! i = Some l /\ cnt l (take i lens) = Z.of_nat o /\ s = Z.of_nat i.
Proof.
  induction n as [|n IH]; [split; [done|]; intros (i & ? & _); lia|]. rewrite symbols_of_S, lookup_app_Some, IH.
  pose proof (length_symbols_of l n) as Hlen. split.
  - intros [(i & Hi & ?)|[Ho He]]; [exists i; split; [lia|done]|]. case_decide as Hd; [|done].
    apply list_lookup_singleton_Some in He as [Ho' <-]. exists n. split_and!; [lia|done|lia|done].
  - intros (i & Hi & Hl & Hc & ->). destruct (decide (i = n)) as [->|]; [|left; exists i; split; [lia|done]].
    right. rewrite decide_True by done. split; [lia|]. by replace (o - _)%nat with 0%nat by lia.
Qed.

Definition slow_ok (upto : nat) (table : list (list Z)) : Prop :=
  forall l, 1 <= l <= 15 -> table !! Z.to_nat l = Some (symbols_of l upto).

Lemma store_symbol_spec symbols sym :
  Z.of_nat (length symbols) < 2 ^ 16 -> store_symbol symbols (Z.of_nat (length symbols)) sym = Ok (symbols ++ [sym]).
Proof.
  intros Hl. unfold store_symbol. rewrite (proj2 (Z.leb_le _ _)), wrap_id, (proj2 (Z.eqb_neq _ _)), (proj2 (Z.leb_gt _ _)) by lia.
  replace (Z.to_nat (Z.of_nat (length symbols) + 1) - length symbols)%nat with 1%nat by lia. cbn [replicate].
  rewrite length_app, (proj2 (Z.ltb_lt _ _)) by (cbn; lia). rewrite Nat2Z.id. by rewrite insert_app_r_alt, Nat.sub_diag by lia.
Qed.

Lemma slow_skip i table : slow_ok i table -> (forall l, 1 <= l <= 15 -> lens !! i <> Some l) -> slow_ok (S i) table.
Proof. intros Ht Hno l Hl. rewrite (Ht l Hl), symbols_of_S, decide_False, app_nil_r by (by apply Hno). done. Qed.

Lemma slow_loop_spec k : forall i table,
  slow_ok i table ->
  exists table', slow_loop (Z.of_nat i) (leaf_at <$> seq i k) (base <$> seq 0 16) table = Ok table' /\ slow_ok (i + k) table'.
Proof.
  induction k as [|k IH]; intros i table Ht; cbn [seq fmap list_fmap slow_loop].
  { exists table. by rewrite Nat.add_0_r. }
  replace (Z.of_nat i + 1) with (Z.of_nat (S i)) by lia. replace (i + S k)%nat with (S i + k)%nat by lia.
  change (base 0 :: (base <$> seq 1 15)) with (base <$> seq 0 16).
  destruct (lens !! i) as [l|] eqn:Hl.
  2:{ assert (leaf_at i = mk_leaf 0 0) as -> by (unfold leaf_at; by rewrite Hl). apply IH, slow_skip; [done|]. intros l _. congruence. }
  pose proof (len_range i l Hl) as Hlr. destruct (decide (l = 0)) as [Hz|Hnz].
  { assert (leaf_at i = mk_leaf 0 0) as -> by (unfold leaf_at; by rewrite Hl, (proj2 (Z.eqb_eq l 0))). apply IH, slow_skip; [done|]. intros l' Hl'. rewrite Hl. intros [= ->]. lia. }
  assert (leaf_at i = mk_leaf (code_of i l) l) as -> by (unfold leaf_at; by rewrite Hl, (proj2 (Z.eqb_neq l 0))).
  cbn [leaf_len leaf_code]. rewrite (proj2 (Z.eqb_neq l 0)) by done. rewrite min_code_lookup, (Ht l) by lia.
  pose proof (code_bound i l Hl Hnz) as Hcb. pose proof (length_symbols_of l i) as Hls.
  assert (2 ^ l <= 2 ^ 15) by (apply Z.pow_le_mono_r; lia). pose proof (base_nonneg (Z.to_nat l)).
  replace (u64 (code_of i l - base (Z.to_nat l))) with (Z.of_nat (length (symbols_of l i))).
  2:{ rewrite Hls. unfold code_of in *. rewrite wrap_id; [lia|]. pose proof (cnt_range l (take i lens)). lia. }
  rewrite store_symbol_spec by (unfold code_of in *; lia).
  apply IH. intros l' Hl'. destruct (decide (l' = l)) as [->|Hne].
  - rewrite list_lookup_insert_eq by (eapply lookup_lt_Some; by apply Ht). by rewrite symbols_of_S, decide_True.
  - rewrite list_lookup_insert_ne, (Ht l'), symbols_of_S, decide_False, app_nil_r by (lia || congruence). done.
Qed.

Record tree_ok (t : HuffmanTree) : Prop := {
  t_max : forall i l, lens !! i = Some l -> l <= m_max_bits t;
  t_max_range : 0 <= m_max_bits t <= 15;
  t_min_bits : 1 <= m_min_bits t;
  t_bits : m_instant_bits t = Z.min 9 (m_max_bits t);
  t_instant : instant_ok (m_instant_bits t) (length lens) (m_instant t);
  t_min : m_min_code t = base <$> seq 0 16;
  t_slow : slow_ok (length lens) (m_slow_table t)
}.

(** Symbols that have no code change nothing. *)
Lemma symbols_of_tail l n m :
  (forall i, (n <= i)%nat -> lens !! i <> Some l) -> (n <= m)%nat -> symbols_of l m = symbols_of l n.
Proof.
  intros Hno. induction 1 as [|m Hm IH]; [done|]. by rewrite symbols_of_S, decide_False, app_nil_r by (by apply Hno).
Qed.

Lemma create_ok : exists t, create lens = Ok t /\ tree_ok t.
Proof.
  unfold create, initialize. pose proof (ok_length Hok) as Hlen.
  destruct (count_lengths_spec lens [] 0 MAX_BITS 0 eq_refl) as (mx & mn & ms & Hc & [Hmx Hmxr Hms Hmsr] & Hmn).
  { split; [constructor|lia|done|lia]. }
  { done. }
  change (Z.of_nat (length [])) with 0 in Hc. change (counts []) with (replicate (Z.to_nat (MAX_BITS + 1)) 0) in Hc.
  rewrite Hc, min_code_spec. rewrite (proj2 (Z.ltb_lt _ _)) by lia.
  set (n := Z.to_nat (ms + 1)). assert (Hn : (n <= length lens)%nat) by lia.
  rewrite (assign_codes_spec (take n lens) [] (drop n lens)).
  2:{ by rewrite app_nil_l, take_drop. }
  2:{ intros l Hl. rewrite min_code_lookup, cnt_nil by lia. f_equal. lia. }
  rewrite length_take, Nat.min_l by done. change (length []) with 0%nat.
  unfold build_instant_table. rewrite Math.min_spec. set (ib := Z.min 9 mx).
  destruct (instant_loop_spec ib n ltac:(subst ib; lia) 0 (replicate (Z.to_nat (Z.shiftl 1 ib)) (mk_instant 0 0))) as (it & Hit & Hiok).
  { split; [by rewrite length_replicate, Z.shiftl_1_l|]. intros c e [-> _]%lookup_replicate. left. split; [done|]. intros i l Hi. lia. }
  change (Z.of_nat 0) with 0 in Hit. rewrite Hit. unfold build_slow_table.
  destruct (slow_loop_spec n 0 (replicate (Z.to_nat (MAX_BITS + 1)) [])) as (st & Hst & Hsok).
  { intros l Hl. change (symbols_of l 0) with (@nil Z). apply lookup_replicate. split; [done|]. change (Z.to_nat (MAX_BITS + 1)) with 16%nat. lia. }
  change (Z.of_nat 0) with 0 in Hst. rewrite Hst. eexists. split; [done|].
  assert (Hzero : forall i l, (n <= i)%nat -> 1 <= l <= 15 -> lens !! i <> Some l).
  { intros i l Hi Hl He. specialize (Hms i l He ltac:(lia)). lia. }
  split; cbn [m_max_bits m_min_bits m_instant_bits m_instant m_min_code m_slow_table].
  - intros i l Hl. exact (proj1 (list.Forall_lookup _ _) Hmx i l Hl).
  - done.
  - done.
  - done.
  - destruct Hiok as [Hil Hit']. split; [done|]. intros c e He. destruct (Hit' c e He) as [[Hz Hno]|(i & l & Hi & Hb & ->)].
    + left. split; [done|]. intros i l Hi Hb. destruct (decide (i < n)%nat) as [Hin|Hin]; [by eapply Hno|].
      destruct Hb as (Hl & ? & _). apply (Hzero i l); [lia|apply (len_range_pos i l Hl); lia|done].
    + right. exists i, l. split; [lia|done].
  - done.
  - intros l Hl. rewrite (Hsok l Hl). f_equal. symmetry. apply symbols_of_tail; [|done]. intros i Hi. by apply Hzero.
Qed.

(** ** Reading a symbol *)

(** The value of the first [n] bits, the first one the most significant. *)
Definition msb (bits : list bool) (n : nat) : Z := value_of (reverse (take n bits)).

Lemma msb_range bits n : 0 <= msb bits n < 2 ^ Z.of_nat n.
Proof.
  unfold msb. pose proof (value_of_range (reverse (take n bits))) as H. rewrite length_reverse, length_take in H.
  assert (2 ^ Z.of_nat (n `min` length bits) <= 2 ^ Z.of_nat n) by (apply Z.pow_le_mono_r; lia). lia.
Qed.

Lemma msb_S bits n b : bits !! n = Some b -> msb bits (S n) = 2 * msb bits n + Z.b2z b.
Proof. intros Hb. unfold msb. rewrite (take_S_r _ _ _ Hb), reverse_snoc. cbn [value_of]. lia. Qed.

Lemma msb_shift bits l k : (l + k <= length bits)%nat -> Z.shiftr (msb bits (l + k)) (Z.of_nat k) = msb bits l.
Proof.
  induction k as [|k IH]; intros Hk; [by rewrite Nat.add_0_r, Z.shiftr_0_r|].
  replace (l + S k)%nat with (S (l + k)) by lia.
  destruct (lookup_lt_is_Some_2 bits (l + k)) as [b Hb]; [lia|]. rewrite (msb_S _ _ _ Hb).
  rewrite Nat2Z.inj_succ, <- Z.add_1_l, <- Z.shiftr_shiftr by lia. rewrite <- IH by lia. f_equal.
  rewrite Z.shiftr_div_pow2, Z.pow_1_r, Z.add_comm, Z.mul_comm, Z.div_add by lia. by destruct b.
Qed.

(** The stream begins with the code of symbol [i]. *)
Definition decodes (bits : list bool) (i : nat) (l : Z) : Prop :=
  lens !! i = Some l /\ 1 <= l <= Z.of_nat (length bits) /\ msb bits (Z.to_nat l) = code_of i l.

Lemma decodes_unique bits i l i' l' : decodes bits i l -> decodes bits i' l' -> i = i' /\ l = l'.
Proof.
  assert (H : forall i l i' l', l <= l' -> decodes bits i l -> decodes bits i' l' -> i = i' /\ l = l').
  { clear i l i' l'. intros i l i' l' Hle (Hi & Hl & Hc) (Hi' & Hl' & Hc'). apply prefix_free; [done|done|lia|done|].
    rewrite <- Hc, <- Hc'. pose proof (msb_shift bits (Z.to_nat l) (Z.to_nat l' - Z.to_nat l) ltac:(lia)) as Hs.
    replace (Z.to_nat l + (Z.to_nat l' - Z.to_nat l))%nat with (Z.to_nat l') in Hs by lia.
    by replace (Z.of_nat (Z.to_nat l' - Z.to_nat l)) with (l' - l) in Hs by lia. }
  intros Hd Hd'. destruct (Z.le_ge_cases l l'); [by apply H|]. destruct (H i' l' i l) as [-> ->]; done.
Qed.

Lemma get_symbol_spec t c l : tree_ok t -> 1 <= l <= m_max_bits t -> 0 <= c < 2 ^ 16 ->
  exists o, get_symbol t c l = Ok o /\
  match o with
  | Some s => exists i, lens !! i = Some l /\ c = code_of i l /\ s = Z.of_nat i
  | None => forall i, lens !! i = Some l -> c <> code_of i l
  end.
Proof.
  intros [Hmax Hmr _ _ _ Hmin Hslow] Hl Hc. unfold get_symbol. rewrite (proj2 (Z.leb_le _ _)) by lia.
  rewrite (Hslow l), Hmin, min_code_lookup by lia. pose proof (length_symbols_of l (length lens)) as Hls.
  rewrite take_ge in Hls by done. pose proof (base_bound l ltac:(lia)). pose proof (base_nonneg (Z.to_nat l)).
  assert (2 ^ l <= 2 ^ 15) by (apply Z.pow_le_mono_r; lia). pose proof (cnt_range l lens).
  assert (Hcode : forall i, lens !! i = Some l -> base (Z.to_nat l) <= code_of i l < base (Z.to_nat l) + cnt l lens).
  { intros i Hi. apply code_range; [done|lia]. }
  destruct (Z.leb_spec (Z.of_nat (length (symbols_of l (length lens)))) (u64 (c - base (Z.to_nat l)))) as [Hge|Hlt].
  - exists None. split; [done|]. intros i Hi ->. specialize (Hcode i Hi). rewrite wrap_id in Hge by lia. lia.
  - assert (Hcb : base (Z.to_nat l) <= c).
    { destruct (Z.le_gt_cases (base (Z.to_nat l)) c); [done|]. exfalso.
      assert (Hw : u64 (c - base (Z.to_nat l)) = c - base (Z.to_nat l) + 2 ^ 64); [|lia].
      unfold wrap. rewrite <- (Z.mod_add _ 1) by lia. rewrite Z.mod_small by lia. lia. }
    rewrite wrap_id in * by lia.
    destruct (lookup_lt_is_Some_2 (symbols_of l (length lens)) (Z.to_nat (c - base (Z.to_nat l)))) as [s Hs]; [lia|].
    rewrite Hs. exists (Some s). split; [done|]. apply symbols_of_lookup in Hs as (i & _ & Hi & Hcnt & ->).
    exists i. split_and!; [done| |done]. unfold code_of. lia.
Qed.

(** What [read_symbol] may do on a stream that holds [bits] and is left with
    [rest]. *)
Definition read_post (t : HuffmanTree) (bits : list bool) (r : outcome Z) (rest : list bool) : Prop :=
  match r with
  | Ok s => exists i l, decodes bits i l /\ s = Z.of_nat i /\ rest = drop (Z.to_nat l) bits
  | Err EINVAL => m_max_bits t <= Z.of_nat (length bits) /\ forall i l, ~ decodes bits i l
  | Err ENOBUFS =>
      Z.of_nat (length bits) < m_instant_bits t \/
      (Z.of_nat (length bits) < m_max_bits t /\ forall i l, ~ decodes bits i l)
  | _ => False
  end.

Lemma value_of_bit bits : (1 <= length bits)%nat -> exists b, bits !! 0%nat = Some b /\ value_of (take 1 bits) = Z.b2z b.
Proof. destruct bits as [|b bits]; cbn; [lia|]. intros _. exists b. split; [done|]. by destruct b. Qed.

Lemma read_slow_spec t bits fuel : tree_ok t -> forall n s,
  m_instant_bits t <= Z.of_nat n <= m_max_bits t -> m_max_bits t - Z.of_nat n <= Z.of_nat fuel ->
  (n <= length bits)%nat -> input_wf s -> stream_bits s = drop n bits ->
  (forall i l, decodes bits i l -> Z.of_nat n < l) ->
  let '(r, s') := read_slow fuel t (msb bits n) (Z.of_nat n) s in input_wf s' /\ read_post t bits r (stream_bits s').
Proof.
  intros Ht. destruct (t_max_range t Ht) as [_ Hm15].
  induction fuel as [|fuel IH]; intros n s Hn Hfuel Hlen Hwf Hs Hno; cbn [read_slow].
  { rewrite (proj2 (Z.ltb_ge _ _)) by lia. split; [done|]. split; [lia|]. intros i l Hd. specialize (Hno i l Hd).
    pose proof (t_max t Ht i l (proj1 Hd)). lia. }
  destruct (Z.ltb_spec (Z.of_nat n) (m_max_bits t)) as [Hlt|Hge].
  2:{ split; [done|]. split; [lia|]. intros i l Hd. specialize (Hno i l Hd). pose proof (t_max t Ht i l (proj1 Hd)). lia. }
  unfold sbind at 1. pose proof (take_bits_spec 1 s ltac:(lia) Hwf) as Htk. destruct (take_bits 1 s) as [r s1].
  destruct Htk as (Hwf1 & Hr & Hs1). unfold reads in Hr. rewrite Hs, length_drop in Hr.
  destruct (Z.ltb_spec (Z.of_nat (length bits - n)) 1) as [Hsh|Hsh]; subst r.
  { split; [done|]. right. split; [lia|]. intros i l Hd. specialize (Hno i l Hd). destruct Hd as (_ & ? & _). lia. }
  destruct (value_of_bit (drop n bits)) as (b & Hb & Hv); [rewrite length_drop; lia|]. change (Z.to_nat 1) with 1%nat in *.
  rewrite Hv. rewrite lookup_drop, Nat.add_0_r in Hb. pose proof (msb_S bits n b Hb) as Hmsb.
  pose proof (msb_range bits (S n)) as Hmr. assert (2 ^ Z.of_nat (S n) <= 2 ^ 15) by (apply Z.pow_le_mono_r; lia).
  pose proof (msb_range bits n) as Hmn.
  replace (u16 (Z.lor (Z.shiftl (msb bits n) 1) (Z.b2z b))) with (msb bits (S n)).
  2:{ rewrite lor_shiftl_add by (destruct b; cbn; lia). rewrite wrap_id; lia. }
  replace (u8 (Z.of_nat n + 1)) with (Z.of_nat (S n)) by (rewrite wrap_id; lia).
  unfold sbind, slift. destruct (get_symbol_spec t (msb bits (S n)) (Z.of_nat (S n)) Ht ltac:(lia) ltac:(lia)) as (o & -> & Ho).
  rewrite Hs, drop_drop in Hs1. replace (n + 1)%nat with (S n) in Hs1 by lia.
  destruct o as [sym|].
  - destruct Ho as (i & Hi & Hc & ->). split; [done|]. exists i, (Z.of_nat (S n)). rewrite Nat2Z.id. split_and!; [|done|done].
    split_and!; [done|lia|lia|by rewrite Nat2Z.id].
  - apply IH; [lia|lia|lia|done|done|]. intros i l Hd. specialize (Hno i l Hd).
    destruct (decide (l = Z.of_nat (S n))) as [->|]; [|lia]. destruct Hd as (Hi & _ & Hc). rewrite Nat2Z.id in Hc.
    by destruct (Ho i Hi).
Qed.

Lemma smust_ok {S A} (m : stateful S A) st a st' : m st = (Ok a, st') -> smust m st = (Ok a, st').
Proof. unfold smust. by intros ->. Qed.

Lemma read_symbol_spec t s : tree_ok t -> input_wf s ->
  let '(r, s') := read_symbol t s in input_wf s' /\ read_post t (stream_bits s) r (stream_bits s').
Proof.
  intros Ht Hwf. destruct (t_max_range t Ht) as [Hm0 Hm15]. pose proof (t_bits t Ht) as Hib. destruct (t_instant t Ht) as [Hil Hit].
  set (ib := m_instant_bits t) in *. set (bits := stream_bits s). unfold read_symbol, sbind at 1. fold ib.
  pose proof (peek_bits_spec ib s ltac:(lia) Hwf) as Hp. destruct (peek_bits ib s) as [r s1].
  destruct Hp as (Hwf1 & Hs1 & Hr & _). unfold reads in Hr. fold bits in Hs1, Hr.
  destruct (Z.ltb_spec (Z.of_nat (length bits)) ib) as [Hsh|Hge]; subst r.
  { split; [done|]. left. done. }
  assert (Hcode : reverse_bits (value_of (take (Z.to_nat ib) bits)) ib = msb bits (Z.to_nat ib)).
  { unfold msb. rewrite <- reverse_bits_value by (rewrite length_take; lia). f_equal. rewrite length_take. lia. }
  rewrite Hcode. pose proof (msb_range bits (Z.to_nat ib)) as Hmr. rewrite Z2Nat.id in Hmr by lia.
  unfold sbind at 1, slift, get_symbol_instant.
  destruct (lookup_lt_is_Some_2 (m_instant t) (Z.to_nat (msb bits (Z.to_nat ib)))) as [e He]; [lia|]. rewrite He.
  (* the codes that the first [ib] bits begin with are those the stream begins with *)
  assert (Hbd : forall i l, l <= ib -> begins ib (msb bits (Z.to_nat ib)) i l <-> decodes bits i l).
  { intros i l Hl. unfold begins, decodes.
    assert (Hsh : 1 <= l -> Z.shiftr (msb bits (Z.to_nat ib)) (ib - l) = msb bits (Z.to_nat l)).
    { intros H1. pose proof (msb_shift bits (Z.to_nat l) (Z.to_nat ib - Z.to_nat l) ltac:(lia)) as Hsh.
      replace (Z.to_nat l + (Z.to_nat ib - Z.to_nat l))%nat with (Z.to_nat ib) in Hsh by lia.
      by replace (Z.of_nat (Z.to_nat ib - Z.to_nat l)) with (ib - l) in Hsh by lia. }
    split; intros (Hi & Hr & Hc); (split_and!; [done|lia|lia|]); [by rewrite <- Hsh by lia|by rewrite Hsh by lia]. }
  specialize (Hit _ _ He). rewrite Z2Nat.id in Hit by lia.
  destruct Hit as [[Hz Hno]|(i & l & Hi & Hb & ->)].
  - rewrite Hz. cbn [Z.eqb]. unfold sbind at 1. pose proof (take_bits_spec ib s1 ltac:(lia) Hwf1) as Htk.
    destruct (take_bits ib s1) as [r s2] eqn:E. destruct Htk as (Hwf2 & Hr & Hs2). rewrite Hs1 in Hr, Hs2.
    unfold reads in Hr. rewrite (proj2 (Z.ltb_ge _ _)) in Hr by lia. subst r. rewrite (smust_ok _ _ _ _ E).
    assert (Hlong : forall i l, decodes bits i l -> Z.of_nat (Z.to_nat ib) < l).
    { intros i l Hd. destruct (Z.le_gt_cases l ib) as [Hle|]; [|lia]. exfalso. apply (Hno i l); [|by apply Hbd].
      eapply lookup_lt_Some. apply Hd. }
    pose proof (read_slow_spec t bits (Z.to_nat MAX_BITS) Ht (Z.to_nat ib) s2) as Hslow. rewrite Z2Nat.id in Hslow by lia.
    apply Hslow; [lia|unfold MAX_BITS; lia|lia|done|done|]. intros i l Hd. specialize (Hlong i l Hd). lia.
  - destruct Hb as (Hl & Hlr & Hc). cbn [instant_len symbol]. rewrite (proj2 (Z.eqb_neq l 0)) by lia. cbn [instant_len symbol].
    unfold sbind at 1. pose proof (take_bits_spec l s1 ltac:(lia) Hwf1) as Htk.
    destruct (take_bits l s1) as [r s2] eqn:E. destruct Htk as (Hwf2 & Hr & Hs2). rewrite Hs1 in Hr, Hs2.
    unfold reads in Hr. rewrite (proj2 (Z.ltb_ge _ _)) in Hr by lia. subst r. rewrite (smust_ok _ _ _ _ E). cbn [sret].
    split; [done|]. exists i, l. split_and!; [|done|done]. apply Hbd; [lia|]. split; [done|]; split; [lia|done].
Qed.

(** The bits of the code of a symbol as they stand in the stream. *)
Definition canonical_bits (sym : nat) (l : Z) : list bool := reverse (bits_of (Z.to_nat l) (code_of sym l)).

Lemma decodes_canonical bits i l rest :
  lens !! i = Some l -> l <> 0 -> bits = canonical_bits i l ++ rest -> decodes bits i l /\ drop (Z.to_nat l) bits = rest.
Proof.
  intros Hi Hl ->. pose proof (len_range i l Hi). assert (Hlen : length (canonical_bits i l) = Z.to_nat l).
  { unfold canonical_bits. by rewrite length_reverse, length_bits_of. }
  split; [|by apply drop_app_length']. split_and!; [done|lia|rewrite length_app; lia|].
  unfold msb. rewrite take_app_length' by done. unfold canonical_bits. rewrite reverse_involutive, value_bits_of, Z2Nat.id by lia.
  apply Z.mod_small. by apply code_bound.
Qed.
End canonical.

(** C18: Canonical Huffman decoding is correct.  For every assignment
    of code lengths that fits in a binary tree the tables are built without
    failing an assertion, and then every stream that begins with the RFC 1951
    code of a symbol, and holds the bits the first look-up peeks at, is read as
    that symbol and left at the bit after its code, whether the code is found
    in the instant table or bit by bit; a stream that begins with no code of
    the tree is refused with EINVAL. *)
Theorem huffman_decodes (lens : list Z) (Hok : lens_ok lens) :
  exists t, create lens = Ok t /\ forall s, input_wf s ->
    (forall sym l rest, lens !! sym = Some l -> l <> 0 ->
       stream_bits s = canonical_bits lens sym l ++ rest -> m_instant_bits t <= Z.of_nat (length (stream_bits s)) ->
       exists s', read_symbol t s = (Ok (Z.of_nat sym), s') /\ input_wf s' /\ stream_bits s' = rest) /\
    (m_max_bits t <= Z.of_nat (length (stream_bits s)) ->
       (forall sym l rest, lens !! sym = Some l -> l <> 0 -> stream_bits s <> canonical_bits lens sym l ++ rest) ->
       exists s', read_symbol t s = (Err EINVAL, s') /\ input_wf s').
Proof.
  destruct (create_ok lens Hok) as (t & Hc & Ht). exists t. split; [done|]. intros s Hwf.
  pose proof (read_symbol_spec lens Hok t s Ht Hwf) as Hr. destruct (read_symbol t s) as [r s'].
  destruct Hr as [Hwf' Hr]. split.
  - intros sym l rest Hl Hnz Hs Hib. destruct (decodes_canonical lens Hok _ sym l rest Hl Hnz Hs) as [Hd Hrest]. exists s'.
    destruct r as [v|e|]; [| |done].
    + destruct Hr as (i & l' & Hd' & -> & Hs'). destruct (decodes_unique lens Hok _ _ _ _ _ Hd Hd') as [<- <-].
      split_and!; [done|done|congruence].
    + exfalso. destruct e; try done; cbn in Hr.
      * destruct Hr as [_ Hno]. by eapply Hno.
      * destruct Hr as [Hr|[_ Hno]]; [lia|by eapply Hno].
  - intros Hmax Hno. exists s'. destruct r as [v|e|]; [| |done].
    + exfalso. destruct Hr as (i & l & (Hi & Hlr & Hmsb) & _ & Hs'). pose proof (len_range lens Hok i l Hi).
      apply (Hno i l (stream_bits s') Hi ltac:(lia)). rewrite Hs'. rewrite <- (take_drop (Z.to_nat l) (stream_bits s)) at 1. f_equal.
      unfold canonical_bits. rewrite <- Hmsb. unfold msb.
      rewrite <- (reverse_involutive (take (Z.to_nat l) (stream_bits s))) at 1. f_equal.
      rewrite <- (bits_of_value (reverse (take (Z.to_nat l) (stream_bits s)))) at 1. f_equal.
      rewrite length_reverse, length_take. lia.
    + split; [|done]. destruct e; try done. exfalso. cbn in Hr. pose proof (t_bits lens t Ht).
      destruct Hr as [?|[? _]]; lia.
Qed.

Definition sample_lengths : list Z := [3; 3; 3; 3; 3; 2; 4; 4].

Lemma sample_lengths_ok : lens_ok sample_lengths.
Proof. split; [by repeat constructor|done|cbn; lia]. Qed.

Lemma huffman_decodes_witness :
  exists t s', create sample_lengths = Ok t /\ read_symbol t (mk_input [15] 0 0) = (Ok 7, s') /\
    stream_bits s' = [false; false; false; false].
Proof.
  destruct (huffman_decodes sample_lengths sample_lengths_ok) as (t & Hc & Ht).
  destruct (Ht (mk_input [15] 0 0)) as [Hread _]; [split; cbn; [lia|lia|by repeat constructor]|].
  destruct (Hread 7%nat 4 [false; false; false; false]) as (s' & Hr & _ & Hs); [done|done|by vm_compute| |].
  - vm_compute in Hc. injection Hc as <-. by vm_compute.
  - by exists t, s'.
Defined.
