(* ===== verification/Inflate.v ===== *)
(** * LibDEFLATE/Decompressor: the streaming decompressor

    A decompressor is fed its input in pieces and writes to output buffers of
    any size; what does not fit waits in the 32 KiB window.  The two members
    of the union [m_stream_info] are two groups of fields, of which the type of
    the stream uses one.  Memory is taken to be available. *)
From S2P Require Import Prelude BanMath BitStream Huffman.

(** ** Definitions *)
Inductive StreamType : Type := Raw | Zlib | GZip.
Inductive Status : Type := Done | NeedMoreInput | NeedMoreOutput.
Inductive State : Type :=
| StreamHeader | StreamFooter | BlockHeader | LiteralHeader | DynamicHeader | ReadRaw | Symbol | StateDone.

#[export] Instance State_eq_dec : EqDecision State.
Proof. solve_decision. Defined.

Record stream_info : Type := mk_info { zs1 : Z; zs2 : Z; zadler32 : Z; gcrc32 : Z; gisize : Z }.

Record Decompressor : Type := mk {
  m_type : StreamType;
  m_state : State;
  m_stream : BitInputStream;
  m_window : list Z;
  m_window_size : Z;
  m_window_tail : Z;
  m_produced_bytes : Z;
  m_bfinal : bool;
  m_length_tree : HuffmanTree;
  m_distance_tree : HuffmanTree;
  m_raw_bytes_left : Z;
  m_stream_info : stream_info
}.

Definition construct (type : StreamType) : Decompressor :=
  mk type StreamHeader (mk_input [] 0 0) [] 0 0 0 false empty_tree empty_tree 0 (mk_info 0 0 0 0 0).

Definition total_window_size : Z := 32 * 1024.

Definition set_state (d : Decompressor) (st : State) : Decompressor :=
  mk (m_type d) st (m_stream d) (m_window d) (m_window_size d) (m_window_tail d) (m_produced_bytes d) (m_bfinal d)
    (m_length_tree d) (m_distance_tree d) (m_raw_bytes_left d) (m_stream_info d).
Definition set_stream (d : Decompressor) (s : BitInputStream) : Decompressor :=
  mk (m_type d) (m_state d) s (m_window d) (m_window_size d) (m_window_tail d) (m_produced_bytes d) (m_bfinal d)
    (m_length_tree d) (m_distance_tree d) (m_raw_bytes_left d) (m_stream_info d).
Definition set_window (d : Decompressor) (w : list Z) (size tail produced : Z) : Decompressor :=
  mk (m_type d) (m_state d) (m_stream d) w size tail produced (m_bfinal d)
    (m_length_tree d) (m_distance_tree d) (m_raw_bytes_left d) (m_stream_info d).
Definition set_bfinal (d : Decompressor) (b : bool) : Decompressor :=
  mk (m_type d) (m_state d) (m_stream d) (m_window d) (m_window_size d) (m_window_tail d) (m_produced_bytes d) b
    (m_length_tree d) (m_distance_tree d) (m_raw_bytes_left d) (m_stream_info d).
Definition set_trees (d : Decompressor) (lt dt : HuffmanTree) : Decompressor :=
  mk (m_type d) (m_state d) (m_stream d) (m_window d) (m_window_size d) (m_window_tail d) (m_produced_bytes d) (m_bfinal d)
    lt dt (m_raw_bytes_left d) (m_stream_info d).
Definition set_raw (d : Decompressor) (n : Z) : Decompressor :=
  mk (m_type d) (m_state d) (m_stream d) (m_window d) (m_window_size d) (m_window_tail d) (m_produced_bytes d) (m_bfinal d)
    (m_length_tree d) (m_distance_tree d) n (m_stream_info d).
Definition set_info (d : Decompressor) (i : stream_info) : Decompressor :=
  mk (m_type d) (m_state d) (m_stream d) (m_window d) (m_window_size d) (m_window_tail d) (m_produced_bytes d) (m_bfinal d)
    (m_length_tree d) (m_distance_tree d) (m_raw_bytes_left d) i.

(** An operation on [m_stream]. *)
Definition on_stream {A} (m : stateful BitInputStream A) : stateful Decompressor A := fun d =>
  let '(r, s) := m (m_stream d) in (r, set_stream d s).

Definition take (count : Z) : stateful Decompressor Z := on_stream (take_bits count).

Definition modify (f : Decompressor -> Decompressor) : stateful Decompressor unit := fun d => (Ok tt, f d).

(** *** Stream headers *)
Fixpoint skip_bytes (n : nat) : stateful Decompressor unit :=
  match n with O => sret tt | S n' => let! _ := take 8 in skip_bytes n' end.

(** [while (TRY(m_stream.take_bits(8)) != '\0')]: every round takes a byte, so
    the input ends before the fuel. *)
Fixpoint skip_string (fuel : nat) : stateful Decompressor unit :=
  match fuel with
  | O => slift Panic
  | S fuel' => let! c := take 8 in if c =? 0 then sret tt else skip_string fuel'
  end.

Definition stream_fuel (d : Decompressor) : nat := S (Z.to_nat (available_bits (m_stream d))).

Definition handle_header : stateful Decompressor unit := fun d =>
  match m_type d with
  | Raw => (Ok tt, d)
  | Zlib =>
      (let! raw1 := take 8 in
       let! raw2 := take 8 in
       if negb (Z.lor (Z.shiftl raw1 8) raw2 `mod` 31 =? 0) then sfail EINVAL
       else if negb (Z.land raw1 15 =? 8) then sfail EINVAL
       else
         let! _ :=
           (if Z.testbit raw2 5 then let! _ := take 16 in let! _ := take 16 in sret tt else sret tt) in
         modify (fun d => set_info d (mk_info 1 0 0 (gcrc32 (m_stream_info d)) (gisize (m_stream_info d))))) d
  | GZip =>
      (let! id1 := take 8 in
       let! id2 := take 8 in
       if negb (id1 =? 0x1F) || negb (id2 =? 0x8B) then sfail EINVAL
       else
         let! cm := take 8 in
         if negb (cm =? 8) then sfail EINVAL
         else
           let! flg := take 8 in
           let! _ := take 16 in
           let! _ := take 16 in
           let! _ := take 8 in
           let! _ := take 8 in
           let! _ := (if Z.testbit flg 2 then let! xlen := take 16 in skip_bytes (Z.to_nat xlen) else sret tt) in
           let! _ := (if Z.testbit flg 3 then fun d => skip_string (stream_fuel d) d else sret tt) in
           let! _ := (if Z.testbit flg 4 then fun d => skip_string (stream_fuel d) d else sret tt) in
           let! _ := (if Z.testbit flg 1 then let! _ := take 16 in sret tt else sret tt) in
           modify (fun d => set_info d (mk_info (zs1 (m_stream_info d)) (zs2 (m_stream_info d)) (zadler32 (m_stream_info d)) 0xFFFFFFFF 0))) d
  end.

(** [adler32 = (adler32 << 8) | take_bits(8)], [n] times. *)
Fixpoint read_big_endian (n : nat) (acc : Z) : stateful Decompressor Z :=
  match n with
  | O => sret acc
  | S n' => let! b := take 8 in read_big_endian n' (Z.lor (u32 (Z.shiftl acc 8)) b)
  end.

(** [take_bits(16) | take_bits(16) << 16] *)
Definition read_u32 : stateful Decompressor Z :=
  let! low := take 16 in let! high := take 16 in sret (Z.lor low (u32 (Z.shiftl high 16))).

Definition handle_footer : stateful Decompressor unit := fun d =>
  match m_type d with
  | Raw => (Ok tt, d)
  | Zlib =>
      (let! _ := modify (fun d => set_stream d (skip_to_byte_boundary (m_stream d))) in
       let! adler32 := read_big_endian 4 0 in
       let! _ := modify (fun d =>
         let i := m_stream_info d in
         set_info d (mk_info (zs1 i) (zs2 i) (Z.lor (u32 (Z.shiftl (zs2 i) 16)) (zs1 i)) (gcrc32 i) (gisize i))) in
       let! d := sget in
       if negb (adler32 =? zadler32 (m_stream_info d)) then sfail EINVAL else sret tt) d
  | GZip =>
      (let! _ := modify (fun d => set_stream d (skip_to_byte_boundary (m_stream d))) in
       let! _ := modify (fun d =>
         let i := m_stream_info d in
         set_info d (mk_info (zs1 i) (zs2 i) (zadler32 i) (Z.lxor (gcrc32 i) 0xFFFFFFFF) (gisize i))) in
       let! crc32 := read_u32 in
       let! d := sget in
       if negb (crc32 =? gcrc32 (m_stream_info d)) then sfail EINVAL
       else
         let! isize := read_u32 in
         if negb (isize =? gisize (m_stream_info d)) then sfail EINVAL else sret tt) d
  end.

(** *** Dynamic trees *)
Definition code_length_order : list nat :=
  [16; 17; 18; 0; 8; 7; 9; 6; 10; 5; 11; 4; 12; 3; 13; 2; 14; 1; 15]%nat.

Fixpoint read_code_lengths (order : list nat) (code_lengths : list Z) : stateful Decompressor (list Z) :=
  match order with
  | [] => sret code_lengths
  | i :: order' => let! l := take 3 in read_code_lengths order' (<[i := l]> code_lengths)
  end.

(** The size of the array [bit_lengths]. *)
Definition bit_lengths_size : Z := 286 + 32.

(** The loop that fills [bit_lengths], of which [acc] are filled in; writing
    past the end of the array is [Panic].  Every round fills in one at least. *)
Fixpoint read_bit_lengths (fuel : nat) (tree : HuffmanTree) (total : Z) (acc : list Z) (last_symbol : Z)
  : stateful Decompressor (list Z) :=
  if Z.of_nat (length acc) <? total then
    match fuel with
    | O => slift Panic
    | S fuel' =>
        let! symbol := on_stream (read_symbol tree) in
        if 18 <? symbol then sfail EINVAL
        else
          let! (symbol, count) :=
            (if symbol <=? 15 then sret (symbol, 1)
             else if symbol =? 16 then let! n := take 2 in sret (last_symbol, n + 3)
             else if symbol =? 17 then let! n := take 3 in sret (0, n + 3)
             else let! n := take 7 in sret (0, n + 11)) in
          let! _ := sassert (Z.of_nat (length acc) + count <=? total) in
          let! _ := sassert (Z.of_nat (length acc) + count <=? bit_lengths_size) in
          read_bit_lengths fuel' tree total (acc ++ replicate (Z.to_nat count) symbol) symbol
    end
  else sret acc.

Definition handle_dynamic_header : stateful Decompressor unit :=
  let! hlit := take 5 in
  let! hdist := take 5 in
  let! hclen := take 4 in
  let hlit := hlit + 257 in
  let hdist := hdist + 1 in
  let hclen := hclen + 4 in
  let! code_lengths := read_code_lengths (firstn (Z.to_nat hclen) code_length_order) (replicate 19 0) in
  let! code_length_tree := slift (create code_lengths) in
  let! bit_lengths := read_bit_lengths (Z.to_nat (hlit + hdist)) code_length_tree (hlit + hdist) [] 0 in
  let! length_tree := slift (create (firstn (Z.to_nat hlit) bit_lengths)) in
  let! _ := modify (fun d => set_trees d length_tree (m_distance_tree d)) in
  let! distance_tree := slift (create (skipn (Z.to_nat hlit) bit_lengths)) in
  modify (fun d => set_trees d length_tree distance_tree).

(** *** Symbols *)
Definition length_base : list Z :=
  [3; 4; 5; 6; 7; 8; 9; 10; 11; 13; 15; 17; 19; 23; 27; 31; 35; 43; 51; 59; 67; 83; 99; 115; 131; 163; 195; 227; 258].
Definition length_extra_bits : list Z :=
  [0; 0; 0; 0; 0; 0; 0; 0; 1; 1; 1; 1; 2; 2; 2; 2; 3; 3; 3; 3; 4; 4; 4; 4; 5; 5; 5; 5; 0].
Definition distance_base : list Z :=
  [1; 2; 3; 4; 5; 7; 9; 13; 17; 25; 33; 49; 65; 97; 129; 193; 257; 385; 513; 769; 1025; 1537; 2049; 3073; 4097; 6145;
   8193; 12289; 16385; 24577].
Definition distance_extra_bits : list Z :=
  [0; 0; 0; 0; 1; 1; 2; 2; 3; 3; 4; 4; 5; 5; 6; 6; 7; 7; 8; 8; 9; 9; 10; 10; 11; 11; 12; 12; 13; 13].

(** [m_window[i]], with the assertion of the vector. *)
Definition window_get (w : list Z) (i : Z) : outcome Z :=
  match w !! Z.to_nat i with Some b => Ok b | None => Panic end.
Definition window_set (w : list Z) (i : Z) (b : Z) : outcome (list Z) :=
  ASSERT (i <? Z.of_nat (length w)) in Ok (<[Z.to_nat i := b]> w).

(** The copy of a match, [n] bytes of [length] before its end. *)
Fixpoint copy_match (n : nat) (w : list Z) (dst src : Z) : outcome (list Z) :=
  match n with
  | O => Ok w
  | S n' =>
      let* b := window_get w (src `mod` total_window_size) in
      let* w := window_set w (dst `mod` total_window_size) b in
      copy_match n' w (dst + 1) (src + 1)
  end.

(** The end of a match or of raw bytes: [n] bytes were put after the window. *)
Definition grow_window (d : Decompressor) (w : list Z) (n : Z) : Decompressor :=
  let size := m_window_size d + n in
  let produced := m_produced_bytes d + n in
  if total_window_size <? size then
    set_window d w total_window_size ((m_window_tail d + (size - total_window_size)) `mod` total_window_size) produced
  else set_window d w size (m_window_tail d) produced.

Definition put_literal (symbol : Z) : stateful Decompressor unit := fun d =>
  match window_set (m_window d) ((m_window_tail d + m_window_size d) `mod` total_window_size) (u8 symbol) with
  | Ok w =>
      (Ok tt,
       if m_window_size d <? total_window_size
       then set_window d w (m_window_size d + 1) (m_window_tail d) (m_produced_bytes d + 1)
       else set_window d w (m_window_size d) ((m_window_tail d + 1) `mod` total_window_size) (m_produced_bytes d + 1))
  | _ => (Panic, d)
  end.

Definition put_match (length distance : Z) : stateful Decompressor unit := fun d =>
  if m_window_size d <? distance then (Err EINVAL, d)
  else
    let offset := m_window_size d - distance in
    match copy_match (Z.to_nat length) (m_window d) (m_window_tail d + m_window_size d) (m_window_tail d + offset) with
    | Ok w => (Ok tt, grow_window d w length)
    | _ => (Panic, d)
    end.

(** [table[i]] of a constant array. *)
Definition entry (table : list Z) (i : Z) : outcome Z :=
  match table !! Z.to_nat i with Some x => Ok x | None => Panic end.

Definition read_distance_code : stateful Decompressor Z :=
  let! d := sget in
  if tree_empty (m_distance_tree d) then let! bits := take 5 in sret (reverse_bits bits 5)
  else on_stream (read_symbol (m_distance_tree d)).

Definition handle_symbol : stateful Decompressor unit :=
  let! d := sget in
  let! symbol := on_stream (read_symbol (m_length_tree d)) in
  if symbol =? 256 then modify (fun d => set_state d BlockHeader)
  else if symbol <? 256 then put_literal symbol
  else if 285 <? symbol then sfail EINVAL
  else
    let symbol := symbol - 257 in
    let! base := slift (entry length_base symbol) in
    let! bits := slift (entry length_extra_bits symbol) in
    let! extra := take bits in
    let length := u16 (base + extra) in
    let! distance_code := read_distance_code in
    if 29 <? distance_code then sfail EINVAL
    else
      let! base := slift (entry distance_base distance_code) in
      let! bits := slift (entry distance_extra_bits distance_code) in
      let! extra := take bits in
      put_match length (u16 (base + extra)).

(** *** Output *)

(** The table-driven checksum. *)
Definition crc_table : list Z := (fun i => Nat.iter 8 crc_round (Z.of_nat i)) <$> seq 0 256.

Definition crc_update (crc32 : Z) (byte : Z) : outcome Z :=
  let* t := entry crc_table (Z.land (Z.lxor crc32 byte) 0xFF) in
  Ok (Z.lxor (Z.shiftr crc32 8) t).

Fixpoint crc_update_all (crc32 : Z) (bytes : list Z) : outcome Z :=
  match bytes with [] => Ok crc32 | b :: bytes' => let* crc32 := crc_update crc32 b in crc_update_all crc32 bytes' end.

Definition update_info (type : StreamType) (i : stream_info) (written : list Z) : outcome stream_info :=
  match type with
  | Raw => Ok i
  | Zlib =>
      let '(s1, s2) := foldl adler_step (zs1 i, zs2 i) written in
      Ok (mk_info s1 s2 (zadler32 i) (gcrc32 i) (gisize i))
  | GZip =>
      let* crc32 := crc_update_all (gcrc32 i) written in
      Ok (mk_info (zs1 i) (zs2 i) (zadler32 i) crc32 (u32 (gisize i + Z.of_nat (length written))))
  end.

(** The bytes written to an output of which [room] bytes are left. *)
Definition write_data_to_output (room : Z) : stateful Decompressor (list Z) := fun d =>
  if m_produced_bytes d =? 0 then (Ok [], d)
  else if negb (m_produced_bytes d <=? m_window_size d) then (Panic, d)
  else
    let unwritten_tail := (m_window_tail d + m_window_size d - m_produced_bytes d) `mod` total_window_size in
    let to_write := Math.min room (m_produced_bytes d) in
    let before_wrap := Math.min (total_window_size - unwritten_tail) to_write in
    let after_wrap := to_write - before_wrap in
    let written := firstn (Z.to_nat before_wrap) (skipn (Z.to_nat unwritten_tail) (m_window d)) ++
                   firstn (Z.to_nat after_wrap) (m_window d) in
    match update_info (m_type d) (m_stream_info d) written with
    | Ok info =>
        (Ok written, set_info (set_window d (m_window d) (m_window_size d) (m_window_tail d) (m_produced_bytes d - to_write)) info)
    | _ => (Panic, d)
    end.

(** *** The states

    What an iteration of the main loop ends in: the next one, or a return with
    the saved stream restored or not. *)
Inductive flow : Type := Next | MoreInput (restore : bool).

(** [handler]'s result in the states that restore the stream when the input
    ends early. *)
Definition or_more_input (handler : stateful Decompressor unit) (next : State) : stateful Decompressor flow := fun d =>
  match handler d with
  | (Ok _, d') => (Ok Next, set_state d' next)
  | (Err ENOBUFS, d') => (Ok (MoreInput true), d')
  | (Err e, d') => (Err e, d')
  | (Panic, d') => (Panic, d')
  end.

Definition block_header : stateful Decompressor flow :=
  let! d := sget in
  if m_bfinal d then let! _ := modify (fun d => set_state d StreamFooter) in sret Next
  else if available_bits (m_stream d) <? 3 then sret (MoreInput false)
  else
    let! bfinal := smust (take 1) in
    let! _ := modify (fun d => set_bfinal d (negb (bfinal =? 0))) in
    let! btype := smust (take 2) in
    if btype =? 0 then let! _ := modify (fun d => set_state d LiteralHeader) in sret Next
    else if btype =? 1 then
      let! tree := slift fixed_tree in
      let! _ := modify (fun d => set_state (set_trees d tree empty_tree) Symbol) in sret Next
    else if btype =? 2 then let! _ := modify (fun d => set_state d DynamicHeader) in sret Next
    else sfail EINVAL.

Definition literal_header : stateful Decompressor flow :=
  let! d := sget in
  if available_bytes (m_stream d) <? 4 then sret (MoreInput false)
  else
    let! _ := modify (fun d => set_stream d (skip_to_byte_boundary (m_stream d))) in
    let! len := smust (take 16) in
    let! nlen := smust (take 16) in
    if negb (len =? 0xFFFF - nlen) then sfail EINVAL
    else let! _ := modify (fun d => set_state (set_raw d len) ReadRaw) in sret Next.

(** [take_byte_aligned] into [n] bytes of the window at [pos]. *)
Definition read_into_window (pos : Z) (n : nat) : stateful Decompressor unit :=
  let! bytes := smust (on_stream (take_byte_aligned n)) in
  modify (fun d =>
    set_window d (firstn (Z.to_nat pos) (m_window d) ++ bytes ++ skipn (Z.to_nat pos + n) (m_window d))
      (m_window_size d) (m_window_tail d) (m_produced_bytes d)).

Definition read_raw : stateful Decompressor flow :=
  let! d := sget in
  let window_head := (m_window_tail d + m_window_size d) `mod` total_window_size in
  let max_bytes_to_read := Math.min (m_raw_bytes_left d) total_window_size in
  let can_read := Math.min max_bytes_to_read (available_bytes (m_stream d)) in
  let before_wrap := Math.min (total_window_size - window_head) can_read in
  let! _ := read_into_window window_head (Z.to_nat before_wrap) in
  let! _ := (if can_read - before_wrap =? 0 then sret tt else read_into_window 0 (Z.to_nat (can_read - before_wrap))) in
  let! _ := modify (fun d => set_raw (grow_window d (m_window d) can_read) (u16 (m_raw_bytes_left d - can_read))) in
  let! d := sget in
  if m_raw_bytes_left d =? 0 then let! _ := modify (fun d => set_state d BlockHeader) in sret Next
  else if available_bytes (m_stream d) =? 0 then sret (MoreInput false)
  else sret Next.

(** The loop over symbols: every round takes a bit at least.  It restores the
    stream that was saved before the last symbol itself. *)
Fixpoint symbols (fuel : nat) : stateful Decompressor flow := fun d =>
  if (m_produced_bytes d + 258 <? total_window_size) && bool_decide (m_state d = Symbol) then
    match fuel with
    | O => (Panic, d)
    | S fuel' =>
        match handle_symbol d with
        | (Ok _, d') => symbols fuel' d'
        | (Err ENOBUFS, d') => (Ok (MoreInput false), set_stream d' (m_stream d))
        | (Err e, d') => (Err e, d')
        | (Panic, d') => (Panic, d')
        end
    end
  else (Ok Next, d).

Definition step : stateful Decompressor flow := fun d =>
  match m_state d with
  | StateDone => (Panic, d)
  | StreamHeader => or_more_input handle_header BlockHeader d
  | StreamFooter => or_more_input handle_footer StateDone d
  | BlockHeader => block_header d
  | LiteralHeader => literal_header d
  | DynamicHeader => or_more_input handle_dynamic_header Symbol d
  | ReadRaw => read_raw d
  | Symbol => symbols (stream_fuel d) d
  end.

(** The main loop; [out] is written already and [room] bytes of the output are
    left.  The status, the output and the decompressor. *)
Fixpoint main_loop (fuel : nat) (room : Z) (out : list Z) (d : Decompressor) : outcome Status * list Z * Decompressor :=
  if bool_decide (m_state d = StateDone) then (Ok Done, out, d)
  else
    match fuel with
    | O => (Panic, out, d)
    | S fuel' =>
        match step d with
        | (Err e, d') => (Err e, out, d')
        | (Panic, d') => (Panic, out, d')
        | (Ok (MoreInput restore), d') => (Ok NeedMoreInput, out, if restore then set_stream d' (m_stream d) else d')
        | (Ok Next, d') =>
            match write_data_to_output room d' with
            | (Ok written, d'') =>
                let out := out ++ written in
                let room := room - Z.of_nat (length written) in
                if 0 <? m_produced_bytes d'' then (Ok NeedMoreOutput, out, d'') else main_loop fuel' room out d''
            | (_, d'') => (Panic, out, d'')
            end
        end
    end.

Definition loop_fuel (d : Decompressor) : nat := Z.to_nat (4 * available_bits (m_stream d) + 4).

(** [decompress(input, input_consumed, output, output_produced)] with an
    output of [room] bytes: the status, the bytes consumed, the bytes written
    and the decompressor. *)
Definition decompress (input : list Z) (room : Z) (d : Decompressor) : outcome Status * Z * list Z * Decompressor :=
  let d := set_stream d (set_data (m_stream d) input) in
  let d := if bool_decide (m_window d = []) then
      set_window d (replicate (Z.to_nat total_window_size) 0) (m_window_size d) (m_window_tail d) (m_produced_bytes d)
    else d in
  let '(r, out, d) :=
    match write_data_to_output room d with
    | (Ok written, d) =>
        if 0 <? m_produced_bytes d then (Ok NeedMoreOutput, written, d)
        else main_loop (loop_fuel d) (room - Z.of_nat (length written)) written d
    | (_, d) => (Panic, [], d)
    end in
  (r, Z.of_nat (length input) - unprocessed_bytes (m_stream d), out, set_stream d (drop_unprocessed_data (m_stream d))).

(** [decompress(ConstByteSpan)]: the whole input at once, into a vector that
    doubles.  [size] is the size of the vector, [out] what is written to it. *)
Fixpoint decompress_loop (fuel : nat) (input : list Z) (size : Z) (out : list Z) (d : Decompressor) : outcome (list Z) :=
  match fuel with
  | O => Panic
  | S fuel' =>
      let '(r, consumed, written, d) := decompress input (size - Z.of_nat (length out)) d in
      let* status := r in
      let input := skipn (Z.to_nat consumed) input in
      let out := out ++ written in
      match status with
      | Done => Ok out
      | NeedMoreOutput => decompress_loop fuel' input (size * 2) out d
      | NeedMoreInput => Err EINVAL
      end
  end.

Definition decompress_all (fuel : nat) (input : list Z) (d : Decompressor) : outcome (list Z) :=
  decompress_loop fuel input (2 * Z.of_nat (length input)) [] d.

(** [decompress(Span<const ConstByteSpan>)] gathers the input from spans in a
    buffer of [capacity] bytes.  What [append_input_data] leaves of the spans,
    the index into the first of them, the buffer, and whether it copied. *)
Fixpoint append_input_data (capacity : nat) (spans : list (list Z)) (index : nat) (buffer : list Z) : bool * list (list Z) * nat * list Z :=
  match spans with
  | [] => (false, [], index, buffer)
  | span :: rest =>
      if (capacity <=? length buffer)%nat then (false, spans, index, buffer)
      else if (length span <=? index)%nat then append_input_data capacity rest 0 buffer
      else
        let to_copy := Nat.min (length span - index) (capacity - length buffer) in
        let buffer := buffer ++ firstn to_copy (skipn index span) in
        let index := (index + to_copy)%nat in
        if (capacity <=? length buffer)%nat then (true, spans, index, buffer)
        else let '(_, spans, index, buffer) := append_input_data capacity rest 0 buffer in (true, spans, index, buffer)
  end.

Fixpoint decompress_spans_loop (fuel : nat) (capacity : nat) (spans : list (list Z)) (index : nat) (buffer : list Z)
    (size : Z) (out : list Z) (d : Decompressor) : outcome (list Z) :=
  match fuel with
  | O => Panic
  | S fuel' =>
      let '(r, consumed, written, d) := decompress buffer (size - Z.of_nat (length out)) d in
      let* status := r in
      let buffer := skipn (Z.to_nat consumed) buffer in
      let out := out ++ written in
      match status with
      | Done => Ok out
      | NeedMoreOutput => decompress_spans_loop fuel' capacity spans index buffer (size * 2) out d
      | NeedMoreInput =>
          let '(did_append, spans, index, buffer) := append_input_data capacity spans index buffer in
          if did_append then decompress_spans_loop fuel' capacity spans index buffer size out d else Err EINVAL
      end
  end.

Definition decompress_spans (fuel : nat) (input : list (list Z)) (d : Decompressor) : outcome (list Z) :=
  let total_input_size := length (concat input) in
  let capacity := Z.to_nat (Z.min (32 * 1024) (Z.of_nat total_input_size)) in
  let '(_, spans, index, buffer) := append_input_data capacity input 0 [] in
  decompress_spans_loop fuel capacity spans index buffer (2 * Z.of_nat total_input_size) [] d.
