(* ===== verification/InflateCorrect.v ===== *)
(** * The decompressor follows RFC 1951

    [inflates] says what a DEFLATE stream means, on lists of bits and without
    tables, windows or buffers.  The decompressor is shown to follow it for
    every way of cutting the input into pieces and the output into buffers. *)
From S2P Require Import Prelude BanMath BitStream Huffman Inflate.

Abbreviation W := total_window_size.

(** ** The window

    A window holds the last [size] bytes of what was decompressed; [head] is
    the position after the last one, before its reduction modulo [W]. *)
Definition holds_last (w : list Z) (head size : Z) (hist : list Z) : Prop :=
  Z.of_nat (length w) = W /\ 0 <= head /\ 0 <= size <= W /\ size <= Z.of_nat (length hist) /\
  forall k, 1 <= k <= size -> w !! Z.to_nat ((head - k) `mod` W) = hist !! (length hist - Z.to_nat k)%nat.

Lemma mod_window x : 0 <= x `mod` W < W.
Proof. apply Z.mod_pos_bound. done. Qed.

Lemma mod_window_differ a b : 0 < a - b < W -> a `mod` W <> b `mod` W.
Proof.
  intros Hd He. assert (Hz : (a - b) `mod` W = 0) by (rewrite Zminus_mod, He, Z.sub_diag; done).
  rewrite Z.mod_small in Hz by lia. lia.
Qed.

Lemma holds_put w head size hist b :
  holds_last w head size hist ->
  holds_last (<[Z.to_nat (head `mod` W) := b]> w) (head + 1) (Z.min W (size + 1)) (hist ++ [b]).
Proof.
  intros (Hlen & Hhead & Hsize & Hh & Hw). pose proof (mod_window head) as Hm. assert (W = 32768) as HW by done.
  split_and!; [by rewrite length_insert|lia|lia|lia|rewrite length_app; cbn; lia|].
  intros k Hk. rewrite length_app. cbn [length]. destruct (decide (k = 1)) as [->|Hk1].
  - replace (head + 1 - 1) with head by lia. rewrite list_lookup_insert_eq by lia.
    rewrite lookup_app_r by lia. replace (length hist + 1 - Z.to_nat 1 - length hist)%nat with 0%nat by lia. done.
  - replace (head + 1 - k) with (head - (k - 1)) by lia. pose proof (mod_window (head - (k - 1))) as Hm'.
    rewrite list_lookup_insert_ne.
    2:{ intros He. assert (head `mod` W = (head - (k - 1)) `mod` W) as He' by lia.
        apply mod_window_differ in He'; [done|lia]. }
    rewrite Hw by lia. rewrite lookup_app_l by lia. f_equal. lia.
Qed.

(** The copy of a match as RFC 1951 has it: byte by byte, so that a match may
    overlap itself. *)
Fixpoint lz_copy (n : nat) (distance : Z) (hist : list Z) : list Z :=
  match n with
  | O => hist
  | S n' => lz_copy n' distance (hist ++ option_list (hist !! (length hist - Z.to_nat distance)%nat))
  end.

Lemma copy_match_spec n : forall w head size hist distance,
  holds_last w head size hist -> 1 <= distance <= size -> distance <= head ->
  exists w', copy_match n w head (head - distance) = Ok w' /\
    holds_last w' (head + Z.of_nat n) (Z.min W (size + Z.of_nat n)) (lz_copy n distance hist).
Proof.
  induction n as [|n IH]; intros w head size hist distance Hw Hd Hhd; cbn [copy_match lz_copy].
  { exists w. split; [done|]. destruct Hw as (? & ? & Hs & ?). by rewrite Z.add_0_r, Z.add_0_r, Z.min_r by lia. }
  pose proof Hw as (Hlen & Hhead & Hsize & Hh & Hlk). unfold window_get, window_set.
  rewrite Hlk by lia. destruct (lookup_lt_is_Some_2 hist (length hist - Z.to_nat distance)) as [b Hb]; [lia|].
  rewrite Hb. cbn [option_list]. pose proof (mod_window head). rewrite (proj2 (Z.ltb_lt _ _)) by lia.
  pose proof (holds_put w head size hist b Hw) as Hw'.
  destruct (IH _ _ _ _ distance Hw' ltac:(lia) ltac:(lia)) as (w' & Hc & Hr).
  exists w'. split; [by replace (head - distance + 1) with (head + 1 - distance) by lia|].
  replace (head + Z.of_nat (S n)) with (head + 1 + Z.of_nat n) by lia.
  replace (Z.min W (size + Z.of_nat (S n))) with (Z.min W (Z.min W (size + 1) + Z.of_nat n)) by lia. done.
Qed.

(** A run of bytes that does not wrap around. *)
Lemma holds_splice bs : forall w head size hist,
  holds_last w head size hist -> head `mod` W + Z.of_nat (length bs) <= W ->
  holds_last (firstn (Z.to_nat (head `mod` W)) w ++ bs ++ skipn (Z.to_nat (head `mod` W) + length bs) w)
    (head + Z.of_nat (length bs)) (Z.min W (size + Z.of_nat (length bs))) (hist ++ bs).
Proof.
  induction bs as [|b bs IH]; intros w head size hist Hw Hfit.
  { pose proof Hw as (? & ? & ? & ?). cbn [length app]. rewrite !Z.add_0_r, Nat.add_0_r, app_nil_r, firstn_skipn, Z.min_r by lia. done. }
  pose proof Hw as (Hlen & Hhead & Hsize & Hh & _). pose proof (mod_window head) as Hm. cbn [length] in *.
  pose proof (holds_put w head size hist b Hw) as Hw'. set (p := Z.to_nat (head `mod` W)) in *.
  assert (Hins : <[p := b]> w = firstn p w ++ b :: skipn (S p) w) by (apply insert_take_drop; lia).
  destruct (decide (bs = [])) as [->|Hne].
  { cbn [length app]. replace (p + 1)%nat with (S p) by lia. rewrite <- Hins. done. }
  assert (0 < length bs)%nat by (destruct bs; [done|cbn; lia]).
  assert (Hnext : (head + 1) `mod` W = head `mod` W + 1).
  { rewrite <- Zplus_mod_idemp_l. apply Z.mod_small. lia. }
  specialize (IH _ _ _ _ Hw'). rewrite Hnext in IH. specialize (IH ltac:(lia)).
  replace (Z.to_nat (head `mod` W + 1)) with (S p) in IH by lia.
  replace (head + Z.of_nat (S (length bs))) with (head + 1 + Z.of_nat (length bs)) by lia.
  replace (Z.min W (size + Z.of_nat (S (length bs)))) with (Z.min W (Z.min W (size + 1) + Z.of_nat (length bs))) by lia.
  replace (hist ++ b :: bs) with ((hist ++ [b]) ++ bs) by (by rewrite <- app_assoc).
  replace (firstn p w ++ (b :: bs) ++ skipn (p + S (length bs)) w)
    with (firstn (S p) (<[p:=b]> w) ++ bs ++ skipn (S p + length bs) (<[p:=b]> w)); [done|].
  rewrite Hins. assert (Hfl : length (firstn p w) = p) by (rewrite length_firstn; lia).
  rewrite firstn_app, skipn_app, Hfl. replace (S p - p)%nat with 1%nat by lia. cbn [firstn].
  rewrite (firstn_all2 (firstn p w)) by lia. rewrite (skipn_all2 (firstn p w)) by lia.
  replace (S p + length bs - p)%nat with (S (length bs)) by lia. cbn [skipn app]. rewrite skipn_skipn, <- app_assoc. cbn [app].
  rewrite take_0, app_nil_l. by replace (length bs + S p)%nat with (p + S (length bs))%nat by lia.
Qed.

Lemma holds_head w head head' size hist :
  holds_last w head size hist -> 0 <= head' -> head' `mod` W = head `mod` W -> holds_last w head' size hist.
Proof.
  intros (Hlen & Hhead & Hsize & Hh & Hlk) Hp Hm. split_and!; [done|done|lia|lia|done|]. intros k Hk.
  rewrite <- Hlk by done. do 2 f_equal. by rewrite Zminus_mod, Hm, <- Zminus_mod.
Qed.

(** Reading [n] of the last [p] bytes, with the wrap-around. *)
Lemma window_read w head size hist p n :
  holds_last w head size hist -> 0 <= n <= p -> p <= size ->
  let ut := (head - p) `mod` W in
  let bw := Z.min (W - ut) n in
  firstn (Z.to_nat bw) (skipn (Z.to_nat ut) w) ++ firstn (Z.to_nat (n - bw)) w =
  firstn (Z.to_nat n) (skipn (length hist - Z.to_nat p) hist).
Proof.
  intros (Hlen & Hhead & Hsize & Hh & Hlk) Hn Hp. cbn zeta. set (ut := (head - p) `mod` W).
  pose proof (mod_window (head - p)) as Hut. fold ut in Hut. set (bw := Z.min (W - ut) n).
  assert (Hl1 : length (firstn (Z.to_nat bw) (skipn (Z.to_nat ut) w)) = Z.to_nat bw).
  { rewrite length_firstn, length_skipn. lia. }
  apply list_eq. intros i. destruct (decide (i < Z.to_nat n)%nat) as [Hi|Hi].
  - rewrite lookup_take_lt, lookup_drop by done.
    replace (length hist - Z.to_nat p + i)%nat with (length hist - Z.to_nat (p - Z.of_nat i))%nat by lia.
    rewrite <- Hlk by lia. replace (head - (p - Z.of_nat i)) with (head - p + Z.of_nat i) by lia.
    rewrite <- Zplus_mod_idemp_l. fold ut. destruct (decide (i < Z.to_nat bw)%nat) as [Hb|Hb].
    + rewrite lookup_app_l, lookup_take_lt, lookup_drop by lia. f_equal. rewrite Z.mod_small by lia. lia.
    + rewrite lookup_app_r, Hl1, lookup_take_lt by lia. f_equal.
      replace (ut + Z.of_nat i) with (ut + Z.of_nat i - W + 1 * W) by lia. rewrite Z.mod_add, Z.mod_small by lia. lia.
  - trans (@None Z); [|symmetry]; apply lookup_ge_None_2.
    + rewrite length_app, Hl1, length_firstn. lia.
    + rewrite length_firstn, length_skipn. lia.
Qed.

(** The window of a decompressor that has decompressed [hist], of which the
    last [m_produced_bytes] are not written yet. *)
Record window_ok (d : Decompressor) (hist : list Z) : Prop := {
  w_tail : 0 <= m_window_tail d < W;
  w_size : m_window_size d = Z.min W (Z.of_nat (length hist));
  w_holds : holds_last (m_window d) (m_window_tail d + m_window_size d) (m_window_size d) hist;
  w_produced : 0 <= m_produced_bytes d
}.

Definition written (d : Decompressor) (hist : list Z) : list Z :=
  firstn (length hist - Z.to_nat (m_produced_bytes d)) hist.

Lemma put_literal_spec symbol d hist :
  window_ok d hist -> 0 <= symbol < 256 ->
  exists d', put_literal symbol d = (Ok tt, d') /\ window_ok d' (hist ++ [symbol]) /\
    m_produced_bytes d' = m_produced_bytes d + 1 /\
    exists w size tail p, d' = set_window d w size tail p.
Proof.
  intros [Ht Hs Hh Hp] Hsym. unfold put_literal, window_set. pose proof Hh as (Hlen & _).
  pose proof (mod_window (m_window_tail d + m_window_size d)) as Hm. rewrite (proj2 (Z.ltb_lt _ _)) by lia.
  rewrite (wrap_id 8) by lia. pose proof (holds_put _ _ _ _ symbol Hh) as Hh'. eexists. split; [done|].
  destruct (Z.ltb_spec (m_window_size d) W) as [Hlt|Hge]; (split; [|split; [done|by do 4 eexists]]).
  - split; cbn [m_window_tail m_window_size m_window m_produced_bytes set_window]; [done| | |lia].
    + rewrite length_app. cbn [length]. lia.
    + rewrite Z.min_r in Hh' by lia. by rewrite Z.add_assoc.
  - pose proof (mod_window (m_window_tail d + 1)).
    split; cbn [m_window_tail m_window_size m_window m_produced_bytes set_window]; [done| | |lia].
    + rewrite length_app. cbn [length]. lia.
    + replace (m_window_size d) with (Z.min W (m_window_size d + 1)) at 3 by lia.
      apply (holds_head _ _ _ _ _ Hh'); [lia|]. rewrite Zplus_mod_idemp_l. f_equal. lia.
Qed.

Lemma grow_window_spec d w (hist hist' : list Z) n :
  0 <= m_window_tail d < W -> m_window_size d = Z.min W (Z.of_nat (length hist)) -> 0 <= m_produced_bytes d -> 0 <= n -> Z.of_nat (length hist') = Z.of_nat (length hist) + n ->
  holds_last w (m_window_tail d + m_window_size d + n) (Z.min W (m_window_size d + n)) hist' ->
  window_ok (grow_window d w n) hist' /\ m_produced_bytes (grow_window d w n) = m_produced_bytes d + n /\
  exists size tail p, grow_window d w n = set_window d w size tail p.
Proof.
  intros Ht Hs Hp Hn Hlen Hw. unfold grow_window. pose proof (mod_window (m_window_tail d + (m_window_size d + n - W))).
  destruct (Z.ltb_spec W (m_window_size d + n)) as [Hlt|Hge]; (split; [|split; [done|by do 3 eexists]]);
    split; cbn [m_window_tail m_window_size m_window m_produced_bytes set_window]; try done; try lia.
  - rewrite Z.min_l in Hw by lia. apply (holds_head _ _ _ _ _ Hw); [lia|].
    rewrite Zplus_mod_idemp_l. f_equal. lia.
  - rewrite Z.min_r in Hw by lia. by rewrite Z.add_assoc.
Qed.

Lemma length_lz_copy n distance : forall hist,
  1 <= distance <= Z.of_nat (length hist) -> Z.of_nat (length (lz_copy n distance hist)) = Z.of_nat (length hist) + Z.of_nat n.
Proof.
  induction n as [|n IH]; intros hist Hd; cbn [lz_copy]; [lia|].
  destruct (lookup_lt_is_Some_2 hist (length hist - Z.to_nat distance)) as [b Hb]; [lia|]. rewrite Hb. change (option_list (Some b)) with [b].
  rewrite IH by (rewrite length_app; cbn; lia). rewrite length_app. cbn. lia.
Qed.

Lemma put_match_spec len distance d hist :
  window_ok d hist -> 0 <= len -> 1 <= distance <= Z.min W (Z.of_nat (length hist)) ->
  exists d', put_match len distance d = (Ok tt, d') /\ window_ok d' (lz_copy (Z.to_nat len) distance hist) /\
    m_produced_bytes d' = m_produced_bytes d + len /\
    exists w size tail p, d' = set_window d w size tail p.
Proof.
  intros Hok Hlen Hd. pose proof Hok as [Ht Hs Hh Hp]. unfold put_match. rewrite (proj2 (Z.ltb_ge _ _)) by lia.
  destruct (copy_match_spec (Z.to_nat len) _ _ _ _ distance Hh ltac:(lia) ltac:(lia)) as (w & Hc & Hw).
  replace (m_window_tail d + (m_window_size d - distance)) with (m_window_tail d + m_window_size d - distance) by lia.
  rewrite Hc. rewrite Z2Nat.id in Hw by done.
  destruct (grow_window_spec d w hist (lz_copy (Z.to_nat len) distance hist) len) as (Hg & Hpr & size & tail & p & He);
    [done|done|done|done|rewrite length_lz_copy; lia|done|]. exists (grow_window d w len). split_and!; [done|done|done|]. by do 4 eexists.
Qed.

Lemma write_data_spec room d hist :
  window_ok d hist -> m_type d = Raw -> 0 <= room -> m_produced_bytes d <= m_window_size d ->
  exists out d', write_data_to_output room d = (Ok out, d') /\ window_ok d' hist /\ written d' hist = written d hist ++ out /\
    m_produced_bytes d' = m_produced_bytes d - Z.min room (m_produced_bytes d) /\
    Z.of_nat (length out) = Z.min room (m_produced_bytes d) /\ exists p, d' = set_window d (m_window d) (m_window_size d) (m_window_tail d) p.
Proof.
  intros Hok Htype Hroom Hps. pose proof Hok as [Ht Hs Hh Hp]. unfold write_data_to_output. destruct (Z.eqb_spec (m_produced_bytes d) 0) as [Hz|Hnz].
  { exists [], d. split_and!; [done|done|by rewrite app_nil_r|lia|cbn; lia|]. exists (m_produced_bytes d). by destruct d. }
  rewrite (proj2 (Z.leb_le _ _)) by done. cbn [negb]. rewrite !Math.min_spec.
  set (n := Z.min room (m_produced_bytes d)).
  pose proof (window_read _ _ _ _ (m_produced_bytes d) n Hh ltac:(lia) Hps) as Hr. cbn zeta in Hr. rewrite Hr, Htype.
  cbn [update_info]. do 2 eexists. split; [done|].
  assert (Hout : length (firstn (Z.to_nat n) (skipn (length hist - Z.to_nat (m_produced_bytes d)) hist)) = Z.to_nat n).
  { rewrite length_firstn, length_skipn. lia. }
  split; [split; cbn; [done|done|done|lia]|]. split; [|split; [done|split; [lia|by eexists; destruct d]]].
  unfold written. cbn [m_produced_bytes set_info set_window].
  rewrite <- (firstn_skipn (length hist - Z.to_nat (m_produced_bytes d)) (firstn (length hist - Z.to_nat (m_produced_bytes d - n)) hist)).
  rewrite firstn_firstn, Nat.min_l by lia. f_equal. rewrite skipn_firstn_comm. f_equal. lia.
Qed.

(** ** What a DEFLATE stream means *)

(** Where the decompression is: between blocks, before the lengths of a stored
    block, before the trees of a dynamic block, in a stored block of which [n]
    bytes are left, and in the symbols of a block with the given code lengths
    ([None] is the five-bit distance code of fixed blocks).  [bf] says whether
    the block is the last one. *)
Inductive mode : Type :=
| MHeader (bf : bool)
| MStored (bf : bool)
| MDynamic (bf : bool)
| MRaw (bf : bool) (n : Z)
| MSymbol (bf : bool) (lit : list Z) (dist : option (list Z)).

(** [bits] starts with the [n]-bit number [x]. *)
Definition field (n x : Z) (bits rest : list bool) : Prop :=
  bits = bits_of (Z.to_nat n) x ++ rest /\ 0 <= x < 2 ^ n.

Definition distance_symbol (dist : option (list Z)) (bits : list bool) (code : Z) (rest : list bool) : Prop :=
  match dist with
  | None => bits = reverse (bits_of 5 code) ++ rest /\ 0 <= code < 32
  | Some lens => exists i l, decodes lens bits i l /\ code = Z.of_nat i /\ rest = skipn (Z.to_nat l) bits
  end.

(** The lengths of the code length code. *)
Inductive code_lengths : list nat -> list Z -> list bool -> list Z -> list bool -> Prop :=
| cl_end acc bits : code_lengths [] acc bits acc bits
| cl_next i order acc l bits rest lens rest' :
    field 3 l bits rest -> code_lengths order (<[i := l]> acc) rest lens rest' ->
    code_lengths (i :: order) acc bits lens rest'.

(** A code length symbol: the length it stands for, how many times, and the
    bits after it. *)
Definition length_symbol (cl : list Z) (last : Z) (bits : list bool) (len count : Z) (rest : list bool) : Prop :=
  exists i l bits', decodes cl bits i l /\ bits' = skipn (Z.to_nat l) bits /\
    (((i <= 15)%nat /\ len = Z.of_nat i /\ count = 1 /\ rest = bits') \/
     (i = 16%nat /\ len = last /\ exists x, count = x + 3 /\ field 2 x bits' rest) \/
     (i = 17%nat /\ len = 0 /\ exists x, count = x + 3 /\ field 3 x bits' rest) \/
     (i = 18%nat /\ len = 0 /\ exists x, count = x + 11 /\ field 7 x bits' rest)).

Inductive bit_lengths (cl : list Z) (total : Z) : list Z -> Z -> list bool -> list Z -> list bool -> Prop :=
| bl_end acc last bits : Z.of_nat (length acc) = total -> bit_lengths cl total acc last bits acc bits
| bl_next acc last bits len count rest lens rest' :
    Z.of_nat (length acc) < total -> length_symbol cl last bits len count rest ->
    Z.of_nat (length acc) + count <= total ->
    bit_lengths cl total (acc ++ replicate (Z.to_nat count) len) len rest lens rest' ->
    bit_lengths cl total acc last bits lens rest'.

(** The header of a dynamic block. *)
Definition dynamic_trees (bits : list bool) (lit dist : list Z) (rest : list bool) : Prop :=
  exists hlit hdist hclen b1 b2 b3 b4 cl lens,
    field 5 hlit bits b1 /\ field 5 hdist b1 b2 /\ field 4 hclen b2 b3 /\
    code_lengths (firstn (Z.to_nat (hclen + 4)) code_length_order) (replicate 19 0) b3 cl b4 /\ lens_ok cl /\
    hlit + 257 <= 286 /\
    bit_lengths cl (hlit + 257 + (hdist + 1)) [] 0 b4 lens rest /\
    lit = firstn (Z.to_nat (hlit + 257)) lens /\ dist = skipn (Z.to_nat (hlit + 257)) lens /\ lens_ok lit /\ lens_ok dist.

(** The tables of the decompressor, which [inflates] uses as well, are those of
    RFC 1951, 3.2.5 and 3.2.7: the number of extra bits by the symbol, lengths from
    3 and distances from 1 on without gaps, each symbol with as many as its extra
    bits can tell apart (the last length symbol is 258 alone), and the order of the
    code lengths. *)
Definition rfc_length_extra (i : Z) : Z := if (i <? 8) || (i =? 28) then 0 else i / 4 - 1.
Definition rfc_distance_extra (i : Z) : Z := if i <? 4 then 0 else i / 2 - 1.

Fixpoint consecutive (from : Z) (extra : list Z) : list Z :=
  match extra with [] => [] | e :: extra => from :: consecutive (from + 2 ^ e) extra end.

Lemma tables_of_rfc1951 :
  length_extra_bits = map rfc_length_extra (seqZ 0 29) /\
  length_base = consecutive 3 (map rfc_length_extra (seqZ 0 28)) ++ [258] /\
  distance_extra_bits = map rfc_distance_extra (seqZ 0 30) /\
  distance_base = consecutive 1 (map rfc_distance_extra (seqZ 0 30)) /\
  code_length_order = [16; 17; 18; 0; 8]%nat ++ concat (map (fun k => [8 - k; 8 + k]%nat) (seq 1 7)).
Proof. vm_compute. repeat split. Qed.

(** [inflates m bits hist final tr]: in mode [m], with [hist] decompressed
    already, the stream [bits] decompresses to [final] and [tr] is what follows
    the last block. *)
Inductive inflates : mode -> list bool -> list Z -> list Z -> list bool -> Prop :=
| inf_end bits hist : inflates (MHeader true) bits hist hist bits
| inf_stored bf bits b1 rest hist final tr :
    field 1 (Z.b2z bf) bits b1 -> field 2 0 b1 rest ->
    inflates (MStored bf) rest hist final tr -> inflates (MHeader false) bits hist final tr
| inf_fixed bf bits b1 rest hist final tr :
    field 1 (Z.b2z bf) bits b1 -> field 2 1 b1 rest ->
    inflates (MSymbol bf fixed_lengths None) rest hist final tr -> inflates (MHeader false) bits hist final tr
| inf_dynamic bf bits b1 rest hist final tr :
    field 1 (Z.b2z bf) bits b1 -> field 2 2 b1 rest ->
    inflates (MDynamic bf) rest hist final tr -> inflates (MHeader false) bits hist final tr
| inf_lengths bf bits pad len b1 b2 rest hist final tr :
    bits = pad ++ b1 -> Z.of_nat (length pad) = Z.of_nat (length bits) `mod` 8 ->
    field 16 len b1 b2 -> field 16 (0xFFFF - len) b2 rest ->
    inflates (MRaw bf len) rest hist final tr -> inflates (MStored bf) bits hist final tr
| inf_trees bf bits lit dist rest hist final tr :
    dynamic_trees bits lit dist rest ->
    inflates (MSymbol bf lit (Some dist)) rest hist final tr -> inflates (MDynamic bf) bits hist final tr
| inf_raw_end bf bits hist final tr :
    inflates (MHeader bf) bits hist final tr -> inflates (MRaw bf 0) bits hist final tr
| inf_raw bf n b bits rest hist final tr :
    0 < n -> field 8 b bits rest ->
    inflates (MRaw bf (n - 1)) rest (hist ++ [b]) final tr -> inflates (MRaw bf n) bits hist final tr
| inf_literal bf lit dist bits i l hist final tr :
    decodes lit bits i l -> Z.of_nat i < 256 ->
    inflates (MSymbol bf lit dist) (skipn (Z.to_nat l) bits) (hist ++ [Z.of_nat i]) final tr ->
    inflates (MSymbol bf lit dist) bits hist final tr
| inf_block_end bf lit dist bits i l hist final tr :
    decodes lit bits i l -> Z.of_nat i = 256 ->
    inflates (MHeader bf) (skipn (Z.to_nat l) bits) hist final tr -> inflates (MSymbol bf lit dist) bits hist final tr
| inf_match bf lit dist bits i l hist final tr base eb extra b1 code b2 dbase deb dextra rest :
    decodes lit bits i l -> 257 <= Z.of_nat i <= 285 ->
    length_base !! (i - 257)%nat = Some base -> length_extra_bits !! (i - 257)%nat = Some eb ->
    field eb extra (skipn (Z.to_nat l) bits) b1 ->
    distance_symbol dist b1 code b2 -> code <= 29 ->
    distance_base !! Z.to_nat code = Some dbase -> distance_extra_bits !! Z.to_nat code = Some deb ->
    field deb dextra b2 rest -> dbase + dextra <= Z.of_nat (length hist) ->
    inflates (MSymbol bf lit dist) rest (lz_copy (Z.to_nat (base + extra)) (dbase + dextra) hist) final tr ->
    inflates (MSymbol bf lit dist) bits hist final tr.

Lemma lz_copy_prefix n distance : forall hist, hist `prefix_of` lz_copy n distance hist.
Proof.
  induction n as [|n IH]; intros hist; cbn [lz_copy]; [done|]. etrans; [|apply IH]. by eexists.
Qed.

Lemma inflates_prefix m bits hist final tr : inflates m bits hist final tr -> hist `prefix_of` final.
Proof.
  induction 1; try done.
  - etrans; [|eassumption]. by eexists.
  - etrans; [|eassumption]. by eexists.
  - etrans; [|eassumption]. apply lz_copy_prefix.
Qed.

Lemma field_length n x bits rest : field n x bits rest -> length bits = (Z.to_nat n + length rest)%nat.
Proof. intros [-> _]. by rewrite length_app, length_bits_of. Qed.

Lemma skipn_shorter {A} n (l : list A) : (length (skipn n l) <= length l)%nat.
Proof. rewrite length_skipn. lia. Qed.

Lemma distance_symbol_length dist bits code rest : distance_symbol dist bits code rest -> (length rest <= length bits)%nat.
Proof.
  unfold distance_symbol. destruct dist as [lens|].
  - intros (i & l & _ & _ & ->). apply skipn_shorter.
  - intros [-> _]. rewrite length_app. lia.
Qed.

Lemma code_lengths_length order acc bits lens rest : code_lengths order acc bits lens rest -> (length rest <= length bits)%nat.
Proof. induction 1 as [|i order acc l bits rest lens rest' Hf _ IH]; [done|]. apply field_length in Hf. lia. Qed.

Lemma length_symbol_length cl last bits len count rest : length_symbol cl last bits len count rest -> (length rest <= length bits)%nat.
Proof.
  intros (i & l & bits' & _ & Hb & Hc). pose proof (skipn_shorter (Z.to_nat l) bits) as Hs. rewrite <- Hb in Hs.
  destruct Hc as [(_ & _ & _ & ->)|[(_ & _ & x & _ & Hf)|[(_ & _ & x & _ & Hf)|(_ & _ & x & _ & Hf)]]];
    [done|apply field_length in Hf; lia..].
Qed.

Lemma bit_lengths_length cl total acc last bits lens rest :
  bit_lengths cl total acc last bits lens rest -> (length rest <= length bits)%nat.
Proof. induction 1 as [|acc last bits len count rest lens rest' _ Hl _ _ IH]; [done|]. apply length_symbol_length in Hl. lia. Qed.

Lemma inflates_length m bits hist final tr : inflates m bits hist final tr -> (length tr <= length bits)%nat.
Proof.
  induction 1; repeat match goal with H : field _ _ _ _ |- _ => apply field_length in H end; subst;
    rewrite ?length_skipn, ?length_app in *; try lia.
  - destruct H as (? & ? & ? & ? & ? & ? & ? & ? & ? & F1 & F2 & F3 & Hc & _ & _ & Hb & _).
    apply field_length in F1, F2, F3. apply code_lengths_length in Hc. apply bit_lengths_length in Hb. lia.
  - repeat match goal with H : distance_symbol _ _ _ _ |- _ => apply distance_symbol_length in H end. lia.
Qed.

(** ** The handlers *)
Lemma field_unique n x x' bits rest rest' : 0 <= n -> field n x bits rest -> field n x' bits rest' -> x = x' /\ rest = rest'.
Proof.
  intros Hn [Hb Hx] [Hb' Hx']. rewrite Hb in Hb'. apply app_inj_1 in Hb' as [He ->]; [|by rewrite !length_bits_of].
  split; [|done]. apply (f_equal value_of) in He. rewrite !value_bits_of, Z2Nat.id, !Z.mod_small in He by lia. done.
Qed.

Lemma decodes_app lens bits more i l : decodes lens bits i l -> decodes lens (bits ++ more) i l.
Proof.
  intros (Hi & Hl & Hm). split_and!; [done|lia|rewrite length_app; lia|]. rewrite <- Hm. unfold msb.
  by rewrite take_app_le by lia.
Qed.

Lemma decodes_prefix lens bits more i l :
  decodes lens (bits ++ more) i l -> l <= Z.of_nat (length bits) -> decodes lens bits i l.
Proof.
  intros (Hi & Hl & Hm) Hle. split_and!; [done|lia|lia|]. rewrite <- Hm. unfold msb. by rewrite take_app_le by lia.
Qed.

Section handlers.
(** The input that is still to come, and what follows the last block. *)
Context (fut tr : list bool).

(** All the input is there, with two spare bytes at least. *)
Definition enough : Prop := fut = [] /\ (15 <= length tr)%nat.

(** [m], started in [d], succeeds with [Q], or runs out of input and has changed
    nothing in [d0] but the stream. *)
Definition wp {A} (d0 : Decompressor) (m : stateful Decompressor A) (d : Decompressor) (Q : A -> Decompressor -> Prop) : Prop :=
  match m d with
  | (Ok a, d') => Q a d'
  | (Err ENOBUFS, d') => (exists s, d' = set_stream d0 s) /\ ~ enough
  | _ => False
  end.

Lemma wp_ret {A} d0 (a : A) d (Q : A -> Decompressor -> Prop) : Q a d -> wp d0 (sret a) d Q.
Proof. done. Qed.

Lemma wp_bind {A B} d0 (m : stateful Decompressor A) (k : A -> stateful Decompressor B) d Q :
  wp d0 m d (fun a d' => wp d0 (k a) d' Q) -> wp d0 (sbind m k) d Q.
Proof. unfold wp, sbind. by destruct (m d) as [[a|e|] d']. Qed.

Lemma wp_mono {A} d0 (m : stateful Decompressor A) d (Q Q' : A -> Decompressor -> Prop) :
  wp d0 m d Q -> (forall a d', Q a d' -> Q' a d') -> wp d0 m d Q'.
Proof. unfold wp. destruct (m d) as [[a|e|] d']; [|done|done]. intros Hq Hi. by apply Hi. Qed.

Lemma wp_modify d0 f d (Q : unit -> Decompressor -> Prop) : Q tt (f d) -> wp d0 (modify f) d Q.
Proof. done. Qed.

Lemma wp_get d0 d (Q : Decompressor -> Decompressor -> Prop) : Q d d -> wp d0 sget d Q.
Proof. done. Qed.

Lemma wp_lift {A} d0 o (a : A) d (Q : A -> Decompressor -> Prop) : o = Ok a -> Q a d -> wp d0 (slift o) d Q.
Proof. intros ->. done. Qed.

Lemma wp_assert d0 b d (Q : unit -> Decompressor -> Prop) : b = true -> Q tt d -> wp d0 (sassert b) d Q.
Proof. intros ->. done. Qed.

Lemma wp_take d0 n x s rest (Q : Z -> Decompressor -> Prop) :
  input_wf s -> 0 <= n <= 16 -> field n x (stream_bits s ++ fut) rest ->
  (forall s', input_wf s' -> stream_bits s' ++ fut = rest -> Q x (set_stream d0 s')) ->
  wp d0 (take n) (set_stream d0 s) Q.
Proof.
  intros Hwf Hn [Hf Hx] HQ. unfold wp, take, on_stream. cbn [m_stream set_stream].
  pose proof (take_bits_spec n s Hn Hwf) as Ht. destruct (take_bits n s) as [r s']. destruct Ht as (Hwf' & Hr & Hs').
  unfold reads in Hr. destruct (Z.ltb_spec (Z.of_nat (length (stream_bits s))) n) as [Hlt|Hge]; subst r.
  - split; [by eexists|]. intros [-> _]. rewrite app_nil_r in Hf. apply (f_equal length) in Hf.
    rewrite length_app, length_bits_of in Hf. lia.
  - assert (Htk : list.take (Z.to_nat n) (stream_bits s) = bits_of (Z.to_nat n) x).
    { apply (f_equal (list.take (Z.to_nat n))) in Hf. rewrite take_app_le, take_app_length' in Hf by (rewrite ?length_bits_of; lia). done. }
    rewrite Htk, value_bits_of, Z2Nat.id, Z.mod_small by lia. apply HQ; [done|]. rewrite Hs'.
    apply (f_equal (drop (Z.to_nat n))) in Hf. by rewrite drop_app_le, drop_app_length' in Hf by (rewrite ?length_bits_of; lia).
Qed.

Lemma wp_read_symbol d0 lens t s i l (Q : Z -> Decompressor -> Prop) :
  input_wf s -> lens_ok lens -> tree_ok lens t -> decodes lens (stream_bits s ++ fut) i l ->
  ((15 <= length tr)%nat -> (15 <= length (stream_bits s ++ fut))%nat) ->
  (forall s', input_wf s' -> stream_bits s' ++ fut = drop (Z.to_nat l) (stream_bits s ++ fut) ->
     (length (stream_bits s') < length (stream_bits s))%nat -> Q (Z.of_nat i) (set_stream d0 s')) ->
  wp d0 (on_stream (read_symbol t)) (set_stream d0 s) Q.
Proof.
  intros Hwf Hok Ht Hd Hen HQ. unfold wp, on_stream. cbn [m_stream set_stream].
  pose proof (read_symbol_spec lens Hok t s Ht Hwf) as Hr. destruct (read_symbol t s) as [r s']. destruct Hr as [Hwf' Hr].
  pose proof (t_max_range lens t Ht). pose proof (t_bits lens t Ht). pose proof (t_max lens t Ht i l (proj1 Hd)).
  destruct r as [v|e|]; [| |done].
  - destruct Hr as (i' & l' & Hd' & -> & Hs'). pose proof Hd' as (_ & Hl' & _).
    destruct (decodes_unique lens Hok _ _ _ _ _ Hd (decodes_app _ _ fut _ _ Hd')) as [<- <-].
    apply HQ; [done|rewrite Hs'; by rewrite drop_app_le by lia|]. rewrite Hs', length_drop. lia.
  - destruct e; try done; cbn in Hr.
    + destruct Hr as [Hmax Hno]. apply (Hno i l). apply (decodes_prefix _ _ fut); [done|lia].
    + split; [by eexists|]. intros [Hf Htr]. specialize (Hen Htr). rewrite Hf, app_nil_r in Hen, Hd.
      destruct Hr as [Hr|[_ Hno]]; [lia|by apply (Hno i l)].
Qed.

(** *** Dynamic headers *)
Lemma wp_code_lengths d0 order : forall acc s lens rest (Q : list Z -> Decompressor -> Prop),
  input_wf s -> code_lengths order acc (stream_bits s ++ fut) lens rest ->
  (forall s', input_wf s' -> stream_bits s' ++ fut = rest -> Q lens (set_stream d0 s')) ->
  wp d0 (read_code_lengths order acc) (set_stream d0 s) Q.
Proof.
  induction order as [|i order IH]; intros acc s lens rest Q Hwf Hc HQ; inversion Hc as [|? ? ? l ? rest1 ? ? Hf Hc']; subst.
  - apply wp_ret. by apply HQ.
  - cbn [read_code_lengths]. apply wp_bind. apply (wp_take _ _ l _ rest1); [done|lia|done|]. intros s1 Hwf1 Hs1.
    apply (IH _ _ lens rest); [done|by rewrite Hs1|done].
Qed.

Lemma length_symbol_range cl last bits len count rest :
  length_symbol cl last bits len count rest -> 1 <= count /\ (0 <= last -> 0 <= len).
Proof.
  intros (i & l & bits' & _ & _ & [(? & -> & -> & _)|[(_ & -> & x & -> & [_ ?])|[(_ & -> & x & -> & [_ ?])|(_ & -> & x & -> & [_ ?])]]]); lia.
Qed.

Lemma wp_bit_lengths d0 cl t total fuel : lens_ok cl -> tree_ok cl t -> total <= bit_lengths_size ->
  forall acc last s lens rest (Q : list Z -> Decompressor -> Prop),
  total - Z.of_nat (length acc) <= Z.of_nat fuel -> input_wf s -> bit_lengths cl total acc last (stream_bits s ++ fut) lens rest ->
  ((15 <= length tr)%nat -> (15 <= length rest)%nat) ->
  (forall s', input_wf s' -> stream_bits s' ++ fut = rest -> Q lens (set_stream d0 s')) ->
  wp d0 (read_bit_lengths fuel t total acc last) (set_stream d0 s) Q.
Proof.
  intros Hok Ht Htot. induction fuel as [|fuel IH]; intros acc last s lens rest Q Hfuel Hwf Hb Hen HQ.
  all: pose proof (bit_lengths_length _ _ _ _ _ _ _ Hb) as Hbl.
  all: inversion Hb as [|? ? ? len count rest1 ? ? Hlt Hsym Hfit Hb']; subst; cbn [read_bit_lengths].
  - rewrite Z.ltb_irrefl. apply wp_ret. by apply HQ.
  - lia.
  - rewrite Z.ltb_irrefl. apply wp_ret. by apply HQ.
  - rewrite (proj2 (Z.ltb_lt _ _)) by done. destruct (length_symbol_range _ _ _ _ _ _ Hsym) as [Hc1 _].
    pose proof (bit_lengths_length _ _ _ _ _ _ _ Hb') as Hbl'.
    destruct Hsym as (i & l & bits' & Hd & Hbits' & Hcase). apply wp_bind.
    apply (wp_read_symbol _ cl _ _ i l); [done|done|done|done|intros H; specialize (Hen H); lia|]. intros s1 Hwf1 Hs1 _.
    rewrite <- Hs1 in Hbits'.
    assert (Hrest : forall s2, input_wf s2 -> stream_bits s2 ++ fut = rest1 ->
      wp d0 (let! _ := sassert (Z.of_nat (length acc) + count <=? total) in
             let! _ := sassert (Z.of_nat (length acc) + count <=? bit_lengths_size) in
             read_bit_lengths fuel t total (acc ++ replicate (Z.to_nat count) len) len) (set_stream d0 s2) Q).
    { intros s2 Hwf2 Hs2. apply wp_bind, wp_assert; [by apply Z.leb_le|]. apply wp_bind, wp_assert; [apply Z.leb_le; lia|].
      apply (IH _ _ _ lens rest); [|done|by rewrite Hs2|done|done]. rewrite length_app, length_replicate. lia. }
    subst bits'.
    destruct Hcase as [(Hi & -> & -> & ->)|[(-> & -> & x & -> & Hf)|[(-> & -> & x & -> & Hf)|(-> & -> & x & -> & Hf)]]].
    + rewrite (proj2 (Z.ltb_ge _ _)), (proj2 (Z.leb_le _ _)) by lia. by apply wp_bind, wp_ret, Hrest.
    + apply wp_bind. change (16 <=? 15) with false. apply wp_bind, (wp_take _ 2 x _ rest1); [done|lia|done|].
      intros s2 Hwf2 Hs2. by apply wp_ret, Hrest.
    + apply wp_bind, wp_bind, (wp_take _ 3 x _ rest1); [done|lia|done|]. intros s2 Hwf2 Hs2. by apply wp_ret, Hrest.
    + apply wp_bind, wp_bind, (wp_take _ 7 x _ rest1); [done|lia|done|]. intros s2 Hwf2 Hs2. by apply wp_ret, Hrest.
Qed.

Lemma wp_dynamic d0 s lit dist rest (Q : unit -> Decompressor -> Prop) :
  input_wf s -> dynamic_trees (stream_bits s ++ fut) lit dist rest ->
  ((15 <= length tr)%nat -> (15 <= length rest)%nat) ->
  (forall s' lt dt, input_wf s' -> stream_bits s' ++ fut = rest -> lens_ok lit -> tree_ok lit lt -> lens_ok dist -> tree_ok dist dt ->
     Q tt (set_trees (set_stream d0 s') lt dt)) ->
  wp d0 handle_dynamic_header (set_stream d0 s) Q.
Proof.
  intros Hwf (hlit & hdist & hclen & b1 & b2 & b3 & b4 & cl & lens & F1 & F2 & F3 & Hcl & Hokc & Hlit & Hbl & -> & -> & Hok1 & Hok2) Hen HQ.
  assert (Hr : 0 <= hlit < 2 ^ 5 /\ 0 <= hdist < 2 ^ 5 /\ 0 <= hclen < 2 ^ 4) by (split_and!; apply F1 || apply F2 || apply F3).
  unfold handle_dynamic_header.
  apply wp_bind, (wp_take _ 5 hlit _ b1); [done|lia|done|]. intros s1 Hwf1 <-.
  apply wp_bind, (wp_take _ 5 hdist _ b2); [done|lia|done|]. intros s2 Hwf2 <-.
  apply wp_bind, (wp_take _ 4 hclen _ b3); [done|lia|done|]. intros s3 Hwf3 <-.
  apply wp_bind, (wp_code_lengths _ _ _ _ cl b4); [done|done|]. intros s4 Hwf4 <-.
  destruct (create_ok cl Hokc) as (ct & Hct & Htc). apply wp_bind, (wp_lift _ _ _ _ _ Hct).
  apply wp_bind. refine (wp_bit_lengths _ cl ct _ _ Hokc Htc _ [] 0 s4 lens rest _ _ Hwf4 Hbl Hen _).
  { unfold bit_lengths_size. lia. }
  { cbn. lia. }
  intros s5 Hwf5 Hs5.
  destruct (create_ok _ Hok1) as (lt & Hlt & Htl). apply wp_bind, (wp_lift _ _ _ _ _ Hlt). apply wp_bind, wp_modify.
  destruct (create_ok _ Hok2) as (dt & Hdt & Htd). apply wp_bind, (wp_lift _ _ _ _ _ Hdt). apply wp_modify.
  by apply (HQ s5 lt dt).
Qed.

(** *** The state of the decompressor follows the stream *)
Definition mode_ok (d : Decompressor) (m : mode) : Prop :=
  match m with
  | MHeader bf =>
      m_bfinal d = bf /\
      (m_state d = BlockHeader \/ (bf = false /\ m_state d = StreamHeader) \/
       (bf = true /\ (m_state d = StreamFooter \/ m_state d = StateDone)))
  | MStored bf => m_bfinal d = bf /\ m_state d = LiteralHeader
  | MDynamic bf => m_bfinal d = bf /\ m_state d = DynamicHeader
  | MRaw bf n =>
      m_bfinal d = bf /\ m_state d = ReadRaw /\ m_raw_bytes_left d = n /\ 0 <= n < 2 ^ 16 /\
      m_bit_buffer_len (m_stream d) `mod` 8 = 0
  | MSymbol bf lit dist =>
      m_bfinal d = bf /\ m_state d = Symbol /\ lens_ok lit /\ tree_ok lit (m_length_tree d) /\
      match dist with
      | None => tree_empty (m_distance_tree d) = true
      | Some ds => lens_ok ds /\ tree_ok ds (m_distance_tree d)
      end
  end.

Record follows (d : Decompressor) (out final : list Z) : Prop := {
  f_type : m_type d = Raw;
  f_stream : input_wf (m_stream d);
  f_spec : exists m hist, mode_ok d m /\ inflates m (stream_bits (m_stream d) ++ fut) hist final tr /\ window_ok d hist /\
    m_produced_bytes d <= Z.of_nat (length hist) /\ m_produced_bytes d <= W /\ written d hist = out
}.

(** The mode, from the state. *)
Ltac mode_inv m Hmode :=
  destruct m as [bf|bf|bf|bf n|bf lit dist]; cbn [mode_ok] in Hmode; try (exfalso; intuition congruence).

Lemma set_stream_id d : set_stream d (m_stream d) = d.
Proof. by destruct d. Qed.

Lemma set_stream_twice d s s' : set_stream (set_stream d s) s' = set_stream d s'.
Proof. done. Qed.

Lemma wp_here {A} (m : stateful Decompressor A) d Q : wp d m (set_stream d (m_stream d)) Q -> wp d m d Q.
Proof. by rewrite set_stream_id. Qed.

(** What is written does not change when more is decompressed. *)
Lemma written_grows d d' hist hist' :
  hist `prefix_of` hist' -> 0 <= m_produced_bytes d <= Z.of_nat (length hist) ->
  m_produced_bytes d' = m_produced_bytes d + (Z.of_nat (length hist') - Z.of_nat (length hist)) ->
  written d' hist' = written d hist.
Proof.
  intros [more ->] Hp Hp'. unfold written. rewrite length_app in *.
  replace (length hist + length more - Z.to_nat (m_produced_bytes d'))%nat
    with (length hist - Z.to_nat (m_produced_bytes d))%nat by lia.
  by rewrite take_app_le by lia.
Qed.

Lemma window_set_stream d s hist : window_ok d hist -> window_ok (set_stream d s) hist.
Proof. by intros [? ? ? ?]. Qed.

Lemma enough_inflates m bits hist final : inflates m bits hist final tr -> (15 <= length tr)%nat -> (15 <= length bits)%nat.
Proof. intros H%inflates_length. lia. Qed.

(** The tables of lengths and distances. *)
Lemma length_entry i base eb :
  length_base !! i = Some base -> length_extra_bits !! i = Some eb -> 0 <= eb <= 5 /\ 3 <= base /\ base + 2 ^ eb - 1 <= 258.
Proof.
  intros Hb He. assert (Hi : (i < 29)%nat) by (apply lookup_lt_Some in Hb; exact Hb).
  do 29 (destruct i as [|i]; [cbn in Hb, He; simplify_eq; lia|]). lia.
Qed.

Lemma distance_entry i base eb :
  distance_base !! i = Some base -> distance_extra_bits !! i = Some eb -> 0 <= eb <= 13 /\ 1 <= base /\ base + 2 ^ eb - 1 <= W.
Proof.
  intros Hb He. assert (Hi : (i < 30)%nat) by (apply lookup_lt_Some in Hb; exact Hb). change W with 32768.
  do 30 (destruct i as [|i]; [cbn in Hb, He; simplify_eq; lia|]). lia.
Qed.

Lemma wp_distance d0 s dist code rest (Q : Z -> Decompressor -> Prop) :
  input_wf s ->
  match dist with
  | None => tree_empty (m_distance_tree d0) = true
  | Some ds => lens_ok ds /\ tree_ok ds (m_distance_tree d0)
  end -> distance_symbol dist (stream_bits s ++ fut) code rest ->
  ((15 <= length tr)%nat -> (15 <= length (stream_bits s ++ fut))%nat) ->
  (forall s', input_wf s' -> stream_bits s' ++ fut = rest -> Q code (set_stream d0 s')) ->
  wp d0 read_distance_code (set_stream d0 s) Q.
Proof.
  intros Hwf Htree Hd Hen HQ. unfold read_distance_code. apply wp_bind, wp_get. cbn [m_distance_tree set_stream].
  destruct dist as [ds|].
  - destruct Htree as [Hok Ht]. unfold tree_empty. pose proof (t_min_bits ds _ Ht). rewrite (proj2 (Z.eqb_neq _ _)) by lia.
    destruct Hd as (i & l & Hdec & -> & ->). apply (wp_read_symbol _ ds _ _ i l); [done|done|done|done|done|].
    intros s' Hwf' Hs' _. by apply HQ.
  - rewrite Htree. destruct Hd as [Hb Hc]. set (v := value_of (reverse (bits_of 5 code))).
    assert (Hlen : length (reverse (bits_of 5 code)) = 5%nat) by (by rewrite length_reverse, length_bits_of).
    apply wp_bind, (wp_take _ 5 v _ rest); [done|lia| |].
    + split; [|pose proof (value_of_range (reverse (bits_of 5 code))) as Hv; rewrite Hlen in Hv; exact Hv].
      rewrite Hb. f_equal. pose proof (bits_of_value (reverse (bits_of 5 code))) as He. rewrite Hlen in He. by rewrite <- He at 1.
    + intros s' Hwf' Hs'. apply wp_ret.
      assert (Hrev : reverse_bits v 5 = code); [|by rewrite Hrev; apply HQ].
      unfold v. change 5 with (Z.of_nat 5). rewrite <- Hlen, reverse_bits_value by (rewrite Hlen; lia).
      rewrite reverse_involutive, value_bits_of. apply Z.mod_small. exact Hc.
Qed.

Lemma length_bits_shorter {A} n (l l1 fut' : list A) :
  l1 ++ fut' = drop n (l ++ fut') -> (1 <= n <= length l)%nat -> (length l1 < length l)%nat.
Proof. intros He Hn. apply (f_equal length) in He. rewrite length_drop, !length_app in He. lia. Qed.

Lemma app_length_le {A} (l l1 : list A) (fut' : list A) : (length (l1 ++ fut') <= length (l ++ fut'))%nat -> (length l1 <= length l)%nat.
Proof. rewrite !length_app. lia. Qed.

Lemma handle_symbol_follows d out final :
  follows d out final -> m_state d = Symbol -> m_produced_bytes d + 258 < W ->
  wp d handle_symbol d (fun _ d' => follows d' out final /\
    (length (stream_bits (m_stream d')) < length (stream_bits (m_stream d)))%nat).
Proof.
  intros [Htype Hwf (m & hist & Hmode & Hinf & Hwin & Hph & HpW & Hout)] Hst Hroom.
  mode_inv m Hmode. destruct Hmode as (Hbf & _ & Hok & Htree & Hdist). pose proof (w_produced _ _ Hwin) as Hp0.
  pose proof (enough_inflates _ _ _ _ Hinf) as Hen.
  unfold handle_symbol. apply wp_bind, wp_get. apply wp_here.
  inversion Hinf as [| | | | | | | |? ? ? ? i l ? ? ? Hd Hi Hnext|? ? ? ? i l ? ? ? Hd Hi Hnext|? ? ? ? i l ? ? ? base eb extra b1 code b2 dbase deb dextra rest Hd Hi Hbase Heb Hf1 Hdc Hcode Hdb Hdeb Hf2 Hlen Hnext]; subst.
  - (* literal *)
    apply wp_bind, (wp_read_symbol _ lit _ _ i l); [done|done|done|done|done|]. intros s1 Hwf1 Hs1 Hshort.
    rewrite (proj2 (Z.eqb_neq _ _)), (proj2 (Z.ltb_lt _ _)) by lia.
    destruct (put_literal_spec (Z.of_nat i) (set_stream d s1) hist (window_set_stream _ _ _ Hwin) ltac:(lia)) as (d' & Hput & Hwin' & Hp' & w & sz & tl & p & Hd').
    unfold wp. rewrite Hput. cbn [m_produced_bytes set_stream] in Hp'. subst d'. split; [|done].
    split; [done|done|]. exists (MSymbol (m_bfinal d) lit dist), (hist ++ [Z.of_nat i]).
    assert (Hl1 : length (hist ++ [Z.of_nat i]) = S (length hist)) by (rewrite length_app; cbn; lia).
    split_and!; [done|by rewrite <- Hs1 in Hnext|done|lia|lia|].
    apply written_grows; [by eexists|lia|lia].
  - (* end of the block *)
    apply wp_bind, (wp_read_symbol _ lit _ _ i l); [done|done|done|done|done|]. intros s1 Hwf1 Hs1 Hshort.
    rewrite Hi. cbn [Z.eqb]. change (256 =? 256) with true. apply wp_modify. split; [|done]. split; [done|done|].
    exists (MHeader (m_bfinal d)), hist.
    split; [split; [done|by left]|]. split_and!; [by rewrite <- Hs1 in Hnext|by destruct Hwin|done|done|done].
  - (* match *)
    destruct (length_entry _ _ _ Hbase Heb) as (Heb1 & Hbase1 & Hbase2). destruct (distance_entry _ _ _ Hdb Hdeb) as (Hdeb1 & Hdb1 & Hdb2).
    apply wp_bind, (wp_read_symbol _ lit _ _ i l); [done|done|done|done|done|]. intros s1 Hwf1 Hs1 Hshort.
    rewrite (proj2 (Z.eqb_neq _ _)), !(proj2 (Z.ltb_ge _ _)) by lia.
    replace (Z.of_nat i - 257) with (Z.of_nat (i - 257)) by lia. unfold entry. rewrite Nat2Z.id.
    apply wp_bind, (wp_lift _ _ base); [by rewrite Hbase|]. apply wp_bind, (wp_lift _ _ eb); [by rewrite Heb|].
    rewrite <- Hs1 in Hf1. apply wp_bind, (wp_take _ eb extra _ b1); [done|lia|done|]. intros s2 Hwf2 Hs2. subst b1.
    apply wp_bind, (wp_distance _ _ dist code b2); [done|done|done| |].
    { intros Htr. pose proof (enough_inflates _ _ _ _ Hnext Htr). apply field_length in Hf2. apply distance_symbol_length in Hdc. lia. }
    intros s3 Hwf3 Hs3. subst b2. rewrite (proj2 (Z.ltb_ge _ _)) by lia.
    apply wp_bind, (wp_lift _ _ dbase); [by rewrite Hdb|]. apply wp_bind, (wp_lift _ _ deb); [by rewrite Hdeb|].
    apply wp_bind, (wp_take _ deb dextra _ rest); [done|lia|done|]. intros s4 Hwf4 Hs4. subst rest.
    pose proof Hf1 as [Hf1' Hx1]. pose proof Hf2 as [Hf2' Hx2].
    assert (HW : W = 32768) by done. rewrite !wrap_id by lia.
    destruct (put_match_spec (base + extra) (dbase + dextra) (set_stream d s4) hist (window_set_stream _ _ _ Hwin) ltac:(lia) ltac:(lia))
      as (d' & Hput & Hwin' & Hp' & w & sz & tl & p & Hd').
    unfold wp. rewrite Hput. cbn [m_produced_bytes set_stream] in Hp'. subst d'.
    assert (Hl1 : Z.of_nat (length (lz_copy (Z.to_nat (base + extra)) (dbase + dextra) hist)) = Z.of_nat (length hist) + (base + extra)).
    { rewrite length_lz_copy by lia. lia. }
    split.
    + split; [done|done|]. exists (MSymbol (m_bfinal d) lit dist), (lz_copy (Z.to_nat (base + extra)) (dbase + dextra) hist).
      split_and!; [done|done|done|lia|lia|]. apply written_grows; [apply lz_copy_prefix|lia|lia].
    + cbn [m_stream set_window set_stream]. apply field_length in Hf1. apply field_length in Hf2.
      apply distance_symbol_length in Hdc. rewrite !length_app in *. lia.
Qed.

(** *** The iterations of the main loop *)
Definition rank (st : State) : Z :=
  match st with StateDone => 0 | StreamFooter => 1 | BlockHeader => 2 | _ => 3 end.

Definition measure (d : Decompressor) : Z := 4 * Z.of_nat (length (stream_bits (m_stream d))) + rank (m_state d).

Definition step_post (d : Decompressor) (out final : list Z) (r : outcome flow * Decompressor) : Prop :=
  match r with
  | (Ok Next, d') => follows d' out final /\ measure d' < measure d
  | (Ok (MoreInput restore), d') => follows (if restore then set_stream d' (m_stream d) else d') out final /\ ~ enough
  | _ => False
  end.

Lemma symbols_spec fuel out final : forall d,
  follows d out final -> Z.of_nat (length (stream_bits (m_stream d))) < Z.of_nat fuel ->
  match symbols fuel d with
  | (Ok Next, d') => follows d' out final /\ (length (stream_bits (m_stream d')) <= length (stream_bits (m_stream d)))%nat /\
      (m_produced_bytes d + 258 < W -> m_state d = Symbol -> (length (stream_bits (m_stream d')) < length (stream_bits (m_stream d)))%nat)
  | (Ok (MoreInput restore), d') => restore = false /\ follows d' out final /\ ~ enough
  | _ => False
  end.
Proof.
  induction fuel as [|fuel IH]; intros d Hf Hfuel; [lia|]. cbn [symbols].
  destruct ((m_produced_bytes d + 258 <? W) && bool_decide (m_state d = Symbol)) eqn:E.
  - apply andb_true_iff in E as [E1 E2]. apply Z.ltb_lt in E1. apply bool_decide_eq_true in E2.
    pose proof (handle_symbol_follows d out final Hf E2 E1) as Hs. unfold wp in Hs.
    destruct (handle_symbol d) as [[u|e|] d']; [| |done].
    + destruct Hs as [Hf' Hlt]. specialize (IH d' Hf' ltac:(lia)). destruct (symbols fuel d') as [[[|restore]|e|] d'']; [|done|done|done].
      destruct IH as (Hf'' & Hle & _). split_and!; [done|lia|]. intros _ _. lia.
    + destruct e; try done. destruct Hs as [[s ->] Hne]. split; [done|]. by rewrite set_stream_twice, set_stream_id.
  - split_and!; [done|done|]. intros H1 H2. apply andb_false_iff in E as [E|E]; [apply Z.ltb_ge in E; lia|].
    by apply bool_decide_eq_false in E.
Qed.

Lemma length_avail d : input_wf (m_stream d) -> available_bits (m_stream d) = Z.of_nat (length (stream_bits (m_stream d))).
Proof. intros Hwf. symmetry. apply length_stream_bits. apply (in_len _ Hwf). Qed.

Lemma stream_fuel_enough d : input_wf (m_stream d) -> Z.of_nat (length (stream_bits (m_stream d))) < Z.of_nat (stream_fuel d).
Proof. intros Hwf. unfold stream_fuel. rewrite length_avail by done. lia. Qed.

Lemma step_symbol d out final :
  follows d out final -> m_state d = Symbol -> m_produced_bytes d = 0 -> step_post d out final (step d).
Proof.
  intros Hf Hst Hp. unfold step, step_post. rewrite Hst.
  pose proof (symbols_spec (stream_fuel d) out final d Hf (stream_fuel_enough d (f_stream _ _ _ Hf))) as Hs.
  destruct (symbols (stream_fuel d) d) as [[[|restore]|e|] d']; [| |done|done].
  - destruct Hs as (Hf' & _ & Hlt). split; [done|]. unfold measure. rewrite Hst. rewrite Hp in Hlt. specialize (Hlt eq_refl Hst).
    destruct (m_state d'); cbn; lia.
  - by destruct Hs as (-> & Hf' & Hne).
Qed.

Lemma must_take n x d rest :
  input_wf (m_stream d) -> 0 <= n <= 16 -> field n x (stream_bits (m_stream d) ++ fut) rest ->
  n <= Z.of_nat (length (stream_bits (m_stream d))) ->
  exists s', smust (take n) d = (Ok x, set_stream d s') /\ input_wf s' /\ stream_bits s' ++ fut = rest /\
    Z.of_nat (length (stream_bits s')) = Z.of_nat (length (stream_bits (m_stream d))) - n.
Proof.
  intros Hwf Hn [Hf Hx] Hlen. unfold smust, take, on_stream.
  pose proof (take_bits_spec n (m_stream d) Hn Hwf) as Ht. destruct (take_bits n (m_stream d)) as [r s']. destruct Ht as (Hwf' & Hr & Hs').
  unfold reads in Hr. rewrite (proj2 (Z.ltb_ge _ _)) in Hr by lia. subst r. exists s'.
  assert (Htk : list.take (Z.to_nat n) (stream_bits (m_stream d)) = bits_of (Z.to_nat n) x).
  { apply (f_equal (list.take (Z.to_nat n))) in Hf. rewrite take_app_le, take_app_length' in Hf by (rewrite ?length_bits_of; lia). done. }
  rewrite Htk, value_bits_of, Z2Nat.id, Z.mod_small by lia. split_and!; [done|done| |rewrite Hs', length_drop; lia].
  rewrite Hs'. apply (f_equal (drop (Z.to_nat n))) in Hf. by rewrite drop_app_le, drop_app_length' in Hf by (rewrite ?length_bits_of; lia).
Qed.

Lemma fixed_lengths_ok : lens_ok fixed_lengths.
Proof.
  split; [|by vm_compute|by vm_compute; split].
  unfold fixed_lengths. repeat (apply list.Forall_app; split); apply Forall_replicate; lia.
Qed.

(** The state after a change that leaves window, type and output alone. *)
Lemma follows_at d d' out final m hist :
  m_type d = Raw -> window_ok d hist -> m_produced_bytes d <= Z.of_nat (length hist) -> m_produced_bytes d <= W ->
  written d hist = out ->
  (exists st s bf lt dt raw, d' = mk (m_type d) st s (m_window d) (m_window_size d) (m_window_tail d) (m_produced_bytes d) bf lt dt raw (m_stream_info d)) ->
  input_wf (m_stream d') -> mode_ok d' m -> inflates m (stream_bits (m_stream d') ++ fut) hist final tr ->
  follows d' out final.
Proof.
  intros Ht Hwin Hp HpW Hout (st & s & bf & lt & dt & raw & ->) Hwf Hmode Hinf. split; [done|done|].
  exists m, hist. split; [done|]. split_and!; [done|by destruct Hwin|done|done|done].
Qed.

Ltac follow_state m hist :=
  eapply (follows_at _ _ _ _ m hist); [eassumption|eassumption|eassumption|eassumption|done|by do 6 eexists|eassumption| |].

Lemma step_block_header d out final :
  follows d out final -> m_state d = BlockHeader -> step_post d out final (step d).
Proof.
  intros Hfol Hst. pose proof Hfol as [Htype Hwf (m & hist & Hmode & Hinf & Hwin & Hph & HpW & Hout)].
  mode_inv m Hmode. destruct Hmode as [Hbf _]. unfold step. rewrite Hst. unfold block_header, sbind at 1, sget. rewrite Hbf.
  destruct bf.
  { cbn. split; [|unfold measure; cbn; rewrite Hst; cbn; lia].
    follow_state (MHeader true) hist; [split; [done|right; right; split; [done|by left]]|done]. }
  rewrite length_avail by done. destruct (Z.ltb_spec (Z.of_nat (length (stream_bits (m_stream d)))) 3) as [Hlt|Hge].
  { split; [done|]. intros [Hfut _]. rewrite Hfut, app_nil_r in Hinf.
    inversion Hinf as [|? ? ? ? ? ? ? F1 F2 _|? ? ? ? ? ? ? F1 F2 _|? ? ? ? ? ? ? F1 F2 _| | | | | | |]; subst;
      apply field_length in F1; apply field_length in F2; lia. }
  assert (Hhead : exists bf bt b1 rest, field 1 (Z.b2z bf) (stream_bits (m_stream d) ++ fut) b1 /\ field 2 bt b1 rest /\
    ((bt = 0 /\ inflates (MStored bf) rest hist final tr) \/
     (bt = 1 /\ inflates (MSymbol bf fixed_lengths None) rest hist final tr) \/
     (bt = 2 /\ inflates (MDynamic bf) rest hist final tr))).
  { inversion Hinf as [|bf' ? b1 rest ? ? ? F1 F2 Hn|bf' ? b1 rest ? ? ? F1 F2 Hn|bf' ? b1 rest ? ? ? F1 F2 Hn| | | | | | |]; subst.
    - exists bf', 0, b1, rest. tauto.
    - exists bf', 1, b1, rest. tauto.
    - exists bf', 2, b1, rest. tauto. }
  destruct Hhead as (bf & bt & b1 & rest & F1 & F2 & Hcase).
  destruct (must_take 1 _ d _ Hwf ltac:(lia) F1 ltac:(lia)) as (s1 & Ht1 & Hwf1 & Hs1 & Hl1). unfold sbind at 1. rewrite Ht1.
  unfold sbind at 1, modify at 1. rewrite <- Hs1 in F2.
  replace (negb (Z.b2z bf =? 0)) with bf by (by destruct bf).
  destruct (must_take 2 _ (set_bfinal (set_stream d s1) bf) _ Hwf1 ltac:(lia) F2 ltac:(cbn; lia)) as (s2 & Ht2 & Hwf2 & Hs2 & Hl2).
  unfold sbind at 1. rewrite Ht2. cbn [m_stream set_bfinal set_stream] in Hl2. subst rest.
  destruct Hcase as [[-> Hn]|[[-> Hn]|[-> Hn]]]; cbn [Z.eqb].
  - split; [|unfold measure; rewrite Hst; cbn; lia]. follow_state (MStored bf) hist; done.
  - change (1 =? 0) with false. change (1 =? 1) with true. cbn iota. destruct (create_ok _ fixed_lengths_ok) as (t & Ht & Htree).
    unfold fixed_tree. rewrite Ht. split; [|unfold measure; rewrite Hst; cbn; lia].
    follow_state (MSymbol bf fixed_lengths None) hist; [|done]. split_and!; [done|done|apply fixed_lengths_ok|done|done].
  - split; [|unfold measure; rewrite Hst; cbn; lia]. follow_state (MDynamic bf) hist; done.
Qed.

Lemma available_bytes_bits s : input_wf s -> available_bytes s = Z.of_nat (length (stream_bits s)) / 8.
Proof.
  intros Hwf. rewrite length_stream_bits by (apply (in_len _ Hwf)). unfold available_bytes, available_bits.
  rewrite Z.add_comm, (Z.add_comm (unprocessed_bytes s * 8)), Z.div_add by lia. lia.
Qed.

Lemma length_mod8 s : input_wf s -> Z.of_nat (length (stream_bits s)) `mod` 8 = m_bit_buffer_len s `mod` 8.
Proof.
  intros Hwf. rewrite length_stream_bits by (apply (in_len _ Hwf)). unfold available_bits.
  by rewrite Z.add_comm, Z.mod_add by lia.
Qed.

Context (Hfut : Z.of_nat (length fut) `mod` 8 = 0).

Lemma step_literal_header d out final :
  follows d out final -> m_state d = LiteralHeader -> step_post d out final (step d).
Proof.
  intros Hfol Hst. pose proof Hfol as [Htype Hwf (m & hist & Hmode & Hinf & Hwin & Hph & HpW & Hout)].
  mode_inv m Hmode. destruct Hmode as [Hbf _]. unfold step. rewrite Hst. unfold literal_header, sbind at 1, sget.
  inversion Hinf as [| | | |? ? pad len b1 b2 rest ? ? ? Hpad Hpl F1 F2 Hn| | | | | |]; subst.
  pose proof (length_mod8 _ Hwf) as Hmod. pose proof (field_length _ _ _ _ F1) as Hl1. pose proof (field_length _ _ _ _ F2) as Hl2.
  set (k := length (stream_bits (m_stream d))) in *.
  assert (Hpk : Z.of_nat (length pad) = Z.of_nat k `mod` 8).
  { rewrite Hpl, length_app, Nat2Z.inj_add, Z.add_mod, Hfut, Z.add_0_r, Z.mod_mod by lia. done. }
  assert (Hkf : (k + length fut = length pad + length b1)%nat) by (unfold k; rewrite <- !length_app; by rewrite Hpad).
  pose proof (Z.div_mod (Z.of_nat k) 8 ltac:(lia)) as Hdm.
  rewrite available_bytes_bits by done. fold k. destruct (Z.ltb_spec (Z.of_nat k / 8) 4) as [Hlt|Hge].
  { split; [done|]. intros [Hf0 _]. rewrite Hf0 in Hkf. cbn in Hkf. lia. }
  unfold sbind at 1, modify at 1. destruct (skip_spec _ Hwf) as (Hwf0 & Hm0 & _ & Hs0).
  set (s0 := skip_to_byte_boundary (m_stream d)) in *.
  assert (Hs0' : stream_bits s0 ++ fut = b1).
  { rewrite Hs0, <- Hmod, <- Hpk, Nat2Z.id. apply (f_equal (drop (length pad))) in Hpad.
    rewrite drop_app_length, drop_app_le in Hpad; [done|]. fold k. lia. }
  assert (Hk0 : Z.of_nat (length (stream_bits s0)) = Z.of_nat k - Z.of_nat (length pad)) by (rewrite Hs0, length_drop; fold k; lia).
  destruct (must_take 16 len (set_stream d s0) b2 Hwf0 ltac:(lia) ltac:(by rewrite <- Hs0' in F1) ltac:(cbn; lia)) as (s1 & Ht1 & Hwf1 & Hs1 & Hk1).
  unfold sbind at 1. rewrite Ht1. cbn [m_stream set_stream] in Hk1.
  destruct (must_take 16 (0xFFFF - len) (set_stream d s1) rest Hwf1 ltac:(lia) ltac:(by rewrite <- Hs1 in F2) ltac:(cbn; lia)) as (s2 & Ht2 & Hwf2 & Hs2 & Hk2).
  unfold sbind at 1. rewrite set_stream_twice, Ht2. cbn [m_stream set_stream] in Hk2.
  replace (0xFFFF - (0xFFFF - len)) with len by lia. rewrite Z.eqb_refl. cbn [negb].
  split; [|unfold measure; rewrite Hst; cbn; fold k; lia].
  follow_state (MRaw (m_bfinal d) len) hist; [|by rewrite <- Hs2 in Hn].
  split; [done|]. split; [done|]. split; [done|]. split; [apply F1|].
  cbn [m_stream set_state set_raw set_stream]. rewrite <- length_mod8 by done.
  rewrite Hk2, Hk1, Hk0, Hpk. rewrite Hdm at 1.
  replace (8 * (Z.of_nat k / 8) + Z.of_nat k `mod` 8 - Z.of_nat k `mod` 8 - 16 - 16) with ((Z.of_nat k / 8 - 4) * 8) by lia.
  apply Z.mod_mul. lia.
Qed.

Lemma step_dynamic_header d out final :
  follows d out final -> m_state d = DynamicHeader -> step_post d out final (step d).
Proof.
  intros Hfol Hst. pose proof Hfol as [Htype Hwf (m & hist & Hmode & Hinf & Hwin & Hph & HpW & Hout)].
  mode_inv m Hmode. destruct Hmode as [Hbf _]. unfold step. rewrite Hst. unfold or_more_input.
  inversion Hinf as [| | | | |? ? lit dist rest ? ? ? Hdyn Hn| | | | |]; subst.
  pose proof (enough_inflates _ _ _ _ Hn) as Hen.
  assert (Hlen : (length rest + 14 <= length (stream_bits (m_stream d) ++ fut))%nat).
  { destruct Hdyn as (? & ? & ? & ? & ? & ? & ? & ? & ? & F1 & F2 & F3 & Hc & _ & _ & Hb & _).
    apply field_length in F1, F2, F3. apply code_lengths_length in Hc. apply bit_lengths_length in Hb. lia. }
  pose proof (wp_here handle_dynamic_header d _ (wp_dynamic d (m_stream d) lit dist rest
    (fun _ d' => exists s' lt dt, d' = set_trees (set_stream d s') lt dt /\ input_wf s' /\ stream_bits s' ++ fut = rest /\
       lens_ok lit /\ tree_ok lit lt /\ lens_ok dist /\ tree_ok dist dt) Hwf Hdyn Hen ltac:(by intros s' lt dt; exists s', lt, dt))) as Hw.
  unfold wp in Hw. destruct (handle_dynamic_header d) as [[u|e|] d']; [| |done].
  - destruct Hw as (s' & lt & dt & -> & Hwf' & Hs' & Hok1 & Ht1 & Hok2 & Ht2). split.
    + follow_state (MSymbol (m_bfinal d) lit (Some dist)) hist; [by split_and!|by rewrite <- Hs' in Hn].
    + unfold measure. rewrite Hst. cbn. rewrite <- Hs', !length_app in Hlen. lia.
  - destruct e; try done. destruct Hw as [[s ->] Hne]. split; [|done]. by rewrite set_stream_twice, set_stream_id.
Qed.

Lemma step_stream_ends d out final :
  follows d out final -> m_state d = StreamHeader \/ m_state d = StreamFooter -> step_post d out final (step d).
Proof.
  intros Hfol Hst. pose proof Hfol as [Htype Hwf (m & hist & Hmode & Hinf & Hwin & Hph & HpW & Hout)].
  unfold step, or_more_input, handle_header, handle_footer. rewrite Htype. destruct Hst as [Hst|Hst]; rewrite Hst; mode_inv m Hmode.
  - assert (bf = false) as -> by (destruct Hmode as [_ [?|[[? _]|[_ [?|?]]]]]; congruence).
    split; [|unfold measure; rewrite Hst; cbn; lia]. follow_state (MHeader false) hist; [|done]. split; [apply Hmode|by left].
  - assert (bf = true) as -> by (destruct Hmode as [_ [?|[[_ ?]|[? _]]]]; congruence).
    split; [|unfold measure; rewrite Hst; cbn; lia]. follow_state (MHeader true) hist; [|done].
    split; [apply Hmode|]. right. right. split; [done|by right].
Qed.

(** *** Stored bytes *)
Lemma inflates_bytes bf bs : forall n rest hist final,
  Forall byte bs -> Z.of_nat (length bs) <= n ->
  inflates (MRaw bf n) (bytes_bits bs ++ rest) hist final tr -> inflates (MRaw bf (n - Z.of_nat (length bs))) rest (hist ++ bs) final tr.
Proof.
  induction bs as [|b bs IH]; intros n rest hist final Hb Hn Hinf.
  { cbn [length]. by rewrite Z.sub_0_r, app_nil_r. }
  inversion_clear Hb as [|? ? Hb1 Hb2]. cbn [length] in *. unfold bytes_bits in Hinf. cbn [mbind list_bind] in Hinf.
  rewrite <- app_assoc in Hinf.
  inversion Hinf as [| | | | | |? ? ? ? ? Hend|? ? b' ? rest' ? ? ? Hpos F1 Hnext| | |]; subst; [lia|].
  destruct (field_unique 8 b' b _ _ (bytes_bits bs ++ rest) ltac:(lia) F1) as [-> ->]; [by split|].
  apply IH in Hnext; [|done|lia]. rewrite <- app_assoc in Hnext. by replace (n - Z.of_nat (S (length bs))) with (n - 1 - Z.of_nat (length bs)) by lia.
Qed.

Lemma sbind_assoc {St A B C} (m : stateful St A) (f : A -> stateful St B) (k : B -> stateful St C) st :
  sbind m (fun a => sbind (f a) k) st = sbind (sbind m f) k st.
Proof. unfold sbind. by destruct (m st) as [[a|e|] st']. Qed.

Lemma read_into_window_spec pos n d :
  input_wf (m_stream d) -> m_bit_buffer_len (m_stream d) `mod` 8 = 0 -> Z.of_nat n <= available_bytes (m_stream d) ->
  exists bs s', read_into_window pos n d =
      (Ok tt, set_window (set_stream d s') (firstn (Z.to_nat pos) (m_window d) ++ bs ++ skipn (Z.to_nat pos + n) (m_window d))
                (m_window_size d) (m_window_tail d) (m_produced_bytes d)) /\
    length bs = n /\ Forall byte bs /\ stream_bits (m_stream d) = bytes_bits bs ++ stream_bits s' /\ input_wf s' /\
    m_bit_buffer_len s' `mod` 8 = 0.
Proof.
  intros Hwf Hm Hn. destruct (take_byte_aligned_spec n (m_stream d) Hwf Hm Hn) as (bs & s' & Ht & Hlen & Hb & Hs & Hwf' & Hm').
  exists bs, s'. split; [|done]. unfold read_into_window, sbind, smust, on_stream. by rewrite Ht.
Qed.

(** The two reads, before and after the wrap-around, append [n] bytes. *)
Lemma read_run d hist n :
  window_ok d hist -> input_wf (m_stream d) -> m_bit_buffer_len (m_stream d) `mod` 8 = 0 ->
  0 <= n <= W -> n <= available_bytes (m_stream d) ->
  let head := (m_window_tail d + m_window_size d) `mod` W in
  let bw := Z.min (W - head) n in
  exists bs s' w, (let! _ := read_into_window head (Z.to_nat bw) in
     if n - bw =? 0 then sret tt else read_into_window 0 (Z.to_nat (n - bw))) d =
      (Ok tt, set_window (set_stream d s') w (m_window_size d) (m_window_tail d) (m_produced_bytes d)) /\
    Z.of_nat (length bs) = n /\ Forall byte bs /\ stream_bits (m_stream d) = bytes_bits bs ++ stream_bits s' /\ input_wf s' /\
    m_bit_buffer_len s' `mod` 8 = 0 /\
    holds_last w (m_window_tail d + m_window_size d + n) (Z.min W (m_window_size d + n)) (hist ++ bs).
Proof.
  intros [Ht Hs Hh Hp] Hwf Hm Hn Hav. cbn zeta. pose proof (mod_window (m_window_tail d + m_window_size d)) as Hmw.
  set (head := (m_window_tail d + m_window_size d) `mod` W) in *. set (bw := Z.min (W - head) n).
  destruct (read_into_window_spec head (Z.to_nat bw) d Hwf Hm ltac:(lia)) as (bs & s1 & Hr & Hlen & Hb & Hs1 & Hwf1 & Hm1).
  unfold sbind. rewrite Hr. pose proof (holds_splice bs _ _ _ _ Hh) as Hw1. fold head in Hw1. specialize (Hw1 ltac:(lia)).
  rewrite Hlen in Hw1. rewrite Z2Nat.id in Hw1 by lia.
  destruct (Z.eqb_spec (n - bw) 0) as [Hz|Hnz].
  { exists bs, s1. eexists. split; [done|]. replace n with bw by lia. split_and!; [lia|done|done|done|done|done]. }
  set (d1 := set_window (set_stream d s1) _ _ _ _).
  assert (Hav1 : Z.of_nat (Z.to_nat (n - bw)) <= available_bytes (m_stream d1)).
  { cbn [m_stream set_window set_stream d1]. rewrite available_bytes_bits in * by done. rewrite Hs1, length_app, length_bytes_bits, Hlen in Hav.
    rewrite Nat2Z.inj_add, Nat2Z.inj_mul, Z2Nat.id, (Z.mul_comm (Z.of_nat 8)), Z.div_add_l in Hav by lia. lia. }
  destruct (read_into_window_spec 0 (Z.to_nat (n - bw)) d1 Hwf1 Hm1 Hav1) as (bs2 & s2 & Hr2 & Hlen2 & Hb2 & Hs2 & Hwf2 & Hm2).
  rewrite Hr2. exists (bs ++ bs2), s2. eexists. split; [done|].
  assert (Hmod0 : (m_window_tail d + m_window_size d + bw) `mod` W = 0).
  { rewrite <- Zplus_mod_idemp_l. fold head. replace (head + bw) with W by lia. by rewrite Z.mod_same by done. }
  pose proof (holds_splice bs2 _ _ _ _ Hw1) as Hw2. rewrite Hmod0 in Hw2. specialize (Hw2 ltac:(lia)).
  rewrite Hlen2, Z2Nat.id in Hw2 by lia.
  split_and!; [rewrite length_app; lia|by apply list.Forall_app| |done|done|].
  - rewrite Hs1. cbn [m_stream set_window set_stream d1] in Hs2. by rewrite Hs2, bytes_bits_app, <- app_assoc.
  - replace (m_window_tail d + m_window_size d + n) with (m_window_tail d + m_window_size d + bw + (n - bw)) by lia.
    replace (Z.min W (m_window_size d + n)) with (Z.min W (Z.min W (m_window_size d + bw) + (n - bw))) by lia.
    by rewrite (app_assoc hist).
Qed.

Lemma step_read_raw d out final :
  follows d out final -> m_state d = ReadRaw -> m_produced_bytes d = 0 -> step_post d out final (step d).
Proof.
  intros Hfol Hst Hp0. pose proof Hfol as [Htype Hwf (m & hist & Hmode & Hinf & Hwin & Hph & HpW & Hout)].
  mode_inv m Hmode. destruct Hmode as (Hbf & _ & Hraw & Hn & Hm8). unfold step. rewrite Hst. unfold read_raw, sbind at 1, sget.
  rewrite !Math.min_spec, Hraw. set (av := available_bytes (m_stream d)). set (can := Z.min (Z.min n W) av).
  assert (Hav : 0 <= av) by (unfold av; rewrite available_bytes_bits by done; apply Z.div_pos; lia).
  destruct (read_run d hist can Hwin Hwf Hm8 ltac:(lia) ltac:(lia)) as (bs & s' & w & Hrd & Hlen & Hb & Hs & Hwf' & Hm' & Hw).
  set (head := (m_window_tail d + m_window_size d) `mod` W) in *. set (bw := Z.min (W - head) can) in *.
  rewrite sbind_assoc. unfold sbind at 1. rewrite Hrd. unfold sbind at 1, modify at 1.
  set (d1 := set_window (set_stream d s') w _ _ _). pose proof Hwin as [Hwt Hws _ _].
  destruct (grow_window_spec d1 w hist (hist ++ bs) can) as (Hwin2 & Hp2 & sz & tl & p & Hg);
    [done|done|by rewrite <- Hp0 in *|lia|rewrite length_app; lia|done|].
  change (m_window d1) with w. change (m_raw_bytes_left d1) with (m_raw_bytes_left d). rewrite Hraw, (wrap_id 16 (n - can)) by lia.
  set (d2 := set_raw (grow_window d1 w can) (n - can)).
  rewrite Hs, <- app_assoc in Hinf. pose proof (inflates_bytes bf bs n _ _ _ Hb ltac:(lia) Hinf) as Hinf2. rewrite Hlen in Hinf2.
  assert (Hbits : Z.of_nat (length (stream_bits (m_stream d))) = 8 * can + Z.of_nat (length (stream_bits s'))).
  { rewrite Hs, length_app, length_bytes_bits. lia. }
  assert (Hd2 : d2 = mk (m_type d) (m_state d) s' w sz tl p (m_bfinal d) (m_length_tree d) (m_distance_tree d) (n - can) (m_stream_info d)).
  { unfold d2. by rewrite Hg. }
  assert (Hp2' : m_produced_bytes d2 = can) by (change (m_produced_bytes d2) with (m_produced_bytes (grow_window d1 w can)); rewrite Hp2; change (m_produced_bytes d1) with (m_produced_bytes d); lia).
  assert (Hfol2 : forall d3 m, (exists st, d3 = set_state d2 st) -> mode_ok d3 m ->
    inflates m (stream_bits s' ++ fut) (hist ++ bs) final tr -> follows d3 out final).
  { intros d3 m [st ->] Hmo Hi. rewrite Hd2 in *. split; [done|done|]. exists m, (hist ++ bs). split; [done|].
    change (m_produced_bytes _) with p in Hp2'. split; [done|]. split; [|split; [|split]].
    - destruct Hwin2 as [G1 G2 G3 G4]. rewrite Hg in *. by split.
    - change (m_produced_bytes _) with p. rewrite length_app. lia.
    - change (m_produced_bytes _) with p. lia.
    - rewrite <- Hout. apply written_grows; [by eexists|lia|]. change (m_produced_bytes (set_state _ _)) with p. rewrite length_app. lia. }
  unfold sbind, sget. change (m_raw_bytes_left d2) with (n - can). change (m_stream d2) with (m_stream (grow_window d1 w can)).
  replace (m_stream (grow_window d1 w can)) with s' by (by rewrite Hg). rewrite (available_bytes_bits s') by done.
  assert (Hself : d2 = set_state d2 ReadRaw) by (by rewrite Hd2, Hst).
  assert (Hav' : av = can + Z.of_nat (length (stream_bits s')) / 8).
  { unfold av. rewrite available_bytes_bits, Hbits, (Z.mul_comm 8), Z.div_add_l by (done || lia). done. }
  assert (Hmeas : forall st, measure (set_state d2 st) = 4 * Z.of_nat (length (stream_bits s')) + rank st) by (intros st; by rewrite Hd2).
  destruct (Z.eqb_spec (n - can) 0) as [Hz|Hnz].
  - split; [|unfold modify; rewrite Hmeas; unfold measure; rewrite Hst; cbn; lia].
    rewrite Hz in Hinf2. inversion Hinf2; subst; [|lia]. eapply (Hfol2 _ (MHeader (m_bfinal d))); [by eexists| |done].
    rewrite Hd2. split; [done|by left].
  - assert (Hmo : mode_ok (set_state d2 ReadRaw) (MRaw bf (n - can))) by (rewrite Hd2; split_and!; [done|done|done|lia|lia|done]).
    destruct (Z.eqb_spec (Z.of_nat (length (stream_bits s')) / 8) 0) as [Ha|Ha].
    + split; [rewrite Hself; by eapply Hfol2; [by eexists|exact Hmo|]|]. intros [Hf0 _].
      inversion Hinf2 as [| | | | | |? ? ? ? ? _|? ? b ? rest ? ? ? _ F1 _| | |]; subst; [lia|].
      apply field_length in F1. rewrite Hf0, app_nil_r in F1. apply Z.div_small_iff in Ha; lia.
    + split; [rewrite Hself; by eapply Hfol2; [by eexists|exact Hmo|]|].
      rewrite Hself, Hmeas. unfold measure. rewrite Hst, Hbits. cbn [rank]. 
      assert (0 < Z.of_nat (length (stream_bits s')) / 8) by (pose proof (Z.div_pos (Z.of_nat (length (stream_bits s'))) 8); lia).
      assert (W = 32768) by done. lia.
Qed.

Lemma step_follows d out final :
  follows d out final -> m_state d <> StateDone -> m_produced_bytes d = 0 -> step_post d out final (step d).
Proof.
  intros Hf Hst Hp. destruct (m_state d) eqn:E; [| | | | | | |done].
  - apply step_stream_ends; [done|by left].
  - apply step_stream_ends; [done|by right].
  - by apply step_block_header.
  - by apply step_literal_header.
  - by apply step_dynamic_header.
  - by apply step_read_raw.
  - by apply step_symbol.
Qed.

Lemma write_follows room d out final :
  follows d out final -> 0 <= room ->
  exists w p, write_data_to_output room d = (Ok w, set_window d (m_window d) (m_window_size d) (m_window_tail d) p) /\
    follows (set_window d (m_window d) (m_window_size d) (m_window_tail d) p) (out ++ w) final /\
    p = m_produced_bytes d - Z.min room (m_produced_bytes d) /\ Z.of_nat (length w) = Z.min room (m_produced_bytes d).
Proof.
  intros [Htype Hwf (m & hist & Hmode & Hinf & Hwin & Hph & HpW & Hout)] Hroom. pose proof Hwin as [_ Hsz _ Hp0].
  destruct (write_data_spec room d hist Hwin Htype Hroom ltac:(lia)) as (w & d' & Hw & Hwin' & Hwr & Hp & Hlen & p & ->).
  cbn [m_produced_bytes set_window] in Hp. exists w, p. split; [done|]. split_and!; [|done|done]. split; [done|done|].
  exists m, hist. split; [by destruct m|]. split_and!; [done|done|cbn; lia|cbn; lia|]. by rewrite Hwr, Hout.
Qed.

Lemma follows_done d out final :
  follows d out final -> m_state d = StateDone -> m_produced_bytes d = 0 -> out = final.
Proof.
  intros [Htype Hwf (m & hist & Hmode & Hinf & Hwin & Hph & HpW & Hout)] Hst Hp. mode_inv m Hmode.
  assert (bf = true) as -> by (destruct Hmode as [_ [?|[[_ ?]|[? _]]]]; congruence).
  inversion Hinf; subst. unfold written. rewrite Hp. change (Z.to_nat 0) with 0%nat. by rewrite Nat.sub_0_r, firstn_all.
Qed.

Lemma follows_prefix d out final : follows d out final ->
  out `prefix_of` final /\ Z.of_nat (length out) + m_produced_bytes d <= Z.of_nat (length final).
Proof.
  intros [Htype Hwf (m & hist & Hmode & Hinf & Hwin & Hph & HpW & Hout)]. apply inflates_prefix in Hinf. pose proof (w_produced _ _ Hwin).
  pose proof (prefix_length _ _ Hinf). split.
  - etrans; [|exact Hinf]. rewrite <- Hout. unfold written. apply prefix_take.
  - rewrite <- Hout. unfold written. rewrite length_firstn. lia.
Qed.

(** What a call returns, with [out] written before it and [w] by it. *)
Definition call_post (room : Z) (out final w : list Z) (r : outcome Status) (d' : Decompressor) : Prop :=
  follows d' (out ++ w) final /\ Z.of_nat (length w) <= room /\
  match r with
  | Ok Done => m_state d' = StateDone /\ m_produced_bytes d' = 0
  | Ok NeedMoreInput => ~ enough
  | Ok NeedMoreOutput => Z.of_nat (length w) = room /\ 0 < m_produced_bytes d'
  | _ => False
  end.

Lemma main_loop_spec fuel final : forall room acc out d,
  follows d out final -> m_produced_bytes d = 0 -> measure d < Z.of_nat fuel -> 0 <= room ->
  let '(r, acc', d') := main_loop fuel room acc d in
  exists w, acc' = acc ++ w /\ call_post room out final w r d'.
Proof.
  induction fuel as [|fuel IH]; intros room acc out d Hf Hp Hfuel Hroom; cbn [main_loop].
  { unfold measure in Hfuel. destruct (m_state d); cbn in Hfuel; lia. }
  case_bool_decide as Hst.
  { exists []. rewrite app_nil_r. split; [done|]. split_and!; [by rewrite app_nil_r|done|done..]. }
  pose proof (step_follows d out final Hf Hst Hp) as Hs. destruct (step d) as [[[|restore]|e|] d1]; cbn [step_post] in Hs; [| |done|done].
  - destruct Hs as [Hf1 Hm1]. destruct (write_follows room d1 out final Hf1 Hroom) as (w & p & Hw & Hf2 & Hp2 & Hlw). rewrite Hw.
    set (d2 := set_window d1 _ _ _ p) in *. change (m_produced_bytes d2) with p. destruct (Z.ltb_spec 0 p) as [Hpos|Hnpos].
    + exists w. split; [done|]. unfold call_post. split_and!; [done|lia|lia|done].
    + assert (p = 0) by (destruct Hf1 as [_ _ (m & hist & _ & _ & [_ _ _ ?] & _)]; lia).
      specialize (IH (room - Z.of_nat (length w)) (acc ++ w) (out ++ w) d2 Hf2 ltac:(done) ltac:(change (measure d2) with (measure d1); lia) ltac:(lia)).
      destruct (main_loop _ _ _ d2) as [[r acc'] d']. destruct IH as (w' & -> & Hf' & Hlw' & Hr). exists (w ++ w').
      split; [by rewrite app_assoc|]. split; [by rewrite app_assoc|]. split; [rewrite length_app; lia|]. destruct r as [[| |]|e|]; try done.
      rewrite length_app. split; [lia|apply Hr].
  - destruct Hs as [Hf1 Hne]. exists []. split; [by rewrite app_nil_r|]. split_and!; [by rewrite app_nil_r|done|done].
Qed.
End handlers.

(** ** The input that is left is a suffix of the input *)
Definition data_of (d : Decompressor) : list Z := m_data (m_stream d).

Definition keeps {A} (m : stateful Decompressor A) : Prop := forall d, data_of (m d).2 `suffix_of` data_of d.

Create HintDb keeps discriminated.
#[export] Hint Constants Opaque : keeps.

Lemma keeps_bind {A B} (m : stateful Decompressor A) (k : A -> stateful Decompressor B) :
  keeps m -> (forall a, keeps (k a)) -> keeps (sbind m k).
Proof.
  intros Hm Hk d. unfold sbind. specialize (Hm d). destruct (m d) as [[a|e|] d']; [|done|done]. etrans; [apply Hk|done].
Qed.

Lemma keeps_bind_get {B} (k : Decompressor -> stateful Decompressor B) : (forall a, keeps (k a)) -> keeps (sbind sget k).
Proof. intros Hk d. apply Hk. Qed.

Lemma keeps_ret {A} (a : A) : keeps (sret a).
Proof. intros d. done. Qed.

Lemma keeps_lift {A} (o : outcome A) : keeps (slift o).
Proof. intros d. done. Qed.

Lemma keeps_fail {A} e : keeps (sfail (A:=A) e).
Proof. intros d. done. Qed.

Lemma keeps_assert b : keeps (sassert b).
Proof. intros d. done. Qed.

Lemma keeps_modify f : (forall d, data_of (f d) = data_of d) -> keeps (modify f).
Proof. intros Hf d. cbn. by rewrite Hf. Qed.

Lemma keeps_must {A} (m : stateful Decompressor A) : keeps m -> keeps (smust m).
Proof. intros Hm d. unfold smust. specialize (Hm d). by destruct (m d) as [[a|e|] d']. Qed.

Lemma fill_suffix count data : forall buf len, m_data (fill data buf len count).2 `suffix_of` data.
Proof.
  induction data as [|b data IH]; intros buf len; cbn [fill]; destruct (len <? count); try done.
  etrans; [apply IH|]. by exists [b].
Qed.

Lemma take_bits_suffix n s : m_data (take_bits n s).2 `suffix_of` m_data s.
Proof.
  unfold take_bits, sbind, peek_bits. case_if; [done|]. pose proof (fill_suffix n (m_data s) (m_bit_buffer s) (m_bit_buffer_len s)) as H.
  by destruct (fill _ _ _ _) as [[u|e|] s'].
Qed.

Lemma peek_bits_suffix n s : m_data (peek_bits n s).2 `suffix_of` m_data s.
Proof.
  unfold peek_bits. case_if; [done|]. pose proof (fill_suffix n (m_data s) (m_bit_buffer s) (m_bit_buffer_len s)) as H.
  by destruct (fill _ _ _ _) as [[u|e|] s'].
Qed.

Lemma read_slow_suffix fuel t : forall code len s, m_data (read_slow fuel t code len s).2 `suffix_of` m_data s.
Proof.
  induction fuel as [|fuel IH]; intros code len s; cbn [read_slow]; case_if; try done.
  unfold sbind, slift. pose proof (take_bits_suffix 1 s) as H. destruct (take_bits 1 s) as [[b|e|] s1]; [|done|done].
  destruct (get_symbol _ _ _) as [[sym|]|e|]; try done. etrans; [apply IH|done].
Qed.

Lemma read_symbol_suffix t s : m_data (read_symbol t s).2 `suffix_of` m_data s.
Proof.
  unfold read_symbol, sbind, slift. pose proof (peek_bits_suffix (m_instant_bits t) s) as H.
  destruct (peek_bits _ s) as [[b|e|] s1]; [|done|done].
  destruct (get_symbol_instant t _) as [[en|]|e|]; [| |done|done]; unfold smust.
  - pose proof (take_bits_suffix (instant_len en) s1) as H1. destruct (take_bits _ s1) as [[c|e|] s2]; cbn in *; by etrans.
  - pose proof (take_bits_suffix (m_instant_bits t) s1) as H1. destruct (take_bits _ s1) as [[c|e|] s2]; [|by etrans..].
    etrans; [apply read_slow_suffix|]. by etrans.
Qed.

Lemma drain_data n : forall s, m_data (drain n s).2 = m_data s.
Proof.
  induction n as [|n IH]; intros s; cbn [drain]; [done|]. case_if; [done|].
  specialize (IH (mk_input (m_data s) (Z.shiftr (m_bit_buffer s) 8) (u32 (m_bit_buffer_len s - 8)))).
  by destruct (drain n _) as [[out rest] s'].
Qed.

Lemma take_byte_aligned_suffix n s : m_data (take_byte_aligned n s).2 `suffix_of` m_data s.
Proof.
  unfold take_byte_aligned. case_if; [done|]. pose proof (drain_data n s) as Hd. destruct (drain n s) as [[out rest] s'].
  cbn in Hd. case_if; cbn; rewrite Hd; [done|]. exists (firstn rest (m_data s)). by rewrite firstn_skipn.
Qed.

Lemma keeps_on_stream {A} (m : stateful BitInputStream A) : (forall s, m_data (m s).2 `suffix_of` m_data s) -> keeps (on_stream m).
Proof. intros Hm d. unfold on_stream. specialize (Hm (m_stream d)). by destruct (m (m_stream d)) as [r s']. Qed.

Lemma keeps_take n : keeps (take n).
Proof. apply keeps_on_stream. apply take_bits_suffix. Qed.

Lemma keeps_read_symbol t : keeps (on_stream (read_symbol t)).
Proof. apply keeps_on_stream. apply read_symbol_suffix. Qed.

Lemma keeps_take_bytes n : keeps (on_stream (take_byte_aligned n)).
Proof. apply keeps_on_stream. apply take_byte_aligned_suffix. Qed.

#[export] Hint Resolve keeps_ret keeps_lift keeps_fail keeps_assert keeps_take keeps_read_symbol keeps_take_bytes : keeps.

(** Goes through the structure of a handler. *)
Ltac keeps_step :=
  lazymatch goal with
  | |- keeps (sbind sget _) => apply keeps_bind_get; intros ?
  | |- keeps (sbind _ _) => apply keeps_bind; [|intros ?]
  | |- keeps (modify _) => apply keeps_modify; intros []; reflexivity
  | |- keeps (smust _) => apply keeps_must
  | |- keeps (if ?b then _ else _) => destruct b
  | |- keeps (match ?p with (_, _) => _ end) => destruct p
  | |- keeps _ => solve [auto with keeps]
  end.

Ltac keeps := repeat (cbn beta zeta; keeps_step).

Lemma keeps_read_code_lengths order : forall acc, keeps (read_code_lengths order acc).
Proof. induction order as [|i order IH]; intros acc; cbn [read_code_lengths]; keeps. Qed.

Lemma keeps_read_bit_lengths fuel t total : forall acc last, keeps (read_bit_lengths fuel t total acc last).
Proof. induction fuel as [|fuel IH]; intros acc last; cbn [read_bit_lengths]; keeps. Qed.
#[export] Hint Resolve keeps_read_code_lengths keeps_read_bit_lengths : keeps.

Lemma keeps_dynamic : keeps handle_dynamic_header.
Proof. unfold handle_dynamic_header. keeps. Qed.

Lemma keeps_put_literal x : keeps (put_literal x).
Proof. intros d. unfold put_literal. destruct (window_set _ _ _); [|done|done]. cbn. by case_if. Qed.

Lemma keeps_put_match a b : keeps (put_match a b).
Proof.
  intros d. unfold put_match. case_if; [done|]. destruct (copy_match _ _ _ _); [|done|done]. cbn. unfold grow_window. by case_if.
Qed.
#[export] Hint Resolve keeps_put_literal keeps_put_match : keeps.

Lemma keeps_handle_symbol : keeps handle_symbol.
Proof. unfold handle_symbol, read_distance_code. keeps. Qed.

Lemma keeps_skip_bytes n : keeps (skip_bytes n).
Proof. induction n as [|n IH]; cbn [skip_bytes]; keeps. Qed.

Lemma keeps_skip_string fuel : keeps (skip_string fuel).
Proof. induction fuel as [|fuel IH]; cbn [skip_string]; keeps. Qed.

Lemma keeps_skip_string_all : keeps (fun d => skip_string (stream_fuel d) d).
Proof. intros d. apply keeps_skip_string. Qed.

Lemma keeps_read_big_endian n : forall acc, keeps (read_big_endian n acc).
Proof. induction n as [|n IH]; intros acc; cbn [read_big_endian]; keeps. Qed.

Lemma keeps_read_u32 : keeps read_u32.
Proof. unfold read_u32. keeps. Qed.
#[export] Hint Resolve keeps_skip_bytes keeps_read_big_endian keeps_read_u32 : keeps.

Lemma keeps_handle_header : keeps handle_header.
Proof.
  intros d. unfold handle_header. destruct (m_type d); [done| |]; match goal with |- context [(?m d).2] => enough (keeps m) by auto end.
  - keeps.
  - keeps; apply keeps_skip_string_all.
Qed.

Lemma keeps_handle_footer : keeps handle_footer.
Proof.
  intros d. unfold handle_footer. destruct (m_type d); [done| |]; match goal with |- context [(?m d).2] => enough (keeps m) by auto end; keeps.
Qed.

Lemma keeps_or_more_input h next : keeps h -> keeps (or_more_input h next).
Proof. intros Hh d. unfold or_more_input. specialize (Hh d). destruct (h d) as [[u|e|] d']; [done| |done]. by destruct e. Qed.

Lemma keeps_block_header : keeps block_header.
Proof. unfold block_header. keeps. Qed.

Lemma keeps_literal_header : keeps literal_header.
Proof. unfold literal_header. keeps. Qed.

Lemma keeps_read_into_window pos n : keeps (read_into_window pos n).
Proof. unfold read_into_window. keeps. Qed.
#[export] Hint Resolve keeps_read_into_window : keeps.

Lemma keeps_read_raw : keeps read_raw.
Proof. unfold read_raw. keeps. apply keeps_modify. intros d. unfold data_of, grow_window. by case_if. Qed.

Lemma keeps_symbols fuel : keeps (symbols fuel).
Proof.
  induction fuel as [|fuel IH]; intros d; cbn [symbols]; case_if; try done.
  pose proof (keeps_handle_symbol d) as H. destruct (handle_symbol d) as [[u|e|] d']; [etrans; [apply IH|done]| |done].
  by destruct e.
Qed.

Lemma keeps_step : keeps step.
Proof.
  intros d. unfold step. destruct (m_state d).
  - apply keeps_or_more_input, keeps_handle_header.
  - apply keeps_or_more_input, keeps_handle_footer.
  - apply keeps_block_header.
  - apply keeps_literal_header.
  - apply keeps_or_more_input, keeps_dynamic.
  - apply keeps_read_raw.
  - apply keeps_symbols.
  - done.
Qed.

Lemma write_data_keeps room d : data_of (write_data_to_output room d).2 = data_of d.
Proof.
  unfold write_data_to_output. repeat case_if; try done. by destruct (update_info _ _ _).
Qed.

Lemma main_loop_keeps fuel : forall room out d, data_of (main_loop fuel room out d).2 `suffix_of` data_of d.
Proof.
  induction fuel as [|fuel IH]; intros room out d; cbn [main_loop]; case_if; try done.
  pose proof (keeps_step d) as Hs. destruct (step d) as [[[|restore]|e|] d1]; cbn in Hs |- *; [|by destruct restore|done|done].
  pose proof (write_data_keeps room d1) as Hw. destruct (write_data_to_output room d1) as [[w|e|] d2]; cbn in Hw |- *; [|by rewrite Hw..].
  case_if; cbn; [by rewrite Hw|]. etrans; [apply IH|]. by rewrite Hw.
Qed.

(** ** Whole streams *)

(** The decompressor with its window allocated. *)
Definition prepared (d : Decompressor) : Decompressor :=
  if bool_decide (m_window d = []) then
    set_window d (replicate (Z.to_nat W) 0) (m_window_size d) (m_window_tail d) (m_produced_bytes d)
  else d.

Lemma prepared_stream d s : prepared (set_stream d s) = set_stream (prepared d) s.
Proof. unfold prepared. cbn [m_window set_stream]. by case_bool_decide. Qed.

Lemma follows_prepared fut tr d out final : follows fut tr d out final -> prepared d = d.
Proof.
  intros [_ _ (m & hist & _ & _ & [_ _ (Hlen & _) _] & _)]. unfold prepared. rewrite bool_decide_false; [done|].
  intros He. rewrite He in Hlen. done.
Qed.

Lemma mode_ok_stream d s m : m_bit_buffer_len s = m_bit_buffer_len (m_stream d) -> mode_ok d m -> mode_ok (set_stream d s) m.
Proof. intros Hl. destruct m as [bf|bf|bf|bf n|bf lit dist]; cbn; try done. by rewrite Hl. Qed.

(** Moving the border between the input at hand and the input to come. *)
Lemma follows_refeed fut fut' tr d s out final :
  follows fut tr d out final -> input_wf s -> m_bit_buffer_len s = m_bit_buffer_len (m_stream d) ->
  stream_bits s ++ fut' = stream_bits (m_stream d) ++ fut -> follows fut' tr (set_stream d s) out final.
Proof.
  intros [Ht Hwf (m & hist & Hmode & Hinf & Hwin & Hrest)] Hwf' Hl Hs. split; [done|done|].
  exists m, hist. split; [by apply mode_ok_stream|]. cbn [m_stream set_stream]. rewrite Hs.
  split_and!; [done|by apply window_set_stream|apply Hrest..].
Qed.

Lemma decompress_spec fut tr input room d out final :
  follows (bytes_bits input ++ fut) tr (prepared d) out final -> data_of d = [] -> Forall byte input -> 0 <= room ->
  Z.of_nat (length fut) `mod` 8 = 0 ->
  let '(r, consumed, w, d') := decompress input room d in
  data_of d' = [] /\ 0 <= consumed <= Z.of_nat (length input) /\
  follows (bytes_bits (skipn (Z.to_nat consumed) input) ++ fut) tr (prepared d') (out ++ w) final /\ Z.of_nat (length w) <= room /\
  match r with
  | Ok Done => out ++ w = final
  | Ok NeedMoreInput => ~ enough fut tr
  | Ok NeedMoreOutput => Z.of_nat (length w) = room /\ room < Z.of_nat (length final) - Z.of_nat (length out)
  | _ => False
  end.
Proof.
  intros Hf Hd Hb Hroom Hm8. unfold decompress. set (s0 := set_data (m_stream d) input).
  change (if bool_decide (m_window (set_stream d s0) = []) then _ else _) with (prepared (set_stream d s0)). rewrite prepared_stream.
  set (d0 := prepared d) in *. assert (Hd0 : data_of d0 = []) by (rewrite <- Hd; unfold d0, prepared; by case_bool_decide).
  assert (Hms : m_stream d0 = m_stream d) by (unfold d0, prepared; by case_bool_decide).
  assert (Hbits : stream_bits s0 = stream_bits (m_stream d0) ++ bytes_bits input).
  { unfold stream_bits. unfold data_of in Hd0. rewrite Hd0, Hms. cbn. by rewrite app_nil_r. }
  pose proof (f_stream _ _ _ _ _ Hf) as Hwf0.
  assert (Hwf : input_wf s0) by (destruct Hwf0 as [H1 H2 _]; rewrite Hms in *; by split).
  assert (Hf0 : follows fut tr (set_stream d0 s0) out final).
  { apply (follows_refeed _ _ _ _ _ _ _ Hf); [done|by rewrite Hms|]. by rewrite Hbits, <- app_assoc. }
  (* the end of the call, in a decompressor [d1] that follows the stream *)
  assert (Hend : forall w d1, follows fut tr d1 (out ++ w) final -> data_of d1 `suffix_of` input ->
    let consumed := Z.of_nat (length input) - unprocessed_bytes (m_stream d1) in
    data_of (set_stream d1 (drop_unprocessed_data (m_stream d1))) = [] /\ 0 <= consumed <= Z.of_nat (length input) /\
    follows (bytes_bits (skipn (Z.to_nat consumed) input) ++ fut) tr (prepared (set_stream d1 (drop_unprocessed_data (m_stream d1)))) (out ++ w) final).
  { intros w d1 Hf1 [pre Hpre]. cbn zeta. unfold unprocessed_bytes. fold (data_of d1). rewrite Hpre, length_app.
    split; [done|]. split; [lia|]. replace (Z.to_nat _) with (length pre) by lia. rewrite drop_app_length.
    rewrite prepared_stream, (follows_prepared _ _ _ _ _ Hf1). pose proof (f_stream _ _ _ _ _ Hf1) as Hwf1.
    apply (follows_refeed _ _ _ _ _ _ _ Hf1); [destruct Hwf1; by split|done|].
    unfold stream_bits. cbn. by rewrite app_nil_r, app_assoc. }
  destruct (write_follows fut tr room (set_stream d0 s0) out final Hf0 Hroom) as (w & p & Hw & Hf2 & Hp & Hlw). rewrite Hw.
  set (d2 := set_window (set_stream d0 s0) _ _ _ p) in *. change (m_produced_bytes d2) with p.
  assert (Hdata2 : data_of d2 = input) by done.
  destruct (Z.ltb_spec 0 p) as [Hpos|Hnpos].
  - destruct (Hend w d2 Hf2 ltac:(by rewrite Hdata2)) as (H1 & H2 & H3). split_and!; [done|lia|lia|done|lia|lia|].
    pose proof (follows_prefix _ _ _ _ _ Hf2) as [_ Hl]. rewrite length_app in Hl. change (m_produced_bytes d2) with p in Hl. lia.
  - assert (Hp0 : p = 0) by (destruct Hf0 as [_ _ (m & hist & _ & _ & [_ _ _ ?] & _)]; lia).
    pose proof (main_loop_spec fut tr Hm8 (loop_fuel d2) final (room - Z.of_nat (length w)) w (out ++ w) d2 Hf2 Hp0) as Hloop.
    pose proof (main_loop_keeps (loop_fuel d2) (room - Z.of_nat (length w)) w d2) as Hk. rewrite Hdata2 in Hk.
    destruct (main_loop _ _ w d2) as [[r acc'] d3]. cbn in Hk. destruct Hloop as (w' & -> & Hf3 & Hlw' & Hr).
    { unfold measure, loop_fuel. rewrite length_avail by (apply (f_stream _ _ _ _ _ Hf2)). destruct (m_state d2); cbn [rank]; lia. }
    { lia. }
    rewrite <- app_assoc in Hf3. destruct (Hend (w ++ w') d3 Hf3 Hk) as (H1 & H2 & H3). split; [done|]. split; [lia|]. split; [done|]. split; [rewrite length_app; lia|].
    destruct r as [[| |]|e|]; try done.
    + destruct Hr as [Hst Hpz]. by apply (follows_done _ _ _ _ _ Hf3).
    + destruct Hr as [Hlen Hpos]. rewrite length_app. split; [lia|].
      pose proof (follows_prefix _ _ _ _ _ Hf3) as [_ Hl]. rewrite !length_app in Hl. lia.
Qed.

(** Calls of [decompress]: each is offered the first [n] bytes of the input
    that is left and an output buffer of [room] bytes.  Whether the stream
    ended, and the bytes written. *)
Fixpoint feed (calls : list (nat * Z)) (input out : list Z) (d : Decompressor) : outcome (bool * list Z) :=
  match calls with
  | [] => Ok (false, out)
  | (n, room) :: calls' =>
      let '(r, consumed, w, d) := decompress (firstn n input) room d in
      let* status := r in
      match status with
      | Done => Ok (true, out ++ w)
      | _ => feed calls' (skipn (Z.to_nat consumed) input) (out ++ w) d
      end
  end.

Lemma feed_follows tr final calls : forall input out d,
  follows (bytes_bits input) tr (prepared d) out final -> data_of d = [] -> Forall byte input -> Forall (fun c => 0 <= c.2) calls ->
  exists fin out', feed calls input out d = Ok (fin, out') /\ out' `prefix_of` final /\ (fin = true -> out' = final).
Proof.
  induction calls as [|[n room] calls IH]; intros input out d Hf Hd Hb Hc; cbn [feed].
  { exists false, out. split_and!; [done|apply (follows_prefix _ _ _ _ _ Hf)|done]. }
  inversion_clear Hc as [|? ? Hroom Hc']. cbn in Hroom.
  pose proof (decompress_spec (bytes_bits (skipn n input)) tr (firstn n input) room d out final) as Hs.
  rewrite <- bytes_bits_app, firstn_skipn in Hs. specialize (Hs Hf Hd ltac:(by apply Forall_take) Hroom).
  destruct (decompress (firstn n input) room d) as [[[r consumed] w] d']. destruct Hs as (Hd' & Hcon & Hf' & _ & Hr).
  { rewrite length_bytes_bits, Nat2Z.inj_mul, Z.mul_comm. apply Z.mod_mul. lia. }
  assert (Hrest : skipn (Z.to_nat consumed) (firstn n input) ++ skipn n input = skipn (Z.to_nat consumed) input).
  { rewrite <- (firstn_skipn n input) at 3. rewrite skipn_app. f_equal. replace (Z.to_nat consumed - _)%nat with 0%nat by lia. done. }
  rewrite <- bytes_bits_app, Hrest in Hf'.
  destruct r as [[| |]|e|]; try done.
  - exists true, (out ++ w). split_and!; [done|by rewrite Hr|done].
  - apply IH; [done|done|by apply Forall_drop|done].
  - apply IH; [done|done|by apply Forall_drop|done].
Qed.

Lemma construct_follows tr final data :
  inflates (MHeader false) (bytes_bits data) [] final tr -> follows (bytes_bits data) tr (prepared (construct Raw)) [] final.
Proof.
  intros Hinf. split; [done|by split|]. exists (MHeader false), []. split; [split; [done|right; by left]|].
  split; [done|]. split; [|done]. split; [done|done| |done].
  split_and!; [|done|done|done|done|]; [cbn [prepared m_window construct]; unfold prepared; cbn [m_window construct]|].
  - rewrite bool_decide_true by done. cbn [m_window set_window]. rewrite length_replicate. by rewrite Z2Nat.id.
  - intros k Hk. exfalso. cbn in Hk. lia.
Qed.

(** C5: The decompressor follows RFC 1951 however it is fed.  If the
    input is a DEFLATE stream that stands for [final], then no sequence of
    calls, whatever the pieces of input and the sizes of the output buffers,
    fails an assertion, runs out of a buffer or reports an error; the bytes
    written are always a prefix of [final], and all of it once a call reports
    the end of the stream. *)
Theorem inflate_follows_stream (data final : list Z) (tr : list bool) (Hbytes : Forall byte data)
  (Hinf : inflates (MHeader false) (bytes_bits data) [] final tr) (calls : list (nat * Z))
  (Hrooms : Forall (fun c => 0 <= c.2) calls) :
  exists fin out, feed calls data [] (construct Raw) = Ok (fin, out) /\ out `prefix_of` final /\ (fin = true -> out = final).
Proof. apply (feed_follows tr final calls); [by apply construct_follows|done|done|done]. Qed.

(** C23: A call that is given the whole stream, with two more bytes
    after it, and room for all of the output decompresses it to the end. *)
Theorem inflate_completes (data final : list Z) (tr : list bool) (room : Z) (Hbytes : Forall byte data)
  (Hinf : inflates (MHeader false) (bytes_bits data) [] final tr) (Htr : (15 <= length tr)%nat)
  (Hroom : Z.of_nat (length final) <= room) :
  let '(r, _, out, _) := decompress data room (construct Raw) in r = Ok Done /\ out = final.
Proof.
  pose proof (decompress_spec [] tr data room (construct Raw) [] final) as Hs. rewrite app_nil_r in Hs.
  specialize (Hs (construct_follows tr final data Hinf) eq_refl Hbytes ltac:(lia) eq_refl).
  destruct (decompress data room (construct Raw)) as [[[r c] out] d']. destruct Hs as (_ & _ & _ & _ & Hr).
  destruct r as [[| |]|e|]; try done.
  - by destruct Hr.
  - cbn in Hr. lia.
Qed.
