(* ===== verification/InflateChecks.v ===== *)
(** * Checksums and corner cases of the decompressor

    The table-driven CRC of the decompressor is the bitwise one of
    [LibDEFLATE/Utils], and what the decompressor does at the edges of its
    contract. *)
From S2P Require Import Prelude BanMath BitStream Huffman Inflate InflateCorrect.

(** ** The CRC table *)
Definition u32_value (x : Z) : Prop := 0 <= x < 2 ^ 32.

Lemma crc_round_alt x : crc_round x = Z.lxor (Z.shiftr x 1) (if Z.testbit x 0 then polynomial else 0).
Proof.
  unfold crc_round. change 1 with (Z.ones 1) at 1. rewrite Z.land_ones, Z.pow_1_r by lia. rewrite <- Z.bit0_mod.
  destruct (Z.testbit x 0); [done|]. cbn [Z.b2z Z.eqb]. by rewrite Z.lxor_0_r.
Qed.

Lemma crc_round_lxor x y : crc_round (Z.lxor x y) = Z.lxor (crc_round x) (crc_round y).
Proof.
  rewrite !crc_round_alt, Z.lxor_spec, Z.shiftr_lxor. set (a := Z.shiftr x 1). set (b := Z.shiftr y 1).
  apply Z.bits_inj'. intros k Hk. rewrite !Z.lxor_spec.
  destruct (Z.testbit x 0), (Z.testbit y 0); cbn [xorb]; rewrite ?Z.testbit_0_l;
    destruct (Z.testbit a k), (Z.testbit b k), (Z.testbit polynomial k); done.
Qed.

Lemma crc_rounds_lxor n x y : Nat.iter n crc_round (Z.lxor x y) = Z.lxor (Nat.iter n crc_round x) (Nat.iter n crc_round y).
Proof. induction n as [|n IH]; [done|]. by rewrite !Nat.iter_succ, IH, crc_round_lxor. Qed.

Lemma crc_rounds_high n x : Nat.iter n crc_round (Z.shiftl x (Z.of_nat n)) = x.
Proof.
  assert (Hround : forall y, crc_round (Z.shiftl y 1) = y).
  { intros y. rewrite crc_round_alt, Z.shiftl_spec_low, Z.lxor_0_r by lia. by rewrite Z.shiftr_shiftl_l, Z.shiftl_0_r by lia. }
  revert x. induction n as [|n IH]; intros x; [by rewrite Z.shiftl_0_r|].
  rewrite Nat.iter_succ. replace (Z.of_nat (S n)) with (1 + Z.of_nat n) by lia.
  rewrite <- Z.shiftl_shiftl by lia. by rewrite IH, Hround.
Qed.

Lemma split_byte x : x = Z.lxor (Z.land x 0xFF) (Z.shiftl (Z.shiftr x 8) 8).
Proof.
  apply Z.bits_inj'. intros k Hk. rewrite Z.lxor_spec. change 0xFF with (Z.ones 8). rewrite Z.land_spec.
  destruct (Z.lt_ge_cases k 8).
  - by rewrite Z.ones_spec_low, Z.shiftl_spec_low, andb_true_r, xorb_false_r by lia.
  - rewrite Z.ones_spec_high, Z.shiftl_spec_high, Z.shiftr_spec, andb_false_r, xorb_false_l by lia. f_equal. lia.
Qed.

Lemma crc_table_lookup i : 0 <= i < 256 -> entry crc_table i = Ok (Nat.iter 8 crc_round i).
Proof.
  intros Hi. unfold entry, crc_table. rewrite list_lookup_fmap, lookup_seq_lt by lia. cbn [fmap option_fmap option_map].
  by rewrite Nat.add_0_l, Z2Nat.id by lia.
Qed.

Lemma crc_update_byte crc b : 0 <= crc -> byte b -> crc_update crc b = Ok (crc_byte crc b).
Proof.
  intros Hc Hb. unfold crc_update. assert (Hr : 0 <= Z.land (Z.lxor crc b) 0xFF < 256).
  { change 0xFF with (Z.ones 8). rewrite Z.land_ones by lia. apply Z.mod_pos_bound. lia. }
  rewrite crc_table_lookup by done. f_equal. unfold crc_byte. rewrite (split_byte (Z.lxor crc b)) at 2.
  rewrite crc_rounds_lxor, (crc_rounds_high 8), Z.lxor_comm. f_equal. rewrite Z.shiftr_lxor.
  rewrite (Z.shiftr_div_pow2 b), Z.div_small, Z.lxor_0_r by (unfold byte in Hb; lia). done.
Qed.

Lemma crc_round_range x : u32_value x -> u32_value (crc_round x).
Proof.
  intros Hx. rewrite crc_round_alt. assert (Hs : 0 <= Z.shiftr x 1 < 2 ^ 31) by (apply (shiftr_range x 1 32); [lia|done]).
  assert (Hp : 0 <= (if Z.testbit x 0 then polynomial else 0) < 2 ^ 32) by (destruct (Z.testbit x 0); unfold polynomial; lia).
  assert (H0 : 0 <= Z.lxor (Z.shiftr x 1) (if Z.testbit x 0 then polynomial else 0)) by (apply Z.lxor_nonneg; lia).
  split; [done|]. apply testbit_range_lt; [lia|done|]. intros i Hi.
  by rewrite Z.lxor_spec, (testbit_small 31 (Z.shiftr x 1)), (testbit_small 32 (if Z.testbit x 0 then polynomial else 0)) by lia.
Qed.

Lemma crc_byte_range crc b : u32_value crc -> byte b -> u32_value (crc_byte crc b).
Proof.
  intros Hc Hb. unfold crc_byte.
  assert (Hx : u32_value (Z.lxor crc b)).
  { unfold byte in Hb. assert (H0 : 0 <= Z.lxor crc b) by (apply Z.lxor_nonneg; unfold u32_value in Hc; lia).
    split; [done|]. apply testbit_range_lt; [lia|done|]. intros i Hi. unfold u32_value in Hc.
    by rewrite Z.lxor_spec, (testbit_small 32 crc), (testbit_small 8 b) by lia. }
  generalize 8%nat. intros n. induction n as [|n IH]; [done|]. rewrite Nat.iter_succ. by apply crc_round_range.
Qed.

Lemma crc_update_all_spec l : forall c, u32_value c -> Forall byte l -> crc_update_all c l = Ok (foldl crc_byte c l) /\ u32_value (foldl crc_byte c l).
Proof.
  induction l as [|b l IH]; intros c Hc Hl; [done|]. inversion_clear Hl as [|? ? Hb1 Hl']. cbn [crc_update_all foldl].
  rewrite crc_update_byte by (unfold u32_value in Hc; lia || done). apply IH; [by apply crc_byte_range|done].
Qed.

Lemma lxor_ones_bnot c : u32_value c -> Z.lxor c 0xFFFFFFFF = bnot 32 c.
Proof.
  intros Hr. unfold bnot, u32_value in *. change (2 ^ 32 - 1) with (Z.ones 32). change 0xFFFFFFFF with (Z.ones 32).
  rewrite Z.sub_nocarry_ldiff.
  - apply Z.bits_inj'. intros k Hk. rewrite Z.lxor_spec, Z.ldiff_spec. destruct (Z.lt_ge_cases k 32).
    + rewrite Z.ones_spec_low by lia. by destruct (Z.testbit c k).
    + rewrite Z.ones_spec_high by lia. by rewrite (testbit_small 32 c) by lia.
  - apply Z.bits_inj'. intros k Hk. rewrite Z.ldiff_spec, Z.testbit_0_l. destruct (Z.lt_ge_cases k 32).
    + by rewrite Z.ones_spec_low, andb_false_r by lia.
    + by rewrite (testbit_small 32 c) by lia.
Qed.

(** The checksum that the decompressor accumulates with its
    table is the bitwise CRC-32 of the bytes it wrote. *)
Theorem crc_table_equivalent (data : list Z) (Hb : Forall byte data) :
  exists crc, crc_update_all 0xFFFFFFFF data = Ok crc /\ Z.lxor crc 0xFFFFFFFF = calculate_crc32 data.
Proof.
  destruct (crc_update_all_spec data 0xFFFFFFFF) as [Hu Hr]; [unfold u32_value; lia|done|]. eexists. split; [exact Hu|]. by apply lxor_ones_bnot.
Qed.

Lemma crc_table_equivalent_witness :
  exists crc, crc_update_all 0xFFFFFFFF [49; 50; 51] = Ok crc /\ Z.lxor crc 0xFFFFFFFF = calculate_crc32 [49; 50; 51].
Proof. apply crc_table_equivalent. repeat constructor; done. Defined.

(** ** Streams that the relation accepts *)
Ltac field_step := split; [vm_compute; reflexivity|cbn [Z.b2z]; lia].
Ltac decodes_step := split_and!; [vm_compute; reflexivity|lia|vm_compute; intros [=]|vm_compute; reflexivity].

Ltac literal_step i := refine (inf_literal true _ _ _ i 9 _ _ _ _ _ _); [decodes_step|lia|].

Definition stored_sample : list Z := [1; 2; 0; 253; 255; 104; 105; 0; 0].

Lemma stored_sample_inflates : inflates (MHeader false) (bytes_bits stored_sample) [] [104; 105] (bytes_bits [0; 0]).
Proof.
  refine (inf_stored true _ _ _ _ _ _ _ _ _); [field_step|field_step|].
  refine (inf_lengths true _ [false; false; false; false; false] 2 _ _ _ _ _ _ _ _ _ _ _); [vm_compute; reflexivity|done|field_step|field_step|].
  refine (inf_raw true 2 104 _ _ _ _ _ _ _ _); [lia|field_step|].
  refine (inf_raw true 1 105 _ _ _ _ _ _ _ _); [lia|field_step|].
  apply inf_raw_end, inf_end.
Qed.

(** The bytes 150 .. 155 as the literals of one fixed block that fills its last
    byte. *)
Definition exact_sample : list Z := [155; 54; 125; 198; 204; 89; 179; 1].

Lemma exact_sample_inflates :
  exists tr, inflates (MHeader false) (bytes_bits exact_sample) [] [150; 151; 152; 153; 154; 155] tr.
Proof.
  eexists. refine (inf_fixed true _ _ _ _ _ _ _ _ _); [field_step|field_step|].
  literal_step 150%nat. literal_step 151%nat. literal_step 152%nat. literal_step 153%nat. literal_step 154%nat. literal_step 155%nat.
  refine (inf_block_end true _ _ _ 256 7 _ _ _ _ _ _); [decodes_step|lia|]. apply inf_end.
Qed.

Lemma inflate_follows_stream_witness :
  exists fin out, feed [(3%nat, 1); (9%nat, 0); (6%nat, 8); (9%nat, 8)] stored_sample [] (construct Raw) = Ok (fin, out) /\
    out `prefix_of` [104; 105] /\ (fin = true -> out = [104; 105]).
Proof.
  apply (inflate_follows_stream stored_sample [104; 105] (bytes_bits [0; 0])).
  - repeat constructor; done.
  - apply stored_sample_inflates.
  - repeat constructor; done.
Defined.

Lemma inflate_completes_witness :
  let '(r, _, out, _) := decompress stored_sample 2 (construct Raw) in r = Ok Done /\ out = [104; 105].
Proof.
  apply (inflate_completes stored_sample [104; 105] (bytes_bits [0; 0])).
  - repeat constructor; done.
  - apply stored_sample_inflates.
  - vm_compute. lia.
  - done.
Defined.

(** ** Decompressing into a vector that grows *)
Lemma bytes_bits_mod8 l : Z.of_nat (length (bytes_bits l)) `mod` 8 = 0.
Proof. rewrite length_bytes_bits, Nat2Z.inj_mul, Z.mul_comm. apply Z.mod_mul. lia. Qed.

(** What is left of the spans. *)
Definition left_of (spans : list (list Z)) (index : nat) : list Z := skipn index (concat spans).

Lemma append_input_data_spec capacity : forall spans index buffer,
  (index <= length (concat (firstn 1 spans)))%nat -> (length buffer <= capacity)%nat ->
  let '(did, spans', index', buffer') := append_input_data capacity spans index buffer in
  buffer' ++ left_of spans' index' = buffer ++ left_of spans index /\ (length buffer' <= capacity)%nat /\
  (index' <= length (concat (firstn 1 spans')))%nat /\
  (if did then (length buffer < length buffer')%nat else buffer' = buffer) /\
  (length buffer' < capacity -> left_of spans' index' = [])%nat.
Proof.
  unfold left_of. induction spans as [|span rest IH]; intros index buffer Hi Hb; cbn [append_input_data].
  { cbn in Hi. assert (index = 0%nat) as -> by lia. done. }
  cbn [firstn concat] in Hi. rewrite app_nil_r in Hi.
  assert (Hskip : skipn index (concat (span :: rest)) = skipn index span ++ concat rest) by (cbn [concat]; by rewrite drop_app_le by lia).
  assert (Hone : forall i, (i <= length span)%nat -> (i <= length (concat (firstn 1 (span :: rest))))%nat) by (cbn [firstn concat]; intros; rewrite app_nil_r; lia).
  destruct (Nat.leb_spec capacity (length buffer)) as [Hfull|Hroom]; [split_and!; [done|lia|by apply Hone|done|lia]|].
  destruct (Nat.leb_spec (length span) index) as [Hend|Hmore].
  { rewrite Hskip, drop_ge, app_nil_l by lia. specialize (IH 0%nat buffer ltac:(lia) Hb). by rewrite drop_0 in IH. }
  set (n := Nat.min _ _). assert (Hn : (0 < n <= length span - index)%nat) by lia.
  assert (Hbuf : length (buffer ++ firstn n (skipn index span)) = (length buffer + n)%nat) by (rewrite length_app, length_take, length_drop; lia).
  assert (Hcut : firstn n (skipn index span) ++ skipn (index + n) span = skipn index span) by (rewrite <- drop_drop; apply take_drop).
  rewrite Hbuf. destruct (Nat.leb_spec capacity (length buffer + n)) as [Hfull|Hroom'].
  - rewrite Hbuf. split_and!; [|lia|apply Hone; lia|lia|lia].
    rewrite Hskip. cbn [concat]. rewrite drop_app_le, <- app_assoc by lia. f_equal. by rewrite app_assoc, Hcut.
  - specialize (IH 0%nat (buffer ++ firstn n (skipn index span)) ltac:(lia) ltac:(lia)). rewrite drop_0 in IH.
    destruct (append_input_data capacity rest 0 _) as [[[did spans'] index'] buffer'] eqn:E. destruct IH as (H1 & H2 & H3 & H4 & H5).
    split_and!; [|done|done| |done].
    + rewrite H1, Hskip, <- app_assoc. do 2 f_equal. apply take_ge. rewrite length_drop. lia.
    + destruct did; [lia|]. rewrite H4, Hbuf. lia.
Qed.

(** The calls that the two loops make: the input of the call is [input], and
    [later] comes after it. *)
Lemma decompress_progress tr final input later size out d :
  follows (bytes_bits (input ++ later)) tr (prepared d) out final -> data_of d = [] -> Forall byte (input ++ later) ->
  Z.of_nat (length out) <= size ->
  let '(r, consumed, w, d') := decompress input (size - Z.of_nat (length out)) d in
  data_of d' = [] /\ 0 <= consumed <= Z.of_nat (length input) /\
  follows (bytes_bits (skipn (Z.to_nat consumed) input ++ later)) tr (prepared d') (out ++ w) final /\
  Forall byte (skipn (Z.to_nat consumed) input ++ later) /\ Z.of_nat (length (out ++ w)) <= size /\
  match r with
  | Ok Done => out ++ w = final
  | Ok NeedMoreInput => later = [] -> ~ (15 <= length tr)%nat
  | Ok NeedMoreOutput => size < Z.of_nat (length final)
  | _ => False
  end.
Proof.
  intros Hf Hd Hb Hsize. rewrite bytes_bits_app in Hf. apply Forall_app in Hb as [Hb Hb'].
  pose proof (decompress_spec (bytes_bits later) tr input (size - Z.of_nat (length out)) d out final Hf Hd Hb ltac:(lia) (bytes_bits_mod8 later)) as Hs.
  destruct (decompress input _ d) as [[[r consumed] w] d']. destruct Hs as (H1 & H2 & H3 & H5 & H4).
  rewrite <- bytes_bits_app in H3. split_and!; [done|lia|lia|done| | |].
  - apply Forall_app. split; [by apply Forall_drop|done].
  - rewrite length_app. lia.
  - destruct r as [[| |]|e|]; [done| | |done|done]; [intros -> ?; by apply H4|lia].
Qed.

Lemma decompress_loop_follows tr final (Htr : (15 <= length tr)%nat) : forall fuel input size out d,
  follows (bytes_bits input) tr (prepared d) out final -> data_of d = [] -> Forall byte input ->
  Z.of_nat (length out) <= size -> 0 < size -> Z.of_nat (length final) < size + Z.of_nat fuel ->
  (0 < fuel)%nat -> decompress_loop fuel input size out d = Ok final.
Proof.
  induction fuel as [|fuel IH]; intros input size out d Hf Hd Hb Hsize Hpos Hfuel Hf0; [lia|]. cbn [decompress_loop].
  pose proof (decompress_progress tr final input [] size out d) as Hs. rewrite !app_nil_r in Hs. specialize (Hs Hf Hd Hb Hsize).
  destruct (decompress input _ d) as [[[r consumed] w] d']. rewrite app_nil_r in Hs. destruct Hs as (Hd' & Hc & Hf' & Hb' & Hl & Hr).
  destruct r as [[| |]|e|]; [by rewrite Hr|by destruct (Hr eq_refl)| |done|done].
  apply IH; [done|done|done|lia|lia|lia|lia].
Qed.

Lemma decompress_spans_follows tr final capacity (Htr : (15 <= length tr)%nat) : forall fuel spans index buffer size out d,
  follows (bytes_bits (buffer ++ left_of spans index)) tr (prepared d) out final -> data_of d = [] ->
  Forall byte (buffer ++ left_of spans index) -> Z.of_nat (length out) <= size -> 0 < size ->
  (index <= length (concat (firstn 1 spans)))%nat -> (length buffer <= capacity)%nat ->
  Z.max 0 (Z.of_nat (length final) - size) + Z.of_nat (length (left_of spans index)) < Z.of_nat fuel ->
  decompress_spans_loop fuel capacity spans index buffer size out d = Ok final \/
  (left_of spans index <> [] /\ decompress_spans_loop fuel capacity spans index buffer size out d = Err EINVAL).
Proof.
  induction fuel as [|fuel IH]; intros spans index buffer size out d Hf Hd Hb Hsize Hpos Hi Hcap Hfuel; [lia|]. cbn [decompress_spans_loop].
  pose proof (decompress_progress tr final buffer (left_of spans index) size out d Hf Hd Hb Hsize) as Hs.
  destruct (decompress buffer _ d) as [[[r consumed] w] d']. destruct Hs as (Hd' & Hc & Hf' & Hb' & Hl & Hr).
  assert (Hcap' : (length (skipn (Z.to_nat consumed) buffer) <= capacity)%nat) by (rewrite length_drop; lia).
  destruct r as [[| |]|e|]; [left; by rewrite Hr| | |done|done].
  - assert (Hne : left_of spans index <> []) by (intros He; by destruct (Hr He)).
    pose proof (append_input_data_spec capacity spans index (skipn (Z.to_nat consumed) buffer) Hi Hcap') as Ha.
    destruct (append_input_data _ _ _ _) as [[[did spans'] index'] buffer']. destruct Ha as (H1 & H2 & H3 & H4 & H5).
    destruct did; [|by right]. rewrite <- H1 in Hf', Hb'. pose proof (f_equal length H1) as Hl1. rewrite !length_app in Hl1.
    destruct (IH spans' index' buffer' size (out ++ w) d' Hf' Hd' Hb' Hl Hpos H3 H2) as [|[_ ?]]; [lia|by left|by right].
  - destruct (IH spans index (skipn (Z.to_nat consumed) buffer) (size * 2) (out ++ w) d' Hf' Hd' Hb') as [|[? ?]]; [lia|lia|done|done|lia|by left|by right].
Qed.

(** C17: Decompressing a whole raw stream that is followed by at least fifteen bits,
    for example two more bytes, into a vector that doubles gives the bytes it stands
    for: with enough fuel for its length, the loop ends.  The same holds when the
    stream and what follows it come in pieces, of which every one is used, in order,
    unless they are more than 32 KiB together: then the result is the same bytes or
    EINVAL. *)
Theorem decompress_whole_stream (spans : list (list Z)) (final : list Z) (tr : list bool) (fuel : nat)
  (Hbytes : Forall byte (concat spans)) (Hinf : inflates (MHeader false) (bytes_bits (concat spans)) [] final tr)
  (Htr : (15 <= length tr)%nat) (Hfuel : (length final + length (concat spans) < fuel)%nat) :
  decompress_all fuel (concat spans) (construct Raw) = Ok final /\
  (decompress_spans fuel spans (construct Raw) = Ok final \/
   32 * 1024 < Z.of_nat (length (concat spans)) /\ decompress_spans fuel spans (construct Raw) = Err EINVAL).
Proof.
  pose proof (construct_follows tr final _ Hinf) as Hf. pose proof (enough_inflates tr _ _ _ _ Hinf Htr) as Hlen.
  rewrite length_bytes_bits in Hlen. split.
  { apply (decompress_loop_follows tr); [done|done|done|done|cbn; lia|lia|lia|lia]. }
  unfold decompress_spans. set (data := concat spans) in *. set (capacity := Z.to_nat (Z.min _ _)).
  pose proof (append_input_data_spec capacity spans 0 [] ltac:(lia) ltac:(cbn; lia)) as Ha.
  destruct (append_input_data capacity spans 0 []) as [[[did spans'] index'] buffer']. destruct Ha as (H1 & H2 & H3 & _ & H5).
  change (left_of spans 0) with data in H1. cbn [app] in H1. pose proof (f_equal length H1) as Hl1. rewrite length_app in Hl1.
  destruct (decompress_spans_follows tr final capacity Htr fuel spans' index' buffer' (2 * Z.of_nat (length data)) [] (construct Raw))
    as [Hok|[Hne He]]; [by rewrite H1|done|by rewrite H1|cbn; lia|lia|done|done|lia|by left|].
  right. split; [|done]. destruct (Z.le_gt_cases (Z.of_nat (length data)) (32 * 1024)) as [Hle|]; [|lia].
  exfalso. apply Hne.
  destruct (decide (length buffer' < capacity)%nat) as [Hlt|Hge]; [by apply H5|]. apply nil_length_inv. unfold capacity in Hge. lia.
Qed.

Lemma decompress_whole_stream_witness :
  decompress_all 12 (concat [[1; 2; 0]; []; [253; 255; 104; 105; 0; 0]]) (construct Raw) = Ok [104; 105] /\
  (decompress_spans 12 [[1; 2; 0]; []; [253; 255; 104; 105; 0; 0]] (construct Raw) = Ok [104; 105] \/
   32 * 1024 < Z.of_nat (length (concat [[1; 2; 0]; []; [253; 255; 104; 105; 0; 0]])) /\
   decompress_spans 12 [[1; 2; 0]; []; [253; 255; 104; 105; 0; 0]] (construct Raw) = Err EINVAL).
Proof.
  apply (decompress_whole_stream _ _ (bytes_bits [0; 0])).
  - repeat constructor; done.
  - apply stored_sample_inflates.
  - vm_compute. lia.
  - vm_compute. lia.
Defined.

(** ** The edges of the contract *)
(** A raw stream that stands for six bytes and ends on its last
    bit is refused when it is decompressed on its own: reading the end-of-block
    symbol peeks nine bits where seven are left. *)
Theorem exact_end_refused :
  (exists tr, inflates (MHeader false) (bytes_bits exact_sample) [] [150; 151; 152; 153; 154; 155] tr) /\
  decompress_all 20 exact_sample (construct Raw) = Err EINVAL.
Proof. split; [apply exact_sample_inflates|vm_compute; reflexivity]. Qed.

(** The footer of a gzip stream in two pieces: the twenty-three bytes are
    decompressed by the first call, and the second one, which is given the bytes
    that the first did not consume and the rest, finds a wrong checksum.  With
    the whole stream at once there is no error. *)
Definition gzip_sample : list Z := [31; 139; 8; 0; 0; 0; 0; 0; 2; 3; 75; 76; 68; 128; 164; 100; 56; 2; 0; 74; 213; 193; 194; 23; 0; 0; 0].

(** A gzip stream whose footer comes in two pieces is refused,
    though the same stream in one piece is decompressed: [handle_footer] undoes
    the final complement of the checksum again on each attempt. *)
Theorem gzip_split_footer_refused :
  (let '(r, _, out, _) := decompress gzip_sample 64 (construct GZip) in r = Ok Done /\ length out = 23%nat) /\
  (let '(r, consumed, out, d) := decompress (firstn 21 gzip_sample) 64 (construct GZip) in
   r = Ok NeedMoreInput /\ length out = 23%nat /\
   (let '(r', _, _, _) := decompress (skipn (Z.to_nat consumed) gzip_sample) 64 d in r' = Err EINVAL)).
Proof. split; vm_compute; split_and!; reflexivity. Qed.

(** A dynamic block may announce more codes than the buffer of
    code lengths holds: 288 literal codes and 32 distance codes run past its
    318 entries. *)
Theorem code_lengths_overflow : (decompress [253; 31; 128; 228; 255; 127; 8] 64 (construct Raw)).1.1.1 = Panic.
Proof. vm_compute. reflexivity. Qed.
