(* ===== verification/Deflate.v ===== *)
(** * LibDEFLATE: the compressor

    [Compressor.cpp]: Huffman codes from frequencies, the length and distance
    encodings, the run-length code of the code lengths, the search for matches
    in hash chains and the writer of dynamic blocks.  The vectors are taken to
    find memory; the nodes of the Huffman tree, which the code allocates and
    frees by hand, are counted. *)
From stdpp Require Import gmap.
From S2P Require Import Prelude BanMath BanSort BitStream Huffman Inflate.

Definition s_max_length : Z := 258.
Definition s_max_distance : Z := 32768.
Definition s_max_symbols : Z := 288.
Definition s_max_bits : nat := 15.

(** ** Huffman codes from frequencies *)
Inductive node_t : Type :=
| Null
| Node (symbol freq : Z) (left right : node_t).

Definition node_symbol (n : node_t) : Z := match n with Node s _ _ _ => s | Null => 0 end.
Definition node_freq (n : node_t) : Z := match n with Node _ f _ _ => f | Null => 0 end.

(** How often the allocator was called, and the nodes that are allocated. *)
Record memory : Type := mk_memory { calls : nat; live : Z }.

(** [free_tree]. *)
Fixpoint free_tree (root : node_t) (m : memory) : memory :=
  match root with
  | Null => m
  | Node _ _ l r =>
      let m := free_tree r (free_tree l m) in mk_memory (calls m) (live m - 1)
  end.

Definition comp (a b : node_t) : bool :=
  if negb (node_freq a =? node_freq b) then node_freq b <? node_freq a else node_symbol b <? node_symbol a.

Section tree.
(** Whether the n-th allocation of a node finds memory. *)
Context (alloc : nat -> bool).

Definition allocate : stateful memory bool := fun m =>
  if alloc (calls m) then (Ok true, mk_memory (S (calls m)) (live m + 1)) else (Ok false, mk_memory (S (calls m)) (live m)).

(** A node for every symbol that occurs. *)
Fixpoint leaf_nodes (sym : Z) (freq : list Z) (nodes : list node_t) : stateful memory (list node_t) :=
  match freq with
  | [] => sret nodes
  | f :: freq' =>
      if f =? 0 then leaf_nodes (sym + 1) freq' nodes
      else
        let! ok := allocate in
        if (ok : bool) then leaf_nodes (sym + 1) freq' (nodes ++ [Node sym f Null Null])
        else fun m => (Err ENOMEM, mk_memory (calls m) (live m - Z.of_nat (length nodes)))
  end.

(** [pop_heap(nodes.begin(), end_it--, comp)]: the front, and the nodes left. *)
Definition take_front (nodes : list node_t) : outcome (node_t * list node_t) :=
  match nodes !! 0%nat, Sort.pop_heap comp 0 (length nodes) nodes with
  | Some front, Some nodes' => Ok (front, firstn (length nodes - 1) nodes')
  | _, _ => Panic
  end.

(** The loop that joins the two rarest nodes until one is left. *)
Fixpoint join_nodes (fuel : nat) (nodes : list node_t) : stateful memory node_t :=
  match fuel with
  | O => slift Panic
  | S fuel' =>
      match nodes with
      | [root] => sret root
      | _ =>
          let! ok := allocate in
          if negb ok then fun m => (Err ENOMEM, foldl (fun m n => free_tree n m) m nodes)
          else
            let! (node1, nodes) := slift (take_front nodes) in
            let! (node2, nodes) := slift (take_front nodes) in
            let parent := Node 0 (u64 (node_freq node1 + node_freq node2)) node1 node2 in
            let nodes := nodes ++ [parent] in
            match Sort.push_heap comp 0 (length nodes) nodes with
            | Some nodes => join_nodes fuel' nodes
            | None => slift Panic
            end
      end
  end.

(** [gather_lengths]: the number of nodes below the depth limit, and the
    lengths. *)
Fixpoint gather_lengths (node : node_t) (symbols : list Z) (depth : Z) : outcome (Z * list Z) :=
  match node with
  | Null => Ok (0, symbols)
  | Node sym _ l r =>
      let count := if Z.of_nat s_max_bits <? depth then 1 else 0 in
      match l, r with
      | Null, Null =>
          ASSERT (sym <? Z.of_nat (length symbols)) in
          Ok (count, <[Z.to_nat sym := Math.min depth (Z.of_nat s_max_bits)]> symbols)
      | _, _ =>
          let* (count_left, symbols) := gather_lengths l symbols (u16 (depth + 1)) in
          let* (count_right, symbols) := gather_lengths r symbols (u16 (depth + 1)) in
          Ok (u16 (u16 (count + count_left) + count_right), symbols)
      end
  end.

(** [bl_count]: how many symbols have each length. *)
Fixpoint count_used (lens : list Z) (bl_count : list Z) : outcome (list Z) :=
  match lens with
  | [] => Ok bl_count
  | len :: lens' =>
      if len =? 0 then count_used lens' bl_count
      else
        match bl_count !! Z.to_nat len with
        | Some c => count_used lens' (<[Z.to_nat len := u16 (c + 1)]> bl_count)
        | None => Panic
        end
  end.

(** The longest length below the limit that is in use. *)
Fixpoint longest_below (bits : nat) (bl_count : list Z) : outcome nat :=
  match bl_count !! bits with
  | None => Panic
  | Some c => if c =? 0 then match bits with O => Panic | S bits' => longest_below bits' bl_count end else Ok bits
  end.

Definition add_at (l : list Z) (i : nat) (x : Z) : outcome (list Z) :=
  match l !! i with Some c => Ok (<[i := u16 (c + x)]> l) | None => Panic end.

(** One symbol of length [bits] makes room for another one beside it. *)
Fixpoint make_room (n : nat) (bl_count : list Z) : outcome (list Z) :=
  match n with
  | O => Ok bl_count
  | S n' =>
      let* bits := longest_below (s_max_bits - 1) bl_count in
      let* bl_count := add_at bl_count bits (-1) in
      let* bl_count := add_at bl_count (bits + 1) 2 in
      let* bl_count := add_at bl_count s_max_bits (-1) in
      make_room n' bl_count
  end.

(** The symbols that occur, with their frequencies. *)
Fixpoint used_symbols (sym : Z) (freq : list Z) : list (Z * Z) :=
  match freq with
  | [] => []
  | f :: freq' => if f =? 0 then used_symbols (sym + 1) freq' else (sym, f) :: used_symbols (sym + 1) freq'
  end.

(** [output[sym_freq[index++].symbol].length = bits], [n] times. *)
Fixpoint give_length (n : nat) (bits : Z) (sym_freq : list (Z * Z)) (output : list Z) : outcome (list (Z * Z) * list Z) :=
  match n with
  | O => Ok (sym_freq, output)
  | S n' =>
      match sym_freq with
      | [] => Panic
      | (sym, _) :: sym_freq' =>
          ASSERT (sym <? Z.of_nat (length output)) in
          give_length n' bits sym_freq' (<[Z.to_nat sym := bits]> output)
      end
  end.

(** The lengths from [bits] down to 1. *)
Fixpoint give_lengths (bits : nat) (bl_count : list Z) (sym_freq : list (Z * Z)) (output : list Z)
  : outcome (list (Z * Z) * list Z) :=
  match bits with
  | O => Ok (sym_freq, output)
  | S bits' =>
      match bl_count !! bits with
      | None => Panic
      | Some c =>
          let* (sym_freq, output) := give_length (Z.to_nat c) (Z.of_nat bits) sym_freq output in
          give_lengths bits' bl_count sym_freq output
      end
  end.

Definition rarer (a b : Z * Z) : bool := a.2 <? b.2.

(** The lengths that are too long are cut to [s_max_bits], and the lengths are
    dealt out again, the longest to the rarest symbol. *)
Definition limit_lengths (too_long_count : Z) (freq bl_count output : list Z) : outcome (list Z * list Z) :=
  if 0 <? too_long_count then
    let* bl_count := make_room (Z.to_nat (too_long_count / 2)) bl_count in
    let sym_freq := used_symbols 0 freq in
    match Sort.sort rarer 0 (length sym_freq) sym_freq with
    | None => Panic
    | Some sym_freq =>
        let* (rest, output) := give_lengths s_max_bits bl_count sym_freq output in
        ASSERT (length rest =? 0)%nat in
        Ok (bl_count, output)
    end
  else Ok (bl_count, output).

Definition create_huffman_tree (freq : list Z) : stateful memory (list Leaf) :=
  let! _ := sassert (Z.of_nat (length freq) <=? s_max_symbols) in
  let! nodes := leaf_nodes 0 freq [] in
  let output := replicate (length freq) 0 in
  match nodes with
  | [] =>
      let! _ := sassert (0 <? length freq)%nat in
      sret (<[0%nat := mk_leaf 0 1]> (replicate (length freq) (mk_leaf 0 0)))
  | _ =>
      match Sort.make_heap comp 0 (length nodes) nodes with
      | None => slift Panic
      | Some nodes =>
          let! root := join_nodes (length nodes) nodes in
          let! (too_long_count, output) := slift (gather_lengths root output 0) in
          let! _ := fun m => (Ok tt, free_tree root m) in
          let! bl_count := slift (count_used output (replicate (S s_max_bits) 0)) in
          let! (bl_count, output) := slift (limit_lengths too_long_count freq bl_count output) in
          slift (assign_codes output (0 :: base_codes (firstn s_max_bits bl_count) 0))
      end
  end.
End tree.

(** ** Encodings of lengths and distances *)
Record Encoding : Type := mk_encoding { e_symbol : Z; e_data : Z; e_len : Z }.

(** The entry of the tables that [value] falls in; [symbol] numbers the entries
    that are left. *)
Fixpoint find_encoding (symbol : Z) (bases extra_bits : list Z) (value : Z) : outcome Encoding :=
  match bases, extra_bits with
  | b :: bases', e :: extra_bits' =>
      match bases' with
      | next :: _ =>
          if next <=? value then find_encoding (symbol + 1) bases' extra_bits' value
          else Ok (mk_encoding symbol (u16 (value - b)) e)
      | [] => Ok (mk_encoding symbol (u16 (value - b)) e)
      end
  | _, _ => Panic
  end.

Definition get_len_encoding (length : Z) : outcome Encoding :=
  ASSERT (3 <=? length) && (length <=? s_max_length) in find_encoding 257 length_base length_extra_bits length.

Definition get_dist_encoding (distance : Z) : outcome Encoding :=
  ASSERT (1 <=? distance) && (distance <=? s_max_distance) in find_encoding 0 distance_base distance_extra_bits distance.

Inductive LZ77Entry : Type :=
| Literal (literal : Z)
| DistLength (length distance : Z).

Definition count_at (freq : list Z) (i : Z) : outcome (list Z) :=
  match freq !! Z.to_nat i with Some c => Ok (<[Z.to_nat i := u64 (c + 1)]> freq) | None => Panic end.

Fixpoint count_entries (entries : list LZ77Entry) (lit_len_freq dist_freq : list Z) : outcome (list Z * list Z) :=
  match entries with
  | [] => Ok (lit_len_freq, dist_freq)
  | Literal b :: entries' => let* lit_len_freq := count_at lit_len_freq b in count_entries entries' lit_len_freq dist_freq
  | DistLength length distance :: entries' =>
      let* len_encoding := get_len_encoding length in
      let* lit_len_freq := count_at lit_len_freq (e_symbol len_encoding) in
      let* dist_encoding := get_dist_encoding distance in
      let* dist_freq := count_at dist_freq (e_symbol dist_encoding) in
      count_entries entries' lit_len_freq dist_freq
  end.

Definition get_frequencies (entries : list LZ77Entry) (lit_len_freq dist_freq : list Z) : outcome (list Z * list Z) :=
  ASSERT (length lit_len_freq =? 286)%nat in
  ASSERT (length dist_freq =? 30)%nat in
  let* (lit_len_freq, dist_freq) := count_entries entries lit_len_freq dist_freq in
  let* lit_len_freq := count_at lit_len_freq 256 in
  Ok (lit_len_freq, dist_freq).

(** ** The code lengths, run-length encoded *)
(** The tree without the symbols at its end that have no code. *)
Fixpoint trim (n : nat) (tree : list Leaf) : list Leaf :=
  match n with
  | O => tree
  | S n' =>
      match list.last tree with
      | Some leaf => if leaf_len leaf =? 0 then trim n' (firstn (length tree - 1) tree) else tree
      | None => tree
      end
  end.

(** How many of the next leaves have the length [len]. *)
Fixpoint run_length (len : Z) (tree : list Leaf) : nat :=
  match tree with
  | leaf :: tree' => if leaf_len leaf =? len then S (run_length len tree') else O
  | [] => O
  end.

(** What is pushed for a run of [count] leaves of length [len], and how many of
    them it stands for. *)
Definition encode_run (len : Z) (count : nat) (encoding : list Encoding) : nat * list Encoding :=
  if len =? 0 then
    let count := Nat.min count 138 in
    if (count <? 3)%nat then (count, replicate count (mk_encoding 0 0 0))
    else if (count <? 11)%nat then (count, [mk_encoding 17 (u8 (Z.of_nat count - 3)) 3])
    else (count, [mk_encoding 18 (u8 (Z.of_nat count - 11)) 7])
  else if (3 <=? count)%nat && match list.last encoding with Some e => e_symbol e =? len | None => false end then
    let count := Nat.min count 6 in (count, [mk_encoding 16 (u8 (Z.of_nat count - 3)) 2])
  else (1%nat, [mk_encoding len 0 0]).

(** The loop of [append_tree], on the leaves that are left. *)
Fixpoint append_runs (fuel : nat) (tree : list Leaf) (encoding : list Encoding) : list Encoding :=
  match fuel, tree with
  | S fuel', leaf :: tree' =>
      let '(count, es) := encode_run (leaf_len leaf) (S (run_length (leaf_len leaf) tree')) encoding in
      append_runs fuel' (skipn count tree) (encoding ++ es)
  | _, _ => encoding
  end.

(** [append_tree]: the encoding and the size of the tree that is left. *)
Definition append_tree (tree : list Leaf) (encoding : list Encoding) : list Encoding * Z :=
  let tree := trim (length tree) tree in (append_runs (length tree) tree encoding, Z.of_nat (length tree)).

Record CodeLengthInfo : Type := mk_info_cl {
  hlit : Z;
  hdist : Z;
  hclen : Z;
  encoding : list Encoding;
  code_length : list Z;
  code_length_tree : list Leaf
}.

Fixpoint count_encodings (es : list Encoding) (freq : list Z) : outcome (list Z) :=
  match es with
  | [] => Ok freq
  | e :: es' => let* freq := count_at freq (e_symbol e) in count_encodings es' freq
  end.

Fixpoint order_lengths (order : list nat) (tree : list Leaf) : outcome (list Z) :=
  match order with
  | [] => Ok []
  | i :: order' =>
      match tree !! i with
      | Some leaf => let* ls := order_lengths order' tree in Ok (leaf_len leaf :: ls)
      | None => Panic
      end
  end.

(** [hclen]: the code lengths at the end that are zero are left out. *)
Fixpoint used_lengths (n : nat) (code_length : list Z) : Z :=
  match n with
  | O => 0
  | S n' =>
      if (4 <? n)%nat && match code_length !! n' with Some l => l =? 0 | None => false end
      then used_lengths n' code_length else Z.of_nat n
  end.

Definition build_code_length_info (alloc : nat -> bool) (lit_len_tree dist_tree : list Leaf) : stateful memory CodeLengthInfo :=
  let '(es, hlit) := append_tree lit_len_tree [] in
  let '(es, hdist) := append_tree dist_tree es in
  let! code_len_freq := slift (count_encodings es (replicate 19 0)) in
  let! code_length_tree := create_huffman_tree alloc code_len_freq in
  let! code_length := slift (order_lengths code_length_order code_length_tree) in
  sret (mk_info_cl hlit (u8 hdist) (used_lengths 19 code_length) es code_length code_length_tree).

(** ** The compressor *)
(** A [ConstByteSpan] into the buffer of the compressor. *)
Record Span : Type := mk_span { span_data : Z; span_size : Z }.

Definition slice (s : Span) (offset : Z) : outcome Span :=
  ASSERT (offset <=? span_size s) in Ok (mk_span (span_data s + offset) (span_size s - offset)).

Definition slice_length (s : Span) (offset length : Z) : outcome Span :=
  ASSERT (offset <=? span_size s) in
  ASSERT (offset + length <=? span_size s) in Ok (mk_span (span_data s + offset) length).

Definition at_index (buffer : list Z) (s : Span) (offset : Z) : outcome Z :=
  ASSERT (offset <? span_size s) in
  match buffer !! Z.to_nat (span_data s + offset) with Some b => Ok b | None => Panic end.

Record Compressor : Type := mk_compressor {
  c_type : StreamType;
  c_buffer : list Z;
  c_data : Span;
  c_stream : BitOutputStream;
  c_hash_chain_index : Z;
  c_hash_chain : gmap Z (list Span);
  c_memory : memory
}.

Definition construct_compressor (data : list Z) (type : StreamType) : Compressor :=
  mk_compressor type data (mk_span 0 (Z.of_nat (length data))) (mk_output [] 0 0) 0 ∅ (mk_memory 0 0).

Definition set_chain (c : Compressor) (index : Z) (chain : gmap Z (list Span)) : Compressor :=
  mk_compressor (c_type c) (c_buffer c) (c_data c) (c_stream c) index chain (c_memory c).
Definition set_output (c : Compressor) (s : BitOutputStream) : Compressor :=
  mk_compressor (c_type c) (c_buffer c) (c_data c) s (c_hash_chain_index c) (c_hash_chain c) (c_memory c).
Definition set_rest (c : Compressor) (data : Span) : Compressor :=
  mk_compressor (c_type c) (c_buffer c) data (c_stream c) (c_hash_chain_index c) (c_hash_chain c) (c_memory c).

Definition on_memory {A} (m : stateful memory A) : stateful Compressor A := fun c =>
  let '(r, mem) := m (c_memory c) in
  (r, mk_compressor (c_type c) (c_buffer c) (c_data c) (c_stream c) (c_hash_chain_index c) (c_hash_chain c) mem).

Definition get_hash_key (buffer : list Z) (needle : Span) : outcome Z :=
  ASSERT (3 <=? span_size needle) in
  let* b2 := at_index buffer needle 2 in
  let* b1 := at_index buffer needle 1 in
  let* b0 := at_index buffer needle 0 in
  Ok (Z.lor (Z.lor (Z.shiftl b2 16) (Z.shiftl b1 8)) b0).

(** A chain up to the first node that is too far behind [current]. *)
Fixpoint prune_chain (current : Z) (chain : list Span) : list Span :=
  match chain with
  | [] => []
  | node :: chain' => if u64 (current - span_data node) <? s_max_distance then node :: prune_chain current chain' else []
  end.

(** The positions [index] .. [index + n - 1] of the data go to their chains. *)
Fixpoint add_positions (n : nat) (index : Z) (buffer : list Z) (data : Span) (chains : gmap Z (list Span))
  : outcome (gmap Z (list Span)) :=
  match n with
  | O => Ok chains
  | S n' =>
      let* s := slice data index in
      if span_size s <? 3 then Ok chains
      else
        let* key := get_hash_key buffer s in
        let chain := match chains !! key with Some chain => s :: chain | None => [s] end in
        add_positions n' (index + 1) buffer data (<[key := chain]> chains)
  end.

Definition update_hash_chain (count : Z) : stateful Compressor unit := fun c =>
  let chains :=
    if s_max_distance * 2 <=? Z.of_nat (size (c_hash_chain c)) then
      prune_chain (span_data (c_data c) + c_hash_chain_index c + count) <$> c_hash_chain c
    else c_hash_chain c in
  match add_positions (Z.to_nat count) (c_hash_chain_index c) (c_buffer c) (c_data c) chains with
  | Ok chains => (Ok tt, set_chain c (u64 (c_hash_chain_index c + count)) chains)
  | Err e => (Err e, c)
  | Panic => (Panic, c)
  end.

(** How far [needle] and [node] agree, from [length] on. *)
Fixpoint match_length (n : nat) (buffer : list Z) (needle node : Span) (length : Z) : outcome Z :=
  match n with
  | O => Ok length
  | S n' =>
      let* a := at_index buffer needle length in
      let* b := at_index buffer node length in
      if a =? b then match_length n' buffer needle node (length + 1) else Ok length
  end.

Fixpoint search_chain (buffer : list Z) (needle : Span) (chain : list Span) (result : LZ77Entry) : outcome LZ77Entry :=
  match chain with
  | [] => Ok result
  | node :: chain' =>
      let distance := u64 (span_data needle - span_data node) in
      if s_max_distance <? distance then Ok result
      else
        let max_length := Math.min (span_size needle) s_max_length in
        let* length := match_length (Z.to_nat (max_length - 3)) buffer needle node 3 in
        let better := match result with Literal _ => true | DistLength l _ => l <? length end in
        search_chain buffer needle chain' (if better then DistLength (u16 length) (u16 distance) else result)
  end.

Definition find_longest_match (c : Compressor) (needle : Span) : outcome LZ77Entry :=
  let* first := at_index (c_buffer c) needle 0 in
  let result := Literal first in
  if span_size needle <? 3 then Ok result
  else
    let* key := get_hash_key (c_buffer c) needle in
    match c_hash_chain c !! key with
    | None => Ok result
    | Some chain => search_chain (c_buffer c) needle chain result
    end.

(** The entries for the data at [i], and how far they reach. *)
Definition next_entries (c : Compressor) (data : Span) (i : Z) : outcome (list LZ77Entry * Z) :=
  let* needle := slice data i in
  let* found := find_longest_match c needle in
  match found with
  | Literal b => Ok ([Literal b], 1)
  | DistLength len _ =>
      let* lazy_needle := slice data (i + 1) in
      let* lazy_match := find_longest_match c lazy_needle in
      match lazy_match with
      | DistLength lazy_len _ =>
          if len <? lazy_len then
            let* b := at_index (c_buffer c) data i in Ok ([Literal b; lazy_match], 1 + lazy_len)
          else Ok ([found], len)
      | Literal _ => Ok ([found], len)
      end
  end.

Fixpoint lz77_loop (fuel : nat) (data : Span) (i advance : Z) (result : list LZ77Entry) : stateful Compressor (list LZ77Entry) :=
  if i <? span_size data then
    match fuel with
    | O => slift Panic
    | S fuel' =>
        let! _ := update_hash_chain advance in
        let! c := sget in
        let! (entries, advance) := slift (next_entries c data i) in
        lz77_loop fuel' data (i + advance) advance (result ++ entries)
    end
  else sret result.

(** Every entry advances by one byte at least. *)
Definition lz77_compress (data : Span) : stateful Compressor (list LZ77Entry) :=
  lz77_loop (Z.to_nat (span_size data)) data 0 0 [].

(** ** Writing a block *)
Definition write (value count : Z) : stateful Compressor unit := fun c =>
  match write_bits (c_stream c) value count with
  | Ok s => (Ok tt, set_output c s)
  | Err e => (Err e, c)
  | Panic => (Panic, c)
  end.

(** The code of the symbol [sym]. *)
Definition write_symbol (tree : list Leaf) (sym : Z) : stateful Compressor unit :=
  match tree !! Z.to_nat sym with
  | Some leaf => write (reverse_bits (leaf_code leaf) (leaf_len leaf)) (leaf_len leaf)
  | None => slift Panic
  end.

Fixpoint write_code_lengths (n : nat) (code_length : list Z) : stateful Compressor unit :=
  match n, code_length with
  | O, _ => sret tt
  | S n', l :: code_length' => let! _ := write l 3 in write_code_lengths n' code_length'
  | S _, [] => slift Panic
  end.

Fixpoint write_encodings (tree : list Leaf) (es : list Encoding) : stateful Compressor unit :=
  match es with
  | [] => sret tt
  | e :: es' =>
      let! _ := write_symbol tree (e_symbol e) in
      let! _ := write (e_data e) (e_len e) in
      write_encodings tree es'
  end.

Definition write_entry (lit_len_tree dist_tree : list Leaf) (entry : LZ77Entry) : stateful Compressor unit :=
  match entry with
  | Literal b => write_symbol lit_len_tree b
  | DistLength length distance =>
      let! len_encoding := slift (get_len_encoding length) in
      let! _ := write_symbol lit_len_tree (e_symbol len_encoding) in
      let! _ := write (e_data len_encoding) (e_len len_encoding) in
      let! dist_encoding := slift (get_dist_encoding distance) in
      let! _ := write_symbol dist_tree (e_symbol dist_encoding) in
      write (e_data dist_encoding) (e_len dist_encoding)
  end.

Fixpoint write_entries (lit_len_tree dist_tree : list Leaf) (entries : list LZ77Entry) : stateful Compressor unit :=
  match entries with
  | [] => sret tt
  | entry :: entries' =>
      let! _ := write_entry lit_len_tree dist_tree entry in write_entries lit_len_tree dist_tree entries'
  end.

(** The first half of [compress_block]: the entries, the codes for literals and
    lengths, the codes for distances, and how their lengths are written. *)
Definition plan_block (alloc : nat -> bool) (data : Span) : stateful Compressor (list LZ77Entry * list Leaf * list Leaf * CodeLengthInfo) :=
  let! lz77_entries := lz77_compress data in
  let! (lit_len_freq, dist_freq) := slift (get_frequencies lz77_entries (replicate 286 0) (replicate 30 0)) in
  let! lit_len_tree := on_memory (create_huffman_tree alloc lit_len_freq) in
  let! dist_tree := on_memory (create_huffman_tree alloc dist_freq) in
  let! info := on_memory (build_code_length_info alloc lit_len_tree dist_tree) in
  sret (lz77_entries, lit_len_tree, dist_tree, info).

Definition compress_block (alloc : nat -> bool) (data : Span) (final : bool) : stateful Compressor unit :=
  let! (lz77_entries, lit_len_tree, dist_tree, info) := plan_block alloc data in
  let! _ := write (Z.b2z final) 1 in
  let! _ := write 2 2 in
  let! _ := write (hlit info - 257) 5 in
  let! _ := write (hdist info - 1) 5 in
  let! _ := write (hclen info - 4) 4 in
  let! _ := write_code_lengths (Z.to_nat (hclen info)) (code_length info) in
  let! _ := write_encodings (code_length_tree info) (encoding info) in
  let! _ := write_entries lit_len_tree dist_tree lz77_entries in
  write_symbol lit_len_tree 256.

Definition max_block_size : Z := 16 * 1024.

Fixpoint compress_blocks (alloc : nat -> bool) (fuel : nat) : stateful Compressor unit := fun c =>
  if span_size (c_data c) =? 0 then (Ok tt, c)
  else
    match fuel with
    | O => (Panic, c)
    | S fuel' =>
        let block_size := Math.min (span_size (c_data c)) max_block_size in
        (let! block := slift (slice_length (c_data c) 0 block_size) in
         let! _ := compress_block alloc block (block_size =? span_size (c_data c)) in
         let! c := sget in
         let! rest := slift (slice (c_data c) block_size) in
         let! _ := sput (set_rest c rest) in
         compress_blocks alloc fuel') c
    end.

(** [write_bits] of one byte after the other. *)
Fixpoint write_bytes (bytes : list Z) : stateful Compressor unit :=
  match bytes with
  | [] => sret tt
  | b :: bytes' => let! _ := write b 8 in write_bytes bytes'
  end.

Definition little_endian (x : Z) : list Z := [x; Z.shiftr x 8; Z.shiftr x 16; Z.shiftr x 24].
Definition big_endian (x : Z) : list Z := [Z.shiftr x 24; Z.shiftr x 16; Z.shiftr x 8; x].

Definition compress_header (type : StreamType) (current_time : Z) : list Z :=
  match type with
  | Raw => []
  | Zlib => [0x78; 0x9C]
  | GZip => [0x1F; 0x8B; 8; 0] ++ little_endian current_time ++ [0; 3]
  end.

Definition compress_footer (type : StreamType) (checksum data_size : Z) : list Z :=
  match type with
  | Raw => []
  | Zlib => big_endian checksum
  | GZip => little_endian checksum ++ little_endian data_size
  end.

(** The span of the data is all of the buffer until the first block is done. *)
Definition compress (alloc : nat -> bool) (current_time : Z) : stateful Compressor (list Z) :=
  let! c := sget in
  let data := firstn (Z.to_nat (span_size (c_data c))) (skipn (Z.to_nat (span_data (c_data c))) (c_buffer c)) in
  let data_size := u32 (span_size (c_data c)) in
  let! _ := write_bytes (compress_header (c_type c) current_time) in
  let checksum := match c_type c with Raw => 0 | Zlib => calculate_adler32 data | GZip => calculate_crc32 data end in
  let! _ := compress_blocks alloc (Z.to_nat (span_size (c_data c))) in
  let! c := sget in
  let! s := slift (pad_to_byte_boundary (c_stream c)) in
  let! _ := sput (set_output c s) in
  let! _ := write_bytes (compress_footer (c_type c) checksum data_size) in
  let! c := sget in
  slift (take_buffer (c_stream c)).

Definition compress_all (data : list Z) (type : StreamType) : outcome (list Z) :=
  (compress (fun _ => true) 0 (construct_compressor data type)).1.
