(* ===== verification/DeflateTree.v ===== *)
(** * LibDEFLATE: the Huffman codes of the compressor

    [create_huffman_tree] gives every symbol that occurs a code of at most
    fifteen bits, the codes are those of RFC 1951 for their lengths, they leave
    no bit pattern unused, and every node of the tree is freed. *)
From S2P Require Import Prelude BanMath BanSort BitStream Huffman Inflate Deflate.

(** ** Trees *)
#[export] Instance comp_swo : StrictWeakOrder comp.
Proof.
  unfold comp. split.
  - intros x. rewrite Z.eqb_refl. apply Z.ltb_irrefl.
  - intros x y z. repeat match goal with |- context [Z.eqb ?a ?b] => destruct (Z.eqb_spec a b) end; cbn [negb]; rewrite !Z.ltb_lt; lia.
  - intros x y z. repeat match goal with |- context [Z.eqb ?a ?b] => destruct (Z.eqb_spec a b) end; cbn [negb]; rewrite !Z.ltb_ge; lia.
Qed.

Inductive full : node_t -> Prop :=
| full_leaf s f : full (Node s f Null Null)
| full_join s f l r : full l -> full r -> full (Node s f l r).

Fixpoint tree_size (n : node_t) : Z :=
  match n with Null => 0 | Node _ _ l r => 1 + tree_size l + tree_size r end.

Definition forest_size (nodes : list node_t) : Z := foldr (fun n acc => tree_size n + acc) 0 nodes.

(** The symbols at the leaves with their depths. *)
Fixpoint depths (n : node_t) (d : Z) : list (Z * Z) :=
  match n with
  | Null => []
  | Node s _ Null Null => [(s, d)]
  | Node _ _ l r => depths l (d + 1) ++ depths r (d + 1)
  end.

Definition leaves (n : node_t) : list Z := (depths n 0).*1.

Lemma full_not_null n : full n -> n <> Null.
Proof. by destruct 1. Qed.

(** A full tree with children has two of them. *)
Lemma depths_join s f l r d : full l -> full r -> depths (Node s f l r) d = depths l (d + 1) ++ depths r (d + 1).
Proof. by destruct 1. Qed.

Lemma depths_keys n : full n -> forall d, (depths n d).*1 = leaves n.
Proof.
  unfold leaves. induction 1 as [|s f l r Hl IHl Hr IHr]; intros d; [done|].
  rewrite !depths_join, !fmap_app by done. rewrite IHl, IHr, <- (IHl (0 + 1)), <- (IHr (0 + 1)). done.
Qed.

Lemma leaves_join s f l r : full l -> full r -> leaves (Node s f l r) = leaves l ++ leaves r.
Proof. intros Hl Hr. unfold leaves at 1. rewrite depths_join, fmap_app, !depths_keys by done. done. Qed.

Lemma tree_size_leaves n : full n -> tree_size n = 2 * Z.of_nat (length (leaves n)) - 1 /\ (0 < length (leaves n))%nat.
Proof.
  induction 1 as [s f|s f l r Hl [IHl Pl] Hr [IHr Pr]]; [cbn; lia|]. rewrite leaves_join, length_app by done. cbn [tree_size]. lia.
Qed.

Lemma free_tree_spec n : forall m, free_tree n m = mk_memory (calls m) (live m - tree_size n).
Proof.
  induction n as [|s f l IHl r IHr]; intros m; [destruct m; cbn; by rewrite Z.sub_0_r|]. cbn [free_tree tree_size].
  rewrite IHr, IHl. cbn [calls live]. f_equal. lia.
Qed.

Lemma free_forest_spec nodes : forall m,
  foldl (fun m n => free_tree n m) m nodes = mk_memory (calls m) (live m - forest_size nodes).
Proof.
  unfold forest_size. induction nodes as [|n nodes IH]; intros m; cbn [foldl foldr]; [destruct m; cbn; by rewrite Z.sub_0_r|].
  rewrite IH, free_tree_spec. cbn [calls live]. f_equal. lia.
Qed.

#[export] Instance forest_size_perm : Proper ((≡ₚ) ==> (=)) forest_size.
Proof. intros l k Hp. unfold forest_size. induction Hp; cbn [foldr]; lia. Qed.

(** ** Building the tree *)
Definition forest_leaves (nodes : list node_t) : list Z := nodes ≫= leaves.

Section build.
Context (alloc : nat -> bool).

(** Nothing but the allocator makes the construction fail, and then all the
    nodes, [size] of which were allocated before, are freed. *)
Definition builds {A} (size : Z) (r : outcome A * memory) (m : memory) (post : A -> Z -> Prop) : Prop :=
  match r with
  | (Ok a, m') => post a (live m' - (live m - size))
  | (Err e, m') => e = ENOMEM /\ (exists k, alloc k = false) /\ live m' = live m - size
  | (Panic, _) => False
  end.

Definition leaf_forest (pairs : list (Z * Z)) : list node_t := (fun p => Node p.1 p.2 Null Null) <$> pairs.

Lemma forest_size_leaf_forest pairs : forest_size (leaf_forest pairs) = Z.of_nat (length pairs).
Proof.
  unfold leaf_forest, forest_size. induction pairs as [|p pairs IH]; [done|]. cbn [fmap list_fmap foldr tree_size length].
  rewrite IH. lia.
Qed.

Lemma leaf_nodes_spec freq : forall sym pre m,
  builds (Z.of_nat (length pre)) (leaf_nodes alloc sym freq (leaf_forest pre) m) m
    (fun nodes size => nodes = leaf_forest (pre ++ used_symbols sym freq) /\ size = Z.of_nat (length nodes)).
Proof.
  induction freq as [|f freq IH]; intros sym pre m; cbn [leaf_nodes used_symbols].
  { cbn. rewrite app_nil_r. unfold leaf_forest. rewrite length_fmap. split; [done|lia]. }
  case_if; [apply IH|]. unfold sbind, allocate. destruct (alloc (calls m)) eqn:Ha.
  - specialize (IH (sym + 1) (pre ++ [(sym, f)]) (mk_memory (S (calls m)) (live m + 1))).
    unfold leaf_forest in IH at 1. rewrite fmap_app in IH. cbn [fmap list_fmap fst snd] in IH. rewrite <- app_assoc in IH. cbn [app] in IH.
    unfold builds in *. fold (leaf_forest pre) in IH. destruct (leaf_nodes _ _ _ _ _) as [[nodes|e|] m']; [| |done];
      rewrite length_app in IH; cbn [length live] in IH.
    + destruct IH as [-> Hs]. split; [done|]. rewrite <- Hs. lia.
    + destruct IH as (-> & Hk & ->). split_and!; [done|done|lia].
  - cbn. unfold leaf_forest. rewrite length_fmap. split_and!; [done|by eexists|done].
Qed.

Definition heap (nodes : list node_t) : Prop := Sort.heap_from comp 0 0 (length nodes) nodes.

Lemma take_front_spec nodes :
  heap nodes -> nodes <> [] -> exists n rest, take_front nodes = Ok (n, rest) /\ nodes ≡ₚ n :: rest /\ heap rest.
Proof.
  intros Hh Hne. destruct (length nodes) as [|k] eqn:Hlen; [by apply nil_length_inv in Hlen|].
  destruct (Sort.pop_heap_spec comp 0 k nodes) as (l' & n & Hpop & [Hp _] & Hh' & Hn & Hlast & _); [lia|by rewrite <- Hlen|].
  assert (Hl' : length l' = S k) by (rewrite <- Hp; done).
  exists n, (firstn k l'). unfold take_front. cbn [Nat.add] in Hpop. rewrite Hn, Hlen, Hpop.
  replace (S k - 1)%nat with k by lia. split_and!; [done| |].
  - rewrite Hp. rewrite <- (take_drop k l') at 1. rewrite (drop_S l' n k Hlast), (drop_ge l' (S k)) by lia.
    symmetry. apply Permutation_cons_append.
  - unfold heap. rewrite length_take, Nat.min_l by lia. intros i x p Hi Hk Hx Hpa. pose proof (Sort.parent_lt i ltac:(lia)).
    cbn [Nat.add] in Hx, Hpa. rewrite lookup_take_lt in Hx, Hpa by lia. apply (Hh' i x p); [lia|lia|done|done].
Qed.

Lemma forest_leaves_perm nodes nodes' : nodes ≡ₚ nodes' -> forest_leaves nodes ≡ₚ forest_leaves nodes'.
Proof. intros Hp. unfold forest_leaves. by rewrite Hp. Qed.

Lemma join_nodes_spec fuel : forall nodes m,
  heap nodes -> Forall full nodes -> nodes <> [] -> (length nodes <= fuel)%nat ->
  builds (forest_size nodes) (join_nodes alloc fuel nodes m) m
    (fun root size => full root /\ leaves root ≡ₚ forest_leaves nodes /\ size = tree_size root).
Proof.
  induction fuel as [|fuel IH]; intros nodes m Hh Hf Hne Hlen; [destruct nodes; [done|cbn in Hlen; lia]|]. cbn [join_nodes].
  destruct nodes as [|root [|second nodes]]; [done| |].
  { inversion_clear Hf as [|? ? Hroot _]. unfold builds, sret, forest_leaves, forest_size. cbn [mbind list_bind foldr live].
    rewrite app_nil_r. split_and!; [done|done|lia]. }
  set (all := root :: second :: nodes) in *. unfold sbind at 1, allocate. destruct (alloc (calls m)) eqn:Ha; cbn [negb].
  2:{ rewrite free_forest_spec. cbn. split_and!; [done|by eexists|done]. }
  destruct (take_front_spec all Hh Hne) as (n1 & rest1 & Ht1 & Hp1 & Hh1).
  assert (Hl1 : length rest1 = S (length nodes)) by (apply Permutation_length in Hp1; unfold all in Hp1; cbn in Hp1; lia).
  destruct (take_front_spec rest1 Hh1) as (n2 & rest2 & Ht2 & Hp2 & Hh2); [by intros ->|].
  assert (Hl2 : length rest2 = length nodes) by (apply Permutation_length in Hp2; cbn in Hp2; lia).
  unfold sbind, slift. rewrite Ht1, Ht2. set (parent := Node _ _ _ _).
  destruct (Sort.push_heap_spec comp rest2 parent Hh2) as (l' & -> & Hpl & Hhl).
  assert (Hfull : full n1 /\ full n2 /\ Forall full rest2).
  { rewrite Hp1, Hp2 in Hf. inversion_clear Hf as [|? ? Hf1 Hf']. by inversion_clear Hf'. }
  destruct Hfull as (Hf1 & Hf2 & Hf3). assert (Hsize : forest_size l' = forest_size all + 1).
  { rewrite Hpl, Hp1, Hp2. unfold parent, forest_size. cbn [foldr tree_size]. lia. }
  specialize (IH l' (mk_memory (S (calls m)) (live m + 1)) Hhl). rewrite Hsize in IH. cbn [live] in IH.
  assert (Hleaves : forest_leaves l' ≡ₚ forest_leaves all).
  { rewrite (forest_leaves_perm _ _ Hpl), (forest_leaves_perm _ _ Hp1). unfold forest_leaves at 2. cbn [mbind list_bind].
    fold (forest_leaves rest1). rewrite (forest_leaves_perm _ _ Hp2). unfold forest_leaves, parent. cbn [mbind list_bind].
    rewrite leaves_join by done. by rewrite <- app_assoc. }
  assert (IH' : builds (forest_size all) (join_nodes alloc fuel l' (mk_memory (S (calls m)) (live m + 1))) m
    (fun root size => full root /\ leaves root ≡ₚ forest_leaves l' /\ size = tree_size root)).
  { unfold builds in *. replace (live m - forest_size all) with (live m + 1 - (forest_size all + 1)) by lia. apply IH.
    - rewrite Hpl. constructor; [by constructor|done].
    - intros ->. by apply Permutation_nil_cons in Hpl.
    - apply Permutation_length in Hpl. cbn in Hpl, Hlen. unfold all in Hlen. cbn in Hlen. lia. }
  unfold builds in *. destruct (join_nodes _ _ _ _) as [[r|e|] m']; [|done|done]. by rewrite <- Hleaves.
Qed.
End build.

(** ** The lengths of the codes *)
(** The lengths of some symbols, written over [out]. *)
Definition put (pairs : list (Z * Z)) (out : list Z) : list Z := foldl (fun out p => <[Z.to_nat p.1 := p.2]> out) out pairs.

Definition in_range (n : nat) (s : Z) : Prop := 0 <= s < Z.of_nat n.

Lemma in_range_nonneg n l : Forall (in_range n) l -> Forall (Z.le 0) l.
Proof. intros H. eapply list.Forall_impl; [exact H|]. unfold in_range. lia. Qed.

Lemma length_put pairs : forall out, length (put pairs out) = length out.
Proof. induction pairs as [|p pairs IH]; intros out; [done|]. cbn. fold (put pairs (<[Z.to_nat p.1 := p.2]> out)). by rewrite IH, length_insert. Qed.

Lemma put_app pairs pairs' out : put (pairs ++ pairs') out = put pairs' (put pairs out).
Proof. apply foldl_app. Qed.

Lemma put_cons p pairs out : put (p :: pairs) out = put pairs (<[Z.to_nat p.1 := p.2]> out).
Proof. done. Qed.

Lemma put_lookup_ne pairs i : forall out, 0 <= i -> Forall (Z.le 0) pairs.*1 -> i ∉ pairs.*1 -> put pairs out !! Z.to_nat i = out !! Z.to_nat i.
Proof.
  induction pairs as [|[s d] pairs IH]; intros out Hi Hr Hn; [done|]. cbn [fmap list_fmap fst] in Hr, Hn. inversion_clear Hr as [|? ? Hs Hr'].
  apply not_elem_of_cons in Hn as [Hne Hn]. rewrite put_cons, IH by done. apply list_lookup_insert_ne. cbn [fst]. lia.
Qed.

Lemma put_lookup pairs s d : forall out, Forall (in_range (length out)) pairs.*1 -> NoDup pairs.*1 -> (s, d) ∈ pairs ->
  put pairs out !! Z.to_nat s = Some d.
Proof.
  induction pairs as [|[s' d'] pairs IH]; intros out Hr Hnd Hin; [by apply elem_of_nil in Hin|]. rewrite put_cons. cbn [fmap list_fmap fst snd] in *.
  inversion_clear Hr as [|? ? Hs Hr']. inversion_clear Hnd as [|? ? Hni Hnd']. apply elem_of_cons in Hin as [[= -> ->]|Hin].
  - rewrite put_lookup_ne; [apply list_lookup_insert_eq; unfold in_range in Hs; lia|unfold in_range in Hs; lia|by eapply in_range_nonneg|done].
  - apply IH; [by rewrite length_insert|done|done].
Qed.

(** Only the last assignment counts. *)
Lemma put_put pairs pairs' out :
  Forall (in_range (length out)) pairs'.*1 -> NoDup pairs.*1 -> NoDup pairs'.*1 -> pairs.*1 ≡ₚ pairs'.*1 -> put pairs' (put pairs out) = put pairs' out.
Proof.
  intros Hr Hnd Hnd' Hp. apply list_eq. intros i. pose proof (in_range_nonneg _ _ Hr) as Hle.
  replace i with (Z.to_nat (Z.of_nat i)) by lia. destruct (decide (Z.of_nat i ∈ pairs'.*1)) as [Hin|Hnin].
  - apply list_elem_of_fmap in Hin as ([s d] & Hs & Hin). cbn in Hs. rewrite Hs.
    rewrite !(put_lookup pairs' s d); [done|done|done|done|by rewrite length_put|done|done].
  - by rewrite !put_lookup_ne by (first [lia|done|by rewrite Hp]).
Qed.

Lemma filter_insert_zero (out : list Z) i v : out !! i = Some 0 -> v <> 0 -> filter (fun x => x <> 0) (<[i := v]> out) ≡ₚ v :: filter (fun x => x <> 0) out.
Proof.
  intros Hi Hv. rewrite <- (take_drop_middle out i 0 Hi) at 2.
  rewrite (insert_take_drop out i v) by (by eapply lookup_lt_Some). rewrite !list.filter_app, !list.filter_cons.
  rewrite decide_True, decide_False by (try done; tauto). symmetry. apply Permutation_middle.
Qed.

Lemma put_nonzero pairs : forall out, NoDup pairs.*1 -> Forall (in_range (length out)) pairs.*1 ->
  Forall (fun s => out !! Z.to_nat s = Some 0) pairs.*1 -> Forall (fun d => d <> 0) pairs.*2 ->
  filter (fun x => x <> 0) (put pairs out) ≡ₚ pairs.*2 ++ filter (fun x => x <> 0) out.
Proof.
  induction pairs as [|[s d] pairs IH]; intros out Hnd Hr Hz Hv; [done|]. rewrite put_cons. cbn [fmap list_fmap fst snd] in *.
  inversion_clear Hnd as [|? ? Hni Hnd']. inversion_clear Hr as [|? ? Hs Hr']. inversion_clear Hz as [|? ? Hz1 Hz']. inversion_clear Hv as [|? ? Hv1 Hv'].
  rewrite IH; [|done|by rewrite length_insert| |done].
  - rewrite filter_insert_zero by done. cbn [app]. symmetry. apply Permutation_middle.
  - apply list.Forall_forall. intros x Hx. pose proof (proj1 (list.Forall_forall _ _) Hz' x Hx) as Hxz. pose proof (proj1 (list.Forall_forall _ _) Hr' x Hx) as Hxr.
    cbn beta in *. rewrite list_lookup_insert_ne; [done|]. unfold in_range in *. assert (x <> s) by (intros ->; done). lia.
Qed.

(** ** Lengths and the tree *)
Definition wt (l : Z) : Z := if l =? 0 then 0 else 2 ^ (15 - l).
Definition kraft_sum (ls : list Z) : Z := foldr (fun l acc => wt l + acc) 0 ls.

Lemma kraft_sum_app ls ls' : kraft_sum (ls ++ ls') = kraft_sum ls + kraft_sum ls'.
Proof. unfold kraft_sum. induction ls as [|l ls IH]; cbn [app foldr]; lia. Qed.

#[export] Instance kraft_sum_perm : Proper ((≡ₚ) ==> (=)) kraft_sum.
Proof. intros l k Hp. unfold kraft_sum. induction Hp; cbn [foldr]; lia. Qed.

Lemma kraft_sum_filter ls : kraft_sum (filter (fun x => x <> 0) ls) = kraft_sum ls.
Proof.
  unfold kraft_sum. induction ls as [|l ls IH]; [done|]. rewrite list.filter_cons. cbn [foldr]. case_decide as Hl.
  - cbn [foldr]. lia.
  - assert (l = 0) as -> by tauto. rewrite IH. done.
Qed.

Lemma base_snoc lens l n : 0 <= l <= 15 ->
  base (lens ++ [l]) n = base lens n + (if (1 <=? l) && (l <? Z.of_nat n) then 2 ^ (Z.of_nat n - l) else 0).
Proof.
  intros Hl. induction n as [|n IH]; [cbn; destruct (1 <=? l) eqn:E; cbn; [|lia]; rewrite (proj2 (Z.ltb_ge _ _)); lia|].
  cbn [base]. rewrite IH. destruct n as [|n].
  { destruct ((1 <=? l) && (l <? Z.of_nat 0)) eqn:E1; zify_bool; [lia|].
    destruct ((1 <=? l) && (l <? Z.of_nat 1)) eqn:E2; zify_bool; lia. }
  rewrite cnt_snoc. destruct ((1 <=? l) && (l <? Z.of_nat (S n))) eqn:E1, ((1 <=? l) && (l <? Z.of_nat (S (S n)))) eqn:E2; zify_bool; try lia.
  - rewrite decide_False by lia. replace (Z.of_nat (S (S n)) - l) with (Z.succ (Z.of_nat (S n) - l)) by lia. rewrite Z.pow_succ_r by lia. lia.
  - rewrite decide_True by lia. replace (Z.of_nat (S (S n)) - l) with 1 by lia. lia.
  - rewrite decide_False by lia. lia.
Qed.

(** The condition of [lens_ok] as a sum over the symbols. *)
Lemma kraft_sum_base lens : Forall (fun l => 0 <= l <= 15) lens -> base lens 15 + cnt 15 lens = kraft_sum lens.
Proof.
  induction lens as [|l lens IH] using rev_ind; intros Hr; [done|]. apply list.Forall_app in Hr as [Hr Hl]. inversion_clear Hl as [|? ? Hl' _].
  rewrite base_snoc, cnt_snoc, kraft_sum_app by done. unfold kraft_sum at 2. cbn [foldr]. rewrite <- IH by done. unfold wt.
  destruct ((1 <=? l) && (l <? Z.of_nat 15)) eqn:E1, (Z.eqb_spec l 0) as [->|Hn]; zify_bool; try lia.
  - rewrite decide_False by lia. change (Z.of_nat 15) with 15. lia.
  - rewrite decide_False by lia. lia.
  - assert (l = 15) as -> by lia. rewrite decide_True by done. change (2 ^ (15 - 15)) with 1. lia.
Qed.

(** *** The lengths from the depths *)
Fixpoint over (n : node_t) (d : Z) : Z :=
  match n with Null => 0 | Node _ _ l r => (if 15 <? d then 1 else 0) + over l (d + 1) + over r (d + 1) end.

Definition clip (pairs : list (Z * Z)) : list (Z * Z) := (fun p => (p.1, Z.min p.2 15)) <$> pairs.

Lemma clip_keys pairs : (clip pairs).*1 = pairs.*1.
Proof. unfold clip. rewrite <- list_fmap_compose. done. Qed.

Lemma over_range n : forall d, 0 <= over n d <= tree_size n.
Proof. induction n as [|s f l IHl r IHr]; intros d; [done|]. cbn [over tree_size]. specialize (IHl (d + 1)). specialize (IHr (d + 1)). case_if; lia. Qed.

Lemma gather_lengths_spec n : full n -> forall out d,
  0 <= d -> d + tree_size n < 2 ^ 15 -> Forall (in_range (length out)) (leaves n) ->
  gather_lengths n out d = Ok (over n d, put (clip (depths n d)) out).
Proof.
  induction 1 as [s f|s f l r Hl IHl Hr IHr]; intros out d Hd Hsize Hrange.
  - inversion_clear Hrange as [|? ? Hs _]. cbn [gather_lengths over]. change (Z.of_nat s_max_bits) with 15.
    unfold in_range in Hs. rewrite (proj2 (Z.ltb_lt _ _)), Math.min_spec by lia. by rewrite !Z.add_0_r.
  - rewrite leaves_join in Hrange by done. apply list.Forall_app in Hrange as [Hr1 Hr2]. cbn [tree_size] in Hsize.
    destruct (tree_size_leaves l Hl), (tree_size_leaves r Hr).
    assert (He : gather_lengths (Node s f l r) out d =
      let* (count_left, symbols) := gather_lengths l out (u16 (d + 1)) in
      let* (count_right, symbols) := gather_lengths r symbols (u16 (d + 1)) in
      Ok (u16 (u16 ((if 15 <? d then 1 else 0) + count_left) + count_right), symbols)) by (by destruct Hl).
    rewrite He, (wrap_id 16) by lia. rewrite (IHl out (d + 1)) by (done || lia). rewrite IHr by (rewrite ?length_put; done || lia).
    rewrite depths_join by done. unfold clip. rewrite fmap_app, put_app. do 2 f_equal. cbn [over].
    pose proof (over_range l (d + 1)). pose proof (over_range r (d + 1)).
    rewrite (wrap_id 16 (_ + over l _)) by (case_if; lia). rewrite wrap_id by (case_if; lia). done.
Qed.

Lemma clip_app ps ps' : clip (ps ++ ps') = clip ps ++ clip ps'.
Proof. apply fmap_app. Qed.

Lemma clip_deep n : full n -> forall d, 15 < d ->
  over n d = 2 * Z.of_nat (length (leaves n)) - 1 /\ kraft_sum (clip (depths n d)).*2 = Z.of_nat (length (leaves n)) /\
  cnt 15 (clip (depths n d)).*2 = Z.of_nat (length (leaves n)).
Proof.
  induction 1 as [s f|s f l r Hl IHl Hr IHr]; intros d Hd.
  - cbn [over depths clip fmap list_fmap snd]. rewrite (proj2 (Z.ltb_lt _ _)), Z.min_r by lia. done.
  - destruct (IHl (d + 1) ltac:(lia)) as (Ol & Kl & Cl). destruct (IHr (d + 1) ltac:(lia)) as (Or & Kr & Cr).
    cbn [over]. rewrite depths_join, leaves_join, clip_app, fmap_app, kraft_sum_app, cnt_app, length_app by done.
    rewrite (proj2 (Z.ltb_lt _ _)) by lia. lia.
Qed.

(** What the clipped lengths exceed a complete code by. *)
Lemma clip_excess n : full n -> forall d, 1 <= d <= 15 ->
  2 * kraft_sum (clip (depths n d)).*2 = 2 * 2 ^ (15 - d) + over n d /\ over n d <= 2 * cnt 15 (clip (depths n d)).*2.
Proof.
  induction 1 as [s f|s f l r Hl IHl Hr IHr]; intros d Hd.
  - cbn [over depths clip fmap list_fmap snd fst]. rewrite (proj2 (Z.ltb_ge _ _)), Z.min_l by lia. unfold kraft_sum. cbn [foldr].
    unfold wt. rewrite (proj2 (Z.eqb_neq _ _)) by lia. pose proof (cnt_range 15 [d]). lia.
  - rewrite depths_join, clip_app, fmap_app, kraft_sum_app, cnt_app by done. cbn [over]. rewrite (proj2 (Z.ltb_ge 15 d)) by lia.
    destruct (decide (d = 15)) as [->|Hlt].
    + destruct (clip_deep l Hl 16 ltac:(lia)) as (Ol & Kl & Cl). destruct (clip_deep r Hr 16 ltac:(lia)) as (Or & Kr & Cr).
      change (15 + 1) with 16. change (2 ^ (15 - 15)) with 1. lia.
    + destruct (IHl (d + 1) ltac:(lia)) as [Kl Cl]. destruct (IHr (d + 1) ltac:(lia)) as [Kr Cr].
      replace (15 - d) with (Z.succ (15 - (d + 1))) by lia. rewrite Z.pow_succ_r by lia. lia.
Qed.

(** The depths of a tree that is not a leaf. *)
Lemma clip_root s f l r : full l -> full r ->
  let ls := (clip (depths (Node s f l r) 0)).*2 in
  2 * kraft_sum ls = 2 * 2 ^ 15 + over (Node s f l r) 0 /\ over (Node s f l r) 0 <= 2 * cnt 15 ls /\ Forall (fun x => 1 <= x <= 15) ls.
Proof.
  intros Hl Hr. cbn zeta. rewrite depths_join, clip_app, fmap_app, kraft_sum_app, cnt_app by done. cbn [over]. change (0 + 1) with 1.
  destruct (clip_excess l Hl 1 ltac:(lia)) as [Kl Cl]. destruct (clip_excess r Hr 1 ltac:(lia)) as [Kr Cr].
  change (15 <? 0) with false. cbn iota. change (2 ^ 15) with (2 * 2 ^ (15 - 1)).
  split_and!; [lia|lia|].
  assert (Hd : forall n, full n -> forall d, 1 <= d -> Forall (fun x => 1 <= x <= 15) (clip (depths n d)).*2).
  { induction 1 as [|s' f' l' r' Hl' IHl Hr' IHr]; intros d Hd.
    - cbn. constructor; [lia|constructor].
    - rewrite depths_join, clip_app, fmap_app by done. apply list.Forall_app. split; [apply IHl|apply IHr]; lia. }
  apply list.Forall_app. split; apply Hd; done || lia.
Qed.

(** *** Counting the lengths, and making room *)
Lemma count_used_spec rest : forall pre,
  Forall (fun l => 0 <= l <= 15) (pre ++ rest) -> Z.of_nat (length (pre ++ rest)) < 2 ^ 16 -> count_used rest (counts pre) = Ok (counts (pre ++ rest)).
Proof.
  induction rest as [|l rest IH]; intros pre Hr Hlen; cbn [count_used]; [by rewrite app_nil_r|].
  assert (Hl : 0 <= l <= 15) by (apply list.Forall_app in Hr as [_ Hr]; by inversion_clear Hr).
  rewrite cons_middle, app_assoc in *. pose proof (counts_snoc pre l Hl) as Hs. case_if; zify_bool; [rewrite <- Hs; by apply IH|].
  rewrite counts_lookup by lia. pose proof (cnt_range l pre). rewrite !length_app in Hlen. cbn [length] in Hlen.
  rewrite wrap_id by lia. rewrite <- Hs. apply IH; [done|]. rewrite !length_app. cbn [length]. lia.
Qed.

(** The sums over the lengths 1 .. [n] of their numbers, and of what they take
    of the code space. *)
Fixpoint total (n : nat) (bl : list Z) : Z := match n with O => 0 | S n' => bl !!! n + total n' bl end.
Fixpoint space (n : nat) (bl : list Z) : Z := match n with O => 0 | S n' => bl !!! n * 2 ^ (15 - Z.of_nat n) + space n' bl end.

Lemma total_insert n bl i x : (i < length bl)%nat ->
  total n (<[i := x]> bl) = total n bl + (if (1 <=? i)%nat && (i <=? n)%nat then x - bl !!! i else 0).
Proof.
  intros Hi. induction n as [|n IH].
  { destruct ((1 <=? i)%nat && (i <=? 0)%nat) eqn:E; zify_bool; cbn; lia. }
  cbn [total]. rewrite IH. destruct (decide (i = S n)) as [->|Hne].
  - rewrite list_lookup_total_insert_eq by done. rewrite (proj2 (Nat.leb_gt (S n) n)), (proj2 (Nat.leb_le 1 (S n))), Nat.leb_refl by lia. cbn. lia.
  - rewrite list_lookup_total_insert_ne by done. replace (i <=? S n)%nat with (i <=? n)%nat; [lia|].
    apply eq_true_iff_eq. rewrite !Nat.leb_le. lia.
Qed.

Lemma space_insert n bl i x : (i < length bl)%nat ->
  space n (<[i := x]> bl) = space n bl + (if (1 <=? i)%nat && (i <=? n)%nat then (x - bl !!! i) * 2 ^ (15 - Z.of_nat i) else 0).
Proof.
  intros Hi. induction n as [|n IH].
  { destruct ((1 <=? i)%nat && (i <=? 0)%nat) eqn:E; zify_bool; cbn; lia. }
  cbn [space]. rewrite IH. destruct (decide (i = S n)) as [->|Hne].
  - rewrite list_lookup_total_insert_eq by done. rewrite (proj2 (Nat.leb_gt (S n) n)), (proj2 (Nat.leb_le 1 (S n))), Nat.leb_refl by lia. cbn [andb]. lia.
  - rewrite list_lookup_total_insert_ne by done. replace (i <=? S n)%nat with (i <=? n)%nat; [lia|].
    apply eq_true_iff_eq. rewrite !Nat.leb_le. lia.
Qed.

Lemma total_at_least n bl i : (forall j, 0 <= bl !!! j) -> (1 <= i <= n)%nat -> bl !!! i <= total n bl.
Proof.
  intros Hp Hi. assert (Hnn : forall k, 0 <= total k bl) by (induction k as [|k IHk]; [done|]; cbn [total]; pose proof (Hp (S k)); lia).
  induction n as [|n IH]; [lia|]. cbn [total]. destruct (decide (i = S n)) as [->|]; [specialize (Hnn n); lia|].
  pose proof (Hp (S n)). specialize (IH ltac:(lia)). lia.
Qed.

(** The numbers of codes of each length, with [r] codes of length fifteen too
    many. *)
Record crowded (n r : Z) (bl : list Z) : Prop := {
  cr_length : length bl = 16%nat;
  cr_zero : bl !!! 0%nat = 0;
  cr_nonneg : forall i, 0 <= bl !!! i;
  cr_total : total 15 bl = n;
  cr_space : space 15 bl = 2 ^ 15 + r;
  cr_last : r <= bl !!! 15%nat
}.

Lemma longest_below_spec bl : length bl = 16%nat -> bl !!! 0%nat = 0 -> forall bits,
  (bits < 16)%nat -> (exists i, (i <= bits)%nat /\ bl !!! i <> 0) ->
  exists b, longest_below bits bl = Ok b /\ (1 <= b <= bits)%nat /\ bl !!! b <> 0.
Proof.
  intros Hlen H0. induction bits as [|bits IH]; intros Hb (i & Hi & Hne).
  { assert (i = 0%nat) as -> by lia. done. }
  cbn [longest_below]. rewrite list_lookup_lookup_total_lt by lia. case_if; zify_bool.
  - destruct IH as (b & Hb' & Hr & Hn); [lia| |by exists b; split_and!; [done|lia|lia|done]].
    exists i. split; [|done]. assert (i <> S bits) by (by intros ->). lia.
  - exists (S bits). split_and!; [done|lia|lia|done].
Qed.

Lemma add_at_spec bl i x : (i < length bl)%nat -> 0 <= bl !!! i + x < 2 ^ 16 -> add_at bl i x = Ok (<[i := bl !!! i + x]> bl).
Proof. intros Hi Hx. unfold add_at. rewrite list_lookup_lookup_total_lt by done. by rewrite wrap_id. Qed.

Lemma space_low n bl : (forall i, (1 <= i <= n)%nat -> bl !!! i = 0) -> space n bl = 0.
Proof. induction n as [|n IH]; intros H; [done|]. cbn [space]. rewrite (H (S n)) by lia. rewrite IH; [lia|]. intros. apply H. lia. Qed.

Ltac room_facts :=
  repeat match goal with
  | |- context [<[?i := ?x]> ?bl !!! ?j] =>
      first [rewrite (list_lookup_total_insert_eq bl i x) by (rewrite ?length_insert; lia)
            |rewrite (list_lookup_total_insert_ne bl i j x) by lia]
  end.

Lemma make_room_step n r bl : 0 < n < 2 ^ 15 -> 0 < r -> crowded n r bl ->
  exists b, longest_below 14 bl = Ok b /\ exists bl1 bl2 bl3,
    add_at bl b (-1) = Ok bl1 /\ add_at bl1 (b + 1) 2 = Ok bl2 /\ add_at bl2 15 (-1) = Ok bl3 /\ crowded n (r - 1) bl3.
Proof.
  intros Hn Hr [Hlen H0 Hnn Ht Hs Hl].
  destruct (longest_below_spec bl Hlen H0 14 ltac:(lia)) as (b & Hb & Hbr & Hbn).
  { destruct (decide (Forall (fun i => bl !!! i = 0) (seq 1 14))) as [Hz|Hz].
    - exfalso. assert (Hlow : space 14 bl = 0).
      { apply space_low. intros i Hi. apply (proj1 (list.Forall_forall _ _) Hz i). apply elem_of_seq. lia. }
      pose proof (total_at_least 15 bl 15 Hnn ltac:(lia)).
      assert (Hsp : space 15 bl = bl !!! 15%nat) by (change (space 15 bl) with (bl !!! 15%nat * 2 ^ (15 - Z.of_nat 15) + space 14 bl); rewrite Hlow; change (2 ^ (15 - Z.of_nat 15)) with 1; lia).
      lia.
    - apply not_Forall_Exists in Hz; [|intros; apply _]. apply list.Exists_exists in Hz as (i & Hi%elem_of_seq & Hi0). exists i. split; [lia|done]. }
  exists b. split; [done|]. pose proof (Hnn b). pose proof (Hnn (b + 1)%nat). pose proof (Hnn 15%nat).
  pose proof (total_at_least 15 bl b Hnn ltac:(lia)). pose proof (total_at_least 15 bl (b + 1) Hnn ltac:(lia)).
  pose proof (total_at_least 15 bl 15 Hnn ltac:(lia)).
  pose (bl1 := <[b := bl !!! b + -1]> bl). pose (bl2 := <[(b + 1)%nat := bl1 !!! (b + 1)%nat + 2]> bl1).
  exists bl1, bl2, (<[15%nat := bl2 !!! 15%nat + -1]> bl2). split; [apply add_at_spec; lia|].
  assert (Hb1 : bl1 !!! (b + 1)%nat = bl !!! (b + 1)%nat) by (unfold bl1; by room_facts).
  split; [apply add_at_spec; [unfold bl1; rewrite length_insert; lia|lia]|].
  assert (Hb2 : bl2 !!! 15%nat = bl !!! 15%nat + (if (b =? 14)%nat then 2 else 0)).
  { unfold bl2. destruct (Nat.eqb_spec b 14) as [->|].
    - change (14 + 1)%nat with 15%nat in *. unfold bl1 in *. room_facts. lia.
    - unfold bl1. room_facts. lia. }
  assert (Hl2 : length bl2 = 16%nat) by (unfold bl2, bl1; by rewrite !length_insert).
  split; [apply add_at_spec; [lia|rewrite Hb2; destruct (b =? 14)%nat; lia]|].
  assert (Hl1 : length bl1 = 16%nat) by (unfold bl1; by rewrite length_insert).
  split; [by rewrite length_insert|unfold bl2, bl1; by room_facts| | | |].
  - intros i. destruct (decide (i = 15%nat)) as [->|]; [room_facts; rewrite Hb2; destruct (b =? 14)%nat; lia|]. room_facts.
    unfold bl2. destruct (decide (i = b + 1)%nat) as [->|]; [room_facts; lia|]. room_facts.
    unfold bl1. destruct (decide (i = b)) as [->|]; [room_facts; lia|]. room_facts. apply Hnn.
  - rewrite total_insert by lia. unfold bl2. rewrite total_insert by lia. unfold bl1 at 1. rewrite total_insert by lia.
    rewrite !(proj2 (Nat.leb_le _ _)) by lia. cbn [andb]. lia.
  - rewrite space_insert by lia. unfold bl2 at 1. rewrite space_insert by lia. unfold bl1 at 1. rewrite space_insert by lia.
    rewrite !(proj2 (Nat.leb_le _ _)) by lia. cbn [andb]. change (2 ^ (15 - Z.of_nat 15)) with 1.
    replace (15 - Z.of_nat b) with (Z.succ (15 - Z.of_nat (b + 1))) by lia. rewrite Z.pow_succ_r by lia. lia.
  - room_facts. rewrite Hb2. destruct (b =? 14)%nat; lia.
Qed.

Lemma make_room_spec k : forall n bl, 0 < n < 2 ^ 15 -> crowded n (Z.of_nat k) bl ->
  exists bl', make_room k bl = Ok bl' /\ crowded n 0 bl'.
Proof.
  induction k as [|k IH]; intros n bl Hn Hc; [by exists bl|]. cbn [make_room].
  destruct (make_room_step n (Z.of_nat (S k)) bl Hn ltac:(lia) Hc) as (b & Hb & bl1 & bl2 & bl3 & H1 & H2 & H3 & Hc').
  change (s_max_bits - 1)%nat with 14%nat. rewrite Hb, H1, H2. change s_max_bits with 15%nat. rewrite H3.
  replace (Z.of_nat (S k) - 1) with (Z.of_nat k) in Hc' by lia. by apply IH.
Qed.

(** *** Dealing the lengths out again *)
(** The lengths of [bl], the longest first. *)
Fixpoint deal (n : nat) (bl : list Z) : list Z :=
  match n with O => [] | S n' => replicate (Z.to_nat (bl !!! n)) (Z.of_nat n) ++ deal n' bl end.

Lemma length_deal n bl : (forall i, 0 <= bl !!! i) -> Z.of_nat (length (deal n bl)) = total n bl.
Proof. intros Hp. induction n as [|n IH]; [done|]. cbn [deal total]. rewrite length_app, length_replicate. pose proof (Hp (S n)). lia. Qed.

Lemma kraft_sum_replicate c l : l <> 0 -> kraft_sum (replicate c l) = Z.of_nat c * 2 ^ (15 - l).
Proof.
  intros Hl. unfold kraft_sum. induction c as [|c IH]; [done|]. cbn [replicate foldr]. rewrite IH. unfold wt. rewrite (proj2 (Z.eqb_neq _ _)) by done. lia.
Qed.

Lemma kraft_sum_deal n bl : (forall i, 0 <= bl !!! i) -> kraft_sum (deal n bl) = space n bl.
Proof.
  intros Hp. induction n as [|n IH]; [done|]. cbn [deal space]. rewrite kraft_sum_app, kraft_sum_replicate, IH by lia. pose proof (Hp (S n)). lia.
Qed.

Lemma cnt_replicate l c x : cnt l (replicate c x) = if decide (x = l) then Z.of_nat c else 0.
Proof. induction c as [|c IH]; [by case_decide|]. cbn [replicate]. rewrite cnt_cons, IH. case_decide; lia. Qed.

Lemma cnt_deal n bl i : (forall i, 0 <= bl !!! i) -> (1 <= i)%nat -> cnt (Z.of_nat i) (deal n bl) = if (i <=? n)%nat then bl !!! i else 0.
Proof.
  intros Hp Hi. induction n as [|n IH]; [by rewrite (proj2 (Nat.leb_gt _ _)) by lia|]. cbn [deal]. rewrite cnt_app, cnt_replicate, IH.
  pose proof (Hp (S n)). case_decide as Hd.
  - assert (i = S n) as -> by lia. rewrite (proj2 (Nat.leb_gt _ _)), (proj2 (Nat.leb_le _ _)) by lia. lia.
  - replace (i <=? S n)%nat with (i <=? n)%nat; [lia|]. apply eq_true_iff_eq. rewrite !Nat.leb_le. lia.
Qed.

Lemma deal_positive n bl : Forall (fun x => 1 <= x <= Z.of_nat n) (deal n bl).
Proof.
  induction n as [|n IH]; [constructor|]. cbn [deal]. apply list.Forall_app. split; [apply Forall_replicate; lia|].
  eapply list.Forall_impl; [exact IH|]. cbn. lia.
Qed.

Lemma give_length_spec bits c : forall syms out, (c <= length syms)%nat -> Forall (in_range (length out)) syms.*1 ->
  give_length c bits syms out = Ok (skipn c syms, put (zip (firstn c syms.*1) (replicate c bits)) out).
Proof.
  induction c as [|c IH]; intros [|[s f] syms] out Hc Hr; [done|done|cbn in Hc; lia|]. cbn [give_length fmap list_fmap fst firstn replicate zip zip_with skipn] in *.
  inversion_clear Hr as [|? ? Hs Hr']. unfold in_range in Hs. rewrite (proj2 (Z.ltb_lt _ _)) by lia. rewrite put_cons. apply IH; [cbn in Hc; lia|by rewrite length_insert].
Qed.

Lemma give_lengths_spec bl (Hlen : length bl = 16%nat) n : forall syms out, (n < 16)%nat ->
  (length (deal n bl) <= length syms)%nat -> Forall (in_range (length out)) syms.*1 ->
  give_lengths n bl syms out = Ok (skipn (length (deal n bl)) syms, put (zip (firstn (length (deal n bl)) syms.*1) (deal n bl)) out).
Proof.
  induction n as [|n IH]; intros syms out Hn Hl Hr; [done|]. cbn [give_lengths deal]. rewrite list_lookup_lookup_total_lt by lia.
  set (c := Z.to_nat (bl !!! S n)) in *. cbn [deal] in Hl. fold c in Hl. rewrite length_app, length_replicate in *.
  rewrite give_length_spec by (done || lia). rewrite IH; [|lia|rewrite length_skipn; lia|].
  2:{ rewrite length_put, fmap_drop. by apply Forall_drop. }
  rewrite drop_drop, fmap_drop, <- put_app. do 3 f_equal. rewrite <- zip_with_app by (rewrite length_take, length_replicate, length_fmap; lia).
  by rewrite take_take_drop.
Qed.

(** *** The symbols that occur *)
Lemma used_symbols_keys freq : forall sym, Forall (fun s => sym <= s < sym + Z.of_nat (length freq)) (used_symbols sym freq).*1 /\ NoDup (used_symbols sym freq).*1.
Proof.
  induction freq as [|f freq IH]; intros sym; cbn [used_symbols length]; [split; constructor|]. destruct (IH (sym + 1)) as [Hr Hnd].
  assert (Hr' : Forall (fun s => sym <= s < sym + Z.of_nat (S (length freq))) (used_symbols (sym + 1) freq).*1).
  { eapply list.Forall_impl; [exact Hr|]. cbn. lia. }
  case_if; [done|]. cbn [fmap list_fmap fst]. split; constructor; [lia|done| |done].
  intros Hin. pose proof (proj1 (list.Forall_forall _ _) Hr _ Hin) as Hx. cbn in Hx. lia.
Qed.

Lemma used_symbols_elem freq s : forall sym, s ∈ (used_symbols sym freq).*1 <-> exists i f, s = sym + Z.of_nat i /\ freq !! i = Some f /\ f <> 0.
Proof.
  induction freq as [|f freq IH]; intros sym; cbn [used_symbols].
  { split; [by intros ?%elem_of_nil|]. by intros (i & f & _ & Hf & _). }
  assert (Hnext : s ∈ (used_symbols (sym + 1) freq).*1 <-> exists i g, s = sym + Z.of_nat (S i) /\ (f :: freq) !! S i = Some g /\ g <> 0).
  { rewrite IH. split; intros (i & g & Hs & Hg); exists i, g; (split; [lia|done]). }
  destruct (Z.eqb_spec f 0) as [->|Hne].
  - rewrite Hnext. split; [intros (i & g & H); by exists (S i), g|]. intros ([|i] & g & Hs & Hg & Hgn); [by injection Hg as <-|by exists i, g].
  - cbn [fmap list_fmap fst]. rewrite elem_of_cons, Hnext. split.
    + intros [->|(i & g & H)]; [exists 0%nat, f; split; [lia|done]|by exists (S i), g].
    + intros ([|i] & g & Hs & Hg & Hgn); [left; lia|right; by exists i, g].
Qed.

(** *** The sums of the numbers of lengths *)
Lemma counts_total i ls : (1 <= i <= 15)%nat -> counts ls !!! i = cnt (Z.of_nat i) ls.
Proof.
  intros Hi. apply list_lookup_total_correct. pose proof (counts_lookup ls (Z.of_nat i) ltac:(lia)) as H. by rewrite Nat2Z.id in H.
Qed.

Lemma counts_nonneg ls i : 0 <= counts ls !!! i.
Proof.
  destruct (decide (i < 16)%nat) as [Hi|Hi].
  - destruct i as [|i]; [done|]. rewrite counts_total by lia. apply cnt_range.
  - rewrite list_lookup_total_alt, lookup_ge_None_2; [done|]. cbn. lia.
Qed.

Lemma counts_sums ls : Forall (fun l => 0 <= l <= 15) ls ->
  total 15 (counts ls) = Z.of_nat (length (filter (fun x => x <> 0) ls)) /\ space 15 (counts ls) = kraft_sum ls.
Proof.
  induction ls as [|l ls IH] using rev_ind; intros Hr; [done|]. apply list.Forall_app in Hr as [Hr Hl]. inversion_clear Hl as [|? ? Hl' _].
  destruct (IH Hr) as [Ht Hs]. rewrite counts_snoc, list.filter_app, length_app, kraft_sum_app, list.filter_cons by done.
  unfold kraft_sum at 2. cbn [foldr]. unfold wt. destruct (Z.eqb_spec l 0) as [->|Hne].
  - rewrite decide_False by tauto. cbn [length filter list_filter]. lia.
  - rewrite decide_True by done. cbn [length]. rewrite total_insert, space_insert by (cbn; lia).
    rewrite !(proj2 (Nat.leb_le _ _)) by lia. cbn [andb]. rewrite counts_total, Z2Nat.id by lia. cbn [length filter list_filter]. lia.
Qed.

Lemma cnt_filter l ls : l <> 0 -> cnt l (filter (fun x => x <> 0) ls) = cnt l ls.
Proof.
  intros Hl. induction ls as [|x ls IH]; [done|]. rewrite list.filter_cons. case_decide as Hx; rewrite ?cnt_cons, IH; [done|].
  rewrite decide_False by (intros ->; tauto). done.
Qed.

#[export] Instance cnt_perm l : Proper ((≡ₚ) ==> (=)) (cnt l).
Proof. intros x y Hp. unfold cnt. by rewrite Hp. Qed.

#[export] Instance rarer_swo : StrictWeakOrder rarer.
Proof.
  unfold rarer. split; [intros; apply Z.ltb_irrefl|intros x y z; rewrite !Z.ltb_lt; lia|intros x y z; rewrite !Z.ltb_ge; lia].
Qed.

Lemma used_symbols_length freq : forall sym, (length (used_symbols sym freq) <= length freq)%nat.
Proof. induction freq as [|f freq IH]; intros sym; cbn [used_symbols length]; [done|]. specialize (IH (sym + 1)). case_if; cbn [length]; lia. Qed.

(** Lengths that were dealt to the symbols that occur. *)
Definition dealt (freq : list Z) (ls : list (Z * Z)) : Prop :=
  ls.*1 ≡ₚ (used_symbols 0 freq).*1 /\ Forall (fun l => 1 <= l <= 15) ls.*2.

Definition zeros (freq : list Z) : list Z := replicate (length freq) 0.

Lemma dealt_put freq ls : dealt freq ls ->
  NoDup ls.*1 /\ Forall (in_range (length (zeros freq))) ls.*1 /\ filter (fun x => x <> 0) (put ls (zeros freq)) ≡ₚ ls.*2.
Proof.
  intros [Hp Hls]. pose proof (used_symbols_keys freq 0) as [Hkr Hnd]. unfold zeros.
  assert (Hr : Forall (in_range (length freq)) ls.*1) by (rewrite Hp; exact Hkr).
  split_and!; [by rewrite Hp|by rewrite length_replicate|]. rewrite put_nonzero; [|by rewrite Hp|by rewrite length_replicate| |].
  - assert (Hz : forall n, filter (fun x => x <> 0) (replicate n 0) = []) by (induction n as [|n IH]; [done|]; cbn [replicate]; by rewrite list.filter_cons, decide_False by tauto).
    by rewrite Hz, app_nil_r.
  - eapply list.Forall_impl; [exact Hr|]. unfold in_range. intros x Hx. apply lookup_replicate. split; [done|lia].
  - eapply list.Forall_impl; [exact Hls|]. cbn. lia.
Qed.

Lemma dealt_range freq ls : dealt freq ls -> Forall (fun l => 0 <= l <= 15) (put ls (zeros freq)).
Proof.
  intros Hd. pose proof (dealt_put freq ls Hd) as (Hnd & Hr & Hp). destruct Hd as [_ Hls]. rewrite <- Hp in Hls.
  apply list.Forall_forall. intros x Hx. destruct (decide (x = 0)) as [->|Hne]; [lia|].
  pose proof (proj1 (list.Forall_forall _ _) Hls x) as Hx'. cbn in Hx'. assert (x ∈ filter (fun x => x <> 0) (put ls (zeros freq))) by (by apply list_elem_of_filter).
  specialize (Hx' ltac:(done)). lia.
Qed.

(** The lengths after a crowded code was relaxed. *)
Lemma limit_lengths_spec freq pairs r :
  dealt freq pairs -> Z.of_nat (length freq) < 2 ^ 15 -> 0 < r -> pairs <> [] ->
  let out := put pairs (zeros freq) in
  crowded (Z.of_nat (length pairs)) r (counts out) ->
  exists ls, dealt freq ls /\ kraft_sum ls.*2 = 2 ^ 15 /\
    limit_lengths (2 * r) freq (counts out) out = Ok (counts (put ls (zeros freq)), put ls (zeros freq)).
Proof.
  intros Hd Hlen Hr Hne out Hc. unfold limit_lengths. rewrite (proj2 (Z.ltb_lt 0 (2 * r))) by lia.
  replace (2 * r / 2) with (Z.of_nat (Z.to_nat r)) by (rewrite Z.mul_comm, Z.div_mul by lia; lia). rewrite Nat2Z.id.
  pose proof (used_symbols_length freq 0) as Hul. pose proof (dealt_put freq pairs Hd) as (Hndp & _ & _). destruct Hd as [Hp Hls].
  assert (Hlu : length pairs = length (used_symbols 0 freq)) by (apply Permutation_length in Hp; by rewrite !length_fmap in Hp).
  assert (0 < length pairs)%nat by (destruct pairs; [done|cbn; lia]).
  destruct (make_room_spec (Z.to_nat r) (Z.of_nat (length pairs)) (counts out)) as (bl & -> & [Hbl H0 Hnn Ht Hs _]); [lia|by rewrite Z2Nat.id by lia|].
  unfold Sort.sort. destruct (Sort.intro_sort_sorts rarer 0%nat (length (used_symbols 0 freq)) (used_symbols 0 freq)) as (sorted & -> & [Hps _] & _); [lia|lia|].
  pose proof (length_deal 15 bl Hnn) as Hdl. rewrite Ht in Hdl. pose proof (Permutation_length Hps) as Hlps.
  pose proof (used_symbols_keys freq 0) as [Hkr Hnd]. assert (Hsr : Forall (in_range (length out)) sorted.*1).
  { unfold out, zeros. rewrite length_put, length_replicate, <- Hps. exact Hkr. }
  change s_max_bits with 15%nat. rewrite give_lengths_spec; [|done|lia|lia|done]. replace (length (deal 15 bl)) with (length sorted) by lia.
  rewrite skipn_all. cbn [length Nat.eqb]. rewrite <- (length_fmap fst sorted), firstn_all.
  set (ls := zip sorted.*1 (deal 15 bl)). assert (Hk1 : ls.*1 = sorted.*1) by (apply fst_zip; rewrite length_fmap; lia).
  assert (Hk2 : ls.*2 = deal 15 bl) by (apply snd_zip; rewrite length_fmap; lia).
  assert (Hdl' : dealt freq ls). { split; [by rewrite Hk1, Hps|rewrite Hk2; exact (deal_positive 15 bl)]. }
  exists ls. split; [done|]. split; [rewrite Hk2, kraft_sum_deal by done; lia|].
  pose proof (dealt_put freq ls Hdl') as (Hnd' & Hr' & Hpl). unfold out. rewrite put_put; [|done|done|done|by rewrite Hk1, Hp, Hps].
  do 2 f_equal. apply list_eq_same_length with (n := 16%nat); [done|done|]. intros i x y Hi Hx Hy.
  apply list_lookup_total_correct in Hx as <-, Hy as <-. destruct i as [|i]; [done|]. rewrite counts_total by lia.
  rewrite <- cnt_filter, Hpl, Hk2, cnt_deal by (done || lia). by rewrite (proj2 (Nat.leb_le _ _)) by lia.
Qed.

(** ** The codes *)
(** The leaves carry the codes of RFC 1951 for their lengths. *)
Definition canonical_tree (tree : list Leaf) : Prop :=
  lens_ok (leaf_len <$> tree) /\ forall i, (i < length tree)%nat -> tree !! i = Some (leaf_at (leaf_len <$> tree) i).

(** The symbols that occur, two of them at least, have the codes of a complete
    prefix code; the others have none.  A single symbol gets the empty code,
    and without any the symbol 0 gets a code of one bit. *)
Definition tree_spec (freq : list Z) (tree : list Leaf) : Prop :=
  length tree = length freq /\ canonical_tree tree /\
  match used_symbols 0 freq with
  | [] => leaf_len <$> tree = <[0%nat := 1]> (zeros freq)
  | [_] => leaf_len <$> tree = zeros freq
  | _ => kraft_sum (leaf_len <$> tree) = 2 ^ 15 /\
      forall i leaf, tree !! i = Some leaf -> (leaf_len leaf <> 0 <-> exists f, freq !! i = Some f /\ f <> 0)
  end.

Lemma leaf_at_len lens i l : lens !! i = Some l -> leaf_len (leaf_at lens i) = l.
Proof. intros Hl. unfold leaf_at. rewrite Hl. by destruct (Z.eqb_spec l 0) as [->|]. Qed.

Lemma leaf_at_lens lens : leaf_len <$> (leaf_at lens <$> seq 0 (length lens)) = lens.
Proof.
  apply list_eq. intros i. rewrite !list_lookup_fmap. destruct (lens !! i) as [l|] eqn:Hl.
  - rewrite lookup_seq_lt by (by eapply lookup_lt_Some). cbn. f_equal. by apply leaf_at_len.
  - apply lookup_ge_None in Hl. by rewrite lookup_seq_ge by lia.
Qed.

Lemma assign_lens lens : lens_ok lens ->
  exists tree, assign_codes lens (0 :: base_codes (firstn s_max_bits (counts lens)) 0) = Ok tree /\
    leaf_len <$> tree = lens /\ canonical_tree tree.
Proof.
  intros Hok. pose proof (min_code_spec lens Hok) as Hm. change (Z.to_nat MAX_BITS) with s_max_bits in Hm. rewrite Hm.
  exists (leaf_at lens <$> seq 0 (length lens)). pose proof (leaf_at_lens lens) as Hl. unfold canonical_tree. rewrite Hl. split_and!; [|done|done|].
  - apply (assign_codes_spec lens Hok lens [] [] (base lens <$> seq 0 16)); [by rewrite app_nil_r|].
    intros l Hlr. rewrite (min_code_lookup lens), cnt_nil, Z.add_0_r by lia. done.
  - intros i Hi. rewrite length_fmap, length_seq in Hi. by rewrite list_lookup_fmap, lookup_seq_lt by done.
Qed.

Lemma kraft_sum_zeros n : kraft_sum (replicate n 0) = 0.
Proof. unfold kraft_sum. induction n as [|n IH]; [done|]. cbn [replicate foldr]. by rewrite IH. Qed.

Lemma zeros_ok freq : 0 < Z.of_nat (length freq) <= 2 ^ 15 -> lens_ok (zeros freq).
Proof.
  intros Hl. assert (Hr : Forall (fun l => 0 <= l <= 15) (zeros freq)) by (apply Forall_replicate; lia).
  split; [done| |unfold zeros; by rewrite length_replicate].
  unfold kraft, zeros in *. by rewrite kraft_sum_base, kraft_sum_zeros by done.
Qed.

Lemma dealt_ok freq ls : dealt freq ls -> kraft_sum ls.*2 <= 2 ^ 15 -> 0 < Z.of_nat (length freq) <= 2 ^ 15 -> lens_ok (put ls (zeros freq)).
Proof.
  intros Hd Hk Hl. pose proof (dealt_range freq ls Hd) as Hr. pose proof (dealt_put freq ls Hd) as (_ & _ & Hp).
  split; [done| |by unfold zeros; rewrite length_put, length_replicate].
  unfold kraft. by rewrite kraft_sum_base, <- kraft_sum_filter, Hp by done.
Qed.

Lemma dealt_lookup freq ls i l : dealt freq ls -> put ls (zeros freq) !! i = Some l ->
  (l <> 0 <-> exists f, freq !! i = Some f /\ f <> 0).
Proof.
  intros Hd Hi. pose proof (dealt_put freq ls Hd) as (Hnd & Hr & _). destruct Hd as [Hp Hls].
  replace i with (Z.to_nat (Z.of_nat i)) in Hi by lia. destruct (decide (Z.of_nat i ∈ ls.*1)) as [Hin|Hnin].
  - pose proof Hin as Hused. rewrite Hp in Hused. apply used_symbols_elem in Hused as (j & f & Hj & Hf & Hfn).
    assert (i = j) as <- by lia. split; [intros _; by exists f|intros _].
    apply list_elem_of_fmap in Hin as ([s d] & Hs & Hin). cbn in Hs. rewrite Hs, (put_lookup ls s d) in Hi by done. injection Hi as <-.
    assert (d ∈ ls.*2) by (apply list_elem_of_fmap; by exists (s, d)).
    pose proof (proj1 (list.Forall_forall _ _) Hls d ltac:(done)) as Hd. cbn in Hd. lia.
  - rewrite put_lookup_ne in Hi by (lia || done || by eapply in_range_nonneg). apply lookup_replicate in Hi as [-> _].
    split; [done|]. intros (f & Hf & Hfn). destruct Hnin. rewrite Hp. apply used_symbols_elem. exists i, f. split; [lia|done].
Qed.

(** The lengths that a tree over the symbols that occur gives. *)
Definition lengths_spec (freq lens : list Z) : Prop :=
  lens_ok lens /\ length lens = length freq /\
  match used_symbols 0 freq with
  | [] => False
  | [_] => lens = zeros freq
  | _ => kraft_sum lens = 2 ^ 15 /\ forall i l, lens !! i = Some l -> (l <> 0 <-> exists f, freq !! i = Some f /\ f <> 0)
  end.

Lemma dealt_lengths freq ls : dealt freq ls -> kraft_sum ls.*2 = 2 ^ 15 -> 0 < Z.of_nat (length freq) <= 2 ^ 15 ->
  (2 <= length (used_symbols 0 freq))%nat -> lengths_spec freq (put ls (zeros freq)).
Proof.
  intros Hd Hk Hl Hu. split; [apply dealt_ok; [done|lia|done]|]. split; [unfold zeros; by rewrite length_put, length_replicate|].
  destruct (used_symbols 0 freq) as [|u1 [|u2 us]] eqn:Eu; [cbn in Hu; lia|cbn in Hu; lia|]. split.
  - pose proof (dealt_put freq ls Hd) as (_ & _ & Hp). by rewrite <- kraft_sum_filter, Hp.
  - intros i l Hi. by apply (dealt_lookup freq ls).
Qed.

Lemma root_lengths freq root : full root -> leaves root ≡ₚ (used_symbols 0 freq).*1 -> 0 < Z.of_nat (length freq) <= s_max_symbols ->
  exists count out lens, gather_lengths root (zeros freq) 0 = Ok (count, out) /\ count_used out (replicate (S s_max_bits) 0) = Ok (counts out) /\
    limit_lengths count freq (counts out) out = Ok (counts lens, lens) /\ lengths_spec freq lens.
Proof.
  intros Hf Hp Hlen. unfold s_max_symbols in Hlen. destruct (tree_size_leaves root Hf) as [Hsize _].
  pose proof (used_symbols_length freq 0) as Hul. pose proof (used_symbols_keys freq 0) as [Hkr Hnd].
  assert (Hll : length (leaves root) = length (used_symbols 0 freq)) by (apply Permutation_length in Hp; by rewrite length_fmap in Hp).
  assert (Hrange : Forall (in_range (length (zeros freq))) (leaves root)) by (unfold zeros; rewrite length_replicate, Hp; exact Hkr).
  rewrite (gather_lengths_spec root Hf (zeros freq) 0) by (done || lia). set (ls := clip (depths root 0)).
  assert (Hkeys : ls.*1 ≡ₚ (used_symbols 0 freq).*1) by (unfold ls; rewrite clip_keys, depths_keys by done; done).
  assert (Hlz : length (put ls (zeros freq)) = length freq) by (unfold zeros; by rewrite length_put, length_replicate).
  assert (Hused : forall out, Forall (fun l => 0 <= l <= 15) out -> length out = length freq -> count_used out (replicate (S s_max_bits) 0) = Ok (counts out)).
  { intros out Hr Hl. apply (count_used_spec out []); [done|cbn [app]; lia]. }
  destruct Hf as [s f|s f l r Hl Hr].
  - (* a single symbol *)
    assert (Hz : put ls (zeros freq) = zeros freq).
    { unfold ls. cbn [depths clip fmap list_fmap fst snd put foldl]. change (Z.min 0 15) with 0. apply list_insert_id.
      inversion_clear Hrange as [|? ? Hs _]. unfold in_range in Hs. unfold zeros in *. rewrite length_replicate in Hs. apply lookup_replicate. split; [done|lia]. }
    exists 0, (put ls (zeros freq)), (zeros freq). rewrite Hz. pose proof (zeros_ok freq ltac:(lia)) as Hok. split; [done|].
    split; [apply Hused; [apply (ok_range _ Hok)|by rewrite <- Hz]|]. split; [done|]. split; [done|]. split; [by rewrite <- Hz|].
    destruct (used_symbols 0 freq) as [|u1 [|u2 us]]; [done|done|cbn in Hll; lia].
  - (* a code *)
    destruct (clip_root s f l r Hl Hr) as (Hk & Hc15 & Hls). fold ls in Hk, Hc15, Hls.
    assert (Hd : dealt freq ls) by done. pose proof (dealt_put freq ls Hd) as (_ & _ & Hpn). pose proof (dealt_range freq ls Hd) as Hrng.
    assert (Hu : (2 <= length (used_symbols 0 freq))%nat).
    { rewrite <- Hll, leaves_join, length_app by done. destruct (tree_size_leaves l Hl), (tree_size_leaves r Hr). lia. }
    exists (over (Node s f l r) 0), (put ls (zeros freq)). set (r0 := kraft_sum ls.*2 - 2 ^ 15) in *.
    pose proof (over_range (Node s f l r) 0) as Hov. replace (over (Node s f l r) 0) with (2 * r0) in * by lia.
    assert (Hlls : length ls = length (used_symbols 0 freq)) by (apply Permutation_length in Hkeys; by rewrite !length_fmap in Hkeys).
    destruct (decide (r0 = 0)) as [Hr0|Hr0].
    + exists (put ls (zeros freq)). rewrite Hr0. split; [done|]. split; [by apply Hused|]. split; [done|].
      apply dealt_lengths; [done|lia|lia|done].
    + destruct (limit_lengths_spec freq ls r0 Hd) as (ls' & Hd' & Hk' & Hlim); [lia|lia|destruct ls; [cbn in Hlls; lia|done]| |].
      { destruct (counts_sums _ Hrng) as [Htot Hsp]. split; [done|done|apply counts_nonneg| | |].
        - rewrite Htot, Hpn, length_fmap. done.
        - rewrite Hsp, <- kraft_sum_filter, Hpn. lia.
        - rewrite counts_total, <- cnt_filter, Hpn by lia. change (Z.of_nat 15) with 15. lia. }
      exists (put ls' (zeros freq)). split; [done|]. split; [by apply Hused|]. split; [done|]. apply dealt_lengths; [done|done|lia|done].
Qed.

Lemma heap_of_leaves alloc freq m : used_symbols 0 freq <> [] ->
  exists nodes, Sort.make_heap comp 0 (length (leaf_forest (used_symbols 0 freq))) (leaf_forest (used_symbols 0 freq)) = Some nodes /\
    length nodes = length (used_symbols 0 freq) /\
    builds alloc (Z.of_nat (length nodes)) (join_nodes alloc (length nodes) nodes m) m
      (fun root size => full root /\ leaves root ≡ₚ (used_symbols 0 freq).*1 /\ size = tree_size root).
Proof.
  intros Hne. set (used := used_symbols 0 freq) in *. set (forest := leaf_forest used).
  destruct (Sort.make_heap_spec comp 0 (length forest) forest) as (nodes & Hmk & [Hp _] & Hh); [lia|lia|].
  pose proof (Permutation_length Hp) as Hl. assert (Hlf : length forest = length used) by apply length_fmap.
  assert (Hsz : forest_size nodes = Z.of_nat (length nodes)) by (rewrite <- Hl, Hlf, <- (forest_size_leaf_forest used); by apply forest_size_perm).
  assert (Hfl : forest_leaves forest = used.*1).
  { unfold forest_leaves, forest, leaf_forest. clear. induction used as [|u us IH]; [done|]. cbn. f_equal. exact IH. }
  assert (Hfull : Forall full nodes).
  { rewrite <- Hp. unfold forest, leaf_forest. apply list.Forall_forall. intros n Hn. apply list_elem_of_fmap in Hn as (p & -> & _). constructor. }
  exists nodes. split; [done|]. split; [lia|]. rewrite <- Hsz.
  pose proof (join_nodes_spec alloc (length nodes) nodes m) as Hj. unfold builds in *.
  rewrite Nat.sub_0_r, Hl in Hh. specialize (Hj Hh Hfull). pose proof (forest_leaves_perm _ _ Hp) as Hfp. rewrite Hfl in Hfp.
  assert (length used <> 0%nat) by (by intros ?%nil_length_inv).
  destruct (join_nodes alloc (length nodes) nodes m) as [[root|e|] m']; [rewrite Hfp|..]; (apply Hj; [intros ->; cbn in Hl; lia|lia]).
Qed.

(** Without any symbol. *)
Lemma default_tree freq : 0 < Z.of_nat (length freq) <= s_max_symbols -> used_symbols 0 freq = [] ->
  tree_spec freq (<[0%nat := mk_leaf 0 1]> (replicate (length freq) (mk_leaf 0 0))).
Proof.
  intros Hlen Hu. unfold s_max_symbols in Hlen. set (tree := <[0%nat := _]> _).
  assert (Hl : leaf_len <$> tree = <[0%nat := 1]> (zeros freq)) by (unfold tree; by rewrite list_fmap_insert, fmap_replicate).
  assert (Hz : zeros freq !! 0%nat = Some 0) by (apply lookup_replicate; split; [done|lia]).
  unfold tree_spec. rewrite Hu. split_and!; [unfold tree; by rewrite length_insert, length_replicate| |done].
  unfold canonical_tree. rewrite Hl. split.
  - pose proof (zeros_ok freq ltac:(lia)) as [Hr _ Hzl].
    assert (Hr' : Forall (fun l => 0 <= l <= 15) (<[0%nat := 1]> (zeros freq))) by (apply Forall_insert; [done|lia]).
    split; [done| |by rewrite length_insert]. unfold kraft. rewrite kraft_sum_base, <- kraft_sum_filter by done. rewrite (filter_insert_zero _ 0 1 Hz ltac:(done)).
    assert (Hk : kraft_sum (filter (fun x => x <> 0) (zeros freq)) = 0) by (unfold zeros; by rewrite kraft_sum_filter, kraft_sum_zeros).
    unfold kraft_sum in *. cbn [foldr]. rewrite Hk. done.
  - intros [|i] Hi; unfold tree, leaf_at.
    + rewrite !list_lookup_insert_eq by (unfold zeros; rewrite length_replicate; lia). done.
    + unfold tree in Hi. rewrite length_insert, length_replicate in Hi. rewrite !list_lookup_insert_ne by lia.
      unfold zeros. rewrite !lookup_replicate_2 by lia. done.
Qed.

Lemma create_huffman_tree_spec alloc freq m : 0 < Z.of_nat (length freq) <= s_max_symbols ->
  let '(r, m') := create_huffman_tree alloc freq m in
  live m' = live m /\
  match r with
  | Ok tree => tree_spec freq tree
  | Err e => e = ENOMEM /\ exists k, alloc k = false
  | Panic => False
  end.
Proof.
  intros Hlen. unfold create_huffman_tree, sbind, sassert, slift, sret. rewrite (proj2 (Z.leb_le _ _)) by lia.
  pose proof (leaf_nodes_spec alloc freq 0 [] m) as Hl. unfold builds in Hl. change (leaf_forest []) with (@nil node_t) in Hl.
  destruct (leaf_nodes alloc 0 freq [] m) as [[nodes|e|] m1]; [| |done]; cbn [length app] in Hl.
  2:{ destruct Hl as (-> & Hk & Hl). split; [lia|done]. }
  destruct Hl as [Hnodes Hl]. destruct nodes as [|n nodes].
  { rewrite (proj2 (Nat.ltb_lt _ _)) by lia. cbn in Hl. split; [lia|]. apply default_tree; [done|]. symmetry in Hnodes. by apply fmap_nil_inv in Hnodes. }
  assert (Hne : used_symbols 0 freq <> []) by (intros He; by rewrite He in Hnodes). rewrite Hnodes in *.
  destruct (heap_of_leaves alloc freq m1 Hne) as (heap & -> & Hlh & Hj). unfold builds in Hj. unfold leaf_forest in Hl. rewrite length_fmap in Hl.
  destruct (join_nodes alloc (length heap) heap m1) as [[root|e|] m2]; [| |done].
  2:{ destruct Hj as (-> & Hk & Hm). split; [lia|done]. }
  destruct Hj as (Hf & Hleaves & Hsize). destruct (root_lengths freq root Hf Hleaves Hlen) as (count & out & lens & Hg & Hc & Hlim & Hok & Hll & Hspec).
  fold (zeros freq). rewrite Hg, free_tree_spec, Hc, Hlim.
  destruct (assign_lens lens Hok) as (tree & -> & Ht & Hcan). cbn [live]. split; [lia|].
  split; [by rewrite <- Hll, <- Ht, length_fmap|]. split; [done|]. rewrite Ht.
  destruct (used_symbols 0 freq) as [|u1 [|u2 us]]; [done|done|]. destruct Hspec as [Hk Hlk]. split; [done|].
  intros i leaf Hi. apply Hlk. by rewrite <- Ht, list_lookup_fmap, Hi.
Qed.

(** C12: The compressor's Huffman codes.  For every table of
    frequencies of up to 288 symbols, of which two occur at least, and every
    behaviour of the allocator, the codes are built or memory has run out; no
    assertion fails, and every node of the tree is freed.  The codes are at most
    fifteen bits long and the ones that RFC 1951 assigns to their lengths, they
    are a complete prefix code, and exactly the symbols that occur have one. *)
Theorem huffman_codes_complete (alloc : nat -> bool) (freq : list Z) (m : memory)
  (Hlen : Z.of_nat (length freq) <= s_max_symbols) (Hused : (2 <= length (used_symbols 0 freq))%nat) :
  let '(r, m') := create_huffman_tree alloc freq m in
  live m' = live m /\
  ((r = Err ENOMEM /\ exists k, alloc k = false) \/
   exists tree, r = Ok tree /\ length tree = length freq /\ canonical_tree tree /\ kraft_sum (leaf_len <$> tree) = 2 ^ 15 /\
     forall i leaf, tree !! i = Some leaf -> (leaf_len leaf <> 0 <-> exists f, freq !! i = Some f /\ f <> 0)).
Proof.
  pose proof (used_symbols_length freq 0). pose proof (create_huffman_tree_spec alloc freq m ltac:(lia)) as Hs.
  destruct (create_huffman_tree alloc freq m) as [[tree|e|] m']; destruct Hs as [Hm Hs]; (split; [done|]); [right|left|done].
  - destruct Hs as (Hl & Hc & Hs). exists tree. split_and!; [done|done|done|..];
      (destruct (used_symbols 0 freq) as [|u1 [|u2 us]]; [cbn in Hused; lia|cbn in Hused; lia|apply Hs]).
  - destruct Hs as [-> Hk]. done.
Qed.

Lemma huffman_codes_complete_witness :
  let '(r, m') := create_huffman_tree (fun _ => true) [5; 0; 1; 1; 2] (mk_memory 0 0) in
  live m' = live (mk_memory 0 0) /\
  ((r = Err ENOMEM /\ exists k : nat, true = false) \/
   exists tree, r = Ok tree /\ length tree = length [5; 0; 1; 1; 2] /\ canonical_tree tree /\ kraft_sum (leaf_len <$> tree) = 2 ^ 15 /\
     forall i leaf, tree !! i = Some leaf -> (leaf_len leaf <> 0 <-> exists f, [5; 0; 1; 1; 2] !! i = Some f /\ f <> 0)).
Proof. apply (huffman_codes_complete (fun _ => true) [5; 0; 1; 1; 2] (mk_memory 0 0)); vm_compute; [done|lia]. Defined.
