(* ===== verification/DeflateMatch.v ===== *)
(** * LibDEFLATE: the matches of the compressor

    The entries that [lz77_compress] finds stand for the data: replacing each
    match by the bytes it refers to gives the data back. *)
From stdpp Require Import gmap.
From S2P Require Import Prelude BanMath BanSort BitStream Huffman Inflate InflateCorrect Deflate.

(** What entries stand for, after [hist]. *)
Fixpoint expands (hist : list Z) (entries : list LZ77Entry) (final : list Z) : Prop :=
  match entries with
  | [] => hist = final
  | Literal b :: entries' => byte b /\ expands (hist ++ [b]) entries' final
  | DistLength len dist :: entries' =>
      3 <= len <= s_max_length /\ 1 <= dist <= s_max_distance /\ dist <= Z.of_nat (length hist) /\
      expands (lz_copy (Z.to_nat len) dist hist) entries' final
  end.

Lemma expands_app es1 : forall hist es2 mid final, expands hist es1 mid -> expands mid es2 final -> expands hist (es1 ++ es2) final.
Proof.
  induction es1 as [|[b|len dist] es1 IH]; intros hist es2 mid final H1 H2; cbn [expands app] in *; [by subst| |].
  - destruct H1 as [Hb H1]. split; [done|]. by eapply IH.
  - destruct H1 as (Hl & Hd & Hh & H1). split_and!; [lia|lia|lia|lia|lia|]. by eapply IH.
Qed.

Section matches.
Context (buffer : list Z) (Hbytes : Forall byte buffer).
Let n := Z.of_nat (length buffer).

Definition at_pos (i : Z) : option Z := buffer !! Z.to_nat i.

(** The [len] bytes at [i] are those [dist] bytes before. *)
Definition matches (i len dist : Z) : Prop :=
  3 <= len <= s_max_length /\ i + len <= n /\ 1 <= dist <= s_max_distance /\ dist <= i /\
  forall k, 0 <= k < len -> at_pos (i + k) = at_pos (i - dist + k).

Lemma lz_copy_firstn dist k : forall i, 1 <= dist <= Z.of_nat i -> (i + k <= length buffer)%nat ->
  (forall j, (j < k)%nat -> buffer !! (i + j)%nat = buffer !! (i + j - Z.to_nat dist)%nat) ->
  lz_copy k dist (firstn i buffer) = firstn (i + k) buffer.
Proof.
  induction k as [|k IH]; intros i Hd Hn Heq; cbn [lz_copy]; [by rewrite Nat.add_0_r|].
  rewrite length_take, Nat.min_l, lookup_take_lt by lia.
  destruct (lookup_lt_is_Some_2 buffer i ltac:(lia)) as [b Hb]. pose proof (Heq 0%nat ltac:(lia)) as H0. rewrite Nat.add_0_r, Hb in H0.
  rewrite <- H0. change (option_list (Some b)) with [b]. rewrite <- take_S_r by done. rewrite IH; [f_equal; lia|lia|lia|].
  intros j Hj. specialize (Heq (S j) ltac:(lia)). by replace (i + S j)%nat with (S i + j)%nat in Heq by lia.
Qed.

Lemma matches_copy i len dist : 0 <= i -> matches i len dist ->
  lz_copy (Z.to_nat len) dist (firstn (Z.to_nat i) buffer) = firstn (Z.to_nat (i + len)) buffer.
Proof.
  intros Hi (Hlen & Hn & Hd & Hdi & Heq). unfold n, at_pos in *. rewrite lz_copy_firstn; [f_equal; lia|lia|lia|].
  intros j Hj. specialize (Heq (Z.of_nat j) ltac:(lia)).
  replace (Z.to_nat (i + Z.of_nat j)) with (Z.to_nat i + j)%nat in Heq by lia.
  by replace (Z.to_nat (i - dist + Z.of_nat j)) with (Z.to_nat i + j - Z.to_nat dist)%nat in Heq by lia.
Qed.

(** ** Keys *)
(** The span from [i] to the end of the buffer. *)
Definition tail (i : Z) : Span := mk_span i (n - i).

Lemma at_pos_byte i b : at_pos i = Some b -> byte b.
Proof. intros Hi. exact (proj1 (list.Forall_lookup _ _) Hbytes _ _ Hi). Qed.

Lemma at_tail i k : 0 <= i -> 0 <= k -> i + k < n -> exists b, at_index buffer (tail i) k = Ok b /\ at_pos (i + k) = Some b.
Proof.
  intros Hi Hk Hn. unfold at_index, tail, at_pos. cbn [span_data span_size]. rewrite (proj2 (Z.ltb_lt _ _)) by lia.
  destruct (lookup_lt_is_Some_2 buffer (Z.to_nat (i + k)) ltac:(unfold n in Hn; lia)) as [b ->]. by exists b.
Qed.

Definition key_of (b0 b1 b2 : Z) : Z := (b2 * 2 ^ 8 + b1) * 2 ^ 8 + b0.

Lemma key_of_inj a0 a1 a2 b0 b1 b2 : byte a0 -> byte a1 -> byte b0 -> byte b1 ->
  key_of a0 a1 a2 = key_of b0 b1 b2 -> a0 = b0 /\ a1 = b1 /\ a2 = b2.
Proof. unfold byte, key_of. lia. Qed.

Lemma get_hash_key_spec i : 0 <= i -> i + 3 <= n ->
  exists b0 b1 b2, get_hash_key buffer (tail i) = Ok (key_of b0 b1 b2) /\
    at_pos i = Some b0 /\ at_pos (i + 1) = Some b1 /\ at_pos (i + 2) = Some b2.
Proof.
  intros Hi Hn. unfold get_hash_key. rewrite (proj2 (Z.leb_le _ _)) by (cbn; lia).
  destruct (at_tail i 2 Hi ltac:(lia) ltac:(lia)) as (b2 & -> & H2). destruct (at_tail i 1 Hi ltac:(lia) ltac:(lia)) as (b1 & -> & H1).
  destruct (at_tail i 0 Hi ltac:(lia) ltac:(lia)) as (b0 & -> & H0). rewrite Z.add_0_r in H0.
  exists b0, b1, b2. split_and!; [|done|done|done]. f_equal.
  pose proof (at_pos_byte _ _ H0) as B0. pose proof (at_pos_byte _ _ H1) as B1. unfold byte in *.
  assert (Hs : Z.shiftl b1 8 = b1 * 2 ^ 8) by (by rewrite Z.shiftl_mul_pow2 by lia).
  rewrite (lor_shiftl_add b2 (Z.shiftl b1 8) 16) by lia. rewrite Hs.
  replace (b2 * 2 ^ 16 + b1 * 2 ^ 8) with (Z.shiftl (b2 * 2 ^ 8 + b1) 8) by (rewrite Z.shiftl_mul_pow2 by lia; lia).
  by rewrite lor_shiftl_add by lia.
Qed.

(** ** Chains *)
(** The chains hold positions before [bound], under the keys of their bytes. *)
Definition chains_ok (chains : gmap Z (list Span)) (bound : Z) : Prop :=
  map_Forall (fun key chain => Forall (fun node => exists p, node = tail p /\ 0 <= p < bound /\ p + 3 <= n /\ get_hash_key buffer node = Ok key) chain) chains.

Lemma chains_ok_weaken chains bound bound' : bound <= bound' -> chains_ok chains bound -> chains_ok chains bound'.
Proof.
  intros Hb Hc key chain Hk. eapply list.Forall_impl; [exact (Hc key chain Hk)|]. intros node (p & -> & Hp & H). exists p. split_and!; [done|lia|lia|apply H..].
Qed.

Lemma prune_chain_elem current chain : Forall (fun node => node ∈ chain) (prune_chain current chain).
Proof.
  induction chain as [|node chain IH]; cbn [prune_chain]; [constructor|]. case_if; [|constructor]. constructor; [by left|].
  eapply list.Forall_impl; [exact IH|]. intros x Hx. by right.
Qed.

Lemma chains_ok_prune chains bound current : chains_ok chains bound -> chains_ok (prune_chain current <$> chains) bound.
Proof.
  intros Hc key chain Hk. apply lookup_fmap_Some in Hk as (chain' & <- & Hk'). specialize (Hc key chain' Hk').
  eapply list.Forall_impl; [apply prune_chain_elem|]. intros node Hn. exact (proj1 (list.Forall_forall _ _) Hc node Hn).
Qed.

Lemma add_positions_spec k : forall index chains, 0 <= index -> index + Z.of_nat k <= n -> chains_ok chains index ->
  exists chains', add_positions k index buffer (tail 0) chains = Ok chains' /\ chains_ok chains' (index + Z.of_nat k).
Proof.
  induction k as [|k IH]; intros index chains Hi Hn Hc; cbn [add_positions].
  { exists chains. by rewrite Z.add_0_r. }
  assert (Hsl : slice (tail 0) index = Ok (tail index)).
  { unfold slice, tail. cbn [span_size span_data]. rewrite (proj2 (Z.leb_le _ _)) by lia. do 2 f_equal; lia. }
  rewrite Hsl. cbn [span_size tail]. case_if; zify_bool.
  { exists chains. split; [done|]. by apply (chains_ok_weaken _ index); [lia|]. }
  destruct (get_hash_key_spec index Hi ltac:(lia)) as (b0 & b1 & b2 & Hkey & _). rewrite Hkey. set (key := key_of b0 b1 b2) in *.
  set (chain := match chains !! key with Some chain => _ | None => _ end).
  destruct (IH (index + 1) (<[key := chain]> chains)) as (chains' & -> & Hc'); [lia|lia| |].
  - intros key' chain' Hk'. apply lookup_insert_Some in Hk' as [[<- <-]|[Hne Hk']]; [|by apply (chains_ok_weaken chains index (index + 1) ltac:(lia) Hc)].
    assert (Hnew : exists p, tail index = tail p /\ 0 <= p < index + 1 /\ p + 3 <= n /\ get_hash_key buffer (tail index) = Ok key).
    { exists index. split_and!; [done|lia|lia|lia|done]. }
    unfold chain. destruct (chains !! key) as [old|] eqn:Ho; constructor; [done| |done|constructor].
    apply (chains_ok_weaken chains index (index + 1) ltac:(lia) Hc key old Ho).
  - exists chains'. split; [done|]. by replace (index + Z.of_nat (S k)) with (index + 1 + Z.of_nat k) by lia.
Qed.

(** ** Searching *)
Lemma match_length_spec i p k : forall len, 0 <= p < i -> 0 <= len -> i + len + Z.of_nat k <= n ->
  (forall j, 0 <= j < len -> at_pos (i + j) = at_pos (p + j)) ->
  exists len', match_length k buffer (tail i) (tail p) len = Ok len' /\ len <= len' <= len + Z.of_nat k /\
    forall j, 0 <= j < len' -> at_pos (i + j) = at_pos (p + j).
Proof.
  induction k as [|k IH]; intros len Hp Hl Hn Heq; cbn [match_length].
  { exists len. split_and!; [done|lia|lia|done]. }
  destruct (at_tail i len ltac:(lia) Hl ltac:(lia)) as (a & -> & Ha). destruct (at_tail p len ltac:(lia) Hl ltac:(lia)) as (b & -> & Hb).
  destruct (Z.eqb_spec a b) as [->|Hne]; [|exists len; split_and!; [done|lia|lia|done]].
  destruct (IH (len + 1)) as (len' & -> & Hr & Heq'); [lia|lia|lia| |exists len'; split_and!; [done|lia|lia|done]].
  intros j Hj. destruct (decide (j = len)) as [->|]; [by rewrite Ha, Hb|apply Heq; lia].
Qed.

Definition found (i : Z) (e : LZ77Entry) : Prop :=
  match e with Literal b => at_pos i = Some b | DistLength len dist => matches i len dist end.

Context (Hsize : n < 2 ^ 64).

Lemma search_chain_spec i key chain : forall result,
  0 <= i -> i + 3 <= n -> get_hash_key buffer (tail i) = Ok key ->
  Forall (fun node => exists p, node = tail p /\ 0 <= p < i /\ p + 3 <= n /\ get_hash_key buffer node = Ok key) chain ->
  found i result -> exists e, search_chain buffer (tail i) chain result = Ok e /\ found i e.
Proof.
  induction chain as [|node chain IH]; intros result Hi Hn Hkey Hc Hf; cbn [search_chain]; [by exists result|].
  inversion_clear Hc as [|? ? (p & -> & Hp & Hpn & Hpk) Hc']. cbn [span_data span_size tail].
  rewrite wrap_id by lia. case_if; zify_bool; [by exists result|]. rewrite Math.min_spec. set (m := Z.min (n - i) s_max_length).
  assert (Hm : 3 <= m <= n - i /\ m <= s_max_length) by (unfold m, s_max_length; lia).
  assert (H3 : forall j, 0 <= j < 3 -> at_pos (i + j) = at_pos (p + j)).
  { destruct (get_hash_key_spec i Hi Hn) as (a0 & a1 & a2 & Ha & A0 & A1 & A2).
    destruct (get_hash_key_spec p ltac:(lia) Hpn) as (b0 & b1 & b2 & Hb & B0 & B1 & B2).
    assert (He : key_of a0 a1 a2 = key_of b0 b1 b2) by congruence.
    apply key_of_inj in He as (-> & -> & ->); [|by eapply at_pos_byte..].
    intros j Hj. assert (j = 0 \/ j = 1 \/ j = 2) as [->|[->| ->]] by lia; rewrite ?Z.add_0_r; congruence. }
  destruct (match_length_spec i p (Z.to_nat (m - 3)) 3) as (len & Hlen & Hr & Heq); [lia|lia|lia|done|].
  rewrite Hlen. apply IH; [done|done|done|done|].
  assert (Hmatch : matches i (u16 len) (u16 (i - p))).
  { unfold matches, s_max_length, s_max_distance in *. rewrite !wrap_id by lia. split_and!; [lia|lia|lia|lia|lia|lia|].
    intros k Hk. replace (i - (i - p) + k) with (p + k) by lia. by apply Heq. }
  destruct result as [b'|l' d']; [done|]. by case_if.
Qed.

Lemma find_longest_match_spec c i bound : c_buffer c = buffer -> chains_ok (c_hash_chain c) bound -> bound <= i -> 0 <= i < n ->
  exists e, find_longest_match c (tail i) = Ok e /\ found i e.
Proof.
  intros Hb Hc Hbi Hi. unfold find_longest_match. rewrite Hb.
  destruct (at_tail i 0 ltac:(lia) ltac:(lia) ltac:(lia)) as (b & -> & H0). rewrite Z.add_0_r in H0. cbn [span_size tail].
  case_if; zify_bool; [by exists (Literal b)|]. destruct (get_hash_key_spec i ltac:(lia) ltac:(lia)) as (b0 & b1 & b2 & Hkey & _).
  rewrite Hkey. destruct (c_hash_chain c !! key_of b0 b1 b2) as [chain|] eqn:Hch; [|by exists (Literal b)].
  apply (search_chain_spec i (key_of b0 b1 b2) chain (Literal b)); [lia|lia|done| |done].
  exact (chains_ok_weaken _ _ _ Hbi Hc _ _ Hch).
Qed.

Lemma slice_tail i : 0 <= i <= n -> slice (tail 0) i = Ok (tail i).
Proof. intros Hi. unfold slice, tail. cbn [span_size span_data]. rewrite (proj2 (Z.leb_le _ _)) by lia. do 2 f_equal; lia. Qed.

Lemma next_entries_spec c i : c_buffer c = buffer -> chains_ok (c_hash_chain c) i -> 0 <= i < n ->
  exists entries advance, next_entries c (tail 0) i = Ok (entries, advance) /\ 1 <= advance /\ i + advance <= n /\
    expands (firstn (Z.to_nat i) buffer) entries (firstn (Z.to_nat (i + advance)) buffer).
Proof.
  intros Hb Hc Hi. unfold next_entries. rewrite slice_tail by lia.
  destruct (find_longest_match_spec c i i Hb Hc ltac:(lia) Hi) as (e & -> & Hf).
  assert (Hstep : forall b, at_pos i = Some b -> firstn (Z.to_nat i) buffer ++ [b] = firstn (Z.to_nat (i + 1)) buffer).
  { intros b H. unfold at_pos in H. replace (Z.to_nat (i + 1)) with (S (Z.to_nat i)) by lia. by rewrite (take_S_r _ _ b). }
  assert (Hcopy : forall j len dist, 0 <= j -> matches j len dist ->
    expands (firstn (Z.to_nat j) buffer) [DistLength len dist] (firstn (Z.to_nat (j + len)) buffer)).
  { intros j len dist Hj Hm. cbn [expands]. rewrite matches_copy by done. destruct Hm as (Hl & Hln & Hd & Hdj & _).
    rewrite length_take. unfold n in *. split_and!; [lia|lia|lia|lia|lia|done]. }
  destruct e as [b|len dist]; cbn [found] in Hf.
  { exists [Literal b], 1. split_and!; [done|lia|lia|]. cbn [expands]. split; [by eapply at_pos_byte|by apply Hstep]. }
  pose proof Hf as (Hl & Hln & _). rewrite slice_tail by lia.
  destruct (find_longest_match_spec c (i + 1) i Hb Hc ltac:(lia) ltac:(lia)) as (e & -> & Hf').
  assert (Hthis : exists entries advance, Ok ([DistLength len dist], len) = Ok (entries, advance) /\ 1 <= advance /\ i + advance <= n /\
    expands (firstn (Z.to_nat i) buffer) entries (firstn (Z.to_nat (i + advance)) buffer)).
  { exists [DistLength len dist], len. split_and!; [done|lia|lia|by apply Hcopy; [lia|]]. }
  destruct e as [b|llen ldist]; [done|]. case_if; [|done]. cbn [found] in Hf'. pose proof Hf' as (Hll & Hlln & _).
  destruct (at_tail 0 i ltac:(lia) ltac:(lia) ltac:(lia)) as (b & Hat & Hpos). rewrite Hb, Hat. cbn [Z.add] in Hpos.
  exists [Literal b; DistLength llen ldist], (1 + llen). split_and!; [done|lia|lia|].
  apply (expands_app [Literal b] _ _ (firstn (Z.to_nat (i + 1)) buffer)).
  - cbn [expands]. split; [by eapply at_pos_byte|by apply Hstep].
  - rewrite Z.add_assoc. by apply Hcopy; [lia|].
Qed.

(** ** The loop *)
(** The compressor while it looks for matches: only the chains change. *)
Definition same_but_chains (c c' : Compressor) : Prop := exists index chains, c' = set_chain c index chains.

Lemma lz77_loop_spec fuel : forall c i advance result,
  c_buffer c = buffer -> c_data c = tail 0 -> c_hash_chain_index c = i - advance -> 0 <= advance <= i ->
  chains_ok (c_hash_chain c) (i - advance) -> i <= n -> n - i <= Z.of_nat fuel ->
  expands [] result (firstn (Z.to_nat i) buffer) ->
  exists entries c', lz77_loop fuel (tail 0) i advance result c = (Ok entries, c') /\ same_but_chains c c' /\ expands [] entries buffer.
Proof.
  induction fuel as [|fuel IH]; intros c i advance result Hb Hd Hix Ha Hc Hi Hf He; cbn [lz77_loop span_size tail].
  { rewrite (proj2 (Z.ltb_ge _ _)) by lia. exists result, c. split; [done|]. split; [exists (c_hash_chain_index c), (c_hash_chain c); by destruct c|].
    rewrite firstn_all2 in He by (unfold n in *; lia). done. }
  case_if; zify_bool.
  2:{ exists result, c. split; [done|]. split; [exists (c_hash_chain_index c), (c_hash_chain c); by destruct c|].
      rewrite firstn_all2 in He by (unfold n in *; lia). done. }
  unfold sbind at 1, update_hash_chain. set (chains := if _ <=? _ then _ else _).
  assert (Hc1 : chains_ok chains (i - advance)) by (unfold chains; case_if; [by apply chains_ok_prune|done]).
  destruct (add_positions_spec (Z.to_nat advance) (i - advance) chains) as (chains' & Hadd & Hc2); [lia|lia|done|].
  rewrite Hix, Hb, Hd, Hadd. rewrite Z2Nat.id, Z.sub_add in Hc2 by lia. rewrite Z.sub_add, wrap_id by lia.
  unfold sbind, sget, slift. set (c1 := set_chain c i chains').
  destruct (next_entries_spec c1 i Hb Hc2 ltac:(lia)) as (entries & adv & -> & Hadv & Hin & Hexp).
  destruct (IH c1 (i + adv) adv (result ++ entries)) as (all & c' & -> & (index & ch & ->) & Hall); [done|done|cbn; lia|lia| |lia|lia| |].
  - by rewrite Z.add_simpl_r.
  - by eapply expands_app.
  - exists all, (set_chain c1 index ch). split_and!; [done|by exists index, ch|done].
Qed.
End matches.

(** Finding matches loses nothing: the entries for data that is compressed in
    one piece stand for the data. *)
Lemma lz77_compress_spec c buffer : Forall byte buffer -> Z.of_nat (length buffer) < 2 ^ 64 ->
  c_buffer c = buffer -> c_data c = mk_span 0 (Z.of_nat (length buffer)) -> c_hash_chain_index c = 0 -> c_hash_chain c = ∅ ->
  exists entries c', lz77_compress (c_data c) c = (Ok entries, c') /\ same_but_chains c c' /\ expands [] entries buffer.
Proof.
  intros Hbytes Hsize Hb Hd Hix Hch. unfold lz77_compress. rewrite Hd. replace (mk_span 0 (Z.of_nat (length buffer))) with (tail buffer 0) in * by (unfold tail; by rewrite Z.sub_0_r).
  apply (lz77_loop_spec buffer Hbytes Hsize); [done|done|done|lia| |lia|cbn; lia|done].
  rewrite Hch. intros key chain Hk. by rewrite lookup_empty in Hk.
Qed.
