(* ===== verification/DeflateLengths.v ===== *)
(** * LibDEFLATE: the run-length code of the code lengths

    The encoding that [build_code_length_info] makes of the two trees stands
    for their code lengths, in the sense in which the decompressor reads them
    back. *)
From S2P Require Import Prelude BanMath BitStream Huffman Inflate InflateCorrect Deflate DeflateTree.

(** ** What an encoding stands for *)
Definition encoding_ok (e : Encoding) : Prop :=
  (0 <= e_symbol e <= 15 /\ e_data e = 0 /\ e_len e = 0) \/ (e_symbol e = 16 /\ 0 <= e_data e < 4 /\ e_len e = 2) \/
  (e_symbol e = 17 /\ 0 <= e_data e < 8 /\ e_len e = 3) \/ (e_symbol e = 18 /\ 0 <= e_data e < 128 /\ e_len e = 7).

(** The length it stands for after [last], and how many times. *)
Definition run_of (last : Z) (e : Encoding) : Z * Z :=
  if e_symbol e <=? 15 then (e_symbol e, 1) else if e_symbol e =? 16 then (last, e_data e + 3)
  else if e_symbol e =? 17 then (0, e_data e + 3) else (0, e_data e + 11).

Fixpoint decode_runs (last : Z) (es : list Encoding) : list Z :=
  match es with
  | [] => []
  | e :: es' => let '(len, count) := run_of last e in replicate (Z.to_nat count) len ++ decode_runs len es'
  end.

Fixpoint last_length (last : Z) (es : list Encoding) : Z :=
  match es with [] => last | e :: es' => last_length (run_of last e).1 es' end.

Lemma decode_runs_app last es es' : decode_runs last (es ++ es') = decode_runs last es ++ decode_runs (last_length last es) es'.
Proof.
  revert last. induction es as [|e es IH]; intros last; [done|]. cbn [app decode_runs last_length].
  destruct (run_of last e) as [len count]. cbn [fst]. by rewrite IH, app_assoc.
Qed.

Lemma last_length_app last es es' : last_length last (es ++ es') = last_length (last_length last es) es'.
Proof. revert last. induction es as [|e es IH]; intros last; [done|]. apply IH. Qed.

(** When the last encoding is a length, it is the length the decoder repeats. *)
Lemma last_length_literal last es e : list.last es = Some e -> e_symbol e <= 15 -> last_length last es = e_symbol e.
Proof.
  intros Hl He. apply last_Some in Hl as (es' & ->). rewrite last_length_app. cbn [last_length]. unfold run_of.
  by rewrite (proj2 (Z.leb_le _ _)) by done.
Qed.

(** ** Runs *)
Lemma run_length_spec len tree : (run_length len tree <= length tree)%nat /\ leaf_len <$> firstn (run_length len tree) tree = replicate (run_length len tree) len.
Proof.
  induction tree as [|leaf tree [IHl IHr]]; [done|]. cbn [run_length]. destruct (Z.eqb_spec (leaf_len leaf) len) as [He|]; [|by split; [cbn; lia|]].
  cbn [length firstn fmap list_fmap replicate]. split; [lia|]. by rewrite He, IHr.
Qed.

Lemma encode_run_spec last len count encoding : 0 <= len <= 15 -> (1 <= count)%nat ->
  last_length 0 encoding = last ->
  let '(taken, es) := encode_run len count encoding in
  (1 <= taken <= count)%nat /\ Forall encoding_ok es /\ decode_runs last es = replicate taken len.
Proof.
  intros Hlen Hc Hlast. unfold encode_run. destruct (Z.eqb_spec len 0) as [->|Hne].
  - set (k := Nat.min count 138). assert (Hk : (1 <= k <= 138)%nat /\ (k <= count)%nat) by lia.
    destruct (Nat.ltb_spec k 3) as [H3|H3]; [|destruct (Nat.ltb_spec k 11) as [H11|H11]].
    + split; [lia|]. split; [apply Forall_replicate; left; split_and!; done|].
      assert (Hd : forall j last, decode_runs last (replicate j (mk_encoding 0 0 0)) = replicate j 0).
      { induction j as [|j IH]; intros last'; [done|]. cbn [replicate decode_runs]. change (run_of last' (mk_encoding 0 0 0)) with (0, 1). cbn iota beta. by rewrite IH. }
      apply Hd.
    + rewrite wrap_id by lia. split; [lia|]. split; [constructor; [right; right; left; cbn; lia|constructor]|].
      cbn [decode_runs]. change (run_of last (mk_encoding 17 (Z.of_nat k - 3) 3)) with (0, Z.of_nat k - 3 + 3). cbn iota beta.
      rewrite app_nil_r. f_equal. lia.
    + rewrite wrap_id by lia. split; [lia|]. split; [constructor; [right; right; right; cbn; lia|constructor]|].
      cbn [decode_runs]. change (run_of last (mk_encoding 18 (Z.of_nat k - 11) 7)) with (0, Z.of_nat k - 11 + 11). cbn iota beta.
      rewrite app_nil_r. f_equal. lia.
  - destruct ((3 <=? count)%nat && _) eqn:E.
    + zify_bool. destruct E as [H3 Hrep]. destruct (list.last encoding) as [e|] eqn:He; [|done]. apply Z.eqb_eq in Hrep.
      rewrite (last_length_literal 0 encoding e He) in Hlast by lia.
      set (k := Nat.min count 6). assert (Hk : (3 <= k <= 6)%nat /\ (k <= count)%nat) by lia. rewrite wrap_id by lia.
      split; [lia|]. split; [constructor; [right; left; cbn; lia|constructor]|].
      cbn [decode_runs]. change (run_of last (mk_encoding 16 (Z.of_nat k - 3) 2)) with (last, Z.of_nat k - 3 + 3). cbn iota beta.
      rewrite app_nil_r. f_equal; [lia|]. congruence.
    + split; [lia|]. split; [constructor; [left; cbn; lia|constructor]|]. cbn [decode_runs].
      unfold run_of. cbn [e_symbol]. rewrite (proj2 (Z.leb_le _ _)) by lia. done.
Qed.

Lemma append_runs_spec fuel : forall tree encoding, (length tree <= fuel)%nat -> Forall (fun l => 0 <= l <= 15) (leaf_len <$> tree) ->
  exists es, append_runs fuel tree encoding = encoding ++ es /\ Forall encoding_ok es /\
    decode_runs (last_length 0 encoding) es = leaf_len <$> tree.
Proof.
  induction fuel as [|fuel IH]; intros tree encoding Hf Hr.
  { destruct tree; [|cbn in Hf; lia]. exists []. by rewrite app_nil_r. }
  destruct tree as [|leaf tree]; [exists []; by rewrite app_nil_r|]. cbn [append_runs].
  cbn [fmap list_fmap] in Hr. inversion_clear Hr as [|? ? Hl Hr'].
  pose proof (encode_run_spec (last_length 0 encoding) (leaf_len leaf) (S (run_length (leaf_len leaf) tree)) encoding Hl ltac:(lia) eq_refl) as He.
  destruct (encode_run _ _ _) as [count es]. destruct He as (Hc & Hok & Hd).
  destruct (run_length_spec (leaf_len leaf) tree) as [Hrl Hrun].
  destruct (IH (skipn count (leaf :: tree)) (encoding ++ es)) as (es' & -> & Hok' & Hd').
  - rewrite length_skipn. cbn [length] in *. lia.
  - rewrite fmap_drop. apply Forall_drop. cbn [fmap list_fmap]. by constructor.
  - exists (es ++ es'). rewrite app_assoc. split; [done|]. split; [by apply Forall_app|].
    rewrite last_length_app in Hd'. rewrite decode_runs_app, Hd, Hd', fmap_drop.
    rewrite <- (take_drop count (leaf_len <$> leaf :: tree)) at 2. f_equal.
    assert (Hall : firstn (S (run_length (leaf_len leaf) tree)) (leaf_len <$> leaf :: tree) = replicate (S (run_length (leaf_len leaf) tree)) (leaf_len leaf)).
    { cbn [fmap list_fmap firstn replicate]. rewrite <- fmap_take. f_equal. exact Hrun. }
    rewrite <- (Nat.min_l count (S (run_length (leaf_len leaf) tree))) at 2 by lia. rewrite <- take_take, Hall, take_replicate. f_equal. lia.
Qed.

(** ** Trees without their tail *)
Lemma trim_spec k : forall tree, (length tree <= k)%nat ->
  exists cut, tree = trim k tree ++ cut /\ Forall (fun leaf => leaf_len leaf = 0) cut /\
    forall leaf, list.last (trim k tree) = Some leaf -> leaf_len leaf <> 0.
Proof.
  induction k as [|k IH]; intros tree Hk; cbn [trim].
  { destruct tree; [|cbn in Hk; lia]. exists []. by split_and!. }
  destruct (list.last tree) as [leaf|] eqn:Hl.
  2:{ apply last_None in Hl as ->. exists []. by split_and!. }
  case_if; zify_bool.
  - pose proof Hl as Hl'. apply last_Some in Hl' as (init & Ht). rewrite Ht, length_app. cbn [length]. rewrite Nat.add_sub, take_app_length.
    destruct (IH init) as (cut & Hinit & Hcut & Hlast); [rewrite Ht, length_app in Hk; cbn in Hk; lia|].
    exists (cut ++ [leaf]). split_and!; [by rewrite app_assoc, <- Hinit| |done]. apply Forall_app. split; [done|]. by constructor.
  - exists []. rewrite app_nil_r. split_and!; [done|constructor|]. by rewrite Hl; intros ? [= <-].
Qed.

(** Codes do not depend on symbols without a code at the end. *)
Lemma cnt_cut l lens k : l <> 0 -> cnt l (lens ++ replicate k 0) = cnt l lens.
Proof. intros Hl. rewrite cnt_app, cnt_replicate, decide_False by done. lia. Qed.

Lemma base_cut lens k n : base (lens ++ replicate k 0) n = base lens n.
Proof.
  induction n as [|n IH]; [done|]. cbn [base]. rewrite IH. destruct n as [|n]; [done|]. by rewrite cnt_cut by lia.
Qed.

Lemma lens_ok_cut lens k : lens <> [] -> lens_ok (lens ++ replicate k 0) -> lens_ok lens.
Proof.
  intros Hne [Hr Hk Hl]. apply list.Forall_app in Hr as [Hr _]. unfold kraft in *. rewrite base_cut, cnt_cut in Hk by done.
  split; [done|done|]. rewrite length_app in Hl. destruct lens; [done|]. cbn [length] in *. lia.
Qed.

Lemma canonical_bits_cut lens k i l : (i < length lens)%nat -> l <> 0 -> canonical_bits (lens ++ replicate k 0) i l = canonical_bits lens i l.
Proof. intros Hi Hl. unfold canonical_bits, code_of. by rewrite base_cut, take_app_le by lia. Qed.

(** ** Reading the encoding back *)
(** The bits of an encoding, with the codes of the code length code. *)
Definition encoding_bits (cl : list Z) (e : Encoding) : list bool :=
  canonical_bits cl (Z.to_nat (e_symbol e)) (cl !!! Z.to_nat (e_symbol e)) ++ bits_of (Z.to_nat (e_len e)) (e_data e).

Definition has_code (cl : list Z) (s : Z) : Prop := exists l, cl !! Z.to_nat s = Some l /\ l <> 0.

Lemma length_symbol_encoding cl last e rest : lens_ok cl -> encoding_ok e -> has_code cl (e_symbol e) ->
  length_symbol cl last (encoding_bits cl e ++ rest) (run_of last e).1 (run_of last e).2 rest /\ 1 <= (run_of last e).2.
Proof.
  intros Hcl He (l & Hl & Hnz). unfold encoding_bits. rewrite (list_lookup_total_correct _ _ _ Hl).
  set (i := Z.to_nat (e_symbol e)) in *. set (ext := bits_of (Z.to_nat (e_len e)) (e_data e)). rewrite <- app_assoc.
  destruct (decodes_canonical cl Hcl (canonical_bits cl i l ++ ext ++ rest) i l (ext ++ rest) Hl Hnz eq_refl) as [Hdec Hdrop].
  unfold length_symbol, run_of.
  destruct He as [(Hs & Hd & Hn)|[(Hs & Hd & Hn)|[(Hs & Hd & Hn)|(Hs & Hd & Hn)]]].
  - rewrite (proj2 (Z.leb_le _ _)) by lia. cbn [fst snd]. split; [|lia]. exists i, l, (ext ++ rest). split; [done|]. split; [done|]. left.
    split_and!; [lia|lia|done|]. unfold ext. by rewrite Hn.
  - rewrite Hs. change (16 <=? 15) with false. change (16 =? 16) with true. cbn iota. cbn [fst snd]. split; [|lia].
    exists i, l, (ext ++ rest). split; [done|]. split; [done|]. right; left. split_and!; [unfold i; lia|done|]. exists (e_data e). split; [done|].
    unfold ext. rewrite Hn. split; [done|lia].
  - rewrite Hs. change (17 <=? 15) with false. change (17 =? 16) with false. change (17 =? 17) with true. cbn iota. cbn [fst snd]. split; [|lia].
    exists i, l, (ext ++ rest). split; [done|]. split; [done|]. right; right; left. split_and!; [unfold i; lia|done|]. exists (e_data e). split; [done|].
    unfold ext. rewrite Hn. split; [done|lia].
  - rewrite Hs. change (18 <=? 15) with false. change (18 =? 16) with false. change (18 =? 17) with false. cbn iota. cbn [fst snd]. split; [|lia].
    exists i, l, (ext ++ rest). split; [done|]. split; [done|]. right; right; right. split_and!; [unfold i; lia|done|]. exists (e_data e). split; [done|].
    unfold ext. rewrite Hn. split; [done|lia].
Qed.

Lemma bit_lengths_encoding cl rest (Hcl : lens_ok cl) es : forall acc last,
  Forall encoding_ok es -> Forall (fun e => has_code cl (e_symbol e)) es ->
  bit_lengths cl (Z.of_nat (length (acc ++ decode_runs last es))) acc last ((es ≫= encoding_bits cl) ++ rest) (acc ++ decode_runs last es) rest.
Proof.
  induction es as [|e es IH]; intros acc last Hok Hcode.
  { cbn [decode_runs mbind list_bind app]. rewrite app_nil_r. by constructor. }
  inversion_clear Hok as [|? ? He Hok']. inversion_clear Hcode as [|? ? Hc Hcode']. cbn [mbind list_bind decode_runs]. rewrite <- app_assoc.
  destruct (length_symbol_encoding cl last e ((es ≫= encoding_bits cl) ++ rest) Hcl He Hc) as [Hsym Hpos].
  destruct (run_of last e) as [len count]. cbn [fst snd] in *. rewrite !length_app, length_replicate.
  eapply bl_next; [lia|exact Hsym|lia|]. rewrite (app_assoc acc).
  replace (Z.of_nat (length acc + (Z.to_nat count + length (decode_runs len es)))) with
    (Z.of_nat (length ((acc ++ replicate (Z.to_nat count) len) ++ decode_runs len es))) by (rewrite !length_app, length_replicate; lia).
  by apply IH.
Qed.

(** ** The header of the code length code *)
Definition take_lengths (pairs : list (nat * Z)) (acc : list Z) : list Z := foldl (fun acc p => <[p.1 := p.2]> acc) acc pairs.

Lemma code_lengths_bits rest ls : forall order acc, length order = length ls -> Forall (fun l => 0 <= l <= 7) ls ->
  code_lengths order acc ((ls ≫= bits_of 3) ++ rest) (take_lengths (zip order ls) acc) rest.
Proof.
  induction ls as [|l ls IH]; intros [|i order] acc Hlen Hr; [constructor|done|done|]. inversion_clear Hr as [|? ? Hl Hr']. injection Hlen as Hlen.
  cbn [mbind list_bind]. rewrite <- app_assoc. cbn [zip zip_with]. change (take_lengths ((i, l) :: zip order ls) acc) with (take_lengths (zip order ls) (<[i := l]> acc)).
  eapply cl_next; [|by apply IH]. split; [done|lia].
Qed.

Lemma take_lengths_ne pairs j : forall acc, j ∉ pairs.*1 -> take_lengths pairs acc !! j = acc !! j.
Proof.
  induction pairs as [|[i l] pairs IH]; intros acc Hj; [done|]. cbn [fmap list_fmap fst] in Hj. apply not_elem_of_cons in Hj as [Hne Hj].
  change (take_lengths pairs (<[i := l]> acc) !! j = acc !! j). rewrite IH by done. by apply list_lookup_insert_ne.
Qed.

Lemma take_lengths_eq pairs j l : forall acc, NoDup pairs.*1 -> (j < length acc)%nat -> (j, l) ∈ pairs -> take_lengths pairs acc !! j = Some l.
Proof.
  induction pairs as [|[i l'] pairs IH]; intros acc Hnd Hj Hin; [by apply elem_of_nil in Hin|]. cbn [fmap list_fmap fst] in Hnd.
  inversion_clear Hnd as [|? ? Hni Hnd']. change (take_lengths pairs (<[i := l']> acc) !! j = Some l).
  apply elem_of_cons in Hin as [[= -> ->]|Hin].
  - rewrite take_lengths_ne by done. by apply list_lookup_insert_eq.
  - apply IH; [done|by rewrite length_insert|done].
Qed.

Lemma length_take_lengths pairs : forall acc, length (take_lengths pairs acc) = length acc.
Proof. induction pairs as [|[i l] pairs IH]; intros acc; [done|]. change (length (take_lengths pairs (<[i := l]> acc)) = length acc). by rewrite IH, length_insert. Qed.

Lemma used_lengths_spec ls k : (4 <= k <= length ls)%nat ->
  exists h, used_lengths k ls = Z.of_nat h /\ (4 <= h <= k)%nat /\ forall i, (h <= i < k)%nat -> ls !! i = Some 0.
Proof.
  induction k as [|k IH]; intros Hk; [lia|]. cbn [used_lengths]. destruct ((4 <? S k)%nat && _) eqn:E.
  - zify_bool. destruct E as [Hlt Hz]. destruct (ls !! k) as [l|] eqn:Hl; [|done]. apply Z.eqb_eq in Hz as ->.
    destruct (IH ltac:(lia)) as (h & Hh & Hr & Hz'). exists h. split_and!; [done|lia|lia|].
    intros i Hi. destruct (decide (i = k)) as [->|]; [done|]. apply Hz'. lia.
  - exists (S k). split_and!; [done|lia|lia|]. lia.
Qed.

Lemma order_lengths_spec tree order : Forall (fun i => i < length tree)%nat order ->
  order_lengths order tree = Ok ((fun i => (leaf_len <$> tree) !!! i) <$> order).
Proof.
  induction order as [|i order IH]; intros Ho; [done|]. inversion_clear Ho as [|? ? Hi Ho']. cbn [order_lengths].
  destruct (lookup_lt_is_Some_2 tree i Hi) as [leaf Hl]. rewrite Hl, IH by done. cbn [fmap list_fmap]. do 2 f_equal.
  symmetry. apply list_lookup_total_correct. by rewrite list_lookup_fmap, Hl.
Qed.

Lemma code_length_order_perm j : (j < 19)%nat -> exists i, (i < 19)%nat /\ code_length_order !! i = Some j.
Proof.
  intros Hj. assert (H : forallb (fun j => existsb (fun i => bool_decide (code_length_order !! i = Some j)) (seq 0 19)) (seq 0 19) = true) by (vm_compute; reflexivity).
  rewrite forallb_forall in H. specialize (H j ltac:(apply in_seq; lia)). apply existsb_exists in H as (i & Hi & Hb).
  exists i. split; [apply in_seq in Hi; lia|by apply bool_decide_eq_true in Hb].
Qed.

(** The decompressor finds the code lengths that were left out to be zero. *)
Lemma take_lengths_order cl h : length cl = 19%nat -> (4 <= h <= 19)%nat ->
  let ls := (fun i => cl !!! i) <$> code_length_order in
  (forall i, (h <= i < 19)%nat -> ls !! i = Some 0) ->
  take_lengths (zip (firstn h code_length_order) (firstn h ls)) (replicate 19 0) = cl.
Proof.
  intros Hcl Hh ls Hz. assert (Hnd : NoDup code_length_order) by (apply (bool_decide_unpack _); vm_compute; exact I).
  assert (Hkeys : (zip (firstn h code_length_order) (firstn h ls)).*1 = firstn h code_length_order).
  { apply fst_zip. rewrite !length_take. unfold ls. rewrite length_fmap. lia. }
  apply list_eq_same_length with (n := 19%nat); [done|by rewrite length_take_lengths, length_replicate|].
  intros j x y Hj Hx Hy. destruct (code_length_order_perm j Hj) as (i & Hi & Ho).
  assert (Hls : ls !! i = Some y) by (unfold ls; rewrite list_lookup_fmap, Ho; cbn; f_equal; by apply list_lookup_total_correct).
  destruct (decide (i < h)%nat) as [Hlt|Hge].
  - rewrite (take_lengths_eq _ j y) in Hx; [by injection Hx| |by rewrite length_replicate|].
    + rewrite Hkeys. by eapply sublist_NoDup; [|apply sublist_take].
    + apply list_elem_of_lookup. exists i. rewrite lookup_zip_with, !lookup_take_lt by done. by rewrite Ho, Hls.
  - rewrite Hz in Hls by lia. injection Hls as <-. rewrite take_lengths_ne in Hx; [by apply lookup_replicate in Hx as [-> _]|].
    rewrite Hkeys. intros Hin. apply list_elem_of_lookup in Hin as (i' & Hi'). apply lookup_take_Some in Hi' as [Hi' Hlt].
    assert (i' = i) by (by eapply NoDup_lookup). lia.
Qed.

(** ** Frequencies *)
(** [freq'] has at least the counts of [freq] and counts the symbols [syms];
    no count is above [k]. *)
Record tallied (k : Z) (freq freq' : list Z) (syms : list Z) : Prop := {
  ta_length : length freq' = length freq;
  ta_range : Forall (fun x => 0 <= x <= k) freq';
  ta_more : forall i x, freq !! i = Some x -> x <> 0 -> exists x', freq' !! i = Some x' /\ x' <> 0;
  ta_syms : Forall (fun s => exists x, freq' !! Z.to_nat s = Some x /\ x <> 0) syms
}.

Lemma tallied_trans k k' freq freq1 freq2 syms syms' : tallied k freq freq1 syms -> tallied k' freq1 freq2 syms' -> tallied k' freq freq2 (syms ++ syms').
Proof.
  intros [L1 R1 M1 S1] [L2 R2 M2 S2]. split; [congruence|done| |].
  - intros i x Hx Hn. destruct (M1 i x Hx Hn) as (x1 & H1 & N1). by apply (M2 i x1).
  - apply list.Forall_app. split; [|done]. eapply list.Forall_impl; [exact S1|]. intros s (x & Hx & Hn). by apply (M2 _ x).
Qed.

Lemma tallied_nil k freq : Forall (fun x => 0 <= x <= k) freq -> tallied k freq freq [].
Proof. intros Hr. split; [done|done| |constructor]. intros i x Hx Hn. by exists x. Qed.

Lemma count_at_spec k freq s : 0 <= s < Z.of_nat (length freq) -> Forall (fun x => 0 <= x <= k) freq -> k + 1 < 2 ^ 64 ->
  exists freq', count_at freq s = Ok freq' /\ tallied (k + 1) freq freq' [s].
Proof.
  intros Hs Hr Hk. unfold count_at. destruct (lookup_lt_is_Some_2 freq (Z.to_nat s) ltac:(lia)) as [c Hc]. rewrite Hc.
  pose proof (proj1 (list.Forall_lookup _ _) Hr _ _ Hc) as Hcr. cbn in Hcr. rewrite wrap_id by lia. eexists. split; [done|].
  split; [by rewrite length_insert| | |].
  - apply Forall_insert; [|lia]. eapply list.Forall_impl; [exact Hr|]. cbn. lia.
  - intros i x Hx Hn. destruct (decide (i = Z.to_nat s)) as [->|Hne].
    + rewrite list_lookup_insert_eq by lia. exists (c + 1). split; [done|]. lia.
    + rewrite list_lookup_insert_ne by done. by exists x.
  - constructor; [|constructor]. rewrite list_lookup_insert_eq by lia. exists (c + 1). split; [done|lia].
Qed.

Lemma count_encodings_spec es : forall k freq, length freq = 19%nat -> Forall (fun x => 0 <= x <= k) freq -> k + Z.of_nat (length es) < 2 ^ 64 ->
  Forall encoding_ok es -> exists freq', count_encodings es freq = Ok freq' /\ tallied (k + Z.of_nat (length es)) freq freq' (e_symbol <$> es).
Proof.
  induction es as [|e es IH]; intros k freq Hl Hr Hk Hok; cbn [count_encodings].
  { exists freq. split; [done|]. rewrite Z.add_0_r. by apply tallied_nil. }
  inversion_clear Hok as [|? ? He Hok']. cbn [length] in Hk.
  destruct (count_at_spec k freq (e_symbol e)) as (f1 & -> & Ht1); [rewrite Hl; unfold encoding_ok in He; lia|done|lia|].
  destruct (IH (k + 1) f1) as (f2 & -> & Ht2); [by rewrite (ta_length _ _ _ _ Ht1)|apply (ta_range _ _ _ _ Ht1)|lia|done|].
  exists f2. split; [done|]. cbn [fmap list_fmap length]. replace (k + Z.of_nat (S (length es))) with (k + 1 + Z.of_nat (length es)) by lia.
  change (e_symbol e :: (e_symbol <$> es)) with ([e_symbol e] ++ (e_symbol <$> es)). by eapply tallied_trans.
Qed.

(** A symbol that was counted is one of the symbols that occur. *)
Lemma tallied_used k freq freq' syms s : tallied k freq freq' syms -> Forall (Z.le 0) syms -> s ∈ syms -> s ∈ (used_symbols 0 freq').*1.
Proof.
  intros Ht Hnn Hs. pose proof (proj1 (list.Forall_forall _ _) (ta_syms _ _ _ _ Ht) s Hs) as (x & Hx & Hn).
  pose proof (proj1 (list.Forall_forall _ _) Hnn s Hs) as H0. cbn in H0. apply used_symbols_elem. exists (Z.to_nat s), x. split; [lia|done].
Qed.

(** ** The code length code has two codes at least *)
Lemma decode_runs_constant s es : forall last, Forall (fun e => e_symbol e = s) es ->
  exists v, Forall (fun l => l = v) (decode_runs last es).
Proof.
  assert (H : forall v last, (forall e, e_symbol e = s -> (run_of last e).1 = v) -> (forall e, e_symbol e = s -> (run_of v e).1 = v) ->
    Forall (fun e => e_symbol e = s) es -> Forall (fun l => l = v) (decode_runs last es)).
  { intros v. induction es as [|e es IH]; intros last H1 H2 Hs; [constructor|]. inversion_clear Hs as [|? ? He Hs']. cbn [decode_runs].
    specialize (H1 e He). destruct (run_of last e) as [len count]. cbn in H1. subst len. apply list.Forall_app. split; [by apply Forall_replicate|by apply IH]. }
  intros last Hs. unfold run_of in H. destruct (Z.leb_spec s 15) as [Hle|Hgt]; [|destruct (Z.eqb_spec s 16) as [->|H16]].
  - exists s. apply H; [| |done]; intros e ->; rewrite (proj2 (Z.leb_le _ _)) by done; done.
  - exists last. apply H; [| |done]; intros e ->; done.
  - exists 0. apply H; [| |done]; intros e ->; rewrite (proj2 (Z.leb_gt _ _)), (proj2 (Z.eqb_neq _ _)) by done; by destruct (s =? 17).
Qed.

Lemma constant_incomplete v ls : Forall (fun l => l = v) ls -> Forall (fun l => 0 <= l <= 15) ls -> (257 <= length ls <= 286)%nat -> kraft_sum ls <> 2 ^ 15.
Proof.
  intros Hv Hr Hl. assert (Hls : ls = replicate (length ls) v) by (symmetry; apply replicate_as_Forall_2; [done|]; eapply list.Forall_impl; [exact Hv|]; done).
  assert (Hvr : 0 <= v <= 15) by (destruct ls; [cbn in Hl; lia|]; inversion_clear Hv; subst; by inversion_clear Hr).
  rewrite Hls. destruct (decide (v = 0)) as [->|Hne]; [by rewrite kraft_sum_zeros|]. rewrite kraft_sum_replicate by done.
  intros He. assert (Hc : 2 ^ 15 = 2 ^ v * 2 ^ (15 - v)) by (rewrite <- Z.pow_add_r by lia; f_equal; lia).
  assert (Hn : Z.of_nat (length ls) = 2 ^ v) by (apply (Z.mul_reg_r _ _ (2 ^ (15 - v))); lia).
  destruct (Z.le_gt_cases v 8).
  - assert (2 ^ v <= 2 ^ 8) by (apply Z.pow_le_mono_r; lia). lia.
  - assert (2 ^ 9 <= 2 ^ v) by (apply Z.pow_le_mono_r; lia). lia.
Qed.

(** ** The whole encoding *)
(** The code lengths without the zeros at their end. *)
Definition trimmed (tree : list Leaf) : list Z := leaf_len <$> trim (length tree) tree.

Lemma trimmed_spec tree : exists k, leaf_len <$> tree = trimmed tree ++ replicate k 0 /\ length (trimmed tree) = length (trim (length tree) tree) /\
  (forall l, list.last (trimmed tree) = Some l -> l <> 0).
Proof.
  destruct (trim_spec (length tree) tree ltac:(lia)) as (cut & Ht & Hcut & Hlast). exists (length cut). unfold trimmed. split_and!.
  - rewrite Ht at 1. rewrite fmap_app. f_equal. clear -Hcut. induction Hcut as [|leaf cut Hl _ IH]; [done|]. cbn. by rewrite Hl, IH.
  - apply length_fmap.
  - intros l Hl. rewrite fmap_last in Hl. destruct (list.last (trim _ _)) as [leaf|] eqn:E; [|done]. injection Hl as <-. by apply Hlast.
Qed.

(** A symbol with a code is not cut off. *)
Lemma trimmed_lookup tree i l : (leaf_len <$> tree) !! i = Some l -> l <> 0 -> trimmed tree !! i = Some l.
Proof.
  destruct (trimmed_spec tree) as (k & -> & _ & _). intros Hi Hl. apply lookup_app_Some in Hi as [Hi|[_ Hi]]; [done|].
  apply lookup_replicate in Hi as [-> _]. done.
Qed.

Lemma append_tree_spec tree encoding : Forall (fun l => 0 <= l <= 15) (leaf_len <$> tree) ->
  exists es, append_tree tree encoding = (encoding ++ es, Z.of_nat (length (trimmed tree))) /\ Forall encoding_ok es /\
    decode_runs (last_length 0 encoding) es = trimmed tree.
Proof.
  intros Hr. destruct (trimmed_spec tree) as (k & Hk & Hlen & _). unfold append_tree. rewrite Hlen.
  destruct (append_runs_spec (length (trim (length tree) tree)) (trim (length tree) tree) encoding ltac:(lia)) as (es & He & Hok & Hd).
  { rewrite Hk in Hr. by apply list.Forall_app in Hr as [Hr _]. }
  exists es. by rewrite He.
Qed.

(** What the decompressor needs to know of the encoding. *)
Record info_ok (info : CodeLengthInfo) (lit dist : list Z) : Prop := {
  io_hlit : hlit info = Z.of_nat (length lit);
  io_hdist : hdist info = Z.of_nat (length dist);
  io_encoding : Forall encoding_ok (encoding info);
  io_decodes : decode_runs 0 (encoding info) = lit ++ dist;
  io_tree : canonical_tree (code_length_tree info);
  io_codes : Forall (fun e => has_code (leaf_len <$> code_length_tree info) (e_symbol e)) (encoding info);
  io_tree_length : length (code_length_tree info) = 19%nat;
  io_order : code_length info = (fun i => (leaf_len <$> code_length_tree info) !!! i) <$> code_length_order;
  io_hclen : hclen info = used_lengths 19 (code_length info)
}.

Lemma decode_runs_length es : forall last, Forall encoding_ok es -> (length es <= length (decode_runs last es))%nat.
Proof.
  induction es as [|e es IH]; intros last Hok; [done|]. inversion_clear Hok as [|? ? He Hok']. cbn [decode_runs].
  assert (Hp : 1 <= (run_of last e).2) by (unfold run_of, encoding_ok in *; repeat case_if; cbn; lia).
  destruct (run_of last e) as [len count]. cbn in Hp. rewrite length_app, length_replicate. specialize (IH len Hok'). cbn [length]. lia.
Qed.

Lemma code_length_symbols lit dist es k freq : kraft_sum lit = 2 ^ 15 -> Forall (fun l => 0 <= l <= 15) lit -> (257 <= length lit <= 286)%nat ->
  Forall encoding_ok es -> decode_runs 0 es = lit ++ dist -> tallied k (replicate 19 0) freq (e_symbol <$> es) ->
  (2 <= length (used_symbols 0 freq))%nat.
Proof.
  intros Hk Hr Hl Hok Hd Ht. assert (Hused : Forall (fun e => e_symbol e ∈ (used_symbols 0 freq).*1) es).
  { apply list.Forall_forall. intros e He. eapply tallied_used; [exact Ht| |by apply list_elem_of_fmap_2].
    apply list.Forall_forall. intros s Hs. apply list_elem_of_fmap in Hs as (e' & -> & He').
    pose proof (proj1 (list.Forall_forall _ _) Hok e' He') as Hx. unfold encoding_ok in Hx. lia. }
  assert (Hone : forall s, ~ Forall (fun e => e_symbol e = s) es).
  { intros s Hs. destruct (decode_runs_constant s es 0 Hs) as [v Hv]. rewrite Hd in Hv. apply list.Forall_app in Hv as [Hv _].
    by apply (constant_incomplete v lit). }
  destruct (used_symbols 0 freq) as [|u [|u' us]]; [| |cbn; lia]; exfalso; apply (Hone u.1) || apply (Hone 0);
    (eapply list.Forall_impl; [exact Hused|]); intros e He; cbn in He.
  - by apply elem_of_nil in He.
  - by apply list_elem_of_singleton in He.
Qed.

Lemma build_code_length_info_spec lit_tree dist_tree m :
  canonical_tree lit_tree -> canonical_tree dist_tree -> kraft_sum (leaf_len <$> lit_tree) = 2 ^ 15 ->
  (257 <= length (trimmed lit_tree) <= 286)%nat -> (length (trimmed dist_tree) <= 30)%nat ->
  exists info m', build_code_length_info (fun _ => true) lit_tree dist_tree m = (Ok info, m') /\ live m' = live m /\
    info_ok info (trimmed lit_tree) (trimmed dist_tree).
Proof.
  intros [Hokl _] [Hokd _] Hk Hll Hld. unfold build_code_length_info.
  destruct (append_tree_spec lit_tree [] (ok_range _ Hokl)) as (es1 & -> & Hok1 & Hd1). cbn [app].
  destruct (append_tree_spec dist_tree es1 (ok_range _ Hokd)) as (es2 & -> & Hok2 & Hd2). set (es := es1 ++ es2).
  assert (Hok : Forall encoding_ok es) by (by apply Forall_app).
  assert (Hd : decode_runs 0 es = trimmed lit_tree ++ trimmed dist_tree) by (unfold es; cbn in Hd1; by rewrite decode_runs_app, Hd1, Hd2).
  pose proof (decode_runs_length es 0 Hok) as Hle. rewrite Hd, length_app in Hle.
  destruct (count_encodings_spec es 0 (replicate 19 0)) as (freq & Hcount & Ht); [done|apply Forall_replicate; lia|lia|done|].
  unfold sbind, slift, sret. rewrite Hcount. pose proof (ta_length _ _ _ _ Ht) as Hlf. cbn in Hlf.
  destruct (trimmed_spec lit_tree) as (k & Hcut & _ & _).
  assert (Hkt : kraft_sum (trimmed lit_tree) = 2 ^ 15) by (rewrite Hcut, kraft_sum_app, kraft_sum_zeros in Hk; lia).
  assert (Hrt : Forall (fun l => 0 <= l <= 15) (trimmed lit_tree)) by (pose proof (ok_range _ Hokl) as Hr; rewrite Hcut in Hr; by apply list.Forall_app in Hr as [Hr _]).
  pose proof (code_length_symbols _ _ es _ freq Hkt Hrt Hll Hok Hd Ht) as Hu.
  pose proof (create_huffman_tree_spec (fun _ => true) freq m ltac:(rewrite Hlf; unfold s_max_symbols; lia)) as Hs.
  destruct (create_huffman_tree _ freq m) as [[tree|e|] m']; destruct Hs as [Hm Hs]; [|by destruct Hs as (_ & ? & ?)|done].
  destruct Hs as (Hlen & Hcan & Hs). assert (Hcodes : forall i leaf, tree !! i = Some leaf -> (leaf_len leaf <> 0 <-> exists f, freq !! i = Some f /\ f <> 0)).
  { destruct (used_symbols 0 freq) as [|u [|u' us]]; [cbn in Hu; lia|cbn in Hu; lia|apply Hs]. }
  assert (H19 : length tree = 19%nat) by congruence.
  rewrite order_lengths_spec by (rewrite H19; unfold code_length_order; repeat constructor).
  eexists _, m'. split; [done|]. split; [done|]. split; cbn; [done| |done|done|done| |done|done|done].
  - rewrite wrap_id by lia. done.
  - apply list.Forall_forall. intros e He. pose proof (proj1 (list.Forall_forall _ _) (ta_syms _ _ _ _ Ht) (e_symbol e) (list_elem_of_fmap_2 _ _ _ He)) as (x & Hx & Hn).
    destruct (lookup_lt_is_Some_2 tree (Z.to_nat (e_symbol e))) as [leaf Hleaf]; [apply lookup_lt_Some in Hx; lia|].
    exists (leaf_len leaf). split; [by rewrite list_lookup_fmap, Hleaf|]. apply (Hcodes _ _ Hleaf). by exists x.
Qed.
