(* ===== verification/DeflateCorrect.v ===== *)
(** * LibDEFLATE: compressing and decompressing

    What the compressor writes is a DEFLATE stream for the data, and the
    decompressor gives the data back. *)
From stdpp Require Import gmap.
From S2P Require Import Prelude BanMath BanSort BitStream Huffman Inflate InflateCorrect InflateChecks Deflate DeflateTree DeflateMatch DeflateLengths.

(** ** Writing *)
(** [m] writes [bits] and changes nothing but the stream. *)
Definition writes (m : stateful Compressor unit) (bits : list bool) : Prop :=
  forall c, output_wf (c_stream c) -> exists s, m c = (Ok tt, set_output c s) /\ output_wf s /\ written_bits s = written_bits (c_stream c) ++ bits.

Lemma writes_nil : writes (sret tt) [].
Proof. intros c Hc. exists (c_stream c). rewrite app_nil_r. by destruct c. Qed.

Lemma writes_bind m k bits bits' : writes m bits -> writes k bits' -> writes (let! _ := m in k) (bits ++ bits').
Proof.
  intros Hm Hk c Hc. destruct (Hm c Hc) as (s & He & Hs & Hb). unfold sbind. rewrite He.
  destruct (Hk (set_output c s) Hs) as (s' & -> & Hs' & Hb'). exists s'. split_and!; [done|done|]. rewrite Hb'. cbn [c_stream set_output].
  by rewrite Hb, app_assoc.
Qed.

Lemma writes_write value count : 0 <= count <= 16 -> 0 <= value -> writes (write value count) (bits_of (Z.to_nat count) value).
Proof.
  intros Hc Hv c Hwf. destruct (write_bits_spec (c_stream c) value count Hwf Hc Hv) as (s & Hs & Hwf' & Hb).
  exists s. unfold write. by rewrite Hs.
Qed.

Lemma reverse_bits_canonical lens i l : lens_ok lens -> lens !! i = Some l -> l <> 0 ->
  0 <= reverse_bits (code_of lens i l) l /\ bits_of (Z.to_nat l) (reverse_bits (code_of lens i l) l) = canonical_bits lens i l.
Proof.
  intros Hok Hi Hl. pose proof (len_range lens Hok i l Hi). pose proof (code_bound lens Hok i l Hi Hl) as Hc. unfold canonical_bits.
  set (bs := bits_of (Z.to_nat l) (code_of lens i l)). assert (Hlen : length bs = Z.to_nat l) by apply length_bits_of.
  assert (Hv : value_of bs = code_of lens i l) by (unfold bs; rewrite value_bits_of, Z2Nat.id, Z.mod_small by lia; done).
  pose proof (reverse_bits_value bs ltac:(lia)) as Hr. rewrite Hv, Hlen, Z2Nat.id in Hr by lia. rewrite Hr.
  pose proof (value_of_range (reverse bs)). split; [lia|]. rewrite <- Hlen, <- (length_reverse bs). apply bits_of_value.
Qed.

Lemma writes_symbol tree i l : canonical_tree tree -> (leaf_len <$> tree) !! i = Some l -> l <> 0 ->
  writes (write_symbol tree (Z.of_nat i)) (canonical_bits (leaf_len <$> tree) i l).
Proof.
  intros [Hok Hc] Hi Hl. unfold write_symbol. rewrite Nat2Z.id. pose proof (lookup_lt_Some _ _ _ Hi) as Hlt. rewrite length_fmap in Hlt.
  rewrite (Hc i Hlt). unfold leaf_at. rewrite Hi, (proj2 (Z.eqb_neq _ _)) by done. cbn [leaf_code leaf_len].
  destruct (reverse_bits_canonical _ i l Hok Hi Hl) as [Hnn <-]. pose proof (len_range _ Hok i l Hi). apply writes_write; lia.
Qed.

(** The bits of a symbol. *)
Definition sym_bits (lens : list Z) (s : Z) : list bool := canonical_bits lens (Z.to_nat s) (lens !!! Z.to_nat s).

Lemma writes_sym tree s : canonical_tree tree -> 0 <= s -> has_code (leaf_len <$> tree) s -> writes (write_symbol tree s) (sym_bits (leaf_len <$> tree) s).
Proof.
  intros Hc Hs (l & Hl & Hn). unfold sym_bits. rewrite (list_lookup_total_correct _ _ _ Hl). replace s with (Z.of_nat (Z.to_nat s)) at 1 by lia.
  by apply writes_symbol.
Qed.

Lemma trimmed_sym tree s : has_code (leaf_len <$> tree) s -> has_code (trimmed tree) s /\ sym_bits (leaf_len <$> tree) s = sym_bits (trimmed tree) s.
Proof.
  intros (l & Hl & Hn). pose proof (trimmed_lookup tree _ _ Hl Hn) as Ht. split; [by exists l|].
  unfold sym_bits. rewrite (list_lookup_total_correct _ _ _ Hl), (list_lookup_total_correct _ _ _ Ht).
  destruct (trimmed_spec tree) as (k & -> & _). apply canonical_bits_cut; [by eapply lookup_lt_Some|done].
Qed.

Lemma writes_trimmed tree s : canonical_tree tree -> 0 <= s -> has_code (leaf_len <$> tree) s -> writes (write_symbol tree s) (sym_bits (trimmed tree) s).
Proof. intros Hc Hs Hh. destruct (trimmed_sym tree s Hh) as [_ <-]. by apply writes_sym. Qed.

Lemma writes_code_lengths n : forall ls, (n <= length ls)%nat -> Forall (fun l => 0 <= l <= 7) ls -> writes (write_code_lengths n ls) (firstn n ls ≫= bits_of 3).
Proof.
  induction n as [|n IH]; intros [|l ls] Hn Hr; [apply writes_nil|apply writes_nil|cbn in Hn; lia|]. inversion_clear Hr as [|? ? Hl Hr'].
  cbn [write_code_lengths firstn mbind list_bind]. apply writes_bind; [by apply (writes_write l 3); lia|]. apply IH; [cbn in Hn; lia|done].
Qed.

Lemma writes_encodings tree es : canonical_tree tree -> Forall encoding_ok es -> Forall (fun e => has_code (leaf_len <$> tree) (e_symbol e)) es ->
  writes (write_encodings tree es) (es ≫= encoding_bits (leaf_len <$> tree)).
Proof.
  intros Hc. induction es as [|e es IH]; intros Hok Hcode; [apply writes_nil|]. inversion_clear Hok as [|? ? He Hok']. inversion_clear Hcode as [|? ? Hh Hcode'].
  cbn [write_encodings mbind list_bind]. unfold encoding_bits at 1. rewrite <- app_assoc.
  apply writes_bind; [apply (writes_sym tree (e_symbol e)); [done|unfold encoding_ok in He; lia|done]|].
  apply writes_bind; [apply writes_write; unfold encoding_ok in He; lia|]. by apply IH.
Qed.

(** ** Lengths and distances *)
(** The entry of the tables a value falls in. *)
Definition encodes (first : Z) (bases extra : list Z) (value : Z) (e : Encoding) : Prop :=
  exists k b, e_symbol e = first + Z.of_nat k /\ (k < length bases)%nat /\ bases !! k = Some b /\ extra !! k = Some (e_len e) /\
    value = b + e_data e /\ 0 <= e_data e < 2 ^ e_len e /\ 0 <= e_len e <= 13.

(** The extra bits of every entry reach to the next one, those of the last to [top]. *)
Fixpoint covers (bases extra : list Z) (top : Z) : bool :=
  match bases, extra with
  | b :: bases', x :: extra' =>
      (0 <=? x) && (x <=? 13) && (match bases' with next :: _ => next <=? b + 2 ^ x | [] => top <? b + 2 ^ x end) && covers bases' extra' top
  | [], [] => true
  | _, _ => false
  end.

Lemma find_encoding_spec value top bases : forall first extra b, covers bases extra top = true -> head bases = Some b -> b <= value -> value <= top ->
  exists e, find_encoding first bases extra value = Ok e /\ encodes first bases extra value e.
Proof.
  induction bases as [|b0 bases IH]; intros first [|x extra] b Hc Hb Hv Ht; [done..|]. cbn [covers find_encoding] in *. injection Hb as ->. zify_bool.
  destruct Hc as [[[Hx0 Hx1] Hnext] Hc].
  assert (Hhere : value < b + 2 ^ x -> encodes first (b :: bases) (x :: extra) value (mk_encoding first (u16 (value - b)) x)).
  { intros Hlt. assert (2 ^ x <= 2 ^ 13) by (apply Z.pow_le_mono_r; lia). exists 0%nat, b. cbn [e_symbol e_data e_len]. rewrite wrap_id by lia.
    split_and!; [lia|cbn; lia|done|done|lia|lia|lia|lia|lia]. }
  destruct bases as [|next bases]; [zify_bool; eexists; split; [done|apply Hhere; lia]|]. zify_bool. case_if; zify_bool.
  - destruct (IH (first + 1) extra next Hc eq_refl ltac:(lia) Ht) as (e & -> & k & b1 & Hs & Hk & Hb1 & Hx1' & Hval & Hd & Hl).
    exists e. split; [done|]. exists (S k), b1. cbn [length] in *. split_and!; [lia|lia|done|done|done|lia|lia|lia|lia].
  - eexists. split; [done|]. apply Hhere. lia.
Qed.

Lemma get_len_encoding_spec len : 3 <= len <= 258 -> exists e, get_len_encoding len = Ok e /\ encodes 257 length_base length_extra_bits len e.
Proof.
  intros Hl. unfold get_len_encoding, s_max_length. rewrite !(proj2 (Z.leb_le _ _)) by lia. cbn [andb].
  apply (find_encoding_spec len 258 length_base 257 length_extra_bits 3); [vm_compute; reflexivity|done|lia|lia].
Qed.

Lemma get_dist_encoding_spec dist : 1 <= dist <= 32768 -> exists e, get_dist_encoding dist = Ok e /\ encodes 0 distance_base distance_extra_bits dist e.
Proof.
  intros Hl. unfold get_dist_encoding, s_max_distance. rewrite !(proj2 (Z.leb_le _ _)) by lia. cbn [andb].
  apply (find_encoding_spec dist 32768 distance_base 0 distance_extra_bits 1); [vm_compute; reflexivity|done|lia|lia].
Qed.

(** ** Entries *)
Definition entry_bits (lit dist : list Z) (e : LZ77Entry) : list bool :=
  match e with
  | Literal b => sym_bits lit b
  | DistLength len d =>
      match get_len_encoding len, get_dist_encoding d with
      | Ok le, Ok de =>
          sym_bits lit (e_symbol le) ++ bits_of (Z.to_nat (e_len le)) (e_data le) ++
          sym_bits dist (e_symbol de) ++ bits_of (Z.to_nat (e_len de)) (e_data de)
      | _, _ => []
      end
  end.

(** The symbols of entries. *)
Definition lit_symbols (e : LZ77Entry) : list Z :=
  match e with Literal b => [b] | DistLength len _ => match get_len_encoding len with Ok le => [e_symbol le] | _ => [] end end.
Definition dist_symbols (e : LZ77Entry) : list Z :=
  match e with Literal _ => [] | DistLength _ d => match get_dist_encoding d with Ok de => [e_symbol de] | _ => [] end end.

Definition entry_ok (e : LZ77Entry) : Prop :=
  match e with Literal b => byte b | DistLength len d => 3 <= len <= 258 /\ 1 <= d <= 32768 end.

Lemma expands_ok entries : forall hist final, expands hist entries final -> Forall entry_ok entries /\ (length hist + length entries <= length final)%nat.
Proof.
  induction entries as [|[b|len d] entries IH]; intros hist final He; cbn [expands] in He.
  - subst. split; [constructor|cbn; lia].
  - destruct He as [Hb He]. destruct (IH _ _ He) as [Hok Hl]. rewrite length_app in Hl. cbn [length] in *. split; [by constructor|lia].
  - destruct He as (Hl & Hd & Hh & He). destruct (IH _ _ He) as [Hok Hlen]. pose proof (length_lz_copy (Z.to_nat len) d hist ltac:(lia)) as Hc.
    unfold s_max_length, s_max_distance in *. split; [by constructor|]. cbn [length]. lia.
Qed.

Lemma count_entries_spec entries : forall k lit dist, length lit = 286%nat -> length dist = 30%nat ->
  Forall (fun x => 0 <= x <= k) lit -> Forall (fun x => 0 <= x <= k) dist -> k + Z.of_nat (length entries) < 2 ^ 64 -> Forall entry_ok entries ->
  exists lit' dist', count_entries entries lit dist = Ok (lit', dist') /\
    tallied (k + Z.of_nat (length entries)) lit lit' (entries ≫= lit_symbols) /\
    tallied (k + Z.of_nat (length entries)) dist dist' (entries ≫= dist_symbols).
Proof.
  assert (Hup : forall k k' l, k <= k' -> Forall (fun x => 0 <= x <= k) l -> Forall (fun x => 0 <= x <= k') l).
  { intros k k' l Hk Hl. eapply list.Forall_impl; [exact Hl|]. cbn. lia. }
  induction entries as [|e entries IH]; intros k lit dist Hl Hd Hrl Hrd Hk Hok; cbn [count_entries mbind list_bind length].
  { exists lit, dist. rewrite Z.add_0_r. split_and!; [done|by apply tallied_nil|by apply tallied_nil]. }
  inversion_clear Hok as [|? ? He Hok']. cbn [length] in Hk. replace (k + Z.of_nat (S (length entries))) with (k + 1 + Z.of_nat (length entries)) by lia.
  destruct e as [b|len d]; cbn [entry_ok] in He; cbn [lit_symbols dist_symbols].
  - unfold byte in He. destruct (count_at_spec k lit b) as (l1 & -> & Ht1); [rewrite Hl; lia|done|lia|].
    destruct (IH (k + 1) l1 dist) as (l2 & d2 & -> & Hl2 & Hd2); [by rewrite (ta_length _ _ _ _ Ht1)|done|apply (ta_range _ _ _ _ Ht1)|by apply (Hup k); [lia|]|lia|done|].
    exists l2, d2. split_and!; [done|by eapply tallied_trans|done].
  - destruct He as [Hlen Hdist]. destruct (get_len_encoding_spec len Hlen) as (le & Hle & Hle'). destruct (get_dist_encoding_spec d Hdist) as (de & Hde & Hde').
    rewrite Hle, Hde. destruct Hle' as (kl & bl & Hsl & Hkl & _). destruct Hde' as (kd & bd & Hsd & Hkd & _).
    cbn in Hkl, Hkd. destruct (count_at_spec k lit (e_symbol le)) as (l1 & -> & Ht1); [rewrite Hl; lia|done|lia|].
    destruct (count_at_spec k dist (e_symbol de)) as (d1 & -> & Ht2); [rewrite Hd; lia|done|lia|].
    destruct (IH (k + 1) l1 d1) as (l2 & d2 & -> & Hl2 & Hd2);
      [by rewrite (ta_length _ _ _ _ Ht1)|by rewrite (ta_length _ _ _ _ Ht2)|apply (ta_range _ _ _ _ Ht1)|apply (ta_range _ _ _ _ Ht2)|lia|done|].
    exists l2, d2. split_and!; [done|by eapply tallied_trans|by eapply tallied_trans].
Qed.

Definition coded (lens : list Z) (syms : list Z) : Prop := Forall (has_code lens) syms.

Lemma writes_entries lit_tree dist_tree entries : canonical_tree lit_tree -> canonical_tree dist_tree -> Forall entry_ok entries ->
  coded (leaf_len <$> lit_tree) (entries ≫= lit_symbols) -> coded (leaf_len <$> dist_tree) (entries ≫= dist_symbols) ->
  writes (write_entries lit_tree dist_tree entries) (entries ≫= entry_bits (trimmed lit_tree) (trimmed dist_tree)).
Proof.
  intros Hcl Hcd. induction entries as [|e entries IH]; intros Hok Hl Hd; [apply writes_nil|]. inversion_clear Hok as [|? ? He Hok'].
  unfold coded in *. cbn [mbind list_bind] in *. apply list.Forall_app in Hl as [Hl Hl'], Hd as [Hd Hd']. cbn [write_entries].
  apply writes_bind; [|by apply IH]. destruct e as [b|len d]; cbn [write_entry entry_bits lit_symbols dist_symbols entry_ok] in *.
  - unfold byte in He. apply writes_trimmed; [done|lia|by inversion_clear Hl].
  - destruct He as [Hlen Hdist]. destruct (get_len_encoding_spec len Hlen) as (le & Hle & kl & bl & Hsl & _ & _ & _ & _ & Hdl & Hell).
    destruct (get_dist_encoding_spec d Hdist) as (de & Hde & kd & bd & Hsd & _ & _ & _ & _ & Hdd & Held). rewrite Hle, Hde in *.
    assert (Hlift : forall A (a : A) k bits, writes (k a) bits -> writes (let! x := slift (Ok a) in k x) bits) by (intros A a k bits Hw c; apply Hw).
    apply Hlift, writes_bind; [apply writes_trimmed; [done|lia|by inversion_clear Hl]|]. apply writes_bind; [apply writes_write; lia|].
    apply Hlift, writes_bind; [apply writes_trimmed; [done|lia|by inversion_clear Hd]|]. apply writes_write; lia.
Qed.

(** ** A block *)
Lemma decodes_sym lens s rest : lens_ok lens -> has_code lens s ->
  exists l, decodes lens (sym_bits lens s ++ rest) (Z.to_nat s) l /\ skipn (Z.to_nat l) (sym_bits lens s ++ rest) = rest.
Proof.
  intros Hok (l & Hl & Hn). exists l. unfold sym_bits. rewrite (list_lookup_total_correct _ _ _ Hl).
  by apply (decodes_canonical lens Hok _ _ l rest).
Qed.

Lemma inflates_entries bf lit dist rest out tr (Hlit : lens_ok lit) (Hdist : lens_ok dist) (Hend : has_code lit 256) entries : forall hist final,
  coded lit (entries ≫= lit_symbols) -> coded dist (entries ≫= dist_symbols) -> expands hist entries final ->
  inflates (MHeader bf) rest final out tr ->
  inflates (MSymbol bf lit (Some dist)) ((entries ≫= entry_bits lit dist) ++ sym_bits lit 256 ++ rest) hist out tr.
Proof.
  unfold coded. induction entries as [|e entries IH]; intros hist final Hl Hd He Hnext.
  { cbn in He. subst. cbn [mbind list_bind app]. destruct (decodes_sym lit 256 rest Hlit Hend) as (l & Hdec & Hskip).
    eapply inf_block_end; [exact Hdec|done|by rewrite Hskip]. }
  cbn [mbind list_bind] in *. apply list.Forall_app in Hl as [Hl Hl'], Hd as [Hd Hd']. rewrite <- app_assoc.
  set (more := (entries ≫= entry_bits lit dist) ++ sym_bits lit 256 ++ rest) in *. pose proof (expands_ok _ _ _ He) as [Hok _].
  destruct e as [b|len d]; cbn [expands entry_bits lit_symbols dist_symbols] in *.
  - destruct He as [Hb He]. inversion_clear Hl as [|? ? Hh _]. destruct (decodes_sym lit b more Hlit Hh) as (l & Hdec & Hskip). unfold byte in Hb.
    eapply inf_literal; [exact Hdec|lia|]. rewrite Hskip, Z2Nat.id by lia. by apply (IH _ final).
  - destruct He as (Hlen & Hdst & Hhist & He). unfold s_max_length, s_max_distance in *.
    destruct (get_len_encoding_spec len Hlen) as (le & Hle & kl & bl & Hsl & Hkl & Hbl & Hxl & Hvl & Hdl & Hell).
    destruct (get_dist_encoding_spec d Hdst) as (de & Hde & kd & bd & Hsd & Hkd & Hbd & Hxd & Hvd & Hdd & Held). rewrite Hle, Hde in *.
    inversion_clear Hl as [|? ? Hhl _]. inversion_clear Hd as [|? ? Hhd _]. cbn in Hkl, Hkd. rewrite <- !app_assoc.
    set (b2 := bits_of (Z.to_nat (e_len de)) (e_data de) ++ more). set (b1 := sym_bits dist (e_symbol de) ++ b2).
    destruct (decodes_sym lit (e_symbol le) (bits_of (Z.to_nat (e_len le)) (e_data le) ++ b1) Hlit Hhl) as (l & Hdec & Hskip).
    destruct (decodes_sym dist (e_symbol de) b2 Hdist Hhd) as (l' & Hdec' & Hskip').
    eapply (inf_match _ _ _ _ _ _ _ _ _ bl (e_len le) (e_data le) b1 (e_symbol de) b2 bd (e_len de) (e_data de) more);
      [exact Hdec|lia| | |by rewrite Hskip|by exists (Z.to_nat (e_symbol de)), l'; split_and!; [|lia|]|lia| | |done|lia|].
    + by replace (Z.to_nat (e_symbol le) - 257)%nat with kl by lia.
    + by replace (Z.to_nat (e_symbol le) - 257)%nat with kl by lia.
    + by replace (Z.to_nat (e_symbol de)) with kd by lia.
    + by replace (Z.to_nat (e_symbol de)) with kd by lia.
    + rewrite <- Hvl, <- Hvd. by apply (IH _ final).
Qed.

(** What is written before the entries. *)
Definition header_bits (final : bool) (info : CodeLengthInfo) : list bool :=
  bits_of 1 (Z.b2z final) ++ bits_of 2 2 ++ bits_of 5 (hlit info - 257) ++ bits_of 5 (hdist info - 1) ++ bits_of 4 (hclen info - 4) ++
  (firstn (Z.to_nat (hclen info)) (code_length info) ≫= bits_of 3) ++ (encoding info ≫= encoding_bits (leaf_len <$> code_length_tree info)).

Record info_fits (info : CodeLengthInfo) : Prop := {
  if_hlit : 257 <= hlit info <= 286;
  if_hdist : 1 <= hdist info <= 30;
  if_lengths : Forall (fun l => 0 <= l <= 7) (code_length info)
}.

Lemma hclen_range info lit dist : info_ok info lit dist -> 4 <= hclen info <= 19 /\ length (code_length info) = 19%nat /\
  forall i, hclen info <= Z.of_nat i < 19 -> code_length info !! i = Some 0.
Proof.
  intros [_ _ _ _ _ _ Hlen Hord Hh]. assert (Hl : length (code_length info) = 19%nat) by (rewrite Hord; apply length_fmap).
  destruct (used_lengths_spec (code_length info) 19 ltac:(lia)) as (h & Hu & Hr & Hz). rewrite Hh, Hu. split; [lia|]. split; [done|]. intros i Hi. apply Hz. lia.
Qed.

Lemma dynamic_trees_header info lit dist rest : info_ok info lit dist -> info_fits info -> lens_ok lit -> lens_ok dist ->
  dynamic_trees (bits_of 5 (hlit info - 257) ++ bits_of 5 (hdist info - 1) ++ bits_of 4 (hclen info - 4) ++
    (firstn (Z.to_nat (hclen info)) (code_length info) ≫= bits_of 3) ++ (encoding info ≫= encoding_bits (leaf_len <$> code_length_tree info)) ++ rest)
    lit dist rest.
Proof.
  intros Hi [Hl Hd Hf] Hokl Hokd. destruct (hclen_range info lit dist Hi) as (Hc & Hcl & Hz). destruct Hi as [Hlit Hdist Hen Hdec [Hokc _] Hcodes H19 Hord _].
  set (cl := leaf_len <$> code_length_tree info) in *. exists (hlit info - 257), (hdist info - 1), (hclen info - 4). eexists _, _, _, _, cl, (lit ++ dist).
  split; [split; [done|lia]|]. split; [split; [done|lia]|]. split; [split; [done|lia]|].
  replace (hclen info - 4 + 4) with (hclen info) by lia. set (h := Z.to_nat (hclen info)) in *. split.
  { assert (Ht : take_lengths (zip (firstn h code_length_order) (firstn h (code_length info))) (replicate 19 0) = cl).
    { rewrite Hord. apply take_lengths_order; [unfold cl; by rewrite length_fmap|lia|]. intros i Hi. rewrite <- Hord. apply Hz. lia. }
    pose proof (code_lengths_bits ((encoding info ≫= encoding_bits cl) ++ rest) (firstn h (code_length info)) (firstn h code_length_order) (replicate 19 0)) as Hb.
    rewrite Ht in Hb. apply Hb; [rewrite !length_take, Hcl; done|by apply Forall_take]. }
  split; [done|]. split; [lia|]. split.
  { pose proof (bit_lengths_encoding cl rest Hokc (encoding info) [] 0 Hen Hcodes) as Hb. cbn [app] in Hb. rewrite Hdec, length_app in Hb.
    by replace (hlit info - 257 + 257 + (hdist info - 1 + 1)) with (Z.of_nat (length lit + length dist)) by lia. }
  replace (Z.to_nat (hlit info - 257 + 257)) with (length lit) by lia. split; [by rewrite take_app_length|]. split; [by rewrite drop_app_length|]. done.
Qed.

(** What [plan_block] prepares for the data. *)
Record plan_ok (data : list Z) (entries : list LZ77Entry) (lit_tree dist_tree : list Leaf) (info : CodeLengthInfo) : Prop := {
  po_entries : expands [] entries data;
  po_lit : canonical_tree lit_tree;
  po_dist : canonical_tree dist_tree;
  po_lit_codes : coded (leaf_len <$> lit_tree) (256 :: (entries ≫= lit_symbols));
  po_dist_codes : 1 <= hdist info -> coded (leaf_len <$> dist_tree) (entries ≫= dist_symbols);
  po_hlit : 257 <= hlit info <= 286;
  po_hdist : hdist info <= 30;
  po_info : info_ok info (trimmed lit_tree) (trimmed dist_tree)
}.

(** The block that is written stands for the data. *)
Lemma block_inflates final data entries lit_tree dist_tree info rest out tr :
  plan_ok data entries lit_tree dist_tree info -> info_fits info -> inflates (MHeader final) rest data out tr ->
  inflates (MHeader false) (header_bits final info ++ (entries ≫= entry_bits (trimmed lit_tree) (trimmed dist_tree)) ++ sym_bits (trimmed lit_tree) 256 ++ rest) [] out tr.
Proof.
  intros [He Hl Hd Hcl Hcd Hhl Hhd Hi] Hf Hnext. pose proof Hf as [_ Hhd' _]. specialize (Hcd ltac:(lia)). inversion_clear Hcl as [|? ? Hend Hcl'].
  assert (Hcut : forall tree, canonical_tree tree -> trimmed tree <> [] -> lens_ok (trimmed tree)).
  { intros tree [Hok _] Hne. destruct (trimmed_spec tree) as (k & Hk & _). rewrite Hk in Hok. by eapply lens_ok_cut. }
  assert (Hnl : trimmed lit_tree <> []) by (intros Hn; pose proof (io_hlit _ _ _ Hi) as Hh; rewrite Hn in Hh; cbn in Hh; lia).
  assert (Hnd : trimmed dist_tree <> []) by (intros Hn; pose proof (io_hdist _ _ _ Hi) as Hh; rewrite Hn in Hh; cbn in Hh; lia).
  pose proof (Hcut _ Hl Hnl) as Hokl. pose proof (Hcut _ Hd Hnd) as Hokd.
  assert (Htr : forall tree syms, coded (leaf_len <$> tree) syms -> coded (trimmed tree) syms).
  { intros tree syms Hs. eapply list.Forall_impl; [exact Hs|]. intros s Hh. by apply trimmed_sym. }
  unfold header_bits. rewrite <- !app_assoc. eapply inf_dynamic; [split; [done|destruct final; cbn; lia]|split; [done|lia]|].
  eapply inf_trees; [by apply dynamic_trees_header|].
  eapply inflates_entries; [done|done|by apply trimmed_sym|by apply Htr|by apply Htr|done|done].
Qed.

Lemma block_writes final data entries lit_tree dist_tree info : plan_ok data entries lit_tree dist_tree info -> info_fits info ->
  writes (let! _ := write (Z.b2z final) 1 in
    let! _ := write 2 2 in
    let! _ := write (hlit info - 257) 5 in
    let! _ := write (hdist info - 1) 5 in
    let! _ := write (hclen info - 4) 4 in
    let! _ := write_code_lengths (Z.to_nat (hclen info)) (code_length info) in
    let! _ := write_encodings (code_length_tree info) (encoding info) in
    let! _ := write_entries lit_tree dist_tree entries in
    write_symbol lit_tree 256)
  (header_bits final info ++ (entries ≫= entry_bits (trimmed lit_tree) (trimmed dist_tree)) ++ sym_bits (trimmed lit_tree) 256).
Proof.
  intros [He Hl Hd Hcl Hcd Hhl Hhd Hi] [_ Hhd' Hlens]. specialize (Hcd ltac:(lia)). inversion_clear Hcl as [|? ? Hend Hcl'].
  destruct (hclen_range info _ _ Hi) as (Hc & H19 & _). destruct Hi as [_ _ Hen _ Hct Hcodes _ _ _].
  unfold header_bits. rewrite <- !app_assoc. repeat (apply writes_bind; [apply writes_write; [lia|try destruct final; cbn; lia]|]).
  apply writes_bind; [apply writes_code_lengths; [lia|done]|]. apply writes_bind; [by apply writes_encodings|].
  apply writes_bind; [apply writes_entries; [done|done|by apply (expands_ok _ _ _ He)|done|done]|]. by apply writes_trimmed; [|lia|].
Qed.

(** ** The plan of a block *)
Lemma get_frequencies_spec entries : Forall entry_ok entries -> Z.of_nat (length entries) < 2 ^ 63 ->
  exists lit dist k, get_frequencies entries (replicate 286 0) (replicate 30 0) = Ok (lit, dist) /\
    tallied k (replicate 286 0) lit ((entries ≫= lit_symbols) ++ [256]) /\ tallied k (replicate 30 0) dist (entries ≫= dist_symbols).
Proof.
  intros Hok Hl. unfold get_frequencies. rewrite !length_replicate. cbn [Nat.eqb].
  destruct (count_entries_spec entries 0 (replicate 286 0) (replicate 30 0)) as (lit & dist & -> & Ht & Htd);
    [done|done|apply Forall_replicate; lia|apply Forall_replicate; lia|lia|done|].
  pose proof (ta_length _ _ _ _ Ht) as Hll. rewrite length_replicate in Hll.
  destruct (count_at_spec (0 + Z.of_nat (length entries)) lit 256) as (lit' & -> & Ht'); [lia|apply (ta_range _ _ _ _ Ht)|lia|].
  exists lit', dist, (0 + Z.of_nat (length entries) + 1). split_and!; [done|by eapply tallied_trans|]. destruct Htd as [H1 H2 H3 H4]. split; [done| |done|done].
  eapply list.Forall_impl; [exact H2|]. cbn. lia.
Qed.

Lemma lit_symbols_range e : entry_ok e -> exists s, lit_symbols e = [s] /\ 0 <= s < 286 /\ s <> 256.
Proof.
  destruct e as [b|len d]; cbn [entry_ok lit_symbols].
  - intros Hb. unfold byte in Hb. exists b. split; [done|lia].
  - intros [Hl _]. destruct (get_len_encoding_spec len Hl) as (le & -> & k & b & Hs & Hk & _). cbn in Hk. exists (e_symbol le). split; [done|lia].
Qed.

Lemma dist_symbols_range e : entry_ok e -> Forall (Z.le 0) (dist_symbols e).
Proof.
  destruct e as [b|len d]; cbn [entry_ok dist_symbols]; [constructor|]. intros [_ Hd].
  destruct (get_dist_encoding_spec d Hd) as (de & -> & k & b & Hs & _). constructor; [lia|constructor].
Qed.

Lemma two_symbols k lit entries e : tallied k (replicate 286 0) lit (((e :: entries) ≫= lit_symbols) ++ [256]) -> Forall entry_ok (e :: entries) ->
  (2 <= length (used_symbols 0 lit))%nat.
Proof.
  intros Ht Hok. inversion_clear Hok as [|? ? He Hok']. destruct (lit_symbols_range e He) as (s & Hs & Hr & Hne).
  assert (Hin : forall x, x ∈ [s; 256] -> x ∈ (used_symbols 0 lit).*1).
  { intros x Hx. apply (tallied_used k (replicate 286 0) lit [s; 256]); [|repeat constructor; lia|done]. destruct Ht as [H1 H2 H3 H4]. split; [done|done|done|].
    cbn [mbind list_bind] in H4. rewrite Hs in H4. apply list.Forall_app in H4 as [H4 H5]. cbn [app] in H4. inversion_clear H4. inversion_clear H5. by repeat constructor. }
  pose proof (Hin s ltac:(by left)) as H1. pose proof (Hin 256 ltac:(right; by left)) as H2.
  destruct (used_symbols 0 lit) as [|u [|u' us]]; [by apply elem_of_nil in H1| |cbn; lia]. cbn in H1, H2.
  apply list_elem_of_singleton in H1, H2. congruence.
Qed.

(** The symbols that were counted have codes. *)
Lemma tallied_coded k freq0 freq tree syms : tallied k freq0 freq syms -> length tree = length freq ->
  (forall i leaf, tree !! i = Some leaf -> (leaf_len leaf <> 0 <-> exists f, freq !! i = Some f /\ f <> 0)) -> coded (leaf_len <$> tree) syms.
Proof.
  intros Ht Hl Hc. eapply list.Forall_impl; [exact (ta_syms _ _ _ _ Ht)|]. intros s (x & Hx & Hn).
  destruct (lookup_lt_is_Some_2 tree (Z.to_nat s)) as [leaf Hleaf]; [apply lookup_lt_Some in Hx; lia|].
  exists (leaf_len leaf). split; [by rewrite list_lookup_fmap, Hleaf|]. apply (Hc _ _ Hleaf). by exists x.
Qed.

Lemma trimmed_length tree : (length (trimmed tree) <= length tree)%nat.
Proof. destruct (trimmed_spec tree) as (k & Hk & _). apply (f_equal length) in Hk. rewrite length_fmap, length_app in Hk. lia. Qed.

Lemma on_memory_tree freq c : 0 < Z.of_nat (length freq) <= s_max_symbols ->
  exists tree m, on_memory (create_huffman_tree (fun _ => true) freq) c =
    (Ok tree, mk_compressor (c_type c) (c_buffer c) (c_data c) (c_stream c) (c_hash_chain_index c) (c_hash_chain c) m) /\
    live m = live (c_memory c) /\ tree_spec freq tree.
Proof.
  intros Hl. pose proof (create_huffman_tree_spec (fun _ => true) freq (c_memory c) Hl) as Hs. unfold on_memory.
  destruct (create_huffman_tree _ freq (c_memory c)) as [[tree|e|] m]; destruct Hs as [Hm Hs]; [by exists tree, m|by destruct Hs as (_ & ? & ?)|done].
Qed.

Lemma plan_block_spec data c : Forall byte data -> Z.of_nat (length data) < 2 ^ 63 -> data <> [] ->
  c_buffer c = data -> c_data c = mk_span 0 (Z.of_nat (length data)) -> c_hash_chain_index c = 0 -> c_hash_chain c = ∅ ->
  exists entries lit_tree dist_tree info c', plan_block (fun _ => true) (c_data c) c = (Ok (entries, lit_tree, dist_tree, info), c') /\
    plan_ok data entries lit_tree dist_tree info /\
    c_type c' = c_type c /\ c_data c' = c_data c /\ c_stream c' = c_stream c /\ live (c_memory c') = live (c_memory c).
Proof.
  intros Hb Hsz Hne Hbuf Hd Hix Hch. unfold plan_block.
  destruct (lz77_compress_spec c data Hb ltac:(lia) Hbuf Hd Hix Hch) as (entries & c1 & Hlz & (ix & ch & ->) & He).
  unfold sbind at 1. rewrite Hlz. set (c1 := set_chain c ix ch). destruct (expands_ok _ _ _ He) as [Hok Hlen]. cbn in Hlen.
  destruct (get_frequencies_spec entries Hok ltac:(lia)) as (lit & dist & k & Hg & Htl & Htd). unfold sbind at 1, slift at 1. rewrite Hg.
  pose proof (ta_length _ _ _ _ Htl) as Hll. pose proof (ta_length _ _ _ _ Htd) as Hld. rewrite length_replicate in Hll, Hld.
  destruct (on_memory_tree lit c1) as (lit_tree & m2 & Hm2 & Hlive2 & Hslit); [unfold s_max_symbols; lia|]. unfold sbind at 1. rewrite Hm2.
  set (c2 := mk_compressor _ _ _ _ _ _ m2). destruct (on_memory_tree dist c2) as (dist_tree & m3 & Hm3 & Hlive3 & Hsdist); [unfold s_max_symbols; lia|].
  unfold sbind at 1. rewrite Hm3. set (c3 := mk_compressor _ _ _ _ _ _ m3).
  assert (Hu : (2 <= length (used_symbols 0 lit))%nat).
  { destruct entries as [|e entries]; [cbn in He; by subst|]. by eapply two_symbols. }
  destruct Hslit as (Hlt & Hcl & Hsl). assert (Hsl' : kraft_sum (leaf_len <$> lit_tree) = 2 ^ 15 /\
    forall i leaf, lit_tree !! i = Some leaf -> (leaf_len leaf <> 0 <-> exists f, lit !! i = Some f /\ f <> 0)).
  { destruct (used_symbols 0 lit) as [|u [|u' us]]; [cbn in Hu; lia|cbn in Hu; lia|done]. }
  destruct Hsl' as [Hk Hcodes]. pose proof (tallied_coded _ _ _ _ _ Htl Hlt Hcodes) as Hcoded. apply list.Forall_app in Hcoded as [Hcoded Hend].
  inversion_clear Hend as [|? ? Hend' _]. assert (H257 : (257 <= length (trimmed lit_tree) <= 286)%nat).
  { destruct Hend' as (l & Hl & Hn). pose proof (trimmed_lookup _ _ _ Hl Hn) as Ht. apply lookup_lt_Some in Ht. pose proof (trimmed_length lit_tree). lia. }
  destruct Hsdist as (Hdt & Hcd & Hsd). pose proof (trimmed_length dist_tree) as H30.
  destruct (build_code_length_info_spec lit_tree dist_tree (c_memory c3) Hcl Hcd Hk H257 ltac:(lia)) as (info & m4 & Hbuild & Hlive4 & Hinfo).
  unfold sbind, on_memory, sret. rewrite Hbuild. cbn in Hlive2, Hlive3, Hlive4.
  exists entries, lit_tree, dist_tree, info. eexists. split; [done|]. cbn [c_type c_data c_stream c_memory]. split_and!; [|done|done|done|congruence].
  split; [done|done|done|by constructor| |rewrite (io_hlit _ _ _ Hinfo); lia|rewrite (io_hdist _ _ _ Hinfo); lia|done].
  rewrite (io_hdist _ _ _ Hinfo). intros Hpos. destruct (used_symbols 0 dist) as [|u [|u' us]] eqn:Eu.
  - apply list.Forall_forall. intros s Hs. pose proof (tallied_used _ _ _ _ s Htd) as Hin. rewrite Eu in Hin. cbn in Hin.
    exfalso. eapply elem_of_nil, Hin; [|done]. apply list.Forall_forall. intros s' Hs'. apply list_elem_of_bind in Hs' as (e & Hs' & He').
    pose proof (proj1 (list.Forall_forall _ _) Hok e He') as Hoke. exact (proj1 (list.Forall_forall _ _) (dist_symbols_range e Hoke) s' Hs').
  - exfalso. destruct (trimmed_spec dist_tree) as (j & Hj & _ & Hlast). rewrite Hsd in Hj.
    destruct (trimmed dist_tree) as [|x xs] eqn:Et; [cbn in Hpos; lia|]. destruct (last_is_Some (x :: xs)) as [_ Hl]. destruct (Hl ltac:(done)) as [l Hll'].
    apply (Hlast l Hll'). assert (Hin : l ∈ zeros dist) by (rewrite Hj; apply elem_of_app; left; by eapply last_Some_elem_of).
    by apply elem_of_replicate in Hin as [-> _].
  - apply (tallied_coded _ _ _ _ _ Htd); [lia|apply Hsd].
Qed.

(** ** The whole stream *)
(** The distance codes are not lost, and the lengths of the code length code fit
    in the three bits they are written in. *)
Definition encodable (data : list Z) : bool :=
  match (plan_block (fun _ => true) (mk_span 0 (Z.of_nat (length data))) (construct_compressor data Raw)).1 with
  | Ok (_, _, _, info) => (1 <=? hdist info) && forallb (fun l => l <=? 7) (code_length info)
  | _ => false
  end.

Lemma code_length_nonneg info lit dist : info_ok info lit dist -> Forall (fun l => 0 <= l) (code_length info).
Proof.
  intros [_ _ _ _ [Hok _] _ H19 -> _]. apply list.Forall_forall. intros l Hl. apply list_elem_of_fmap in Hl as (i & -> & Hi).
  rewrite list_lookup_total_alt. destruct ((leaf_len <$> code_length_tree info) !! i) as [x|] eqn:Hx; [|done]. cbn.
  pose proof (len_range _ Hok i x Hx). lia.
Qed.

Lemma compress_stream data : Forall byte data -> data <> [] -> Z.of_nat (length data) <= max_block_size -> encodable data = true ->
  exists out, compress_all data Raw = Ok out /\ Forall byte out /\
    exists k, forall rest, inflates (MHeader false) (bytes_bits out ++ rest) [] data (replicate k false ++ rest).
Proof.
  intros Hb Hne Hsz Henc. assert (Hpos : 0 < Z.of_nat (length data)) by (clear -Hne; destruct data; [done|cbn [length]; lia]).
  unfold max_block_size in Hsz. set (c0 := construct_compressor data Raw).
  destruct (plan_block_spec data c0 Hb ltac:(lia) Hne eq_refl eq_refl eq_refl eq_refl) as (entries & lt & dt & info & c1 & Hplan & Hpo & Hty & Hda & Hst & _).
  unfold encodable in Henc. change (mk_span 0 (Z.of_nat (length data))) with (c_data c0) in Henc. fold c0 in Henc. rewrite Hplan in Henc. cbn [fst] in Henc.
  apply andb_true_iff in Henc as [Hhd Hle]. apply Z.leb_le in Hhd.
  assert (Hfit : info_fits info).
  { destruct Hpo as [_ _ _ _ _ Hhl Hhd' Hi]. split; [done|lia|]. apply list.Forall_forall. intros l Hl.
    pose proof (proj1 (list.Forall_forall _ _) (code_length_nonneg _ _ _ Hi) l Hl) as Hl0. rewrite forallb_forall in Hle.
    specialize (Hle l ltac:(by apply list_elem_of_In)). apply Z.leb_le in Hle. split; [exact Hl0|exact Hle]. }
  destruct (block_writes true _ _ _ _ _ Hpo Hfit c1) as (s & Hw & Hwf & Hbits); [rewrite Hst; by split|].
  rewrite Hst in Hbits. change (written_bits (c_stream c0)) with (@nil bool) in Hbits. cbn [app] in Hbits.
  destruct (pad_spec s Hwf) as (p & k & Hp & Hz & Hd & Hpb). exists (o_data p).
  split; [|split; [done|]].
  2:{ exists k. intros rest. rewrite Hpb, Hbits, <- !app_assoc. by eapply block_inflates; [done|done|apply inf_end]. }
  unfold compress_all, compress. fold c0. unfold sbind at 1, sget at 1. cbn [c_type c0 construct_compressor compress_header write_bytes]. unfold sbind at 1, sret at 1.
  unfold sbind at 1. change (span_size (c_data c0)) with (Z.of_nat (length data)). rewrite Nat2Z.id.
  destruct (length data) as [|n] eqn:Hn; [lia|]. cbn [compress_blocks]. change (span_size (c_data c0)) with (Z.of_nat (length data)). rewrite Hn.
  rewrite (proj2 (Z.eqb_neq _ _)), Math.min_spec, Z.min_l by (unfold max_block_size; lia). rewrite Z.eqb_refl.
  assert (Hsl : slice_length (c_data c0) 0 (Z.of_nat (S n)) = Ok (c_data c0)).
  { unfold slice_length. cbn [c0 construct_compressor c_data span_size span_data]. rewrite Hn, !(proj2 (Z.leb_le _ _)) by lia. done. }
  unfold sbind at 1, slift at 1. rewrite Hsl. unfold sbind at 1, compress_block. unfold sbind at 1. rewrite Hplan, Hw.
  unfold sbind at 1, sget at 1. cbn [c_data set_output]. rewrite Hda. unfold sbind at 1, slift at 1, slice at 1.
  cbn [c0 construct_compressor c_data span_size span_data]. rewrite Hn, Z.leb_refl, Z.sub_diag. unfold sbind at 1, sput at 1.
  assert (Hdone : forall f c, span_size (c_data c) = 0 -> compress_blocks (fun _ => true) f c = (Ok tt, c)) by (intros f c Hc; destruct f; cbn [compress_blocks]; by rewrite Hc).
  rewrite Hdone by done. unfold sbind, sget, slift, sput. cbn [c_stream set_rest set_output c_type]. rewrite Hp, Hty. cbn [c0 construct_compressor c_type compress_footer write_bytes].
  unfold sret. cbn [c_stream set_output set_rest]. unfold take_buffer. by rewrite Hz.
Qed.

(** C1: Compressing and decompressing gives the data back.  Data of
    one to 16384 bytes whose distance code has more than one symbol or none, and
    whose code length code fits in three bits, is compressed without failing an
    assertion to a DEFLATE stream that stands for it, and decompressing that
    stream, with two bytes after it, gives the data. *)
Theorem compress_decompress (data : list Z) (Hbytes : Forall byte data) (Hne : data <> [])
  (Hsize : Z.of_nat (length data) <= max_block_size) (Henc : encodable data = true) :
  exists out tr, compress_all data Raw = Ok out /\ Forall byte out /\ inflates (MHeader false) (bytes_bits out) [] data tr /\
    forall fuel, (length data + length out + 2 < fuel)%nat -> decompress_all fuel (out ++ [0; 0]) (construct Raw) = Ok data.
Proof.
  destruct (compress_stream data Hbytes Hne Hsize Henc) as (out & Hc & Hb & k & Hinf). exists out, (replicate k false).
  split; [done|]. split; [done|]. split; [specialize (Hinf []); by rewrite !app_nil_r in Hinf|]. intros fuel Hf.
  specialize (Hinf (bytes_bits [0; 0])). rewrite <- bytes_bits_app in Hinf.
  apply (decompress_loop_follows (replicate k false ++ bytes_bits [0; 0])); [rewrite length_app, length_bytes_bits; cbn [length]; lia|by apply construct_follows|done| |cbn; lia| |..].
  - apply Forall_app. split; [done|]. repeat constructor; done.
  - rewrite length_app. cbn [length]. lia.
  - rewrite length_app. cbn [length]. lia.
  - lia.
Qed.

Definition sample_text : list Z := [97; 98; 99; 97; 98; 99; 97; 98; 99; 97; 99; 97; 99; 97].

Lemma compress_decompress_witness :
  exists out tr, compress_all sample_text Raw = Ok out /\ Forall byte out /\ inflates (MHeader false) (bytes_bits out) [] sample_text tr /\
    forall fuel, (length sample_text + length out + 2 < fuel)%nat ->
      decompress_all fuel (out ++ [0; 0]) (construct Raw) = Ok sample_text.
Proof.
  apply (compress_decompress sample_text).
  - repeat (apply list.Forall_cons_2; [done|]). apply list.Forall_nil_2.
  - discriminate.
  - vm_compute. discriminate.
  - vm_compute. reflexivity.
Defined.

(** An input whose matches all have the same distance code, the text abcabcabc,
    is compressed to a stream that the decompressor refuses: a distance code with
    one symbol is given the empty code, and the distance codes are counted as
    minus one. *)
Theorem single_distance_corrupts :
  match compress_all [97; 98; 99; 97; 98; 99; 97; 98; 99] Raw with
  | Ok out => decompress_all 20 (out ++ [0; 0]) (construct Raw) = Err EINVAL
  | _ => False
  end.
Proof. vm_compute. reflexivity. Qed.

(** Without data there is no block, and nothing to decompress. *)
Theorem empty_data_corrupts :
  compress_all [] Raw = Ok [] /\ decompress_all 20 [0; 0] (construct Raw) = Err EINVAL.
Proof. split; vm_compute; reflexivity. Qed.
