(* ===== verification/DiskCache.v ===== *)
(** * kernel/Storage/DiskCache: the write-back cache of a disk

    Pages of sectors, ordered by their first sector, with a mask of the sectors
    that are present and one of those that the disk does not have yet.  The
    physical pages come from a [PageSource] and the sectors from a
    [StorageDriver]; the kernel heap is an instance of the first.  Every
    operation is split where the code drops [m_rw_lock], so that writing pages
    back can be interleaved with everything else. *)
From stdpp Require Import sorting functions.
From S2P Require Import Prelude BanMath Bitmap BanSort PhysicalRange KHeap.

(** ** Interfaces *)
Class PageSource (H : Type) : Type := {
  ps_take : H -> outcome (H * Z);
  ps_release : H -> Z -> outcome H
}.

(** A client that holds the pages [ps] can take one more that it does not hold,
    or is told that there is none, and can give back any of them. *)
Class PageSourceLaws (H : Type) `{PageSource H} : Type := {
  holds : H -> list Z -> Prop;
  holds_perm : forall h ps ps', holds h ps -> ps ≡ₚ ps' -> holds h ps';
  holds_NoDup : forall h ps, holds h ps -> NoDup ps;
  take_holds : forall h ps, holds h ps ->
    ps_take h = Ok (h, 0) \/ exists h' a, ps_take h = Ok (h', a) /\ a <> 0 /\ holds h' (a :: ps);
  release_holds : forall h a ps, holds h (a :: ps) -> exists h', ps_release h a = Ok h' /\ holds h' ps
}.

(** The driver behind [read_sectors_impl] and [write_sectors_impl]. *)
Class StorageDriver (D : Type) : Type := {
  sd_read : Z -> Z -> stateful D (list Z);
  sd_write : Z -> Z -> list Z -> stateful D unit
}.

(** The [i]th sector of a buffer, and the [n] sectors from [lba] as a buffer. *)
Definition sector_at (ss : Z) (bytes : list Z) (i : Z) : list Z :=
  take (Z.to_nat ss) (drop (Z.to_nat (i * ss)) bytes).
Definition sectors (f : Z -> list Z) (lba n : Z) : list Z := concat (map (fun i => f (lba + i)) (seqZ 0 n)).

(** A read returns what the disk holds; a write that succeeds stores its
    sectors, and one that fails may have stored anything in them, but nothing
    elsewhere. *)
Class StorageDriverLaws (ss : Z) (D : Type) `{StorageDriver D} : Type := {
  sector : D -> Z -> list Z;
  sector_length : forall d s, Z.of_nat (length (sector d s)) = ss;
  sd_read_spec : forall d lba n, 0 <= n ->
    let '(r, d') := sd_read lba n d in
    (forall s, sector d' s = sector d s) /\
    match r with Ok bytes => bytes = sectors (sector d) lba n | Err _ => True | Panic => False end;
  sd_write_spec : forall d lba n bytes, 0 <= n -> n * ss <= Z.of_nat (length bytes) ->
    let '(r, d') := sd_write lba n bytes d in
    (forall s, ~ lba <= s < lba + n -> sector d' s = sector d s) /\
    match r with
    | Ok _ => forall i, 0 <= i < n -> sector d' (lba + i) = sector_at ss bytes i
    | Err _ => True
    | Panic => False
    end
}.

(** ** Definitions *)
Record PageCache : Type := mk_page {
  paddr : Z;
  first_sector : Z;
  sector_mask : Z;
  dirty_mask : Z;
  syncing : bool
}.

(** The cache, the memory its pages are in, and the two components it uses.
    [w_inserts] counts the insertions into the vector, which may find no
    memory. *)
Record world {H D : Type} : Type := mk_world {
  m_cache : list PageCache;
  m_sync_cache : list Z;
  w_mem : Z -> list Z;
  w_heap : H;
  w_dev : D;
  w_inserts : nat
}.
Arguments world : clear implicits.
Arguments mk_world {H D} _ _ _ _ _ _.

Section defs.
Context (ss : Z) (insert_ok : nat -> bool) (g_disable_disk_write : bool) {H D : Type} `{PageSource H} `{StorageDriver D}.
Abbreviation W := (world H D).

Definition set_cache (w : W) (cache : list PageCache) : W :=
  mk_world cache (m_sync_cache w) (w_mem w) (w_heap w) (w_dev w) (w_inserts w).
Definition set_sync_cache (w : W) (snapshot : list Z) : W :=
  mk_world (m_cache w) snapshot (w_mem w) (w_heap w) (w_dev w) (w_inserts w).
Definition set_mem (w : W) (p : Z) (page : list Z) : W :=
  mk_world (m_cache w) (m_sync_cache w) (<[p := page]> (w_mem w)) (w_heap w) (w_dev w) (w_inserts w).
Definition set_heap (w : W) (h : H) : W :=
  mk_world (m_cache w) (m_sync_cache w) (w_mem w) h (w_dev w) (w_inserts w).
Definition set_dev (w : W) (d : D) : W :=
  mk_world (m_cache w) (m_sync_cache w) (w_mem w) (w_heap w) d (w_inserts w).
Definition count_insert (w : W) : W :=
  mk_world (m_cache w) (m_sync_cache w) (w_mem w) (w_heap w) (w_dev w) (S (w_inserts w)).

Definition sectors_per_page : Z := PAGE_SIZE / ss.
Definition page_cache_offset (sector : Z) : Z := sector `mod` sectors_per_page.
Definition page_cache_start (sector : Z) : Z := sector - page_cache_offset sector.

(** The assertions of the constructor. *)
Definition DiskCache_construct : outcome (list PageCache) :=
  ASSERT (PAGE_SIZE `mod` ss =? 0) in
  ASSERT (PAGE_SIZE / ss <=? 8) in
  Ok [].

Fixpoint search_cache (fuel : nat) (cache : list PageCache) (start : Z) (l r : nat) : outcome nat :=
  if (l <? r)%nat then
    match fuel with
    | O => Panic
    | S fuel' =>
        let mid := ((l + r) / 2)%nat in
        match cache !! mid with
        | None => Panic
        | Some c =>
            if first_sector c =? start then Ok mid
            else if first_sector c <? start then search_cache fuel' cache start (mid + 1) r
            else search_cache fuel' cache start l mid
        end
    end
  else Ok l.

Definition find_sector_cache_index (cache : list PageCache) (sector : Z) : outcome nat :=
  search_cache (length cache) cache (page_cache_start sector) 0 (length cache).

(** [buffer_size] is the size of the buffer the sector is copied to; the result
    is the sector, or nothing if it is not in the cache. *)
Definition read_from_cache (sector buffer_size : Z) : stateful W (option (list Z)) :=
  let! _ := sassert (ss <=? buffer_size) in
  let! w := sget in
  let! index := slift (find_sector_cache_index (m_cache w) sector) in
  match m_cache w !! index with
  | None => sret None
  | Some c =>
      if negb (first_sector c =? page_cache_start sector) then sret None
      else if Z.land (sector_mask c) (Z.shiftl 1 (page_cache_offset sector)) =? 0 then sret None
      else sret (Some (sector_at ss (w_mem w (paddr c)) (page_cache_offset sector)))
  end.

(** [memcpy] of [data] to [page] at the offset [off]. *)
Definition memcpy_at (page : list Z) (off : Z) (data : list Z) : list Z :=
  take (Z.to_nat off) page ++ data ++ drop (Z.to_nat off + length data) page.

Definition insert_page (index : nat) (c : PageCache) (cache : list PageCache) : list PageCache :=
  take index cache ++ c :: drop index cache.

(** A page for [sector] at [index] if there is none yet. *)
Definition make_page (index : nat) (sector : Z) : stateful W unit := fun w =>
  let missing := match m_cache w !! index with Some c => negb (first_sector c =? page_cache_start sector) | None => true end in
  if missing then
    match ps_take (w_heap w) with
    | Ok (h, p) =>
        let w := set_heap w h in
        if p =? 0 then (Err ENOMEM, w)
        else
          let ok := insert_ok (w_inserts w) in
          let w := count_insert w in
          if ok then (Ok tt, set_cache w (insert_page index (mk_page p (page_cache_start sector) 0 0 false) (m_cache w)))
          else match ps_release (w_heap w) p with
               | Ok h => (Err ENOMEM, set_heap w h)
               | _ => (Panic, w)
               end
    | _ => (Panic, w)
    end
  else (Ok tt, w).

Definition write_to_cache (sector : Z) (buffer : list Z) (dirty : bool) : stateful W unit :=
  let! _ := sassert (ss <=? Z.of_nat (length buffer)) in
  let! w := sget in
  let! index := slift (find_sector_cache_index (m_cache w) sector) in
  let! _ := make_page index sector in
  let! w := sget in
  match m_cache w !! index with
  | None => slift Panic
  | Some c =>
      let offset := page_cache_offset sector in
      let page := memcpy_at (w_mem w (paddr c)) (offset * ss) (take (Z.to_nat ss) buffer) in
      let bit := Z.shiftl 1 offset in
      let c := mk_page (paddr c) (first_sector c) (u8 (Z.lor (sector_mask c) bit))
                 (if dirty then u8 (Z.lor (dirty_mask c) bit) else dirty_mask c) (syncing c) in
      sput (set_cache (set_mem w (paddr c) page) (<[index := c]> (m_cache w)))
  end.

(** ** Writing a page back

    The part under [m_rw_lock]: a copy of the page's record, taken to be
    written, or nothing if the page is clean. *)
Definition sync_begin (index : nat) : stateful W (option PageCache) := fun w =>
  match m_cache w !! index with
  | None => (Ok None, w)
  | Some c =>
      if dirty_mask c =? 0 then (Ok None, w)
      else
        let w := set_sync_cache w (w_mem w (paddr c)) in
        (Ok (Some c), set_cache w (<[index := mk_page (paddr c) (first_sector c) (sector_mask c) 0 true]> (m_cache w)))
  end.

(** The destructor of [dirty_guard], for the record [temp_cache]. *)
Definition sync_end (temp_cache : PageCache) : stateful W unit := fun w =>
  match find_sector_cache_index (m_cache w) (first_sector temp_cache) with
  | Ok new_index =>
      match m_cache w !! new_index with
      | Some c =>
          if first_sector c =? first_sector temp_cache then
            (Ok tt, set_cache w (<[new_index := mk_page (paddr c) (first_sector c) (sector_mask c)
                                                   (Z.lor (dirty_mask c) (dirty_mask temp_cache)) false]> (m_cache w)))
          else (Panic, w)
      | None => (Panic, w)
      end
  | _ => (Panic, w)
  end.

(** Where a write-back is: in the loop, or about to leave it with a result. *)
Inductive sync_pc : Type :=
| SyncLoop (temp_cache : PageCache) (sector_start sector_count : Z)
| SyncEnd (temp_cache : PageCache) (result : outcome unit).

Definition on_device {A} (m : stateful D A) : stateful W A := fun w =>
  let '(r, d) := m (w_dev w) in (r, set_dev w d).

(** Writing the run of [sector_count] sectors at [sector_start], and
    [temp_cache] without them. *)
Definition sync_run (temp_cache : PageCache) (sector_start sector_count : Z) : stateful W PageCache :=
  let! w := sget in
  let! _ := sassert (sector_start * ss + sector_count * ss <=? Z.of_nat (length (m_sync_cache w))) in
  let data_slice := take (Z.to_nat (sector_count * ss)) (drop (Z.to_nat (sector_start * ss)) (m_sync_cache w)) in
  let! _ := on_device (sd_write (first_sector temp_cache + sector_start) sector_count data_slice) in
  sret (mk_page (paddr temp_cache) (first_sector temp_cache) (sector_mask temp_cache)
          (Z.land (dirty_mask temp_cache) (Z.lnot (Z.shiftl (Z.shiftl 1 sector_count - 1) sector_start)))
          (syncing temp_cache)).

(** One iteration of the loop, or the code after it. *)
Definition sync_step (pc : sync_pc) : stateful W sync_pc := fun w =>
  match pc with
  | SyncLoop temp_cache sector_start sector_count =>
      if sector_start + sector_count <=? sectors_per_page then
        if negb (Z.land (dirty_mask temp_cache) (Z.shiftl 1 (sector_start + sector_count)) =? 0) then
          (Ok (SyncLoop temp_cache sector_start (u8 (sector_count + 1))), w)
        else if sector_count =? 0 then (Ok (SyncLoop temp_cache (u8 (sector_start + 1)) 0), w)
        else
          match sync_run temp_cache sector_start sector_count w with
          | (Ok temp_cache, w) => (Ok (SyncLoop temp_cache (u8 (sector_start + sector_count + 1)) 0), w)
          | (Err e, w) => (Ok (SyncEnd temp_cache (Err e)), w)
          | (Panic, w) => (Panic, w)
          end
      else if 0 <? sector_count then
        match sync_run temp_cache sector_start sector_count w with
        | (Ok temp_cache, w) => (Ok (SyncEnd temp_cache (Ok tt)), w)
        | (Err e, w) => (Ok (SyncEnd temp_cache (Err e)), w)
        | (Panic, w) => (Panic, w)
        end
      else (Ok (SyncEnd temp_cache (Ok tt)), w)
  | SyncEnd _ _ => (Ok pc, w)
  end.

Fixpoint sync_pages (fuel : nat) (pc : sync_pc) : stateful W unit :=
  match pc with
  | SyncEnd temp_cache result => let! _ := sync_end temp_cache in slift result
  | SyncLoop _ _ _ =>
      match fuel with
      | O => slift Panic
      | S fuel' => let! pc := sync_step pc in sync_pages fuel' pc
      end
  end.

(** Each iteration passes a sector of the page at least. *)
Definition sync_cache_index (index : nat) : stateful W unit :=
  let! r := sync_begin index in
  match r with
  | None => sret tt
  | Some temp_cache => sync_pages (Z.to_nat (sectors_per_page + 2)) (SyncLoop temp_cache 0 0)
  end.

(** The loops of [sync] hold no lock between the pages.  The functions are what
    they do when no other thread uses the cache meanwhile; [sync_trace] of
    [DiskCacheSystem] has the other threads in between. *)
Fixpoint sync_all (fuel : nat) (i : nat) : stateful W unit :=
  let! w := sget in
  if (i <? length (m_cache w))%nat then
    match fuel with
    | O => slift Panic
    | S fuel' => let! _ := sync_cache_index i in sync_all fuel' (i + 1)
    end
  else sret tt.

Definition sync : stateful W unit :=
  if g_disable_disk_write then sret tt
  else let! w := sget in sync_all (length (m_cache w)) 0.

Fixpoint sync_until (fuel : nat) (i : nat) (end_ : Z) : stateful W unit :=
  let! w := sget in
  match m_cache w !! i with
  | None => sret tt
  | Some c =>
      if end_ <=? first_sector c then sret tt
      else match fuel with
           | O => slift Panic
           | S fuel' => let! _ := sync_cache_index i in sync_until fuel' (i + 1) end_
           end
  end.

Definition sync_range (sector block_count : Z) : stateful W unit :=
  if g_disable_disk_write then sret tt
  else
    let! w := sget in
    let! i := slift (find_sector_cache_index (m_cache w) sector) in
    sync_until (length (m_cache w)) i (u64 (sector + block_count)).

(** ** Giving pages back *)
Fixpoint release_clean_loop (fuel : nat) (i : nat) (released page_count : Z) : stateful W Z := fun w =>
  match m_cache w !! i with
  | None => (Ok released, w)
  | Some c =>
      if negb (released <? page_count) then (Ok released, w)
      else
        match fuel with
        | O => (Panic, w)
        | S fuel' =>
            if negb (syncing c) && (dirty_mask c =? 0) then
              match ps_release (w_heap w) (paddr c) with
              | Ok h => release_clean_loop fuel' i (released + 1) page_count
                          (set_cache (set_heap w h) (delete i (m_cache w)))
              | _ => (Panic, w)
              end
            else release_clean_loop fuel' (i + 1) released page_count w
        end
  end.

Definition release_clean_pages (page_count : Z) : stateful W Z :=
  let! w := sget in release_clean_loop (length (m_cache w)) 0 0 page_count.

Definition release_pages (page_count : Z) : stateful W Z :=
  let! released := release_clean_pages page_count in
  if page_count <=? released then sret released
  else fun w =>
    match sync w with
    | (Ok _, w) => (let! more := release_clean_pages (page_count - released) in sret (released + more)) w
    | (Err _, w) => (Ok released, w)
    | (Panic, w) => (Panic, w)
    end.

Definition release_all_pages : stateful W Z :=
  let! w := sget in release_pages (Z.of_nat (length (m_cache w))).
End defs.
