(* ===== verification/DiskCacheCorrect.v ===== *)
(** * The disk cache is transparent

    What a reader of the cached disk sees ([view]) changes only when somebody
    writes to it: not when a page is filled with what the disk has, written back
    or released, and not when the device fails.  One operation, or one part of
    it under [m_rw_lock], at a time; [DiskCacheSystem] interleaves them. *)
From stdpp Require Import sorting functions.
From S2P Require Import Prelude BanMath Bitmap BanSort PhysicalRange KHeap DiskCache.

(** ** Sectors of a page *)
Lemma memcpy_length page off data :
  0 <= off -> (Z.to_nat off + length data <= length page)%nat -> length (memcpy_at page off data) = length page.
Proof. intros H0 H1. unfold memcpy_at. rewrite !length_app, length_take, length_drop. lia. Qed.

Lemma sector_at_lookup ss bytes i k : 0 <= i -> 0 < ss -> (k < Z.to_nat ss)%nat ->
  sector_at ss bytes i !! k = bytes !! (Z.to_nat (i * ss) + k)%nat.
Proof. intros Hi Hs Hk. unfold sector_at. by rewrite lookup_take_lt, lookup_drop by lia. Qed.

Lemma sector_at_length ss bytes i : 0 <= i -> 0 < ss -> (i + 1) * ss <= Z.of_nat (length bytes) ->
  length (sector_at ss bytes i) = Z.to_nat ss.
Proof. intros Hi Hs Hl. unfold sector_at. rewrite length_take, length_drop. lia. Qed.

Lemma sector_at_ext ss b1 b2 i j : 0 < ss -> 0 <= i -> 0 <= j ->
  (forall k, (k < Z.to_nat ss)%nat -> b1 !! (Z.to_nat (i * ss) + k)%nat = b2 !! (Z.to_nat (j * ss) + k)%nat) ->
  sector_at ss b1 i = sector_at ss b2 j.
Proof.
  intros Hs Hi Hj He. apply list_eq. intros k. destruct (decide (k < Z.to_nat ss)%nat) as [Hk|Hk].
  - rewrite !sector_at_lookup by done. by apply He.
  - unfold sector_at. by rewrite !lookup_take_ge by lia.
Qed.

Lemma sector_at_memcpy ss page i j data :
  0 < ss -> 0 <= i -> 0 <= j -> (i + 1) * ss <= Z.of_nat (length page) -> Z.of_nat (length data) = ss ->
  sector_at ss (memcpy_at page (i * ss) data) j = if i =? j then data else sector_at ss page j.
Proof.
  intros Hs Hi Hj Hl Hd. unfold memcpy_at. destruct (Z.eqb_spec i j) as [<-|Hne].
  - unfold sector_at. rewrite drop_app_length' by (rewrite length_take; lia).
    by rewrite take_app_length' by lia.
  - apply sector_at_ext; [done..|]. intros k Hk. assert (j < i \/ i < j) as [Hlt|Hlt] by lia.
    + rewrite lookup_app_l by (rewrite length_take; nia). by rewrite lookup_take_lt by nia.
    + rewrite lookup_app_r, lookup_app_r, lookup_drop; rewrite !length_take; [|nia..]. f_equal. nia.
Qed.

Lemma sectors_length ss f lba n : 0 <= n -> (forall s, Z.of_nat (length (f s)) = ss) -> Z.of_nat (length (sectors f lba n)) = n * ss.
Proof.
  intros Hn Hf. unfold sectors. rewrite <- (Z2Nat.id n) at 2 by done. rewrite <- (length_seqZ 0 n).
  generalize (seqZ 0 n). intros l. induction l as [|i l IH]; cbn [map concat length]; [lia|]. rewrite length_app. specialize (Hf (lba + i)). lia.
Qed.

Lemma sector_at_concat ss (f : Z -> list Z) (l : list Z) j i : 0 < ss -> (forall s, Z.of_nat (length (f s)) = ss) -> l !! j = Some i ->
  sector_at ss (concat (map f l)) (Z.of_nat j) = f i.
Proof.
  intros Hs Hf. revert j. induction l as [|x l IH]; intros j Hj; [done|]. cbn [map concat]. pose proof (Hf x) as Hx. destruct j as [|j]; cbn in Hj.
  - simplify_eq. unfold sector_at. rewrite drop_0, take_app_length' by lia. done.
  - rewrite <- (IH j Hj). apply sector_at_ext; [lia..|]. intros k Hk. rewrite lookup_app_r by nia. f_equal. nia.
Qed.

Lemma sector_at_sectors ss f lba n j : 0 < ss -> 0 <= j < n -> (forall s, Z.of_nat (length (f s)) = ss) ->
  sector_at ss (sectors f lba n) j = f (lba + j).
Proof.
  intros Hs Hj Hf. unfold sectors. rewrite <- (Z2Nat.id j) at 1 by lia.
  rewrite (sector_at_concat ss (fun i => f (lba + i)) (seqZ 0 n) (Z.to_nat j) j); [done|done|done|]. rewrite lookup_seqZ. lia.
Qed.

(** ** Searching the cache *)
Definition before (a b : PageCache) : Prop := first_sector a < first_sector b.

Lemma sorted_lt cache i j a b :
  StronglySorted before cache -> cache !! i = Some a -> cache !! j = Some b -> (i < j)%nat -> first_sector a < first_sector b.
Proof.
  intros Hs. revert i j. induction Hs as [|x l Hs IH Hx]; intros i j Ha Hb Hij; [done|].
  destruct j as [|j]; [lia|]. destruct i as [|i]; cbn in Ha, Hb.
  - simplify_eq. rewrite list.Forall_forall in Hx. apply Hx. by eapply list_elem_of_lookup_2.
  - apply (IH i j); [done..|lia].
Qed.

Lemma sorted_unique cache a b :
  StronglySorted before cache -> a ∈ cache -> b ∈ cache -> first_sector a = first_sector b -> a = b.
Proof.
  intros Hs [i Hi]%list_elem_of_lookup [j Hj]%list_elem_of_lookup He.
  destruct (lt_eq_lt_dec i j) as [[Hij| ->]|Hij]; [|congruence|].
  - pose proof (sorted_lt _ _ _ _ _ Hs Hi Hj Hij). lia.
  - pose proof (sorted_lt _ _ _ _ _ Hs Hj Hi Hij). lia.
Qed.

(** [i] is where [start] is, or where it would be inserted. *)
Definition lower_bound (cache : list PageCache) (start : Z) (i : nat) : Prop :=
  (i <= length cache)%nat /\
  (forall j c, cache !! j = Some c -> (j < i)%nat -> first_sector c < start) /\
  (forall j c, cache !! j = Some c -> (i <= j)%nat -> start <= first_sector c).

Lemma search_cache_spec cache start : StronglySorted before cache -> forall fuel l r,
  (r - l <= fuel)%nat -> (l <= r <= length cache)%nat ->
  (forall j c, cache !! j = Some c -> (j < l)%nat -> first_sector c < start) ->
  (forall j c, cache !! j = Some c -> (r <= j)%nat -> start <= first_sector c) ->
  exists i, search_cache fuel cache start l r = Ok i /\ lower_bound cache start i.
Proof.
  intros Hs. induction fuel as [|fuel IH]; intros l r Hf Hlr Hl Hr; cbn [search_cache].
  { rewrite (proj2 (Nat.ltb_ge l r)) by lia. exists l. split; [done|]. split_and!; [lia|done|].
    intros j c Hj Hij. apply (Hr j); [done|lia]. }
  case_if; zify_bool.
  2: { exists l. split; [done|]. split_and!; [lia|done|]. intros j c Hj Hij. apply (Hr j); [done|lia]. }
  set (mid := ((l + r) / 2)%nat). assert (l <= mid < r)%nat as Hmid.
  { subst mid. split; [apply Nat.div_le_lower_bound|apply Nat.Div0.div_lt_upper_bound]; lia. }
  destruct (lookup_lt_is_Some_2 cache mid ltac:(lia)) as [c Hc]. rewrite Hc.
  destruct (Z.eqb_spec (first_sector c) start) as [He|He].
  { exists mid. split; [done|]. split_and!; [lia| |].
    - intros j a Hj Hij. pose proof (sorted_lt _ _ _ _ _ Hs Hj Hc Hij). lia.
    - intros j a Hj Hij. destruct (decide (j = mid)) as [->|]; [simplify_eq; lia|].
      pose proof (sorted_lt _ _ _ _ _ Hs Hc Hj ltac:(lia)). lia. }
  case_if; zify_bool; (apply IH; [lia|lia| |]); [|done|done|].
  - intros j a Hj Hij. destruct (decide (j = mid)) as [->|]; [simplify_eq; lia|].
    pose proof (sorted_lt _ _ _ _ _ Hs Hj Hc ltac:(lia)). lia.
  - intros j a Hj Hij. destruct (decide (j = mid)) as [->|]; [simplify_eq; lia|].
    pose proof (sorted_lt _ _ _ _ _ Hs Hc Hj ltac:(lia)). lia.
Qed.

(** The page that starts at [start]. *)
Fixpoint find_page (cache : list PageCache) (start : Z) : option PageCache :=
  match cache with
  | [] => None
  | c :: cache' => if first_sector c =? start then Some c else find_page cache' start
  end.

Lemma find_page_Some cache start c : StronglySorted before cache ->
  find_page cache start = Some c <-> c ∈ cache /\ first_sector c = start.
Proof.
  intros Hs. split.
  - clear Hs. induction cache as [|x cache IH]; cbn; [done|].
    destruct (Z.eqb_spec (first_sector x) start) as [He|He].
    + intros [= <-]. split; [by apply list_elem_of_here|done].
    + intros [? ?]%IH. split; [by apply list_elem_of_further|done].
  - intros [Hin He]. induction Hs as [|x l Hs IH Hx]; [by apply not_elem_of_nil in Hin|]. cbn.
    apply elem_of_cons in Hin as [->|Hin]; [by rewrite He, Z.eqb_refl|].
    rewrite list.Forall_forall in Hx. pose proof (Hx c Hin) as Hlt. unfold before in Hlt.
    rewrite (proj2 (Z.eqb_neq _ _)) by lia. by apply IH.
Qed.

Lemma find_page_None cache start : find_page cache start = None <-> forall c, c ∈ cache -> first_sector c <> start.
Proof.
  induction cache as [|x cache IH]; cbn.
  - split; [intros _ c Hc; by apply not_elem_of_nil in Hc|done].
  - destruct (Z.eqb_spec (first_sector x) start) as [He|He].
    + split; [done|]. intros Hall. destruct (Hall x); [apply list_elem_of_here|done].
    + rewrite IH. split.
      * intros Hall c [->|Hc]%elem_of_cons; [done|by apply Hall].
      * intros Hall c Hc. apply Hall. by apply list_elem_of_further.
Qed.

(** A page with the same first sector in place of another. *)
Lemma sorted_update cache i c c' : StronglySorted before cache -> cache !! i = Some c -> first_sector c' = first_sector c ->
  StronglySorted before (<[i := c']> cache).
Proof.
  intros Hs. revert i. induction Hs as [|x l Hs IH Hx]; intros i Hi He; [done|]. destruct i as [|i]; cbn in *.
  - simplify_eq. constructor; [done|]. eapply list.Forall_impl; [done|]. intros y Hy. unfold before in *. lia.
  - constructor; [by apply IH|]. apply Forall_insert; [done|].
    rewrite list.Forall_forall in Hx. pose proof (Hx c ltac:(by eapply list_elem_of_lookup_2)). unfold before in *. lia.
Qed.

Lemma find_page_update cache i c c' start : StronglySorted before cache -> cache !! i = Some c -> first_sector c' = first_sector c ->
  find_page (<[i := c']> cache) start = if first_sector c =? start then Some c' else find_page cache start.
Proof.
  intros Hs. revert i. induction Hs as [|x l Hs IH Hx]; intros i Hi He; [done|]. destruct i as [|i]; cbn in *.
  - simplify_eq. rewrite He. destruct (Z.eqb_spec (first_sector c) start); done.
  - rewrite IH by done. rewrite list.Forall_forall in Hx. pose proof (Hx c ltac:(by eapply list_elem_of_lookup_2)) as Hlt.
    unfold before in Hlt. destruct (Z.eqb_spec (first_sector x) start), (Z.eqb_spec (first_sector c) start); [lia|done..].
Qed.

(** A new page at its place. *)
Lemma sorted_insert cache i c : StronglySorted before cache -> lower_bound cache (first_sector c) i ->
  find_page cache (first_sector c) = None -> StronglySorted before (insert_page i c cache).
Proof.
  intros Hs (Hi & Hlt & Hge) Hno. rewrite find_page_None in Hno. unfold insert_page.
  apply StronglySorted_app. rewrite <- (take_drop i cache) in Hs. apply StronglySorted_app in Hs as (H1 & H2 & H3).
  assert (Hb : forall x, x ∈ take i cache -> before x c).
  { intros x (j & Hj)%list_elem_of_lookup. apply lookup_take_Some in Hj as [Hj Hji]. by apply (Hlt j). }
  assert (Ha : forall x, x ∈ drop i cache -> before c x).
  { intros x (j & Hj)%list_elem_of_lookup. rewrite lookup_drop in Hj. pose proof (Hge _ _ Hj ltac:(lia)).
    pose proof (Hno x ltac:(by eapply list_elem_of_lookup_2)). unfold before. lia. }
  split_and!.
  - intros x y Hx [->|Hy]%elem_of_cons; [by apply Hb|by apply H1].
  - done.
  - constructor; [done|]. by apply list.Forall_forall.
Qed.

Lemma find_page_insert cache i c start : StronglySorted before (insert_page i c cache) ->
  find_page (insert_page i c cache) start = if first_sector c =? start then Some c else find_page cache start.
Proof.
  intros Hs. assert (Hin : forall x, x ∈ insert_page i c cache <-> x = c \/ x ∈ cache).
  { intros x. unfold insert_page. rewrite elem_of_app, elem_of_cons. rewrite <- (take_drop i cache) at 3. rewrite elem_of_app. tauto. }
  destruct (Z.eqb_spec (first_sector c) start) as [He|He].
  - apply find_page_Some; [done|]. rewrite Hin. auto.
  - destruct (find_page cache start) as [x|] eqn:Hx.
    + apply find_page_Some; [done|]. rewrite Hin. clear Hs Hin.
      induction cache as [|y cache IH]; cbn in Hx; [done|]. destruct (Z.eqb_spec (first_sector y) start).
      * simplify_eq. split; [right; apply list_elem_of_here|done].
      * apply IH in Hx as [[->|Hx] Hf]; [done|]. split; [right; by apply list_elem_of_further|done].
    + rewrite find_page_None in *. intros x [->|Hc]%Hin; [done|by apply Hx].
Qed.

(** A page taken out. *)
Lemma sorted_delete cache i : StronglySorted before cache -> StronglySorted before (delete i cache).
Proof.
  intros Hs. revert i. induction Hs as [|x l Hs IH Hx]; intros [|i]; cbn; [constructor|constructor|done|].
  constructor; [done|]. rewrite list.Forall_forall in *. intros y Hy. apply Hx. by eapply list_elem_of_delete_inv.
Qed.

Lemma find_page_delete cache i c start : StronglySorted before cache -> cache !! i = Some c ->
  find_page (delete i cache) start = if first_sector c =? start then None else find_page cache start.
Proof.
  intros Hs. revert i. induction Hs as [|x l Hs IH Hx]; intros i Hi; [done|]. rewrite list.Forall_forall in Hx.
  destruct i as [|i]; cbn in *.
  - simplify_eq. destruct (Z.eqb_spec (first_sector c) start) as [He|]; [|done].
    apply find_page_None. intros y Hy. pose proof (Hx y Hy). unfold before in *. lia.
  - rewrite IH by done. pose proof (Hx c ltac:(by eapply list_elem_of_lookup_2)) as Hlt.
    unfold before in Hlt. destruct (Z.eqb_spec (first_sector x) start), (Z.eqb_spec (first_sector c) start); [lia|done..].
Qed.

(** ** The cache and the disk *)
Section theory.
Context (ss : Z) (insert_ok : nat -> bool) {H D : Type} `{PS : PageSource H} `{PSL : !PageSourceLaws H} `{SD : StorageDriver D} `{SDL : !StorageDriverLaws ss D}.
Context (Hss : 0 < ss) (Hgeometry : DiskCache_construct ss = Ok []).
Abbreviation W := (world H D).
Abbreviation spp := (sectors_per_page ss).

Lemma geometry : 1 <= spp <= 8 /\ spp * ss = PAGE_SIZE.
Proof.
  unfold DiskCache_construct in Hgeometry. unfold sectors_per_page. repeat case_if_in Hgeometry; zify_bool; [|done..].
  pose proof (Z.div_mod PAGE_SIZE ss ltac:(lia)). nia.
Qed.

Lemma offset_range s : 0 <= page_cache_offset ss s < spp.
Proof. apply Z.mod_pos_bound. pose proof geometry. lia. Qed.

(** A sector is at one place in one page. *)
Lemma sector_place start i : 0 <= i < spp -> start `mod` spp = 0 ->
  page_cache_start ss (start + i) = start /\ page_cache_offset ss (start + i) = i.
Proof.
  intros Hi Hm. unfold page_cache_start, page_cache_offset.
  assert (Ho : (start + i) `mod` spp = i).
  { rewrite Z.add_mod, Hm, Z.add_0_l, Z.mod_mod by lia. by apply Z.mod_small. }
  rewrite Ho. lia.
Qed.

Lemma start_aligned s : page_cache_start ss s `mod` spp = 0.
Proof.
  unfold page_cache_start, page_cache_offset. pose proof geometry. rewrite Zminus_mod_idemp_r, Z.sub_diag. done.
Qed.

Lemma start_nonneg s : 0 <= s -> 0 <= page_cache_start ss s.
Proof. intros Hs. pose proof geometry. unfold page_cache_start, page_cache_offset. pose proof (Z.mod_le s spp). lia. Qed.

Lemma start_offset s : page_cache_start ss s + page_cache_offset ss s = s.
Proof. unfold page_cache_start. lia. Qed.

(** What a reader sees. *)
Definition page_sector (w : W) (c : PageCache) (i : Z) : list Z := sector_at ss (w_mem w (paddr c)) i.

Definition view (w : W) (s : Z) : list Z :=
  match find_page (m_cache w) (page_cache_start ss s) with
  | Some c => if Z.testbit (sector_mask c) (page_cache_offset ss s) then page_sector w c (page_cache_offset ss s) else sector (w_dev w) s
  | None => sector (w_dev w) s
  end.

(** A write-back under way: its page, and the sectors of the copy that the disk
    does not have yet. *)
Record flight : Type := mk_flight { f_sector : Z; f_mask : Z }.

Definition in_flight (fl : option flight) (c : PageCache) (i : Z) : bool :=
  match fl with Some f => (first_sector c =? f_sector f) && Z.testbit (f_mask f) i | None => false end.

Record page_ok (c : PageCache) : Prop := {
  first_aligned : first_sector c `mod` spp = 0;
  first_nonneg : 0 <= first_sector c;
  mask_range : 0 <= sector_mask c < 2 ^ spp;
  dirty_range : 0 <= dirty_mask c < 2 ^ spp;
  dirty_present : forall i, Z.testbit (dirty_mask c) i = true -> Z.testbit (sector_mask c) i = true
}.

Definition flight_ok (w : W) (fl : option flight) : Prop :=
  match fl with
  | None => True
  | Some f =>
      0 <= f_mask f < 2 ^ spp /\
      exists c, find_page (m_cache w) (f_sector f) = Some c /\
        forall i, Z.testbit (f_mask f) i = true ->
          Z.testbit (sector_mask c) i = true /\
          (Z.testbit (dirty_mask c) i = false -> sector_at ss (m_sync_cache w) i = page_sector w c i)
  end.

(** [fl] is the write-back under way; there is at most one, for [m_sync_mutex]
    is held during it. *)
Record inv (w : W) (fl : option flight) : Prop := {
  inv_sorted : StronglySorted before (m_cache w);
  inv_pages : forall c, c ∈ m_cache w -> page_ok c;
  inv_heap : holds (w_heap w) (map paddr (m_cache w));
  inv_mem : forall p, Z.of_nat (length (w_mem w p)) = PAGE_SIZE;
  inv_snapshot : Z.of_nat (length (m_sync_cache w)) = PAGE_SIZE;
  inv_clean : forall c i, c ∈ m_cache w -> 0 <= i < spp -> Z.testbit (sector_mask c) i = true ->
    Z.testbit (dirty_mask c) i = false -> in_flight fl c i = false -> page_sector w c i = sector (w_dev w) (first_sector c + i);
  inv_syncing : forall c, c ∈ m_cache w ->
    syncing c = match fl with Some f => first_sector c =? f_sector f | None => false end;
  inv_flight : flight_ok w fl
}.

Lemma view_cached w fl c i : inv w fl -> c ∈ m_cache w -> 0 <= i < spp -> Z.testbit (sector_mask c) i = true ->
  view w (first_sector c + i) = page_sector w c i.
Proof.
  intros HI Hc Hi Hb. destruct (sector_place (first_sector c) i Hi) as [E1 E2]; [by apply (inv_pages w fl HI)|].
  unfold view. rewrite E1, E2. rewrite (proj2 (find_page_Some _ _ c (inv_sorted w fl HI))) by done. by rewrite Hb.
Qed.

Lemma view_uncached w fl c i : inv w fl -> c ∈ m_cache w -> 0 <= i < spp -> Z.testbit (sector_mask c) i = false ->
  view w (first_sector c + i) = sector (w_dev w) (first_sector c + i).
Proof.
  intros HI Hc Hi Hb. destruct (sector_place (first_sector c) i Hi) as [E1 E2]; [by apply (inv_pages w fl HI)|].
  unfold view. rewrite E1, E2. rewrite (proj2 (find_page_Some _ _ c (inv_sorted w fl HI))) by done. by rewrite Hb.
Qed.

Lemma index_spec w fl s : inv w fl -> exists i, find_sector_cache_index ss (m_cache w) s = Ok i /\ lower_bound (m_cache w) (page_cache_start ss s) i.
Proof.
  intros HI. apply search_cache_spec; [by apply (inv_sorted w fl)|lia|lia|lia|].
  intros j c Hj%lookup_lt_Some. lia.
Qed.

(** The page at the index that the search returns. *)
Lemma index_hit w fl s i : inv w fl -> lower_bound (m_cache w) (page_cache_start ss s) i ->
  find_page (m_cache w) (page_cache_start ss s) =
  match m_cache w !! i with
  | Some c => if first_sector c =? page_cache_start ss s then Some c else None
  | None => None
  end.
Proof.
  intros HI (Hi & Hlt & Hge). pose proof (inv_sorted w fl HI) as Hs.
  assert (Hmiss : (forall j c, m_cache w !! j = Some c -> first_sector c = page_cache_start ss s -> j = i) ->
    (forall c, m_cache w !! i = Some c -> first_sector c <> page_cache_start ss s) -> find_page (m_cache w) (page_cache_start ss s) = None).
  { intros Hj Hno. apply find_page_None. intros c [j Hc]%list_elem_of_lookup He. pose proof (Hj j c Hc He) as ->. by apply (Hno c). }
  assert (Hat : forall j c, m_cache w !! j = Some c -> first_sector c = page_cache_start ss s -> j = i \/ (i < j)%nat).
  { intros j c Hj He. destruct (decide (j < i)%nat) as [Hji|]; [|lia]. pose proof (Hlt j c Hj Hji). lia. }
  destruct (m_cache w !! i) as [c|] eqn:Hc.
  - destruct (Z.eqb_spec (first_sector c) (page_cache_start ss s)) as [He|He].
    + apply find_page_Some; [done|]. split; [by eapply list_elem_of_lookup_2|done].
    + apply Hmiss; [|intros ? [= <-]; done]. intros j d Hj Hd.
      destruct (Hat j d Hj Hd) as [|Hij]; [done|]. pose proof (sorted_lt _ _ _ _ _ Hs Hc Hj Hij). pose proof (Hge i c Hc ltac:(lia)). lia.
  - apply Hmiss; [|done]. intros j d Hj Hd. destruct (Hat j d Hj Hd) as [|Hij]; [done|].
    apply lookup_ge_None in Hc. apply lookup_lt_Some in Hj. lia.
Qed.

Lemma paddr_unique w fl c d : inv w fl -> c ∈ m_cache w -> d ∈ m_cache w -> paddr c = paddr d -> c = d.
Proof.
  intros HI [i Hi]%list_elem_of_lookup [j Hj]%list_elem_of_lookup He.
  pose proof (holds_NoDup _ _ (inv_heap w fl HI)) as Hnd. rewrite NoDup_alt in Hnd.
  assert (i = j) as ->; [|congruence].
  apply (Hnd i j (paddr c)); change (map paddr (m_cache w)) with (paddr <$> m_cache w); rewrite list_lookup_fmap; [by rewrite Hi|].
  rewrite Hj. cbn. by rewrite He.
Qed.

Lemma elem_of_update (cache : list PageCache) i c c' x : StronglySorted before cache -> cache !! i = Some c ->
  x ∈ <[i := c']> cache -> x = c' \/ (x ∈ cache /\ first_sector x <> first_sector c).
Proof.
  intros Hs Hi [j Hj]%list_elem_of_lookup. destruct (decide (i = j)) as [<-|Hne].
  - rewrite list_lookup_insert_eq in Hj by (by eapply lookup_lt_Some). simplify_eq. by left.
  - rewrite list_lookup_insert_ne in Hj by done. right. split; [by eapply list_elem_of_lookup_2|].
    intros He. destruct (lt_eq_lt_dec i j) as [[Hij|]|Hij]; [|done|].
    + pose proof (sorted_lt _ _ _ _ _ Hs Hi Hj Hij). lia.
    + pose proof (sorted_lt _ _ _ _ _ Hs Hj Hi Hij). lia.
Qed.

Lemma map_paddr_update (cache : list PageCache) i c c' : cache !! i = Some c -> paddr c' = paddr c -> map paddr (<[i := c']> cache) = map paddr cache.
Proof.
  intros Hi He. change (paddr <$> <[i := c']> cache = paddr <$> cache). rewrite list_fmap_insert, He.
  apply list_insert_id. rewrite list_lookup_fmap, Hi. done.
Qed.

(** *** Storing a sector in a page *)
Definition with_sector (c : PageCache) (offset : Z) (dirty : bool) : PageCache :=
  let bit := Z.shiftl 1 offset in
  mk_page (paddr c) (first_sector c) (u8 (Z.lor (sector_mask c) bit))
    (if dirty then u8 (Z.lor (dirty_mask c) bit) else dirty_mask c) (syncing c).

Lemma mask_spec m o : 0 <= m < 2 ^ spp -> 0 <= o < spp ->
  u8 (Z.lor m (Z.shiftl 1 o)) = Z.lor m (Z.shiftl 1 o) /\ 0 <= Z.lor m (Z.shiftl 1 o) < 2 ^ spp /\
  forall i, 0 <= i -> Z.testbit (Z.lor m (Z.shiftl 1 o)) i = (i =? o) || Z.testbit m i.
Proof.
  intros Hm Ho. pose proof geometry as [Hg _]. destruct (setbit_spec spp m o Hm Ho) as [H1 H2]. split_and!; [|lia|lia|done].
  apply wrap_id. pose proof (Z.pow_le_mono_r 2 spp 8). lia.
Qed.

Lemma with_sector_bits c o dirty : page_ok c -> 0 <= o < spp ->
  page_ok (with_sector c o dirty) /\
  (forall i, 0 <= i -> Z.testbit (sector_mask (with_sector c o dirty)) i = (i =? o) || Z.testbit (sector_mask c) i) /\
  (forall i, 0 <= i -> Z.testbit (dirty_mask (with_sector c o dirty)) i = (dirty && (i =? o)) || Z.testbit (dirty_mask c) i).
Proof.
  intros [Ha Hn Hm Hd Hp] Ho. destruct (mask_spec _ _ Hm Ho) as (Em & Rm & Bm). destruct (mask_spec _ _ Hd Ho) as (Ed & Rd & Bd).
  assert (B1 : forall i, 0 <= i -> Z.testbit (sector_mask (with_sector c o dirty)) i = (i =? o) || Z.testbit (sector_mask c) i)
    by (intros i Hi; cbn; rewrite Em; by apply Bm).
  assert (B2 : forall i, 0 <= i -> Z.testbit (dirty_mask (with_sector c o dirty)) i = (dirty && (i =? o)) || Z.testbit (dirty_mask c) i)
    by (intros i Hi; cbn; destruct dirty; [rewrite Ed; by apply Bd|done]).
  split_and!; [|done|done]. split; cbn [with_sector first_sector sector_mask dirty_mask]; [done|done|by rewrite Em|destruct dirty; [by rewrite Ed|done]|].
  intros i Hi. assert (0 <= i) as H0i by (destruct (decide (0 <= i)); [done|rewrite Z.testbit_neg_r in Hi by lia; done]).
  change (Z.testbit (dirty_mask (with_sector c o dirty)) i = true) in Hi. change (Z.testbit (sector_mask (with_sector c o dirty)) i = true).
  rewrite B1, B2 in * by done. destruct (Z.eqb_spec i o); [done|]. rewrite andb_false_r in Hi. by apply Hp.
Qed.

Definition store (w : W) (i : nat) (c : PageCache) (o : Z) (data : list Z) (dirty : bool) : W :=
  set_cache (set_mem w (paddr c) (memcpy_at (w_mem w (paddr c)) (o * ss) data)) (<[i := with_sector c o dirty]> (m_cache w)).

Lemma page_sector_store w fl i c o data dirty x j : inv w fl -> m_cache w !! i = Some c -> 0 <= o < spp -> Z.of_nat (length data) = ss ->
  0 <= j -> x ∈ m_cache w \/ paddr x = paddr c ->
  page_sector (store w i c o data dirty) x j = if (paddr x =? paddr c) && (o =? j) then data else page_sector w x j.
Proof.
  intros HI Hi Ho Hl Hj Hx. pose proof geometry as [Hg Hgs]. unfold page_sector. cbn. destruct (Z.eqb_spec (paddr x) (paddr c)) as [He|He]; cbn.
  - rewrite He, fn_lookup_insert, sector_at_memcpy; [done|lia|lia|done| |done]. rewrite (inv_mem w fl HI). nia.
  - by rewrite fn_lookup_insert_ne by done.
Qed.

Lemma view_store w fl i c o data dirty s : inv w fl -> m_cache w !! i = Some c -> 0 <= o < spp -> Z.of_nat (length data) = ss ->
  view (store w i c o data dirty) s = if s =? first_sector c + o then data else view w s.
Proof.
  intros HI Hi Ho Hl. pose proof (list_elem_of_lookup_2 _ _ _ Hi) as Hc. pose proof (inv_pages w fl HI c Hc) as Hok.
  destruct (with_sector_bits c o dirty Hok Ho) as (_ & B1 & _). unfold view.
  assert (Hm : m_cache (store w i c o data dirty) = <[i := with_sector c o dirty]> (m_cache w)) by done.
  rewrite Hm, (find_page_update _ i c) by (done || by apply (inv_sorted w fl)).
  pose proof (offset_range s) as Hos. pose proof (start_offset s) as Hso.
  destruct (Z.eqb_spec (first_sector c) (page_cache_start ss s)) as [He|He].
  - rewrite (proj2 (find_page_Some _ _ c (inv_sorted w fl HI))) by done.
    rewrite B1 by lia. rewrite (page_sector_store w fl) by (done || lia || by right).
    cbn [with_sector paddr]. rewrite Z.eqb_refl. cbn [andb].
    destruct (Z.eqb_spec (page_cache_offset ss s) o) as [Eo|Eo].
    + rewrite (proj2 (Z.eqb_eq s _)) by lia. by rewrite (proj2 (Z.eqb_eq o _)).
    + rewrite (proj2 (Z.eqb_neq s _)) by lia. rewrite (proj2 (Z.eqb_neq o _)) by done. done.
  - rewrite (proj2 (Z.eqb_neq s _)).
    2: { intros ->. destruct (sector_place (first_sector c) o Ho) as [E1 _]; [by apply Hok|]. congruence. }
    destruct (find_page (m_cache w) (page_cache_start ss s)) as [d|] eqn:Ed; [|done].
    apply find_page_Some in Ed as [Hd Ed]; [|by apply (inv_sorted w fl)].
    rewrite (page_sector_store w fl) by (done || lia || by left).
    destruct (Z.eqb_spec (paddr d) (paddr c)) as [Ep|]; [|done].
    pose proof (paddr_unique w fl d c HI Hd Hc Ep) as ->. congruence.
Qed.

(** Storing new data marks it dirty; storing what is there already need not. *)
Lemma store_flight w fl i c o data dirty : inv w fl -> m_cache w !! i = Some c -> 0 <= o < spp -> Z.of_nat (length data) = ss ->
  (dirty = false -> data = view w (first_sector c + o)) -> flight_ok (store w i c o data dirty) fl.
Proof.
  intros HI Hi Ho Hl Hd. pose proof (list_elem_of_lookup_2 _ _ _ Hi) as Hc. pose proof (inv_pages w fl HI c Hc) as Hok.
  destruct (with_sector_bits c o dirty Hok Ho) as (_ & B1 & B2). pose proof (inv_sorted w fl HI) as Hs.
  destruct fl as [f|]; [|done]. destruct (inv_flight w (Some f) HI) as (Hr & d & Hd1 & Hd2). split; [done|].
  cbn [store set_cache m_cache]. rewrite (find_page_update _ i c) by done.
  destruct (Z.eqb_spec (first_sector c) (f_sector f)) as [Ef|Ef].
  - assert (d = c) as ->.
    { apply find_page_Some in Hd1 as [? ?]; [|done]. apply (sorted_unique (m_cache w)); [done..|congruence]. }
    exists (with_sector c o dirty). split; [done|]. intros j Hj.
    assert (0 <= j) as H0j by (destruct (decide (0 <= j)); [done|rewrite Z.testbit_neg_r in Hj by lia; done]).
    destruct (Hd2 j Hj) as [Hm Hsnap]. rewrite B1, B2, Hm, orb_true_r by done. split; [done|]. intros [Hb1 Hb2]%orb_false_iff.
    change (m_sync_cache _) with (m_sync_cache w). rewrite (page_sector_store w (Some f)) by (done || by right).
    cbn [with_sector paddr]. rewrite Z.eqb_refl. cbn [andb]. rewrite Hsnap by done.
    destruct (Z.eqb_spec o j) as [<-|]; [|done]. rewrite Z.eqb_refl, andb_true_r in Hb1. rewrite Hd by done.
    symmetry. by apply (view_cached w (Some f)).
  - exists d. split; [done|]. intros j Hj.
    assert (0 <= j) as H0j by (destruct (decide (0 <= j)); [done|rewrite Z.testbit_neg_r in Hj by lia; done]).
    destruct (Hd2 j Hj) as [Hm Hsnap]. split; [done|]. intros Hb. change (m_sync_cache _) with (m_sync_cache w).
    apply find_page_Some in Hd1 as [Hdin Hd1]; [|done].
    rewrite (page_sector_store w (Some f)) by (done || by left). rewrite Hsnap by done.
    destruct (Z.eqb_spec (paddr d) (paddr c)) as [Ep|]; [|done].
    pose proof (paddr_unique w _ d c HI Hdin Hc Ep) as ->. done.
Qed.

Lemma store_inv w fl i c o data dirty : inv w fl -> m_cache w !! i = Some c -> 0 <= o < spp -> Z.of_nat (length data) = ss ->
  (dirty = false -> data = view w (first_sector c + o)) -> inv (store w i c o data dirty) fl.
Proof.
  intros HI Hi Ho Hl Hd. pose proof (list_elem_of_lookup_2 _ _ _ Hi) as Hc. pose proof (inv_pages w fl HI c Hc) as Hok.
  destruct (with_sector_bits c o dirty Hok Ho) as (Hok' & B1 & B2). pose proof (inv_sorted w fl HI) as Hs. pose proof geometry as [Hg Hgs].
  assert (Hcases : forall x, x ∈ m_cache (store w i c o data dirty) -> x = with_sector c o dirty \/ (x ∈ m_cache w /\ first_sector x <> first_sector c))
    by (intros x Hx; by apply (elem_of_update _ i)).
  split.
  - by apply (sorted_update _ i c).
  - intros x [->|[Hx _]]%Hcases; [done|by apply (inv_pages w fl)].
  - cbn [store set_cache m_cache set_mem w_heap]. rewrite (map_paddr_update _ i c) by done. by apply (inv_heap w fl).
  - intros p. cbn. destruct (decide (paddr c = p)) as [<-|].
    + rewrite fn_lookup_insert, memcpy_length; [by apply (inv_mem w fl)|lia|]. pose proof (inv_mem w fl HI (paddr c)). nia.
    + rewrite fn_lookup_insert_ne by done. by apply (inv_mem w fl).
  - by apply (inv_snapshot w fl).
  - intros x j Hx Hj Hm Hb Hf. change (w_dev _) with (w_dev w). destruct (Hcases x Hx) as [->|[Hx' Hne]].
    + rewrite (page_sector_store w fl) by (done || lia || by right). cbn [with_sector paddr first_sector]. rewrite Z.eqb_refl. cbn [andb].
      rewrite B1, B2 in * by lia. apply orb_false_iff in Hb as [Hb1 Hb2]. rewrite (Z.eqb_sym o j). destruct (Z.eqb_spec j o) as [->|Hjo].
      * rewrite andb_true_r in Hb1. rewrite Hd by done. destruct (Z.testbit (sector_mask c) o) eqn:Em.
        -- rewrite (view_cached w fl) by done. exact (inv_clean w fl HI c o Hc Ho Em Hb2 Hf).
        -- by apply (view_uncached w fl).
      * exact (inv_clean w fl HI c j Hc Hj Hm Hb2 Hf).
    + rewrite (page_sector_store w fl) by (done || lia || by left).
      destruct (Z.eqb_spec (paddr x) (paddr c)) as [Ep|]; [|by apply (inv_clean w fl)].
      pose proof (paddr_unique w fl x c HI Hx' Hc Ep) as ->. done.
  - intros x [->|[Hx _]]%Hcases; [|by apply (inv_syncing w fl)]. cbn. by apply (inv_syncing w fl).
  - by apply store_flight.
Qed.

(** *** Reading *)
Lemma read_from_cache_spec w fl s size : inv w fl -> 0 <= s -> ss <= size ->
  read_from_cache ss s size w =
  (Ok (match find_page (m_cache w) (page_cache_start ss s) with
       | Some c => if Z.testbit (sector_mask c) (page_cache_offset ss s) then Some (view w s) else None
       | None => None
       end), w).
Proof.
  intros HI Hs Hsize. unfold read_from_cache, sbind, sassert, sget, slift. rewrite (proj2 (Z.leb_le _ _)) by done.
  destruct (index_spec w fl s HI) as (i & -> & Hlb). unfold view. rewrite (index_hit w fl s i HI Hlb).
  destruct (m_cache w !! i) as [c|] eqn:Hc; [|done].
  destruct (Z.eqb_spec (first_sector c) (page_cache_start ss s)) as [He|He]; cbn [negb]; [|done].
  pose proof (land_bit_testbit (sector_mask c) (page_cache_offset ss s) ltac:(apply offset_range)) as Hb.
  destruct (Z.land _ _ =? 0); cbn [negb] in Hb; rewrite <- Hb; done.
Qed.

(** *** Writing *)
Definition miss (w : W) (s : Z) : Prop := find_page (m_cache w) (page_cache_start ss s) = None.

(** Nothing of a world changed but its heap and the count of insertions. *)
Definition same_cache (w w' : W) : Prop :=
  m_cache w' = m_cache w /\ m_sync_cache w' = m_sync_cache w /\ w_mem w' = w_mem w /\ w_dev w' = w_dev w.

Lemma same_cache_inv w w' fl : same_cache w w' -> holds (w_heap w') (map paddr (m_cache w)) -> inv w fl -> inv w' fl.
Proof.
  intros (E1 & E2 & E3 & E4) Hh [Hs Hp _ Hm Hsn Hc Hsy Hf].
  split; unfold page_sector, flight_ok in *; try rewrite E1; try rewrite E2; try rewrite E3; try rewrite E4; try done.
  unfold page_sector in *. by rewrite E3.
Qed.

Lemma same_cache_view w w' s : same_cache w w' -> view w' s = view w s.
Proof. intros (E1 & E2 & E3 & E4). unfold view, page_sector. by rewrite E1, E3, E4. Qed.

Lemma elem_of_insert_page i c cache x : x ∈ insert_page i c cache -> x = c \/ x ∈ cache.
Proof.
  unfold insert_page. rewrite elem_of_app, elem_of_cons. rewrite <- (take_drop i cache) at 3. rewrite elem_of_app. tauto.
Qed.

Lemma map_paddr_insert i c cache : map paddr (insert_page i c cache) ≡ₚ paddr c :: map paddr cache.
Proof.
  unfold insert_page. rewrite map_app. cbn [map]. rewrite <- Permutation_middle, <- map_app. by rewrite take_drop.
Qed.

(** A new page holds no sector yet. *)
Definition with_page (w : W) (h : H) (i : nat) (p s : Z) : W :=
  set_cache (count_insert (set_heap w h)) (insert_page i (mk_page p (page_cache_start ss s) 0 0 false) (m_cache w)).

Lemma with_page_ok w fl h i p s : inv w fl -> 0 <= s -> lower_bound (m_cache w) (page_cache_start ss s) i -> miss w s ->
  holds h (p :: map paddr (m_cache w)) ->
  inv (with_page w h i p s) fl /\ forall s', view (with_page w h i p s) s' = view w s'.
Proof.
  intros HI Hs0 Hlb Hmiss Hh. pose proof (inv_sorted w fl HI) as Hs.
  assert (Hs' : StronglySorted before (insert_page i (mk_page p (page_cache_start ss s) 0 0 false) (m_cache w)))
    by (apply sorted_insert; done).
  assert (Hfind : forall start, find_page (m_cache (with_page w h i p s)) start =
    if page_cache_start ss s =? start then Some (mk_page p (page_cache_start ss s) 0 0 false) else find_page (m_cache w) start)
    by (intros start; by apply find_page_insert).
  split; [split|].
  - done.
  - intros x [->|Hx]%elem_of_insert_page; [|by apply (inv_pages w fl)]. pose proof geometry as [Hg _].
    split; cbn; [apply start_aligned|by apply start_nonneg|split; [done|by apply Z.pow_pos_nonneg; lia]..|]. intros j. by rewrite Z.bits_0.
  - eapply holds_perm; [done|]. symmetry. apply map_paddr_insert.
  - apply (inv_mem w fl HI).
  - apply (inv_snapshot w fl HI).
  - intros x j [->|Hx]%elem_of_insert_page; [cbn; by rewrite Z.bits_0|]. by apply (inv_clean w fl).
  - intros x [->|Hx]%elem_of_insert_page; [|by apply (inv_syncing w fl)]. cbn. destruct fl as [f|]; [|done].
    destruct (Z.eqb_spec (page_cache_start ss s) (f_sector f)) as [Ef|]; [|done].
    destruct (inv_flight w _ HI) as (_ & c & Hc & _). unfold miss in Hmiss. congruence.
  - pose proof (inv_flight w fl HI) as Hf. destruct fl as [f|]; [|done]. destruct Hf as (Hr & c & Hc & Hall). split; [done|].
    exists c. rewrite Hfind. destruct (Z.eqb_spec (page_cache_start ss s) (f_sector f)) as [Ef|]; [|done].
    unfold miss in Hmiss. congruence.
  - intros s'. unfold view. rewrite Hfind. destruct (Z.eqb_spec (page_cache_start ss s) (page_cache_start ss s')) as [E|]; [|done].
    cbn. rewrite Z.bits_0, <- E. by rewrite Hmiss.
Qed.

Lemma make_page_spec w fl i s : inv w fl -> 0 <= s -> lower_bound (m_cache w) (page_cache_start ss s) i ->
  let '(r, w') := make_page ss insert_ok i s w in
  inv w' fl /\ w_dev w' = w_dev w /\ (forall s', view w' s' = view w s') /\
  match r with
  | Ok _ => exists c, m_cache w' !! i = Some c /\ first_sector c = page_cache_start ss s
  | Err e => e = ENOMEM /\ miss w s /\ m_cache w' = m_cache w
  | Panic => False
  end.
Proof.
  intros HI Hs Hlb. pose proof (index_hit w fl s i HI Hlb) as Hhit. unfold make_page.
  destruct (match m_cache w !! i with Some c => negb (first_sector c =? page_cache_start ss s) | None => true end) eqn:Em.
  - assert (Hmiss : miss w s).
    { unfold miss. rewrite Hhit. destruct (m_cache w !! i) as [c|]; [|done]. by destruct (first_sector c =? _). }
    destruct (take_holds (w_heap w) _ (inv_heap w fl HI)) as [->|(h & p & -> & Hp & Hh)].
    + split_and!; [|done|done|done..]. apply (same_cache_inv w); [by repeat split|by apply (inv_heap w fl)|done].
    + rewrite (proj2 (Z.eqb_neq p 0)) by done. cbn [set_heap w_inserts]. destruct (insert_ok (w_inserts w)).
      * destruct (with_page_ok w fl h i p s HI Hs Hlb Hmiss Hh) as [HI' Hv]. split_and!; [done|done|done|].
        exists (mk_page p (page_cache_start ss s) 0 0 false). split; [|done]. cbn. unfold insert_page.
        destruct Hlb as (Hi & _). rewrite lookup_app_r, length_take; rewrite ?length_take; [|lia]. by replace (i - _)%nat with O by lia.
      * cbn [count_insert set_heap w_heap]. destruct (release_holds h p _ Hh) as (h' & -> & Hh').
        split_and!; [|done|done|done..]. apply (same_cache_inv w); [by repeat split|done|done].
  - split_and!; [done..|]. destruct (m_cache w !! i) as [c|] eqn:Hc; [|done]. exists c. split; [done|]. zify_bool. done.
Qed.

Lemma write_to_cache_spec w fl s buffer dirty : inv w fl -> 0 <= s -> ss <= Z.of_nat (length buffer) ->
  (dirty = false -> take (Z.to_nat ss) buffer = view w s) ->
  let '(r, w') := write_to_cache ss insert_ok s buffer dirty w in
  inv w' fl /\ w_dev w' = w_dev w /\
  match r with
  | Ok _ => forall s', view w' s' = if s' =? s then take (Z.to_nat ss) buffer else view w s'
  | Err e => e = ENOMEM /\ miss w' s /\ forall s', view w' s' = view w s'
  | Panic => False
  end.
Proof.
  intros HI Hs Hl Hd. unfold write_to_cache, sbind, sassert, sget, slift. rewrite (proj2 (Z.leb_le _ _)) by done.
  destruct (index_spec w fl s HI) as (i & -> & Hlb).
  pose proof (make_page_spec w fl i s HI Hs Hlb) as Hmk. destruct (make_page ss insert_ok i s w) as [[[]|e|] w'].
  - destruct Hmk as (HI' & Hdev & Hv & c & Hc & Hf). rewrite Hc. pose proof (offset_range s) as Ho. pose proof (start_offset s) as Hso.
    assert (Hlen : Z.of_nat (length (take (Z.to_nat ss) buffer)) = ss) by (rewrite length_take; lia).
    change (sput _ w') with (@Ok unit tt, store w' i c (page_cache_offset ss s) (take (Z.to_nat ss) buffer) dirty).
    split_and!; [|done|].
    + apply store_inv; [done..|]. intros Hnd. rewrite Hf, Hso, Hv. by apply Hd.
    + intros s'. rewrite (view_store w' fl) by done. rewrite Hf, Hso, Hv. done.
  - destruct Hmk as (HI' & Hdev & Hv & -> & Hm & Ec). split_and!; [done..| |done]. unfold miss. by rewrite Ec.
  - by destruct Hmk as (_ & _ & _ & []).
Qed.

(** *** Writing back *)
Lemma testbit_nonneg m i : Z.testbit m i = true -> 0 <= i.
Proof. intros Hi. destruct (decide (0 <= i)); [done|]. rewrite Z.testbit_neg_r in Hi by lia. done. Qed.

Lemma mask_bit_lt m i : 0 <= m < 2 ^ spp -> Z.testbit m i = true -> 0 <= i < spp.
Proof.
  intros Hm Hi. split; [by eapply testbit_nonneg|]. destruct (decide (i < spp)); [done|].
  rewrite (testbit_small spp) in Hi by lia. done.
Qed.

Lemma mask_zero m : 0 <= m < 2 ^ spp -> (forall i, 0 <= i < spp -> Z.testbit m i = false) -> m = 0.
Proof.
  intros Hm Hall. apply Z.bits_inj'. intros i Hi. rewrite Z.bits_0. destruct (decide (i < spp)); [apply Hall; lia|].
  apply (testbit_small spp); lia.
Qed.

(** Any page with its first sector kept. *)
Definition with_state (c : PageCache) (dirty : Z) (b : bool) : PageCache :=
  mk_page (paddr c) (first_sector c) (sector_mask c) dirty b.

Lemma view_with_state w i c dirty b s : StronglySorted before (m_cache w) -> m_cache w !! i = Some c ->
  view (set_cache w (<[i := with_state c dirty b]> (m_cache w))) s = view w s.
Proof.
  intros Hs Hi. unfold view. cbn [set_cache m_cache]. rewrite (find_page_update _ i c) by done.
  destruct (Z.eqb_spec (first_sector c) (page_cache_start ss s)) as [He|He]; [|done].
  rewrite (proj2 (find_page_Some _ _ c Hs)) by (split; [by eapply list_elem_of_lookup_2|done]). done.
Qed.

Lemma with_state_inv w fl fl' i c dirty b :
  inv w fl -> m_cache w !! i = Some c -> 0 <= dirty < 2 ^ spp ->
  (forall j, Z.testbit dirty j = true -> Z.testbit (sector_mask c) j = true) ->
  (forall x, x ∈ m_cache w -> first_sector x <> first_sector c ->
     syncing x = (match fl' with Some f => first_sector x =? f_sector f | None => false end) /\ forall j, in_flight fl' x j = in_flight fl x j) ->
  b = (match fl' with Some f => first_sector c =? f_sector f | None => false end) ->
  (forall j, Z.testbit dirty j = false -> in_flight fl' c j = false -> Z.testbit (dirty_mask c) j = false /\ in_flight fl c j = false) ->
  flight_ok (set_cache w (<[i := with_state c dirty b]> (m_cache w))) fl' ->
  inv (set_cache w (<[i := with_state c dirty b]> (m_cache w))) fl'.
Proof.
  intros HI Hi Hr Hp Hx Hb Hc Hf. pose proof (inv_sorted w fl HI) as Hs. pose proof (list_elem_of_lookup_2 _ _ _ Hi) as Hin.
  assert (Hcases : forall x, x ∈ <[i := with_state c dirty b]> (m_cache w) -> x = with_state c dirty b \/ (x ∈ m_cache w /\ first_sector x <> first_sector c))
    by (intros x; by apply elem_of_update).
  split; cbn [set_cache m_cache w_mem m_sync_cache w_heap].
  - by apply (sorted_update _ i c).
  - intros x [->|[Hx' _]]%Hcases; [|by apply (inv_pages w fl)]. destruct (inv_pages w fl HI c Hin). by split.
  - rewrite (map_paddr_update _ i c) by done. by apply (inv_heap w fl).
  - by apply (inv_mem w fl).
  - by apply (inv_snapshot w fl).
  - intros x j [->|[Hx' Hne]]%Hcases Hj Hm Hd Hfl.
    + cbn in Hm, Hd. destruct (Hc j Hd Hfl). by apply (inv_clean w fl HI c j).
    + apply (inv_clean w fl HI x j); [done..|]. by rewrite <- (proj2 (Hx x Hx' Hne)).
  - intros x [->|[Hx' Hne]]%Hcases; [done|by apply Hx].
  - done.
Qed.

Definition flight_of (temp : PageCache) : flight := mk_flight (first_sector temp) (dirty_mask temp).

Lemma sync_begin_spec w i : inv w None ->
  match m_cache w !! i with
  | Some c =>
      if dirty_mask c =? 0 then sync_begin i w = (Ok None, w)
      else exists w', sync_begin i w = (Ok (Some c), w') /\ inv w' (Some (flight_of c)) /\ (forall s, view w' s = view w s) /\
             m_cache w' = <[i := with_state c 0 true]> (m_cache w)
  | None => sync_begin i w = (Ok None, w)
  end.
Proof.
  intros HI. unfold sync_begin. destruct (m_cache w !! i) as [c|] eqn:Hi; [|done]. destruct (dirty_mask c =? 0); [done|].
  set (w1 := set_sync_cache w (w_mem w (paddr c))). pose proof (inv_sorted w None HI) as Hs. pose proof (list_elem_of_lookup_2 _ _ _ Hi) as Hin.
  assert (HI1 : inv w1 None) by (pose proof (inv_mem w None HI (paddr c)); destruct HI; by split).
  pose proof (inv_pages w None HI c Hin) as Hok. exists (set_cache w1 (<[i := with_state c 0 true]> (m_cache w1))). split_and!; [done| | |done].
  - apply (with_state_inv w1 None); [done|done|..].
    + pose proof geometry. split; [done|]. apply Z.pow_pos_nonneg; lia.
    + intros j. by rewrite Z.bits_0.
    + intros x Hx Hne. cbn. rewrite (inv_syncing w None HI x Hx), (proj2 (Z.eqb_neq _ _)) by done. done.
    + cbn. by rewrite Z.eqb_refl.
    + intros j _. cbn. by rewrite Z.eqb_refl.
    + cbn. split; [apply Hok|]. exists (with_state c 0 true). rewrite (find_page_update _ i c) by done. rewrite Z.eqb_refl.
      split; [done|]. intros j Hj. split; [by apply Hok|done].
  - intros s. by apply (view_with_state w1 i c).
Qed.

(** The disk changes in sectors that are in flight only; those that leave the
    flight have been stored. *)
Lemma device_change w f d mask' : inv w (Some f) -> 0 <= mask' < 2 ^ spp ->
  (forall s, (forall i, Z.testbit (f_mask f) i = true -> s <> f_sector f + i) -> sector d s = sector (w_dev w) s) ->
  (forall i, Z.testbit mask' i = true -> Z.testbit (f_mask f) i = true) ->
  (forall i, Z.testbit (f_mask f) i = true -> Z.testbit mask' i = false -> sector d (f_sector f + i) = sector_at ss (m_sync_cache w) i) ->
  inv (set_dev w d) (Some (mk_flight (f_sector f) mask')) /\ forall s, view (set_dev w d) s = view w s.
Proof.
  intros HI Hm' Hout Hsub Hstored. pose proof HI as [Hs Hp Hh Hm Hsn Hcl Hsy Hf]. destruct Hf as (Hfr & c & Hc & Hfl).
  pose proof Hc as [Hcin Hcf]%(find_page_Some _ _ _ Hs). pose proof (Hp c Hcin) as Hok.
  split; [split; try done|].
  - intros x j Hx Hj Hb Hd Hnf. cbn [set_dev w_dev]. change (page_sector (set_dev w d) x j) with (page_sector w x j).
    destruct (Z.eqb_spec (first_sector x) (f_sector f)) as [Ex|Ex].
    + assert (x = c) as -> by (apply (sorted_unique (m_cache w)); [done..|congruence]).
      cbn [in_flight f_sector f_mask] in Hnf. rewrite Ex, Z.eqb_refl in Hnf. cbn [andb] in Hnf. destruct (Z.testbit (f_mask f) j) eqn:Ef.
      * rewrite Ex, Hstored by done. symmetry. by apply Hfl.
      * rewrite Hout by (intros i Hi He; assert (i = j) as -> by lia; congruence).
        apply Hcl; [done..|]. cbn. by rewrite Ef, andb_false_r.
    + rewrite Hout.
      * apply Hcl; [done..|]. cbn. by rewrite (proj2 (Z.eqb_neq _ _)) by done.
      * intros i Hi He. pose proof (mask_bit_lt _ _ Hfr Hi) as Hir.
        destruct (sector_place (first_sector x) j Hj) as [E1 _]; [by apply Hp|].
        destruct (sector_place (f_sector f) i Hir) as [E2 _]; [rewrite <- Hcf; by apply Hok|]. congruence.
  - cbn. split; [done|]. exists c. split; [done|]. intros i Hi. by apply Hfl, Hsub.
  - intros s. unfold view. change (m_cache (set_dev w d)) with (m_cache w).
    assert (Hsame : sector (w_dev (set_dev w d)) s = sector (w_dev w) s \/ exists i, Z.testbit (f_mask f) i = true /\ s = f_sector f + i).
    { destruct (Z.testbit (f_mask f) (s - f_sector f)) eqn:Eb; [right; exists (s - f_sector f); split; [done|lia]|].
      left. apply Hout. intros i Hi ->. replace (f_sector f + i - f_sector f) with i in Eb by lia. congruence. }
    destruct Hsame as [E|(i & Hi & ->)]; [by rewrite E|].
    pose proof (mask_bit_lt _ _ Hfr Hi) as Hir. destruct (sector_place (f_sector f) i Hir) as [-> ->]; [rewrite <- Hcf; by apply Hok|].
    rewrite Hc. by rewrite (proj1 (Hfl i Hi)).
Qed.

(** [mask & ~(((1 << n) - 1) << k)] *)
Lemma clear_run m k n i : 0 <= k -> 0 <= n -> 0 <= i ->
  Z.testbit (Z.land m (Z.lnot (Z.shiftl (Z.shiftl 1 n - 1) k))) i = Z.testbit m i && negb ((k <=? i) && (i <? k + n)).
Proof.
  intros Hk Hn Hi. rewrite Z.land_spec, Z.lnot_spec, Z.shiftl_spec by lia. f_equal. f_equal.
  replace (Z.shiftl 1 n - 1) with (Z.ones n) by (rewrite Z.ones_equiv, Z.shiftl_1_l; lia).
  destruct (Z.leb_spec k i); cbn [andb]; [|apply Z.testbit_neg_r; lia].
  destruct (Z.ltb_spec i (k + n)); [apply Z.ones_spec_low|apply Z.ones_spec_high]; lia.
Qed.

Definition clear_mask (m k n : Z) : Z := Z.land m (Z.lnot (Z.shiftl (Z.shiftl 1 n - 1) k)).

Lemma clear_mask_range m k n : 0 <= m < 2 ^ spp -> 0 <= k -> 0 <= n -> 0 <= clear_mask m k n < 2 ^ spp.
Proof.
  intros Hm Hk Hn. unfold clear_mask. assert (0 <= Z.land m (Z.lnot (Z.shiftl (Z.shiftl 1 n - 1) k))) by (apply Z.land_nonneg; lia).
  split; [done|]. pose proof geometry. apply testbit_range_lt; [lia|done|]. intros i Hi.
  rewrite clear_run, (testbit_small spp m) by lia. done.
Qed.

Definition run_in (m k n : Z) : Prop := forall i, k <= i < k + n -> Z.testbit m i = true.

Lemma sync_run_spec w temp k n : inv w (Some (flight_of temp)) -> 0 <= k -> 0 < n -> k + n <= spp -> run_in (dirty_mask temp) k n ->
  let '(r, w') := sync_run ss temp k n w in
  m_cache w' = m_cache w /\ (forall s, view w' s = view w s) /\
  match r with
  | Ok temp' => temp' = with_state temp (clear_mask (dirty_mask temp) k n) (syncing temp) /\ inv w' (Some (flight_of temp'))
  | Err _ => inv w' (Some (flight_of temp))
  | Panic => False
  end.
Proof.
  intros HI Hk Hn Hkn Hrun. pose proof geometry as [Hg Hgs]. pose proof (inv_snapshot w _ HI) as Hsn.
  pose proof (inv_flight w _ HI) as (Hfr & _). cbn in Hfr.
  unfold sync_run, sbind, sget, sassert, on_device. rewrite (proj2 (Z.leb_le _ _)) by nia.
  set (data := take (Z.to_nat (n * ss)) (drop (Z.to_nat (k * ss)) (m_sync_cache w))).
  pose proof (sd_write_spec (w_dev w) (first_sector temp + k) n data ltac:(lia)) as Hw.
  assert (Hlen : n * ss <= Z.of_nat (length data)) by (subst data; rewrite length_take, length_drop; nia).
  specialize (Hw Hlen). destruct (sd_write (first_sector temp + k) n data (w_dev w)) as [r d] eqn:Ew. destruct Hw as [Hout Hw].
  assert (Hout' : forall s, (forall i, Z.testbit (f_mask (flight_of temp)) i = true -> s <> f_sector (flight_of temp) + i) -> sector d s = sector (w_dev w) s).
  { intros s Hs. apply Hout. intros Hin. apply (Hs (s - first_sector temp)); [apply Hrun; lia|cbn; lia]. }
  destruct r as [[]|e|]; [| |done].
  - destruct (device_change w (flight_of temp) d (clear_mask (dirty_mask temp) k n) HI) as [HI' Hv]; [by apply clear_mask_range; lia|done| | |].
    + intros i Hi. pose proof (testbit_nonneg _ _ Hi). unfold clear_mask in Hi. rewrite clear_run in Hi by lia. by apply andb_true_iff in Hi as [? _].
    + intros i Hi Hc. pose proof (testbit_nonneg _ _ Hi). unfold clear_mask in Hc. rewrite clear_run in Hc by lia. cbn in Hi. rewrite Hi in Hc.
      cbn [andb] in Hc. zify_bool. destruct Hc as [Hc1 Hc2]. cbn. replace (first_sector temp + i) with (first_sector temp + k + (i - k)) by lia.
      rewrite Hw by lia. apply sector_at_ext; [lia..|]. intros j Hj. subst data. rewrite lookup_take_lt, lookup_drop by nia. f_equal. nia.
    + split_and!; [done|done|done|done].
  - destruct (device_change w (flight_of temp) d (dirty_mask temp) HI) as [HI' Hv]; [done|done|done|cbn; congruence|].
    split_and!; done.
Qed.

(** The loop has written every dirty sector before [sector_start], and the next
    [sector_count] ones are dirty. *)
Definition pc_ok (pc : sync_pc) (fl : option flight) : Prop :=
  match pc with
  | SyncLoop temp k n =>
      fl = Some (flight_of temp) /\ 0 <= k /\ 0 <= n /\ k + n <= spp + 1 /\ run_in (dirty_mask temp) k n /\
      forall i, 0 <= i < k -> Z.testbit (dirty_mask temp) i = false
  | SyncEnd temp r =>
      fl = Some (flight_of temp) /\ match r with Ok _ => dirty_mask temp = 0 | Err _ => True | Panic => False end
  end.

Definition pc_sector (pc : sync_pc) : Z :=
  match pc with SyncLoop temp _ _ | SyncEnd temp _ => first_sector temp end.

(** Iterations left. *)
Definition pc_left (pc : sync_pc) : Z :=
  match pc with SyncLoop _ k n => spp + 2 - (k + n) | SyncEnd _ _ => 0 end.

Definition sync_post (pc : sync_pc) (w : W) (r : outcome sync_pc) (w' : W) : Prop :=
  match r with
  | Ok pc' =>
      m_cache w' = m_cache w /\ (forall s, view w' s = view w s) /\ pc_sector pc' = pc_sector pc /\
      (exists fl', inv w' fl' /\ pc_ok pc' fl') /\ match pc with SyncLoop _ _ _ => pc_left pc' < pc_left pc | _ => True end
  | _ => False
  end.

Lemma sync_run_post w temp k n next : inv w (Some (flight_of temp)) -> 0 <= k -> 0 < n -> k + n <= spp -> run_in (dirty_mask temp) k n ->
  (forall temp', temp' = with_state temp (clear_mask (dirty_mask temp) k n) (syncing temp) ->
     pc_ok (next temp') (Some (flight_of temp')) /\ pc_sector (next temp') = first_sector temp /\ pc_left (next temp') < spp + 2 - (k + n)) ->
  let '(r, w') := match sync_run ss temp k n w with
                  | (Ok temp', w') => (Ok (next temp'), w')
                  | (Err e, w') => (Ok (SyncEnd temp (Err e)), w')
                  | (Panic, w') => (Panic, w')
                  end in
  sync_post (SyncLoop temp k n) w r w'.
Proof.
  intros HI Hk Hn Hkn Hrun Hnext. pose proof (sync_run_spec w temp k n HI Hk Hn Hkn Hrun) as Hs.
  destruct (sync_run ss temp k n w) as [[temp'|e|] w']; destruct Hs as (Hc & Hv & Hr); [| |done].
  - destruct Hr as [-> HI']. destruct (Hnext _ eq_refl) as (Hok & Hsec & Hleft). split_and!; [done|done|done| |done].
    by eexists.
  - split_and!; [done|done|done| |cbn; lia]. eexists. by split.
Qed.

Lemma sync_step_spec w pc fl : inv w fl -> pc_ok pc fl -> let '(r, w') := sync_step ss pc w in sync_post pc w r w'.
Proof.
  intros HI Hpc. pose proof geometry as [Hg _]. destruct pc as [temp k n|temp r]; cbn [sync_step].
  2: { split_and!; [done|done|done|by eexists|done]. }
  destruct Hpc as (-> & Hk & Hn & Hkn & Hrun & Hlow). pose proof (inv_flight w _ HI) as (Hfr & _). cbn in Hfr.
  assert (Hstay : forall pc', pc_ok pc' (Some (flight_of temp)) -> pc_sector pc' = first_sector temp -> pc_left pc' < spp + 2 - (k + n) ->
    sync_post (SyncLoop temp k n) w (Ok pc') w) by (intros pc' H1 H2 H3; split_and!; [done|done|done|by eexists|done]).
  case_if; zify_bool.
  - rewrite land_bit_testbit by lia. destruct (Z.testbit (dirty_mask temp) (k + n)) eqn:Eb.
    + pose proof (mask_bit_lt _ _ Hfr Eb). unwrap. apply Hstay; [|done|cbn; lia]. split_and!; [done|lia|lia|lia| |done].
      intros i Hi. destruct (decide (i = k + n)) as [->|]; [done|apply Hrun; lia].
    + destruct (Z.eqb_spec n 0) as [->|Hn0].
      * unwrap. apply Hstay; [|done|cbn; lia]. split_and!; [done|lia|lia|lia|intros i Hi; lia|].
        intros i Hi. destruct (decide (i = k)) as [->|]; [by rewrite Z.add_0_r in Eb|apply Hlow; lia].
      * unwrap. apply (sync_run_post w temp k n (fun t => SyncLoop t (k + n + 1) 0)); [done|lia|lia|lia|done|].
        intros temp' ->. split_and!; [|done|cbn; lia]. split_and!; [done|lia|lia|lia|intros i Hi; lia|].
        intros i Hi. cbn. unfold clear_mask. rewrite clear_run by lia. destruct (decide (i < k)); [by rewrite Hlow by lia|].
        destruct (decide (i = k + n)) as [->|]; [by rewrite Eb|]. rewrite (proj2 (Z.leb_le k i)), (proj2 (Z.ltb_lt i (k + n))) by lia. apply andb_false_r.
  - assert (n = 0) as ->.
    { destruct (decide (n = 0)); [done|]. pose proof (mask_bit_lt _ _ Hfr (Hrun (k + n - 1) ltac:(lia))). lia. }
    cbn [Z.ltb Z.compare]. apply Hstay; [|done|cbn; lia]. split; [done|]. apply mask_zero; [done|]. intros i Hi. apply Hlow. lia.
Qed.

Lemma sync_end_spec w i c temp : inv w (Some (flight_of temp)) -> m_cache w !! i = Some c -> first_sector c = first_sector temp ->
  exists w', sync_end ss temp w = (Ok tt, w') /\ inv w' None /\ (forall s, view w' s = view w s) /\
    m_cache w' = <[i := with_state c (Z.lor (dirty_mask c) (dirty_mask temp)) false]> (m_cache w).
Proof.
  intros HI Hi Hf. pose proof (inv_sorted w _ HI) as Hs. pose proof (list_elem_of_lookup_2 _ _ _ Hi) as Hin. pose proof (inv_pages w _ HI c Hin) as Hok.
  destruct (index_spec w _ (first_sector temp) HI) as (i' & Hi' & Hlb). unfold sync_end. rewrite Hi'.
  assert (Hst : page_cache_start ss (first_sector temp) = first_sector temp).
  { unfold page_cache_start, page_cache_offset. rewrite <- Hf, (first_aligned c Hok). lia. }
  rewrite Hst in Hlb. assert (i' = i) as ->.
  { destruct Hlb as (Hlb1 & Hlb2 & Hlb3). destruct (lt_eq_lt_dec i i') as [[Hlt|]|Hlt]; [|done|].
    - pose proof (Hlb2 i c Hi Hlt). lia.
    - destruct (lookup_lt_is_Some_2 (m_cache w) i') as [x Hx]; [apply lookup_lt_Some in Hi; lia|].
      pose proof (sorted_lt _ _ _ _ _ Hs Hx Hi Hlt). pose proof (Hlb3 i' x Hx ltac:(lia)). lia. }
  rewrite Hi, Hf, Z.eqb_refl. pose proof (inv_flight w _ HI) as (Hfr & c' & Hc' & Hfl). cbn in Hfr, Hc', Hfl.
  assert (c' = c) as -> by (apply find_page_Some in Hc' as [? ?]; [apply (sorted_unique (m_cache w)); [done..|congruence]|done]).
  exists (set_cache w (<[i := with_state c (Z.lor (dirty_mask c) (dirty_mask temp)) false]> (m_cache w))).
  split_and!; [unfold with_state; by rewrite Hf| | |done].
  - apply (with_state_inv w (Some (flight_of temp))); [done|done|..].
    + pose proof (dirty_range c Hok). pose proof geometry. assert (0 <= Z.lor (dirty_mask c) (dirty_mask temp)) by (apply Z.lor_nonneg; lia).
      split; [done|]. apply testbit_range_lt; [lia|done|]. intros j Hj. by rewrite Z.lor_spec, !(testbit_small spp) by lia.
    + intros j. rewrite Z.lor_spec. intros [Hj|Hj]%orb_true_iff; [by apply Hok|by apply Hfl].
    + intros x Hx Hne. rewrite (inv_syncing w _ HI x Hx). cbn. rewrite (proj2 (Z.eqb_neq _ _)) by congruence. done.
    + done.
    + intros j. rewrite Z.lor_spec. intros [Hj1 Hj2]%orb_false_iff _. cbn. by rewrite Hj2, andb_false_r.
    + done.
  - intros s. by apply view_with_state.
Qed.

(** A step that keeps the invariant and what readers see. *)
Definition keeps {A} (fl : option flight) (w : W) (r : outcome A) (w' : W) : Prop :=
  inv w' fl /\ (forall s, view w' s = view w s) /\ r <> Panic.

Lemma keeps_trans {A B} fl w (r : outcome A) w' (r' : outcome B) w'' : keeps fl w r w' -> keeps fl w' r' w'' -> keeps fl w r' w''.
Proof. intros (HI & Hv & _) (HI' & Hv' & Hr'). split_and!; [done| |done]. intros s. by rewrite Hv', Hv. Qed.

Lemma sync_pages_spec i fuel : forall w pc fl c, inv w fl -> pc_ok pc fl -> pc_left pc <= Z.of_nat fuel ->
  m_cache w !! i = Some c -> first_sector c = pc_sector pc ->
  let '(r, w') := sync_pages ss fuel pc w in
  keeps None w r w' /\ exists mask, m_cache w' = <[i := with_state c mask false]> (m_cache w) /\ (r = Ok tt -> mask = dirty_mask c).
Proof.
  induction fuel as [|fuel IH]; intros w pc fl c HI Hpc Hfuel Hi Hc.
  all: destruct pc as [temp k n|temp r]; cbn [sync_pages].
  2,4: destruct Hpc as [-> Hr]; destruct (sync_end_spec w i c temp HI Hi Hc) as (w' & He & HI' & Hv & Hm);
    unfold sbind, slift; rewrite He; split; [split_and!; [done|done|by destruct r]|];
    eexists; split; [done|]; intros ->; by rewrite Hr, Z.lor_0_r.
  - destruct Hpc as (_ & ? & ? & ? & _). cbn in Hfuel. lia.
  - pose proof (sync_step_spec w _ fl HI Hpc) as Hstep. unfold sbind. destruct (sync_step ss (SyncLoop temp k n) w) as [[pc'|e|] w']; [|done..].
    destruct Hstep as (Hm & Hv & Hsec & (fl' & HI' & Hpc') & Hleft).
    specialize (IH w' pc' fl' c HI' Hpc' ltac:(lia) ltac:(by rewrite Hm) ltac:(congruence)).
    destruct (sync_pages ss fuel pc' w') as [r w'']. destruct IH as [(HI'' & Hv' & Hr) Hex]. rewrite Hm in Hex. split; [|done].
    split_and!; [done| |done]. intros s. by rewrite Hv', Hv.
Qed.

(** Pages [i] and the others after an attempt to write back page [i]. *)
Definition page_synced (i : nat) (w : W) (r : outcome unit) (w' : W) : Prop :=
  map first_sector (m_cache w') = map first_sector (m_cache w) /\
  (forall j c, j <> i -> m_cache w' !! j = Some c -> m_cache w !! j = Some c) /\
  (r = Ok tt -> forall c, m_cache w' !! i = Some c -> dirty_mask c = 0).

Lemma sync_cache_index_spec w i : inv w None ->
  let '(r, w') := sync_cache_index ss i w in keeps None w r w' /\ page_synced i w r w'.
Proof.
  intros HI. unfold sync_cache_index, sbind. pose proof (sync_begin_spec w i HI) as Hb. destruct (m_cache w !! i) as [c|] eqn:Hi.
  2: { rewrite Hb. split; [split_and!; done|split_and!; [done|done|]]. intros _ c. congruence. }
  destruct (Z.eqb_spec (dirty_mask c) 0) as [Hd|Hd].
  { rewrite Hb. split; [split_and!; done|split_and!; [done|done|]]. intros _ c'. congruence. }
  destruct Hb as (w1 & -> & HI1 & Hv1 & Hm1). pose proof geometry as [Hg _]. pose proof (lookup_lt_Some _ _ _ Hi) as Hlt.
  assert (Hi1 : m_cache w1 !! i = Some (with_state c 0 true)) by (rewrite Hm1; by apply list_lookup_insert_eq).
  pose proof (sync_pages_spec i (Z.to_nat (spp + 2)) w1 (SyncLoop c 0 0) (Some (flight_of c)) (with_state c 0 true) HI1) as Hs.
  destruct (sync_pages ss (Z.to_nat (spp + 2)) (SyncLoop c 0 0) w1) as [r w'].
  destruct Hs as [Hk (mask & Hm & Hr)]; [split_and!; [done|lia|lia|lia|intros j Hj; lia|intros j Hj; lia]|cbn; lia|done|done|].
  rewrite Hm1, list_insert_insert_eq in Hm. split.
  { destruct Hk as (HI' & Hv' & Hp). split_and!; [done| |done]. intros s. by rewrite Hv', Hv1. }
  split_and!.
  - rewrite Hm. change (first_sector <$> <[i := with_state (with_state c 0 true) mask false]> (m_cache w) = first_sector <$> m_cache w).
    rewrite list_fmap_insert. apply list_insert_id. rewrite list_lookup_fmap, Hi. done.
  - intros j x Hj. rewrite Hm. by rewrite list_lookup_insert_ne.
  - intros Hok x. rewrite Hm, list_lookup_insert_eq by done. intros [= <-]. by apply Hr.
Qed.

(** What the disk has. *)
Lemma clean_on_disk w s : inv w None -> (forall c, find_page (m_cache w) (page_cache_start ss s) = Some c -> dirty_mask c = 0) ->
  sector (w_dev w) s = view w s.
Proof.
  intros HI Hc. unfold view. destruct (find_page (m_cache w) (page_cache_start ss s)) as [c|] eqn:Hf; [|done].
  pose proof Hf as [Hin Hcf]%find_page_Some; [|by apply (inv_sorted w None)].
  destruct (Z.testbit (sector_mask c) (page_cache_offset ss s)) eqn:Eb; [|done].
  rewrite <- (start_offset s) at 1. rewrite <- Hcf. symmetry. apply (inv_clean w None); [done|done|apply offset_range|done| |done].
  rewrite (Hc c eq_refl). apply Z.bits_0.
Qed.

Lemma all_clean_on_disk w s : inv w None -> (forall j c, m_cache w !! j = Some c -> dirty_mask c = 0) -> sector (w_dev w) s = view w s.
Proof.
  intros HI Hc. apply clean_on_disk; [done|]. intros c [[j Hj]%list_elem_of_lookup _]%find_page_Some; [|by apply (inv_sorted w None)].
  by apply (Hc j).
Qed.

Lemma synced_length i w r w' : page_synced i w r w' -> length (m_cache w') = length (m_cache w).
Proof. intros (Hf & _). apply (f_equal length) in Hf. by rewrite !length_map in Hf. Qed.

Lemma sync_all_spec fuel : forall w i, inv w None -> (length (m_cache w) - i <= fuel)%nat ->
  (forall j c, m_cache w !! j = Some c -> (j < i)%nat -> dirty_mask c = 0) ->
  let '(r, w') := sync_all ss fuel i w in
  keeps None w r w' /\ map first_sector (m_cache w') = map first_sector (m_cache w) /\
  (r = Ok tt -> forall j c, m_cache w' !! j = Some c -> dirty_mask c = 0).
Proof.
  induction fuel as [|fuel IH]; intros w i HI Hfuel Hclean; cbn [sync_all]; unfold sbind, sget.
  all: destruct (Nat.ltb_spec i (length (m_cache w))) as [Hi|Hi]; [|split; [done|split; [done|]];
    intros _ j c Hj; apply (Hclean j); [done|apply lookup_lt_Some in Hj; lia]].
  - lia.
  - pose proof (sync_cache_index_spec w i HI) as Hs. destruct (sync_cache_index ss i w) as [r w1]. destruct Hs as [Hk Hps].
    destruct r as [[]|e|]; [| |by destruct Hk as (_ & _ & ?)].
    + pose proof (synced_length _ _ _ _ Hps) as Hlen. destruct Hps as (Hf & Hother & Hdone).
      specialize (IH w1 (i + 1)%nat ltac:(apply Hk) ltac:(lia)). destruct (sync_all ss fuel (i + 1) w1) as [r' w'].
      destruct IH as (Hk' & Hf' & Hok).
      { intros j c Hj Hji. destruct (decide (j = i)) as [->|]; [by apply Hdone|]. apply (Hclean j); [by apply Hother|lia]. }
      split; [by apply (keeps_trans None w (Ok tt) w1)|]. split; [congruence|done].
    + split; [done|]. split; [by apply Hps|done].
Qed.

Lemma first_sector_at (w w' : W) j c : map first_sector (m_cache w') = map first_sector (m_cache w) -> m_cache w' !! j = Some c ->
  exists c', m_cache w !! j = Some c' /\ first_sector c' = first_sector c.
Proof.
  intros Hf Hj. assert (He : (first_sector <$> m_cache w') !! j = (first_sector <$> m_cache w) !! j) by exact (f_equal (fun l => l !! j) Hf).
  rewrite !list_lookup_fmap, Hj in He. destruct (m_cache w !! j) as [c'|]; [|done]. cbn in He. simplify_eq. by exists c'.
Qed.

(** Every page from [lo] on that starts before [end_] is written back. *)
Lemma sync_until_spec lo end_ fuel : forall w i, inv w None -> (length (m_cache w) - i <= fuel)%nat -> (lo <= i)%nat ->
  (forall j c, m_cache w !! j = Some c -> (lo <= j < i)%nat -> dirty_mask c = 0) ->
  let '(r, w') := sync_until ss fuel i end_ w in
  keeps None w r w' /\ map first_sector (m_cache w') = map first_sector (m_cache w) /\
  (r = Ok tt -> forall j c, m_cache w' !! j = Some c -> (lo <= j)%nat -> first_sector c < end_ -> dirty_mask c = 0).
Proof.
  induction fuel as [|fuel IH]; intros w i HI Hfuel Hlo Hclean; cbn [sync_until]; unfold sbind, sget.
  all: destruct (m_cache w !! i) as [x|] eqn:Hx; [|split; [done|split; [done|]]; intros _ j c Hj Hl _;
      apply (Hclean j); [done|split; [done|]]; apply lookup_ge_None in Hx; apply lookup_lt_Some in Hj; lia].
  all: destruct (Z.leb_spec end_ (first_sector x)) as [He|He]; [split; [done|split; [done|]]; intros _ j c Hj Hl Hlt;
      apply (Hclean j); [done|split; [done|]]; destruct (decide (j < i)%nat); [done|]; destruct (decide (j = i)) as [->|]; [simplify_eq; lia|];
      pose proof (sorted_lt _ _ _ _ _ (inv_sorted w None HI) Hx Hj ltac:(lia)); lia|].
  - apply lookup_lt_Some in Hx. lia.
  - pose proof (sync_cache_index_spec w i HI) as Hs. destruct (sync_cache_index ss i w) as [r w1]. destruct Hs as [Hk Hps].
    destruct r as [[]|e|]; [| |by destruct Hk as (_ & _ & ?)].
    + pose proof (synced_length _ _ _ _ Hps) as Hlen. destruct Hps as (Hf & Hother & Hdone).
      specialize (IH w1 (i + 1)%nat ltac:(apply Hk) ltac:(lia) ltac:(lia)). destruct (sync_until ss fuel (i + 1) end_ w1) as [r' w'].
      destruct IH as (Hk' & Hf' & Hok).
      { intros j c Hj Hji. destruct (decide (j = i)) as [->|]; [by apply Hdone|]. apply (Hclean j); [by apply Hother|lia]. }
      split; [by apply (keeps_trans None w (Ok tt) w1)|]. split; [congruence|done].
    + split; [done|]. split; [by apply Hps|done].
Qed.

Lemma start_monotone s s' : s <= s' -> page_cache_start ss s <= page_cache_start ss s'.
Proof.
  intros Hle. pose proof geometry. unfold page_cache_start, page_cache_offset.
  pose proof (Z.div_mod s spp ltac:(lia)). pose proof (Z.div_mod s' spp ltac:(lia)). pose proof (Z.div_le_mono s s' spp ltac:(lia) Hle). nia.
Qed.

Lemma sync_range_spec w s n : inv w None -> 0 <= s -> 0 <= n -> s + n < 2 ^ 64 ->
  let '(r, w') := sync_range ss false s n w in
  keeps None w r w' /\ (r = Ok tt -> forall s', s <= s' < s + n -> sector (w_dev w') s' = view w s').
Proof.
  intros HI Hs Hn Hsn. unfold sync_range, sbind, sget, slift. destruct (index_spec w None s HI) as (i & -> & Hlb). unwrap.
  pose proof (sync_until_spec i (s + n) (length (m_cache w)) w i HI ltac:(lia) ltac:(lia)) as Hu.
  destruct (sync_until ss (length (m_cache w)) i (s + n) w) as [r w']. destruct Hu as (Hk & Hf & Hok); [intros; lia|]. split; [done|].
  intros Hr s' Hs'. pose proof Hk as (HI' & Hv & _). rewrite <- Hv. apply clean_on_disk; [done|].
  intros c [[j Hj]%list_elem_of_lookup Hc]%find_page_Some; [|by apply (inv_sorted w' None)].
  destruct (first_sector_at w w' j c Hf Hj) as (c' & Hj' & Hc'). apply (Hok Hr j); [done| |].
  - destruct (decide (i <= j)%nat); [done|]. destruct Hlb as (_ & Hlt & _). pose proof (Hlt j c' Hj' ltac:(lia)).
    pose proof (start_monotone s s' ltac:(lia)). lia.
  - rewrite Hc. pose proof (offset_range s'). pose proof (start_offset s'). lia.
Qed.

(** *** Releasing *)
Lemma delete_page w fl i c h : inv w fl -> m_cache w !! i = Some c -> syncing c = false -> dirty_mask c = 0 ->
  holds h (map paddr (delete i (m_cache w))) ->
  inv (set_cache (set_heap w h) (delete i (m_cache w))) fl /\ forall s, view (set_cache (set_heap w h) (delete i (m_cache w))) s = view w s.
Proof.
  intros HI Hi Hsy Hd Hh. pose proof (inv_sorted w fl HI) as Hs. pose proof (list_elem_of_lookup_2 _ _ _ Hi) as Hin.
  pose proof (inv_syncing w fl HI c Hin) as Hsyc. rewrite Hsy in Hsyc.
  assert (Hsub : forall x, x ∈ delete i (m_cache w) -> x ∈ m_cache w) by (intros x; apply list_elem_of_delete_inv).
  split; [split; cbn [set_cache set_heap m_cache w_mem m_sync_cache w_heap]|].
  - by apply sorted_delete.
  - intros x Hx. by apply (inv_pages w fl), Hsub.
  - done.
  - apply (inv_mem w fl HI).
  - apply (inv_snapshot w fl HI).
  - intros x j Hx%Hsub. by apply (inv_clean w fl).
  - intros x Hx%Hsub. by apply (inv_syncing w fl).
  - pose proof (inv_flight w fl HI) as Hf. destruct fl as [f|]; [|done]. destruct Hf as (Hr & x & Hx & Hall). split; [done|]. exists x.
    cbn [set_cache set_heap m_cache]. rewrite (find_page_delete _ i c) by done. by rewrite <- Hsyc.
  - intros s. unfold view. cbn [set_cache set_heap m_cache w_dev]. rewrite (find_page_delete _ i c) by done.
    destruct (Z.eqb_spec (first_sector c) (page_cache_start ss s)) as [He|]; [|done].
    rewrite (proj2 (find_page_Some _ _ c Hs)) by done. destruct (Z.testbit (sector_mask c) (page_cache_offset ss s)) eqn:Eb; [|done].
    rewrite <- (start_offset s) at 1. rewrite <- He. symmetry. apply (inv_clean w fl); [done|done|apply offset_range|done| |].
    + rewrite Hd. apply Z.bits_0.
    + destruct fl as [f|]; [|done]. cbn. by rewrite <- Hsyc.
Qed.

Definition busy (c : PageCache) : Prop := syncing c = true \/ dirty_mask c <> 0.

Lemma release_clean_loop_spec page_count fuel : forall w fl i released, inv w fl -> (length (m_cache w) - i <= fuel)%nat ->
  (forall j c, m_cache w !! j = Some c -> (j < i)%nat -> busy c) ->
  let '(r, w') := release_clean_loop fuel i released page_count w in
  keeps fl w r w' /\ w_dev w' = w_dev w /\ (forall c, c ∈ m_cache w' -> c ∈ m_cache w) /\
  exists k, r = Ok k /\ released <= k /\ Z.of_nat (length (m_cache w')) = Z.of_nat (length (m_cache w)) - (k - released) /\
    (k < page_count -> forall c, c ∈ m_cache w' -> busy c).
Proof.
  induction fuel as [|fuel IH]; intros w fl i released HI Hfuel Hbusy; cbn [release_clean_loop].
  all: destruct (m_cache w !! i) as [c|] eqn:Hi;
    [|split; [done|split; [done|split; [done|]]]; exists released; split_and!; [done|lia|lia|];
      intros _ c [j Hj]%list_elem_of_lookup; apply (Hbusy j); [done|apply lookup_lt_Some in Hj; apply lookup_ge_None in Hi; lia]].
  all: destruct (Z.ltb_spec released page_count) as [Hr|Hr]; cbn [negb];
    [|split; [done|split; [done|split; [done|]]]; exists released; split_and!; [done|lia|lia|lia]].
  - apply lookup_lt_Some in Hi. lia.
  - destruct (negb (syncing c) && (dirty_mask c =? 0)) eqn:Ec; zify_bool.
    + destruct Ec as [Esy Ed]. pose proof (delete_Permutation _ _ _ Hi) as HP.
      destruct (release_holds (w_heap w) (paddr c) (map paddr (delete i (m_cache w)))) as (h & -> & Hh).
      { eapply holds_perm; [by apply (inv_heap w fl)|]. rewrite HP at 1. done. }
      destruct (delete_page w fl i c h HI Hi Esy Ed Hh) as [HI' Hv]. pose proof (lookup_lt_Some _ _ _ Hi) as Hlt.
      assert (Hlen : length (delete i (m_cache w)) = (length (m_cache w) - 1)%nat) by (apply length_delete; by rewrite Hi).
      set (w1 := set_cache (set_heap w h) (delete i (m_cache w))) in *.
      assert (Hm1 : m_cache w1 = delete i (m_cache w)) by done.
      specialize (IH w1 fl i (released + 1) HI' ltac:(rewrite Hm1; lia)). destruct (release_clean_loop fuel i (released + 1) page_count w1) as [r w'].
      destruct IH as (Hk & Hdev & Hsub & k & -> & Hk1 & Hk2 & Hk3).
      { intros j x Hj Hji. rewrite Hm1, list_lookup_delete_lt in Hj by done. by apply (Hbusy j). }
      split; [apply (keeps_trans fl w (Ok tt) w1); [split_and!; done|done]|]. split; [done|].
      split; [intros x Hx%Hsub; rewrite Hm1 in Hx; by eapply list_elem_of_delete_inv|].
      exists k. rewrite Hm1 in Hk2. split_and!; [done|lia|lia|done].
    + specialize (IH w fl (i + 1)%nat released HI ltac:(lia)). apply IH. intros j x Hj Hji. destruct (decide (j = i)) as [->|].
      * simplify_eq. unfold busy. destruct Ec as [Ec|Ec]; [by left|by right].
      * apply (Hbusy j); [done|lia].
Qed.

Lemma release_clean_pages_spec w fl n : inv w fl ->
  let '(r, w') := release_clean_pages n w in
  keeps fl w r w' /\ w_dev w' = w_dev w /\ (forall c, c ∈ m_cache w' -> c ∈ m_cache w) /\
  exists k, r = Ok k /\ 0 <= k /\ Z.of_nat (length (m_cache w')) = Z.of_nat (length (m_cache w)) - k /\
    (k < n -> forall c, c ∈ m_cache w' -> busy c).
Proof.
  intros HI. unfold release_clean_pages, sbind, sget.
  pose proof (release_clean_loop_spec n (length (m_cache w)) w fl 0%nat 0 HI ltac:(lia)) as Hr.
  destruct (release_clean_loop (length (m_cache w)) 0 0 n w) as [r w']. destruct Hr as (Hk & Hd & Hsub & k & -> & Hk1 & Hk2 & Hk3); [intros; lia|].
  split_and!; [done..|]. exists k. split_and!; [done|done|lia|done].
Qed.

Lemma sync_spec w g : inv w None ->
  let '(r, w') := sync ss g w in
  keeps None w r w' /\ (g = true -> w' = w) /\
  (g = false -> r = Ok tt -> (forall j c, m_cache w' !! j = Some c -> dirty_mask c = 0) /\ forall s, sector (w_dev w') s = view w s).
Proof.
  intros HI. unfold sync. destruct g; [by cbn|]. unfold sbind, sget.
  pose proof (sync_all_spec (length (m_cache w)) w 0%nat HI ltac:(lia)) as Hs. destruct (sync_all ss (length (m_cache w)) 0 w) as [r w'].
  destruct Hs as (Hk & _ & Hok); [intros; lia|]. split_and!; [done|done|]. intros _ Hr. split; [by apply Hok|].
  intros s. destruct Hk as (HI' & Hv & _). rewrite <- Hv. by apply all_clean_on_disk, Hok.
Qed.

Lemma release_pages_spec w g n : inv w None ->
  let '(r, w') := release_pages ss g n w in
  keeps None w r w' /\ (n = Z.of_nat (length (m_cache w)) -> g = false -> fst (sync ss g (snd (release_clean_pages n w))) = Ok tt -> m_cache w' = []).
Proof.
  intros HI. unfold release_pages, sbind. pose proof (release_clean_pages_spec w None n HI) as H1.
  destruct (release_clean_pages n w) as [r1 w1]. destruct H1 as (Hk1 & Hd1 & Hsub1 & k1 & -> & Hk10 & Hlen1 & Hb1).
  destruct (Z.leb_spec n k1) as [Hle|Hle].
  { split; [done|]. intros -> _ _. apply length_zero_iff_nil. lia. }
  pose proof (sync_spec w1 g ltac:(apply Hk1)) as H2. destruct (sync ss g w1) as [[[]|e|] w2] eqn:Es; destruct H2 as (Hk2 & Hg & Hok).
  - pose proof (release_clean_pages_spec w2 None (n - k1) ltac:(apply Hk2)) as H3. destruct (release_clean_pages (n - k1) w2) as [r3 w3].
    destruct H3 as (Hk3 & _ & Hsub3 & k3 & -> & Hk30 & Hlen3 & Hb3). cbn [sret]. split.
    { pose proof (keeps_trans None _ _ _ _ _ Hk1 (keeps_trans None _ _ _ _ _ Hk2 Hk3)) as (? & ? & _). split_and!; done. }
    intros Hn Hg' _. destruct (Hok Hg' eq_refl) as [Hclean _].
    destruct (m_cache w3) as [|c cs] eqn:Em; [done|]. exfalso.
    assert (Hc3 : c ∈ m_cache w2) by (apply Hsub3; apply list_elem_of_here).
    assert (~ k3 < n - k1) as Hge.
    { intros Hlt. apply list_elem_of_lookup in Hc3 as [j Hj].
      assert (Hin : c ∈ m_cache w2) by (by eapply list_elem_of_lookup_2).
      destruct (Hb3 Hlt c) as [Hbs|Hbs]; [apply list_elem_of_here| |by apply Hbs, (Hclean j)].
      destruct Hk2 as (HI2 & _). rewrite (inv_syncing w2 None HI2 c Hin) in Hbs. done. }
    assert (length (m_cache w2) <= length (m_cache w1))%nat.
    { unfold sync in Es. rewrite Hg' in Es. unfold sbind, sget in Es.
      pose proof (sync_all_spec (length (m_cache w1)) w1 0%nat ltac:(apply Hk1) ltac:(lia)) as Hs. rewrite Es in Hs.
      destruct Hs as (_ & Hf & _); [intros; lia|]. apply (f_equal length) in Hf. rewrite !length_map in Hf. lia. }
    cbn [length] in Hlen3. lia.
  - split; [|cbn [snd]; by rewrite Es].
    pose proof (keeps_trans None _ _ _ _ _ Hk1 Hk2) as (? & ? & _). split_and!; done.
  - by destruct Hk2 as (_ & _ & []).
Qed.

Lemma device_same w fl d : inv w fl -> (forall s, sector d s = sector (w_dev w) s) ->
  inv (set_dev w d) fl /\ forall s, view (set_dev w d) s = view w s.
Proof.
  intros [Hs Hp Hh Hm Hsn Hc Hsy Hf] Hd. split; [split; try done|].
  - intros c i H1 H2 H3 H4 H5. cbn. rewrite Hd. by apply Hc.
  - intros s. unfold view. cbn. by rewrite Hd.
Qed.

End theory.

(** C22: With no other thread using the cache meanwhile: when [sync] returns
    without an error the disk holds what readers see, which it did not change;
    [sync] of a range does the same for its sectors; [release_all_pages] empties
    the cache if the [sync] in it succeeds; with disk writes disabled nothing is
    written.  [sync_durable_among_threads] is about [sync] next to other
    threads. *)
Theorem sync_makes_durable (ss : Z) {H D : Type} `{PageSource H} `{!PageSourceLaws H} `{StorageDriver D} `{!StorageDriverLaws ss D}
  (Hss : 0 < ss) (Hgeometry : DiskCache_construct ss = Ok []) (w : world H D) (HI : inv ss w None) :
  (let '(r, w') := sync ss false w in
   inv ss w' None /\ (forall s, view ss w' s = view ss w s) /\ r <> Panic /\ (r = Ok tt -> forall s, sector (w_dev w') s = view ss w s)) /\
  (forall first n, 0 <= first -> 0 <= n -> first + n < 2 ^ 64 ->
   let '(r, w') := sync_range ss false first n w in
   inv ss w' None /\ (forall s, view ss w' s = view ss w s) /\ r <> Panic /\
   (r = Ok tt -> forall s, first <= s < first + n -> sector (w_dev w') s = view ss w s)) /\
  (let '(r, w') := release_all_pages ss false w in
   inv ss w' None /\ (forall s, view ss w' s = view ss w s) /\ r <> Panic /\
   (fst (sync ss false (snd (release_clean_pages (Z.of_nat (length (m_cache w))) w))) = Ok tt ->
      m_cache w' = [] /\ forall s, sector (w_dev w') s = view ss w s)) /\
  snd (sync ss true w) = w.
Proof.
  split_and!.
  - pose proof (sync_spec ss Hss Hgeometry w false HI) as Hs. destruct (sync ss false w) as [r w'].
    destruct Hs as ((HI' & Hv & Hp) & _ & Hok). split_and!; [done..|]. intros Hr. by apply Hok.
  - intros first n Hf Hn Hfn. pose proof (sync_range_spec ss Hss Hgeometry w first n HI Hf Hn Hfn) as Hs.
    destruct (sync_range ss false first n w) as [r w']. destruct Hs as ((HI' & Hv & Hp) & Hok). split_and!; done.
  - unfold release_all_pages, sbind, sget. pose proof (release_pages_spec ss Hss Hgeometry w false (Z.of_nat (length (m_cache w))) HI) as Hs.
    destruct (release_pages ss false (Z.of_nat (length (m_cache w))) w) as [r w']. destruct Hs as ((HI' & Hv & Hp) & Hok).
    split_and!; [done..|]. intros Hr. pose proof (Hok eq_refl eq_refl Hr) as Hm. split; [done|].
    intros s. rewrite <- Hv. unfold view. by rewrite Hm.
  - done.
Qed.
