(* ===== verification/DiskCacheSystem.v ===== *)
(** * The threads that use the disk cache

    Everything that threads do to the cache, one critical section of
    [m_rw_lock] after the other, in any order: lookups, writes, the three parts
    of a read that misses ([StorageDevice::read_sectors]), write-backs and
    releases.  On top of it the loops of [DiskCache::sync], which hold no lock
    between the pages. *)
From stdpp Require Import sorting functions.
From S2P Require Import Prelude BanMath Bitmap BanSort PhysicalRange KHeap DiskCache DiskCacheCorrect.

(** What a thread in [read_sectors] has of a sector: it has looked it up and not
    found it, or has it from the device and is about to add it to the cache. *)
Inductive pending : Type := Missed (s : Z) | Fetched (s : Z) (data : list Z).

Definition pending_sector (p : pending) : Z := match p with Missed s | Fetched s _ => s end.

(** [Hit] is a read that the cache answers and [Loaded] one of [n] sectors that
    the device answers. *)
Inductive event : Type :=
| Wrote (s : Z) (data : list Z)
| Hit (s : Z) (data : list Z)
| Loaded (s n : Z) (bytes : list Z)
| Tau.

Section theory.
Context (ss : Z) (insert_ok : nat -> bool) {H D : Type} `{PS : PageSource H} `{PSL : !PageSourceLaws H} `{SD : StorageDriver D} `{SDL : !StorageDriverLaws ss D}.
Context (Hss : 0 < ss) (Hgeometry : DiskCache_construct ss = Ok []).
Abbreviation W := (world H D).
Abbreviation spp := (sectors_per_page ss).

(** The cache, the write-back that holds [m_sync_mutex], and what each thread
    is reading. *)
Abbreviation state := (world H D * option sync_pc * (nat -> list pending))%type.

(** ** Steps

    A sector is not written while a thread that missed it has not added it to
    the cache yet: the code does not ensure this, and the data is lost without
    it.  A read that fails returns. *)
Inductive cache_step : state -> event -> state -> Prop :=
| step_read w pc rd s size data w' : 0 <= s -> ss <= size -> read_from_cache ss s size w = (Ok (Some data), w') ->
    cache_step (w, pc, rd) (Hit s data) (w', pc, rd)
| step_miss w pc rd t s size w' : 0 <= s -> ss <= size -> read_from_cache ss s size w = (Ok None, w') ->
    cache_step (w, pc, rd) Tau (w', pc, <[t := Missed s :: rd t]> rd)
| step_fetch w pc rd t s n bytes d : 0 <= n -> (forall i, 0 <= i < n -> Missed (s + i) ∈ rd t) -> sd_read s n (w_dev w) = (Ok bytes, d) ->
    cache_step (w, pc, rd) (Loaded s n bytes) (set_dev w d, pc, <[t := map (fun i => Fetched (s + i) (sector_at ss bytes i)) (seqZ 0 n) ++ rd t]> rd)
| step_fetch_error w pc rd t s n e d : 0 <= n -> sd_read s n (w_dev w) = (Err e, d) ->
    cache_step (w, pc, rd) Tau (set_dev w d, pc, <[t := []]> rd)
| step_fill w pc rd t s data r w' : Fetched s data ∈ rd t -> write_to_cache ss insert_ok s data false w = (r, w') ->
    cache_step (w, pc, rd) Tau (w', pc, <[t := filter (fun p => pending_sector p <> s) (rd t)]> rd)
| step_write w pc rd s buffer r w' : 0 <= s -> ss <= Z.of_nat (length buffer) -> (forall t p, p ∈ rd t -> pending_sector p <> s) ->
    write_to_cache ss insert_ok s buffer true w = (r, w') ->
    cache_step (w, pc, rd) (match r with Ok _ => Wrote s (take (Z.to_nat ss) buffer) | _ => Tau end) (w', pc, rd)
| step_release w pc rd n r w' : release_clean_pages n w = (r, w') -> cache_step (w, pc, rd) Tau (w', pc, rd)
| step_sync_begin w rd i temp w' : sync_begin i w = (Ok (Some temp), w') -> cache_step (w, None, rd) Tau (w', Some (SyncLoop temp 0 0), rd)
| step_sync w pc rd pc' w' : sync_step ss pc w = (Ok pc', w') -> cache_step (w, Some pc, rd) Tau (w', Some pc', rd)
| step_sync_end w rd temp r r' w' : sync_end ss temp w = (r', w') -> cache_step (w, Some (SyncEnd temp r), rd) Tau (w', None, rd).

Inductive cache_run : state -> list event -> state -> Prop :=
| run_nil st : cache_run st [] st
| run_cons st e st' es st'' : cache_step st e st' -> cache_run st' es st'' -> cache_run st (e :: es) st''.

(** A disk without a cache that sees the same events. *)
Fixpoint disk_run (disk : Z -> list Z) (es : list event) (disk' : Z -> list Z) : Prop :=
  match es with
  | [] => forall s, disk s = disk' s
  | Wrote s data :: es' => disk_run (fun s' => if s' =? s then data else disk s') es' disk'
  | Hit s data :: es' => disk s = data /\ disk_run disk es' disk'
  | Loaded s n bytes :: es' => (forall i, 0 <= i < n -> disk (s + i) = sector_at ss bytes i) /\ disk_run disk es' disk'
  | Tau :: es' => disk_run disk es' disk'
  end.

Definition initial (w : W) : Prop :=
  m_cache w = [] /\ holds (w_heap w) [] /\ (forall p, Z.of_nat (length (w_mem w p)) = PAGE_SIZE) /\ Z.of_nat (length (m_sync_cache w)) = PAGE_SIZE.

Lemma initial_inv w : initial w -> inv ss w None.
Proof.
  intros (Hc & Hh & Hm & Hs). split; rewrite ?Hc; first [done|apply SSorted_nil|by intros c ?%not_elem_of_nil|by intros c i ?%not_elem_of_nil].
Qed.

(** ** Sectors that the disk has

    A sector is settled if it is not dirty and no write-back is storing it. *)
Definition pc_temp (pc : sync_pc) : PageCache := match pc with SyncLoop temp _ _ | SyncEnd temp _ => temp end.

Definition pc_flight (pc : option sync_pc) : option flight :=
  match pc with Some pc => Some (flight_of (pc_temp pc)) | None => None end.

Definition sync_ok (w : W) (pc : option sync_pc) : Prop :=
  inv ss w (pc_flight pc) /\ match pc with Some p => pc_ok ss p (pc_flight pc) | None => True end.

Definition undirtied (w : W) (s : Z) : Prop :=
  forall c, find_page (m_cache w) (page_cache_start ss s) = Some c -> Z.testbit (dirty_mask c) (page_cache_offset ss s) = false.

Definition flying (fl : option flight) (s : Z) : bool :=
  match fl with Some f => (page_cache_start ss s =? f_sector f) && Z.testbit (f_mask f) (page_cache_offset ss s) | None => false end.

Definition settled (w : W) (pc : option sync_pc) (s : Z) : Prop := undirtied w s /\ flying (pc_flight pc) s = false.

Lemma settled_on_disk w pc s : inv ss w (pc_flight pc) -> settled w pc s -> sector (w_dev w) s = view ss w s.
Proof.
  intros HI [Hd Hf]. unfold view. destruct (find_page (m_cache w) (page_cache_start ss s)) as [c|] eqn:Hc; [|done].
  pose proof (Hd c Hc) as Hdc. apply find_page_Some in Hc as [Hin Hcf]; [|by apply (inv_sorted ss w (pc_flight pc))].
  destruct (Z.testbit (sector_mask c) (page_cache_offset ss s)) eqn:Eb; [|done].
  rewrite <- (start_offset ss s) at 1. rewrite <- Hcf. symmetry.
  apply (inv_clean ss w (pc_flight pc)); [done|done|by apply offset_range|done|done|].
  unfold flying in Hf. unfold in_flight. destruct (pc_flight pc) as [f|]; [|done]. by rewrite Hcf.
Qed.

(** What is not in the cache is settled. *)
Lemma uncached_settled w pc s : inv ss w (pc_flight pc) ->
  (forall c, find_page (m_cache w) (page_cache_start ss s) = Some c -> Z.testbit (sector_mask c) (page_cache_offset ss s) = false) -> settled w pc s.
Proof.
  intros HI Hno. pose proof (inv_sorted ss w _ HI) as Hs. split.
  - intros c Hc. pose proof (Hno c Hc) as Hm. apply find_page_Some in Hc as [Hin _]; [|done].
    destruct (Z.testbit (dirty_mask c) _) eqn:Ed; [|done]. apply (dirty_present ss c (inv_pages ss w _ HI c Hin)) in Ed. congruence.
  - pose proof (inv_flight ss w _ HI) as Hfl. unfold flying. destruct (pc_flight pc) as [f|]; [|done].
    destruct Hfl as (_ & c & Hc & Hfl). destruct (Z.eqb_spec (page_cache_start ss s) (f_sector f)) as [E|]; [|done]. cbn [andb].
    rewrite <- E in Hc. destruct (Z.testbit (f_mask f) _) eqn:Ef; [|done]. apply Hfl in Ef as [Hm _]. rewrite (Hno c Hc) in Hm. done.
Qed.

Lemma missed_settled w pc s size w' : inv ss w (pc_flight pc) -> 0 <= s -> ss <= size -> read_from_cache ss s size w = (Ok None, w') ->
  w' = w /\ settled w pc s.
Proof.
  intros HI Hs Hsize Hr. rewrite (read_from_cache_spec ss Hss Hgeometry w (pc_flight pc)) in Hr by done. simplify_eq. split; [done|].
  apply uncached_settled; [done|]. intros c Hc. rewrite Hc in *. destruct (Z.testbit _ _); [done|done].
Qed.

(** A page that changes, with its sectors. *)
Lemma undirtied_update (w w' : W) i c c' s : StronglySorted before (m_cache w) -> m_cache w !! i = Some c -> first_sector c' = first_sector c ->
  m_cache w' = <[i := c']> (m_cache w) ->
  (first_sector c = page_cache_start ss s -> Z.testbit (dirty_mask c) (page_cache_offset ss s) = false -> Z.testbit (dirty_mask c') (page_cache_offset ss s) = false) ->
  undirtied w s -> undirtied w' s.
Proof.
  intros Hs Hi Hf Hm Hc Hu x. rewrite Hm, (find_page_update _ i c) by done. destruct (Z.eqb_spec (first_sector c) (page_cache_start ss s)) as [E|E]; [|apply Hu].
  intros [= <-]. apply Hc; [done|]. apply Hu. apply find_page_Some; [done|]. split; [by eapply list_elem_of_lookup_2|done].
Qed.

Lemma make_page_undirtied w fl i s s' : inv ss w fl -> 0 <= s -> lower_bound (m_cache w) (page_cache_start ss s) i ->
  undirtied w s' -> undirtied (snd (make_page ss insert_ok i s w)) s'.
Proof.
  intros HI Hs Hlb Hu. pose proof (make_page_spec ss insert_ok Hss Hgeometry w fl i s HI Hs Hlb) as Hmk. unfold make_page in *.
  destruct (match m_cache w !! i with Some c => negb (first_sector c =? page_cache_start ss s) | None => true end); [|done].
  destruct (ps_take (w_heap w)) as [[h p]| |]; [|done..]. destruct (p =? 0); [done|]. cbn [set_heap w_inserts] in *. destruct (insert_ok (w_inserts w)).
  - destruct Hmk as [HI' _]. pose proof (inv_sorted ss _ _ HI') as Hs'. intros c. cbn in *. rewrite find_page_insert by done. cbn.
    destruct (page_cache_start ss s =? page_cache_start ss s'); [|by apply Hu]. intros [= <-]. apply Z.bits_0.
  - destruct (ps_release _ _); done.
Qed.

Lemma write_undirtied w fl s buffer dirty r w' s' : inv ss w fl -> 0 <= s -> ss <= Z.of_nat (length buffer) ->
  write_to_cache ss insert_ok s buffer dirty w = (r, w') -> (dirty = true -> r = Ok tt -> s' <> s) -> undirtied w s' -> undirtied w' s'.
Proof.
  intros HI Hs Hl Hw Hne Hu. unfold write_to_cache, sbind, sassert, sget, slift in Hw. rewrite (proj2 (Z.leb_le _ _)) in Hw by done.
  destruct (index_spec ss w fl s HI) as (i & Hi & Hlb). rewrite Hi in Hw.
  pose proof (make_page_spec ss insert_ok Hss Hgeometry w fl i s HI Hs Hlb) as Hmk. pose proof (make_page_undirtied w fl i s s' HI Hs Hlb Hu) as Hu'.
  destruct (make_page ss insert_ok i s w) as [[[]|e|] w1]; cbn [snd] in Hu'; [|by simplify_eq..].
  destruct Hmk as (HI1 & _ & _ & c & Hc & Hf). rewrite Hc in Hw. unfold sput in Hw. simplify_eq.
  pose proof (offset_range ss Hss Hgeometry s) as Ho. pose proof (offset_range ss Hss Hgeometry s') as Ho'.
  pose proof (inv_pages ss w1 fl HI1 c ltac:(by eapply list_elem_of_lookup_2)) as Hok.
  apply (undirtied_update w1 _ i c (with_sector c (page_cache_offset ss s) dirty)); [by apply (inv_sorted ss w1 fl)|done|done|done| |done].
  intros E Ed. destruct (with_sector_bits ss Hss Hgeometry c (page_cache_offset ss s) dirty Hok Ho) as (_ & _ & ->); [|lia]. rewrite Ed, orb_false_r.
  destruct dirty; [|done]. cbn [andb]. apply Z.eqb_neq. intros Eo. apply (Hne eq_refl eq_refl).
  rewrite <- (start_offset ss s'), <- (start_offset ss s). congruence.
Qed.

Lemma release_undirtied w fl n r w' s : inv ss w fl -> release_clean_pages n w = (r, w') -> undirtied w s -> undirtied w' s.
Proof.
  intros HI Hr Hu c Hc. pose proof (release_clean_pages_spec ss Hss Hgeometry w fl n HI) as Hspec. rewrite Hr in Hspec.
  destruct Hspec as ((HI' & _) & _ & Hsub & _). apply find_page_Some in Hc as [Hin Hf]; [|by apply (inv_sorted ss w' fl)].
  apply Hu. apply find_page_Some; [by apply (inv_sorted ss w fl)|]. split; [by apply Hsub|done].
Qed.

(** ** Write-backs *)
Lemma sync_begin_ok w i temp w' : inv ss w None -> sync_begin i w = (Ok (Some temp), w') ->
  sync_ok w' (Some (SyncLoop temp 0 0)) /\ (forall s, view ss w' s = view ss w s) /\ m_cache w !! i = Some temp /\
  m_cache w' = <[i := with_state temp 0 true]> (m_cache w).
Proof.
  intros HI Hb. pose proof (sync_begin_spec ss Hss Hgeometry w i HI) as Hs. destruct (m_cache w !! i) as [c|]; [|congruence].
  destruct (dirty_mask c =? 0); [congruence|]. destruct Hs as (w1 & He & HI1 & Hv1 & Hm). rewrite Hb in He. simplify_eq.
  split_and!; [|done|done|done]. split; [done|]. pose proof (geometry ss Hss Hgeometry). split_and!; [done|lia|lia|lia|intros j Hj; lia|intros j Hj; lia].
Qed.

Lemma sync_begin_none (w w' : W) i : sync_begin i w = (Ok None, w') -> w' = w /\ forall c, m_cache w !! i = Some c -> dirty_mask c = 0.
Proof.
  unfold sync_begin. destruct (m_cache w !! i) as [c|]; [|by intros [= <-]]. destruct (Z.eqb_spec (dirty_mask c) 0); [|done]. intros [= <-].
  split; [done|]. by intros ? [= <-].
Qed.

Lemma sync_begin_settled w i temp w' s : inv ss w None -> sync_begin i w = (Ok (Some temp), w') -> undirtied w s ->
  settled w' (Some (SyncLoop temp 0 0)) s.
Proof.
  intros HI Hb Hu. destruct (sync_begin_ok w i temp w' HI Hb) as (_ & _ & Hi & Hm). pose proof (inv_sorted ss w _ HI) as Hs. split.
  - apply (undirtied_update w w' i temp (with_state temp 0 true)); [done..| |done]. intros _ _. apply Z.bits_0.
  - cbn. destruct (Z.eqb_spec (page_cache_start ss s) (first_sector temp)) as [E|]; [|done]. cbn [andb]. apply Hu.
    apply find_page_Some; [done|]. split; [by eapply list_elem_of_lookup_2|done].
Qed.

Lemma sync_run_mask (w : W) temp k n temp' w' i : sync_run ss temp k n w = (Ok temp', w') ->
  first_sector temp' = first_sector temp /\ (Z.testbit (dirty_mask temp) i = false -> Z.testbit (dirty_mask temp') i = false).
Proof.
  unfold sync_run, sbind, sget, sassert, on_device. destruct (_ <=? _); [|done]. destruct (sd_write _ _ _ _) as [[[]| |] d]; [|done..].
  intros [= <- _]. split; [done|]. cbn. intros Hi. by rewrite Z.land_spec, Hi.
Qed.

Lemma sync_step_flying (w : W) pc pc' w' s : sync_step ss pc w = (Ok pc', w') -> flying (pc_flight (Some pc)) s = false -> flying (pc_flight (Some pc')) s = false.
Proof.
  intros Hp. assert (Hm : first_sector (pc_temp pc') = first_sector (pc_temp pc) /\ forall i, Z.testbit (dirty_mask (pc_temp pc)) i = false -> Z.testbit (dirty_mask (pc_temp pc')) i = false).
  { destruct pc as [temp k n|temp r]; cbn [sync_step] in Hp; [|by simplify_eq]. repeat case_if_in Hp; try by simplify_eq.
    all: destruct (sync_run ss temp k n w) as [[temp'|e|] w1] eqn:Er; simplify_eq; try done; cbn.
    all: split; [by apply (sync_run_mask w temp k n temp' w' 0)|]; intros i; by apply (sync_run_mask w temp k n temp' w' i). }
  destruct Hm as [Hf Hm]. cbn. rewrite Hf. intros [E|E]%andb_false_iff; [by rewrite E|]. by rewrite Hm, andb_false_r.
Qed.

Lemma sync_step_ok w pc pc' w' : sync_ok w (Some pc) -> sync_step ss pc w = (Ok pc', w') ->
  sync_ok w' (Some pc') /\ (forall s, view ss w' s = view ss w s) /\ m_cache w' = m_cache w /\ pc_sector pc' = pc_sector pc.
Proof.
  intros [HI Hpc] Hp. pose proof (sync_step_spec ss Hss Hgeometry w pc _ HI Hpc) as Hs. rewrite Hp in Hs. destruct Hs as (Hm & Hv & Hsec & (fl' & HI' & Hpc') & _).
  split_and!; [|done|done|done]. assert (fl' = pc_flight (Some pc')) as -> by (destruct pc' as [temp k n|temp r]; apply Hpc'). done.
Qed.

Lemma sync_end_ok w temp r r' w' : sync_ok w (Some (SyncEnd temp r)) -> sync_end ss temp w = (r', w') ->
  r' = Ok tt /\ inv ss w' None /\ (forall s, view ss w' s = view ss w s) /\
  exists i c, m_cache w !! i = Some c /\ first_sector c = first_sector temp /\
    m_cache w' = <[i := with_state c (Z.lor (dirty_mask c) (dirty_mask temp)) false]> (m_cache w).
Proof.
  intros [HI _] He. pose proof (inv_flight ss w _ HI) as (_ & c & Hc & _). cbn in Hc.
  apply find_page_Some in Hc as [[i Hi]%list_elem_of_lookup Hf]; [|by apply (inv_sorted ss w _ HI)].
  destruct (sync_end_spec ss Hss Hgeometry w i c temp HI Hi Hf) as (w1 & He' & HI1 & Hv1 & Hm). rewrite He in He'. simplify_eq.
  split_and!; [done..|]. by exists i, c.
Qed.

Lemma sync_end_undirtied w temp r r' w' s : sync_ok w (Some (SyncEnd temp r)) -> sync_end ss temp w = (r', w') ->
  undirtied w s -> flying (pc_flight (Some (SyncEnd temp r))) s = false -> undirtied w' s.
Proof.
  intros Hok He Hu Hf. destruct (sync_end_ok w temp r r' w' Hok He) as (_ & _ & _ & i & c & Hi & Hc & Hm).
  apply (undirtied_update w w' i c (with_state c (Z.lor (dirty_mask c) (dirty_mask temp)) false)); [|done|done|done| |done].
  - destruct Hok as [HI _]. by apply (inv_sorted ss w _ HI).
  - intros E Ed. cbn in *. rewrite Z.lor_spec, Ed. rewrite <- E, Hc, Z.eqb_refl in Hf. done.
Qed.

(** ** Every step *)
Definition pending_ok (w : W) (pc : option sync_pc) (p : pending) : Prop :=
  0 <= pending_sector p /\ settled w pc (pending_sector p) /\ match p with Missed _ => True | Fetched s data => data = view ss w s end.

Definition state_ok (st : state) : Prop :=
  let '(w, pc, rd) := st in sync_ok w pc /\ forall t p, p ∈ rd t -> pending_ok w pc p.

(** What a step with event [e] does to what readers see and to settled sectors. *)
Definition step_effect (w : W) (pc : option sync_pc) (e : event) (w' : W) (pc' : option sync_pc) : Prop :=
  sync_ok w' pc' /\
  match e with
  | Wrote s data => forall s', view ss w' s' = if s' =? s then data else view ss w s'
  | Hit s data => view ss w s = data /\ forall s', view ss w' s' = view ss w s'
  | Loaded s n bytes => (forall i, 0 <= i < n -> view ss w (s + i) = sector_at ss bytes i) /\ forall s', view ss w' s' = view ss w s'
  | Tau => forall s', view ss w' s' = view ss w s'
  end /\
  forall s, (forall data, e <> Wrote s data) -> settled w pc s -> settled w' pc' s.

Lemma fetched_length w pc p s data : sync_ok w pc -> pending_ok w pc p -> p = Fetched s data -> Z.of_nat (length data) = ss.
Proof. intros [HI _] (_ & Hs & Hd) ->. cbn in *. subst data. rewrite <- (settled_on_disk w pc s HI Hs). apply sector_length. Qed.

Lemma read_effect w pc s size r w' : sync_ok w pc -> 0 <= s -> ss <= size -> read_from_cache ss s size w = (Ok r, w') ->
  w' = w /\ match r with Some data => view ss w s = data | None => settled w pc s end.
Proof.
  intros [HI Hpc] Hs Hsize Hr. destruct r as [data|]; [|by eapply missed_settled].
  rewrite (read_from_cache_spec ss Hss Hgeometry w (pc_flight pc)) in Hr by done. destruct (find_page _ _) as [c|]; [|done].
  destruct (Z.testbit _ _); [|done]. by simplify_eq.
Qed.

Lemma fetch_effect w pc s n r d : sync_ok w pc -> 0 <= n -> sd_read s n (w_dev w) = (r, d) -> (forall i, 0 <= i < n -> settled w pc (s + i)) ->
  step_effect w pc (match r with Ok bytes => Loaded s n bytes | _ => Tau end) (set_dev w d) pc /\
  match r with Ok bytes => forall i, 0 <= i < n -> sector_at ss bytes i = view ss w (s + i) | _ => True end.
Proof.
  intros [HI Hpc] Hn Hr Hs. pose proof (sd_read_spec (w_dev w) s n Hn) as Hspec. rewrite Hr in Hspec. destruct Hspec as [Hd Hb].
  destruct (device_same ss w _ d HI Hd) as [HI' Hv].
  assert (Hbytes : match r with Ok bytes => forall i, 0 <= i < n -> sector_at ss bytes i = view ss w (s + i) | _ => True end).
  { destruct r as [bytes|e|]; [|done|done]. subst bytes. intros i Hi. rewrite sector_at_sectors by (done || apply sector_length).
    apply (settled_on_disk w pc); [done|by apply Hs]. }
  split; [|done]. split; [done|]. split; [|done]. destruct r as [bytes|e|]; [|done|done]. split; [|done]. intros i Hi. by rewrite Hbytes.
Qed.

Lemma fill_effect w pc s data r w' : sync_ok w pc -> pending_ok w pc (Fetched s data) -> write_to_cache ss insert_ok s data false w = (r, w') ->
  step_effect w pc Tau w' pc.
Proof.
  intros Hok Hp Hw. pose proof (fetched_length w pc _ s data Hok Hp eq_refl) as Hl. destruct Hok as [HI Hpc]. destruct Hp as (Hs & _ & Hd). cbn in Hs, Hd.
  assert (Ht : take (Z.to_nat ss) data = data) by (apply take_ge; lia).
  pose proof (write_to_cache_spec ss insert_ok Hss Hgeometry w _ s data false HI Hs ltac:(lia) ltac:(by rewrite Ht)) as Hspec.
  rewrite Hw in Hspec. destruct Hspec as (HI' & _ & Hr). split; [done|]. split.
  - intros s'. destruct r as [?|?|]; [|by apply Hr|done]. rewrite Hr, Ht. destruct (Z.eqb_spec s' s) as [->|]; done.
  - intros s' _ [Hu Hf]. split; [|done]. by apply (write_undirtied w (pc_flight pc) s data false r); try lia.
Qed.

Lemma write_effect w pc s buffer r w' : sync_ok w pc -> 0 <= s -> ss <= Z.of_nat (length buffer) -> write_to_cache ss insert_ok s buffer true w = (r, w') ->
  step_effect w pc (match r with Ok _ => Wrote s (take (Z.to_nat ss) buffer) | _ => Tau end) w' pc.
Proof.
  intros [HI Hpc] Hs Hl Hw. pose proof (write_to_cache_spec ss insert_ok Hss Hgeometry w _ s buffer true HI Hs Hl ltac:(done)) as Hspec.
  rewrite Hw in Hspec. destruct Hspec as (HI' & _ & Hr). split; [done|]. split; [destruct r as [?|?|]; [done|by apply Hr|done]|].
  intros s' He [Hu Hf]. split; [|done]. apply (write_undirtied w (pc_flight pc) s buffer true r); [done..| |done].
  intros _ -> ->. by apply (He (take (Z.to_nat ss) buffer)).
Qed.

Lemma release_pages_effect w pc n r w' : sync_ok w pc -> release_clean_pages n w = (r, w') -> step_effect w pc Tau w' pc.
Proof.
  intros [HI Hpc] Hr. pose proof (release_clean_pages_spec ss Hss Hgeometry w _ n HI) as Hspec. rewrite Hr in Hspec.
  destruct Hspec as ((HI' & Hv & _) & _). split; [done|]. split; [done|]. intros s _ [Hu Hf]. split; [|done]. by apply (release_undirtied w (pc_flight pc) n r).
Qed.

Lemma step_effects w pc rd e w' pc' rd' : cache_step (w, pc, rd) e (w', pc', rd') -> state_ok (w, pc, rd) -> step_effect w pc e w' pc'.
Proof.
  inversion 1 as [? ? ? s size data ? Hs Hsize Hr|? ? ? t s size ? Hs Hsize Hr|? ? ? t s n bytes d Hn Hm Hr|? ? ? t s n er d Hn Hr|
    ? ? ? t s data r ? Hin Hw|? ? ? s buffer r ? Hs Hl Hfree Hw|? ? ? n r ? Hr|? ? i temp ? Hb|? p ? ? ? Hp|? ? temp r r' ? He]; subst; intros [Hok Hrd].
  - destruct (read_effect w pc' s size (Some data) w' Hok Hs Hsize Hr) as [-> Hv]. split; [done|]. split; [done|]. done.
  - destruct (read_effect w pc' s size None w' Hok Hs Hsize Hr) as [-> _]. done.
  - apply (fetch_effect w pc' s n (Ok bytes) d Hok Hn Hr). intros i Hi. by apply (Hrd t (Missed (s + i))), Hm.
  - pose proof Hok as [HI Hpc]. pose proof (sd_read_spec (w_dev w) s n Hn) as Hspec. rewrite Hr in Hspec. destruct Hspec as [Hd _].
    destruct (device_same ss w _ d HI Hd) as [HI' Hv]. by split.
  - apply (fill_effect w pc' s data r w' Hok); [by apply (Hrd t)|done].
  - by apply write_effect.
  - by apply (release_pages_effect w pc' n r).
  - destruct Hok as [HI _]. destruct (sync_begin_ok w i temp w' HI Hb) as (Hok' & Hv & _). split; [done|]. split; [done|].
    intros s _ [Hu _]. by apply (sync_begin_settled w i temp).
  - destruct (sync_step_ok w p _ w' Hok Hp) as (Hok' & Hv & Hm & _). split; [done|]. split; [done|].
    intros s _ [Hu Hf]. split; [unfold undirtied; by rewrite Hm|by apply (sync_step_flying w p _ w')].
  - destruct (sync_end_ok w temp r r' w' Hok He) as (_ & HI' & Hv & _). split; [done|]. split; [done|].
    intros s _ [Hu Hf]. split; [by apply (sync_end_undirtied w temp r r')|done].
Qed.

Lemma unwritten_view w pc e w' pc' s : step_effect w pc e w' pc' -> (forall data, e <> Wrote s data) -> view ss w' s = view ss w s.
Proof.
  intros (_ & Hv & _) He. destruct e as [s' data|s' data|s' n bytes|]; [|by apply Hv|by apply Hv|by apply Hv].
  rewrite Hv. destruct (Z.eqb_spec s s') as [->|]; [by destruct (He data)|done].
Qed.

Lemma pending_kept w pc e w' pc' p : step_effect w pc e w' pc' -> (forall data, e <> Wrote (pending_sector p) data) ->
  pending_ok w pc p -> pending_ok w' pc' p.
Proof.
  intros Heff He (H0 & Hs & Hd). split_and!; [done|by apply Heff|]. destruct p as [s|s data]; [done|].
  by rewrite (unwritten_view w pc e w' pc') by done.
Qed.

Lemma reads_kept w pc e w' pc' (rd : nat -> list pending) t l : step_effect w pc e w' pc' -> (forall s data, e <> Wrote s data) ->
  (forall t p, p ∈ rd t -> pending_ok w pc p) -> (forall p, p ∈ l -> p ∈ rd t \/ pending_ok w' pc' p) ->
  forall t' p, p ∈ <[t := l]> rd t' -> pending_ok w' pc' p.
Proof.
  intros Heff He Hrd Hl t' p. destruct (decide (t = t')) as [<-|]; [rewrite fn_lookup_insert|rewrite fn_lookup_insert_ne by done].
  - intros [Hp|Hp]%Hl; [|done]. by apply (pending_kept w pc e w'); [|naive_solver|apply (Hrd t)].
  - intros Hp. by apply (pending_kept w pc e w'); [|naive_solver|apply (Hrd t')].
Qed.

Lemma cache_step_ok st e st' : cache_step st e st' -> state_ok st -> state_ok st'.
Proof.
  destruct st as [[w pc] rd], st' as [[w' pc'] rd']. intros Hstep Hst. pose proof (step_effects w pc rd e w' pc' rd' Hstep Hst) as Heff.
  split; [apply Heff|]. pose proof Hst as [Hok Hrd].
  inversion Hstep as [? ? ? s size data ? Hs Hsize Hr|? ? ? t s size ? Hs Hsize Hr|? ? ? t s n bytes d Hn Hm Hr|? ? ? t s n er d Hn Hr|
    ? ? ? t s data r ? Hin Hw|? ? ? s buffer r ? Hs Hl Hfree Hw|? ? ? n r ? Hr|? ? i temp ? Hb|? p ? ? ? Hp|? ? temp r r' ? He]; subst.
  1,7,8,9,10: intros t' p' Hp'; by eapply (pending_kept w _ _ w'); [done|done|apply (Hrd t')].
  - apply (reads_kept w pc' Tau w'); [done..|]. intros p [->|Hp]%elem_of_cons; [|by left]. right.
    destruct (read_effect w pc' s size None w' Hok Hs Hsize Hr) as [-> Hset]. done.
  - apply (reads_kept w pc' (Loaded s n bytes) (set_dev w d)); [done..|]. intros p [Hp|Hp]%elem_of_app; [|by left]. right.
    apply list_elem_of_fmap in Hp as (i & -> & Hi). apply elem_of_seqZ in Hi. pose proof (Hrd t _ (Hm i ltac:(lia))) as (H0 & Hset & _). cbn in H0, Hset.
    split_and!; [done|by apply Heff|]. destruct Heff as (_ & [Hb Hv] & _). rewrite Hv. symmetry. apply Hb. lia.
  - apply (reads_kept w pc' Tau (set_dev w d)); [done..|]. by intros p ?%not_elem_of_nil.
  - apply (reads_kept w pc' Tau w'); [done..|]. intros p [_ Hp]%list_elem_of_filter. by left.
  - intros t' p' Hp'. eapply (pending_kept w _ _ w'); [done| |by apply (Hrd t')]. intros data. pose proof (Hfree t' p' Hp'). destruct r; naive_solver.
Qed.

(** ** Runs *)
Lemma disk_run_ext es : forall d1 d2 d', (forall s, d1 s = d2 s) -> disk_run d1 es d' -> disk_run d2 es d'.
Proof.
  induction es as [|e es IH]; intros d1 d2 d' He Hr; [intros s; by rewrite <- He|]. destruct e as [s data|s data|s n bytes|]; cbn in *.
  - eapply IH; [|done]. intros s'. cbn. by rewrite He.
  - destruct Hr as [Hr1 Hr2]. split; [by rewrite <- He|by apply (IH d1)].
  - destruct Hr as [Hr1 Hr2]. split; [intros i Hi; rewrite <- He; by apply Hr1|by apply (IH d1)].
  - by apply (IH d1).
Qed.

Lemma step_disk w pc e w' pc' es d : step_effect w pc e w' pc' -> disk_run (view ss w') es d -> disk_run (view ss w) (e :: es) d.
Proof.
  intros (_ & Hv & _) Hd. destruct e as [s data|s data|s n bytes|]; cbn.
  - by apply (disk_run_ext es (view ss w')).
  - destruct Hv as [Hv1 Hv2]. split; [done|]. by apply (disk_run_ext es (view ss w')).
  - destruct Hv as [Hv1 Hv2]. split; [done|]. by apply (disk_run_ext es (view ss w')).
  - by apply (disk_run_ext es (view ss w')).
Qed.

Lemma cache_run_ok st es st' : cache_run st es st' -> state_ok st -> state_ok st' /\ disk_run (view ss (st.1.1)) es (view ss (st'.1.1)).
Proof.
  induction 1 as [st|st e st1 es st2 Hstep Hrun IH]; intros Hok; [done|]. pose proof (cache_step_ok st e st1 Hstep Hok) as Hok1.
  destruct (IH Hok1) as [Hok2 Hd]. split; [done|]. destruct st as [[w pc] rd], st1 as [[w1 pc1] rd1].
  by apply (step_disk w pc e w1 pc1), Hd; apply (step_effects w pc rd e w1 pc1 rd1).
Qed.

Definition nobody : nat -> list pending := fun _ => [].

Lemma initial_ok w : initial w -> state_ok (w, None, nobody).
Proof. intros Hi. split; [split; [by apply initial_inv|done]|]. by intros t p ?%not_elem_of_nil. Qed.

(** ** The loops of [sync]

    [end_] is the end of the range, if there is one.  The thread tests its index
    ([SyncCheck]), takes [m_sync_mutex] ([SyncIndex]) and writes the page back
    ([SyncHolds]); between these everybody else goes on. *)
Inductive sync_pos : Type :=
| SyncCheck (i : nat)
| SyncIndex (i : nat)
| SyncHolds (i : nat)
| SyncDone (r : outcome unit).

Definition pages (w : W) : list Z := map first_sector (m_cache w).

Definition sync_guard (end_ : option Z) (w : W) (i : nat) : bool :=
  match m_cache w !! i with
  | Some c => match end_ with Some e => negb (e <=? first_sector c) | None => true end
  | None => false
  end.

(** The others neither add nor remove pages, and do not end the write-back of
    this thread. *)
Inductive sync_move (end_ : option Z) : state * sync_pos -> event -> state * sync_pos -> Prop :=
| move_check w pc rd i :
    sync_move end_ (w, pc, rd, SyncCheck i) Tau (w, pc, rd, if sync_guard end_ w i then SyncIndex i else SyncDone (Ok tt))
| move_clean w rd i w' : sync_begin i w = (Ok None, w') ->
    sync_move end_ (w, None, rd, SyncIndex i) Tau (w', None, rd, SyncCheck (i + 1))
| move_begin w rd i temp w' : sync_begin i w = (Ok (Some temp), w') ->
    sync_move end_ (w, None, rd, SyncIndex i) Tau (w', Some (SyncLoop temp 0 0), rd, SyncHolds i)
| move_end w rd i temp r r' w' : sync_end ss temp w = (r', w') ->
    sync_move end_ (w, Some (SyncEnd temp r), rd, SyncHolds i) Tau (w', None, rd, match r with Ok _ => SyncCheck (i + 1) | _ => SyncDone r end)
| move_other w pc rd e w' pc' rd' pos : cache_step (w, pc, rd) e (w', pc', rd') -> pages w' = pages w ->
    match pos with SyncHolds _ => pc' <> None | _ => True end ->
    sync_move end_ (w, pc, rd, pos) e (w', pc', rd', pos).

Inductive sync_trace (end_ : option Z) : state * sync_pos -> list event -> state * sync_pos -> Prop :=
| trace_nil x : sync_trace end_ x [] x
| trace_cons x e x' es x'' : sync_move end_ x e x' -> sync_trace end_ x' es x'' -> sync_trace end_ x (e :: es) x''.

(** Sector [s] is in a page that the loop has passed. *)
Definition passed (lo i : nat) (w : W) (s : Z) : Prop := exists j, pages w !! j = Some (page_cache_start ss s) /\ (lo <= j < i)%nat.

Definition sync_inv (end_ : option Z) (lo : nat) (s : Z) (w : W) (pc : option sync_pc) (pos : sync_pos) : Prop :=
  match pos with
  | SyncCheck i | SyncIndex i => passed lo i w s -> settled w pc s
  | SyncHolds i => (passed lo i w s -> settled w pc s) /\ (pages w !! i = Some (page_cache_start ss s) -> undirtied w s) /\
      exists p, pc = Some p /\ pages w !! i = Some (pc_sector p)
  | SyncDone (Ok _) => exists i, sync_guard end_ w i = false /\ (passed lo i w s -> settled w pc s)
  | SyncDone _ => True
  end.

Lemma pages_update (w w' : W) i c c' : m_cache w !! i = Some c -> first_sector c' = first_sector c -> m_cache w' = <[i := c']> (m_cache w) -> pages w' = pages w.
Proof.
  intros Hi Hf Hm. unfold pages. rewrite Hm. change (first_sector <$> <[i := c']> (m_cache w) = first_sector <$> m_cache w).
  rewrite list_fmap_insert. apply list_insert_id. rewrite list_lookup_fmap, Hi. cbn. by rewrite Hf.
Qed.

Lemma pages_lookup (w : W) i x : pages w !! i = Some x <-> exists c, m_cache w !! i = Some c /\ first_sector c = x.
Proof.
  unfold pages. change (map first_sector (m_cache w)) with (first_sector <$> m_cache w). rewrite list_lookup_fmap.
  destruct (m_cache w !! i) as [c|]; cbn; split.
  - intros [= <-]. by exists c.
  - by intros (? & [= <-] & <-).
  - done.
  - by intros (? & ? & _).
Qed.

Lemma guard_pages end_ (w w' : W) i : pages w' = pages w -> sync_guard end_ w' i = sync_guard end_ w i.
Proof.
  intros Hp. unfold sync_guard. assert (He : (first_sector <$> m_cache w') !! i = (first_sector <$> m_cache w) !! i) by exact (f_equal (fun l => l !! i) Hp).
  rewrite !list_lookup_fmap in He. destruct (m_cache w !! i), (m_cache w' !! i); cbn in He; [|done..]. injection He as ->. done.
Qed.

Lemma passed_pages lo i (w w' : W) s : pages w' = pages w -> passed lo i w' s -> passed lo i w s.
Proof. unfold passed. by intros ->. Qed.

Lemma passed_next lo i w s : passed lo (i + 1) w s -> passed lo i w s \/ pages w !! i = Some (page_cache_start ss s).
Proof. intros (j & Hj & Hr). destruct (decide (j = i)) as [->|]; [by right|]. left. exists j. split; [done|lia]. Qed.

Lemma page_at w fl i c s : inv ss w fl -> m_cache w !! i = Some c -> first_sector c = page_cache_start ss s ->
  find_page (m_cache w) (page_cache_start ss s) = Some c.
Proof. intros HI Hi Hc. apply find_page_Some; [by apply (inv_sorted ss w fl)|]. split; [by eapply list_elem_of_lookup_2|done]. Qed.

(** What is not dirty stays so while nobody writes it and no write-back ends. *)
Lemma step_undirtied w pc rd e w' pc' rd' s : cache_step (w, pc, rd) e (w', pc', rd') -> state_ok (w, pc, rd) ->
  (forall data, e <> Wrote s data) -> (pc <> None -> pc' <> None) -> undirtied w s -> undirtied w' s.
Proof.
  intros Hstep Hst He Hpc' Hu. destruct (flying (pc_flight pc) s) eqn:Ef.
  2: { by apply (step_effects w pc rd e w' pc' rd' Hstep Hst). }
  pose proof Hst as [Hok Hrd]. pose proof Hok as [HI _].
  inversion Hstep as [? ? ? s1 size data ? Hs Hsize Hr|? ? ? t s1 size ? Hs Hsize Hr|? ? ? t s1 n bytes d Hn Hm Hr|? ? ? t s1 n er d Hn Hr|
    ? ? ? t s1 data r ? Hin Hw|? ? ? s1 buffer r ? Hs Hl Hfree Hw|? ? ? n r ? Hr|? ? i temp ? Hb|? p ? ? ? Hp|? ? temp r r' ? Hend]; subst; try done.
  - by destruct (read_effect w pc' s1 size (Some data) w' Hok Hs Hsize Hr) as [-> _].
  - by destruct (read_effect w pc' s1 size None w' Hok Hs Hsize Hr) as [-> _].
  - pose proof (Hrd t _ Hin) as Hp. pose proof (fetched_length w pc' _ s1 data Hok Hp eq_refl) as Hl. destruct Hp as [H0 _].
    by apply (write_undirtied w (pc_flight pc') s1 data false r); try lia.
  - apply (write_undirtied w (pc_flight pc') s1 buffer true r); [done..| |done]. intros _ -> ->. by apply (He (take (Z.to_nat ss) buffer)).
  - by apply (release_undirtied w (pc_flight pc') n r).
  - destruct (sync_step_ok w p _ w' Hok Hp) as (_ & _ & Hm & _). unfold undirtied. by rewrite Hm.
  - by destruct Hpc'.
Qed.

Lemma step_pc w p rd e w' pc' rd' : cache_step (w, Some p, rd) e (w', pc', rd') -> state_ok (w, Some p, rd) -> pc' <> None ->
  exists p', pc' = Some p' /\ pc_sector p' = pc_sector p.
Proof.
  intros Hstep [Hok _] Hne. inversion Hstep as [| | | | | | | |? ? ? p' ? Hp|]; subst; try (by exists p).
  - exists p'. split; [done|]. by apply (sync_step_ok w p p' w').
  - done.
Qed.

Lemma move_step end_ st pos e st' pos' : sync_move end_ (st, pos) e (st', pos') -> cache_step st e st' \/ st' = st /\ e = Tau.
Proof.
  inversion 1 as [| ? ? ? ? Hb| | |]; subst.
  - by right.
  - apply sync_begin_none in Hb as [-> _]. by right.
  - left. by eapply step_sync_begin.
  - left. by eapply step_sync_end.
  - by left.
Qed.

Lemma move_effect end_ w pc rd pos e w' pc' rd' pos' : sync_move end_ (w, pc, rd, pos) e (w', pc', rd', pos') -> state_ok (w, pc, rd) ->
  state_ok (w', pc', rd') /\ step_effect w pc e w' pc'.
Proof.
  intros [Hstep|[[= -> -> ->] ->]]%move_step Hok.
  - split; [by eapply cache_step_ok|by apply (step_effects w pc rd e w' pc' rd')].
  - split; [done|]. destruct Hok as [Hok _]. done.
Qed.

Lemma sync_end_pages w temp r r' w' : sync_ok w (Some (SyncEnd temp r)) -> sync_end ss temp w = (r', w') -> pages w' = pages w.
Proof. intros Hok He. destruct (sync_end_ok w temp r r' w' Hok He) as (_ & _ & _ & i & c & Hi & _ & Hm). by apply (pages_update w w' i c (with_state c (Z.lor (dirty_mask c) (dirty_mask temp)) false)). Qed.

Lemma move_pages end_ w pc rd pos e w' pc' rd' pos' : sync_move end_ (w, pc, rd, pos) e (w', pc', rd', pos') -> state_ok (w, pc, rd) -> pages w' = pages w.
Proof.
  intros Hmove [Hok _]. inversion Hmove as [|? ? ? ? Hb|? ? i temp ? Hb|? ? ? temp r r' ? He|]; subst; [done| | | |done].
  - by apply sync_begin_none in Hb as [-> _].
  - destruct Hok as [HI _]. destruct (sync_begin_ok w i temp w' HI Hb) as (_ & _ & Hi & Hm). by apply (pages_update w w' i temp (with_state temp 0 true)).
  - by apply (sync_end_pages w temp r r').
Qed.

(** The page that is about to be written back is clean after it. *)
Lemma end_settles w temp u w' r' s : sync_ok w (Some (SyncEnd temp (Ok u))) -> sync_end ss temp w = (r', w') -> undirtied w s -> settled w' None s.
Proof.
  intros Hok He Hu. split; [|done]. apply (sync_end_undirtied w temp (Ok u) r'); [done..|]. destruct Hok as [_ [_ Hd]]. cbn. by rewrite Hd, Z.bits_0, andb_false_r.
Qed.

Lemma move_inv end_ lo s w pc rd pos e w' pc' rd' pos' : sync_move end_ (w, pc, rd, pos) e (w', pc', rd', pos') -> state_ok (w, pc, rd) ->
  (forall data, e <> Wrote s data) -> sync_inv end_ lo s w pc pos -> sync_inv end_ lo s w' pc' pos'.
Proof.
  intros Hmove Hst He Hinv. pose proof (move_pages _ _ _ _ _ _ _ _ _ _ Hmove Hst) as Hpg.
  destruct (move_effect _ _ _ _ _ _ _ _ _ _ Hmove Hst) as [_ (_ & _ & Hkeep)]. specialize (Hkeep s He).
  assert (Hpass : forall i, (passed lo i w s -> settled w pc s) -> passed lo i w' s -> settled w' pc' s)
    by (intros i Hi Hp; apply Hkeep, Hi; by apply (passed_pages lo i w w')).
  pose proof Hst as [Hok _]. inversion Hmove as [? ? ? i|? ? i ? Hb|? ? i temp ? Hb|? ? i temp r r' ? Hend|? ? ? ? ? ? ? ? Hstep _ Hpos]; subst.
  - destruct (sync_guard end_ w' i) eqn:Eg; [done|]. by exists i.
  - apply sync_begin_none in Hb as [-> Hclean]. intros [Hp|Hp]%passed_next; [by apply Hinv|]. split; [|done].
    apply pages_lookup in Hp as (c & Hi & Hc). destruct Hok as [HI _]. intros c'. rewrite (page_at w None i c s HI Hi Hc). intros [= <-].
    rewrite (Hclean c Hi). apply Z.bits_0.
  - destruct Hok as [HI _]. destruct (sync_begin_ok w i temp w' HI Hb) as ((HI' & _) & _ & Hi & Hm). pose proof (lookup_lt_Some _ _ _ Hi) as Hlt.
    assert (Hi' : m_cache w' !! i = Some (with_state temp 0 true)) by (rewrite Hm; by apply list_lookup_insert_eq). split_and!.
    + by apply Hpass.
    + intros (c & Hc1 & Hc2)%pages_lookup. simplify_eq. intros c'. rewrite (page_at w' _ i _ s HI' Hi' Hc2). intros [= <-]. apply Z.bits_0.
    + eexists. split; [done|]. apply pages_lookup. by eexists.
  - destruct Hinv as (Hp & Hu & q & [= <-] & Hq). destruct r as [u|er|]; [|done|done]. intros [Hn|Hn]%passed_next; [by apply (Hpass i)|].
    apply (end_settles w temp u w' r' s Hok Hend), Hu. congruence.
  - destruct pos' as [i|i|i|[u|er|]]; [exact (Hpass i Hinv)|exact (Hpass i Hinv)| | |done|done].
    + destruct Hinv as (Hp & Hu & q & -> & Hq). destruct (step_pc w q rd e w' pc' rd' Hstep Hst Hpos) as (q' & -> & Hq'). split_and!.
      * by apply Hpass.
      * intros Hn. apply (step_undirtied w (Some q) rd e w' (Some q') rd' s Hstep Hst He); [done|]. apply Hu. congruence.
      * exists q'. split; [done|]. congruence.
    + destruct Hinv as (i & Hg & Hp). exists i. split; [by rewrite (guard_pages end_ w w')|by apply Hpass].
Qed.

Lemma sync_trace_ok end_ lo s x es x' : sync_trace end_ x es x' -> state_ok x.1 -> (forall data, Wrote s data ∉ es) ->
  sync_inv end_ lo s x.1.1.1 x.1.1.2 x.2 ->
  state_ok x'.1 /\ pages x'.1.1.1 = pages x.1.1.1 /\ view ss x'.1.1.1 s = view ss x.1.1.1 s /\ sync_inv end_ lo s x'.1.1.1 x'.1.1.2 x'.2.
Proof.
  induction 1 as [x|[[[w pc] rd] pos] e [[[w1 pc1] rd1] pos1] es x' Hmove Htrace IH]; intros Hok He Hinv; [done|]. cbn [fst snd] in *.
  assert (He1 : forall data, e <> Wrote s data) by (intros data ->; apply (He data), list_elem_of_here).
  destruct (move_effect _ _ _ _ _ _ _ _ _ _ Hmove Hok) as [Hok1 Heff]. pose proof (move_pages _ _ _ _ _ _ _ _ _ _ Hmove Hok) as Hpg.
  destruct IH as (Hok' & Hpg' & Hv' & Hinv').
  - done.
  - intros data Hin. apply (He data). by apply list_elem_of_further.
  - by apply (move_inv end_ lo s w pc rd pos e w1 pc1 rd1 pos1).
  - split_and!; [done|congruence| |done]. rewrite Hv'. by apply (unwritten_view w pc e w1 pc1).
Qed.

(** A sector is settled if the loop has passed its page, or if it has none. *)
Lemma passed_settled lo i w pc s : inv ss w (pc_flight pc) -> (passed lo i w s -> settled w pc s) ->
  (forall j c, m_cache w !! j = Some c -> first_sector c = page_cache_start ss s -> (lo <= j < i)%nat) -> settled w pc s.
Proof.
  intros HI Hp Hin. destruct (find_page (m_cache w) (page_cache_start ss s)) as [c|] eqn:Hc.
  - apply find_page_Some in Hc as [[j Hj]%list_elem_of_lookup Hc]; [|by apply (inv_sorted ss w _ HI)]. apply Hp. exists j.
    split; [apply pages_lookup; by exists c|by apply (Hin j c)].
  - apply uncached_settled; [done|]. intros c. congruence.
Qed.

(** The pages that the loop over a range passes are those of the range. *)
Lemma range_index w fl first n lo i j c s : inv ss w fl -> 0 <= first -> 0 <= n -> first + n < 2 ^ 64 -> first <= s < first + n ->
  lower_bound (m_cache w) (page_cache_start ss first) lo -> sync_guard (Some (u64 (first + n))) w i = false ->
  m_cache w !! j = Some c -> first_sector c = page_cache_start ss s -> (lo <= j < i)%nat.
Proof.
  intros HI Hf Hn Hfn Hs (_ & Hlt & _) Hg Hj Hc. pose proof (start_monotone ss Hss Hgeometry first s ltac:(lia)) as Hm. split.
  - destruct (decide (lo <= j)%nat); [done|]. pose proof (Hlt j c Hj ltac:(lia)). lia.
  - unfold sync_guard in Hg. rewrite wrap_id in Hg by lia. destruct (decide (j < i)%nat); [done|]. destruct (m_cache w !! i) as [x|] eqn:Hi.
    + zify_bool. assert (first_sector x <= first_sector c).
      { destruct (decide (i = j)) as [->|]; [by simplify_eq|]. pose proof (sorted_lt _ _ _ _ _ (inv_sorted ss w fl HI) Hi Hj ltac:(lia)). lia. }
      pose proof (offset_range ss Hss Hgeometry s). pose proof (start_offset ss s). lia.
    + apply lookup_ge_None in Hi. apply lookup_lt_Some in Hj. lia.
Qed.

(** *** Filling a dirty sector

    It is a write: the sector stays dirty, with the data of the reader. *)
Definition dirtied (w : W) (s : Z) : Prop :=
  exists c, find_page (m_cache w) (page_cache_start ss s) = Some c /\ Z.testbit (dirty_mask c) (page_cache_offset ss s) = true.

Lemma write_dirties w fl s buffer w' : inv ss w fl -> 0 <= s -> ss <= Z.of_nat (length buffer) ->
  write_to_cache ss insert_ok s buffer true w = (Ok tt, w') -> dirtied w' s.
Proof.
  intros HI Hs Hl Hw. unfold write_to_cache, sbind, sassert, sget, slift in Hw. rewrite (proj2 (Z.leb_le _ _)) in Hw by done.
  destruct (index_spec ss w fl s HI) as (i & Hi & Hlb). rewrite Hi in Hw. pose proof (make_page_spec ss insert_ok Hss Hgeometry w fl i s HI Hs Hlb) as Hmk.
  destruct (make_page ss insert_ok i s w) as [[[]|e|] w1]; [|done..]. destruct Hmk as (HI1 & _ & _ & c & Hc & Hf). rewrite Hc in Hw. unfold sput in Hw. simplify_eq.
  pose proof (offset_range ss Hss Hgeometry s) as Ho. pose proof (inv_pages ss w1 fl HI1 c ltac:(by eapply list_elem_of_lookup_2)) as Hok.
  exists (with_sector c (page_cache_offset ss s) true). split.
  - cbn [set_cache m_cache]. etrans; [apply (find_page_update _ i c); [by apply (inv_sorted ss w1 fl)|done|done]|]. by rewrite (proj2 (Z.eqb_eq _ _)).
  - destruct (with_sector_bits ss Hss Hgeometry c (page_cache_offset ss s) true Hok Ho) as (_ & _ & ->); [|lia]. by rewrite Z.eqb_refl.
Qed.

Lemma with_sector_dirty c o : page_ok ss c -> 0 <= o < spp -> Z.testbit (dirty_mask c) o = true -> with_sector c o false = with_sector c o true.
Proof.
  intros Hok Ho Hd. unfold with_sector. f_equal. destruct (mask_spec ss Hss Hgeometry (dirty_mask c) o (dirty_range ss c Hok) Ho) as (-> & _ & Hb).
  apply Z.bits_inj'. intros j Hj. rewrite Hb by done. destruct (Z.eqb_spec j o) as [->|]; done.
Qed.

Lemma fill_dirty w fl s buffer : inv ss w fl -> 0 <= s -> ss <= Z.of_nat (length buffer) -> dirtied w s ->
  write_to_cache ss insert_ok s buffer false w = write_to_cache ss insert_ok s buffer true w /\ fst (write_to_cache ss insert_ok s buffer true w) = Ok tt.
Proof.
  intros HI Hs Hl (c & Hf & Hd). unfold write_to_cache, sbind, sassert, sget, slift. rewrite (proj2 (Z.leb_le _ _)) by done.
  destruct (index_spec ss w fl s HI) as (i & -> & Hlb). rewrite (index_hit ss w fl s i HI Hlb) in Hf.
  destruct (m_cache w !! i) as [c'|] eqn:Hc; [|done]. destruct (Z.eqb_spec (first_sector c') (page_cache_start ss s)) as [E|]; [|done]. simplify_eq.
  assert (make_page ss insert_ok i s w = (Ok tt, w)) as -> by (unfold make_page; by rewrite Hc, (proj2 (Z.eqb_eq _ _) E)). rewrite Hc.
  pose proof (offset_range ss Hss Hgeometry s) as Ho. pose proof (inv_pages ss w fl HI c ltac:(by eapply list_elem_of_lookup_2)) as Hok.
  pose proof (with_sector_dirty c _ Hok Ho Hd) as He. unfold with_sector in He. split; [|done]. unfold sput. do 3 f_equal. exact He.
Qed.

(** *** [sync] alone

    The functions [sync] and [sync_range] of [DiskCache] are the traces in which
    nobody else moves. *)
Lemma trace_app end_ x es x' es' x'' : sync_trace end_ x es x' -> sync_trace end_ x' es' x'' -> sync_trace end_ x (es ++ es') x''.
Proof. induction 1 as [x|x e x1 es x' Hm Ht IH]; intros Ht'; [done|]. cbn. eapply trace_cons; [done|]. by apply IH. Qed.

Definition undisturbed_trace (end_ : option Z) (x x' : state * sync_pos) : Prop := exists es, Forall (fun e => e = Tau) es /\ sync_trace end_ x es x'.

Lemma undisturbed_refl end_ x : undisturbed_trace end_ x x.
Proof. exists []. split; [constructor|apply trace_nil]. Qed.

Lemma undisturbed_cons end_ x x' x'' : sync_move end_ x Tau x' -> undisturbed_trace end_ x' x'' -> undisturbed_trace end_ x x''.
Proof. intros Hm (es & Hes & Ht). exists (Tau :: es). split; [by constructor|by eapply trace_cons]. Qed.

Lemma undisturbed_trans end_ x x' x'' : undisturbed_trace end_ x x' -> undisturbed_trace end_ x' x'' -> undisturbed_trace end_ x x''.
Proof. intros (es & Hes & Ht) (es' & Hes' & Ht'). exists (es ++ es'). split; [by apply Forall_app|by eapply trace_app]. Qed.

Definition after_page (i : nat) (r : outcome unit) : sync_pos := match r with Ok _ => SyncCheck (i + 1) | _ => SyncDone r end.

Lemma sync_pages_trace end_ i rd fuel : forall w pc r w', sync_ok w (Some pc) -> sync_pages ss fuel pc w = (r, w') -> r <> Panic ->
  undisturbed_trace end_ (w, Some pc, rd, SyncHolds i) (w', None, rd, after_page i r).
Proof.
  induction fuel as [|fuel IH]; intros w pc r w' Hok Hp Hr; destruct pc as [temp k n|temp r0]; cbn [sync_pages] in Hp; unfold sbind, slift in Hp.
  2,4: destruct (sync_end ss temp w) as [r1 w1] eqn:He; destruct (sync_end_ok w temp r0 r1 w1 Hok He) as [-> _]; simplify_eq;
    eapply undisturbed_cons; [by eapply move_end|apply undisturbed_refl].
  - by simplify_eq.
  - destruct (sync_step ss (SyncLoop temp k n) w) as [[pc'|e|] w1] eqn:Es.
    + destruct (sync_step_ok w _ pc' w1 Hok Es) as (Hok1 & _ & Hm & _).
      eapply undisturbed_cons; [|by apply (IH w1 pc')]. apply move_other; [by apply step_sync|unfold pages; by rewrite Hm|done].
    + destruct Hok as [HI Hpc]. pose proof (sync_step_spec ss Hss Hgeometry w _ _ HI Hpc) as Hs. rewrite Es in Hs. done.
    + destruct Hok as [HI Hpc]. pose proof (sync_step_spec ss Hss Hgeometry w _ _ HI Hpc) as Hs. rewrite Es in Hs. done.
Qed.

Lemma sync_index_trace end_ i rd w r w' : inv ss w None -> sync_cache_index ss i w = (r, w') ->
  undisturbed_trace end_ (w, None, rd, SyncIndex i) (w', None, rd, after_page i r).
Proof.
  intros HI Hs. pose proof (sync_cache_index_spec ss Hss Hgeometry w i HI) as Hspec. rewrite Hs in Hspec. destruct Hspec as [(_ & _ & Hr) _].
  unfold sync_cache_index, sbind, sret in Hs. destruct (sync_begin i w) as [[[temp|]|e|] w1] eqn:Eb; simplify_eq.
  - destruct (sync_begin_ok w i temp w1 HI Eb) as [Hok _]. eapply undisturbed_cons; [by eapply move_begin|]. by eapply sync_pages_trace.
  - eapply undisturbed_cons; [by eapply move_clean|apply undisturbed_refl].
  - unfold sync_begin in Eb. destruct (m_cache w !! i) as [c|]; [|done]. by destruct (dirty_mask c =? 0).
Qed.

Lemma sync_index_inv w i r w' : inv ss w None -> sync_cache_index ss i w = (r, w') -> inv ss w' None.
Proof. intros HI Hs. pose proof (sync_cache_index_spec ss Hss Hgeometry w i HI) as Hspec. rewrite Hs in Hspec. by destruct Hspec as [(? & _) _]. Qed.

Lemma sync_all_trace rd fuel : forall w i r w', inv ss w None -> sync_all ss fuel i w = (r, w') -> r <> Panic ->
  undisturbed_trace None (w, None, rd, SyncCheck i) (w', None, rd, SyncDone r).
Proof.
  induction fuel as [|fuel IH]; intros w i r w' HI Hs Hr; cbn [sync_all] in Hs; unfold sbind, sget, sret, slift in Hs.
  all: eapply undisturbed_cons; [apply move_check|]; unfold sync_guard; destruct (Nat.ltb_spec i (length (m_cache w))) as [Hi|Hi];
    [destruct (lookup_lt_is_Some_2 _ _ Hi) as [c ->]|rewrite (proj2 (lookup_ge_None _ _)) by done].
  2,4: simplify_eq; apply undisturbed_refl.
  - by simplify_eq.
  - destruct (sync_cache_index ss i w) as [r1 w1] eqn:Ei. pose proof (sync_index_inv w i r1 w1 HI Ei) as HI1.
    eapply undisturbed_trans; [by apply sync_index_trace|]. destruct r1 as [[]|e|]; simplify_eq; [by apply IH|apply undisturbed_refl..].
Qed.

Lemma sync_until_trace rd end_ fuel : forall w i r w', inv ss w None -> sync_until ss fuel i end_ w = (r, w') -> r <> Panic ->
  undisturbed_trace (Some end_) (w, None, rd, SyncCheck i) (w', None, rd, SyncDone r).
Proof.
  induction fuel as [|fuel IH]; intros w i r w' HI Hs Hr; cbn [sync_until] in Hs; unfold sbind, sget, sret, slift in Hs.
  all: eapply undisturbed_cons; [apply move_check|]; unfold sync_guard; destruct (m_cache w !! i) as [c|]; [|simplify_eq; apply undisturbed_refl].
  all: destruct (end_ <=? first_sector c); cbn [negb]; [simplify_eq; apply undisturbed_refl|].
  - by simplify_eq.
  - destruct (sync_cache_index ss i w) as [r1 w1] eqn:Ei. pose proof (sync_index_inv w i r1 w1 HI Ei) as HI1.
    eapply undisturbed_trans; [by apply sync_index_trace|]. destruct r1 as [[]|e|]; simplify_eq; [by apply IH|apply undisturbed_refl..].
Qed.
End theory.

(** C4: However lookups, reads from the device, fills, writes, releases and the
    steps of write-backs of any number of threads interleave, whichever reads and
    writes of the device fail, the cached disk behaves like a plain disk that
    sees the same reads and writes, whether the cache or the device answers a
    read; and no operation panics.  The lookup of a read that misses, its read
    from the device and its addition to the cache are separate steps, and the
    theorem is for the runs in which nobody writes a sector to the cache while a
    reader that missed that sector is between the first and the last of them
    ([cache_fill_loses_write] is what happens otherwise).  A write for which
    the cache finds no memory leaves the disk as it was; what its caller then
    does with the device is not part of these runs. *)
Theorem disk_cache_transparent (ss : Z) (insert_ok : nat -> bool) {H D : Type} `{PageSource H} `{!PageSourceLaws H}
  `{StorageDriver D} `{!StorageDriverLaws ss D} (Hss : 0 < ss) (Hgeometry : DiskCache_construct ss = Ok [])
  (w0 w : world H D) (pc : option sync_pc) (rd : nat -> list pending) (es : list event)
  (Hinit : initial w0) (Hrun : cache_run ss insert_ok (w0, None, nobody) es (w, pc, rd)) :
  disk_run ss (sector (w_dev w0)) es (view ss w) /\
  (forall s size, 0 <= s -> ss <= size -> exists r, read_from_cache ss s size w = (Ok r, w) /\ (r = Some (view ss w s) \/ r = None /\ view ss w s = sector (w_dev w) s)) /\
  (forall s buffer, 0 <= s -> ss <= Z.of_nat (length buffer) -> fst (write_to_cache ss insert_ok s buffer true w) <> Panic) /\
  (forall t s data, Fetched s data ∈ rd t -> data = view ss w s /\ fst (write_to_cache ss insert_ok s data false w) <> Panic) /\
  (forall n, fst (release_clean_pages n w) <> Panic) /\
  (match pc with
   | Some (SyncEnd temp _) => fst (sync_end ss temp w) = Ok tt
   | Some pc => fst (sync_step ss pc w) <> Panic
   | None => forall i, fst (sync_begin i w) <> Panic
   end).
Proof.
  destruct (cache_run_ok ss insert_ok Hss Hgeometry _ _ _ Hrun (initial_ok ss w0 Hinit)) as [[Hok Hrd] Hd]. cbn [fst] in Hd. pose proof Hok as [HI Hpc].
  split_and!.
  - apply (disk_run_ext ss es (view ss w0)); [|done]. intros s. unfold view. by destruct Hinit as (-> & _).
  - intros s size Hs Hsize. eexists. split; [by apply (read_from_cache_spec ss Hss Hgeometry w (pc_flight pc))|]. unfold view.
    destruct (find_page _ _) as [c|]; [|by right]. destruct (Z.testbit _ _); [by left|by right].
  - intros s buffer Hs Hb. pose proof (write_to_cache_spec ss insert_ok Hss Hgeometry w _ s buffer true HI Hs Hb ltac:(done)) as Hw.
    destruct (write_to_cache ss insert_ok s buffer true w) as [r w']. destruct Hw as (_ & _ & Hr). by destruct r.
  - intros t s data Hin. pose proof (Hrd t _ Hin) as Hp. pose proof (fetched_length ss Hss Hgeometry w pc _ s data Hok Hp eq_refl) as Hl.
    destruct Hp as (Hs & _ & Hv). split; [done|]. cbn in Hs. assert (Ht : take (Z.to_nat ss) data = data) by (apply take_ge; lia).
    pose proof (write_to_cache_spec ss insert_ok Hss Hgeometry w _ s data false HI Hs ltac:(lia) ltac:(by rewrite Ht)) as Hw.
    destruct (write_to_cache ss insert_ok s data false w) as [r w']. destruct Hw as (_ & _ & Hr). by destruct r.
  - intros n. pose proof (release_clean_pages_spec ss Hss Hgeometry w _ n HI) as Hr. destruct (release_clean_pages n w) as [r w']. by destruct Hr as ((_ & _ & ?) & _).
  - destruct pc as [[temp k n|temp r]|].
    + pose proof (sync_step_spec ss Hss Hgeometry w _ _ HI Hpc) as Hs. destruct (sync_step ss (SyncLoop temp k n) w) as [r w']. by destruct r.
    + destruct (sync_end ss temp w) as [r' w'] eqn:He. by destruct (sync_end_ok ss Hss Hgeometry w temp r r' w' Hok He) as [-> _].
    + intros i. unfold sync_begin. destruct (m_cache w !! i) as [c|]; [|done]. by destruct (dirty_mask c =? 0).
Qed.

(** C37: [sync] and [sync] of a range next to other threads, which read, fill,
    write and write back between the pages and during the write-back of a page,
    but neither add a page to the cache nor release one until it returns (if they
    do, pages can be skipped, see [sync_skips_moved_page]) nor write a sector
    between the miss and the fill of a reader (as in [disk_cache_transparent]).
    From every state that threads can bring an empty cache to: when it returns
    without an error, every sector (of the range) that nobody wrote meanwhile
    is on the disk as readers saw it at the call, and they still do.  Called with
    nobody else using the cache, both return, within the fuel, with what
    [DiskCache.sync] and [DiskCache.sync_range] compute. *)
Theorem sync_durable_among_threads (ss : Z) (insert_ok : nat -> bool) {H D : Type} `{PageSource H} `{!PageSourceLaws H}
  `{StorageDriver D} `{!StorageDriverLaws ss D} (Hss : 0 < ss) (Hgeometry : DiskCache_construct ss = Ok [])
  (w0 w : world H D) (pc : option sync_pc) (rd : nat -> list pending) (es : list event)
  (Hinit : initial w0) (Hrun : cache_run ss insert_ok (w0, None, nobody) es (w, pc, rd)) :
  (forall st' es', sync_trace ss insert_ok None (w, pc, rd, SyncCheck 0) es' (st', SyncDone (Ok tt)) ->
   forall s, (forall data, Wrote s data ∉ es') -> sector (w_dev st'.1.1) s = view ss w s /\ view ss st'.1.1 s = view ss w s) /\
  (forall first n i st' es', 0 <= first -> 0 <= n -> first + n < 2 ^ 64 -> find_sector_cache_index ss (m_cache w) first = Ok i ->
   sync_trace ss insert_ok (Some (u64 (first + n))) (w, pc, rd, SyncCheck i) es' (st', SyncDone (Ok tt)) ->
   forall s, first <= s < first + n -> (forall data, Wrote s data ∉ es') -> sector (w_dev st'.1.1) s = view ss w s /\ view ss st'.1.1 s = view ss w s) /\
  (pc = None ->
   (let '(r, w') := sync ss false w in r <> Panic /\ undisturbed_trace ss insert_ok None (w, None, rd, SyncCheck 0) (w', None, rd, SyncDone r)) /\
   (forall first n, 0 <= first -> 0 <= n -> first + n < 2 ^ 64 -> exists i, find_sector_cache_index ss (m_cache w) first = Ok i /\
    let '(r, w') := sync_range ss false first n w in
    r <> Panic /\ undisturbed_trace ss insert_ok (Some (u64 (first + n))) (w, None, rd, SyncCheck i) (w', None, rd, SyncDone r))).
Proof.
  destruct (cache_run_ok ss insert_ok Hss Hgeometry _ _ _ Hrun (initial_ok ss w0 Hinit)) as [Hok _].
  assert (Hfin : forall end_ lo st' es' s, sync_trace ss insert_ok end_ (w, pc, rd, SyncCheck lo) es' (st', SyncDone (Ok tt)) -> (forall data, Wrote s data ∉ es') ->
    (forall i j, sync_guard end_ w i = false -> pages w !! j = Some (page_cache_start ss s) -> (lo <= j < i)%nat) ->
    sector (w_dev st'.1.1) s = view ss w s /\ view ss st'.1.1 s = view ss w s).
  { intros end_ lo [[w' pc'] rd'] es' s Ht He Hin.
    destruct (sync_trace_ok ss insert_ok Hss Hgeometry end_ lo s _ _ _ Ht Hok He) as ([[HI' _] _] & Hpg & Hv & i & Hg & Hp); cbn [fst snd] in *; [intros (j & _ & Hj); lia|].
    split; [|done]. rewrite <- Hv. apply (settled_on_disk ss Hss Hgeometry w' pc' s HI'), (passed_settled ss lo i w' pc' s HI' Hp).
    intros j c Hj Hc. apply (Hin i j); [by rewrite <- (guard_pages end_ w w')|]. rewrite <- Hpg. apply pages_lookup. by exists c. }
  pose proof Hok as [[HI Hpc] _]. split_and!.
  - intros st' es' Ht s He. apply (Hfin None 0%nat st' es' s Ht He). intros i j Hg (c & Hj & _)%pages_lookup.
    unfold sync_guard in Hg. destruct (m_cache w !! i) eqn:Hi; [done|]. apply lookup_ge_None in Hi. apply lookup_lt_Some in Hj. lia.
  - intros first n lo st' es' Hf Hn Hfn Hlo Ht s Hs He. apply (Hfin (Some (u64 (first + n))) lo st' es' s Ht He).
    intros i j Hg (c & Hj & Hc)%pages_lookup. destruct (index_spec ss w _ first HI) as (i' & Hi' & Hlb). rewrite Hlo in Hi'. injection Hi' as <-.
    by apply (range_index ss Hss Hgeometry w (pc_flight pc) first n lo i j c s).
  - intros ->. split.
    + destruct (sync ss false w) as [r w'] eqn:Es. pose proof (sync_spec ss Hss Hgeometry w false HI) as Hs. rewrite Es in Hs. destruct Hs as ((_ & _ & Hp) & _).
      split; [done|]. by apply (sync_all_trace ss insert_ok Hss Hgeometry rd (length (m_cache w)) w 0%nat r w').
    + intros first n Hf Hn Hfn. destruct (index_spec ss w _ first HI) as (i & Hi & _). exists i. split; [done|].
      destruct (sync_range ss false first n w) as [r w'] eqn:Es. pose proof (sync_range_spec ss Hss Hgeometry w first n HI Hf Hn Hfn) as Hs. rewrite Es in Hs.
      destruct Hs as ((_ & _ & Hp) & _). split; [done|]. unfold sync_range, sbind, sget, slift in Es. rewrite Hi in Es.
      by apply (sync_until_trace ss insert_ok Hss Hgeometry rd (u64 (first + n)) (length (m_cache w)) w i r w').
Qed.

(** C38: A reader misses a sector and has its data from the device; before it adds
    them to the cache, somebody else writes the sector, with success.  Nothing
    prevents this order.  In every well-formed state of the cache, for every
    sector and all data of its size: the late addition succeeds, readers see the
    old data again, and if a [sync] that follows (with no write-back under way)
    succeeds it is the old data that the disk holds: the write is lost. *)
Theorem cache_fill_loses_write (ss : Z) (insert_ok : nat -> bool) {H D : Type} `{PageSource H} `{!PageSourceLaws H}
  `{StorageDriver D} `{!StorageDriverLaws ss D} (Hss : 0 < ss) (Hgeometry : DiskCache_construct ss = Ok [])
  (w w1 : world H D) (fl : option flight) (s : Z) (old new : list Z) (HI : inv ss w fl) (Hs : 0 <= s) (Hnew : Z.of_nat (length new) = ss)
  (Hmiss : read_from_cache ss s ss w = (Ok None, w)) (Hold : fst (sd_read s 1 (w_dev w)) = Ok old)
  (Hwrite : write_to_cache ss insert_ok s new true w = (Ok tt, w1)) :
  view ss w1 s = new /\
  let '(r2, w2) := write_to_cache ss insert_ok s old false w1 in
  r2 = Ok tt /\ view ss w2 s = old /\
  (fl = None -> let '(r3, w3) := sync ss false w2 in r3 = Ok tt -> view ss w3 s = old /\ sector (w_dev w3) s = old).
Proof.
  assert (Htake : forall l : list Z, Z.of_nat (length l) = ss -> take (Z.to_nat ss) l = l) by (intros l Hl; apply take_ge; lia).
  assert (Hlen : Z.of_nat (length old) = ss).
  { pose proof (sd_read_spec (w_dev w) s 1 ltac:(lia)) as Hr. destruct (sd_read s 1 (w_dev w)) as [r d]. cbn in Hold. subst r. destruct Hr as [_ ->].
    rewrite (sectors_length ss) by (lia || apply sector_length). lia. }
  pose proof (write_to_cache_spec ss insert_ok Hss Hgeometry w fl s new true HI Hs ltac:(lia) ltac:(done)) as Hw. rewrite Hwrite in Hw.
  destruct Hw as (HI1 & _ & Hv1). split; [by rewrite Hv1, Z.eqb_refl, Htake|].
  destruct (fill_dirty ss insert_ok Hss Hgeometry w1 fl s old HI1 Hs ltac:(lia)) as [-> Hok].
  { by apply (write_dirties ss insert_ok Hss Hgeometry w fl s new); try lia. }
  pose proof (write_to_cache_spec ss insert_ok Hss Hgeometry w1 fl s old true HI1 Hs ltac:(lia) ltac:(done)) as Hw.
  destruct (write_to_cache ss insert_ok s old true w1) as [r2 w2]. cbn in Hok. subst r2. destruct Hw as (HI2 & _ & Hv2).
  assert (Hold2 : view ss w2 s = old) by (by rewrite Hv2, Z.eqb_refl, Htake). split_and!; [done|done|]. intros ->.
  pose proof (sync_spec ss Hss Hgeometry w2 false HI2) as Hsync. destruct (sync ss false w2) as [r3 w3]. destruct Hsync as ((_ & Hv3 & _) & _ & Hd). intros ->.
  split; [by rewrite Hv3|]. by rewrite (proj2 (Hd eq_refl eq_refl)).
Qed.
