(* ===== verification/DiskCacheChecks.v ===== *)
(** * The disk cache on the kernel heap

    The kernel heap keeps the promises the cache needs of its pages.  With it
    and a disk in memory the theorems of the cache apply to concrete runs; [sync]
    can skip a page that is released under it. *)
From stdpp Require Import sorting functions.
From S2P Require Import Prelude BanMath Bitmap BanSort PhysicalRange KHeap DiskCache DiskCacheCorrect DiskCacheSystem.

(** ** The heap as a source of pages *)
#[export] Instance heap_source : PageSource (list PhysicalRange.t) := {
  ps_take := Heap.take_free_page;
  ps_release := Heap.release_page
}.

Abbreviation single_pages ps := (map (fun a : Z => (a, 1)) ps).

(** The cache and the rest of the kernel hold pages. *)
Definition heap_holds (h : list PhysicalRange.t) (ps : list Z) : Prop := exists others, Heap.ledger (h, single_pages ps ++ others).

Lemma pages_of_single a : Heap.pages_of (a, 1) = [a].
Proof. change (Heap.pages_of (a, 1)) with [a + 0 * PAGE_SIZE]. f_equal. lia. Qed.

Lemma ledger_permute h l l' : Heap.ledger (h, l) -> l ≡ₚ l' -> Heap.ledger (h, l').
Proof.
  intros [Hwf Hnd Ho Hl] HP. cbn in *. split; cbn; [done|by rewrite <- HP| |by rewrite <- HP].
  intros p. rewrite <- HP. apply Ho.
Qed.

#[export] Instance heap_source_laws : PageSourceLaws (list PhysicalRange.t).
Proof.
  refine {| holds := heap_holds |}.
  - intros h ps ps' [others HL] HP. exists others. eapply ledger_permute; [done|]. by rewrite HP.
  - intros h ps [others HL]. pose proof (Heap.ledger_nodup _ HL) as Hnd. cbn in Hnd.
    rewrite bind_app in Hnd. apply list.NoDup_app in Hnd as (Hnd & _). clear HL. induction ps as [|a ps IH]; [constructor|].
    cbn [map mbind list_bind] in Hnd. rewrite pages_of_single in Hnd. apply list.NoDup_cons in Hnd as [Hni Hnd]. constructor; [|by apply IH].
    intros Ha. apply Hni. apply list_elem_of_bind. exists (a, 1). rewrite pages_of_single. split; [by apply list_elem_of_here|].
    by apply (list_elem_of_fmap_2 (fun a : Z => (a, 1))).
  - intros h ps [others HL]. destruct (Heap.take_free_page_cases h (Heap.ledger_wf _ HL)) as [(k & r & r' & i & Hk & He & Hi & Hres)|[He _]].
    + right. exists (<[k := r']> h), (PhysicalRange.page_addr r i). pose proof (Heap.heap_wf_lookup h k r (Heap.ledger_wf _ HL) Hk) as [_ Hp].
      split_and!; [done|unfold PhysicalRange.page_addr; lia|]. exists others. cbn [map app]. apply (Heap.ledger_reserve h _ k r r' i 1); [done..|lia|lia|lia].
    + by left.
  - intros h a ps [others HL]. destruct (Heap.release_page_held h _ (single_pages ps ++ others) a HL) as (h' & He & HL'); [done|].
    exists h'. split; [done|]. by exists others.
Defined.

(** ** A disk in memory

    Its sectors, and how many more writes succeed. *)
Record ramdisk : Type := mk_ramdisk { rd_data : Z -> list Z; rd_writes : nat }.

Definition ramdisk_driver (ss : Z) : StorageDriver ramdisk := {|
  sd_read lba n d := (Ok (sectors (fun s => resize (Z.to_nat ss) 0 (rd_data d s)) lba n), d);
  sd_write lba n bytes d :=
    match rd_writes d with
    | O => (Err EIO, d)
    | S k => (Ok tt, mk_ramdisk (fun s => if (lba <=? s) && (s <? lba + n) then sector_at ss bytes (s - lba) else rd_data d s) k)
    end
|}.

Definition ramdisk_laws (ss : Z) (Hss : 0 < ss) : @StorageDriverLaws ss ramdisk (ramdisk_driver ss).
Proof.
  refine {| sector := fun d s => resize (Z.to_nat ss) 0 (rd_data d s) |}.
  - intros d s. rewrite length_resize. lia.
  - intros d lba n Hn. cbn. done.
  - intros d lba n bytes Hn Hl. cbn. destruct (rd_writes d) as [|k]; [done|]. cbn [rd_data]. split.
    + intros s Hs. destruct (Z.leb_spec lba s), (Z.ltb_spec s (lba + n)); cbn [andb]; [lia|done..].
    + intros i Hi. rewrite (proj2 (Z.leb_le _ _)), (proj2 (Z.ltb_lt _ _)) by lia. cbn [andb]. replace (lba + i - lba) with i by lia.
      apply resize_all_alt. symmetry. apply sector_at_length; [lia|done|]. nia.
Defined.

#[export] Instance ramdisk_driver_512 : StorageDriver ramdisk := ramdisk_driver 512.
#[export] Instance ramdisk_laws_512 : StorageDriverLaws 512 ramdisk := ramdisk_laws 512 ltac:(done).

(** ** Runs *)
Definition all (b : Z) : list Z := replicate 512 b.

Definition sample_world (writes : nat) : world (list PhysicalRange.t) ramdisk :=
  mk_world [] (replicate 4096 0) (fun _ => replicate 4096 0) Heap.sample_heap (mk_ramdisk (fun _ => all 0) writes) 0.

Lemma sample_initial n : initial (sample_world n).
Proof.
  split_and!; [done| |done|done]. change (heap_holds Heap.sample_heap []). exists []. split; cbn; [apply Heap.sample_heap_ok|constructor|by intros p ?%not_elem_of_nil|constructor].
Qed.

Definition always (n : nat) : bool := true.

Abbreviation put s b w := (write_to_cache 512 always s (all b) true w).
Abbreviation fill s b w := (write_to_cache 512 always s (all b) false w).

(** Thread 0 misses sector 5 and reads it from the device; sector 3, of the
    same page, is written, the page is being written back, thread 0 adds its
    sector and sector 3 is written again. *)
Definition sample_world_1 := snd (put 3 7 (sample_world 5)).
Definition sample_world_2 := snd (sync_begin 0 sample_world_1).
Definition sample_world_3 := snd (fill 5 0 sample_world_2).
Definition sample_world_4 := snd (put 3 9 sample_world_3).
Definition sample_temp : PageCache := mk_page 2101248 0 8 8 false.

Ltac run_operation :=
  match goal with |- ?f = _ => rewrite (surjective_pairing f); apply (f_equal2 pair); [vm_compute; reflexivity|reflexivity] end.

Definition missed_5 : nat -> list pending := <[0%nat := [Missed 5]]> nobody.
Definition fetched_5 : nat -> list pending := <[0%nat := Fetched 5 (all 0) :: missed_5 0%nat]> missed_5.
Definition filled_5 : nat -> list pending := <[0%nat := filter (fun p => pending_sector p <> 5) (fetched_5 0%nat)]> fetched_5.

Lemma fetched_5_only t p : p ∈ fetched_5 t -> pending_sector p = 5.
Proof.
  unfold fetched_5, missed_5. destruct (decide (t = 0%nat)) as [->|Ht].
  - rewrite !fn_lookup_insert. by intros [->|[->|?%not_elem_of_nil]%elem_of_cons]%elem_of_cons.
  - rewrite !fn_lookup_insert_ne by done. by intros ?%not_elem_of_nil.
Qed.

Lemma filled_5_none t p : p ∈ filled_5 t -> pending_sector p <> 3.
Proof.
  unfold filled_5. destruct (decide (t = 0%nat)) as [->|Ht].
  - rewrite fn_lookup_insert. intros [_ ->%fetched_5_only]%list_elem_of_filter. done.
  - rewrite fn_lookup_insert_ne by done. by intros ->%fetched_5_only.
Qed.

Definition sample_events : list event := [Tau; Loaded 5 1 (all 0); Wrote 3 (all 7); Tau; Tau; Wrote 3 (all 9)].

Lemma sample_run : cache_run 512 always (sample_world 5, None, nobody) sample_events (sample_world_4, Some (SyncLoop sample_temp 0 0), filled_5).
Proof.
  eapply run_cons; [apply (step_miss 512 always _ _ _ 0 5 512 (sample_world 5)); [done|done|run_operation]|].
  eapply run_cons; [apply (step_fetch 512 always _ _ _ 0 5 1 (all 0) (w_dev (sample_world 5))); [done| |vm_compute; reflexivity]|].
  { intros i Hi. replace i with 0 by lia. rewrite fn_lookup_insert. apply list_elem_of_here. }
  eapply run_cons; [apply (step_write 512 always _ _ fetched_5 3 (all 7) (Ok tt) sample_world_1); [done|done| |run_operation]|].
  { by intros t p ->%fetched_5_only. }
  eapply run_cons; [apply (step_sync_begin 512 always _ _ 0 sample_temp sample_world_2); run_operation|].
  eapply run_cons; [apply (step_fill 512 always _ _ _ 0 5 (all 0) (Ok tt) sample_world_3); [apply list_elem_of_here|run_operation]|].
  eapply run_cons; [apply (step_write 512 always _ _ filled_5 3 (all 9) (Ok tt) sample_world_4); [done|done|apply filled_5_none|run_operation]|apply run_nil].
Qed.

Lemma disk_cache_transparent_witness :
  view 512 sample_world_4 3 = all 9 /\ view 512 sample_world_4 4 = all 0 /\ fst (read_from_cache 512 5 512 sample_world_4) = Ok (Some (all 0)).
Proof.
  destruct (disk_cache_transparent 512 always ltac:(done) ltac:(done) (sample_world 5) sample_world_4 (Some (SyncLoop sample_temp 0 0)) filled_5
    sample_events (sample_initial 5) sample_run) as (Hd & Hr & _).
  cbn [disk_run sample_events] in Hd. destruct Hd as [_ Hd]. split_and!; [by rewrite <- Hd|by rewrite <- Hd|].
  destruct (Hr 5 512 ltac:(done) ltac:(done)) as (r & Hr5 & [->|[-> _]]); [|vm_compute in Hr5; discriminate Hr5].
  rewrite Hr5, <- Hd. done.
Defined.

Lemma sync_makes_durable_witness : sector (w_dev (snd (sync 512 false sample_world_1))) 3 = view 512 sample_world_1 3.
Proof.
  assert (HI : inv 512 sample_world_1 None).
  { pose proof (write_to_cache_spec 512 always ltac:(done) ltac:(done) (sample_world 5) None 3 (all 7) true
      (initial_inv 512 _ (sample_initial 5)) ltac:(done) ltac:(done) ltac:(done)) as Hw.
    unfold sample_world_1. destruct (put 3 7 (sample_world 5)) as [r w]. exact (proj1 Hw). }
  destruct (sync_makes_durable 512 ltac:(done) ltac:(done) sample_world_1 HI) as (Hs & _).
  assert (Hr : fst (sync 512 false sample_world_1) = Ok tt) by (vm_compute; reflexivity).
  destruct (sync 512 false sample_world_1) as [r w]. destruct Hs as (_ & _ & _ & Hok). exact (Hok Hr 3).
Defined.

(** Sector 3 is written and [sync] called; while it takes the page sector 4 is
    written, and while the page is on its way to the disk sector 6 is. *)
Definition sync_world_1 := snd (put 4 5 sample_world_1).
Definition sync_world_2 := snd (sync_begin 0 sync_world_1).
Definition sync_world_3 := snd (put 6 2 sync_world_2).
Definition sync_temp : PageCache := mk_page 2101248 0 24 24 false.
Definition sync_world_4 := snd (sync_pages 512 10 (SyncLoop sync_temp 0 0) sync_world_3).

Lemma sync_start : cache_run 512 always (sample_world 5, None, nobody) [Wrote 3 (all 7)] (sample_world_1, None, nobody).
Proof.
  eapply run_cons; [apply (step_write 512 always _ _ _ 3 (all 7) (Ok tt) sample_world_1); [done|done|by intros t p ?%not_elem_of_nil|run_operation]|apply run_nil].
Qed.

Lemma sync_middle : cache_run 512 always (sample_world_1, None, nobody) [Wrote 4 (all 5); Tau; Wrote 6 (all 2)] (sync_world_3, Some (SyncLoop sync_temp 0 0), nobody).
Proof.
  eapply run_cons; [apply (step_write 512 always _ _ _ 4 (all 5) (Ok tt) sync_world_1); [done|done|by intros t p ?%not_elem_of_nil|run_operation]|].
  eapply run_cons; [apply (step_sync_begin 512 always _ _ 0 sync_temp sync_world_2); run_operation|].
  eapply run_cons; [apply (step_write 512 always _ _ _ 6 (all 2) (Ok tt) sync_world_3); [done|done|by intros t p ?%not_elem_of_nil|run_operation]|apply run_nil].
Qed.

Lemma sync_rest : undisturbed_trace 512 always None (sync_world_3, Some (SyncLoop sync_temp 0 0), nobody, SyncHolds 0) (sync_world_4, None, nobody, SyncDone (Ok tt)).
Proof.
  assert (Hok : sync_ok 512 sync_world_3 (Some (SyncLoop sync_temp 0 0))).
  { pose proof (initial_ok 512 _ (sample_initial 5)) as H0. destruct (cache_run_ok 512 always ltac:(done) ltac:(done) _ _ _ sync_start H0) as [H1 _].
    by destruct (cache_run_ok 512 always ltac:(done) ltac:(done) _ _ _ sync_middle H1) as [[? _] _]. }
  eapply undisturbed_trans; [apply (sync_pages_trace 512 always ltac:(done) ltac:(done) None 0 nobody 10 _ _ (Ok tt) sync_world_4 Hok); [run_operation|done]|].
  eapply undisturbed_cons; [apply move_check|]. replace (sync_guard None sync_world_4 (0 + 1)) with false by (vm_compute; reflexivity). apply undisturbed_refl.
Qed.

Lemma sync_durable_among_threads_witness : sector (w_dev sync_world_4) 3 = all 7 /\ map dirty_mask (m_cache sync_world_4) = [64].
Proof.
  split; [|vm_compute; reflexivity]. destruct sync_rest as (es & Hes & Ht).
  destruct (sync_durable_among_threads 512 always ltac:(done) ltac:(done) (sample_world 5) sample_world_1 None nobody [Wrote 3 (all 7)]
    (sample_initial 5) sync_start) as [Hsync _].
  destruct (Hsync (sync_world_4, None, nobody) (Tau :: Wrote 4 (all 5) :: Tau :: Wrote 6 (all 2) :: es)) with (s := 3) as [Hd _].
  - eapply trace_cons; [apply move_check|]. replace (sync_guard None sample_world_1 0) with true by (vm_compute; reflexivity).
    eapply trace_cons; [apply move_other; [apply (step_write 512 always _ _ _ 4 (all 5) (Ok tt) sync_world_1); [done|done|by intros t p ?%not_elem_of_nil|run_operation]|vm_compute; reflexivity|done]|].
    eapply trace_cons; [apply (move_begin 512 always _ _ _ 0 sync_temp sync_world_2); run_operation|].
    eapply trace_cons; [apply move_other; [apply (step_write 512 always _ _ _ 6 (all 2) (Ok tt) sync_world_3); [done|done|by intros t p ?%not_elem_of_nil|run_operation]|vm_compute; reflexivity|done]|].
    exact Ht.
  - intros data. rewrite !elem_of_cons. intros [?|[?|[?|[?|Hin]]]]; [done..|]. rewrite list.Forall_forall in Hes. by apply Hes in Hin.
  - etrans; [exact Hd|vm_compute; reflexivity].
Defined.

Lemma cache_fill_loses_write_witness :
  fst (sync 512 false (snd (fill 3 0 sample_world_1))) = Ok tt /\ sector (w_dev (snd (sync 512 false (snd (fill 3 0 sample_world_1))))) 3 = all 0.
Proof.
  assert (Hr : fst (sync 512 false (snd (fill 3 0 sample_world_1))) = Ok tt) by (vm_compute; reflexivity). split; [done|].
  destruct (cache_fill_loses_write 512 always ltac:(done) ltac:(done) (sample_world 5) sample_world_1 None 3 (all 0) (all 7)
    (initial_inv 512 _ (sample_initial 5)) ltac:(done) ltac:(done) ltac:(run_operation) ltac:(vm_compute; reflexivity) ltac:(run_operation)) as [_ Hfill].
  destruct (fill 3 0 sample_world_1) as [r2 w2]. cbn [snd] in *. destruct Hfill as (_ & _ & Hs). specialize (Hs eq_refl).
  destruct (sync 512 false w2) as [r3 w3]. exact (proj2 (Hs Hr)).
Defined.

(** [sync] goes by index: if a clean page before the index is released
    meanwhile, the page that moves to its place is not written, and [sync]
    returns without an error. *)
Theorem sync_skips_moved_page :
  let w0 := snd (put 8 9 (snd (put 0 7 (sample_world 5)))) in
  let '(r1, w1) := sync_cache_index 512 0 w0 in
  let '(r2, w2) := release_clean_pages 1 w1 in
  let '(r3, w3) := sync_all 512 2 1 w2 in
  r1 = Ok tt /\ r2 = Ok 1 /\ r3 = Ok tt /\ view 512 w0 8 = all 9 /\ view 512 w3 8 = all 9 /\ sector (w_dev w3) 8 = all 0.
Proof. vm_compute. repeat split. Qed.
