(* ===== verification/StorageDevice.v ===== *)
(** * kernel/Storage/StorageDevice and kernel/Storage/Partition

    Sectors of a device are read and written through its cache, if it has one;
    partitions shift block numbers and check them against their bounds.  A
    buffer is the list of its bytes, and a read returns the buffer it leaves.
    Shifting by 64 bits or more is undefined in C++ and is [Panic] here.

    A function is one call without other threads in between.  The code holds no
    lock over a whole call: the lookup of a sector, the read from the device and
    the addition to the cache of several calls interleave in
    [DiskCacheSystem.cache_step]. *)
From stdpp Require Import functions.
From S2P Require Import Prelude BanMath DiskCache.

(** ** Definitions *)
Record storage {H D : Type} : Type := mk_storage {
  s_world : world H D;
  has_disk_cache : bool;
  total_size : Z;
  m_blocks : Z
}.
Arguments storage : clear implicits.
Arguments mk_storage {H D} _ _ _ _.

Section defs.
Context (ss : Z) (insert_ok : nat -> bool) (g_disable_disk_write : bool) {H D : Type} `{PageSource H} `{StorageDriver D}.
Abbreviation W := (world H D).
Abbreviation S_ := (storage H D).

Definition on_world {A} (m : stateful W A) : stateful S_ A := fun s =>
  let '(r, w) := m (s_world s) in (r, mk_storage w (has_disk_cache s) (total_size s) (m_blocks s)).

Definition add_disk_cache : stateful S_ unit := fun s =>
  if has_disk_cache s then (Panic, s)
  else match DiskCache_construct ss with
       | Ok cache => (Ok tt, mk_storage (set_cache (s_world s) cache) true (total_size s) (m_blocks s))
       | Err e => (Err e, s)
       | Panic => (Panic, s)
       end.

Definition drop_disk_cache : stateful S_ Z := fun s =>
  if has_disk_cache s then on_world (release_pages ss g_disable_disk_write SIZE_MAX) s else (Ok 0, s).

Definition sync_disk_cache : stateful S_ unit := fun s =>
  if has_disk_cache s then on_world (sync ss g_disable_disk_write) s else (Ok tt, s).

(** *** Reading *)
(** [buffer.slice(start, length)] *)
Definition slice_ok (buffer : list Z) (start length_ : Z) : bool := start + length_ <=? Z.of_nat (length buffer).
Definition slice_of (buffer : list Z) (start length_ : Z) : list Z := take (Z.to_nat length_) (drop (Z.to_nat start) buffer).

(** The sectors [i, i + n) of the segment at [lba] that are in the cache; the
    bit of each is cleared. *)
Fixpoint read_hits (n : nat) (i lba sectors_done : Z) (buffer : list Z) (needed : Z) : stateful W (list Z * Z) :=
  match n with
  | O => sret (buffer, needed)
  | S n' =>
      let start := u64 ((sectors_done + i) * ss) in
      let! _ := sassert (slice_ok buffer start ss) in
      let! r := read_from_cache ss (u64 (lba + sectors_done + i)) ss in
      match r with
      | Some data => read_hits n' (i + 1) lba sectors_done (memcpy_at buffer start data) (Z.land needed (Z.lnot (Z.shiftl 1 i)))
      | None => read_hits n' (i + 1) lba sectors_done buffer needed
      end
  end.

Fixpoint missing_run (fuel : nat) (needed i len : Z) : outcome Z :=
  if 64 <=? i + len then Panic
  else if Z.land needed (Z.shiftl 1 (i + len)) =? 0 then Ok len
  else match fuel with
       | O => Panic
       | S fuel' => missing_run fuel' needed i (len + 1)
       end.

(** An error of the cache is ignored. *)
Definition ignoring_errors (m : stateful W unit) : stateful W unit := fun w =>
  match m w with (Err _, w') => (Ok tt, w') | r => r end.

Fixpoint fill_cache (n : nat) (j sector : Z) (segment_buffer : list Z) : stateful W unit :=
  match n with
  | O => sret tt
  | S n' =>
      let! _ := sassert (slice_ok segment_buffer (j * ss) ss) in
      let! _ := ignoring_errors (write_to_cache ss insert_ok (u64 (sector + j)) (slice_of segment_buffer (j * ss) ss) false) in
      fill_cache n' (j + 1) sector segment_buffer
  end.

Fixpoint read_misses (fuel : nat) (i segment_sector_count lba sectors_done : Z) (buffer : list Z) (needed : Z) : stateful W (list Z) :=
  if (i <? segment_sector_count) && negb (needed =? 0) then
    match fuel with
    | O => slift Panic
    | S fuel' =>
        if Z.land needed (Z.shiftl 1 i) =? 0 then read_misses fuel' (i + 1) segment_sector_count lba sectors_done buffer needed
        else
          let! len := slift (missing_run 64 needed i 1) in
          let start := u64 ((sectors_done + i) * ss) in
          let! _ := sassert (slice_ok buffer start (len * ss)) in
          let! bytes := on_device (sd_read (u64 (lba + sectors_done + i)) len) in
          let buffer := memcpy_at buffer start bytes in
          let! _ := fill_cache (Z.to_nat len) 0 (u64 (lba + sectors_done + i)) (slice_of buffer start (len * ss)) in
          let needed := Z.land needed (Z.lnot (Z.shiftl (Z.shiftl 1 len - 1) i)) in
          read_misses fuel' (i + len + 1) segment_sector_count lba sectors_done buffer needed
    end
  else sret buffer.

Definition read_segment (lba sectors_done segment_sector_count : Z) (buffer : list Z) : stateful W (list Z) :=
  let! _ := sassert (segment_sector_count <? 64) in
  let needed := Z.shiftl 1 segment_sector_count - 1 in
  let! (buffer, needed) := read_hits (Z.to_nat segment_sector_count) 0 lba sectors_done buffer needed in
  read_misses (Z.to_nat segment_sector_count) 0 segment_sector_count lba sectors_done buffer needed.

Fixpoint read_segments (fuel : nat) (lba sector_count sectors_done : Z) (buffer : list Z) : stateful W (list Z) :=
  if sectors_done <? sector_count then
    match fuel with
    | O => slift Panic
    | S fuel' =>
        let segment_sector_count := Math.min (u32 (sector_count - sectors_done)) 64 in
        let! buffer := read_segment lba sectors_done segment_sector_count buffer in
        read_segments fuel' lba sector_count (sectors_done + segment_sector_count) buffer
    end
  else sret buffer.

Definition read_sectors (lba sector_count : Z) (buffer : list Z) : stateful S_ (list Z) := fun s =>
  if negb (u64 (sector_count * ss) <=? Z.of_nat (length buffer)) then (Panic, s)
  else if negb (has_disk_cache s) then
    on_world (let! bytes := on_device (sd_read lba sector_count) in sret (memcpy_at buffer 0 bytes)) s
  else on_world (read_segments (Z.to_nat sector_count) lba sector_count 0 buffer) s.

(** *** Writing *)
Fixpoint write_cached (n : nat) (i lba : Z) (buffer : list Z) : stateful W unit :=
  match n with
  | O => sret tt
  | S n' =>
      let! _ := sassert (slice_ok buffer (i * ss) ss) in
      let! _ := write_to_cache ss insert_ok (u64 (lba + i)) (slice_of buffer (i * ss) ss) true in
      write_cached n' (i + 1) lba buffer
  end.

(** One sector to the cache, or to the device if the cache has no memory. *)
Definition write_sector (sector : Z) (sector_buffer : list Z) : stateful W unit := fun w =>
  match write_to_cache ss insert_ok sector sector_buffer true w with
  | (Err _, w') => on_device (sd_write sector 1 sector_buffer) w'
  | r => r
  end.

(** [offset] is a [uint8_t]. *)
Fixpoint write_loop (fuel : nat) (offset lba sector_count : Z) (buffer : list Z) : stateful W unit :=
  if offset <? sector_count then
    match fuel with
    | O => slift Panic
    | S fuel' =>
        let! _ := sassert (slice_ok buffer (offset * ss) ss) in
        let! _ := write_sector (u64 (lba + offset)) (slice_of buffer (offset * ss) ss) in
        write_loop fuel' (u8 (offset + 1)) lba sector_count buffer
    end
  else sret tt.

Definition write_sectors (lba sector_count : Z) (buffer : list Z) : stateful S_ unit := fun s =>
  if negb (u64 (sector_count * ss) <=? Z.of_nat (length buffer)) then (Panic, s)
  else if g_disable_disk_write then
    if negb (has_disk_cache s) then (Err EIO, s)
    else on_world (write_cached (Z.to_nat sector_count) 0 lba buffer) s
  else if negb (has_disk_cache s) then on_world (on_device (sd_write lba sector_count buffer)) s
  else on_world (write_loop (Z.to_nat sector_count) 0 lba sector_count buffer) s.

Definition sync_blocks (block block_count : Z) : stateful S_ unit := fun s =>
  if negb (has_disk_cache s) then (Ok tt, s) else on_world (sync_range ss g_disable_disk_write block block_count) s.

(** *** The device file

    The blocks that a request of [size] bytes at [offset] covers: the first
    one, and how many. *)
Definition device_blocks (s : S_) (offset size : Z) : outcome (Z * Z) :=
  if (offset <? 0) || negb (offset `mod` ss =? 0) then Err EINVAL
  else
    let total_blocks := total_size s / ss in
    let first_block := offset / ss in
    let block_count := size / ss in
    if total_blocks <=? first_block then Ok (first_block, 0)
    else if total_blocks <? u64 (first_block + block_count) then Ok (first_block, u64 (m_blocks s - first_block))
    else Ok (first_block, block_count).

Definition read_impl (offset : Z) (buffer : list Z) : stateful S_ (Z * list Z) :=
  let! s := sget in
  let! (first_block, block_count) := slift (device_blocks s offset (Z.of_nat (length buffer))) in
  if block_count =? 0 then sret (0, buffer)
  else
    let! buffer := read_sectors first_block block_count buffer in
    sret (u64 (block_count * ss), buffer).

Definition write_impl (offset : Z) (buffer : list Z) : stateful S_ Z :=
  let! s := sget in
  let! (first_block, block_count) := slift (device_blocks s offset (Z.of_nat (length buffer))) in
  if block_count =? 0 then sret 0
  else
    let! _ := write_sectors first_block block_count buffer in
    sret (u64 (block_count * ss)).

(** ** Partitions *)
Record Partition : Type := mk_partition { m_first_block : Z; m_last_block : Z }.

(** The number of blocks as [read_blocks] and its siblings compute it, in a
    [uint32_t]. *)
Definition blocks_in_partition (p : Partition) : Z := u32 (u64 (m_last_block p - m_first_block p + 1)).

(** [alive] tells whether the device that the weak pointer [m_device] points to
    is still there. *)
Definition partition_check (p : Partition) (alive : bool) (first_block block_count : Z) (size_ok : bool) : outcome Z :=
  if negb alive then Err ENODEV
  else
    ASSERT size_ok in
    if blocks_in_partition p <? u64 (first_block + block_count) then Err EINVAL
    else Ok (u64 (m_first_block p + first_block)).

Definition partition_read_blocks (p : Partition) (alive : bool) (first_block block_count : Z) (buffer : list Z) : stateful S_ (list Z) :=
  let! lba := slift (partition_check p alive first_block block_count (u64 (block_count * ss) <=? Z.of_nat (length buffer))) in
  read_sectors lba block_count buffer.

Definition partition_write_blocks (p : Partition) (alive : bool) (first_block block_count : Z) (buffer : list Z) : stateful S_ unit :=
  let! lba := slift (partition_check p alive first_block block_count (u64 (block_count * ss) <=? Z.of_nat (length buffer))) in
  write_sectors lba block_count buffer.

Definition partition_sync_blocks (p : Partition) (alive : bool) (block block_count : Z) : stateful S_ unit :=
  let! lba := slift (partition_check p alive block block_count true) in
  sync_blocks lba block_count.

Definition partition_read_impl (p : Partition) (alive : bool) (offset : Z) (buffer : list Z) : stateful S_ (Z * list Z) :=
  let! _ := sassert (0 <=? offset) in
  if negb alive then sfail ENODEV
  else if (offset <? 0) || negb (offset `mod` ss =? 0) then sfail EINVAL
  else
    let blocks := u64 (m_last_block p - m_first_block p + 1) in
    let first_block := offset / ss in
    let block_count := Z.of_nat (length buffer) / ss in
    if blocks <=? first_block then sret (0, buffer)
    else
      let block_count := if blocks <? u64 (first_block + block_count) then blocks - first_block else block_count in
      if block_count =? 0 then sret (0, buffer)
      else
        let! buffer := partition_read_blocks p alive first_block block_count buffer in
        sret (u64 (block_count * ss), buffer).
End defs.
