(* ===== verification/StorageCorrect.v ===== *)
(** * A storage device with a cache is a disk

    Reads of fewer than 64 sectors return what was written last, writes of
    fewer than 256 sectors change their sectors and nothing else, and what goes
    through a partition stays inside it.  Beyond these sizes the code leaves the
    defined behaviour or never returns. *)
From stdpp Require Import sorting functions.
From S2P Require Import Prelude BanMath Bitmap BanSort PhysicalRange KHeap DiskCache DiskCacheCorrect DiskCacheSystem DiskCacheChecks StorageDevice.

(** ** Buffers of several sectors *)
Lemma sector_at_memcpy_run ss buf i n data j : 0 < ss -> 0 <= i -> 0 <= j -> 0 <= n ->
  (i + n) * ss <= Z.of_nat (length buf) -> Z.of_nat (length data) = n * ss ->
  sector_at ss (memcpy_at buf (i * ss) data) j = if (i <=? j) && (j <? i + n) then sector_at ss data (j - i) else sector_at ss buf j.
Proof.
  intros Hs Hi Hj Hn Hl Hd. unfold memcpy_at. destruct (Z.leb_spec i j) as [Hij|Hij]; [destruct (Z.ltb_spec j (i + n)) as [Hjn|Hjn]|]; cbn [andb].
  - apply sector_at_ext; [lia..|]. intros k Hk. rewrite lookup_app_r, lookup_app_l; rewrite ?length_take; [f_equal; nia|nia..].
  - apply sector_at_ext; [lia..|]. intros k Hk. rewrite lookup_app_r, lookup_app_r, lookup_drop; rewrite ?length_take; [f_equal; nia|nia..].
  - apply sector_at_ext; [lia..|]. intros k Hk. rewrite lookup_app_l by (rewrite length_take; nia). by rewrite lookup_take_lt by nia.
Qed.

(** Sectors of a slice of whole sectors. *)
Lemma sector_at_slice ss buf i n j : 0 < ss -> 0 <= i -> 0 <= j < n -> sector_at ss (slice_of buf (i * ss) (n * ss)) j = sector_at ss buf (i + j).
Proof.
  intros Hs Hi Hj. apply sector_at_ext; [lia..|]. intros k Hk. unfold slice_of. rewrite lookup_take_lt, lookup_drop by nia. f_equal. nia.
Qed.

(** A buffer is its sectors. *)
Lemma buffer_sectors ss f lba n buf : 0 < ss -> 0 <= n -> n * ss <= Z.of_nat (length buf) -> (forall s, Z.of_nat (length (f s)) = ss) ->
  (forall k, 0 <= k < n -> sector_at ss buf k = f (lba + k)) -> take (Z.to_nat (n * ss)) buf = sectors f lba n.
Proof.
  intros Hs Hn Hl Hf Hk. pose proof (sectors_length ss f lba n Hn Hf) as Hlen.
  apply list_eq_same_length with (n := Z.to_nat (n * ss)); [lia|rewrite length_take; lia|].
  intros i x y Hi Hx Hy. rewrite lookup_take_lt in Hx by done.
  assert (Hdm : Z.of_nat i = (Z.of_nat i / ss) * ss + Z.of_nat i `mod` ss) by (pose proof (Z.div_mod (Z.of_nat i) ss); lia).
  pose proof (Z.mod_pos_bound (Z.of_nat i) ss Hs). assert (0 <= Z.of_nat i / ss < n) as Hq by (split; [apply Z.div_pos|apply Z.div_lt_upper_bound]; lia).
  assert (He : sector_at ss buf (Z.of_nat i / ss) !! Z.to_nat (Z.of_nat i `mod` ss) = sector_at ss (sectors f lba n) (Z.of_nat i / ss) !! Z.to_nat (Z.of_nat i `mod` ss))
    by (rewrite Hk, sector_at_sectors by done; done).
  rewrite !sector_at_lookup in He by lia. replace (Z.to_nat (Z.of_nat i / ss * ss) + Z.to_nat (Z.of_nat i `mod` ss))%nat with i in He by lia. congruence.
Qed.

Section theory.
Context (ss : Z) (insert_ok : nat -> bool) {H D : Type} `{PS : PageSource H} `{PSL : !PageSourceLaws H} `{SD : StorageDriver D} `{SDL : !StorageDriverLaws ss D}.
Context (Hss : 0 < ss) (Hgeometry : DiskCache_construct ss = Ok []).
Abbreviation W := (world H D).

(** A world that readers see as [V]. *)
Definition shows (fl : option flight) (V : Z -> list Z) (w : W) : Prop := inv ss w fl /\ forall s, view ss w s = V s.

Lemma view_length w fl s : inv ss w fl -> Z.of_nat (length (view ss w s)) = ss.
Proof.
  intros HI. unfold view. destruct (find_page _ _) as [c|]; [|apply sector_length]. destruct (Z.testbit _ _); [|apply sector_length].
  pose proof (offset_range ss Hss Hgeometry s). pose proof (geometry ss Hss Hgeometry) as [Hg Hgs]. unfold page_sector.
  rewrite sector_at_length; [lia|lia|done|]. rewrite (inv_mem ss w fl HI). nia.
Qed.

(** ** Reading *)
Definition good (V : Z -> list Z) (lba : Z) (buf : list Z) (k : Z) : Prop := sector_at ss buf k = V (lba + k).

(** The sectors before the segment are read, and those of the segment that are
    not needed any more. *)
Definition read_so_far (V : Z -> list Z) (lba done_ seg size : Z) (buf : list Z) (needed : Z) : Prop :=
  Z.of_nat (length buf) = size /\ (forall k, 0 <= k < done_ -> good V lba buf k) /\
  forall k, 0 <= k < seg -> Z.testbit needed k = false -> good V lba buf (done_ + k).

Lemma read_so_far_store V lba done_ seg size buf needed i n data needed' :
  0 <= done_ -> 0 <= i -> 0 <= n -> (done_ + i + n) * ss <= size -> Z.of_nat (length data) = n * ss ->
  (forall j, 0 <= j < n -> sector_at ss data j = V (lba + done_ + i + j)) ->
  (forall k, 0 <= k -> Z.testbit needed' k = false -> Z.testbit needed k = false \/ i <= k < i + n) ->
  read_so_far V lba done_ seg size buf needed ->
  read_so_far V lba done_ seg size (memcpy_at buf ((done_ + i) * ss) data) needed'.
Proof.
  intros Hd0 Hi Hn Hsz Hlen Hdata Hbits (Hl & Hbefore & Hseg). split_and!.
  - rewrite memcpy_length; [done|nia|nia].
  - intros k Hk. unfold good. rewrite (sector_at_memcpy_run ss buf (done_ + i) n) by (done || nia).
    rewrite (proj2 (Z.leb_gt _ _)) by lia. cbn [andb]. by apply Hbefore.
  - intros k Hk Hb. unfold good. rewrite (sector_at_memcpy_run ss buf (done_ + i) n) by (done || nia).
    destruct (Z.leb_spec (done_ + i) (done_ + k)), (Z.ltb_spec (done_ + k) (done_ + i + n)); cbn [andb].
    1: rewrite Hdata by lia; f_equal; lia.
    all: apply Hseg; [done|]; destruct (Hbits k ltac:(lia) Hb) as [|?]; [done|lia].
Qed.

Lemma clear_bit_spec needed i k : 0 <= i -> 0 <= k -> Z.testbit (Z.land needed (Z.lnot (Z.shiftl 1 i))) k = Z.testbit needed k && negb (k =? i).
Proof. intros Hi Hk. by rewrite Z.land_spec, Z.lnot_spec, testbit_1_shiftl. Qed.

Lemma read_hits_spec fl V lba done_ seg size n : forall i w buf needed, shows fl V w -> 0 <= lba -> 0 <= done_ -> 0 <= i -> i + Z.of_nat n <= seg ->
  lba + done_ + seg < 2 ^ 64 -> (done_ + seg) * ss <= size < 2 ^ 64 -> read_so_far V lba done_ seg size buf needed ->
  exists buf' needed', read_hits ss n i lba done_ buf needed w = (Ok (buf', needed'), w) /\ read_so_far V lba done_ seg size buf' needed' /\
    (forall k, 0 <= k -> Z.testbit needed' k = true -> Z.testbit needed k = true) /\
    (forall k, i <= k < i + Z.of_nat n -> Z.testbit needed' k = true -> V (lba + done_ + k) = sector (w_dev w) (lba + done_ + k)).
Proof.
  induction n as [|n IH]; intros i w buf needed Hw Hlba Hd0 Hi Hn Hmax Hsz Hrs; cbn [read_hits].
  { exists buf, needed. split_and!; [done|done|done|lia]. }
  pose proof Hw as [HI Hv]. pose proof Hrs as (Hl & _). unfold sbind, sassert. unfold slice_ok. rewrite !(wrap_id 64) by nia.
  rewrite (proj2 (Z.leb_le _ _)) by nia. rewrite (read_from_cache_spec ss Hss Hgeometry w fl) by (done || lia). cbn [fst].
  destruct (match find_page _ _ with Some c => _ | None => None end) as [data|] eqn:Er.
  - assert (data = V (lba + done_ + i)) as ->.
    { rewrite <- Hv. destruct (find_page _ _); [|done]. destruct (Z.testbit _ _); by simplify_eq. }
    assert (Hlen : Z.of_nat (length (V (lba + done_ + i))) = 1 * ss) by (rewrite <- Hv, (view_length w fl) by done; lia).
    destruct (IH (i + 1) w (memcpy_at buf ((done_ + i) * ss) (V (lba + done_ + i))) (Z.land needed (Z.lnot (Z.shiftl 1 i)))) as (buf' & needed' & -> & Hrs' & Hsub & Hmiss); try done; [lia|lia| |].
    { apply (read_so_far_store V lba done_ seg size buf needed i 1); try done; [nia| |].
      - intros j Hj. assert (j = 0) as -> by lia. rewrite Z.add_0_r. unfold sector_at. rewrite drop_0, take_ge by lia. done.
      - intros k Hk. rewrite clear_bit_spec by lia. intros [?|Hk']%andb_false_iff; [by left|]. zify_bool. right. lia. }
    exists buf', needed'. split_and!; [done|done| |].
    + intros k Hk Hb. pose proof (Hsub k Hk Hb) as Hb'. rewrite clear_bit_spec in Hb' by lia. by apply andb_true_iff in Hb' as [? _].
    + intros k Hk Hb. destruct (decide (k = i)) as [->|]; [|apply Hmiss; [lia|done]].
      pose proof (Hsub i Hi Hb) as Hb'. rewrite clear_bit_spec, Z.eqb_refl, andb_false_r in Hb' by lia. done.
  - destruct (IH (i + 1) w buf needed) as (buf' & needed' & -> & Hrs' & Hsub & Hmiss); try done; [lia|lia|].
    exists buf', needed'. split_and!; [done..|]. intros k Hk Hb. destruct (decide (k = i)) as [->|]; [|apply Hmiss; [lia|done]].
    rewrite <- Hv. unfold view. destruct (find_page _ _); [|done]. by destruct (Z.testbit _ _).
Qed.

Lemma missing_run_spec needed i seg fuel : forall len, 0 <= i -> 1 <= len -> i + len <= seg < 64 -> seg - (i + len) <= Z.of_nat fuel ->
  (forall k, seg <= k -> Z.testbit needed k = false) -> run_in needed i len ->
  exists len', missing_run fuel needed i len = Ok len' /\ len <= len' /\ i + len' <= seg /\ run_in needed i len' /\ Z.testbit needed (i + len') = false.
Proof.
  induction fuel as [|fuel IH]; intros len Hi Hl Hseg Hf Hhigh Hrun; cbn [missing_run].
  all: rewrite (proj2 (Z.leb_gt _ _)) by lia.
  all: pose proof (land_bit_testbit needed (i + len) ltac:(lia)) as Hb; destruct (Z.land needed (Z.shiftl 1 (i + len)) =? 0); cbn [negb] in Hb.
  1,3: exists len; split_and!; [done|lia|lia|done|done].
  all: assert (i + len < seg) by (destruct (decide (i + len < seg)); [done|]; rewrite Hhigh in Hb by lia; done).
  - lia.
  - destruct (IH (len + 1)) as (len' & -> & Hle & Hrest); [lia|lia|lia|lia|done| |].
    + intros k Hk. destruct (decide (k = i + len)) as [->|]; [done|apply Hrun; lia].
    + exists len'. split_and!; [done|lia|apply Hrest..].
Qed.

Lemma fill_cache_spec fl V sector_ size seg n : forall j w, shows fl V w -> 0 <= sector_ -> 0 <= j -> j + Z.of_nat n <= size ->
  sector_ + size < 2 ^ 64 -> size * ss <= Z.of_nat (length seg) -> (forall k, 0 <= k < size -> sector_at ss seg k = V (sector_ + k)) ->
  exists w', fill_cache ss insert_ok n j sector_ seg w = (Ok tt, w') /\ shows fl V w' /\ w_dev w' = w_dev w.
Proof.
  induction n as [|n IH]; intros j w Hw Hs Hj Hn Hmax Hl Hseg; cbn [fill_cache]; [by exists w|].
  unfold sbind, sassert, slice_ok. rewrite (proj2 (Z.leb_le _ _)) by nia. rewrite wrap_id by lia. destruct Hw as [HI Hv].
  assert (Hdata : slice_of seg (j * ss) ss = V (sector_ + j)).
  { rewrite <- (Hseg j) by lia. done. }
  assert (Hlen : ss <= Z.of_nat (length (V (sector_ + j)))) by (rewrite <- Hv, (view_length w fl) by done; done).
  unfold ignoring_errors. rewrite Hdata.
  pose proof (write_to_cache_spec ss insert_ok Hss Hgeometry w fl (sector_ + j) (V (sector_ + j)) false HI ltac:(lia) Hlen) as Hspec.
  destruct (write_to_cache ss insert_ok (sector_ + j) (V (sector_ + j)) false w) as [r w'].
  assert (Hfull : take (Z.to_nat ss) (V (sector_ + j)) = V (sector_ + j)) by (apply take_ge; rewrite <- Hv; pose proof (view_length w fl (sector_ + j) HI); lia).
  destruct Hspec as (HI' & Hdev & Hr); [intros _; by rewrite Hfull, Hv|].
  assert (Hw' : shows fl V w').
  { split; [done|]. intros s'. destruct r as [?|e|]; [|by rewrite (proj2 (proj2 Hr))|done].
    rewrite Hr, Hfull. destruct (Z.eqb_spec s' (sector_ + j)) as [->|]; [done|apply Hv]. }
  rewrite <- Hdev. destruct r as [[]|e|]; [| |done]; (apply IH; try done; lia).
Qed.

(** A result that reads and shows the same. *)
Definition reads (fl : option flight) (V : Z -> list Z) (lba n size : Z) (r : outcome (list Z)) (w' : W) : Prop :=
  shows fl V w' /\
  match r with
  | Ok buf => Z.of_nat (length buf) = size /\ forall k, 0 <= k < n -> good V lba buf k
  | Err _ => True
  | Panic => False
  end.

Lemma read_so_far_all V lba done_ seg size buf needed : read_so_far V lba done_ seg size buf needed ->
  (forall k, 0 <= k < seg -> Z.testbit needed k = false) ->
  Z.of_nat (length buf) = size /\ forall k, 0 <= k < done_ + seg -> good V lba buf k.
Proof.
  intros (Hl & Hb & Hs) Hn. split; [done|]. intros k Hk. destruct (decide (k < done_)); [apply Hb; lia|].
  replace k with (done_ + (k - done_)) by lia. apply Hs; [lia|]. apply Hn. lia.
Qed.

Lemma read_misses_spec fl V lba done_ seg size fuel : forall i w buf needed, shows fl V w -> 0 <= lba -> 0 <= done_ -> 0 <= i -> seg < 64 ->
  seg - i <= Z.of_nat fuel -> lba + done_ + seg < 2 ^ 64 -> (done_ + seg) * ss <= size < 2 ^ 64 -> read_so_far V lba done_ seg size buf needed ->
  (forall k, 0 <= k < i -> Z.testbit needed k = false) -> (forall k, seg <= k -> Z.testbit needed k = false) ->
  (forall k, 0 <= k < seg -> Z.testbit needed k = true -> V (lba + done_ + k) = sector (w_dev w) (lba + done_ + k)) ->
  let '(r, w') := read_misses ss insert_ok fuel i seg lba done_ buf needed w in reads fl V lba (done_ + seg) size r w'.
Proof.
  induction fuel as [|fuel IH]; intros i w buf needed Hw Hlba Hd0 Hi Hseg Hf Hmax Hsz Hrs Hlow Hhigh Hmiss; cbn [read_misses].
  all: destruct ((i <? seg) && negb (needed =? 0)) eqn:Ec; zify_bool;
    [|split; [done|]; apply (read_so_far_all V lba done_ seg size buf needed Hrs); intros k Hk;
      destruct Ec as [Ec| ->]; [apply Hlow; lia|apply Z.bits_0]].
  { lia. }
  destruct Ec as [Ec _]. pose proof (land_bit_testbit needed i Hi) as Hb. destruct (Z.land needed (Z.shiftl 1 i) =? 0); cbn [negb] in Hb.
  { apply IH; try done; [lia|lia|]. intros k Hk. destruct (decide (k = i)) as [->|]; [done|apply Hlow; lia]. }
  unfold sbind, slift, sassert, on_device.
  destruct (missing_run_spec needed i seg 64 1) as (len & -> & Hlen1 & Hlen2 & Hrun & Hend); [lia|lia|lia|lia|done| |].
  { intros k Hk. by replace k with i by lia. }
  pose proof Hrs as (Hl & _). pose proof Hw as [HI Hv]. rewrite !(wrap_id 64) by nia. unfold slice_ok. rewrite (proj2 (Z.leb_le _ _)) by nia.
  pose proof (sd_read_spec (w_dev w) (lba + done_ + i) len ltac:(lia)) as Hrd.
  destruct (sd_read (lba + done_ + i) len (w_dev w)) as [[bytes|e|] d]; destruct Hrd as [Hsame Hbytes]; [| |done].
  2: { destruct (device_same ss w fl d HI Hsame) as [HI' Hv']. split; [|done]. split; [done|]. intros s. by rewrite Hv'. }
  destruct (device_same ss w fl d HI Hsame) as [HI' Hv']. subst bytes.
  set (data := sectors (sector (w_dev w)) (lba + done_ + i) len).
  assert (Hdl : Z.of_nat (length data) = len * ss) by (apply sectors_length; [lia|apply sector_length]).
  assert (Hdata : forall j, 0 <= j < len -> sector_at ss data j = V (lba + done_ + i + j)).
  { intros j Hj. subst data. rewrite sector_at_sectors by (done || apply sector_length). replace (lba + done_ + i + j) with (lba + done_ + (i + j)) by lia.
    symmetry. apply Hmiss; [lia|]. apply Hrun. lia. }
  destruct (fill_cache_spec fl V (lba + done_ + i) len (slice_of (memcpy_at buf ((done_ + i) * ss) data) ((done_ + i) * ss) (len * ss)) (Z.to_nat len) 0 (set_dev w d))
    as (w' & -> & Hw' & Hdev'); [split; [done|intros s; by rewrite Hv']|lia|lia|lia|lia| | |].
  { unfold slice_of. rewrite length_take, length_drop, memcpy_length by nia. nia. }
  { intros k Hk. rewrite sector_at_slice by (done || lia). rewrite (sector_at_memcpy_run ss buf (done_ + i) len) by (done || nia).
    rewrite (proj2 (Z.leb_le _ _)), (proj2 (Z.ltb_lt _ _)) by lia. cbn [andb]. rewrite Hdata by lia. f_equal. lia. }
  assert (Hclr : forall k, 0 <= k -> Z.testbit (Z.land needed (Z.lnot (Z.shiftl (Z.shiftl 1 len - 1) i))) k = Z.testbit needed k && negb ((i <=? k) && (k <? i + len)))
    by (intros k Hk; apply clear_run; lia).
  apply IH; try done; [lia|lia| | | |].
  - apply (read_so_far_store V lba done_ seg size buf needed i len); try done; [lia|nia|].
    intros k Hk. rewrite Hclr by done. intros [?|Hk']%andb_false_iff; [by left|]. right. zify_bool. lia.
  - intros k Hk. rewrite Hclr by lia. destruct (decide (k < i)); [by rewrite Hlow by lia|]. destruct (decide (k = i + len)) as [->|]; [by rewrite Hend|].
    rewrite (proj2 (Z.leb_le _ _)), (proj2 (Z.ltb_lt _ _)) by lia. apply andb_false_r.
  - intros k Hk. rewrite Hclr, Hhigh by lia. done.
  - intros k Hk Hk'. rewrite Hclr in Hk' by lia. apply andb_true_iff in Hk' as [Hk' _]. rewrite Hdev'. cbn. rewrite Hsame. by apply Hmiss.
Qed.

Lemma read_segment_spec fl V lba n size buf w : shows fl V w -> 0 <= lba -> 0 <= n < 64 -> lba + n < 2 ^ 64 -> n * ss <= size < 2 ^ 64 ->
  Z.of_nat (length buf) = size ->
  let '(r, w') := read_segment ss insert_ok lba 0 n buf w in reads fl V lba n size r w'.
Proof.
  intros Hw Hlba Hn Hmax Hsz Hl. unfold read_segment, sbind, sassert. rewrite (proj2 (Z.ltb_lt _ _)) by lia.
  assert (Hones : forall k, 0 <= k -> Z.testbit (Z.shiftl 1 n - 1) k = (k <? n)).
  { intros k Hk. replace (Z.shiftl 1 n - 1) with (Z.ones n) by (rewrite Z.ones_equiv, Z.shiftl_1_l; lia).
    destruct (Z.ltb_spec k n); [apply Z.ones_spec_low|apply Z.ones_spec_high]; lia. }
  destruct (read_hits_spec fl V lba 0 n size (Z.to_nat n) 0 w buf (Z.shiftl 1 n - 1)) as (buf' & needed & -> & Hrs & Hsub & Hmiss); try done; try lia.
  { split_and!; [done|lia|]. intros k Hk. rewrite Hones by lia. rewrite (proj2 (Z.ltb_lt _ _)) by lia. done. }
  apply (read_misses_spec fl V lba 0 n size (Z.to_nat n) 0 w buf' needed); try done; try lia.
  - intros k Hk. destruct (Z.testbit needed k) eqn:Eb; [|done]. pose proof (Hsub k ltac:(lia) Eb) as Hb. rewrite Hones in Hb by lia.
    apply Z.ltb_lt in Hb. lia.
  - intros k Hk Hb. apply Hmiss; [lia|done].
Qed.

Lemma read_segments_spec fl V lba n size buf w : shows fl V w -> 0 <= lba -> 0 <= n < 64 -> lba + n < 2 ^ 64 -> n * ss <= size < 2 ^ 64 ->
  Z.of_nat (length buf) = size ->
  let '(r, w') := read_segments ss insert_ok (Z.to_nat n) lba n 0 buf w in reads fl V lba n size r w'.
Proof.
  intros Hw Hlba Hn Hmax Hsz Hl. destruct (decide (n = 0)) as [->|]; [split; [done|]; split; [done|lia]|].
  destruct (Z.to_nat n) as [|fuel] eqn:Ef; [lia|]. cbn [read_segments]. rewrite (proj2 (Z.ltb_lt 0 n)) by lia.
  replace (Math.min (u32 (n - 0)) 64) with n by (unfold Math.min; unwrap; rewrite (proj2 (Z.ltb_lt _ _)) by lia; lia).
  unfold sbind. pose proof (read_segment_spec fl V lba n size buf w Hw Hlba Hn Hmax Hsz Hl) as Hr.
  destruct (read_segment ss insert_ok lba 0 n buf w) as [[buf'|e|] w']; [|done..]. rewrite Z.add_0_l.
  destruct fuel; cbn [read_segments]; rewrite Z.ltb_irrefl; done.
Qed.

(** ** Writing *)
Lemma device_write_uncached w fl s d : inv ss w fl -> miss ss w s -> (forall s', s' <> s -> sector d s' = sector (w_dev w) s') ->
  inv ss (set_dev w d) fl /\ forall s', view ss (set_dev w d) s' = if s' =? s then sector d s else view ss w s'.
Proof.
  intros [Hs Hp Hh Hm Hsn Hc Hsy Hf] Hmiss Hd. split; [split; try done|].
  - intros c i H1 H2 H3 H4 H5. cbn. rewrite Hd; [by apply Hc|]. intros <-.
    destruct (sector_place ss (first_sector c) i H2) as [E _]; [by apply Hp|].
    unfold miss in Hmiss. rewrite E, find_page_None in Hmiss. by apply (Hmiss c).
  - intros s'. unfold view. cbn [set_dev m_cache w_dev]. destruct (Z.eqb_spec s' s) as [->|Hne].
    + unfold miss in Hmiss. by rewrite Hmiss.
    + by rewrite Hd.
Qed.

(** What a write of one sector leaves. *)
Definition wrote (fl : option flight) (s : Z) (data : list Z) (w : W) (r : outcome unit) (w' : W) : Prop :=
  inv ss w' fl /\ (forall s', s' <> s -> view ss w' s' = view ss w s') /\
  match r with Ok _ => view ss w' s = data | Err _ => True | Panic => False end.

Lemma write_to_cache_wrote w fl s data : inv ss w fl -> 0 <= s -> Z.of_nat (length data) = ss ->
  let '(r, w') := write_to_cache ss insert_ok s data true w in wrote fl s data w r w' /\ (forall e, r = Err e -> miss ss w' s).
Proof.
  intros HI Hs Hl. pose proof (write_to_cache_spec ss insert_ok Hss Hgeometry w fl s data true HI Hs ltac:(lia) ltac:(done)) as Hw.
  rewrite take_ge in Hw by lia. destruct (write_to_cache ss insert_ok s data true w) as [[[]|e|] w']; destruct Hw as (HI' & Hdev & Hv).
  - split; [|done]. split_and!; [done| |by rewrite Hv, Z.eqb_refl]. intros s' Hne. by rewrite Hv, (proj2 (Z.eqb_neq _ _)).
  - destruct Hv as (-> & Hm & Hv). split; [|done]. split_and!; [done|by intros|done].
  - done.
Qed.

Lemma write_sector_spec w fl s data : inv ss w fl -> 0 <= s -> Z.of_nat (length data) = ss ->
  let '(r, w') := write_sector ss insert_ok s data w in wrote fl s data w r w'.
Proof.
  intros HI Hs Hl. unfold write_sector. pose proof (write_to_cache_wrote w fl s data HI Hs Hl) as Hw.
  destruct (write_to_cache ss insert_ok s data true w) as [[[]|e|] w']; destruct Hw as [Hw Hm]; [done| |by destruct Hw as (_ & _ & [])].
  destruct Hw as (HI' & Hv & _). specialize (Hm e eq_refl). unfold on_device.
  assert (Hone : 1 * ss <= Z.of_nat (length data)) by lia.
  pose proof (sd_write_spec (w_dev w') s 1 data ltac:(done) Hone) as Hd. destruct (sd_write s 1 data (w_dev w')) as [r d]. destruct Hd as [Hout Hr].
  destruct (device_write_uncached w' fl s d HI' Hm) as [HI'' Hv'']; [intros s' Hne; apply Hout; lia|]. split_and!; [done| |].
  - intros s' Hne. rewrite Hv'', (proj2 (Z.eqb_neq _ _)) by done. by apply Hv.
  - destruct r as [[]|e'|]; [|done|done]. rewrite Hv'', Z.eqb_refl. specialize (Hr 0 ltac:(lia)). rewrite Z.add_0_r in Hr. rewrite Hr.
    unfold sector_at. by rewrite drop_0, take_ge by lia.
Qed.

(** Sectors [from, n) of [buffer] written at [lba]. *)
Definition wrote_range (fl : option flight) (lba from n : Z) (buffer : list Z) (w : W) (r : outcome unit) (w' : W) : Prop :=
  inv ss w' fl /\ (forall s, ~ lba + from <= s < lba + n -> view ss w' s = view ss w s) /\
  match r with
  | Ok _ => forall k, from <= k < n -> view ss w' (lba + k) = sector_at ss buffer k
  | Err _ => True
  | Panic => False
  end.

Lemma wrote_next fl lba from n buffer w w1 r w' : from < n -> wrote fl (lba + from) (sector_at ss buffer from) w (Ok tt) w1 ->
  wrote_range fl lba (from + 1) n buffer w1 r w' -> wrote_range fl lba from n buffer w r w'.
Proof.
  intros Hn (_ & Hv1 & Hs1) (HI' & Hv' & Hr). split_and!; [done| |].
  - intros s Hs. rewrite Hv' by lia. apply Hv1. lia.
  - destruct r as [[]|e|]; [|done|done]. intros k Hk. destruct (decide (k = from)) as [->|]; [|apply Hr; lia]. rewrite Hv' by lia. done.
Qed.

Lemma wrote_failed fl lba from n buffer w e w' : from < n -> wrote fl (lba + from) (sector_at ss buffer from) w (Err e) w' ->
  wrote_range fl lba from n buffer w (Err e) w'.
Proof. intros Hn (HI & Hv & _). split_and!; [done| |done]. intros s Hs. apply Hv. lia. Qed.

Lemma write_loop_spec fl lba n buffer fuel : forall offset w, inv ss w fl -> 0 <= lba -> 0 <= offset <= n -> n < 256 -> n - offset <= Z.of_nat fuel ->
  lba + n < 2 ^ 64 -> n * ss <= Z.of_nat (length buffer) ->
  let '(r, w') := write_loop ss insert_ok fuel offset lba n buffer w in wrote_range fl lba offset n buffer w r w'.
Proof.
  induction fuel as [|fuel IH]; intros offset w HI Hlba Ho Hn Hf Hmax Hl; cbn [write_loop].
  all: destruct (Z.ltb_spec offset n) as [Hlt|Hge]; [|by split_and!; [done|done|lia]].
  { lia. }
  unfold sbind, sassert, slice_ok. rewrite (proj2 (Z.leb_le _ _)) by nia. rewrite (wrap_id 64), (wrap_id 8) by lia.
  change (slice_of buffer (offset * ss) ss) with (sector_at ss buffer offset).
  pose proof (write_sector_spec w fl (lba + offset) (sector_at ss buffer offset) HI ltac:(lia)) as Hw.
  assert (Hlen : Z.of_nat (length (sector_at ss buffer offset)) = ss) by (rewrite sector_at_length by nia; lia). specialize (Hw Hlen).
  destruct (write_sector ss insert_ok (lba + offset) (sector_at ss buffer offset) w) as [[[]|e|] w1].
  - specialize (IH (offset + 1) w1 ltac:(apply Hw) Hlba ltac:(lia) Hn ltac:(lia) Hmax Hl).
    destruct (write_loop ss insert_ok fuel (offset + 1) lba n buffer w1) as [r w']. by apply (wrote_next fl lba offset n buffer w w1).
  - by apply wrote_failed.
  - by destruct Hw as (_ & _ & []).
Qed.

Lemma write_cached_spec fl lba n buffer m : forall i w, inv ss w fl -> 0 <= lba -> 0 <= i -> i + Z.of_nat m = n ->
  lba + n < 2 ^ 64 -> n * ss <= Z.of_nat (length buffer) ->
  let '(r, w') := write_cached ss insert_ok m i lba buffer w in wrote_range fl lba i n buffer w r w'.
Proof.
  induction m as [|m IH]; intros i w HI Hlba Hi Hn Hmax Hl; cbn [write_cached]; [by split_and!; [done|done|lia]|].
  unfold sbind, sassert, slice_ok. rewrite (proj2 (Z.leb_le _ _)) by nia. rewrite (wrap_id 64) by lia.
  change (slice_of buffer (i * ss) ss) with (sector_at ss buffer i).
  assert (Hlen : Z.of_nat (length (sector_at ss buffer i)) = ss) by (rewrite sector_at_length by nia; lia).
  pose proof (write_to_cache_wrote w fl (lba + i) (sector_at ss buffer i) HI ltac:(lia) Hlen) as Hw.
  destruct (write_to_cache ss insert_ok (lba + i) (sector_at ss buffer i) true w) as [[[]|e|] w1]; destruct Hw as [Hw _].
  - specialize (IH (i + 1) w1 ltac:(apply Hw) Hlba ltac:(lia) ltac:(lia) Hmax Hl).
    destruct (write_cached ss insert_ok m (i + 1) lba buffer w1) as [r w']. apply (wrote_next fl lba i n buffer w w1); [lia|done|done].
  - apply wrote_failed; [lia|done].
  - by destruct Hw as (_ & _ & []).
Qed.

(** ** The device *)
Abbreviation S_ := (storage H D).

Definition storage_ok (s : S_) : Prop := inv ss (s_world s) None /\ (has_disk_cache s = false -> m_cache (s_world s) = []).
Definition contents (s : S_) : Z -> list Z := view ss (s_world s).

Lemma uncached_contents s x : has_disk_cache s = false -> storage_ok s -> contents s x = sector (w_dev (s_world s)) x.
Proof. intros Hc [_ Hm]. unfold contents, view. by rewrite (Hm Hc). Qed.

Lemma read_sectors_spec s lba n buffer : storage_ok s -> 0 <= lba -> 0 <= n -> (has_disk_cache s = true -> n < 64) -> lba + n < 2 ^ 64 ->
  n * ss <= Z.of_nat (length buffer) < 2 ^ 64 ->
  let '(r, s') := read_sectors ss insert_ok lba n buffer s in
  storage_ok s' /\ (forall x, contents s' x = contents s x) /\
  match r with
  | Ok buf => length buf = length buffer /\ take (Z.to_nat (n * ss)) buf = sectors (contents s) lba n
  | Err _ => True
  | Panic => False
  end.
Proof.
  intros Hok Hlba Hn H64 Hmax Hl. pose proof Hok as [HI Hm]. unfold read_sectors. rewrite (wrap_id 64), (proj2 (Z.leb_le _ _)) by nia. cbn [negb].
  assert (Hlen : forall x, Z.of_nat (length (contents s x)) = ss) by (intros x; by apply (view_length (s_world s) None)).
  destruct (has_disk_cache s) eqn:Ec; cbn [negb]; unfold on_world.
  - pose proof (read_segments_spec None (contents s) lba n (Z.of_nat (length buffer)) buffer (s_world s)) as Hr.
    destruct (read_segments ss insert_ok (Z.to_nat n) lba n 0 buffer (s_world s)) as [r w'].
    destruct Hr as ([HI' Hv] & Hr); [done|done|lia|done|done|done|]. split_and!; [split; [done|by rewrite Ec]|done|].
    destruct r as [buf|e|]; [|done|done]. destruct Hr as [Hbl Hg]. split; [lia|]. apply buffer_sectors; [done|done|lia|done|done].
  - unfold sbind, on_device. pose proof (sd_read_spec (w_dev (s_world s)) lba n Hn) as Hr.
    destruct (sd_read lba n (w_dev (s_world s))) as [r d]. destruct Hr as [Hsame Hr].
    destruct (device_same ss (s_world s) None d HI Hsame) as [HI' Hv]. destruct r as [bytes|e|]; [| |done].
    + cbn [sret]. split_and!; [split; [done|intros _; by apply Hm]|done| |].
      * subst bytes. rewrite memcpy_length; [done|done|]. pose proof (sectors_length ss (sector (w_dev (s_world s))) lba n Hn (sector_length _)). lia.
      * subst bytes. unfold memcpy_at. pose proof (sectors_length ss (sector (w_dev (s_world s))) lba n Hn (sector_length _)) as Hsl. change (Z.to_nat 0) with 0%nat. rewrite take_0, app_nil_l.
        rewrite take_app_length' by lia. unfold sectors. f_equal. apply map_ext. intros i. symmetry. exact (uncached_contents s _ Ec Hok).
    + split_and!; [split; [done|intros _; by apply Hm]|done|done].
Qed.

Lemma uncached_write w lba n buffer : inv ss w None -> m_cache w = [] -> 0 <= n -> n * ss <= Z.of_nat (length buffer) ->
  let '(r, w') := on_device (sd_write lba n buffer) w in wrote_range None lba 0 n buffer w r w' /\ m_cache w' = [].
Proof.
  intros HI Hm Hn Hl. unfold on_device. pose proof (sd_write_spec (w_dev w) lba n buffer Hn Hl) as Hw.
  destruct (sd_write lba n buffer (w_dev w)) as [r d]. destruct Hw as [Hout Hr].
  assert (Hv : forall x, view ss (set_dev w d) x = sector d x) by (intros x; unfold view; cbn; by rewrite Hm).
  split; [|done]. split_and!.
  - destruct HI as [Hs Hp Hh Hmem Hsn Hc Hsy Hf]. split; try done. intros c i Hin. cbn in Hin. rewrite Hm in Hin. by apply not_elem_of_nil in Hin.
  - intros x Hx. rewrite Hv, Hout by lia. unfold view. by rewrite Hm.
  - destruct r as [[]|e|]; [|done|done]. intros k Hk. rewrite Hv. by apply Hr.
Qed.

Lemma write_sectors_spec g s lba n buffer : storage_ok s -> 0 <= lba -> 0 <= n -> (has_disk_cache s = true -> g = false -> n < 256) -> lba + n < 2 ^ 64 ->
  n * ss <= Z.of_nat (length buffer) < 2 ^ 64 ->
  let '(r, s') := write_sectors ss insert_ok g lba n buffer s in
  storage_ok s' /\ (forall x, ~ lba <= x < lba + n -> contents s' x = contents s x) /\
  match r with Ok _ => forall k, 0 <= k < n -> contents s' (lba + k) = sector_at ss buffer k | Err _ => True | Panic => False end.
Proof.
  intros [HI Hm] Hlba Hn H256 Hmax Hl. unfold write_sectors. rewrite (wrap_id 64), (proj2 (Z.leb_le _ _)) by nia. cbn [negb].
  assert (Hconv : forall r w', wrote_range None lba 0 n buffer (s_world s) r w' -> (has_disk_cache s = false -> m_cache w' = []) ->
    let s' := mk_storage w' (has_disk_cache s) (total_size s) (m_blocks s) in
    storage_ok s' /\ (forall x, ~ lba <= x < lba + n -> contents s' x = contents s x) /\
    match r with Ok _ => forall k, 0 <= k < n -> contents s' (lba + k) = sector_at ss buffer k | Err _ => True | Panic => False end).
  { intros r w' (HI' & Hv & Hr) Hm'. split_and!; [by split| |done]. intros x Hx. apply Hv. lia. }
  destruct g; [destruct (has_disk_cache s) eqn:Ec; cbn [negb]|destruct (has_disk_cache s) eqn:Ec; cbn [negb]]; unfold on_world; rewrite ?Ec.
  - pose proof (write_cached_spec None lba n buffer (Z.to_nat n) 0 (s_world s) HI Hlba ltac:(lia) ltac:(lia) Hmax ltac:(lia)) as Hw.
    destruct (write_cached ss insert_ok (Z.to_nat n) 0 lba buffer (s_world s)) as [r w']. by apply Hconv.
  - split_and!; [split; [done|intros _; by apply Hm]|done|done].
  - pose proof (write_loop_spec None lba n buffer (Z.to_nat n) 0 (s_world s) HI Hlba ltac:(lia) (H256 eq_refl eq_refl) ltac:(lia) Hmax ltac:(lia)) as Hw.
    destruct (write_loop ss insert_ok (Z.to_nat n) 0 lba n buffer (s_world s)) as [r w']. by apply Hconv.
  - pose proof (uncached_write (s_world s) lba n buffer HI (Hm eq_refl) Hn ltac:(lia)) as Hw.
    destruct (on_device (sd_write lba n buffer) (s_world s)) as [r w']. destruct Hw as [Hw Hc]. by apply Hconv.
Qed.

(** ** Partitions *)
Lemma partition_check_spec p alive fb n ok : 0 <= m_first_block p <= m_last_block p -> m_last_block p < 2 ^ 64 - 1 -> 0 <= fb -> 0 <= n -> fb + n < 2 ^ 64 ->
  match partition_check p alive fb n ok with
  | Ok lba => lba = m_first_block p + fb /\ lba + n <= m_last_block p + 1
  | Err e => e = ENODEV /\ alive = false \/ e = EINVAL
  | Panic => ok = false
  end.
Proof.
  intros Hp Hlast Hfb Hn Hsum. unfold partition_check. destruct alive; cbn [negb]; [|by left]. destruct ok; [|done].
  rewrite (wrap_id 64 (fb + n)) by lia. destruct (Z.ltb_spec (blocks_in_partition p) (fb + n)) as [Hlt|Hge]; [by right|].
  assert (blocks_in_partition p <= m_last_block p - m_first_block p + 1).
  { unfold blocks_in_partition, wrap. etrans; [apply Z.mod_le; [|done]|apply Z.mod_le; [lia|done]]. by apply Z.mod_pos_bound. }
  rewrite wrap_id by lia. lia.
Qed.
End theory.

(** ** Properties *)

(** C10: Through the cache or not, a device is a disk, for calls that do not
    overlap with calls of other threads: reading up to 63 sectors
    returns the contents and leaves them unchanged, writing up to 255 sectors
    changes these sectors to the buffer and no others; a device error leaves
    every sector outside the request as it was, and nothing panics. *)
Theorem storage_device_is_disk (ss : Z) (insert_ok : nat -> bool) (g : bool) {H D : Type} `{PageSource H} `{!PageSourceLaws H}
  `{StorageDriver D} `{!StorageDriverLaws ss D} (Hss : 0 < ss) (Hgeometry : DiskCache_construct ss = Ok [])
  (s : storage H D) (lba n : Z) (buffer : list Z)
  (Hok : storage_ok ss s) (Hlba : 0 <= lba) (Hn : 0 <= n) (Hmax : lba + n < 2 ^ 64) (Hbuf : n * ss <= Z.of_nat (length buffer) < 2 ^ 64) :
  (n < 64 ->
   let '(r, s') := read_sectors ss insert_ok lba n buffer s in
   storage_ok ss s' /\ (forall x, contents ss s' x = contents ss s x) /\
   match r with
   | Ok buf => length buf = length buffer /\ take (Z.to_nat (n * ss)) buf = sectors (contents ss s) lba n
   | Err _ => True
   | Panic => False
   end) /\
  (n < 256 ->
   let '(r, s') := write_sectors ss insert_ok g lba n buffer s in
   storage_ok ss s' /\ (forall x, ~ lba <= x < lba + n -> contents ss s' x = contents ss s x) /\
   match r with Ok _ => forall k, 0 <= k < n -> contents ss s' (lba + k) = sector_at ss buffer k | Err _ => True | Panic => False end).
Proof.
  split; intros Hlim.
  - apply (read_sectors_spec ss insert_ok Hss Hgeometry s lba n buffer); done.
  - apply (write_sectors_spec ss insert_ok Hss Hgeometry g s lba n buffer); done.
Qed.

(** What is written through a partition changes no block outside it, and what
    is read through it are its blocks; a request past its last block, or to a
    device that is gone, is refused. *)
Theorem partition_confined (ss : Z) (insert_ok : nat -> bool) (g : bool) {H D : Type} `{PageSource H} `{!PageSourceLaws H}
  `{StorageDriver D} `{!StorageDriverLaws ss D} (Hss : 0 < ss) (Hgeometry : DiskCache_construct ss = Ok [])
  (s : storage H D) (p : Partition) (alive : bool) (first n : Z) (buffer : list Z)
  (Hok : storage_ok ss s) (Hp : 0 <= m_first_block p <= m_last_block p) (Hlast : m_last_block p < 2 ^ 64 - 1)
  (Hfirst : 0 <= first) (Hn : 0 <= n < 64) (Hmax : first + n < 2 ^ 64) (Hbuf : n * ss <= Z.of_nat (length buffer) < 2 ^ 64) :
  (let '(r, s') := partition_write_blocks ss insert_ok g p alive first n buffer s in
   storage_ok ss s' /\ (forall x, ~ m_first_block p <= x <= m_last_block p -> contents ss s' x = contents ss s x) /\
   match r with
   | Ok _ => m_first_block p + first + n <= m_last_block p + 1 /\
       forall k, 0 <= k < n -> contents ss s' (m_first_block p + first + k) = sector_at ss buffer k
   | Err _ => True
   | Panic => False
   end) /\
  (let '(r, s') := partition_read_blocks ss insert_ok p alive first n buffer s in
   storage_ok ss s' /\ (forall x, contents ss s' x = contents ss s x) /\
   match r with
   | Ok buf => m_first_block p + first + n <= m_last_block p + 1 /\ take (Z.to_nat (n * ss)) buf = sectors (contents ss s) (m_first_block p + first) n
   | Err _ => True
   | Panic => False
   end).
Proof.
  assert (Hsize : (u64 (n * ss) <=? Z.of_nat (length buffer)) = true) by (rewrite (wrap_id 64) by nia; apply Z.leb_le; lia).
  pose proof (partition_check_spec p alive first n true Hp Hlast Hfirst ltac:(lia) Hmax) as Hc.
  unfold partition_write_blocks, partition_read_blocks, sbind, slift. rewrite Hsize.
  destruct (partition_check p alive first n true) as [lba|e|]; [|by split_and!|done]. destruct Hc as [-> Hc]. split.
  - pose proof (write_sectors_spec ss insert_ok Hss Hgeometry g s (m_first_block p + first) n buffer Hok ltac:(lia) ltac:(lia) ltac:(lia) ltac:(lia) Hbuf) as Hw.
    destruct (write_sectors ss insert_ok g (m_first_block p + first) n buffer s) as [r s']. destruct Hw as (Hok' & Hv & Hr).
    split_and!; [done|intros x Hx; apply Hv; lia|]. destruct r; done.
  - pose proof (read_sectors_spec ss insert_ok Hss Hgeometry s (m_first_block p + first) n buffer Hok ltac:(lia) ltac:(lia) ltac:(lia) ltac:(lia) Hbuf) as Hr.
    destruct (read_sectors ss insert_ok (m_first_block p + first) n buffer s) as [r s']. destruct Hr as (Hok' & Hv & Hr).
    split_and!; [done|done|]. destruct r as [buf|e|]; [|done|done]. by destruct Hr.
Qed.

(** The loop of [write_sectors] counts in eight bits: a write of 256 sectors or
    more through the cache never completes, whatever the fuel. *)
Theorem large_write_never_completes (ss : Z) (insert_ok : nat -> bool) {H D : Type} `{PageSource H} `{StorageDriver D}
  (fuel : nat) (lba n : Z) (buffer : list Z) (w : world H D) (Hn : 256 <= n) :
  fst (write_loop ss insert_ok fuel 0 lba n buffer w) <> Ok tt.
Proof.
  assert (Hgen : forall offset w, 0 <= offset < 256 -> fst (write_loop ss insert_ok fuel offset lba n buffer w) <> Ok tt); [|by apply Hgen].
  induction fuel as [|fuel IH]; intros offset w' Ho; cbn [write_loop]; rewrite (proj2 (Z.ltb_lt _ _)) by lia; [done|].
  unfold sbind, sassert. destruct (slice_ok _ _ _); [|done].
  destruct (write_sector _ _ _ _ _) as [[[]|e|] w1]; [|done|done]. apply IH. by apply (wrap_range 8).
Qed.

(** A request that runs past the end of the device is cut to [m_blocks], which
    is zero for a device: a read that starts inside the device after its first
    sector fails the assertion of [read_sectors]; one that starts at the first
    sector returns nothing. *)
Theorem read_past_end_panics (ss : Z) (insert_ok : nat -> bool) {H D : Type} `{PageSource H} `{StorageDriver D}
  (s : storage H D) (first : Z) (buffer : list Z) (Hss : 0 < ss) (Hzero : m_blocks s = 0) (Hfirst : 0 <= first < total_size s / ss)
  (Hend : total_size s / ss < first + Z.of_nat (length buffer) / ss) (Hoff : first * ss < 2 ^ 62) (Hlen : Z.of_nat (length buffer) < 2 ^ 62) :
  fst (read_impl ss insert_ok (first * ss) buffer s) = if first =? 0 then Ok (0, buffer) else Panic.
Proof.
  assert (0 <= Z.of_nat (length buffer) / ss < 2 ^ 62) by (split; [apply Z.div_pos; lia|apply Z.div_lt_upper_bound; nia]).
  assert (0 <= first * ss) by nia. assert (first <= first * ss) by nia.
  unfold read_impl, sbind, sget, slift, device_blocks. rewrite (proj2 (Z.ltb_ge _ _)), Z.mod_mul, Z.div_mul by lia. cbn [negb orb Z.eqb].
  rewrite (proj2 (Z.leb_gt _ _)) by lia. rewrite (wrap_id 64 (first + _)), (proj2 (Z.ltb_lt _ _)) by lia. rewrite Hzero.
  destruct (Z.eqb_spec first 0) as [->|Hf]; [done|].
  assert (Hw : u64 (0 - first) = 2 ^ 64 - first).
  { unfold wrap. replace (0 - first) with (2 ^ 64 - first + (-1) * 2 ^ 64) by lia. rewrite Z.mod_add by lia. apply Z.mod_small. lia. }
  rewrite Hw. rewrite (proj2 (Z.eqb_neq _ _)) by lia. unfold read_sectors.
  assert (Hp : u64 ((2 ^ 64 - first) * ss) = 2 ^ 64 - first * ss).
  { unfold wrap. replace ((2 ^ 64 - first) * ss) with (2 ^ 64 - first * ss + (ss - 1) * 2 ^ 64) by lia. rewrite Z.mod_add by lia. apply Z.mod_small. lia. }
  rewrite Hp, (proj2 (Z.leb_gt _ _)) by lia. done.
Qed.

(** Reading 64 sectors or more through the cache shifts a 64-bit one by 64. *)
Theorem large_read_undefined (ss : Z) (insert_ok : nat -> bool) {H D : Type} `{PageSource H} `{StorageDriver D}
  (s : storage H D) (lba n : Z) (buffer : list Z) (Hc : has_disk_cache s = true) (Hn : 64 <= n < 2 ^ 32) :
  fst (read_sectors ss insert_ok lba n buffer s) = Panic.
Proof.
  unfold read_sectors. destruct (negb _); [done|]. rewrite Hc. cbn [negb]. unfold on_world.
  destruct (Z.to_nat n) as [|fuel] eqn:Ef; [lia|]. cbn [read_segments]. rewrite (proj2 (Z.ltb_lt 0 n)) by lia.
  replace (Math.min (u32 (n - 0)) 64) with 64 by (unfold Math.min; rewrite wrap_id by lia; destruct (Z.ltb_spec (n - 0) 64); lia). done.
Qed.

(** ** Witnesses *)
Definition sample_storage : storage (list PhysicalRange.t) ramdisk := mk_storage (sample_world 5) true (512 * 1000) 0.

Lemma sample_storage_ok : storage_ok 512 sample_storage.
Proof. split; [by apply initial_inv, sample_initial|done]. Qed.

Lemma storage_device_is_disk_witness :
  fst (write_sectors 512 always false 7 2 (all 1 ++ all 2) sample_storage) = Ok tt /\
  contents 512 (snd (write_sectors 512 always false 7 2 (all 1 ++ all 2) sample_storage)) 8 = all 2.
Proof.
  assert (Hr : fst (write_sectors 512 always false 7 2 (all 1 ++ all 2) sample_storage) = Ok tt) by (vm_compute; reflexivity).
  split; [exact Hr|].
  destruct (storage_device_is_disk 512 always false ltac:(done) ltac:(done) sample_storage 7 2 (all 1 ++ all 2) sample_storage_ok
    ltac:(done) ltac:(done) ltac:(done) ltac:(done)) as [_ Hw].
  specialize (Hw ltac:(done)). destruct (write_sectors 512 always false 7 2 (all 1 ++ all 2) sample_storage) as [r s']. cbn [fst] in Hr. subst r.
  destruct Hw as (_ & _ & Hw). exact (Hw 1 ltac:(lia)).
Defined.

Definition sample_partition : Partition := mk_partition 100 199.

Lemma partition_confined_witness :
  fst (partition_write_blocks 512 always false sample_partition true 99 1 (all 5) sample_storage) = Ok tt /\
  contents 512 (snd (partition_write_blocks 512 always false sample_partition true 99 1 (all 5) sample_storage)) 200 = contents 512 sample_storage 200.
Proof.
  assert (Hr : fst (partition_write_blocks 512 always false sample_partition true 99 1 (all 5) sample_storage) = Ok tt) by (vm_compute; reflexivity).
  split; [exact Hr|].
  destruct (partition_confined 512 always false ltac:(done) ltac:(done) sample_storage sample_partition true 99 1 (all 5) sample_storage_ok
    ltac:(done) ltac:(done) ltac:(done) ltac:(done) ltac:(done) ltac:(done)) as [Hw _].
  destruct (partition_write_blocks 512 always false sample_partition true 99 1 (all 5) sample_storage) as [r s'].
  destruct Hw as (_ & Hw & _). apply Hw. cbn. lia.
Defined.

Lemma large_write_never_completes_witness : fst (write_loop 512 always 1000 0 0 256 (replicate (Z.to_nat 131072) 0) (sample_world 5)) <> Ok tt.
Proof. apply (large_write_never_completes 512 always 1000 0 256). lia. Defined.

Lemma read_past_end_panics_witness : fst (read_impl 512 always (999 * 512) (replicate 1024 0) sample_storage) = Panic.
Proof. apply (read_past_end_panics 512 always sample_storage 999 (replicate 1024 0)); (done || by vm_compute). Defined.

Lemma large_read_undefined_witness : fst (read_sectors 512 always 0 64 (replicate (Z.to_nat 32768) 0) sample_storage) = Panic.
Proof. apply (large_read_undefined 512 always sample_storage 0 64); done. Defined.
