(* ===== verification/Gpt.v ===== *)
(** * kernel/Storage/StorageDevice: the partition table

    [StorageDevice::initialize_partitions] reads a GUID partition table.  The
    headers are structures laid over the bytes of a sector; a field outside
    these bytes is [Panic].  [create_ok] tells for which entries
    [Partition::create] finds memory. *)
From stdpp Require Import functions.
From S2P Require Import Prelude BanMath BanUTF8 BitStream Inflate InflateChecks DiskCache StorageDevice.

(** ** Definitions *)
Definition crc32_table : list Z :=
  [0x00000000; 0x77073096; 0xEE0E612C; 0x990951BA; 0x076DC419; 0x706AF48F; 0xE963A535; 0x9E6495A3;
   0x0EDB8832; 0x79DCB8A4; 0xE0D5E91E; 0x97D2D988; 0x09B64C2B; 0x7EB17CBD; 0xE7B82D07; 0x90BF1D91;
   0x1DB71064; 0x6AB020F2; 0xF3B97148; 0x84BE41DE; 0x1ADAD47D; 0x6DDDE4EB; 0xF4D4B551; 0x83D385C7;
   0x136C9856; 0x646BA8C0; 0xFD62F97A; 0x8A65C9EC; 0x14015C4F; 0x63066CD9; 0xFA0F3D63; 0x8D080DF5;
   0x3B6E20C8; 0x4C69105E; 0xD56041E4; 0xA2677172; 0x3C03E4D1; 0x4B04D447; 0xD20D85FD; 0xA50AB56B;
   0x35B5A8FA; 0x42B2986C; 0xDBBBC9D6; 0xACBCF940; 0x32D86CE3; 0x45DF5C75; 0xDCD60DCF; 0xABD13D59;
   0x26D930AC; 0x51DE003A; 0xC8D75180; 0xBFD06116; 0x21B4F4B5; 0x56B3C423; 0xCFBA9599; 0xB8BDA50F;
   0x2802B89E; 0x5F058808; 0xC60CD9B2; 0xB10BE924; 0x2F6F7C87; 0x58684C11; 0xC1611DAB; 0xB6662D3D;
   0x76DC4190; 0x01DB7106; 0x98D220BC; 0xEFD5102A; 0x71B18589; 0x06B6B51F; 0x9FBFE4A5; 0xE8B8D433;
   0x7807C9A2; 0x0F00F934; 0x9609A88E; 0xE10E9818; 0x7F6A0DBB; 0x086D3D2D; 0x91646C97; 0xE6635C01;
   0x6B6B51F4; 0x1C6C6162; 0x856530D8; 0xF262004E; 0x6C0695ED; 0x1B01A57B; 0x8208F4C1; 0xF50FC457;
   0x65B0D9C6; 0x12B7E950; 0x8BBEB8EA; 0xFCB9887C; 0x62DD1DDF; 0x15DA2D49; 0x8CD37CF3; 0xFBD44C65;
   0x4DB26158; 0x3AB551CE; 0xA3BC0074; 0xD4BB30E2; 0x4ADFA541; 0x3DD895D7; 0xA4D1C46D; 0xD3D6F4FB;
   0x4369E96A; 0x346ED9FC; 0xAD678846; 0xDA60B8D0; 0x44042D73; 0x33031DE5; 0xAA0A4C5F; 0xDD0D7CC9;
   0x5005713C; 0x270241AA; 0xBE0B1010; 0xC90C2086; 0x5768B525; 0x206F85B3; 0xB966D409; 0xCE61E49F;
   0x5EDEF90E; 0x29D9C998; 0xB0D09822; 0xC7D7A8B4; 0x59B33D17; 0x2EB40D81; 0xB7BD5C3B; 0xC0BA6CAD;
   0xEDB88320; 0x9ABFB3B6; 0x03B6E20C; 0x74B1D29A; 0xEAD54739; 0x9DD277AF; 0x04DB2615; 0x73DC1683;
   0xE3630B12; 0x94643B84; 0x0D6D6A3E; 0x7A6A5AA8; 0xE40ECF0B; 0x9309FF9D; 0x0A00AE27; 0x7D079EB1;
   0xF00F9344; 0x8708A3D2; 0x1E01F268; 0x6906C2FE; 0xF762575D; 0x806567CB; 0x196C3671; 0x6E6B06E7;
   0xFED41B76; 0x89D32BE0; 0x10DA7A5A; 0x67DD4ACC; 0xF9B9DF6F; 0x8EBEEFF9; 0x17B7BE43; 0x60B08ED5;
   0xD6D6A3E8; 0xA1D1937E; 0x38D8C2C4; 0x4FDFF252; 0xD1BB67F1; 0xA6BC5767; 0x3FB506DD; 0x48B2364B;
   0xD80D2BDA; 0xAF0A1B4C; 0x36034AF6; 0x41047A60; 0xDF60EFC3; 0xA867DF55; 0x316E8EEF; 0x4669BE79;
   0xCB61B38C; 0xBC66831A; 0x256FD2A0; 0x5268E236; 0xCC0C7795; 0xBB0B4703; 0x220216B9; 0x5505262F;
   0xC5BA3BBE; 0xB2BD0B28; 0x2BB45A92; 0x5CB36A04; 0xC2D7FFA7; 0xB5D0CF31; 0x2CD99E8B; 0x5BDEAE1D;
   0x9B64C2B0; 0xEC63F226; 0x756AA39C; 0x026D930A; 0x9C0906A9; 0xEB0E363F; 0x72076785; 0x05005713;
   0x95BF4A82; 0xE2B87A14; 0x7BB12BAE; 0x0CB61B38; 0x92D28E9B; 0xE5D5BE0D; 0x7CDCEFB7; 0x0BDBDF21;
   0x86D3D2D4; 0xF1D4E242; 0x68DDB3F8; 0x1FDA836E; 0x81BE16CD; 0xF6B9265B; 0x6FB077E1; 0x18B74777;
   0x88085AE6; 0xFF0F6A70; 0x66063BCA; 0x11010B5C; 0x8F659EFF; 0xF862AE69; 0x616BFFD3; 0x166CCF45;
   0xA00AE278; 0xD70DD2EE; 0x4E048354; 0x3903B3C2; 0xA7672661; 0xD06016F7; 0x4969474D; 0x3E6E77DB;
   0xAED16A4A; 0xD9D65ADC; 0x40DF0B66; 0x37D83BF0; 0xA9BCAE53; 0xDEBB9EC5; 0x47B2CF7F; 0x30B5FFE9;
   0xBDBDF21C; 0xCABAC28A; 0x53B39330; 0x24B4A3A6; 0xBAD03605; 0xCDD70693; 0x54DE5729; 0x23D967BF;
   0xB3667A2E; 0xC4614AB8; 0x5D681B02; 0x2A6F2B94; 0xB40BBE37; 0xC30C8EA1; 0x5A05DF1B; 0x2D02EF8D].

Fixpoint crc32_loop (crc32 : Z) (data : list Z) : outcome Z :=
  match data with
  | [] => Ok crc32
  | b :: data' =>
      let* t := entry crc32_table (Z.land (Z.lxor crc32 b) 0xFF) in
      crc32_loop (Z.lxor (Z.shiftr crc32 8) t) data'
  end.

(** The first [count] bytes of [data]. *)
Definition crc32_checksum (data : list Z) (count : Z) : outcome Z :=
  ASSERT (count <=? Z.of_nat (length data)) in
  let* crc32 := crc32_loop 0xFFFFFFFF (firstn (Z.to_nat count) data) in
  Ok (Z.lxor crc32 0xFFFFFFFF).

(** A little-endian field of [n] bytes at [off]. *)
Fixpoint le_value (bytes : list Z) : Z :=
  match bytes with [] => 0 | b :: bytes' => b + 256 * le_value bytes' end.

Definition bytes_at (data : list Z) (off n : Z) : outcome (list Z) :=
  if off + n <=? Z.of_nat (length data) then Ok (firstn (Z.to_nat n) (skipn (Z.to_nat off) data)) else Panic.

Definition field (data : list Z) (off n : Z) : outcome Z := let* bytes := bytes_at data off n in Ok (le_value bytes).

Record GPTHeader : Type := mk_gpt {
  gpt_signature : list Z;
  gpt_revision : Z;
  gpt_size : Z;
  gpt_crc32 : Z;
  gpt_my_lba : Z;
  partition_entry_lba : Z;
  partition_entry_count : Z;
  partition_entry_size : Z;
  partition_entry_array_crc32 : Z
}.

Definition sizeof_GPTHeader : Z := 96.

Definition gpt_header (lba1 : list Z) : outcome GPTHeader :=
  let* signature := bytes_at lba1 0 8 in
  let* revision := field lba1 8 4 in
  let* size := field lba1 12 4 in
  let* crc32 := field lba1 16 4 in
  let* my_lba := field lba1 24 8 in
  let* entry_lba := field lba1 72 8 in
  let* entry_count := field lba1 80 4 in
  let* entry_size := field lba1 84 4 in
  let* array_crc32 := field lba1 88 4 in
  Ok (mk_gpt signature revision size crc32 my_lba entry_lba entry_count entry_size array_crc32).

Record PartitionEntry : Type := mk_partition_entry {
  partition_type_guid : list Z;
  unique_partition_guid : list Z;
  starting_lba : Z;
  ending_lba : Z;
  attributes : Z;
  partition_name : list Z
}.

Fixpoint name_fields (n : nat) (data : list Z) (off : Z) : outcome (list Z) :=
  match n with
  | O => Ok []
  | S n' => let* c := field data off 2 in let* cs := name_fields n' data (off + 2) in Ok (c :: cs)
  end.

Definition partition_entry (data : list Z) (off : Z) : outcome PartitionEntry :=
  let* type := bytes_at data off 16 in
  let* unique := bytes_at data (off + 16) 16 in
  let* first := field data (off + 32) 8 in
  let* last := field data (off + 40) 8 in
  let* attr := field data (off + 48) 8 in
  let* name := name_fields 36 data (off + 56) in
  Ok (mk_partition_entry type unique first last attr name).

(** "EFI PART" *)
Definition efi_part : list Z := [0x45; 0x46; 0x49; 0x20; 0x50; 0x41; 0x52; 0x54].

Definition is_valid_gpt_header (header : GPTHeader) (sector_size : Z) : bool :=
  if negb (bool_decide (gpt_signature header = efi_part)) then false
  else if negb (gpt_revision header =? 0x00010000) then false
  else if (gpt_size header <? 92) || (sector_size <? gpt_size header) then false
  else if negb (gpt_my_lba header =? 1) then false
  else true.

Definition is_valid_gpt_crc32 (header : GPTHeader) (lba1 entry_array : list Z) : outcome bool :=
  let lba1 := memcpy_at lba1 16 [0; 0; 0; 0] in
  let* crc32 := crc32_checksum lba1 (gpt_size header) in
  if negb (gpt_crc32 header =? crc32) then Ok false
  else
    let* array_crc32 := crc32_checksum entry_array (u32 (partition_entry_count header * partition_entry_size header)) in
    if negb (partition_entry_array_crc32 header =? array_crc32) then Ok false
    else Ok true.

(** What [Partition::create] is given.  The list of partitions is kept only if
    every entry could be added. *)
Record partition_info : Type := mk_partition_info {
  p_type : list Z;
  p_guid : list Z;
  p_bounds : Partition;
  p_attributes : Z;
  p_label : list Z;
  p_index : Z
}.

Definition info_of_entry (i : Z) (e : PartitionEntry) : partition_info :=
  mk_partition_info (partition_type_guid e) (unique_partition_guid e) (mk_partition (starting_lba e) (ending_lba e))
    (attributes e) (fst (UTF8.from_codepoints (partition_name e))) (i + 1).

Fixpoint read_entries (n : nat) (i : Z) (create_ok : Z -> bool) (header : GPTHeader) (entry_array : list Z) : outcome (list partition_info) :=
  match n with
  | O => Ok []
  | S n' =>
      let* e := partition_entry entry_array (u32 (partition_entry_size header * i)) in
      if bool_decide (partition_type_guid e = replicate 16 0) then read_entries n' (i + 1) create_ok header entry_array
      else if negb (create_ok i) then Err ENOMEM
      else
        let* rest := read_entries n' (i + 1) create_ok header entry_array in
        Ok (info_of_entry i e :: rest)
  end.

Section defs.
Context (ss : Z) (insert_ok : nat -> bool) {H D : Type} `{PageSource H} `{StorageDriver D}.

(** Errors other than those of the device are [EFAULT] in the code. *)
Definition initialize_partitions (create_ok : Z -> bool) : stateful (storage H D) (list partition_info) :=
  let! s := sget in
  if total_size s <? sizeof_GPTHeader then sfail EFAULT
  else
    let! lba1 := read_sectors ss insert_ok 1 1 (replicate (Z.to_nat ss) 0) in
    let! header := slift (gpt_header lba1) in
    if negb (is_valid_gpt_header header ss) then sfail EFAULT
    else
      let size := u32 (partition_entry_count header * partition_entry_size header) in
      let remainder := size `mod` ss in
      let size := if negb (remainder =? 0) then u32 (size + u32 (ss - remainder)) else size in
      if total_size s <? u64 (u64 (partition_entry_lba header * ss) + size) then sfail EFAULT
      else
        let! entry_array := read_sectors ss insert_ok (partition_entry_lba header) (size / ss) (replicate (Z.to_nat size) 0) in
        let! valid := slift (is_valid_gpt_crc32 header lba1 entry_array) in
        if negb valid then sfail EFAULT
        else slift (read_entries (Z.to_nat (partition_entry_count header)) 0 create_ok header entry_array).
End defs.

(** ** Checksums *)
Lemma crc32_table_spec : crc32_table = crc_table.
Proof. vm_compute. reflexivity. Qed.

Lemma crc32_loop_spec data : forall c, crc32_loop c data = crc_update_all c data.
Proof.
  induction data as [|b data IH]; intros c; [done|]. cbn [crc32_loop crc_update_all]. unfold crc_update. rewrite crc32_table_spec.
  destruct (entry crc_table (Z.land (Z.lxor c b) 255)); [apply IH|done|done].
Qed.

(** C35: The kernel's table-driven checksum and the bitwise one of LibDEFLATE agree
    on every run of bytes. *)
Theorem crc32_checksum_equivalent (data : list Z) (count : Z) (Hb : Forall byte data) (Hc : 0 <= count <= Z.of_nat (length data)) :
  crc32_checksum data count = Ok (calculate_crc32 (firstn (Z.to_nat count) data)).
Proof.
  unfold crc32_checksum. rewrite (proj2 (Z.leb_le _ _)) by lia. rewrite crc32_loop_spec.
  destruct (crc_update_all_spec (firstn (Z.to_nat count) data) 0xFFFFFFFF) as [-> Hr]; [unfold u32_value; lia|by apply Forall_take|].
  by rewrite lxor_ones_bnot.
Qed.

Lemma crc32_checksum_equivalent_witness : crc32_checksum [0x31; 0x32; 0x33; 0x34] 3 = Ok (calculate_crc32 [0x31; 0x32; 0x33]).
Proof. apply (crc32_checksum_equivalent [0x31; 0x32; 0x33; 0x34] 3); [repeat constructor; done|cbn; lia]. Defined.

(** ** Entries *)
Lemma bytes_at_ok data off n : off + n <= Z.of_nat (length data) -> is_Ok (bytes_at data off n).
Proof. intros Hl. unfold bytes_at. by rewrite (proj2 (Z.leb_le _ _)). Qed.

Lemma field_ok data off n : off + n <= Z.of_nat (length data) -> is_Ok (field data off n).
Proof. intros Hl. unfold field. pose proof (bytes_at_ok data off n Hl). by destruct (bytes_at data off n). Qed.

Lemma name_fields_ok data n : forall off, off + 2 * Z.of_nat n <= Z.of_nat (length data) -> is_Ok (name_fields n data off).
Proof.
  induction n as [|n IH]; intros off Hl; cbn [name_fields]; [done|].
  pose proof (field_ok data off 2 ltac:(lia)) as Hf. destruct (field data off 2); [|done..].
  pose proof (IH (off + 2) ltac:(lia)) as Hr. by destruct (name_fields n data (off + 2)).
Qed.

Lemma partition_entry_ok data off : off + 128 <= Z.of_nat (length data) -> is_Ok (partition_entry data off).
Proof.
  intros Hl. unfold partition_entry.
  pose proof (bytes_at_ok data off 16 ltac:(lia)). destruct (bytes_at data off 16); [|done..].
  pose proof (bytes_at_ok data (off + 16) 16 ltac:(lia)). destruct (bytes_at data (off + 16) 16); [|done..].
  pose proof (field_ok data (off + 32) 8 ltac:(lia)). destruct (field data (off + 32) 8); [|done..].
  pose proof (field_ok data (off + 40) 8 ltac:(lia)). destruct (field data (off + 40) 8); [|done..].
  pose proof (field_ok data (off + 48) 8 ltac:(lia)). destruct (field data (off + 48) 8); [|done..].
  pose proof (name_fields_ok data 36 (off + 56) ltac:(lia)). by destruct (name_fields 36 data (off + 56)).
Qed.

(** The partition of entry [i], if the entry is used. *)
Definition entry_info (header : GPTHeader) (entry_array : list Z) (i : Z) : option partition_info :=
  match partition_entry entry_array (partition_entry_size header * i) with
  | Ok e => if bool_decide (partition_type_guid e = replicate 16 0) then None else Some (info_of_entry i e)
  | _ => None
  end.

Lemma read_entries_spec header array n : forall i, 0 <= i -> 128 <= partition_entry_size header ->
  partition_entry_size header * (i + Z.of_nat n) <= Z.of_nat (length array) -> partition_entry_size header * (i + Z.of_nat n) < 2 ^ 32 ->
  read_entries n i (fun _ => true) header array = Ok (omap (entry_info header array) (seqZ i (Z.of_nat n))).
Proof.
  induction n as [|n IH]; intros i Hi Hs Hl Hm; cbn [read_entries]; [done|].
  rewrite Nat2Z.inj_succ, seqZ_cons by lia. cbn [omap list_omap]. rewrite (wrap_id 32) by nia.
  pose proof (partition_entry_ok array (partition_entry_size header * i) ltac:(nia)) as He.
  unfold entry_info at 1. destruct (partition_entry array (partition_entry_size header * i)) as [e|?|]; [|done..].
  specialize (IH (i + 1) ltac:(lia) Hs ltac:(lia) ltac:(lia)).
  destruct (bool_decide _); cbn [negb]; rewrite IH; replace (Z.succ i) with (i + 1) by lia; by rewrite <- Z.sub_1_r, Z.add_simpl_r || (repeat f_equal; lia).
Qed.

(** With entries of at least 128 bytes whose total size does not overflow, the
    partitions are those of the used entries, in order, and every access stays
    inside the array that was read. *)
Theorem gpt_entries_listed (header : GPTHeader) (entry_array : list Z)
  (Hsize : 128 <= partition_entry_size header) (Hcount : 0 <= partition_entry_count header)
  (Hover : partition_entry_count header * partition_entry_size header < 2 ^ 32)
  (Hlen : partition_entry_count header * partition_entry_size header <= Z.of_nat (length entry_array)) :
  read_entries (Z.to_nat (partition_entry_count header)) 0 (fun _ => true) header entry_array =
  Ok (omap (entry_info header entry_array) (seqZ 0 (partition_entry_count header))).
Proof. rewrite (read_entries_spec header entry_array) by lia. by rewrite Z2Nat.id. Qed.

(** ** A header that escapes *)
Definition overflow_header : list Z :=
  [69; 70; 73; 32; 80; 65; 82; 84; 0; 0; 1; 0; 92; 0; 0; 0; 138; 21; 124; 228; 0; 0; 0; 0; 1; 0; 0; 0; 0; 0; 0; 0; 0; 0; 0; 0; 0; 0; 0; 0; 0; 0; 0; 0; 0; 0; 0; 0; 0; 0; 0; 0; 0; 0; 0; 0; 0; 0; 0; 0; 0; 0; 0; 0; 0; 0; 0; 0; 0; 0; 0; 0; 2; 0; 0; 0; 0; 0; 0; 0; 0; 0; 0; 2; 128; 0; 0; 0; 0; 0; 0; 0] ++ replicate 420 0.

(** The size of the array is computed in 32 bits: a header with 2^25 entries of
    128 bytes has an empty array, both checksums are right, and the first entry
    is read past its end. *)
Theorem gpt_size_overflows :
  exists header, gpt_header overflow_header = Ok header /\ is_valid_gpt_header header 512 = true /\
    partition_entry_count header = 2 ^ 25 /\ u32 (partition_entry_count header * partition_entry_size header) = 0 /\
    is_valid_gpt_crc32 header overflow_header [] = Ok true /\
    read_entries (Z.to_nat (partition_entry_count header)) 0 (fun _ => true) header [] = Panic.
Proof.
  eexists. split; [vm_compute; reflexivity|]. split_and!; [vm_compute; reflexivity..|].
  cbn [partition_entry_count]. destruct (Z.to_nat 33554432) as [|n] eqn:E; [lia|]. cbn [read_entries]. reflexivity.
Qed.

Definition sample_gpt : GPTHeader := mk_gpt efi_part 0x10000 92 0 1 2 1 128 0.

Lemma gpt_entries_listed_witness :
  read_entries 1 0 (fun _ => true) sample_gpt (replicate 16 7 ++ replicate 112 0) =
  Ok (omap (entry_info sample_gpt (replicate 16 7 ++ replicate 112 0)) [0]).
Proof. apply (gpt_entries_listed sample_gpt (replicate 16 7 ++ replicate 112 0)); cbn; lia. Defined.
