(* ===== verification/SchedulerNode.v ===== *)
(** * kernel/SchedulerThreadNode: the nodes and the queue of the scheduler

    Threads are linked into a list or a binary heap through pointers in their
    nodes; the two structures share the memory of these pointers in a union.  A
    pointer is an integer, 0 is [nullptr], and each word of the union is a map
    from nodes to pointers.  Loops over nodes have no bound in the code and
    carry fuel here. *)
From stdpp Require Import functions.
From S2P Require Import Prelude.

(** ** Definitions *)
Record links : Type := mk_links { w0 : Z -> Z; w1 : Z -> Z; w2 : Z -> Z }.

Definition set_w0 (L : links) (node value : Z) : links := mk_links (<[node := value]> (w0 L)) (w1 L) (w2 L).
Definition set_w1 (L : links) (node value : Z) : links := mk_links (w0 L) (<[node := value]> (w1 L)) (w2 L).
Definition set_w2 (L : links) (node value : Z) : links := mk_links (w0 L) (w1 L) (<[node := value]> (w2 L)).

(** The two views of the union. *)
Abbreviation queue_next := w0.
Abbreviation queue_prev := w1.
Abbreviation heap_parent := w0.
Abbreviation heap_lchild := w1.
Abbreviation heap_rchild := w2.
Abbreviation set_next := set_w0.
Abbreviation set_prev := set_w1.
Abbreviation set_parent := set_w0.
Abbreviation set_lchild := set_w1.
Abbreviation set_rchild := set_w2.

(** *** The queue *)
Module SchedulerQueue.
Record t : Type := mk { m_head : Z; m_tail : Z }.

Definition empty (q : t) : bool := m_head q =? 0.
Definition front (q : t) : Z := m_head q.

Definition pop_front (q : t) (L : links) : Z * t * links :=
  if empty q then (0, q, L)
  else
    let result := m_head q in
    let head := queue_next L result in
    let '(q, L) := if negb (head =? 0) then (mk head (m_tail q), set_prev L head 0) else (mk head 0, L) in
    (result, q, set_next (set_prev L result 0) result 0).

Definition push (q : t) (L : links) (node : Z) : outcome (t * links) :=
  ASSERT (queue_prev L node =? 0) in
  ASSERT (queue_next L node =? 0) in
  let L := set_next (set_prev L node (m_tail q)) node 0 in
  let '(q, L) := if negb (m_tail q =? 0) then (q, set_next L (m_tail q) node) else (mk node (m_tail q), L) in
  Ok (mk (m_head q) node, L).

Definition pop (q : t) (L : links) (node : Z) : t * links :=
  let '(q, L) :=
    if negb (queue_prev L node =? 0) then (q, set_next L (queue_prev L node) (queue_next L node))
    else (mk (queue_next L node) (m_tail q), L) in
  let '(q, L) :=
    if negb (queue_next L node =? 0) then (q, set_prev L (queue_next L node) (queue_prev L node))
    else (mk (m_head q) (queue_prev L node), L) in
  (q, set_next (set_prev L node 0) node 0).

(** The nodes [walk] calls back with. *)
Fixpoint walk (fuel : nat) (L : links) (node : Z) : outcome (list Z) :=
  if node =? 0 then Ok []
  else match fuel with
       | O => Panic
       | S fuel' => let* nodes := walk fuel' L (queue_next L node) in Ok (node :: nodes)
       end.
End SchedulerQueue.
