(* ===== verification/SchedulerHeapNode.v ===== *)
(** * kernel/SchedulerThreadNode: the heap of sleeping threads

    A binary heap of nodes ordered by the time they wake, whose last node is found
    again by walking the links. *)
From stdpp Require Import functions.
From S2P Require Import Prelude SchedulerNode.

(** ** Definitions *)
Module SchedulerHeap.
Record t : Type := mk { m_root : Z; m_last : Z }.

Definition empty (h : t) : bool := m_root h =? 0.
Definition front (h : t) : Z := m_root h.

(** [if (p) p->field = value] *)
Definition when {A} (p : Z) (f : Z -> A -> A) (x : A) : A := if p =? 0 then x else f p x.

Definition swap_links (L : links) (node1 node2 : Z) : links :=
  let p1 := heap_parent L node1 in
  let l1 := heap_lchild L node1 in
  let r1 := heap_rchild L node1 in
  let p2 := heap_parent L node2 in
  let l2 := heap_lchild L node2 in
  let r2 := heap_rchild L node2 in
  if node1 =? p2 then
    let L := set_rchild (set_lchild (set_parent L node1 node2) node1 l2) node1 r2 in
    let L := set_parent L node2 p1 in
    let L :=
      if l1 =? node2 then
        when r1 (fun p L => set_parent L p node2) (set_rchild (set_lchild L node2 node1) node2 r1)
      else
        when l1 (fun p L => set_parent L p node2) (set_rchild (set_lchild L node2 l1) node2 node1) in
    let L := when p1 (fun p L => if node1 =? heap_lchild L p then set_lchild L p node2 else set_rchild L p node2) L in
    let L := when l2 (fun p L => set_parent L p node1) L in
    when r2 (fun p L => set_parent L p node1) L
  else
    let L := set_rchild (set_lchild (set_parent L node1 p2) node1 l2) node1 r2 in
    let L := set_rchild (set_lchild (set_parent L node2 p1) node2 l1) node2 r1 in
    let L := when l1 (fun p L => set_parent L p node2) L in
    let L := when r1 (fun p L => set_parent L p node2) L in
    let L := when l2 (fun p L => set_parent L p node1) L in
    let L := when r2 (fun p L => set_parent L p node1) L in
    if negb (p1 =? 0) || negb (p2 =? 0) then
      if p1 =? p2 then
        let l := heap_lchild L p1 in
        set_rchild (set_lchild L p1 (heap_rchild L p1)) p1 l
      else
        let L := when p1 (fun p L => if heap_lchild L p =? node1 then set_lchild L p node2 else set_rchild L p node2) L in
        when p2 (fun p L => if heap_lchild L p =? node2 then set_lchild L p node1 else set_rchild L p node1) L
    else L.

Definition swap_ends (h : t) (node1 node2 : Z) : t :=
  let root := m_root h in
  let last := m_last h in
  let h := if node1 =? root then mk node2 (m_last h) else if node1 =? last then mk (m_root h) node2 else h in
  if node2 =? root then mk node1 (m_last h) else if node2 =? last then mk (m_root h) node1 else h.

Definition swap_nodes (h : t) (L : links) (node1 node2 : Z) : t * links :=
  if node1 =? node2 then (h, L)
  else
    let '(node1, node2) := if node2 =? heap_parent L node1 then (node2, node1) else (node1, node2) in
    (swap_ends h node1 node2, swap_links L node1 node2).

(** [while ((temp = node->parent) && node == temp->child) node = temp;]: the
    node and [temp] in the end. *)
Fixpoint climb (fuel : nat) (child : links -> Z -> Z) (L : links) (node : Z) : outcome (Z * Z) :=
  let temp := heap_parent L node in
  if negb (temp =? 0) && (node =? child L temp) then
    match fuel with
    | O => Panic
    | S fuel' => climb fuel' child L temp
    end
  else Ok (node, temp).

(** [while ((temp = node->child)) node = temp;] *)
Fixpoint descend (fuel : nat) (child : links -> Z -> Z) (L : links) (node : Z) : outcome Z :=
  if negb (child L node =? 0) then
    match fuel with
    | O => Panic
    | S fuel' => descend fuel' child L (child L node)
    end
  else Ok node.

Fixpoint sift_up (fuel : nat) (wake_time_ns : Z -> Z) (h : t) (L : links) (node : Z) : outcome (t * links) :=
  let parent := heap_parent L node in
  if negb (parent =? 0) && (wake_time_ns node <? wake_time_ns parent) then
    match fuel with
    | O => Panic
    | S fuel' => let '(h, L) := swap_nodes h L node parent in sift_up fuel' wake_time_ns h L node
    end
  else Ok (h, L).

Fixpoint sift_down (fuel : nat) (wake_time_ns : Z -> Z) (h : t) (L : links) (node : Z) : outcome (t * links) :=
  let l := heap_lchild L node in
  let r := heap_rchild L node in
  let l_ok := (l =? 0) || (wake_time_ns node <=? wake_time_ns l) in
  let r_ok := (r =? 0) || (wake_time_ns node <=? wake_time_ns r) in
  if l_ok && r_ok then Ok (h, L)
  else
    match fuel with
    | O => Panic
    | S fuel' =>
        let child :=
          if negb l_ok && negb r_ok then if wake_time_ns l <? wake_time_ns r then l else r
          else if r_ok then l else r in
        let '(h, L) := swap_nodes h L node child in sift_down fuel' wake_time_ns h L node
    end.

(** The parent of the node after [m_last]. *)
Definition next_parent (fuel : nat) (L : links) (last : Z) : outcome Z :=
  let* (parent, temp) := climb fuel heap_rchild L last in
  if negb (temp =? 0) && (heap_rchild L temp =? 0) then Ok temp
  else descend fuel heap_lchild L (if negb (temp =? 0) then heap_rchild L temp else parent).

Definition push (fuel : nat) (wake_time_ns : Z -> Z) (h : t) (L : links) (node : Z) : outcome (t * links) :=
  ASSERT (heap_parent L node =? 0) in
  ASSERT (heap_lchild L node =? 0) in
  ASSERT (heap_rchild L node =? 0) in
  if m_root h =? 0 then
    Ok (mk node node, set_rchild (set_lchild (set_parent L node 0) node 0) node 0)
  else
    let* parent := next_parent fuel L (m_last h) in
    let L := if negb (heap_lchild L parent =? 0) then set_rchild L parent node else set_lchild L parent node in
    let L := set_rchild (set_lchild (set_parent L node parent) node 0) node 0 in
    sift_up fuel wake_time_ns (mk (m_root h) node) L node.

(** The node before [m_last]. *)
Definition previous_last (fuel : nat) (L : links) (last : Z) : outcome Z :=
  let* (last, temp) := climb fuel heap_lchild L last in
  let last := if negb (temp =? 0) then heap_lchild L temp else last in
  ASSERT (negb (last =? 0)) in
  descend fuel heap_rchild L last.

(** The links to and from a leaf. *)
Definition unlink (L : links) (node : Z) : links :=
  let parent := heap_parent L node in
  let L := when parent (fun p L => if node =? heap_rchild L p then set_rchild L p 0 else set_lchild L p 0) L in
  set_rchild (set_lchild (set_parent L node 0) node 0) node 0.

Definition pop (fuel : nat) (wake_time_ns : Z -> Z) (h : t) (L : links) (old_node : Z) : outcome (t * links) :=
  if m_root h =? m_last h then
    Ok (mk 0 0, set_rchild (set_lchild (set_parent L old_node 0) old_node 0) old_node 0)
  else
    let fix_node := m_last h in
    let '(h, L) := swap_nodes h L old_node (m_last h) in
    let* last := previous_last fuel L (m_last h) in
    let h := mk (m_root h) last in
    let L := unlink L old_node in
    if wake_time_ns fix_node =? wake_time_ns old_node then Ok (h, L)
    else if wake_time_ns fix_node <? wake_time_ns old_node then sift_up fuel wake_time_ns h L fix_node
    else sift_down fuel wake_time_ns h L fix_node.

Definition pop_front (fuel : nat) (wake_time_ns : Z -> Z) (h : t) (L : links) : outcome (Z * t * links) :=
  if empty h then Ok (0, h, L)
  else
    let result := m_root h in
    let* (h, L) := pop fuel wake_time_ns h L result in
    Ok (result, h, L).

Fixpoint walk (fuel : nat) (L : links) (node : Z) : outcome (list Z) :=
  if node =? 0 then Ok []
  else match fuel with
       | O => Panic
       | S fuel' =>
           let* ls := walk fuel' L (heap_lchild L node) in
           let* rs := walk fuel' L (heap_rchild L node) in
           Ok (node :: ls ++ rs)
       end.
End SchedulerHeap.
