(* ===== verification/SchedulerNodeCorrect.v ===== *)
(** * The run queue of the scheduler

    Arrays of nodes and the fields of their entries, and the queue: its pointers
    stand for the list of its nodes. *)
From stdpp Require Import functions.
From S2P Require Import Prelude SchedulerNode SchedulerHeapNode.

(** ** Arrays of nodes *)
Definition at_ (l : list Z) (i : nat) : Z := default 0 (l !! i).

(** Distinct nodes. *)
Definition nodes_ok (l : list Z) : Prop := NoDup l /\ 0 ∉ l.

Lemma at_out l i : (length l <= i)%nat -> at_ l i = 0.
Proof. intros Hi. unfold at_. by rewrite lookup_ge_None_2. Qed.

Lemma at_in l i : (i < length l)%nat -> l !! i = Some (at_ l i).
Proof. intros Hi. unfold at_. destruct (lookup_lt_is_Some_2 l i Hi) as [x Hx]. by rewrite Hx. Qed.

Lemma at_some l i x : l !! i = Some x -> at_ l i = x.
Proof. intros Hi. unfold at_. by rewrite Hi. Qed.

Lemma at_zero l i : nodes_ok l -> at_ l i = 0 <-> (length l <= i)%nat.
Proof.
  intros [_ H0]. split; [|apply at_out]. intros Hz. destruct (decide (length l <= i)%nat); [done|].
  pose proof (at_in l i ltac:(lia)) as Hi. rewrite Hz in Hi. destruct H0. by eapply list_elem_of_lookup_2.
Qed.

Lemma at_eq l i j : nodes_ok l -> (j < length l)%nat -> at_ l i = at_ l j <-> i = j.
Proof.
  intros Hok Hj. split; [|by intros ->]. intros He. destruct (decide (i < length l)%nat) as [Hi|Hi].
  - destruct Hok as [Hnd _]. rewrite NoDup_alt in Hnd. apply (Hnd i j (at_ l j)); [rewrite <- He|]; by apply at_in.
  - rewrite at_out in He by lia. symmetry in He. apply at_zero in He; [lia|done].
Qed.

Lemma at_elem l i : (i < length l)%nat -> at_ l i ∈ l.
Proof. intros Hi. eapply list_elem_of_lookup_2. by apply at_in. Qed.

Lemma at_app_l l1 l2 i : (i < length l1)%nat -> at_ (l1 ++ l2) i = at_ l1 i.
Proof. intros Hi. unfold at_. by rewrite lookup_app_l. Qed.

Lemma at_app_r l1 l2 i : (length l1 <= i)%nat -> at_ (l1 ++ l2) i = at_ l2 (i - length l1).
Proof. intros Hi. unfold at_. by rewrite lookup_app_r. Qed.

(** Writing a field of the node at [i], if there is one. *)
Definition ins (p v : Z) (f : Z -> Z) : Z -> Z := if p =? 0 then f else <[p := v]> f.

Lemma ins_at l i j v f : nodes_ok l -> (j < length l)%nat -> ins (at_ l i) v f (at_ l j) = if decide (i = j) then v else f (at_ l j).
Proof.
  intros Hok Hj. unfold ins. destruct (Z.eqb_spec (at_ l i) 0) as [Hz|Hz].
  - apply at_zero in Hz; [|done]. by rewrite decide_False by lia.
  - destruct (decide (i = j)) as [->|Hij]; [by rewrite fn_lookup_insert|]. rewrite fn_lookup_insert_ne; [done|]. by rewrite at_eq.
Qed.

Lemma insert_at l i j v (f : Z -> Z) : nodes_ok l -> (j < length l)%nat -> (<[at_ l i := v]> f) (at_ l j) = if decide (i = j) then v else f (at_ l j).
Proof.
  intros Hok Hj. destruct (decide (i = j)) as [->|Hij]; [by rewrite fn_lookup_insert|]. rewrite fn_lookup_insert_ne; [done|]. by rewrite at_eq.
Qed.

Lemma insert_node l k x j v (f : Z -> Z) : nodes_ok l -> at_ l k = x -> (j < length l)%nat -> (<[x := v]> f) (at_ l j) = if decide (k = j) then v else f (at_ l j).
Proof. intros Hok <-. by apply insert_at. Qed.

(** Links of nodes outside [l] are kept. *)
Definition outside (l : list Z) (L L' : links) : Prop :=
  forall x, x ∉ l -> w0 L' x = w0 L x /\ w1 L' x = w1 L x /\ w2 L' x = w2 L x.

(** A node that is in neither structure. *)
Definition unlinked (L : links) (p : Z) : Prop := w0 L p = 0 /\ w1 L p = 0 /\ w2 L p = 0.

(** ** The queue *)
Section queue.
Import SchedulerQueue.

Definition before_ (l : list Z) (i : nat) : Z := match i with O => 0 | S j => at_ l j end.

Record queue_rep (q : SchedulerQueue.t) (L : links) (l : list Z) : Prop := {
  qr_nodes : nodes_ok l;
  qr_head : m_head q = at_ l 0;
  qr_tail : m_tail q = before_ l (length l);
  qr_next : forall i, (i < length l)%nat -> queue_next L (at_ l i) = at_ l (S i);
  qr_prev : forall i, (i < length l)%nat -> queue_prev L (at_ l i) = before_ l i;
  qr_spare : forall p, p ∈ l -> w2 L p = 0
}.

Lemma queue_empty q L l : queue_rep q L l -> empty q = bool_decide (l = []).
Proof.
  intros [Hok Hh _ _ _ _]. unfold empty. rewrite Hh. destruct l as [|x l]; [done|]. rewrite bool_decide_eq_false_2 by done.
  apply Z.eqb_neq. intros Hz. apply at_zero in Hz; [cbn in Hz; lia|done].
Qed.

Lemma queue_push q L l p : queue_rep q L l -> p <> 0 -> p ∉ l -> unlinked L p ->
  exists q' L', push q L p = Ok (q', L') /\ queue_rep q' L' (l ++ [p]) /\ outside (p :: l) L L'.
Proof.
  intros [Hok Hh Ht Hn Hp Hs] Hp0 Hpl (E0 & E1 & E2). unfold push. rewrite E0, E1. cbn [Z.eqb].
  assert (Hok' : nodes_ok (l ++ [p])).
  { destruct Hok as [Hnd H0]. split; [apply list.NoDup_app; split_and!; [done| |apply NoDup_singleton]|].
    - intros x Hx ->%list_elem_of_singleton. done.
    - intros [?|?%list_elem_of_singleton]%elem_of_app; congruence. }
  assert (Hatp : at_ (l ++ [p]) (length l) = p) by (rewrite at_app_r by lia; by rewrite Nat.sub_diag).
  assert (Hlen : length (l ++ [p]) = S (length l)) by (rewrite length_app; cbn; lia).
  rewrite Ht. destruct (Z.eqb_spec (before_ l (length l)) 0) as [Hz|Hz]; cbn [negb].
  - assert (l = []) as ->.
    { destruct l as [|x l]; [done|]. cbn [length before_] in Hz. apply at_zero in Hz; [cbn in Hz; lia|done]. }
    eexists _, _. split; [done|]. split; [split|].
    + done.
    + done.
    + done.
    + intros [|i] Hi; cbn in *; [by rewrite fn_lookup_insert|lia].
    + intros [|i] Hi; cbn in *; [by rewrite fn_lookup_insert|lia].
    + intros x ->%list_elem_of_singleton. done.
    + intros x Hx. cbn. apply not_elem_of_cons in Hx as [Hx _]. by rewrite !fn_lookup_insert_ne by done.
  - destruct l as [|x0 l0] eqn:El; [done|]. rewrite <- El in *. assert (Hpos : (0 < length l)%nat) by (subst l; cbn; lia).
    set (m := (length l - 1)%nat). assert (Hlast : before_ l (length l) = at_ (l ++ [p]) m).
    { rewrite at_app_l by lia. subst m. destruct (length l); [lia|]. cbn. by rewrite Nat.sub_0_r. }
    rewrite Hlast in *. eexists _, _. split; [done|]. split; [split; cbn [set_next set_prev set_w0 set_w1 w0 w1 w2 m_head m_tail]|].
    + done.
    + by rewrite Hh, at_app_l by lia.
    + rewrite Hlen. cbn [before_]. done.
    + intros i Hi. rewrite (insert_node _ m _ i), (insert_node _ (length l) p i) by (done || lia). repeat case_decide; try lia.
      * rewrite <- Hatp at 1. f_equal. lia.
      * rewrite at_out; [done|lia].
      * rewrite !at_app_l by lia. by apply Hn; lia.
    + intros i Hi. rewrite (insert_node _ (length l) p i) by (done || lia). case_decide.
      * subst i. subst m. destruct (length l); [lia|]. cbn [before_]. f_equal. lia.
      * rewrite at_app_l by lia. rewrite Hp by lia. destruct i; [done|]. cbn. by rewrite at_app_l by lia.
    + intros x [Hx| ->%list_elem_of_singleton]%elem_of_app; [by apply Hs|done].
    + intros x Hx. cbn. apply not_elem_of_cons in Hx as [Hx Hxl].
      assert (x <> at_ (l ++ [p]) m) by (rewrite at_app_l by lia; intros ->; apply Hxl, at_elem; lia).
      by rewrite !fn_lookup_insert_ne by done.
Qed.

Lemma at_delete l k i : at_ (delete k l) i = at_ l (if decide (i < k)%nat then i else S i).
Proof. unfold at_. case_decide; [by rewrite list_lookup_delete_lt|by rewrite list_lookup_delete_ge by lia]. Qed.

Lemma before_delete l k i : (k < length l)%nat -> before_ (delete k l) i = if decide (i <= k)%nat then before_ l i else before_ l (S i).
Proof.
  intros Hk. destruct i as [|i]; [done|]. cbn [before_]. rewrite at_delete. repeat case_decide; try lia; done.
Qed.

Lemma nodes_ok_delete l k : nodes_ok l -> nodes_ok (delete k l).
Proof.
  intros [Hnd H0]. split; [by eapply sublist_NoDup, sublist_delete|]. intros Hin. apply H0. by eapply list_elem_of_delete_inv.
Qed.

(** The index of the node before the one at [k], past the end if there is none. *)
Definition bidx (l : list Z) (k : nat) : nat := match k with O => length l | S j => j end.

Lemma before_bidx l k : before_ l k = at_ l (bidx l k).
Proof. destruct k; [|done]. cbn. by rewrite at_out. Qed.

(** The links and ends after [pop], written with [ins]. *)
Lemma pop_alt q L p : queue_prev L p <> p -> pop q L p =
  (mk (if queue_prev L p =? 0 then queue_next L p else m_head q) (if queue_next L p =? 0 then queue_prev L p else m_tail q),
   mk_links (<[p := 0]> (ins (queue_prev L p) (queue_next L p) (w0 L))) (<[p := 0]> (ins (queue_next L p) (queue_prev L p) (w1 L))) (w2 L)).
Proof.
  intros Hne. unfold pop, ins. destruct (Z.eqb_spec (queue_prev L p) 0) as [E1|E1]; cbn [negb].
  - by destruct (Z.eqb_spec (queue_next L p) 0).
  - cbn [set_next set_w0 w0 w1]. rewrite fn_lookup_insert_ne by done. destruct (Z.eqb_spec (queue_next L p) 0); destruct q; done.
Qed.

Lemma queue_pop q L l k p : queue_rep q L l -> l !! k = Some p ->
  let '(q', L') := pop q L p in queue_rep q' L' (delete k l) /\ unlinked L' p /\ outside l L L'.
Proof.
  intros [Hok Hh Ht Hn Hp Hs] Hk. pose proof (lookup_lt_Some _ _ _ Hk) as Hlt. pose proof (at_some _ _ _ Hk) as Hat.
  pose proof (Hn k Hlt) as Hnk. pose proof (Hp k Hlt) as Hpk. rewrite Hat in Hnk, Hpk. rewrite before_bidx in Hpk.
  assert (Hbk : bidx l k <> k) by (destruct k; cbn; lia).
  rewrite pop_alt, Hnk, Hpk by (rewrite Hpk, <- Hat, at_eq by done; done).
  assert (Hlen : length (delete k l) = (length l - 1)%nat) by (apply length_delete; by rewrite Hk).
  split; [split; cbn [w0 w1 w2 m_head m_tail]|split].
  - by apply nodes_ok_delete.
  - rewrite at_delete. destruct (Z.eqb_spec (at_ l (bidx l k)) 0) as [Hz|Hz].
    + apply at_zero in Hz; [|done]. assert (k = 0)%nat as -> by (destruct k; cbn in Hz; lia). by rewrite decide_False by lia.
    + rewrite decide_True; [done|]. destruct k; [|lia]. cbn in Hz. by rewrite at_out in Hz.
  - rewrite before_delete, Hlen by done. destruct (Z.eqb_spec (at_ l (S k)) 0) as [Hz|Hz].
    + apply at_zero in Hz; [|done]. assert (length l - 1 = k)%nat as -> by lia. by rewrite decide_True, before_bidx by lia.
    + assert (S k < length l)%nat by (destruct (decide (S k < length l)%nat); [done|]; rewrite at_out in Hz by lia; done).
      rewrite decide_False by lia. rewrite Ht. f_equal. lia.
  - intros i Hi. rewrite !at_delete. rewrite (insert_node l k), ins_at by (done || (repeat case_decide; lia)).
    rewrite Hn by (repeat case_decide; lia). destruct k; cbn [bidx] in *; repeat case_decide; try lia; f_equal; lia.
  - intros i Hi. rewrite at_delete, before_delete by done. rewrite (insert_node l k), ins_at by (done || (repeat case_decide; lia)).
    rewrite Hp by (repeat case_decide; lia). destruct (decide (i = k)) as [->|Hik].
    + rewrite (decide_False (P := (k < k)%nat)), decide_False, decide_True, decide_True by lia. by rewrite before_bidx.
    + repeat case_decide; try lia; done.
  - intros x Hx. apply Hs. by eapply list_elem_of_delete_inv.
  - split_and!; cbn; [by rewrite fn_lookup_insert..|]. apply Hs. by eapply list_elem_of_lookup_2.
  - intros x Hx. cbn. assert (x <> p) by (intros ->; apply Hx; by eapply list_elem_of_lookup_2). rewrite !fn_lookup_insert_ne by done.
    assert (Hxi : forall i v f, ins (at_ l i) v f x = f x).
    { intros i v f. unfold ins. destruct (Z.eqb_spec (at_ l i) 0) as [|Hz]; [done|]. rewrite fn_lookup_insert_ne; [done|]. intros <-. apply Hx, at_elem.
      destruct (decide (i < length l)%nat); [done|]. rewrite at_out in Hz by lia. done. }
    by rewrite !Hxi.
Qed.

Lemma queue_pop_front q L p l : queue_rep q L (p :: l) ->
  exists q' L', pop_front q L = (p, q', L') /\ queue_rep q' L' l /\ unlinked L' p /\ outside (p :: l) L L'.
Proof.
  intros Hq. pose proof (queue_pop q L (p :: l) 0 p Hq eq_refl) as Hpop. pose proof Hq as [Hok Hh Ht Hn Hp Hs].
  specialize (Hp 0%nat ltac:(cbn; lia)). specialize (Hn 0%nat ltac:(cbn; lia)). cbn in Hp, Hn, Hh.
  assert (He : pop_front q L = (p, fst (pop q L p), snd (pop q L p))).
  { unfold pop_front. rewrite (queue_empty q L (p :: l) Hq). rewrite bool_decide_eq_false_2 by done. unfold pop. rewrite Hh, Hp. cbn [Z.eqb negb].
    rewrite !Hp. by destruct (queue_next L p =? 0). }
  destruct (pop q L p) as [q' L']. exists q', L'. done.
Qed.

Lemma queue_walk q L l : queue_rep q L l -> forall fuel i, (length l - i <= fuel)%nat -> walk fuel L (at_ l i) = Ok (drop i l).
Proof.
  intros [Hok _ _ Hn _ _] fuel. induction fuel as [|fuel IH]; intros i Hf; cbn [walk].
  all: destruct (Z.eqb_spec (at_ l i) 0) as [Hz|Hz]; [apply at_zero in Hz; [by rewrite drop_ge by lia|done]|].
  - rewrite at_out in Hz by lia. done.
  - assert (i < length l)%nat as Hi by (destruct (decide (i < length l)%nat); [done|]; rewrite at_out in Hz by lia; done).
    rewrite Hn, IH by lia. by rewrite <- (drop_S l (at_ l i) i) by (by apply at_in).
Qed.
End queue.
