(* ===== verification/SchedulerHeapLinks.v ===== *)
(** * The pointers of the heap of sleeping threads

    The pointers describe a complete binary tree, which stands for an array: the
    node at [i] has its children at [2 i + 1] and [2 i + 2].  [swap_links], which
    rewires two nodes, exchanges two entries of the array. *)
From stdpp Require Import functions.
From S2P Require Import Prelude SchedulerNode SchedulerHeapNode SchedulerNodeCorrect.
Import SchedulerHeap.

(** ** Links *)
(** The index of the parent, past the end for the root. *)
Definition pidx (n i : nat) : nat := match i with O => n | S k => (k / 2)%nat end.

Lemma pidx_spec n i : (i = 0%nat /\ pidx n i = n) \/ (i = (2 * pidx n i + 1)%nat \/ i = (2 * pidx n i + 2)%nat).
Proof. destruct i as [|k]; [by left|]. right. cbn [pidx]. pose proof (Nat.div_mod_eq k 2). pose proof (Nat.mod_upper_bound k 2). lia. Qed.

Record heap_links (L : links) (l : list Z) : Prop := {
  hl_nodes : nodes_ok l;
  hl_parent : forall i, (i < length l)%nat -> heap_parent L (at_ l i) = at_ l (pidx (length l) i);
  hl_lchild : forall i, (i < length l)%nat -> heap_lchild L (at_ l i) = at_ l (2 * i + 1);
  hl_rchild : forall i, (i < length l)%nat -> heap_rchild L (at_ l i) = at_ l (2 * i + 2)
}.

(** Two entries exchanged. *)
Definition swapped (i j : nat) (l : list Z) : list Z := <[i := at_ l j]> (<[j := at_ l i]> l).
Definition tr (i j k : nat) : nat := if decide (k = i) then j else if decide (k = j) then i else k.

Lemma swapped_length i j l : length (swapped i j l) = length l.
Proof. unfold swapped. by rewrite !length_insert. Qed.

Lemma at_swapped i j l k : (i < length l)%nat -> (j < length l)%nat -> at_ (swapped i j l) k = at_ l (tr i j k).
Proof.
  intros Hi Hj. unfold swapped, tr. unfold at_ at 1. destruct (decide (k = i)) as [->|Hki].
  - by rewrite list_lookup_insert_eq by (by rewrite length_insert).
  - rewrite list_lookup_insert_ne by done. destruct (decide (k = j)) as [->|Hkj]; [by rewrite list_lookup_insert_eq|by rewrite list_lookup_insert_ne].
Qed.

Lemma swapped_perm i j l : (i < length l)%nat -> (j < length l)%nat -> swapped i j l ≡ₚ l.
Proof.
  intros Hi Hj. apply Permutation_inj. rewrite swapped_length. split; [done|]. exists (tr i j). split.
  - intros a b. unfold tr. repeat case_decide; lia.
  - intros k. destruct (decide (k < length l)%nat) as [Hk|Hk].
    + rewrite (at_in _ k) by (by rewrite swapped_length). rewrite at_swapped by done. symmetry. apply at_in. unfold tr. repeat case_decide; lia.
    + rewrite !lookup_ge_None_2; [done|unfold tr; repeat case_decide; lia|rewrite swapped_length; lia].
Qed.

Lemma nodes_ok_perm l l' : l ≡ₚ l' -> nodes_ok l -> nodes_ok l'.
Proof. intros HP [Hnd H0]. split; [by rewrite <- HP|by rewrite <- HP]. Qed.

Lemma when_parent p v L : when p (fun p L => set_parent L p v) L = mk_links (ins p v (w0 L)) (w1 L) (w2 L).
Proof. unfold when, ins, set_w0. destruct (p =? 0); [by destruct L|done]. Qed.

(** A child pointer of the parent redirected. *)
Lemma when_child p (b : links -> Z -> bool) v L : when p (fun p L => if b L p then set_lchild L p v else set_rchild L p v) L =
  mk_links (w0 L) (if b L p then ins p v (w1 L) else w1 L) (if b L p then w2 L else ins p v (w2 L)).
Proof. unfold when, ins, set_w1, set_w2. destruct (p =? 0), (b L p); destruct L; done. Qed.

Lemma eqb_at l a b : nodes_ok l -> (b < length l)%nat -> (at_ l a =? at_ l b) = bool_decide (a = b).
Proof.
  intros Hok Hb. destruct (Z.eqb_spec (at_ l a) (at_ l b)) as [He|He]; rewrite (at_eq l a b) in He by done.
  - by rewrite bool_decide_eq_true_2.
  - by rewrite bool_decide_eq_false_2.
Qed.

Lemma eqb_at' l a b : nodes_ok l -> (a < length l)%nat -> (at_ l a =? at_ l b) = bool_decide (a = b).
Proof. intros Hok Ha. rewrite Z.eqb_sym, eqb_at by done. by apply bool_decide_ext. Qed.

Lemma ins_zero v f : ins 0 v f = f.
Proof. done. Qed.

Lemma tr_l i j : tr i j i = j.
Proof. unfold tr. by rewrite decide_True. Qed.
Lemma tr_r i j : tr i j j = i.
Proof. unfold tr. case_decide; [done|]. by rewrite decide_True. Qed.
Lemma tr_ne i j k : k <> i -> k <> j -> tr i j k = k.
Proof. intros. unfold tr. by rewrite !decide_False. Qed.

Lemma tr_lt i j k n : (i < n)%nat -> (j < n)%nat -> (k < n)%nat -> (tr i j k < n)%nat.
Proof. intros. unfold tr. repeat case_decide; lia. Qed.

(** *** The rewiring when [i] is the parent of [j]

    What a pointer of the node at [k] is after the exchange, as a function of the
    indices; [d] is the side of [j] and [e] the other one. *)
Lemma child_parent (f : nat -> Z) n i j k d e : (j < n)%nat -> (i < n)%nat -> (k < n)%nat -> j = (2 * i + d)%nat -> (d = 1 /\ e = 2 \/ d = 2 /\ e = 1)%nat ->
  let k' := tr i j k in
  (if decide ((2 * j + 2)%nat = k') then f i else if decide ((2 * j + 1)%nat = k') then f i else if decide ((2 * i + e)%nat = k') then f j
   else if decide (j = k') then f (pidx n i) else if decide (i = k') then f j else f (pidx n k')) = f (tr i j (pidx n k)).
Proof.
  intros Hj Hi Hk Hji Hde. cbv zeta. pose proof (pidx_spec n k) as Hsk. destruct (decide (k = i)) as [->|Hki]; [|destruct (decide (k = j)) as [->|Hkj]].
  - rewrite tr_l, !decide_False, decide_True by lia. by rewrite tr_ne by lia.
  - rewrite tr_r, !decide_False, decide_True by lia. assert (pidx n j = i) as -> by lia. by rewrite tr_l.
  - rewrite (tr_ne i j k) by done. rewrite (decide_False (P := j = k)), (decide_False (P := i = k)) by done. set (p := pidx n k) in *. clearbody p.
    destruct (decide (p = j)) as [->|Hpj]; [rewrite tr_r; destruct (decide (2 * j + 2 = k)%nat); [done|]; by rewrite decide_True by lia|].
    rewrite (decide_False (P := (2 * j + 2)%nat = k)), (decide_False (P := (2 * j + 1)%nat = k)) by lia.
    destruct (decide (p = i)) as [->|Hpi]; [rewrite tr_l; by rewrite decide_True by lia|]. rewrite decide_False by lia. by rewrite tr_ne.
Qed.

Lemma child_value (f : nat -> Z) n i j pi k c d (b : bool) : (i < n)%nat -> (j < n)%nat -> (k < n)%nat -> j = (2 * i + d)%nat -> (d = 1 \/ d = 2)%nat -> (c = 1 \/ c = 2)%nat ->
  pi <> i -> pi <> j -> (forall m, (2 * m + c)%nat = i -> pi = m /\ b = true) -> (b = true -> (pi < n)%nat -> i = (2 * pi + c)%nat) ->
  let k' := tr i j k in
  let rest := if decide (j = k') then (if decide (c = d) then f i else f (2 * i + c)%nat) else if decide (i = k') then f (2 * j + c)%nat else f (2 * k' + c)%nat in
  (if b then if decide (pi = k') then f j else rest else rest) = f (tr i j (2 * k + c)).
Proof.
  intros Hi Hj Hk Hji Hd Hc Hpi Hpj Fi Gi. cbv zeta. destruct (decide (k = i)) as [->|Hki]; [|destruct (decide (k = j)) as [->|Hkj]].
  - rewrite tr_l, (decide_False (P := pi = j)), (decide_True (P := j = j)) by done. destruct (decide (c = d)) as [->|Hcd].
    + rewrite <- Hji, tr_r. by destruct b.
    + rewrite tr_ne by lia. by destruct b.
  - rewrite tr_r, (decide_False (P := pi = i)), (decide_False (P := j = i)), (decide_True (P := i = i)) by (done || lia). rewrite tr_ne by lia. by destruct b.
  - rewrite (tr_ne i j k), (decide_False (P := j = k)), (decide_False (P := i = k)) by done. destruct (decide (2 * k + c = i)%nat) as [Ei|Ei].
    + destruct (Fi k Ei) as [-> ->]. by rewrite Ei, tr_l, decide_True.
    + rewrite tr_ne by lia. destruct b; [|done]. destruct (decide (pi = k)) as [->|]; [|done]. destruct Ei. symmetry. by apply Gi.
Qed.

Lemma swap_links_child L l i j : heap_links L l -> (j < length l)%nat -> (i < length l)%nat -> pidx (length l) j = i ->
  heap_links (swap_links L (at_ l i) (at_ l j)) (swapped i j l).
Proof.
  intros [Hok Hp Hl Hr] Hj Hi Hpj. pose proof (nodes_ok_perm _ _ (symmetry (swapped_perm i j l Hi Hj)) Hok) as Hok'.
  unfold swap_links. rewrite !Hp, !Hl, !Hr, Hpj, Z.eqb_refl by done. rewrite eqb_at by done.
  pose proof (pidx_spec (length l) j) as Hsj. rewrite Hpj in Hsj. pose proof (pidx_spec (length l) i) as Hsi.
  set (pi := pidx (length l) i) in *. assert (Hij : (i < j)%nat) by lia. assert (Hpi : pi <> i /\ pi <> j) by lia. destruct Hpi as [Hpi Hpij].
  assert (Hc : forall L' : links, (forall k, (k < length l)%nat -> k <> i -> k <> j -> w1 L' (at_ l k) = w1 L (at_ l k)) ->
    when (at_ l pi) (fun p L => if at_ l i =? heap_lchild L p then set_lchild L p (at_ l j) else set_rchild L p (at_ l j)) L' =
    mk_links (w0 L') (if bool_decide (i = 2 * pi + 1)%nat then ins (at_ l pi) (at_ l j) (w1 L') else w1 L')
      (if negb (bool_decide (i = 2 * pi + 1)%nat) then ins (at_ l pi) (at_ l j) (w2 L') else w2 L')).
  { intros L' HL'. rewrite (when_child _ (fun L p => at_ l i =? heap_lchild L p)). destruct Hsi as [[Hi0 Hpi0]|Hsi].
    - rewrite Hpi0, (at_out l (length l)), !ins_zero by lia. by destruct (_ =? _), (bool_decide _).
    - rewrite HL', Hl, eqb_at' by (done || lia). by destruct (bool_decide _). }
  destruct (decide (2 * i + 1 = j)%nat) as [Hlj|Hrj]; [rewrite bool_decide_eq_true_2 by done|rewrite bool_decide_eq_false_2 by done].
  all: rewrite !when_parent, Hc by (intros k Hk Hki Hkj; cbn [set_w0 set_w1 set_w2 w0 w1 w2]; rewrite !insert_at by done; by rewrite !decide_False by done).
  all: split; [done|..]; intros k Hk; rewrite swapped_length in *; rewrite !at_swapped by done; pose proof (tr_lt i j k _ Hi Hj Hk) as Hk'; cbn [set_w0 set_w1 set_w2 w0 w1 w2].
  all: first [assert (Hji : j = (2 * i + 1)%nat) by lia|assert (Hji : j = (2 * i + 2)%nat) by lia]; clear Hsj Hpj Hok' Hc.
  1: rewrite !ins_at, !insert_at, Hp by done; apply (child_parent (at_ l) (length l) i j k 1 2); by (done || lia).
  3: rewrite !ins_at, !insert_at, Hp by done; apply (child_parent (at_ l) (length l) i j k 2 1); by (done || lia).
  all: clear Hp; clearbody pi.
  - etrans; [|apply (child_value (at_ l) (length l) i j pi k 1 1 (bool_decide (i = 2 * pi + 1)%nat)); try (done || lia)].
    + destruct (bool_decide _); rewrite ?ins_at, !insert_at, Hl by done; done.
    + intros m Hm. rewrite bool_decide_eq_true. clear -Hsi Hm. lia.
    + by rewrite bool_decide_eq_true.
  - etrans; [|apply (child_value (at_ l) (length l) i j pi k 2 1 (negb (bool_decide (i = 2 * pi + 1)%nat))); try (done || lia)].
    + destruct (bool_decide _); cbn [negb]; rewrite ?ins_at, !insert_at, Hr by done; done.
    + intros m Hm. rewrite negb_true_iff, bool_decide_eq_false. clear -Hsi Hm. lia.
    + rewrite negb_true_iff, bool_decide_eq_false. clear -Hsi. lia.
  - etrans; [|apply (child_value (at_ l) (length l) i j pi k 1 2 (bool_decide (i = 2 * pi + 1)%nat)); try (done || lia)].
    + destruct (bool_decide _); rewrite ?ins_at, !insert_at, Hl by done; done.
    + intros m Hm. rewrite bool_decide_eq_true. clear -Hsi Hm. lia.
    + by rewrite bool_decide_eq_true.
  - etrans; [|apply (child_value (at_ l) (length l) i j pi k 2 2 (negb (bool_decide (i = 2 * pi + 1)%nat))); try (done || lia)].
    + destruct (bool_decide _); cbn [negb]; rewrite ?ins_at, !insert_at, Hr by done; done.
    + intros m Hm. rewrite negb_true_iff, bool_decide_eq_false. clear -Hsi Hm. lia.
    + rewrite negb_true_iff, bool_decide_eq_false. clear -Hsi. lia.
Qed.

Lemma when_child_at L l q a v : nodes_ok l -> (a < length l)%nat -> ((q < length l)%nat -> w1 L (at_ l q) = at_ l (2 * q + 1)) ->
  when (at_ l q) (fun p L => if heap_lchild L p =? at_ l a then set_lchild L p v else set_rchild L p v) L =
  mk_links (w0 L) (if decide (a = 2 * q + 1)%nat then ins (at_ l q) v (w1 L) else w1 L) (if decide (a = 2 * q + 1)%nat then w2 L else ins (at_ l q) v (w2 L)).
Proof.
  intros Hok Ha Hq. rewrite (when_child _ (fun L p => heap_lchild L p =? at_ l a)). destruct (decide (q < length l)%nat) as [Hlt|Hge].
  - rewrite Hq, eqb_at by done. case_decide; [by rewrite bool_decide_eq_true_2|by rewrite bool_decide_eq_false_2 by congruence].
  - rewrite (at_out l q), !ins_zero by lia. by destruct (_ =? _), (decide _).
Qed.

(** A child pointer after the exchange of [i] and [j]: [bi] tells whether the
    pointer of the parent [pi] of [i] is the one that is redirected. *)
Lemma apart_value (f : nat -> Z) n i j pi pj k c (bi bj : bool) : (i < n)%nat -> (j < n)%nat -> (k < n)%nat -> i <> j -> pj <> i -> pi <> j -> pi <> pj ->
  (c = 1 \/ c = 2)%nat -> (forall m, (2 * m + c)%nat = i -> pi = m /\ bi = true) -> (forall m, (2 * m + c)%nat = j -> pj = m /\ bj = true) ->
  (bi = true -> (pi < n)%nat -> i = (2 * pi + c)%nat) -> (bj = true -> (pj < n)%nat -> j = (2 * pj + c)%nat) -> pi <> i -> pj <> j ->
  let k' := tr i j k in
  let rest := if decide (j = k') then f (2 * i + c)%nat else if decide (i = k') then f (2 * j + c)%nat else f (2 * k' + c)%nat in
  let rest := if bi then if decide (pi = k') then f j else rest else rest in
  (if bj then if decide (pj = k') then f i else rest else rest) = f (tr i j (2 * k + c)).
Proof.
  intros Hi Hj Hk Hij Hpj Hpi Hpp Hc Fi Fj Gi Gj Hii Hjj. cbv zeta. destruct (decide (k = i)) as [->|Hki]; [|destruct (decide (k = j)) as [->|Hkj]].
  - rewrite tr_l, (tr_ne i j (2 * i + c)); [|lia|intros E; by destruct (Fj i E)].
    rewrite (decide_False (P := pi = j)), (decide_False (P := pj = j)), (decide_True (P := j = j)) by done. by destruct bi, bj.
  - rewrite tr_r, (tr_ne i j (2 * j + c)); [|intros E; by destruct (Fi j E)|lia].
    rewrite (decide_False (P := pi = i)), (decide_False (P := pj = i)), (decide_False (P := j = i)), (decide_True (P := i = i)) by done. by destruct bi, bj.
  - rewrite (tr_ne i j k), (decide_False (P := j = k)), (decide_False (P := i = k)) by done.
    destruct (decide (2 * k + c = i)%nat) as [Ei|Ei]; [|destruct (decide (2 * k + c = j)%nat) as [Ej|Ej]].
    + destruct (Fi k Ei) as [-> ->]. rewrite Ei, tr_l, (decide_True (P := k = k)), (decide_False (P := pj = k)) by done. by destruct bj.
    + destruct (Fj k Ej) as [-> ->]. rewrite Ej, tr_r, (decide_True (P := k = k)) by done. done.
    + rewrite tr_ne by done. destruct bi, bj; repeat case_decide; subst; try done; first [by destruct Ei; symmetry; apply Gi|by destruct Ej; symmetry; apply Gj].
Qed.

Lemma apart_parent (f : nat -> Z) n i j k : (j < n)%nat -> (i < n)%nat -> (k < n)%nat -> i <> j -> pidx n j <> i -> pidx n i <> j ->
  let k' := tr i j k in
  (if decide ((2 * j + 2)%nat = k') then f i else if decide ((2 * j + 1)%nat = k') then f i else if decide ((2 * i + 2)%nat = k') then f j
   else if decide ((2 * i + 1)%nat = k') then f j else if decide (j = k') then f (pidx n i) else if decide (i = k') then f (pidx n j) else f (pidx n k')) = f (tr i j (pidx n k)).
Proof.
  intros Hj Hi Hk Hij Hpj Hpi. cbv zeta. pose proof (pidx_spec n i) as Hsi. pose proof (pidx_spec n j) as Hsj. destruct (decide (k = i)) as [->|Hki]; [|destruct (decide (k = j)) as [->|Hkj]].
  - rewrite tr_l, !decide_False, decide_True by lia. by rewrite tr_ne by lia.
  - rewrite tr_r, !decide_False, decide_True by lia. by rewrite tr_ne by lia.
  - pose proof (pidx_spec n k) as Hsk. rewrite (tr_ne i j k) by done. rewrite (decide_False (P := j = k)), (decide_False (P := i = k)) by done. set (p := pidx n k) in *. clearbody p. clear Hsi Hsj.
    destruct (decide (p = j)) as [->|Hpj']; [rewrite tr_r; destruct (decide (2 * j + 2 = k)%nat); [done|]; by rewrite decide_True by lia|].
    rewrite (decide_False (P := (2 * j + 2)%nat = k)), (decide_False (P := (2 * j + 1)%nat = k)) by lia.
    destruct (decide (p = i)) as [->|Hpi']; [rewrite tr_l; destruct (decide (2 * i + 2 = k)%nat); [done|]; by rewrite decide_True by lia|].
    rewrite !decide_False by lia. by rewrite tr_ne.
Qed.

(** Two children of the node at [p] are exchanged; [e] is the other side. *)
Lemma siblings_value (f : nat -> Z) n i j p k c e : (i < n)%nat -> (j < n)%nat -> (k < n)%nat -> i <> j -> (i = 2 * p + 1 \/ i = 2 * p + 2)%nat -> (j = 2 * p + 1 \/ j = 2 * p + 2)%nat ->
  (c = 1 /\ e = 2 \/ c = 2 /\ e = 1)%nat ->
  let k' := tr i j k in
  (if decide (p = k') then f (2 * p + e)%nat else if decide (j = k') then f (2 * i + c)%nat else if decide (i = k') then f (2 * j + c)%nat else f (2 * k' + c)%nat) = f (tr i j (2 * k + c)).
Proof.
  intros Hi Hj Hk Hij Hpi Hpj Hce. cbv zeta. destruct (decide (k = i)) as [->|Hki]; [|destruct (decide (k = j)) as [->|Hkj]].
  - rewrite tr_l, decide_False, decide_True by lia. by rewrite tr_ne by lia.
  - rewrite tr_r, !decide_False, decide_True by lia. by rewrite tr_ne by lia.
  - rewrite (tr_ne i j k), (decide_False (P := j = k)), (decide_False (P := i = k)) by done. destruct (decide (p = k)) as [->|Hpk]; [|by rewrite tr_ne by lia].
    destruct (decide (2 * k + c = i)%nat) as [E|E]; [rewrite E, tr_l|assert (2 * k + c = j)%nat as -> by lia; rewrite tr_r]; f_equal; lia.
Qed.

(** The rewiring when neither is the parent of the other. *)
Lemma swap_links_apart L l i j : heap_links L l -> (j < length l)%nat -> (i < length l)%nat -> i <> j ->
  pidx (length l) j <> i -> pidx (length l) i <> j -> heap_links (swap_links L (at_ l i) (at_ l j)) (swapped i j l).
Proof.
  intros [Hok Hp Hl Hr] Hj Hi Hij Hpj Hpi. pose proof (nodes_ok_perm _ _ (symmetry (swapped_perm i j l Hi Hj)) Hok) as Hok'.
  unfold swap_links. rewrite !Hp, !Hl, !Hr by done. rewrite (eqb_at' l i) by done. rewrite bool_decide_eq_false_2 by done. rewrite !when_parent.
  pose proof (pidx_spec (length l) j) as Hsj. pose proof (pidx_spec (length l) i) as Hsi.
  set (pi := pidx (length l) i) in *. set (pj := pidx (length l) j) in *.
  cbn [set_w0 set_w1 set_w2 w0 w1 w2].
  set (W0 := ins (at_ l (2 * j + 2)) _ _). set (W1 := <[at_ l j := _]> _). set (W2 := <[at_ l j := _]> _).
  assert (Hparents : forall k, (k < length l)%nat -> W0 (at_ l (tr i j k)) = at_ l (tr i j (pidx (length l) k))).
  { intros k Hk. pose proof (tr_lt i j k _ Hi Hj Hk) as Hk'. subst W0.
    rewrite !ins_at, !insert_at, Hp by done. by apply apart_parent. }
  assert (H1 : forall k, (k < length l)%nat -> k <> i -> k <> j -> W1 (at_ l k) = at_ l (2 * k + 1))
    by (intros k Hk Hki Hkj; subst W1; rewrite !insert_at, Hl by done; by rewrite !decide_False by done).
  assert (H2 : forall k, (k < length l)%nat -> k <> i -> k <> j -> W2 (at_ l k) = at_ l (2 * k + 2))
    by (intros k Hk Hki Hkj; subst W2; rewrite !insert_at, Hr by done; by rewrite !decide_False by done).
  assert (Hin : (pi < length l)%nat \/ (pj < length l)%nat) by (clear -Hsi Hsj Hij Hi Hj; lia).
  assert (Hipi : pi <> i) by (clear -Hsi Hi; lia). assert (Hjpj : pj <> j) by (clear -Hsj Hj; lia).
  replace (negb (at_ l pi =? 0) || negb (at_ l pj =? 0)) with true.
  2: { symmetry. apply orb_true_iff. rewrite !negb_true_iff, !Z.eqb_neq, !at_zero by done. lia. }
  destruct (Z.eqb_spec (at_ l pi) (at_ l pj)) as [Epp|Epp].
  - assert (pi = pj) as Epij by (destruct Hin; [symmetry; by apply (at_eq l pj pi)|by apply (at_eq l pi pj)]).
    assert (Hplt : (pi < length l)%nat) by lia. rewrite H1, H2 by lia.
    split; [done|..]; intros k Hk; rewrite swapped_length in *; rewrite !at_swapped by done; pose proof (tr_lt i j k _ Hi Hj Hk) as Hk'; cbn [set_w0 set_w1 set_w2 w0 w1 w2]; [by apply Hparents|..].
    all: clear W0 Hparents H1 H2; subst W1 W2; clear Hp Hok' Epp; clearbody pi pj; subst pj.
    + rewrite !insert_at, Hl by done. apply (siblings_value (at_ l) (length l) i j pi k 1 2); (done || lia).
    + rewrite !insert_at, Hr by done. apply (siblings_value (at_ l) (length l) i j pi k 2 1); (done || lia).
  - assert (Hpp : pi <> pj) by (intros E; by rewrite E in Epp).
    rewrite (when_child_at _ l pi i) by (done || (intros; apply H1; done)).
    rewrite (when_child_at _ l pj j).
    2,3: done.
    2: { intros Hlt. cbn [w1]. destruct (decide _); [|by apply H1]. rewrite ins_at by done. rewrite decide_False by done. by apply H1. }
    split; [done|..]; intros k Hk; rewrite swapped_length in *; rewrite !at_swapped by done; pose proof (tr_lt i j k _ Hi Hj Hk) as Hk'; cbn [set_w0 set_w1 set_w2 w0 w1 w2]; [by apply Hparents|..].
    + subst W1 W2. clear W0 Hparents H1 H2 Hok' Epp Hp. clearbody pi pj.
      etrans; [|apply (apart_value (at_ l) (length l) i j pi pj k 1 (bool_decide (i = 2 * pi + 1)%nat) (bool_decide (j = 2 * pj + 1)%nat)); try done].
      * rewrite !bool_decide_decide. destruct (decide (i = 2 * pi + 1)%nat), (decide (j = 2 * pj + 1)%nat); rewrite ?ins_at, !insert_at, Hl by done; done.
      * by left.
      * intros m Hm. rewrite bool_decide_eq_true. clear -Hsi Hm. lia.
      * intros m Hm. rewrite bool_decide_eq_true. clear -Hsj Hm. lia.
      * by rewrite bool_decide_eq_true.
      * by rewrite bool_decide_eq_true.
    + subst W1 W2. clear W0 Hparents H1 H2 Hok' Epp Hp. clearbody pi pj.
      etrans; [|apply (apart_value (at_ l) (length l) i j pi pj k 2 (negb (bool_decide (i = 2 * pi + 1)%nat)) (negb (bool_decide (j = 2 * pj + 1)%nat))); try done].
      * rewrite !bool_decide_decide. destruct (decide (i = 2 * pi + 1)%nat), (decide (j = 2 * pj + 1)%nat); rewrite ?ins_at, !insert_at, Hr by done; done.
      * by right.
      * intros m Hm. rewrite negb_true_iff, bool_decide_eq_false. clear -Hsi Hm. lia.
      * intros m Hm. rewrite negb_true_iff, bool_decide_eq_false. clear -Hsj Hm. lia.
      * rewrite negb_true_iff, bool_decide_eq_false. clear -Hsi. lia.
      * rewrite negb_true_iff, bool_decide_eq_false. clear -Hsj. lia.
Qed.
