(* ===== verification/SchedulerHeapCorrect.v ===== *)
(** * The heap of sleeping threads

    [swap_nodes] exchanges two entries of the array the pointers stand for, the
    walks that look for the parent of the next node and for the node before the
    last find the entries they should, and the wake-up times stay in heap
    order. *)
From stdpp Require Import functions.
From S2P Require Import Prelude SchedulerNode SchedulerHeapNode SchedulerNodeCorrect SchedulerHeapLinks.
Import SchedulerHeap.

Record heap_rep (h : SchedulerHeap.t) (L : links) (l : list Z) : Prop := {
  hr_links : heap_links L l;
  hr_root : m_root h = at_ l 0;
  hr_last : m_last h = at_ l (length l - 1)
}.

(** ** Links outside the heap *)
Lemma outside_refl l L : outside l L L.
Proof. done. Qed.

Lemma outside_trans l L1 L2 L3 : outside l L1 L2 -> outside l L2 L3 -> outside l L1 L3.
Proof. intros H1 H2 x Hx. destruct (H1 x Hx) as (<- & <- & <-). by apply H2. Qed.

Lemma outside_sub l l' L L' : l ⊆ l' -> outside l L L' -> outside l' L L'.
Proof. intros Hs Ho x Hx. apply Ho. by intros ?%Hs. Qed.

Lemma outside_set_w0 l L L' p v : p ∈ l -> outside l L L' -> outside l L (set_w0 L' p v).
Proof. intros Hp Ho x Hx. cbn. rewrite fn_lookup_insert_ne by congruence. by apply Ho. Qed.
Lemma outside_set_w1 l L L' p v : p ∈ l -> outside l L L' -> outside l L (set_w1 L' p v).
Proof. intros Hp Ho x Hx. cbn. rewrite fn_lookup_insert_ne by congruence. by apply Ho. Qed.
Lemma outside_set_w2 l L L' p v : p ∈ l -> outside l L L' -> outside l L (set_w2 L' p v).
Proof. intros Hp Ho x Hx. cbn. rewrite fn_lookup_insert_ne by congruence. by apply Ho. Qed.

Lemma outside_when l L L' p f : (p <> 0 -> p ∈ l) -> outside l L L' -> (p ∈ l -> outside l L (f p L')) -> outside l L (when p f L').
Proof. intros Hp Ho Hf. unfold when. destruct (Z.eqb_spec p 0) as [|Hz]; [done|]. apply Hf. by apply Hp. Qed.

Lemma at_elem_nonzero l i : at_ l i <> 0 -> at_ l i ∈ l.
Proof. intros Hz. destruct (decide (i < length l)%nat); [by apply at_elem|]. rewrite at_out in Hz by lia. done. Qed.

Ltac outside_tac :=
  repeat match goal with
  | |- outside _ _ (when _ _ _) => apply outside_when; [apply at_elem_nonzero| |intros ?; cbv beta]
  | |- outside _ _ (if ?b then _ else _) => destruct b
  | |- outside _ _ (set_w0 _ _ _) => apply outside_set_w0; [done|]
  | |- outside _ _ (set_w1 _ _ _) => apply outside_set_w1; [done|]
  | |- outside _ _ (set_w2 _ _ _) => apply outside_set_w2; [done|]
  | |- outside _ ?L ?L => apply outside_refl
  end.

Lemma swap_links_outside L l i j : heap_links L l -> (i < length l)%nat -> (j < length l)%nat -> outside l L (swap_links L (at_ l i) (at_ l j)).
Proof.
  intros [Hok Hp Hl Hr] Hi Hj. unfold swap_links. rewrite !Hp, !Hl, !Hr by done.
  pose proof (at_elem l i Hi) as Ei. pose proof (at_elem l j Hj) as Ej.
  pose proof (at_elem_nonzero l (pidx (length l) i)) as Ep. 
  destruct (at_ l i =? at_ l (pidx (length l) j)).
  - destruct (at_ l (2 * i + 1) =? at_ l j); outside_tac.
  - destruct (negb (at_ l (pidx (length l) i) =? 0) || negb (at_ l (pidx (length l) j) =? 0)) eqn:Hpp.
    + destruct (Z.eqb_spec (at_ l (pidx (length l) i)) (at_ l (pidx (length l) j))) as [Hq|Hq].
      * rewrite <- Hq, orb_diag, negb_true_iff, Z.eqb_neq in Hpp. specialize (Ep Hpp). outside_tac.
      * outside_tac.
    + outside_tac.
Qed.

(** ** Exchanging two nodes *)
Lemma swapped_comm i j l : swapped i j l = swapped j i l.
Proof.
  unfold swapped. destruct (decide (i = j)) as [->|Hij]; [done|]. by rewrite list_insert_insert_ne.
Qed.

Lemma swap_links_swapped L l i j : heap_links L l -> (i < length l)%nat -> (j < length l)%nat -> i <> j -> pidx (length l) i <> j ->
  heap_links (swap_links L (at_ l i) (at_ l j)) (swapped i j l).
Proof.
  intros Hh Hi Hj Hij Hp. destruct (decide (pidx (length l) j = i)) as [Hpj|Hpj]; [by apply swap_links_child|by apply swap_links_apart].
Qed.

Lemma swap_ends_swapped h l i j : nodes_ok l -> m_root h = at_ l 0 -> m_last h = at_ l (length l - 1) -> (i < length l)%nat -> (j < length l)%nat -> i <> j ->
  m_root (swap_ends h (at_ l i) (at_ l j)) = at_ (swapped i j l) 0 /\ m_last (swap_ends h (at_ l i) (at_ l j)) = at_ (swapped i j l) (length (swapped i j l) - 1).
Proof.
  intros Hok Hr Hl Hi Hj Hij. rewrite swapped_length, !at_swapped by done. unfold swap_ends. rewrite Hr, Hl, !eqb_at by (done || lia).
  unfold tr. repeat case_bool_decide; cbn [m_root m_last]; repeat case_decide; try lia; split; congruence.
Qed.

Lemma swap_nodes_spec h L l i j : heap_rep h L l -> (i < length l)%nat -> (j < length l)%nat ->
  let '(h', L') := swap_nodes h L (at_ l i) (at_ l j) in heap_rep h' L' (swapped i j l) /\ outside l L L'.
Proof.
  intros [Hh Hr Hl] Hi Hj. pose proof Hh as [Hok Hp _ _]. unfold swap_nodes. rewrite eqb_at, Hp, eqb_at' by done. case_bool_decide as Hij.
  - subst j. split; [|done]. assert (swapped i i l = l) as ->; [|done]. unfold swapped. rewrite list_insert_insert_eq. apply list_insert_id. by apply at_in.
  - case_bool_decide as Hpi.
    + rewrite swapped_comm. split; [split|]; [apply swap_links_swapped; (done || lia || idtac)|by apply swap_ends_swapped..|by apply swap_links_outside].
      intros E. pose proof (pidx_spec (length l) i). pose proof (pidx_spec (length l) j). lia.
    + split; [split|]; [apply swap_links_swapped; (done || congruence)|by apply swap_ends_swapped..|by apply swap_links_outside].
Qed.

(** ** The walks to the ends *)
Section walks.
Context (h : SchedulerHeap.t) (L : links) (l : list Z) (Hh : heap_links L l).
Abbreviation n := (length l).

Lemma nonzero_at i : negb (at_ l i =? 0) = bool_decide (i < n)%nat.
Proof.
  destruct Hh as [Hok _ _ _]. case_bool_decide as Hi.
  - rewrite negb_true_iff, Z.eqb_neq, at_zero by done. lia.
  - by rewrite at_out by lia.
Qed.

Lemma climb_right fuel i t : (i <= fuel)%nat -> (i < n)%nat -> ((i + 2) * 2 ^ t = n + 1)%nat -> exists i' t',
  climb fuel heap_rchild L (at_ l i) = Ok (at_ l i', at_ l (pidx n i')) /\ (i' < n)%nat /\ ((i' + 2) * 2 ^ t' = n + 1)%nat /\ (i' = 0 \/ i' = 2 * pidx n i' + 1)%nat.
Proof.
  pose proof Hh as [Hok Hp Hl Hr]. revert i t. induction fuel as [|fuel IH]; intros i t Hf Hi Ht; cbn [climb]; rewrite Hp, nonzero_at by done.
  all: pose proof (pidx_spec n i) as Hs; case_bool_decide as Hpi; cbn [andb]; [|exists i, t; split_and!; (done || lia)].
  - lia.
  - rewrite Hr, eqb_at' by done. case_bool_decide as Hc; [|exists i, t; split_and!; (done || lia)].
    apply (IH _ (S t)); [lia|done|]. rewrite Nat.pow_succ_r'. lia.
Qed.

Lemma climb_left fuel i t : (i <= fuel)%nat -> (i < n)%nat -> ((i + 1) * 2 ^ t = n)%nat -> exists i' t',
  climb fuel heap_lchild L (at_ l i) = Ok (at_ l i', at_ l (pidx n i')) /\ (i' < n)%nat /\ ((i' + 1) * 2 ^ t' = n)%nat /\ (i' = 0 \/ i' = 2 * pidx n i' + 2)%nat.
Proof.
  pose proof Hh as [Hok Hp Hl Hr]. revert i t. induction fuel as [|fuel IH]; intros i t Hf Hi Ht; cbn [climb]; rewrite Hp, nonzero_at by done.
  all: pose proof (pidx_spec n i) as Hs; case_bool_decide as Hpi; cbn [andb]; [|exists i, t; split_and!; (done || lia)].
  - lia.
  - rewrite Hl, eqb_at' by done. case_bool_decide as Hc; [|exists i, t; split_and!; (done || lia)].
    apply (IH _ (S t)); [lia|done|]. rewrite Nat.pow_succ_r'. lia.
Qed.

Lemma descend_left fuel t i : (t <= fuel)%nat -> ((i + 1) * 2 ^ S t = n + 1)%nat -> descend fuel heap_lchild L (at_ l i) = Ok (at_ l ((n - 1) / 2)).
Proof.
  pose proof Hh as [Hok Hp Hl Hr]. revert fuel i. induction t as [|t IH]; intros fuel i Hf Ht.
  - assert (n = 2 * i + 1)%nat as Hn by (cbn in Ht; lia). destruct fuel; cbn [descend]; rewrite Hl, nonzero_at, bool_decide_eq_false_2 by lia.
    all: rewrite Hn; replace (2 * i + 1 - 1)%nat with (i * 2)%nat by lia; by rewrite Nat.div_mul by done.
  - pose proof (Nat.pow_nonzero 2 t ltac:(done)). rewrite !Nat.pow_succ_r' in Ht. destruct fuel; [lia|]. cbn [descend].
    rewrite Hl by nia. rewrite nonzero_at, bool_decide_eq_true_2 by nia. apply IH; [lia|]. rewrite Nat.pow_succ_r'. lia.
Qed.

Lemma descend_right fuel t i : (t <= fuel)%nat -> ((i + 2) * 2 ^ t = n)%nat -> descend fuel heap_rchild L (at_ l i) = Ok (at_ l (n - 2)).
Proof.
  pose proof Hh as [Hok Hp Hl Hr]. revert fuel i. induction t as [|t IH]; intros fuel i Hf Ht.
  - assert (n = i + 2)%nat as Hn by (cbn in Ht; lia). destruct fuel; cbn [descend]; rewrite Hr, nonzero_at, bool_decide_eq_false_2 by lia; do 2 f_equal; lia.
  - pose proof (Nat.pow_nonzero 2 t ltac:(done)). rewrite Nat.pow_succ_r' in Ht. destruct fuel; [lia|]. cbn [descend].
    rewrite Hr by nia. rewrite nonzero_at, bool_decide_eq_true_2 by nia. apply IH; [lia|]. lia.
Qed.

Lemma pow_fuel a t : (a * 2 ^ t <= n + 1)%nat -> (0 < a)%nat -> (t <= n)%nat.
Proof. intros Ha Hpos. pose proof (Nat.pow_gt_lin_r 2 t ltac:(lia)). nia. Qed.

(** The next node goes below the entry at [(n - 1) / 2]. *)
Lemma next_parent_spec fuel : (0 < n)%nat -> (n <= fuel)%nat -> next_parent fuel L (at_ l (n - 1)) = Ok (at_ l ((n - 1) / 2)).
Proof.
  intros Hn Hf. pose proof Hh as [Hok Hp Hl Hr]. unfold next_parent.
  destruct (climb_right fuel (n - 1) 0) as (i & t & -> & Hi & Ht & Hstop); [lia|lia|cbn; lia|]. rewrite nonzero_at.
  pose proof (pow_fuel _ _ (Nat.eq_le_incl _ _ Ht) ltac:(lia)) as Htn. case_bool_decide as Hpi; cbn [andb].
  - destruct Hstop as [->|Hstop]; [cbn in Hpi; lia|]. rewrite Hr by done. pose proof (nonzero_at (2 * pidx n i + 2)) as Hnz.
    destruct (at_ l (2 * pidx n i + 2) =? 0); cbn [negb] in Hnz; symmetry in Hnz; [apply bool_decide_eq_false in Hnz|apply bool_decide_eq_true in Hnz].
    + assert (n = 2 * (pidx n i) + 2)%nat as Hn' by lia. do 2 f_equal. rewrite Hn' at 2. replace (2 * pidx n i + 2 - 1)%nat with (1 + pidx n i * 2)%nat by lia.
      by rewrite Nat.div_add by done.
    + destruct t as [|t]; [cbn in Ht; lia|]. apply (descend_left _ t); [lia|]. rewrite <- Ht. f_equal. lia.
  - destruct Hstop as [->|Hstop]; [|lia]. apply (descend_left _ t); [lia|]. rewrite Nat.pow_succ_r'. lia.
Qed.

Lemma previous_last_spec fuel : (1 < n)%nat -> (n <= fuel)%nat -> previous_last fuel L (at_ l (n - 1)) = Ok (at_ l (n - 2)).
Proof.
  intros Hn Hf. pose proof Hh as [Hok Hp Hl Hr]. unfold previous_last.
  destruct (climb_left fuel (n - 1) 0) as (i & t & -> & Hi & Ht & Hstop); [lia|lia|cbn; lia|]. rewrite nonzero_at.
  assert (t <= n)%nat as Htn by (apply (pow_fuel (i + 1)); lia). case_bool_decide as Hpi.
  - destruct Hstop as [->|Hstop]; [cbn in Hpi; lia|]. rewrite Hl by done. rewrite nonzero_at, bool_decide_eq_true_2 by lia.
    apply (descend_right _ t); [lia|]. etrans; [|exact Ht]. f_equal. lia.
  - destruct Hstop as [->|Hstop]; [|lia]. rewrite nonzero_at, bool_decide_eq_true_2 by lia. destruct t as [|t]; [cbn in Ht; lia|].
    apply (descend_right _ t); [lia|]. rewrite <- Ht, Nat.pow_succ_r'. lia.
Qed.
End walks.

(** ** Adding and removing the last node *)
Lemma nodes_ok_snoc l x : nodes_ok (l ++ [x]) <-> nodes_ok l /\ x <> 0 /\ x ∉ l.
Proof.
  unfold nodes_ok. rewrite list.NoDup_app, elem_of_app, list_elem_of_singleton. split.
  - intros [(Hnd & Hd & _) H0]. split_and!; [done|tauto|intros ->; tauto|]. intros Hx. apply (Hd x Hx). by apply list_elem_of_singleton.
  - intros ([Hnd H0] & Hx0 & Hxl). split_and!; [done| |apply NoDup_singleton|intros [?|?]; congruence]. intros y Hy ->%list_elem_of_singleton. done.
Qed.

Lemma at_snoc l x i : at_ (l ++ [x]) i = if decide (i = length l) then x else at_ l i.
Proof.
  case_decide; [subst i; rewrite at_app_r by lia; by rewrite Nat.sub_diag|].
  destruct (decide (i < length l)%nat); [by rewrite at_app_l|]. rewrite !at_out; [done|lia|rewrite length_app; cbn; lia].
Qed.

Lemma pidx_pos n n' i : (0 < i)%nat -> pidx n i = pidx n' i.
Proof. by destruct i; [lia|]. Qed.

Lemma pidx_at_snoc l x k : (k < length l)%nat -> at_ (l ++ [x]) (pidx (S (length l)) k) = at_ l (pidx (length l) k).
Proof.
  intros Hk. pose proof (pidx_spec (length l) k). rewrite at_snoc. destruct k as [|k]; cbn [pidx] in *; [by rewrite decide_False, !at_out by lia|by rewrite decide_False by lia].
Qed.

(** A node hung below the entry at [(n - 1) / 2]. *)
Definition hang (L : links) (parent node : Z) : links :=
  let L := if negb (heap_lchild L parent =? 0) then set_rchild L parent node else set_lchild L parent node in
  set_rchild (set_lchild (set_parent L node parent) node 0) node 0.

Lemma hang_spec L l x : heap_links L l -> (0 < length l)%nat -> x <> 0 -> x ∉ l -> heap_links (hang L (at_ l ((length l - 1) / 2)) x) (l ++ [x]).
Proof.
  intros Hh Hn Hx0 Hx. pose proof Hh as [Hok Hp Hl Hr]. pose proof (pidx_spec (length l) (length l)) as Hs.
  assert (pidx (length l) (length l) = (length l - 1) / 2)%nat as Hpe by (destruct (length l); [lia|cbn [pidx]; f_equal; lia]). rewrite <- Hpe in *. set (p := pidx (length l) (length l)) in *. clear Hpe.
  assert (Hok' : nodes_ok (l ++ [x])) by (by apply nodes_ok_snoc). assert (Hlen : length (l ++ [x]) = S (length l)) by (rewrite length_app; cbn; lia).
  assert (Hat : at_ (l ++ [x]) (length l) = x) by (rewrite at_snoc; by rewrite decide_True).
  assert (Hap : at_ (l ++ [x]) p = at_ l p) by (rewrite at_snoc; by rewrite decide_False by lia).
  unfold hang. rewrite Hl, (nonzero_at L l Hh) by lia.
  split; [done|..]; intros k Hk; rewrite Hlen in *; case_bool_decide; cbn [set_w0 set_w1 set_w2 w0 w1 w2];
    rewrite ?(insert_node _ (length l) x k), ?(insert_node _ p (at_ l p) k) by (done || lia).
  1,2: case_decide as Hkn; [subst k|rewrite at_snoc, decide_False, Hp by lia].
  1,3: rewrite <- Hap; f_equal; by apply pidx_pos.
  1,2: by rewrite pidx_at_snoc by lia.
  all: clearbody p; case_decide as Hkn; [subst k; rewrite at_out by lia; done|].
  all: rewrite (at_snoc l x k), (decide_False (P := k = length l)) by lia; rewrite at_snoc, ?Hl, ?Hr by lia; repeat case_decide; (lia || done).
Qed.

Lemma hang_outside L l p x : p ∈ l -> outside (x :: l) L (hang L p x).
Proof. intros Hp. assert (p ∈ x :: l) by (by right). assert (x ∈ x :: l) by (by left). unfold hang. outside_tac. Qed.

Lemma when_rchild p (b : links -> Z -> bool) v L : when p (fun p L => if b L p then set_rchild L p v else set_lchild L p v) L =
  mk_links (w0 L) (if b L p then w1 L else ins p v (w1 L)) (if b L p then ins p v (w2 L) else w2 L).
Proof. unfold when, ins, set_w1, set_w2. destruct (p =? 0), (b L p); destruct L; done. Qed.

Lemma unlink_spec L l x : heap_links L (l ++ [x]) -> heap_links (unlink L x) l /\ unlinked (unlink L x) x /\ outside (l ++ [x]) L (unlink L x).
Proof.
  intros Hh. pose proof Hh as [Hok Hp Hl Hr]. pose proof (proj1 (nodes_ok_snoc l x) Hok) as (Hok' & Hx0 & Hx).
  assert (Hlen : length (l ++ [x]) = S (length l)) by (rewrite length_app; cbn; lia). rewrite Hlen in *.
  assert (Hat : at_ (l ++ [x]) (length l) = x) by (rewrite at_snoc; by rewrite decide_True).
  pose proof (pidx_spec (S (length l)) (length l)) as Hs. pose proof (Hp (length l) ltac:(lia)) as Hpx. rewrite Hat in Hpx. set (p := pidx _ _) in *.
  assert (Hin : forall k, (k < length l)%nat -> at_ l k = at_ (l ++ [x]) k) by (intros k Hk; rewrite at_snoc; by rewrite decide_False by lia).
  assert (Hxr : (p < length l)%nat -> (x =? heap_rchild L (at_ (l ++ [x]) p)) = bool_decide (length l = 2 * p + 2)%nat).
  { intros Hpl. rewrite Hr by lia. pose proof (eqb_at' (l ++ [x]) (length l) (2 * p + 2) Hok ltac:(lia)) as He. by rewrite Hat in He. }
  unfold unlink. rewrite Hpx. split; [|split].
  - rewrite (when_rchild _ (fun L p => x =? heap_rchild L p)).
    split; [done|..]; intros k Hk; rewrite (Hin k Hk); cbn [set_w0 set_w1 set_w2 w0 w1 w2]; rewrite (insert_node _ (length l) x k), decide_False by (done || lia).
    + by rewrite Hp, pidx_at_snoc by lia.
    + rewrite Hxr by lia. case_bool_decide; rewrite ?ins_at, Hl, at_snoc by (done || lia); repeat case_decide; try lia; try done; by rewrite at_out by lia.
    + rewrite Hxr by lia. case_bool_decide; rewrite ?ins_at, Hr, at_snoc by (done || lia); repeat case_decide; try lia; try done; by rewrite at_out by lia.
  - split_and!; cbn; by rewrite fn_lookup_insert.
  - assert (x ∈ l ++ [x]) by (apply elem_of_app; right; by apply list_elem_of_singleton). outside_tac.
Qed.

(** ** Heap order *)
Section order.
Context (wake_time_ns : Z -> Z).
Abbreviation w := wake_time_ns.

(** No entry wakes before its parent. *)
Definition heap_order (l : list Z) : Prop := forall i, (0 < i < length l)%nat -> w (at_ l (pidx 0 i)) <= w (at_ l i).

(** The entry at [k] may wake before its parent. *)
Definition order_above (k : nat) (l : list Z) : Prop :=
  (forall i, (0 < i < length l)%nat -> i <> k -> w (at_ l (pidx 0 i)) <= w (at_ l i)) /\
  (forall i, (0 < i < length l)%nat -> (0 < k)%nat -> pidx 0 i = k -> w (at_ l (pidx 0 k)) <= w (at_ l i)).

(** The entry at [k] may wake after its children. *)
Definition order_below (k : nat) (l : list Z) : Prop :=
  (forall i, (0 < i < length l)%nat -> pidx 0 i <> k -> w (at_ l (pidx 0 i)) <= w (at_ l i)) /\
  (forall i, (0 < i < length l)%nat -> (0 < k)%nat -> pidx 0 i = k -> w (at_ l (pidx 0 k)) <= w (at_ l i)).

Lemma heap_order_root l i : heap_order l -> (i < length l)%nat -> w (at_ l 0) <= w (at_ l i).
Proof.
  intros Ho. induction i as [i IH] using (well_founded_induction lt_wf). intros Hi. destruct i as [|k]; [done|].
  pose proof (pidx_spec 0 (S k)). transitivity (w (at_ l (pidx 0 (S k)))); [apply IH; lia|apply Ho; lia].
Qed.

Lemma order_above_swap k l : order_above k l -> (0 < k < length l)%nat -> w (at_ l k) < w (at_ l (pidx 0 k)) -> order_above (pidx 0 k) (swapped k (pidx 0 k) l).
Proof.
  intros [H1 H2] Hk Hlt. pose proof (pidx_spec 0 k) as Hs. set (p := pidx 0 k) in *. split; intros i Hi; rewrite swapped_length in Hi; pose proof (pidx_spec 0 i) as Hsi.
  - intros Hip. rewrite !at_swapped by lia. destruct (decide (i = k)) as [->|Hik].
    + fold p. rewrite tr_l, tr_r. lia.
    + rewrite (tr_ne _ _ i) by done. unfold tr. repeat case_decide; [by apply H2; lia| |by apply H1].
      pose proof (H1 i Hi Hik) as Hle. replace (pidx 0 i) with p in Hle by done. lia.
  - intros Hp0 Hpi. rewrite !at_swapped by lia. pose proof (pidx_spec 0 p) as Hsp. rewrite (tr_ne _ _ (pidx 0 p)) by lia.
    assert (Hpp : w (at_ l (pidx 0 p)) <= w (at_ l p)) by (apply H1; lia).
    unfold tr. repeat case_decide; [done|lia|]. etrans; [exact Hpp|]. rewrite <- Hpi. by apply H1.
Qed.

Lemma order_above_done k l : order_above k l -> (k = 0%nat \/ w (at_ l (pidx 0 k)) <= w (at_ l k)) -> heap_order l.
Proof. intros [H1 _] Hk i Hi. destruct (decide (i = k)) as [->|]; [destruct Hk; [lia|done]|by apply H1]. Qed.

Lemma order_below_done k l : order_below k l -> (forall c, (c < length l)%nat -> (c = 2 * k + 1 \/ c = 2 * k + 2)%nat -> w (at_ l k) <= w (at_ l c)) -> heap_order l.
Proof.
  intros [H1 _] Hk i Hi. destruct (decide (pidx 0 i = k)) as [Hp|]; [|by apply H1]. pose proof (pidx_spec 0 i). rewrite Hp in *. apply Hk; lia.
Qed.

Lemma order_below_swap k c l : order_below k l -> (c < length l)%nat -> (c = 2 * k + 1 \/ c = 2 * k + 2)%nat -> w (at_ l c) <= w (at_ l k) ->
  (forall c', (c' < length l)%nat -> (c' = 2 * k + 1 \/ c' = 2 * k + 2)%nat -> w (at_ l c) <= w (at_ l c')) -> order_below c (swapped k c l).
Proof.
  intros [H1 H2] Hcl Hc Hlt Hmin. split; intros i Hi; rewrite swapped_length in Hi; pose proof (pidx_spec 0 i) as Hsi.
  - intros Hpc. rewrite !at_swapped by lia. destruct (decide (pidx 0 i = k)) as [Hpk|Hpk].
    + rewrite Hpk, tr_l. unfold tr. repeat case_decide; [lia|done|]. apply Hmin; lia.
    + rewrite (tr_ne _ _ (pidx 0 i)) by done. unfold tr. repeat case_decide; [|lia|by apply H1]. subst i. pose proof (pidx_spec 0 c). apply H2; lia.
  - intros Hc0 Hpi. assert (pidx 0 c = k) as -> by (pose proof (pidx_spec 0 c); lia). rewrite !at_swapped by lia. rewrite tr_l, (tr_ne _ _ i) by lia.
    rewrite <- Hpi. apply H1; [done|lia].
Qed.

(** ** Restoring the order *)
Lemma sift_up_spec fuel h L l k : heap_rep h L l -> (k < length l)%nat -> (k <= fuel)%nat -> order_above k l ->
  exists h' L' l', sift_up fuel w h L (at_ l k) = Ok (h', L') /\ heap_rep h' L' l' /\ l' ≡ₚ l /\ heap_order l' /\ outside l L L'.
Proof.
  revert h L l k. induction fuel as [|fuel IH]; intros h L l k Hrep Hk Hf Ho; pose proof Hrep as [Hh _ _]; pose proof Hh as [Hok Hp _ _]; cbn [sift_up].
  all: rewrite Hp, (nonzero_at L l Hh) by done; pose proof (pidx_spec (length l) k) as Hs.
  all: case_bool_decide as Hpk; cbn [andb]; [|exists h, L, l; split_and!; try done; apply (order_above_done k); [done|left; lia]].
  - lia.
  - assert (pidx (length l) k = pidx 0 k) as Hpe by (apply pidx_pos; lia). rewrite Hpe in *. destruct (Z.ltb_spec (w (at_ l k)) (w (at_ l (pidx 0 k)))) as [Hlt|Hge].
    + pose proof (swap_nodes_spec h L l k (pidx 0 k) Hrep Hk Hpk) as Hswap. destruct (swap_nodes h L _ _) as [h1 L1]. destruct Hswap as [Hrep1 Ho1].
      destruct (IH h1 L1 (swapped k (pidx 0 k) l) (pidx 0 k)) as (h' & L' & l' & Hrun & Hrep' & Hperm & Hord & Hout); [done|rewrite swapped_length; lia|lia|apply order_above_swap; [done|lia|done]|].
      rewrite at_swapped, tr_r in Hrun by done. pose proof (swapped_perm k (pidx 0 k) l Hk Hpk) as Hsp.
      exists h', L', l'. split_and!; [done|done|by etrans|done|]. eapply outside_trans; [done|]. eapply outside_sub; [|done]. intros y. by rewrite Hsp.
    + exists h, L, l. split_and!; try done. apply (order_above_done k); [done|by right].
Qed.

(** The child [sift_down] goes to: the one that wakes first. *)
Lemma sift_down_step L l k : heap_links L l -> (k < length l)%nat -> order_below k l ->
  let node := at_ l k in
  let lc := heap_lchild L node in
  let rc := heap_rchild L node in
  let l_ok := (lc =? 0) || (w node <=? w lc) in
  let r_ok := (rc =? 0) || (w node <=? w rc) in
  if l_ok && r_ok then heap_order l
  else exists c, (if negb l_ok && negb r_ok then if w lc <? w rc then lc else rc else if r_ok then lc else rc) = at_ l c /\
    (c < length l)%nat /\ (c = 2 * k + 1 \/ c = 2 * k + 2)%nat /\ w (at_ l c) <= w (at_ l k) /\
    (forall c', (c' < length l)%nat -> (c' = 2 * k + 1 \/ c' = 2 * k + 2)%nat -> w (at_ l c) <= w (at_ l c')).
Proof.
  intros Hh Hk Ho. cbv zeta. pose proof Hh as [Hok _ Hl Hr]. rewrite Hl, Hr by done.
  assert (Hz : forall i, (at_ l i =? 0) = bool_decide (length l <= i)%nat).
  { intros i. pose proof (nonzero_at L l Hh i) as Hnz. apply (f_equal negb) in Hnz. rewrite negb_involutive in Hnz. rewrite Hnz, <- bool_decide_not. apply bool_decide_ext. lia. }
  rewrite !Hz.
  repeat case_bool_decide; cbn [orb andb negb].
  all: repeat match goal with |- context [Z.leb ?a ?b] => destruct (Z.leb_spec a b); cbn [orb andb negb] | |- context [Z.ltb ?a ?b] => destruct (Z.ltb_spec a b) end.
  all: try (apply (order_below_done k); [done|]; intros c Hcl [->| ->]; lia).
  all: first [exists (2 * k + 1)%nat; split_and!; [done|lia|lia|lia|intros c' Hcl [->| ->]; lia]|exists (2 * k + 2)%nat; split_and!; [done|lia|lia|lia|intros c' Hcl [->| ->]; lia]].
Qed.

Lemma sift_down_spec fuel h L l k : heap_rep h L l -> (k < length l)%nat -> (length l - k <= fuel)%nat -> order_below k l ->
  exists h' L' l', sift_down fuel w h L (at_ l k) = Ok (h', L') /\ heap_rep h' L' l' /\ l' ≡ₚ l /\ heap_order l' /\ outside l L L'.
Proof.
  revert h L l k. induction fuel as [|fuel IH]; intros h L l k Hrep Hk Hf Ho; [lia|]; pose proof Hrep as [Hh _ _]; cbn [sift_down].
  pose proof (sift_down_step L l k Hh Hk Ho) as Hstep. cbv zeta in Hstep. destruct (_ && _); [by exists h, L, l|].
  destruct Hstep as (c & -> & Hcl & Hc & Hle & Hmin). pose proof (swap_nodes_spec h L l k c Hrep Hk Hcl) as Hswap.
  destruct (swap_nodes h L _ _) as [h1 L1]. destruct Hswap as [Hrep1 Ho1].
  destruct (IH h1 L1 (swapped k c l) c) as (h' & L' & l' & Hrun & Hrep' & Hperm & Hord & Hout); [done|rewrite swapped_length; lia|rewrite swapped_length; lia|by apply order_below_swap|].
  rewrite at_swapped, tr_r in Hrun by done. pose proof (swapped_perm k c l Hk Hcl) as Hsp.
  exists h', L', l'. split_and!; [done|done|by etrans|done|]. eapply outside_trans; [done|]. eapply outside_sub; [|done]. intros y. by rewrite Hsp.
Qed.

(** ** The operations *)
Lemma heap_order_links l l' : (forall i, (i < length l')%nat -> at_ l' i = at_ l i) -> (length l' <= length l)%nat -> heap_order l -> heap_order l'.
Proof. intros Hat Hlen Ho i Hi. pose proof (pidx_spec 0 i). rewrite !Hat by lia. apply Ho. lia. Qed.

Lemma snoc_order_above l x : heap_order l -> order_above (length l) (l ++ [x]).
Proof.
  intros Ho. split; intros i Hi; rewrite length_app in Hi; cbn in Hi; pose proof (pidx_spec 0 i).
  - intros Hne. rewrite !at_app_l by lia. apply Ho. lia.
  - lia.
Qed.

Lemma heap_push fuel h L l p : heap_rep h L l -> heap_order l -> p <> 0 -> p ∉ l -> unlinked L p -> (length l <= fuel)%nat ->
  exists h' L' l', push fuel w h L p = Ok (h', L') /\ heap_rep h' L' l' /\ l' ≡ₚ p :: l /\ heap_order l' /\ outside (p :: l) L L'.
Proof.
  intros Hrep Ho Hp0 Hpl (E0 & E1 & E2) Hf. pose proof Hrep as [Hh Hr Hl]. pose proof Hh as [Hok _ _ _]. unfold push. rewrite E0, E1, E2. cbn [Z.eqb].
  rewrite Hr. destruct l as [|x0 l0] eqn:El.
  - cbn [at_ lookup list_lookup default Z.eqb]. eexists _, _, [p]. split; [done|]. split; [|split; [done|split; [intros i Hi; cbn in Hi; lia|]]].
    + split; [split|done|done]; [split; [apply NoDup_singleton|by intros ?%list_elem_of_singleton]|..]; intros [|i] Hi; cbn in *; try lia; by rewrite fn_lookup_insert.
    + assert (p ∈ [p]) by (by apply list_elem_of_singleton). outside_tac.
  - rewrite <- El in *. assert (Hpos : (0 < length l)%nat) by (subst l; cbn; lia). clear El.
    pose proof (nonzero_at L l Hh 0) as Hnz. rewrite bool_decide_eq_true_2 in Hnz by done. apply negb_true_iff in Hnz. rewrite Hnz.
    rewrite Hl, (next_parent_spec L l Hh) by done. set (q := at_ l ((length l - 1) / 2)). fold (hang L q p).
    assert (Hq : q ∈ l) by (apply at_elem; pose proof (Nat.Div0.div_le_upper_bound (length l - 1) 2 (length l - 1)); lia).
    assert (Hrep' : heap_rep (mk (at_ l 0) p) (hang L q p) (l ++ [p])).
    { split; [by apply hang_spec|by rewrite at_app_l|]. cbn. rewrite length_app, at_snoc. cbn. by rewrite decide_True by lia. }
    destruct (sift_up_spec fuel _ _ _ (length l) Hrep') as (h' & L' & l' & Hrun & Hrep2 & Hperm & Hord & Hout); [rewrite length_app; cbn; lia|lia|by apply snoc_order_above|].
    rewrite at_snoc, decide_True in Hrun by done. exists h', L', l'. split_and!; [done|done|rewrite Hperm; by rewrite Permutation_app_comm|done|].
    eapply outside_trans; [by apply (hang_outside L l)|]. eapply outside_sub; [|done]. intros y. rewrite elem_of_app, list_elem_of_singleton, elem_of_cons. tauto.
Qed.

Section replaced.
Context (l l2 : list Z) (k : nat).
Context (Ho : heap_order l) (Hk : (k < length l2)%nat) (Hlen : length l = S (length l2)).
Context (Hat : forall i, (i < length l2)%nat -> i <> k -> at_ l2 i = at_ l i).

Lemma replaced_above : w (at_ l2 k) <= w (at_ l k) -> order_above k l2.
Proof.
  intros Hle. split; intros i Hi; pose proof (pidx_spec 0 i); pose proof (pidx_spec 0 k).
  - intros Hik. rewrite (Hat i) by lia. pose proof (Ho i ltac:(lia)). destruct (decide (pidx 0 i = k)) as [Hp|Hp]; [rewrite Hp in *; lia|]. by rewrite Hat by lia.
  - intros Hk0 Hp. rewrite !Hat by lia. transitivity (w (at_ l k)); [apply Ho; lia|]. rewrite <- Hp. apply Ho. lia.
Qed.

Lemma replaced_below : w (at_ l k) <= w (at_ l2 k) -> order_below k l2.
Proof.
  intros Hle. split; intros i Hi; pose proof (pidx_spec 0 i); pose proof (pidx_spec 0 k).
  - intros Hik. rewrite (Hat (pidx 0 i)) by lia. pose proof (Ho i ltac:(lia)). destruct (decide (i = k)) as [->|Hp]; [lia|]. by rewrite Hat by lia.
  - intros Hk0 Hp. rewrite !Hat by lia. transitivity (w (at_ l k)); [apply Ho; lia|]. rewrite <- Hp. apply Ho. lia.
Qed.

Lemma replaced_same : w (at_ l2 k) = w (at_ l k) -> heap_order l2.
Proof.
  intros He. apply (order_above_done k); [apply replaced_above; lia|]. pose proof (pidx_spec 0 k). destruct (decide (k = 0)%nat) as [->|]; [by left|right].
  rewrite He, Hat by lia. apply Ho. lia.
Qed.
End replaced.

(** The last node removed after it has changed places with the one at [k]. *)
Lemma swap_last_split l k : (k < length l)%nat -> exists l2, swapped k (length l - 1) l = l2 ++ [at_ l k] /\ length l = S (length l2) /\
  (forall i, (i < length l2)%nat -> at_ l2 i = at_ l (if decide (i = k) then length l - 1 else i)).
Proof.
  intros Hk. set (l1 := swapped k (length l - 1) l). assert (Hl1 : length l1 = length l) by apply swapped_length.
  exists (take (length l - 1) l1). rewrite length_take. split; [|split; [lia|]].
  - rewrite <- (take_drop (length l - 1) l1) at 1. f_equal. rewrite (drop_S _ (at_ l1 (length l - 1))) by (apply at_in; lia). rewrite drop_ge by lia.
    unfold l1. rewrite at_swapped by lia. by rewrite tr_r.
  - intros i Hi. unfold at_ at 1. rewrite lookup_take_lt by lia. fold (at_ l1 i). unfold l1. rewrite at_swapped by lia. f_equal. unfold tr. repeat case_decide; lia.
Qed.

Lemma pop_fix fuel h L l l2 k : heap_rep h L l2 -> heap_order l -> (k < length l)%nat -> length l = S (length l2) ->
  (forall i, (i < length l2)%nat -> at_ l2 i = at_ l (if decide (i = k) then length l - 1 else i)) -> (length l <= fuel)%nat ->
  let fix_node := at_ l (length l - 1) in
  exists h' L' l', (if w fix_node =? w (at_ l k) then Ok (h, L) else if w fix_node <? w (at_ l k) then sift_up fuel w h L fix_node else sift_down fuel w h L fix_node) = Ok (h', L') /\
    heap_rep h' L' l' /\ l' ≡ₚ l2 /\ heap_order l' /\ outside l2 L L'.
Proof.
  intros Hrep Ho Hk Hlen Hat Hf. cbv zeta. destruct (decide (k = length l2)) as [->|Hne].
  - rewrite Hlen. replace (S (length l2) - 1)%nat with (length l2) by lia. rewrite Z.eqb_refl. exists h, L, l2. split_and!; try done.
    apply (heap_order_links l); [|lia|done]. intros i Hi. rewrite Hat by done. by rewrite decide_False by lia.
  - assert (Hk2 : (k < length l2)%nat) by lia. assert (Hfix : at_ l (length l - 1) = at_ l2 k) by (rewrite Hat by done; by rewrite decide_True). rewrite Hfix.
    assert (Hat' : forall i, (i < length l2)%nat -> i <> k -> at_ l2 i = at_ l i) by (intros i Hi Hik; rewrite Hat by done; by rewrite decide_False).
    destruct (Z.eqb_spec (w (at_ l2 k)) (w (at_ l k))) as [He|He]; [exists h, L, l2; split_and!; try done; by apply (replaced_same l l2 k)|].
    destruct (Z.ltb_spec (w (at_ l2 k)) (w (at_ l k))).
    + apply sift_up_spec; [done|done|lia|]. apply (replaced_above l); (done || lia).
    + apply sift_down_spec; [done|done|lia|]. apply (replaced_below l); (done || lia).
Qed.

Lemma heap_pop fuel h L l p : heap_rep h L l -> heap_order l -> p ∈ l -> (length l <= fuel)%nat ->
  exists h' L' l', pop fuel w h L p = Ok (h', L') /\ heap_rep h' L' l' /\ p :: l' ≡ₚ l /\ heap_order l' /\ unlinked L' p /\ outside l L L'.
Proof.
  intros Hrep Ho Hp Hf. pose proof Hrep as [Hh Hr Hl]. pose proof Hh as [Hok _ _ _]. apply list_elem_of_lookup in Hp as [k Hk].
  pose proof (lookup_lt_Some _ _ _ Hk) as Hkl. apply at_some in Hk. subst p. unfold pop. rewrite Hr, Hl, eqb_at by (done || lia). case_bool_decide as Hone.
  - destruct l as [|x [|y l]]; cbn in Hkl, Hone; try lia. destruct k; [|lia]. cbn. eexists _, _, []. split; [done|]. split_and!; [split; [split|done|done]|done|..]; cbn.
    1: { split; [apply NoDup_nil_2|by intros ?%elem_of_nil]. }
    1-3: intros i Hi; cbn in Hi; lia.
    1: { intros i Hi; cbn in Hi; lia. }
    1: { split_and!; cbn; by rewrite fn_lookup_insert. }
    assert (x ∈ [x]) by (by apply list_elem_of_singleton). outside_tac.
  - pose proof (swap_nodes_spec h L l k (length l - 1) Hrep Hkl ltac:(lia)) as Hswap. destruct (swap_nodes h L _ _) as [h1 L1]. destruct Hswap as [[Hh1 Hr1 Hl1] Ho1].
    destruct (swap_last_split l k Hkl) as (l2 & Hs & Hlen & Hat2). pose proof (swapped_perm k (length l - 1) l Hkl ltac:(lia)) as Hperm1. rewrite Hs in *.
    rewrite Hl1. rewrite (previous_last_spec L1 (l2 ++ [at_ l k]) Hh1) by (rewrite length_app; cbn; lia).
    destruct (unlink_spec L1 l2 (at_ l k) Hh1) as (Hh2 & Hun & Hout2).
    assert (Hlast : at_ (l2 ++ [at_ l k]) (length (l2 ++ [at_ l k]) - 2) = at_ l2 (length l2 - 1)) by (rewrite at_app_l by (rewrite length_app; cbn; lia); f_equal; rewrite length_app; cbn; lia).
    assert (Hrep2 : heap_rep (mk (m_root h1) (at_ l2 (length l2 - 1))) (unlink L1 (at_ l k)) l2) by (split; [done|cbn; rewrite Hr1; by rewrite at_app_l by lia|done]).
    rewrite Hlast. assert (Hout : outside l L (unlink L1 (at_ l k))) by (eapply outside_trans; [done|]; eapply outside_sub; [|done]; intros y; by rewrite Hperm1).
    destruct (pop_fix fuel _ _ l l2 k Hrep2 Ho Hkl Hlen Hat2 Hf) as (h' & L' & l' & Hrun & Hrep' & Hperm & Hord & Hout').
    exists h', L', l'. split_and!; [done|done|rewrite Hperm; etrans; [apply Permutation_cons_append|exact Hperm1]|done| |].
    + pose proof (proj1 (nodes_ok_snoc l2 (at_ l k)) (nodes_ok_perm _ _ (symmetry Hperm1) Hok)) as (_ & _ & Hnotin).
      destruct (Hout' _ Hnotin) as (E0 & E1 & E2). destruct Hun as (U0 & U1 & U2). split_and!; congruence.
    + eapply outside_trans; [done|]. eapply outside_sub; [|done]. intros y Hy. rewrite <- Hperm1. apply elem_of_app. by left.
Qed.

Lemma heap_pop_front fuel h L l : heap_rep h L l -> heap_order l -> l <> [] -> (length l <= fuel)%nat ->
  exists p h' L' l', pop_front fuel w h L = Ok (p, h', L') /\ p = at_ l 0 /\ heap_rep h' L' l' /\ p :: l' ≡ₚ l /\ heap_order l' /\ unlinked L' p /\ outside l L L'.
Proof.
  intros Hrep Ho Hne Hf. pose proof Hrep as [Hh Hr _]. assert (Hpos : (0 < length l)%nat) by (destruct l; [done|cbn; lia]). unfold pop_front, empty.
  pose proof (nonzero_at L l Hh 0) as Hnz. rewrite bool_decide_eq_true_2 in Hnz by done. apply negb_true_iff in Hnz. rewrite Hr, Hnz.
  destruct (heap_pop fuel h L l (at_ l 0) Hrep Ho (at_elem l 0 Hpos) Hf) as (h' & L' & l' & -> & H'). by exists (at_ l 0), h', L', l'.
Qed.

Lemma heap_empty h L l : heap_rep h L l -> empty h = bool_decide (l = []).
Proof.
  intros [Hh Hr _]. unfold empty. rewrite Hr. pose proof (nonzero_at L l Hh 0) as Hnz. destruct l as [|x l]; [done|].
  rewrite (bool_decide_eq_true_2 (0 < _)%nat) in Hnz by (cbn; lia). apply negb_true_iff in Hnz. rewrite Hnz. by rewrite bool_decide_eq_false_2.
Qed.
End order.
