(* ===== verification/SchedulerHeapWalk.v ===== *)
(** * The sleeping threads as a priority queue

    The walk over the heap visits every node once, so that the heap's contents
    can be read from the links; with it, the operations are those of a priority
    queue of threads. *)
From stdpp Require Import functions.
From S2P Require Import Prelude SchedulerNode SchedulerHeapNode SchedulerNodeCorrect SchedulerHeapLinks SchedulerHeapCorrect.

(** ** Walking over the heap *)
Inductive below (i : nat) : nat -> Prop :=
| below_refl : below i i
| below_child j : (0 < j)%nat -> below i (pidx 0 j) -> below i j.

Lemma below_root j : below 0 j.
Proof.
  induction j as [j IH] using lt_wf_ind. destruct (decide (j = 0)%nat) as [->|Hj]; [constructor|]. pose proof (pidx_spec 0 j). apply below_child; [lia|]. apply IH. lia.
Qed.

Lemma below_cases i j : below i j -> j = i \/ below (2 * i + 1) j \/ below (2 * i + 2) j.
Proof.
  intros Hb. induction Hb as [|j Hj Hb IH]; [by left|]. right. pose proof (pidx_spec 0 j) as Hs. destruct IH as [E|[IH|IH]].
  - rewrite E in Hs. destruct Hs as [?|[-> | ->]]; [lia|left; constructor|right; constructor].
  - left. by apply below_child.
  - right. by apply below_child.
Qed.

Lemma below_le i j : below i j -> (i <= j)%nat.
Proof. intros Hb. induction Hb as [|j Hj _ IH]; [done|]. pose proof (pidx_spec 0 j). lia. Qed.

Lemma below_apart i j : below (2 * i + 1) j -> ~ below (2 * i + 2) j.
Proof.
  intros H1. induction H1 as [|j Hj H1 IH]; [intros H%below_le; lia|]. intros H2. inversion H2 as [E|j' Hj' H2' E]; subst; [|by apply IH].
  apply below_le in H1. pose proof (pidx_spec 0 (2 * i + 2)). lia.
Qed.

Lemma below_parent i k j : (0 < k)%nat -> pidx 0 k = i -> below k j -> below i j.
Proof. intros Hk E Hb. induction Hb as [|j Hj _ IH]; apply below_child; [done|rewrite E; constructor|done|done]. Qed.

Lemma heap_walk_below L l : heap_links L l -> forall fuel i, (length l - i <= fuel)%nat ->
  exists ns, SchedulerHeap.walk fuel L (at_ l i) = Ok ns /\ NoDup ns /\ (forall x, x ∈ ns <-> exists j, (j < length l)%nat /\ below i j /\ at_ l j = x).
Proof.
  intros Hh. pose proof Hh as [Hok _ Hl Hr]. intros fuel. induction fuel as [|fuel IH]; intros i Hf; cbn [SchedulerHeap.walk]; pose proof (nonzero_at L l Hh i) as Hnz.
  all: case_bool_decide as Hi; destruct (Z.eqb_spec (at_ l i) 0) as [Hz|Hz]; try done; try lia.
  1,3: exists []; split_and!; [done|constructor|]; intros x; split; [intros ?%elem_of_nil; done|intros (j & Hj & Hb%below_le & _); lia].
  rewrite Hl, Hr by done. destruct (IH (2 * i + 1)%nat) as (ls & -> & L1 & L2); [lia|]. destruct (IH (2 * i + 2)%nat) as (rs & -> & R1 & R2); [lia|].
  exists (at_ l i :: ls ++ rs). split; [done|]. split.
  - apply list.NoDup_cons. split; [|apply list.NoDup_app; split_and!; [done| |done]].
    + rewrite elem_of_app, L2, R2. intros [(j & Hj & Hb%below_le & E)|(j & Hj & Hb%below_le & E)]; apply (at_eq l j i Hok Hi) in E; lia.
    + intros x (j & Hj & Hb & <-)%L2 (k & Hk & Hb' & E)%R2. apply (at_eq l k j Hok Hj) in E. subst k. by eapply below_apart.
  - intros x. rewrite elem_of_cons, elem_of_app, L2, R2. split.
    + assert (Hp : pidx 0 (2 * i + 1) = i /\ pidx 0 (2 * i + 2) = i) by (pose proof (pidx_spec 0 (2 * i + 1)); pose proof (pidx_spec 0 (2 * i + 2)); lia).
      intros [->|[(j & Hj & Hb & <-)|(j & Hj & Hb & <-)]]; [exists i|exists j|exists j]; split_and!; try done; [constructor|..]; (eapply below_parent; [| |exact Hb]); [lia|apply Hp|lia|apply Hp].
    + intros (j & Hj & Hb & <-). destruct (below_cases i j Hb) as [->|[H|H]]; [by left|right; left; by exists j|right; right; by exists j].
Qed.

(** The walk over the whole heap visits every node once. *)
Lemma heap_walk h L l fuel : heap_rep h L l -> (length l <= fuel)%nat -> exists ns, SchedulerHeap.walk fuel L (SchedulerHeap.m_root h) = Ok ns /\ ns ≡ₚ l.
Proof.
  intros Hh Hf. destruct (heap_walk_below L l (hr_links _ _ _ Hh) fuel 0%nat) as (ns & Hw & Hnd & Hin); [lia|]. exists ns. rewrite (hr_root _ _ _ Hh). split; [done|].
  apply NoDup_Permutation; [done|apply (hl_nodes _ _ (hr_links _ _ _ Hh))|]. intros x. rewrite Hin. split.
  - intros (j & Hj & _ & <-). by apply at_elem.
  - intros [j Hj]%list_elem_of_lookup. exists j. split_and!; [by eapply lookup_lt_Some|apply below_root|by apply at_some].
Qed.

(** ** The laws *)
Section laws.
Context (fuel : nat) (wake : Z -> Z).

(** The contents, read from the links. *)
Definition heap_nodes (h : SchedulerHeap.t) (L : links) : list Z :=
  match SchedulerHeap.walk fuel L (SchedulerHeap.m_root h) with Ok l => l | _ => [] end.

(** A heap of at most [fuel] nodes; the other nodes are not linked. *)
Definition heap_wf (h : SchedulerHeap.t) (L : links) : Prop :=
  exists l, heap_rep h L l /\ heap_order wake l /\ (forall x, x ∉ l -> unlinked L x) /\ (length l <= fuel)%nat.

Lemma heap_nodes_view h L l : heap_rep h L l -> (length l <= fuel)%nat -> heap_nodes h L ≡ₚ l.
Proof. intros Hh Hf. unfold heap_nodes. by destruct (heap_walk h L l fuel Hh Hf) as (ns & -> & Hp). Qed.

Lemma unlinked_after L L' l l' p : (forall x, x ∉ l -> unlinked L x) -> outside l L L' -> unlinked L' p -> p :: l' ≡ₚ l -> forall x, x ∉ l' -> unlinked L' x.
Proof.
  intros Hun Hout Hp Hperm x Hx. destruct (decide (x = p)) as [->|Hne]; [done|]. assert (Hxl : x ∉ l) by (rewrite <- Hperm, elem_of_cons; tauto).
  destruct (Hun x Hxl) as (H0 & H1 & H2), (Hout x Hxl) as (E0 & E1 & E2). unfold unlinked. by rewrite E0, E1, E2.
Qed.

(** C26: The heap of sleeping threads is a priority queue: [front] is the thread that
    wakes first, [push] adds a thread, [pop] takes any thread out and [pop_front]
    the first, and the removed thread can be added to another structure. *)
Theorem sleep_heap_laws h L : heap_wf h L ->
  (forall x, x ∈ heap_nodes h L -> wake (SchedulerHeap.front h) <= wake x) /\
  (SchedulerHeap.empty h = true <-> heap_nodes h L = []) /\
  (forall p, p <> 0 -> p ∉ heap_nodes h L -> (length (heap_nodes h L) < fuel)%nat ->
    exists h' L', SchedulerHeap.push fuel wake h L p = Ok (h', L') /\ heap_wf h' L' /\ heap_nodes h' L' ≡ₚ p :: heap_nodes h L) /\
  (forall p, p ∈ heap_nodes h L ->
    exists h' L', SchedulerHeap.pop fuel wake h L p = Ok (h', L') /\ heap_wf h' L' /\ p :: heap_nodes h' L' ≡ₚ heap_nodes h L /\ unlinked L' p) /\
  (heap_nodes h L <> [] ->
    exists h' L', SchedulerHeap.pop_front fuel wake h L = Ok (SchedulerHeap.front h, h', L') /\ heap_wf h' L' /\ SchedulerHeap.front h :: heap_nodes h' L' ≡ₚ heap_nodes h L /\ unlinked L' (SchedulerHeap.front h)).
Proof.
  intros (l & Hh & Ho & Hun & Hlen). pose proof (heap_nodes_view h L l Hh Hlen) as Hp. assert (Hnil : heap_nodes h L = [] <-> l = []) by (split; intros E; rewrite E in Hp; [symmetry in Hp|]; by apply Permutation_nil_r in Hp).
  assert (Hfront : SchedulerHeap.front h = at_ l 0) by apply (hr_root _ _ _ Hh).
  assert (Hwf : forall p h' L' l', heap_rep h' L' l' -> heap_order wake l' -> p :: l' ≡ₚ l -> unlinked L' p -> outside l L L' -> heap_wf h' L' /\ p :: heap_nodes h' L' ≡ₚ heap_nodes h L /\ unlinked L' p).
  { intros p h' L' l' Hh' Ho' Hl' Hu Hout. assert ((length l' <= fuel)%nat) by (apply Permutation_length in Hl'; cbn in Hl'; lia).
    split_and!; [exists l'; split_and!; try done; by eapply unlinked_after|by rewrite Hp, heap_nodes_view|done]. }
  split_and!.
  - intros x Hx. rewrite Hp in Hx. rewrite Hfront. apply list_elem_of_lookup in Hx as [i Hi]. rewrite <- (at_some _ _ _ Hi). apply heap_order_root; [done|by eapply lookup_lt_Some].
  - rewrite (heap_empty h L l Hh), Hnil. by rewrite bool_decide_eq_true.
  - intros p Hp0 Hpn Hf. rewrite Hp in Hpn, Hf. destruct (heap_push wake fuel h L l p Hh Ho Hp0 Hpn (Hun p Hpn) Hlen) as (h' & L' & l' & E & Hh' & Hl' & Ho' & Hout).
    assert ((length l' <= fuel)%nat) by (rewrite Hl'; cbn; lia). exists h', L'. split_and!; [done| |by rewrite (heap_nodes_view h' L' l'), Hl', Hp]. exists l'. split_and!; try done. intros x Hx. rewrite Hl' in Hx.
    assert (Hxl : x ∉ l) by (intros Hxx; apply Hx; by right). destruct (Hun x Hxl) as (H0 & H1 & H2), (Hout x Hx) as (E0 & E1 & E2). unfold unlinked. by rewrite E0, E1, E2.
  - intros p Hin. rewrite Hp in Hin. destruct (heap_pop wake fuel h L l p Hh Ho Hin Hlen) as (h' & L' & l' & E & Hh' & Hl' & Ho' & Hu & Hout). exists h', L'. split; [done|]. by apply (Hwf p h' L' l').
  - intros Hne. destruct (heap_pop_front wake fuel h L l Hh Ho) as (p & h' & L' & l' & E & Hpl & Hh' & Hl' & Ho' & Hu & Hout); [by rewrite <- Hnil|done|]. rewrite Hfront, <- Hpl. exists h', L'. split; [done|]. by apply (Hwf p h' L' l').
Qed.
End laws.

(** ** A heap of two threads *)
Definition two_links : links := mk_links (fun x => if x =? 6 then 5 else 0) (fun x => if x =? 5 then 6 else 0) (fun _ => 0).
Definition two_heap : SchedulerHeap.t := SchedulerHeap.mk 5 6.

Lemma two_heap_wf : heap_wf 10 (fun x => 10 * x) two_heap two_links.
Proof.
  exists [5; 6]. split_and!; [| | |cbn; lia].
  - split; [|done|done]. split; [split; [repeat (apply list.NoDup_cons; split; [rewrite ?elem_of_cons, elem_of_nil; lia|]); by apply list.NoDup_nil|rewrite !elem_of_cons, elem_of_nil; lia]|..];
      intros [|[|i]] Hi; cbn in Hi; done || lia.
  - intros [|[|i]] Hi; cbn in Hi; try lia. done.
  - intros x Hx. rewrite !elem_of_cons, elem_of_nil in Hx. unfold unlinked. cbn. destruct (Z.eqb_spec x 6), (Z.eqb_spec x 5); split_and!; (done || lia).
Qed.

Lemma sleep_heap_laws_witness : exists h' L', SchedulerHeap.pop_front 10 (fun x => 10 * x) two_heap two_links = Ok (5, h', L') /\ 5 :: heap_nodes 10 h' L' ≡ₚ [5; 6].
Proof.
  destruct (sleep_heap_laws 10 (fun x => 10 * x) two_heap two_links two_heap_wf) as (_ & _ & _ & _ & Hf). destruct Hf as (h' & L' & E & _ & Hp & _); [done|]. by exists h', L'.
Defined.
