(* ===== verification/Scheduler.v ===== *)
(** * kernel/Scheduler and kernel/ThreadBlocker

    Every processor has a scheduler with a queue of runnable threads and a heap
    of sleeping ones; threads that wait for a condition are also in the chain of
    a blocker.  A thread and its scheduler node are one integer, 0 is [nullptr].
    The operations run with interrupts disabled and each is one step of its
    processor; threads are handed to other processors in messages, which are
    handled later.  A register file, a page table and a stack are numbers that
    are saved, loaded and restored.  [ns_since_boot] gives the readings of the
    clock in order.  Not here: the tracing under [DEBUG_SCHEDULER], the contents
    of the SSE state, and the load statistics that are only reported. *)
From stdpp Require Import functions.
From S2P Require Import Prelude BanMath BanSort SchedulerNode SchedulerHeapNode.

(** ** State *)
Inductive State : Type := NotStarted | Executing | Terminated.

#[export] Instance State_eq_dec : EqDecision State.
Proof. solve_decision. Defined.

Record thread : Type := mk_thread {
  m_state : State;
  m_yield_registers : Z;
  m_cpu_time_start_ns : Z;
  m_cpu_time_user_ns : Z;
  m_cpu_time_system_ns : Z;
  m_is_in_syscall : bool;
  m_tid : Z;
  m_page_table : Z;
  m_is_userspace : bool;
  m_kernel_stack_top : Z
}.

Definition with_state (s : State) (t : thread) : thread :=
  mk_thread s (m_yield_registers t) (m_cpu_time_start_ns t) (m_cpu_time_user_ns t) (m_cpu_time_system_ns t) (m_is_in_syscall t) (m_tid t) (m_page_table t) (m_is_userspace t) (m_kernel_stack_top t).
Definition with_registers (r : Z) (t : thread) : thread :=
  mk_thread (m_state t) r (m_cpu_time_start_ns t) (m_cpu_time_user_ns t) (m_cpu_time_system_ns t) (m_is_in_syscall t) (m_tid t) (m_page_table t) (m_is_userspace t) (m_kernel_stack_top t).
Definition with_cpu_time (start user system : Z) (t : thread) : thread :=
  mk_thread (m_state t) (m_yield_registers t) start user system (m_is_in_syscall t) (m_tid t) (m_page_table t) (m_is_userspace t) (m_kernel_stack_top t).

(** The links to other nodes of the queue and the heap are in [links]. *)
Record node : Type := mk_node {
  wake_time_ns : Z;
  blocker : Z;
  block_chain_prev : Z;
  block_chain_next : Z;
  processor_id : Z;
  blocked : bool;
  last_start_ns : Z;
  time_used_ns : Z
}.

Definition with_wake_time (v : Z) (n : node) : node :=
  mk_node v (blocker n) (block_chain_prev n) (block_chain_next n) (processor_id n) (blocked n) (last_start_ns n) (time_used_ns n).
Definition with_blocker (v : Z) (n : node) : node :=
  mk_node (wake_time_ns n) v (block_chain_prev n) (block_chain_next n) (processor_id n) (blocked n) (last_start_ns n) (time_used_ns n).
Definition with_chain_prev (v : Z) (n : node) : node :=
  mk_node (wake_time_ns n) (blocker n) v (block_chain_next n) (processor_id n) (blocked n) (last_start_ns n) (time_used_ns n).
Definition with_chain_next (v : Z) (n : node) : node :=
  mk_node (wake_time_ns n) (blocker n) (block_chain_prev n) v (processor_id n) (blocked n) (last_start_ns n) (time_used_ns n).
Definition with_processor (v : Z) (n : node) : node :=
  mk_node (wake_time_ns n) (blocker n) (block_chain_prev n) (block_chain_next n) v (blocked n) (last_start_ns n) (time_used_ns n).
Definition with_blocked (v : bool) (n : node) : node :=
  mk_node (wake_time_ns n) (blocker n) (block_chain_prev n) (block_chain_next n) (processor_id n) v (last_start_ns n) (time_used_ns n).
Definition with_last_start (v : Z) (n : node) : node :=
  mk_node (wake_time_ns n) (blocker n) (block_chain_prev n) (block_chain_next n) (processor_id n) (blocked n) v (time_used_ns n).
Definition with_time_used (v : Z) (n : node) : node :=
  mk_node (wake_time_ns n) (blocker n) (block_chain_prev n) (block_chain_next n) (processor_id n) (blocked n) (last_start_ns n) v.

Inductive SMPMessage : Type := NewThread (t : Z) | UnblockThread (t : Z).

#[export] Instance SMPMessage_eq_dec : EqDecision SMPMessage.
Proof. solve_decision. Defined.

Record scheduler : Type := mk_sched {
  m_run_list : SchedulerQueue.t;
  m_block_list : SchedulerHeap.t;
  m_current : Z;
  m_thread_count : Z;
  m_next_reschedule_ns : Z;
  m_last_load_balance_ns : Z;
  m_most_loaded_threads : list Z;
  m_idle_start_ns : Z;
  m_idle_ns : Z;
  m_should_calculate_max_load_threads : bool;
  m_has_pending_reschedule : bool;
  m_idle_thread : Z
}.

Definition with_run_list v s := mk_sched v (m_block_list s) (m_current s) (m_thread_count s) (m_next_reschedule_ns s) (m_last_load_balance_ns s) (m_most_loaded_threads s) (m_idle_start_ns s) (m_idle_ns s) (m_should_calculate_max_load_threads s) (m_has_pending_reschedule s) (m_idle_thread s).
Definition with_block_list v s := mk_sched (m_run_list s) v (m_current s) (m_thread_count s) (m_next_reschedule_ns s) (m_last_load_balance_ns s) (m_most_loaded_threads s) (m_idle_start_ns s) (m_idle_ns s) (m_should_calculate_max_load_threads s) (m_has_pending_reschedule s) (m_idle_thread s).
Definition with_current v s := mk_sched (m_run_list s) (m_block_list s) v (m_thread_count s) (m_next_reschedule_ns s) (m_last_load_balance_ns s) (m_most_loaded_threads s) (m_idle_start_ns s) (m_idle_ns s) (m_should_calculate_max_load_threads s) (m_has_pending_reschedule s) (m_idle_thread s).
Definition with_thread_count v s := mk_sched (m_run_list s) (m_block_list s) (m_current s) v (m_next_reschedule_ns s) (m_last_load_balance_ns s) (m_most_loaded_threads s) (m_idle_start_ns s) (m_idle_ns s) (m_should_calculate_max_load_threads s) (m_has_pending_reschedule s) (m_idle_thread s).
Definition with_next_reschedule v s := mk_sched (m_run_list s) (m_block_list s) (m_current s) (m_thread_count s) v (m_last_load_balance_ns s) (m_most_loaded_threads s) (m_idle_start_ns s) (m_idle_ns s) (m_should_calculate_max_load_threads s) (m_has_pending_reschedule s) (m_idle_thread s).
Definition with_last_load_balance v s := mk_sched (m_run_list s) (m_block_list s) (m_current s) (m_thread_count s) (m_next_reschedule_ns s) v (m_most_loaded_threads s) (m_idle_start_ns s) (m_idle_ns s) (m_should_calculate_max_load_threads s) (m_has_pending_reschedule s) (m_idle_thread s).
Definition with_most_loaded v s := mk_sched (m_run_list s) (m_block_list s) (m_current s) (m_thread_count s) (m_next_reschedule_ns s) (m_last_load_balance_ns s) v (m_idle_start_ns s) (m_idle_ns s) (m_should_calculate_max_load_threads s) (m_has_pending_reschedule s) (m_idle_thread s).
Definition with_idle start total s := mk_sched (m_run_list s) (m_block_list s) (m_current s) (m_thread_count s) (m_next_reschedule_ns s) (m_last_load_balance_ns s) (m_most_loaded_threads s) start total (m_should_calculate_max_load_threads s) (m_has_pending_reschedule s) (m_idle_thread s).
Definition with_should_calculate v s := mk_sched (m_run_list s) (m_block_list s) (m_current s) (m_thread_count s) (m_next_reschedule_ns s) (m_last_load_balance_ns s) (m_most_loaded_threads s) (m_idle_start_ns s) (m_idle_ns s) v (m_has_pending_reschedule s) (m_idle_thread s).
Definition with_pending_reschedule v s := mk_sched (m_run_list s) (m_block_list s) (m_current s) (m_thread_count s) (m_next_reschedule_ns s) (m_last_load_balance_ns s) (m_most_loaded_threads s) (m_idle_start_ns s) (m_idle_ns s) (m_should_calculate_max_load_threads s) v (m_idle_thread s).

Definition with_idle_thread v s := mk_sched (m_run_list s) (m_block_list s) (m_current s) (m_thread_count s) (m_next_reschedule_ns s) (m_last_load_balance_ns s) (m_most_loaded_threads s) (m_idle_start_ns s) (m_idle_ns s) (m_should_calculate_max_load_threads s) (m_has_pending_reschedule s) v.

(** The members' initial values. *)
Definition new_scheduler : scheduler :=
  mk_sched (SchedulerQueue.mk 0 0) (SchedulerHeap.mk 0 0) 0 0 0 0 (replicate 8 0) 0 0 true false 0.

(** What the scheduler uses of a processor. *)
Record processor : Type := mk_processor {
  p_page_table : Z;
  p_stack : Z;
  p_sse_enabled : bool;
  p_sse_thread : Z;
  p_smp_messages_disabled : bool;
  p_smp_pending : list SMPMessage;
  p_timer_deadline : Z
}.

Definition with_page_table v p := mk_processor v (p_stack p) (p_sse_enabled p) (p_sse_thread p) (p_smp_messages_disabled p) (p_smp_pending p) (p_timer_deadline p).
Definition with_stack v p := mk_processor (p_page_table p) v (p_sse_enabled p) (p_sse_thread p) (p_smp_messages_disabled p) (p_smp_pending p) (p_timer_deadline p).
Definition with_sse enabled thread p := mk_processor (p_page_table p) (p_stack p) enabled thread (p_smp_messages_disabled p) (p_smp_pending p) (p_timer_deadline p).
Definition with_smp_disabled v p := mk_processor (p_page_table p) (p_stack p) (p_sse_enabled p) (p_sse_thread p) v (p_smp_pending p) (p_timer_deadline p).
Definition with_smp_pending v p := mk_processor (p_page_table p) (p_stack p) (p_sse_enabled p) (p_sse_thread p) (p_smp_messages_disabled p) v (p_timer_deadline p).
Definition with_timer_deadline v p := mk_processor (p_page_table p) (p_stack p) (p_sse_enabled p) (p_sse_thread p) (p_smp_messages_disabled p) (p_smp_pending p) v.

Record ProcessorInfo : Type := mk_info { idle_time_ns : Z; max_load_threads : Z }.

(** A mutex: its holder, [-1] if there is none, and the depth. *)
Record mutex : Type := mk_mutex { m_locker : Z; m_lock_depth : Z }.

Record machine : Type := mk_machine {
  nodes : Z -> node;
  threads : Z -> thread;
  node_links : links;
  block_chains : Z -> Z;
  schedulers : Z -> scheduler;
  processors : Z -> processor;
  s_processor_infos : Z -> ProcessorInfo;
  s_next_processor_index : Z;
  mutexes : Z -> mutex;
  clock_reads : nat
}.

Definition set_node (x : Z) (f : node -> node) (M : machine) : machine :=
  mk_machine (<[x := f (nodes M x)]> (nodes M)) (threads M) (node_links M) (block_chains M) (schedulers M) (processors M) (s_processor_infos M) (s_next_processor_index M) (mutexes M) (clock_reads M).
Definition set_thread (x : Z) (f : thread -> thread) (M : machine) : machine :=
  mk_machine (nodes M) (<[x := f (threads M x)]> (threads M)) (node_links M) (block_chains M) (schedulers M) (processors M) (s_processor_infos M) (s_next_processor_index M) (mutexes M) (clock_reads M).
Definition set_links (L : links) (M : machine) : machine :=
  mk_machine (nodes M) (threads M) L (block_chains M) (schedulers M) (processors M) (s_processor_infos M) (s_next_processor_index M) (mutexes M) (clock_reads M).
Definition set_chain (b v : Z) (M : machine) : machine :=
  mk_machine (nodes M) (threads M) (node_links M) (<[b := v]> (block_chains M)) (schedulers M) (processors M) (s_processor_infos M) (s_next_processor_index M) (mutexes M) (clock_reads M).
Definition set_sched (me : Z) (f : scheduler -> scheduler) (M : machine) : machine :=
  mk_machine (nodes M) (threads M) (node_links M) (block_chains M) (<[me := f (schedulers M me)]> (schedulers M)) (processors M) (s_processor_infos M) (s_next_processor_index M) (mutexes M) (clock_reads M).
Definition set_cpu (me : Z) (f : processor -> processor) (M : machine) : machine :=
  mk_machine (nodes M) (threads M) (node_links M) (block_chains M) (schedulers M) (<[me := f (processors M me)]> (processors M)) (s_processor_infos M) (s_next_processor_index M) (mutexes M) (clock_reads M).
Definition set_info (c : Z) (i : ProcessorInfo) (M : machine) : machine :=
  mk_machine (nodes M) (threads M) (node_links M) (block_chains M) (schedulers M) (processors M) (<[c := i]> (s_processor_infos M)) (s_next_processor_index M) (mutexes M) (clock_reads M).
Definition set_next_index (i : Z) (M : machine) : machine :=
  mk_machine (nodes M) (threads M) (node_links M) (block_chains M) (schedulers M) (processors M) (s_processor_infos M) i (mutexes M) (clock_reads M).
Definition set_mutex (m : Z) (v : mutex) (M : machine) : machine :=
  mk_machine (nodes M) (threads M) (node_links M) (block_chains M) (schedulers M) (processors M) (s_processor_infos M) (s_next_processor_index M) (<[m := v]> (mutexes M)) (clock_reads M).
Definition tick (M : machine) : machine :=
  mk_machine (nodes M) (threads M) (node_links M) (block_chains M) (schedulers M) (processors M) (s_processor_infos M) (s_next_processor_index M) (mutexes M) (S (clock_reads M)).

Definition PROCESSOR_NONE : Z := 2 ^ 32 - 1.
Definition new_node : node := mk_node UINT64_MAX 0 0 0 PROCESSOR_NONE false 0 0.
Definition s_reschedule_interval_ns : Z := 10000000.
Definition s_load_balance_interval_ns : Z := 1000000000.
Definition new_info : ProcessorInfo := mk_info s_load_balance_interval_ns 0.

(** ** Operations *)
Section ops.
(** The readings of the clock, the identifiers of the processors, and whether
    the interrupt controller is an APIC; [fuel] bounds the walks over nodes. *)
Context (fuel : nat) (ns_since_boot : nat -> Z) (s_processor_ids : list Z) (is_using_apic : bool).

Definition now (M : machine) : Z * machine := (ns_since_boot (clock_reads M), tick M).
Definition processor_count : Z := Z.of_nat (length s_processor_ids).
Definition is_smp_enabled : bool := 1 <? processor_count.
Definition id_from_index (i : Z) : outcome Z :=
  ASSERT (i <? processor_count) in
  let id := default PROCESSOR_NONE (s_processor_ids !! Z.to_nat i) in
  ASSERT (negb (id =? PROCESSOR_NONE)) in
  Ok id.

(** *** Processor *)
Definition set_disable_smp_messages (me : Z) (disabled : bool) (M : machine) : outcome machine :=
  ASSERT (negb (eqb (p_smp_messages_disabled (processors M me)) disabled)) in
  Ok (set_cpu me (with_smp_disabled disabled) M).

(** [s_processors] is an array of 255 processors; [PROCESSOR_NONE] is not one of them. *)
Definition s_processors_size : Z := 0xFF.

(** The message is pushed to the pending list of its processor.  The storage it is
    copied to, and the entries of TLB shootdowns, are left out. *)
Definition send_smp_message (me target : Z) (message : SMPMessage) (M : machine) : outcome machine :=
  ASSERT (negb (target =? me)) in
  ASSERT (target <? s_processors_size) in
  Ok (set_cpu target (fun p => with_smp_pending (message :: p_smp_pending p) p) M).

(** *** Thread *)
Definition set_cpu_time_start (t : Z) (M : machine) : outcome machine :=
  ASSERT (m_cpu_time_start_ns (threads M t) =? UINT64_MAX) in
  let '(ns, M) := now M in
  Ok (set_thread t (fun th => with_cpu_time ns (m_cpu_time_user_ns th) (m_cpu_time_system_ns th) th) M).

Definition set_cpu_time_stop (t : Z) (M : machine) : outcome machine :=
  ASSERT (negb (m_cpu_time_start_ns (threads M t) =? UINT64_MAX)) in
  let '(ns, M) := now M in
  Ok (set_thread t (fun th =>
        let elapsed := ns - m_cpu_time_start_ns th in
        if m_is_in_syscall th then with_cpu_time UINT64_MAX (m_cpu_time_user_ns th) (u64 (m_cpu_time_system_ns th + elapsed)) th
        else with_cpu_time UINT64_MAX (u64 (m_cpu_time_user_ns th + elapsed)) (m_cpu_time_system_ns th) th) M).

(** *** ThreadBlocker: the chain of the blocker [b] *)
Definition add_thread_to_block_queue (b n : Z) (M : machine) : outcome machine :=
  ASSERT (blocked (nodes M n)) in
  ASSERT (blocker (nodes M n) =? 0) in
  let chain := block_chains M b in
  let M := set_node n (fun x => with_chain_next chain (with_chain_prev 0 (with_blocker b x))) M in
  let M := if chain =? 0 then M else set_node chain (with_chain_prev n) M in
  Ok (set_chain b n M).

Definition remove_thread_from_block_queue (b n : Z) (M : machine) : outcome machine :=
  if negb (blocker (nodes M n) =? b) then Ok M
  else
    ASSERT (blocked (nodes M n)) in
    let prev := block_chain_prev (nodes M n) in
    let M := if prev =? 0 then M else set_node prev (with_chain_next (block_chain_next (nodes M n))) M in
    let next := block_chain_next (nodes M n) in
    let M := if next =? 0 then M else set_node next (with_chain_prev (block_chain_prev (nodes M n))) M in
    let M := if n =? block_chains M b then set_chain b (block_chain_next (nodes M n)) M else M in
    Ok (set_node n (fun x => with_chain_next 0 (with_chain_prev 0 (with_blocker 0 x))) M).

(** *** Scheduler: moving threads between the lists *)
Definition run_push (me n : Z) (M : machine) : outcome machine :=
  let* (q, L) := SchedulerQueue.push (m_run_list (schedulers M me)) (node_links M) n in
  Ok (set_links L (set_sched me (with_run_list q) M)).
Definition run_pop (me n : Z) (M : machine) : machine :=
  let '(q, L) := SchedulerQueue.pop (m_run_list (schedulers M me)) (node_links M) n in
  set_links L (set_sched me (with_run_list q) M).
Definition block_push (me n : Z) (M : machine) : outcome machine :=
  let* (h, L) := SchedulerHeap.push fuel (fun x => wake_time_ns (nodes M x)) (m_block_list (schedulers M me)) (node_links M) n in
  Ok (set_links L (set_sched me (with_block_list h) M)).
Definition block_pop (me n : Z) (M : machine) : outcome machine :=
  let* (h, L) := SchedulerHeap.pop fuel (fun x => wake_time_ns (nodes M x)) (m_block_list (schedulers M me)) (node_links M) n in
  Ok (set_links L (set_sched me (with_block_list h) M)).

(** A sleeping thread leaves the block list and the chain it waits in. *)
Definition leave_block_list (me t : Z) (M : machine) : outcome machine :=
  let* M := block_pop me t M in
  let b := blocker (nodes M t) in
  let* M := if b =? 0 then Ok M else remove_thread_from_block_queue b t M in
  Ok (set_node t (with_blocked false) M).

Definition unblock_thread (me t : Z) (M : machine) : outcome machine :=
  let proc_id := processor_id (nodes M t) in
  if negb (proc_id =? me) then send_smp_message me proc_id (UnblockThread t) M
  else if negb (blocked (nodes M t)) then Ok M
  else
    let* M := set_disable_smp_messages me true M in
    let* M := leave_block_list me t M in
    let* M := run_push me t M in
    set_disable_smp_messages me false M.

(** [ThreadBlocker::unblock]: the loop over the first [count] nodes. *)
Fixpoint unblock_loop (f : nat) (me b count : Z) (M : machine) : outcome machine :=
  let n := block_chains M b in
  if negb ((0 <? count) && negb (n =? 0)) then Ok M
  else match f with
       | O => Panic
       | S f' =>
           let M := set_chain b (block_chain_next (nodes M n)) M in
           ASSERT (blocked (nodes M n)) in
           ASSERT (blocker (nodes M n) =? b) in
           let M := set_node n (fun x => with_chain_next 0 (with_chain_prev 0 (with_blocker 0 x))) M in
           let* M := unblock_thread me n M in
           unblock_loop f' me b (count - 1) M
       end.

Definition unblock (me b count : Z) (M : machine) : outcome machine :=
  let* M := unblock_loop fuel me b count M in
  let head := block_chains M b in
  Ok (if head =? 0 then M else set_node head (with_chain_prev 0) M).

Definition bind_thread_to_processor (t proc_id : Z) (M : machine) : outcome machine :=
  ASSERT (negb (proc_id =? PROCESSOR_NONE)) in
  ASSERT (processor_id (nodes M t) =? PROCESSOR_NONE) in
  Ok (set_node t (with_processor proc_id) M).

Definition add_thread (me t : Z) (M : machine) : outcome machine :=
  ASSERT (negb (t =? 0)) in
  let* M :=
    if processor_id (nodes M t) =? PROCESSOR_NONE then
      let index := s_next_processor_index M `mod` processor_count in
      let M := set_next_index (u64 (s_next_processor_index M + 1)) M in
      let* id := id_from_index index in
      bind_thread_to_processor t id M
    else Ok M in
  let proc_id := processor_id (nodes M t) in
  if negb (proc_id =? me) then send_smp_message me proc_id (NewThread t) M
  else
    ASSERT (negb (blocked (nodes M t))) in
    let* M := run_push me t M in
    Ok (set_sched me (fun s => with_thread_count (u32 (m_thread_count s + 1)) s) M).

(** *** Messages: the pending list is the last sent first *)
Definition handle_message (me : Z) (message : SMPMessage) (M : machine) : outcome machine :=
  match message with
  | NewThread t => add_thread me t M
  | UnblockThread t => unblock_thread me t M
  end.

Fixpoint handle_all (me : Z) (messages : list SMPMessage) (M : machine) : outcome machine :=
  match messages with
  | [] => Ok M
  | message :: messages' => let* M := handle_message me message M in handle_all me messages' M
  end.

Definition handle_smp_messages (me : Z) (M : machine) : outcome machine :=
  ASSERT (negb (p_smp_messages_disabled (processors M me))) in
  let pending := p_smp_pending (processors M me) in
  handle_all me (rev pending) (set_cpu me (with_smp_pending []) M).

(** *** The threads with the highest load *)
Fixpoint first_free (l : list Z) (i : nat) : option nat :=
  match l with
  | [] => None
  | t :: l' => if t =? 0 then Some i else first_free l' (S i)
  end.

(** The index of the least time used, from [i] on. *)
Fixpoint min_used (used : Z -> Z) (l : list Z) (i min_index : nat) (min : Z) : nat :=
  match l with
  | [] => min_index
  | t :: l' => if used t <? min then min_used used l' (S i) i (used t) else min_used used l' (S i) min_index min
  end.

Definition add_current_to_most_loaded (me : Z) (M : machine) : outcome machine :=
  let current := m_current (schedulers M me) in
  let most_loaded := m_most_loaded_threads (schedulers M me) in
  let used t := time_used_ns (nodes M t) in
  if existsb (Z.eqb current) most_loaded then Ok M
  else match first_free most_loaded 0 with
       | Some i => Ok (set_sched me (with_most_loaded (<[i := current]> most_loaded)) M)
       | None =>
           match most_loaded with
           | [] => Panic
           | t0 :: rest =>
               let min_index := min_used used rest 1 0 (used t0) in
               if used (default 0 (most_loaded !! min_index)) <? used current then
                 Ok (set_sched me (with_most_loaded (<[min_index := current]> most_loaded)) M)
               else Ok M
           end
       end.

Fixpoint clear_first (t : Z) (l : list Z) : list Z :=
  match l with
  | [] => []
  | x :: l' => if x =? t then 0 :: l' else x :: clear_first t l'
  end.

Definition remove_current_from_most_loaded (me : Z) (M : machine) : machine :=
  set_sched me (fun s => with_most_loaded (clear_first (m_current s) (m_most_loaded_threads s)) s) M.

(** *** Deadlines *)
Definition update_wake_up_deadline (me : Z) (M : machine) : machine :=
  if negb is_using_apic then M
  else
    let s := schedulers M me in
    let deadline := m_next_reschedule_ns s in
    let deadline :=
      if SchedulerHeap.empty (m_block_list s) then deadline
      else Z.min deadline (wake_time_ns (nodes M (SchedulerHeap.front (m_block_list s)))) in
    let deadline := if is_smp_enabled then Z.min deadline (u64 (m_last_load_balance_ns s + s_load_balance_interval_ns)) else deadline in
    set_cpu me (with_timer_deadline deadline) M.

(** *** Switching threads *)
Definition is_idle (me : Z) (M : machine) : bool := m_current (schedulers M me) =? 0.
Definition current_thread (me : Z) (M : machine) : Z :=
  if is_idle me M then m_idle_thread (schedulers M me) else m_current (schedulers M me).

(** The page table of the kernel is 0. *)
Definition load_page_table (me table : Z) (M : machine) : machine :=
  if p_page_table (processors M me) =? table then M else set_cpu me (with_page_table table) M.

(** [Thread::~Thread], as far as the processor is concerned.  The fields of the
    thread and of its node stay as they are: that their memory may be used for
    something else is not modelled. *)
Definition delete_thread (me t : Z) (M : machine) : machine :=
  if p_sse_thread (processors M me) =? t then set_cpu me (with_sse false 0) M else M.

(** What [reschedule] does with the thread it takes off the processor. *)
Definition put_back (me regs : Z) (M : machine) : outcome machine :=
  let current := m_current (schedulers M me) in
  if current =? 0 then
    let '(ns, M) := now M in
    Ok (set_sched me (fun s => with_idle (m_idle_start_ns s) (u64 (m_idle_ns s + (ns - m_idle_start_ns s))) s) M)
  else
    let* M := set_cpu_time_stop current M in
    match m_state (threads M current) with
    | Terminated =>
        let M := remove_current_from_most_loaded me M in
        let M := load_page_table me 0 M in
        let M := set_sched me (with_current 0) M in
        let M := delete_thread me current M in
        Ok (set_sched me (fun s => with_thread_count (u32 (m_thread_count s - 1)) s) M)
    | Executing =>
        let M := set_thread current (with_registers regs) M in
        let '(ns, M) := now M in
        let M := set_node current (fun x => with_time_used (u64 (time_used_ns x + (ns - last_start_ns x))) x) M in
        let* M := add_current_to_most_loaded me M in
        if negb (blocked (nodes M current)) then run_push me current M
        else
          let* M := block_push me current M in
          Ok (if SchedulerHeap.front (m_block_list (schedulers M me)) =? current then update_wake_up_deadline me M else M)
    | NotStarted =>
        ASSERT (negb (blocked (nodes M current))) in
        let M := set_node current (with_time_used 0) M in
        let M := remove_current_from_most_loaded me M in
        run_push me current M
    end.

(** The thread [t] starts to run. *)
Definition start_thread (me t : Z) (M : machine) : outcome (Z * machine) :=
  ASSERT (bool_decide (m_state (threads M t) <> Terminated)) in
  ASSERT (negb (blocked (nodes M t))) in
  let M := load_page_table me (m_page_table (threads M t)) M in
  let M := if bool_decide (m_state (threads M t) = NotStarted) then set_thread t (with_state Executing) M else M in
  let* M := set_cpu_time_start t M in
  let M := if m_is_userspace (threads M t) then set_cpu me (with_stack (m_kernel_stack_top (threads M t))) M else M in
  let M := set_cpu me (fun p => with_sse (p_sse_thread p =? t) (p_sse_thread p) p) M in
  let regs := m_yield_registers (threads M t) in
  let '(ns, M) := now M in
  Ok (regs, set_node t (with_last_start ns) M).

Definition reschedule (me regs : Z) (M : machine) : outcome (Z * machine) :=
  let s := schedulers M me in
  if SchedulerQueue.empty (m_run_list s) && ((m_current s =? 0) || negb (blocked (nodes M (m_current s)))) &&
     bool_decide (m_state (threads M (current_thread me M)) = Executing) then Ok (regs, M)
  else
    let* M := put_back me regs M in
    let '(t, q, L) := SchedulerQueue.pop_front (m_run_list (schedulers M me)) (node_links M) in
    let M := set_links L (set_sched me (fun s => with_current t (with_run_list q s)) M) in
    if t =? 0 then
      let M := load_page_table me 0 M in
      let idle := m_idle_thread (schedulers M me) in
      let regs := m_yield_registers (threads M idle) in
      let M := set_thread idle (with_state Executing) M in
      let '(ns, M) := now M in
      Ok (regs, set_sched me (fun s => with_idle ns (m_idle_ns s) s) M)
    else
      start_thread me t M.

Definition on_yield (me regs : Z) (M : machine) : outcome (Z * machine) :=
  let* (regs, M) := reschedule me regs M in
  let '(next, M) :=
    if negb (is_idle me M) then let '(ns, M) := now M in (u64 (ns + s_reschedule_interval_ns), M) else (UINT64_MAX, M) in
  let M := set_sched me (with_next_reschedule next) M in
  Ok (regs, update_wake_up_deadline me M).

(** [scheduler_on_yield_trampoline]: what [Processor::yield] runs. *)
Definition yield (me regs : Z) (M : machine) : outcome (Z * machine) :=
  let* M := set_disable_smp_messages me true M in
  let* (regs, M) := on_yield me regs M in
  let* M := set_disable_smp_messages me false M in
  Ok (regs, M).

Definition reschedule_if_needed (me regs : Z) (M : machine) : outcome (Z * machine) :=
  let s := schedulers M me in
  if (is_idle me M && negb (SchedulerQueue.empty (m_run_list s))) || m_has_pending_reschedule s then
    yield me regs (set_sched me (with_pending_reschedule false) M)
  else Ok (regs, M).

(** The end of [Thread::on_exit], after the process has let the thread go. *)
Definition on_exit (me regs : Z) (M : machine) : outcome (Z * machine) :=
  yield me regs (set_thread (current_thread me M) (with_state Terminated) M).

(** *** Blocking *)

(** A mutex as a blocking thread sees it; how threads contend for it is a
    component of its own.  The thread's count of mutexes is left out. *)
Definition mutex_unlock (m tid : Z) (M : machine) : outcome machine :=
  let mu := mutexes M m in
  ASSERT (m_locker mu =? tid) in
  ASSERT (0 <? m_lock_depth mu) in
  let depth := u32 (m_lock_depth mu - 1) in
  Ok (set_mutex m (mk_mutex (if depth =? 0 then -1 else m_locker mu) depth) M).

Fixpoint mutex_unlock_all (n : nat) (m tid : Z) (M : machine) : outcome machine :=
  match n with
  | O => Ok M
  | S n' => let* M := mutex_unlock m tid M in mutex_unlock_all n' m tid M
  end.

(** Up to and including the yield; the result is the depth to which the thread
    locks the mutex again when it runs next.  A mutex of 0 is [nullptr]. *)
Definition block_current_thread (me b wake_time m regs : Z) (M : machine) : outcome (Z * Z * machine) :=
  let '(ns, M) := now M in
  if wake_time <=? ns then Ok (0, regs, M)
  else
    let current := m_current (schedulers M me) in
    ASSERT (negb (current =? 0)) in
    ASSERT (processor_id (nodes M current) =? me) in
    ASSERT (negb (blocked (nodes M current))) in
    let* M := set_disable_smp_messages me true M in
    let M := set_node current (fun x => with_wake_time wake_time (with_blocked true x)) M in
    let* M := if b =? 0 then Ok M else add_thread_to_block_queue b current M in
    let tid := m_tid (threads M current) in
    let* (lock_depth, M) :=
      if m =? 0 then Ok (0, M)
      else
        ASSERT (m_locker (mutexes M m) =? tid) in
        let lock_depth := m_lock_depth (mutexes M m) in
        let* M := mutex_unlock_all (Z.to_nat lock_depth) m tid M in
        Ok (lock_depth, M) in
    let* M := set_disable_smp_messages me false M in
    let* (regs, M) := yield me regs M in
    Ok (lock_depth, regs, M).

Definition block_indefinite (me b m regs : Z) (M : machine) : outcome (Z * Z * machine) :=
  block_current_thread me b UINT64_MAX m regs M.
Definition block_with_timeout_ns (me b timeout m regs : Z) (M : machine) : outcome (Z * Z * machine) :=
  let '(ns, M) := now M in
  block_current_thread me b (u64 (ns + timeout)) m regs M.

Definition block_with_wake_time_ns (me b wake_time m regs : Z) (M : machine) : outcome (Z * Z * machine) :=
  block_current_thread me b wake_time m regs M.

(** *** Timer interrupts *)
Fixpoint wake_up_loop (f : nat) (me current_ns : Z) (M : machine) : outcome machine :=
  let h := m_block_list (schedulers M me) in
  let front := SchedulerHeap.front h in
  if negb (SchedulerHeap.empty h) && (wake_time_ns (nodes M front) <=? current_ns) then
    match f with
    | O => Panic
    | S f' => let* M := unblock_thread me front M in wake_up_loop f' me current_ns M
    end
  else Ok M.

Definition wake_up_sleeping_threads (me : Z) (M : machine) : outcome machine :=
  let '(ns, M) := now M in wake_up_loop fuel me ns M.

(** *** Load balancing *)
Definition find_least_loaded_processor (me : Z) (M : machine) : Z :=
  let consider acc processor :=
    let '(_, most_idle_ns, least_max_load_threads) := acc in
    let info := s_processor_infos M processor in
    if processor =? me then acc
    else if (idle_time_ns info <? most_idle_ns) || (least_max_load_threads <? max_load_threads info) then acc
    else (processor, idle_time_ns info, max_load_threads info) in
  let '(least_loaded_id, _, _) := foldl consider (me, m_idle_ns (schedulers M me), 2 ^ 32 - 1) s_processor_ids in
  least_loaded_id.

Definition absolute_difference_u64 (a b : Z) : Z := if a <? b then u64 (b - a) else u64 (a - b).

(** Larger loads first, [nullptr] last. *)
Definition heavier (used : Z -> Z) (a b : Z) : bool :=
  if (a =? 0) || (b =? 0) then negb (a =? 0) else used b <? used a.

(** The processor's share of threads that load it fully. *)
Definition calculate_max_load (me current_ns : Z) (M : machine) : outcome machine :=
  let s := schedulers M me in
  let info := s_processor_infos M me in
  let most_loaded := default 0 (m_most_loaded_threads s !! O) in
  if (m_idle_ns s =? 0) && m_should_calculate_max_load_threads s then
    if (most_loaded =? 0) || (time_used_ns (nodes M most_loaded) =? 0) then Ok (set_info me (mk_info (idle_time_ns info) 0) M)
    else
      let duration_ns := u64 (current_ns - m_last_load_balance_ns s) in
      ASSERT (negb (duration_ns =? 0)) in
      let load := u64 (1000 * time_used_ns (nodes M most_loaded)) / duration_ns in
      if load =? 0 then Ok (set_info me (mk_info (idle_time_ns info) 0) M)
      else Ok (set_info me (mk_info (idle_time_ns info) (u32 ((2000 / load + 1) / 2))) M)
  else Ok M.

(** What happens to the next heavy thread. *)
Inductive balance : Type := Stop | Skip | Send (M : machine).

Definition plan_move (me heavy target : Z) (M : machine) : outcome balance :=
  let s := schedulers M me in
  let theirs := s_processor_infos M target in
  let mine := s_processor_infos M me in
  let used := time_used_ns (nodes M heavy) in
  if m_idle_ns s =? 0 then
    if max_load_threads mine =? 0 then Ok Stop
    else if idle_time_ns theirs =? 0 then
      if u32 (max_load_threads mine - 1) <? u32 (max_load_threads theirs + 1) then Ok Stop
      else Ok (Send (set_info target (mk_info (idle_time_ns theirs) (u32 (max_load_threads theirs + 1)))
                      (set_info me (mk_info (idle_time_ns mine) (u32 (max_load_threads mine - 1))) M)))
    else Ok (Send (set_info target (mk_info 0 1) (set_info me (mk_info (idle_time_ns mine) (u32 (max_load_threads mine - 1))) M)))
  else
    let my_current := s_load_balance_interval_ns - Z.min s_load_balance_interval_ns (m_idle_ns s) in
    let other_current := s_load_balance_interval_ns - Z.min s_load_balance_interval_ns (idle_time_ns theirs) in
    let current_diff := absolute_difference_u64 my_current other_current in
    let my_new := my_current - Z.min used my_current in
    let other_new := u64 (other_current + used) in
    let new_diff := absolute_difference_u64 my_new other_new in
    if current_diff <=? new_diff then Ok Skip
    else
      ASSERT (negb (current_diff =? 0)) in
      if u64 (100 * (current_diff - new_diff)) / current_diff <? 10 then Ok Skip
      else Ok (Send (set_sched me (fun s => with_idle (m_idle_start_ns s) (u64 (m_idle_ns s + used)) s)
                      (set_info target (mk_info (idle_time_ns theirs - Z.min used (idle_time_ns theirs)) (max_load_threads theirs)) M))).

(** The thread leaves the lists of the processor and is sent to [target]. *)
Definition send_away (me heavy target : Z) (M : machine) : outcome machine :=
  let M := if p_sse_thread (processors M me) =? heavy then set_cpu me (with_sse false 0) M else M in
  let M := set_node heavy (with_time_used 0) M in
  let* M :=
    if negb (blocked (nodes M heavy)) then Ok (run_pop me heavy M)
    else leave_block_list me heavy M in
  let M := set_sched me (fun s => with_thread_count (u32 (m_thread_count s - 1)) s) M in
  let M := set_node heavy (with_processor target) M in
  send_smp_message me target (NewThread heavy) M.

Fixpoint balance_loop (indices : list nat) (me : Z) (M : machine) : outcome machine :=
  match indices with
  | [] => Ok M
  | i :: indices' =>
      let s := schedulers M me in
      let heavy := default 0 (m_most_loaded_threads s !! i) in
      if heavy =? 0 then Ok M
      else
        ASSERT (processor_id (nodes M heavy) =? me) in
        if heavy =? m_current s then balance_loop indices' me M
        else
          let target := find_least_loaded_processor me M in
          if target =? me then Ok M
          else
            let* b := plan_move me heavy target M in
            match b with
            | Stop => Ok M
            | Skip => balance_loop indices' me M
            | Send M =>
                let* M := send_away me heavy target M in
                let M := set_sched me (fun s => with_most_loaded (<[i := 0]> (m_most_loaded_threads s)) s) M in
                if m_idle_ns (schedulers M me) =? 0 then Ok M else balance_loop indices' me M
            end
  end.

(** [time_used_ns = 0] on every node of a list. *)
Definition reset_used (l : list Z) (M : machine) : machine := foldl (fun M n => set_node n (with_time_used 0) M) M l.

Definition finish_balancing (me : Z) (M : machine) : outcome machine :=
  let s := schedulers M me in
  let M := set_info me (mk_info (m_idle_ns s) (max_load_threads (s_processor_infos M me))) M in
  let M := if m_current s =? 0 then M else set_node (m_current s) (with_time_used 0) M in
  let M := set_sched me (fun s => with_most_loaded (replicate (length (m_most_loaded_threads s)) 0) s) M in
  let* running := SchedulerQueue.walk fuel (node_links M) (SchedulerQueue.m_head (m_run_list s)) in
  let* sleeping := SchedulerHeap.walk fuel (node_links M) (SchedulerHeap.m_root (m_block_list s)) in
  let M := reset_used sleeping (reset_used running M) in
  Ok (set_sched me (fun s => with_last_load_balance (u64 (m_last_load_balance_ns s + s_load_balance_interval_ns))
        (with_should_calculate true (with_idle (m_idle_start_ns s) 0 s))) M).

(** [lock_free]: whether the lock of the processors' loads could be taken. *)
Definition do_load_balancing (me : Z) (lock_free : bool) (M : machine) : outcome machine :=
  let '(current_ns, M) := now M in
  if current_ns <? u64 (m_last_load_balance_ns (schedulers M me) + s_load_balance_interval_ns) then Ok M
  else
    let* M := set_disable_smp_messages me true M in
    let current := m_current (schedulers M me) in
    let* M :=
      if current =? 0 then
        Ok (set_sched me (fun s => with_idle current_ns (u64 (m_idle_ns s + (current_ns - m_idle_start_ns s))) s) M)
      else
        add_current_to_most_loaded me
          (set_node current (fun x => with_last_start current_ns (with_time_used (u64 (time_used_ns x + (current_ns - last_start_ns x))) x)) M) in
    let most_loaded := m_most_loaded_threads (schedulers M me) in
    match Sort.sort (heavier (fun t => time_used_ns (nodes M t))) 0 (length most_loaded) most_loaded with
    | None => Panic
    | Some sorted =>
        let M := set_sched me (with_most_loaded sorted) M in
        let* M :=
          if negb lock_free then Ok M
          else
            let* M := calculate_max_load me current_ns M in
            let* M := balance_loop (seq 1 (length sorted - 1)) me M in
            finish_balancing me M in
        set_disable_smp_messages me false M
    end.

(** [Scheduler::initialize]; [create_kernel] makes the idle thread.  Waiting for
    the other processors and the flag for messages between them are left out. *)
Definition initialize (me index : Z) (create_kernel : outcome Z) (M : machine) : outcome machine :=
  let* idle := create_kernel in
  ASSERT (negb (idle =? 0)) in
  let ns := u64 (s_load_balance_interval_ns * index) / processor_count in
  Ok (set_sched me (fun s => with_idle_thread idle (with_last_load_balance ns (with_idle (m_idle_start_ns s) ns s))) M).

Definition on_timer_interrupt (me : Z) (lock_free : bool) (M : machine) : outcome machine :=
  let* M := if is_smp_enabled then do_load_balancing me lock_free M else Ok M in
  let* M := wake_up_sleeping_threads me M in
  let '(due, M) :=
    if is_idle me M then (true, M) else let '(ns, M) := now M in (m_next_reschedule_ns (schedulers M me) <=? ns, M) in
  Ok (if due then set_sched me (with_pending_reschedule true) M else update_wake_up_deadline me M).
End ops.
