(* ===== verification/SchedulerChains.v ===== *)
(** * The chains of blocked threads

    The threads that wait on a blocker are a doubly linked list through
    [block_chain_prev] and [block_chain_next].  While [unblock] empties a chain
    from the front, the link back from its first node is stale. *)
From stdpp Require Import functions.
From S2P Require Import Prelude SchedulerNode SchedulerHeapNode SchedulerNodeCorrect SchedulerHeapLinks SchedulerHeapCorrect Scheduler.

(** A field that an update of another field keeps. *)
Lemma field_kept {A B} (N : Z -> A) (f : A -> B) (g : A -> A) x y : (forall n, f (g n) = f n) -> f ((<[x := g (N x)]> N) y) = f (N y).
Proof. intros Hfg. destruct (decide (x = y)) as [->|Hne]; [by rewrite fn_lookup_insert|by rewrite fn_lookup_insert_ne]. Qed.

(** A field of one node overwritten. *)
Lemma field_set {A B} (N : Z -> A) (f : A -> B) (g : A -> A) x y v : (forall n, f (g n) = v) ->
  f ((<[x := g (N x)]> N) y) = if decide (x = y) then v else f (N y).
Proof. intros Hfg. case_decide as Hxy; [subst y; by rewrite fn_lookup_insert|by rewrite fn_lookup_insert_ne]. Qed.

Record chain_rep (N : Z -> node) (head : Z) (stale : bool) (l : list Z) : Prop := {
  cr_nodes : nodes_ok l;
  cr_head : head = at_ l 0;
  cr_next : forall i, (i < length l)%nat -> block_chain_next (N (at_ l i)) = at_ l (S i);
  cr_prev : forall i, (i < length l)%nat -> stale = false \/ (0 < i)%nat -> block_chain_prev (N (at_ l i)) = before_ l i
}.

Lemma chain_rep_ext N N' head stale l :
  (forall x, x ∈ l -> block_chain_next (N' x) = block_chain_next (N x) /\ block_chain_prev (N' x) = block_chain_prev (N x)) ->
  chain_rep N head stale l -> chain_rep N' head stale l.
Proof.
  intros He [Hok Hh Hn Hp]. split; [done|done|..]; intros i Hi; destruct (He (at_ l i) (at_elem l i Hi)) as [E1 E2]; rewrite ?E1, ?E2; [by apply Hn|by apply Hp].
Qed.

(** All chains, and the nodes that are in none. *)
Record chains_ok (N : Z -> node) (heads : Z -> Z) (stale : Z) (chain : Z -> list Z) : Prop := {
  co_rep : forall b, b <> 0 -> chain_rep N (heads b) (bool_decide (b = stale)) (chain b);
  co_mem : forall b x, b <> 0 -> x ∈ chain b <-> blocker (N x) = b /\ x <> 0
}.

Lemma chains_ok_ext N N' heads stale chain :
  (forall x, blocker (N' x) = blocker (N x) /\ block_chain_next (N' x) = block_chain_next (N x) /\ block_chain_prev (N' x) = block_chain_prev (N x)) ->
  chains_ok N heads stale chain -> chains_ok N' heads stale chain.
Proof.
  intros He [Hr Hm]. split.
  - intros b Hb. eapply chain_rep_ext; [|by apply Hr]. intros x _. by destruct (He x) as (_ & -> & ->).
  - intros b x Hb. rewrite Hm by done. by destruct (He x) as (-> & _).
Qed.

(** *** Adding at the front *)
Definition chain_add (b n : Z) (N : Z -> node) (heads : Z -> Z) : Z -> node :=
  let N := <[n := with_chain_next (heads b) (with_chain_prev 0 (with_blocker b (N n)))]> N in
  if heads b =? 0 then N else <[heads b := with_chain_prev n (N (heads b))]> N.

Lemma chain_add_blocker b n N heads x : blocker (chain_add b n N heads x) = if decide (n = x) then b else blocker (N x).
Proof.
  unfold chain_add. destruct (heads b =? 0).
  - by rewrite (field_set N blocker (fun y => with_chain_next (heads b) (with_chain_prev 0 (with_blocker b y))) n x b).
  - rewrite (field_kept _ blocker (with_chain_prev n)) by done.
    by rewrite (field_set N blocker (fun y => with_chain_next (heads b) (with_chain_prev 0 (with_blocker b y))) n x b).
Qed.

Lemma chain_add_next b n N heads x : block_chain_next (chain_add b n N heads x) = if decide (n = x) then heads b else block_chain_next (N x).
Proof.
  unfold chain_add. destruct (heads b =? 0).
  - by rewrite (field_set N block_chain_next (fun y => with_chain_next (heads b) (with_chain_prev 0 (with_blocker b y))) n x (heads b)).
  - rewrite (field_kept _ block_chain_next (with_chain_prev n)) by done.
    by rewrite (field_set N block_chain_next (fun y => with_chain_next (heads b) (with_chain_prev 0 (with_blocker b y))) n x (heads b)).
Qed.

Lemma chain_add_prev b n N heads x : heads b <> n ->
  block_chain_prev (chain_add b n N heads x) = if decide (n = x) then 0 else if decide (heads b = x /\ x <> 0) then n else block_chain_prev (N x).
Proof.
  intros Hne. unfold chain_add. destruct (Z.eqb_spec (heads b) 0) as [Hz|Hz].
  - rewrite (field_set N block_chain_prev (fun y => with_chain_next (heads b) (with_chain_prev 0 (with_blocker b y))) n x 0) by done.
    destruct (decide (n = x)); [done|]. rewrite decide_False; [done|]. intros [<- ?]. done.
  - rewrite (field_set _ block_chain_prev (with_chain_prev n) _ x n) by done.
    rewrite (field_set N block_chain_prev (fun y => with_chain_next (heads b) (with_chain_prev 0 (with_blocker b y))) n x 0) by done.
    destruct (decide (heads b = x)) as [<-|Hx]; [rewrite decide_False by congruence; by rewrite decide_True|]. destruct (decide (n = x)); [done|]. rewrite decide_False; [done|]. tauto.
Qed.

Lemma chain_add_kept {A} (f : node -> A) b n N heads x : (forall y v, f (with_blocker v y) = f y) -> (forall y v, f (with_chain_next v y) = f y) -> (forall y v, f (with_chain_prev v y) = f y) ->
  f (chain_add b n N heads x) = f (N x).
Proof.
  intros H1 H2 H3. unfold chain_add. destruct (heads b =? 0).
  - apply (field_kept N f (fun y => with_chain_next (heads b) (with_chain_prev 0 (with_blocker b y)))). intros y. by rewrite H2, H3, H1.
  - rewrite (field_kept _ f (with_chain_prev n)) by done.
    apply (field_kept N f (fun y => with_chain_next (heads b) (with_chain_prev 0 (with_blocker b y)))). intros y. by rewrite H2, H3, H1.
Qed.

Lemma nodes_ok_cons l x : nodes_ok (x :: l) <-> nodes_ok l /\ x <> 0 /\ x ∉ l.
Proof.
  unfold nodes_ok. rewrite list.NoDup_cons, elem_of_cons. split.
  - intros [[Hx Hnd] H0]. split_and!; [done|tauto|intros E; apply H0; by left|done].
  - intros ([Hnd H0] & Hx0 & Hx). split_and!; [done|done|]. intros [E|?]; done.
Qed.

Lemma before_S l x i : (0 < i)%nat -> before_ (x :: l) (S i) = before_ l i.
Proof. intros Hi. destruct i; [lia|done]. Qed.

Lemma chain_add_ok N heads chain b n : chains_ok N heads 0 chain -> b <> 0 -> n <> 0 -> blocker (N n) = 0 ->
  chains_ok (chain_add b n N heads) (<[b := n]> heads) 0 (<[b := n :: chain b]> chain).
Proof.
  intros [Hr Hm] Hb Hn Hfree.
  assert (Hnot : forall c, c <> 0 -> n ∉ chain c) by (intros c Hc; rewrite (Hm c n Hc), Hfree; intros [? _]; congruence).
  assert (Hhead : heads b <> n).
  { destruct (Hr b Hb) as [Hok -> _ _]. intros Hz. apply (Hnot b Hb). rewrite <- Hz. apply at_elem.
    destruct (decide (0 < length (chain b))%nat); [done|]. rewrite at_out in Hz by lia. congruence. }
  split.
  - intros c Hc. destruct (Hr c Hc) as [Hok Hh Hnx Hpv]. rewrite bool_decide_eq_false_2 by done. rewrite bool_decide_eq_false_2 in Hpv by done.
    destruct (decide (b = c)) as [<-|Hbc].
    + rewrite !fn_lookup_insert. split; [apply nodes_ok_cons; auto|done|..].
      * intros [|i] Hi; rewrite chain_add_next; cbn in Hi.
        -- change (at_ (n :: chain b) 0) with n. rewrite decide_True by done. by rewrite Hh.
        -- change (at_ (n :: chain b) (S i)) with (at_ (chain b) i). rewrite decide_False; [apply Hnx; lia|]. intros ->. apply (Hnot b Hb), at_elem. lia.
      * intros [|i] Hi _; rewrite chain_add_prev by done; cbn in Hi; [by rewrite decide_True|].
        change (at_ (n :: chain b) (S i)) with (at_ (chain b) i). rewrite decide_False; [|intros ->; apply (Hnot b Hb), at_elem; lia].
        destruct (decide (i = 0)%nat) as [->|Hi0].
        -- rewrite decide_True; [done|]. rewrite Hh. split; [done|]. rewrite at_zero by done. lia.
        -- rewrite decide_False; [|rewrite Hh; intros [E _]; apply at_eq in E; [lia|done|lia]]. rewrite before_S by lia. apply Hpv; [lia|by left].
    + rewrite !fn_lookup_insert_ne by done. assert (Hkeep : forall x, x ∈ chain c -> n <> x /\ ~ (heads b = x /\ x <> 0)).
      { intros x Hx. split; [intros ->; by apply (Hnot c Hc)|]. intros [<- Hx0]. apply (Hm c) in Hx as [Hx _]; [|done].
        destruct (Hr b Hb) as [Hokb Hhb _ _]. assert (heads b ∈ chain b) as Hin.
        { rewrite Hhb in *. apply at_elem. destruct (decide (0 < length (chain b))%nat); [done|]. rewrite at_out in Hx0 by lia. done. }
        apply (Hm b) in Hin as [Hin _]; [|done]. congruence. }
      apply (chain_rep_ext N); [|split; [done|done|done|done]]. intros x Hx. destruct (Hkeep x Hx) as [Hnx' Hhx]. rewrite chain_add_next, chain_add_prev by done.
      by rewrite !decide_False by done.
  - intros c x Hc. rewrite chain_add_blocker. destruct (decide (b = c)) as [<-|Hbc].
    + rewrite fn_lookup_insert, elem_of_cons, Hm by done. case_decide as Hnx; [subst x; tauto|]. split; [intros [->|?]; done|tauto].
    + rewrite fn_lookup_insert_ne, Hm by done. case_decide as Hnx; [subst x; rewrite Hfree; split; intros [? ?]; congruence|done].
Qed.

(** *** Removing a node *)
Definition clear_node (x : node) : node := with_chain_next 0 (with_chain_prev 0 (with_blocker 0 x)).

Definition chain_remove (n : Z) (N : Z -> node) : Z -> node :=
  let prev := block_chain_prev (N n) in
  let N := if prev =? 0 then N else <[prev := with_chain_next (block_chain_next (N n)) (N prev)]> N in
  let next := block_chain_next (N n) in
  let N := if next =? 0 then N else <[next := with_chain_prev (block_chain_prev (N n)) (N next)]> N in
  <[n := clear_node (N n)]> N.

(** [if (p) p->field = v] *)
Definition set_if {A} (p : Z) (g : A -> A) (N : Z -> A) : Z -> A := if p =? 0 then N else <[p := g (N p)]> N.

Lemma set_if_kept {A B} (N : Z -> A) (f : A -> B) g p y : (forall n, f (g n) = f n) -> f (set_if p g N y) = f (N y).
Proof. intros Hfg. unfold set_if. destruct (p =? 0); [done|by apply field_kept]. Qed.

Lemma set_if_set {A B} (N : Z -> A) (f : A -> B) g p y v : (forall n, f (g n) = v) -> f (set_if p g N y) = if decide (p = y /\ y <> 0) then v else f (N y).
Proof.
  intros Hfg. unfold set_if. destruct (Z.eqb_spec p 0) as [->|Hp].
  - rewrite decide_False; [done|]. intros [<- ?]. done.
  - rewrite (field_set N f g p y v) by done. destruct (decide (p = y)) as [->|Hne]; [by rewrite decide_True|]. rewrite decide_False; [done|tauto].
Qed.

Section remove.
Context (N : Z -> node) (n : Z).
Abbreviation prev := (block_chain_prev (N n)).
Abbreviation next := (block_chain_next (N n)).
Context (Hprev : prev <> n) (Hnext : next <> n).

Lemma chain_remove_alt : chain_remove n N = <[n := clear_node (set_if next (with_chain_prev prev) (set_if prev (with_chain_next next) N) n)]> (set_if next (with_chain_prev prev) (set_if prev (with_chain_next next) N)).
Proof.
  unfold chain_remove. fold (set_if prev (with_chain_next next) N). set (N1 := set_if prev (with_chain_next next) N).
  assert (E1 : block_chain_next (N1 n) = next) by (unfold N1; rewrite (set_if_set N block_chain_next (with_chain_next next) prev n next) by done; case_decide; done).
  assert (E2 : block_chain_prev (N1 n) = prev) by (apply set_if_kept; done). rewrite E1, E2. done.
Qed.

Lemma chain_remove_blocker x : blocker (chain_remove n N x) = if decide (n = x) then 0 else blocker (N x).
Proof.
  rewrite chain_remove_alt, (field_set _ blocker clear_node n x 0) by done. case_decide; [done|]. by rewrite !set_if_kept.
Qed.

Lemma chain_remove_next x : block_chain_next (chain_remove n N x) = if decide (n = x) then 0 else if decide (prev = x /\ x <> 0) then next else block_chain_next (N x).
Proof.
  rewrite chain_remove_alt, (field_set _ block_chain_next clear_node n x 0) by done. destruct (decide (n = x)); [done|]. rewrite set_if_kept by done. by apply set_if_set.
Qed.

Lemma chain_remove_prev x : block_chain_prev (chain_remove n N x) = if decide (n = x) then 0 else if decide (next = x /\ x <> 0) then prev else block_chain_prev (N x).
Proof.
  rewrite chain_remove_alt, (field_set _ block_chain_prev clear_node n x 0) by done. destruct (decide (n = x)); [done|].
  rewrite (set_if_set _ block_chain_prev (with_chain_prev prev) next x prev) by done. case_decide; [done|]. by apply set_if_kept.
Qed.

Lemma chain_remove_kept {A} (f : node -> A) x : (forall y v, f (with_blocker v y) = f y) -> (forall y v, f (with_chain_next v y) = f y) -> (forall y v, f (with_chain_prev v y) = f y) ->
  f (chain_remove n N x) = f (N x).
Proof.
  intros H1 H2 H3. rewrite chain_remove_alt, (field_kept _ f clear_node) by (intros y; unfold clear_node; by rewrite H2, H3, H1). by rewrite !set_if_kept.
Qed.
End remove.

Lemma chain_remove_ok N heads chain b n : chains_ok N heads 0 chain -> b <> 0 -> n <> 0 -> blocker (N n) = b ->
  exists chain', chains_ok (chain_remove n N) (if n =? heads b then <[b := block_chain_next (N n)]> heads else heads) 0 chain' /\
    (forall c x, x ∈ chain' c <-> x ∈ chain c /\ ~ (c = b /\ x = n)) /\ block_chain_prev (N n) <> n /\ block_chain_next (N n) <> n.
Proof.
  intros [Hr Hm] Hb Hn Hbl. assert (Hin : n ∈ chain b) by (by apply Hm). apply list_elem_of_lookup in Hin as [k Hk].
  pose proof (lookup_lt_Some _ _ _ Hk) as Hlt. pose proof (at_some _ _ _ Hk) as Hat.
  destruct (Hr b Hb) as [Hok Hh Hnx Hpv]. rewrite bool_decide_eq_false_2 in Hpv by done.
  pose proof (Hnx k Hlt) as Hnk. pose proof (Hpv k Hlt (or_introl eq_refl)) as Hpk. rewrite Hat in Hnk, Hpk. rewrite before_bidx in Hpk.
  assert (Hbk : bidx (chain b) k <> k) by (destruct k; cbn; lia).
  assert (Hne1 : block_chain_prev (N n) <> n) by (rewrite Hpk, <- Hat, at_eq by done; done).
  assert (Hne2 : block_chain_next (N n) <> n) by (rewrite Hnk, <- Hat, at_eq by done; lia).
  exists (<[b := delete k (chain b)]> chain).
  assert (Hmem : forall c x, x ∈ (<[b := delete k (chain b)]> chain) c <-> x ∈ chain c /\ ~ (c = b /\ x = n)).
  { intros c x. destruct (decide (b = c)) as [<-|Hbc]; [|rewrite fn_lookup_insert_ne by done; split; [intros ?; split; [done|intros [? _]; congruence]|tauto]]. rewrite fn_lookup_insert.
    assert (Hperm : chain b ≡ₚ n :: delete k (chain b)) by (by apply delete_Permutation).
    destruct Hok as [Hnd _]. rewrite Hperm in Hnd. apply list.NoDup_cons in Hnd as [Hnot _]. rewrite Hperm at 2. rewrite elem_of_cons. split; [|tauto].
    intros Hx. split; [by right|]. intros [_ ->]. done. }
  split; [|done]. split.
  - intros c Hc. rewrite bool_decide_eq_false_2 by done. destruct (decide (b = c)) as [<-|Hbc].
    + rewrite fn_lookup_insert. assert (Hlen : length (delete k (chain b)) = (length (chain b) - 1)%nat) by (apply length_delete; by rewrite Hk).
      split; [by apply nodes_ok_delete|..].
      * rewrite Hh, <- Hat, eqb_at, at_delete by (done || lia). case_bool_decide as Hk0; [subst k; rewrite fn_lookup_insert, Hat; by rewrite decide_False by lia|].
        rewrite Hh. by rewrite decide_True by lia.
      * intros i Hi. rewrite chain_remove_next, at_delete, Hpk, Hnk, at_delete by done. set (j := if decide (i < k)%nat then i else S i).
        assert (Hj : (j < length (chain b))%nat) by (unfold j; case_decide; lia). assert (Hjk : j <> k) by (unfold j; case_decide; lia).
        rewrite decide_False by (rewrite <- Hat, at_eq by done; lia). rewrite Hnx by done.
        assert (Hd : at_ (chain b) (bidx (chain b) k) = at_ (chain b) j /\ at_ (chain b) j <> 0 <-> bidx (chain b) k = j) by (rewrite at_eq, at_zero by done; lia).
        destruct (decide (at_ (chain b) (bidx (chain b) k) = at_ (chain b) j /\ at_ (chain b) j <> 0)) as [D|D]; rewrite Hd in D; clear Hd; unfold j in *; destruct k; cbn [bidx] in *; repeat case_decide; try lia; f_equal; lia.
      * intros i Hi _. rewrite chain_remove_prev, at_delete, Hpk, Hnk, before_delete by done. set (j := if decide (i < k)%nat then i else S i).
        assert (Hj : (j < length (chain b))%nat) by (unfold j; case_decide; lia). assert (Hjk : j <> k) by (unfold j; case_decide; lia).
        rewrite decide_False by (rewrite <- Hat, at_eq by done; lia). rewrite Hpv by (done || by left).
        assert (Hd : at_ (chain b) (S k) = at_ (chain b) j /\ at_ (chain b) j <> 0 <-> S k = j) by (rewrite at_eq, at_zero by done; lia).
        destruct (decide (at_ (chain b) (S k) = at_ (chain b) j /\ at_ (chain b) j <> 0)) as [D|D]; rewrite Hd in D; clear Hd; unfold j in *; rewrite <- ?before_bidx; repeat case_decide; try lia; try done; f_equal; lia.
    + rewrite fn_lookup_insert_ne by done. replace ((if n =? heads b then _ else heads) c) with (heads c) by (destruct (n =? heads b); [by rewrite fn_lookup_insert_ne|done]).
      destruct (Hr c Hc) as [Hokc Hhc Hnxc Hpvc]. rewrite bool_decide_eq_false_2 in Hpvc by done. apply (chain_rep_ext N); [|done].
      intros x Hx. apply (Hm c) in Hx as [Hxc Hx0]; [|done]. rewrite chain_remove_next, chain_remove_prev by done.
      assert (Hout : forall i, ~ (at_ (chain b) i = x /\ x <> 0)).
      { intros i [<- Hz]. apply at_elem_nonzero in Hz. apply (Hm b) in Hz as [Hz _]; [|done]. congruence. }
      rewrite Hpk, Hnk. rewrite !(decide_False (P := _ /\ _)) by done. rewrite !decide_False by congruence. done.
  - intros c x Hc. rewrite Hmem, Hm, chain_remove_blocker by done. case_decide as Hnx'; [subst x; split; [intros [[? ?] Hno]; destruct Hno; split; congruence|intros [? ?]; congruence]|].
    split; [intros [? ?]; done|]. intros [? ?]. split; [done|]. intros [_ ?]. congruence.
Qed.

(** *** Emptying a chain from the front *)
Lemma chains_ok_stale N heads b chain : chains_ok N heads 0 chain -> chains_ok N heads b chain.
Proof.
  intros [Hr Hm]. split; [|done]. intros c Hc. destruct (Hr c Hc) as [Hok Hh Hn Hp]. split; [done|done|done|].
  intros i Hi _. apply Hp; [done|left]. by rewrite bool_decide_eq_false_2.
Qed.

Lemma chain_pop_ok N heads b n rest chain : chains_ok N heads b chain -> b <> 0 -> chain b = n :: rest ->
  chains_ok (<[n := clear_node (N n)]> N) (<[b := block_chain_next (N n)]> heads) b (<[b := rest]> chain).
Proof.
  intros [Hr Hm] Hb Hc. destruct (Hr b Hb) as [Hok Hh Hnx Hpv]. rewrite Hc in *. pose proof (proj1 (nodes_ok_cons rest n) Hok) as (Hokr & Hn0 & Hnr).
  assert (Hbl : blocker (N n) = b) by (apply (Hm b); [done|rewrite Hc; by left]).
  assert (Hkeep : forall x, x <> n -> (<[n := clear_node (N n)]> N) x = N x) by (intros x Hx; by rewrite fn_lookup_insert_ne by congruence).
  split.
  - intros c Hc0. destruct (decide (b = c)) as [<-|Hbc].
    + rewrite !fn_lookup_insert. assert (Hin : forall i, (i < length rest)%nat -> at_ rest i <> n) by (intros i Hi E; apply Hnr; rewrite <- E; by apply at_elem).
      split; [done|exact (Hnx 0%nat ltac:(cbn; lia))|..].
      * intros i Hi. rewrite Hkeep by auto. exact (Hnx (S i) ltac:(cbn; lia)).
      * intros i Hi [Hfalse|Hpos]; [by rewrite bool_decide_eq_true_2 in Hfalse|]. rewrite Hkeep by auto.
        etrans; [exact (Hpv (S i) ltac:(cbn; lia) ltac:(right; lia))|]. by apply before_S.
    + rewrite !fn_lookup_insert_ne by done. apply (chain_rep_ext N); [|by apply Hr]. intros x Hx. rewrite Hkeep; [done|]. intros ->.
      apply (Hm c) in Hx as [Hx _]; [|done]. congruence.
  - intros c x Hc0. rewrite (field_set N blocker clear_node n x 0) by done. destruct (decide (b = c)) as [<-|Hbc].
    + rewrite fn_lookup_insert. pose proof (Hm b x Hb) as Hmx. rewrite Hc, elem_of_cons in Hmx. destruct (decide (n = x)) as [<-|Hnx']; [split; [done|intros [? _]; congruence]|].
      rewrite <- Hmx. split; [tauto|]. intros [->|?]; [done|tauto].
    + rewrite fn_lookup_insert_ne, Hm by done. destruct (decide (n = x)) as [<-|Hnx']; [split; intros [? ?]; congruence|done].
Qed.

Lemma chain_fix_ok N heads b chain : chains_ok N heads b chain -> b <> 0 -> chains_ok (set_if (heads b) (with_chain_prev 0) N) heads 0 chain.
Proof.
  intros [Hr Hm] Hb. split.
  - intros c Hc. destruct (Hr c Hc) as [Hok Hh Hnx Hpv]. rewrite bool_decide_eq_false_2 by done. destruct (Hr b Hb) as [Hokb Hhb _ _]. split; [done|done|..].
    + intros i Hi. rewrite set_if_kept by done. by apply Hnx.
    + intros i Hi _. rewrite (set_if_set N block_chain_prev (with_chain_prev 0) _ _ 0) by done. rewrite Hhb. destruct (decide (at_ (chain b) 0 = at_ (chain c) i /\ at_ (chain c) i <> 0)) as [[E Hz]|D].
      * assert (c = b) as ->.
        { pose proof (at_elem _ i Hi) as H1. rewrite <- E in H1, Hz. apply at_elem_nonzero in Hz. apply (Hm c) in H1 as [? _]; [|done]. apply (Hm b) in Hz as [? _]; [|done]. congruence. }
        apply at_eq in E; [|done|done]. by subst i.
      * apply Hpv; [done|]. destruct (decide (c = b)) as [->|Hcb]; [|left; by rewrite bool_decide_eq_false_2]. right. destruct i; [|lia]. destruct D. split; [done|].
        rewrite at_zero by done. lia.
  - intros c x Hc. rewrite set_if_kept by done. by apply Hm.
Qed.
