(* ===== verification/SchedulerInv.v ===== *)
(** * The lists of all schedulers

    Every thread is at one place: runnable, sleeping or running on a processor,
    on its way to one in a message, or nowhere.  The lists of the processors
    share the links of the nodes; moving a thread changes the lists of one
    processor and leaves those of the others alone. *)
From stdpp Require Import functions.
From S2P Require Import Prelude SchedulerNode SchedulerHeapNode SchedulerNodeCorrect SchedulerHeapLinks SchedulerHeapCorrect Scheduler SchedulerChains.

Inductive loc : Type := Nowhere | Run (c : Z) | Sleep (c : Z) | Current (c : Z) | Flight (c : Z).

#[export] Instance loc_eq_dec : EqDecision loc.
Proof. solve_decision. Defined.

(** The threads of each list, first to last; the sleeping ones in heap order. *)
Record view : Type := mk_view { run : Z -> list Z; sleep : Z -> list Z; place : Z -> loc }.

Definition listed (p : loc) : option Z := match p with Run c | Sleep c => Some c | _ => None end.

Record lists_ok (L : links) (S : Z -> scheduler) (w : Z -> Z) (v : view) : Prop := {
  lo_queue : forall c, queue_rep (m_run_list (S c)) L (run v c);
  lo_heap : forall c, heap_rep (m_block_list (S c)) L (sleep v c);
  lo_order : forall c, heap_order w (sleep v c);
  lo_run : forall c x, x ∈ run v c <-> place v x = Run c;
  lo_sleep : forall c x, x ∈ sleep v c <-> place v x = Sleep c;
  lo_free : forall x, listed (place v x) = None -> unlinked L x
}.

(** ** Links outside a list *)
Lemma queue_rep_outside q L L' l l0 : queue_rep q L l -> outside l0 L L' -> (forall y, y ∈ l -> y ∉ l0) -> queue_rep q L' l.
Proof.
  intros [Hok Hh Ht Hn Hp Hs] Ho Hd. split; try done.
  - intros i Hi. destruct (Ho (at_ l i)) as (-> & _ & _); [by apply Hd, at_elem|by apply Hn].
  - intros i Hi. destruct (Ho (at_ l i)) as (_ & -> & _); [by apply Hd, at_elem|by apply Hp].
  - intros p Hin. destruct (Ho p) as (_ & _ & ->); [by apply Hd|by apply Hs].
Qed.

Lemma heap_rep_outside h L L' l l0 : heap_rep h L l -> outside l0 L L' -> (forall y, y ∈ l -> y ∉ l0) -> heap_rep h L' l.
Proof.
  intros [[Hok Hp Hl Hr] Hroot Hlast] Ho Hd. split; [split; [done|..]|done|done]; intros i Hi.
  - destruct (Ho (at_ l i)) as (-> & _ & _); [by apply Hd, at_elem|by apply Hp].
  - destruct (Ho (at_ l i)) as (_ & -> & _); [by apply Hd, at_elem|by apply Hl].
  - destruct (Ho (at_ l i)) as (_ & _ & ->); [by apply Hd, at_elem|by apply Hr].
Qed.

Lemma unlinked_outside l L L' x : outside l L L' -> x ∉ l -> unlinked L x -> unlinked L' x.
Proof. intros Ho Hx (E0 & E1 & E2). destruct (Ho x Hx) as (F0 & F1 & F2). split_and!; congruence. Qed.

(** ** One thread moves in or out of the lists of one processor *)
Section move.
Context (L L' : links) (S : Z -> scheduler) (w : Z -> Z) (v : view) (c x : Z) (s' : scheduler) (run' sleep' : list Z) (p' : loc) (l0 : list Z).
Context (Hok : lists_ok L S w v).
Context (Hold : forall c', listed (place v x) = Some c' -> c' = c) (Hnew : forall c', listed p' = Some c' -> c' = c).
Context (Hout : outside (x :: l0) L L') (Hl0 : forall y, y ∈ l0 -> listed (place v y) = Some c).

Definition moved : view := mk_view (<[c := run']> (run v)) (<[c := sleep']> (sleep v)) (<[x := p']> (place v)).

Lemma elsewhere y c' : listed (place v y) = Some c' -> c' <> c -> y ∉ x :: l0.
Proof.
  intros Hy Hne [->|Hin]%elem_of_cons; [by apply Hne, Hold|]. apply Hl0 in Hin. congruence.
Qed.

Lemma moved_lists_ok : queue_rep (m_run_list s') L' run' -> heap_rep (m_block_list s') L' sleep' -> heap_order w sleep' ->
  (forall y, y ∈ run' <-> place moved y = Run c) -> (forall y, y ∈ sleep' <-> place moved y = Sleep c) -> (listed p' = None -> unlinked L' x) ->
  lists_ok L' (<[c := s']> S) w moved.
Proof.
  destruct Hok as [Hq Hh Ho Hr Hs Hf]. intros Hq' Hh' Ho' Hr' Hs' Hf'.
  assert (Hplace : forall y, y <> x -> place moved y = place v y) by (intros y Hy; cbn; by rewrite fn_lookup_insert_ne by congruence).
  assert (Hx : place moved x = p') by (cbn; by rewrite fn_lookup_insert).
  split; cbn [run sleep moved].
  - intros d. destruct (decide (c = d)) as [<-|Hd]; [by rewrite !fn_lookup_insert|]. rewrite !fn_lookup_insert_ne by done.
    eapply queue_rep_outside; [done|done|]. intros y Hy. apply (elsewhere y d); [|done]. apply Hr in Hy. by rewrite Hy.
  - intros d. destruct (decide (c = d)) as [<-|Hd]; [by rewrite !fn_lookup_insert|]. rewrite !fn_lookup_insert_ne by done.
    eapply heap_rep_outside; [done|done|]. intros y Hy. apply (elsewhere y d); [|done]. apply Hs in Hy. by rewrite Hy.
  - intros d. destruct (decide (c = d)) as [<-|Hd]; [by rewrite !fn_lookup_insert|by rewrite !fn_lookup_insert_ne].
  - intros d y. destruct (decide (c = d)) as [<-|Hd]; [by rewrite fn_lookup_insert|]. rewrite fn_lookup_insert_ne, Hr by done. destruct (decide (y = x)) as [->|Hy]; [|by rewrite Hplace].
    rewrite Hx. split; intros E; rewrite E in *; destruct Hd; symmetry; [by apply Hold|by apply Hnew].
  - intros d y. destruct (decide (c = d)) as [<-|Hd]; [by rewrite fn_lookup_insert|]. rewrite fn_lookup_insert_ne, Hs by done. destruct (decide (y = x)) as [->|Hy]; [|by rewrite Hplace].
    rewrite Hx. split; intros E; rewrite E in *; destruct Hd; symmetry; [by apply Hold|by apply Hnew].
  - intros y Hy. destruct (decide (y = x)) as [->|Hyx]; [rewrite Hx in Hy; by apply Hf'|]. rewrite Hplace in Hy by done.
    eapply unlinked_outside; [done| |by apply Hf]. intros [->|Hin]%elem_of_cons; [done|]. apply Hl0 in Hin. congruence.
Qed.
End move.

Section moves.
Context (L : links) (S : Z -> scheduler) (w : Z -> Z) (v : view) (Hok : lists_ok L S w v).

Lemma listed_run c y : y ∈ run v c -> listed (place v y) = Some c.
Proof. rewrite (lo_run _ _ _ _ Hok). by intros ->. Qed.
Lemma listed_sleep c y : y ∈ sleep v c -> listed (place v y) = Some c.
Proof. rewrite (lo_sleep _ _ _ _ Hok). by intros ->. Qed.

Definition to_run (c x : Z) : view := moved v c x (run v c ++ [x]) (sleep v c) (Run c).

Lemma push_run_ok c x : x <> 0 -> listed (place v x) = None ->
  exists q L', SchedulerQueue.push (m_run_list (S c)) L x = Ok (q, L') /\ lists_ok L' (<[c := with_run_list q (S c)]> S) w (to_run c x).
Proof.
  intros Hx0 Hx. pose proof Hok as [Hq Hh Ho Hr Hs Hf].
  assert (Hnr : x ∉ run v c) by (intros Hin%listed_run; congruence). assert (Hns : x ∉ sleep v c) by (intros Hin%listed_sleep; congruence).
  destruct (queue_push _ L (run v c) x (Hq c) Hx0 Hnr (Hf x Hx)) as (q & L' & Hp & Hq' & Hout). exists q, L'. split; [done|].
  apply (moved_lists_ok L L' S w v c x _ _ _ _ (run v c)); try done; cbn.
  - congruence.
  - by intros ? [= <-].
  - intros y. apply listed_run.
  - eapply heap_rep_outside; [apply Hh|done|]. intros y Hy [->|Hin]%elem_of_cons; [done|]. apply Hs in Hy. apply Hr in Hin. congruence.
  - intros y. rewrite elem_of_app, list_elem_of_singleton, Hr. destruct (decide (x = y)) as [<-|Hne]; [rewrite fn_lookup_insert; tauto|rewrite fn_lookup_insert_ne by done]. split; [intros [?| ->]; done|tauto].
  - intros y. rewrite Hs. destruct (decide (x = y)) as [<-|Hne]; [rewrite fn_lookup_insert; split; [intros E; by rewrite E in Hx|done]|by rewrite fn_lookup_insert_ne].
Qed.

(** Taking the thread at [k] out of the run list, to the place [p]. *)
Definition from_run (c x : Z) (k : nat) (p : loc) : view := moved v c x (delete k (run v c)) (sleep v c) p.

Lemma from_run_ok c x k p q L' s' : run v c !! k = Some x -> listed p = None -> queue_rep q L' (delete k (run v c)) -> unlinked L' x -> outside (run v c) L L' ->
  m_run_list s' = q -> m_block_list s' = m_block_list (S c) -> lists_ok L' (<[c := s']> S) w (from_run c x k p).
Proof.
  intros Hk Hp Hq' Hun Hout Hs1 Hs2. pose proof Hok as [Hq Hh Ho Hr Hs Hf]. assert (Hin : x ∈ run v c) by (by eapply list_elem_of_lookup_2).
  assert (Hperm : run v c ≡ₚ x :: delete k (run v c)) by (by apply delete_Permutation).
  assert (Hnot : x ∉ delete k (run v c)).
  { destruct (qr_nodes _ _ _ (Hq c)) as [Hnd _]. rewrite Hperm in Hnd. by apply list.NoDup_cons in Hnd as [? _]. }
  apply (moved_lists_ok L L' S w v c x _ _ _ _ (run v c)); try done; cbn.
  - rewrite (listed_run c x Hin). congruence.
  - congruence.
  - eapply outside_sub; [|done]. intros y Hy. by right.
  - intros y. apply listed_run.
  - by rewrite Hs1.
  - rewrite Hs2. eapply heap_rep_outside; [apply Hh|done|]. intros y Hy Hin'. apply Hs in Hy. apply Hr in Hin'. congruence.
  - intros y. destruct (decide (x = y)) as [<-|Hne].
    + rewrite fn_lookup_insert. split; [done|]. intros ->. done.
    + rewrite fn_lookup_insert_ne, <- Hr by done. pose proof (elem_of_cons (delete k (run v c)) y x) as Hc. rewrite <- Hperm in Hc. rewrite Hc. split; [tauto|]. intros [->|?]; done.
  - intros y. rewrite Hs. destruct (decide (x = y)) as [<-|Hne]; [|by rewrite fn_lookup_insert_ne]. rewrite fn_lookup_insert. apply Hr in Hin. split; [congruence|]. intros ->. done.
Qed.

Definition to_sleep (c x : Z) (l : list Z) : view := moved v c x (run v c) l (Sleep c).

Lemma push_sleep_ok fuel c x : x <> 0 -> listed (place v x) = None -> (length (sleep v c) <= fuel)%nat ->
  exists h L' l, SchedulerHeap.push fuel w (m_block_list (S c)) L x = Ok (h, L') /\ lists_ok L' (<[c := with_block_list h (S c)]> S) w (to_sleep c x l).
Proof.
  intros Hx0 Hx Hfuel. pose proof Hok as [Hq Hh Ho Hr Hs Hf].
  assert (Hnr : x ∉ run v c) by (intros Hin%listed_run; congruence). assert (Hns : x ∉ sleep v c) by (intros Hin%listed_sleep; congruence).
  destruct (heap_push w fuel _ L (sleep v c) x (Hh c) (Ho c) Hx0 Hns (Hf x Hx) Hfuel) as (h & L' & l & Hp & Hh' & Hperm & Ho' & Hout). exists h, L', l. split; [done|].
  apply (moved_lists_ok L L' S w v c x _ _ _ _ (sleep v c)); try done; cbn.
  - congruence.
  - by intros ? [= <-].
  - intros y. apply listed_sleep.
  - eapply queue_rep_outside; [apply Hq|done|]. intros y Hy [->|Hin]%elem_of_cons; [done|]. apply Hr in Hy. apply Hs in Hin. congruence.
  - intros y. rewrite Hr. destruct (decide (x = y)) as [<-|Hne]; [rewrite fn_lookup_insert; split; [intros E; by rewrite E in Hx|done]|by rewrite fn_lookup_insert_ne].
  - intros y. rewrite Hperm, elem_of_cons, Hs. destruct (decide (x = y)) as [<-|Hne]; [rewrite fn_lookup_insert; tauto|rewrite fn_lookup_insert_ne by done]. split; [intros [->|?]; done|tauto].
Qed.

Definition from_sleep (c x : Z) (l : list Z) (p : loc) : view := moved v c x (run v c) l p.

Lemma pop_sleep_ok fuel c x p : place v x = Sleep c -> listed p = None -> (length (sleep v c) <= fuel)%nat ->
  exists h L' l, SchedulerHeap.pop fuel w (m_block_list (S c)) L x = Ok (h, L') /\ x :: l ≡ₚ sleep v c /\ lists_ok L' (<[c := with_block_list h (S c)]> S) w (from_sleep c x l p).
Proof.
  intros Hx Hp Hfuel. pose proof Hok as [Hq Hh Ho Hr Hs Hf]. assert (Hin : x ∈ sleep v c) by (by apply Hs).
  destruct (heap_pop w fuel _ L (sleep v c) x (Hh c) (Ho c) Hin Hfuel) as (h & L' & l & Hpop & Hh' & Hperm & Ho' & Hun & Hout). exists h, L', l. split; [done|]. split; [done|].
  assert (Hnot : x ∉ l).
  { destruct (hl_nodes _ _ (hr_links _ _ _ (Hh c))) as [Hnd _]. rewrite <- Hperm in Hnd. by apply list.NoDup_cons in Hnd as [? _]. }
  apply (moved_lists_ok L L' S w v c x _ _ _ _ (sleep v c)); try done; cbn.
  - rewrite (listed_sleep c x Hin). congruence.
  - congruence.
  - eapply outside_sub; [|done]. intros y Hy. by right.
  - intros y. apply listed_sleep.
  - eapply queue_rep_outside; [apply Hq|done|]. intros y Hy Hin'. apply Hr in Hy. apply Hs in Hin'. congruence.
  - intros y. rewrite Hr. destruct (decide (x = y)) as [<-|Hne]; [|by rewrite fn_lookup_insert_ne]. rewrite fn_lookup_insert. split; [congruence|]. intros ->. done.
  - intros y. destruct (decide (x = y)) as [<-|Hne].
    + rewrite fn_lookup_insert. split; [done|]. intros ->. done.
    + rewrite fn_lookup_insert_ne, <- Hs, <- Hperm, elem_of_cons by done. split; [tauto|]. intros [->|?]; done.
Qed.
End moves.

Lemma lists_ok_ext L S S' w w' v : lists_ok L S w v -> (forall c, m_run_list (S' c) = m_run_list (S c) /\ m_block_list (S' c) = m_block_list (S c)) ->
  (forall x c, place v x = Sleep c -> w' x = w x) -> lists_ok L S' w' v.
Proof.
  intros Hok Hc Hw. pose proof Hok as [Hq Hh Ho Hr Hs Hf]. split; try done.
  - intros c. destruct (Hc c) as [-> _]. apply Hq.
  - intros c. destruct (Hc c) as [_ ->]. apply Hh.
  - intros c i Hi. pose proof (pidx_spec 0 i).
    assert (Hin : forall k, (k < length (sleep v c))%nat -> w' (at_ (sleep v c) k) = w (at_ (sleep v c) k)) by (intros k Hk; apply (Hw _ c), Hs, at_elem, Hk).
    rewrite !Hin by lia. by apply Ho.
Qed.

(** The first thread in the run list, taken. *)
Lemma pop_front_ok L S w v c p : lists_ok L S w v -> listed p = None ->
  match run v c with
  | [] => SchedulerQueue.pop_front (m_run_list (S c)) L = (0, m_run_list (S c), L)
  | x :: _ => exists q L', SchedulerQueue.pop_front (m_run_list (S c)) L = (x, q, L') /\
      forall s', m_run_list s' = q -> m_block_list s' = m_block_list (S c) -> lists_ok L' (<[c := s']> S) w (from_run v c x 0 p)
  end.
Proof.
  intros Hok Hp. pose proof Hok as [Hq _ _ _ _ _]. destruct (run v c) as [|x l] eqn:Er.
  - unfold SchedulerQueue.pop_front. rewrite (queue_empty _ _ _ (Hq c)), Er. done.
  - pose proof (Hq c) as Hqc. rewrite Er in Hqc. destruct (queue_pop_front _ _ _ _ Hqc) as (q & L' & Hpop & Hq' & Hun & Hout). exists q, L'. split; [done|].
    intros s' Hs1 Hs2. eapply from_run_ok; try done; rewrite Er; done.
Qed.
