(* ===== verification/SchedulerCorrect.v ===== *)
(** * The scheduler keeps its threads

    The invariant of the machine ties every thread's flags to its place, the
    chains of the blockers to the threads' [blocker] fields, and the pending
    messages to the threads on their way.  Every operation succeeds and keeps
    it. *)
From stdpp Require Import functions.
From S2P Require Import Prelude SchedulerNode SchedulerHeapNode SchedulerNodeCorrect SchedulerHeapLinks SchedulerHeapCorrect Scheduler SchedulerChains SchedulerInv.

(** The processor a thread belongs to, and the one whose lists or core have it. *)
Definition cpu_of (p : loc) : option Z := match p with Nowhere => None | Run c | Sleep c | Current c | Flight c => Some c end.
Definition home (p : loc) : option Z := match p with Run c | Sleep c | Current c => Some c | _ => None end.

Definition node_ok (n : node) (t : thread) (p : loc) : Prop :=
  match p with
  | Nowhere => blocked n = false /\ blocker n = 0 /\ m_cpu_time_start_ns t = UINT64_MAX
  | Run c | Flight c => processor_id n = c /\ blocked n = false /\ blocker n = 0 /\ m_state t <> Terminated /\ m_cpu_time_start_ns t = UINT64_MAX
  | Sleep c => processor_id n = c /\ blocked n = true /\ m_state t <> Terminated /\ m_cpu_time_start_ns t = UINT64_MAX
  | Current c => processor_id n = c /\ (blocked n = false -> blocker n = 0) /\ m_cpu_time_start_ns t <> UINT64_MAX
  end.

Lemma node_ok_ext n n' t t' p : processor_id n' = processor_id n -> blocked n' = blocked n -> blocker n' = blocker n -> m_state t' = m_state t ->
  m_cpu_time_start_ns t' = m_cpu_time_start_ns t -> node_ok n t p -> node_ok n' t' p.
Proof. intros E1 E2 E3 E4 E5. unfold node_ok. by rewrite E1, E2, E3, E4, E5. Qed.

Definition new_threads (ms : list SMPMessage) : list Z := omap (fun m => match m with NewThread t => Some t | UnblockThread _ => None end) ms.

Section invariant.
(** All threads there are. *)
Context (fuel : nat) (ids : list Z) (T : list Z).

(** [cur]: the running threads; [extra]: messages taken off but not handled yet. *)
Record inv (M : machine) (stale : Z) (cur : Z -> Z) (extra : Z -> list SMPMessage) (v : view) (chain : Z -> list Z) : Prop := {
  iv_lists : lists_ok (node_links M) (schedulers M) (fun x => wake_time_ns (nodes M x)) v;
  iv_nodes : forall x, node_ok (nodes M x) (threads M x) (place v x);
  iv_known : forall x, place v x <> Nowhere -> x ∈ T;
  iv_cpu : forall x c, cpu_of (place v x) = Some c -> c ∈ ids;
  iv_chains : chains_ok (nodes M) (block_chains M) stale chain;
  iv_current : forall c x, x <> 0 -> cur c = x <-> place v x = Current c;
  iv_flight : forall c x, x ∈ new_threads (p_smp_pending (processors M c) ++ extra c) <-> place v x = Flight c;
  iv_once : forall c, NoDup (new_threads (p_smp_pending (processors M c) ++ extra c));
  iv_ids : forall c, c ∈ ids -> c < s_processors_size;
  iv_bound : forall c x, UnblockThread x ∈ p_smp_pending (processors M c) ++ extra c -> processor_id (nodes M x) ∈ ids
}.

(** Only lists, blocking and chains change, and requests to unblock are sent. *)
Record quiet (M M' : machine) : Prop := {
  qu_threads : threads M' = threads M;
  qu_clock : clock_reads M' = clock_reads M;
  qu_mutexes : mutexes M' = mutexes M;
  qu_infos : s_processor_infos M' = s_processor_infos M;
  qu_index : s_next_processor_index M' = s_next_processor_index M;
  qu_nodes : forall x, wake_time_ns (nodes M' x) = wake_time_ns (nodes M x) /\ processor_id (nodes M' x) = processor_id (nodes M x) /\
    last_start_ns (nodes M' x) = last_start_ns (nodes M x) /\ time_used_ns (nodes M' x) = time_used_ns (nodes M x);
  qu_scheds : forall c, schedulers M' c = with_run_list (m_run_list (schedulers M' c)) (with_block_list (m_block_list (schedulers M' c)) (schedulers M c));
  qu_cpus : forall c, exists ms, processors M' c = with_smp_pending (ms ++ p_smp_pending (processors M c)) (processors M c) /\ new_threads ms = []
}.

Lemma quiet_refl M : quiet M M.
Proof. split; try done. - intros c. by destruct (schedulers M c). - intros c. exists []. by destruct (processors M c). Qed.

Lemma quiet_trans M1 M2 M3 : quiet M1 M2 -> quiet M2 M3 -> quiet M1 M3.
Proof.
  intros [A1 A2 A3 A4 A5 A6 A7 A8] [B1 B2 B3 B4 B5 B6 B7 B8]. split; try congruence.
  - intros x. destruct (A6 x) as (<- & <- & <- & <-). apply B6.
  - intros c. rewrite B7, A7 at 1. done.
  - intros c. destruct (A8 c) as (ms & Ea & Ha). destruct (B8 c) as (ms' & Eb & Hb). exists (ms' ++ ms). rewrite Eb, Ea. cbn. split; [by rewrite <- (assoc_L (++))|].
    unfold new_threads in *. by rewrite omap_app, Ha, Hb.
Qed.

Context (HT : (length T <= fuel)%nat).

Lemma sleep_short M stale cur extra v chain c : inv M stale cur extra v chain -> (length (sleep v c) <= fuel)%nat.
Proof.
  intros [Hl _ Hk _ _ _ _ _ _ _]. destruct Hl as [_ Hh _ _ Hs _]. destruct (hl_nodes _ _ (hr_links _ _ _ (Hh c))) as [Hnd _].
  etrans; [|exact HT]. apply submseteq_length, NoDup_submseteq; [done|]. intros x Hx. apply Hk. apply Hs in Hx. by rewrite Hx.
Qed.

(** ** Chains *)
Definition with_chains (N : Z -> node) (heads : Z -> Z) (M : machine) : machine :=
  mk_machine N (threads M) (node_links M) heads (schedulers M) (processors M) (s_processor_infos M) (s_next_processor_index M) (mutexes M) (clock_reads M).

Lemma remove_thread_alt b n M : blocker (nodes M n) = b -> blocked (nodes M n) = true -> block_chain_prev (nodes M n) <> n -> block_chain_next (nodes M n) <> n ->
  remove_thread_from_block_queue b n M =
    Ok (with_chains (chain_remove n (nodes M)) (if n =? block_chains M b then <[b := block_chain_next (nodes M n)]> (block_chains M) else block_chains M) M).
Proof.
  intros Hb Hbl Hp Hn. unfold remove_thread_from_block_queue, chain_remove. rewrite Hb, Z.eqb_refl, Hbl. cbn [negb].
  destruct (Z.eqb_spec (block_chain_prev (nodes M n)) 0) as [E1|E1]; cbn [nodes set_node]; rewrite ?(fn_lookup_insert_ne _ _ n) by done;
    destruct (Z.eqb_spec (block_chain_next (nodes M n)) 0) as [E2|E2]; cbn [nodes set_node block_chains]; rewrite ?(fn_lookup_insert_ne _ _ n) by done;
    destruct (n =? block_chains M b); unfold set_node, set_chain, with_chains; cbn; by rewrite ?(fn_lookup_insert_ne _ _ n) by done.
Qed.

Lemma place_moved (P : loc -> Prop) (pl : Z -> loc) x p' y : P (pl x) <-> P p' -> P ((<[x := p']> pl) y) <-> P (pl y).
Proof. intros HP. destruct (decide (x = y)) as [<-|Hne]; [by rewrite fn_lookup_insert|by rewrite fn_lookup_insert_ne]. Qed.

(** A node whose chain links are cleared. *)
Lemma drop_chain_ok M stale chain t : chains_ok (nodes M) (block_chains M) stale chain -> t <> 0 -> blocked (nodes M t) = true -> (blocker (nodes M t) = 0 \/ stale = 0) ->
  exists N' heads' chain', (if blocker (nodes M t) =? 0 then Ok M else remove_thread_from_block_queue (blocker (nodes M t)) t M) = Ok (with_chains N' heads' M) /\
    chains_ok N' heads' stale chain' /\ (forall b x, b <> 0 -> x ∈ chain' b <-> x ∈ chain b /\ x <> t) /\ (blocker (nodes M t) = 0 -> chain' = chain) /\ blocker (N' t) = 0 /\
    (forall x, x <> t -> blocker (N' x) = blocker (nodes M x)) /\
    (forall A (f : node -> A) x, (forall y v, f (with_blocker v y) = f y) -> (forall y v, f (with_chain_next v y) = f y) -> (forall y v, f (with_chain_prev v y) = f y) -> f (N' x) = f (nodes M x)).
Proof.
  intros Hc Ht0 Hbl Hst. destruct (Z.eqb_spec (blocker (nodes M t)) 0) as [E|E].
  - exists (nodes M), (block_chains M), chain. split_and!; try done; [by destruct M|]. intros b x Hb. split; [|tauto]. intros Hx. split; [done|]. intros ->.
    apply (co_mem _ _ _ _ Hc b t Hb) in Hx as [Hx _]. congruence.
  - destruct Hst as [?|Hst]; [done|]. subst stale. destruct (chain_remove_ok _ _ _ _ t Hc E Ht0 eq_refl) as (chain' & Hc' & Hmem & Hp & Hn).
    rewrite remove_thread_alt by done. eexists _, _, chain'. split; [done|]. split; [done|]. split_and!.
    + intros b x Hb. rewrite Hmem. split; [|tauto]. intros [Hx Hno]. split; [done|]. intros ->. apply Hno. split; [|done]. apply (co_mem _ _ _ _ Hc b t Hb) in Hx as [Hx _]. congruence.
    + done.
    + rewrite chain_remove_blocker by done. by rewrite decide_True.
    + intros x Hx. rewrite chain_remove_blocker by done. by rewrite decide_False.
    + intros A f x H1 H2 H3. by apply chain_remove_kept.
Qed.

(** A sleeping thread leaves its lists. *)
Lemma leave_ok me t M stale cur extra v chain : inv M stale cur extra v chain -> place v t = Sleep me -> (blocker (nodes M t) = 0 \/ stale = 0) ->
  exists M' l chain', leave_block_list fuel me t M = Ok M' /\ t :: l ≡ₚ sleep v me /\ inv M' stale cur extra (from_sleep v me t l Nowhere) chain' /\
    quiet M M' /\ processors M' = processors M /\ (forall b x, b <> 0 -> x ∈ chain' b <-> x ∈ chain b /\ x <> t) /\
    (blocker (nodes M t) = 0 -> chain' = chain) /\ (forall x, x <> t -> blocked (nodes M' x) = blocked (nodes M x)).
Proof.
  intros Hinv Hpl Hst. pose proof Hinv as [Hl Hn Hk Hcpu Hc Hcur Hfl Hon Hlim Hbd]. pose proof (Hn t) as Hnt. rewrite Hpl in Hnt. destruct Hnt as (Hproc & Hbl & Hstate & Hstart).
  assert (Ht0 : t <> 0).
  { intros ->. destruct (hl_nodes _ _ (hr_links _ _ _ (lo_heap _ _ _ _ Hl me))) as [_ H0]. apply H0. by apply (lo_sleep _ _ _ _ Hl). }
  unfold leave_block_list, block_pop.
  destruct (pop_sleep_ok _ _ _ _ Hl fuel me t Nowhere Hpl eq_refl (sleep_short _ _ _ _ _ _ me Hinv)) as (h & L' & l & -> & Hperm & Hl'). cbv zeta.
  set (M1 := set_links L' (set_sched me (with_block_list h) M)).
  destruct (drop_chain_ok M1 stale chain t Hc Ht0 Hbl Hst) as (N' & heads' & chain' & -> & Hc' & Hmem & Hsame & Hb0 & Hbx & Hkeep).
  assert (HN : forall A (f : node -> A) x, (forall y v, f (with_blocker v y) = f y) -> (forall y v, f (with_chain_next v y) = f y) -> (forall y v, f (with_chain_prev v y) = f y) ->
    (forall y v, f (with_blocked v y) = f y) -> f ((<[t := with_blocked false (N' t)]> N') x) = f (nodes M x)).
  { intros A f x H1 H2 H3 H4. rewrite (field_kept N' f (with_blocked false)) by done. by rewrite Hkeep. }
  eexists _, l, chain'. split; [done|]. split; [done|]. split; [|split; [|split; [done|split; [done|split; [done|]]]]].
  - split; cbn [set_node with_chains nodes threads node_links block_chains schedulers processors M1 set_links set_sched].
    + eapply lists_ok_ext; [exact Hl'|done|]. intros x c _. by apply HN.
    + intros x. cbn [from_sleep moved place]. destruct (decide (t = x)) as [<-|Hx]; [by rewrite !fn_lookup_insert|]. rewrite !fn_lookup_insert_ne by done.
      eapply node_ok_ext; [..|apply Hn]; [by apply Hkeep..|by apply Hbx|done|done].
    + intros x. cbn [from_sleep moved place]. destruct (decide (t = x)) as [<-|Hx]; [by rewrite fn_lookup_insert|]. rewrite fn_lookup_insert_ne by done. apply Hk.
    + intros x c. cbn [from_sleep moved place]. destruct (decide (t = x)) as [<-|Hx]; [by rewrite fn_lookup_insert|]. rewrite fn_lookup_insert_ne by done. apply Hcpu.
    + eapply chains_ok_ext; [|exact Hc']. intros x. rewrite !(field_kept N') by done. done.
    + intros c x Hx. rewrite Hcur by done. symmetry. apply (place_moved (fun p => p = Current c)). by rewrite Hpl.
    + intros c x. rewrite Hfl. symmetry. apply (place_moved (fun p => p = Flight c)). by rewrite Hpl.
    + done.
    + done.
    + intros c x Hx. rewrite HN by done. by apply (Hbd c).
  - split; cbn; try done.
    + intros x. rewrite !HN by done. done.
    + intros c. destruct (decide (me = c)) as [<-|Hne]; [rewrite fn_lookup_insert; by destruct (schedulers M me)|rewrite fn_lookup_insert_ne by done; by destruct (schedulers M c)].
    + intros c. exists []. by destruct (processors M c).
  - intros x Hx. cbn. rewrite fn_lookup_insert_ne by congruence. by apply Hkeep.
Qed.

(** A thread that is nowhere becomes runnable. *)
Lemma run_push_ok me t M stale cur extra v chain : inv M stale cur extra v chain -> place v t = Nowhere -> t <> 0 -> t ∈ T -> me ∈ ids ->
  processor_id (nodes M t) = me -> m_state (threads M t) <> Terminated ->
  exists M', run_push me t M = Ok M' /\ inv M' stale cur extra (to_run v me t) chain /\ quiet M M' /\ processors M' = processors M /\ nodes M' = nodes M.
Proof.
  intros [Hl Hn Hk Hcpu Hc Hcur Hfl Hon Hlim Hbd] Hpl Ht0 HtT Hme Hproc Hst. unfold run_push.
  destruct (push_run_ok _ _ _ _ Hl me t Ht0) as (q & L' & -> & Hl'); [by rewrite Hpl|]. eexists. split; [done|].
  pose proof (Hn t) as Hnt. rewrite Hpl in Hnt. destruct Hnt as (Hb & Hb0 & Hs).
  split; [|split; [|done]].
  - split; cbn [set_links set_sched nodes threads node_links block_chains schedulers processors to_run moved place]; try done.
    + intros x. destruct (decide (t = x)) as [<-|Hx]; [by rewrite fn_lookup_insert|]. rewrite fn_lookup_insert_ne by done. apply Hn.
    + intros x. destruct (decide (t = x)) as [<-|Hx]; [done|]. rewrite fn_lookup_insert_ne by done. apply Hk.
    + intros x c. destruct (decide (t = x)) as [<-|Hx]; [rewrite fn_lookup_insert; by intros [= <-]|]. rewrite fn_lookup_insert_ne by done. apply Hcpu.
    + intros c x Hx. rewrite Hcur by done. symmetry. apply (place_moved (fun p => p = Current c)). by rewrite Hpl.
    + intros c x. rewrite Hfl. symmetry. apply (place_moved (fun p => p = Flight c)). by rewrite Hpl.
  - split; cbn; try done.
    + intros c. destruct (decide (me = c)) as [<-|Hne]; [rewrite fn_lookup_insert; by destruct (schedulers M me)|rewrite fn_lookup_insert_ne by done; by destruct (schedulers M c)].
    + intros c. exists []. by destruct (processors M c).
Qed.

Lemma with_smp_same p : p_smp_messages_disabled p = false -> with_smp_disabled false (with_smp_disabled true p) = p.
Proof. intros E. destruct p. cbn in *. by subst. Qed.

(** The switch that holds back messages does not matter to the invariant. *)
Lemma inv_smp_disabled me d M stale cur extra v chain : inv M stale cur extra v chain -> inv (set_cpu me (with_smp_disabled d) M) stale cur extra v chain.
Proof.
  intros [Hl Hn Hk Hcpu Hc Hcur Hfl Hon Hlim Hbd]. split; cbn; try done.
  - intros c x. destruct (decide (me = c)) as [<-|Hne]; [rewrite fn_lookup_insert|rewrite fn_lookup_insert_ne by done]; apply Hfl.
  - intros c. destruct (decide (me = c)) as [<-|Hne]; [rewrite fn_lookup_insert|rewrite fn_lookup_insert_ne by done]; apply Hon.
  - intros c x. destruct (decide (me = c)) as [<-|Hne]; [rewrite fn_lookup_insert|rewrite fn_lookup_insert_ne by done]; apply Hbd.
Qed.

Lemma send_unblock_ok me t target M stale cur extra v chain : inv M stale cur extra v chain -> target <> me -> target ∈ ids -> processor_id (nodes M t) ∈ ids ->
  exists M', send_smp_message me target (UnblockThread t) M = Ok M' /\ inv M' stale cur extra v chain /\ quiet M M' /\ UnblockThread t ∈ p_smp_pending (processors M' target) /\ nodes M' = nodes M.
Proof.
  intros [Hl Hn Hk Hcpu Hc Hcur Hfl Hon Hlim Hbd] Hne Htg Hpr. unfold send_smp_message. rewrite (proj2 (Z.eqb_neq _ _) Hne), (proj2 (Z.ltb_lt _ _) (Hlim _ Htg)). cbn [negb]. eexists. split; [done|]. split; [|split].
  - split; cbn; try done.
    + intros c x. destruct (decide (target = c)) as [<-|Hc']; [rewrite fn_lookup_insert|rewrite fn_lookup_insert_ne by done]; apply Hfl.
    + intros c. destruct (decide (target = c)) as [<-|Hc']; [rewrite fn_lookup_insert|rewrite fn_lookup_insert_ne by done]; apply Hon.
    + intros c x. destruct (decide (target = c)) as [<-|Hc']; [rewrite fn_lookup_insert|rewrite fn_lookup_insert_ne by done; apply Hbd]. cbn. intros [[= ->]|Hx]%elem_of_cons; [done|by apply (Hbd target)].
  - split; cbn; try done; [intros c; by destruct (schedulers M c)|]. intros c. destruct (decide (target = c)) as [<-|Hc']; [rewrite fn_lookup_insert; by exists [UnblockThread t]|].
    rewrite fn_lookup_insert_ne by done. exists []. by destruct (processors M c).
  - cbn. rewrite fn_lookup_insert. split; [by left|done].
Qed.

(** What [unblock_thread] does to the places. *)
Record woken (v v' : view) (me t : Z) : Prop := {
  wo_place : forall y, place v' y = if decide (y = t) then Run me else place v y;
  wo_run : run v' me = run v me ++ [t];
  wo_runs : forall c, c <> me -> run v' c = run v c
}.

Lemma unblock_thread_ok me t M stale cur extra v chain : inv M stale cur extra v chain -> p_smp_messages_disabled (processors M me) = false ->
  (place v t = Sleep me -> blocker (nodes M t) = 0 \/ stale = 0) -> (place v t = Current me -> blocked (nodes M t) = false) -> processor_id (nodes M t) ∈ ids ->
  exists M' v' chain', unblock_thread fuel me t M = Ok M' /\ inv M' stale cur extra v' chain' /\ quiet M M' /\
    (place v t = Sleep me -> woken v v' me t) /\ (place v t <> Sleep me -> v' = v) /\
    (forall b x, b <> 0 -> x ∈ chain' b <-> x ∈ chain b /\ ~ (x = t /\ place v t = Sleep me)) /\
    (blocker (nodes M t) = 0 -> chain' = chain) /\ (forall x, x <> t -> blocked (nodes M' x) = blocked (nodes M x)) /\
    (processor_id (nodes M t) <> me -> UnblockThread t ∈ p_smp_pending (processors M' (processor_id (nodes M t)))).
Proof.
  intros Hinv Hsmp Hbl Hcur Hpr. unfold unblock_thread. pose proof (iv_nodes _ _ _ _ _ _ Hinv t) as Hnt.
  destruct (Z.eqb_spec (processor_id (nodes M t)) me) as [Hproc|Hproc]; cbn [negb].
  - destruct (blocked (nodes M t)) eqn:Hb; cbn [negb].
    + assert (Hpl : place v t = Sleep me).
      { destruct (place v t) as [|c|c|c|c] eqn:Hp; cbn in Hnt; destruct_and?; try congruence. subst. by specialize (Hcur eq_refl). }
      unfold set_disable_smp_messages at 1. rewrite Hsmp. cbn [negb eqb]. set (M0 := set_cpu me (with_smp_disabled true) M).
      assert (Hinv0 : inv M0 stale cur extra v chain) by (by apply inv_smp_disabled).
      destruct (leave_ok me t M0 _ _ _ _ _ Hinv0 Hpl (Hbl Hpl)) as (M1 & l & chain' & -> & Hperm & Hinv1 & Hq1 & Hcpu1 & Hmem & Hsame & Hblk).
      rewrite Hpl in Hnt. destruct Hnt as (_ & _ & Hstate & _).
      destruct (run_push_ok me t M1 _ _ _ _ _ Hinv1) as (M2 & -> & Hinv2 & Hq2 & Hcpu2 & Hnd2).
      { cbn. by rewrite fn_lookup_insert. }
      { intros ->. destruct (hl_nodes _ _ (hr_links _ _ _ (lo_heap _ _ _ _ (iv_lists _ _ _ _ _ _ Hinv) me))) as [_ H0]. apply H0. by apply (lo_sleep _ _ _ _ (iv_lists _ _ _ _ _ _ Hinv)). }
      { apply (iv_known _ _ _ _ _ _ Hinv). congruence. }
      { apply (iv_cpu _ _ _ _ _ _ Hinv t). by rewrite Hpl. }
      { by rewrite (proj1 (proj2 (qu_nodes _ _ Hq1 t))). }
      { rewrite (qu_threads _ _ Hq1). done. }
      assert (Hd : p_smp_messages_disabled (processors M2 me) = true) by (rewrite Hcpu2, Hcpu1; cbn; by rewrite fn_lookup_insert).
      unfold set_disable_smp_messages. rewrite Hd. cbn [negb eqb]. eexists _, _, chain'. split; [done|]. split; [by apply inv_smp_disabled|]. split_and!; try done.
      * pose proof (quiet_trans _ _ _ Hq1 Hq2) as [Q1 Q2 Q3 Q4 Q5 Q6 Q7 Q8]. split; try done. intros c. exists []. cbn.
        destruct (decide (me = c)) as [<-|Hne]; [rewrite fn_lookup_insert, Hcpu2, Hcpu1; cbn; rewrite fn_lookup_insert; rewrite with_smp_same by done; by destruct (processors M me)|].
        rewrite fn_lookup_insert_ne, Hcpu2, Hcpu1 by done. cbn. rewrite fn_lookup_insert_ne by done. by destruct (processors M c).
      * intros _. split; cbn.
        -- intros y. destruct (decide (t = y)) as [<-|Hy]; [by rewrite fn_lookup_insert, decide_True|by rewrite !fn_lookup_insert_ne, decide_False by congruence].
        -- by rewrite !fn_lookup_insert.
        -- intros c Hc. by rewrite !fn_lookup_insert_ne by congruence.
      * intros b x Hb0. rewrite Hmem by done. split; intros [? Hno]; (split; [done|]); [intros [-> _]; done|]. intros ->. by apply Hno.
      * intros x Hx. cbn. rewrite Hnd2, Hblk by done. done.
    + eexists M, v, chain. split; [done|]. split; [done|]. assert (place v t <> Sleep me) by (intros E; rewrite E in Hnt; cbn in Hnt; destruct_and?; congruence).
      split_and!; try done; [apply quiet_refl|]. intros b x _. split; [|tauto]. intros Hx. split; [done|]. tauto.
  - destruct (send_unblock_ok me t _ _ _ _ _ _ _ Hinv Hproc Hpr Hpr) as (M' & -> & Hinv' & Hq & Hin & Hnd). exists M', v, chain. split; [done|]. split; [done|].
    assert (place v t <> Sleep me) by (intros E; rewrite E in Hnt; cbn in Hnt; destruct_and?; congruence).
    split_and!; try done; [|by rewrite Hnd]. intros b x _. split; [|tauto]. intros Hx. split; [done|]. tauto.
Qed.

(** ** Waking the threads of a chain *)
Lemma chain_blocked M stale cur extra v chain b x : inv M stale cur extra v chain -> b <> 0 -> x ∈ chain b -> blocker (nodes M x) = b /\ blocked (nodes M x) = true.
Proof.
  intros Hinv Hb Hx. apply (co_mem _ _ _ _ (iv_chains _ _ _ _ _ _ Hinv)) in Hx as [Hx _]; [|done]. split; [done|].
  pose proof (iv_nodes _ _ _ _ _ _ Hinv x) as Hn. destruct (place v x); cbn in Hn; destruct_and?; try congruence. destruct (blocked (nodes M x)); [done|]. naive_solver.
Qed.

Lemma inv_pop_chain M b cur extra v chain n rest : inv M b cur extra v chain -> b <> 0 -> chain b = n :: rest ->
  inv (set_node n clear_node (set_chain b (block_chain_next (nodes M n)) M)) b cur extra v (<[b := rest]> chain).
Proof.
  intros Hinv Hb Hc. pose proof Hinv as [Hl Hn Hk Hcpu Hch Hcur Hfl Hon Hlim Hbd].
  destruct (chain_blocked _ _ _ _ _ _ b n Hinv Hb) as [Hbl Hblk]; [rewrite Hc; by left|].
  split; cbn [set_node set_chain nodes threads node_links block_chains schedulers processors]; try done.
  - eapply lists_ok_ext; [exact Hl|done|]. intros x c _. by apply (field_kept (nodes M) wake_time_ns clear_node).
  - intros x. destruct (decide (n = x)) as [<-|Hx]; [|rewrite fn_lookup_insert_ne by done; apply Hn]. rewrite fn_lookup_insert. specialize (Hn n).
    destruct (place v n); cbn in *; destruct_and?; split_and!; congruence || done.
  - by apply chain_pop_ok.
  - intros c x Hx. rewrite (field_kept (nodes M) processor_id clear_node) by done. by apply (Hbd c).
Qed.

(** A thread that is somewhere has a processor. *)
Lemma placed_bound M stale cur extra v chain x c : inv M stale cur extra v chain -> cpu_of (place v x) = Some c -> processor_id (nodes M x) ∈ ids.
Proof.
  intros Hinv Hx. pose proof (iv_cpu _ _ _ _ _ _ Hinv x c Hx) as Hc. pose proof (iv_nodes _ _ _ _ _ _ Hinv x) as Hn. destruct (place v x); cbn in *; simplify_eq; by destruct Hn as [-> _].
Qed.

Lemma chain_bound M stale cur extra v chain b x : inv M stale cur extra v chain -> b <> 0 -> x ∈ chain b -> processor_id (nodes M x) ∈ ids.
Proof.
  intros Hinv Hb Hx. destruct (chain_blocked _ _ _ _ _ _ b x Hinv Hb Hx) as [_ Hblk]. pose proof (iv_nodes _ _ _ _ _ _ Hinv x) as Hn.
  destruct (place v x) as [|c|c|c|c] eqn:Ep; [destruct Hn; congruence|..]; eapply placed_bound; try exact Hinv; by rewrite Ep.
Qed.

Definition settled (M : machine) (v : view) : Prop := forall c x, place v x = Current c -> blocked (nodes M x) = false.

(** The machine after threads [xs] were woken from [me]. *)
Record wakes (M M' : machine) (v v' : view) (me : Z) (xs : list Z) : Prop := {
  wk_local : forall x, x ∈ xs -> place v x = Sleep me -> place v' x = Run me;
  wk_kept : forall x, x ∉ xs \/ place v x <> Sleep me -> place v' x = place v x;
  wk_remote : forall x, x ∈ xs -> processor_id (nodes M x) <> me -> UnblockThread x ∈ p_smp_pending (processors M' (processor_id (nodes M x)));
  wk_run : run v me `prefix_of` run v' me
}.

Lemma wakes_nil M v me : wakes M M v v me [].
Proof. split; try done; intros x Hx; by apply elem_of_nil in Hx. Qed.

Lemma quiet_pending M M' c m : quiet M M' -> m ∈ p_smp_pending (processors M c) -> m ∈ p_smp_pending (processors M' c).
Proof. intros Hq Hm. destruct (qu_cpus _ _ Hq c) as (ms & -> & _). cbn. apply elem_of_app. by right. Qed.

Lemma quiet_smp M M' c : quiet M M' -> p_smp_messages_disabled (processors M' c) = p_smp_messages_disabled (processors M c).
Proof. intros Hq. by destruct (qu_cpus _ _ Hq c) as (ms & -> & _). Qed.

Lemma quiet_pop_chain n b head M : quiet M (set_node n clear_node (set_chain b head M)).
Proof.
  split; cbn; try done; [|intros c; by destruct (schedulers M c)|intros c; exists []; by destruct (processors M c)]. intros x.
  by rewrite (field_kept (nodes M) wake_time_ns clear_node), (field_kept (nodes M) processor_id clear_node), (field_kept (nodes M) last_start_ns clear_node), (field_kept (nodes M) time_used_ns clear_node).
Qed.

Lemma woken_kept v v' me n x : (place v n = Sleep me -> woken v v' me n) -> (place v n <> Sleep me -> v' = v) -> x <> n -> place v' x = place v x.
Proof.
  intros Hw Hnw Hx. destruct (decide (place v n = Sleep me)) as [Hs|Hs]; [rewrite (wo_place _ _ _ _ (Hw Hs)); by rewrite decide_False|by rewrite (Hnw Hs)].
Qed.

Lemma wakes_cons M M2 M3 v v2 v3 me n xs : quiet M M2 -> quiet M2 M3 -> (place v n = Sleep me -> woken v v2 me n) -> (place v n <> Sleep me -> v2 = v) -> n ∉ xs ->
  (processor_id (nodes M n) <> me -> UnblockThread n ∈ p_smp_pending (processors M2 (processor_id (nodes M n)))) -> wakes M2 M3 v2 v3 me xs -> wakes M M3 v v3 me (n :: xs).
Proof.
  intros Hq2 Hq3 Hw Hnw Hn Hmsg [Hloc Hkept Hrem Hrun]. pose proof (woken_kept v v2 me n) as Hk.
  assert (Hproc : forall x, processor_id (nodes M2 x) = processor_id (nodes M x)) by (intros x; by destruct (qu_nodes _ _ Hq2 x) as (_ & -> & _)). split.
  - intros x [->|Hx]%elem_of_cons Hs.
    + rewrite Hkept by (by left). rewrite (wo_place _ _ _ _ (Hw Hs)). by rewrite decide_True.
    + apply Hloc; [done|]. rewrite Hk; try done. by intros ->.
  - intros x Hx. destruct (decide (x = n)) as [->|Hxn].
    + rewrite Hkept by (by left). destruct Hx as [Hx|Hs]; [destruct Hx; by left|]. by rewrite (Hnw Hs).
    + rewrite <- (Hk x Hw Hnw Hxn). apply Hkept. destruct Hx as [Hx|Hx]; [left; intros ?; apply Hx; by right|right; by rewrite Hk].
  - intros x [->|Hx]%elem_of_cons Hp; [eapply quiet_pending; [done|by apply Hmsg]|]. rewrite <- Hproc. apply Hrem; [done|]. by rewrite Hproc.
  - etrans; [|exact Hrun]. destruct (decide (place v n = Sleep me)) as [Hs|Hs]; [rewrite (wo_run _ _ _ _ (Hw Hs)); by apply prefix_app_r|by rewrite (Hnw Hs)].
Qed.

Lemma unblock_loop_ok f me b count M cur extra v chain : inv M b cur extra v chain -> b <> 0 -> p_smp_messages_disabled (processors M me) = false -> settled M v ->
  (length (chain b) <= f)%nat -> 
  exists M' v' chain', unblock_loop fuel f me b count M = Ok M' /\ inv M' b cur extra v' chain' /\ quiet M M' /\ settled M' v' /\
    chain' b = drop (Z.to_nat count) (chain b) /\ (forall c, c <> b -> chain' c = chain c) /\ wakes M M' v v' me (take (Z.to_nat count) (chain b)).
Proof.
  intros Hinv Hb Hsmp Hset Hf. revert count M v chain Hinv Hsmp Hset Hf. induction f as [|f IH]; intros count M v chain Hinv Hsmp Hset Hf; cbn [unblock_loop].
  all: pose proof (co_rep _ _ _ _ (iv_chains _ _ _ _ _ _ Hinv) b Hb) as [Hok Hhead _ _]; rewrite Hhead.
  - destruct (chain b) eqn:Hc; [|cbn in Hf; lia]. cbn [at_ lookup list_lookup default Z.eqb negb]. rewrite andb_false_r. cbn [negb].
    exists M, v, chain. rewrite Hc, take_nil, drop_nil. split_and!; try done; [apply quiet_refl|apply wakes_nil].
  - destruct (chain b) as [|n rest] eqn:Hc.
    + cbn [at_ lookup list_lookup default Z.eqb negb]. rewrite andb_false_r. cbn [negb].
      exists M, v, chain. rewrite Hc, take_nil, drop_nil. split_and!; try done; [apply quiet_refl|apply wakes_nil].
    + destruct (Z.ltb_spec 0 count) as [Hcnt|Hcnt]; cbn [andb negb].
      2: { replace (Z.to_nat count) with 0%nat by lia. exists M, v, chain. split_and!; try done; [apply quiet_refl|apply wakes_nil]. }
      change (at_ (n :: rest) 0) with n. apply nodes_ok_cons in Hok as (Hokr & Hn0 & Hnr). rewrite (proj2 (Z.eqb_neq n 0)) by done. cbn [negb].
      destruct (chain_blocked _ _ _ _ _ _ b n Hinv Hb) as [Hbl Hblk]; [rewrite Hc; by left|]. cbn [set_chain nodes]. rewrite Hbl, Hblk, Z.eqb_refl.
      pose proof (inv_pop_chain _ _ _ _ _ _ _ _ Hinv Hb Hc) as Hinv1. fold clear_node. change (fun x => with_chain_next 0 (with_chain_prev 0 (with_blocker 0 x))) with clear_node.
      set (M1 := set_node n clear_node _) in *.
      assert (Hn1 : nodes M1 n = clear_node (nodes M n)) by (cbn; by rewrite fn_lookup_insert).
      assert (Hnx : forall x, x <> n -> nodes M1 x = nodes M x) by (intros x Hx; cbn; by rewrite fn_lookup_insert_ne by congruence).
      assert (Hset1 : settled M1 v).
      { intros c x Hx. destruct (decide (x = n)) as [->|Hxn]; [rewrite Hn1; cbn; by apply (Hset c)|rewrite Hnx by done; by apply (Hset c)]. }
      destruct (unblock_thread_ok me n M1 _ _ _ _ _ Hinv1) as (M2 & v2 & chain2 & -> & Hinv2 & Hq2 & Hw & Hnw & _ & Hsame & Hbk & Hmsg); [done|rewrite Hn1; by left|by apply Hset1|rewrite Hn1; eapply chain_bound; [exact Hinv|exact Hb|rewrite Hc; by left]|].
      assert (Hb1 : blocker (nodes M1 n) = 0) by (by rewrite Hn1). specialize (Hsame Hb1). subst chain2.
      assert (Hq1 : quiet M M1) by apply quiet_pop_chain. pose proof (quiet_trans _ _ _ Hq1 Hq2) as Hq12.
      assert (Hset2 : settled M2 v2).
      { intros c x Hx. destruct (decide (x = n)) as [->|Hxn].
        - destruct (decide (place v n = Sleep me)) as [Hs|Hs]; [rewrite (wo_place _ _ _ _ (Hw Hs)), decide_True in Hx by done; done|]. rewrite (Hnw Hs) in Hx. rewrite (Hset c n Hx) in Hblk. done.
        - rewrite Hbk, Hnx by done. apply (Hset c). by rewrite <- (woken_kept v v2 me n). }
      destruct (IH (count - 1) M2 v2 _ Hinv2) as (M3 & v3 & chain3 & -> & Hinv3 & Hq3 & Hset3 & Hdrop & Hrest & Hwk);
        [by rewrite (quiet_smp _ _ _ Hq12)|done|rewrite fn_lookup_insert; cbn in Hf; lia|]. rewrite fn_lookup_insert in Hdrop, Hwk.
      replace (Z.to_nat count) with (S (Z.to_nat (count - 1))) by lia. cbn [take drop].
      exists M3, v3, chain3. split_and!; try done; [by eapply quiet_trans| |].
      * intros c Hne. rewrite Hrest by done. by rewrite fn_lookup_insert_ne.
      * apply (wakes_cons M M2 M3 v v2 v3); try done. { intros Hin. apply Hnr. rewrite <- (take_drop (Z.to_nat (count - 1)) rest). apply elem_of_app. by left. } { rewrite Hn1 in Hmsg. done. }
Qed.

(** [ThreadBlocker::unblock] wakes the first [count] threads of the chain. *)
Lemma unblock_ok me b count M cur extra v chain : inv M 0 cur extra v chain -> b <> 0 -> p_smp_messages_disabled (processors M me) = false -> settled M v ->
  exists M' v' chain', unblock fuel me b count M = Ok M' /\ inv M' 0 cur extra v' chain' /\ quiet M M' /\ settled M' v' /\
    chain' b = drop (Z.to_nat count) (chain b) /\ (forall c, c <> b -> chain' c = chain c) /\ wakes M M' v v' me (take (Z.to_nat count) (chain b)).
Proof.
  intros Hinv Hb Hsmp Hset. pose proof Hinv as [Hl Hn Hk Hcpu Hch Hcur Hfl Hon Hlim Hbd]. pose proof (chains_ok_stale _ _ b _ Hch) as Hch'.
  assert (Hshort : (length (chain b) <= fuel)%nat).
  { destruct (co_rep _ _ _ _ Hch b Hb) as [[Hnd H0] _ _ _]. etrans; [|exact HT]. apply submseteq_length, NoDup_submseteq; [done|]. intros x Hx. apply Hk.
    destruct (chain_blocked _ _ _ _ _ _ b x Hinv Hb Hx) as [Hbl Hblk]. intros E. specialize (Hn x). rewrite E in Hn. cbn in Hn. destruct_and?. congruence. }
  destruct (unblock_loop_ok fuel me b count M cur extra v chain) as (M' & v' & chain' & Hrun & [Hl1 Hn1 Hk1 Hcpu1 Hch1 Hcur1 Hfl1 Hon1 Hlim1 Hbd1] & Hq & Hset' & Hdrop & Hrest & Hwk); try done.
  unfold unblock. rewrite Hrun. set (N2 := set_if (block_chains M' b) (with_chain_prev 0) (nodes M')). cbv zeta.
  replace (if block_chains M' b =? 0 then M' else set_node (block_chains M' b) (with_chain_prev 0) M') with (with_chains N2 (block_chains M') M')
    by (unfold N2, set_if; destruct (block_chains M' b =? 0); [by destruct M'|done]).
  assert (HN : forall A (f : node -> A) x, (forall y u, f (with_chain_prev u y) = f y) -> f (N2 x) = f (nodes M' x)) by (intros A f x Hf; by apply set_if_kept).
  eexists _, v', chain'. split; [done|]. split; [|split; [|split; [|split; [done|split; [done|by destruct Hwk]]]]].
  - split; cbn; try done.
    + eapply lists_ok_ext; [exact Hl1|done|]. intros x c _. by apply HN.
    + intros x. eapply node_ok_ext; [..|apply Hn1]; by apply HN || done.
    + by apply chain_fix_ok.
    + intros c x Hx. rewrite HN by done. by apply (Hbd1 c).
  - destruct Hq as [Q1 Q2 Q3 Q4 Q5 Q6 Q7 Q8]. split; cbn; try done. intros x. rewrite !HN by done. apply Q6.
  - intros c x Hx. cbn. rewrite HN by done. by apply (Hset' c).
Qed.

(** ** Threads on their way *)
Definition relocate (v : view) (t : Z) (p : loc) : view := mk_view (run v) (sleep v) (<[t := p]> (place v)).

Lemma relocate_lists_ok L S w v t p : lists_ok L S w v -> listed (place v t) = None -> listed p = None -> lists_ok L S w (relocate v t p).
Proof.
  intros [Hq Hh Ho Hr Hs Hf] Ht Hp. split; cbn; try done.
  - intros c x. rewrite Hr. symmetry. apply (place_moved (fun p => p = Run c)). split; intros E; by rewrite E in *.
  - intros c x. rewrite Hs. symmetry. apply (place_moved (fun p => p = Sleep c)). split; intros E; by rewrite E in *.
  - intros x Hx. apply Hf. destruct (decide (t = x)) as [<-|Hne]; [done|by rewrite fn_lookup_insert_ne in Hx].
Qed.

(** The node [t] changes its place and some of its fields; its lists do not. *)
Lemma inv_relocate M M' stale cur cur' extra extra' v chain t p : inv M stale cur extra v chain -> listed (place v t) = None -> listed p = None -> (p = Nowhere \/ t ∈ T) ->
  (forall c, cpu_of p = Some c -> c ∈ ids) ->
  node_links M' = node_links M -> block_chains M' = block_chains M -> (forall x, x <> t -> nodes M' x = nodes M x /\ threads M' x = threads M x) ->
  (blocker (nodes M' t) = blocker (nodes M t) /\ block_chain_next (nodes M' t) = block_chain_next (nodes M t) /\ block_chain_prev (nodes M' t) = block_chain_prev (nodes M t)) ->
  (forall c, m_run_list (schedulers M' c) = m_run_list (schedulers M c) /\ m_block_list (schedulers M' c) = m_block_list (schedulers M c)) ->
  node_ok (nodes M' t) (threads M' t) p -> (forall c x, x <> 0 -> cur' c = x <-> place (relocate v t p) x = Current c) ->
  (forall c x, x ∈ new_threads (p_smp_pending (processors M' c) ++ extra' c) <-> place (relocate v t p) x = Flight c) ->
  (forall c, NoDup (new_threads (p_smp_pending (processors M' c) ++ extra' c))) ->
  (forall c x, UnblockThread x ∈ p_smp_pending (processors M' c) ++ extra' c -> UnblockThread x ∈ p_smp_pending (processors M c) ++ extra c) ->
  (processor_id (nodes M' t) = processor_id (nodes M t) \/ processor_id (nodes M' t) ∈ ids) -> inv M' stale cur' extra' (relocate v t p) chain.
Proof.
  intros [Hl Hn Hk Hcpu Hch Hcur Hfl Hon Hlim Hbd] Ht Hp HpT Hpc HL Hheads Hother (B1 & B2 & B3) Hs Hnode Hcur' Hfl' Hon' Hms Hpr. split; try done.
  - rewrite HL. eapply lists_ok_ext; [by apply relocate_lists_ok|done|]. intros x c Hx. cbn in Hx. destruct (decide (t = x)) as [<-|Hne]; [rewrite fn_lookup_insert in Hx; by rewrite Hx in Hp|].
    by destruct (Hother x) as [-> _].
  - intros x. cbn. destruct (decide (t = x)) as [<-|Hne]; [by rewrite fn_lookup_insert|]. rewrite fn_lookup_insert_ne by done. by destruct (Hother x) as [-> ->].
  - intros x. cbn. destruct (decide (t = x)) as [<-|Hne]; [rewrite fn_lookup_insert; by destruct HpT|rewrite fn_lookup_insert_ne by done; apply Hk].
  - intros x c. cbn. destruct (decide (t = x)) as [<-|Hne]; [rewrite fn_lookup_insert; apply Hpc|rewrite fn_lookup_insert_ne by done; apply Hcpu].
  - rewrite Hheads. eapply chains_ok_ext; [|exact Hch]. intros x. destruct (decide (x = t)) as [->|Hne]; [done|]. by destruct (Hother x) as [-> _].
  - intros c x Hx%Hms. apply Hbd in Hx. destruct (decide (x = t)) as [->|Hne]; [destruct Hpr as [->|?]; done|]. by destruct (Hother x) as [-> _].
Qed.

Lemma new_threads_app ms ms' : new_threads (ms ++ ms') = new_threads ms ++ new_threads ms'.
Proof. apply omap_app. Qed.

(** The machine other than the lists, and one node. *)
Lemma flight_elem P t ms x : x ∈ new_threads (P ++ (NewThread t :: ms)) <-> x = t \/ x ∈ new_threads (P ++ ms).
Proof. rewrite !new_threads_app. cbn. rewrite !elem_of_app, elem_of_cons. tauto. Qed.

Lemma flight_nodup P t ms : NoDup (new_threads (P ++ (NewThread t :: ms))) -> (t ∉ new_threads (P ++ ms)) /\ NoDup (new_threads (P ++ ms)).
Proof.
  rewrite !new_threads_app. cbn. intros Hnd. assert (Hp : (new_threads P ++ (t :: new_threads ms)) ≡ₚ (t :: new_threads P ++ new_threads ms)) by (symmetry; apply Permutation_middle).
  rewrite Hp in Hnd. by apply list.NoDup_cons in Hnd.
Qed.

Lemma inv_arrive M stale cur E me t ms v chain : inv M stale cur (<[me := NewThread t :: ms]> E) v chain ->
  place v t = Flight me /\ inv M stale cur (<[me := ms]> E) (relocate v t Nowhere) chain.
Proof.
  intros Hinv. pose proof Hinv as [Hl Hn Hk Hcpu Hch Hcur Hfl Hon Hlim Hbd].
  assert (Hpl : place v t = Flight me) by (apply Hfl; rewrite fn_lookup_insert; apply flight_elem; by left). split; [done|].
  pose proof (Hon me) as Hnd. rewrite fn_lookup_insert in Hnd. apply flight_nodup in Hnd as [Hnot Hnd].
  apply (inv_relocate M M _ cur _ _ _ v chain t Nowhere Hinv); try done; [by rewrite Hpl|by left|..].
  - pose proof (Hn t) as Hnt. rewrite Hpl in Hnt. cbn in *. destruct_and?. done.
  - intros c x Hx. rewrite Hcur by done. symmetry. apply (place_moved (fun p => p = Current c)). by rewrite Hpl.
  - intros c x. cbn. destruct (decide (me = c)) as [<-|Hne].
    + rewrite fn_lookup_insert. pose proof (Hfl me x) as Hf. rewrite fn_lookup_insert, flight_elem in Hf. destruct (decide (t = x)) as [<-|Hx]; [rewrite fn_lookup_insert; done|].
      rewrite fn_lookup_insert_ne, <- Hf by done. split; [tauto|]. intros [->|?]; done.
    + rewrite fn_lookup_insert_ne by done. pose proof (Hfl c x) as Hf. rewrite fn_lookup_insert_ne in Hf by done. rewrite Hf. symmetry. apply (place_moved (fun p => p = Flight c)). rewrite Hpl. split; congruence.
  - intros c. destruct (decide (me = c)) as [<-|Hne]; [by rewrite fn_lookup_insert|rewrite fn_lookup_insert_ne by done]. pose proof (Hon c) as Hc. by rewrite fn_lookup_insert_ne in Hc.
  - intros c x. destruct (decide (me = c)) as [<-|Hne]; [rewrite !fn_lookup_insert|by rewrite !fn_lookup_insert_ne]. rewrite !elem_of_app, elem_of_cons. tauto.
  - by left.
Qed.

Lemma inv_send me t target M stale cur extra v chain : inv M stale cur extra v chain -> place v t = Nowhere -> target <> me -> target ∈ ids -> t ∈ T -> t <> 0 ->
  processor_id (nodes M t) = target -> m_state (threads M t) <> Terminated ->
  exists M', send_smp_message me target (NewThread t) M = Ok M' /\ inv M' stale cur extra (relocate v t (Flight target)) chain.
Proof.
  intros Hinv Hpl Hne Htg HtT Ht0 Hproc Hst. pose proof Hinv as [Hl Hn Hk Hcpu Hch Hcur Hfl Hon Hlim Hbd]. unfold send_smp_message. rewrite (proj2 (Z.eqb_neq _ _) Hne), (proj2 (Z.ltb_lt _ _) (Hlim _ Htg)). cbn [negb]. eexists. split; [done|].
  assert (Hnot : forall c, t ∉ new_threads (p_smp_pending (processors M c) ++ extra c)) by (intros c Hin; apply Hfl in Hin; congruence).
  apply (inv_relocate M _ _ cur _ _ _ v chain t (Flight target) Hinv); try done; [by rewrite Hpl|by right|..].
  - by intros c [= <-].
  - pose proof (Hn t) as Hnt. rewrite Hpl in Hnt. cbn in *. destruct_and?. done.
  - intros c x Hx. rewrite Hcur by done. symmetry. apply (place_moved (fun p => p = Current c)). by rewrite Hpl.
  - intros c x. cbn. destruct (decide (target = c)) as [<-|Hc].
    + rewrite fn_lookup_insert. cbn. rewrite elem_of_cons. destruct (decide (t = x)) as [<-|Hx]; [rewrite fn_lookup_insert; tauto|]. rewrite fn_lookup_insert_ne, <- Hfl by done.
      split; [intros [->|?]; done|tauto].
    + rewrite fn_lookup_insert_ne, Hfl by done. symmetry. apply (place_moved (fun p => p = Flight c)). rewrite Hpl. split; congruence.
  - intros c. cbn. destruct (decide (target = c)) as [<-|Hc]; [rewrite fn_lookup_insert|by rewrite fn_lookup_insert_ne]. cbn. apply list.NoDup_cons. split; [apply Hnot|apply Hon].
  - intros c x. cbn. destruct (decide (target = c)) as [<-|Hc]; [rewrite fn_lookup_insert|by rewrite fn_lookup_insert_ne]. cbn. rewrite elem_of_cons. by intros [?|?].
  - by left.
Qed.

(** ** The state between operations *)

(** The table of heavy threads has threads of its processor, each once. *)
Definition loads_ok (most_loaded : list Z) (c : Z) (v : view) : Prop :=
  (forall i j t, most_loaded !! i = Some t -> most_loaded !! j = Some t -> t <> 0 -> i = j) /\ (forall t, t ∈ most_loaded -> t <> 0 -> home (place v t) = Some c) /\ (0 < length most_loaded)%nat.

(** The timer fires before a sleeping thread is due, or a yield that sets it is pending. *)
Definition deadline_ok (apic : bool) (M : machine) (v : view) (c : Z) : Prop :=
  apic = true -> m_has_pending_reschedule (schedulers M c) = true \/ forall x, place v x = Sleep c -> p_timer_deadline (processors M c) <= wake_time_ns (nodes M x).

Definition currents (M : machine) (c : Z) : Z := m_current (schedulers M c).

Record good (apic : bool) (M : machine) (extra : Z -> list SMPMessage) (v : view) (chain : Z -> list Z) : Prop := {
  gd_inv : inv M 0 (currents M) extra v chain;
  gd_settled : settled M v;
  gd_loads : forall c, loads_ok (m_most_loaded_threads (schedulers M c)) c v;
  gd_deadline : forall c, deadline_ok apic M v c;
  gd_smp : forall c, p_smp_messages_disabled (processors M c) = false;
  gd_last : forall c, 0 <= m_last_load_balance_ns (schedulers M c) < 2 ^ 63
}.

(** Nothing changes but lists, blocking, chains, counts and messages. *)
Record stable (M M' : machine) : Prop := {
  sb_threads : threads M' = threads M;
  sb_clock : clock_reads M' = clock_reads M;
  sb_wake : forall x, wake_time_ns (nodes M' x) = wake_time_ns (nodes M x);
  sb_scheds : forall c, schedulers M' c = with_thread_count (m_thread_count (schedulers M' c)) (with_run_list (m_run_list (schedulers M' c)) (with_block_list (m_block_list (schedulers M' c)) (schedulers M c)));
  sb_cpus : forall c, processors M' c = with_smp_pending (p_smp_pending (processors M' c)) (processors M c)
}.

Lemma quiet_stable M M' : quiet M M' -> stable M M'.
Proof.
  intros [Q1 Q2 Q3 Q4 Q5 Q6 Q7 Q8]. split; try done.
  - intros x. by destruct (Q6 x) as (-> & _).
  - intros c. rewrite Q7 at 1 2. done.
  - intros c. by destruct (Q8 c) as (ms & -> & _).
Qed.

Lemma stable_refl M : stable M M.
Proof. apply quiet_stable, quiet_refl. Qed.

Lemma stable_trans M1 M2 M3 : stable M1 M2 -> stable M2 M3 -> stable M1 M3.
Proof.
  intros [A1 A2 A3 A4 A5] [B1 B2 B3 B4 B5]. split; try congruence.
  - intros c. rewrite B4, A4 at 1. done.
  - intros c. rewrite B5, A5 at 1. done.
Qed.

Lemma stable_currents M M' : stable M M' -> forall c, currents M' c = currents M c.
Proof. intros [_ _ _ B4 _] c. unfold currents. by rewrite B4. Qed.

Lemma inv_cur_ext M stale cur cur' extra v chain : (forall c, cur' c = cur c) -> inv M stale cur extra v chain -> inv M stale cur' extra v chain.
Proof. intros He [Hl Hn Hk Hcpu Hch Hcur Hfl Hon Hlim Hbd]. split; try done. intros c x Hx. rewrite He. by apply Hcur. Qed.

Lemma loads_ok_home l c v v' : (forall x c, home (place v x) = Some c -> home (place v' x) = Some c) -> loads_ok l c v -> loads_ok l c v'.
Proof. intros Hh (H1 & H2 & H3). split_and!; [done| |done]. intros t Ht Ht0. apply Hh. by apply H2. Qed.

Lemma good_stable apic M M' extra extra' v v' chain chain' : good apic M extra v chain -> stable M M' -> inv M' 0 (currents M) extra' v' chain' -> settled M' v' ->
  (forall x c, home (place v x) = Some c -> home (place v' x) = Some c) -> (forall x c, place v' x = Sleep c -> place v x = Sleep c) -> good apic M' extra' v' chain'.
Proof.
  intros [G1 G2 G3 G4 G5 G6] Hst Hinv Hset Hhome Hsl. pose proof Hst as [A1 A2 A3 A4 A5]. split; try done.
  - eapply inv_cur_ext; [|exact Hinv]. by apply stable_currents.
  - intros c. rewrite A4. cbn. by eapply loads_ok_home.
  - intros c Ha. rewrite A4, A5. cbn. destruct (G4 c Ha) as [?|Hd]; [by left|]. right. intros x Hx. rewrite A3. apply Hd. by apply Hsl.
  - intros c. rewrite A5. apply G5.
  - intros c. rewrite A4. apply G6.
Qed.

(** ** Requests *)
Section requests.
Context (apic : bool) (Hnone : PROCESSOR_NONE ∉ ids) (Hids : ids <> []) (HT0 : 0 ∉ T).

Lemma woken_home v v' me t : woken v v' me t -> place v t = Sleep me ->
  (forall x c, home (place v x) = Some c -> home (place v' x) = Some c) /\ (forall x c, place v' x = Sleep c -> place v x = Sleep c).
Proof.
  intros [Hp _ _] Ht. split; intros x c; rewrite Hp; case_decide; try done. subst x. by rewrite Ht.
Qed.

Lemma good_unblock_thread me t M extra v chain : good apic M extra v chain -> processor_id (nodes M t) ∈ ids -> exists M' v' chain', unblock_thread fuel me t M = Ok M' /\ good apic M' extra v' chain' /\ stable M M' /\
  (place v t = Sleep me -> woken v v' me t) /\ (place v t <> Sleep me -> v' = v).
Proof.
  intros Hg Hpr. pose proof Hg as [G1 G2 G3 G4 G5 G6].
  destruct (unblock_thread_ok me t M 0 _ _ _ _ G1) as (M' & v' & chain' & Hrun & Hinv' & Hq & Hw & Hnw & _ & _ & Hbk & _); [done|by right|by apply G2|done|].
  exists M', v', chain'. split; [done|]. assert (Hst : stable M M') by (by apply quiet_stable). split_and!; try done.
  assert (Hset : settled M' v').
  { intros c x Hx. destruct (decide (place v t = Sleep me)) as [Hs|Hs].
    - rewrite (wo_place _ _ _ _ (Hw Hs)) in Hx. case_decide; [done|]. rewrite Hbk by done. by apply (G2 c).
    - rewrite (Hnw Hs) in Hx. destruct (decide (x = t)) as [->|Hxt]; [|rewrite Hbk by done; by apply (G2 c)].
      pose proof (iv_nodes _ _ _ _ _ _ Hinv' t) as Hn. rewrite (Hnw Hs), Hx in Hn. unfold unblock_thread in Hrun.
      rewrite (G2 c t Hx) in Hrun. cbn [negb] in Hrun. destruct (processor_id (nodes M t) =? me); cbn [negb] in Hrun; [by simplify_eq; apply (G2 c)|].
      unfold send_smp_message in Hrun. destruct (negb _); [|done]. destruct (_ <? _); [|done]. simplify_eq. cbn. by apply (G2 c). }
  destruct (decide (place v t = Sleep me)) as [Hs|Hs].
  - destruct (woken_home _ _ _ _ (Hw Hs) Hs) as [H1 H2]. by eapply good_stable.
  - rewrite (Hnw Hs) in *. by eapply good_stable.
Qed.

Lemma good_unblock me b count M extra v chain : good apic M extra v chain -> b <> 0 -> exists M' v' chain', unblock fuel me b count M = Ok M' /\ good apic M' extra v' chain' /\ stable M M' /\
  chain' b = drop (Z.to_nat count) (chain b) /\ (forall c, c <> b -> chain' c = chain c) /\ wakes M M' v v' me (take (Z.to_nat count) (chain b)).
Proof.
  intros Hg Hb. pose proof Hg as [G1 G2 G3 G4 G5 G6].
  destruct (unblock_ok me b count M _ _ _ _ G1 Hb (G5 me) G2) as (M' & v' & chain' & Hrun & Hinv' & Hq & Hset & Hdrop & Hrest & Hwk).
  exists M', v', chain'. assert (Hst : stable M M') by (by apply quiet_stable). split_and!; try done.
  assert (Hcases : forall x, place v' x = place v x \/ (place v x = Sleep me /\ place v' x = Run me)).
  { intros x. destruct (decide (x ∈ take (Z.to_nat count) (chain b) /\ place v x = Sleep me)) as [[Hx Hs]|Hno]; [right; split; [done|by apply (wk_local _ _ _ _ _ _ Hwk)]|].
    left. apply (wk_kept _ _ _ _ _ _ Hwk). destruct (decide (x ∈ take (Z.to_nat count) (chain b))); [right; tauto|by left]. }
  eapply good_stable; try done; intros x c Hx; destruct (Hcases x) as [E|[E1 E2]]; try congruence. rewrite E1 in Hx. by rewrite E2.
Qed.

(** A thread that may be added. *)
Definition addable (M : machine) (v : view) (t : Z) : Prop :=
  place v t = Nowhere /\ t <> 0 /\ t ∈ T /\ m_state (threads M t) <> Terminated.

Lemma stable_set_node t f M : (forall n, wake_time_ns (f n) = wake_time_ns n) -> stable M (set_node t f M).
Proof.
  intros Hf. split; cbn; try done; [intros x; by apply (field_kept (nodes M) wake_time_ns f)|intros c; by destruct (schedulers M c)|intros c; by destruct (processors M c)].
Qed.

Lemma good_add_bound me t M extra v chain : good apic M extra v chain -> addable M v t -> processor_id (nodes M t) ∈ ids ->
  exists M' v' chain', add_thread ids me t M = Ok M' /\ good apic M' extra v' chain' /\ stable M M' /\
    (forall x, place v' x = if decide (x = t) then (if decide (processor_id (nodes M t) = me) then Run me else Flight (processor_id (nodes M t))) else place v x).
Proof.
  intros Hg (Hpl & Ht0 & HtT & Hst) Hproc. pose proof Hg as [G1 G2 G3 G4 G5 G6]. unfold add_thread. rewrite (proj2 (Z.eqb_neq t 0)) by done. cbn [negb].
  rewrite (proj2 (Z.eqb_neq (processor_id (nodes M t)) PROCESSOR_NONE)) by (intros E; rewrite E in Hproc; done).
  destruct (Z.eqb_spec (processor_id (nodes M t)) me) as [Hme|Hme]; cbn [negb].
  - pose proof (iv_nodes _ _ _ _ _ _ G1 t) as Hnt. rewrite Hpl in Hnt. destruct Hnt as (Hb & _ & _). rewrite Hb. cbn [negb]. rewrite Hme in Hproc.
    destruct (run_push_ok me t M _ _ _ _ _ G1 Hpl Ht0 HtT Hproc Hme Hst) as (M1 & -> & Hinv1 & Hq & Hcpu & Hnd).
    assert (Hst1 : stable M (set_sched me (fun s => with_thread_count (u32 (m_thread_count s + 1)) s) M1)).
    { apply (stable_trans M M1); [by apply quiet_stable|]. split; cbn; try done; [|intros c; by destruct (processors M1 c)].
      intros c. destruct (decide (me = c)) as [<-|Hc]; [rewrite fn_lookup_insert; by destruct (schedulers M1 me)|rewrite fn_lookup_insert_ne by done; by destruct (schedulers M1 c)]. }
    assert (Hplace : forall x, place (to_run v me t) x = if decide (x = t) then Run me else place v x).
    { intros x. cbn. destruct (decide (t = x)) as [<-|Hx]; [by rewrite fn_lookup_insert, decide_True|by rewrite fn_lookup_insert_ne, decide_False by congruence]. }
    eexists _, (to_run v me t), chain. split; [done|]. split; [|split; [done|intros x; rewrite Hplace; by rewrite (decide_True (P := processor_id (nodes M t) = me))]].
    eapply good_stable; try done.
    + destruct Hinv1 as [Hl Hn Hk Hc Hch Hcur Hfl Hon Hlim Hbd]. split; cbn; try done. eapply lists_ok_ext; [exact Hl| |done].
      intros c. destruct (decide (me = c)) as [<-|Hc']; [by rewrite fn_lookup_insert|by rewrite fn_lookup_insert_ne].
    + intros c x Hx. rewrite Hplace in Hx. case_decide; [done|]. cbn. rewrite Hnd. by apply (G2 c).
    + intros x c Hx. rewrite Hplace. case_decide; [|done]. subst x. by rewrite Hpl in Hx.
    + intros x c Hx. rewrite Hplace in Hx. by case_decide.
  - destruct (inv_send me t (processor_id (nodes M t)) M _ _ _ _ _ G1 Hpl Hme Hproc HtT Ht0 eq_refl Hst) as (M' & Hrun & Hinv').
    assert (Hplace : forall x, place (relocate v t (Flight (processor_id (nodes M t)))) x = if decide (x = t) then Flight (processor_id (nodes M t)) else place v x).
    { intros x. cbn. destruct (decide (t = x)) as [<-|Hx]; [by rewrite fn_lookup_insert, decide_True|by rewrite fn_lookup_insert_ne, decide_False by congruence]. }
    pose proof Hrun as Hrun'. unfold send_smp_message in Hrun'. rewrite (proj2 (Z.eqb_neq _ _) Hme), (proj2 (Z.ltb_lt _ _) (iv_ids _ _ _ _ _ _ G1 _ Hproc)) in Hrun'. cbn [negb] in Hrun'. simplify_eq.
    eexists _, _, chain. split; [exact Hrun|]. split; [|split; [|intros x; rewrite Hplace; by rewrite (decide_False (P := processor_id (nodes M t) = me))]].
    + eapply good_stable; try done.
      * split; cbn; try done; [intros c; by destruct (schedulers M c)|]. intros c.
        destruct (decide (processor_id (nodes M t) = c)) as [<-|Hc]; [by rewrite fn_lookup_insert|rewrite fn_lookup_insert_ne by done; by destruct (processors M c)].
      * intros c x Hx. rewrite Hplace in Hx. case_decide; [done|]. by apply (G2 c).
      * intros x c Hx. rewrite Hplace. case_decide; [|done]. subst x. by rewrite Hpl in Hx.
      * intros x c Hx. rewrite Hplace in Hx. by case_decide.
    + split; cbn; try done; [intros c; by destruct (schedulers M c)|]. intros c.
      destruct (decide (processor_id (nodes M t) = c)) as [<-|Hc]; [by rewrite fn_lookup_insert|rewrite fn_lookup_insert_ne by done; by destruct (processors M c)].
Qed.

(** A thread without a processor gets the next one in turn. *)
Lemma add_unbound me t M : processor_id (nodes M t) = PROCESSOR_NONE -> t <> 0 -> exists id0, id0 ∈ ids /\
  add_thread ids me t M = add_thread ids me t (set_node t (with_processor id0) (set_next_index (u64 (s_next_processor_index M + 1)) M)).
Proof.
  intros Hp Ht0. set (i := s_next_processor_index M `mod` processor_count ids). assert (Hi : 0 <= i < Z.of_nat (length ids)).
  { apply Z.mod_pos_bound. unfold processor_count. destruct ids; [done|cbn; lia]. }
  destruct (lookup_lt_is_Some_2 ids (Z.to_nat i)) as [id0 Hid]; [lia|]. assert (Hin : id0 ∈ ids) by (by eapply list_elem_of_lookup_2). exists id0. split; [done|].
  assert (Hne : id0 <> PROCESSOR_NONE) by (intros ->; done).
  unfold add_thread at 1 2. rewrite (proj2 (Z.eqb_neq t 0)) by done. cbn [negb]. rewrite Hp, Z.eqb_refl. fold i. unfold id_from_index. rewrite (proj2 (Z.ltb_lt i (processor_count ids))) by apply Hi. rewrite Hid. cbn [default from_option id]. cbv zeta. rewrite (proj2 (Z.eqb_neq id0 PROCESSOR_NONE)) by done. cbn [negb].
  unfold bind_thread_to_processor. rewrite (proj2 (Z.eqb_neq id0 _)) by done. cbn [negb set_next_index nodes]. rewrite Hp, Z.eqb_refl.
  cbn [set_node nodes]. rewrite !fn_lookup_insert. cbn [with_processor processor_id]. rewrite (proj2 (Z.eqb_neq id0 PROCESSOR_NONE)) by done. cbn [set_node nodes]. rewrite !fn_lookup_insert. done.
Qed.

Lemma good_add me t M extra v chain : good apic M extra v chain -> addable M v t -> (processor_id (nodes M t) = PROCESSOR_NONE \/ processor_id (nodes M t) ∈ ids) ->
  exists M' v' chain' c, add_thread ids me t M = Ok M' /\ good apic M' extra v' chain' /\ stable M M' /\
    (forall x, place v' x = if decide (x = t) then (if decide (c = me) then Run me else Flight c) else place v x).
Proof.
  intros Hg Ha [Hp|Hp].
  - destruct Ha as (Hpl & Ht0 & HtT & Hst). destruct (add_unbound me t M Hp Ht0) as (id & Hid & ->). set (M1 := set_node t _ _).
    assert (Hst1 : stable M M1).
    { split; cbn; try done; [|intros c; by destruct (schedulers M c)|intros c; by destruct (processors M c)]. intros x. by apply (field_kept (nodes M) wake_time_ns (with_processor id)). }
    assert (Hn1 : forall x, blocked (nodes M1 x) = blocked (nodes M x)) by (intros x; by apply (field_kept (nodes M) blocked (with_processor id))).
    assert (Hg1 : good apic M1 extra v chain).
    { pose proof Hg as [[Hl Hn Hk Hc Hch Hcur Hfl Hon Hlim Hbd] G2 G3 G4 G5 G6]. eapply good_stable; try done; [|intros c x Hx; rewrite Hn1; by apply (G2 c)]. split; cbn; try done.
      - eapply lists_ok_ext; [exact Hl|done|]. intros x c _. apply (sb_wake _ _ Hst1).
      - intros x. destruct (decide (t = x)) as [<-|Hx]; [|rewrite fn_lookup_insert_ne by done; apply Hn]. rewrite fn_lookup_insert. specialize (Hn t). by rewrite Hpl in *.
      - eapply chains_ok_ext; [|exact Hch]. intros x. by rewrite (field_kept (nodes M) blocker (with_processor id)), (field_kept (nodes M) block_chain_next (with_processor id)), (field_kept (nodes M) block_chain_prev (with_processor id)).
      - intros c x Hx. destruct (decide (t = x)) as [<-|Hx']; [by rewrite fn_lookup_insert|rewrite fn_lookup_insert_ne by done; by apply (Hbd c)]. }
    assert (Hp1 : processor_id (nodes M1 t) = id) by (cbn; by rewrite fn_lookup_insert).
    destruct (good_add_bound me t M1 _ _ _ Hg1) as (M' & v' & chain' & Hrun & Hg' & Hst' & Hplace); [done|by rewrite Hp1|].
    exists M', v', chain', id. split_and!; try done; [by eapply stable_trans|]. by rewrite Hp1 in Hplace.
  - destruct (good_add_bound me t M _ _ _ Hg Ha Hp) as (M' & v' & chain' & ?). by exists M', v', chain', (processor_id (nodes M t)).
Qed.

(** ** Messages *)
Lemma good_extra M extra extra' v chain : good apic M extra v chain -> inv M 0 (currents M) extra' v chain -> good apic M extra' v chain.
Proof. intros [G1 G2 G3 G4 G5 G6] Hinv. by split. Qed.

Lemma pending_flight M me m ms v chain E x : good apic M (<[me := m :: ms]> E) v chain -> NewThread x ∈ ms -> place v x = Flight me.
Proof.
  intros Hg Hx. apply (iv_flight _ _ _ _ _ _ (gd_inv _ _ _ _ _ Hg)). rewrite fn_lookup_insert, new_threads_app. apply elem_of_app. right. unfold new_threads. apply list_elem_of_omap. exists (NewThread x). split; [by right|done].
Qed.

(** New threads and the sleeping threads named in the messages can run. *)
Definition arrives (me : Z) (ms : list SMPMessage) (v : view) (x : Z) : Prop := NewThread x ∈ ms \/ (UnblockThread x ∈ ms /\ place v x = Sleep me).

Definition handled (me : Z) (ms : list SMPMessage) (v v' : view) : Prop :=
  forall x, (arrives me ms v x -> place v' x = Run me) /\ (~ arrives me ms v x -> place v' x = place v x).

Lemma handled_cons me m ms v v1 v2 : (forall x, (arrives me [m] v x -> place v1 x = Run me) /\ (~ arrives me [m] v x -> place v1 x = place v x)) -> (forall x, NewThread x ∈ ms -> place v x = Flight me) ->
  handled me ms v1 v2 -> handled me (m :: ms) v v2.
Proof.
  intros H1 Hfl H2 x. destruct (H1 x) as [A1 A2], (H2 x) as [B1 B2]. unfold arrives in *. rewrite !elem_of_cons in *. rewrite !elem_of_nil in *.
  assert (Hkeep : place v1 x = Run me -> place v2 x = Run me).
  { intros Hr. destruct (decide (NewThread x ∈ ms)) as [Hin|Hin]; [apply B1; by left|]. rewrite <- Hr. apply B2. intros [?|[_ Hs]]; [done|congruence]. }
  split.
  - intros [[E|Hin]|[[E|Hin] Hs]]; [apply Hkeep, A1; tauto|apply B1; tauto|apply Hkeep, A1; tauto|]. destruct (decide (m = UnblockThread x)) as [->|Hm]; [apply Hkeep, A1; tauto|].
    destruct (decide (m = NewThread x)) as [->|Hm']; [apply Hkeep, A1; tauto|]. apply B1. right. split; [done|]. rewrite A2; [done|]. intros [[?|?]|[[?|?] _]]; congruence.
  - intros Hno. assert (Hv1 : place v1 x = place v x) by (apply A2; tauto). rewrite B2; [done|]. rewrite Hv1. tauto.
Qed.

Lemma good_handle_all me ms M v chain E : good apic M (<[me := ms]> E) v chain -> me ∈ ids ->
  exists M' v' chain', handle_all fuel ids me ms M = Ok M' /\ good apic M' (<[me := []]> E) v' chain' /\ stable M M' /\ handled me ms v v'.
Proof.
  intros Hg Hme. revert M v chain Hg. induction ms as [|[t|t] ms IH]; intros M v chain Hg; cbn [handle_all handle_message].
  - exists M, v, chain. split_and!; try done; [apply stable_refl|]. intros x. split; [|done]. intros [?%elem_of_nil|[?%elem_of_nil _]]; done.
  - assert (Hfl : forall x, NewThread x ∈ ms -> place v x = Flight me) by (intros x Hx; by eapply pending_flight). destruct (inv_arrive _ _ _ _ _ _ _ _ _ (gd_inv _ _ _ _ _ Hg)) as [Hpl Hinv1]. pose proof (iv_nodes _ _ _ _ _ _ (gd_inv _ _ _ _ _ Hg) t) as Hnt. rewrite Hpl in Hnt. destruct Hnt as (Hproc & _ & _ & Hst & _).
    assert (Hplace : forall x, place (relocate v t Nowhere) x = if decide (x = t) then Nowhere else place v x).
    { intros x. cbn. destruct (decide (t = x)) as [<-|Hx]; [by rewrite fn_lookup_insert, decide_True|by rewrite fn_lookup_insert_ne, decide_False by congruence]. }
    assert (Hg1 : good apic M (<[me := ms]> E) (relocate v t Nowhere) chain).
    { eapply good_stable; [exact Hg|apply stable_refl|done|..].
      - intros c x Hx. rewrite Hplace in Hx. case_decide; [done|]. by apply (gd_settled _ _ _ _ _ Hg c).
      - intros x c Hx. rewrite Hplace. case_decide; [|done]. subst x. by rewrite Hpl in Hx.
      - intros x c Hx. rewrite Hplace in Hx. by case_decide. }
    destruct (good_add_bound me t M _ _ _ Hg1) as (M1 & v1 & chain1 & -> & Hg2 & Hst1 & Hp1).
    { split_and!; [rewrite Hplace; by rewrite decide_True| | |done]; [intros ->; apply HT0|]; apply (iv_known _ _ _ _ _ _ (gd_inv _ _ _ _ _ Hg)); by rewrite Hpl. }
    { by rewrite Hproc. }
    destruct (IH M1 v1 chain1 Hg2) as (M2 & v2 & chain2 & -> & Hg3 & Hst2 & Hh). exists M2, v2, chain2. split_and!; try done; [by eapply stable_trans|]. eapply handled_cons; [|exact Hfl|exact Hh].
    intros x. unfold arrives. rewrite !list_elem_of_singleton, Hp1, Hplace, Hproc. rewrite (decide_True (P := me = me)) by done. destruct (decide (x = t)) as [->|Hx]; [split; [done|tauto]|]. split; [|done]. intros [?|[? _]]; congruence.
  - assert (Hbt : processor_id (nodes M t) ∈ ids) by (apply (iv_bound _ _ _ _ _ _ (gd_inv _ _ _ _ _ Hg) me); rewrite fn_lookup_insert, elem_of_app, elem_of_cons; tauto).
    assert (Hg1 : good apic M (<[me := ms]> E) v chain).
    { apply (good_extra _ _ _ _ _ Hg). destruct (gd_inv _ _ _ _ _ Hg) as [Hl Hn Hk Hc Hch Hcur Hfl Hon Hlim Hbd].
      assert (Hsame : forall c, new_threads (p_smp_pending (processors M c) ++ (<[me := ms]> E) c) = new_threads (p_smp_pending (processors M c) ++ (<[me := UnblockThread t :: ms]> E) c)).
      { intros c. destruct (decide (me = c)) as [<-|Hne]; [rewrite !fn_lookup_insert; by rewrite !new_threads_app|by rewrite !fn_lookup_insert_ne]. }
      split; try done; [intros c x; rewrite Hsame; apply Hfl|intros c; rewrite Hsame; apply Hon|]. intros c x Hx. apply (Hbd c). revert Hx.
      destruct (decide (me = c)) as [<-|Hne]; [rewrite !fn_lookup_insert, !elem_of_app, elem_of_cons; tauto|by rewrite !fn_lookup_insert_ne]. }
    destruct (good_unblock_thread me t M _ _ _ Hg1 Hbt) as (M1 & v1 & chain1 & -> & Hg2 & Hst1 & Hw & Hw').
    destruct (IH M1 v1 chain1 Hg2) as (M2 & v2 & chain2 & -> & Hg3 & Hst2 & Hh). exists M2, v2, chain2. split_and!; try done; [by eapply stable_trans|].
    eapply handled_cons; [|intros x Hx; by eapply pending_flight|exact Hh].
    intros x. unfold arrives. rewrite !list_elem_of_singleton. destruct (decide (place v t = Sleep me)) as [Hs|Hs].
    + rewrite (wo_place _ _ _ _ (Hw Hs)). destruct (decide (x = t)) as [->|Hx]; [split; [done|intros Hno; exfalso; apply Hno; by right]|]. split; [|done]. intros [?|[? _]]; congruence.
    + rewrite (Hw' Hs). split; [|done]. intros [?|[[= ->] ?]]; done.
Qed.

Lemma good_handle_messages me M v chain : good apic M (fun _ => []) v chain -> me ∈ ids ->
  exists M' v' chain', handle_smp_messages fuel ids me M = Ok M' /\ good apic M' (fun _ => []) v' chain' /\ stable M M' /\ handled me (p_smp_pending (processors M me)) v v'.
Proof.
  intros Hg Hme. unfold handle_smp_messages. rewrite (gd_smp _ _ _ _ _ Hg me). cbn [negb]. set (ms := p_smp_pending (processors M me)). set (M0 := set_cpu me (with_smp_pending []) M).
  assert (Hst : stable M M0).
  { split; cbn; try done; [intros c; by destruct (schedulers M c)|]. intros c. destruct (decide (me = c)) as [<-|Hc]; [by rewrite fn_lookup_insert|rewrite fn_lookup_insert_ne by done; by destruct (processors M c)]. }
  assert (Hperm : forall c, new_threads (p_smp_pending (processors M0 c) ++ (<[me := rev ms]> (fun _ => [])) c) ≡ₚ new_threads (p_smp_pending (processors M c) ++ [])).
  { intros c. cbn. destruct (decide (me = c)) as [<-|Hc]; [rewrite !fn_lookup_insert|by rewrite !fn_lookup_insert_ne]. cbn. rewrite app_nil_r. unfold new_threads. apply omap_Permutation. symmetry. apply Permutation_rev. }
  assert (Hg0 : good apic M0 (<[me := rev ms]> (fun _ => [])) v chain).
  { eapply good_stable; try done; [|apply (gd_settled _ _ _ _ _ Hg)]. destruct (gd_inv _ _ _ _ _ Hg) as [Hl Hn Hk Hc Hch Hcur Hfl Hon Hlim Hbd]. split; try done.
    - intros c x. rewrite Hperm. apply Hfl.
    - intros c. rewrite Hperm. apply Hon.
    - intros c x Hx. apply (Hbd c). revert Hx. cbn. destruct (decide (me = c)) as [<-|Hne]; [rewrite !fn_lookup_insert; cbn; by rewrite app_nil_r, <- Permutation_rev|by rewrite !fn_lookup_insert_ne]. }
  destruct (good_handle_all me (rev ms) M0 v chain _ Hg0 Hme) as (M' & v' & chain' & -> & Hg' & Hst' & Hh). exists M', v', chain'. split; [done|].
  split; [|split; [by eapply stable_trans|intros x; specialize (Hh x); unfold arrives in *; by rewrite <- !Permutation_rev in Hh]].
  apply (good_extra _ _ _ _ _ Hg'). destruct (gd_inv _ _ _ _ _ Hg') as [Hl Hn Hk Hc Hch Hcur Hfl Hon Hlim Hbd].
  assert (He : forall c, (<[me := []]> (fun _ : Z => @nil SMPMessage)) c = []) by (intros c; destruct (decide (me = c)) as [<-|Hne]; [by rewrite fn_lookup_insert|by rewrite fn_lookup_insert_ne]).
  split; try done; [intros c x; specialize (Hfl c x); by rewrite He in Hfl|intros c; specialize (Hon c); by rewrite He in Hon|intros c x; specialize (Hbd c x); by rewrite He in Hbd].
Qed.
End requests.
End invariant.
