(* ===== verification/SchedulerSteps.v ===== *)
(** * Wake-ups, yields and blocking

    The operations that change the running thread, from one well-formed state to
    another. *)
From stdpp Require Import functions.
From S2P Require Import Prelude BanMath BanSort SchedulerNode SchedulerHeapNode SchedulerNodeCorrect SchedulerHeapLinks SchedulerHeapCorrect Scheduler SchedulerChains SchedulerInv SchedulerCorrect.

(** ** One thread and fields outside the lists change *)
Record touches (M M' : machine) (t : Z) : Prop := {
  to_links : node_links M' = node_links M;
  to_chains : block_chains M' = block_chains M;
  to_others : forall x, x <> t -> nodes M' x = nodes M x /\ threads M' x = threads M x;
  to_chain : blocker (nodes M' t) = blocker (nodes M t) /\ block_chain_next (nodes M' t) = block_chain_next (nodes M t) /\ block_chain_prev (nodes M' t) = block_chain_prev (nodes M t);
  to_lists : forall c, m_run_list (schedulers M' c) = m_run_list (schedulers M c) /\ m_block_list (schedulers M' c) = m_block_list (schedulers M c);
  to_pending : forall c, p_smp_pending (processors M' c) = p_smp_pending (processors M c)
}.

Lemma touches_refl M t : touches M M t.
Proof. by split. Qed.

Lemma touches_trans M1 M2 M3 t : touches M1 M2 t -> touches M2 M3 t -> touches M1 M3 t.
Proof.
  intros [A1 A2 A3 (A4 & A5 & A6) A7 A8] [B1 B2 B3 (B4 & B5 & B6) B7 B8]. split; try congruence.
  - intros x Hx. destruct (A3 x Hx) as [<- <-]. by apply B3.
  - split_and!; congruence.
  - intros c. destruct (A7 c) as [<- <-]. apply B7.
Qed.

Lemma touches_tick M t : touches M (tick M) t.
Proof. by split. Qed.
Lemma touches_thread M t f : touches M (set_thread t f M) t.
Proof. split; try done. intros x Hx. cbn. by rewrite fn_lookup_insert_ne by congruence. Qed.
Lemma touches_node M t f : (forall n, blocker (f n) = blocker n /\ block_chain_next (f n) = block_chain_next n /\ block_chain_prev (f n) = block_chain_prev n) -> touches M (set_node t f M) t.
Proof. intros Hf. split; try done. - intros x Hx. cbn. by rewrite fn_lookup_insert_ne by congruence. - cbn. rewrite fn_lookup_insert. apply Hf. Qed.
Lemma touches_sched M t me f : (forall s, m_run_list (f s) = m_run_list s /\ m_block_list (f s) = m_block_list s) -> touches M (set_sched me f M) t.
Proof. intros Hf. split; try done. intros c. cbn. destruct (decide (me = c)) as [<-|Hc]; [rewrite fn_lookup_insert; apply Hf|by rewrite fn_lookup_insert_ne]. Qed.
Lemma touches_cpu M t me f : (forall p, p_smp_pending (f p) = p_smp_pending p) -> touches M (set_cpu me f M) t.
Proof. intros Hf. split; try done. intros c. cbn. destruct (decide (me = c)) as [<-|Hc]; [rewrite fn_lookup_insert; apply Hf|by rewrite fn_lookup_insert_ne]. Qed.

(** What an operation of [me] on its thread [t] leaves alone. *)
Record local (M M' : machine) (me t : Z) : Prop := {
  lc_scheds : forall c, c <> me -> schedulers M' c = schedulers M c;
  lc_cpus : forall c, c <> me -> processors M' c = processors M c;
  lc_smp : p_smp_messages_disabled (processors M' me) = p_smp_messages_disabled (processors M me);
  lc_last : m_last_load_balance_ns (schedulers M' me) = m_last_load_balance_ns (schedulers M me);
  lc_idle : m_idle_thread (schedulers M' me) = m_idle_thread (schedulers M me);
  lc_nodes : forall x, x <> t -> nodes M' x = nodes M x;
  lc_threads : forall x, x <> t -> threads M' x = threads M x;
  lc_node : wake_time_ns (nodes M' t) = wake_time_ns (nodes M t) /\ blocked (nodes M' t) = blocked (nodes M t) /\ processor_id (nodes M' t) = processor_id (nodes M t);
  lc_thread : m_state (threads M' t) = m_state (threads M t) /\ m_page_table (threads M' t) = m_page_table (threads M t) /\
    m_is_userspace (threads M' t) = m_is_userspace (threads M t) /\ m_kernel_stack_top (threads M' t) = m_kernel_stack_top (threads M t)
}.

Lemma local_refl M me t : local M M me t.
Proof. by split. Qed.

Lemma local_trans M1 M2 M3 me t : local M1 M2 me t -> local M2 M3 me t -> local M1 M3 me t.
Proof.
  intros [A1 A2 A3 A4 A5 A6 A7 (A8 & A9 & A10) (A11 & A12 & A13 & A14)] [B1 B2 B3 B4 B5 B6 B7 (B8 & B9 & B10) (B11 & B12 & B13 & B14)]. split; try congruence.
  - intros c Hc. rewrite B1 by done. by apply A1.
  - intros c Hc. rewrite B2 by done. by apply A2.
  - intros x Hx. rewrite B6 by done. by apply A6.
  - intros x Hx. rewrite B7 by done. by apply A7.
  - split_and!; congruence.
  - split_and!; congruence.
Qed.

Lemma local_tick M me t : local M (tick M) me t.
Proof. by split. Qed.
Lemma local_thread M me t f : (forall th, m_state (f th) = m_state th /\ m_page_table (f th) = m_page_table th /\ m_is_userspace (f th) = m_is_userspace th /\ m_kernel_stack_top (f th) = m_kernel_stack_top th) ->
  local M (set_thread t f M) me t.
Proof. intros Hf. split; try done; cbn; [intros x Hx; by rewrite fn_lookup_insert_ne by congruence|]. rewrite fn_lookup_insert. apply Hf. Qed.
Lemma local_node M me t f : (forall n, wake_time_ns (f n) = wake_time_ns n /\ blocked (f n) = blocked n /\ processor_id (f n) = processor_id n) -> local M (set_node t f M) me t.
Proof. intros Hf. split; try done; cbn; [intros x Hx; by rewrite fn_lookup_insert_ne by congruence|]. rewrite fn_lookup_insert. apply Hf. Qed.
Lemma local_sched M me t f : (forall s, m_last_load_balance_ns (f s) = m_last_load_balance_ns s /\ m_idle_thread (f s) = m_idle_thread s) -> local M (set_sched me f M) me t.
Proof. intros Hf. split; try done; cbn; [intros c Hc; by rewrite fn_lookup_insert_ne by congruence|..]; rewrite fn_lookup_insert; apply Hf. Qed.
Lemma local_cpu M me t f : (forall p, p_smp_messages_disabled (f p) = p_smp_messages_disabled p) -> local M (set_cpu me f M) me t.
Proof. intros Hf. split; try done; cbn; [intros c Hc; by rewrite fn_lookup_insert_ne by congruence|]; rewrite fn_lookup_insert; apply Hf. Qed.
Lemma local_links M me t L : local M (set_links L M) me t.
Proof. by split. Qed.

Ltac touch := repeat first [apply touches_refl | eapply touches_trans;
  [|first [apply touches_tick | apply touches_thread | apply touches_node; done | apply touches_sched; done | apply touches_cpu; done]]].
Ltac loc := repeat first [apply local_refl | eapply local_trans;
  [|first [apply local_tick | apply local_thread; done | apply local_node; done | apply local_sched; done | apply local_cpu; done | apply local_links]]].

Section steps.
Context (fuel : nat) (ns_since_boot : nat -> Z) (ids : list Z) (apic : bool) (T : list Z).
Context (HT : (length T <= fuel)%nat) (HT0 : 0 ∉ T) (Hnone : PROCESSOR_NONE ∉ ids) (Hids : ids <> []).
Context (Hclock : forall n, 0 <= ns_since_boot n < 2 ^ 63).

Abbreviation inv := (inv ids T).
Abbreviation good := (good ids T apic).

(** ** Waking the threads that are due *)
Lemma front_lists L S w v me : lists_ok L S w v -> SchedulerHeap.front (m_block_list (S me)) = at_ (sleep v me) 0 /\
  SchedulerHeap.empty (m_block_list (S me)) = bool_decide (sleep v me = []) /\ (forall x, place v x = Sleep me -> w (at_ (sleep v me) 0) <= w x).
Proof.
  intros [_ Hh Ho _ Hs _]. split_and!.
  - by destruct (Hh me).
  - by eapply heap_empty.
  - intros x Hx. apply Hs in Hx. apply list_elem_of_lookup in Hx as [i Hi]. rewrite <- (at_some _ _ _ Hi). apply heap_order_root; [apply Ho|by eapply lookup_lt_Some].
Qed.

Lemma front_spec M extra v chain me : good M extra v chain ->
  SchedulerHeap.front (m_block_list (schedulers M me)) = at_ (sleep v me) 0 /\ SchedulerHeap.empty (m_block_list (schedulers M me)) = bool_decide (sleep v me = []) /\
  (forall x, place v x = Sleep me -> wake_time_ns (nodes M (at_ (sleep v me) 0)) <= wake_time_ns (nodes M x)).
Proof. intros Hg. exact (front_lists _ _ _ v me (iv_lists _ _ _ _ _ _ _ _ (gd_inv _ _ _ _ _ _ _ Hg))). Qed.

(** The timer is set before the first thread is due. *)
Lemma deadline_updated M v me : lists_ok (node_links M) (schedulers M) (fun x => wake_time_ns (nodes M x)) v -> deadline_ok apic (update_wake_up_deadline ids apic me M) v me.
Proof.
  intros Hl Ha. right. intros x Hx. unfold update_wake_up_deadline. rewrite Ha. cbn [negb set_cpu processors nodes]. rewrite fn_lookup_insert. cbn [with_timer_deadline p_timer_deadline].
  destruct (front_lists _ _ _ _ me Hl) as (-> & -> & Hmin). rewrite bool_decide_eq_false_2.
  - specialize (Hmin x Hx). destruct (is_smp_enabled ids); lia.
  - intros Hs. apply (lo_sleep _ _ _ _ Hl) in Hx. rewrite Hs in Hx. by apply elem_of_nil in Hx.
Qed.

Lemma good_wake_up f me ns M extra v chain : good M extra v chain -> (length (sleep v me) <= f)%nat ->
  exists M' v' chain', wake_up_loop fuel f me ns M = Ok M' /\ good M' extra v' chain' /\ stable M M' /\
    (forall x, place v x = Sleep me -> wake_time_ns (nodes M x) <= ns -> place v' x = Run me) /\
    (forall x, place v x <> Sleep me \/ ns < wake_time_ns (nodes M x) -> place v' x = place v x).
Proof.
  revert M v chain. induction f as [|f IH]; intros M v chain Hg Hf; cbn [wake_up_loop]; destruct (front_spec _ _ _ _ me Hg) as (-> & -> & Hmin).
  - destruct (sleep v me) eqn:E; [|cbn in Hf; lia]. rewrite bool_decide_eq_true_2 by done. cbn [negb andb]. exists M, v, chain. split_and!; try done; [apply stable_refl|].
    intros x Hx. apply (lo_sleep _ _ _ _ (iv_lists _ _ _ _ _ _ _ _ (gd_inv _ _ _ _ _ _ _ Hg))) in Hx. rewrite E in Hx. by apply elem_of_nil in Hx.
  - pose proof (lo_sleep _ _ _ _ (iv_lists _ _ _ _ _ _ _ _ (gd_inv _ _ _ _ _ _ _ Hg)) me) as Hs.
    destruct (decide (sleep v me = [])) as [E|E].
    + rewrite bool_decide_eq_true_2 by done. cbn [negb andb]. exists M, v, chain. split_and!; try done; [apply stable_refl|]. intros x Hx. apply Hs in Hx. rewrite E in Hx. by apply elem_of_nil in Hx.
    + rewrite bool_decide_eq_false_2 by done. cbn [negb andb]. set (t := at_ (sleep v me) 0) in *.
      assert (Ht : place v t = Sleep me) by (apply Hs, at_elem; destruct (sleep v me); [done|cbn; lia]).
      destruct (Z.leb_spec (wake_time_ns (nodes M t)) ns) as [Hdue|Hdue].
      2: { exists M, v, chain. split_and!; try done; [apply stable_refl|]. intros x Hx Hle. specialize (Hmin x Hx). lia. }
      destruct (good_unblock_thread fuel ids T HT apic me t M _ _ _ Hg ltac:(eapply placed_bound; [apply (gd_inv _ _ _ _ _ _ _ Hg)|by rewrite Ht])) as (M1 & v1 & chain1 & -> & Hg1 & Hst1 & Hw & _). specialize (Hw Ht).
      assert (Hlen : (length (sleep v1 me) <= f)%nat).
      { pose proof (iv_lists _ _ _ _ _ _ _ _ (gd_inv _ _ _ _ _ _ _ Hg1)) as Hl1. destruct (hl_nodes _ _ (hr_links _ _ _ (lo_heap _ _ _ _ Hl1 me))) as [Hnd _].
        assert (Hsub : t :: sleep v1 me ⊆+ sleep v me).
        { apply NoDup_submseteq.
          - apply list.NoDup_cons. split; [|done]. intros Hin. apply (lo_sleep _ _ _ _ Hl1) in Hin. rewrite (wo_place _ _ _ _ Hw), decide_True in Hin by done. done.
          - intros x [->|Hx]%elem_of_cons; [by apply Hs|]. apply (lo_sleep _ _ _ _ Hl1) in Hx. apply Hs. rewrite (wo_place _ _ _ _ Hw) in Hx. by case_decide. }
        apply submseteq_length in Hsub. cbn in Hsub. lia. }
      destruct (IH M1 v1 chain1 Hg1 Hlen) as (M2 & v2 & chain2 & -> & Hg2 & Hst2 & Hdue2 & Hkept2). exists M2, v2, chain2. split_and!; try done; [by eapply stable_trans|..].
      * intros x Hx Hle. destruct (decide (x = t)) as [->|Hxt].
        -- rewrite Hkept2; [rewrite (wo_place _ _ _ _ Hw); by rewrite decide_True|left]. rewrite (wo_place _ _ _ _ Hw). by rewrite decide_True.
        -- apply Hdue2; [rewrite (wo_place _ _ _ _ Hw); by rewrite decide_False|by rewrite (sb_wake _ _ Hst1)].
      * intros x Hx. destruct (decide (x = t)) as [->|Hxt]; [destruct Hx; [done|lia]|]. assert (Hx1 : place v1 x = place v x) by (rewrite (wo_place _ _ _ _ Hw); by rewrite decide_False).
        rewrite <- Hx1. apply Hkept2. rewrite (wo_place _ _ _ _ Hw), decide_False, (sb_wake _ _ Hst1) by done. done.
Qed.

(** The running thread [t] of [me] is taken off and is nowhere for a moment. *)
Lemma current_to_nowhere M M1 me t cur E v chain : inv M 0 cur E v chain -> place v t = Current me -> t <> 0 -> touches M M1 t ->
  processor_id (nodes M1 t) = processor_id (nodes M t) -> blocked (nodes M1 t) = false -> blocker (nodes M1 t) = 0 -> m_cpu_time_start_ns (threads M1 t) = UINT64_MAX ->
  inv M1 0 (<[me := 0]> cur) E (relocate v t Nowhere) chain.
Proof.
  intros Hinv Hpl Ht0 [A1 A2 A3 A4 A7 A8] Hproc Hb Hb0 Hs. pose proof Hinv as [Hl Hn Hk Hcpu Hch Hcur Hfl Hon Hlim Hbd].
  apply (inv_relocate ids T M M1 _ cur _ E _ v chain t Nowhere Hinv); try done; [by rewrite Hpl|by left|..].
  - intros c x Hx. cbn. destruct (decide (me = c)) as [<-|Hc].
    + rewrite fn_lookup_insert. split; [done|]. destruct (decide (t = x)) as [<-|Htx]; [by rewrite fn_lookup_insert|rewrite fn_lookup_insert_ne by done]. intros Hx'. apply Hcur in Hx'; [|done]. apply Hcur in Hpl; [|done]. congruence.
    + rewrite fn_lookup_insert_ne, Hcur by done. symmetry. apply (place_moved (fun p => p = Current c)). rewrite Hpl. split; congruence.
  - intros c x. rewrite A8, Hfl. symmetry. apply (place_moved (fun p => p = Flight c)). rewrite Hpl. split; congruence.
  - intros c. rewrite A8. apply Hon.
  - intros c x. by rewrite A8.
  - by left.
Qed.

(** It goes to sleep. *)
Lemma current_to_sleep M M1 me t cur E v chain : inv M 0 cur E v chain -> place v t = Current me -> t <> 0 -> touches M M1 t ->
  processor_id (nodes M1 t) = me -> blocked (nodes M1 t) = true -> m_state (threads M1 t) <> Terminated -> m_cpu_time_start_ns (threads M1 t) = UINT64_MAX ->
  exists h L l, block_push fuel me t M1 = Ok (set_links L (set_sched me (with_block_list h) M1)) /\
    inv (set_links L (set_sched me (with_block_list h) M1)) 0 (<[me := 0]> cur) E (to_sleep v me t l) chain.
Proof.
  intros Hinv Hpl Ht0 [A1 A2 A3 (A4 & A5 & A6) A7 A8] Hproc Hb Hst Hs. pose proof Hinv as [Hl Hn Hk Hcpu Hch Hcur Hfl Hon Hlim Hbd].
  assert (Hl1 : lists_ok (node_links M1) (schedulers M1) (fun x => wake_time_ns (nodes M1 x)) v).
  { rewrite A1. eapply lists_ok_ext; [exact Hl|done|]. intros x c Hx. destruct (A3 x) as [-> _]; [|done]. intros ->. congruence. }
  unfold block_push. destruct (push_sleep_ok _ _ _ _ Hl1 fuel me t Ht0) as (h & L & l & -> & Hl2); [by rewrite Hpl|by eapply sleep_short|].
  exists h, L, l. split; [done|]. split; cbn [set_links set_sched nodes threads node_links block_chains schedulers processors to_sleep moved place]; try done.
  - intros x. destruct (decide (t = x)) as [<-|Hx]; [by rewrite fn_lookup_insert|]. rewrite fn_lookup_insert_ne by done. destruct (A3 x) as [-> ->]; [congruence|]. apply Hn.
  - intros x. destruct (decide (t = x)) as [<-|Hx]; [intros _; apply Hk; by rewrite Hpl|]. rewrite fn_lookup_insert_ne by done. apply Hk.
  - intros x c. destruct (decide (t = x)) as [<-|Hx]; [rewrite fn_lookup_insert; intros [= <-]; apply (Hcpu t); by rewrite Hpl|]. rewrite fn_lookup_insert_ne by done. apply Hcpu.
  - rewrite A2. eapply chains_ok_ext; [|exact Hch]. intros x. destruct (decide (x = t)) as [->|Hx]; [done|]. by destruct (A3 x Hx) as [-> _].
  - intros c x Hx. destruct (decide (me = c)) as [<-|Hc].
    + rewrite fn_lookup_insert. split; [done|]. destruct (decide (t = x)) as [<-|Htx]; [by rewrite fn_lookup_insert|rewrite fn_lookup_insert_ne by done]. intros Hx'. apply Hcur in Hx'; [|done]. apply Hcur in Hpl; [|done]. congruence.
    + rewrite fn_lookup_insert_ne, Hcur by done. symmetry. apply (place_moved (fun p => p = Current c)). rewrite Hpl. split; congruence.
  - intros c x. rewrite A8, Hfl. symmetry. apply (place_moved (fun p => p = Flight c)). rewrite Hpl. split; congruence.
  - intros c. rewrite A8. apply Hon.
  - intros c x. rewrite A8. intros Hx. destruct (decide (x = t)) as [->|Hxt]; [rewrite Hproc; apply (Hcpu t); by rewrite Hpl|]. destruct (A3 x Hxt) as [-> _]. by apply (Hbd c).
Qed.

(** The first runnable thread becomes the running one. *)
Lemma run_to_current M me t cur E v chain rest : inv M 0 cur E v chain -> cur me = 0 -> run v me = t :: rest ->
  exists q L, SchedulerQueue.pop_front (m_run_list (schedulers M me)) (node_links M) = (t, q, L) /\
    let M2 := set_links L (set_sched me (fun s => with_current t (with_run_list q s)) M) in
    forall M3, touches M2 M3 t -> processor_id (nodes M3 t) = processor_id (nodes M t) -> blocked (nodes M3 t) = blocked (nodes M t) -> m_cpu_time_start_ns (threads M3 t) <> UINT64_MAX ->
      inv M3 0 (<[me := t]> cur) E (from_run v me t 0 (Current me)) chain.
Proof.
  intros Hinv Hc0 Hrun. pose proof Hinv as [Hl Hn Hk Hcpu Hch Hcur Hfl Hon Hlim Hbd]. pose proof (pop_front_ok _ _ _ _ me (Current me) Hl eq_refl) as Hpop. rewrite Hrun in Hpop.
  destruct Hpop as (q & L & Hpop & Hl2). exists q, L. split; [done|]. cbv zeta. intros M3 [A1 A2 A3 (A4 & A5 & A6) A7 A8] Hproc Hb Hs. cbn in A1, A2, A3, A4, A5, A6, A7, A8.
  assert (Hpl : place v t = Run me) by (apply (lo_run _ _ _ _ Hl); rewrite Hrun; by left). pose proof (Hn t) as Hnt. rewrite Hpl in Hnt. destruct Hnt as (N1 & N2 & N3 & N4 & N5).
  split; cbn [from_run moved place].
  - rewrite A1. eapply lists_ok_ext; [apply (Hl2 (with_current t (with_run_list q (schedulers M me)))); done| |].
    + intros c. destruct (A7 c) as [-> ->]. done.
    + intros x c Hx. cbn in Hx. destruct (decide (t = x)) as [<-|Htx]; [by rewrite fn_lookup_insert in Hx|]. by destruct (A3 x) as [-> _].
  - intros x. destruct (decide (t = x)) as [<-|Hx].
    + rewrite fn_lookup_insert. cbn. rewrite Hproc, A4. done.
    + rewrite fn_lookup_insert_ne by done. destruct (A3 x) as [-> ->]; [congruence|]. apply Hn.
  - intros x. destruct (decide (t = x)) as [<-|Hx]; [intros _; apply Hk; by rewrite Hpl|]. rewrite fn_lookup_insert_ne by done. apply Hk.
  - intros x c. destruct (decide (t = x)) as [<-|Hx]; [rewrite fn_lookup_insert; intros [= <-]; apply (Hcpu t); by rewrite Hpl|]. rewrite fn_lookup_insert_ne by done. apply Hcpu.
  - rewrite A2. eapply chains_ok_ext; [|exact Hch]. intros x. destruct (decide (x = t)) as [->|Hx]; [done|]. by destruct (A3 x Hx) as [-> _].
  - intros c x Hx. destruct (decide (me = c)) as [<-|Hc].
    + rewrite fn_lookup_insert. destruct (decide (t = x)) as [<-|Htx]; [by rewrite fn_lookup_insert|rewrite fn_lookup_insert_ne by done]. split; [done|]. intros Hx'. apply Hcur in Hx'; [|done]. congruence.
    + rewrite fn_lookup_insert_ne, Hcur by done. symmetry. apply (place_moved (fun p => p = Current c)). rewrite Hpl. split; congruence.
  - intros c x. rewrite A8, Hfl. symmetry. apply (place_moved (fun p => p = Flight c)). rewrite Hpl. split; congruence.
  - intros c. rewrite A8. apply Hon.
  - done.
  - intros c x. rewrite A8. intros Hx%Hbd. destruct (decide (x = t)) as [->|Hxt]; [by rewrite Hproc|]. by destruct (A3 x Hxt) as [-> _].
Qed.

(** Fields the invariant does not depend on. *)
Lemma inv_touch M M' t stale cur E v chain : inv M stale cur E v chain -> touches M M' t ->
  wake_time_ns (nodes M' t) = wake_time_ns (nodes M t) -> processor_id (nodes M' t) = processor_id (nodes M t) -> blocked (nodes M' t) = blocked (nodes M t) ->
  m_state (threads M' t) = m_state (threads M t) -> m_cpu_time_start_ns (threads M' t) = m_cpu_time_start_ns (threads M t) -> inv M' stale cur E v chain.
Proof.
  intros [Hl Hn Hk Hcpu Hch Hcur Hfl Hon Hlim Hbd] [A1 A2 A3 (A4 & A5 & A6) A7 A8] W1 W2 W3 W4 W5. split; try done.
  - rewrite A1. eapply lists_ok_ext; [exact Hl|done|]. intros x c _. destruct (decide (x = t)) as [->|Hx]; [done|]. by destruct (A3 x Hx) as [-> _].
  - intros x. destruct (decide (x = t)) as [->|Hx]; [by eapply node_ok_ext; [..|apply Hn]|]. destruct (A3 x Hx) as [-> ->]. apply Hn.
  - rewrite A2. eapply chains_ok_ext; [|exact Hch]. intros x. destruct (decide (x = t)) as [->|Hx]; [done|]. by destruct (A3 x Hx) as [-> _].
  - intros c x. rewrite A8. apply Hfl.
  - intros c. rewrite A8. apply Hon.
  - intros c x. rewrite A8. intros Hx%Hbd. destruct (decide (x = t)) as [->|Hxt]; [by rewrite W2|]. by destruct (A3 x Hxt) as [-> _].
Qed.

(** ** The table of heavy threads *)
Lemma loads_insert l c v t i : loads_ok l c v -> home (place v t) = Some c -> t ∉ l -> loads_ok (<[i := t]> l) c v.
Proof.
  intros (H1 & H2 & H3) Hh Hn. assert (Hnot : forall k, l !! k <> Some t) by (intros k Hk; apply Hn; by eapply list_elem_of_lookup_2).
  split_and!; [..|by rewrite length_insert].
  - intros a b x Ha Hb Hx. rewrite list_lookup_insert_Some in Ha, Hb. destruct Ha as [(Ea & Ex & _)|[Hia Ha]], Hb as [(Eb & Ey & _)|[Hib Hb]]; [congruence|subst x; by apply Hnot in Hb|subst x; by apply Hnot in Ha|by eapply H1].
  - intros x Hx Hx0. apply list_elem_of_lookup in Hx as [k Hk]. apply list_lookup_insert_Some in Hk as [(-> & <- & _)|[_ Hk]]; [done|]. apply H2; [by eapply list_elem_of_lookup_2|done].
Qed.

Lemma loads_kept l c v v1 t : loads_ok l c v -> (home (place v t) = Some c -> home (place v1 t) = Some c) -> (forall x, x <> t -> place v1 x = place v x) -> loads_ok l c v1.
Proof.
  intros (H1 & H2 & H3) Ht Ho. split_and!; [done| |done]. intros x Hx Hx0. destruct (decide (x = t)) as [->|Hxt]; [by apply Ht, H2|]. rewrite Ho by done. by apply H2.
Qed.

Lemma add_current_ok me M v t : loads_ok (m_most_loaded_threads (schedulers M me)) me v -> m_current (schedulers M me) = t -> home (place v t) = Some me ->
  exists M', add_current_to_most_loaded me M = Ok M' /\ (M' = M \/ exists l', M' = set_sched me (with_most_loaded l') M) /\ loads_ok (m_most_loaded_threads (schedulers M' me)) me v.
Proof.
  intros Hl Hc Hh. unfold add_current_to_most_loaded. rewrite Hc. set (l := m_most_loaded_threads _) in *.
  destruct (existsb (Z.eqb t) l) eqn:He; [exists M; split_and!; [done|by left|done]|].
  assert (Hn : t ∉ l) by (intros Hin; assert (existsb (Z.eqb t) l = true) by (apply existsb_exists; exists t; split; [by apply list_elem_of_In|apply Z.eqb_refl]); congruence).
  assert (Hins : forall i, exists M', Ok (set_sched me (with_most_loaded (<[i := t]> l)) M) = Ok M' /\ (M' = M \/ exists l', M' = set_sched me (with_most_loaded l') M) /\ loads_ok (m_most_loaded_threads (schedulers M' me)) me v).
  { intros i. eexists. split; [done|]. split; [right; by eexists|]. cbn. rewrite fn_lookup_insert. cbn. by apply loads_insert. }
  destruct (first_free l 0) as [i|]; [apply Hins|]. destruct l as [|t0 rest] eqn:El; [destruct Hl as (_ & _ & Hlen); cbn in Hlen; lia|]. rewrite <- El in *.
  destruct (_ <? _); [apply Hins|exists M; split_and!; [done|by left|done]].
Qed.

Lemma clear_first_lookup t l i x : clear_first t l !! i = Some x -> x <> 0 -> l !! i = Some x.
Proof.
  revert i. induction l as [|y l IH]; intros i Hi Hx; cbn in *; [done|]. destruct (y =? t); destruct i; cbn in *; try done; [congruence|by apply IH].
Qed.

Lemma clear_first_gone t l : t <> 0 -> (forall i j, l !! i = Some t -> l !! j = Some t -> i = j) -> t ∉ clear_first t l.
Proof.
  intros Ht. induction l as [|y l IH]; intros Huniq; cbn; [apply not_elem_of_nil|]. destruct (Z.eqb_spec y t) as [->|Hy].
  - intros [->|Hin]%elem_of_cons; [done|]. apply list_elem_of_lookup in Hin as [k Hk]. by pose proof (Huniq 0%nat (S k) eq_refl Hk).
  - intros [->|Hin]%elem_of_cons; [done|]. apply IH; [|done]. intros i j Hi Hj. pose proof (Huniq (S i) (S j) Hi Hj). lia.
Qed.

Lemma clear_first_length t l : length (clear_first t l) = length l.
Proof. induction l as [|y l IH]; cbn; [done|]. destruct (y =? t); cbn; congruence. Qed.

(** Without the thread [t], which may leave the processor. *)
Lemma loads_clear l c v v' t : loads_ok l c v -> t <> 0 -> (forall x, x <> t -> home (place v x) = Some c -> home (place v' x) = Some c) -> loads_ok (clear_first t l) c v'.
Proof.
  intros (H1 & H2 & H3) Ht Hv. pose proof (clear_first_gone t l Ht (fun i j Hi Hj => H1 i j t Hi Hj Ht)) as Hgone. split_and!; [..|by rewrite clear_first_length].
  - intros i j x Hi Hj Hx. apply (H1 i j x); [by eapply clear_first_lookup..|done].
  - intros x Hx Hx0. apply Hv; [congruence|]. apply list_elem_of_lookup in Hx as [k Hk]. apply clear_first_lookup in Hk; [|done]. apply H2; [by eapply list_elem_of_lookup_2|done].
Qed.

(** ** Yielding *)

(** Before a yield of [me]: its running thread may have been marked as blocked. *)
Record about_to_yield (M : machine) (E : Z -> list SMPMessage) (v : view) (chain : Z -> list Z) (me : Z) : Prop := {
  ay_inv : inv M 0 (currents M) E v chain;
  ay_settled : forall c x, c <> me -> place v x = Current c -> blocked (nodes M x) = false;
  ay_exec : forall x, place v x = Current me -> m_state (threads M x) <> Executing -> blocked (nodes M x) = false;
  ay_loads : forall c, loads_ok (m_most_loaded_threads (schedulers M c)) c v;
  ay_deadline : forall c, c <> me -> deadline_ok apic M v c;
  ay_smp : forall c, c <> me -> p_smp_messages_disabled (processors M c) = false;
  ay_last : forall c, 0 <= m_last_load_balance_ns (schedulers M c) < 2 ^ 63
}.

Lemma load_page_table_cases me table M : load_page_table me table M = M \/ load_page_table me table M = set_cpu me (with_page_table table) M.
Proof. unfold load_page_table. destruct (_ =? _); auto. Qed.

Lemma delete_thread_cases me t M : delete_thread me t M = M \/ delete_thread me t M = set_cpu me (with_sse false 0) M.
Proof. unfold delete_thread. destruct (_ =? _); auto. Qed.

Lemma update_deadline_cases me M : update_wake_up_deadline ids apic me M = M \/ exists d, update_wake_up_deadline ids apic me M = set_cpu me (with_timer_deadline d) M.
Proof. unfold update_wake_up_deadline. destruct apic; cbn [negb]; [right; by eexists|by left]. Qed.

Lemma stop_ok t M : m_cpu_time_start_ns (threads M t) <> UINT64_MAX -> exists M', set_cpu_time_stop ns_since_boot t M = Ok M' /\ touches M M' t /\ (forall me, local M M' me t) /\
  m_cpu_time_start_ns (threads M' t) = UINT64_MAX /\ nodes M' = nodes M /\ schedulers M' = schedulers M /\ processors M' = processors M /\ m_yield_registers (threads M' t) = m_yield_registers (threads M t).
Proof.
  intros Hs. unfold set_cpu_time_stop. rewrite (proj2 (Z.eqb_neq _ _) Hs). cbn [negb now]. eexists. split; [done|]. split; [touch|]. split.
  - intros me. eapply local_trans; [apply local_tick|]. apply local_thread. intros th. by destruct (m_is_in_syscall th).
  - cbn. rewrite fn_lookup_insert. split_and!; try done; by destruct (m_is_in_syscall _).
Qed.

Definition put_back_place (M : machine) (me t : Z) : loc :=
  match m_state (threads M t) with Terminated => Nowhere | _ => if blocked (nodes M t) then Sleep me else Run me end.

Lemma put_back_cases M me t : put_back_place M me t = Nowhere \/ put_back_place M me t = Sleep me \/ put_back_place M me t = Run me.
Proof. unfold put_back_place. destruct (m_state (threads M t)), (blocked (nodes M t)); auto. Qed.

(** What [put_back] promises about the thread [t] it takes off. *)
Record put_away (M M1 : machine) (v v1 : view) (me t regs : Z) : Prop := {
  pa_local : local M M1 me t;
  pa_loads : forall c, loads_ok (m_most_loaded_threads (schedulers M1 c)) c v1;
  pa_place : t <> 0 -> place v1 t = put_back_place M me t;
  pa_others : forall x, x <> t -> place v1 x = place v x;
  pa_run : run v1 me = if bool_decide (t <> 0 /\ put_back_place M me t = Run me) then run v me ++ [t] else run v me;
  pa_regs : t <> 0 -> m_state (threads M t) = Executing -> m_yield_registers (threads M1 t) = regs
}.

Section put_back.
Context (M : machine) (E : Z -> list SMPMessage) (v : view) (chain : Z -> list Z) (me t regs : Z).
Context (Hay : about_to_yield M E v chain me) (Ht : currents M me = t).

Lemma put_back_idle : t = 0 -> exists M1 v1, put_back fuel ns_since_boot ids apic me regs M = Ok M1 /\ inv M1 0 (<[me := 0]> (currents M)) E v1 chain /\ put_away M M1 v v1 me t regs.
Proof.
  intros Ht0. pose proof Hay as [A1 A2 A3 A4 A5 A6 A7]. unfold put_back. fold (currents M me). rewrite Ht, Ht0. cbn [Z.eqb now]. eexists _, v. split; [done|]. split.
  - eapply inv_cur_ext; [|eapply (inv_touch M _ 0); [exact A1|touch|done..]]. intros c. destruct (decide (me = c)) as [<-|Hc]; [rewrite fn_lookup_insert; congruence|by rewrite fn_lookup_insert_ne].
  - split; try done; [loc|]. intros c. cbn. destruct (decide (me = c)) as [<-|Hc]; [rewrite fn_lookup_insert|rewrite fn_lookup_insert_ne by done]; apply A4.
Qed.

Context (Ht0 : t <> 0).

Lemma put_back_current : place v t = Current me.
Proof. by apply (iv_current _ _ _ _ _ _ _ _ (ay_inv _ _ _ _ _ Hay)). Qed.

Lemma put_back_state : processor_id (nodes M t) = me /\ (blocked (nodes M t) = false -> blocker (nodes M t) = 0) /\ m_cpu_time_start_ns (threads M t) <> UINT64_MAX.
Proof. pose proof (iv_nodes _ _ _ _ _ _ _ _ (ay_inv _ _ _ _ _ Hay) t) as Hn. by rewrite put_back_current in Hn. Qed.

Lemma put_back_terminated : m_state (threads M t) = Terminated ->
  exists M1 v1, put_back fuel ns_since_boot ids apic me regs M = Ok M1 /\ inv M1 0 (<[me := 0]> (currents M)) E v1 chain /\ put_away M M1 v v1 me t regs.
Proof.
  intros Hst. pose proof Hay as [A1 A2 A3 A4 A5 A6 A7]. pose proof put_back_current as Hpl. destruct put_back_state as (Hproc & Hb0 & Hs).
  assert (Hb : blocked (nodes M t) = false) by (apply A3; [done|by rewrite Hst]).
  unfold put_back. fold (currents M me). rewrite Ht, (proj2 (Z.eqb_neq t 0)) by done.
  destruct (stop_ok t M Hs) as (M1 & -> & Ht1 & Hl1 & Hs1 & Hn1 & Hsc1 & Hp1 & _). destruct (lc_thread _ _ _ _ (Hl1 me)) as (-> & _). rewrite Hst.
  unfold remove_current_from_most_loaded. set (M2 := set_sched me _ M1).
  assert (Ht2 : touches M M2 t) by (eapply touches_trans; [done|by apply touches_sched]). assert (Hl2 : local M M2 me t) by (eapply local_trans; [apply Hl1|by apply local_sched]).
  assert (Hsc2 : forall c, loads_ok (m_most_loaded_threads (schedulers M2 c)) c (relocate v t Nowhere)).
  { intros c. cbn. rewrite Hsc1. fold (currents M me). rewrite Ht. destruct (decide (me = c)) as [<-|Hc].
    - rewrite fn_lookup_insert. cbn. eapply loads_clear; [apply A4|done|]. intros x Hx Hh. cbn. by rewrite fn_lookup_insert_ne by congruence.
    - rewrite fn_lookup_insert_ne by done. apply (loads_kept _ _ v _ t); [apply A4|rewrite Hpl; cbn; congruence|]. intros x Hx. cbn. by rewrite fn_lookup_insert_ne by congruence. }
  set (M3 := load_page_table me 0 M2). assert (H3 : M3 = M2 \/ M3 = set_cpu me (with_page_table 0) M2) by apply load_page_table_cases.
  set (M4 := delete_thread me t (set_sched me (with_current 0) M3)).
  assert (H4 : M4 = set_sched me (with_current 0) M3 \/ M4 = set_cpu me (with_sse false 0) (set_sched me (with_current 0) M3)) by apply delete_thread_cases.
  assert (Ht4 : touches M2 M4 t) by (destruct H4 as [-> | ->], H3 as [-> | ->]; touch). assert (Hl4 : local M2 M4 me t) by (destruct H4 as [-> | ->], H3 as [-> | ->]; loc).
  assert (Hsc4 : forall c, m_most_loaded_threads (schedulers M4 c) = m_most_loaded_threads (schedulers M2 c) /\ nodes M4 = nodes M2 /\ threads M4 = threads M2).
  { intros c. destruct H4 as [-> | ->], H3 as [-> | ->]; cbn [set_sched set_cpu schedulers nodes threads]; (split; [|done]); (destruct (decide (me = c)) as [<-|Hc]; [by rewrite !fn_lookup_insert|by rewrite !(fn_lookup_insert_ne _ me c) by done]). }
  destruct (Hsc4 me) as (_ & Hn4 & Hth4). eexists _, (relocate v t Nowhere). split; [done|]. split.
  - apply (current_to_nowhere M); try done.
    + eapply touches_trans; [exact Ht2|]. eapply touches_trans; [exact Ht4|]. by apply touches_sched.
    + cbn. rewrite Hn4. cbn. by rewrite Hn1.
    + cbn. rewrite Hn4. cbn. by rewrite Hn1.
    + cbn. rewrite Hn4. cbn. rewrite Hn1. by apply Hb0.
    + cbn. rewrite Hth4. done.
  - split.
    + eapply local_trans; [exact Hl2|]. eapply local_trans; [exact Hl4|]. by apply local_sched.
    + intros c. cbn. destruct (Hsc4 c) as [Hc4 _]. destruct (decide (me = c)) as [<-|Hc]; [rewrite fn_lookup_insert; cbn; rewrite Hc4; apply Hsc2|rewrite fn_lookup_insert_ne by done; rewrite Hc4; apply Hsc2].
    + intros _. cbn. rewrite fn_lookup_insert. unfold put_back_place. by rewrite Hst.
    + intros x Hx. cbn. by rewrite fn_lookup_insert_ne by congruence.
    + rewrite bool_decide_eq_false_2; [done|]. unfold put_back_place. rewrite Hst. by intros [_ ?].
    + congruence.
Qed.

(** [t] made runnable again from a state that only touched it. *)
Lemma put_back_run M4 : touches M M4 t -> local M M4 me t -> m_state (threads M t) <> Terminated -> blocked (nodes M t) = false -> m_cpu_time_start_ns (threads M4 t) = UINT64_MAX ->
  (forall c, loads_ok (m_most_loaded_threads (schedulers M4 c)) c v) -> (m_state (threads M t) = Executing -> m_yield_registers (threads M4 t) = regs) ->
  exists M5 v1, run_push me t M4 = Ok M5 /\ inv M5 0 (<[me := 0]> (currents M)) E v1 chain /\ put_away M M5 v v1 me t regs.
Proof.
  intros Ht4 Hl4 Hst Hb Hs4 Hld Hregs. pose proof Hay as [A1 A2 A3 A4 A5 A6 A7]. pose proof put_back_current as Hpl. destruct put_back_state as (Hproc & Hb0 & Hs).
  destruct (lc_node _ _ _ _ Hl4) as (Hw4 & Hb4 & Hp4). destruct (lc_thread _ _ _ _ Hl4) as (Hst4 & _). destruct (to_chain _ _ _ Ht4) as (Hbl4 & _).
  assert (Hinv4 : inv M4 0 (<[me := 0]> (currents M)) E (relocate v t Nowhere) chain) by (apply (current_to_nowhere M); try done; [congruence|rewrite Hbl4; by apply Hb0]).
  destruct (run_push_ok ids T me t M4 _ _ _ _ _ Hinv4) as (M5 & Hrun & Hinv5 & Hq5 & Hcpu5 & Hn5); try congruence.
  { cbn. by rewrite fn_lookup_insert. }
  { apply (iv_known _ _ _ _ _ _ _ _ A1). by rewrite Hpl. }
  { apply (iv_cpu _ _ _ _ _ _ _ _ A1 t). by rewrite Hpl. }
  assert (Hplace : forall x, place (to_run (relocate v t Nowhere) me t) x = if decide (x = t) then Run me else place v x).
  { intros x. cbn. destruct (decide (t = x)) as [<-|Hx]; [by rewrite fn_lookup_insert, decide_True|by rewrite !fn_lookup_insert_ne, decide_False by congruence]. }
  assert (Hpb : put_back_place M me t = Run me) by (unfold put_back_place; rewrite Hb; by destruct (m_state (threads M t))).
  eexists M5, _. split; [done|]. split; [exact Hinv5|]. pose proof Hrun as Hrun'. unfold run_push in Hrun'. destruct (SchedulerQueue.push _ _ _) as [[q L]| |]; [|done..]. injection Hrun' as <-.
  split.
  - eapply local_trans; [exact Hl4|]. loc.
  - intros c. cbn. destruct (decide (me = c)) as [<-|Hc]; [rewrite fn_lookup_insert; cbn|rewrite fn_lookup_insert_ne by done].
    all: apply (loads_kept _ _ v _ t); [apply Hld|rewrite Hpl, Hplace, decide_True by done; done|intros x Hx; rewrite Hplace; by rewrite decide_False].
  - intros _. by rewrite Hplace, decide_True.
  - intros x Hx. by rewrite Hplace, decide_False.
  - rewrite bool_decide_eq_true_2 by done. cbn. by rewrite fn_lookup_insert.
  - done.
Qed.

Lemma put_back_not_started : m_state (threads M t) = NotStarted ->
  exists M1 v1, put_back fuel ns_since_boot ids apic me regs M = Ok M1 /\ inv M1 0 (<[me := 0]> (currents M)) E v1 chain /\ put_away M M1 v v1 me t regs.
Proof.
  intros Hst. pose proof Hay as [A1 A2 A3 A4 A5 A6 A7]. pose proof put_back_current as Hpl. destruct put_back_state as (Hproc & Hb0 & Hs).
  assert (Hb : blocked (nodes M t) = false) by (apply A3; [done|by rewrite Hst]).
  unfold put_back. fold (currents M me). rewrite Ht, (proj2 (Z.eqb_neq t 0)) by done.
  destruct (stop_ok t M Hs) as (M1 & -> & Ht1 & Hl1 & Hs1 & Hn1 & Hsc1 & Hp1 & _). destruct (lc_thread _ _ _ _ (Hl1 me)) as (-> & _). rewrite Hst, Hn1, Hb. cbn [negb].
  unfold remove_current_from_most_loaded. apply put_back_run; try done.
  - eapply touches_trans; [done|]. touch.
  - eapply local_trans; [apply Hl1|]. loc.
  - by rewrite Hst.
  - intros c. cbn. rewrite Hsc1. fold (currents M me). rewrite Ht. destruct (decide (me = c)) as [<-|Hc]; [rewrite fn_lookup_insert; cbn|rewrite fn_lookup_insert_ne by done; apply A4].
    eapply loads_clear; [apply A4|done|done].
  - congruence.
Qed.

Lemma put_back_executing : m_state (threads M t) = Executing ->
  exists M1 v1, put_back fuel ns_since_boot ids apic me regs M = Ok M1 /\ inv M1 0 (<[me := 0]> (currents M)) E v1 chain /\ put_away M M1 v v1 me t regs.
Proof.
  intros Hst. pose proof Hay as [A1 A2 A3 A4 A5 A6 A7]. pose proof put_back_current as Hpl. destruct put_back_state as (Hproc & Hb0 & Hs).
  unfold put_back. fold (currents M me). rewrite Ht, (proj2 (Z.eqb_neq t 0)) by done.
  destruct (stop_ok t M Hs) as (M1 & -> & Ht1 & Hl1 & Hs1 & Hn1 & Hsc1 & Hp1 & _). destruct (lc_thread _ _ _ _ (Hl1 me)) as (Hst1 & _). rewrite Hst1, Hst. cbn [now].
  set (M3 := set_node t _ (tick _)). assert (Ht3 : touches M M3 t) by (eapply touches_trans; [done|]; touch). assert (Hl3 : local M M3 me t) by (eapply local_trans; [apply Hl1|]; loc).
  assert (Hr3 : m_yield_registers (threads M3 t) = regs) by (cbn; by rewrite fn_lookup_insert). assert (Hs3 : m_cpu_time_start_ns (threads M3 t) = UINT64_MAX) by (cbn; by rewrite fn_lookup_insert).
  destruct (add_current_ok me M3 v t) as (M4 & -> & H4 & Hld4); [cbn; rewrite Hsc1; apply A4|cbn; by rewrite Hsc1|by rewrite Hpl|].
  assert (Ht4 : touches M M4 t) by (eapply touches_trans; [done|]; destruct H4 as [->|[l' ->]]; touch). assert (Hl4 : local M M4 me t) by (eapply local_trans; [done|]; destruct H4 as [->|[l' ->]]; loc).
  assert (Heq4 : threads M4 = threads M3 /\ nodes M4 = nodes M3) by (by destruct H4 as [->|[l' ->]]). destruct Heq4 as [Hth4 Hn4].
  assert (Hld : forall c, loads_ok (m_most_loaded_threads (schedulers M4 c)) c v).
  { intros c. destruct (decide (c = me)) as [->|Hc]; [done|]. rewrite (lc_scheds _ _ _ _ Hl4) by done. apply A4. }
  destruct (lc_node _ _ _ _ Hl4) as (Hw4 & Hb4 & Hp4). rewrite Hb4. destruct (blocked (nodes M t)) eqn:Hb; cbn [negb].
  - destruct (current_to_sleep M M4 me t _ _ _ _ A1 Hpl Ht0 Ht4) as (h & L & l & -> & Hinv5); [congruence|congruence|rewrite Hth4; cbn; rewrite fn_lookup_insert; cbn; by rewrite Hst1, Hst|by rewrite Hth4|].
    set (M5 := set_links L (set_sched me (with_block_list h) M4)) in *.
    assert (Hplace : forall x, place (to_sleep v me t l) x = if decide (x = t) then Sleep me else place v x).
    { intros x. cbn. destruct (decide (t = x)) as [<-|Hx]; [by rewrite fn_lookup_insert, decide_True|by rewrite !fn_lookup_insert_ne, decide_False by congruence]. }
    assert (Hpb : put_back_place M me t = Sleep me) by (unfold put_back_place; by rewrite Hb, Hst).
    set (M6 := if _ =? t then _ else M5). assert (H6 : M6 = M5 \/ exists d, M6 = set_cpu me (with_timer_deadline d) M5) by (unfold M6; destruct (_ =? t); [apply update_deadline_cases|by left]).
    eexists M6, (to_sleep v me t l). split; [done|]. split; [destruct H6 as [->|[d ->]]; [done|]; eapply (inv_touch M5 _ t); [exact Hinv5|touch|done..]|]. split.
    + eapply local_trans; [exact Hl4|]. unfold M5 in H6. destruct H6 as [->|[d ->]]; loc.
    + intros c. assert (Hsc6 : m_most_loaded_threads (schedulers M6 c) = m_most_loaded_threads (schedulers M4 c)).
      { destruct H6 as [->|[d ->]]; cbn; (destruct (decide (me = c)) as [<-|Hc]; [by rewrite fn_lookup_insert|by rewrite fn_lookup_insert_ne]). }
      rewrite Hsc6. apply (loads_kept _ _ v _ t); [apply Hld|rewrite Hpl, Hplace, decide_True by done; done|intros x Hx; rewrite Hplace; by rewrite decide_False].
    + intros _. by rewrite Hplace, decide_True.
    + intros x Hx. by rewrite Hplace, decide_False.
    + rewrite bool_decide_eq_false_2 by (rewrite Hpb; by intros [_ ?]). cbn. by rewrite fn_lookup_insert.
    + intros _ _. assert (threads M6 = threads M4) as -> by (by destruct H6 as [->|[d ->]]). by rewrite Hth4.
  - apply put_back_run; try done; [by rewrite Hst|by rewrite Hth4|by rewrite Hth4].
Qed.

Lemma put_back_ok : exists M1 v1, put_back fuel ns_since_boot ids apic me regs M = Ok M1 /\ inv M1 0 (<[me := 0]> (currents M)) E v1 chain /\ put_away M M1 v v1 me t regs.
Proof. destruct (m_state (threads M t)) eqn:Hst; [by apply put_back_not_started|by apply put_back_executing|by apply put_back_terminated]. Qed.
End put_back.

(** After [reschedule]: a thread that can run, or none, is on the processor. *)
Record switched (M M' : machine) (v v' : view) (me : Z) : Prop := {
  sw_wake : forall x, wake_time_ns (nodes M' x) = wake_time_ns (nodes M x);
  sw_scheds : forall c, c <> me -> schedulers M' c = schedulers M c;
  sw_cpus : forall c, c <> me -> processors M' c = processors M c;
  sw_smp : p_smp_messages_disabled (processors M' me) = p_smp_messages_disabled (processors M me);
  sw_last : m_last_load_balance_ns (schedulers M' me) = m_last_load_balance_ns (schedulers M me);
  sw_home : forall c, loads_ok (m_most_loaded_threads (schedulers M' c)) c v';
  sw_sleep : forall x c, c <> me -> place v' x = Sleep c -> place v x = Sleep c;
  sw_settled : settled M' v'
}.

(** The queue [reschedule] takes the next thread from. *)
Definition next_queue (M : machine) (v : view) (me t : Z) : list Z :=
  if bool_decide (t <> 0 /\ put_back_place M me t = Run me) then run v me ++ [t] else run v me.

(** The thread that runs next, with its registers, its page table and the SSE
    trap; the thread that ran before has its registers saved. *)
Record resumes (M M' : machine) (v v' : view) (me t regs regs' : Z) : Prop := {
  rs_next : currents M' me = default 0 (head (next_queue M v me t));
  rs_run : run v' me = tail (next_queue M v me t);
  rs_regs : forall x, head (next_queue M v me t) = Some x -> (x <> t -> regs' = m_yield_registers (threads M x)) /\ (x = t -> m_state (threads M t) = Executing -> regs' = regs);
  rs_table : forall x, head (next_queue M v me t) = Some x -> x <> t -> p_page_table (processors M' me) = m_page_table (threads M x) /\ p_sse_enabled (processors M' me) = (p_sse_thread (processors M' me) =? x);
  rs_saved : t <> 0 -> m_state (threads M t) = Executing -> currents M' me <> t -> currents M' me <> 0 -> m_yield_registers (threads M' t) = regs;
  rs_places : forall x, x <> t -> x <> currents M' me -> place v' x = place v x;
  rs_old : t <> 0 -> t <> currents M' me -> place v' t = put_back_place M me t
}.

Lemma start_thread_ok me t M : m_state (threads M t) <> Terminated -> blocked (nodes M t) = false -> m_cpu_time_start_ns (threads M t) = UINT64_MAX ->
  exists M', start_thread ns_since_boot me t M = Ok (m_yield_registers (threads M t), M') /\ touches M M' t /\ m_cpu_time_start_ns (threads M' t) <> UINT64_MAX /\
    processor_id (nodes M' t) = processor_id (nodes M t) /\ blocked (nodes M' t) = blocked (nodes M t) /\ wake_time_ns (nodes M' t) = wake_time_ns (nodes M t) /\
    schedulers M' = schedulers M /\ (forall c, c <> me -> processors M' c = processors M c) /\ p_smp_messages_disabled (processors M' me) = p_smp_messages_disabled (processors M me) /\
    p_page_table (processors M' me) = m_page_table (threads M t) /\ p_sse_enabled (processors M' me) = (p_sse_thread (processors M' me) =? t).
Proof.
  intros Hst Hb Hs. unfold start_thread. rewrite bool_decide_eq_true_2, Hb by done. cbn [negb].
  set (M1 := load_page_table me _ M). assert (H1 : threads M1 = threads M /\ nodes M1 = nodes M /\ schedulers M1 = schedulers M /\ touches M M1 t /\ (forall c, c <> me -> processors M1 c = processors M c) /\
    p_smp_messages_disabled (processors M1 me) = p_smp_messages_disabled (processors M me) /\ p_page_table (processors M1 me) = m_page_table (threads M t)).
  { unfold M1, load_page_table. destruct (Z.eqb_spec (p_page_table (processors M me)) (m_page_table (threads M t))) as [E|E]; [split_and!; try done|]. cbn. split_and!; try done.
    - by apply touches_cpu.
    - intros c Hc. by rewrite fn_lookup_insert_ne by congruence.
    - by rewrite fn_lookup_insert.
    - by rewrite fn_lookup_insert. }
  destruct H1 as (Hth1 & Hn1 & Hsc1 & Ht1 & Hc1 & Hsm1 & Hpt1). clearbody M1.
  set (M2 := if bool_decide (m_state (threads M1 t) = NotStarted) then _ else M1).
  assert (H2 : nodes M2 = nodes M1 /\ schedulers M2 = schedulers M1 /\ processors M2 = processors M1 /\ touches M1 M2 t /\ m_cpu_time_start_ns (threads M2 t) = UINT64_MAX /\ m_yield_registers (threads M2 t) = m_yield_registers (threads M t)).
  { unfold M2. case_bool_decide; cbn; [|rewrite Hth1; split_and!; try done; apply touches_refl]. split_and!; try done; [apply touches_thread|rewrite fn_lookup_insert; cbn; by rewrite Hth1..]. }
  destruct H2 as (Hn2 & Hsc2 & Hp2 & Ht2 & Hs2 & Hr2). clearbody M2. unfold set_cpu_time_start. rewrite Hs2, Z.eqb_refl. cbn [now].
  set (M3 := set_thread t _ (tick M2)). set (M4 := if m_is_userspace (threads M3 t) then _ else M3).
  assert (H4 : threads M4 = threads M3 /\ nodes M4 = nodes M2 /\ schedulers M4 = schedulers M2 /\ touches M2 M4 t /\ (forall c, c <> me -> processors M4 c = processors M2 c) /\
    p_smp_messages_disabled (processors M4 me) = p_smp_messages_disabled (processors M2 me) /\ p_page_table (processors M4 me) = p_page_table (processors M2 me)).
  { unfold M4. destruct (m_is_userspace _); cbn; split_and!; try done; unfold M3; touch; [intros c Hc; by rewrite fn_lookup_insert_ne by congruence|by rewrite fn_lookup_insert..]. }
  destruct H4 as (Hth4 & Hn4 & Hsc4 & Ht4 & Hc4 & Hsm4 & Hpt4). clearbody M4. cbn [set_cpu threads nodes clock_reads]. rewrite Hth4. unfold M3. cbn [set_thread threads tick]. rewrite fn_lookup_insert. cbn [m_yield_registers with_cpu_time]. rewrite Hr2.
  eexists. split; [done|]. split_and!.
  - eapply touches_trans; [exact Ht1|]. eapply touches_trans; [exact Ht2|]. eapply touches_trans; [exact Ht4|]. touch.
  - cbn. rewrite Hth4. unfold M3. cbn. rewrite fn_lookup_insert. cbn. pose proof (Hclock (clock_reads M2)). unfold UINT64_MAX. lia.
  - cbn. rewrite fn_lookup_insert. cbn. by rewrite Hn4, Hn2, Hn1.
  - cbn. rewrite fn_lookup_insert. cbn. by rewrite Hn4, Hn2, Hn1.
  - cbn. rewrite fn_lookup_insert. cbn. by rewrite Hn4, Hn2, Hn1.
  - cbn. congruence.
  - intros c Hc. cbn. rewrite fn_lookup_insert_ne, Hc4, Hp2 by congruence. by apply Hc1.
  - cbn. rewrite fn_lookup_insert. cbn. congruence.
  - cbn. rewrite fn_lookup_insert. cbn. congruence.
  - cbn. rewrite fn_lookup_insert. done.
Qed.

Lemma zero_nowhere M stale cur E v chain : inv M stale cur E v chain -> place v 0 = Nowhere.
Proof. intros Hinv. destruct (decide (place v 0 = Nowhere)) as [|Hne]; [done|]. destruct HT0. by apply (iv_known _ _ _ _ _ _ _ _ Hinv). Qed.

(** No thread is running on [c] when [cur c] is [nullptr]. *)
Lemma none_current M stale cur E v chain c x : inv M stale cur E v chain -> cur c = 0 -> place v x <> Current c.
Proof.
  intros Hinv Hc Hx. assert (Hx0 : x <> 0) by (intros ->; by rewrite (zero_nowhere _ _ _ _ _ _ Hinv) in Hx). apply (iv_current _ _ _ _ _ _ _ _ Hinv) in Hx; congruence.
Qed.

Lemma inv_executing M t stale cur E v chain : inv M stale cur E v chain -> inv (set_thread t (with_state Executing) M) stale cur E v chain.
Proof.
  intros [Hl Hn Hk Hcpu Hch Hcur Hfl Hon Hlim Hbd]. split; try done. intros x. cbn. destruct (decide (t = x)) as [<-|Hx]; [|rewrite fn_lookup_insert_ne by done; apply Hn].
  rewrite fn_lookup_insert. specialize (Hn t). destruct (place v t); cbn in *; destruct_and?; split_and!; done.
Qed.

(** Threads of other processors stay where they are. *)
Lemma kept_elsewhere M M1 cur E v v1 chain me t regs : inv M1 0 cur E v1 chain -> put_away M M1 v v1 me t regs ->
  forall x c, c <> me -> place v1 x = Sleep c \/ place v1 x = Current c -> x <> t /\ place v x = place v1 x.
Proof.
  intros Hinv1 Hpa x c Hc Hx. assert (x <> t) as Hxt; [|split; [done|symmetry; by apply (pa_others _ _ _ _ _ _ _ Hpa)]]. intros ->. destruct (decide (t = 0)) as [->|Hz].
  - rewrite (zero_nowhere _ _ _ _ _ _ Hinv1) in Hx. by destruct Hx.
  - rewrite (pa_place _ _ _ _ _ _ _ Hpa) in Hx by done. destruct (put_back_cases M me t) as [Ec|[Ec|Ec]]; rewrite Ec in Hx; destruct Hx; congruence.
Qed.

(** Nothing is runnable. *)
Lemma reschedule_idle me M M1 E v v1 chain t regs : about_to_yield M E v chain me -> currents M me = t -> inv M1 0 (<[me := 0]> (currents M)) E v1 chain -> put_away M M1 v v1 me t regs ->
  run v1 me = [] -> exists q L regs' M', SchedulerQueue.pop_front (m_run_list (schedulers M1 me)) (node_links M1) = (0, q, L) /\
    (let M := set_links L (set_sched me (fun s => with_current 0 (with_run_list q s)) M1) in
     let M := load_page_table me 0 M in
     let idle := m_idle_thread (schedulers M me) in
     let regs := m_yield_registers (threads M idle) in
     let M := set_thread idle (with_state Executing) M in
     let '(ns, M) := now ns_since_boot M in
     Ok (regs, set_sched me (fun s => with_idle ns (m_idle_ns s) s) M)) = Ok (regs', M') /\
    inv M' 0 (currents M') E v1 chain /\ switched M M' v v1 me /\ resumes M M' v v1 me t regs regs'.
Proof.
  intros Hay Ht Hinv1 Hpa Hrun. pose proof (pop_front_ok _ _ _ _ me Nowhere (iv_lists _ _ _ _ _ _ _ _ Hinv1) eq_refl) as Hpop. rewrite Hrun in Hpop. eexists _, _, _, _. split; [exact Hpop|].
  cbv zeta. cbn [now]. split; [done|]. set (M2 := set_links _ _). set (M3 := load_page_table me 0 M2). set (idle := m_idle_thread _). set (M' := set_sched me _ (tick _)).
  assert (H3 : M3 = M2 \/ M3 = set_cpu me (with_page_table 0) M2) by apply load_page_table_cases.
  assert (Ht3 : touches M1 M3 0).
  { apply (touches_trans M1 M2); [|destruct H3 as [-> | ->]; touch]. split; try done. intros c. cbn.
    destruct (decide (me = c)) as [<-|Hc]; [by rewrite fn_lookup_insert|by rewrite fn_lookup_insert_ne]. }
  assert (H3' : nodes M3 = nodes M1 /\ threads M3 = threads M1 /\ (forall c, c <> me -> schedulers M3 c = schedulers M1 c) /\ (forall c, c <> me -> processors M3 c = processors M1 c) /\
    p_smp_messages_disabled (processors M3 me) = p_smp_messages_disabled (processors M1 me) /\ m_current (schedulers M3 me) = 0 /\
    m_last_load_balance_ns (schedulers M3 me) = m_last_load_balance_ns (schedulers M1 me) /\ m_most_loaded_threads (schedulers M3 me) = m_most_loaded_threads (schedulers M1 me)).
  { destruct H3 as [-> | ->]; cbn; rewrite ?fn_lookup_insert; split_and!; try done; intros c Hc; by rewrite fn_lookup_insert_ne by congruence. }
  destruct H3' as (Hn3 & Hth3 & Hs3 & Hp3 & Hsm3 & Hc3 & Hla3 & Hml3). clearbody M3.
  assert (Hcur : forall c, currents M' c = (<[me := 0]> (currents M)) c).
  { intros c. unfold currents, M'. cbn. destruct (decide (me = c)) as [<-|Hc]; [by rewrite !fn_lookup_insert|]. rewrite !fn_lookup_insert_ne by done. rewrite Hs3, (lc_scheds _ _ _ _ (pa_local _ _ _ _ _ _ _ Hpa)) by congruence. done. }
  pose proof (pa_local _ _ _ _ _ _ _ Hpa) as Hloc. pose proof (pa_run _ _ _ _ _ _ _ Hpa) as Hq. fold (next_queue M v me t) in Hq. rewrite Hrun in Hq.
  assert (Hcur' : currents M' me = 0) by (rewrite Hcur; by rewrite fn_lookup_insert).
  assert (Hnc : forall x, place v1 x <> Current me) by (intros x; eapply none_current; [exact Hinv1|by rewrite fn_lookup_insert]).
  pose proof (kept_elsewhere _ _ _ _ _ _ _ _ _ _ Hinv1 Hpa) as Hother.
  split; [|split].
  - eapply inv_cur_ext; [exact Hcur|]. eapply (inv_touch (set_thread idle (with_state Executing) M3) _ 0); [|unfold M'; touch|done..]. apply inv_executing.
    eapply (inv_touch M1 M3 0); try done; by rewrite ?Hn3, ?Hth3.
  - split; cbn; try done.
    + intros x. rewrite Hn3. destruct (decide (x = t)) as [->|Hx]; [by destruct (lc_node _ _ _ _ Hloc)|by rewrite (lc_nodes _ _ _ _ Hloc)].
    + intros c Hc. rewrite fn_lookup_insert_ne, Hs3 by congruence. by apply (lc_scheds _ _ _ _ Hloc).
    + intros c Hc. rewrite Hp3 by congruence. by apply (lc_cpus _ _ _ _ Hloc).
    + rewrite Hsm3. apply (lc_smp _ _ _ _ Hloc).
    + rewrite fn_lookup_insert. cbn. rewrite Hla3. apply (lc_last _ _ _ _ Hloc).
    + intros c. destruct (decide (me = c)) as [<-|Hc]; [rewrite fn_lookup_insert; cbn; rewrite Hml3; apply (pa_loads _ _ _ _ _ _ _ Hpa)|]. rewrite fn_lookup_insert_ne, Hs3 by congruence. apply (pa_loads _ _ _ _ _ _ _ Hpa).
    + intros x c Hc Hx. destruct (Hother x c Hc) as [_ ->]; [by left|done].
    + intros c x Hx. cbn. destruct (decide (c = me)) as [->|Hc]; [by apply Hnc in Hx|]. destruct (Hother x c Hc) as [Hxt Hpx]; [by right|]. rewrite Hn3, (lc_nodes _ _ _ _ Hloc) by done.
      apply (ay_settled _ _ _ _ _ Hay c); [done|]. by rewrite Hpx.
  - split; rewrite <- ?Hq, ?Hcur'; try done.
    + intros x Hx _. by apply (pa_others _ _ _ _ _ _ _ Hpa).
    + intros Hz _. by apply (pa_place _ _ _ _ _ _ _ Hpa).
Qed.

(** The first runnable thread is started. *)
Lemma reschedule_next me M M1 E v v1 chain t regs x rest : about_to_yield M E v chain me -> currents M me = t -> inv M1 0 (<[me := 0]> (currents M)) E v1 chain -> put_away M M1 v v1 me t regs ->
  run v1 me = x :: rest -> exists q L regs' M' v', SchedulerQueue.pop_front (m_run_list (schedulers M1 me)) (node_links M1) = (x, q, L) /\ x <> 0 /\
    start_thread ns_since_boot me x (set_links L (set_sched me (fun s => with_current x (with_run_list q s)) M1)) = Ok (regs', M') /\
    inv M' 0 (currents M') E v' chain /\ switched M M' v v' me /\ resumes M M' v v' me t regs regs'.
Proof.
  intros Hay Ht Hinv1 Hpa Hrun. destruct (run_to_current M1 me x _ E v1 chain rest Hinv1) as (q & L & Hpop & Hnext); [by rewrite fn_lookup_insert|done|]. cbv zeta in Hnext.
  set (M2 := set_links L _) in *. assert (Hpx : place v1 x = Run me) by (apply (lo_run _ _ _ _ (iv_lists _ _ _ _ _ _ _ _ Hinv1)); rewrite Hrun; by left).
  pose proof (iv_nodes _ _ _ _ _ _ _ _ Hinv1 x) as Hnx. rewrite Hpx in Hnx. destruct Hnx as (N1 & N2 & N3 & N4 & N5).
  assert (Hx0 : x <> 0) by (intros ->; by rewrite (zero_nowhere _ _ _ _ _ _ Hinv1) in Hpx).
  destruct (start_thread_ok me x M2 N4 N2 N5) as (M' & Hst & Ht' & Hs' & Hp' & Hb' & Hw' & Hsc' & Hc' & Hsm' & Hpt' & Hsse').
  specialize (Hnext M' Ht' Hp' Hb' Hs'). eexists q, L, _, M', _. split; [done|]. split; [done|]. split; [exact Hst|].
  pose proof (pa_local _ _ _ _ _ _ _ Hpa) as Hloc. pose proof (pa_run _ _ _ _ _ _ _ Hpa) as Hq. fold (next_queue M v me t) in Hq. rewrite Hrun in Hq.
  pose proof (kept_elsewhere _ _ _ _ _ _ _ _ _ _ Hinv1 Hpa) as Hother.
  assert (Hsched : forall c, schedulers M' c = if decide (me = c) then with_current x (with_run_list q (schedulers M1 me)) else schedulers M1 c).
  { intros c. rewrite Hsc'. cbn. destruct (decide (me = c)) as [<-|Hc]; [by rewrite fn_lookup_insert|by rewrite fn_lookup_insert_ne]. }
  assert (Hcur : forall c, currents M' c = (<[me := x]> (<[me := 0]> (currents M))) c).
  { intros c. unfold currents at 1. rewrite Hsched. case_decide as Hc; [subst c; by rewrite fn_lookup_insert|]. rewrite !fn_lookup_insert_ne by done. by rewrite (lc_scheds _ _ _ _ Hloc) by congruence. }
  assert (Hcur' : currents M' me = x) by (rewrite Hcur; by rewrite fn_lookup_insert).
  assert (Hplace : forall y, place (from_run v1 me x 0 (Current me)) y = if decide (y = x) then Current me else place v1 y).
  { intros y. cbn. destruct (decide (x = y)) as [<-|Hy]; [by rewrite fn_lookup_insert, decide_True|by rewrite fn_lookup_insert_ne, decide_False by congruence]. }
  assert (Hnodes : forall y, blocked (nodes M' y) = blocked (nodes M1 y) /\ wake_time_ns (nodes M' y) = wake_time_ns (nodes M1 y)).
  { intros y. destruct (decide (y = x)) as [->|Hy]; [done|]. by destruct (to_others _ _ _ Ht' y Hy) as [-> _]. }
  assert (Hnc : forall y, place v1 y <> Current me) by (intros y; eapply none_current; [exact Hinv1|by rewrite fn_lookup_insert]).
  split; [by eapply inv_cur_ext; [exact Hcur|]|]. split.
  - split.
    + intros y. destruct (Hnodes y) as [_ ->]. destruct (decide (y = t)) as [->|Hy]; [by destruct (lc_node _ _ _ _ Hloc)|by rewrite (lc_nodes _ _ _ _ Hloc)].
    + intros c Hc. rewrite Hsched, decide_False by congruence. by apply (lc_scheds _ _ _ _ Hloc).
    + intros c Hc. rewrite Hc' by done. by apply (lc_cpus _ _ _ _ Hloc).
    + rewrite Hsm'. apply (lc_smp _ _ _ _ Hloc).
    + rewrite Hsched, decide_True by done. apply (lc_last _ _ _ _ Hloc).
    + intros c. assert (Hml : m_most_loaded_threads (schedulers M' c) = m_most_loaded_threads (schedulers M1 c)) by (rewrite Hsched; case_decide; [by subst|done]).
      rewrite Hml. apply (loads_kept _ _ v1 _ x); [apply (pa_loads _ _ _ _ _ _ _ Hpa)|by rewrite Hpx, Hplace, decide_True|intros y Hy; by rewrite Hplace, decide_False].
    + intros y c Hc Hy. rewrite Hplace in Hy. case_decide; [done|]. destruct (Hother y c Hc) as [_ ->]; [by left|done].
    + intros c y Hy. rewrite Hplace in Hy. destruct (Hnodes y) as [-> _]. case_decide; [by subst|]. destruct (decide (c = me)) as [->|Hc]; [by apply Hnc in Hy|]. destruct (Hother y c Hc) as [Hyt Hpy]; [by right|].
      rewrite (lc_nodes _ _ _ _ Hloc) by done. apply (ay_settled _ _ _ _ _ Hay c); [done|]. by rewrite Hpy.
  - assert (Hth : forall y, y <> t -> threads M2 y = threads M y) by (intros y Hy; cbn; by apply (lc_threads _ _ _ _ Hloc)).
    split; rewrite <- ?Hq, ?Hcur'; cbn [head tail default].
    + done.
    + cbn. by rewrite fn_lookup_insert, Hrun.
    + intros y [= <-]. split; [intros Hxt; by rewrite Hth|]. intros -> De. by apply (pa_regs _ _ _ _ _ _ _ Hpa).
    + intros y [= <-] Hxt. by rewrite Hpt', Hsse', Hth.
    + intros Hz De Hxt _. destruct (to_others _ _ _ Ht' t) as [_ ->]; [congruence|]. by apply (pa_regs _ _ _ _ _ _ _ Hpa).
    + intros y Hyt Hyx. rewrite Hplace, decide_False by done. by apply (pa_others _ _ _ _ _ _ _ Hpa).
    + intros Hz Hyx. rewrite Hplace, decide_False by done. by apply (pa_place _ _ _ _ _ _ _ Hpa).
Qed.

Lemma reschedule_ok me M E v chain t regs : about_to_yield M E v chain me -> currents M me = t ->
  exists regs' M' v', reschedule fuel ns_since_boot ids apic me regs M = Ok (regs', M') /\ inv M' 0 (currents M') E v' chain /\ switched M M' v v' me /\ resumes M M' v v' me t regs regs'.
Proof.
  intros Hay Ht. pose proof Hay as [A1 A2 A3 A4 A5 A6 A7]. unfold reschedule. fold (currents M me). rewrite Ht.
  rewrite (queue_empty _ _ _ (lo_queue _ _ _ _ (iv_lists _ _ _ _ _ _ _ _ A1) me)).
  destruct (bool_decide (run v me = []) && ((t =? 0) || negb (blocked (nodes M t))) && _) eqn:Hearly.
  - apply andb_true_iff in Hearly as [[Hr%bool_decide_eq_true Hb]%andb_true_iff Hex%bool_decide_eq_true]. exists regs, M, v. split; [done|]. split; [done|].
    assert (Hnb : t <> 0 -> blocked (nodes M t) = false) by (intros Hz; apply orb_true_iff in Hb as [?%Z.eqb_eq|?%negb_true_iff]; done).
    assert (Hcurx : forall x, place v x = Current me -> x <> 0 /\ x = t).
    { intros x Hx. assert (x <> 0) by (intros ->; by rewrite (zero_nowhere _ _ _ _ _ _ A1) in Hx). split; [done|]. apply (iv_current _ _ _ _ _ _ _ _ A1) in Hx; congruence. }
    split.
    + split; try done. intros c x Hx. destruct (decide (c = me)) as [->|Hc]; [destruct (Hcurx x Hx) as [? ->]; by apply Hnb|by apply (A2 c)].
    + destruct (decide (t = 0)) as [Hz|Hz].
      * assert (Hnq : next_queue M v me t = []) by (unfold next_queue; rewrite bool_decide_eq_false_2 by (intros [? _]; done); done). split; rewrite ?Hnq, ?Ht; try done; congruence.
      * assert (Hst : m_state (threads M t) = Executing) by (unfold current_thread, is_idle in Hex; fold (currents M me) in Hex; rewrite Ht, (proj2 (Z.eqb_neq t 0)) in Hex by done; done).
        assert (Hnq : next_queue M v me t = [t]) by (unfold next_queue, put_back_place; rewrite Hst, Hnb, bool_decide_eq_true_2 by done; by rewrite Hr).
        split; rewrite ?Hnq, ?Ht; cbn; try done; [|by intros x [= <-]]. intros x [= <-]. done.
  - assert (Hpb : exists M1 v1, put_back fuel ns_since_boot ids apic me regs M = Ok M1 /\ inv M1 0 (<[me := 0]> (currents M)) E v1 chain /\ put_away M M1 v v1 me t regs)
      by (destruct (decide (t = 0)); [by apply put_back_idle|by apply put_back_ok]).
    destruct Hpb as (M1 & v1 & -> & Hinv1 & Hpa). destruct (run v1 me) as [|x rest] eqn:Hrun.
    + destruct (reschedule_idle me M M1 E v v1 chain t regs Hay Ht Hinv1 Hpa Hrun) as (q & L & regs' & M' & -> & Hres & H'). cbn [Z.eqb]. exists regs', M', v1. split; [exact Hres|exact H'].
    + destruct (reschedule_next me M M1 E v v1 chain t regs x rest Hay Ht Hinv1 Hpa Hrun) as (q & L & regs' & M' & v' & -> & Hx0 & Hst & H'). rewrite (proj2 (Z.eqb_neq x 0)) by done.
      exists regs', M', v'. split; [exact Hst|exact H'].
Qed.

Lemma yield_ok me M E v chain t regs : about_to_yield M E v chain me -> p_smp_messages_disabled (processors M me) = false -> currents M me = t ->
  exists regs' M' v', yield fuel ns_since_boot ids apic me regs M = Ok (regs', M') /\ good M' E v' chain /\ resumes M M' v v' me t regs regs' /\
    (forall x, wake_time_ns (nodes M' x) = wake_time_ns (nodes M x)).
Proof.
  intros Hay Hsmp Ht. unfold yield, set_disable_smp_messages at 1. rewrite Hsmp. cbn [negb eqb]. set (M0 := set_cpu me (with_smp_disabled true) M).
  assert (Hay0 : about_to_yield M0 E v chain me).
  { destruct Hay as [A1 A2 A3 A4 A5 A6 A7]. split; try done; [by apply inv_smp_disabled|..].
    - intros c Hc Ha. unfold M0. cbn. rewrite fn_lookup_insert_ne by congruence. by apply A5.
    - intros c Hc. cbn. rewrite fn_lookup_insert_ne by congruence. by apply A6. }
  destruct (reschedule_ok me M0 E v chain t regs Hay0 Ht) as (regs' & M1 & v' & Hres & Hinv1 & Hsw & Hrs). unfold on_yield. rewrite Hres.
  assert (Hnext : exists next M2, (if negb (is_idle me M1) then let '(ns, M) := now ns_since_boot M1 in (u64 (ns + s_reschedule_interval_ns), M) else (UINT64_MAX, M1)) = (next, M2) /\ (M2 = M1 \/ M2 = tick M1)).
  { destruct (is_idle me M1); cbn; eexists _, _; (split; [done|]); auto. }
  destruct Hnext as (next & M2 & -> & H2). set (M3 := set_sched me (with_next_reschedule next) M2). set (M4 := update_wake_up_deadline ids apic me M3).
  assert (H3 : nodes M3 = nodes M1 /\ threads M3 = threads M1 /\ processors M3 = processors M1 /\ (forall c, currents M3 c = currents M1 c) /\ touches M1 M3 0 /\
    (forall c, m_most_loaded_threads (schedulers M3 c) = m_most_loaded_threads (schedulers M1 c) /\ m_last_load_balance_ns (schedulers M3 c) = m_last_load_balance_ns (schedulers M1 c)) /\ (forall c, c <> me -> schedulers M3 c = schedulers M1 c)).
  { unfold M3, currents. destruct H2 as [-> | ->]; cbn; split_and!; try done; try (by touch); try (intros c Hc; by rewrite fn_lookup_insert_ne by congruence);
      intros c; (destruct (decide (me = c)) as [<-|Hc]; [by rewrite fn_lookup_insert|by rewrite fn_lookup_insert_ne]). }
  destruct H3 as (Hn3 & Hth3 & Hp3 & Hcur3 & Ht3 & Hs3 & Hs3'). clearbody M3.
  assert (Hinv3 : inv M3 0 (currents M3) E v' chain) by (eapply inv_cur_ext; [exact Hcur3|]; eapply (inv_touch M1 M3 0); [done|done|by rewrite ?Hn3, ?Hth3..]).
  pose proof (deadline_updated M3 v' me (iv_lists _ _ _ _ _ _ _ _ Hinv3)) as Hdl. fold M4 in Hdl.
  assert (H4 : nodes M4 = nodes M3 /\ threads M4 = threads M3 /\ schedulers M4 = schedulers M3 /\ touches M3 M4 0 /\ (forall c, c <> me -> processors M4 c = processors M3 c) /\
    p_smp_messages_disabled (processors M4 me) = p_smp_messages_disabled (processors M3 me) /\ p_page_table (processors M4 me) = p_page_table (processors M3 me) /\
    p_sse_enabled (processors M4 me) = p_sse_enabled (processors M3 me) /\ p_sse_thread (processors M4 me) = p_sse_thread (processors M3 me)).
  { unfold M4. destruct (update_deadline_cases me M3) as [->|[d ->]]; [split_and!; try done; apply touches_refl|]. cbn. rewrite fn_lookup_insert. split_and!; try done; [touch|]. intros c Hc. by rewrite fn_lookup_insert_ne by congruence. }
  destruct H4 as (Hn4 & Hth4 & Hs4 & Ht4 & Hp4 & Hsm4 & Hpt4 & Hse4 & Hst4). clearbody M4.
  assert (Hsm : p_smp_messages_disabled (processors M4 me) = true) by (rewrite Hsm4, Hp3, (sw_smp _ _ _ _ _ Hsw); cbn; by rewrite fn_lookup_insert).
  unfold set_disable_smp_messages. rewrite Hsm. cbn [negb eqb]. set (M5 := set_cpu me (with_smp_disabled false) M4). exists regs', M5, v'. split; [done|].
  assert (Hcpu5 : forall c, c <> me -> processors M5 c = processors M c).
  { intros c Hc. cbn. rewrite fn_lookup_insert_ne, Hp4, Hp3, (sw_cpus _ _ _ _ _ Hsw) by congruence. cbn. by rewrite fn_lookup_insert_ne by congruence. }
  assert (Hwake : forall x, wake_time_ns (nodes M5 x) = wake_time_ns (nodes M x)) by (intros x; cbn; rewrite Hn4, Hn3; apply (sw_wake _ _ _ _ _ Hsw)).
  pose proof Hay as [A1 A2 A3 A4 A5 A6 A7]. split; [|split; [|done]].
  - split.
    + apply inv_smp_disabled. eapply inv_cur_ext; [|eapply (inv_touch M3 M4 0); [exact Hinv3|done|by rewrite ?Hn4, ?Hth4..]]. intros c. unfold currents. cbn. by rewrite Hs4.
    + intros c x Hx. cbn. rewrite Hn4, Hn3. by apply (sw_settled _ _ _ _ _ Hsw c).
    + intros c. cbn. rewrite Hs4. destruct (Hs3 c) as [-> _]. apply (sw_home _ _ _ _ _ Hsw).
    + intros c Ha. destruct (decide (c = me)) as [->|Hc].
      * destruct (Hdl Ha) as [Hpe|Hd]; [by left|]. right. intros x Hx. cbn. rewrite fn_lookup_insert. cbn. by apply Hd.
      * rewrite Hcpu5 by done. assert (Hsc : schedulers M5 c = schedulers M c) by (cbn; rewrite Hs4, Hs3' by done; by apply (sw_scheds _ _ _ _ _ Hsw)). rewrite Hsc.
        destruct (A5 c Hc Ha) as [Hpe|Hd]; [by left|]. right. intros x Hx. rewrite Hwake. apply Hd. by apply (sw_sleep _ _ _ _ _ Hsw).
    + intros c. destruct (decide (c = me)) as [->|Hc]; [cbn; by rewrite fn_lookup_insert|]. rewrite Hcpu5 by done. by apply A6.
    + intros c. cbn. rewrite Hs4. destruct (Hs3 c) as [_ ->]. destruct (decide (c = me)) as [->|Hc]; [rewrite (sw_last _ _ _ _ _ Hsw)|rewrite (sw_scheds _ _ _ _ _ Hsw) by done]; apply A7.
  - assert (Hcm : currents M5 me = currents M1 me) by (unfold currents; cbn; rewrite Hs4; apply Hcur3). destruct Hrs as [R1 R2 R3 R4 R5 R6 R7]. split; rewrite ?Hcm; try done.
    + intros x Hx Hxt. cbn. rewrite fn_lookup_insert. cbn. rewrite Hpt4, Hse4, Hst4, Hp3. by apply R4.
    + cbn. rewrite Hth4, Hth3. done.
Qed.

(** ** Blocking *)
Lemma add_to_queue_alt b n M : blocked (nodes M n) = true -> blocker (nodes M n) = 0 ->
  add_thread_to_block_queue b n M = Ok (with_chains (chain_add b n (nodes M) (block_chains M)) (<[b := n]> (block_chains M)) M).
Proof.
  intros Hb Hb0. unfold add_thread_to_block_queue, chain_add. rewrite Hb, Hb0. cbn [Z.eqb]. destruct (Z.eqb_spec (block_chains M b) 0) as [Hz|Hz]; [done|].
  unfold set_chain, set_node, with_chains. cbn. done.
Qed.

Definition with_mutexes (mu : Z -> mutex) (M : machine) : machine :=
  mk_machine (nodes M) (threads M) (node_links M) (block_chains M) (schedulers M) (processors M) (s_processor_infos M) (s_next_processor_index M) mu (clock_reads M).

Lemma mutex_unlock_all_ok n m tid M : m_locker (mutexes M m) = tid -> m_lock_depth (mutexes M m) = Z.of_nat n -> Z.of_nat n < 2 ^ 32 ->
  exists mu, mutex_unlock_all n m tid M = Ok (with_mutexes mu M) /\ ((0 < n)%nat -> mu m = mk_mutex (-1) 0).
Proof.
  revert M. induction n as [|n IH]; intros M Hl Hd Hn; cbn [mutex_unlock_all]; [exists (mutexes M); split; [by destruct M|lia]|].
  unfold mutex_unlock. rewrite Hl, Hd, Z.eqb_refl. rewrite (proj2 (Z.ltb_lt 0 (Z.of_nat (S n)))) by lia. replace (u32 (Z.of_nat (S n) - 1)) with (Z.of_nat n) by (unfold wrap; rewrite Z.mod_small; lia).
  destruct n as [|n].
  - cbn [Z.of_nat Z.eqb mutex_unlock_all]. eexists. split; [done|]. intros _. by rewrite fn_lookup_insert.
  - rewrite (proj2 (Z.eqb_neq (Z.of_nat (S n)) 0)) by lia. destruct (IH (set_mutex m (mk_mutex tid (Z.of_nat (S n))) M)) as (mu & -> & Hmu); [cbn; by rewrite fn_lookup_insert|cbn; by rewrite fn_lookup_insert|lia|].
    exists mu. split; [done|]. intros _. apply Hmu. lia.
Qed.

(** The mutex a thread gives up while it is blocked. *)
Definition may_release (M : machine) (m t : Z) : Prop :=
  m = 0 \/ (m_locker (mutexes M m) = m_tid (threads M t) /\ 0 < m_lock_depth (mutexes M m) < 2 ^ 32).

(** The running thread marked as blocked and put into the chain of [b]. *)
Lemma mark_blocked me b t w M E v chain : good M E v chain -> currents M me = t -> t <> 0 -> m_state (threads M t) = Executing ->
  let M1 := set_node t (fun x => with_wake_time w (with_blocked true x)) (set_cpu me (with_smp_disabled true) M) in
  exists M2 chain', (if b =? 0 then Ok M1 else add_thread_to_block_queue b t M1) = Ok M2 /\ inv M2 0 (currents M) E v chain' /\
    (forall c, c <> 0 -> chain' c = if decide (c = b) then t :: chain c else chain c) /\
    threads M2 = threads M /\ schedulers M2 = schedulers M /\ processors M2 = processors M1 /\ mutexes M2 = mutexes M /\ clock_reads M2 = clock_reads M /\
    (forall x, x <> t -> wake_time_ns (nodes M2 x) = wake_time_ns (nodes M x) /\ blocked (nodes M2 x) = blocked (nodes M x)) /\
    wake_time_ns (nodes M2 t) = w /\ blocked (nodes M2 t) = true.
Proof.
  intros Hg Ht Ht0 Hst M1. pose proof Hg as [G1 G2 G3 G4 G5 G6]. assert (Hpl : place v t = Current me) by (by apply (iv_current _ _ _ _ _ _ _ _ G1)).
  pose proof (iv_nodes _ _ _ _ _ _ _ _ G1 t) as Hnt. rewrite Hpl in Hnt. destruct Hnt as (Hproc & Hb0 & Hs). pose proof (G2 _ _ Hpl) as Hb. specialize (Hb0 Hb).
  assert (Hn1 : nodes M1 t = with_wake_time w (with_blocked true (nodes M t))) by (cbn; by rewrite fn_lookup_insert).
  assert (Hnx : forall x, x <> t -> nodes M1 x = nodes M x) by (intros x Hx; cbn; by rewrite fn_lookup_insert_ne by congruence).
  assert (Hinv1 : inv M1 0 (currents M) E v chain).
  { pose proof (inv_smp_disabled ids T me true M _ _ _ _ _ G1) as [Hl Hn Hk Hcpu Hch Hcur Hfl Hon Hlim Hbd]. split; try done.
    - eapply lists_ok_ext; [exact Hl|done|]. intros x c Hx. rewrite Hnx by congruence. done.
    - intros x. destruct (decide (x = t)) as [->|Hx]; [|rewrite Hnx by done; apply Hn]. rewrite Hn1, Hpl. done.
    - eapply chains_ok_ext; [|exact Hch]. intros x. destruct (decide (x = t)) as [->|Hx]; [by rewrite Hn1|by rewrite Hnx].
    - intros c x Hx%Hbd. destruct (decide (x = t)) as [->|Hxt]; [by rewrite Hn1|by rewrite Hnx]. }
  destruct (Z.eqb_spec b 0) as [->|Hbz].
  - exists M1, chain. split; [done|]. split; [done|]. split; [intros c Hc; by rewrite decide_False|]. rewrite Hn1. split_and!; try done. intros x Hx. by rewrite Hnx.
  - rewrite add_to_queue_alt by (by rewrite Hn1). pose proof Hinv1 as [Hl Hn Hk Hcpu Hch Hcur Hfl Hon Hlim Hbd].
    assert (Hkeep : forall A (f : node -> A) x, (forall y u, f (with_blocker u y) = f y) -> (forall y u, f (with_chain_next u y) = f y) -> (forall y u, f (with_chain_prev u y) = f y) ->
      f (chain_add b t (nodes M1) (block_chains M1) x) = f (nodes M1 x)) by (intros A f x H1 H2 H3; by apply chain_add_kept).
    exists (with_chains (chain_add b t (nodes M1) (block_chains M1)) (<[b := t]> (block_chains M1)) M1), (<[b := t :: chain b]> chain). split; [done|]. split; [|split; [|split_and!; try done]].
    + split; try done.
      * eapply lists_ok_ext; [exact Hl|done|]. intros x c _. by apply Hkeep.
      * intros x. cbn [with_chains nodes threads]. destruct (decide (x = t)) as [->|Hx].
        -- rewrite Hpl. cbn. rewrite (Hkeep _ processor_id), (Hkeep _ blocked), Hn1 by done. done.
        -- eapply node_ok_ext; [..|apply Hn]; try (by apply Hkeep); try done. rewrite chain_add_blocker. by rewrite decide_False by congruence.
      * apply chain_add_ok; [done|done|done|]. by rewrite Hn1.
      * intros c x Hx. cbn [with_chains nodes]. rewrite Hkeep by done. by apply (Hbd c).
    + intros c Hc. destruct (decide (c = b)) as [->|Hcb]; [by rewrite fn_lookup_insert|by rewrite fn_lookup_insert_ne by congruence].
    + intros x Hx. cbn [with_chains nodes]. rewrite !Hkeep by done. by rewrite Hnx.
    + cbn [with_chains nodes]. rewrite Hkeep by done. by rewrite Hn1.
    + cbn [with_chains nodes]. rewrite Hkeep by done. by rewrite Hn1.
Qed.

Lemma good_tick M E v chain : good M E v chain -> good (tick M) E v chain.
Proof. intros [G1 G2 G3 G4 G5 G6]. split; try done. eapply (inv_touch M _ 0); [exact G1|touch|done..]. Qed.

Lemma block_current_ok me b w m regs t M E v chain : good M E v chain -> currents M me = t -> t <> 0 -> m_state (threads M t) = Executing -> may_release M m t ->
  exists depth regs' M' v' chain', block_current_thread fuel ns_since_boot ids apic me b w m regs M = Ok (depth, regs', M') /\ good M' E v' chain' /\
    (ns_since_boot (clock_reads M) < w -> place v' t = Sleep me /\ wake_time_ns (nodes M' t) = w /\ (b <> 0 -> t ∈ chain' b) /\ (forall x, place v x = Sleep me -> place v' x = Sleep me)) /\
    (w <= ns_since_boot (clock_reads M) -> v' = v /\ chain' = chain).
Proof.
  intros Hg0 Ht Ht0 Hst Hmu. pose proof (good_tick _ _ _ _ Hg0) as Hg. unfold block_current_thread. cbn [now].
  destruct (Z.leb_spec w (ns_since_boot (clock_reads M))) as [Hle|Hlt]; [exists 0, regs, (tick M), v, chain; split; [done|]; split; [done|]; split; [lia|done]|].
  set (M0 := tick M) in *. change (currents M0 me = t) in Ht. change (m_state (threads M0 t) = Executing) in Hst. pose proof Hg as [G1 G2 G3 G4 G5 G6].
  assert (Hpl : place v t = Current me) by (by apply (iv_current _ _ _ _ _ _ _ _ G1)). pose proof (iv_nodes _ _ _ _ _ _ _ _ G1 t) as Hnt. rewrite Hpl in Hnt. destruct Hnt as (Hproc & _ & Hs).
  fold (currents M0 me). rewrite Ht, (proj2 (Z.eqb_neq t 0)), Hproc, Z.eqb_refl, (G2 _ _ Hpl) by done. cbn [negb]. unfold set_disable_smp_messages at 1. rewrite G5. cbn [negb eqb].
  destruct (mark_blocked me b t w M0 E v chain Hg Ht Ht0 Hst) as (M2 & chain' & Hmark & Hinv2 & Hch2 & Hth2 & Hsc2 & Hp2 & Hmu2 & Hck2 & Hn2 & Hw2 & Hb2). rewrite Hmark.
  assert (Hrel : exists depth mu, (if m =? 0 then Ok (0, M2) else ASSERT (m_locker (mutexes M2 m) =? m_tid (threads M2 t)) in let* M := mutex_unlock_all (Z.to_nat (m_lock_depth (mutexes M2 m))) m (m_tid (threads M2 t)) M2 in Ok (m_lock_depth (mutexes M2 m), M)) = Ok (depth, with_mutexes mu M2)).
  { destruct (Z.eqb_spec m 0) as [->|Hm]; [exists 0, (mutexes M2); by destruct M2|]. destruct Hmu as [?|[Hl Hd]]; [done|]. rewrite Hmu2, Hth2. cbn [tick mutexes threads M0]. rewrite Hl, Z.eqb_refl.
    destruct (mutex_unlock_all_ok (Z.to_nat (m_lock_depth (mutexes M m))) m (m_tid (threads M t)) M2) as (mu & -> & _); [by rewrite Hmu2|rewrite Hmu2; cbn; lia|lia|]. by eexists _, mu. }
  destruct Hrel as (depth & mu & ->). set (M3 := with_mutexes mu M2).
  assert (Hsm3 : p_smp_messages_disabled (processors M3 me) = true) by (cbn; rewrite Hp2; cbn; by rewrite fn_lookup_insert).
  unfold set_disable_smp_messages at 1. rewrite Hsm3. cbn [negb eqb]. set (M4 := set_cpu me (with_smp_disabled false) M3).
  assert (Hp4 : forall c, c <> me -> processors M4 c = processors M0 c) by (intros c Hc; cbn; rewrite fn_lookup_insert_ne, Hp2 by congruence; cbn; by rewrite fn_lookup_insert_ne by congruence).
  assert (Hcurx : forall x, place v x = Current me -> x = t).
  { intros x Hx. assert (x <> 0) by (intros ->; by rewrite (zero_nowhere _ _ _ _ _ _ G1) in Hx). apply (iv_current _ _ _ _ _ _ _ _ G1) in Hx; congruence. }
  assert (Hay : about_to_yield M4 E v chain' me).
  { split.
    - apply inv_smp_disabled. eapply inv_cur_ext; [|eapply (inv_touch M2 _ 0); [exact Hinv2|by split|done..]]. intros c. unfold currents. cbn. by rewrite Hsc2.
    - intros c x Hc Hx. cbn. destruct (Hn2 x) as [_ ->]; [congruence|]. by apply (G2 c).
    - intros x Hx Hne. apply Hcurx in Hx as ->. cbn in Hne. rewrite Hth2 in Hne. done.
    - intros c. cbn. rewrite Hsc2. apply G3.
    - intros c Hc Ha. rewrite Hp4 by done. cbn. rewrite Hsc2. destruct (G4 c Ha) as [?|Hd]; [by left|]. right. intros x Hx. destruct (Hn2 x) as [-> _]; [congruence|]. by apply Hd.
    - intros c Hc. rewrite Hp4 by done. apply G5.
    - intros c. cbn. rewrite Hsc2. apply G6. }
  destruct (yield_ok me M4 E v chain' t regs Hay) as (regs' & M' & v' & Hy & Hg' & Hrs & Hwake); [cbn; by rewrite fn_lookup_insert|unfold currents; cbn; by rewrite Hsc2|]. rewrite Hy.
  eexists depth, regs', M', v', chain'. split; [done|]. split; [done|]. split; [intros _|lia].
  assert (Hpb : put_back_place M4 me t = Sleep me) by (unfold put_back_place; cbn; rewrite Hb2, Hth2, Hst; done).
  assert (Hnq : next_queue M4 v me t = run v me) by (unfold next_queue; rewrite Hpb, bool_decide_eq_false_2 by (intros [_ ?]; done); done).
  assert (Hrunx : forall x, head (run v me) = Some x -> place v x = Run me) by (intros x Hx; apply (lo_run _ _ _ _ (iv_lists _ _ _ _ _ _ _ _ G1)); destruct (run v me); [done|]; cbn in Hx; injection Hx as ->; by left).
  assert (Hne : forall x, place v x = Sleep me \/ x = t -> x <> currents M' me).
  { intros x Hx E'. rewrite (rs_next _ _ _ _ _ _ _ _ Hrs), Hnq in E'. destruct (head (run v me)) as [y|] eqn:Hh; cbn in E'; subst x.
    - specialize (Hrunx y eq_refl). destruct Hx as [Hx|Hx]; congruence.
    - destruct Hx as [Hx|Hx]; [|congruence]. by rewrite (zero_nowhere _ _ _ _ _ _ G1) in Hx. }
  split_and!.
  - rewrite <- Hpb. apply (rs_old _ _ _ _ _ _ _ _ Hrs); [done|]. apply Hne. by right.
  - rewrite Hwake. done.
  - intros Hb. rewrite Hch2 by done. rewrite decide_True by done. by left.
  - intros x Hx. rewrite (rs_places _ _ _ _ _ _ _ _ Hrs); [done|intros ->; congruence|]. apply Hne. by left.
Qed.
End steps.
