(* ===== verification/SchedulerBalance.v ===== *)
(** * Load balancing and the timer interrupt

    The balancer sends heavy threads to other processors; a thread that leaves is
    on its way in a message and in no list.  The timer interrupt balances the
    load, wakes the threads that are due and sets the next deadline. *)
From stdpp Require Import functions.
From S2P Require Import Prelude BanMath BanSort SchedulerNode SchedulerHeapNode SchedulerNodeCorrect SchedulerHeapLinks SchedulerHeapCorrect SchedulerHeapWalk Scheduler SchedulerChains SchedulerInv SchedulerCorrect SchedulerSteps.

Section balance.
Context (fuel : nat) (ns_since_boot : nat -> Z) (ids : list Z) (apic : bool) (T : list Z).
Context (HT : (length T <= fuel)%nat) (HT0 : 0 ∉ T) (Hnone : PROCESSOR_NONE ∉ ids) (Hids : ids <> []).
Context (Hclock : forall n, 0 <= ns_since_boot n < 2 ^ 63).

Abbreviation inv := (inv ids T).
Abbreviation good := (good ids T apic).

(** ** The state while a processor balances its load *)
Record balancing (me : Z) (M : machine) (v : view) (chain : Z -> list Z) : Prop := {
  bl_inv : inv M 0 (currents M) (fun _ => []) v chain;
  bl_settled : settled M v;
  bl_loads : forall c, loads_ok (m_most_loaded_threads (schedulers M c)) c v;
  bl_deadline : forall c, deadline_ok apic M v c;
  bl_smp : forall c, p_smp_messages_disabled (processors M c) = bool_decide (c = me);
  bl_last : forall c, 0 <= m_last_load_balance_ns (schedulers M c) < 2 ^ 63
}.

(** What balancing leaves alone. *)
Record keeps (M M' : machine) : Prop := {
  ke_wake : forall x, wake_time_ns (nodes M' x) = wake_time_ns (nodes M x);
  ke_current : forall c, currents M' c = currents M c;
  ke_last : forall c, m_last_load_balance_ns (schedulers M' c) = m_last_load_balance_ns (schedulers M c);
  ke_pending : forall c, m_has_pending_reschedule (schedulers M' c) = m_has_pending_reschedule (schedulers M c);
  ke_timer : forall c, p_timer_deadline (processors M' c) = p_timer_deadline (processors M c);
  ke_smp : forall c, p_smp_messages_disabled (processors M' c) = p_smp_messages_disabled (processors M c)
}.

Lemma keeps_refl M : keeps M M.
Proof. done. Qed.

Lemma keeps_compose M1 M2 M3 : keeps M1 M2 -> keeps M2 M3 -> keeps M1 M3.
Proof.
  intros [A1 A2 A3 A4 A5 A6] [B1 B2 B3 B4 B5 B6]. split; intros; [rewrite B1; apply A1|rewrite B2; apply A2|rewrite B3; apply A3|rewrite B4; apply A4|rewrite B5; apply A5|rewrite B6; apply A6].
Qed.

Lemma keeps_node t f M : (forall n, wake_time_ns (f n) = wake_time_ns n) -> keeps M (set_node t f M).
Proof. intros Hf. split; try done. intros x. cbn. by apply (field_kept (nodes M) wake_time_ns f). Qed.

Lemma keeps_sched c f M : (forall s, m_current (f s) = m_current s /\ m_last_load_balance_ns (f s) = m_last_load_balance_ns s /\ m_has_pending_reschedule (f s) = m_has_pending_reschedule s) ->
  keeps M (set_sched c f M).
Proof.
  intros Hf. destruct (Hf (schedulers M c)) as (E1 & E2 & E3). split; try done; intros d; unfold currents; cbn; (destruct (decide (c = d)) as [<-|Hd]; [by rewrite fn_lookup_insert|by rewrite fn_lookup_insert_ne]).
Qed.

Lemma keeps_cpu c f M : (forall p, p_timer_deadline (f p) = p_timer_deadline p /\ p_smp_messages_disabled (f p) = p_smp_messages_disabled p) -> keeps M (set_cpu c f M).
Proof.
  intros Hf. destruct (Hf (processors M c)) as (E1 & E2). split; try done; intros d; cbn; (destruct (decide (c = d)) as [<-|Hd]; [by rewrite fn_lookup_insert|by rewrite fn_lookup_insert_ne]).
Qed.

Lemma keeps_stable M M' : stable M M' -> keeps M M'.
Proof. intros [S1 S2 S3 S4 S5]. split; [done|..]; intros c; unfold currents; first [by rewrite S4 | by rewrite S5]. Qed.

Lemma balancing_step me M M' v v' chain chain' : balancing me M v chain -> keeps M M' -> inv M' 0 (currents M) (fun _ => []) v' chain' -> settled M' v' ->
  (forall c, loads_ok (m_most_loaded_threads (schedulers M' c)) c v') -> (forall x c, place v' x = Sleep c -> place v x = Sleep c) -> balancing me M' v' chain'.
Proof.
  intros [B1 B2 B3 B4 B5 B6] [K1 K2 K3 K4 K5 K6] Hinv Hset Hlo Hsl. split; try done.
  - by eapply inv_cur_ext.
  - intros c Ha. rewrite K4, K5. destruct (B4 c Ha) as [H|H]; [by left|right]. intros x Hx. rewrite K1. apply H. by apply Hsl.
  - intros c. rewrite K6. apply B5.
  - intros c. rewrite K3. apply B6.
Qed.

(** A step that moves no thread. *)
Lemma balancing_touch me M M' v chain t : balancing me M v chain -> keeps M M' -> touches M M' t -> processor_id (nodes M' t) = processor_id (nodes M t) ->
  blocked (nodes M' t) = blocked (nodes M t) -> threads M' = threads M -> (forall c, loads_ok (m_most_loaded_threads (schedulers M' c)) c v) -> balancing me M' v chain.
Proof.
  intros Hb Hk Ht Hp Hbl Hth Hlo. eapply balancing_step; try done; [|].
  - eapply (inv_touch ids T M _ t); try done; [by apply bl_inv in Hb|by apply ke_wake|by rewrite Hth..].
  - intros c x Hx. destruct (decide (x = t)) as [->|Hne]; [rewrite Hbl|rewrite (proj1 (to_others _ _ _ Ht x Hne))]; by apply (bl_settled _ _ _ _ Hb c).
Qed.

(** ** Sending a thread away *)
Lemma run_pop_ok me t k M cur E v chain : inv M 0 cur E v chain -> run v me !! k = Some t ->
  inv (run_pop me t M) 0 cur E (from_run v me t k Nowhere) chain /\ stable M (run_pop me t M) /\ nodes (run_pop me t M) = nodes M /\ processors (run_pop me t M) = processors M.
Proof.
  intros Hinv Hk. pose proof Hinv as [Hl Hn Hkn Hcpu Hc Hcur Hfl Hon Hlim Hbd]. assert (Hpl : place v t = Run me) by (apply (lo_run _ _ _ _ Hl); by eapply list_elem_of_lookup_2).
  unfold run_pop. pose proof (queue_pop _ _ _ k t (lo_queue _ _ _ _ Hl me) Hk) as Hq. destruct (SchedulerQueue.pop _ _ t) as [q L]. destruct Hq as (Hq & Hun & Hout).
  split_and!; try done.
  - split; cbn; try done.
    + by eapply from_run_ok.
    + intros x. destruct (decide (t = x)) as [<-|Hx]; [|rewrite fn_lookup_insert_ne by done; apply Hn]. rewrite fn_lookup_insert. pose proof (Hn t) as Ht. rewrite Hpl in Ht. cbn in *. tauto.
    + intros x. destruct (decide (t = x)) as [<-|Hx]; [by rewrite fn_lookup_insert|rewrite fn_lookup_insert_ne by done; apply Hkn].
    + intros x c. destruct (decide (t = x)) as [<-|Hx]; [by rewrite fn_lookup_insert|rewrite fn_lookup_insert_ne by done; apply Hcpu].
    + intros c x Hx. rewrite Hcur by done. symmetry. apply (place_moved (fun p => p = Current c)). by rewrite Hpl.
    + intros c x. rewrite Hfl. symmetry. apply (place_moved (fun p => p = Flight c)). by rewrite Hpl.
  - split; cbn; try done; intros c; [|by destruct (processors M c)]. destruct (decide (me = c)) as [<-|Hx]; [rewrite fn_lookup_insert; by destruct (schedulers M me)|rewrite fn_lookup_insert_ne by done; by destruct (schedulers M c)].
Qed.

(** The thread is in no list of its processor any more. *)
Lemma leave_lists_ok me t M cur E v chain : inv M 0 cur E v chain -> place v t = Run me \/ place v t = Sleep me ->
  exists M' v' chain', (if negb (blocked (nodes M t)) then Ok (run_pop me t M) else leave_block_list fuel me t M) = Ok M' /\ inv M' 0 cur E v' chain' /\ stable M M' /\
    (forall x, place v' x = if decide (x = t) then Nowhere else place v x) /\ (forall x, x <> t -> blocked (nodes M' x) = blocked (nodes M x)).
Proof.
  intros Hinv Hpl. pose proof (iv_nodes _ _ _ _ _ _ _ _ Hinv t) as Hnt.
  assert (Hplace : forall x, (<[t := Nowhere]> (place v)) x = if decide (x = t) then Nowhere else place v x).
  { intros x. destruct (decide (t = x)) as [<-|Hx]; [by rewrite fn_lookup_insert, decide_True|by rewrite fn_lookup_insert_ne, decide_False by congruence]. }
  destruct Hpl as [Hpl|Hpl]; rewrite Hpl in Hnt; cbn in Hnt; destruct Hnt as (_ & -> & _); cbn [negb].
  - pose proof Hpl as Hin. apply (lo_run _ _ _ _ (iv_lists _ _ _ _ _ _ _ _ Hinv)), list_elem_of_lookup in Hin as [k Hk].
    destruct (run_pop_ok me t k M cur E v chain Hinv Hk) as (H1 & H2 & H3 & H4). eexists _, _, _. split; [done|]. split; [exact H1|]. split_and!; [done|apply Hplace|by rewrite H3].
  - destruct (leave_ok fuel ids T HT me t M 0 cur E v chain Hinv Hpl) as (M' & l & chain' & Hrun & _ & H1 & H2 & _ & _ & _ & H3); [by right|].
    eexists _, _, _. split; [exact Hrun|]. split; [exact H1|]. split_and!; [by apply quiet_stable|apply Hplace|done].
Qed.

Lemma loads_forget l c v v' i t : loads_ok l c v -> l !! i = Some t -> t <> 0 -> (forall x, x <> t -> place v' x = place v x) -> loads_ok (<[i := 0]> l) c v'.
Proof.
  intros (L1 & L2 & L3) Hi Ht0 Hpl. split_and!; [| |by rewrite length_insert].
  - intros j k x [(? & ? & ?)|[_ Hj]]%list_lookup_insert_Some [(? & ? & ?)|[_ Hk]]%list_lookup_insert_Some Hx; subst; try done. by eapply L1.
  - intros x [j [(? & ? & ?)|[Hij Hj]]%list_lookup_insert_Some]%list_elem_of_lookup Hx; [by subst|]. rewrite Hpl; [apply L2; [by eapply list_elem_of_lookup_2|done]|]. intros ->. apply Hij. by eapply L1.
Qed.

(** Threads of the queue and the heap of [me] may have been sent to other processors. *)
Record sent (me : Z) (M M' : machine) (v v' : view) : Prop := {
  se_keeps : keeps M M';
  se_threads : threads M' = threads M;
  se_clock : clock_reads M' = clock_reads M;
  se_place : forall x, place v' x = place v x \/ ((place v x = Run me \/ place v x = Sleep me) /\ exists c, c <> me /\ place v' x = Flight c)
}.

Lemma sent_refl me M M' v : keeps M M' -> threads M' = threads M -> clock_reads M' = clock_reads M -> sent me M M' v v.
Proof. intros. split; try done. intros x. by left. Qed.

Lemma sent_trans me M1 M2 M3 v1 v2 v3 : sent me M1 M2 v1 v2 -> sent me M2 M3 v2 v3 -> sent me M1 M3 v1 v3.
Proof.
  intros [A1 A2 A3 A4] [B1 B2 B3 B4]. split; [by eapply keeps_compose|congruence..|]. intros x. destruct (B4 x) as [->|[H1 H2]], (A4 x) as [E|[H3 H4]].
  - by left.
  - by right.
  - right. by rewrite <- E.
  - destruct H4 as (c & _ & H4). rewrite H4 in H1. by destruct H1.
Qed.

(** A thread that is in no list may be bound to another processor. *)
Lemma inv_rebind me t target count M cur E v chain : inv M 0 cur E v chain -> place v t = Nowhere -> target ∈ ids ->
  inv (set_node t (with_processor target) (set_sched me (fun s => with_thread_count (count s) s) M)) 0 cur E (relocate v t Nowhere) chain.
Proof.
  intros Hinv Hpl Htg. pose proof Hinv as [Hl Hn Hk Hcpu Hc Hcur Hfl Hon Hlim Hbd].
  apply (inv_relocate ids T M _ _ cur _ E _ v chain t Nowhere Hinv); try done; cbn; rewrite ?fn_lookup_insert; try done; [by rewrite Hpl|by left|..].
  - intros x Hx. by rewrite fn_lookup_insert_ne.
  - intros c. destruct (decide (me = c)) as [<-|Hd]; [by rewrite fn_lookup_insert|by rewrite fn_lookup_insert_ne].
  - pose proof (Hn t) as Hnt. by rewrite Hpl in Hnt.
  - intros c x Hx. rewrite Hcur by done. symmetry. apply (place_moved (fun p => p = Current c)). by rewrite Hpl.
  - intros c x. rewrite Hfl. symmetry. apply (place_moved (fun p => p = Flight c)). by rewrite Hpl.
  - by right.
Qed.

Ltac keep := repeat first [apply keeps_refl | eapply keeps_compose; [|first [apply keeps_node; done | apply keeps_sched; done | apply keeps_cpu; done]]].

Lemma send_away_ok me t i target M v chain : balancing me M v chain -> m_most_loaded_threads (schedulers M me) !! i = Some t -> t <> 0 -> t <> currents M me -> target <> me -> target ∈ ids ->
  exists M' v' chain', send_away fuel me t target M = Ok M' /\
    balancing me (set_sched me (fun s => with_most_loaded (<[i := 0]> (m_most_loaded_threads s)) s) M') v' chain' /\
    sent me M (set_sched me (fun s => with_most_loaded (<[i := 0]> (m_most_loaded_threads s)) s) M') v v' /\ place v' t = Flight target.
Proof.
  intros Hb Hi Ht0 Htc Htg Hin. pose proof Hb as [B1 B2 B3 B4 B5 B6]. unfold send_away.
  set (M1 := if p_sse_thread (processors M me) =? t then _ else M). set (M2 := set_node t (with_time_used 0) M1).
  assert (Htou : touches M M2 t) by (unfold M2, M1; destruct (_ =? t); touch).
  assert (Hk2 : keeps M M2) by (unfold M2, M1; destruct (_ =? t); keep).
  assert (Hn2 : processor_id (nodes M2 t) = processor_id (nodes M t) /\ blocked (nodes M2 t) = blocked (nodes M t)) by (unfold M2, M1; destruct (_ =? t); cbn; by rewrite fn_lookup_insert).
  assert (Hsame2 : threads M2 = threads M /\ schedulers M2 = schedulers M /\ clock_reads M2 = clock_reads M) by (unfold M2, M1; by destruct (_ =? t)).
  destruct Hn2 as [Hp2 Hb2]. destruct Hsame2 as (Hth2 & Hsc2 & Hcl2).
  assert (Hinv2 : inv M2 0 (currents M) (fun _ => []) v chain) by (eapply (inv_touch ids T M _ t); try done; [by apply ke_wake|by rewrite Hth2..]).
  clearbody M2. clear M1. destruct (B3 me) as (_ & Hhome & _). specialize (Hhome t (list_elem_of_lookup_2 _ _ _ Hi) Ht0).
  assert (Hpl : place v t = Run me \/ place v t = Sleep me).
  { destruct (place v t) eqn:Ep; cbn in Hhome; try done; injection Hhome as ->; [by left|by right|]. apply (iv_current _ _ _ _ _ _ _ _ B1) in Ep; [|done]. by rewrite Ep in Htc. }
  assert (Hst : m_state (threads M t) <> Terminated /\ t ∈ T).
  { pose proof (iv_nodes _ _ _ _ _ _ _ _ B1 t) as Hn. split; [|apply (iv_known _ _ _ _ _ _ _ _ B1)]; destruct Hpl as [E|E]; rewrite ?E in *; cbn in *; tauto || done. }
  destruct Hst as [Hst HtT]. destruct (leave_lists_ok me t M2 _ _ v chain Hinv2 Hpl) as (M3 & v3 & chain3 & -> & Hinv3 & Hs3 & Hpl3 & Hbl3).
  set (M5 := set_node t (with_processor target) _).
  assert (H3t : place v3 t = Nowhere) by (rewrite Hpl3; by rewrite decide_True).
  assert (Hinv5 : inv M5 0 (currents M) (fun _ => []) (relocate v3 t Nowhere) chain3) by by apply inv_rebind.
  destruct (inv_send ids T me t target M5 0 _ _ _ chain3 Hinv5) as (M6 & Hsend & Hinv6); try done; [by cbn; rewrite fn_lookup_insert..|cbn; by rewrite (sb_threads _ _ Hs3), Hth2|].
  pose proof Hsend as Hsend'. unfold send_smp_message in Hsend'. rewrite (proj2 (Z.eqb_neq _ _) Htg), (proj2 (Z.ltb_lt _ _) (iv_ids _ _ _ _ _ _ _ _ B1 _ Hin)) in Hsend'. cbn [negb] in Hsend'. injection Hsend' as E6.
  assert (Hplace : forall x, place (relocate (relocate v3 t Nowhere) t (Flight target)) x = if decide (x = t) then Flight target else place v x).
  { intros x. cbn. destruct (decide (t = x)) as [<-|Hx]; [by rewrite fn_lookup_insert, decide_True|]. rewrite !fn_lookup_insert_ne, Hpl3 by done. by rewrite !decide_False by congruence. }
  assert (Hsame : forall c, m_most_loaded_threads (schedulers M6 c) = m_most_loaded_threads (schedulers M c)).
  { intros c. rewrite <- E6, <- Hsc2. cbn. destruct (decide (me = c)) as [<-|Hc]; [rewrite fn_lookup_insert|rewrite fn_lookup_insert_ne by done]; by rewrite (sb_scheds _ _ Hs3). }
  assert (Hkeep : keeps M (set_sched me (fun s => with_most_loaded (<[i := 0]> (m_most_loaded_threads s)) s) M6)).
  { rewrite <- E6. eapply keeps_compose; [exact Hk2|]. eapply keeps_compose; [by apply keeps_stable|]. unfold M5. keep. }
  eexists M6, _, chain3. split; [exact Hsend|]. split; [|split; [split; [done|..]|by rewrite Hplace, decide_True]].
  2:{ rewrite <- E6. cbn. by rewrite (sb_threads _ _ Hs3). }
  2:{ rewrite <- E6. cbn. by rewrite (sb_clock _ _ Hs3). }
  2:{ intros x. rewrite Hplace. case_decide as Hx; [right|by left]. subst x. split; [done|by eexists]. }
  eapply balancing_step; [exact Hb|done|..].
  - eapply (inv_touch ids T M6 _ t); try done. touch.
  - intros c x. rewrite Hplace. cbn. rewrite <- E6. cbn. case_decide as Hx; [done|]. rewrite fn_lookup_insert_ne by congruence. rewrite Hbl3 by done. intros Hcx.
    rewrite (proj1 (to_others _ _ _ Htou x Hx)). by apply (B2 c).
  - intros c. cbn. destruct (decide (me = c)) as [<-|Hc]; [rewrite fn_lookup_insert|rewrite fn_lookup_insert_ne by done].
    + cbn. rewrite Hsame. eapply loads_forget; [apply B3|done..|]. intros x Hx. rewrite Hplace. by rewrite decide_False.
    + rewrite Hsame. eapply loads_kept; [apply B3|..|intros x Hx; rewrite Hplace; by rewrite decide_False]. rewrite Hhome. congruence.
  - intros x c. rewrite Hplace. by case_decide.
Qed.

(** ** The balancer *)
Lemma least_loaded_in me M : find_least_loaded_processor ids me M = me \/ find_least_loaded_processor ids me M ∈ ids.
Proof.
  unfold find_least_loaded_processor. match goal with |- context [foldl ?f ?a ids] => set (F := f) end.
  assert (Hgen : forall l acc, (acc.1.1 = me \/ acc.1.1 ∈ ids) -> (forall x, x ∈ l -> x ∈ ids) -> (foldl F acc l).1.1 = me \/ (foldl F acc l).1.1 ∈ ids).
  { induction l as [|x l IH]; intros [[p i] n] Hacc Hl; cbn [foldl]; [done|]. apply IH; [|intros y Hy; apply Hl; by right]. unfold F. repeat case_match; try done. right. apply Hl. by left. }
  match goal with |- context [foldl F ?a ids] => specialize (Hgen ids a) end. destruct (foldl F _ ids) as [[p i] n]. apply Hgen; [by left|done].
Qed.

Lemma balancing_info me c i M v chain : balancing me M v chain -> balancing me (set_info c i M) v chain.
Proof. intros Hb. eapply (balancing_touch _ M _ _ _ 0); try done. apply Hb. Qed.

Lemma balancing_idle me c start total M v chain : balancing me M v chain -> balancing me (set_sched c (fun s => with_idle (start s) (total s) s) M) v chain.
Proof.
  intros Hb. eapply (balancing_touch _ M _ _ _ 0); try done; [keep|touch|]. intros d. cbn. destruct (decide (c = d)) as [<-|Hd]; [rewrite fn_lookup_insert|rewrite fn_lookup_insert_ne by done]; apply Hb.
Qed.

Lemma plan_move_ok me t target M v chain : balancing me M v chain -> exists b, plan_move me t target M = Ok b /\
  match b with Send M' => balancing me M' v chain /\ sent me M M' v v /\ currents M' me = currents M me /\ m_most_loaded_threads (schedulers M' me) = m_most_loaded_threads (schedulers M me) | _ => True end.
Proof.
  intros Hb. unfold plan_move. destruct (m_idle_ns _ =? 0).
  - destruct (max_load_threads _ =? 0); [by eexists|]. destruct (idle_time_ns _ =? 0); [destruct (_ <? _); [by eexists|]|].
    all: eexists; split; [done|]; split_and!; [by do 2 apply balancing_info|by apply sent_refl|done|done].
  - destruct (_ <=? _) eqn:Hd; [by eexists|]. apply Z.leb_gt in Hd. rewrite (proj2 (Z.eqb_neq _ _)).
    2:{ pose proof (fun a b => Z.mod_pos_bound a (2 ^ 64) b) as Hm. unfold absolute_difference_u64, u64, wrap in *. repeat case_match; match goal with H : ?a mod ?n < _ |- _ => pose proof (Hm a ltac:(lia)) end; lia. }
    cbn [negb]. destruct (_ <? 10); [by eexists|]. eexists. split; [done|]. split_and!; [by apply balancing_idle, balancing_info| |by unfold currents; cbn; rewrite fn_lookup_insert..].
    apply sent_refl; [|done..]. eapply (keeps_compose _ (set_info _ _ M)); [done|keep].
Qed.

Lemma calculate_max_load_ok me ns M v chain : balancing me M v chain -> m_last_load_balance_ns (schedulers M me) < ns < 2 ^ 63 ->
  exists M', calculate_max_load me ns M = Ok M' /\ balancing me M' v chain /\ sent me M M' v v.
Proof.
  intros Hb Hns. pose proof (bl_last _ _ _ _ Hb me) as Hl. assert (Hinfo : forall i, exists M', Ok (set_info me i M) = Ok M' /\ balancing me M' v chain /\ sent me M M' v v).
  { intros i. eexists. split_and!; [done|by apply balancing_info|by apply sent_refl]. }
  unfold calculate_max_load. destruct (_ && _); [|eexists; split_and!; [done|done|by apply sent_refl]]. destruct (_ || _); [apply Hinfo|].
  rewrite (proj2 (Z.eqb_neq _ _)); [|unfold u64, wrap; rewrite Z.mod_small by lia; lia]. cbn [negb]. destruct (_ =? 0); apply Hinfo.
Qed.

Lemma balance_loop_ok me indices M v chain : balancing me M v chain ->
  exists M' v' chain', balance_loop fuel ids indices me M = Ok M' /\ balancing me M' v' chain' /\ sent me M M' v v'.
Proof.
  revert M v chain. induction indices as [|i indices IH]; intros M v chain Hb; cbn [balance_loop]; [eexists _, _, _; split_and!; [done|done|by apply sent_refl]|].
  assert (Hstop : exists M' v' chain', Ok M = Ok M' /\ balancing me M' v' chain' /\ sent me M M' v v') by (eexists _, _, _; split_and!; [done|done|by apply sent_refl]).
  destruct (m_most_loaded_threads (schedulers M me) !! i) as [t|] eqn:Hi; cbn [default from_option id]; [|exact Hstop]. destruct (Z.eqb_spec t 0) as [|Ht0]; [exact Hstop|].
  pose proof (bl_loads _ _ _ _ Hb me) as (_ & Hhome & _). specialize (Hhome t (list_elem_of_lookup_2 _ _ _ Hi) Ht0).
  assert (Hp : processor_id (nodes M t) = me).
  { pose proof (iv_nodes _ _ _ _ _ _ _ _ (bl_inv _ _ _ _ Hb) t) as Hn. destruct (place v t); cbn in *; try done; injection Hhome as ->; tauto. }
  rewrite Hp, Z.eqb_refl. destruct (Z.eqb_spec t (m_current (schedulers M me))) as [|Hcur]; [exact (IH M v chain Hb)|].
  destruct (least_loaded_in me M) as [E|Hin]; [rewrite E, Z.eqb_refl; exact Hstop|]. destruct (Z.eqb_spec (find_least_loaded_processor ids me M) me) as [|Hne]; [exact Hstop|].
  destruct (plan_move_ok me t (find_least_loaded_processor ids me M) M v chain Hb) as (b & -> & Hm). destruct b as [| |M1]; [exact Hstop|exact (IH M v chain Hb)|]. destruct Hm as (Hb1 & Hs1 & Hc1 & Hl1).
  destruct (send_away_ok me t i (find_least_loaded_processor ids me M) M1 v chain Hb1) as (M2 & v2 & chain2 & -> & Hb2 & Hs2 & _); [congruence|done|by rewrite Hc1|done|done|].
  destruct (_ =? 0); [eexists _, _, _; split_and!; [done|done|by eapply sent_trans]|]. destruct (IH _ _ _ Hb2) as (M3 & v3 & chain3 & -> & Hb3 & Hs3). eexists _, _, _. split_and!; [done|done|].
  eapply sent_trans; [exact Hs1|]. by eapply sent_trans.
Qed.

(** ** Resetting the counters *)
Lemma reset_used_ok me l M v chain : balancing me M v chain -> balancing me (reset_used l M) v chain /\ sent me M (reset_used l M) v v /\ schedulers (reset_used l M) = schedulers M /\
  (forall x, x ∈ l -> time_used_ns (nodes (reset_used l M) x) = 0) /\ (forall x, time_used_ns (nodes M x) = 0 -> time_used_ns (nodes (reset_used l M) x) = 0).
Proof.
  unfold reset_used. revert M. induction l as [|t l IH]; intros M Hb; cbn [foldl]; [split_and!; [done|by apply sent_refl|done|intros x Hx; by apply elem_of_nil in Hx|done]|].
  destruct (IH (set_node t (with_time_used 0) M)) as (H1 & H2 & H3 & H4 & H5).
  { eapply (balancing_touch _ M _ _ _ t); try done; cbn; rewrite ?fn_lookup_insert; try done; [keep|touch|apply Hb]. }
  split_and!; [done|eapply sent_trans; [|exact H2]; apply sent_refl; [keep|done..]|done|..].
  - intros x [->|Hx]%elem_of_cons; [|by apply H4]. apply H5. cbn. by rewrite fn_lookup_insert.
  - intros x Hx. apply H5. cbn. destruct (decide (t = x)) as [<-|Hne]; [by rewrite fn_lookup_insert|by rewrite fn_lookup_insert_ne].
Qed.

Lemma loads_none n c v : (0 < n)%nat -> loads_ok (replicate n 0) c v.
Proof.
  intros Hn. split_and!; [| |by rewrite length_replicate].
  - intros i j t [-> _]%lookup_replicate. done.
  - intros t [-> _]%elem_of_replicate. done.
Qed.

(** The lists of a processor, read from the links. *)
Lemma walk_lists me M cur E v chain : inv M 0 cur E v chain ->
  SchedulerQueue.walk fuel (node_links M) (SchedulerQueue.m_head (m_run_list (schedulers M me))) = Ok (run v me) /\
  exists ss, SchedulerHeap.walk fuel (node_links M) (SchedulerHeap.m_root (m_block_list (schedulers M me))) = Ok ss /\ ss ≡ₚ sleep v me.
Proof.
  intros Hinv. pose proof (iv_lists _ _ _ _ _ _ _ _ Hinv) as Hl. pose proof (lo_queue _ _ _ _ Hl me) as Hq. split.
  - rewrite (qr_head _ _ _ Hq), (queue_walk _ _ _ Hq); [done|]. rewrite Nat.sub_0_r. destruct (qr_nodes _ _ _ Hq) as [Hnd _]. etrans; [|exact HT].
    apply submseteq_length, NoDup_submseteq; [done|]. intros x Hx. apply (iv_known _ _ _ _ _ _ _ _ Hinv). apply (lo_run _ _ _ _ Hl) in Hx. by rewrite Hx.
  - eapply heap_walk; [apply (lo_heap _ _ _ _ Hl)|]. by eapply sleep_short.
Qed.

Lemma balancing_published me M v chain : balancing me M v chain -> 0 <= u64 (m_last_load_balance_ns (schedulers M me) + s_load_balance_interval_ns) < 2 ^ 63 ->
  balancing me (set_sched me (fun s => with_last_load_balance (u64 (m_last_load_balance_ns s + s_load_balance_interval_ns)) (with_should_calculate true (with_idle (m_idle_start_ns s) 0 s))) M) v chain.
Proof.
  intros [B1 B2 B3 B4 B5 B6] Hlast. split; try done.
  - eapply (inv_touch ids T M _ 0); try done; [eapply inv_cur_ext; [|exact B1]|touch]. intros c. unfold currents. cbn. destruct (decide (me = c)) as [<-|Hc]; [by rewrite fn_lookup_insert|by rewrite fn_lookup_insert_ne].
  - intros c. cbn. destruct (decide (me = c)) as [<-|Hc]; [rewrite fn_lookup_insert|rewrite fn_lookup_insert_ne by done]; apply B3.
  - intros c Ha. cbn. destruct (decide (me = c)) as [<-|Hc]; [rewrite fn_lookup_insert|rewrite fn_lookup_insert_ne by done]; by apply B4.
  - intros c. cbn. destruct (decide (me = c)) as [<-|Hc]; [by rewrite fn_lookup_insert|rewrite fn_lookup_insert_ne by done; apply B6].
Qed.

(** The load of the processor is published and the counters start again. *)
Lemma finish_balancing_ok me M v chain : balancing me M v chain -> m_last_load_balance_ns (schedulers M me) + s_load_balance_interval_ns < 2 ^ 63 ->
  exists M', finish_balancing fuel me M = Ok M' /\ balancing me M' v chain /\
    (forall x, wake_time_ns (nodes M' x) = wake_time_ns (nodes M x)) /\ (forall c, currents M' c = currents M c) /\ threads M' = threads M /\ clock_reads M' = clock_reads M /\
    (forall x, home (place v x) = Some me -> time_used_ns (nodes M' x) = 0) /\ m_last_load_balance_ns (schedulers M' me) = m_last_load_balance_ns (schedulers M me) + s_load_balance_interval_ns.
Proof.
  intros Hb Hlast. pose proof (bl_last _ _ _ _ Hb me) as Hl0. unfold finish_balancing. set (s := schedulers M me).
  set (M1 := set_info me _ M). assert (Hb1 : balancing me M1 v chain) by by apply balancing_info.
  set (M2 := if m_current s =? 0 then M1 else _).
  assert (H2 : balancing me M2 v chain /\ sent me M M2 v v /\ schedulers M2 = schedulers M /\ node_links M2 = node_links M /\ (m_current s <> 0 -> time_used_ns (nodes M2 (m_current s)) = 0)).
  { unfold M2. destruct (Z.eqb_spec (m_current s) 0) as [E|E]; [split_and!; [done|by apply sent_refl|done|done|done]|]. split_and!; try done; [..|cbn; by rewrite fn_lookup_insert].
    - eapply (balancing_touch _ M1 _ _ _ (m_current s)); try done; cbn; rewrite ?fn_lookup_insert; try done; [keep|touch|apply Hb].
    - apply sent_refl; [eapply (keeps_compose _ M1); [done|unfold M1; keep]|done..]. }
  clearbody M2. destruct H2 as (Hb2 & Hs2 & Hsc2 & Hli2 & Hu2). set (M3 := set_sched me _ M2).
  assert (Hb3 : balancing me M3 v chain).
  { eapply (balancing_touch _ M2 _ _ _ 0); try done; [unfold M3; keep|unfold M3; touch|]. intros c. cbn. destruct (decide (me = c)) as [<-|Hc]; [rewrite fn_lookup_insert|rewrite fn_lookup_insert_ne by done; apply Hb2].
    cbn. apply loads_none. by destruct (bl_loads _ _ _ _ Hb2 me) as (_ & _ & ?). }
  destruct (walk_lists me M _ _ v chain (bl_inv _ _ _ _ Hb)) as (Hrs & ss & Hss & Hall). assert (node_links M3 = node_links M) as -> by exact Hli2. fold s in Hrs, Hss. rewrite Hrs, Hss.
  destruct (reset_used_ok me (run v me) M3 v chain Hb3) as (Hb4 & Hs4 & Hsc4 & Hr4 & Hz4). destruct (reset_used_ok me ss _ v chain Hb4) as (Hb5 & Hs5 & Hsc5 & Hr5 & Hz5).
  set (M5 := reset_used ss _) in *. eexists. split; [done|].
  assert (Hs : sent me M M5 v v). { eapply sent_trans; [exact Hs2|]. eapply sent_trans; [|eapply sent_trans; [exact Hs4|exact Hs5]]. apply sent_refl; [unfold M3; keep|done..]. }
  assert (Hl5 : m_last_load_balance_ns (schedulers M5 me) = m_last_load_balance_ns s) by apply (ke_last _ _ (se_keeps _ _ _ _ _ Hs)).
  assert (Hadd : u64 (m_last_load_balance_ns s + s_load_balance_interval_ns) = m_last_load_balance_ns s + s_load_balance_interval_ns).
  { unfold u64, wrap. apply Z.mod_small. unfold s_load_balance_interval_ns in *. fold s in Hl0, Hlast. lia. }
  split_and!.
  - apply balancing_published; [done|]. rewrite Hl5, Hadd. fold s in Hl0, Hlast. unfold s_load_balance_interval_ns in *. lia.
  - apply Hs.
  - intros c. rewrite <- (ke_current _ _ (se_keeps _ _ _ _ _ Hs)). unfold currents. cbn. destruct (decide (me = c)) as [<-|Hc]; [by rewrite fn_lookup_insert|by rewrite fn_lookup_insert_ne].
  - apply Hs.
  - apply Hs.
  - intros x Hx. cbn. destruct (decide (place v x = Current me)) as [Ec|Ec]; [|].
    2:{ pose proof (iv_lists _ _ _ _ _ _ _ _ (bl_inv _ _ _ _ Hb)) as Hl. destruct (place v x) eqn:Ep; cbn in Hx; try done; injection Hx as ->; [apply Hz5, Hr4; by apply (lo_run _ _ _ _ Hl)|apply Hr5; rewrite Hall; by apply (lo_sleep _ _ _ _ Hl)|done]. }
    assert (Hx0 : x <> 0) by (intros ->; by rewrite (zero_nowhere ids T HT0 _ _ _ _ _ _ (bl_inv _ _ _ _ Hb)) in Hx). apply (iv_current _ _ _ _ _ _ _ _ (bl_inv _ _ _ _ Hb)) in Ec; [|done].
    apply Hz5, Hz4. cbn. unfold currents in Ec. fold s in Ec. rewrite <- Ec. apply Hu2. by rewrite Ec.
  - cbn. rewrite fn_lookup_insert. cbn. by rewrite Hl5.
Qed.

(** ** The whole balancer *)
#[export] Instance heavier_order used : StrictWeakOrder (heavier used).
Proof. split; unfold heavier; intros; repeat case_match; zify_bool; lia. Qed.

Lemma loads_permute l l' c v : l ≡ₚ l' -> loads_ok l c v -> loads_ok l' c v.
Proof.
  intros Hp (L1 & L2 & L3). split_and!; [|intros t Ht; apply L2; by rewrite Hp|by rewrite <- Hp].
  apply symmetry, Permutation_inj in Hp as (_ & f & Hf & Hl). intros i j t. rewrite !Hl. intros Hi Hj Ht. by apply Hf, (L1 _ _ t).
Qed.

Lemma balancing_start me M v chain : good M (fun _ => []) v chain -> balancing me (set_cpu me (with_smp_disabled true) M) v chain.
Proof.
  intros [G1 G2 G3 G4 G5 G6]. split; try done.
  - eapply (inv_touch ids T M _ 0); try done. touch.
  - intros c Ha. cbn. destruct (G4 c Ha) as [H|H]; [by left|right]. destruct (decide (me = c)) as [<-|Hc]; [by rewrite fn_lookup_insert|by rewrite fn_lookup_insert_ne].
  - intros c. cbn. destruct (decide (me = c)) as [<-|Hc]; [rewrite fn_lookup_insert; by rewrite bool_decide_eq_true_2|rewrite fn_lookup_insert_ne by done]. rewrite bool_decide_eq_false_2 by congruence. apply G5.
Qed.

Lemma balancing_stop me M v chain : balancing me M v chain -> good (set_cpu me (with_smp_disabled false) M) (fun _ => []) v chain.
Proof.
  intros [G1 G2 G3 G4 G5 G6]. split; try done.
  - eapply (inv_touch ids T M _ 0); try done. touch.
  - intros c Ha. cbn. destruct (G4 c Ha) as [H|H]; [by left|right]. destruct (decide (me = c)) as [<-|Hc]; [by rewrite fn_lookup_insert|by rewrite fn_lookup_insert_ne].
  - intros c. cbn. destruct (decide (me = c)) as [<-|Hc]; [by rewrite fn_lookup_insert|rewrite fn_lookup_insert_ne by done]. rewrite G5. by apply bool_decide_eq_false_2.
Qed.

(** The running thread is charged for its time, or the idle time is counted. *)
Lemma account_ok me ns M v chain : balancing me M v chain ->
  exists M', (if m_current (schedulers M me) =? 0 then
      Ok (set_sched me (fun s => with_idle ns (u64 (m_idle_ns s + (ns - m_idle_start_ns s))) s) M)
    else
      add_current_to_most_loaded me
        (set_node (m_current (schedulers M me)) (fun x => with_last_start ns (with_time_used (u64 (time_used_ns x + (ns - last_start_ns x))) x)) M)) = Ok M' /\
    balancing me M' v chain /\ sent me M M' v v.
Proof.
  intros Hb. destruct (Z.eqb_spec (m_current (schedulers M me)) 0) as [E|E].
  - eexists. split_and!; [done|by apply balancing_idle|apply sent_refl; [keep|done..]].
  - set (M1 := set_node _ _ M). assert (Hb1 : balancing me M1 v chain).
    { eapply (balancing_touch _ M _ _ _ (m_current (schedulers M me))); try done; cbn; rewrite ?fn_lookup_insert; try done; [unfold M1; keep|unfold M1; touch|apply Hb]. }
    assert (Hpl : place v (m_current (schedulers M1 me)) = Current me) by by apply (iv_current _ _ _ _ _ _ _ _ (bl_inv _ _ _ _ Hb)).
    destruct (add_current_ok fuel T HT me M1 v _ (bl_loads _ _ _ _ Hb1 me) eq_refl) as (M' & -> & Hcase & Hlo); [by rewrite Hpl|]. eexists. split; [done|].
    destruct Hcase as [->|(l' & ->)]; split; [done|apply sent_refl; [unfold M1; keep|done..]| |apply sent_refl; [unfold M1; keep|done..]].
    eapply (balancing_touch _ M1 _ _ _ 0); try done; [keep|touch|]. intros c. destruct (decide (me = c)) as [<-|Hc]; [done|]. cbn. rewrite fn_lookup_insert_ne by done. apply Hb1.
Qed.

(** What the load balancer does to the threads of [me]. *)
Record balanced (me : Z) (M M' : machine) (v v' : view) : Prop := {
  ba_wake : forall x, wake_time_ns (nodes M' x) = wake_time_ns (nodes M x);
  ba_current : forall c, currents M' c = currents M c;
  ba_threads : threads M' = threads M;
  ba_clock : clock_reads M' = S (clock_reads M);
  ba_place : forall x, place v' x = place v x \/ ((place v x = Run me \/ place v x = Sleep me) /\ exists c, c <> me /\ place v' x = Flight c)
}.

(** The part that needs the lock of the loads. *)
Lemma balance_locked_ok me ns indices M v chain : balancing me M v chain -> m_last_load_balance_ns (schedulers M me) + s_load_balance_interval_ns <= ns < 2 ^ 63 ->
  exists M' v' chain', (let* M := calculate_max_load me ns M in
      let* M := balance_loop fuel ids indices me M in finish_balancing fuel me M) = Ok M' /\
    balancing me M' v' chain' /\ (forall x, wake_time_ns (nodes M' x) = wake_time_ns (nodes M x)) /\ (forall c, currents M' c = currents M c) /\ threads M' = threads M /\
    clock_reads M' = clock_reads M /\ (forall x, place v' x = place v x \/ ((place v x = Run me \/ place v x = Sleep me) /\ exists c, c <> me /\ place v' x = Flight c)).
Proof.
  intros Hb Hns. destruct (calculate_max_load_ok me ns M v chain Hb) as (M1 & -> & Hb1 & Hs1); [unfold s_load_balance_interval_ns in *; lia|].
  destruct (balance_loop_ok me indices M1 v chain Hb1) as (M2 & v2 & chain2 & -> & Hb2 & Hs2).
  pose proof (sent_trans _ _ _ _ _ _ _ Hs1 Hs2) as [Hk Hth Hcl Hpl].
  destruct (finish_balancing_ok me M2 v2 chain2 Hb2) as (M3 & -> & Hb3 & Hw & Hc & Ht & Hr & _ & _); [rewrite (ke_last _ _ Hk); lia|].
  eexists _, v2, chain2. split_and!; try done; [intros x; rewrite Hw; apply Hk|intros c; rewrite Hc; apply Hk|congruence..].
Qed.

Lemma do_load_balancing_ok me lock_free M v chain : good M (fun _ => []) v chain ->
  exists M' v' chain', do_load_balancing fuel ns_since_boot ids me lock_free M = Ok M' /\ good M' (fun _ => []) v' chain' /\ balanced me M M' v v'.
Proof.
  intros Hg. unfold do_load_balancing, now. apply (good_tick ids apic T) in Hg. pose proof (gd_last _ _ _ _ _ _ _ Hg me) as Hl0. pose proof (Hclock (clock_reads M)) as Hck.
  destruct (Z.ltb_spec (ns_since_boot (clock_reads M)) (u64 (m_last_load_balance_ns (schedulers (tick M) me) + s_load_balance_interval_ns))) as [Hlt|Hge].
  { eexists _, v, chain. split_and!; [done|done|]. split; try done. intros x. by left. }
  assert (Hns : m_last_load_balance_ns (schedulers (tick M) me) + s_load_balance_interval_ns <= ns_since_boot (clock_reads M) < 2 ^ 63).
  { unfold u64, wrap in Hge. unfold s_load_balance_interval_ns in *. rewrite Z.mod_small in Hge by lia. lia. }
  unfold set_disable_smp_messages at 1. rewrite (gd_smp _ _ _ _ _ _ _ Hg). cbn [negb eqb]. pose proof (balancing_start me _ _ _ Hg) as Hb0. set (M0 := set_cpu me _ (tick M)) in *.
  destruct (account_ok me (ns_since_boot (clock_reads M)) M0 v chain Hb0) as (M1 & -> & Hb1 & [Hk1 Hth1 Hcl1 _]).
  destruct (Sort.intro_sort_sorts (heavier (fun t => time_used_ns (nodes M1 t))) 0%nat (length (m_most_loaded_threads (schedulers M1 me))) (m_most_loaded_threads (schedulers M1 me))) as (l & Hsort & [Hperm _] & _); [lia..|].
  unfold Sort.sort. rewrite Hsort. set (M2 := set_sched me (with_most_loaded l) M1).
  assert (Hb2 : balancing me M2 v chain).
  { eapply (balancing_touch _ M1 _ _ _ 0); try done; [unfold M2; keep|unfold M2; touch|]. intros c. cbn. destruct (decide (me = c)) as [<-|Hc]; [rewrite fn_lookup_insert|rewrite fn_lookup_insert_ne by done; apply Hb1].
    cbn. eapply loads_permute; [exact Hperm|apply Hb1]. }
  assert (Hk2 : keeps M0 M2) by (eapply keeps_compose; [exact Hk1|unfold M2; keep]).
  assert (Hlock : exists M3 v3 chain3, (if negb lock_free then Ok M2 else
      let* M := calculate_max_load me (ns_since_boot (clock_reads M)) M2 in let* M := balance_loop fuel ids (seq 1 (length l - 1)) me M in finish_balancing fuel me M) = Ok M3 /\
      balancing me M3 v3 chain3 /\ balanced me M M3 v v3).
  { destruct lock_free; cbn [negb].
    - destruct (balance_locked_ok me (ns_since_boot (clock_reads M)) (seq 1 (length l - 1)) M2 v chain Hb2) as (M3 & v3 & chain3 & -> & Hb3 & Hw & Hc & Ht & Hr & Hpl); [by rewrite (ke_last _ _ Hk2)|].
      eexists _, v3, chain3. split_and!; [done|done|]. split; [intros x; rewrite Hw; apply Hk2|intros c; rewrite Hc; apply Hk2|by rewrite Ht|rewrite Hr; exact Hcl1|done].
    - eexists _, v, chain. split_and!; [done|done|]. split; [apply Hk2|apply Hk2|done|exact Hcl1|intros x; by left]. }
  destruct Hlock as (M3 & v3 & chain3 & -> & Hb3 & [A1 A2 A3 A4 A5]). unfold set_disable_smp_messages. rewrite (bl_smp _ _ _ _ Hb3), bool_decide_eq_true_2 by done. cbn [negb eqb].
  eexists _, v3, chain3. split_and!; [done|by apply balancing_stop|by split].
Qed.

(** ** The timer interrupt *)
Lemma good_pending me M E v chain : good M E v chain -> good (set_sched me (with_pending_reschedule true) M) E v chain.
Proof.
  intros [G1 G2 G3 G4 G5 G6]. split; try done.
  - eapply (inv_touch ids T M _ 0); try done; [eapply inv_cur_ext; [|exact G1]|touch]. intros c. unfold currents. cbn. destruct (decide (me = c)) as [<-|Hc]; [by rewrite fn_lookup_insert|by rewrite fn_lookup_insert_ne].
  - intros c. cbn. destruct (decide (me = c)) as [<-|Hc]; [rewrite fn_lookup_insert|rewrite fn_lookup_insert_ne by done]; apply G3.
  - intros c Ha. cbn. destruct (decide (me = c)) as [<-|Hc]; [rewrite fn_lookup_insert; by left|rewrite fn_lookup_insert_ne by done; by apply G4].
  - intros c. cbn. destruct (decide (me = c)) as [<-|Hc]; [rewrite fn_lookup_insert|rewrite fn_lookup_insert_ne by done]; apply G6.
Qed.

Lemma good_deadline me M E v chain : good M E v chain -> good (update_wake_up_deadline ids apic me M) E v chain.
Proof.
  intros Hg. pose proof (deadline_updated fuel ids apic T HT M v me (iv_lists _ _ _ _ _ _ _ _ (gd_inv _ _ _ _ _ _ _ Hg))) as Hd. destruct (update_deadline_cases ids apic me M) as [E0|(d & E0)]; rewrite E0 in *; [done|].
  destruct Hg as [G1 G2 G3 G4 G5 G6]. split; try done.
  - eapply (inv_touch ids T M _ 0); try done. touch.
  - intros c. destruct (decide (me = c)) as [<-|Hc]; [done|]. intros Ha. cbn. rewrite fn_lookup_insert_ne by done. by apply G4.
  - intros c. cbn. destruct (decide (me = c)) as [<-|Hc]; [rewrite fn_lookup_insert|rewrite fn_lookup_insert_ne by done]; apply G5.
Qed.

(** The clock reading that decides which threads are due. *)
Definition timer_ns (M : machine) : Z := ns_since_boot (if is_smp_enabled ids then S (clock_reads M) else clock_reads M).

(** The threads of [me] that are due are queued; a thread may be sent away. *)
Definition timer_moves (me : Z) (M : machine) (v v' : view) : Prop :=
  forall x, (place v' x = if decide (place v x = Sleep me /\ wake_time_ns (nodes M x) <= timer_ns M) then Run me else place v x) \/
    (is_smp_enabled ids = true /\ (place v x = Run me \/ place v x = Sleep me) /\ exists c, c <> me /\ place v' x = Flight c).

(** The rest of the interrupt sets the deadline or leaves a note for the next yield. *)
Lemma timer_end_ok me (due : bool) M E v chain : good M E v chain -> exists M',
  Ok (if due then set_sched me (with_pending_reschedule true) M else update_wake_up_deadline ids apic me M) = Ok M' /\ good M' E v chain /\
  (forall c, currents M' c = currents M c) /\ threads M' = threads M.
Proof.
  intros Hg. eexists. split; [done|]. destruct due.
  - split_and!; [by apply good_pending| |done]. intros c. unfold currents. cbn. destruct (decide (me = c)) as [<-|Hc]; [by rewrite fn_lookup_insert|by rewrite fn_lookup_insert_ne].
  - split; [by apply good_deadline|]. by destruct (update_deadline_cases ids apic me M) as [->|(d & ->)].
Qed.

Lemma timer_balance_ok me lock_free M v chain : good M (fun _ => []) v chain ->
  exists M' v' chain', (if is_smp_enabled ids then do_load_balancing fuel ns_since_boot ids me lock_free M else Ok M) = Ok M' /\ good M' (fun _ => []) v' chain' /\
    (forall x, wake_time_ns (nodes M' x) = wake_time_ns (nodes M x)) /\ (forall c, currents M' c = currents M c) /\ threads M' = threads M /\ ns_since_boot (clock_reads M') = timer_ns M /\
    (forall x, place v' x = place v x \/ (is_smp_enabled ids = true /\ (place v x = Run me \/ place v x = Sleep me) /\ exists c, c <> me /\ place v' x = Flight c)).
Proof.
  intros Hg. unfold timer_ns. destruct (is_smp_enabled ids); [|eexists _, v, chain; split_and!; try done; intros x; by left].
  destruct (do_load_balancing_ok me lock_free M v chain Hg) as (M1 & v1 & chain1 & -> & Hg1 & [A1 A2 A3 A4 A5]). eexists _, v1, chain1. split_and!; try done; [by rewrite A4|].
  intros x. destruct (A5 x) as [?|[? ?]]; [by left|by right].
Qed.

Lemma on_timer_interrupt_ok me lock_free M v chain : good M (fun _ => []) v chain ->
  exists M' v' chain', on_timer_interrupt fuel ns_since_boot ids apic me lock_free M = Ok M' /\ good M' (fun _ => []) v' chain' /\
    (forall c, currents M' c = currents M c) /\ threads M' = threads M /\ timer_moves me M v v'.
Proof.
  intros Hg. unfold on_timer_interrupt.
  destruct (timer_balance_ok me lock_free M v chain Hg) as (M1 & v1 & chain1 & -> & Hg1 & Hw1 & Hc1 & Ht1 & Hn1 & Hp1). unfold wake_up_sleeping_threads, now at 1. rewrite Hn1.
  apply (good_tick ids apic T) in Hg1.
  destruct (good_wake_up fuel ids apic T HT fuel me (timer_ns M) (tick M1) _ v1 chain1 Hg1) as (M2 & v2 & chain2 & -> & Hg2 & Hs2 & Hdue & Hkept); [by eapply sleep_short; [done|apply Hg1]|].
  assert (Hc2 : forall c, currents M2 c = currents M c) by (intros c; rewrite (stable_currents _ _ Hs2); apply Hc1).
  assert (Ht2 : threads M2 = threads M) by (rewrite (sb_threads _ _ Hs2); exact Ht1).
  assert (Hpl : timer_moves me M v v2).
  { intros x. destruct (Hp1 x) as [E|(Hsmp & Hx & c & Hc & E)].
    - left. specialize (Hdue x). specialize (Hkept x). cbn in Hdue, Hkept. rewrite Hw1, E in *. destruct (decide _) as [[H1 H2]|H]; [by apply Hdue|].
      apply Hkept. destruct (decide (place v x = Sleep me)); [right|by left]. destruct (Z.leb_spec (wake_time_ns (nodes M x)) (timer_ns M)); [tauto|done].
    - right. split; [done|]. split; [done|]. exists c. split; [done|]. rewrite <- E. apply Hkept. left. by rewrite E. }
  unfold now. destruct (is_idle me M2).
  - destruct (timer_end_ok me true M2 _ v2 chain2 Hg2) as (M3 & -> & Hg3 & Hc3 & Ht3). eexists _, v2, chain2. split_and!; [done|done|intros c; by rewrite Hc3|congruence|done].
  - destruct (timer_end_ok me (m_next_reschedule_ns (schedulers (tick M2) me) <=? ns_since_boot (clock_reads M2)) (tick M2) (fun _ => []) v2 chain2) as (M3 & -> & Hg3 & Hc3 & Ht3); [by apply good_tick|].
    eexists _, v2, chain2. split_and!; [done|done|intros c; rewrite Hc3; apply Hc2|by rewrite Ht3|done].
Qed.

(** ** Yields *)
Lemma good_about_to_yield me p M E v chain : good M E v chain -> about_to_yield ids apic T (set_sched me (with_pending_reschedule p) M) E v chain me.
Proof.
  intros [G1 G2 G3 G4 G5 G6]. split; try done.
  - eapply (inv_touch ids T M _ 0); try done; [eapply inv_cur_ext; [|exact G1]|touch]. intros c. unfold currents. cbn. destruct (decide (me = c)) as [<-|Hc]; [by rewrite fn_lookup_insert|by rewrite fn_lookup_insert_ne].
  - intros c x _. apply G2.
  - intros x Hx _. by apply (G2 me).
  - intros c. cbn. destruct (decide (me = c)) as [<-|Hc]; [rewrite fn_lookup_insert|rewrite fn_lookup_insert_ne by done]; apply G3.
  - intros c Hc Ha. cbn. rewrite fn_lookup_insert_ne by done. by apply G4.
  - intros c _. apply G5.
  - intros c. cbn. destruct (decide (me = c)) as [<-|Hc]; [rewrite fn_lookup_insert|rewrite fn_lookup_insert_ne by done]; apply G6.
Qed.

Lemma good_may_yield me M E v chain : good M E v chain -> about_to_yield ids apic T M E v chain me.
Proof. intros [G1 G2 G3 G4 G5 G6]. split; try done; [intros c x _; apply G2|intros x Hx _; by apply (G2 me)]. Qed.

(** The running thread ends. *)
Lemma good_may_exit me M E v chain : good M E v chain -> currents M me <> 0 -> about_to_yield ids apic T (set_thread (currents M me) (with_state Terminated) M) E v chain me.
Proof.
  intros [G1 G2 G3 G4 G5 G6] Hc. pose proof (proj1 (iv_current _ _ _ _ _ _ _ _ G1 me _ Hc) eq_refl) as Hpl. split; try done; [|intros c x _; apply G2|intros x Hx _; by apply (G2 me)|intros c _; apply G4|intros c _; apply G5].
  destruct G1 as [Hl Hn Hk Hcpu Hch Hcur Hfl Hon Hlim Hbd]. split; try done. intros x. cbn. specialize (Hn x). destruct (decide (currents M me = x)) as [<-|Hx]; [rewrite fn_lookup_insert|by rewrite fn_lookup_insert_ne]. by rewrite Hpl in *.
Qed.
End balance.
