(* ===== verification/SchedulerSystem.v ===== *)
(** * The scheduler of the whole machine

    Where a thread is, read from the lists, the cores and the messages; the
    operations the rest of the kernel calls; and what they do to the threads. *)
From stdpp Require Import functions.
From S2P Require Import Prelude BanMath BanSort SchedulerNode SchedulerHeapNode SchedulerNodeCorrect SchedulerHeapLinks SchedulerHeapCorrect SchedulerHeapWalk Scheduler SchedulerChains SchedulerInv SchedulerCorrect SchedulerSteps SchedulerBalance.

(** ** Places *)
Section places.
Context (fuel : nat) (ids : list Z).

Definition queue_of (M : machine) (c : Z) : list Z :=
  match SchedulerQueue.walk fuel (node_links M) (SchedulerQueue.m_head (m_run_list (schedulers M c))) with Ok l => l | _ => [] end.
Definition sleepers_of (M : machine) (c : Z) : list Z :=
  match SchedulerHeap.walk fuel (node_links M) (SchedulerHeap.m_root (m_block_list (schedulers M c))) with Ok l => l | _ => [] end.

(** Every occurrence of the thread [x] at the processor [c], and on all. *)
Definition spots_at (M : machine) (x c : Z) : list loc :=
  map (fun _ => Run c) (filter (fun y => y = x) (queue_of M c)) ++ map (fun _ => Sleep c) (filter (fun y => y = x) (sleepers_of M c)) ++
  (if (m_current (schedulers M c) =? x) && negb (x =? 0) then [Current c] else []) ++
  map (fun _ => Flight c) (filter (fun y => y = x) (new_threads (p_smp_pending (processors M c)))).
Definition spots (M : machine) (x : Z) : list loc := flat_map (spots_at M x) ids.
Definition place_of (M : machine) (x : Z) : loc := default Nowhere (head (spots M x)).
End places.

Lemma filter_eq_nodup (l : list Z) x : NoDup l -> filter (fun y => y = x) l = if decide (x ∈ l) then [x] else [].
Proof.
  induction l as [|y l IH]; intros Hnd; [done|]. apply list.NoDup_cons in Hnd as [Hy Hnd]. rewrite filter_cons. specialize (IH Hnd). destruct (decide (y = x)) as [->|Hne].
  - rewrite IH, decide_False by done. rewrite decide_True; [done|by left].
  - rewrite IH. destruct (decide (x ∈ l)) as [Hx|Hx]; [rewrite decide_True; [done|by right]|]. rewrite decide_False; [done|]. rewrite elem_of_cons. intros [?|?]; congruence.
Qed.

Lemma flat_map_one {A} (f : Z -> list A) l c0 r : NoDup l -> (forall c, c ∈ l -> f c = if decide (c = c0) then r else []) -> flat_map f l = if decide (c0 ∈ l) then r else [].
Proof.
  induction l as [|c l IH]; intros Hnd Hf; [done|]. apply list.NoDup_cons in Hnd as [Hc Hnd]. cbn. rewrite IH by (try done; intros d Hd; apply Hf; by right). rewrite (Hf c) by (by left).
  destruct (decide (c = c0)) as [->|Hne].
  - rewrite (decide_False (P := c0 ∈ l)), decide_True by (done || by left). apply app_nil_r.
  - destruct (decide (c0 ∈ l)) as [Hx|Hx]; [rewrite decide_True; [done|by right]|]. rewrite decide_False; [done|]. rewrite elem_of_cons. intros [?|?]; congruence.
Qed.

Section system.
Context (fuel : nat) (ns_since_boot : nat -> Z) (ids : list Z) (apic : bool) (T : list Z).
Context (HT : (length T <= fuel)%nat) (HT0 : 0 ∉ T) (Hlim : forall c, c ∈ ids -> c < s_processors_size) (Hids : ids <> []) (Hdist : NoDup ids).
Context (Hclock : forall n, 0 <= ns_since_boot n < 2 ^ 63).

Abbreviation good := (good ids T apic).
Abbreviation place_of := (place_of fuel ids).
Abbreviation spots := (spots fuel ids).

Lemma spots_at_view M v chain x c : good M (fun _ => []) v chain -> spots_at fuel M x c = if decide (cpu_of (place v x) = Some c) then [place v x] else [].
Proof.
  intros Hg. pose proof (gd_inv _ _ _ _ _ _ _ Hg) as Hinv. pose proof (iv_lists _ _ _ _ _ _ _ _ Hinv) as Hl.
  destruct (walk_lists fuel ids T HT c M _ _ v chain Hinv) as (Hrs & ss & Hss & Hp). unfold spots_at, queue_of, sleepers_of. rewrite Hrs, Hss.
  destruct (qr_nodes _ _ _ (lo_queue _ _ _ _ Hl c)) as [Hnq _]. destruct (hl_nodes _ _ (hr_links _ _ _ (lo_heap _ _ _ _ Hl c))) as [Hnh _].
  pose proof (iv_once _ _ _ _ _ _ _ _ Hinv c) as Hno. rewrite app_nil_r in Hno. pose proof (iv_flight _ _ _ _ _ _ _ _ Hinv c x) as Hfl. rewrite app_nil_r in Hfl.
  rewrite !filter_eq_nodup by (done || by rewrite Hp). pose proof (lo_run _ _ _ _ Hl c x) as HR. pose proof (lo_sleep _ _ _ _ Hl c x) as HS. rewrite <- Hp in HS.
  assert (HC : (m_current (schedulers M c) =? x) && negb (x =? 0) = bool_decide (place v x = Current c)).
  { destruct (Z.eqb_spec x 0) as [->|Hx]; [rewrite andb_false_r, (zero_nowhere ids T HT0 _ _ _ _ _ _ Hinv); by rewrite bool_decide_eq_false_2|]. rewrite andb_true_r. pose proof (iv_current _ _ _ _ _ _ _ _ Hinv c x Hx) as Hcur. unfold currents in Hcur.
    destruct (Z.eqb_spec (m_current (schedulers M c)) x) as [E|E]; [rewrite bool_decide_eq_true_2; tauto|rewrite bool_decide_eq_false_2; tauto]. }
  rewrite HC, (decide_ext _ _ _ _ HR), (decide_ext _ _ _ _ HS), (decide_ext _ _ _ _ Hfl). destruct (place v x) as [|d|d|d|d]; cbn; repeat case_decide; repeat case_bool_decide; simplify_eq; done.
Qed.

(** A thread is in one place, and the invariant says where. *)
Lemma spots_view M v chain x : good M (fun _ => []) v chain -> spots M x = match place v x with Nowhere => [] | p => [p] end.
Proof.
  intros Hg. unfold spots. destruct (cpu_of (place v x)) as [c0|] eqn:Ec.
  - rewrite (flat_map_one _ _ c0 [place v x] Hdist), decide_True; [by destruct (place v x)|by apply (iv_cpu _ _ _ _ _ _ _ _ (gd_inv _ _ _ _ _ _ _ Hg) x)|].
    intros c _. rewrite (spots_at_view M v chain x c Hg), Ec. apply decide_ext. split; congruence.
  - rewrite (flat_map_one _ _ 0 [] Hdist); [destruct (decide _); by destruct (place v x)|]. intros c _. rewrite (spots_at_view M v chain x c Hg), Ec. by destruct (decide (c = 0)).
Qed.

Lemma place_of_view M v chain x : good M (fun _ => []) v chain -> place_of M x = place v x.
Proof. intros Hg. unfold place_of. rewrite (spots_view M v chain x Hg). by destruct (place v x). Qed.

(** The lists, chains, messages and fields of a machine agree. *)
Definition wf (M : machine) : Prop := exists v chain, good M (fun _ => []) v chain.

Lemma queue_of_view M v chain c : good M (fun _ => []) v chain -> queue_of fuel M c = run v c.
Proof. intros Hg. unfold queue_of. by rewrite (proj1 (walk_lists fuel ids T HT c M _ _ v chain (gd_inv _ _ _ _ _ _ _ Hg))). Qed.

Lemma none_outside : PROCESSOR_NONE ∉ ids.
Proof. intros H%Hlim. done. Qed.

(** ** The operations *)
Inductive action : Type :=
| Timer (lock_free : bool)
| Yield (regs : Z)
| RescheduleIfNeeded (regs : Z)
| Exit (regs : Z)
| Block (b wake_time m regs : Z)
| Unblock (b count : Z)
| Wake (t : Z)
| Add (t : Z)
| Messages.

Definition drop_result {A} (r : outcome (A * machine)) : outcome machine := let* (_, M) := r in Ok M.

(** The processor [me] performs an action. *)
Definition exec (me : Z) (a : action) (M : machine) : outcome machine :=
  match a with
  | Timer lock_free => on_timer_interrupt fuel ns_since_boot ids apic me lock_free M
  | Yield regs => drop_result (yield fuel ns_since_boot ids apic me regs M)
  | RescheduleIfNeeded regs => drop_result (reschedule_if_needed fuel ns_since_boot ids apic me regs M)
  | Exit regs => drop_result (on_exit fuel ns_since_boot ids apic me regs M)
  | Block b w m regs => drop_result (block_current_thread fuel ns_since_boot ids apic me b w m regs M)
  | Unblock b count => unblock fuel me b count M
  | Wake t => unblock_thread fuel me t M
  | Add t => add_thread ids me t M
  | Messages => handle_smp_messages fuel ids me M
  end.

Definition startable (M : machine) (t : Z) : Prop :=
  t ∈ T /\ place_of M t = Nowhere /\ m_state (threads M t) <> Terminated /\ (processor_id (nodes M t) = PROCESSOR_NONE \/ processor_id (nodes M t) ∈ ids).

Definition may_block (M : machine) (me m : Z) : Prop :=
  currents M me <> 0 /\ m_state (threads M (currents M me)) = Executing /\ may_release M m (currents M me).

(** What the callers ensure. *)
Definition allowed (me : Z) (a : action) (M : machine) : Prop :=
  me ∈ ids /\
  match a with
  | Exit _ => currents M me <> 0
  | Block _ _ m _ => may_block M me m
  | Unblock b _ => b <> 0
  | Wake t => processor_id (nodes M t) ∈ ids
  | Add t => startable M t
  | _ => True
  end.

Fixpoint exec_all (acts : list (Z * action)) (M : machine) : outcome machine :=
  match acts with
  | [] => Ok M
  | (me, a) :: acts' => let* M := exec me a M in exec_all acts' M
  end.

Fixpoint all_allowed (acts : list (Z * action)) (M : machine) : Prop :=
  match acts with
  | [] => True
  | (me, a) :: acts' => allowed me a M /\ forall M', exec me a M = Ok M' -> all_allowed acts' M'
  end.

(** *** Each operation keeps the machine well-formed *)
Lemma yield_wf me regs M v chain : about_to_yield ids apic T M (fun _ => []) v chain me -> p_smp_messages_disabled (processors M me) = false ->
  exists M', drop_result (yield fuel ns_since_boot ids apic me regs M) = Ok M' /\ wf M'.
Proof.
  intros Hay Hs. destruct (yield_ok fuel ns_since_boot ids apic T HT HT0 Hclock me M _ v chain _ regs Hay Hs eq_refl) as (regs' & M' & v' & -> & Hg & _). exists M'. split; [done|]. by exists v', chain.
Qed.

Lemma exec_wf me a M : wf M -> allowed me a M -> exists M', exec me a M = Ok M' /\ wf M'.
Proof.
  intros (v & chain & Hg) [Hme Ha]. pose proof (gd_smp _ _ _ _ _ _ _ Hg me) as Hsmp. destruct a; cbn [exec].
  - destruct (on_timer_interrupt_ok fuel ns_since_boot ids apic T HT HT0 Hclock me lock_free M v chain Hg) as (M' & v' & chain' & -> & Hg' & _). exists M'. split; [done|]. by exists v', chain'.
  - eapply yield_wf; [by apply good_may_yield|done].
  - unfold reschedule_if_needed. destruct (_ || _); [|exists M; split; [done|by exists v, chain]]. eapply yield_wf; [by apply good_about_to_yield|done].
  - unfold on_exit, current_thread, is_idle. change (m_current (schedulers M me)) with (currents M me). rewrite (proj2 (Z.eqb_neq _ _) Ha). eapply yield_wf; [by apply good_may_exit|done].
  - destruct Ha as (Hc & Hst & Hrel). destruct (block_current_ok fuel ns_since_boot ids apic T HT HT0 Hclock me b wake_time m regs _ M _ v chain Hg eq_refl Hc Hst Hrel) as (d & r & M' & v' & chain' & -> & Hg' & _).
    exists M'. split; [done|]. by exists v', chain'.
  - destruct (good_unblock fuel ids T HT apic me b count M _ v chain Hg Ha) as (M' & v' & chain' & -> & Hg' & _). exists M'. split; [done|]. by exists v', chain'.
  - destruct (good_unblock_thread fuel ids T HT apic me t M _ v chain Hg Ha) as (M' & v' & chain' & -> & Hg' & _). exists M'. split; [done|]. by exists v', chain'.
  - destruct Ha as (HtT & Hpl & Hst & Hproc). rewrite (place_of_view M v chain t Hg) in Hpl.
    destruct (good_add fuel ids T HT apic none_outside Hids me t M _ v chain Hg) as (M' & v' & chain' & c & -> & Hg' & _); [split_and!; try done; by intros ->|done|]. exists M'. split; [done|]. by exists v', chain'.
  - destruct (good_handle_messages fuel ids T HT apic none_outside HT0 me M v chain Hg Hme) as (M' & v' & chain' & -> & Hg' & _). exists M'. split; [done|]. by exists v', chain'.
Qed.

Lemma exec_all_wf acts M : wf M -> all_allowed acts M -> exists M', exec_all acts M = Ok M' /\ wf M'.
Proof.
  revert M. induction acts as [|[me a] acts IH]; intros M Hwf Hall; cbn in *; [by exists M|]. destruct Hall as [Ha Hall]. destruct (exec_wf me a M Hwf Ha) as (M1 & E1 & Hwf1). rewrite E1. by apply IH, Hall.
Qed.

(** ** The start *)

(** The machine before the schedulers are set up, with the threads [th]. *)
Definition blank (th : Z -> thread) : machine :=
  mk_machine (fun _ => new_node) th (mk_links (fun _ => 0) (fun _ => 0) (fun _ => 0)) (fun _ => 0) (fun _ => new_scheduler)
    (fun _ => mk_processor 0 0 false 0 false [] 0) (fun _ => new_info) 0 (fun _ => mk_mutex (-1) 0) 0.

Fixpoint boot (index : Z) (cpus : list Z) (idle : Z -> Z) (M : machine) : outcome machine :=
  match cpus with
  | [] => Ok M
  | c :: cpus' => let* M := initialize ids c index (Ok (idle c)) M in boot (index + 1) cpus' idle M
  end.

Definition no_view : view := mk_view (fun _ => []) (fun _ => []) (fun _ => Nowhere).

Lemma nodes_ok_nil : nodes_ok [].
Proof. split; [by apply list.NoDup_nil|apply not_elem_of_nil]. Qed.

Lemma blank_good th : (forall t, m_cpu_time_start_ns (th t) = UINT64_MAX) -> good (blank th) (fun _ => []) no_view (fun _ => []).
Proof.
  intros Hth. split; try done.
  - split; cbn; try done.
    + split; cbn; try done.
      * intros c. split; cbn; try done; [apply nodes_ok_nil|intros i Hi; lia].
      * intros c. split; cbn; [split; cbn; try (intros; lia); apply nodes_ok_nil|done|done].
      * intros c x. split; [by intros ?%elem_of_nil|done].
      * intros c x. split; [by intros ?%elem_of_nil|done].
    + split; [|intros b x Hb; split; [by intros ?%elem_of_nil|intros [E _]; by rewrite <- E in Hb]]. intros b Hb. split; cbn; try (intros; lia); apply nodes_ok_nil.
    + intros c x. split; [by intros ?%elem_of_nil|done].
    + intros c. by apply list.NoDup_nil.
    + intros c x Hx. by apply elem_of_nil in Hx.
  - intros c. apply (loads_none 8). lia.
  - intros c _. by right.
Qed.

Lemma initialize_good me index idle M v chain : good M (fun _ => []) v chain -> idle <> 0 -> 0 <= index < 256 ->
  exists M', initialize ids me index (Ok idle) M = Ok M' /\ good M' (fun _ => []) v chain.
Proof.
  intros [G1 G2 G3 G4 G5 G6] Hidle Hindex. unfold initialize. rewrite (proj2 (Z.eqb_neq _ _) Hidle). cbn [negb]. set (ns := u64 _ / _).
  assert (Hns : 0 <= ns < 2 ^ 63).
  { unfold ns, u64, wrap, s_load_balance_interval_ns, processor_count. rewrite Z.mod_small by lia. assert (1 <= Z.of_nat (length ids)) by (destruct ids; [done|cbn; lia]). split; [apply Z.div_pos; lia|].
    apply Z.div_lt_upper_bound; nia. }
  eexists. split; [done|]. split; try done.
  - eapply (inv_touch ids T M _ 0); try done; [eapply inv_cur_ext; [|exact G1]|split; try done]; intros c; unfold currents; cbn; (destruct (decide (me = c)) as [<-|Hc]; [by rewrite fn_lookup_insert|by rewrite fn_lookup_insert_ne]).
  - intros c. cbn. destruct (decide (me = c)) as [<-|Hc]; [rewrite fn_lookup_insert|rewrite fn_lookup_insert_ne by done]; apply G3.
  - intros c Ha. cbn. destruct (decide (me = c)) as [<-|Hc]; [rewrite fn_lookup_insert|rewrite fn_lookup_insert_ne by done]; by apply G4.
  - intros c. cbn. destruct (decide (me = c)) as [<-|Hc]; [by rewrite fn_lookup_insert|rewrite fn_lookup_insert_ne by done; apply G6].
Qed.

Lemma boot_good index cpus idle M v chain : good M (fun _ => []) v chain -> (forall c, c ∈ cpus -> idle c <> 0) -> 0 <= index -> index + Z.of_nat (length cpus) <= 256 ->
  exists M', boot index cpus idle M = Ok M' /\ good M' (fun _ => []) v chain.
Proof.
  revert index M. induction cpus as [|c cpus IH]; intros index M Hg Hidle Hi Hlen; cbn [boot length] in *; [by exists M|].
  destruct (initialize_good c index (idle c) M v chain Hg) as (M1 & -> & Hg1); [apply Hidle; by left|lia|]. apply IH; [done|intros d Hd; apply Hidle; by right|lia|lia].
Qed.

(** ** Theorems *)

(** Once every processor has its scheduler, the machine is well-formed and no
    thread is anywhere. *)
Theorem scheduler_boots th idle : (forall t, m_cpu_time_start_ns (th t) = UINT64_MAX) -> (forall c, c ∈ ids -> idle c <> 0) -> (length ids <= 255)%nat ->
  exists M, boot 0 ids idle (blank th) = Ok M /\ wf M /\ forall x, spots M x = [].
Proof.
  intros Hth Hidle Hlen. destruct (boot_good 0 ids idle (blank th) _ _ (blank_good th Hth) Hidle) as (M & E & Hg); [lia|lia|]. exists M. split_and!; [done|by eexists _, _|]. intros x. by rewrite (spots_view M _ _ x Hg).
Qed.

(** C2: No operation of the scheduler fails an assertion: from a well-formed machine
    every sequence of operations of the processors succeeds, ends in a well-formed
    machine, and leaves every thread in at most one place: one queue, one heap, one
    core or one message.  The callers ensure that a thread that is added is known,
    new and not terminated, that a thread that is woken by name has been added
    before, that only a running thread blocks or exits, and that it holds the mutex
    that it gives up.  A deleted thread keeps its fields, so that a late message for
    it finds it not blocked. *)
Theorem scheduler_safe acts M : wf M -> all_allowed acts M -> exists M', exec_all acts M = Ok M' /\ wf M' /\ forall x, (length (spots M' x) <= 1)%nat.
Proof.
  intros Hwf Hall. destruct (exec_all_wf acts M Hwf Hall) as (M' & E & Hwf'). exists M'. split_and!; [done|done|]. destruct Hwf' as (v & chain & Hg). intros x. rewrite (spots_view M' v chain x Hg). destruct (place v x); cbn; lia.
Qed.

(** A thread that has no processor yet cannot be woken: the message would go to a
    processor that does not exist. *)
Theorem unbound_wake_panics me t M : me <> PROCESSOR_NONE -> processor_id (nodes M t) = PROCESSOR_NONE -> exec me (Wake t) M = Panic.
Proof. intros Hme Ht. cbn [exec]. unfold unblock_thread, send_smp_message. rewrite Ht. by rewrite (proj2 (Z.eqb_neq PROCESSOR_NONE me)) by congruence. Qed.

(** C16: The timer interrupt queues exactly the sleeping threads of its processor that
    are due; with several processors, the load balancer may have sent a queued or
    sleeping thread to another one.  The running threads do not change. *)
Theorem timer_wakes_due me lock_free M : wf M -> exists M', exec me (Timer lock_free) M = Ok M' /\ wf M' /\
  (forall c, currents M' c = currents M c) /\
  (forall x, (place_of M' x = if decide (place_of M x = Sleep me /\ wake_time_ns (nodes M x) <= timer_ns ns_since_boot ids M) then Run me else place_of M x) \/
    (is_smp_enabled ids = true /\ (place_of M x = Run me \/ place_of M x = Sleep me) /\ exists c, c <> me /\ place_of M' x = Flight c)).
Proof.
  intros (v & chain & Hg). destruct (on_timer_interrupt_ok fuel ns_since_boot ids apic T HT HT0 Hclock me lock_free M v chain Hg) as (M' & v' & chain' & E & Hg' & Hc & _ & Hm).
  exists M'. split_and!; [done|by exists v', chain'|done|]. intros x. rewrite (place_of_view M v chain x Hg), (place_of_view M' v' chain' x Hg'). apply Hm.
Qed.

(** After every sequence of operations the timer of a processor fires before one
    of its sleeping threads is due, unless a yield that sets it is pending. *)
Theorem timer_deadline_covers acts M M' c x : wf M -> all_allowed acts M -> apic = true -> exec_all acts M = Ok M' -> place_of M' x = Sleep c ->
  m_has_pending_reschedule (schedulers M' c) = true \/ p_timer_deadline (processors M' c) <= wake_time_ns (nodes M' x).
Proof.
  intros Hwf Hall Hapic E Hx. destruct (exec_all_wf acts M Hwf Hall) as (M1 & E1 & v & chain & Hg). assert (M1 = M') as -> by congruence. rewrite (place_of_view M' v chain x Hg) in Hx.
  destruct (gd_deadline _ _ _ _ _ _ _ Hg c Hapic) as [H|H]; [by left|right; by apply H].
Qed.

(** *** Yields *)

(** The queue with the thread that gives up the processor at its end. *)
Definition turn (M : machine) (me : Z) : list Z :=
  queue_of fuel M me ++ (if bool_decide (currents M me <> 0 /\ m_state (threads M (currents M me)) <> Terminated) then [currents M me] else []).

Lemma turn_view M v chain me : good M (fun _ => []) v chain -> next_queue M v me (currents M me) = turn M me.
Proof.
  intros Hg. unfold next_queue, turn, put_back_place. rewrite (queue_of_view M v chain me Hg). destruct (decide (currents M me = 0)) as [E|E].
  - rewrite !bool_decide_eq_false_2 by tauto. by rewrite app_nil_r.
  - pose proof (proj1 (iv_current _ _ _ _ _ _ _ _ (gd_inv _ _ _ _ _ _ _ Hg) me _ E) eq_refl) as Hpl. rewrite (gd_settled _ _ _ _ _ _ _ Hg me _ Hpl).
    destruct (m_state (threads M (currents M me))); [rewrite !bool_decide_eq_true_2 by done; done..|]. rewrite !bool_decide_eq_false_2 by (intros [_ ?]; done). by rewrite app_nil_r.
Qed.

Lemma yield_turn me regs M v chain : good M (fun _ => []) v chain -> exists regs' M' v', yield fuel ns_since_boot ids apic me regs M = Ok (regs', M') /\ good M' (fun _ => []) v' chain /\
  resumes M M' v v' me (currents M me) regs regs' /\ currents M' me = default 0 (head (turn M me)) /\ queue_of fuel M' me = tail (turn M me).
Proof.
  intros Hg. destruct (yield_ok fuel ns_since_boot ids apic T HT HT0 Hclock me M _ v chain _ regs (good_may_yield ids apic T me M _ v chain Hg) (gd_smp _ _ _ _ _ _ _ Hg me) eq_refl) as (regs' & M' & v' & E & Hg' & Hr & _).
  exists regs', M', v'. split_and!; [done|done|done|by rewrite (rs_next _ _ _ _ _ _ _ _ Hr), (turn_view M v chain me Hg)|].
  by rewrite (queue_of_view M' v' chain me Hg'), (rs_run _ _ _ _ _ _ _ _ Hr), (turn_view M v chain me Hg).
Qed.

(** A yield is a round-robin switch: the thread that ran goes to the end of the
    queue unless it has ended, the first thread runs with its own registers and
    page table, and the registers of the old one are saved. *)
Theorem yield_switches me regs M : wf M -> exists regs' M', yield fuel ns_since_boot ids apic me regs M = Ok (regs', M') /\ wf M' /\
  currents M' me = default 0 (head (turn M me)) /\ queue_of fuel M' me = tail (turn M me) /\
  (forall x, head (turn M me) = Some x -> x <> currents M me -> regs' = m_yield_registers (threads M x) /\ p_page_table (processors M' me) = m_page_table (threads M x) /\
    p_sse_enabled (processors M' me) = (p_sse_thread (processors M' me) =? x)) /\
  (currents M me <> 0 -> m_state (threads M (currents M me)) = Executing ->
    if decide (currents M' me = currents M me) then regs' = regs else currents M' me <> 0 -> m_yield_registers (threads M' (currents M me)) = regs) /\
  (forall x, x <> currents M me -> x <> currents M' me -> place_of M' x = place_of M x).
Proof.
  intros (v & chain & Hg). destruct (yield_turn me regs M v chain Hg) as (regs' & M' & v' & E & Hg' & Hr & Hc & Hq). pose proof (turn_view M v chain me Hg) as Ht.
  exists regs', M'. split_and!; [done|by exists v', chain|done|done|..].
  - intros x Hx Hne. rewrite <- Ht in Hx. split; [by apply (rs_regs _ _ _ _ _ _ _ _ Hr x Hx)|by apply (rs_table _ _ _ _ _ _ _ _ Hr x Hx)].
  - intros Hn Hst. destruct (decide _) as [Ec|Ec]; [|intros Hn'; by apply (rs_saved _ _ _ _ _ _ _ _ Hr)]. rewrite Hc, <- Ht in Ec. destruct (head (next_queue M v me (currents M me))) as [x|] eqn:Hx; cbn in Ec; [|by rewrite <- Ec in Hn].
    by apply (rs_regs _ _ _ _ _ _ _ _ Hr x Hx).
  - intros x Hx Hx'. rewrite (place_of_view M v chain x Hg), (place_of_view M' v' chain x Hg'). by apply (rs_places _ _ _ _ _ _ _ _ Hr).
Qed.

(** A queued thread is not starved: after as many yields as there are threads
    before it, and one more, it runs. *)
Theorem queued_thread_runs me k x regs M : wf M -> queue_of fuel M me !! k = Some x -> exists M', exec_all (replicate (S k) (me, Yield regs)) M = Ok M' /\ currents M' me = x.
Proof.
  revert M. induction k as [|k IH]; intros M (v & chain & Hg) Hx; destruct (yield_turn me regs M v chain Hg) as (regs' & M' & v' & E & Hg' & _ & Hc & Hq);
    cbn [replicate exec_all exec]; unfold drop_result at 1; rewrite E.
  - exists M'. split; [done|]. rewrite Hc. unfold turn. destruct (queue_of fuel M me) as [|y l]; [done|]. by injection Hx as ->.
  - apply IH; [by exists v', chain|]. rewrite Hq. unfold turn. destruct (queue_of fuel M me) as [|y l]; [done|]. cbn in *. by apply lookup_app_l_Some.
Qed.

(** *** Wake-ups *)
Lemma blocker_sleeps M v chain x : good M (fun _ => []) v chain -> blocker (nodes M x) <> 0 -> exists c, place v x = Sleep c /\ processor_id (nodes M x) = c.
Proof.
  intros Hg Hb. pose proof (iv_nodes _ _ _ _ _ _ _ _ (gd_inv _ _ _ _ _ _ _ Hg) x) as Hn. destruct (place v x) as [|c|c|c|c] eqn:Ep; cbn in Hn; [tauto|tauto|exists c; tauto| |tauto].
  pose proof (gd_settled _ _ _ _ _ _ _ Hg c x Ep). tauto.
Qed.

Lemma chain_short M v chain b : good M (fun _ => []) v chain -> b <> 0 -> (length (chain b) <= length T)%nat.
Proof.
  intros Hg Hb. pose proof (gd_inv _ _ _ _ _ _ _ Hg) as Hinv. destruct (cr_nodes _ _ _ _ (co_rep _ _ _ _ (iv_chains _ _ _ _ _ _ _ _ Hinv) b Hb)) as [Hnd _].
  apply submseteq_length, NoDup_submseteq; [done|]. intros x [Hx _]%(co_mem _ _ _ _ (iv_chains _ _ _ _ _ _ _ _ Hinv) b x Hb).
  destruct (blocker_sleeps M v chain x Hg) as (c & Hpl & _); [congruence|]. apply (iv_known _ _ _ _ _ _ _ _ Hinv). by rewrite Hpl.
Qed.

(** [unblock] without a count. *)
Lemma unblock_all me b M v chain : good M (fun _ => []) v chain -> b <> 0 -> Z.of_nat (length T) < 2 ^ 32 -> exists M' v' chain', unblock fuel me b (2 ^ 32 - 1) M = Ok M' /\ good M' (fun _ => []) v' chain' /\
  (forall x, x <> 0 -> blocker (nodes M x) = b -> (place v x = Sleep me -> place v' x = Run me) /\
    forall c, place v x = Sleep c -> c <> me -> place v' x = Sleep c /\ UnblockThread x ∈ p_smp_pending (processors M' c)) /\
  (forall x, x <> 0 -> blocker (nodes M x) <> b -> place v' x = place v x) /\ (forall x, x <> 0 -> blocker (nodes M' x) <> b).
Proof.
  intros Hg Hb Hfew. pose proof (chain_short M v chain b Hg Hb) as Hlen. pose proof (iv_chains _ _ _ _ _ _ _ _ (gd_inv _ _ _ _ _ _ _ Hg)) as Hch.
  destruct (good_unblock fuel ids T HT apic me b (2 ^ 32 - 1) M _ v chain Hg Hb) as (M' & v' & chain' & -> & Hg' & _ & Hb' & _ & [W1 W2 W3 W4]).
  rewrite drop_ge in Hb' by lia. rewrite take_ge in W1, W2, W3 by lia. pose proof (iv_chains _ _ _ _ _ _ _ _ (gd_inv _ _ _ _ _ _ _ Hg')) as Hch'. pose proof (fun x => co_mem _ _ _ _ Hch b x Hb) as Hmem.
  exists M', v', chain'. split_and!; [done|done|..].
  - intros x Hx Hbx. assert (Hin : x ∈ chain b) by by apply Hmem. split; [by apply W1|]. intros c Hpl Hc. split; [rewrite W2; [done|right; congruence]|].
    pose proof (iv_nodes _ _ _ _ _ _ _ _ (gd_inv _ _ _ _ _ _ _ Hg) x) as Hn. rewrite Hpl in Hn. destruct Hn as [Hp _]. rewrite <- Hp. apply W3; congruence.
  - intros x Hx Hbx. apply W2. left. rewrite Hmem. tauto.
  - intros x Hx E. assert (Hin : x ∈ chain' b) by by apply (co_mem _ _ _ _ Hch' b x Hb). rewrite Hb' in Hin. by apply elem_of_nil in Hin.
Qed.

(** [unblock] wakes every thread that waits for the blocker: its own threads can
    run at once, the processors of the others are told; no thread waits for the
    blocker any more, and no other thread moves. *)
Theorem unblock_wakes_all me b M : wf M -> b <> 0 -> Z.of_nat (length T) < 2 ^ 32 -> exists M', exec me (Unblock b (2 ^ 32 - 1)) M = Ok M' /\ wf M' /\
  (forall x, x <> 0 -> blocker (nodes M x) = b -> (place_of M x = Sleep me /\ place_of M' x = Run me) \/
    exists c, c <> me /\ place_of M x = Sleep c /\ UnblockThread x ∈ p_smp_pending (processors M' c)) /\
  (forall x, x <> 0 -> blocker (nodes M x) <> b -> place_of M' x = place_of M x) /\ (forall x, x <> 0 -> blocker (nodes M' x) <> b).
Proof.
  intros (v & chain & Hg) Hb Hfew. destruct (unblock_all me b M v chain Hg Hb Hfew) as (M' & v' & chain' & E & Hg' & Hw & Hk & Hn). exists M'. split_and!; [done|by exists v', chain'|..|done].
  - intros x Hx Hbx. rewrite (place_of_view M v chain x Hg), (place_of_view M' v' chain' x Hg'). destruct (Hw x Hx Hbx) as [H1 H2]. destruct (blocker_sleeps M v chain x Hg) as (c & Hpl & _); [congruence|].
    destruct (decide (c = me)) as [->|Hc]; [left; by split; [|apply H1]|right; exists c; split_and!; [done|done|by apply H2]].
  - intros x Hx Hbx. rewrite (place_of_view M v chain x Hg), (place_of_view M' v' chain' x Hg'). by apply Hk.
Qed.

(** C6: A thread that blocks is not lost: once another processor, or its own,
    unblocks the blocker and the messages are handled, the thread can run. *)
Theorem blocked_thread_wakes me c b w m regs M : wf M -> me ∈ ids -> may_block M me m -> b <> 0 -> ns_since_boot (clock_reads M) < w -> Z.of_nat (length T) < 2 ^ 32 ->
  exists M1 M2 M3, exec me (Block b w m regs) M = Ok M1 /\ place_of M1 (currents M me) = Sleep me /\ blocker (nodes M1 (currents M me)) = b /\ wake_time_ns (nodes M1 (currents M me)) = w /\
    exec c (Unblock b (2 ^ 32 - 1)) M1 = Ok M2 /\ exec me Messages M2 = Ok M3 /\ place_of M3 (currents M me) = Run me.
Proof.
  intros (v & chain & Hg) Hme (Ht0 & Hst & Hrel) Hb Hw Hfew. set (t := currents M me) in *.
  destruct (block_current_ok fuel ns_since_boot ids apic T HT HT0 Hclock me b w m regs t M _ v chain Hg eq_refl Ht0 Hst Hrel) as (d & r & M1 & v1 & chain1 & E1 & Hg1 & Hs1 & _).
  destruct (Hs1 Hw) as (Hpl1 & Hw1 & Hch1 & _). specialize (Hch1 Hb). apply (co_mem _ _ _ _ (iv_chains _ _ _ _ _ _ _ _ (gd_inv _ _ _ _ _ _ _ Hg1)) b t Hb) in Hch1 as [Hb1 _].
  destruct (unblock_all c b M1 v1 chain1 Hg1 Hb Hfew) as (M2 & v2 & chain2 & E2 & Hg2 & Hw2 & _). destruct (Hw2 t Ht0 Hb1) as [Hsame Hother].
  destruct (good_handle_messages fuel ids T HT apic none_outside HT0 me M2 v2 chain2 Hg2 Hme) as (M3 & v3 & chain3 & E3 & Hg3 & _ & Hh).
  exists M1, M2, M3. cbn [exec]. rewrite E1, (place_of_view M1 v1 chain1 t Hg1), (place_of_view M3 v3 chain3 t Hg3). split_and!; try done. destruct (Hh t) as [H1 H2]. destruct (decide (c = me)) as [->|Hc].
  - specialize (Hsame Hpl1). destruct (decide (NewThread t ∈ p_smp_pending (processors M2 me))) as [Hn|Hn]; [apply H1; by left|]. rewrite H2; [done|]. intros [?|[_ ?]]; [done|congruence].
  - destruct (Hother me Hpl1) as [Hs Hm]; [congruence|]. apply H1. by right.
Qed.
End system.
