(* ===== verification/SchedulerChecks.v ===== *)
(** * The scheduler on a small machine

    Two processors and three threads: the hypotheses of the theorems hold in
    states that are reached from the start. *)
From stdpp Require Import functions.
From S2P Require Import Prelude BanMath BanSort SchedulerNode SchedulerHeapNode SchedulerNodeCorrect SchedulerHeapLinks SchedulerHeapCorrect Scheduler SchedulerChains SchedulerInv SchedulerCorrect SchedulerSteps SchedulerBalance SchedulerSystem.

Definition demo_clock (n : nat) : Z := Z.min (Z.of_nat n * 1000000) (2 ^ 62).
Definition demo_cpus : list Z := [0; 1].
Definition demo_all : list Z := [11; 12; 13].
Definition demo_threads (t : Z) : thread := mk_thread NotStarted (1000 + t) UINT64_MAX 0 0 false t (2000 + t) (t =? 12) (3000 + t).

Abbreviation demo_exec := (exec 10 demo_clock demo_cpus true).
Abbreviation demo_wf := (wf demo_cpus true demo_all).
Abbreviation demo_allowed := (allowed 10 demo_cpus demo_all).

Ltac decided := refine (bool_decide_unpack _ _); vm_compute; exact I.

Lemma demo_fuel : (length demo_all <= 10)%nat.
Proof. cbn. lia. Qed.
Lemma demo_zero : 0 ∉ demo_all.
Proof. decided. Qed.
Lemma demo_none : forall c, c ∈ demo_cpus -> c < s_processors_size.
Proof. by intros c [->|[->|?%elem_of_nil]%elem_of_cons]%elem_of_cons. Qed.
Lemma demo_some : demo_cpus <> [].
Proof. done. Qed.
Lemma demo_distinct : NoDup demo_cpus.
Proof. decided. Qed.
Lemma demo_bound n : 0 <= demo_clock n < 2 ^ 63.
Proof. unfold demo_clock. lia. Qed.

Definition force (r : outcome machine) : machine := match r with Ok M => M | _ => blank demo_threads end.

Lemma force_wf me a M : demo_wf M -> demo_allowed me a M -> demo_wf (force (demo_exec me a M)).
Proof.
  intros Hwf Ha. destruct (exec_wf 10 demo_clock demo_cpus true demo_all demo_fuel demo_zero demo_none demo_some demo_distinct demo_bound me a M Hwf Ha) as (M' & -> & Hwf'). done.
Qed.

Lemma force_allowed me a acts M : demo_allowed me a M -> all_allowed 10 demo_clock demo_cpus true demo_all acts (force (demo_exec me a M)) ->
  all_allowed 10 demo_clock demo_cpus true demo_all ((me, a) :: acts) M.
Proof. intros Ha Hall. split; [done|]. intros M' E. by rewrite E in Hall. Qed.

(** The first thread runs on processor 0, the third waits there, the second is on
    its way to processor 1. *)
Definition demo0 : machine := force (boot demo_cpus 0 demo_cpus (fun c => 100 + c) (blank demo_threads)).
Definition demo1 : machine := force (demo_exec 0 (Add 11) demo0).
Definition demo2 : machine := force (demo_exec 0 (Add 12) demo1).
Definition demo3 : machine := force (demo_exec 0 (Add 13) demo2).
Definition demo4 : machine := force (demo_exec 0 (Yield 1) demo3).

Ltac can := split; [decided|]; vm_compute; try done; split_and!; try done.

Lemma demo0_wf : demo_wf demo0.
Proof.
  destruct (boot_good 10 demo_cpus true demo_all demo_fuel demo_none demo_some demo_distinct 0 demo_cpus (fun c => 100 + c) (blank demo_threads) _ _
    (blank_good 10 demo_cpus true demo_all demo_fuel demo_none demo_threads (fun _ => eq_refl))) as (M & E & Hg).
  - intros c [->|[->|?%elem_of_nil]%elem_of_cons]%elem_of_cons; done.
  - done.
  - done.
  - unfold demo0. rewrite E. by eexists _, _.
Qed.

Lemma can_add t M : t ∈ demo_all -> place_of 10 demo_cpus M t = Nowhere -> m_state (threads M t) = NotStarted -> processor_id (nodes M t) = PROCESSOR_NONE -> demo_allowed 0 (Add t) M.
Proof. intros H1 H2 H3 H4. split; [decided|]. split_and!; [done|done|by rewrite H3|by left]. Qed.

Lemma demo4_wf : demo_wf demo4.
Proof.
  unfold demo4. apply force_wf; [|can]. unfold demo3. apply force_wf; [|apply can_add; [decided|by vm_compute..]]. unfold demo2. apply force_wf; [|apply can_add; [decided|by vm_compute..]].
  unfold demo1. apply force_wf; [|apply can_add; [decided|by vm_compute..]]. apply demo0_wf.
Qed.

Lemma scheduler_boots_witness : (length demo_cpus <= 255)%nat /\ exists M, boot demo_cpus 0 demo_cpus (fun c => 100 + c) (blank demo_threads) = Ok M /\ demo_wf M /\ forall x, spots 10 demo_cpus M x = [].
Proof.
  split; [cbn; lia|]. apply (scheduler_boots 10 demo_cpus true demo_all demo_fuel demo_zero demo_none demo_some demo_distinct demo_threads (fun c => 100 + c)); [done| |cbn; lia].
  intros c [->|[->|?%elem_of_nil]%elem_of_cons]%elem_of_cons; done.
Defined.

(** The first thread blocks for a while, the third runs, and processor 1 gets the second. *)
Definition demo_acts : list (Z * action) := [(0, Block 7 50000000 0 2); (1, Messages); (1, RescheduleIfNeeded 3); (1, Timer true); (1, Unblock 7 (2 ^ 32 - 1)); (1, Wake 13); (0, Messages)].

Lemma demo_acts_ok : all_allowed 10 demo_clock demo_cpus true demo_all demo_acts demo4.
Proof.
  unfold demo_acts. apply force_allowed. { can. by left. } do 4 (apply force_allowed; [can|]). apply force_allowed; [split; decided|]. apply force_allowed; [can|]. done.
Qed.

Lemma scheduler_safe_witness : exists M', exec_all 10 demo_clock demo_cpus true demo_acts demo4 = Ok M' /\ demo_wf M' /\ forall x, (length (spots 10 demo_cpus M' x) <= 1)%nat.
Proof.
  apply (scheduler_safe 10 demo_clock demo_cpus true demo_all demo_fuel demo_zero demo_none demo_some demo_distinct demo_bound); [apply demo4_wf|apply demo_acts_ok].
Defined.

(** The state in which the first thread sleeps. *)
Definition demo5 : machine := force (demo_exec 0 (Block 7 50000000 0 2) demo4).

Lemma demo5_wf : demo_wf demo5.
Proof. unfold demo5. apply force_wf; [apply demo4_wf|]. can. by left. Qed.

Lemma timer_wakes_due_witness : place_of 10 demo_cpus demo5 11 = Sleep 0 /\ exists M', demo_exec 0 (Timer true) demo5 = Ok M' /\ demo_wf M' /\
  (forall c, currents M' c = currents demo5 c) /\
  (forall x, (place_of 10 demo_cpus M' x = if decide (place_of 10 demo_cpus demo5 x = Sleep 0 /\ wake_time_ns (nodes demo5 x) <= timer_ns demo_clock demo_cpus demo5) then Run 0 else place_of 10 demo_cpus demo5 x) \/
    (is_smp_enabled demo_cpus = true /\ (place_of 10 demo_cpus demo5 x = Run 0 \/ place_of 10 demo_cpus demo5 x = Sleep 0) /\ exists c, c <> 0 /\ place_of 10 demo_cpus M' x = Flight c)).
Proof.
  split; [by vm_compute|]. apply (timer_wakes_due 10 demo_clock demo_cpus true demo_all demo_fuel demo_zero demo_some demo_distinct demo_bound 0 true demo5 demo5_wf).
Defined.

Lemma timer_deadline_covers_witness : exists M', exec_all 10 demo_clock demo_cpus true [(0, Block 7 50000000 0 2)] demo4 = Ok M' /\ place_of 10 demo_cpus M' 11 = Sleep 0 /\
  (m_has_pending_reschedule (schedulers M' 0) = true \/ p_timer_deadline (processors M' 0) <= wake_time_ns (nodes M' 11)).
Proof.
  assert (Hall : all_allowed 10 demo_clock demo_cpus true demo_all [(0, Block 7 50000000 0 2)] demo4) by (apply force_allowed; [can; by left|done]).
  destruct (exec_all_wf 10 demo_clock demo_cpus true demo_all demo_fuel demo_zero demo_none demo_some demo_distinct demo_bound _ demo4 demo4_wf Hall) as (M' & E & _).
  assert (Hp : place_of 10 demo_cpus M' 11 = Sleep 0).
  { assert (force (exec_all 10 demo_clock demo_cpus true [(0, Block 7 50000000 0 2)] demo4) = M') as <- by by rewrite E. by vm_compute. }
  exists M'. split; [exact E|]. split; [exact Hp|].
  exact (timer_deadline_covers 10 demo_clock demo_cpus true demo_all demo_fuel demo_zero demo_none demo_some demo_distinct demo_bound _ demo4 M' 0 11 demo4_wf Hall eq_refl E Hp).
Defined.

Lemma yield_switches_witness : turn 10 demo4 0 = [13; 11] /\ exists regs' M', yield 10 demo_clock demo_cpus true 0 5 demo4 = Ok (regs', M') /\ currents M' 0 = 13 /\ queue_of 10 M' 0 = [11] /\ regs' = 1013.
Proof.
  assert (Ht : turn 10 demo4 0 = [13; 11]) by by vm_compute. split; [done|].
  destruct (yield_switches 10 demo_clock demo_cpus true demo_all demo_fuel demo_zero demo_some demo_distinct demo_bound 0 5 demo4 demo4_wf) as (regs' & M' & E & _ & Hc & Hq & Hr & _ & _).
  rewrite Ht in Hc, Hq, Hr. exists regs', M'. split_and!; [exact E|exact Hc|exact Hq|]. by destruct (Hr 13 eq_refl ltac:(by vm_compute)) as [-> _].
Defined.

Lemma queued_thread_runs_witness : queue_of 10 demo4 0 !! 0%nat = Some 13 /\ exists M', exec_all 10 demo_clock demo_cpus true (replicate 1 (0, Yield 5)) demo4 = Ok M' /\ currents M' 0 = 13.
Proof.
  assert (Hq : queue_of 10 demo4 0 !! 0%nat = Some 13) by by vm_compute. split; [exact Hq|].
  exact (queued_thread_runs 10 demo_clock demo_cpus true demo_all demo_fuel demo_zero demo_bound 0 0 13 5 demo4 demo4_wf Hq).
Defined.

Lemma unblock_wakes_all_witness : blocker (nodes demo5 11) = 7 /\ exists M', demo_exec 1 (Unblock 7 (2 ^ 32 - 1)) demo5 = Ok M' /\ UnblockThread 11 ∈ p_smp_pending (processors M' 0).
Proof.
  assert (Hb : blocker (nodes demo5 11) = 7) by by vm_compute. split; [exact Hb|].
  destruct (unblock_wakes_all 10 demo_clock demo_cpus true demo_all demo_fuel demo_zero demo_some demo_distinct 1 7 demo5 demo5_wf) as (M' & E & _ & Hw & _); [done|done|]. exists M'. split; [exact E|].
  assert (Hp : place_of 10 demo_cpus demo5 11 = Sleep 0) by by vm_compute. destruct (Hw 11) as [[H _]|(c & _ & H & Hm)]; [done|done|by rewrite Hp in H|]. rewrite Hp in H. by injection H as <-.
Defined.

Lemma blocked_thread_wakes_witness : currents demo4 0 = 11 /\ exists M1 M2 M3, demo_exec 0 (Block 7 50000000 0 2) demo4 = Ok M1 /\ place_of 10 demo_cpus M1 11 = Sleep 0 /\
  demo_exec 1 (Unblock 7 (2 ^ 32 - 1)) M1 = Ok M2 /\ demo_exec 0 Messages M2 = Ok M3 /\ place_of 10 demo_cpus M3 11 = Run 0.
Proof.
  assert (Hc : currents demo4 0 = 11) by by vm_compute. split; [exact Hc|].
  destruct (blocked_thread_wakes 10 demo_clock demo_cpus true demo_all demo_fuel demo_zero demo_none demo_some demo_distinct demo_bound 0 1 7 50000000 0 2 demo4 demo4_wf) as (M1 & M2 & M3 & E1 & P1 & _ & _ & E2 & E3 & P3).
  - decided.
  - split_and!; [by vm_compute|by vm_compute|by left].
  - done.
  - by vm_compute.
  - done.
  - rewrite Hc in P1, P3. exists M1, M2, M3. split_and!; done.
Defined.

Lemma unbound_wake_panics_witness : demo_exec 0 (Wake 12) demo0 = Panic.
Proof. by apply (unbound_wake_panics 10 demo_clock demo_cpus true). Defined.
